(* ===== verification/_CoqProject ===== *)
-Q . S2P
Prelude.v
MachineInt.v
SplitMix.v
Ordered.v
Clock.v
Bytes.v
Identifiers.v
WireVersion.v
LobbyLifecycle.v
Territory.v
Stance.v
Wire.v
Model.v
Sha256.v
Session.v
IpText.v
Rehearsal.v
Election.v
Spur.v
Combat.v
DiveMath.v
Aim.v
WeaponKernel.v
WeaponRun.v
ShotLedger.v
Targets.v
CombatAuthority.v
AuthorityRun.v
PeerSession.v
PeerRun.v
PeerSecure.v
DiveVectors.v
HorseRunout.v
SaddleDive.v
SaddleDiveRun.v
SaddleDiveSpec.v
SaddleDiveDamage.v
M3.v
HorseVitality.v
Recall.v
OnFoot.v
ActorGameplay.v
AuthorityBank.v
M3Combat.v
M3CombatRun.v
BountyPlacement.v
Bounty.v
BountyRun.v
LiveState.v
LiveStateRun.v
LiveWire.v
LiveSession.v
LiveDemo.v
LiveElection.v
LiveSigned.v
LiveFragments.v
LiveRun.v
LiveStream.v
Supervision.v
SupervisionDemo.v
SupervisionLedger.v
SupervisionRun.v
ServerCrypto.v
NetworkInspection.v
NetworkInspectionRun.v
Store.v
StoreRun.v
NetworkView.v
NetworkViewRun.v
LobbyService.v
LobbyServiceRun.v
LobbyServiceAuthority.v
LobbyServiceMatch.v
LobbyServiceJoin.v
ServiceCleanup.v
ServiceCleanupRun.v
SessionEndpoints.v
SessionEndpointsRun.v
LobbyCreate.v
LobbyCreateRun.v
