(* ===== verification/Prelude.v ===== *)
(** * Spurfire: a verification of the protocol, the peer sessions and the lobby service

    Spurfire is a peer-to-peer game of mounted combat. Its crate
    [crates/spurfire-protocol] holds the rules every peer must agree on: the
    identifiers and versions on the wire, the choice of the peer that acts as
    authority, and the deterministic simulation the authority runs and hands to its
    successor. [crates/spurfire-net] carries it between peers in signed envelopes;
    [crates/spurfire-server] keeps the lobbies in which riders meet, the real networks
    behind them, and the supervised runs of a protected alpha. This library models the
    logic of the three as executable functions over integers, lists and finite maps,
    and proves what makes it correct. A file name without a directory is under
    [src/crates/spurfire-protocol/src/]; [net/] and [server/] stand for the [src/] of
    the other two crates.

    ** Shared vocabulary

    - [Prelude]: results, the state-and-error steps of [&mut self] methods
      (a failed step keeps the mutations made before the early return), record
      update, case-splitting tactics.
    - [MachineInt]: machine integers as [Z] with their ranges, and the wrapping,
      saturating and checked operations. [Bytes]: text as bytes.
    - [Ordered]: [KeyOrder], the interface of [derive(Ord)], and the iteration
      order of a [BTreeMap]; every component that sorts or iterates is proved
      against this interface. [Clock]: ticks, timestamps and receipts.

    ** Wire and lobby ([id.rs], [version.rs], [state.rs], [radius.rs],
       [stance.rs], [model.rs])

    - [Identifiers], [WireVersion]: parsing accepts exactly the canonical
      spellings and inverts printing. [Stance]: wire ids of stances.
    - [LobbyLifecycle]: the lobby's transitions as a step relation; every lobby
      can reach its end. [Territory]: the radius formula, with the bisection's
      termination. [Model]: lobby rows and their validation.

    ** Authority election ([election.rs])

    - [Sha256], [Election]: the fingerprint hash, the canonical bytes, scoring
      and the election. Peers agree whatever order rows arrive in; the winner is
      the best participant; exactly the usable rows are scored; the published
      input reproduces the election; scores are bounded and monotone.

    ** The authority's simulation ([m3.rs], [m4.rs], [combat.rs])

    - [Combat]: weapon rows, damage and cadence; quantized directions in IEEE
      double precision, executable through the Standard Library's [SpecFloat].
    - [Spur]: the Spur meter; credits count once and a charge lasts its ticks.
    - [HorseVitality], [Recall], [OnFoot]: the three kernels of a rider, each with
      its invariant over all runs, and its timing in closed form: regeneration
      and the bolt, the cooldown and the return phases, stun, roll and sprint.
    - [ActorGameplay]: the four kernels composed in one tick
      ([ActorGameplayKernel::advance_tick]). Its ticks never report an inconsistent
      state, damage is transactional, and its checkpoint restores it.
    - [AuthorityBank]: all actors and the horse routes; routing survives every
      operation, and a handoff restores only safe banks, under the next epoch.

    ** Mounted combat ([combat/kernel.rs], [combat.rs], [saddle_dive.rs])

    - [SplitMix], [DiveMath]: the seeded generator of [m5.rs]; gravity, airtime,
      shot caps and the sway of a dive. [Aim]: vectors, riding state, sway, recoil
      and the cone of a shot in IEEE doubles; the sines of [libm] are the interface
      [Libm], with the documented facts the theorems use.
    - [WeaponKernel]: [CombatKernel], ammunition, reloads, pickups and fire
      requests of one shooter. [WeaponRun]: its invariant, when it fires, and its
      refinement of an abstract ledger of rounds, shot indices, cadence and caps.
    - [ShotLedger]: accepted shots and late results, each notified at most once.
    - [Targets]: the registry of targets, the ring of past poses (proved equal to
      the lookup in the full log within the rewind window), and the nearest hit.
    - [CombatAuthority]: validation of a command and its resolution. [AuthorityRun]:
      acceptance as an equivalence, the exact effects of accepted and refused
      commands, and a whole match of them: no panic, nothing counted twice.

    ** The saddle dive ([saddle_dive.rs])

    - [DiveVectors]: planar vectors on integers, CORDIC rotation and arctangent,
      the launch cone, the slope of a landing, and the clamp of a step, whose loop
      terminates ([clamp_origin_spec]). A launch goes forward.
    - [HorseRunout]: the riderless horse; it only slows, never passes its cap, and
      an adapter that applies the clamp is always accepted.
    - [SaddleDive]: [SaddleDiveKernel] and [RiderHealthKernel], every operation on
      every branch. [SaddleDiveRun]: the rows as a map that evolves by small record
      steps, the rider's lifecycle as a step relation, and the invariant of one
      operation. [SaddleDiveSpec]: over any operations, the states follow the
      lifecycle, recovery is a function of landing and clock, each dive is reported
      finally once, and shots are accounted. [SaddleDiveDamage]: the damage of a
      landing's window is exactly what was observed in it, in any order.

    ** The Bounty Run match ([m5.rs])

    - [BountyPlacement]: objective and respawn points.
    - [Bounty]: [BountyMatchKernel] and all its operations. [BountyRun]: the
      invariant of a match over any events, refused ones included, and its
      consequences: the schedules as functions of the clock, the exact effects of
      an elimination, respawns, the winner, canonical snapshots, the handoff.

    ** Combat of the match as one state ([m3_combat.rs])

    - [M3Combat]: [M3CombatAuthority], the rifles, targets and actors as one
      transactional state. [M3CombatRun]: the three stay one graph over any operations,
      damage lands once, and a handoff reassembles the same match.

    ** Sessions of peers ([session.rs], [net/lib.rs], [net/v2.rs])

    - [Wire], [Session]: canonical bytes, roster manifests and their validation.
      SHA-256 and Ed25519 are the interface [Crypto]; the facts assumed of them are
      [CryptoSound].
    - [PeerSession]: sessions of wire 1.2: envelopes, codec checks, replay, authority
      claims, migration and the secure gate; JSON is the interface [PeerJson].
      [PeerRun]: no result is applied twice, and no envelope as long as its sender is
      not added anew; the office of the authority refines an
      abstract move, a live authority keeps it, sessions of the same view
      migrate alike. [PeerSecure]: what
      the signed gate accepts.
    - [LiveState], [LiveWire], [LiveSession]: wire 2.0, with deltas, match states,
      fragmented checkpoints and the audited election; JSON is [LiveJson].
      [LiveStateRun]: deltas rebuild what they were made from. [LiveElection],
      [LiveSigned], [LiveFragments], [LiveRun], [LiveStream]: the successor is the best
      survivor, the signature binds the envelope, fragments arrive in any order,
      refused envelopes change nothing, and whatever a receiver rebuilds its authority
      has taken. [LiveDemo]: two sessions that talk to each other.

    ** Supervised runs ([server/rehearsal.rs], [server/supervision.rs])

    - [Rehearsal]: signed receipts, the measurements they are compared with, recovery;
      the text of receipts is [ReceiptText].
    - [Supervision]: the hash-chained ledger with its head, its two files, the frames
      and the guard of the broker, and the supervised cleanup; JSON is
      [SupervisionJson], provider, vault, lease and clock are [Surroundings], the disk
      fails as a list of outcomes says. [SupervisionDemo]: concrete ledgers.
      [SupervisionLedger]: valid ledgers are replayed histories, the last hash stands
      for the history, the ledger survives a crash at any point, the guard refines it.
      [SupervisionRun]: the cleanup fails closed, and releases exactly on its proof.

    ** The lobby server ([server/crypto.rs], [network_inspection.rs], [server/store.rs],
       [server/service.rs])

    - [ServerCrypto]: the text of tokens, one for each.
    - [NetworkInspection]: facts, views and their whole check. [NetworkInspectionRun]:
      the check never panics, a view that passes is truthful and adds up.
    - [Store]: records of lobbies, capabilities, creation, replacement, the lease of the
      one real network, time transitions, retention, loading. [StoreRun]: over any run
      from any file at most one real network, freed only by proof; creations are
      idempotent; a protected receipt admits once.
    - [NetworkView]: the view built of a record; [NetworkViewRun]: which are served.
    - [LobbyService]: each request on the record of a lobby, with the answers of the
      provider and the store as arguments. [LobbyServiceRun]: the invariant of a lobby
      over any requests. [LobbyServiceAuthority]: one authority per epoch.
      [LobbyServiceMatch]: which starts, heartbeats and results are accepted.
      [LobbyServiceJoin]: retries of a join reach the provider once.
    - [ServiceCleanup]: the cleanup of provider resources with the log of its writes and
      calls. [ServiceCleanupRun]: absence takes two observations five seconds apart,
      nothing is destroyed before the intent is saved.
    - [IpText]: the text of addresses as the standard library reads it.
      [SessionEndpoints]: the registered endpoints of a session, the proof of a session
      key, the signed manifest and the projection. [SessionEndpointsRun]: a session is
      signed for exactly its riders.
    - [LobbyCreate]: the creation of a lobby, with the log of its store operations and
      provider calls. [LobbyCreateRun]: the store reserves before the provider is called,
      and a lobby opens only on the network it was handed.

    ** Conventions and bounds

    A Rust struct is a record with the struct's fields, an enum an inductive type;
    names that would clash carry a prefix ([horse_advance_tick],
    [recall_advance_tick], [advance_tick] in [Spur] and [Bounty]). [u64] ticks
    saturate as in the source; theorems about absolute times assume that the run
    ends before the clock's last minute-scale stretch ([tick_horizon], or a start
    tick of at most [u64_max - 60000]), which is some ten billion years after the
    first tick. Loops use fuel proved sufficient: 64 or 128 bisection rounds
    ([integer_sqrt_at_sqrt]), the four return phases ([return_phases_fuel]), the
    padding of SHA-256, and for the reveal and objective loops one round per
    cadence up to the end of the match ([reveal_loop_complete],
    [objective_loop_complete]), the planar step itself for the clamp of a motion
    ([shrink_step]), and three rounds for the recovery of a rider, who has two
    boundaries to pass ([recovery_spec]). Messages are cut into chunks with their own
    length as fuel.

    Some lemmas record where the code departs from its comments or from what it
    needs: [overlong_roll_is_invalid], [stale_pending_refused],
    [second_bolt_refused], [objective_point_in_edge_buffer],
    [stale_damage_counts_for_assist], [finished_checkpoint_refused],
    [final_row_still_changes], [zero_node_key_unbound], [leave_claim_refused],
    [short_bounty_roster_accepted], [protected_ledger_never_opens],
    [key_forgotten_with_lobby], [proof_before_erasure_unserved],
    [match_dies_with_a_leaver], [service_elections_degraded],
    [receipt_needs_no_invitation], [protected_cleanup_quarantines],
    [respelled_address_stalls_session], [dry_create_takes_alpha_lobby],
    [later_generation_locks_creator_out], [preference_beats_smallest],
    [readded_player_replays].

    ** Not modelled

    Serde encodings (JSON field names and the text of errors), accessors that return a
    field, debug assertions. Of the peers: the buffers of [net/replication.rs], the
    sockets of [net/rustscale.rs] and the proof binaries. Of the server: HTTP routing,
    headers and request budgets, observation of the provider and reconciliation at
    startup, locks and file I/O, and the calls to the cloud in [server/provider.rs],
    [server/vault.rs] and [server/lease_authority.rs], for whose every answer the
    service is proved. The Godot bindings, the command-line tools and vendored code are
    left out. That recorded poses normalise is not assumed: a recorded
    direction has passed [is_normalized], and such directions normalise
    ([normalized_direction]). *)

From Stdlib Require Import ZArith Lia.
From stdpp Require Export base numbers list option sorting.
From Stdlib Require Export Lia ZArith.

(** ** Results, as the source's [Result<T, E>] *)

Inductive result (A E : Type) : Type :=
| Ok (a : A)
| Err (e : E).
Arguments Ok {A E} a.
Arguments Err {A E} e.

#[export] Instance result_eq_dec {A E} `{EqDecision A} `{EqDecision E} : EqDecision (result A E).
Proof. solve_decision. Defined.

Definition is_ok {A E} (r : result A E) : bool :=
  match r with Ok _ => true | Err _ => false end.

(** The injection tactic also reduces the payload; this lemma does not. *)
Lemma Ok_inj {A E} (a b : A) : @Ok A E a = Ok b -> a = b.
Proof. by intros [= ->]. Qed.

(** [Option::is_some_and] and [Option::is_none_or]. *)
Definition is_some_and {A} (o : option A) (f : A -> bool) : bool :=
  match o with Some a => f a | None => false end.
Definition is_none_or {A} (o : option A) (f : A -> bool) : bool :=
  match o with Some a => f a | None => true end.
Definition is_some {A} (o : option A) : bool :=
  match o with Some _ => true | None => false end.
Definition is_none {A} (o : option A) : bool := negb (is_some o).

(** The outcome of code with an [expect]: the error it returns, or the panic. *)
Inductive fault (E : Type) : Type :=
| Raised (e : E)
| Panicked.
Arguments Raised {E} e.
Arguments Panicked {E}.

Definition map_err {A E F} (f : E -> F) (r : result A E) : result A F :=
  match r with Ok a => Ok a | Err e => Err (f e) end.

(** ** State-passing computations that can fail

    A [&mut self] method returning [Result] keeps the mutations made before
    an early return, so a step returns the new state on both outcomes. *)

Definition M (S E A : Type) : Type := S -> S * result A E.

Definition sret {S E A} (a : A) : M S E A := fun s => (s, Ok a).
Definition sfail {S E A} (e : E) : M S E A := fun s => (s, Err e).
Definition sget {S E} : M S E S := fun s => (s, Ok s).
Definition smodify {S E} (f : S -> S) : M S E unit := fun s => (f s, Ok tt).
Definition sbind {S E A B} (m : M S E A) (k : A -> M S E B) : M S E B :=
  fun s => match m s with
           | (s', Ok a) => k a s'
           | (s', Err e) => (s', Err e)
           end.

Declare Scope step_scope.
Delimit Scope step_scope with step.
Notation "'let*' x ':=' m 'in' k" := (sbind m (fun x => k))
  (at level 10, x name, m at level 100, k at level 200) : step_scope.
Notation "'do*' m 'in' k" := (sbind m (fun _ => k))
  (at level 10, m at level 100, k at level 200) : step_scope.

(** Inversion of a sequence of steps. *)
Lemma sbind_inv {S E A B} (m : M S E A) (f : A -> M S E B) s s' r :
  sbind m f s = (s', r) ->
  (exists s1 a, m s = (s1, Ok a) /\ f a s1 = (s', r)) \/ (exists e, m s = (s', Err e) /\ r = Err e).
Proof. unfold sbind. destruct (m s) as [s1 [a|e]]; naive_solver. Qed.

(** ** Functional record update

    [Settable R] holds the eta-expansion of the record [R]; the setter of a
    field is that expansion with the field's projection replaced. *)

Class Settable (R : Type) := eta_expand : R -> R.
Class FieldSetter {R T : Type} (proj : R -> T) := set_field : (T -> T) -> R -> R.
Arguments set_field {R T} proj {_} f r /.

Ltac derive_setter :=
  lazymatch goal with
  | |- @FieldSetter ?R ?T ?proj =>
      unfold FieldSetter;
      let f := fresh "f" in
      let r := fresh "r" in
      intros f r;
      let inst := constr:(_ : Settable R) in
      let expanded := eval hnf in (inst r) in
      let abstracted := eval pattern (proj r) in expanded in
      lazymatch abstracted with
      | ?hole _ => let t := eval cbv beta in (hole (f (proj r))) in exact t
      end
  end.
#[export] Hint Extern 1 (FieldSetter _) => derive_setter : typeclass_instances.

Declare Scope record_scope.
Notation "r <| proj := v |>" := (set_field proj (fun _ => v) r)
  (at level 1, left associativity, v at level 200) : record_scope.
Open Scope record_scope.

(** ** Shared automation *)

(** Case split on every [if] and [match] of the goal and hypotheses, turning
    the boolean tests into hypotheses that [lia] reads. *)
Ltac split_ifs :=
  repeat match goal with
  | |- context [if ?b then _ else _] => destruct b eqn:?
  | H : context [if ?b then _ else _] |- _ => destruct b eqn:?
  end.
Ltac split_matches :=
  repeat (case_match; simplify_eq/=).

(** Booleans to propositions; what is left is arithmetic. *)
Ltac btrue :=
  repeat match goal with
  | H : (_ && _) = true |- _ => let H1 := fresh in let H2 := fresh in apply andb_true_iff in H; destruct H as [H1 H2]
  | H : (_ || _) = false |- _ => let H1 := fresh in let H2 := fresh in apply orb_false_iff in H; destruct H as [H1 H2]
  | H : negb _ = true |- _ => apply negb_true_iff in H
  | H : negb _ = false |- _ => apply negb_false_iff in H
  | H : Is_true _ |- _ => apply Is_true_eq_true in H
  end.
Ltac bsplit :=
  repeat match goal with
  | |- (_ && _) = true => apply andb_true_iff; split
  | |- (_ || _) = false => apply orb_false_iff; split
  | |- negb _ = true => apply negb_true_iff
  end.

Lemma is_none_or_true {A} (o : option A) f :
  is_none_or o f = true <-> (forall a, o = Some a -> f a = true).
Proof. destruct o; simpl; naive_solver. Qed.
Lemma is_some_and_true {A} (o : option A) f :
  is_some_and o f = true <-> (exists a, o = Some a /\ f a = true).
Proof. destruct o; simpl; naive_solver. Qed.
Lemma is_some_true {A} (o : option A) : is_some o = true <-> is_Some o.
Proof. by destruct o; split; intros Ho. Qed.
Lemma is_none_true {A} (o : option A) : is_none o = true <-> o = None.
Proof. by destruct o. Qed.
Lemma is_some_and_false {A} (o : option A) f :
  is_some_and o f = false <-> (forall a, o = Some a -> f a = false).
Proof. destruct o; simpl; naive_solver. Qed.

(** Counting through a map. *)
Lemma length_filter_fmap {A B} (f : A -> B) (P : B -> Prop) `{!forall b, Decision (P b)}
    (Q : A -> Prop) `{!forall a, Decision (Q a)} (l : list A) :
  (forall a, P (f a) <-> Q a) -> length (filter P (f <$> l)) = length (filter Q l).
Proof.
  intros HPQ. induction l as [|a l IH]; [done|]. rewrite fmap_cons, !filter_cons.
  destruct (decide (P (f a))), (decide (Q a)); simpl; naive_solver.
Qed.
