(* ===== verification/MachineInt.v ===== *)
(** * Machine-width integers

    The source's [u8], [u16], [u32], [u64], [u128], [i32] and [i64] values are
    integers [Z] together with their range. This file holds the ranges, the
    wrapping, checked and saturating operations of the Rust standard library
    that the program uses, the wire's big-endian encodings, and the lemmas the
    other files share. *)

From S2P Require Import Prelude.
Open Scope Z_scope.

(** ** Ranges *)

Definition in_uint (w n : Z) : Prop := 0 <= n < 2 ^ w.
Abbreviation u8 := (in_uint 8) (only parsing).
Abbreviation u16 := (in_uint 16) (only parsing).
Abbreviation u32 := (in_uint 32) (only parsing).
Abbreviation u64 := (in_uint 64) (only parsing).
Abbreviation u128 := (in_uint 128) (only parsing).
Definition in_sint (w n : Z) : Prop := - 2 ^ (w - 1) <= n < 2 ^ (w - 1).
Abbreviation i32 := (in_sint 32) (only parsing).

Definition uint_ok (w n : Z) : bool := (0 <=? n) && (n <? 2 ^ w).

Lemma uint_ok_true w n : uint_ok w n = true <-> in_uint w n.
Proof. unfold uint_ok, in_uint. rewrite andb_true_iff. lia. Qed.

#[export] Instance in_uint_dec w n : Decision (in_uint w n).
Proof. unfold in_uint. apply _. Defined.

#[export] Instance in_sint_dec w n : Decision (in_sint w n).
Proof. unfold in_sint. apply _. Defined.

Definition u8_max : Z := 2 ^ 8 - 1.
Definition u16_max : Z := 2 ^ 16 - 1.
Definition u32_max : Z := 2 ^ 32 - 1.
Definition u64_max : Z := 2 ^ 64 - 1.
Definition u128_max : Z := 2 ^ 128 - 1.
Definition i32_max : Z := 2 ^ 31 - 1.
Definition i32_min : Z := - 2 ^ 31.

(** ** Operations *)

(** [wrapping_*], and the bare operators of a release build. *)
Definition wrap (w n : Z) : Z := n mod 2 ^ w.
Definition wrapping_add (w a b : Z) : Z := wrap w (a + b).
Definition wrapping_sub (w a b : Z) : Z := wrap w (a - b).
Definition wrapping_mul (w a b : Z) : Z := wrap w (a * b).

Definition checked_add (w a b : Z) : option Z :=
  if a + b <? 2 ^ w then Some (a + b) else None.
Definition checked_sub (a b : Z) : option Z :=
  if b <=? a then Some (a - b) else None.

Definition saturating_add (w a b : Z) : Z := Z.min (a + b) (2 ^ w - 1).
Definition saturating_sub (a b : Z) : Z := Z.max (a - b) 0.
Definition saturating_mul (w a b : Z) : Z := Z.min (a * b) (2 ^ w - 1).

(** [uN::div_ceil]. *)
Definition div_ceil (a b : Z) : Z := (a + b - 1) / b.

(** [uN::try_from] of a value of a wider type. *)
Definition try_from_uint (w n : Z) : option Z := if uint_ok w n then Some n else None.
Definition try_from_int (w n : Z) : option Z :=
  if (- 2 ^ (w - 1) <=? n) && (n <? 2 ^ (w - 1)) then Some n else None.

(** Signed saturation at the [i32] limits. *)
Definition i32_clamp (n : Z) : Z := Z.max i32_min (Z.min i32_max n).

(** The bare operators of a release build on [i32]. *)
Definition wrap_i32 (n : Z) : Z := (n + 2 ^ 31) mod 2 ^ 32 - 2 ^ 31.

(** Rotation of a [u32]. *)
Definition rotate_right32 (x n : Z) : Z :=
  Z.lor (Z.shiftr x n) (wrap 32 (Z.shiftl x (32 - n))).

(** ** Shared lemmas *)

Lemma wrap_small w n : in_uint w n -> wrap w n = n.
Proof. unfold in_uint, wrap. intros. apply Z.mod_small. lia. Qed.

Lemma wrap_range w n : 0 <= w -> in_uint w (wrap w n).
Proof. unfold in_uint, wrap. intros. apply Z.mod_pos_bound. lia. Qed.

Lemma saturating_add_range w a b :
  0 <= w -> 0 <= a -> 0 <= b -> in_uint w (saturating_add w a b).
Proof.
  unfold in_uint, saturating_add. intros.
  assert (0 < 2 ^ w) by (apply Z.pow_pos_nonneg; lia). lia.
Qed.

Lemma saturating_add_ge w a b :
  in_uint w a -> 0 <= b -> a <= saturating_add w a b.
Proof. unfold in_uint, saturating_add. lia. Qed.

Lemma saturating_add_exact w a b :
  a + b < 2 ^ w -> saturating_add w a b = a + b.
Proof. unfold saturating_add. lia. Qed.

Lemma checked_add_Some w a b c :
  checked_add w a b = Some c <-> c = a + b /\ a + b < 2 ^ w.
Proof.
  unfold checked_add. destruct (Z.ltb_spec (a + b) (2 ^ w)); naive_solver lia.
Qed.

Lemma checked_sub_Some a b c :
  checked_sub a b = Some c <-> c = a - b /\ b <= a.
Proof.
  unfold checked_sub. destruct (Z.leb_spec b a); naive_solver lia.
Qed.

Lemma try_from_int_ok w n : in_sint w n -> try_from_int w n = Some n.
Proof.
  unfold in_sint, try_from_int. intros [H1 H2].
  by rewrite (proj2 (Z.leb_le _ _) H1), (proj2 (Z.ltb_lt _ _) H2).
Qed.

Lemma try_from_int_Some w n m : try_from_int w n = Some m <-> m = n /\ in_sint w n.
Proof.
  unfold in_sint, try_from_int.
  destruct (Z.leb_spec (- 2 ^ (w - 1)) n), (Z.ltb_spec n (2 ^ (w - 1))); naive_solver lia.
Qed.

Lemma try_from_uint_ok w n : in_uint w n -> try_from_uint w n = Some n.
Proof. unfold try_from_uint. intros H%uint_ok_true. by rewrite H. Qed.

(** [lia] on goals that mention the operations: unfold them, with the
    constants' powers reduced to numerals. *)
Ltac pow_norm :=
  change (2 ^ 8) with 256 in *;
  change (2 ^ 16) with 65536 in *;
  change (2 ^ 31) with 2147483648 in *;
  change (2 ^ (32 - 1)) with 2147483648 in *;
  change (2 ^ 32) with 4294967296 in *;
  change (2 ^ 64) with 18446744073709551616 in *;
  change (2 ^ (128)) with 340282366920938463463374607431768211456 in *.
Ltac int_lia :=
  unfold in_uint, in_sint, uint_ok, wrapping_add, wrapping_sub, wrapping_mul,
    saturating_add, saturating_sub, saturating_mul, i32_clamp,
    u8_max, u16_max, u32_max, u64_max, u128_max, i32_max, i32_min in *;
  pow_norm; lia.

(** [lia] with quotients and remainders by constants. *)
Ltac div_lia := Z.to_euclidean_division_equations; lia.

(** ** Big-endian encodings ([to_be_bytes], [from_be_bytes]) *)

Fixpoint be_bytes (n : nat) (v : Z) : list Z :=
  match n with
  | O => []
  | S n' => Z.shiftr v (8 * Z.of_nat n') mod 256 :: be_bytes n' v
  end.

Definition be_value (bs : list Z) : Z := fold_left (fun acc b => acc * 256 + b) bs 0.

Lemma length_be_bytes n v : length (be_bytes n v) = n.
Proof. induction n; simpl; congruence. Qed.

Lemma be_bytes_range n v : Forall (in_uint 8) (be_bytes n v).
Proof.
  induction n; simpl; constructor; [|done].
  unfold in_uint. apply Z.mod_pos_bound. lia.
Qed.

Lemma be_value_app_acc bs acc :
  fold_left (fun acc b => acc * 256 + b) bs acc = acc * 256 ^ Z.of_nat (length bs) + be_value bs.
Proof.
  unfold be_value. revert acc. induction bs as [|b bs IH]; intros acc; cbn [fold_left length].
  { rewrite Z.pow_0_r. lia. }
  rewrite IH, (IH (0 * 256 + b)).
  rewrite Nat2Z.inj_succ, Z.pow_succ_r by lia. lia.
Qed.

Lemma be_value_be_bytes n v : be_value (be_bytes n v) = v mod 256 ^ Z.of_nat n.
Proof.
  induction n as [|n IH].
  { simpl. by rewrite Z.mod_1_r. }
  cbn [be_bytes]. unfold be_value. cbn [fold_left].
  rewrite be_value_app_acc, length_be_bytes, IH.
  rewrite Nat2Z.inj_succ, Z.pow_succ_r by lia.
  rewrite Z.shiftr_div_pow2 by lia.
  replace (2 ^ (8 * Z.of_nat n)) with (256 ^ Z.of_nat n)
    by (rewrite Z.pow_mul_r by lia; done).
  assert (0 < 256 ^ Z.of_nat n) by (apply Z.pow_pos_nonneg; lia).
  rewrite (Z.mul_comm 256), Z.rem_mul_r by lia. lia.
Qed.

Lemma be_bytes_inj n v w :
  0 <= v < 256 ^ Z.of_nat n -> 0 <= w < 256 ^ Z.of_nat n ->
  be_bytes n v = be_bytes n w -> v = w.
Proof.
  intros Hv Hw H. apply (f_equal be_value) in H.
  rewrite !be_value_be_bytes in H. by rewrite !Z.mod_small in H.
Qed.

(** Splitting an equation between concatenations whose heads have the same
    length: the step every injectivity proof of an encoding repeats. *)
Lemma app_eq_length {A} (l1 l2 r1 r2 : list A) :
  length l1 = length l2 -> l1 ++ r1 = l2 ++ r2 -> l1 = l2 /\ r1 = r2.
Proof. intros Hlen H. by apply app_inj_1 in H. Qed.

Lemma be_bytes_app_inj n v w r1 r2 :
  0 <= v < 256 ^ Z.of_nat n -> 0 <= w < 256 ^ Z.of_nat n ->
  be_bytes n v ++ r1 = be_bytes n w ++ r2 -> v = w /\ r1 = r2.
Proof.
  intros Hv Hw H. apply app_eq_length in H as [H ->].
  - split; [|done]. by apply (be_bytes_inj n).
  - by rewrite !length_be_bytes.
Qed.
