(* ===== verification/SplitMix.v ===== *)
(** * The deterministic mixer

    [splitmix64], from which every peer derives the same objective points
    ([m5.rs]) and the same shot spread ([combat/kernel.rs], which repeats the
    definition). *)

From S2P Require Import Prelude MachineInt.
Open Scope Z_scope.

Definition splitmix64 (value : Z) : Z :=
  let value := wrapping_add 64 value 0x9e3779b97f4a7c15 in
  let value := wrapping_mul 64 (Z.lxor value (Z.shiftr value 30)) 0xbf58476d1ce4e5b9 in
  let value := wrapping_mul 64 (Z.lxor value (Z.shiftr value 27)) 0x94d049bb133111eb in
  Z.lxor value (Z.shiftr value 31).

(** The first three outputs of the reference generator seeded with zero. *)
Example splitmix64_reference :
  splitmix64 <$> [0; 0x9e3779b97f4a7c15; 0x3c6ef372fe94f82a]
  = [0xe220a8397b1dcdaf; 0x6e789e6aa1b965f4; 0x06c45d188009454f].
Proof. by vm_compute. Qed.

(** Exclusive or stays within a width. *)
Lemma lxor_range w a b : 0 <= w -> in_uint w a -> in_uint w b -> in_uint w (Z.lxor a b).
Proof.
  unfold in_uint. intros Hw [Ha Ha'] [Hb Hb'].
  assert (0 <= Z.lxor a b) by (apply Z.lxor_nonneg; lia).
  split; [done|].
  replace (Z.lxor a b) with (Z.lxor a b mod 2 ^ w); [apply Z.mod_pos_bound; lia|].
  rewrite <- (Z.mod_small a (2 ^ w)), <- (Z.mod_small b (2 ^ w)) by lia.
  rewrite <- !Z.land_ones by done. apply Z.bits_inj'. intros n Hn.
  rewrite !Z.land_spec, !Z.lxor_spec, !Z.land_spec.
  by destruct (Z.testbit a n), (Z.testbit b n), (Z.testbit (Z.ones w) n).
Qed.

Lemma shiftr_range w a n : 0 <= n -> in_uint w a -> in_uint w (Z.shiftr a n).
Proof.
  unfold in_uint. intros Hn [Ha Ha']. rewrite Z.shiftr_div_pow2 by done.
  assert (0 < 2 ^ n) by (apply Z.pow_pos_nonneg; lia).
  split; [by apply Z.div_pos|]. apply Z.div_lt_upper_bound; nia.
Qed.

Lemma splitmix64_range v : in_uint 64 (splitmix64 v).
Proof.
  unfold splitmix64, wrapping_mul. cbv zeta.
  apply lxor_range; [done| |apply shiftr_range; [done|]]; by apply wrap_range.
Qed.
