(* ===== verification/Ordered.v ===== *)
(** * Ordered keys and ordered maps

    [KeyOrder] is what [derive(PartialOrd, Ord)] gives a key type: a total
    order by comparison. The program's [BTreeMap]s are stdpp finite maps
    ([gmap]) together with [btree_list], their iteration in key order. *)

From S2P Require Import Prelude.
From stdpp Require Export gmap.
Open Scope Z_scope.

(** ** Total orders by comparison *)

Class KeyOrder (K : Type) := {
  key_cmp : K -> K -> comparison;
  key_cmp_eq : forall a b, key_cmp a b = Eq <-> a = b;
  key_cmp_opp : forall a b, key_cmp b a = CompOpp (key_cmp a b);
  key_cmp_lt_trans : forall a b c,
    key_cmp a b = Lt -> key_cmp b c = Lt -> key_cmp a c = Lt;
}.

Definition key_ltb {K} `{KeyOrder K} (a b : K) : bool :=
  match key_cmp a b with Lt => true | _ => false end.
Definition key_leb {K} `{KeyOrder K} (a b : K) : bool :=
  match key_cmp a b with Gt => false | _ => true end.
Definition key_lt {K} `{KeyOrder K} (a b : K) : Prop := key_cmp a b = Lt.
Definition key_le {K} `{KeyOrder K} (a b : K) : Prop := key_cmp a b <> Gt.

#[export] Instance key_lt_dec {K} `{KeyOrder K} (a b : K) : Decision (key_lt a b).
Proof. unfold key_lt. destruct (key_cmp a b); [right | left | right]; done. Defined.
#[export] Instance key_le_dec {K} `{KeyOrder K} (a b : K) : Decision (key_le a b).
Proof. unfold key_le. destruct (key_cmp a b); [left | left | right]; naive_solver. Defined.

Section key_order.
Context {K : Type} `{KeyOrder K}.
Implicit Types a b c : K.

Lemma key_cmp_refl a : key_cmp a a = Eq.
Proof. by apply key_cmp_eq. Qed.

Lemma key_ltb_lt a b : key_ltb a b = true <-> key_lt a b.
Proof. unfold key_ltb, key_lt. destruct (key_cmp a b); naive_solver. Qed.

Lemma key_leb_le a b : key_leb a b = true <-> key_le a b.
Proof. unfold key_leb, key_le. destruct (key_cmp a b); naive_solver. Qed.

Lemma key_leb_ltb a b : key_leb a b = negb (key_ltb b a).
Proof.
  unfold key_leb, key_ltb. rewrite (key_cmp_opp a b).
  by destruct (key_cmp a b).
Qed.

Lemma key_lt_irrefl a : ~ key_lt a a.
Proof. unfold key_lt. by rewrite key_cmp_refl. Qed.

Lemma key_lt_trans a b c : key_lt a b -> key_lt b c -> key_lt a c.
Proof. apply key_cmp_lt_trans. Qed.

Lemma key_le_lteq a b : key_le a b <-> key_lt a b \/ a = b.
Proof.
  unfold key_le, key_lt. rewrite <- key_cmp_eq.
  destruct (key_cmp a b); naive_solver.
Qed.

Lemma key_lt_le a b : key_lt a b -> key_le a b.
Proof. rewrite key_le_lteq. auto. Qed.

Lemma key_le_lt_trans a b c : key_le a b -> key_lt b c -> key_lt a c.
Proof. rewrite key_le_lteq. intros [?| ->]; eauto using key_lt_trans. Qed.

Lemma key_not_lt a b : ~ key_lt a b <-> key_le b a.
Proof.
  unfold key_lt, key_le. rewrite (key_cmp_opp a b).
  destruct (key_cmp a b); naive_solver.
Qed.

Lemma key_lt_not_le a b : key_lt a b -> ~ key_le b a.
Proof. rewrite <- key_not_lt. naive_solver. Qed.

#[export] Instance key_le_preorder : PreOrder (@key_le K _).
Proof.
  split.
  - intros a. unfold key_le. by rewrite key_cmp_refl.
  - intros a b c Hab Hbc. apply key_le_lteq in Hbc as [Hbc| <-]; [|done].
    apply key_lt_le. by eapply key_le_lt_trans.
Qed.
#[export] Instance key_le_antisymm : AntiSymm (=) (@key_le K _).
Proof.
  intros a b Hab Hba. apply key_le_lteq in Hab as [Hab| ->]; [|done].
  by apply key_lt_not_le in Hab.
Qed.
#[export] Instance key_le_total : Total (@key_le K _).
Proof.
  intros a b. destruct (decide (key_lt a b)).
  - left. by apply key_lt_le.
  - right. by apply key_not_lt.
Qed.
End key_order.

#[export] Instance Z_key_order : KeyOrder Z.
Proof.
  refine {| key_cmp := Z.compare |}.
  - apply Z.compare_eq_iff.
  - intros. apply Z.compare_antisym.
  - intros a b c. rewrite !Z.compare_lt_iff. lia.
Defined.

Lemma Z_key_lt (a b : Z) : key_lt a b <-> a < b.
Proof. apply Z.compare_lt_iff. Qed.

(** Lexicographic comparison, as derived for arrays. *)
Fixpoint list_cmp {K} `{KeyOrder K} (l1 l2 : list K) : comparison :=
  match l1, l2 with
  | [], [] => Eq
  | [], _ :: _ => Lt
  | _ :: _, [] => Gt
  | a :: l1, b :: l2 =>
      match key_cmp a b with Eq => list_cmp l1 l2 | c => c end
  end.

#[export] Instance list_key_order {K} `{KeyOrder K} : KeyOrder (list K).
Proof.
  refine {| key_cmp := list_cmp |}.
  - induction a as [|a l1 IH]; destruct b as [|b l2]; simpl; try done.
    destruct (key_cmp a b) eqn:E; rewrite ?IH.
    + apply key_cmp_eq in E as ->. naive_solver.
    + split; [done|]. intros [= <- <-]. by rewrite key_cmp_refl in E.
    + split; [done|]. intros [= <- <-]. by rewrite key_cmp_refl in E.
  - induction a as [|a l1 IH]; destruct b as [|b l2]; simpl; try done.
    rewrite (key_cmp_opp a b), IH. by destruct (key_cmp a b).
  - induction a as [|a l1 IH]; destruct b as [|b l2], c as [|c l3]; simpl; try done.
    destruct (key_cmp a b) eqn:E1; [| |done].
    + apply key_cmp_eq in E1 as <-. destruct (key_cmp a c); naive_solver.
    + intros _. destruct (key_cmp b c) eqn:E2; [| |done].
      * apply key_cmp_eq in E2 as <-. by rewrite E1.
      * by rewrite (key_cmp_lt_trans _ _ _ E1 E2).
Defined.

(** A type ordered through an injection, as derived for newtypes and for
    structs by their fields in declaration order. *)
Definition key_order_via {A K} `{KeyOrder K} (f : A -> K)
    (f_inj : forall a b, f a = f b -> a = b) : KeyOrder A.
Proof.
  refine {| key_cmp a b := key_cmp (f a) (f b) |}.
  - intros a b. rewrite key_cmp_eq. split; [apply f_inj | by intros ->].
  - intros. apply key_cmp_opp.
  - intros a b c. apply key_cmp_lt_trans.
Defined.

(** Lexicographic pairs. *)
Definition pair_cmp {A B} `{KeyOrder A} `{KeyOrder B} (p q : A * B) : comparison :=
  match key_cmp p.1 q.1 with Eq => key_cmp p.2 q.2 | c => c end.

#[export] Instance pair_key_order {A B} `{KeyOrder A} `{KeyOrder B} : KeyOrder (A * B).
Proof.
  refine {| key_cmp := pair_cmp |}; unfold pair_cmp.
  - intros [a b] [a' b']; simpl. destruct (key_cmp a a') eqn:E.
    + apply key_cmp_eq in E as ->. rewrite key_cmp_eq. naive_solver.
    + split; [done|]. intros [= <- <-]. by rewrite key_cmp_refl in E.
    + split; [done|]. intros [= <- <-]. by rewrite key_cmp_refl in E.
  - intros [a b] [a' b']; simpl. rewrite (key_cmp_opp a a').
    destruct (key_cmp a a'); simpl; [apply key_cmp_opp|done|done].
  - intros [a1 b1] [a2 b2] [a3 b3]; simpl.
    destruct (key_cmp a1 a2) eqn:E1; [| |done].
    + apply key_cmp_eq in E1 as <-.
      destruct (key_cmp a1 a3); [apply key_cmp_lt_trans|done|done].
    + intros _. destruct (key_cmp a2 a3) eqn:E2; [| |done].
      * apply key_cmp_eq in E2 as <-. by rewrite E1.
      * by rewrite (key_cmp_lt_trans _ _ _ E1 E2).
Defined.

(** The reversed order, for comparisons that swap their operands. *)
Record Reverse (K : Type) := mkReverse { reversed : K }.
Arguments mkReverse {K} reversed.
Arguments reversed {K} r.

#[export] Instance reverse_key_order {K} `{KeyOrder K} : KeyOrder (Reverse K).
Proof.
  refine {| key_cmp a b := key_cmp (reversed b) (reversed a) |}.
  - intros [a] [b]. simpl. rewrite key_cmp_eq. split; congruence.
  - intros [a] [b]. apply key_cmp_opp.
  - intros [a] [b] [c] Hab Hbc. exact (key_cmp_lt_trans _ _ _ Hbc Hab).
Defined.

Lemma score_then_reverse_cmp {K} `{KeyOrder K} (s t : Z) (a b : K) :
  key_cmp (s, mkReverse a) (t, mkReverse b) = match Z.compare s t with Eq => key_cmp b a | c => c end.
Proof. reflexivity. Qed.

(** ** Extrema of sequences *)

(** [Iterator::min_by]: a later element wins only when strictly smaller. *)
Definition min_by {A} (cmp : A -> A -> comparison) (first : A) (rest : list A) : A :=
  fold_left (fun best x => match cmp best x with Gt => x | _ => best end) rest first.

(** [Iterator::max_by]: a later element wins unless strictly smaller. *)
Definition max_by {A} (cmp : A -> A -> comparison) (first : A) (rest : list A) : A :=
  fold_left (fun best x => match cmp best x with Gt => best | _ => x end) rest first.

Section extrema.
Context {A K : Type} `{KeyOrder K} (f : A -> K) (cmp : A -> A -> comparison).

Lemma min_by_spec first rest :
  (forall x y, cmp x y = key_cmp (f x) (f y)) ->
  min_by cmp first rest ∈ first :: rest /\
  (forall x, x ∈ first :: rest -> key_le (f (min_by cmp first rest)) (f x)).
Proof.
  intros Hcmp. revert first.
  induction rest as [|y rest IH]; intros first; unfold min_by; cbn [fold_left].
  { split; [left|]. intros x ->%list_elem_of_singleton. reflexivity. }
  fold (min_by cmp (match cmp first y with Gt => y | _ => first end) rest).
  destruct (IH (match cmp first y with Gt => y | _ => first end)) as [Hin Hle].
  set (b := match cmp first y with Gt => y | _ => first end) in *.
  assert (Hb : (b = first \/ b = y) /\ key_le (f b) (f first) /\ key_le (f b) (f y)).
  { unfold b, key_le. rewrite !Hcmp. destruct (key_cmp (f first) (f y)) eqn:E.
    - split; [auto|]. by rewrite key_cmp_refl, E.
    - split; [auto|]. by rewrite key_cmp_refl, E.
    - split; [auto|]. by rewrite key_cmp_refl, (key_cmp_opp (f first)), E. }
  destruct Hb as (Hb & Hbf & Hby). split.
  - rewrite !elem_of_cons. apply elem_of_cons in Hin as [->|Hin]; [|auto].
    destruct Hb as [-> | ->]; auto.
  - intros x Hx. apply elem_of_cons in Hx as [->|Hx].
    { etrans; [apply Hle; left | done]. }
    apply elem_of_cons in Hx as [->|Hx].
    { etrans; [apply Hle; left | done]. }
    apply Hle. by right.
Qed.

Lemma max_by_spec first rest :
  (forall x y, cmp x y = key_cmp (f x) (f y)) ->
  max_by cmp first rest ∈ first :: rest /\
  (forall x, x ∈ first :: rest -> key_le (f x) (f (max_by cmp first rest))).
Proof.
  intros Hcmp. revert first.
  induction rest as [|y rest IH]; intros first; unfold max_by; cbn [fold_left].
  { split; [left|]. intros x ->%list_elem_of_singleton. reflexivity. }
  fold (max_by cmp (match cmp first y with Gt => first | _ => y end) rest).
  destruct (IH (match cmp first y with Gt => first | _ => y end)) as [Hin Hle].
  set (b := match cmp first y with Gt => first | _ => y end) in *.
  assert (Hb : (b = first \/ b = y) /\ key_le (f first) (f b) /\ key_le (f y) (f b)).
  { unfold b, key_le. rewrite !Hcmp. destruct (key_cmp (f first) (f y)) eqn:E.
    - split; [auto|]. by rewrite key_cmp_refl, E.
    - split; [auto|]. by rewrite key_cmp_refl, E.
    - split; [auto|]. by rewrite key_cmp_refl, (key_cmp_opp (f first)), E. }
  destruct Hb as (Hb & Hbf & Hby). split.
  - rewrite !elem_of_cons. apply elem_of_cons in Hin as [->|Hin]; [|auto].
    destruct Hb as [-> | ->]; auto.
  - intros x Hx. apply elem_of_cons in Hx as [->|Hx].
    { etrans; [done | apply Hle; left]. }
    apply elem_of_cons in Hx as [->|Hx].
    { etrans; [done | apply Hle; left]. }
    apply Hle. by right.
Qed.
End extrema.

(** ** Canonical order of a list with distinct keys *)

Lemma fmap_eq_perm_NoDup {A K} (f : A -> K) (l1 l2 : list A) :
  l1 ≡ₚ l2 -> f <$> l1 = f <$> l2 -> NoDup (f <$> l1) -> l1 = l2.
Proof.
  revert l2. induction l1 as [|x l1 IH]; intros [|y l2] Hp Hf Hnd; simpl in *; try done.
  injection Hf as Hxy Hf. apply NoDup_cons in Hnd as [Hnin Hnd].
  assert (x = y) as <-.
  { assert (Hx : x ∈ y :: l2) by (rewrite <- Hp; left).
    apply elem_of_cons in Hx as [|Hx]; [done|].
    destruct Hnin. rewrite Hf. apply list_elem_of_fmap. eauto. }
  f_equal. apply IH; [by apply Permutation_cons_inv in Hp|done|done].
Qed.

(** ** [sort_by_key] *)

Section sort_by_key.
Context {A K : Type} `{KeyOrder K} (f : A -> K).

Definition by_key_le (a b : A) : Prop := key_le (f a) (f b).
#[export] Instance by_key_le_dec a b : Decision (by_key_le a b).
Proof. unfold by_key_le. apply _. Defined.
Definition sort_by_key (l : list A) : list A := merge_sort by_key_le l.

Lemma sort_by_key_perm l : sort_by_key l ≡ₚ l.
Proof. apply merge_sort_Permutation. Qed.

Lemma sort_by_key_sorted l : StronglySorted key_le (f <$> sort_by_key l).
Proof.
  assert (Hs : StronglySorted by_key_le (sort_by_key l)).
  { apply StronglySorted_merge_sort.
    - intros a b c. unfold by_key_le. apply transitivity.
    - intros a b. unfold by_key_le. apply (total key_le). }
  induction Hs as [|a l' Hs IH Hall]; simpl; constructor; [done|]. by apply Forall_fmap.
Qed.

(** With distinct keys the result does not depend on the order of the input. *)
Lemma sort_by_key_unique l l' : l ≡ₚ l' -> NoDup (f <$> l) -> sort_by_key l = sort_by_key l'.
Proof.
  intros Hp Hnd. apply (fmap_eq_perm_NoDup f).
  - by rewrite !sort_by_key_perm.
  - apply (StronglySorted_unique key_le); [apply sort_by_key_sorted..|]. by rewrite !sort_by_key_perm, Hp.
  - by rewrite sort_by_key_perm.
Qed.
End sort_by_key.

(** ** Ordered maps *)

Section btree.
Context {K : Type} `{KeyOrder K} `{Countable K} {V : Type}.
Implicit Types m : gmap K V.

Definition entry_le (p q : K * V) : Prop := key_le p.1 q.1.
#[export] Instance entry_le_dec p q : Decision (entry_le p q).
Proof. unfold entry_le. apply _. Defined.
#[export] Instance entry_le_trans : Transitive entry_le.
Proof. intros p q r. unfold entry_le. apply transitivity. Qed.
#[export] Instance entry_le_total : Total entry_le.
Proof. intros p q. unfold entry_le. apply (total key_le). Qed.

(** [BTreeMap::iter]: the entries in ascending key order. *)
Definition btree_list m : list (K * V) := merge_sort entry_le (map_to_list m).
(** [BTreeMap::keys] and [BTreeMap::values]. *)
Definition btree_keys m : list K := (btree_list m).*1.
Definition btree_values m : list V := (btree_list m).*2.

Lemma btree_list_perm m : btree_list m ≡ₚ map_to_list m.
Proof. apply merge_sort_Permutation. Qed.

Lemma elem_of_btree_list m k v : (k, v) ∈ btree_list m <-> m !! k = Some v.
Proof. by rewrite btree_list_perm, elem_of_map_to_list. Qed.

Lemma elem_of_btree_values m v : v ∈ btree_values m <-> exists k, m !! k = Some v.
Proof.
  unfold btree_values. rewrite list_elem_of_fmap. split.
  - intros [[k v'] [-> Hin]]. exists k. by apply elem_of_btree_list.
  - intros [k Hk]. exists (k, v). split; [done|]. by apply elem_of_btree_list.
Qed.

Lemma elem_of_btree_keys m k : k ∈ btree_keys m <-> is_Some (m !! k).
Proof.
  unfold btree_keys. rewrite list_elem_of_fmap. split.
  - intros [[k' v] [-> Hin]]. exists v. by apply elem_of_btree_list.
  - intros [v Hk]. exists (k, v). split; [done|]. by apply elem_of_btree_list.
Qed.

Lemma btree_keys_NoDup m : NoDup (btree_keys m).
Proof. unfold btree_keys. rewrite btree_list_perm. apply NoDup_fst_map_to_list. Qed.

Lemma length_btree_list m : length (btree_list m) = size m.
Proof. rewrite (Permutation_length (btree_list_perm m)). apply length_map_to_list. Qed.

Lemma length_btree_values m : length (btree_values m) = size m.
Proof. unfold btree_values. by rewrite length_fmap, length_btree_list. Qed.

Lemma btree_values_forallb m (f : V -> bool) :
  forallb f (btree_values m) = true <-> map_Forall (fun _ v => f v = true) m.
Proof.
  rewrite forallb_forall. split.
  - intros Hf k v Hk. apply Hf, list_elem_of_In, elem_of_btree_values. eauto.
  - intros Hm v Hv. apply list_elem_of_In, elem_of_btree_values in Hv as [k Hk]. by eapply Hm.
Qed.

Lemma btree_keys_sorted m : StronglySorted key_lt (btree_keys m).
Proof.
  assert (Hs : StronglySorted entry_le (btree_list m))
    by (apply StronglySorted_merge_sort; apply _).
  pose proof (btree_keys_NoDup m) as Hnd. unfold btree_keys in *.
  induction Hs as [|[k v] l Hs IH Hall]; simpl in *; constructor.
  - apply IH. by apply NoDup_cons_1_2 in Hnd.
  - apply NoDup_cons in Hnd as [Hk _]. apply Forall_forall. intros k' Hk'.
    apply list_elem_of_fmap in Hk' as [[k2 v2] [-> Hin]].
    rewrite Forall_forall in Hall. specialize (Hall _ Hin).
    unfold entry_le in Hall. simpl in *. apply key_le_lteq in Hall as [?| ->]; [done|].
    destruct Hk. apply list_elem_of_fmap. by exists (k2, v2).
Qed.

(** The order of iteration is determined by the contents: any strictly
    key-sorted list with the same elements is the map's iteration. *)
Lemma btree_list_unique m (l : list (K * V)) :
  l ≡ₚ map_to_list m -> StronglySorted entry_le l -> NoDup l.*1 -> btree_list m = l.
Proof.
  intros Hp Hs Hnd.
  assert (Hs' : StronglySorted entry_le (btree_list m))
    by (apply StronglySorted_merge_sort; apply _).
  assert (Hp' : btree_list m ≡ₚ l) by (by rewrite btree_list_perm, Hp).
  clear Hp. revert l Hs Hnd Hp'.
  induction Hs' as [|[k v] l1 Hs1 IH Hall1]; intros l Hs Hnd Hp'.
  { by apply Permutation_nil_l. }
  destruct Hs as [|[k2 v2] l2 Hs2 Hall2].
  { symmetry in Hp'. by apply Permutation_nil_cons in Hp'. }
  simpl in Hnd. pose proof Hnd as Hnd0. apply NoDup_cons in Hnd as [Hnin Hnd].
  assert ((k, v) = (k2, v2)) as [= -> ->].
  { assert (Hin : (k, v) ∈ (k2, v2) :: l2) by (rewrite <- Hp'; left).
    assert (Hin2 : (k2, v2) ∈ (k, v) :: l1) by (rewrite Hp'; left).
    apply elem_of_cons in Hin as [?|Hin]; [done|].
    apply elem_of_cons in Hin2 as [?|Hin2]; [done|].
    rewrite Forall_forall in Hall1, Hall2.
    assert (k = k2) as ->.
    { apply (anti_symm key_le); [apply (Hall1 _ Hin2) | apply (Hall2 _ Hin)]. }
    destruct Hnin. apply list_elem_of_fmap. by exists (k2, v). }
  f_equal. apply IH; [done|done|]. by apply Permutation_cons_inv in Hp'.
Qed.
End btree.

(** Mapping the values keeps the iteration's keys and order. *)
Lemma btree_list_fmap {K V W} `{KeyOrder K} `{Countable K} (f : V -> W) (m : gmap K V) :
  btree_list (f <$> m) = prod_map id f <$> btree_list m.
Proof.
  apply btree_list_unique.
  - rewrite map_to_list_fmap. by rewrite btree_list_perm.
  - assert (Hs : StronglySorted entry_le (btree_list m))
      by (apply StronglySorted_merge_sort; apply _).
    induction Hs as [|p l Hs IH Hall]; simpl; constructor; [done|].
    apply Forall_fmap. by eapply Forall_impl.
  - rewrite <- list_fmap_compose.
    replace (fst ∘ prod_map id f) with (@fst K V) by done. apply btree_keys_NoDup.
Qed.

Lemma btree_keys_ascend {K V} `{KeyOrder K} `{Countable K} (m : gmap K V) : StronglySorted key_le (btree_keys m).
Proof.
  pose proof (btree_keys_sorted m) as Hs. induction Hs as [|k l Hs IH Hall]; constructor; [done|].
  eapply Forall_impl; [exact Hall|]. intros. by apply key_lt_le.
Qed.

(** The keys of a map are iterated in one order, whatever the values. *)
Lemma btree_keys_dom {K V W} `{KeyOrder K} `{Countable K} (m : gmap K V) (m' : gmap K W) :
  (forall k, is_Some (m !! k) <-> is_Some (m' !! k)) -> btree_keys m = btree_keys m'.
Proof.
  intros Hdom. apply (StronglySorted_unique key_le).
  - apply btree_keys_ascend.
  - apply btree_keys_ascend.
  - apply NoDup_Permutation; [apply btree_keys_NoDup..|]. intros k. by rewrite !elem_of_btree_keys.
Qed.
