(* ===== verification/Clock.v ===== *)
(** * Timestamps and simulation ticks

    Models [time.rs] ([UnixMillis]) and the [SimulationTick] newtype of
    [combat.rs]. Both are transparent [u64] newtypes: a value is an integer
    [Z], in range when it is [u64]. *)

From S2P Require Import Prelude MachineInt Ordered.
Open Scope Z_scope.

Abbreviation UnixMillis := Z (only parsing).
Abbreviation SimulationTick := Z (only parsing).

(** [UnixMillis::checked_duration_since] *)
Definition millis_checked_duration_since (later earlier : UnixMillis) : option Z :=
  checked_sub later earlier.

(** [UnixMillis::saturating_add] *)
Definition millis_saturating_add (at_ milliseconds : Z) : UnixMillis :=
  saturating_add 64 at_ milliseconds.

(** [SimulationTick::checked_duration_since] *)
Definition checked_duration_since (later earlier : SimulationTick) : option Z :=
  checked_sub later earlier.

(** [SimulationTick::saturating_add] *)
Definition tick_saturating_add (tick : SimulationTick) (ticks : Z) : SimulationTick :=
  saturating_add 64 tick ticks.

(** [tick_is_not_after] of [m3.rs]. *)
Definition tick_is_not_after (earlier later : option SimulationTick) : bool :=
  match earlier, later with
  | None, _ => true
  | Some _, None => false
  | Some earlier, Some later => earlier <=? later
  end.

Definition opt_u64 (o : option Z) : Prop := from_option (in_uint 64) True o.

Lemma tick_saturating_add_range t d :
  u64 t -> 0 <= d -> u64 (tick_saturating_add t d).
Proof. unfold tick_saturating_add. int_lia. Qed.

Lemma tick_saturating_add_ge t d :
  u64 t -> 0 <= d -> t <= tick_saturating_add t d.
Proof. unfold tick_saturating_add. int_lia. Qed.

Lemma tick_saturating_add_mono t1 t2 d :
  t1 <= t2 -> tick_saturating_add t1 d <= tick_saturating_add t2 d.
Proof. unfold tick_saturating_add. int_lia. Qed.

(** Away from the clock's end no saturation happens. *)
Lemma tick_saturating_add_exact t d :
  t + d <= u64_max -> tick_saturating_add t d = t + d.
Proof. unfold tick_saturating_add. int_lia. Qed.

Lemma checked_duration_since_Some later earlier d :
  checked_duration_since later earlier = Some d <-> d = later - earlier /\ earlier <= later.
Proof. apply checked_sub_Some. Qed.

Lemma checked_duration_since_or later earlier :
  default 0 (checked_duration_since later earlier) = Z.max 0 (later - earlier).
Proof. unfold checked_duration_since, checked_sub. case_match; simpl; lia. Qed.

Lemma tick_is_not_after_trans a b c :
  tick_is_not_after a b = true -> tick_is_not_after b c = true -> tick_is_not_after a c = true.
Proof. destruct a, b, c; simpl; try done. lia. Qed.

(** ** Authority receipts

    [SpurCreditId], [RecallCreditId] and [HorseDamageId] are the same triple
    with the derived order: epoch, then tick, then sequence. *)

Record ReceiptId := mkReceiptId {
  authority_epoch : Z;
  receipt_tick : SimulationTick;
  sequence : Z;
}.

Definition receipt_key (id : ReceiptId) : Z * (Z * Z) :=
  (authority_epoch id, (receipt_tick id, sequence id)).

Lemma receipt_key_inj (a b : ReceiptId) : receipt_key a = receipt_key b -> a = b.
Proof. destruct a, b. unfold receipt_key. simpl. by intros [= -> -> ->]. Qed.

#[export] Instance ReceiptId_eq_dec : EqDecision ReceiptId.
Proof. solve_decision. Defined.
#[export] Instance ReceiptId_key_order : KeyOrder ReceiptId :=
  key_order_via receipt_key receipt_key_inj.

(** [last.is_some_and(|last| id <= last)]: a repeated or older receipt. *)
Definition is_replay (last : option ReceiptId) (id : ReceiptId) : bool :=
  is_some_and last (fun last => key_leb id last).

Lemma is_replay_false last id :
  is_replay last id = false -> forall l, last = Some l -> key_lt l id.
Proof.
  intros H l ->. simpl in H. rewrite key_leb_ltb in H. apply negb_false_iff in H.
  by apply key_ltb_lt.
Qed.

Definition receipt_ok (id : ReceiptId) : Prop :=
  in_uint 64 (authority_epoch id) /\ in_uint 64 (receipt_tick id) /\ in_uint 64 (sequence id).
