(* ===== verification/Bytes.v ===== *)
(** * Byte strings: ASCII classes, hexadecimal and decimal text

    A Rust [&str] or [[u8]] is the list of its bytes. The three hexadecimal
    decoders of the program share [nibble]; the decimal part models
    [u16::to_string] and [str::parse::<u16>]. *)

From Stdlib Require Import Ascii.
From Stdlib Require String.
Export (notations) String.
From S2P Require Import Prelude MachineInt.
Open Scope Z_scope.

(** An ASCII literal as bytes. *)
Definition bytes_of_string (s : String.string) : list Z :=
  map (fun a => Z.of_N (Ascii.N_of_ascii a)) (String.list_ascii_of_string s).
Arguments bytes_of_string s%_string.

Abbreviation byte_dash := 45 (only parsing).
Abbreviation byte_dot := 46 (only parsing).
Abbreviation byte_0 := 48 (only parsing).

Definition is_ascii_digit (b : Z) : bool := (48 <=? b) && (b <=? 57).

(** ** Hexadecimal *)

(** One hexadecimal character, either case ([nibble] of [id.rs] and of
    [election.rs]). *)
Definition nibble (byte : Z) : option Z :=
  if (48 <=? byte) && (byte <=? 57) then Some (byte - 48)
  else if (97 <=? byte) && (byte <=? 102) then Some (byte - 97 + 10)
  else if (65 <=? byte) && (byte <=? 70) then Some (byte - 65 + 10)
  else None.

(** The character [{:x}] prints. *)
Definition hex_digit (n : Z) : Z := if n <? 10 then 48 + n else 87 + n.

(** [{byte:02x}] *)
Definition hex_byte (b : Z) : list Z := [hex_digit (b / 16); hex_digit (b mod 16)].

(** The lowercase spelling of a character ([u8::to_ascii_lowercase]). *)
Definition to_ascii_lowercase (b : Z) : Z :=
  if (65 <=? b) && (b <=? 90) then b + 32 else b.

Lemma nibble_hex_digit n : 0 <= n < 16 -> nibble (hex_digit n) = Some n.
Proof. unfold nibble, hex_digit. intros. repeat case_match; f_equal; lia. Qed.

Lemma nibble_Some c n :
  nibble c = Some n -> 0 <= n < 16 /\ hex_digit n = to_ascii_lowercase c.
Proof.
  unfold nibble, hex_digit, to_ascii_lowercase. intros.
  repeat case_match; simplify_eq; lia.
Qed.

Lemma hex_digit_lowercase n : 0 <= n < 16 -> to_ascii_lowercase (hex_digit n) = hex_digit n.
Proof. unfold hex_digit, to_ascii_lowercase. intros. repeat case_match; lia. Qed.

(** [(high << 4) | low] of two nibbles is their base-16 value. *)
Lemma nibble_pair high low :
  0 <= high < 16 -> 0 <= low < 16 ->
  Z.lor (wrap 8 (Z.shiftl high 4)) low = high * 16 + low.
Proof.
  intros Hh Hl. rewrite Z.shiftl_mul_pow2 by lia. rewrite wrap_small by (unfold in_uint; lia).
  change (2 ^ 4) with 16.
  assert (Hland : Z.land (high * 16) low = 0).
  { apply Z.bits_inj'. intros i Hi. rewrite Z.land_spec, Z.bits_0.
    destruct (Z.ltb_spec i 4).
    - change 16 with (2 ^ 4). rewrite Z.mul_pow2_bits_low by lia. done.
    - rewrite (Z.bits_above_log2 low), andb_false_r; [done|lia|].
      destruct (Z.eq_dec low 0) as [->|]; [simpl; lia|].
      assert (Z.log2 low < 4) by (apply Z.log2_lt_pow2; lia). lia. }
  rewrite <- Z.lxor_lor by done. rewrite <- Z.add_nocarry_lxor by done. lia.
Qed.

(** ** Decimal *)

Fixpoint dec_digits (fuel : nat) (n : Z) : list Z :=
  match fuel with
  | O => []
  | S fuel => if n <? 10 then [48 + n] else dec_digits fuel (n / 10) ++ [48 + n mod 10]
  end.

(** [u16::to_string]: a [u16] has at most five digits. *)
Definition u16_to_string (n : Z) : list Z := dec_digits 5 n.

Definition dec_value (bs : list Z) : Z := fold_left (fun acc b => acc * 10 + (b - 48)) bs 0.

(** [str::parse::<u16>] on a nonempty string of ASCII digits: the only failure
    left is overflow. *)
Definition parse_u16_digits (bs : list Z) : option Z := try_from_uint 16 (dec_value bs).

Lemma dec_value_snoc bs b : dec_value (bs ++ [b]) = dec_value bs * 10 + (b - 48).
Proof. unfold dec_value. by rewrite fold_left_app. Qed.

Lemma dec_digits_value fuel n :
  0 <= n < 10 ^ Z.of_nat fuel -> dec_value (dec_digits fuel n) = n.
Proof.
  revert n. induction fuel as [|fuel IH]; intros n Hn.
  { simpl in *. change (10 ^ 0) with 1 in Hn. unfold dec_value. simpl. lia. }
  cbn [dec_digits]. destruct (Z.ltb_spec n 10).
  { unfold dec_value. simpl. lia. }
  rewrite dec_value_snoc, IH.
  - pose proof (Z.div_mod n 10). lia.
  - rewrite Nat2Z.inj_succ, Z.pow_succ_r in Hn by lia.
    split; [apply Z.div_pos; lia | apply Z.div_lt_upper_bound; lia].
Qed.

Lemma dec_digits_nonempty fuel n : (0 < fuel)%nat -> dec_digits fuel n <> [].
Proof.
  destruct fuel as [|fuel]; [lia|]. intros _. cbn [dec_digits].
  case_match; [done|]. by destruct (dec_digits fuel (n / 10)).
Qed.

Lemma dec_digits_are_digits fuel n :
  0 <= n -> forallb is_ascii_digit (dec_digits fuel n) = true.
Proof.
  revert n. induction fuel as [|fuel IH]; intros n Hn; [done|]. cbn [dec_digits].
  destruct (Z.ltb_spec n 10); [cbn; unfold is_ascii_digit; lia|].
  rewrite forallb_app, IH by (apply Z.div_pos; lia). cbn.
  pose proof (Z.mod_pos_bound n 10). unfold is_ascii_digit. lia.
Qed.

(** No leading zero: the first digit of a positive number is not [0]. *)
Lemma dec_digits_head fuel n :
  0 < n < 10 ^ Z.of_nat fuel -> hd_error (dec_digits fuel n) <> Some 48.
Proof.
  revert n. induction fuel as [|fuel IH]; intros n Hn; [done|]. cbn [dec_digits].
  destruct (Z.ltb_spec n 10); [simpl; intros [=]; lia|].
  rewrite Nat2Z.inj_succ, Z.pow_succ_r in Hn by lia.
  assert (Hd : 0 < n / 10 < 10 ^ Z.of_nat fuel).
  { split; [apply Z.div_str_pos; lia | apply Z.div_lt_upper_bound; lia]. }
  specialize (IH _ Hd).
  destruct (dec_digits fuel (n / 10)) eqn:E; [|done].
  destruct fuel; [change (10 ^ Z.of_nat 0) with 1 in Hd; lia|].
  by apply dec_digits_nonempty in E; [|lia].
Qed.

Lemma dec_value_nonneg bs : forallb is_ascii_digit bs = true -> 0 <= dec_value bs.
Proof.
  induction bs as [|b bs IH] using rev_ind; [done|].
  rewrite forallb_app, dec_value_snoc. cbn. unfold is_ascii_digit. intros Hb. btrue.
  assert (0 <= dec_value bs) by auto. lia.
Qed.

Lemma hd_error_snoc {A} (l : list A) x : l <> [] -> hd_error (l ++ [x]) = hd_error l.
Proof. by destruct l. Qed.

Lemma dec_value_pos bs :
  bs <> [] -> forallb is_ascii_digit bs = true -> hd_error bs <> Some 48 -> 0 < dec_value bs.
Proof.
  induction bs as [|b bs IH] using rev_ind; [done|]. intros _ Hd Hh.
  rewrite forallb_app in Hd. cbn in Hd. unfold is_ascii_digit in Hd at 2. btrue.
  rewrite dec_value_snoc.
  destruct (decide (bs = [])) as [->|Hne].
  - simpl in Hh. assert (b <> 48) by congruence. unfold dec_value. simpl. lia.
  - rewrite hd_error_snoc in Hh by done. specialize (IH Hne ltac:(done) Hh). lia.
Qed.

(** Canonical digit strings print back: without a leading zero, printing the
    value gives the string. *)
Lemma dec_digits_of_value fuel bs :
  bs <> [] -> forallb is_ascii_digit bs = true ->
  (length bs = 1%nat \/ hd_error bs <> Some 48) ->
  (0 < fuel)%nat -> dec_value bs < 10 ^ Z.of_nat fuel -> dec_digits fuel (dec_value bs) = bs.
Proof.
  revert fuel. induction bs as [|b bs IH] using rev_ind; [done|]. intros fuel _ Hd Hz Hf Hlt.
  rewrite forallb_app in Hd. cbn in Hd. unfold is_ascii_digit in Hd at 2. btrue.
  rewrite dec_value_snoc in *. destruct fuel as [|fuel]; [lia|]. cbn [dec_digits].
  destruct (decide (bs = [])) as [->|Hne].
  { unfold dec_value. cbn [fold_left app]. rewrite (proj2 (Z.ltb_lt _ _)) by lia. f_equal. lia. }
  rewrite hd_error_snoc in Hz by done.
  assert (Hh : hd_error bs <> Some 48).
  { destruct Hz as [Hz|]; [|done]. rewrite length_app in Hz. destruct bs; simpl in Hz; [done|lia]. }
  assert (0 < dec_value bs) by (by apply dec_value_pos).
  rewrite (proj2 (Z.ltb_ge _ _)) by lia.
  replace ((dec_value bs * 10 + (b - 48)) / 10) with (dec_value bs) by div_lia.
  replace ((dec_value bs * 10 + (b - 48)) mod 10) with (b - 48) by div_lia.
  rewrite Nat2Z.inj_succ, Z.pow_succ_r in Hlt by lia.
  rewrite IH; [do 2 f_equal; lia|done|done|by right| |lia].
  destruct fuel; [change (10 ^ Z.of_nat 0) with 1 in Hlt|]; lia.
Qed.
