(* ===== verification/Identifiers.v ===== *)
(** * Lobby and player identifiers ([id.rs])

    [decode_uuid_v4] and [format_uuid] are translated loop by loop. The
    [protocol_id!] macro instantiates the same code for [LobbyId] and
    [PlayerId]; [ProtocolId] is that code, ordered by its raw bytes. *)

From S2P Require Import Prelude MachineInt Ordered Bytes.
Open Scope Z_scope.

Inductive IdValidationError :=
| InvalidLength
| InvalidHyphens
| InvalidHex
| NotVersion4
| InvalidVariant.

Definition byte_at (bytes : list Z) (index : nat) : Z := default 0 (bytes !! index).

Definition is_hyphen_position (index : nat) : bool :=
  match index with 8%nat | 13%nat | 18%nat | 23%nat => true | _ => false end.

(** [(high << 4) | low] on [u8]. *)
Definition decode_byte (high low : Z) : Z := Z.lor (wrap 8 (Z.shiftl high 4)) low.

(** The [while source < bytes.len()] loop of [decode_uuid_v4]. *)
Fixpoint decode_loop (fuel : nat) (bytes : list Z) (source target : nat) (decoded : list Z)
    : result (list Z) IdValidationError :=
  match fuel with
  | O => Ok decoded
  | S fuel =>
      if (source <? length bytes)%nat then
        if is_hyphen_position source then decode_loop fuel bytes (source + 1) target decoded
        else
          match nibble (byte_at bytes source) with
          | None => Err InvalidHex
          | Some high =>
              match nibble (byte_at bytes (source + 1)) with
              | None => Err InvalidHex
              | Some low =>
                  decode_loop fuel bytes (source + 2) (target + 1)
                    (<[target := decode_byte high low]> decoded)
              end
          end
      else Ok decoded
  end.

(** The version and variant tests shared by parsing and [from_bytes]. *)
Definition check_uuid_v4 (decoded : list Z) : result (list Z) IdValidationError :=
  if negb (Z.shiftr (byte_at decoded 6) 4 =? 4) then Err NotVersion4
  else if negb (Z.shiftr (byte_at decoded 8) 6 =? 2) then Err InvalidVariant
  else Ok decoded.

Definition decode_uuid_v4 (value : list Z) : result (list Z) IdValidationError :=
  if negb (length value =? 36)%nat then Err InvalidLength
  else if negb (forallb (fun i => byte_at value i =? byte_dash) [8; 13; 18; 23]%nat)
  then Err InvalidHyphens
  else
    match decode_loop 36 value 0 0 (repeat 0 16) with
    | Err e => Err e
    | Ok decoded => check_uuid_v4 decoded
    end.

Definition format_uuid (bytes : list Z) : list Z :=
  concat (imap (fun index byte =>
    (match index with 4%nat | 6%nat | 8%nat | 10%nat => [byte_dash] | _ => [] end) ++ hex_byte byte)
    bytes).

(** ** The identifier types *)

Record ProtocolId := mkProtocolId { id_bytes : list Z }.
Abbreviation LobbyId := ProtocolId (only parsing).
Abbreviation PlayerId := ProtocolId (only parsing).

Definition parse (value : list Z) : result ProtocolId IdValidationError :=
  match decode_uuid_v4 value with Ok b => Ok (mkProtocolId b) | Err e => Err e end.

Definition from_bytes (bytes : list Z) : result ProtocolId IdValidationError :=
  match check_uuid_v4 bytes with Ok b => Ok (mkProtocolId b) | Err e => Err e end.

(** [Display] and [to_canonical_string]. *)
Definition to_canonical_string (id : ProtocolId) : list Z := format_uuid (id_bytes id).

Lemma id_bytes_inj (a b : ProtocolId) : id_bytes a = id_bytes b -> a = b.
Proof. destruct a, b. simpl. by intros ->. Qed.

#[export] Instance ProtocolId_eq_dec : EqDecision ProtocolId.
Proof. solve_decision. Defined.
#[export] Instance ProtocolId_countable : Countable ProtocolId.
Proof. apply (inj_countable' id_bytes mkProtocolId). by intros []. Defined.
(** The derived [Ord] compares the raw bytes. *)
#[export] Instance ProtocolId_key_order : KeyOrder ProtocolId :=
  key_order_via id_bytes id_bytes_inj.

(** ** Well-formed identifiers *)

Definition id_ok (id : ProtocolId) : Prop :=
  length (id_bytes id) = 16%nat /\ Forall (in_uint 8) (id_bytes id) /\
  Z.shiftr (byte_at (id_bytes id) 6) 4 = 4 /\ Z.shiftr (byte_at (id_bytes id) 8) 6 = 2.

(** ** Parsing and printing *)

Lemma nibble_lowercase c : nibble (to_ascii_lowercase c) = nibble c.
Proof. unfold nibble, to_ascii_lowercase. repeat case_match; try lia; f_equal; lia. Qed.

Lemma lowercase_dash c : to_ascii_lowercase c = byte_dash <-> c = byte_dash.
Proof. unfold to_ascii_lowercase. case_match; lia. Qed.

Lemma byte_at_map f bs i :
  (i < length bs)%nat -> byte_at (map f bs) i = f (byte_at bs i).
Proof.
  intros Hi. unfold byte_at. rewrite list_lookup_fmap.
  by destruct (lookup_lt_is_Some_2 bs i Hi) as [x ->].
Qed.

Lemma lowercase_dash_eqb c : (to_ascii_lowercase c =? byte_dash) = (c =? byte_dash).
Proof. unfold to_ascii_lowercase. case_match; lia. Qed.

Lemma decode_byte_spec c1 c2 high low :
  nibble c1 = Some high -> nibble c2 = Some low ->
  in_uint 8 (decode_byte high low) /\
  hex_byte (decode_byte high low) = [to_ascii_lowercase c1; to_ascii_lowercase c2].
Proof.
  intros [Hh Eh]%nibble_Some [Hl El]%nibble_Some. unfold decode_byte.
  rewrite nibble_pair by done. split; [unfold in_uint; lia|].
  unfold hex_byte. rewrite <- Eh, <- El. repeat f_equal; div_lia.
Qed.

Lemma decode_byte_hex b :
  in_uint 8 b ->
  nibble (hex_digit (b / 16)) = Some (b / 16) /\ nibble (hex_digit (b mod 16)) = Some (b mod 16) /\
  decode_byte (b / 16) (b mod 16) = b.
Proof.
  unfold in_uint. intros Hb. rewrite !nibble_hex_digit by div_lia.
  do 2 (split; [done|]). unfold decode_byte. rewrite nibble_pair by div_lia. div_lia.
Qed.

(** Makes the elements of a list of known length explicit. *)
Ltac explicit_list s :=
  repeat (destruct s as [|? s]; [done|]); destruct s; [|done].

(** Evaluates the decoder on an explicit 36-byte string. *)
Ltac run_decoder :=
  cbn -[decode_byte Z.shiftr Z.div Z.modulo nibble Z.eqb hex_digit to_ascii_lowercase].

Lemma decode_uuid_v4_length s b : decode_uuid_v4 s = Ok b -> length s = 36%nat.
Proof. unfold decode_uuid_v4. by destruct (Nat.eqb_spec (length s) 36). Qed.

Lemma decode_uuid_v4_lowercase s : decode_uuid_v4 (map to_ascii_lowercase s) = decode_uuid_v4 s.
Proof.
  unfold decode_uuid_v4. rewrite length_map.
  destruct (Nat.eqb_spec (length s) 36) as [E|]; [|done].
  explicit_list s. run_decoder.
  by rewrite !lowercase_dash_eqb, !nibble_lowercase.
Qed.

Lemma check_uuid_v4_Ok b b' :
  check_uuid_v4 b = Ok b' <->
  b' = b /\ Z.shiftr (byte_at b 6) 4 = 4 /\ Z.shiftr (byte_at b 8) 6 = 2.
Proof.
  unfold check_uuid_v4.
  destruct (Z.eqb_spec (Z.shiftr (byte_at b 6) 4) 4), (Z.eqb_spec (Z.shiftr (byte_at b 8) 6) 2);
    naive_solver.
Qed.

Lemma decode_uuid_v4_format b :
  id_ok (mkProtocolId b) -> decode_uuid_v4 (format_uuid b) = Ok b.
Proof.
  intros (Hlen & Hr & Hv & Hvar). simpl in *. unfold decode_uuid_v4.
  explicit_list b. run_decoder.
  repeat match goal with
  | H : Forall _ (_ :: _) |- _ => apply Forall_cons in H; destruct H as [? H]
  | H : in_uint 8 ?b |- _ =>
      let E := fresh in apply decode_byte_hex in H; destruct H as (-> & -> & E)
  end.
  repeat match goal with H : decode_byte _ _ = _ |- _ => rewrite H; clear H end.
  cbn. by apply check_uuid_v4_Ok.
Qed.

Lemma decode_uuid_v4_Ok s b :
  decode_uuid_v4 s = Ok b ->
  id_ok (mkProtocolId b) /\ format_uuid b = map to_ascii_lowercase s.
Proof.
  intros H. pose proof (decode_uuid_v4_length _ _ H) as E. revert H.
  unfold decode_uuid_v4. rewrite E. explicit_list s. run_decoder.
  destruct (_ && _) eqn:Hdash; [|done].
  repeat match goal with
  | |- context [match nibble ?c with _ => _ end] => destruct (nibble c) eqn:?; [|done]
  end.
  intros (-> & Hv & Hvar)%check_uuid_v4_Ok.
  repeat match goal with
  | H1 : nibble ?c1 = Some ?h, H2 : nibble ?c2 = Some ?l |- context [decode_byte ?h ?l] =>
      destruct (decode_byte_spec _ _ _ _ H1 H2); clear H1 H2;
      let v := fresh "v" in set (v := decode_byte h l) in *; clearbody v
  end.
  btrue. repeat match goal with H : (_ =? byte_dash) = true |- _ => apply Z.eqb_eq in H; subst end.
  split.
  - split; [done|]. split; [|done]. cbn. repeat first [assumption | apply Forall_nil_2 | apply Forall_cons_2].
  - unfold format_uuid. cbn -[hex_byte to_ascii_lowercase].
    repeat match goal with H : hex_byte _ = _ |- _ => rewrite H; clear H end. reflexivity.
Qed.

(** Identifier parsing and printing are inverse: [parse] accepts exactly
    the strings that are, up to letter case, the canonical spelling of a
    sixteen-byte version-4 variant-1 UUID, and returns that identifier. *)
Theorem parse_iff_canonical (s : list Z) (id : ProtocolId) :
  parse s = Ok id <-> id_ok id /\ to_canonical_string id = map to_ascii_lowercase s.
Proof.
  unfold parse. split.
  - destruct (decode_uuid_v4 s) as [b|] eqn:E; intros [= <-]. by apply decode_uuid_v4_Ok.
  - intros [Hok Hs]. unfold to_canonical_string in Hs. destruct id as [b].
    rewrite <- decode_uuid_v4_lowercase, <- Hs. by rewrite decode_uuid_v4_format.
Qed.
