(* ===== verification/WireVersion.v ===== *)
(** * Wire protocol versions ([version.rs])

    A [MAJOR.MINOR] version, its compatibility policy, and its text form. *)

From S2P Require Import Prelude MachineInt Ordered Bytes.
Open Scope Z_scope.

Record WireVersion := mkWireVersion { major : Z; minor : Z }.

Inductive WireCompatibility := Compatible | MajorMismatch.

Record WireVersionMismatch := mkWireVersionMismatch {
  mismatch_local : WireVersion;
  mismatch_remote : WireVersion;
}.

Inductive component_name := component_major | component_minor.

Inductive WireVersionParseError :=
| InvalidFormat
| InvalidComponent (component : component_name).

#[export] Instance WireVersion_eq_dec : EqDecision WireVersion.
Proof. solve_decision. Defined.

Definition WIRE_VERSION : WireVersion := mkWireVersion 1 2.

Definition compatibility_with (self other : WireVersion) : WireCompatibility :=
  if major self =? major other then Compatible else MajorMismatch.

Definition is_compatible_with (self other : WireVersion) : bool :=
  match compatibility_with self other with Compatible => true | MajorMismatch => false end.

Definition check_compatible_with (self other : WireVersion) : result unit WireVersionMismatch :=
  if is_compatible_with self other then Ok tt
  else Err (mkWireVersionMismatch self other).

(** [Display] *)
Definition version_to_string (v : WireVersion) : list Z :=
  u16_to_string (major v) ++ [byte_dot] ++ u16_to_string (minor v).

(** [str::split_once] at a byte. *)
Fixpoint split_once (sep : Z) (value : list Z) : option (list Z * list Z) :=
  match value with
  | [] => None
  | b :: rest =>
      if b =? sep then Some ([], rest)
      else match split_once sep rest with
           | Some (before, after) => Some (b :: before, after)
           | None => None
           end
  end.

Definition parse_component (value : list Z) (component : component_name)
    : result Z WireVersionParseError :=
  if (length value =? 0)%nat
     || negb (forallb is_ascii_digit value)
     || ((1 <? length value)%nat && match value with b :: _ => b =? byte_0 | [] => false end)
  then Err (InvalidComponent component)
  else match parse_u16_digits value with
       | Some n => Ok n
       | None => Err (InvalidComponent component)
       end.

(** [FromStr] *)
Definition version_from_str (value : list Z) : result WireVersion WireVersionParseError :=
  match split_once byte_dot value with
  | None => Err InvalidFormat
  | Some (maj, min) =>
      if existsb (fun b => b =? byte_dot) min then Err InvalidFormat
      else
        match parse_component maj component_major with
        | Err e => Err e
        | Ok mj =>
            match parse_component min component_minor with
            | Err e => Err e
            | Ok mn => Ok (mkWireVersion mj mn)
            end
        end
  end.

Definition version_ok (v : WireVersion) : Prop := in_uint 16 (major v) /\ in_uint 16 (minor v).

(** ** Lemmas *)

Lemma split_once_app sep before after :
  Forall (fun b => b <> sep) before -> split_once sep (before ++ sep :: after) = Some (before, after).
Proof.
  induction 1 as [|b before Hb _ IH]; simpl.
  - by rewrite Z.eqb_refl.
  - rewrite (proj2 (Z.eqb_neq _ _)) by done. by rewrite IH.
Qed.

Lemma split_once_Some sep s before after :
  split_once sep s = Some (before, after) -> s = before ++ sep :: after.
Proof.
  revert before. induction s as [|b s IH]; intros before; simpl; [done|].
  destruct (Z.eqb_spec b sep) as [->|].
  - by intros [= <- <-].
  - destruct (split_once sep s) as [[b' a']|]; intros [= <- <-]. simpl. f_equal. by apply IH.
Qed.

Lemma digits_no_dot s : forallb is_ascii_digit s = true -> Forall (fun b => b <> byte_dot) s.
Proof.
  rewrite forallb_forall. intros Hs. apply Forall_forall. intros b Hb.
  apply list_elem_of_In, Hs in Hb. unfold is_ascii_digit in Hb. lia.
Qed.

Lemma u16_to_string_digits n : in_uint 16 n -> forallb is_ascii_digit (u16_to_string n) = true.
Proof. intros Hn. apply dec_digits_are_digits. int_lia. Qed.

(** A component parses to [n] exactly when it is the decimal spelling of the
    [u16] [n]. *)
Lemma parse_component_Ok value component n :
  parse_component value component = Ok n <-> in_uint 16 n /\ value = u16_to_string n.
Proof.
  unfold parse_component, parse_u16_digits, u16_to_string, try_from_uint. split.
  - destruct (_ || _) eqn:Hc; [done|].
    apply orb_false_iff in Hc as [Hc Hz]. apply orb_false_iff in Hc as [Hl Hd].
    apply negb_false_iff in Hd. apply Nat.eqb_neq in Hl.
    destruct (uint_ok 16 (dec_value value)) eqn:Hu; intros [= <-].
    apply uint_ok_true in Hu. split; [done|]. symmetry. apply dec_digits_of_value.
    + by destruct value.
    + done.
    + destruct value as [|b [|b' value]]; simpl in *; [done|by left|right].
      intros [= ->]. done.
    + lia.
    + change (10 ^ Z.of_nat 5) with 100000. int_lia.
  - intros [Hn ->].
    assert (Hne : dec_digits 5 n <> []) by (apply dec_digits_nonempty; lia).
    assert (Hd : forallb is_ascii_digit (dec_digits 5 n) = true) by (by apply u16_to_string_digits).
    assert (Hv : dec_value (dec_digits 5 n) = n).
    { apply dec_digits_value. change (10 ^ Z.of_nat 5) with 100000. int_lia. }
    rewrite Hv, Hd. replace (uint_ok 16 n) with true by (symmetry; by apply uint_ok_true).
    destruct (Z.eq_dec n 0) as [->|]; [done|].
    assert (Hh : hd_error (dec_digits 5 n) <> Some 48).
    { apply dec_digits_head. change (10 ^ Z.of_nat 5) with 100000. int_lia. }
    destruct (dec_digits 5 n) as [|b l]; [done|]. simpl in *.
    rewrite (proj2 (Z.eqb_neq b 48)) by congruence. by rewrite andb_false_r.
Qed.

(** Wire versions parse and print inversely: [FromStr] accepts exactly the
    canonical spelling of a pair of [u16] components, and so rejects signs,
    leading zeros, extra dots and out-of-range components. *)
Theorem version_parse_iff_display (s : list Z) (v : WireVersion) :
  version_from_str s = Ok v <-> version_ok v /\ version_to_string v = s.
Proof.
  unfold version_from_str, version_to_string, version_ok. split.
  - destruct (split_once byte_dot s) as [[maj min]|] eqn:Hs; [|done].
    apply split_once_Some in Hs. case_match; [done|].
    destruct (parse_component maj _) as [mj|] eqn:Hmj; [|done].
    destruct (parse_component min _) as [mn|] eqn:Hmn; [|done]. intros [= <-].
    apply parse_component_Ok in Hmj as [? ->], Hmn as [? ->]. done.
  - intros [[Hmj Hmn] <-]. simpl. rewrite split_once_app.
    2: by apply digits_no_dot, u16_to_string_digits.
    destruct (existsb _ _) eqn:Hex.
    { apply existsb_exists in Hex as (b & Hb%list_elem_of_In & Heq%Z.eqb_eq).
      pose proof (digits_no_dot _ (u16_to_string_digits _ Hmn)) as Hnd.
      rewrite Forall_forall in Hnd. by apply Hnd in Hb. }
    rewrite (proj2 (parse_component_Ok _ _ (major v))) by done.
    rewrite (proj2 (parse_component_Ok _ _ (minor v))) by done. by destruct v.
Qed.
