(* ===== verification/LobbyLifecycle.v ===== *)
(** * Lobby lifecycle state machine ([state.rs]) *)

From S2P Require Import Prelude.
From stdpp Require Import relations.

Inductive LobbyState :=
| Provisioning
| Forming
| Ready
| Starting
| InMatch
| Closing
| Failed
| Expired
| Destroyed.

#[export] Instance LobbyState_eq_dec : EqDecision LobbyState.
Proof. solve_decision. Defined.

Definition ALL : list LobbyState :=
  [Provisioning; Forming; Ready; Starting; InMatch; Closing; Failed; Expired; Destroyed].

Definition legal_successors (self : LobbyState) : list LobbyState :=
  match self with
  | Provisioning => [Forming; Closing; Failed]
  | Forming => [Ready; Closing; Failed; Expired]
  | Ready => [Starting; Forming; Closing; Failed; Expired]
  | Starting => [InMatch; Closing; Failed]
  | InMatch => [Closing; Failed]
  | Closing | Failed | Expired => [Destroyed]
  | Destroyed => []
  end.

Definition can_transition_to (self next : LobbyState) : bool :=
  bool_decide (next ∈ legal_successors self).

Record LobbyTransitionError := mkLobbyTransitionError {
  transition_from : LobbyState;
  transition_to : LobbyState;
}.

Definition validate_transition (self next : LobbyState) : result unit LobbyTransitionError :=
  if can_transition_to self next then Ok tt else Err (mkLobbyTransitionError self next).

Definition is_terminal (self : LobbyState) : bool :=
  match self with Destroyed => true | _ => false end.

Definition accepts_measurements (self : LobbyState) : bool :=
  match self with Forming | Ready | InMatch => true | _ => false end.

Definition requires_state_reason (self : LobbyState) : bool :=
  match self with Failed => true | _ => false end.

(** ** The step relation *)

Inductive lobby_step (s s' : LobbyState) : Prop :=
| lobby_transition : validate_transition s s' = Ok tt -> lobby_step s s'.

Lemma lobby_step_iff s s' : lobby_step s s' <-> can_transition_to s s' = true.
Proof.
  split.
  - intros [H]. unfold validate_transition in H. by destruct (can_transition_to s s').
  - intros H. constructor. unfold validate_transition. by rewrite H.
Qed.

(** Progress through the lifecycle; [Forming] and [Ready] share a rank because
    a stale roster sends a ready lobby back to forming. *)
Definition lifecycle_rank (s : LobbyState) : nat :=
  match s with
  | Provisioning => 0
  | Forming | Ready => 1
  | Starting => 2
  | InMatch => 3
  | Closing | Failed | Expired => 4
  | Destroyed => 5
  end.

Lemma lobby_step_rank s s' :
  lobby_step s s' ->
  lifecycle_rank s < lifecycle_rank s' \/ (s, s') = (Forming, Ready) \/ (s, s') = (Ready, Forming).
Proof.
  intros H%lobby_step_iff. unfold can_transition_to in H.
  destruct s, s'; try done; simpl; auto with lia.
Qed.

Lemma lobby_path_rank s s' : tc lobby_step s s' -> lifecycle_rank s <= lifecycle_rank s'.
Proof.
  induction 1 as [s s' H|s s' s'' H _ IH]; apply lobby_step_rank in H;
    destruct H as [H|[[= -> ->]|[= -> ->]]]; simpl in *; lia.
Qed.

(** The lifecycle is live and makes progress: every lobby can be driven to
    [Destroyed], only [Destroyed] has no successor, and no state can be
    entered twice except by the [Forming]/[Ready] measurement loop. *)
Theorem lifecycle_progress (s : LobbyState) :
  rtc lobby_step s Destroyed /\
  ((forall s', ~ lobby_step s s') <-> is_terminal s = true) /\
  (tc lobby_step s s -> s = Forming \/ s = Ready).
Proof.
  assert (Hstep : forall a b, can_transition_to a b = true -> lobby_step a b)
    by (intros; by apply lobby_step_iff).
  split; [|split].
  - destruct s; try (by apply rtc_refl);
      first [ apply rtc_once, Hstep; reflexivity
            | eapply (rtc_l _ _ Closing); [apply Hstep; reflexivity | apply rtc_once, Hstep; reflexivity] ].
  - split.
    + intros Hno. destruct s; try done;
        exfalso; first [eapply (Hno Closing), Hstep; reflexivity | eapply (Hno Destroyed), Hstep; reflexivity].
    + destruct s; try done. intros _ s' Hs%lobby_step_iff. by destruct s'.
  - intros Hloop. inversion_clear Hloop as [? ? H|? s' ? H Hpath].
    + apply lobby_step_rank in H. destruct H as [?|[[= ->]|[= ->]]]; [lia|done|done].
    + apply lobby_path_rank in Hpath. apply lobby_step_rank in H.
      destruct H as [?|[[= -> ->]|[= -> ->]]]; [lia|by left|by right].
Qed.
