(* ===== verification/Territory.v ===== *)
(** * Playable territory ([radius.rs]) and integer square roots

    [integer_sqrt] of [radius.rs] and [integer_sqrt_u128] of [m5.rs] are the
    same bisection at two widths; it is translated once, at any width, with
    the release build's wrapping operators. *)

From S2P Require Import Prelude MachineInt.
Open Scope Z_scope.

Definition MIN_PLAYABLE_RADIUS_M : Z := 450.
Definition MAX_PLAYABLE_RADIUS_M : Z := 1500.

(** The [while low <= high] loop. *)
Fixpoint integer_sqrt_loop (w : Z) (fuel : nat) (value low high answer : Z) : Z :=
  match fuel with
  | O => answer
  | S fuel =>
      if low <=? high then
        let middle := wrapping_add w low (wrapping_sub w high low / 2) in
        if middle <=? value / middle
        then integer_sqrt_loop w fuel value (wrapping_add w middle 1) high middle
        else integer_sqrt_loop w fuel value low (wrapping_sub w middle 1) answer
      else answer
  end.

Definition integer_sqrt_at (w value : Z) : Z :=
  if value <? 2 then value
  else integer_sqrt_loop w (Z.to_nat w) value 1 (wrapping_add w (value / 2) 1) 1.

Definition integer_sqrt (value : Z) : Z := integer_sqrt_at 64 value.

(** [integer_sqrt_u128] of [m5.rs], with its final [as u64]. *)
Definition integer_sqrt_u128 (value : Z) : Z := wrap 64 (integer_sqrt_at 128 value).

Definition playable_radius_m (player_count : Z) : Z :=
  let radicand := wrapping_mul 64 62500 player_count in
  let unbounded := wrap 32 (integer_sqrt radicand) in
  if unbounded <? MIN_PLAYABLE_RADIUS_M then MIN_PLAYABLE_RADIUS_M
  else if unbounded >? MAX_PLAYABLE_RADIUS_M then MAX_PLAYABLE_RADIUS_M
  else unbounded.

(** ** The bisection computes the floor of the square root *)

Lemma bisect_test value middle :
  0 < middle -> (middle <=? value / middle) = true <-> middle * middle <= value.
Proof.
  intros Hm. rewrite Z.leb_le. split; intros H.
  - pose proof (Z.mul_div_le value middle Hm). nia.
  - apply Z.div_le_lower_bound; lia.
Qed.

(** The interval is empty only when [answer] is the root. *)
Lemma bisect_done value low high answer :
  2 <= value -> 1 <= low -> low = high + 1 -> answer = Z.max 1 (low - 1) ->
  answer * answer <= value < (high + 1) * (high + 1) -> answer = Z.sqrt value.
Proof.
  intros Hv Hlow -> Hans Hroot. symmetry. apply Z.sqrt_unique.
  assert (high <> 0) by (intros ->; lia).
  assert (0 <= high) by lia.
  assert (answer = high) as -> by lia. lia.
Qed.

(** The loop's invariant: the root lies in [[low - 1, high]], and [answer] is
    the last accepted midpoint. The interval halves, so [w] steps are enough. *)
Lemma integer_sqrt_loop_correct w fuel value low high answer :
  2 <= w -> 2 <= value < 2 ^ w ->
  1 <= low <= high + 1 -> high + 1 < 2 ^ w -> high - low + 1 < 2 ^ Z.of_nat fuel ->
  answer = Z.max 1 (low - 1) -> answer * answer <= value < (high + 1) * (high + 1) ->
  integer_sqrt_loop w fuel value low high answer = Z.sqrt value.
Proof.
  intros Hw Hv. revert low high answer.
  induction fuel as [|fuel IH]; intros low high answer Hlow Hhigh Hfuel Hans Hroot;
    cbn [integer_sqrt_loop].
  { change (2 ^ Z.of_nat 0) with 1 in Hfuel. apply (bisect_done _ low high); lia. }
  rewrite Nat2Z.inj_succ, Z.pow_succ_r in Hfuel by lia.
  destruct (Z.leb_spec low high) as [Hle|Hgt].
  2: { apply (bisect_done _ low high); lia. }
  set (d := high - low). assert (Hd : 0 <= d / 2 <= d) by (unfold d; div_lia).
  assert (Hd2 : d / 2 * 2 <= d < (d / 2 + 1) * 2) by (unfold d; div_lia).
  set (middle := low + d / 2) in *.
  assert (Hmid : low <= middle <= high) by (unfold middle, d in *; lia).
  assert (Hmiddle : wrapping_add w low (wrapping_sub w high low / 2) = middle).
  { unfold wrapping_sub. fold d. rewrite (wrap_small w d) by (unfold in_uint, d; lia).
    apply wrap_small. unfold in_uint. fold middle. lia. }
  rewrite !Hmiddle.
  destruct (middle <=? value / middle) eqn:Ht.
  - apply bisect_test in Ht; [|lia].
    unfold wrapping_add. rewrite wrap_small by (unfold in_uint; lia).
    apply IH; unfold middle, d in *; lia.
  - assert (value < middle * middle).
    { apply Z.nle_gt. rewrite <- bisect_test by lia. by rewrite Ht. }
    unfold wrapping_sub. rewrite wrap_small by (unfold in_uint; lia).
    apply IH; unfold middle, d in *; lia.
Qed.

Lemma integer_sqrt_at_sqrt w value :
  2 <= w -> in_uint w value -> integer_sqrt_at w value = Z.sqrt value.
Proof.
  intros Hw [Hv0 Hv]. unfold integer_sqrt_at.
  destruct (Z.ltb_spec value 2).
  { assert (value = 0 \/ value = 1) as [-> | ->] by lia; done. }
  assert (4 <= 2 ^ w) by (change 4 with (2 ^ 2); apply Z.pow_le_mono_r; lia).
  assert (value / 2 * 2 <= value < (value / 2 + 1) * 2) by div_lia.
  unfold wrapping_add. rewrite wrap_small by (unfold in_uint; lia).
  apply integer_sqrt_loop_correct; first [lia | rewrite Z2Nat.id by lia; lia | nia].
Qed.

Lemma integer_sqrt_u128_sqrt value : in_uint 128 value -> integer_sqrt_u128 value = Z.sqrt value.
Proof.
  intros Hv. unfold integer_sqrt_u128. rewrite integer_sqrt_at_sqrt by (done || lia).
  apply wrap_small. unfold in_uint in *. split; [apply Z.sqrt_nonneg|].
  apply Z.sqrt_lt_square; [lia|lia|]. change (2 ^ 64 * 2 ^ 64) with (2 ^ 128). lia.
Qed.

Definition clamp (lo hi n : Z) : Z := Z.max lo (Z.min hi n).

(** The playable radius is [clamp(450, floor(250 * sqrt(n)), 1500)] for
    every [u32] player count (no [u64] operation overflows and the bisection
    terminates), and it is monotone in the player count. *)
Theorem playable_radius_spec (n n' : Z) (Hn : u32 n) (Hn' : u32 n') (Hle : n <= n') :
  playable_radius_m n = clamp 450 1500 (Z.sqrt (250 * 250 * n)) /\ playable_radius_m n <= playable_radius_m n'.
Proof.
  assert (Hspec : forall n, u32 n -> playable_radius_m n = clamp 450 1500 (Z.sqrt (250 * 250 * n))).
  { clear. intros n Hn. unfold playable_radius_m, integer_sqrt, wrapping_mul.
    rewrite (wrap_small 64) by int_lia.
    rewrite integer_sqrt_at_sqrt by (lia || int_lia).
    rewrite (wrap_small 32).
    - change (250 * 250) with 62500. unfold clamp, MIN_PLAYABLE_RADIUS_M, MAX_PLAYABLE_RADIUS_M.
      repeat case_match; lia.
    - unfold in_uint. split; [apply Z.sqrt_nonneg|].
      apply Z.sqrt_lt_square; int_lia. }
  rewrite !Hspec by done. split; [done|].
  assert (Z.sqrt (250 * 250 * n) <= Z.sqrt (250 * 250 * n')) by (apply Z.sqrt_le_mono; lia).
  unfold clamp. lia.
Qed.

Lemma playable_radius_spec_witness :
  playable_radius_m 6 = clamp 450 1500 (Z.sqrt (250 * 250 * 6)) /\ playable_radius_m 6 <= playable_radius_m 8.
Proof. apply (playable_radius_spec 6 8); [unfold in_uint; lia | unfold in_uint; lia | lia]. Defined.

Example playable_radius_six : playable_radius_m 6 = 612.
Proof. vm_compute. reflexivity. Qed.

(** What the placement code needs of the radius. *)
Lemma playable_radius_bounds n : u32 n -> 450 <= playable_radius_m n <= 1500.
Proof.
  intros _. unfold playable_radius_m, MIN_PLAYABLE_RADIUS_M, MAX_PLAYABLE_RADIUS_M.
  repeat case_match; lia.
Qed.
