(* ===== verification/Stance.v ===== *)
(** * Rider stance wire ids ([stance.rs]) *)

From S2P Require Import Prelude MachineInt.
Open Scope Z_scope.

Inductive RiderStance :=
| Unknown (value : Z)
| Mounted
| MountedAirborne
| SaddleDiveAirborne
| LandingProne
| LandingRecovery
| OnFootStanding.

#[export] Instance RiderStance_eq_dec : EqDecision RiderStance.
Proof. solve_decision. Defined.

Definition UNKNOWN_ID : Z := 0.
Definition MOUNTED_ID : Z := 1.
Definition MOUNTED_AIRBORNE_ID : Z := 2.
Definition SADDLE_DIVE_AIRBORNE_ID : Z := 3.
Definition LANDING_PRONE_ID : Z := 4.
Definition LANDING_RECOVERY_ID : Z := 5.
Definition ON_FOOT_STANDING_ID : Z := 6.

Definition from_u8 (value : Z) : RiderStance :=
  if value =? MOUNTED_ID then Mounted
  else if value =? MOUNTED_AIRBORNE_ID then MountedAirborne
  else if value =? SADDLE_DIVE_AIRBORNE_ID then SaddleDiveAirborne
  else if value =? LANDING_PRONE_ID then LandingProne
  else if value =? LANDING_RECOVERY_ID then LandingRecovery
  else if value =? ON_FOOT_STANDING_ID then OnFootStanding
  else Unknown value.

Definition as_u8 (self : RiderStance) : Z :=
  match self with
  | Unknown value => value
  | Mounted => MOUNTED_ID
  | MountedAirborne => MOUNTED_AIRBORNE_ID
  | SaddleDiveAirborne => SADDLE_DIVE_AIRBORNE_ID
  | LandingProne => LANDING_PRONE_ID
  | LandingRecovery => LANDING_RECOVERY_ID
  | OnFootStanding => ON_FOOT_STANDING_ID
  end.

Definition is_known (self : RiderStance) : bool :=
  match self with Unknown _ => false | _ => true end.

Definition is_canonical (self : RiderStance) : bool :=
  match self with
  | Unknown value => (value <? MOUNTED_ID) || (value >? ON_FOOT_STANDING_ID)
  | _ => true
  end.

Definition is_mounted (self : RiderStance) : bool :=
  match self with Mounted | MountedAirborne => true | _ => false end.

Definition carries_mounted_weapon (self : RiderStance) : bool :=
  match self with Mounted | MountedAirborne | SaddleDiveAirborne => true | _ => false end.

(** [Serialize]: a number, or the error for an alias of a known id. *)
Definition serialize (self : RiderStance) : result Z unit :=
  if is_canonical self then Ok (as_u8 self) else Err tt.

(** [Deserialize]: [visit_u64] and [visit_i64] accept exactly the [u8]s. *)
Definition deserialize (value : Z) : result RiderStance unit :=
  match try_from_uint 8 value with Some v => Ok (from_u8 v) | None => Err tt end.

Definition stance_ok (s : RiderStance) : Prop :=
  match s with Unknown v => in_uint 8 v | _ => True end.

(** Stances cross the wire faithfully: every id in [0..=255] decodes to a
    stance that prints the same id back, what serializes deserializes to
    itself, and an [Unknown] alias of a known stance never serializes, so a
    round trip grants no gameplay capability. *)
Theorem stance_wire_roundtrip (s : RiderStance) (v : Z) :
  (serialize s = Ok v /\ stance_ok s <-> deserialize v = Ok s) /\
  (forall w, deserialize w = Ok s -> as_u8 s = w /\ is_canonical s = true) /\
  (is_known (Unknown v) = false /\ carries_mounted_weapon (Unknown v) = false).
Proof.
  assert (Hde : forall w, deserialize w = Ok s -> serialize s = Ok w /\ stance_ok s).
  { intros w. unfold deserialize, try_from_uint, serialize.
    destruct (uint_ok 8 w) eqn:Hw; intros [= <-]. apply uint_ok_true in Hw.
    unfold from_u8, MOUNTED_ID, MOUNTED_AIRBORNE_ID, SADDLE_DIVE_AIRBORNE_ID,
      LANDING_PRONE_ID, LANDING_RECOVERY_ID, ON_FOOT_STANDING_ID.
    repeat case_match; simpl in *; try (split; [f_equal; unfold MOUNTED_ID, MOUNTED_AIRBORNE_ID,
      SADDLE_DIVE_AIRBORNE_ID, LANDING_PRONE_ID, LANDING_RECOVERY_ID, ON_FOOT_STANDING_ID; lia | done]).
    unfold MOUNTED_ID, ON_FOOT_STANDING_ID in *. lia. }
  split; [split|split].
  - intros [Hs Hok]. unfold serialize in Hs. case_match; [|done]. simplify_eq.
    unfold deserialize, try_from_uint.
    destruct s as [u| | | | | |]; try reflexivity. simpl in *.
    replace (uint_ok 8 u) with true by (symmetry; by apply uint_ok_true).
    unfold from_u8, MOUNTED_ID, MOUNTED_AIRBORNE_ID, SADDLE_DIVE_AIRBORNE_ID,
      LANDING_PRONE_ID, LANDING_RECOVERY_ID, ON_FOOT_STANDING_ID in *.
    repeat case_match; try done; lia.
  - apply Hde.
  - intros w Hw. apply Hde in Hw as [Hs _]. unfold serialize in Hs. by case_match; simplify_eq.
  - done.
Qed.
