(* ===== verification/Wire.v ===== *)
(** * Self-delimiting encodings

    The bytes a peer signs are laid out by hand, field after field, and never parsed
    back. What matters of them is that they determine the value: [Delimited] is the
    interface, an encoding that can be followed by anything and still tells where it
    ends and what it encodes. *)

From S2P Require Import Prelude MachineInt Bytes Identifiers WireVersion.
Open Scope Z_scope.

(** [enc] determines every [ok] value, whatever follows it. *)
Class Delimited {A} (enc : A -> list Z) (ok : A -> Prop) : Prop :=
  delimited : forall a b s t, ok a -> ok b -> enc a ++ s = enc b ++ t -> a = b /\ s = t.

Lemma delimited_inj {A} (enc : A -> list Z) ok `{!Delimited enc ok} a b :
  ok a -> ok b -> enc a = enc b -> a = b.
Proof. intros Ha Hb He. apply (delimited a b [] [] Ha Hb). by rewrite !app_nil_r. Qed.

(** [to_be_bytes] of an unsigned and of a signed integer. *)
Definition int_be_bytes (n : nat) (v : Z) : list Z := be_bytes n (wrap (8 * Z.of_nat n) v).

#[export] Instance be_bytes_delimited n : Delimited (be_bytes n) (in_uint (8 * Z.of_nat n)).
Proof.
  intros v w s t Hv Hw H.
  assert (Hp : 2 ^ (8 * Z.of_nat n) = 256 ^ Z.of_nat n) by (rewrite Z.pow_mul_r by lia; done).
  unfold in_uint in *. rewrite Hp in *. by apply be_bytes_app_inj in H.
Qed.

Lemma wrap_int_inj n v w :
  0 < n -> - 2 ^ (n - 1) <= v < 2 ^ (n - 1) -> - 2 ^ (n - 1) <= w < 2 ^ (n - 1) ->
  wrap n v = wrap n w -> v = w.
Proof.
  intros Hn Hv Hw H. unfold wrap in H.
  assert (Hp : 2 ^ n = 2 * 2 ^ (n - 1)) by (rewrite <- Z.pow_succ_r by lia; f_equal; lia).
  assert (Hpos : 0 < 2 ^ (n - 1)) by (apply Z.pow_pos_nonneg; lia).
  assert (Hd : (v - w) mod 2 ^ n = 0) by (rewrite Zminus_mod, H, Z.sub_diag; apply Z.mod_0_l; lia).
  apply Z.mod_divide in Hd as [k Hk]; [|lia].
  rewrite Hp in Hk. destruct (Z.lt_trichotomy k 0) as [|[-> |]]; nia.
Qed.

#[export] Instance int_be_bytes_delimited n : Delimited (int_be_bytes (S n)) (in_sint (8 * Z.of_nat (S n))).
Proof.
  intros v w s t Hv Hw H. unfold int_be_bytes in H.
  apply (delimited (enc := be_bytes (S n))) in H as [H ->]; [|apply wrap_range; lia..].
  split; [|done]. by eapply wrap_int_inj; [|exact Hv|exact Hw|exact H].
Qed.

(** A byte array of known length. *)
Lemma bytes_delimited (a b s t : list Z) : length a = length b -> a ++ s = b ++ t -> a = b /\ s = t.
Proof. apply app_eq_length. Qed.

#[export] Instance id_bytes_delimited : Delimited id_bytes id_ok.
Proof.
  intros [a] [b] s t [Ha _] [Hb _] H. simpl in *. apply app_eq_length in H as [-> ->]; [done|congruence].
Qed.

(** One byte of a [bool]. *)
Definition bool_byte (b : bool) : list Z := [if b then 1 else 0].
#[export] Instance bool_byte_delimited : Delimited bool_byte (fun _ => True).
Proof. intros [|] [|] s t _ _ [= ->]; done. Qed.

(** [option]: a presence byte, then the value. *)
Definition option_bytes {A} (enc : A -> list Z) (o : option A) : list Z :=
  match o with Some a => 1 :: enc a | None => [0] end.
#[export] Instance option_bytes_delimited {A} (enc : A -> list Z) ok `{!Delimited enc ok} :
  Delimited (option_bytes enc) (from_option ok True).
Proof.
  intros [a|] [b|] s t Ha Hb H; simpl in *; try done.
  - injection H as H. apply (delimited a b) in H as [-> ->]; done.
  - by injection H as ->.
Qed.

(** Text and byte slices behind their length; beyond [u32] the length saturates. *)
Definition len_u32 {A} (l : list A) : Z := default u32_max (try_from_uint 32 (Z.of_nat (length l))).
Definition string_bytes (v : list Z) : list Z := be_bytes 4 (len_u32 v) ++ v.
Definition short {A} (l : list A) : Prop := Z.of_nat (length l) < 2 ^ 32.

Lemma len_u32_short {A} (l : list A) : short l -> len_u32 l = Z.of_nat (length l).
Proof.
  intros H. assert (Hu : uint_ok 32 (Z.of_nat (length l)) = true) by (unfold uint_ok, short in *; bsplit; lia).
  unfold len_u32, try_from_uint. by rewrite Hu.
Qed.

#[export] Instance string_bytes_delimited : Delimited string_bytes short.
Proof.
  intros a b s t Ha Hb H. unfold string_bytes in H. rewrite !len_u32_short, <- !app_assoc in H by done.
  apply (delimited (enc := be_bytes 4)) in H as [Hlen H]; [|split; [lia|done]..].
  by apply app_eq_length in H; [|lia].
Qed.

(** Consecutive values of one encoding, their number known. *)
Lemma concat_delimited {A} (enc : A -> list Z) ok `{!Delimited enc ok} (l1 l2 : list A) s t :
  length l1 = length l2 -> Forall ok l1 -> Forall ok l2 ->
  concat (map enc l1) ++ s = concat (map enc l2) ++ t -> l1 = l2 /\ s = t.
Proof.
  revert l2. induction l1 as [|a l1 IH]; intros [|b l2] Hlen H1 H2 H; try done.
  apply Forall_cons in H1 as [Ha H1], H2 as [Hb H2]. simpl in H. rewrite <- !app_assoc in H.
  apply (delimited a b) in H as [-> H]; [|done..]. apply IH in H as [-> ->]; [done|simpl in Hlen; lia|done..].
Qed.

Definition version_be_bytes (v : WireVersion) : list Z := be_bytes 2 (major v) ++ be_bytes 2 (minor v).
#[export] Instance version_delimited : Delimited version_be_bytes version_ok.
Proof.
  intros [a b] [c d] s t [Ha Hb] [Hc Hd] H. unfold version_be_bytes in H. rewrite <- !app_assoc in H. simpl in *.
  apply (delimited (enc := be_bytes 2)) in H as [-> H]; [|done..].
  by apply (delimited (enc := be_bytes 2)) in H as [-> ->].
Qed.

(** A value sent as text or as one number. *)
Lemma spelled_delimited {A} (spell : A -> list Z) :
  (forall a, short (spell a)) -> (forall a b, spell a = spell b -> a = b) ->
  Delimited (fun a => string_bytes (spell a)) (fun _ => True).
Proof. intros Hs Hi a b s t _ _ H. apply (delimited (enc := string_bytes)) in H as [H ->]; [|done..]. by split; [apply Hi|]. Qed.

Lemma numbered_delimited {A} n (number : A -> Z) (ok : A -> Prop) :
  (forall a, ok a -> in_uint (8 * Z.of_nat n) (number a)) -> (forall a b, ok a -> ok b -> number a = number b -> a = b) ->
  Delimited (fun a => be_bytes n (number a)) ok.
Proof.
  intros Hs Hi a b s t Ha Hb H. apply (delimited (enc := be_bytes n)) in H as [H ->]; [|by apply Hs..].
  split; [by apply Hi|done].
Qed.

(** Splitting the next field, written by [enc], off both sides of an equation. *)
Ltac next_field enc' H Heq :=
  rewrite <- ?app_assoc in H;
  apply (delimited (enc := enc')) in H as [Heq H]; [|done..].
