(* ===== verification/Model.v ===== *)
(** * Lobby and connectivity models ([model.rs]) *)

From S2P Require Import Prelude MachineInt Ordered Identifiers WireVersion LobbyLifecycle Clock.
Open Scope Z_scope.

Definition MAX_PLAYERS : Z := 16.

Record RouteSummary := mkRouteSummary {
  direct_count : Z;
  peer_relay_count : Z;
  derp_count : Z;
}.

Definition checked_known_peer_count (self : RouteSummary) : option Z :=
  match checked_add 32 (direct_count self) (peer_relay_count self) with
  | Some partial => checked_add 32 partial (derp_count self)
  | None => None
  end.

Record ConnectivitySample := mkConnectivitySample {
  route_summary : RouteSummary;
  rtt_ms_median : Z;
  rtt_ms_worst : Z;
  jitter_ms : Z;
  loss_pct_milli : Z;
  upload_mbps_sustained : Z;
  device_perf_score : Z;
  observed_peer_count : Z;
  measured_at : UnixMillis;
}.

Inductive ConnectivityValidationError :=
| LossOutOfRange (value : Z)
| DevicePerformanceOutOfRange (value : Z)
| RouteCountOverflow
| RouteCountMismatch (route_count observed : Z)
| PeerCountExceedsRoster (maximum_peer_count observed : Z)
| ConnectivityInvalidRosterSize (roster_size : Z).

#[export] Instance RouteSummary_eq_dec : EqDecision RouteSummary.
Proof. solve_decision. Defined.
#[export] Instance ConnectivityValidationError_eq_dec : EqDecision ConnectivityValidationError.
Proof. solve_decision. Defined.
#[export] Instance ConnectivitySample_eq_dec : EqDecision ConnectivitySample.
Proof. solve_decision. Defined.

Definition validate_for_roster (self : ConnectivitySample) (roster_size : Z)
    : result unit ConnectivityValidationError :=
  if loss_pct_milli self >? 10000 then Err (LossOutOfRange (loss_pct_milli self))
  else if device_perf_score self >? 1000
  then Err (DevicePerformanceOutOfRange (device_perf_score self))
  else
    match checked_sub roster_size 1 ≫= try_from_uint 32 with
    | None => Err (ConnectivityInvalidRosterSize roster_size)
    | Some expected =>
        match checked_known_peer_count (route_summary self) with
        | None => Err RouteCountOverflow
        | Some known =>
            if negb (known =? observed_peer_count self)
            then Err (RouteCountMismatch known (observed_peer_count self))
            else if observed_peer_count self >? expected
            then Err (PeerCountExceedsRoster expected (observed_peer_count self))
            else Ok tt
        end
    end.

(** Field ranges of a decoded sample. *)
Definition route_summary_ok (r : RouteSummary) : Prop :=
  u32 (direct_count r) /\ u32 (peer_relay_count r) /\ u32 (derp_count r).
Definition sample_ok (s : ConnectivitySample) : Prop :=
  route_summary_ok (route_summary s) /\ u32 (rtt_ms_median s) /\ u32 (rtt_ms_worst s) /\
  u32 (jitter_ms s) /\ u32 (loss_pct_milli s) /\ u32 (upload_mbps_sustained s) /\
  u32 (device_perf_score s) /\ u32 (observed_peer_count s) /\ u64 (measured_at s).

(** What a valid measurement guarantees to the scoring code. *)
Lemma validate_for_roster_Ok s n :
  sample_ok s -> validate_for_roster s n = Ok tt ->
  loss_pct_milli s <= 10000 /\ device_perf_score s <= 1000 /\
  direct_count (route_summary s) + peer_relay_count (route_summary s)
    + derp_count (route_summary s) = observed_peer_count s /\
  observed_peer_count s <= n - 1 /\ u32 (n - 1).
Proof.
  intros _. unfold validate_for_roster, checked_known_peer_count.
  destruct (loss_pct_milli s >? 10000) eqn:?; [done|].
  destruct (device_perf_score s >? 1000) eqn:?; [done|].
  destruct (checked_sub n 1 ≫= try_from_uint 32) as [expected|] eqn:Hexp; [|done].
  apply bind_Some in Hexp as (m & Hm & Hu). apply checked_sub_Some in Hm as [-> ?].
  unfold try_from_uint in Hu. destruct (uint_ok 32 (n - 1)) eqn:Hr; [|done].
  apply uint_ok_true in Hr. injection Hu as <-.
  destruct (checked_add 32 _ _) as [partial|] eqn:H1; [|done].
  apply checked_add_Some in H1 as [-> _].
  destruct (checked_add 32 _ _) as [known|] eqn:H2; [|done].
  apply checked_add_Some in H2 as [-> _].
  destruct (Z.eqb_spec (direct_count (route_summary s) + peer_relay_count (route_summary s)
    + derp_count (route_summary s)) (observed_peer_count s)); simpl; [|done].
  destruct (observed_peer_count s >? n - 1) eqn:?; [done|]. intros _.
  repeat split; try lia. all: unfold in_uint in Hr; lia.
Qed.

(** ** Public lobby snapshots

    Human-facing text is a list of Unicode scalar values. *)

Inductive HorseSelection := Courser | Warhorse | Mustang | HorseUnknown.
Inductive PlayerJoinState :=
| CredentialIssued | Connecting | Connected | Left | CleanupPending | JoinUnknown.
Inductive ProvisioningMode := SharedTailnet | DryRun | TailnetPerLobby.

Record Player := mkPlayer {
  player_id : PlayerId;
  player_display_name : list Z;
  join_state : PlayerJoinState;
  player_wire_version : WireVersion;
  player_formula_version : list Z;
  horse_selection : option HorseSelection;
  player_route_summary : RouteSummary;
  player_joined_at : UnixMillis;
  player_cleanup_pending : bool;
}.

Record AuthoritySummary := mkAuthoritySummary {
  candidate_player_id : PlayerId;
  authority_formula_version : list Z;
  authority_score_milli : Z;
}.

Record LobbyTtl := mkLobbyTtl {
  idle_expires_at : UnixMillis;
  absolute_expires_at : UnixMillis;
}.

Record Lobby := mkLobby {
  lobby_id : LobbyId;
  display_name : list Z;
  state : LobbyState;
  state_reason : option (list Z);
  roster : list Player;
  max_players : Z;
  map_seed : option Z;
  authority : option AuthoritySummary;
  ttl : LobbyTtl;
  lobby_wire_version : WireVersion;
  provisioning_mode : ProvisioningMode;
  created_at : UnixMillis;
  cleanup_pending : bool;
}.

Inductive LobbyValidationError :=
| InvalidMaxPlayers (value : Z)
| RosterExceedsCapacity (roster_size max_players : Z)
| MissingStateReason.

(** [char::is_whitespace] (Unicode [White_Space]), which [str::trim] strips. *)
Definition is_whitespace (c : Z) : bool :=
  ((9 <=? c) && (c <=? 13)) || existsb (Z.eqb c) [32; 133; 160; 5760; 8232; 8233; 8239; 8287; 12288]
  || ((8192 <=? c) && (c <=? 8202)).

(** [Lobby::validate] *)
Definition lobby_validate (self : Lobby) : result unit LobbyValidationError :=
  if (max_players self =? 0) || (max_players self >? MAX_PLAYERS)
  then Err (InvalidMaxPlayers (max_players self))
  else if Z.of_nat (length (roster self)) >? max_players self
  then Err (RosterExceedsCapacity (Z.of_nat (length (roster self))) (max_players self))
  else if requires_state_reason (state self)
          && is_none_or (state_reason self) (forallb is_whitespace)
  then Err MissingStateReason
  else Ok tt.
