(* ===== verification/Sha256.v ===== *)
(** * The protocol's SHA-256 ([sha256] of [election.rs])

    The dependency-free digest used for the election fingerprint, on lists of
    byte values, with every [u32] operation wrapping. *)

From S2P Require Import Prelude MachineInt Bytes.
Open Scope Z_scope.

Definition INITIAL : list Z :=
  [0x6a09_e667; 0xbb67_ae85; 0x3c6e_f372; 0xa54f_f53a;
   0x510e_527f; 0x9b05_688c; 0x1f83_d9ab; 0x5be0_cd19].

Definition K : list Z :=
  [0x428a_2f98; 0x7137_4491; 0xb5c0_fbcf; 0xe9b5_dba5; 0x3956_c25b; 0x59f1_11f1; 0x923f_82a4; 0xab1c_5ed5;
   0xd807_aa98; 0x1283_5b01; 0x2431_85be; 0x550c_7dc3; 0x72be_5d74; 0x80de_b1fe; 0x9bdc_06a7; 0xc19b_f174;
   0xe49b_69c1; 0xefbe_4786; 0x0fc1_9dc6; 0x240c_a1cc; 0x2de9_2c6f; 0x4a74_84aa; 0x5cb0_a9dc; 0x76f9_88da;
   0x983e_5152; 0xa831_c66d; 0xb003_27c8; 0xbf59_7fc7; 0xc6e0_0bf3; 0xd5a7_9147; 0x06ca_6351; 0x1429_2967;
   0x27b7_0a85; 0x2e1b_2138; 0x4d2c_6dfc; 0x5338_0d13; 0x650a_7354; 0x766a_0abb; 0x81c2_c92e; 0x9272_2c85;
   0xa2bf_e8a1; 0xa81a_664b; 0xc24b_8b70; 0xc76c_51a3; 0xd192_e819; 0xd699_0624; 0xf40e_3585; 0x106a_a070;
   0x19a4_c116; 0x1e37_6c08; 0x2748_774c; 0x34b0_bcb5; 0x391c_0cb3; 0x4ed8_aa4a; 0x5b9c_ca4f; 0x682e_6ff3;
   0x748f_82ee; 0x78a5_636f; 0x84c8_7814; 0x8cc7_0208; 0x90be_fffa; 0xa450_6ceb; 0xbef9_a3f7; 0xc671_78f2].

Definition word_at (l : list Z) (i : nat) : Z := default 0 (l !! i).

(** [while padded.len() % 64 != 56 { padded.push(0) }] *)
Fixpoint push_zeros (fuel : nat) (padded : list Z) : list Z :=
  match fuel with
  | O => padded
  | S fuel =>
      if negb (Z.of_nat (length padded) mod 64 =? 56) then push_zeros fuel (padded ++ [0]) else padded
  end.

Definition pad (input : list Z) : list Z :=
  let bit_length := wrapping_mul 64 (Z.of_nat (length input)) 8 in
  push_zeros 64 (input ++ [0x80]) ++ be_bytes 8 bit_length.

(** [chunks_exact]: the full chunks, dropping a shorter remainder. *)
Fixpoint chunks_exact (fuel n : nat) (l : list Z) : list (list Z) :=
  match fuel with
  | O => []
  | S fuel => if (length l <? n)%nat then [] else take n l :: chunks_exact fuel n (drop n l)
  end.

(** The first sixteen schedule words, [u32::from_be_bytes] of the chunk. *)
Definition schedule_words (chunk : list Z) : list Z := map be_value (chunks_exact 16 4 chunk).

(** One step of [for index in 16..64]. *)
Definition schedule_step (schedule : list Z) (index : nat) : list Z :=
  let w15 := word_at schedule (index - 15) in
  let w2 := word_at schedule (index - 2) in
  let s0 := Z.lxor (Z.lxor (rotate_right32 w15 7) (rotate_right32 w15 18)) (Z.shiftr w15 3) in
  let s1 := Z.lxor (Z.lxor (rotate_right32 w2 17) (rotate_right32 w2 19)) (Z.shiftr w2 10) in
  schedule ++ [wrapping_add 32
                (wrapping_add 32 (wrapping_add 32 (word_at schedule (index - 16)) s0)
                   (word_at schedule (index - 7))) s1].

Definition message_schedule (chunk : list Z) : list Z :=
  fold_left schedule_step (seq 16 48) (schedule_words chunk).

(** The eight working variables [a] to [h]. *)
Record Working := mkWorking {
  wa : Z; wb : Z; wc : Z; wd : Z; we : Z; wf : Z; wg : Z; wh : Z;
}.

Definition not32 (x : Z) : Z := u32_max - x.

(** One step of [for index in 0..64]. *)
Definition compress_step (schedule : list Z) (v : Working) (index : nat) : Working :=
  let '(mkWorking a b c d e f g h) := v in
  let sum1 := Z.lxor (Z.lxor (rotate_right32 e 6) (rotate_right32 e 11)) (rotate_right32 e 25) in
  let choose := Z.lxor (Z.land e f) (Z.land (not32 e) g) in
  let temporary1 :=
    wrapping_add 32
      (wrapping_add 32 (wrapping_add 32 (wrapping_add 32 h sum1) choose) (word_at K index))
      (word_at schedule index) in
  let sum0 := Z.lxor (Z.lxor (rotate_right32 a 2) (rotate_right32 a 13)) (rotate_right32 a 22) in
  let majority := Z.lxor (Z.lxor (Z.land a b) (Z.land a c)) (Z.land b c) in
  let temporary2 := wrapping_add 32 sum0 majority in
  mkWorking (wrapping_add 32 temporary1 temporary2) a b c (wrapping_add 32 d temporary1) e f g.

Definition working_of (state : list Z) : Working :=
  mkWorking (word_at state 0) (word_at state 1) (word_at state 2) (word_at state 3)
    (word_at state 4) (word_at state 5) (word_at state 6) (word_at state 7).

Definition words_of (v : Working) : list Z :=
  [wa v; wb v; wc v; wd v; we v; wf v; wg v; wh v].

Definition compress (state chunk : list Z) : list Z :=
  let schedule := message_schedule chunk in
  zip_with (wrapping_add 32) state
    (words_of (fold_left (compress_step schedule) (seq 0 64) (working_of state))).

Definition sha256 (input : list Z) : list Z :=
  let padded := pad input in
  let state := fold_left compress (chunks_exact (length padded) 64 padded) INITIAL in
  concat (map (be_bytes 4) state).

(** ** FIPS 180-4 vectors *)

Example sha256_empty :
  concat (map hex_byte (sha256 [])) =
  bytes_of_string "e3b0c44298fc1c149afbf4c8996fb92427ae41e4649b934ca495991b7852b855".
Proof. vm_compute. reflexivity. Qed.

Example sha256_abc :
  concat (map hex_byte (sha256 (bytes_of_string "abc"))) =
  bytes_of_string "ba7816bf8f01cfea414140de5dae2223b00361a396177a9cb410ff61f20015ad".
Proof. vm_compute. reflexivity. Qed.

(** ** Shape of the digest *)

Lemma length_compress state chunk : length state = 8%nat -> length (compress state chunk) = 8%nat.
Proof. intros H. unfold compress. rewrite length_zip_with, H. reflexivity. Qed.

Lemma length_sha256 input : length (sha256 input) = 32%nat.
Proof.
  unfold sha256.
  assert (H : forall chunks st, length st = 8%nat -> length (fold_left compress chunks st) = 8%nat).
  { induction chunks as [|c chunks IH]; intros st Hst; simpl; [done|].
    by apply IH, length_compress. }
  set (st := fold_left _ _ _). assert (Hst : length st = 8%nat) by (by apply H).
  clearbody st. do 8 (destruct st as [|? st]; [done|]). by destruct st.
Qed.

(** ** Padding *)

Lemma push_zeros_spec fuel padded (r : Z) :
  r = (56 - Z.of_nat (length padded)) mod 64 -> r <= Z.of_nat fuel ->
  push_zeros fuel padded = padded ++ repeat 0 (Z.to_nat r).
Proof.
  revert padded r. induction fuel as [|fuel IH]; intros padded r Hr Hle; cbn [push_zeros].
  { assert (r = 0) as -> by div_lia. by rewrite app_nil_r. }
  destruct (Z.eqb_spec (Z.of_nat (length padded) mod 64) 56) as [He|Hne]; cbn [negb].
  { assert (r = 0) as -> by div_lia. by rewrite app_nil_r. }
  rewrite (IH _ (r - 1)).
  - rewrite <- app_assoc. f_equal. replace (Z.to_nat r) with (S (Z.to_nat (r - 1))) by div_lia. done.
  - rewrite length_app. simpl. div_lia.
  - div_lia.
Qed.

(** The number of zero bytes appended. *)
Definition zero_count (n : Z) : Z := (55 - n) mod 64.

Lemma pad_shape input :
  pad input =
    input ++ [0x80] ++ repeat 0 (Z.to_nat (zero_count (Z.of_nat (length input))))
          ++ be_bytes 8 (wrapping_mul 64 (Z.of_nat (length input)) 8).
Proof.
  unfold pad, zero_count. rewrite (push_zeros_spec 64 _ ((55 - Z.of_nat (length input)) mod 64)).
  - by rewrite <- !app_assoc.
  - rewrite length_app. simpl. f_equal. lia.
  - div_lia.
Qed.

Lemma length_pad input :
  Z.of_nat (length (pad input)) =
    Z.of_nat (length input) + 9 + zero_count (Z.of_nat (length input)).
Proof.
  rewrite pad_shape, !length_app, repeat_length, length_be_bytes. simpl.
  unfold zero_count. pose proof (Z.mod_pos_bound (55 - Z.of_nat (length input)) 64). lia.
Qed.

(** SHA-256 preprocessing is well formed for every input below 2^61 bytes:
    the padding loop terminates with the least padding that makes the message
    a whole number of 64-byte blocks (so no byte is dropped by
    [chunks_exact]), the padded message determines the input, and the digest
    has 32 bytes. *)
Theorem sha256_padding_injective (a b : list Z)
    (Ha : Z.of_nat (length a) < 2 ^ 61) (Hb : Z.of_nat (length b) < 2 ^ 61) :
  Z.of_nat (length (pad a)) mod 64 = 0 /\
  9 <= Z.of_nat (length (pad a)) - Z.of_nat (length a) <= 72 /\
  (pad a = pad b -> a = b) /\
  length (sha256 a) = 32%nat.
Proof.
  change (2 ^ 61) with 2305843009213693952 in *.
  split; [rewrite length_pad; unfold zero_count; div_lia|].
  split; [rewrite length_pad; unfold zero_count; div_lia|].
  split; [|apply length_sha256]. intros H.
  assert (Hlast : be_bytes 8 (wrapping_mul 64 (Z.of_nat (length a)) 8) =
                  be_bytes 8 (wrapping_mul 64 (Z.of_nat (length b)) 8)).
  { rewrite !pad_shape, !app_assoc in H. apply app_inj_2 in H as [_ H]; [done|].
    by rewrite !length_be_bytes. }
  apply be_bytes_inj in Hlast; [|unfold wrapping_mul; apply wrap_range; lia..].
  unfold wrapping_mul in Hlast. rewrite !wrap_small in Hlast by int_lia.
  rewrite !pad_shape in H. apply app_eq_length in H as [H _]; [done|lia].
Qed.

Lemma sha256_padding_injective_witness :
  Z.of_nat (length (pad [1])) mod 64 = 0 /\
  9 <= Z.of_nat (length (pad [1])) - Z.of_nat (length [1]) <= 72 /\
  (pad [1] = pad [2] -> [1] = [2]) /\ length (sha256 [1]) = 32%nat.
Proof. apply (sha256_padding_injective [1] [2]); reflexivity. Defined.
