(* ===== verification/Session.v ===== *)
(** * Session identities and signed rosters ([session.rs])

    The bytes that are hashed and signed, roster validation and the text forms of
    hashes and node keys. SHA-256 and Ed25519 are the crates [sha2] and
    [ed25519-dalek]: the interface [Crypto]. *)

From S2P Require Import Prelude MachineInt Ordered Bytes Identifiers WireVersion Wire Sha256.
From stdpp Require Import gmap.
Open Scope Z_scope.

(** ** The libraries *)

(** [Sha256::digest], [VerifyingKey::from_bytes], [verify_strict], and a
    [SigningKey] with its public key and its signatures. *)
Class Crypto := {
  sha2 : list Z -> list Z;
  valid_key : list Z -> bool;
  verify_strict : list Z -> list Z -> list Z -> bool;
  SigningKey : Type;
  verifying_key : SigningKey -> list Z;
  sign_bytes : SigningKey -> list Z -> list Z;
}.

(** What the documentation of the crates promises: a signature verifies under the
    key that made it. *)
Class CryptoSound `{Crypto} : Prop := {
  verifying_key_valid : forall sk, valid_key (verifying_key sk) = true;
  signature_verifies : forall sk message, verify_strict (verifying_key sk) message (sign_bytes sk message) = true;
}.

(** ** Keys, hashes and signatures *)

Record SessionPublicKey := mkSessionPublicKey { key_bytes : list Z }.
Record SessionSignature := mkSessionSignature { signature_bytes : list Z }.
Record RosterHash := mkRosterHash { hash_bytes : list Z }.
Record NodeKey := mkNodeKey { node_bytes : list Z }.
#[export] Instance SessionPublicKey_eq_dec : EqDecision SessionPublicKey.
Proof. solve_decision. Defined.
#[export] Instance SessionSignature_eq_dec : EqDecision SessionSignature.
Proof. solve_decision. Defined.
#[export] Instance RosterHash_eq_dec : EqDecision RosterHash.
Proof. solve_decision. Defined.
#[export] Instance NodeKey_eq_dec : EqDecision NodeKey.
Proof. solve_decision. Defined.
#[export] Instance NodeKey_countable : Countable NodeKey.
Proof. apply (inj_countable' node_bytes mkNodeKey). by intros []. Defined.

(** [std::net::IpAddr]: its octets. *)
Inductive IpAddr := V4 (octets : list Z) | V6 (octets : list Z).
#[export] Instance IpAddr_eq_dec : EqDecision IpAddr.
Proof. solve_decision. Defined.
#[export] Instance IpAddr_countable : Countable IpAddr.
Proof.
  apply (inj_countable' (fun ip => match ip with V4 o => inl o | V6 o => inr o end)
           (fun s => match s with inl o => V4 o | inr o => V6 o end)). by intros [].
Defined.
Definition octets (ip : IpAddr) : list Z := match ip with V4 o | V6 o => o end.
(** [SocketAddr] *)
Record SocketAddr := mkSocketAddr { socket_ip : IpAddr; socket_port : Z }.
(** [IpAddr::is_loopback], [IpAddr::is_unspecified] *)
Definition ip_is_loopback (ip : IpAddr) : bool :=
  match ip with
  | V4 o => match o with b :: _ => b =? 127 | [] => false end
  | V6 o => bool_decide (o = repeat 0 15 ++ [1])
  end.
Definition ip_is_unspecified (ip : IpAddr) : bool := forallb (fun b => b =? 0) (octets ip).

Inductive SessionIdentityError :=
| InvalidPublicKey | BadSignature | InvalidNodeKey | EmptyRoster | DuplicateRosterIdentity | InvalidEndpoint.

Definition verify_digest `{Crypto} (self : SessionPublicKey) (digest : list Z) (signature : SessionSignature)
    : result unit SessionIdentityError :=
  if negb (valid_key (key_bytes self)) then Err InvalidPublicKey
  else if verify_strict (key_bytes self) digest (signature_bytes signature) then Ok tt
  else Err BadSignature.

(** ** Text forms *)

(** The digits [parse_hex_32] admits, and their value. *)
Definition lower_hex (byte : Z) : bool := is_ascii_digit byte || ((97 <=? byte) && (byte <=? 102)).
(** The closure [nibble]; its last arm is unreachable. *)
Definition lower_nibble (byte : Z) : Z := if is_ascii_digit byte then byte - 48 else byte - 97 + 10.

Definition parse_hex_32 (value : list Z) : option (list Z) :=
  if negb (length value =? 64)%nat || negb (forallb lower_hex value) then None
  else Some (map (fun pair => match pair with
       | [high; low] => Z.lor (wrap 8 (Z.shiftl (lower_nibble high) 4)) (lower_nibble low)
       | _ => 0 end) (chunks_exact (length value) 2 value)).

Definition hash_to_string (self : RosterHash) : list Z := concat (map hex_byte (hash_bytes self)).
Definition deserialize_roster_hash (value : list Z) : option RosterHash := mkRosterHash <$> parse_hex_32 value.

Definition NODE_KEY_PREFIX : list Z := bytes_of_string "nodekey:".
Definition strip_prefix (prefix value : list Z) : option (list Z) :=
  if bool_decide (take (length prefix) value = prefix) then Some (drop (length prefix) value) else None.
Definition node_to_string (self : NodeKey) : list Z := NODE_KEY_PREFIX ++ concat (map hex_byte (node_bytes self)).
Definition parse_node_key (value : list Z) : result NodeKey SessionIdentityError :=
  match strip_prefix NODE_KEY_PREFIX value with
  | None => Err InvalidNodeKey
  | Some hex => match parse_hex_32 hex with Some bytes => Ok (mkNodeKey bytes) | None => Err InvalidNodeKey end
  end.

(** ** Rosters *)

Record SessionBinding := mkSessionBinding {
  binding_network_generation : Z;
  binding_session_generation : Z;
  binding_roster_hash : RosterHash;
  binding_signature : SessionSignature;
}.

Record RosterManifestEntry := mkRosterManifestEntry {
  entry_player_id : PlayerId;
  session_public_key : SessionPublicKey;
  tailnet_address : IpAddr;
  application_port : Z;
  node_key : option NodeKey;
}.

Record RosterManifest := mkRosterManifest {
  manifest_lobby_id : LobbyId;
  network_generation : Z;
  session_generation : Z;
  roster_revision : Z;
  entries : list RosterManifestEntry;
}.

(** The loop over the entries with the three sets. *)
Fixpoint validate_entries (players : gset PlayerId) (ips : gset IpAddr) (nodes : gset NodeKey)
    (l : list RosterManifestEntry) : result unit SessionIdentityError :=
  match l with
  | [] => Ok tt
  | entry :: l =>
      if application_port entry =? 0 then Err InvalidEndpoint
      else if bool_decide (entry_player_id entry ∈ players)
              || bool_decide (tailnet_address entry ∈ ips)
              || is_some_and (node_key entry) (fun node => bool_decide (node ∈ nodes))
      then Err DuplicateRosterIdentity
      else validate_entries ({[entry_player_id entry]} ∪ players) ({[tailnet_address entry]} ∪ ips)
             (match node_key entry with Some node => {[node]} ∪ nodes | None => nodes end) l
  end.

Definition manifest_validate (self : RosterManifest) : result unit SessionIdentityError :=
  match entries self with [] => Err EmptyRoster | l => validate_entries ∅ ∅ ∅ l end.

(** ** Canonical bytes *)

Definition ROSTER_DOMAIN : list Z := bytes_of_string "SPURFIRE-ROSTER" ++ [0] ++ bytes_of_string "v1" ++ [0].
Definition ENVELOPE_DOMAIN : list Z := bytes_of_string "SPURFIRE-ENV" ++ [0] ++ bytes_of_string "v1" ++ [0].
Definition KEYREG_DOMAIN : list Z := bytes_of_string "SPURFIRE-KEYREG" ++ [0] ++ bytes_of_string "v1" ++ [0].
Definition MANIFEST_DOMAIN : list Z := bytes_of_string "SPURFIRE-MANIFEST" ++ [0] ++ bytes_of_string "v1" ++ [0].

Definition roster_row (entry : RosterManifestEntry) : list Z :=
  id_bytes (entry_player_id entry)
  ++ key_bytes (session_public_key entry)
  ++ octets (tailnet_address entry)
  ++ be_bytes 2 (application_port entry)
  ++ match node_key entry with Some key => node_bytes key | None => repeat 0 32 end.

Definition canonical_roster_bytes (manifest : RosterManifest) : list Z :=
  let rows := sort_by_key entry_player_id (entries manifest) in
  ROSTER_DOMAIN
  ++ be_bytes 8 (network_generation manifest)
  ++ be_bytes 8 (session_generation manifest)
  ++ be_bytes 8 (roster_revision manifest)
  ++ be_bytes 4 (len_u32 rows)
  ++ concat (map roster_row rows).

(** What [canonical_envelope_digest], [canonical_keyreg_digest] and
    [canonical_manifest_digest] hash. *)
Definition envelope_bytes (version : WireVersion) (lobby : LobbyId) (network session : Z) (hash : RosterHash)
    (sender : PlayerId) (epoch sequence tick : Z) (payload : list Z) : list Z :=
  ENVELOPE_DOMAIN
  ++ version_be_bytes version
  ++ id_bytes lobby
  ++ be_bytes 8 network
  ++ be_bytes 8 session
  ++ hash_bytes hash
  ++ id_bytes sender
  ++ be_bytes 8 epoch
  ++ be_bytes 8 sequence
  ++ be_bytes 8 tick
  ++ string_bytes payload.

Definition keyreg_bytes (lobby : LobbyId) (player : PlayerId) (network revision : Z) (address : IpAddr) (port : Z)
    (key : SessionPublicKey) : list Z :=
  KEYREG_DOMAIN ++ id_bytes lobby ++ id_bytes player ++ be_bytes 8 network ++ be_bytes 8 revision
  ++ octets address ++ be_bytes 2 port ++ key_bytes key.

Definition manifest_bytes (key : SessionPublicKey) (manifest : RosterManifest) : list Z :=
  MANIFEST_DOMAIN ++ key_bytes key ++ canonical_roster_bytes manifest.

Section digests.
Context `{Crypto}.

Definition roster_hash (manifest : RosterManifest) : RosterHash :=
  mkRosterHash (sha2 (canonical_roster_bytes manifest)).
Definition canonical_envelope_digest (version : WireVersion) (lobby : LobbyId) (network session : Z)
    (hash : RosterHash) (sender : PlayerId) (epoch sequence tick : Z) (payload : list Z) : list Z :=
  sha2 (envelope_bytes version lobby network session hash sender epoch sequence tick payload).
Definition canonical_keyreg_digest (lobby : LobbyId) (player : PlayerId) (network revision : Z)
    (address : IpAddr) (port : Z) (key : SessionPublicKey) : list Z :=
  sha2 (keyreg_bytes lobby player network revision address port key).
Definition canonical_manifest_digest (key : SessionPublicKey) (manifest : RosterManifest) : list Z :=
  sha2 (manifest_bytes key manifest).
End digests.

(** ** Well-formed values *)

Definition bytes_n (n : nat) (l : list Z) : Prop := length l = n /\ Forall (in_uint 8) l.

(** Addresses of one family, as a tailnet assigns them, and no all-zero node key. *)
Definition address_ok (width : nat) (ip : IpAddr) : Prop :=
  length (octets ip) = width /\ match ip with V4 _ => width = 4%nat | V6 _ => width = 16%nat end.
Definition entry_ok (width : nat) (e : RosterManifestEntry) : Prop :=
  id_ok (entry_player_id e) /\ bytes_n 32 (key_bytes (session_public_key e)) /\
  address_ok width (tailnet_address e) /\ in_uint 16 (application_port e) /\
  from_option (fun k => bytes_n 32 (node_bytes k) /\ node_bytes k <> repeat 0 32) True (node_key e).
Definition manifest_ok (width : nat) (m : RosterManifest) : Prop :=
  in_uint 64 (network_generation m) /\ in_uint 64 (session_generation m) /\ in_uint 64 (roster_revision m) /\
  short (entries m) /\ Forall (entry_ok width) (entries m).

(** ** Validation *)

Lemma validate_entries_iff l : forall players ips nodes,
  validate_entries players ips nodes l = Ok tt <->
  Forall (fun e => application_port e <> 0) l /\
  NoDup (entry_player_id <$> l) /\ NoDup (tailnet_address <$> l) /\ NoDup (omap node_key l) /\
  (forall e, e ∈ l -> entry_player_id e ∉ players /\ tailnet_address e ∉ ips /\
     forall k, node_key e = Some k -> k ∉ nodes).
Proof.
  induction l as [|e l IH]; intros players ips nodes.
  { simpl. split; [|done]. intros _. split_and!; first [by apply Forall_nil|by apply NoDup_nil|intros ? Hin; by apply elem_of_nil in Hin]. }
  cbn [validate_entries]. destruct (Z.eqb_spec (application_port e) 0) as [Hz|Hz].
  { split; [done|]. intros (Hf & _). by apply Forall_cons in Hf as [Hf _]. }
  destruct (_ || _ || _) eqn:Hg.
  { split; [done|]. intros (_ & _ & _ & _ & Hfresh). destruct (Hfresh e ltac:(left)) as (H1 & H2 & H3).
    rewrite !bool_decide_false in Hg by done. simpl in Hg.
    destruct (node_key e) as [k|]; [|done]. simpl in Hg. apply bool_decide_eq_true in Hg. by destruct (H3 k). }
  apply orb_false_iff in Hg as [[H1%bool_decide_eq_false H2%bool_decide_eq_false]%orb_false_iff H3].
  rewrite IH. rewrite Forall_cons, !fmap_cons, !NoDup_cons. cbn [omap list_omap].
  assert (Hnode : NoDup (match node_key e with Some k => k :: omap node_key l | None => omap node_key l end) <->
    NoDup (omap node_key l) /\ forall k, node_key e = Some k -> k ∉ omap node_key l).
  { destruct (node_key e) as [k|]; [rewrite NoDup_cons|]; naive_solver. }
  rewrite Hnode. setoid_rewrite list_elem_of_fmap. setoid_rewrite elem_of_cons.
  assert (Hin : forall k, k ∈ omap node_key l <-> exists e', e' ∈ l /\ node_key e' = Some k) by (intros; apply list_elem_of_omap).
  setoid_rewrite Hin. split.
  - intros (Hp & Hn1 & Hn2 & Hn3 & Hf). split_and!; try done.
    + intros (e' & Heq & He'). destruct (Hf e' He') as (Hx & _). set_solver.
    + intros (e' & Heq & He'). destruct (Hf e' He') as (_ & Hx & _). set_solver.
    + intros k Hk (e' & He' & Heq). destruct (Hf e' He') as (_ & _ & Hx). specialize (Hx k Heq). rewrite Hk in Hx. set_solver.
    + intros e' [-> |He']; [split_and!; try done|].
      * intros k Hk. rewrite Hk in H3. simpl in H3. by apply bool_decide_eq_false in H3.
      * destruct (Hf e' He') as (Hx & Hy & Hw). split_and!; [set_solver..|]. intros k Hk. specialize (Hw k Hk).
        destruct (node_key e); set_solver.
  - intros ((_ & Hp) & (Hx1 & Hn1) & (Hx2 & Hn2) & (Hn3 & Hx3) & Hf). split_and!; try done.
    intros e' He'. destruct (Hf e' ltac:(by right)) as (Hx & Hy & Hw). split_and!.
    + assert (entry_player_id e' <> entry_player_id e) by (intros Heq; apply Hx1; by exists e'). set_solver.
    + assert (tailnet_address e' <> tailnet_address e) by (intros Heq; apply Hx2; by exists e'). set_solver.
    + intros k Hk. specialize (Hw k Hk). destruct (node_key e) as [k'|] eqn:Hk'; [|done].
      assert (k <> k') by (intros ->; apply (Hx3 k'); [done|by exists e']). set_solver.
Qed.

(** A roster is accepted exactly when it has a row, every row a port, and no
    two rows share a player, an address or a node key. *)
Theorem roster_valid_iff m :
  manifest_validate m = Ok tt <->
  entries m <> [] /\ Forall (fun e => application_port e <> 0) (entries m) /\
  NoDup (entry_player_id <$> entries m) /\ NoDup (tailnet_address <$> entries m) /\ NoDup (omap node_key (entries m)).
Proof.
  unfold manifest_validate. destruct (entries m) as [|e l]; [naive_solver|].
  rewrite validate_entries_iff. set_solver.
Qed.

(** ** What the canonical bytes determine *)

#[export] Instance roster_row_delimited width : Delimited roster_row (entry_ok width).
Proof.
  intros [pa ka ia oa na] [pb kb ib ob nb] s t (Ha1 & [Ha2 _] & (Ha3 & Ha3') & Ha4 & Ha5) (Hb1 & [Hb2 _] & (Hb3 & Hb3') & Hb4 & Hb5) H.
  unfold roster_row in H. simpl in *. rewrite <- !app_assoc in H.
  apply (delimited pa pb) in H as [-> H]; [|done..].
  apply app_eq_length in H as [Hk H]; [|congruence]. destruct ka, kb. simpl in *. subst.
  apply app_eq_length in H as [Hi H]; [|congruence].
  assert (ia = ib) as -> by (destruct ia, ib; simpl in *; subst; done || congruence || lia).
  apply (delimited (enc := be_bytes 2)) in H as [-> H]; [|done..].
  assert (Hn : forall o : option NodeKey, from_option (fun k => bytes_n 32 (node_bytes k) /\ node_bytes k <> repeat 0 32) True o ->
    length (match o with Some k => node_bytes k | None => repeat 0 32 end) = 32%nat) by (intros [k|] Hk; [apply Hk|done]).
  apply app_eq_length in H as [H ->]; [|by rewrite !Hn]. split; [|done].
  destruct na as [[na]|], nb as [[nb]|]; simpl in *; [by subst|by destruct Ha5|by destruct Hb5|done].
Qed.

(** A signed roster says exactly one thing, in one way: the bytes a manifest
    signature covers do not depend on the order of the rows, and two manifests with
    the same bytes have the same generations, revision and rows, given addresses of
    one family and no all-zero node key. *)
Theorem roster_bytes_bind width m m' :
  manifest_ok width m -> manifest_ok width m' -> NoDup (entry_player_id <$> entries m) ->
  (canonical_roster_bytes m = canonical_roster_bytes m' <->
   network_generation m = network_generation m' /\ session_generation m = session_generation m' /\
   roster_revision m = roster_revision m' /\ entries m ≡ₚ entries m').
Proof.
  intros (Hn & Hs & Hr & Hl & He) (Hn' & Hs' & Hr' & Hl' & He') Hnd. unfold canonical_roster_bytes.
  set (rows := sort_by_key entry_player_id (entries m)). set (rows' := sort_by_key entry_player_id (entries m')).
  pose proof (sort_by_key_perm entry_player_id (entries m)) as Hp. fold rows in Hp.
  pose proof (sort_by_key_perm entry_player_id (entries m')) as Hp'. fold rows' in Hp'. split.
  - intros H. apply app_inv_head in H.
    apply (delimited (enc := be_bytes 8)) in H as [-> H]; [|done..].
    apply (delimited (enc := be_bytes 8)) in H as [-> H]; [|done..].
    apply (delimited (enc := be_bytes 8)) in H as [-> H]; [|done..].
    rewrite !len_u32_short in H by (unfold short; by rewrite ?Hp, ?Hp').
    apply (delimited (enc := be_bytes 4)) in H as [Hlen H];
      [|unfold short in *; rewrite ?Hp, ?Hp'; split; [lia|done]..].
    split_and!; try done.
    rewrite <- (app_nil_r (concat (map roster_row rows))), <- (app_nil_r (concat (map roster_row rows'))) in H.
    apply (concat_delimited roster_row (entry_ok width)) in H as [Heq _]; [|lia|by rewrite Hp|by rewrite Hp'].
    by rewrite <- Hp, Heq.
  - intros (-> & -> & -> & Hperm). do 4 f_equal. unfold rows, rows'.
    by rewrite (sort_by_key_unique entry_player_id _ _ Hperm Hnd).
Qed.

(** An absent node key and an all-zero one are signed alike. *)
Lemma zero_node_key_unbound m e rest :
  entries m = e :: rest -> node_key e = None ->
  let e' := mkRosterManifestEntry (entry_player_id e) (session_public_key e) (tailnet_address e) (application_port e)
              (Some (mkNodeKey (repeat 0 32))) in
  let m' := mkRosterManifest (manifest_lobby_id m) (network_generation m) (session_generation m) (roster_revision m) (e' :: rest) in
  entries m' <> entries m /\ (rest = [] -> canonical_roster_bytes m' = canonical_roster_bytes m).
Proof.
  intros He Hn e' m'. split.
  - unfold m'. simpl. rewrite He. intros [= H]. apply (f_equal node_key) in H. simpl in H. congruence.
  - intros ->. unfold canonical_roster_bytes. rewrite He. simpl. unfold sort_by_key. simpl. unfold roster_row.
    simpl. by rewrite Hn.
Qed.

(** Equal preimages of an envelope's digest have equal version, lobby, generations,
    roster, sender, epoch, sequence, tick and payload bytes. *)
Lemma envelope_bytes_injective v v' l l' n n' s s' (h h' : RosterHash) p p' e e' q q' t t' b b' :
  version_ok v -> version_ok v' -> id_ok l -> id_ok l' -> in_uint 64 n -> in_uint 64 n' -> in_uint 64 s -> in_uint 64 s' ->
  length (hash_bytes h) = length (hash_bytes h') -> id_ok p -> id_ok p' ->
  in_uint 64 e -> in_uint 64 e' -> in_uint 64 q -> in_uint 64 q' -> in_uint 64 t -> in_uint 64 t' -> short b -> short b' ->
  envelope_bytes v l n s h p e q t b = envelope_bytes v' l' n' s' h' p' e' q' t' b' ->
  v = v' /\ l = l' /\ n = n' /\ s = s' /\ h = h' /\ p = p' /\ e = e' /\ q = q' /\ t = t' /\ b = b'.
Proof.
  intros Hv Hv' Hl Hl' Hn Hn' Hs Hs' Hh Hp Hp' He He' Hq Hq' Ht Ht' Hb Hb' H.
  unfold envelope_bytes in H. apply app_inv_head in H.
  apply (delimited v v') in H as [-> H]; [|done..].
  apply (delimited l l') in H as [-> H]; [|done..].
  apply (delimited (enc := be_bytes 8)) in H as [-> H]; [|done..].
  apply (delimited (enc := be_bytes 8)) in H as [-> H]; [|done..].
  apply app_eq_length in H as [Hhash H]; [|done].
  apply (delimited p p') in H as [-> H]; [|done..].
  apply (delimited (enc := be_bytes 8)) in H as [-> H]; [|done..].
  apply (delimited (enc := be_bytes 8)) in H as [-> H]; [|done..].
  apply (delimited (enc := be_bytes 8)) in H as [-> H]; [|done..].
  apply (delimited_inj string_bytes short) in H as ->; [|done..].
  split_and!; try done. destruct h, h'. simpl in *. by subst.
Qed.

(** ** Node keys and hashes as text *)

Lemma hex_byte_lower b : in_uint 8 b -> forallb lower_hex (hex_byte b) = true.
Proof.
  intros Hb. unfold in_uint in Hb. change (2 ^ 8) with 256 in Hb.
  assert (Hd : forall n, 0 <= n < 16 -> lower_hex (hex_digit n) = true).
  { intros n Hn. unfold lower_hex, hex_digit, is_ascii_digit. destruct (Z.ltb_spec n 10); lia. }
  simpl. rewrite !Hd; [done|apply Z.mod_pos_bound; lia|]. split; [apply Z.div_pos; lia|apply Z.div_lt_upper_bound; lia].
Qed.

Lemma lower_nibble_hex n : 0 <= n < 16 -> lower_nibble (hex_digit n) = n.
Proof. intros Hn. unfold lower_nibble, hex_digit, is_ascii_digit. destruct (Z.ltb_spec n 10); case_match; lia. Qed.

Lemma hex_lower_nibble c : lower_hex c = true -> 0 <= lower_nibble c < 16 /\ hex_digit (lower_nibble c) = c.
Proof. unfold lower_hex, lower_nibble, hex_digit, is_ascii_digit. intros H. repeat case_match; lia. Qed.

Definition hex_pair (pair : list Z) : Z :=
  match pair with [high; low] => Z.lor (wrap 8 (Z.shiftl (lower_nibble high) 4)) (lower_nibble low) | _ => 0 end.

Lemma hex_pair_byte b : in_uint 8 b -> hex_pair (hex_byte b) = b.
Proof.
  intros Hb. unfold in_uint in Hb. change (2 ^ 8) with 256 in Hb. unfold hex_pair, hex_byte.
  assert (H1 : 0 <= b / 16 < 16) by (split; [apply Z.div_pos; lia|apply Z.div_lt_upper_bound; lia]).
  pose proof (Z.mod_pos_bound b 16 ltac:(lia)). rewrite !lower_nibble_hex by done.
  rewrite nibble_pair by done. pose proof (Z.div_mod b 16). lia.
Qed.

Lemma chunks_of_pairs bs : forall fuel, (length bs <= fuel)%nat ->
  chunks_exact fuel 2 (concat (map hex_byte bs)) = map hex_byte bs.
Proof.
  induction bs as [|b bs IH]; intros [|fuel] Hf; simpl in *; try done; [lia|].
  rewrite drop_0, IH by lia. done.
Qed.

Lemma concat_hex_length bs : length (concat (map hex_byte bs)) = (2 * length bs)%nat.
Proof. induction bs as [|b bs IH]; simpl; [done|]. rewrite IH. lia. Qed.

Lemma parse_hex_print bs : bytes_n 32 bs -> parse_hex_32 (concat (map hex_byte bs)) = Some bs.
Proof.
  intros [Hlen Hb]. unfold parse_hex_32. rewrite concat_hex_length, Hlen. simpl (negb (_ =? _)%nat).
  assert (Hl : forallb lower_hex (concat (map hex_byte bs)) = true).
  { clear Hlen. induction Hb as [|b bs Hb Hbs IH]; [done|]. cbn [map concat]. by rewrite forallb_app, hex_byte_lower, IH. }
  rewrite Hl. cbn [negb orb]. f_equal. rewrite chunks_of_pairs by lia. rewrite map_map.
  change (map (fun b => hex_pair (hex_byte b)) bs = bs). clear Hlen Hl.
  induction Hb as [|b bs Hb Hbs IH]; [done|]. cbn [map]. by rewrite hex_pair_byte, IH.
Qed.

(** The text of accepted pairs is what is printed for them. *)
Lemma print_pairs n : forall value, length value = (2 * n)%nat -> forallb lower_hex value = true ->
  forall fuel, (n <= fuel)%nat ->
  let bs := map hex_pair (chunks_exact fuel 2 value) in
  length bs = n /\ Forall (in_uint 8) bs /\ concat (map hex_byte bs) = value.
Proof.
  induction n as [|n IH]; intros value Hlen Hhex fuel Hfuel.
  { destruct value; [|simpl in Hlen; lia]. destruct fuel; by split_and!; try constructor. }
  destruct value as [|a [|b value]]; simpl in Hlen; [lia|lia|].
  destruct fuel as [|fuel]; [lia|].
  assert (Hchunk : chunks_exact (S fuel) 2 (a :: b :: value) = [a; b] :: chunks_exact fuel 2 value) by (simpl; by rewrite drop_0).
  rewrite Hchunk. simpl in Hhex. apply andb_true_iff in Hhex as [Ha Hhex]. apply andb_true_iff in Hhex as [Hb Hhex].
  apply hex_lower_nibble in Ha as [Ha1 Ha2], Hb as [Hb1 Hb2].
  destruct (IH value ltac:(lia) Hhex fuel ltac:(lia)) as (H1 & H2 & H3). cbv zeta.
  assert (Hpair : hex_pair [a; b] = lower_nibble a * 16 + lower_nibble b) by (unfold hex_pair; by rewrite nibble_pair).
  cbn [concat map length]. rewrite H1. split; [done|].
  assert (Hdiv : (lower_nibble a * 16 + lower_nibble b) / 16 = lower_nibble a) by (symmetry; apply Z.div_unique with (lower_nibble b); lia).
  assert (Hmod : (lower_nibble a * 16 + lower_nibble b) mod 16 = lower_nibble b) by (symmetry; apply Z.mod_unique with (lower_nibble a); lia).
  split.
  - constructor; [|done]. rewrite Hpair. unfold in_uint. change (2 ^ 8) with 256. lia.
  - rewrite Hpair. unfold hex_byte at 1. rewrite Hdiv, Hmod, Ha2, Hb2. cbn [app]. by rewrite H3.
Qed.

Lemma parse_hex_canonical value bs :
  parse_hex_32 value = Some bs -> bytes_n 32 bs /\ concat (map hex_byte bs) = value.
Proof.
  unfold parse_hex_32. destruct (negb _ || negb _) eqn:Hg; [done|].
  apply orb_false_iff in Hg as [Hlen%negb_false_iff Hhex%negb_false_iff]. apply Nat.eqb_eq in Hlen.
  intros [= <-]. destruct (print_pairs 32 value Hlen Hhex (length value) ltac:(lia)) as (H1 & H2 & H3).
  split; [by split|exact H3].
Qed.

(** Node keys round trip through their text, and no other text is accepted: the
    printed form of a key parses to it, and what parses is exactly the printed form. *)
Theorem node_key_roundtrip k value :
  (bytes_n 32 (node_bytes k) -> parse_node_key (node_to_string k) = Ok k) /\
  (parse_node_key value = Ok k -> bytes_n 32 (node_bytes k) /\ value = node_to_string k).
Proof.
  split.
  - intros Hk. unfold parse_node_key, node_to_string, strip_prefix.
    rewrite take_app_length, bool_decide_true, drop_app_length by done. rewrite parse_hex_print by done. by destruct k.
  - unfold parse_node_key, strip_prefix. destruct (bool_decide _) eqn:Hp; [|done]. apply bool_decide_eq_true in Hp.
    destruct (parse_hex_32 _) as [bs|] eqn:Hh; [|done]. intros [= <-].
    apply parse_hex_canonical in Hh as [Hb Ht]. split; [done|].
    unfold node_to_string. simpl. rewrite Ht.
    rewrite <- (take_drop (length NODE_KEY_PREFIX) value) at 1. by rewrite Hp.
Qed.

(** ** Witnesses *)

Definition demo_session_player (suffix : Z) : PlayerId := mkProtocolId [0; 0; 0; 0; 0; 0; 64; 0; 128; 0; 0; 0; 0; 0; 0; suffix].
Definition demo_entry (suffix : Z) : RosterManifestEntry :=
  mkRosterManifestEntry (demo_session_player suffix) (mkSessionPublicKey (repeat suffix 32)) (V4 [100; 64; 0; suffix]) 41641 None.
Definition demo_manifest (l : list RosterManifestEntry) : RosterManifest :=
  mkRosterManifest (demo_session_player 200) 4 1 9 l.

Lemma demo_entry_ok suffix : in_uint 8 suffix -> entry_ok 4 (demo_entry suffix).
Proof.
  intros Hs. assert (Hb : Forall (in_uint 8) (repeat suffix 32)) by (repeat constructor; apply Hs).
  split; [|split; [by split|by split_and!]].
  split; [done|]. split; [|by split]. unfold demo_entry, demo_session_player. simpl.
  repeat (apply Forall_cons; split; [first [exact Hs|by split]|]). by apply Forall_nil.
Qed.

Lemma demo_manifest_ok l : short l -> Forall (entry_ok 4) l -> manifest_ok 4 (demo_manifest l).
Proof. intros Hl He. split_and!; done. Qed.

Lemma roster_bytes_bind_witness :
  canonical_roster_bytes (demo_manifest [demo_entry 1; demo_entry 2]) = canonical_roster_bytes (demo_manifest [demo_entry 2; demo_entry 1]).
Proof.
  assert (H1 : entry_ok 4 (demo_entry 1)) by (by apply demo_entry_ok).
  assert (H2 : entry_ok 4 (demo_entry 2)) by (by apply demo_entry_ok).
  apply (roster_bytes_bind 4 (demo_manifest [demo_entry 1; demo_entry 2]) (demo_manifest [demo_entry 2; demo_entry 1])).
  - apply demo_manifest_ok; [by vm_compute|by repeat constructor].
  - apply demo_manifest_ok; [by vm_compute|by repeat constructor].
  - simpl. repeat constructor; set_solver.
  - split_and!; try done. apply perm_swap.
Defined.

Lemma node_key_roundtrip_witness :
  let key := mkNodeKey (repeat 171 32) in parse_node_key (node_to_string key) = Ok key.
Proof. apply (proj1 (node_key_roundtrip _ (node_to_string (mkNodeKey (repeat 171 32))))). split; [done|]. by repeat constructor. Defined.
