(* ===== verification/IpText.v ===== *)
(** * The text of IP addresses

    [str::parse::<IpAddr>] of the Rust standard library ([core::net::parser]), which
    the lobby service applies to the addresses riders register: dotted quads without
    leading zeros, and groups of up to four hexadecimal digits of either case, with
    one [::] and an embedded dotted quad. *)

From S2P Require Import Prelude MachineInt Bytes Session.
Open Scope Z_scope.

(** A reader takes a prefix of the text or fails; a failed reader has read nothing. *)
Definition reader (A : Type) : Type := list Z -> option (A * list Z).

Definition read_given_char (c : Z) : reader unit := fun s =>
  match s with b :: s => if b =? c then Some (tt, s) else None | [] => None end.

(** [char::to_digit] *)
Definition to_digit (radix b : Z) : option Z :=
  let digit := if is_ascii_digit b then b - 48
    else if (97 <=? to_ascii_lowercase b) && (to_ascii_lowercase b <=? 122) then to_ascii_lowercase b - 97 + 10
    else radix in
  if digit <? radix then Some digit else None.

(** The digits of a number: how many, their value, and the rest. *)
Fixpoint read_digits (width radix : Z) (max count : nat) (value : Z) (s : list Z) : option (nat * Z * list Z) :=
  match s with
  | [] => Some (count, value, [])
  | b :: rest =>
      match to_digit radix b with
      | None => Some (count, value, s)
      | Some digit =>
          if (2 ^ width <=? value * radix + digit) || (max <? S count)%nat then None
          else read_digits width radix max (S count) (value * radix + digit) rest
      end
  end.
Definition read_number (width radix : Z) (max : nat) (allow_zero_prefix : bool) : reader Z := fun s =>
  match read_digits width radix max 0 0 s with
  | None => None
  | Some (count, value, rest) =>
      if (count =? 0)%nat then None
      else if negb allow_zero_prefix && bool_decide (head s = Some byte_0) && (1 <? count)%nat then None
      else Some (value, rest)
  end.
Definition read_separator {A} (separator : Z) (index : nat) (inner : reader A) : reader A := fun s =>
  match index with
  | O => inner s
  | S _ => match read_given_char separator s with Some (_, s) => inner s | None => None end
  end.

Definition read_octet (index : nat) : reader Z := read_separator byte_dot index (read_number 8 10 3 false).
Definition read_ipv4_addr : reader (list Z) := fun s =>
  match read_octet 0 s with
  | None => None
  | Some (a, s) => match read_octet 1 s with
    | None => None
    | Some (b, s) => match read_octet 2 s with
      | None => None
      | Some (c, s) => match read_octet 3 s with
        | None => None
        | Some (d, s) => Some ([a; b; c; d], s)
        end
      end
    end
  end.

Definition byte_colon : Z := 58.
(** Up to [limit] groups, [index] of them read before, and whether a dotted quad was read. *)
Fixpoint read_groups (limit index : nat) (s : list Z) : list Z * bool * list Z :=
  match limit with
  | O => ([], false, s)
  | S remaining =>
      match (match remaining with O => None | S _ => read_separator byte_colon index read_ipv4_addr s end) with
      | Some ([a; b; c; d], s) => ([a * 256 + b; c * 256 + d], true, s)
      | _ =>
          match read_separator byte_colon index (read_number 16 16 4 true) s with
          | None => ([], false, s)
          | Some (group, s) => let '(groups, quad, s) := read_groups remaining (S index) s in (group :: groups, quad, s)
          end
      end
  end.
Definition read_ipv6_addr : reader (list Z) := fun s =>
  let '(front, quad, rest) := read_groups 8 0 s in
  if (length front =? 8)%nat then Some (front, rest)
  else if quad then None
  else
    match read_given_char byte_colon rest with
    | None => None
    | Some (_, rest) =>
        match read_given_char byte_colon rest with
        | None => None
        | Some (_, rest) =>
            let '(back, _, rest) := read_groups (8 - (length front + 1)) 0 rest in
            Some (front ++ repeat 0 (8 - length front - length back) ++ back, rest)
        end
    end.

Definition parse_ip (s : list Z) : option IpAddr :=
  match read_ipv4_addr s with
  | Some (octets, rest) => match rest with [] => Some (V4 octets) | _ => None end
  | None =>
      match read_ipv6_addr s with
      | Some (groups, []) => Some (V6 (concat (map (be_bytes 2) groups)))
      | _ => None
      end
  end.

Example parse_examples :
  map (fun s => parse_ip (bytes_of_string s)) ["100.64.0.1"; "100.064.0.1"; "1.2.3"; "1.2.3.256"]%string
    = [Some (V4 [100; 64; 0; 1]); None; None; None] /\
  parse_ip (bytes_of_string "fd7a:115c:a1e0::1") = Some (V6 [253; 122; 17; 92; 161; 224; 0; 0; 0; 0; 0; 0; 0; 0; 0; 1]) /\
  map (fun s => parse_ip (bytes_of_string s)) ["FD7A:115c:a1e0:0::0001"; "fd7a:115c:a1e0:0:0:0:0.0.0.1"]%string
    = repeat (parse_ip (bytes_of_string "fd7a:115c:a1e0::1")) 2 /\
  map (fun s => parse_ip (bytes_of_string s)) ["::"; "1:2:3:4:5:6:7::"; "1:2:3:4:5:6:7:8::"; "1::2::3"; "12345::"; "::1.2.3.4:5"]%string
    = [Some (V6 (repeat 0 16)); Some (V6 [0;1;0;2;0;3;0;4;0;5;0;6;0;7;0;0]); None; None; None; None].
Proof. vm_compute. done. Qed.

(** ** What is read is an address *)

Lemma read_digits_range width radix max s : forall count value n v rest,
  0 <= value < 2 ^ width -> 0 < radix -> read_digits width radix max count value s = Some (n, v, rest) -> in_uint width v.
Proof.
  induction s as [|b s IH]; intros count value n v rest Hv Hr; cbn [read_digits]; [by intros [= _ <- _]|].
  unfold to_digit. cbv zeta. destruct (_ <? radix) eqn:Hd; [|by intros [= _ <- _]].
  destruct (_ || _) eqn:Hg; [done|]. apply orb_false_iff in Hg as [Hlt _]. apply Z.leb_gt in Hlt.
  intros Hread. eapply IH; [|exact Hr|exact Hread]. split; [|exact Hlt].
  unfold is_ascii_digit. repeat case_match; btrue; nia.
Qed.
Lemma read_number_range width radix max zero s v rest :
  0 <= width -> 0 < radix -> read_number width radix max zero s = Some (v, rest) -> in_uint width v.
Proof.
  intros Hw Hr. unfold read_number. destruct (read_digits _ _ _ _ _ s) as [[[n v'] rest']|] eqn:Hd; [|done].
  destruct (n =? 0)%nat; [done|]. destruct (_ && _ && _); [done|]. intros [= <- <-].
  eapply read_digits_range; [|exact Hr|exact Hd]. split; [lia|by apply Z.pow_pos_nonneg].
Qed.
Lemma read_separator_range (P : Z -> Prop) separator index inner s v rest :
  (forall s v rest, inner s = Some (v, rest) -> P v) -> read_separator separator index inner s = Some (v, rest) -> P v.
Proof.
  intros Hinner. destruct index; cbn; [apply Hinner|]. unfold read_given_char.
  destruct s as [|b s]; [done|]. destruct (b =? separator); [apply Hinner|done].
Qed.
Lemma read_octet_range index s v rest : read_octet index s = Some (v, rest) -> in_uint 8 v.
Proof. apply read_separator_range. intros s' v' r. by apply read_number_range. Qed.

Lemma read_ipv4_addr_ok s o rest : read_ipv4_addr s = Some (o, rest) -> bytes_n 4 o.
Proof.
  unfold read_ipv4_addr. destruct (read_octet 0 s) as [[a s0]|] eqn:Ha; [|done].
  destruct (read_octet 1 s0) as [[b s1]|] eqn:Hb; [|done]. destruct (read_octet 2 s1) as [[c s2]|] eqn:Hc; [|done].
  destruct (read_octet 3 s2) as [[d s3]|] eqn:Hd; [|done]. intros [= <- _].
  split; [done|]. repeat (apply Forall_cons; split; [by eapply read_octet_range|]). by apply Forall_nil.
Qed.

Lemma length_read_groups limit : forall index s, (length (read_groups limit index s).1.1 <= limit)%nat.
Proof.
  induction limit as [|remaining IH]; intros index s; cbn [read_groups]; [done|].
  destruct (match remaining with O => None | S _ => _ end) as [[o s']|] eqn:Hq.
  - destruct remaining; [done|].
    assert (Ho : exists a b c d, o = [a; b; c; d]).
    { assert (Hlen : bytes_n 4 o).
      { destruct index; cbn [read_separator] in Hq; [by eapply read_ipv4_addr_ok|].
        destruct (read_given_char _ s) as [[? ?]|]; [by eapply read_ipv4_addr_ok|done]. }
      destruct Hlen as [Hl _]. do 5 (destruct o as [|? o]; try done). by repeat eexists. }
    destruct Ho as (a & b & c & d & ->). cbn. lia.
  - destruct (read_separator byte_colon index (read_number 16 16 4 true) s) as [[g s']|]; [|apply Nat.le_0_l].
    specialize (IH (S index) s'). destruct (read_groups remaining (S index) s') as [[gs quad] s'']. cbn in IH |- *. by apply le_n_S.
Qed.
Lemma read_ipv6_addr_length s groups rest : read_ipv6_addr s = Some (groups, rest) -> length groups = 8%nat.
Proof.
  unfold read_ipv6_addr. destruct (read_groups 8 0 s) as [[front quad] r] eqn:Hf.
  destruct (Nat.eqb_spec (length front) 8) as [H8|H8]; [by intros [= <- <-]|]. destruct quad; [done|].
  do 2 (destruct (read_given_char _ _) as [[? ?]|]; [|done]).
  pose proof (length_read_groups 8 0 s) as H1. rewrite Hf in H1. cbn in H1.
  match goal with |- context [read_groups ?n 0 ?r] => pose proof (length_read_groups n 0 r) as H2; destruct (read_groups n 0 r) as [[back q] r'] end.
  intros [= <- <-]. cbn in H2. rewrite !length_app, repeat_length. lia.
Qed.

Lemma concat_be_bytes (l : list Z) : bytes_n (2 * length l) (concat (map (be_bytes 2) l)).
Proof.
  induction l as [|g l [IH1 IH2]]; [split; [done|by apply Forall_nil]|]. cbn [map concat]. split.
  - rewrite length_app, length_be_bytes, IH1. cbn. lia.
  - apply Forall_app; split; [apply be_bytes_range|done].
Qed.

(** A parsed address has the octets of its family. *)
Lemma parse_ip_ok s ip : parse_ip s = Some ip ->
  match ip with V4 o => bytes_n 4 o | V6 o => bytes_n 16 o end.
Proof.
  unfold parse_ip. destruct (read_ipv4_addr s) as [[o rest]|] eqn:H4.
  - destruct rest; [|done]. intros [= <-]. by eapply read_ipv4_addr_ok.
  - destruct (read_ipv6_addr s) as [[groups rest]|] eqn:H6; [|done]. destruct rest; [|done]. intros [= <-].
    apply read_ipv6_addr_length in H6. pose proof (concat_be_bytes groups) as Hb. by rewrite H6 in Hb.
Qed.
