(* ===== verification/Rehearsal.v ===== *)
(** * Signed receipts of a rehearsal ([spurfire-server/src/rehearsal.rs])

    What the owner signs before a supervised run may start, the measurements it is
    compared with, and the authority that remains of it. JSON and the text of socket
    addresses are the interface [ReceiptText]; signatures are [Crypto]. *)

From S2P Require Import Prelude MachineInt Clock Bytes Identifiers WireVersion Model Session.
From stdpp Require Import gmap.
Open Scope Z_scope.

(** ** Constants *)

Definition LOCAL_REHEARSAL_AUDIENCE : list Z := bytes_of_string "spurfire-local-rehearsal/v1".
Definition REVIEWED_SOURCE_SHA : list Z := bytes_of_string "e89237ef04cdeb46eb9381d9766bbefeb3b458ee".
(** [Duration::from_secs(5 * 60)], in milliseconds. *)
Definition MAX_RECEIPT_LIFETIME : Z := 5 * 60 * 1000.
Definition REHEARSAL_POLICY_PROFILE : list Z := bytes_of_string "spurfire-rider-isolation/v1".
Definition PROTECTED_ALPHA_AUDIENCE : list Z := bytes_of_string "spurfire-protected-alpha/v1".
Definition PROTECTED_ALPHA_PURPOSE : list Z := bytes_of_string "bounded_hosted_alpha".
Definition ALPHA_PLAY_MS : Z := 45 * 60 * 1000.
Definition ALPHA_CLEANUP_MS : Z := 15 * 60 * 1000.

(** ** Claims, measurements and what is retained *)

Record LocalRehearsalClaims := mkLocalRehearsalClaims {
  local_audience : list Z;
  local_receipt_id : list Z;
  local_source_sha : list Z;
  local_executable_sha256 : list Z;
  local_provenance_sha256 : list Z;
  local_boot_challenge_sha256 : list Z;
  local_owner_key_id : list Z;
  local_issued_at : UnixMillis;
  local_expires_at : UnixMillis;
  local_listener : list Z;
  local_expected_peer_uid : Z;
  local_lobby_id : LobbyId;
  local_network_generation : Z;
  local_provisioning_mode : ProvisioningMode;
  local_policy_profile : list Z;
  local_participant_cap : Z;
  local_absolute_deadline : UnixMillis;
  local_hosted : bool;
  local_purpose : list Z;
}.
Record LocalRehearsalReceipt := mkLocalRehearsalReceipt {
  local_claims : LocalRehearsalClaims;
  local_signature : list Z;
}.

Record RehearsalVerificationContext := mkRehearsalVerificationContext {
  lctx_now : UnixMillis;
  lctx_executable_sha256 : list Z;
  lctx_provenance_sha256 : list Z;
  lctx_boot_challenge_sha256 : list Z;
  lctx_listener : SocketAddr;
  lctx_peer_uid : Z;
}.

Record LocalRehearsalQualification := mkLocalRehearsalQualification {
  lq_receipt_verifier : list Z;
  lq_receipt_id_digest : list Z;
  lq_lobby_id : LobbyId;
  lq_network_generation : Z;
  lq_expires_at : UnixMillis;
  lq_absolute_deadline : UnixMillis;
  lq_participant_cap : Z;
  lq_policy_profile_digest : list Z;
}.

Inductive RehearsalReceiptError :=
| ReceiptMalformed | ReceiptInvalidSignature | ReceiptUnknownSigner | ReceiptInvalidBinding | ReceiptInvalidLifetime
| ReceiptInvalidListener.

Record ProtectedAlphaClaims := mkProtectedAlphaClaims {
  audience : list Z;
  receipt_id : list Z;
  source_sha : list Z;
  runtime_image_digest : list Z;
  broker_image_digest : list Z;
  worker_sha256 : list Z;
  broker_sha256 : list Z;
  provenance_sha256 : list Z;
  artifact_set_sha256 : list Z;
  policy_profile_sha256 : list Z;
  public_origin : list Z;
  internal_listener : list Z;
  claimed_lobby_id : LobbyId;
  claimed_network_generation : Z;
  installation_id : list Z;
  store_instance_id_sha256 : list Z;
  canonical_state_path_sha256 : list Z;
  initial_state_sha256 : list Z;
  lease_uid : list Z;
  lease_resource_version : list Z;
  lease_phase : list Z;
  supervisor_run_id : list Z;
  initial_epoch : Z;
  launch_code_sha256 : list Z;
  participant_cap : Z;
  issued_at : UnixMillis;
  expires_at : UnixMillis;
  final_io_deadline : UnixMillis;
  absolute_deadline : UnixMillis;
  claimed_provisioning_mode : ProvisioningMode;
  hosted : bool;
  purpose : list Z;
  owner_key_id : list Z;
}.
Record ProtectedAlphaReceipt := mkProtectedAlphaReceipt {
  claims : ProtectedAlphaClaims;
  receipt_signature : list Z;
}.

Record ProtectedAlphaVerificationContext := mkProtectedAlphaVerificationContext {
  ctx_now : UnixMillis;
  ctx_source_sha : list Z;
  ctx_runtime_image_digest : list Z;
  ctx_broker_image_digest : list Z;
  ctx_worker_sha256 : list Z;
  ctx_broker_sha256 : list Z;
  ctx_provenance_sha256 : list Z;
  ctx_artifact_set_sha256 : list Z;
  ctx_policy_profile_sha256 : list Z;
  ctx_public_origin : list Z;
  ctx_internal_listener : list Z;
  ctx_installation_id : list Z;
  ctx_store_instance_id_sha256 : list Z;
  ctx_canonical_state_path_sha256 : list Z;
  ctx_initial_state_sha256 : list Z;
  ctx_lease_uid : list Z;
  ctx_lease_resource_version : list Z;
  ctx_launch_code_sha256 : list Z;
}.
#[export] Instance ProtectedAlphaVerificationContext_settable : Settable ProtectedAlphaVerificationContext := fun c =>
  mkProtectedAlphaVerificationContext (ctx_now c) (ctx_source_sha c) (ctx_runtime_image_digest c) (ctx_broker_image_digest c)
    (ctx_worker_sha256 c) (ctx_broker_sha256 c) (ctx_provenance_sha256 c) (ctx_artifact_set_sha256 c)
    (ctx_policy_profile_sha256 c) (ctx_public_origin c) (ctx_internal_listener c) (ctx_installation_id c)
    (ctx_store_instance_id_sha256 c) (ctx_canonical_state_path_sha256 c) (ctx_initial_state_sha256 c) (ctx_lease_uid c)
    (ctx_lease_resource_version c) (ctx_launch_code_sha256 c).

Record ProtectedAlphaQualification := mkProtectedAlphaQualification {
  q_receipt_verifier : list Z;
  q_receipt_id_digest : list Z;
  q_lobby_id : LobbyId;
  q_network_generation : Z;
  q_installation_id_digest : list Z;
  q_store_instance_id_sha256 : list Z;
  q_canonical_state_path_sha256 : list Z;
  q_initial_state_sha256 : list Z;
  q_lease_uid_digest : list Z;
  q_lease_resource_version_digest : list Z;
  q_launch_code_sha256 : list Z;
  q_supervisor_run_id_digest : list Z;
  q_initial_epoch : Z;
  q_expires_at : UnixMillis;
  q_final_io_deadline : UnixMillis;
  q_absolute_deadline : UnixMillis;
  q_participant_cap : Z;
  q_runtime_image_digest : list Z;
  q_broker_image_digest : list Z;
  q_worker_sha256 : list Z;
  q_broker_sha256 : list Z;
  q_provenance_sha256 : list Z;
  q_artifact_set_sha256 : list Z;
  q_policy_profile_digest : list Z;
  q_public_origin_digest : list Z;
  q_internal_listener_digest : list Z;
}.

(** ** Libraries *)

Class ReceiptText := {
  parse_alpha_receipt : list Z -> option ProtectedAlphaReceipt;
  json_alpha_claims : ProtectedAlphaClaims -> list Z;
  parse_local_receipt : list Z -> option LocalRehearsalReceipt;
  json_local_claims : LocalRehearsalClaims -> list Z;
  signature_from_slice : list Z -> option (list Z);
  parse_socket_addr : list Z -> option SocketAddr;
  socket_addr_to_string : SocketAddr -> list Z;
}.

(** ** Helpers *)

Definition hex (bytes : list Z) : list Z := concat (map hex_byte bytes).

Definition is_lower_hex (b : Z) : bool := is_ascii_digit b || ((97 <=? b) && (b <=? 102)).
Definition valid_image_digest (value : list Z) : bool :=
  (length value =? 71)%nat
  && is_some (Session.strip_prefix (bytes_of_string "sha256:") value)
  && forallb is_lower_hex (drop 7 value).

Definition starts_with (prefix value : list Z) : bool := is_some (Session.strip_prefix prefix value).
Definition ends_with (suffix value : list Z) : bool := starts_with (rev suffix) (rev value).

Definition host_byte (b : Z) : bool := ((97 <=? b) && (b <=? 122)) || is_ascii_digit b || (b =? 45) || (b =? 46).
Definition is_service_host (host : list Z) : bool :=
  negb (length host =? 0)%nat && (length host <=? 253)%nat && forallb host_byte host.

Section verification.
Context `{Crypto} `{ReceiptText}.

Definition domain_hash (domain : String.string) (value : list Z) : list Z := sha2 (bytes_of_string domain ++ [0] ++ value).

Definition private_listener (listener : list Z) : bool :=
  starts_with (bytes_of_string "/") listener
  || is_some_and (parse_socket_addr listener) (fun value =>
       ip_is_loopback (socket_ip value) && negb (ip_is_unspecified (socket_ip value)))
  || (ends_with (bytes_of_string ":9443") listener
      && is_some_and (split_once 58 listener) (fun '(host, _) => is_service_host host)).

(** The signature of the claims by a trusted owner key. *)
Definition receipt_signer (trusted_keys : gmap (list Z) (list Z)) (owner : list Z) (claims_bytes signature : list Z)
    : result unit RehearsalReceiptError :=
  match trusted_keys !! owner with
  | None => Err ReceiptUnknownSigner
  | Some key =>
      match signature_from_slice signature with
      | None => Err ReceiptInvalidSignature
      | Some signature => if verify_strict key claims_bytes signature then Ok tt else Err ReceiptInvalidSignature
      end
  end.

(** ** The protected Alpha receipt *)

Definition alpha_lifetime_invalid (c : ProtectedAlphaClaims) (now lifetime : Z) (cleanup_recovery : bool) : bool :=
  (now <? issued_at c)
  || (negb cleanup_recovery && (expires_at c <=? now))
  || (lifetime =? 0)
  || (lifetime >? MAX_RECEIPT_LIFETIME)
  || (negb cleanup_recovery && (final_io_deadline c <=? now))
  || (cleanup_recovery && (absolute_deadline c <=? now))
  || negb (final_io_deadline c =? millis_saturating_add (issued_at c) ALPHA_PLAY_MS)
  || negb (absolute_deadline c =? millis_saturating_add (final_io_deadline c) ALPHA_CLEANUP_MS).

Definition alpha_listener_invalid (c : ProtectedAlphaClaims) : bool :=
  negb (private_listener (internal_listener c))
  || negb (starts_with (bytes_of_string "https://") (public_origin c))
  || ends_with (bytes_of_string "/") (public_origin c).

Definition differs (a b : list Z) : bool := negb (bool_decide (a = b)).

(** The claims by themselves. *)
Definition alpha_claims_invalid (c : ProtectedAlphaClaims) : bool :=
  differs (audience c) PROTECTED_ALPHA_AUDIENCE
  || differs (purpose c) PROTECTED_ALPHA_PURPOSE
  || negb (hosted c)
  || (match claimed_provisioning_mode c with TailnetPerLobby => false | _ => true end)
  || (claimed_network_generation c =? 0)
  || (initial_epoch c =? 0)
  || negb (participant_cap c =? 2)
  || (length (receipt_id c) <? 32)%nat
  || (length (supervisor_run_id c) <? 16)%nat
  || (length (installation_id c) <? 16)%nat
  || (length (lease_uid c) =? 0)%nat
  || (length (lease_resource_version c) =? 0)%nat
  || differs (lease_phase c) (bytes_of_string "admission")
  || negb (valid_image_digest (runtime_image_digest c))
  || negb (valid_image_digest (broker_image_digest c)).

(** The claims against the measurements of the launcher. *)
Definition alpha_binding_invalid (c : ProtectedAlphaClaims) (context : ProtectedAlphaVerificationContext) : bool :=
  differs (source_sha c) (ctx_source_sha context)
  || differs (runtime_image_digest c) (ctx_runtime_image_digest context)
  || differs (broker_image_digest c) (ctx_broker_image_digest context)
  || differs (worker_sha256 c) (hex (ctx_worker_sha256 context))
  || differs (broker_sha256 c) (hex (ctx_broker_sha256 context))
  || differs (provenance_sha256 c) (hex (ctx_provenance_sha256 context))
  || differs (artifact_set_sha256 c) (hex (ctx_artifact_set_sha256 context))
  || differs (policy_profile_sha256 c) (hex (ctx_policy_profile_sha256 context))
  || differs (public_origin c) (ctx_public_origin context)
  || differs (internal_listener c) (ctx_internal_listener context)
  || differs (installation_id c) (ctx_installation_id context)
  || differs (store_instance_id_sha256 c) (hex (ctx_store_instance_id_sha256 context))
  || differs (canonical_state_path_sha256 c) (hex (ctx_canonical_state_path_sha256 context))
  || differs (initial_state_sha256 c) (hex (ctx_initial_state_sha256 context))
  || differs (lease_uid c) (ctx_lease_uid context)
  || differs (lease_resource_version c) (ctx_lease_resource_version context)
  || differs (launch_code_sha256 c) (hex (ctx_launch_code_sha256 context)).

Definition alpha_qualification (c : ProtectedAlphaClaims) (context : ProtectedAlphaVerificationContext) (claims_bytes : list Z)
    : ProtectedAlphaQualification := {|
  q_receipt_verifier := domain_hash "spurfire-protected-alpha-receipt-v1" claims_bytes;
  q_receipt_id_digest := domain_hash "spurfire-protected-alpha-id-v1" (receipt_id c);
  q_lobby_id := claimed_lobby_id c;
  q_network_generation := claimed_network_generation c;
  q_installation_id_digest := domain_hash "spurfire-installation-id-v1" (installation_id c);
  q_store_instance_id_sha256 := ctx_store_instance_id_sha256 context;
  q_canonical_state_path_sha256 := ctx_canonical_state_path_sha256 context;
  q_initial_state_sha256 := ctx_initial_state_sha256 context;
  q_lease_uid_digest := domain_hash "spurfire-lease-uid-v1" (lease_uid c);
  q_lease_resource_version_digest := domain_hash "spurfire-lease-rv-v1" (lease_resource_version c);
  q_launch_code_sha256 := ctx_launch_code_sha256 context;
  q_supervisor_run_id_digest := domain_hash "spurfire-protected-alpha-run-v1" (supervisor_run_id c);
  q_initial_epoch := initial_epoch c;
  q_expires_at := expires_at c;
  q_final_io_deadline := final_io_deadline c;
  q_absolute_deadline := absolute_deadline c;
  q_participant_cap := participant_cap c;
  q_runtime_image_digest := domain_hash "spurfire-runtime-image-v1" (runtime_image_digest c);
  q_broker_image_digest := domain_hash "spurfire-broker-image-v1" (broker_image_digest c);
  q_worker_sha256 := ctx_worker_sha256 context;
  q_broker_sha256 := ctx_broker_sha256 context;
  q_provenance_sha256 := ctx_provenance_sha256 context;
  q_artifact_set_sha256 := ctx_artifact_set_sha256 context;
  q_policy_profile_digest := ctx_policy_profile_sha256 context;
  q_public_origin_digest := domain_hash "spurfire-protected-alpha-origin-v1" (public_origin c);
  q_internal_listener_digest := domain_hash "spurfire-protected-alpha-listener-v1" (internal_listener c);
|}.

Definition verify_protected_alpha_inner (receipt_bytes : list Z) (trusted_keys : gmap (list Z) (list Z))
    (context : ProtectedAlphaVerificationContext) (cleanup_recovery : bool)
    : result ProtectedAlphaQualification RehearsalReceiptError :=
  match parse_alpha_receipt receipt_bytes with
  | None => Err ReceiptMalformed
  | Some receipt =>
      let c := claims receipt in
      let claims_bytes := json_alpha_claims c in
      match receipt_signer trusted_keys (owner_key_id c) claims_bytes (receipt_signature receipt) with
      | Err e => Err e
      | Ok _ =>
          match millis_checked_duration_since (expires_at c) (issued_at c) with
          | None => Err ReceiptInvalidLifetime
          | Some lifetime =>
              if alpha_lifetime_invalid c (ctx_now context) lifetime cleanup_recovery then Err ReceiptInvalidLifetime
              else if alpha_listener_invalid c then Err ReceiptInvalidListener
              else if alpha_claims_invalid c || alpha_binding_invalid c context then Err ReceiptInvalidBinding
              else Ok (alpha_qualification c context claims_bytes)
          end
      end
  end.

(** The caller's bytes are zeroed whatever the outcome. *)
Definition zeroize (bytes : list Z) : list Z := repeat 0 (length bytes).
Definition verify_protected_alpha_receipt (receipt_bytes : list Z) (trusted_keys : gmap (list Z) (list Z))
    (context : ProtectedAlphaVerificationContext) : list Z * result ProtectedAlphaQualification RehearsalReceiptError :=
  (zeroize receipt_bytes, verify_protected_alpha_inner receipt_bytes trusted_keys context false).
Definition verify_protected_alpha_recovery_receipt (receipt_bytes : list Z) (trusted_keys : gmap (list Z) (list Z))
    (context : ProtectedAlphaVerificationContext) : list Z * result ProtectedAlphaQualification RehearsalReceiptError :=
  (zeroize receipt_bytes, verify_protected_alpha_inner receipt_bytes trusted_keys context true).

(** ** The local receipt *)

Definition local_lifetime_invalid (c : LocalRehearsalClaims) (now lifetime : Z) : bool :=
  (now <? local_issued_at c)
  || (local_expires_at c <=? now)
  || (lifetime =? 0)
  || (lifetime >? MAX_RECEIPT_LIFETIME)
  || (local_absolute_deadline c <=? now)
  || (local_absolute_deadline c >? millis_saturating_add (local_expires_at c) 30000).

Definition local_listener_invalid (c : LocalRehearsalClaims) (context : RehearsalVerificationContext) : bool :=
  negb (ip_is_loopback (socket_ip (lctx_listener context)))
  || ip_is_unspecified (socket_ip (lctx_listener context))
  || differs (local_listener c) (socket_addr_to_string (lctx_listener context))
  || negb (local_expected_peer_uid c =? lctx_peer_uid context).

Definition local_binding_invalid (c : LocalRehearsalClaims) (context : RehearsalVerificationContext) : bool :=
  differs (local_audience c) LOCAL_REHEARSAL_AUDIENCE
  || differs (local_source_sha c) REVIEWED_SOURCE_SHA
  || differs (local_executable_sha256 c) (hex (lctx_executable_sha256 context))
  || differs (local_provenance_sha256 c) (hex (lctx_provenance_sha256 context))
  || differs (local_boot_challenge_sha256 c) (hex (lctx_boot_challenge_sha256 context))
  || negb (local_network_generation c =? 1)
  || (match local_provisioning_mode c with TailnetPerLobby => false | _ => true end)
  || differs (local_policy_profile c) REHEARSAL_POLICY_PROFILE
  || (local_participant_cap c =? 0)
  || (local_participant_cap c >? MAX_PLAYERS)
  || local_hosted c
  || differs (local_purpose c) (bytes_of_string "local_rehearsal")
  || (length (local_receipt_id c) <? 32)%nat.

Definition local_qualification (c : LocalRehearsalClaims) (claims_bytes : list Z) : LocalRehearsalQualification := {|
  lq_receipt_verifier := domain_hash "spurfire-local-rehearsal-receipt-v1" claims_bytes;
  lq_receipt_id_digest := domain_hash "spurfire-local-rehearsal-id-v1" (local_receipt_id c);
  lq_lobby_id := local_lobby_id c;
  lq_network_generation := local_network_generation c;
  lq_expires_at := local_expires_at c;
  lq_absolute_deadline := local_absolute_deadline c;
  lq_participant_cap := local_participant_cap c;
  lq_policy_profile_digest := domain_hash "spurfire-local-rehearsal-policy-v1" (local_policy_profile c);
|}.

Definition verify_inner (receipt_bytes : list Z) (trusted_keys : gmap (list Z) (list Z))
    (context : RehearsalVerificationContext) : result LocalRehearsalQualification RehearsalReceiptError :=
  match parse_local_receipt receipt_bytes with
  | None => Err ReceiptMalformed
  | Some receipt =>
      let c := local_claims receipt in
      let claims_bytes := json_local_claims c in
      match receipt_signer trusted_keys (local_owner_key_id c) claims_bytes (local_signature receipt) with
      | Err e => Err e
      | Ok _ =>
          match millis_checked_duration_since (local_expires_at c) (local_issued_at c) with
          | None => Err ReceiptInvalidLifetime
          | Some lifetime =>
              if local_lifetime_invalid c (lctx_now context) lifetime then Err ReceiptInvalidLifetime
              else if local_listener_invalid c context then Err ReceiptInvalidListener
              else if local_binding_invalid c context then Err ReceiptInvalidBinding
              else Ok (local_qualification c claims_bytes)
          end
      end
  end.
Definition verify_local_rehearsal_receipt (receipt_bytes : list Z) (trusted_keys : gmap (list Z) (list Z))
    (context : RehearsalVerificationContext) : list Z * result LocalRehearsalQualification RehearsalReceiptError :=
  (zeroize receipt_bytes, verify_inner receipt_bytes trusted_keys context).

End verification.

(** ** What acceptance means *)

Lemma receipt_signer_Ok `{Crypto} `{ReceiptText} keys owner bytes signature :
  receipt_signer keys owner bytes signature = Ok tt <->
  exists key parsed, keys !! owner = Some key /\ signature_from_slice signature = Some parsed /\ verify_strict key bytes parsed = true.
Proof.
  unfold receipt_signer. destruct (keys !! owner) as [key|]; [|split; [done|by intros (? & ? & ? & _)]].
  destruct (signature_from_slice signature) as [parsed|]; [|split; [done|by intros (? & ? & _ & ? & _)]].
  destruct (verify_strict key bytes parsed) eqn:Hv; [|split; [done|intros (? & ? & [= <-] & [= <-] & ?); congruence]].
  split; [|done]. intros _. by exists key, parsed.
Qed.

(** The clock of a receipt, as bounds. *)
Lemma alpha_lifetime_valid c now lifetime recovery :
  alpha_lifetime_invalid c now lifetime recovery = false <->
  issued_at c <= now /\ now < (if recovery then absolute_deadline c else Z.min (expires_at c) (final_io_deadline c)) /\
  lifetime <> 0 /\ lifetime <= MAX_RECEIPT_LIFETIME /\
  final_io_deadline c = millis_saturating_add (issued_at c) ALPHA_PLAY_MS /\
  absolute_deadline c = millis_saturating_add (final_io_deadline c) ALPHA_CLEANUP_MS.
Proof.
  unfold alpha_lifetime_invalid. rewrite !orb_false_iff, !negb_false_iff, !Z.eqb_eq.
  destruct recovery; cbn [negb andb]; lia.
Qed.

Lemma alpha_receipt_Ok `{Crypto} `{ReceiptText} bytes keys context recovery q :
  verify_protected_alpha_inner bytes keys context recovery = Ok q <->
  exists receipt lifetime,
    let c := claims receipt in
    parse_alpha_receipt bytes = Some receipt /\
    receipt_signer keys (owner_key_id c) (json_alpha_claims c) (receipt_signature receipt) = Ok tt /\
    millis_checked_duration_since (expires_at c) (issued_at c) = Some lifetime /\
    alpha_lifetime_invalid c (ctx_now context) lifetime recovery = false /\
    alpha_listener_invalid c = false /\ alpha_claims_invalid c = false /\ alpha_binding_invalid c context = false /\
    q = alpha_qualification c context (json_alpha_claims c).
Proof.
  unfold verify_protected_alpha_inner. split.
  - destruct (parse_alpha_receipt bytes) as [receipt|]; [|done]. cbv zeta.
    destruct (receipt_signer _ _ _ _) as [[]|] eqn:Hsig; [|done].
    destruct (millis_checked_duration_since _ _) as [lifetime|] eqn:Hl; [|done].
    destruct (alpha_lifetime_invalid _ _ _ _) eqn:Ht; [done|]. destruct (alpha_listener_invalid _) eqn:Hi; [done|].
    destruct (alpha_claims_invalid _ || _) eqn:Hb; [done|]. apply orb_false_iff in Hb as [Hb1 Hb2].
    intros [= <-]. by exists receipt, lifetime.
  - intros (receipt & lifetime & -> & Hs & Hl & Ht & Hi & Hc & Hb & ->). cbv zeta in *.
    by rewrite Hs, Hl, Ht, Hi, Hc, Hb.
Qed.

(** Deadlines of an accepted receipt: it expires long before its cleanup ends. *)
Lemma alpha_expires_first `{Crypto} `{ReceiptText} bytes keys context recovery q :
  verify_protected_alpha_inner bytes keys context recovery = Ok q ->
  q_absolute_deadline q <= q_final_io_deadline q \/ q_expires_at q < q_absolute_deadline q.
Proof.
  intros (receipt & lifetime & _ & _ & Hl & Ht & _ & _ & _ & ->)%alpha_receipt_Ok. cbn [q_absolute_deadline q_final_io_deadline q_expires_at alpha_qualification].
  apply alpha_lifetime_valid in Ht as (_ & _ & _ & Hmax & Hf & Ha).
  unfold millis_checked_duration_since in Hl. apply checked_sub_Some in Hl as [Hl _].
  unfold millis_saturating_add, saturating_add, MAX_RECEIPT_LIFETIME, ALPHA_PLAY_MS, ALPHA_CLEANUP_MS in *. lia.
Qed.

(** A restart recovers the same authority and no other. When the owner's receipt
    was accepted for admission, then at every later time before the signed absolute
    deadline the recovery check of the same bytes, against the same measurements,
    yields exactly the authority of the admission, and from that deadline on it is
    refused; admission itself was signed by a trusted key, within five minutes of
    issue, over the very measurements of the launcher. *)
Theorem recovery_same_authority `{Crypto} `{ReceiptText} bytes keys context q :
  verify_protected_alpha_inner bytes keys context false = Ok q ->
  (forall now, ctx_now context <= now ->
     verify_protected_alpha_inner bytes keys (context <| ctx_now := now |>) true =
       if now <? q_absolute_deadline q then Ok q else Err ReceiptInvalidLifetime) /\
  ctx_now context < q_expires_at q /\ ctx_now context < q_final_io_deadline q /\
  (exists receipt key signature,
     parse_alpha_receipt bytes = Some receipt /\ keys !! owner_key_id (claims receipt) = Some key /\
     verify_strict key (json_alpha_claims (claims receipt)) signature = true /\
     expires_at (claims receipt) - issued_at (claims receipt) <= MAX_RECEIPT_LIFETIME /\
     alpha_binding_invalid (claims receipt) context = false).
Proof.
  intros Hok. pose proof Hok as (receipt & lifetime & Hp & Hs & Hl & Ht & Hi & Hc & Hb & ->)%alpha_receipt_Ok. cbv zeta in *.
  pose proof Ht as (Hissued & Hnow & Hl0 & Hl1 & Hf & Ha)%alpha_lifetime_valid. split_and!.
  - intros now Hlater. unfold verify_protected_alpha_inner. rewrite Hp. cbv zeta. rewrite Hs, Hl.
    assert (Hn : ctx_now (context <| ctx_now := now |>) = now) by done. rewrite Hn. clear Hn. cbn [q_absolute_deadline alpha_qualification].
    assert (Hb' : alpha_binding_invalid (claims receipt) (context <| ctx_now := now |>) = false) by exact Hb.
    destruct (Z.ltb_spec now (absolute_deadline (claims receipt))) as [Hlt|Hge].
    + assert (Ht' : alpha_lifetime_invalid (claims receipt) now lifetime true = false) by (apply alpha_lifetime_valid; split_and!; lia).
      rewrite Ht', Hi, Hc, Hb'. done.
    + destruct (alpha_lifetime_invalid (claims receipt) now lifetime true) eqn:Ht'; [done|].
      apply alpha_lifetime_valid in Ht' as (_ & Hlt & _). lia.
  - cbn [q_expires_at alpha_qualification]. lia.
  - cbn [q_final_io_deadline alpha_qualification]. lia.
  - apply receipt_signer_Ok in Hs as (key & parsed & Hk & _ & Hv). exists receipt, key, parsed. split_and!; try done.
    unfold millis_checked_duration_since in Hl. apply checked_sub_Some in Hl as [Hl _]. lia.
Qed.

(** ** A concrete receipt *)

Module RehearsalDemo.
(** A hash that leaves its input alone, a signature that repeats key and message. *)
#[export] Instance demo_crypto : Crypto := {
  sha2 := fun message => message;
  valid_key := fun key => (length key =? 32)%nat;
  verify_strict := fun key message signature => bool_decide (signature = key ++ message);
  SigningKey := Z;
  verifying_key := fun key => repeat key 32;
  sign_bytes := fun key message => repeat key 32 ++ message;
}.

Definition lobby : LobbyId := demo_session_player 200.
Definition digest (n : Z) : list Z := repeat n 32.
Definition image : list Z := bytes_of_string "sha256:" ++ repeat 97 64.
Definition origin : list Z := bytes_of_string "https://alpha.example".
Definition socket : list Z := bytes_of_string "/run/spurfire.sock".
Definition demo_claims : ProtectedAlphaClaims :=
  {| audience := PROTECTED_ALPHA_AUDIENCE; receipt_id := repeat 7 32; source_sha := REVIEWED_SOURCE_SHA; runtime_image_digest := image;
     broker_image_digest := image; worker_sha256 := hex (digest 1); broker_sha256 := hex (digest 2);
     provenance_sha256 := hex (digest 3); artifact_set_sha256 := hex (digest 4); policy_profile_sha256 := hex (digest 5);
     public_origin := origin; internal_listener := socket; claimed_lobby_id := lobby; claimed_network_generation := 1;
     installation_id := repeat 8 16; store_instance_id_sha256 := hex (digest 6); canonical_state_path_sha256 := hex (digest 7);
     initial_state_sha256 := hex (digest 8); lease_uid := [1]; lease_resource_version := [2];
     lease_phase := bytes_of_string "admission"; supervisor_run_id := repeat 9 16; initial_epoch := 1;
     launch_code_sha256 := hex (digest 9); participant_cap := 2; issued_at := 1000; expires_at := 61000;
     final_io_deadline := 1000 + ALPHA_PLAY_MS; absolute_deadline := 1000 + ALPHA_PLAY_MS + ALPHA_CLEANUP_MS;
     claimed_provisioning_mode := TailnetPerLobby; hosted := true; purpose := PROTECTED_ALPHA_PURPOSE; owner_key_id := [1] |}.
(** JSON in which only the receipt identifier can be told apart. *)
#[export] Instance demo_text : ReceiptText := {
  json_alpha_claims := receipt_id;
  json_local_claims := local_receipt_id;
  parse_alpha_receipt := fun signature => Some (mkProtectedAlphaReceipt demo_claims signature);
  parse_local_receipt := fun _ => None;
  signature_from_slice := Some;
  parse_socket_addr := fun _ => None;
  socket_addr_to_string := fun _ => [];
}.
Definition demo_keys : gmap (list Z) (list Z) := {[ [1] := verifying_key 5 ]}.
Definition demo_receipt : list Z := sign_bytes 5 (repeat 7 32).
Definition demo_context : ProtectedAlphaVerificationContext :=
  {| ctx_now := 2000; ctx_source_sha := REVIEWED_SOURCE_SHA; ctx_runtime_image_digest := image; ctx_broker_image_digest := image;
     ctx_worker_sha256 := digest 1; ctx_broker_sha256 := digest 2; ctx_provenance_sha256 := digest 3;
     ctx_artifact_set_sha256 := digest 4; ctx_policy_profile_sha256 := digest 5; ctx_public_origin := origin;
     ctx_internal_listener := socket; ctx_installation_id := repeat 8 16; ctx_store_instance_id_sha256 := digest 6;
     ctx_canonical_state_path_sha256 := digest 7; ctx_initial_state_sha256 := digest 8; ctx_lease_uid := [1];
     ctx_lease_resource_version := [2]; ctx_launch_code_sha256 := digest 9 |}.
Definition demo_qualification : ProtectedAlphaQualification := alpha_qualification demo_claims demo_context (repeat 7 32).
End RehearsalDemo.
Import RehearsalDemo.

Lemma recovery_same_authority_witness :
  let q := demo_qualification in
  q_absolute_deadline q = 3601000 /\
  verify_protected_alpha_inner demo_receipt demo_keys (demo_context <| ctx_now := 3600999 |>) true =
    (if 3600999 <? q_absolute_deadline q then Ok q else Err ReceiptInvalidLifetime).
Proof.
  cbv zeta. split; [reflexivity|].
  refine (proj1 (recovery_same_authority demo_receipt demo_keys demo_context demo_qualification _) 3600999 _).
  - vm_compute. reflexivity.
  - vm_compute. discriminate.
Defined.
