(* ===== verification/Election.v ===== *)
(** * Deterministic authority election ([election.rs])

    The scoring formula [election_v1], the eligibility filter, the canonical
    input encoding hashed for split-brain detection, and the election itself. *)

From S2P Require Import Prelude MachineInt Ordered Clock Bytes Identifiers WireVersion Model Sha256.
Open Scope Z_scope.

Definition AUTHORITY_FORMULA_VERSION : list Z := bytes_of_string "election_v1".
Definition MEASUREMENT_FRESHNESS_MS : Z := 60000.
Definition MIN_AUTHORITY_MEMBERSHIP_MS : Z := 30000.
Definition LOSS_ELIGIBILITY_LIMIT_MILLI : Z := 5000.
Definition MEDIAN_RTT_ELIGIBILITY_LIMIT_MS : Z := 150.
Definition CANONICAL_PREFIX : list Z :=
  bytes_of_string "spurfire-authority-input" ++ [0] ++ bytes_of_string "v1" ++ [0]
  ++ bytes_of_string "election_v1" ++ [0].

(** ** Data *)

Record AuthorityCandidate := mkCandidate {
  cand_player_id : PlayerId;
  cand_wire_version : WireVersion;
  cand_joined_at : UnixMillis;
  cand_measurement : ConnectivitySample;
}.

Record AuthorityScoreBreakdown := mkBreakdown {
  direct_milli : Z;
  median_rtt_milli : Z;
  worst_rtt_milli : Z;
  jitter_milli : Z;
  loss_milli : Z;
  upload_milli : Z;
  device_performance_milli : Z;
  weighted_score_milli : Z;
  derp_relay_penalty_milli : Z;
  peer_relay_penalty_milli : Z;
  relay_penalty_milli : Z;
  score_milli : Z;
}.

Inductive CandidateIneligibility :=
| ExcessiveLoss (loss : Z)
| ExcessiveMedianRtt (rtt : Z)
| MembershipTooYoung (membership_age_ms : Z)
| WireMajorMismatch (expected_major candidate_major : Z)
| ZeroReachablePeers.

Record ScoredAuthorityCandidate := mkScored {
  scored_player_id : PlayerId;
  breakdown : AuthorityScoreBreakdown;
  ineligibility_reasons : list CandidateIneligibility;
}.

Record AuthorityScore := mkScore {
  score_player_id : PlayerId;
  final_score : Z;
}.

Inductive CandidateRejectionReason :=
| MeasurementFromFuture
| StaleMeasurement (age_ms : Z)
| InvalidMeasurement (error : ConnectivityValidationError).

Record RejectedAuthorityCandidate := mkRejected {
  rejected_player_id : PlayerId;
  reason : CandidateRejectionReason;
}.

Record AuthorityElectionInput := mkInput {
  formula_version : list Z;
  election_at : UnixMillis;
  expected_wire_version : WireVersion;
  roster_size : Z;
  candidates : list AuthorityCandidate;
}.

Record AuthorityElection := mkElection {
  elected_formula_version : list Z;
  eligible : list AuthorityScore;
  winner_player_id : PlayerId;
  input_hash : list Z;
  input : AuthorityElectionInput;
  degraded : bool;
  scored_candidates : list ScoredAuthorityCandidate;
  rejected_candidates : list RejectedAuthorityCandidate;
}.

Inductive AuthorityElectionError :=
| NotEnoughCandidates
| DuplicatePlayer (player_id : PlayerId)
| InvalidRosterSize (size candidate_count : Z)
| NoFreshCompleteCandidates.

(** ** Canonical candidate order *)

Definition candidate_le (c d : AuthorityCandidate) : Prop :=
  key_le (cand_player_id c) (cand_player_id d).
#[export] Instance candidate_le_dec c d : Decision (candidate_le c d).
Proof. unfold candidate_le. apply _. Defined.

(** The first of [windows(2)] with equal identities. *)
Fixpoint first_adjacent_duplicate (ids : list PlayerId) : option PlayerId :=
  match ids with
  | a :: (b :: _) as rest => if decide (a = b) then Some a else first_adjacent_duplicate rest
  | _ => None
  end.

Definition sorted_candidates (cs : list AuthorityCandidate)
    : result (list AuthorityCandidate) AuthorityElectionError :=
  let sorted := merge_sort candidate_le cs in
  match first_adjacent_duplicate (cand_player_id <$> sorted) with
  | Some p => Err (DuplicatePlayer p)
  | None => Ok sorted
  end.

(** ** Canonical bytes *)

Definition version_bytes (v : WireVersion) : list Z :=
  be_bytes 2 (major v) ++ be_bytes 2 (minor v).

Definition measurement_values (m : ConnectivitySample) : list Z :=
  [direct_count (route_summary m); peer_relay_count (route_summary m);
   derp_count (route_summary m); rtt_ms_median m; rtt_ms_worst m; jitter_ms m;
   loss_pct_milli m; upload_mbps_sustained m; device_perf_score m; observed_peer_count m].

Definition candidate_row (c : AuthorityCandidate) : list Z :=
  id_bytes (cand_player_id c)
  ++ version_bytes (cand_wire_version c)
  ++ be_bytes 8 (cand_joined_at c)
  ++ be_bytes 8 (measured_at (cand_measurement c))
  ++ concat (map (be_bytes 4) (measurement_values (cand_measurement c))).

Definition canonical_measurement_matrix (cs : list AuthorityCandidate)
    : result (list Z) AuthorityElectionError :=
  match sorted_candidates cs with
  | Err e => Err e
  | Ok sorted => Ok (concat (map candidate_row sorted))
  end.

Definition canonical_election_input (i : AuthorityElectionInput)
    : result (list Z) AuthorityElectionError :=
  if (roster_size i <? 2) || (roster_size i <? Z.of_nat (length (candidates i)))
  then Err (InvalidRosterSize (roster_size i) (Z.of_nat (length (candidates i))))
  else
    match canonical_measurement_matrix (candidates i) with
    | Err e => Err e
    | Ok rows =>
        Ok (CANONICAL_PREFIX
            ++ be_bytes 4 (wrap 32 (Z.of_nat (length (formula_version i))))
            ++ formula_version i
            ++ be_bytes 8 (election_at i)
            ++ version_bytes (expected_wire_version i)
            ++ be_bytes 4 (roster_size i)
            ++ be_bytes 4 (wrap 32 (Z.of_nat (length (candidates i))))
            ++ rows)
    end.

Definition authority_input_hash (i : AuthorityElectionInput)
    : result (list Z) AuthorityElectionError :=
  match canonical_election_input i with
  | Err e => Err e
  | Ok bytes => Ok (sha256 bytes)
  end.

(** ** Scoring *)

Definition normalize_positive (value maximum : Z) : Z :=
  saturating_mul 32 (Z.min value maximum) 1000 / maximum.

Definition normalize_inverse (value maximum : Z) : Z :=
  saturating_mul 32 (saturating_sub maximum (Z.min value maximum)) 1000 / maximum.

Definition relay_penalty (count peer_count weight : Z) : Z :=
  saturating_mul 32 (Z.min count peer_count) weight / peer_count.

Definition score_measurement (m : ConnectivitySample) (peer_count : Z) : AuthorityScoreBreakdown :=
  let d := normalize_positive (direct_count (route_summary m)) peer_count in
  let md := normalize_inverse (rtt_ms_median m) 200 in
  let w := normalize_inverse (rtt_ms_worst m) 400 in
  let j := normalize_inverse (jitter_ms m) 50 in
  let l := normalize_inverse (loss_pct_milli m) 10000 in
  let u := normalize_positive (upload_mbps_sustained m) 20 in
  let p := Z.min (device_perf_score m) 1000 in
  let weighted :=
    wrap 32 (wrap 64 (270 * d + 230 * md + 140 * w + 90 * j + 90 * l + 90 * u + 90 * p) / 1000) in
  let derp := relay_penalty (derp_count (route_summary m)) peer_count 300 in
  let peer := relay_penalty (peer_relay_count (route_summary m)) peer_count 150 in
  let relay := wrapping_add 32 derp peer in
  mkBreakdown d md w j l u p weighted derp peer relay (saturating_sub weighted relay).

(** [score_authority_candidate]: one candidate's score, unfiltered. *)
Definition score_authority_candidate (c : AuthorityCandidate) (size : Z)
    : result AuthorityScoreBreakdown ConnectivityValidationError :=
  if size <? 2 then Err (ConnectivityInvalidRosterSize size)
  else
    match validate_for_roster (cand_measurement c) size with
    | Err e => Err e
    | Ok _ =>
        match try_from_uint 32 (size - 1) with
        | None => Err (ConnectivityInvalidRosterSize size)
        | Some peer_count => Ok (score_measurement (cand_measurement c) peer_count)
        end
    end.

(** ** Eligibility *)

(** The reasons pushed for one fresh and complete candidate, in order. *)
Definition ineligibility (c : AuthorityCandidate) (now : UnixMillis) (expected : WireVersion)
    : list CandidateIneligibility :=
  let m := cand_measurement c in
  let membership_age_ms := default 0 (millis_checked_duration_since now (cand_joined_at c)) in
  (if loss_pct_milli m >? LOSS_ELIGIBILITY_LIMIT_MILLI
   then [ExcessiveLoss (loss_pct_milli m)] else [])
  ++ (if rtt_ms_median m >? MEDIAN_RTT_ELIGIBILITY_LIMIT_MS
      then [ExcessiveMedianRtt (rtt_ms_median m)] else [])
  ++ (if membership_age_ms <? MIN_AUTHORITY_MEMBERSHIP_MS
      then [MembershipTooYoung membership_age_ms] else [])
  ++ (if negb (is_compatible_with (cand_wire_version c) expected)
      then [WireMajorMismatch (major expected) (major (cand_wire_version c))] else [])
  ++ (if observed_peer_count m =? 0 then [ZeroReachablePeers] else []).

(** One iteration of the scoring loop: a rejected or a scored row. *)
Definition evaluate_candidate (now : UnixMillis) (expected : WireVersion) (size : Z)
    (c : AuthorityCandidate) : RejectedAuthorityCandidate + ScoredAuthorityCandidate :=
  let m := cand_measurement c in
  match validate_for_roster m size with
  | Err error => inl (mkRejected (cand_player_id c) (InvalidMeasurement error))
  | Ok _ =>
      match millis_checked_duration_since now (measured_at m) with
      | None => inl (mkRejected (cand_player_id c) MeasurementFromFuture)
      | Some age =>
          if age >=? MEASUREMENT_FRESHNESS_MS
          then inl (mkRejected (cand_player_id c) (StaleMeasurement age))
          else inr (mkScored (cand_player_id c) (score_measurement m (size - 1))
                      (ineligibility c now expected))
      end
  end.

Definition push_evaluation (now : UnixMillis) (expected : WireVersion) (size : Z)
    (acc : list ScoredAuthorityCandidate * list RejectedAuthorityCandidate)
    (c : AuthorityCandidate) :=
  match evaluate_candidate now expected size c with
  | inl r => (acc.1, acc.2 ++ [r])
  | inr s => (acc.1 ++ [s], acc.2)
  end.

(** ** The winner *)

Definition score_of (s : ScoredAuthorityCandidate) : AuthorityScore :=
  mkScore (scored_player_id s) (score_milli (breakdown s)).

(** The comparator of [min_by]: higher score first, then smaller identity. *)
Definition winner_cmp (left right : AuthorityScore) : comparison :=
  match Z.compare (final_score right) (final_score left) with
  | Eq => key_cmp (score_player_id left) (score_player_id right)
  | c => c
  end.

Definition eligible_scores (scored : list ScoredAuthorityCandidate) : list AuthorityScore :=
  score_of <$> filter (fun s => ineligibility_reasons s = []) scored.

Definition elect_authority_for_roster (cs : list AuthorityCandidate) (now : UnixMillis)
    (expected : WireVersion) (size : Z) : result AuthorityElection AuthorityElectionError :=
  if (length cs =? 0)%nat then Err NotEnoughCandidates
  else if (size <? 2) || (size <? Z.of_nat (length cs)) || is_none (try_from_uint 32 size)
  then Err (InvalidRosterSize size (Z.of_nat (length cs)))
  else
    match sorted_candidates cs with
    | Err e => Err e
    | Ok sorted =>
        let input := mkInput AUTHORITY_FORMULA_VERSION now expected size sorted in
        match authority_input_hash input with
        | Err e => Err e
        | Ok input_hash =>
            let '(scored, rejected) :=
              fold_left (push_evaluation now expected size) sorted ([], []) in
            match scored with
            | [] => Err NoFreshCompleteCandidates
            | _ :: _ =>
                let passing := eligible_scores scored in
                let degraded := (length passing =? 0)%nat in
                let eligible := if degraded then passing ++ (score_of <$> scored) else passing in
                match eligible with
                | [] => Err NoFreshCompleteCandidates (* the [expect]; [eligible] is not empty *)
                | first :: rest =>
                    Ok (mkElection AUTHORITY_FORMULA_VERSION eligible
                          (score_player_id (min_by winner_cmp first rest))
                          input_hash input degraded scored rejected)
                end
            end
        end
    end.

Definition elect_authority_for_wire (cs : list AuthorityCandidate) (now : UnixMillis)
    (expected : WireVersion) : result AuthorityElection AuthorityElectionError :=
  if (length cs <? 2)%nat then Err NotEnoughCandidates
  else elect_authority_for_roster cs now expected (Z.of_nat (length cs)).

Definition elect_authority (cs : list AuthorityCandidate) (now : UnixMillis)
    : result AuthorityElection AuthorityElectionError :=
  elect_authority_for_wire cs now WIRE_VERSION.

(** ** Well-formed inputs *)

Definition candidate_ok (c : AuthorityCandidate) : Prop :=
  id_ok (cand_player_id c) /\ version_ok (cand_wire_version c) /\
  u64 (cand_joined_at c) /\ sample_ok (cand_measurement c).

Definition input_ok (i : AuthorityElectionInput) : Prop :=
  Z.of_nat (length (formula_version i)) < 2 ^ 32 /\ u64 (election_at i) /\
  version_ok (expected_wire_version i) /\ u32 (roster_size i) /\
  Forall candidate_ok (candidates i).

(** ** Order independence *)

Lemma candidate_le_sorted cs :
  StronglySorted key_le (cand_player_id <$> merge_sort candidate_le cs).
Proof.
  assert (Hs : StronglySorted candidate_le (merge_sort candidate_le cs)).
  { apply StronglySorted_merge_sort.
    - intros c d e. unfold candidate_le. apply transitivity.
    - intros c d. unfold candidate_le. apply (total key_le). }
  induction Hs as [|c l Hs IH Hall]; simpl; constructor; [done|].
  by apply Forall_fmap.
Qed.

Lemma sorted_ids_perm cs cs' :
  cs ≡ₚ cs' ->
  cand_player_id <$> merge_sort candidate_le cs = cand_player_id <$> merge_sort candidate_le cs'.
Proof.
  intros Hp. apply (StronglySorted_unique key_le); [apply candidate_le_sorted..|].
  by rewrite !merge_sort_Permutation, Hp.
Qed.

Lemma first_adjacent_duplicate_None ids :
  StronglySorted key_le ids -> first_adjacent_duplicate ids = None -> NoDup ids.
Proof.
  induction 1 as [|a ids Hs IH Hall]; intros Hdup; [constructor|].
  destruct ids as [|b ids]; [apply NoDup_singleton|].
  cbn [first_adjacent_duplicate] in Hdup. destruct (decide (a = b)) as [|Hab]; [done|].
  constructor; [|by apply IH].
  intros Hin. apply Forall_cons in Hall as [Hle Hall].
  inversion_clear Hs as [|? ? _ Hball].
  apply elem_of_cons in Hin as [|Hin]; [done|].
  rewrite Forall_forall in Hball. specialize (Hball _ Hin).
  by apply Hab, (anti_symm key_le).
Qed.

Lemma first_adjacent_duplicate_Some ids p :
  first_adjacent_duplicate ids = Some p -> p ∈ ids /\ ~ NoDup ids.
Proof.
  induction ids as [|a ids IH]; [done|]. destruct ids as [|b ids]; [done|].
  cbn [first_adjacent_duplicate]. destruct (decide (a = b)) as [->|].
  - intros [= <-]. split; [left|]. rewrite NoDup_cons. set_solver.
  - intros Hd. apply IH in Hd as [Hin Hnd]. split; [by right|].
    rewrite NoDup_cons. naive_solver.
Qed.

Lemma sorted_candidates_Ok cs sorted :
  sorted_candidates cs = Ok sorted ->
  sorted = merge_sort candidate_le cs /\ sorted ≡ₚ cs /\ NoDup (cand_player_id <$> sorted).
Proof.
  unfold sorted_candidates. destruct (first_adjacent_duplicate _) eqn:Hd; [done|].
  intros [= <-]. split; [done|]. split; [apply merge_sort_Permutation|].
  apply first_adjacent_duplicate_None; [apply candidate_le_sorted|done].
Qed.

Lemma sorted_candidates_perm cs cs' :
  cs ≡ₚ cs' -> sorted_candidates cs = sorted_candidates cs'.
Proof.
  intros Hp. unfold sorted_candidates. rewrite (sorted_ids_perm _ _ Hp).
  destruct (first_adjacent_duplicate _) eqn:Hd; [done|]. f_equal.
  apply (fmap_eq_perm_NoDup cand_player_id).
  - by rewrite !merge_sort_Permutation.
  - by apply sorted_ids_perm.
  - rewrite (sorted_ids_perm _ _ Hp).
    apply first_adjacent_duplicate_None; [apply candidate_le_sorted|done].
Qed.

(** A canonical matrix is its own canonical form. *)
Lemma sorted_candidates_idemp cs sorted :
  sorted_candidates cs = Ok sorted -> sorted_candidates sorted = Ok sorted.
Proof.
  intros H. pose proof H as (_ & Hp & _)%sorted_candidates_Ok.
  by rewrite (sorted_candidates_perm _ _ Hp).
Qed.

Lemma canonical_election_input_perm i cs :
  candidates i ≡ₚ cs ->
  canonical_election_input i =
  canonical_election_input
    (mkInput (formula_version i) (election_at i) (expected_wire_version i) (roster_size i) cs).
Proof.
  intros Hp. unfold canonical_election_input, canonical_measurement_matrix. simpl.
  by rewrite (sorted_candidates_perm _ _ Hp), (Permutation_length Hp).
Qed.

(** C32. An election depends only on the set of candidate rows: peers that
    receive the measurement matrix in different orders compute the same
    election (winner, hash and every audit row) or the same error. *)
Theorem election_order_independent (cs cs' : list AuthorityCandidate) (now : UnixMillis)
    (expected : WireVersion) (size : Z) (Hperm : cs ≡ₚ cs') :
  elect_authority_for_roster cs now expected size =
  elect_authority_for_roster cs' now expected size.
Proof.
  unfold elect_authority_for_roster.
  by rewrite (sorted_candidates_perm _ _ Hperm), (Permutation_length Hperm).
Qed.

(** ** The scoring loop *)

Lemma push_evaluation_fold now expected size (cs : list AuthorityCandidate) acc :
  fold_left (push_evaluation now expected size) cs acc =
  (acc.1 ++ omap (fun c => maybe inr (evaluate_candidate now expected size c)) cs,
   acc.2 ++ omap (fun c => maybe inl (evaluate_candidate now expected size c)) cs).
Proof.
  revert acc. induction cs as [|c cs IH]; intros [s r]; cbn [fold_left omap list_omap].
  { by rewrite !app_nil_r. }
  rewrite IH. unfold push_evaluation. destruct (evaluate_candidate _ _ _ c); simpl;
    by rewrite <- ?app_assoc.
Qed.

(** A row the election may score at [now]: valid for the roster, not from the
    future and strictly younger than the freshness bound. *)
Definition usable (now : UnixMillis) (size : Z) (c : AuthorityCandidate) : Prop :=
  validate_for_roster (cand_measurement c) size = Ok tt /\
  0 <= now - measured_at (cand_measurement c) < MEASUREMENT_FRESHNESS_MS.

#[export] Instance usable_dec now size c : Decision (usable now size c).
Proof. unfold usable. apply _. Defined.

Definition scored_row (now : UnixMillis) (expected : WireVersion) (size : Z)
    (c : AuthorityCandidate) : ScoredAuthorityCandidate :=
  mkScored (cand_player_id c) (score_measurement (cand_measurement c) (size - 1))
    (ineligibility c now expected).

Lemma length_omap_sum {A B C} (f : A -> B + C) (l : list A) :
  (length (omap (fun x => maybe inr (f x)) l) + length (omap (fun x => maybe inl (f x)) l)
   = length l)%nat.
Proof. induction l as [|x l IH]; [done|]. csimpl. destruct (f x); csimpl; lia. Qed.

Lemma evaluate_candidate_scored now expected size c :
  maybe inr (evaluate_candidate now expected size c) =
    if decide (usable now size c) then Some (scored_row now expected size c) else None.
Proof.
  unfold evaluate_candidate, millis_checked_duration_since, checked_sub.
  case_decide as Hu; unfold usable in Hu.
  - destruct Hu as [-> Hage]. rewrite (proj2 (Z.leb_le _ _)) by lia.
    destruct (Z.geb_spec (now - measured_at (cand_measurement c)) MEASUREMENT_FRESHNESS_MS);
      [lia|done].
  - destruct (validate_for_roster _ _) as [[]|err]; [|done].
    destruct (Z.leb_spec (measured_at (cand_measurement c)) now); [|done].
    destruct (Z.geb_spec (now - measured_at (cand_measurement c)) MEASUREMENT_FRESHNESS_MS);
      [done|].
    destruct Hu. split; [done|lia].
Qed.

Lemma elem_of_scored now expected size (cs : list AuthorityCandidate) s :
  s ∈ omap (fun c => maybe inr (evaluate_candidate now expected size c)) cs <->
  exists c, c ∈ cs /\ usable now size c /\ s = scored_row now expected size c.
Proof.
  rewrite list_elem_of_omap. setoid_rewrite evaluate_candidate_scored.
  split; intros (c & Hc & Hs); exists c; (split; [done|]); case_decide; naive_solver.
Qed.

Lemma elem_of_eligible_scores scored s :
  s ∈ eligible_scores scored <->
  exists r, r ∈ scored /\ ineligibility_reasons r = [] /\ s = score_of r.
Proof.
  unfold eligible_scores. rewrite list_elem_of_fmap. setoid_rewrite list_elem_of_filter.
  naive_solver.
Qed.

(** ** What a successful election computed *)

Lemma winner_cmp_key l r :
  winner_cmp l r =
  key_cmp (- final_score l, score_player_id l) (- final_score r, score_player_id r).
Proof.
  unfold winner_cmp. simpl. unfold pair_cmp. simpl.
  by rewrite Z.compare_opp.
Qed.

Record election_run (cs : list AuthorityCandidate) (now : UnixMillis) (expected : WireVersion)
    (size : Z) (e : AuthorityElection) : Prop := {
  run_nonempty : cs <> [];
  run_size : 2 <= size /\ Z.of_nat (length cs) <= size /\ u32 size;
  run_sorted : sorted_candidates cs = Ok (candidates (input e));
  run_input : input e = mkInput AUTHORITY_FORMULA_VERSION now expected size (candidates (input e));
  run_hash : authority_input_hash (input e) = Ok (input_hash e);
  run_formula : elected_formula_version e = AUTHORITY_FORMULA_VERSION;
  run_scored : scored_candidates e =
    omap (fun c => maybe inr (evaluate_candidate now expected size c)) (candidates (input e));
  run_rejected : rejected_candidates e =
    omap (fun c => maybe inl (evaluate_candidate now expected size c)) (candidates (input e));
  run_scored_nonempty : scored_candidates e <> [];
  run_degraded : degraded e = (length (eligible_scores (scored_candidates e)) =? 0)%nat;
  run_eligible : eligible e =
    if degraded e then score_of <$> scored_candidates e else eligible_scores (scored_candidates e);
  run_winner : exists first rest,
    eligible e = first :: rest /\ winner_player_id e = score_player_id (min_by winner_cmp first rest);
}.

Lemma extend_if_empty {A} (p l : list A) :
  (if (length p =? 0)%nat then p ++ l else p) = if (length p =? 0)%nat then l else p.
Proof. by destruct p. Qed.

(** The constructor-level specification: success is exactly [election_run]. *)
Lemma elect_Ok_iff cs now expected size e :
  elect_authority_for_roster cs now expected size = Ok e <-> election_run cs now expected size e.
Proof.
  unfold elect_authority_for_roster. split.
  - destruct (Nat.eqb_spec (length cs) 0) as [|Hne]; [done|].
    destruct (_ || _) eqn:Hsize; [done|].
    destruct (sorted_candidates cs) as [sorted|] eqn:Hsorted; [|done].
    destruct (authority_input_hash _) as [h|] eqn:Hh; [|done].
    rewrite push_evaluation_fold. cbn [fst snd app].
    destruct (omap _ sorted) as [|s0 ss] eqn:Hscored; [done|].
    set (sc := s0 :: ss) in *.
    rewrite extend_if_empty.
    destruct (if (length (eligible_scores sc) =? 0)%nat then _ else _) as [|first rest] eqn:He; [done|].
    intros [= <-].
    apply orb_false_iff in Hsize as [Hsize Hu]. apply orb_false_iff in Hsize as [H2 Hlen].
    assert (Hs : u32 size).
    { unfold try_from_uint in Hu. destruct (uint_ok 32 size) eqn:E; [|done]. by apply uint_ok_true. }
    split; cbn; try done.
    + by intros ->.
    + split_and!; [lia|lia|done].
    + by exists first, rest.
  - intros [Hne [H2 [Hlen Hs]] Hsorted Hinput Hh Hf Hscored Hrej Hscne Hdeg Helig (first & rest & Hfr & Hw)].
    destruct (Nat.eqb_spec (length cs) 0) as [Hz|_]; [by destruct cs|].
    replace (_ || _) with false.
    2: { symmetry. unfold try_from_uint. rewrite (proj2 (uint_ok_true _ _) Hs).
         simpl. rewrite orb_false_r. lia. }
    rewrite Hsorted, <- Hinput, Hh, push_evaluation_fold. cbn [fst snd app].
    rewrite <- Hscored, <- Hrej.
    destruct (scored_candidates e) as [|s0 ss] eqn:Hsc; [done|].
    rewrite extend_if_empty, <- Hdeg, <- Helig, Hfr, <- Hw, <- Hf, <- Hfr, <- Hsc. by destruct e.
Qed.

(** C33. The winner is the best participant: participants are the candidates
    that passed every eligibility test, or all scored candidates when none
    passed ([degraded]); the winner is one of them, no participant has a
    higher score, and among equal scores the smallest identity wins. *)
Theorem election_winner_is_best (cs : list AuthorityCandidate) (now : UnixMillis)
    (expected : WireVersion) (size : Z) (e : AuthorityElection)
    (Helect : elect_authority_for_roster cs now expected size = Ok e) :
  (degraded e = true <-> forall r, r ∈ scored_candidates e -> ineligibility_reasons r <> []) /\
  (forall s, s ∈ eligible e <->
    exists r, r ∈ scored_candidates e /\ s = score_of r /\
              (degraded e = false -> ineligibility_reasons r = [])) /\
  (exists w, w ∈ eligible e /\ score_player_id w = winner_player_id e /\
    forall s, s ∈ eligible e ->
      final_score s < final_score w \/
      (final_score s = final_score w /\ key_le (winner_player_id e) (score_player_id s))).
Proof.
  apply elect_Ok_iff in Helect. destruct Helect.
  assert (Hdeg : degraded e = true <-> eligible_scores (scored_candidates e) = []).
  { rewrite run_degraded0, Nat.eqb_eq. split; [apply nil_length_inv | by intros ->]. }
  split; [|split].
  - rewrite Hdeg. split.
    + intros Hnil r Hr Hreasons.
      assert (Hin : score_of r ∈ eligible_scores (scored_candidates e))
        by (apply elem_of_eligible_scores; eauto).
      rewrite Hnil in Hin. by apply not_elem_of_nil in Hin.
    + intros Hall. destruct (eligible_scores _) as [|s l] eqn:Hes; [done|].
      assert (Hin : s ∈ eligible_scores (scored_candidates e)) by (rewrite Hes; left).
      apply elem_of_eligible_scores in Hin as (r & Hr & Hreasons & _). by destruct (Hall r Hr).
  - intros s. rewrite run_eligible0. destruct (degraded e).
    + rewrite list_elem_of_fmap. naive_solver.
    + rewrite elem_of_eligible_scores. naive_solver.
  - destruct run_winner0 as (first & rest & He & Hw). rewrite He, Hw.
    destruct (min_by_spec (fun s => (- final_score s, score_player_id s)) winner_cmp first rest)
      as [Hin Hle]; [apply winner_cmp_key|].
    exists (min_by winner_cmp first rest). split; [done|]. split; [done|]. intros s Hs.
    specialize (Hle s Hs). revert Hle. unfold key_le at 1. simpl. unfold pair_cmp. simpl.
    destruct (Z.compare_spec (- final_score (min_by winner_cmp first rest)) (- final_score s));
      [|left; lia|done].
    intros Hid. right. split; [lia|done].
Qed.

(** Exactly the usable rows are scored: a candidate is scored if and only
    if its measurement is valid for the roster, not from the future and less
    than sixty seconds old, every candidate is scored or rejected with its
    reason, and the reported scores are those of [score_measurement]. *)
Theorem election_scores_usable_rows (cs : list AuthorityCandidate) (now : UnixMillis)
    (expected : WireVersion) (size : Z) (e : AuthorityElection)
    (Helect : elect_authority_for_roster cs now expected size = Ok e) :
  (forall s, s ∈ scored_candidates e <->
     exists c, c ∈ cs /\ usable now size c /\ s = scored_row now expected size c) /\
  (forall r, r ∈ rejected_candidates e <->
     exists c, c ∈ cs /\ ~ usable now size c /\ evaluate_candidate now expected size c = inl r) /\
  (length (scored_candidates e) + length (rejected_candidates e) = length cs)%nat.
Proof.
  apply elect_Ok_iff in Helect. destruct Helect.
  apply sorted_candidates_Ok in run_sorted0 as (_ & Hperm & _).
  rewrite run_scored0, run_rejected0. split; [|split].
  - intros s. rewrite elem_of_scored. by setoid_rewrite Hperm.
  - intros r. rewrite list_elem_of_omap. setoid_rewrite Hperm.
    assert (Hev : forall c, maybe inl (evaluate_candidate now expected size c) = Some r <->
              ~ usable now size c /\ evaluate_candidate now expected size c = inl r).
    { intros c. pose proof (evaluate_candidate_scored now expected size c) as Hs.
      destruct (evaluate_candidate now expected size c); simpl in *; case_decide; naive_solver. }
    setoid_rewrite Hev. naive_solver.
  - rewrite <- (Permutation_length Hperm).
    apply length_omap_sum.
Qed.

(** Elections succeed exactly when they can: for a nonempty matrix the
    result is an election if and only if the roster size is an admissible
    [u32], no identity occurs twice and some row is usable. *)
Theorem election_succeeds_iff (cs : list AuthorityCandidate) (now : UnixMillis)
    (expected : WireVersion) (size : Z) :
  (exists e, elect_authority_for_roster cs now expected size = Ok e) <->
  2 <= size /\ Z.of_nat (length cs) <= size /\ u32 size /\
  NoDup (cand_player_id <$> cs) /\ exists c, c ∈ cs /\ usable now size c.
Proof.
  split.
  - intros [e He%elect_Ok_iff]. destruct He. destruct run_size0 as (? & ? & ?).
    apply sorted_candidates_Ok in run_sorted0 as (_ & Hp & Hnd). rewrite Hp in Hnd.
    do 4 (split; [done|]).
    destruct (scored_candidates e) as [|s ss] eqn:Hs; [done|].
    assert (Hin : s ∈ s :: ss) by left. rewrite run_scored0 in Hin.
    apply elem_of_scored in Hin as (c & Hc & Hu & _). rewrite Hp in Hc. eauto.
  - intros (H2 & Hlen & Hs & Hnd & c & Hc & Hu). unfold elect_authority_for_roster.
    destruct (Nat.eqb_spec (length cs) 0) as [Hz|_].
    { apply nil_length_inv in Hz. subst. by apply not_elem_of_nil in Hc. }
    unfold try_from_uint at 1. rewrite (proj2 (uint_ok_true _ _) Hs).
    replace (_ || _) with false by (simpl; rewrite orb_false_r; lia).
    destruct (sorted_candidates cs) as [sorted|err] eqn:Hsorted.
    2: { exfalso. unfold sorted_candidates in Hsorted.
         destruct (first_adjacent_duplicate _) as [p|] eqn:Hd; [|done].
         apply first_adjacent_duplicate_Some in Hd as [_ Hd]. apply Hd.
         by rewrite merge_sort_Permutation. }
    pose proof Hsorted as (_ & Hp & _)%sorted_candidates_Ok.
    unfold authority_input_hash, canonical_election_input, canonical_measurement_matrix. simpl.
    rewrite (sorted_candidates_idemp _ _ Hsorted), (Permutation_length Hp).
    replace (_ || _) with false by lia.
    rewrite push_evaluation_fold. cbn [fst snd app].
    assert (Hin : scored_row now expected size c ∈
      omap (fun c => maybe inr (evaluate_candidate now expected size c)) sorted).
    { apply elem_of_scored. exists c. by rewrite Hp. }
    destruct (omap _ sorted) as [|s ss]; [by apply not_elem_of_nil in Hin|].
    rewrite extend_if_empty.
    destruct (eligible_scores (s :: ss)) eqn:He; cbn; eauto.
Qed.

(** Elections are auditable: the published context determines the
    result. Re-running the election on the input it published yields the same
    election, and the published hash is the hash of that input. *)
Theorem election_recomputable (cs : list AuthorityCandidate) (now : UnixMillis)
    (expected : WireVersion) (size : Z) (e : AuthorityElection)
    (Helect : elect_authority_for_roster cs now expected size = Ok e) :
  elect_authority_for_roster (candidates (input e)) (election_at (input e))
    (expected_wire_version (input e)) (roster_size (input e)) = Ok e /\
  authority_input_hash (input e) = Ok (input_hash e) /\
  formula_version (input e) = AUTHORITY_FORMULA_VERSION.
Proof.
  pose proof Helect as Hrun%elect_Ok_iff. destruct Hrun.
  pose proof run_sorted0 as (_ & Hp & _)%sorted_candidates_Ok.
  rewrite run_input0 at 2 3 4 6. simpl. split; [|done].
  unfold elect_authority_for_roster in *.
  rewrite run_sorted0 in Helect.
  by rewrite (sorted_candidates_idemp _ _ run_sorted0), (Permutation_length Hp).
Qed.

(** ** Score bounds and monotonicity *)

Lemma saturating_mul_range n k : 0 <= n -> 0 <= k -> 0 <= saturating_mul 32 n k <= n * k.
Proof. unfold saturating_mul. pow_norm. nia. Qed.

Lemma saturating_mul_mono n n' k : 0 <= k -> n <= n' -> saturating_mul 32 n k <= saturating_mul 32 n' k.
Proof. unfold saturating_mul. pow_norm. nia. Qed.

Lemma normalize_positive_range value maximum :
  0 <= value -> 0 < maximum -> 0 <= normalize_positive value maximum <= 1000.
Proof.
  intros Hv Hm. unfold normalize_positive.
  pose proof (saturating_mul_range (Z.min value maximum) 1000).
  split; [apply Z.div_pos; lia | apply Z.div_le_upper_bound; lia].
Qed.

Lemma normalize_inverse_range value maximum :
  0 <= value -> 0 < maximum -> 0 <= normalize_inverse value maximum <= 1000.
Proof.
  intros Hv Hm. unfold normalize_inverse.
  pose proof (saturating_mul_range (saturating_sub maximum (Z.min value maximum)) 1000).
  unfold saturating_sub in *.
  split; [apply Z.div_pos; lia | apply Z.div_le_upper_bound; lia].
Qed.

Lemma relay_penalty_range count peer_count weight :
  0 <= count -> 0 < peer_count -> 0 <= weight ->
  0 <= relay_penalty count peer_count weight <= weight.
Proof.
  intros Hc Hp Hw. unfold relay_penalty.
  pose proof (saturating_mul_range (Z.min count peer_count) weight ltac:(lia) Hw).
  split; [apply Z.div_pos; lia | apply Z.div_le_upper_bound; nia].
Qed.

Lemma normalize_positive_mono v v' maximum :
  0 < maximum -> v <= v' -> normalize_positive v maximum <= normalize_positive v' maximum.
Proof.
  intros. unfold normalize_positive. apply Z.div_le_mono; [lia|]. apply saturating_mul_mono; lia.
Qed.

Lemma normalize_inverse_antitone v v' maximum :
  0 < maximum -> v <= v' -> normalize_inverse v' maximum <= normalize_inverse v maximum.
Proof.
  intros. unfold normalize_inverse. apply Z.div_le_mono; [lia|].
  apply saturating_mul_mono; [lia|]. unfold saturating_sub. lia.
Qed.

Lemma relay_penalty_mono c c' peer_count weight :
  0 < peer_count -> 0 <= weight -> c <= c' ->
  relay_penalty c peer_count weight <= relay_penalty c' peer_count weight.
Proof.
  intros. unfold relay_penalty. apply Z.div_le_mono; [lia|]. apply saturating_mul_mono; lia.
Qed.

(** The weights sum to one thousand, so the weighted mean of seven
    normalized inputs is itself normalized; no operator wraps. *)
Definition weighted_sum (b : AuthorityScoreBreakdown) : Z :=
  270 * direct_milli b + 230 * median_rtt_milli b + 140 * worst_rtt_milli b
  + 90 * jitter_milli b + 90 * loss_milli b + 90 * upload_milli b
  + 90 * device_performance_milli b.

Definition normalized (n : Z) : Prop := 0 <= n <= 1000.

Lemma score_inputs_normalized m pc (Hm : sample_ok m) (Hpc : 1 <= pc) (b := score_measurement m pc) :
  Forall normalized [direct_milli b; median_rtt_milli b; worst_rtt_milli b; jitter_milli b;
                     loss_milli b; upload_milli b; device_performance_milli b] /\
  0 <= derp_relay_penalty_milli b <= 300 /\ 0 <= peer_relay_penalty_milli b <= 150.
Proof.
  destruct Hm as ((Hd & Hpr & Hde) & Hmed & Hworst & Hj & Hl & Hu & Hp & _).
  unfold in_uint in *. subst b. unfold score_measurement, normalized. cbn.
  split; [|split; apply relay_penalty_range; lia].
  repeat (apply Forall_cons_2; [first [ apply normalize_positive_range; lia
    | apply normalize_inverse_range; lia | lia ]|]). apply Forall_nil_2.
Qed.

Lemma score_weighted_exact m pc (Hm : sample_ok m) (Hpc : 1 <= pc) (b := score_measurement m pc) :
  weighted_score_milli b = weighted_sum b / 1000 /\
  relay_penalty_milli b = derp_relay_penalty_milli b + peer_relay_penalty_milli b /\
  score_milli b = Z.max 0 (weighted_sum b / 1000 - relay_penalty_milli b).
Proof.
  destruct (score_inputs_normalized m pc Hm Hpc) as (Hn & Hde & Hpe).
  fold b in Hn, Hde, Hpe. rewrite !Forall_cons in Hn. unfold normalized in Hn.
  assert (Hs : 0 <= weighted_sum b <= 1000000) by (unfold weighted_sum; lia).
  assert (Hq : 0 <= weighted_sum b / 1000 <= 1000) by div_lia.
  assert (Hw : weighted_score_milli b = weighted_sum b / 1000).
  { transitivity (wrap 32 (wrap 64 (weighted_sum b) / 1000)); [done|].
    rewrite (wrap_small 64) by int_lia. apply wrap_small. int_lia. }
  assert (Hr : relay_penalty_milli b = derp_relay_penalty_milli b + peer_relay_penalty_milli b).
  { transitivity (wrap 32 (derp_relay_penalty_milli b + peer_relay_penalty_milli b)); [done|].
    apply wrap_small. int_lia. }
  split; [done|]. split; [done|]. rewrite <- Hw.
  transitivity (saturating_sub (weighted_score_milli b) (relay_penalty_milli b)); [done|].
  unfold saturating_sub. lia.
Qed.

(** Scores are bounded and exact on the whole [u32] input space: every
    normalized input, the weighted mean and the final score lie in
    [0..=1000], penalties are at most 300 and 150, and no machine operator
    wraps, so the score is [max 0 (weighted - penalties)]. *)
Theorem score_bounds (m : ConnectivitySample) (pc : Z) (Hm : sample_ok m) (Hpc : 1 <= pc)
    (b := score_measurement m pc) :
  normalized (direct_milli b) /\ normalized (median_rtt_milli b) /\
  normalized (worst_rtt_milli b) /\ normalized (jitter_milli b) /\ normalized (loss_milli b) /\
  normalized (upload_milli b) /\ normalized (device_performance_milli b) /\
  weighted_score_milli b = weighted_sum b / 1000 /\ normalized (weighted_score_milli b) /\
  0 <= derp_relay_penalty_milli b <= 300 /\ 0 <= peer_relay_penalty_milli b <= 150 /\
  score_milli b =
    Z.max 0 (weighted_score_milli b - (derp_relay_penalty_milli b + peer_relay_penalty_milli b)) /\
  normalized (score_milli b).
Proof.
  destruct (score_inputs_normalized m pc Hm Hpc) as (Hn & Hde & Hpe).
  destruct (score_weighted_exact m pc Hm Hpc) as (Hw & Hr & Hsc).
  fold b in Hn, Hde, Hpe, Hw, Hr, Hsc. rewrite !Forall_cons in Hn. unfold normalized in *.
  assert (0 <= weighted_sum b <= 1000000) by (unfold weighted_sum; lia).
  assert (0 <= weighted_sum b / 1000 <= 1000) by div_lia.
  rewrite Hsc, Hw, Hr. split_and!; try lia.
Qed.

(** [m'] is at least as good a measurement as [m]. *)
Record better_sample (m m' : ConnectivitySample) : Prop := {
  better_direct : direct_count (route_summary m) <= direct_count (route_summary m');
  better_peer : peer_relay_count (route_summary m') <= peer_relay_count (route_summary m);
  better_derp : derp_count (route_summary m') <= derp_count (route_summary m);
  better_median : rtt_ms_median m' <= rtt_ms_median m;
  better_worst : rtt_ms_worst m' <= rtt_ms_worst m;
  better_jitter : jitter_ms m' <= jitter_ms m;
  better_loss : loss_pct_milli m' <= loss_pct_milli m;
  better_upload : upload_mbps_sustained m <= upload_mbps_sustained m';
  better_perf : device_perf_score m <= device_perf_score m';
}.

(** The score is monotone: a measurement that is no worse in any input
    (more direct routes, fewer relays, lower latency, jitter and loss, more
    upload and device performance) never scores lower. *)
Theorem score_monotone (m m' : ConnectivitySample) (pc : Z)
    (Hm : sample_ok m) (Hm' : sample_ok m') (Hpc : 1 <= pc) (Hbetter : better_sample m m') :
  score_milli (score_measurement m pc) <= score_milli (score_measurement m' pc).
Proof.
  destruct (score_weighted_exact m pc Hm Hpc) as (_ & Hr & ->).
  destruct (score_weighted_exact m' pc Hm' Hpc) as (_ & Hr' & ->). rewrite Hr, Hr'.
  destruct Hbetter.
  assert (Hw : weighted_sum (score_measurement m pc) <= weighted_sum (score_measurement m' pc)).
  { unfold weighted_sum. cbn.
    pose proof (normalize_positive_mono _ _ pc ltac:(lia) better_direct0).
    pose proof (normalize_inverse_antitone _ _ 200 ltac:(lia) better_median0).
    pose proof (normalize_inverse_antitone _ _ 400 ltac:(lia) better_worst0).
    pose proof (normalize_inverse_antitone _ _ 50 ltac:(lia) better_jitter0).
    pose proof (normalize_inverse_antitone _ _ 10000 ltac:(lia) better_loss0).
    pose proof (normalize_positive_mono _ _ 20 ltac:(lia) better_upload0). lia. }
  pose proof (Z.div_le_mono _ _ 1000 ltac:(lia) Hw). cbn [derp_relay_penalty_milli
    peer_relay_penalty_milli score_measurement].
  pose proof (relay_penalty_mono _ _ pc 300 ltac:(lia) ltac:(lia) better_derp0).
  pose proof (relay_penalty_mono _ _ pc 150 ltac:(lia) ltac:(lia) better_peer0). lia.
Qed.

(** ** The canonical encoding is injective *)

Lemma version_bytes_app_inj v w r1 r2 :
  version_ok v -> version_ok w ->
  version_bytes v ++ r1 = version_bytes w ++ r2 -> v = w /\ r1 = r2.
Proof.
  intros [Hv1 Hv2] [Hw1 Hw2]. unfold version_bytes. rewrite <- !app_assoc. intros H.
  apply be_bytes_app_inj in H as (H1 & H); [|done..].
  apply be_bytes_app_inj in H as [H2 ->]; [|done..].
  split; [|done]. destruct v, w. simpl in *. congruence.
Qed.

Lemma concat_words_app_inj (vs ws : list Z) r1 r2 :
  length vs = length ws -> Forall (in_uint 32) vs -> Forall (in_uint 32) ws ->
  concat (map (be_bytes 4) vs) ++ r1 = concat (map (be_bytes 4) ws) ++ r2 -> vs = ws /\ r1 = r2.
Proof.
  revert ws. induction vs as [|v vs IH]; intros [|w ws] Hlen Hv Hw H; try done.
  apply Forall_cons in Hv as [Hv Hvs]. apply Forall_cons in Hw as [Hw Hws].
  cbn [map concat] in H. rewrite <- !app_assoc in H.
  apply be_bytes_app_inj in H as (-> & H); [|done..].
  apply IH in H as [-> ->]; [done|by injection Hlen|done|done].
Qed.

Lemma candidate_row_app_inj c d r1 r2 :
  candidate_ok c -> candidate_ok d ->
  candidate_row c ++ r1 = candidate_row d ++ r2 -> c = d /\ r1 = r2.
Proof.
  intros ((Hl & _) & Hv & Hj & Hs) ((Hl' & _) & Hv' & Hj' & Hs').
  destruct Hs as ((? & ? & ?) & ? & ? & ? & ? & ? & ? & ? & Hm).
  destruct Hs' as ((? & ? & ?) & ? & ? & ? & ? & ? & ? & ? & Hm').
  unfold candidate_row. rewrite <- !app_assoc. intros Hrow.
  apply app_eq_length in Hrow as (Hid & Hrow); [|lia].
  apply version_bytes_app_inj in Hrow as (Hver & Hrow); [|done..].
  apply be_bytes_app_inj in Hrow as (Hjo & Hrow); [|done..].
  apply be_bytes_app_inj in Hrow as (Hme & Hrow); [|done..].
  apply concat_words_app_inj in Hrow as [Hvals ->]; [|done| |].
  - split; [|done]. destruct c as [[p] v j [[] ]], d as [[p'] v' j' [[] ]]. simpl in *.
    unfold measurement_values in Hvals. simpl in Hvals. simplify_eq. done.
  - unfold measurement_values. repeat (apply Forall_cons_2; [done|]). apply Forall_nil_2.
  - unfold measurement_values. repeat (apply Forall_cons_2; [done|]). apply Forall_nil_2.
Qed.

Lemma rows_inj cs ds :
  length cs = length ds -> Forall candidate_ok cs -> Forall candidate_ok ds ->
  concat (map candidate_row cs) = concat (map candidate_row ds) -> cs = ds.
Proof.
  revert ds. induction cs as [|c cs IH]; intros [|d ds] Hlen Hc Hd H; try done.
  apply Forall_cons in Hc as [Hc Hcs]. apply Forall_cons in Hd as [Hd Hds].
  cbn [map concat] in H. apply candidate_row_app_inj in H as (-> & H); [|done..].
  f_equal. apply IH; [by injection Hlen|done|done|done].
Qed.

Lemma canonical_election_input_Ok i bytes :
  canonical_election_input i = Ok bytes ->
  exists sorted, sorted_candidates (candidates i) = Ok sorted /\
    Z.of_nat (length (candidates i)) <= roster_size i /\
    bytes = CANONICAL_PREFIX
            ++ be_bytes 4 (wrap 32 (Z.of_nat (length (formula_version i))))
            ++ formula_version i
            ++ be_bytes 8 (election_at i)
            ++ version_bytes (expected_wire_version i)
            ++ be_bytes 4 (roster_size i)
            ++ be_bytes 4 (wrap 32 (Z.of_nat (length (candidates i))))
            ++ concat (map candidate_row sorted).
Proof.
  unfold canonical_election_input, canonical_measurement_matrix.
  destruct (_ || _) eqn:Hs; [done|]. destruct (sorted_candidates _) as [sorted|]; [|done].
  intros [= <-]. exists sorted. split; [done|]. split; [lia|done].
Qed.

(** The fingerprint's preimage is unambiguous: two well-formed inputs
    with the same canonical bytes have the same formula, evaluation time, wire
    version, roster size and the same candidate rows up to order, so peers
    whose hashes agree (barring a SHA-256 collision) evaluated the same
    matrix. *)
Theorem canonical_input_injective (i j : AuthorityElectionInput) (bytes : list Z)
    (Hi : input_ok i) (Hj : input_ok j)
    (Ei : canonical_election_input i = Ok bytes) (Ej : canonical_election_input j = Ok bytes) :
  formula_version i = formula_version j /\ election_at i = election_at j /\
  expected_wire_version i = expected_wire_version j /\ roster_size i = roster_size j /\
  candidates i ≡ₚ candidates j.
Proof.
  destruct Hi as (Hfi & Hti & Hvi & Hri & Hci), Hj as (Hfj & Htj & Hvj & Hrj & Hcj).
  apply canonical_election_input_Ok in Ei as (si & Hsi & Hli & ->).
  apply canonical_election_input_Ok in Ej as (sj & Hsj & Hlj & H).
  apply sorted_candidates_Ok in Hsi as (_ & Hpi & _), Hsj as (_ & Hpj & _).
  apply app_inv_head in H.
  apply be_bytes_app_inj in H as (Hflen & H); [|apply wrap_range; lia..].
  rewrite !wrap_small in Hflen by (unfold in_uint in *; lia).
  apply app_eq_length in H as (Hf & H); [|lia].
  apply be_bytes_app_inj in H as (Ht & H); [|done..].
  apply version_bytes_app_inj in H as (Hv & H); [|done..].
  apply be_bytes_app_inj in H as (Hr & H); [|done..].
  apply be_bytes_app_inj in H as (Hlen & H); [|apply wrap_range; lia..].
  rewrite !wrap_small in Hlen by (unfold in_uint in *; lia).
  do 4 (split; [done|]). rewrite <- Hpi, <- Hpj.
  rewrite <- (rows_inj si sj); [done| | | |done].
  - rewrite (Permutation_length Hpi), (Permutation_length Hpj). lia.
  - by rewrite Hpi.
  - by rewrite Hpj.
Qed.

(** ** Concrete elections *)

Definition demo_id (last : Z) : PlayerId :=
  mkProtocolId [0; 0; 0; 0; 0; 0; 64; 0; 128; 0; 0; 0; 0; 0; 0; last].
Definition demo_sample (rtt : Z) : ConnectivitySample :=
  mkConnectivitySample (mkRouteSummary 1 0 0) rtt (2 * rtt) 5 0 20 900 1 100000.
Definition demo_candidate (last rtt : Z) : AuthorityCandidate :=
  mkCandidate (demo_id last) WIRE_VERSION 0 (demo_sample rtt).
Definition demo_candidates : list AuthorityCandidate := [demo_candidate 2 40; demo_candidate 1 80].
Definition demo_result := elect_authority_for_roster demo_candidates 120000 WIRE_VERSION 2.

Example demo_winner :
  match demo_result with
  | Ok e => winner_player_id e = demo_id 2 /\ degraded e = false
            /\ (score_milli <$> (breakdown <$> scored_candidates e)) = [834; 908]
  | Err _ => False
  end.
Proof. vm_compute. done. Qed.

Lemma demo_id_ok last : in_uint 8 last -> id_ok (demo_id last).
Proof. intros H. split_and!; try done. repeat (apply Forall_cons_2; [done|]). apply Forall_nil_2. Qed.

Lemma demo_candidate_ok last rtt :
  in_uint 8 last -> 0 <= rtt <= 1000 -> candidate_ok (demo_candidate last rtt).
Proof.
  intros Hl Hr. split; [by apply demo_id_ok|]. unfold version_ok, sample_ok, route_summary_ok.
  cbn. unfold in_uint. split_and!; lia.
Qed.

Lemma election_order_independent_witness :
  elect_authority_for_roster demo_candidates 120000 WIRE_VERSION 2 =
  elect_authority_for_roster (rev demo_candidates) 120000 WIRE_VERSION 2.
Proof. apply (election_order_independent demo_candidates (rev demo_candidates)). apply Permutation_rev. Defined.

Lemma election_winner_is_best_witness :
  match demo_result with
  | Ok e => exists w, w ∈ eligible e /\ score_player_id w = winner_player_id e /\
      forall s, s ∈ eligible e -> final_score s < final_score w \/
        (final_score s = final_score w /\ key_le (winner_player_id e) (score_player_id s))
  | Err _ => False
  end.
Proof.
  destruct demo_result as [e|err] eqn:H; [|vm_compute in H; discriminate H].
  apply (election_winner_is_best demo_candidates 120000 WIRE_VERSION 2 e H).
Defined.

Lemma election_scores_usable_rows_witness :
  match demo_result with
  | Ok e => (length (scored_candidates e) + length (rejected_candidates e) = 2)%nat
  | Err _ => False
  end.
Proof.
  destruct demo_result as [e|err] eqn:H; [|vm_compute in H; discriminate H].
  apply (election_scores_usable_rows demo_candidates 120000 WIRE_VERSION 2 e H).
Defined.

Lemma election_recomputable_witness :
  match demo_result with
  | Ok e => authority_input_hash (input e) = Ok (input_hash e)
  | Err _ => False
  end.
Proof.
  destruct demo_result as [e|err] eqn:H; [|vm_compute in H; discriminate H].
  apply (election_recomputable demo_candidates 120000 WIRE_VERSION 2 e H).
Defined.

Lemma score_bounds_witness : normalized (score_milli (score_measurement (demo_sample 40) 1)).
Proof.
  apply (score_bounds (demo_sample 40) 1); [|lia].
  apply (demo_candidate_ok 1 40); unfold in_uint; lia.
Defined.

Lemma score_monotone_witness :
  score_milli (score_measurement (demo_sample 80) 1) <= score_milli (score_measurement (demo_sample 40) 1).
Proof.
  apply (score_monotone (demo_sample 80) (demo_sample 40) 1);
    [apply (demo_candidate_ok 1 80); unfold in_uint; lia
    |apply (demo_candidate_ok 1 40); unfold in_uint; lia|lia|split; cbn; lia].
Defined.

Definition demo_input (cs : list AuthorityCandidate) : AuthorityElectionInput :=
  mkInput AUTHORITY_FORMULA_VERSION 120000 WIRE_VERSION 2 cs.

Lemma canonical_input_injective_witness :
  candidates (demo_input demo_candidates) ≡ₚ candidates (demo_input (rev demo_candidates)).
Proof.
  assert (Hok : forall cs, Forall candidate_ok cs -> input_ok (demo_input cs)).
  { intros cs Hcs. split_and!; try done. }
  assert (Hc : Forall candidate_ok demo_candidates).
  { unfold demo_candidates.
    repeat (apply Forall_cons_2; [apply demo_candidate_ok; unfold in_uint; lia|]). apply Forall_nil_2. }
  destruct (canonical_election_input (demo_input demo_candidates)) as [bytes|err] eqn:E;
    [|vm_compute in E; discriminate E].
  apply (canonical_input_injective (demo_input demo_candidates) (demo_input (rev demo_candidates)) bytes).
  - by apply Hok.
  - apply Hok. by rewrite <- Permutation_rev.
  - exact E.
  - rewrite <- E. vm_compute. reflexivity.
Defined.
