(* ===== verification/Spur.v ===== *)
(** * Spur economy and Majestic Charge ([m4.rs])

    The authority's meter for one player: fill sources and their caps,
    replay-safe credits, and the contextual spend of a full meter. *)

From S2P Require Import Prelude MachineInt Ordered Clock.
Open Scope Z_scope.

Definition SPUR_METER_MAX : Z := 100.
Definition MOVEMENT_STYLE_SPUR_CAP : Z := 18.
Definition NEAR_MISS_DISTANCE_MM : Z := 1500.
Definition CLEAN_LANDING_SWAY_LIMIT_MILLI : Z := 200.
Definition MAJESTIC_CHARGE_TICKS : Z := 6 * 60.

Abbreviation SpurCreditId := ReceiptId (only parsing).

Inductive SpurCreditKind :=
| Jump
| CleanLanding (collision_free : bool) (sway_impulse_milli : Z)
| NearMiss (hostile : bool) (closest_distance_mm : Z)
| MountedHit
| MountedElimination
| SaddleDiveElimination.

Definition raw_points (self : SpurCreditKind) : option Z :=
  match self with
  | Jump => Some 4
  | CleanLanding true sway =>
      if sway <? CLEAN_LANDING_SWAY_LIMIT_MILLI then Some 2 else None
  | NearMiss true distance => if distance <=? NEAR_MISS_DISTANCE_MM then Some 3 else None
  | MountedHit => Some 2
  | MountedElimination => Some 6
  | SaddleDiveElimination => Some 8
  | CleanLanding _ _ | NearMiss _ _ => None
  end.

Definition is_movement_style (self : SpurCreditKind) : bool :=
  match self with Jump | CleanLanding _ _ => true | _ => false end.

Record SpurCreditCommand := mkSpurCreditCommand {
  credit_id : SpurCreditId;
  credit_kind : SpurCreditKind;
}.

Inductive SpurSpendContext := SpendMounted | HorseAbsent | Ineligible.
Inductive SpurSpendOutcome := MajesticCharge | InstantMajesticReturn.
Inductive SpurError := SpurTickReplay.

#[export] Instance SpurSpendOutcome_eq_dec : EqDecision SpurSpendOutcome.
Proof. solve_decision. Defined.

Record SpurTickOutput := mkSpurTickOutput {
  spend : option SpurSpendOutcome;
  output_charge_active : bool;
  charge_ended : bool;
}.

Record SpurKernel := mkSpurKernel {
  spur_current_tick : option SimulationTick;
  meter : Z;
  movement_style_points : Z;
  spur_last_credit_id : option SpurCreditId;
  next_credit_sequence : Z;
  spend_held : bool;
  charge_started_tick : option SimulationTick;
  charge_end_tick : option SimulationTick;
}.

#[export] Instance eta_SpurKernel : Settable SpurKernel := fun k =>
  mkSpurKernel (spur_current_tick k) (meter k) (movement_style_points k) (spur_last_credit_id k)
    (next_credit_sequence k) (spend_held k) (charge_started_tick k) (charge_end_tick k).

#[export] Instance SpurKernel_eq_dec : EqDecision SpurKernel.
Proof. solve_decision. Defined.

(** [Default] *)
Definition spur_default : SpurKernel := mkSpurKernel None 0 0 None 1 false None None.

Definition charge_active (self : SpurKernel) : bool :=
  match spur_current_tick self, charge_end_tick self with
  | Some now, Some end_ => now <? end_
  | _, _ => false
  end.

Definition apply_credit (self : SpurKernel) (command : SpurCreditCommand)
    : SpurKernel * option Z :=
  match raw_points (credit_kind command) with
  | None => (self, None)
  | Some raw_points =>
      match checked_add 64 (sequence (credit_id command)) 1 with
      | None => (self, None)
      | Some next_sequence =>
          if (sequence (credit_id command) =? 0)
             || is_none_or (spur_current_tick self)
                  (fun current => receipt_tick (credit_id command) >? current)
             || is_replay (spur_last_credit_id self) (credit_id command)
          then (self, None)
          else
            let source_points :=
              if is_movement_style (credit_kind command)
              then Z.min raw_points
                     (saturating_sub MOVEMENT_STYLE_SPUR_CAP (movement_style_points self))
              else raw_points in
            let points := Z.min source_points (saturating_sub SPUR_METER_MAX (meter self)) in
            let self := self <| spur_last_credit_id := Some (credit_id command) |>
                             <| next_credit_sequence :=
                                  Z.max (next_credit_sequence self) next_sequence |> in
            if points =? 0 then (self, Some 0)
            else
              let self := self <| meter :=
                Z.min (saturating_add 8 (meter self) points) SPUR_METER_MAX |> in
              let self :=
                if is_movement_style (credit_kind command)
                then self <| movement_style_points :=
                       wrapping_add 8 (movement_style_points self) points |>
                else self in
              (self, Some points)
      end
  end.

Definition issue_credit (self : SpurKernel) (authority_epoch : Z) (tick : SimulationTick)
    (kind : SpurCreditKind) : SpurKernel * option Z :=
  apply_credit self
    (mkSpurCreditCommand (mkReceiptId authority_epoch tick (next_credit_sequence self)) kind).

Definition advance_tick (self : SpurKernel) (tick : SimulationTick) (spend_pressed : bool)
    (context : SpurSpendContext) : SpurKernel * result SpurTickOutput SpurError :=
  if is_some_and (spur_current_tick self) (fun current => tick <=? current)
  then (self, Err SpurTickReplay)
  else
    let self := self <| spur_current_tick := Some tick |> in
    let charge_ended := is_some_and (charge_end_tick self) (fun end_ => tick >=? end_) in
    let self :=
      if charge_ended
      then self <| charge_started_tick := None |> <| charge_end_tick := None |>
      else self in
    let rising_edge := spend_pressed && negb (spend_held self) in
    let self := self <| spend_held := spend_pressed |> in
    let '(self, spend) :=
      if rising_edge && (meter self =? SPUR_METER_MAX) && negb (charge_active self)
      then
        match context with
        | SpendMounted =>
            (self <| meter := 0 |>
                  <| charge_started_tick := Some tick |>
                  <| charge_end_tick := Some (tick_saturating_add tick MAJESTIC_CHARGE_TICKS) |>,
             Some MajesticCharge)
        | HorseAbsent => (self <| meter := 0 |>, Some InstantMajesticReturn)
        | Ineligible => (self, None)
        end
      else (self, None) in
    (self, Ok (mkSpurTickOutput spend (charge_active self) charge_ended)).

Definition state_is_valid (self : SpurKernel) : bool :=
  (meter self <=? SPUR_METER_MAX)
  && (movement_style_points self <=? MOVEMENT_STYLE_SPUR_CAP)
  && (next_credit_sequence self >? 0)
  && is_none_or (spur_last_credit_id self) (fun id =>
       (sequence id <? next_credit_sequence self)
       && is_some_and (spur_current_tick self) (fun current => receipt_tick id <=? current))
  && match charge_started_tick self, charge_end_tick self with
     | None, None => true
     | Some start, Some end_ =>
         (end_ =? tick_saturating_add start MAJESTIC_CHARGE_TICKS)
         && is_some_and (spur_current_tick self)
              (fun current => (start <=? current) && (current <? end_))
     | _, _ => false
     end.

(** ** Traces

    A run of the kernel over any interleaving of remote credits, locally
    issued credits and ticks, with the observable events it produces. *)

Inductive spur_op :=
| OpCredit (command : SpurCreditCommand)
| OpIssue (epoch : Z) (tick : SimulationTick) (kind : SpurCreditKind)
| OpTick (tick : SimulationTick) (pressed : bool) (context : SpurSpendContext).

Inductive spur_event :=
| Credited (id : SpurCreditId) (points : Z)
| Spent (outcome : SpurSpendOutcome).

Definition credit_events (id : SpurCreditId) (r : option Z) : list spur_event :=
  match r with Some p => [Credited id p] | None => [] end.

Definition tick_events (r : result SpurTickOutput SpurError) : list spur_event :=
  match r with
  | Ok out => match spend out with Some o => [Spent o] | None => [] end
  | Err _ => []
  end.

Definition spur_step (k : SpurKernel) (op : spur_op) : SpurKernel * list spur_event :=
  match op with
  | OpCredit c => let '(k', r) := apply_credit k c in (k', credit_events (credit_id c) r)
  | OpIssue e t kind =>
      let '(k', r) := issue_credit k e t kind in
      (k', credit_events (mkReceiptId e t (next_credit_sequence k)) r)
  | OpTick t p ctx => let '(k', r) := advance_tick k t p ctx in (k', tick_events r)
  end.

Fixpoint spur_run (k : SpurKernel) (ops : list spur_op) : SpurKernel * list spur_event :=
  match ops with
  | [] => (k, [])
  | op :: ops =>
      let '(k1, es1) := spur_step k op in
      let '(k2, es2) := spur_run k1 ops in
      (k2, es1 ++ es2)
  end.

Definition credited_ids (es : list spur_event) : list SpurCreditId :=
  omap (fun e => match e with Credited id _ => Some id | Spent _ => None end) es.
Definition points_credited (es : list spur_event) : Z :=
  foldr (fun e acc => match e with Credited _ p => p + acc | Spent _ => acc end) 0 es.
Definition meters_spent (es : list spur_event) : Z :=
  foldr (fun e acc => match e with Spent _ => 1 + acc | Credited _ _ => acc end) 0 es.

(** Field ranges, and the decoded ranges of an operation's arguments; ticks
    stay below the clock's last value, where a charge could not start. *)
Definition spur_typed (k : SpurKernel) : Prop :=
  opt_u64 (spur_current_tick k) /\ 0 <= meter k /\ 0 <= movement_style_points k /\
  in_uint 64 (next_credit_sequence k) /\ from_option receipt_ok True (spur_last_credit_id k) /\
  opt_u64 (charge_started_tick k) /\ opt_u64 (charge_end_tick k).

Definition spur_op_ok (op : spur_op) : Prop :=
  match op with
  | OpCredit c => receipt_ok (credit_id c)
  | OpIssue e t _ => in_uint 64 e /\ in_uint 64 t
  | OpTick t _ _ => 0 <= t < u64_max
  end.

Definition spur_inv (k : SpurKernel) : Prop := spur_typed k /\ state_is_valid k = true.

(** ** Credits *)

(** What an accepted credit does, and that a refused one changes nothing. *)
Definition credit_effect (k : SpurKernel) (c : SpurCreditCommand) (p : Z) (k' : SpurKernel) : Prop :=
  exists raw, raw_points (credit_kind c) = Some raw /\
  is_replay (spur_last_credit_id k) (credit_id c) = false /\
  is_some_and (spur_current_tick k) (fun now => receipt_tick (credit_id c) <=? now) = true /\
  0 < sequence (credit_id c) < u64_max /\
  p = Z.min (if is_movement_style (credit_kind c)
             then Z.min raw (MOVEMENT_STYLE_SPUR_CAP - movement_style_points k) else raw)
            (SPUR_METER_MAX - meter k) /\
  k' = k <| spur_last_credit_id := Some (credit_id c) |>
         <| next_credit_sequence := Z.max (next_credit_sequence k) (sequence (credit_id c) + 1) |>
         <| meter := meter k + p |>
         <| movement_style_points :=
              if is_movement_style (credit_kind c)
              then movement_style_points k + p else movement_style_points k |>.

Lemma raw_points_range kind raw : raw_points kind = Some raw -> 2 <= raw <= 8.
Proof. destruct kind as [|[] ? | [] ? | | |]; simpl; intros; split_ifs; simplify_eq; lia. Qed.

Lemma spur_inv_meters k :
  spur_inv k -> 0 <= meter k <= SPUR_METER_MAX /\ 0 <= movement_style_points k <= MOVEMENT_STYLE_SPUR_CAP.
Proof.
  intros [Ht Hv]. unfold spur_typed in Ht. unfold state_is_valid in Hv. btrue. lia.
Qed.

(** [lia] on the meters, with the constants in view. *)
Ltac meter_lia := unfold SPUR_METER_MAX, MOVEMENT_STYLE_SPUR_CAP in *; int_lia.

Lemma apply_credit_cases k c :
  spur_inv k -> receipt_ok (credit_id c) ->
  (apply_credit k c).2 = None /\ (apply_credit k c).1 = k \/
  exists p, (apply_credit k c).2 = Some p /\ 0 <= p /\ credit_effect k c p (apply_credit k c).1.
Proof.
  intros Hinv (_ & _ & Hseq). apply spur_inv_meters in Hinv as [Hm Hs].
  unfold apply_credit, credit_effect.
  destruct (raw_points (credit_kind c)) as [raw|] eqn:Hraw; [|by left].
  apply raw_points_range in Hraw as Hrange.
  destruct (checked_add 64 _ 1) as [next|] eqn:Hnext; [|by left].
  apply checked_add_Some in Hnext as [-> Hnext].
  destruct (_ || _ || _) eqn:Hguard; [by left|right]. btrue.
  assert (Htick : is_some_and (spur_current_tick k)
            (fun now => receipt_tick (credit_id c) <=? now) = true).
  { destruct (spur_current_tick k); simpl in *; [|done]. lia. }
  destruct k; simpl in *.
  destruct (is_movement_style (credit_kind c)) eqn:Hstyle; case_match eqn:Hp; simpl.
  all: eexists; (split; [reflexivity|]); (split; [meter_lia|]).
  all: exists raw; do 3 (split; [done|]); (split; [int_lia|]).
  all: rewrite ?Hstyle; (split; [meter_lia|]).
  all: unfold wrapping_add; rewrite ?wrap_small by meter_lia; f_equal; meter_lia.
Qed.

Lemma credit_effect_inv k c p k' :
  spur_inv k -> receipt_ok (credit_id c) -> 0 <= p -> credit_effect k c p k' -> spur_inv k'.
Proof.
  intros Hinv Hok Hp (raw & Hraw & Hrep & Htick & Hseq & -> & ->).
  apply spur_inv_meters in Hinv as Hm. destruct Hm as [Hm Hs].
  destruct Hinv as [Ht Hv]. destruct k; unfold spur_inv, spur_typed, state_is_valid in *; simpl in *.
  btrue. destruct_and?.
  split.
  - destruct_and?. split_and!; try done; try (case_match; meter_lia).
  - bsplit; try done; try lia; try (case_match; meter_lia).
Qed.

(** A credit is accepted exactly as the meter's rules say: a refused one
    leaves the kernel untouched, an accepted one raises the meter by the points
    it returns, never above [SPUR_METER_MAX], counts movement style points up to
    their lifetime cap, and records its receipt. *)
Theorem credit_functional k c k' r :
  spur_inv k -> receipt_ok (credit_id c) -> apply_credit k c = (k', r) ->
  match r with
  | None => k' = k
  | Some p => credit_effect k c p k' /\ 0 <= p /\
      meter k' = meter k + p /\ meter k' <= SPUR_METER_MAX /\
      movement_style_points k' <= MOVEMENT_STYLE_SPUR_CAP
  end.
Proof.
  intros Hinv Hok Happ. pose proof (apply_credit_cases k c Hinv Hok) as Hc.
  rewrite Happ in Hc. simpl in Hc.
  destruct Hc as [[-> ->]|(p & -> & Hp & Heff)]; [done|].
  pose proof (credit_effect_inv _ _ _ _ Hinv Hok Hp Heff) as Hinv'.
  apply spur_inv_meters in Hinv'. destruct Heff as (raw & ? & ? & ? & ? & ? & ->) eqn:E.
  split_and!; [done|done|by destruct k|lia|lia].
Qed.

(** ** Ticks and runs *)

Lemma advance_tick_inv k t p ctx :
  spur_inv k -> 0 <= t < u64_max -> spur_inv (advance_tick k t p ctx).1.
Proof.
  intros [Ht Hv] Hrange. destruct k as [now m style last next held start end_].
  unfold spur_inv, spur_typed, state_is_valid, advance_tick, charge_active in *. simpl in *.
  unfold opt_u64, tick_saturating_add in *.
  assert (H360 : MAJESTIC_CHARGE_TICKS = 360) by done.
  destruct (is_some_and now _) eqn:Hnow; [done|].
  assert (Hlast : is_none_or last (fun id => (sequence id <? next) && (receipt_tick id <=? t)) = true).
  { destruct last; simpl in *; [|done]. destruct now; simpl in *; btrue; bsplit; try lia; done. }
  destruct start as [s|], end_ as [e|]; simpl in *; btrue; try done.
  - destruct now as [n|]; simpl in *; [|by btrue].
    btrue. destruct (t >=? e) eqn:He; simpl; destruct (_ && _ && _); try destruct ctx; simpl.
    all: rewrite Hlast; split; [split_and!; meter_lia || tauto | bsplit; meter_lia || done].
  - destruct (_ && _ && _); try destruct ctx; simpl.
    all: rewrite Hlast; split; [split_and!; meter_lia || tauto | bsplit; meter_lia || done].
Qed.

(** An operation is refused, applies one credit, or is a tick. *)
Lemma spur_step_cases k op k' es :
  spur_inv k -> spur_op_ok op -> spur_step k op = (k', es) ->
  (k' = k /\ es = []) \/
  (exists c p, receipt_ok (credit_id c) /\ 0 <= p /\ credit_effect k c p k' /\
     es = [Credited (credit_id c) p]) \/
  (exists t p ctx, 0 <= t < u64_max /\
     advance_tick k t p ctx = (k', (advance_tick k t p ctx).2) /\
     es = tick_events (advance_tick k t p ctx).2).
Proof.
  intros Hinv Hop Hstep.
  assert (Hcredit : forall c, receipt_ok (credit_id c) ->
    (let '(k', r) := apply_credit k c in (k', credit_events (credit_id c) r)) = (k', es) ->
    (k' = k /\ es = []) \/
    (exists c p, receipt_ok (credit_id c) /\ 0 <= p /\ credit_effect k c p k' /\
       es = [Credited (credit_id c) p])).
  { intros c Hc Heq. pose proof (apply_credit_cases k c Hinv Hc) as Hcases.
    destruct (apply_credit k c) as [k1 r]. simpl in Hcases. injection Heq as -> <-.
    destruct Hcases as [[-> ->]|(p & -> & Hp & Heff)]; [by left|right].
    exists c, p. by split_and!. }
  destruct op as [c|e t kind|t p ctx]; simpl in Hstep.
  - specialize (Hcredit c Hop Hstep). tauto.
  - specialize (Hcredit (mkSpurCreditCommand (mkReceiptId e t (next_credit_sequence k)) kind)).
    assert (Hc : receipt_ok (mkReceiptId e t (next_credit_sequence k)))
      by (destruct Hop, Hinv as [(_ & _ & _ & Hn & _) _]; done).
    specialize (Hcredit Hc Hstep). tauto.
  - right. right. exists t, p, ctx. destruct (advance_tick k t p ctx). by simplify_eq.
Qed.

Lemma spur_step_inv k op k' es :
  spur_inv k -> spur_op_ok op -> spur_step k op = (k', es) -> spur_inv k'.
Proof.
  intros Hinv Hop Hstep.
  destruct (spur_step_cases _ _ _ _ Hinv Hop Hstep)
    as [[-> _]|[(c & p & Hc & Hp & Heff & _)|(t & p & ctx & Ht & Hadv & _)]].
  - done.
  - by eapply credit_effect_inv.
  - replace k' with (advance_tick k t p ctx).1 by (by rewrite Hadv). by apply advance_tick_inv.
Qed.

Lemma spur_run_inv ops k :
  spur_inv k -> Forall spur_op_ok ops -> spur_inv (spur_run k ops).1.
Proof.
  revert k. induction ops as [|op ops IH]; intros k Hinv Hops; simpl; [done|].
  apply Forall_cons in Hops as [Hop Hops].
  destruct (spur_step k op) as [k1 es1] eqn:Hstep.
  specialize (IH k1 (spur_step_inv _ _ _ _ Hinv Hop Hstep) Hops). by destruct (spur_run k1 ops).
Qed.

Lemma spur_default_inv : spur_inv spur_default.
Proof. split; [|done]. unfold spur_typed, spur_default. simpl. int_lia. Qed.

(** From the initial kernel, every interleaving of credits and ticks keeps
    the state that a migration checkpoint's validation accepts. *)
Theorem spur_runs_valid ops :
  Forall spur_op_ok ops -> state_is_valid (spur_run spur_default ops).1 = true.
Proof. intros Hops. apply (spur_run_inv ops _ spur_default_inv Hops). Qed.

(** ** Exactly-once credit and conservation *)

(** Every event's effect on the replay cursor and on the meters. *)
Definition cursor_covers (k : SpurKernel) (ids : list SpurCreditId) : Prop :=
  Forall (fun id => forall l, spur_last_credit_id k = Some l -> key_lt l id) ids.

Lemma advance_tick_ledger k t p ctx k' r :
  advance_tick k t p ctx = (k', r) ->
  meter k' + SPUR_METER_MAX * meters_spent (tick_events r) = meter k /\
  points_credited (tick_events r) = 0 /\ credited_ids (tick_events r) = [] /\
  spur_last_credit_id k' = spur_last_credit_id k.
Proof.
  destruct k as [now m style last next held start end_].
  unfold advance_tick, charge_active. simpl.
  destruct (is_some_and now _); [intros; simplify_eq/=; split_and!; try done; lia|].
  destruct (is_some_and end_ _); simpl; destruct (_ && _ && _) eqn:Hg; try destruct ctx;
    intros ?; simplify_eq/=; btrue; split_and!; try done; meter_lia.
Qed.

Lemma spur_step_ledger k op k' es :
  spur_inv k -> spur_op_ok op -> spur_step k op = (k', es) ->
  meter k' + SPUR_METER_MAX * meters_spent es = meter k + points_credited es /\
  ((credited_ids es = [] /\ spur_last_credit_id k' = spur_last_credit_id k) \/
   exists id, credited_ids es = [id] /\ spur_last_credit_id k' = Some id /\
     forall l, spur_last_credit_id k = Some l -> key_lt l id).
Proof.
  intros Hinv Hop Hstep.
  destruct (spur_step_cases _ _ _ _ Hinv Hop Hstep)
    as [[-> ->]|[(c & p & _ & Hp & (raw & _ & Hrep & _ & _ & _ & ->) & ->)|(t & p & ctx & _ & Hadv & ->)]].
  - simpl. split; [lia|by left].
  - split; [destruct k; simpl; lia|right]. eexists. do 2 (split; [by destruct k|]).
    by apply is_replay_false.
  - destruct (advance_tick_ledger _ _ _ _ _ _ Hadv) as (? & ? & ? & ?). split; [lia|by left].
Qed.

Lemma credited_ids_app es1 es2 : credited_ids (es1 ++ es2) = credited_ids es1 ++ credited_ids es2.
Proof. unfold credited_ids. induction es1 as [|[] es1 IH]; simpl; [done| |done]. f_equal. exact IH. Qed.

Lemma spur_run_ledger ops k k' es :
  spur_inv k -> Forall spur_op_ok ops -> spur_run k ops = (k', es) ->
  meter k' + SPUR_METER_MAX * meters_spent es = meter k + points_credited es /\
  cursor_covers k (credited_ids es) /\ StronglySorted key_lt (credited_ids es).
Proof.
  revert k es. induction ops as [|op ops IH]; intros k es Hinv Hops Hrun; simpl in Hrun.
  { simplify_eq. simpl. split_and!; [lia|constructor|constructor]. }
  apply Forall_cons in Hops as [Hop Hops].
  destruct (spur_step k op) as [k1 es1] eqn:Hstep.
  pose proof (spur_step_inv _ _ _ _ Hinv Hop Hstep) as Hinv1.
  destruct (spur_run k1 ops) as [k2 es2] eqn:Hrest. injection Hrun as -> <-.
  destruct (IH _ _ Hinv1 Hops Hrest) as (Hm & Hcov & Hs).
  destruct (spur_step_ledger _ _ _ _ Hinv Hop Hstep) as [Hm1 Hids].
  assert (Happ : points_credited (es1 ++ es2) = points_credited es1 + points_credited es2 /\
                 meters_spent (es1 ++ es2) = meters_spent es1 + meters_spent es2).
  { clear. unfold points_credited, meters_spent.
    induction es1 as [|[] es1 [IH1 IH2]]; simpl; lia. }
  destruct Happ as [-> ->]. split; [meter_lia|].
  rewrite credited_ids_app.
  destruct Hids as [[-> Hl]|(id & -> & Hl & Hlt)]; simpl.
  - unfold cursor_covers in *. by rewrite Hl in Hcov.
  - unfold cursor_covers in Hcov. rewrite Hl in Hcov.
    assert (Hall : Forall (key_lt id) (credited_ids es2)).
    { eapply Forall_impl; [exact Hcov|]. simpl. auto. }
    split; [constructor|constructor]; [done| |done|done].
    eapply Forall_impl; [exact Hall|]. simpl. intros x Hx l Hlast.
    eapply key_lt_trans; eauto.
Qed.

(** C40. Exactly once, and no decay: over any run from the initial kernel the
    accepted receipts are strictly increasing, so no receipt counts twice, and
    the points credited are the meter's value plus one full meter per spend. *)
Theorem spur_conservation ops k es :
  Forall spur_op_ok ops -> spur_run spur_default ops = (k, es) ->
  StronglySorted key_lt (credited_ids es) /\
  points_credited es = meter k + SPUR_METER_MAX * meters_spent es.
Proof.
  intros Hops Hrun.
  destruct (spur_run_ledger _ _ _ _ spur_default_inv Hops Hrun) as (Hm & _ & Hs).
  split; [done|]. simpl in Hm. lia.
Qed.

(** ** The charge *)

(** A charge begun at [start] runs for exactly its six seconds, and only then
    can another begin. *)
Definition charge_since (start : SimulationTick) (k : SpurKernel) : Prop :=
  exists now, spur_current_tick k = Some now /\ start <= now /\
  if now <? start + MAJESTIC_CHARGE_TICKS
  then charge_started_tick k = Some start /\ charge_end_tick k = Some (start + MAJESTIC_CHARGE_TICKS)
  else forall s, charge_started_tick k = Some s -> start + MAJESTIC_CHARGE_TICKS <= s.

Lemma advance_tick_charge_since start k t p ctx :
  charge_since start k -> charge_since start (advance_tick k t p ctx).1.
Proof.
  intros (now & Hnow & Hle & Hsince).
  destruct k as [n m style last next held st end_]. unfold charge_since, advance_tick, charge_active.
  simpl in *. subst n. simpl. destruct (t <=? now) eqn:Ht; [by exists now|].
  assert (H360 : MAJESTIC_CHARGE_TICKS = 360) by done.
  destruct (now <? _) eqn:Hphase.
  - destruct Hsince as [-> ->]. simpl.
    destruct (t >=? _) eqn:Hend; simpl; destruct (_ && _ && _) eqn:Hg; try destruct ctx; simpl;
      exists t; (split; [done|]); (split; [lia|]); btrue; try lia;
      destruct (t <? _) eqn:?; try lia; try done; intros s [= <-]; lia.
  - destruct (is_some_and end_ _); simpl; destruct (_ && _ && _); try destruct ctx; simpl;
      exists t; (split; [done|]); (split; [lia|]);
      destruct (t <? _) eqn:?; try lia; try done; intros s [= <-]; lia.
Qed.

Lemma spur_run_charge_since start ops k :
  spur_inv k -> Forall spur_op_ok ops -> charge_since start k ->
  charge_since start (spur_run k ops).1.
Proof.
  revert k. induction ops as [|op ops IH]; intros k Hinv Hops Hsince; simpl; [done|].
  apply Forall_cons in Hops as [Hop Hops].
  destruct (spur_step k op) as [k1 es1] eqn:Hstep.
  pose proof (spur_step_inv _ _ _ _ Hinv Hop Hstep) as Hinv1.
  assert (Hs1 : charge_since start k1).
  { destruct (spur_step_cases _ _ _ _ Hinv Hop Hstep)
      as [[-> _]|[(c & p & _ & _ & (raw & _ & _ & _ & _ & _ & ->) & _)|(t & p & ctx & _ & Hadv & _)]].
    - done.
    - by destruct k.
    - replace k1 with (advance_tick k t p ctx).1 by (by rewrite Hadv).
      by apply advance_tick_charge_since. }
  specialize (IH k1 Hinv1 Hops Hs1). by destruct (spur_run k1 ops).
Qed.

(** What a tick that begins a charge requires: a rising edge of the spend
    control, a full meter, no running charge and a mounted rider. *)
Lemma charge_begins k t p ctx k1 out :
  advance_tick k t p ctx = (k1, Ok out) -> spend out = Some MajesticCharge ->
  p = true /\ spend_held k = false /\ meter k = SPUR_METER_MAX /\ ctx = SpendMounted /\
  meter k1 = 0 /\ spur_current_tick k1 = Some t /\ charge_started_tick k1 = Some t /\
  charge_end_tick k1 = Some (tick_saturating_add t MAJESTIC_CHARGE_TICKS).
Proof.
  unfold advance_tick. destruct (is_some_and (spur_current_tick k) _); [done|].
  destruct k as [n m style last next held st end_]. simpl.
  destruct (is_some_and end_ _); simpl; destruct (_ && _ && _) eqn:Hg; try destruct ctx;
    intros ? ?; simplify_eq/=; btrue; split_and!; try done; try lia; by destruct held.
Qed.

(** A charge is bought with a full meter on a rising edge while mounted, and
    from its first tick, whatever credits and ticks follow, it is active at
    exactly the [MAJESTIC_CHARGE_TICKS] ticks from its start, and no other
    charge starts before they have passed. *)
Theorem charge_lasts_exactly k t p ctx k1 out ops :
  spur_inv k -> 0 <= t -> t + MAJESTIC_CHARGE_TICKS <= u64_max ->
  advance_tick k t p ctx = (k1, Ok out) -> spend out = Some MajesticCharge ->
  Forall spur_op_ok ops ->
  let k2 := (spur_run k1 ops).1 in
  (p = true /\ spend_held k = false /\ meter k = SPUR_METER_MAX /\ ctx = SpendMounted /\ meter k1 = 0) /\
  exists now, spur_current_tick k2 = Some now /\ t <= now /\
    (now < t + MAJESTIC_CHARGE_TICKS -> charge_active k2 = true /\ charge_started_tick k2 = Some t) /\
    (t + MAJESTIC_CHARGE_TICKS <= now ->
       forall s, charge_started_tick k2 = Some s -> t + MAJESTIC_CHARGE_TICKS <= s).
Proof.
  intros Hinv Ht Hmax Hadv Hspend Hops k2.
  destruct (charge_begins _ _ _ _ _ _ Hadv Hspend) as (? & ? & ? & ? & ? & Hnow & Hst & Hend).
  split; [done|].
  assert (H360 : MAJESTIC_CHARGE_TICKS = 360) by done.
  assert (Hinv1 : spur_inv k1).
  { replace k1 with (advance_tick k t p ctx).1 by (by rewrite Hadv).
    apply advance_tick_inv; [done|lia]. }
  rewrite tick_saturating_add_exact in Hend by done.
  assert (Hs1 : charge_since t k1).
  { exists t. split; [done|]. split; [lia|]. destruct (t <? _) eqn:?; [done|lia]. }
  destruct (spur_run_charge_since t ops k1 Hinv1 Hops Hs1) as (now & Hn & Hle & Hph).
  fold k2 in Hn, Hph. exists now. split; [done|]. split; [done|].
  unfold charge_active. rewrite Hn. destruct (now <? _) eqn:?.
  - destruct Hph as [-> ->]. split; [|lia]. intros _. split; [lia|done].
  - split; [lia|done].
Qed.

(** ** Witnesses *)

Definition charging_ops : list spur_op :=
  OpTick 1 false Ineligible :: ((fun s => OpIssue 1 1 SaddleDiveElimination) <$> seq 0 13).
Definition full_meter : SpurKernel := (spur_run spur_default charging_ops).1.

Example full_meter_value : meter full_meter = 100 /\ length (spur_run spur_default charging_ops).2 = 13%nat.
Proof. by vm_compute. Qed.

Lemma full_meter_inv : spur_inv full_meter.
Proof.
  apply spur_run_inv; [apply spur_default_inv|].
  unfold charging_ops. repeat constructor; by vm_compute.
Qed.

Lemma credit_functional_witness :
  let c := mkSpurCreditCommand (mkReceiptId 1 2 14) MountedHit in
  let k := (advance_tick spur_default 5 false Ineligible).1 in
  credit_effect k c 2 (apply_credit k c).1 /\ meter (apply_credit k c).1 = 2.
Proof.
  intros c k. assert (Hinv : spur_inv k).
  { apply advance_tick_inv; [apply spur_default_inv|by vm_compute]. }
  destruct (credit_functional k c _ (Some 2) Hinv ltac:(by vm_compute) eq_refl) as (H & _ & Hm & _).
  split; [exact H|]. etrans; [exact Hm|by vm_compute].
Defined.

Lemma spur_runs_valid_witness : state_is_valid (spur_run spur_default charging_ops).1 = true.
Proof. apply spur_runs_valid. unfold charging_ops. repeat constructor; by vm_compute. Defined.

Lemma spur_conservation_witness :
  points_credited (spur_run spur_default charging_ops).2 = 100.
Proof.
  assert (Hops : Forall spur_op_ok charging_ops)
    by (unfold charging_ops; repeat constructor; by vm_compute).
  destruct (spur_conservation charging_ops _ _ Hops (surjective_pairing _)) as [_ ->].
  by vm_compute.
Defined.

Lemma charge_lasts_exactly_witness :
  let k1 := (advance_tick full_meter 2 true SpendMounted).1 in
  charge_active (spur_run k1 [OpTick 361 true SpendMounted]).1 = true.
Proof.
  intros k1.
  assert (Hops : Forall spur_op_ok [OpTick 361 true SpendMounted])
    by (repeat constructor; by vm_compute).
  destruct (charge_lasts_exactly full_meter 2 true SpendMounted k1
    (mkSpurTickOutput (Some MajesticCharge) true false) [OpTick 361 true SpendMounted]
    full_meter_inv ltac:(lia) ltac:(by vm_compute) ltac:(by vm_compute) eq_refl Hops)
    as (_ & now & Hnow & _ & Hactive & _).
  assert (now = 361) as -> by (vm_compute in Hnow; congruence).
  by apply Hactive.
Defined.
