(* ===== verification/Combat.v ===== *)
(** * Weapon rows and quantized vectors ([combat.rs])

    The immutable rifle table with its fixed-point cadence, reload and damage
    rules, the integer-millimetre origin, and the quantized direction whose
    normalization test runs in IEEE double precision. *)

From Stdlib Require Import SpecFloat String.
From S2P Require Import Prelude MachineInt Ordered Clock.
Open Scope Z_scope.

Abbreviation EntityId := Z (only parsing).

Definition DIRECTION_UNITS : Z := 1000000.

(** ** Weapons *)

Inductive WeaponId := Dustwalker | Longspur | Rattler.
#[export] Instance WeaponId_eq_dec : EqDecision WeaponId.
Proof. solve_decision. Defined.

Definition WeaponId_ALL : list WeaponId := [Dustwalker; Longspur; Rattler].

Definition weapon_as_u8 (w : WeaponId) : Z :=
  match w with Dustwalker => 0 | Longspur => 1 | Rattler => 2 end.

Record InvalidWeaponId := mkInvalidWeaponId { invalid_weapon : Z }.

(** [TryFrom<u8>] *)
Definition weapon_try_from_u8 (value : Z) : result WeaponId InvalidWeaponId :=
  if value =? 0 then Ok Dustwalker
  else if value =? 1 then Ok Longspur
  else if value =? 2 then Ok Rattler
  else Err (mkInvalidWeaponId value).

(** [TryFrom<i64>]: a negative identifier is reported through its unsigned cast. *)
Definition weapon_try_from_i64 (value : Z) : result WeaponId InvalidWeaponId :=
  if value =? 0 then Ok Dustwalker
  else if value =? 1 then Ok Longspur
  else if value =? 2 then Ok Rattler
  else Err (mkInvalidWeaponId (wrap 64 value)).

Record WeaponStats := mkWeaponStats {
  stats_id : WeaponId;
  display_name : string;
  magazine_capacity : Z;
  reserve_capacity : Z;
  rounds_per_second_milli : Z;
  reload_ms : Z;
  base_spread_millidegrees : Z;
  moving_spread_millidegrees : Z;
  gallop_spread_millidegrees : Z;
  recoil_vertical_millidegrees : Z;
  recoil_yaw_millidegrees : Z;
  body_damage : Z;
  falloff_start_mm : Z;
  falloff_end_mm : Z;
  minimum_body_damage : Z;
  headshot_multiplier_milli : Z;
  effective_range_mm : Z;
  hitscan_clamp_mm : Z;
}.

Definition DUSTWALKER_STATS : WeaponStats :=
  mkWeaponStats Dustwalker "SF-C30 'Dustwalker'" 30 120 7500 2100 800 1600 2600 550 200
    14 60000 120000 9 2000 120000 300000.
Definition LONGSPUR_STATS : WeaponStats :=
  mkWeaponStats Longspur "SF-B18 'Longspur'" 18 72 4000 2400 450 1000 1800 1100 350
    26 120000 200000 17 2200 200000 400000.
Definition RATTLER_STATS : WeaponStats :=
  mkWeaponStats Rattler "SF-R40 'Rattler'" 40 160 11000 2600 1400 2400 3800 350 300
    9 30000 60000 5 1800 60000 150000.

Definition weapon_stats (w : WeaponId) : WeaponStats :=
  match w with
  | Dustwalker => DUSTWALKER_STATS
  | Longspur => LONGSPUR_STATS
  | Rattler => RATTLER_STATS
  end.

Definition cadence_ticks (self : WeaponStats) (tick_rate : Z) : Z :=
  if tick_rate =? 0 then 0
  else div_ceil (saturating_mul 64 tick_rate 1000) (rounds_per_second_milli self).

Definition reload_ticks (self : WeaponStats) (tick_rate : Z) : Z :=
  if tick_rate =? 0 then 0
  else div_ceil (saturating_mul 64 tick_rate (reload_ms self)) 1000.

Inductive HitZone := HitBody | HitHead.

(** Body damage before the zone multiplier. *)
Definition body_damage_at (self : WeaponStats) (distance_mm : Z) : Z :=
  if distance_mm <=? falloff_start_mm self then body_damage self
  else if falloff_end_mm self <=? distance_mm then minimum_body_damage self
  else
    let distance_into_falloff := distance_mm - falloff_start_mm self in
    let falloff_span := falloff_end_mm self - falloff_start_mm self in
    let distance_remaining := falloff_span - distance_into_falloff in
    let weighted_damage :=
      body_damage self * distance_remaining + minimum_body_damage self * distance_into_falloff in
    default (minimum_body_damage self)
      (try_from_uint 16 ((weighted_damage + falloff_span / 2) / falloff_span)).

Definition damage_at (self : WeaponStats) (distance_mm : Z) (hit_zone : HitZone) : Z :=
  let body := body_damage_at self distance_mm in
  match hit_zone with
  | HitBody => body
  | HitHead =>
      let scaled := body * headshot_multiplier_milli self in
      default u16_max (try_from_uint 16 ((scaled + 500) / 1000))
  end.

(** ** Quantized vectors *)

Record QuantizedOrigin := mkQuantizedOrigin { origin_x : Z; origin_y : Z; origin_z : Z }.
#[export] Instance QuantizedOrigin_eq_dec : EqDecision QuantizedOrigin.
Proof. solve_decision. Defined.

Definition squared_distance_mm (self other : QuantizedOrigin) : Z :=
  let dx := origin_x self - origin_x other in
  let dy := origin_y self - origin_y other in
  let dz := origin_z self - origin_z other in
  Z.abs (dx * dx + dy * dy + dz * dz).

Record QuantizedDirection := mkQuantizedDirection { dir_x : Z; dir_y : Z; dir_z : Z }.
#[export] Instance QuantizedDirection_eq_dec : EqDecision QuantizedDirection.
Proof. solve_decision. Defined.

(** IEEE 754 binary64, as the executable specification of the standard
    library: 53 bits of precision, exponents up to 1024, round to nearest even. *)
Definition f64 : Type := spec_float.
Definition f64_of_Z (n : Z) : f64 := binary_normalize 53 1024 n 0 false.
Definition f64_add : f64 -> f64 -> f64 := SFadd 53 1024.
Definition f64_sub : f64 -> f64 -> f64 := SFsub 53 1024.
Definition f64_mul : f64 -> f64 -> f64 := SFmul 53 1024.
Definition f64_div : f64 -> f64 -> f64 := SFdiv 53 1024.
Definition f64_sqrt : f64 -> f64 := SFsqrt 53 1024.
Definition f64_is_finite (x : f64) : bool :=
  match x with S754_zero _ | S754_finite _ _ _ => true | _ => false end.

(** The literal [0.001], the double nearest to one thousandth. *)
Definition DIRECTION_NORMALIZATION_EPSILON : f64 := f64_div (f64_of_Z 1) (f64_of_Z 1000).

Definition to_component (n : Z) : f64 := f64_div (f64_of_Z n) (f64_of_Z DIRECTION_UNITS).

Definition direction_length (self : QuantizedDirection) : f64 :=
  let x := to_component (dir_x self) in
  let y := to_component (dir_y self) in
  let z := to_component (dir_z self) in
  f64_sqrt (f64_add (f64_add (f64_mul x x) (f64_mul y y)) (f64_mul z z)).

Definition is_normalized (self : QuantizedDirection) : bool :=
  let length := direction_length self in
  f64_is_finite length
  && SFleb (SFabs (f64_sub length (f64_of_Z 1))) DIRECTION_NORMALIZATION_EPSILON.

(** The component range of the wire, and the exact unit disc that the
    tolerance of [is_normalized] slightly exceeds. *)
Definition direction_ok (d : QuantizedDirection) : Prop :=
  in_sint 32 (dir_x d) /\ in_sint 32 (dir_y d) /\ in_sint 32 (dir_z d).
Definition within_unit (d : QuantizedDirection) : Prop :=
  dir_x d * dir_x d + dir_z d * dir_z d <= DIRECTION_UNITS * DIRECTION_UNITS.

Example epsilon_is_one_thousandth :
  DIRECTION_NORMALIZATION_EPSILON = S754_finite false 4611686018427388 (-62).
Proof. by vm_compute. Qed.
Example forward_is_normalized : is_normalized (mkQuantizedDirection 0 0 (-DIRECTION_UNITS)) = true.
Proof. by vm_compute. Qed.
Example zero_is_not_normalized : is_normalized (mkQuantizedDirection 0 0 0) = false.
Proof. by vm_compute. Qed.
Example half_is_not_normalized : is_normalized (mkQuantizedDirection 0 0 (-500000)) = false.
Proof. by vm_compute. Qed.

(** ** The weapon table *)

(** The rows' own consistency, that the rules above rely on. *)
Definition stats_ok (s : WeaponStats) : Prop :=
  0 < rounds_per_second_milli s < 2 ^ 32 /\ 0 < reload_ms s < 2 ^ 32 /\
  0 <= minimum_body_damage s <= body_damage s /\ body_damage s < 2 ^ 10 /\
  0 <= falloff_start_mm s < falloff_end_mm s /\ falloff_end_mm s < 2 ^ 32 /\
  1000 <= headshot_multiplier_milli s < 10000.

Lemma weapon_stats_ok w : stats_ok (weapon_stats w) /\ stats_id (weapon_stats w) = w.
Proof. destruct w; by vm_compute. Qed.

Lemma div_ceil_spec a b :
  0 < b -> (div_ceil a b - 1) * b < a <= div_ceil a b * b.
Proof. unfold div_ceil. intros. div_lia. Qed.

(** Rounded linear interpolation stays between its ends and falls with the
    distance. *)
Definition interpolate (hi lo span d : Z) : Z := (hi * (span - d) + lo * d + span / 2) / span.

Lemma interpolate_bounds hi lo span d :
  0 <= lo <= hi -> 0 < span -> 0 <= d <= span -> lo <= interpolate hi lo span d <= hi.
Proof.
  intros Hlh Hs Hd. unfold interpolate.
  assert (0 <= span / 2 < span) by div_lia. split.
  - apply Z.div_le_lower_bound; nia.
  - apply Z.lt_succ_r, Z.div_lt_upper_bound; nia.
Qed.

Lemma interpolate_antitone hi lo span d1 d2 :
  0 <= lo <= hi -> 0 < span -> d1 <= d2 -> interpolate hi lo span d2 <= interpolate hi lo span d1.
Proof. intros Hlh Hs Hd. unfold interpolate. apply Z.div_le_mono; nia. Qed.

Lemma body_damage_at_eq s d :
  stats_ok s -> 0 <= d ->
  body_damage_at s d =
    if d <=? falloff_start_mm s then body_damage s
    else if falloff_end_mm s <=? d then minimum_body_damage s
    else interpolate (body_damage s) (minimum_body_damage s)
           (falloff_end_mm s - falloff_start_mm s) (d - falloff_start_mm s).
Proof.
  intros (_ & _ & Hmin & Hbody & Hstart & _ & _) Hd. unfold body_damage_at.
  destruct (Z.leb_spec d (falloff_start_mm s)); [done|].
  destruct (Z.leb_spec (falloff_end_mm s) d); [done|].
  pose proof (interpolate_bounds (body_damage s) (minimum_body_damage s)
    (falloff_end_mm s - falloff_start_mm s) (d - falloff_start_mm s)
    ltac:(lia) ltac:(lia) ltac:(lia)) as Hb.
  fold (interpolate (body_damage s) (minimum_body_damage s)
    (falloff_end_mm s - falloff_start_mm s) (d - falloff_start_mm s)).
  unfold try_from_uint. replace (uint_ok 16 _) with true; [done|].
  symmetry. apply uint_ok_true. change (2 ^ 10) with 1024 in *. int_lia.
Qed.

Lemma body_damage_at_bounds s d :
  stats_ok s -> 0 <= d -> minimum_body_damage s <= body_damage_at s d <= body_damage s.
Proof.
  intros Hok Hd. rewrite body_damage_at_eq by done.
  destruct Hok as (_ & _ & Hmin & _ & Hstart & _ & _). split_ifs; try lia.
  apply interpolate_bounds; lia.
Qed.

Lemma body_damage_at_antitone s d1 d2 :
  stats_ok s -> 0 <= d1 <= d2 -> body_damage_at s d2 <= body_damage_at s d1.
Proof.
  intros Hok Hd. pose proof (body_damage_at_bounds s d1 Hok ltac:(lia)).
  pose proof (body_damage_at_bounds s d2 Hok ltac:(lia)).
  rewrite !body_damage_at_eq in * by (done || lia).
  destruct Hok as (_ & _ & Hmin & _ & Hstart & _ & _).
  split_ifs; try lia. apply interpolate_antitone; lia.
Qed.

Lemma head_damage_eq s d :
  stats_ok s -> 0 <= d ->
  damage_at s d HitHead = (body_damage_at s d * headshot_multiplier_milli s + 500) / 1000.
Proof.
  intros Hok Hd. pose proof (body_damage_at_bounds s d Hok Hd).
  destruct Hok as (_ & _ & Hmin & Hbody & _ & _ & Hhead).
  unfold damage_at, try_from_uint. replace (uint_ok 16 _) with true; [done|].
  symmetry. apply uint_ok_true. change (2 ^ 10) with 1024 in *. unfold in_uint.
  change (2 ^ 16) with 65536. split; [apply Z.div_pos; nia|].
  apply Z.div_lt_upper_bound; nia.
Qed.

Lemma weapon_damage_nonneg w d zone : 0 <= d -> 0 <= damage_at (weapon_stats w) d zone.
Proof.
  intros Hd. destruct (weapon_stats_ok w) as [Hok _].
  pose proof (body_damage_at_bounds _ d Hok Hd). pose proof Hok as (_ & _ & Hmin & _ & _ & _ & Hhead).
  destruct zone; [unfold damage_at; lia|]. rewrite head_damage_eq by done.
  apply Z.div_pos; nia.
Qed.

(** The damage rule of every rifle row: full damage up to the falloff's
    start, the minimum from its end on, never outside these two and never
    increasing with the distance in between; a head hit deals at least the body
    damage, and neither conversion to [u16] ever falls back. *)
Theorem weapon_damage_rule w d1 d2 zone :
  0 <= d1 <= d2 -> d2 < 2 ^ 32 ->
  let s := weapon_stats w in
  (d1 <= falloff_start_mm s -> damage_at s d1 HitBody = body_damage s) /\
  (falloff_end_mm s <= d1 -> damage_at s d1 HitBody = minimum_body_damage s) /\
  minimum_body_damage s <= damage_at s d1 HitBody <= body_damage s /\
  damage_at s d2 zone <= damage_at s d1 zone /\
  damage_at s d1 HitBody <= damage_at s d1 HitHead /\
  in_uint 16 (damage_at s d1 zone).
Proof.
  intros Hd Hmax s. destruct (weapon_stats_ok w) as [Hok _]. fold s in Hok. clearbody s.
  pose proof (body_damage_at_bounds s d1 Hok ltac:(lia)) as Hb1.
  pose proof (body_damage_at_bounds s d2 Hok ltac:(lia)) as Hb2.
  pose proof (body_damage_at_antitone s d1 d2 Hok Hd) as Hanti.
  pose proof (head_damage_eq s d1 Hok ltac:(lia)) as Hh1.
  pose proof (head_damage_eq s d2 Hok ltac:(lia)) as Hh2.
  pose proof Hok as (_ & _ & Hmin & Hbody & Hstart & _ & Hhead).
  assert (Hle : body_damage_at s d1 <= damage_at s d1 HitHead).
  { rewrite Hh1. apply Z.div_le_lower_bound; nia. }
  change (2 ^ 10) with 1024 in Hbody. split_and!.
  - intros. unfold damage_at. rewrite body_damage_at_eq by (done || lia). split_ifs; lia.
  - intros. unfold damage_at. rewrite body_damage_at_eq by (done || lia). split_ifs; lia.
  - unfold damage_at. lia.
  - unfold damage_at. lia.
  - destruct zone; [done|]. rewrite Hh1, Hh2. apply Z.div_le_mono; nia.
  - done.
  - destruct zone; [unfold damage_at; int_lia|]. rewrite Hh1. unfold in_uint.
    change (2 ^ 16) with 65536. split; [apply Z.div_pos; nia|].
    apply Z.div_lt_upper_bound; nia.
Qed.

Lemma weapon_damage_rule_witness :
  damage_at DUSTWALKER_STATS 90000 HitHead <= damage_at DUSTWALKER_STATS 60000 HitHead.
Proof.
  destruct (weapon_damage_rule Dustwalker 60000 90000 HitHead ltac:(lia) ltac:(lia))
    as (_ & _ & _ & H & _). exact H.
Defined.

(** Cadence and reload durations are quantized upward: the interval is the
    least number of ticks that is at least the row's duration, so no peer gains
    on the rifle's rate. *)
Theorem weapon_timing_quantized_up w rate :
  0 < rate < 2 ^ 32 ->
  let s := weapon_stats w in
  (cadence_ticks s rate - 1) * rounds_per_second_milli s < rate * 1000
    <= cadence_ticks s rate * rounds_per_second_milli s /\
  (reload_ticks s rate - 1) * 1000 < rate * reload_ms s <= reload_ticks s rate * 1000.
Proof.
  intros Hrate s. destruct (weapon_stats_ok w) as [(Hrps & Hrel & _) _]. fold s in Hrps, Hrel.
  unfold cadence_ticks, reload_ticks, saturating_mul.
  destruct (Z.eqb_spec rate 0) as [->|_]; [lia|].
  rewrite !Z.min_l by (change (2 ^ 64) with 18446744073709551616; change (2 ^ 32) with 4294967296 in *; nia).
  split; apply div_ceil_spec; lia.
Qed.

Lemma weapon_timing_quantized_up_witness :
  cadence_ticks RATTLER_STATS 60 = 6 /\ 60 * 1000 <= cadence_ticks RATTLER_STATS 60 * 11000.
Proof.
  split; [by vm_compute|].
  destruct (weapon_timing_quantized_up Rattler 60 ltac:(lia)) as [[_ H] _]. exact H.
Defined.

(** The test's rows: cadence at 30, 60 and 120 Hz. *)
Example cadence_rows :
  (fun hz => (fun w => cadence_ticks (weapon_stats w) hz) <$> WeaponId_ALL) <$> [30; 60; 120]
  = [[4; 8; 3]; [8; 15; 6]; [16; 30; 11]].
Proof. by vm_compute. Qed.
