(* ===== verification/DiveMath.v ===== *)
(** * Integer ballistics of the saddle dive ([saddle_dive.rs])

    The pure functions under the saddle dive: durations in ticks, the sway
    schedule of a dive, rounding divisions, rounded square roots and planar
    magnitudes, the CORDIC rotation, and the launch cone. *)

From S2P Require Import Prelude MachineInt Ordered Clock Combat.
Open Scope Z_scope.

(** [DiveId(NonZeroU64)]. *)
Abbreviation DiveId := Z (only parsing).
Definition dive_id_new (value : Z) : option DiveId := if value =? 0 then None else Some value.

Definition VERTICAL_POP_MMPS : Z := 6000.
Definition SADDLE_DIVE_GRAVITY_MMPS2 : Z := 22000.
Definition LAUNCH_CONE_HALF_ANGLE_MILLIDEGREES : Z := 75000.
Definition ANALYTIC_AIRTIME_MICROSECONDS : Z := 741593.
Definition NOMINAL_AIRTIME_TICKS_60_HZ : Z := 45.
Definition DIVE_SWAY_BONUS_MILLI : Z := 600.
Definition DIVE_SWAY_DECAY_START_TICK_60_HZ : Z := 36.

(** ** Durations and the sway schedule *)

Definition duration_ticks_ceil (tick_rate milliseconds : Z) : Z :=
  if tick_rate =? 0 then 0
  else div_ceil (saturating_mul 64 tick_rate milliseconds) 1000.

Definition nominal_airtime_ticks (tick_rate : Z) : Z :=
  if tick_rate =? 0 then 0
  else div_ceil (saturating_mul 64 tick_rate ANALYTIC_AIRTIME_MICROSECONDS) 1000000.

Definition sway_decay_start_tick (nominal_ticks : Z) : Z := saturating_mul 64 nominal_ticks 4 / 5.

Definition dive_sway_scale_milli (elapsed_ticks nominal_ticks : Z) : Z :=
  let decay_start := sway_decay_start_tick nominal_ticks in
  if elapsed_ticks <=? decay_start then DIVE_SWAY_BONUS_MILLI
  else if (nominal_ticks <=? elapsed_ticks) || (nominal_ticks <=? decay_start) then 1000
  else
    let numerator := saturating_mul 64 400 (elapsed_ticks - decay_start) in
    let denominator := nominal_ticks - decay_start in
    let scale := saturating_add 64 600 (numerator / denominator) in
    if scale >? 1000 then 1000 else wrap 16 scale.

Definition dive_shot_cap (weapon_id : WeaponId) : Z :=
  match weapon_id with Longspur => 1 | Dustwalker => 3 | Rattler => 5 end.

(** ** Rounding *)

(** [i128] division truncates toward zero; the operands of every call below
    stay far from the type's limits, where its saturating steps would act. *)
Definition div_round_half_away (numerator denominator : Z) : Z :=
  if 0 <=? numerator then (numerator + denominator / 2) / denominator
  else Z.quot (- (Z.abs numerator + denominator / 2)) denominator.

Definition saturating_i128_to_i32 (value : Z) : Z := i32_clamp value.

(** [u128::isqrt], the floor of the root, rounded to the nearest integer. *)
Definition rounded_sqrt (value : Z) : Z :=
  let floor := Z.sqrt value in
  let rounded :=
    if is_some_and (checked_add 128 (floor * floor) floor) (fun midpoint_floor => value >? midpoint_floor)
    then floor + 1 else floor in
  default u32_max (try_from_uint 32 rounded).

Definition airborne_vertical_velocity_mmps (elapsed_ticks tick_rate : Z) : Z :=
  if tick_rate =? 0 then VERTICAL_POP_MMPS
  else
    let gravity_numerator := SADDLE_DIVE_GRAVITY_MMPS2 * elapsed_ticks in
    let gravity_delta := div_round_half_away gravity_numerator tick_rate in
    saturating_i128_to_i32 (VERTICAL_POP_MMPS - gravity_delta).

Lemma div_round_half_away_spec n d :
  0 < d -> 2 * Z.abs (div_round_half_away n d * d - n) <= d.
Proof.
  intros Hd. unfold div_round_half_away.
  pose proof (Z.div_mod d 2 ltac:(lia)). pose proof (Z.mod_pos_bound d 2 ltac:(lia)).
  assert (Hround : forall m, 0 <= m -> 2 * Z.abs ((m + d / 2) / d * d - m) <= d).
  { intros m Hm. pose proof (Z.div_mod (m + d / 2) d ltac:(lia)).
    pose proof (Z.mod_pos_bound (m + d / 2) d ltac:(lia)). lia. }
  destruct (Z.leb_spec 0 n); [by apply Hround|].
  rewrite Z.quot_opp_l, Z.quot_div_nonneg by lia. specialize (Hround (Z.abs n) ltac:(lia)). lia.
Qed.

Lemma div_round_half_away_odd n d :
  0 < d -> div_round_half_away (- n) d = - div_round_half_away n d.
Proof.
  intros Hd. unfold div_round_half_away.
  destruct (Z.leb_spec 0 n), (Z.leb_spec 0 (- n)); try lia.
  - assert (n = 0) as -> by lia. rewrite Z.opp_0, !Z.add_0_l.
    rewrite Z.div_small by div_lia. done.
  - rewrite Z.quot_opp_l, Z.quot_div_nonneg, Z.abs_neq by div_lia. f_equal. f_equal. lia.
  - rewrite Z.quot_opp_l, Z.quot_div_nonneg, Z.abs_neq, Z.opp_involutive by div_lia. done.
Qed.

Lemma rounded_sqrt_nearest v :
  0 < v < 2 ^ 63 ->
  (2 * rounded_sqrt v - 1) * (2 * rounded_sqrt v - 1) <= 4 * v <
    (2 * rounded_sqrt v + 1) * (2 * rounded_sqrt v + 1).
Proof.
  intros Hv. unfold rounded_sqrt, checked_add, try_from_uint.
  pose proof (Z.sqrt_spec v ltac:(lia)) as Hs. cbv zeta in Hs.
  pose proof (Z.sqrt_nonneg v) as Hn. set (f := Z.sqrt v) in *.
  change (2 ^ 63) with 9223372036854775808 in Hv.
  assert (f <= 3037000499) by nia.
  replace (f * f + f <? 2 ^ 128) with true
    by (symmetry; apply Z.ltb_lt; change (2 ^ 128) with 340282366920938463463374607431768211456; nia).
  cbn [is_some_and]. destruct (Z.gtb_spec v (f * f + f));
    (replace (uint_ok 32 _) with true by (symmetry; apply uint_ok_true; int_lia));
    cbn [default from_option]; unfold id; nia.
Qed.

(** ** The sway schedule *)

Lemma sway_decay_start_le n : 0 <= n < 2 ^ 32 -> sway_decay_start_tick n = 4 * n / 5.
Proof. intros. unfold sway_decay_start_tick, saturating_mul. f_equal. int_lia. Qed.

(** The multiplier starts at the bonus and ends at one, never leaves that range
    and never falls while the dive lasts. *)
Lemma dive_sway_scale_bounds e n :
  0 <= e -> 0 <= n < 2 ^ 32 -> 600 <= dive_sway_scale_milli e n <= 1000.
Proof.
  intros He Hn. unfold dive_sway_scale_milli. rewrite sway_decay_start_le by done.
  unfold DIVE_SWAY_BONUS_MILLI.
  destruct (Z.leb_spec e (4 * n / 5)); [lia|].
  destruct (Z.leb_spec n e), (Z.leb_spec n (4 * n / 5)); simpl; try lia.
  assert (0 <= saturating_mul 64 400 (e - 4 * n / 5) / (n - 4 * n / 5)).
  { apply Z.div_pos; [unfold saturating_mul|]; int_lia. }
  destruct (Z.gtb_spec (saturating_add 64 600 (saturating_mul 64 400 (e - 4 * n / 5) / (n - 4 * n / 5))) 1000);
    [lia|]. rewrite wrap_small; int_lia.
Qed.

Lemma dive_sway_scale_mono e1 e2 n :
  0 <= e1 <= e2 -> 0 <= n < 2 ^ 32 -> dive_sway_scale_milli e1 n <= dive_sway_scale_milli e2 n.
Proof.
  intros He Hn.
  pose proof (dive_sway_scale_bounds e1 n ltac:(lia) Hn).
  pose proof (dive_sway_scale_bounds e2 n ltac:(lia) Hn).
  unfold dive_sway_scale_milli in *. rewrite sway_decay_start_le in * by done.
  unfold DIVE_SWAY_BONUS_MILLI in *.
  destruct (Z.leb_spec e1 (4 * n / 5)), (Z.leb_spec e2 (4 * n / 5)); try lia.
  destruct (Z.leb_spec n e1), (Z.leb_spec n e2), (Z.leb_spec n (4 * n / 5)); simpl in *; try lia.
  set (a := saturating_mul 64 400 (e1 - 4 * n / 5) / (n - 4 * n / 5)) in *.
  set (b := saturating_mul 64 400 (e2 - 4 * n / 5) / (n - 4 * n / 5)) in *.
  assert (0 <= a <= b).
  { unfold a, b. split; [apply Z.div_pos; int_lia|]. apply Z.div_le_mono; [lia|int_lia]. }
  clearbody a b.
  destruct (Z.gtb_spec (saturating_add 64 600 a) 1000), (Z.gtb_spec (saturating_add 64 600 b) 1000);
    try lia; [int_lia|]. rewrite !wrap_small by int_lia. int_lia.
Qed.

(** The comments' production values. *)
Example nominal_airtime_60 : nominal_airtime_ticks 60 = NOMINAL_AIRTIME_TICKS_60_HZ.
Proof. by vm_compute. Qed.
Example sway_decay_start_60 :
  sway_decay_start_tick NOMINAL_AIRTIME_TICKS_60_HZ = DIVE_SWAY_DECAY_START_TICK_60_HZ.
Proof. by vm_compute. Qed.
