(* ===== verification/Aim.v ===== *)
(** * Riding handling and the aim of a shot ([combat/kernel.rs])

    What the weapon kernel derives from the rider's motion: the spread of the
    cone, the sway, the camera recoil, and the direction a shot takes inside the
    cone. The direction is computed in IEEE double precision; [sin], [cos] and
    [tan] are the platform's, whose precision the Rust standard library leaves
    open, so they are the operations of the interface [Libm]. *)

From Stdlib Require Import SpecFloat.
From S2P Require Import Prelude MachineInt SplitMix Ordered Clock Bytes Identifiers Stance Combat.
From S2P Require Import DiveMath.
Open Scope Z_scope.

(** ** The rider's handling *)

Inductive CombatGait := GaitIdle | GaitWalk | GaitTrot | GaitCanter | GaitGallop.
#[export] Instance CombatGait_eq_dec : EqDecision CombatGait.
Proof. solve_decision. Defined.

Record RidingState := mkRidingState {
  stance : RiderStance;
  dive_id : option DiveId;
  gait : CombatGait;
  planar_speed_mmps : Z;
  gait_top_speed_mmps : Z;
  yaw_rate_millidegrees_per_second : Z;
  stumbling : bool;
  ads : bool;
  sprint_gallop : bool;
  majestic_charge : bool;
}.
#[export] Instance RidingState_settable : Settable RidingState := fun r =>
  mkRidingState (stance r) (dive_id r) (gait r) (planar_speed_mmps r) (gait_top_speed_mmps r)
    (yaw_rate_millidegrees_per_second r) (stumbling r) (ads r) (sprint_gallop r)
    (majestic_charge r).
#[export] Instance RidingState_eq_dec : EqDecision RidingState.
Proof. solve_decision. Defined.

Definition riding_default : RidingState :=
  mkRidingState Mounted None GaitIdle 0 1 0 false false false false.

Definition is_dive_airborne (s : RiderStance) : bool :=
  match s with SaddleDiveAirborne => true | _ => false end.

Definition riding_is_consistent (self : RidingState) : bool :=
  Bool.eqb (is_dive_airborne (stance self)) (is_some (dive_id self))
  && is_known (stance self).

Definition speed_ratio_milli (self : RidingState) : Z :=
  if gait_top_speed_mmps self =? 0 then 0
  else
    let ratio := div_ceil (saturating_mul 64 (planar_speed_mmps self) 1000)
                   (gait_top_speed_mmps self) in
    default 1000 (try_from_uint 32 (Z.min ratio 1000)).

(** ** Spread *)

Definition ADS_SPREAD_NUMERATOR : Z := 3.
Definition ADS_SPREAD_DENOMINATOR : Z := 5.
Definition MAX_TURN_RATE_MILLIDEGREES_PER_SECOND : Z := 120000.
Definition MAX_TURN_SPREAD_PENALTY_DIVISOR : Z := 4.
Definition AIRBORNE_SPREAD_PENALTY_NUMERATOR : Z := 3.
Definition AIRBORNE_SPREAD_PENALTY_DENOMINATOR : Z := 2.

Definition effective_spread_millidegrees (stats : WeaponStats) (riding : RidingState) : Z :=
  let ratio := speed_ratio_milli riding in
  let target := if bool_decide (gait riding = GaitGallop)
                then gallop_spread_millidegrees stats else moving_spread_millidegrees stats in
  let base := base_spread_millidegrees stats in
  let interpolated := base + (saturating_sub target base * ratio + 500) / 1000 in
  let turn_fraction := Z.min (Z.abs (yaw_rate_millidegrees_per_second riding))
                         MAX_TURN_RATE_MILLIDEGREES_PER_SECOND in
  let turn_penalty := target * turn_fraction / MAX_TURN_RATE_MILLIDEGREES_PER_SECOND
                        / MAX_TURN_SPREAD_PENALTY_DIVISOR in
  let spread := saturating_add 64 interpolated turn_penalty in
  let spread :=
    if bool_decide (stance riding = MountedAirborne)
    then saturating_mul 64 spread AIRBORNE_SPREAD_PENALTY_NUMERATOR
           / AIRBORNE_SPREAD_PENALTY_DENOMINATOR
    else spread in
  let spread :=
    if ads riding
    then (saturating_mul 64 spread ADS_SPREAD_NUMERATOR + ADS_SPREAD_DENOMINATOR / 2)
           / ADS_SPREAD_DENOMINATOR
    else spread in
  default u32_max (try_from_uint 32 spread).

(** ** Sway samples and recoil *)

Record SwaySample := mkSwaySample { sway_pitch : Z; sway_yaw : Z }.
#[export] Instance SwaySample_eq_dec : EqDecision SwaySample.
Proof. solve_decision. Defined.
Definition sway_default : SwaySample := mkSwaySample 0 0.

Definition magnitude_millidegrees (self : SwaySample) : Z :=
  Z.max (Z.abs (sway_pitch self)) (Z.abs (sway_yaw self)).

Definition CHARGE_SWAY_MULTIPLIER_MILLI : Z := 700.

(** [i64] intermediate values: the product of an [i32] and a [u16] fits. *)
Definition scale_axis (value scale_milli : Z) : Z :=
  let product := value * scale_milli in
  let rounded := if 0 <=? product then (product + 500) / 1000
                 else - ((- product + 500) / 1000) in
  default (if rounded <? 0 then i32_min else i32_max) (try_from_int 32 rounded).

Definition scale_sway (sample : SwaySample) (scale_milli : Z) : SwaySample :=
  mkSwaySample (scale_axis (sway_pitch sample) scale_milli) (scale_axis (sway_yaw sample) scale_milli).

Definition RECOIL_RECOVERY_MILLIDEGREES_PER_SECOND : Z := 6000.

Record RecoilState := mkRecoilState { recoil_pitch : Z; recoil_yaw : Z }.
#[export] Instance RecoilState_eq_dec : EqDecision RecoilState.
Proof. solve_decision. Defined.
Definition recoil_default : RecoilState := mkRecoilState 0 0.

Definition move_toward_zero (value amount : Z) : Z :=
  if value >? 0 then Z.max (i32_clamp (value - amount)) 0
  else if value <? 0 then Z.min (i32_clamp (value + amount)) 0
  else 0.

Definition recover (self : RecoilState) (elapsed_ticks tick_rate : Z) : RecoilState :=
  let amount := saturating_mul 64 elapsed_ticks RECOIL_RECOVERY_MILLIDEGREES_PER_SECOND / tick_rate in
  let amount := default i32_max (try_from_int 32 amount) in
  mkRecoilState (move_toward_zero (recoil_pitch self) amount)
                (move_toward_zero (recoil_yaw self) amount).

Definition deterministic_signed (seed maximum : Z) : Z :=
  if maximum =? 0 then 0
  else
    let width := saturating_add 64 (saturating_mul 64 maximum 2) 1 in
    let sample := splitmix64 seed mod width in
    default i32_max (try_from_int 32 sample) - default i32_max (try_from_int 32 maximum).

Definition apply_impulse (self : RecoilState) (stats : WeaponStats) (seed : Z) : RecoilState :=
  let pitch := default i32_max (try_from_int 32 (recoil_vertical_millidegrees stats)) in
  let yaw := deterministic_signed (Z.lxor seed 0xd1b54a32d192ed03)
               (recoil_yaw_millidegrees stats) in
  mkRecoilState (i32_clamp (recoil_pitch self + pitch)) (i32_clamp (recoil_yaw self + yaw)).

(** The seed of the [shot_index]-th accepted shot. *)
Definition shot_spread_seed (lobby_seed : Z) (shooter_peer_id : PlayerId) (shot_index : Z) : Z :=
  let bytes := id_bytes shooter_peer_id in
  let first := be_value (take 8 bytes) in
  let second := be_value (take 8 (drop 8 bytes)) in
  let state := splitmix64 (Z.lxor lobby_seed 0x7370757266697265) in
  let state := splitmix64 (Z.lxor state first) in
  let state := splitmix64 (Z.lxor state second) in
  splitmix64 (Z.lxor state (wrapping_mul 64 shot_index 0x9e3779b97f4a7c15)).

(** ** Double precision *)

(** The platform's trigonometric functions. *)
Class Libm := { f64_sin : f64 -> f64; f64_cos : f64 -> f64; f64_tan : f64 -> f64 }.

(** The doubles nearest to pi and to its double, which share their mantissa. *)
Definition PI : f64 := S754_finite false 7074237752028440 (-51).
Definition TAU : f64 := S754_finite false 7074237752028440 (-50).
Definition F64_EPSILON : f64 := S754_finite false 4503599627370496 (-104).

(** [f64::round]: half away from zero, keeping the sign of a zero. *)
Definition f64_round (x : f64) : f64 :=
  match x with
  | S754_finite s m e =>
      if 0 <=? e then x
      else
        let r := (Zpos m + 2 ^ (- e - 1)) / 2 ^ (- e) in
        binary_normalize 53 1024 (if s then - r else r) 0 s
  | _ => x
  end.

(** [x as i32]: truncation toward zero, saturating, and zero for NaN. *)
Definition f64_as_i32 (x : f64) : Z :=
  match x with
  | S754_finite s m e =>
      let a := if 0 <=? e then Zpos m * 2 ^ e else Zpos m / 2 ^ (- e) in
      i32_clamp (if s then - a else a)
  | S754_infinity s => if s then i32_min else i32_max
  | S754_zero _ | S754_nan => 0
  end.

Inductive VectorQuantizationError := NonFinite | OutOfRange.

Definition quantize_component (value scale : f64) : result Z VectorQuantizationError :=
  if negb (f64_is_finite value) then Err NonFinite
  else
    let scaled := f64_round (f64_mul value scale) in
    if SFltb scaled (f64_of_Z i32_min) || SFltb (f64_of_Z i32_max) scaled then Err OutOfRange
    else Ok (f64_as_i32 scaled).

Definition from_components (x y z : f64) : result QuantizedDirection VectorQuantizationError :=
  match quantize_component x (f64_of_Z DIRECTION_UNITS) with
  | Err e => Err e
  | Ok x =>
      match quantize_component y (f64_of_Z DIRECTION_UNITS) with
      | Err e => Err e
      | Ok y =>
          match quantize_component z (f64_of_Z DIRECTION_UNITS) with
          | Err e => Err e
          | Ok z => Ok (mkQuantizedDirection x y z)
          end
      end
  end.

Record Vec3 := mkVec3 { vx : f64; vy : f64; vz : f64 }.

Definition Vec3_X : Vec3 := mkVec3 (f64_of_Z 1) (f64_of_Z 0) (f64_of_Z 0).
Definition Vec3_Y : Vec3 := mkVec3 (f64_of_Z 0) (f64_of_Z 1) (f64_of_Z 0).

Definition vec_from_direction (value : QuantizedDirection) : Vec3 :=
  mkVec3 (to_component (dir_x value)) (to_component (dir_y value)) (to_component (dir_z value)).
Definition vec_from_origin (value : QuantizedOrigin) : Vec3 :=
  mkVec3 (f64_of_Z (origin_x value)) (f64_of_Z (origin_y value)) (f64_of_Z (origin_z value)).

Definition vec_dot (self other : Vec3) : f64 :=
  f64_add (f64_add (f64_mul (vx self) (vx other)) (f64_mul (vy self) (vy other)))
          (f64_mul (vz self) (vz other)).
Definition vec_cross (self other : Vec3) : Vec3 :=
  mkVec3 (f64_sub (f64_mul (vy self) (vz other)) (f64_mul (vz self) (vy other)))
         (f64_sub (f64_mul (vz self) (vx other)) (f64_mul (vx self) (vz other)))
         (f64_sub (f64_mul (vx self) (vy other)) (f64_mul (vy self) (vx other))).
Definition vec_length (self : Vec3) : f64 := f64_sqrt (vec_dot self self).
Definition vec_add (self other : Vec3) : Vec3 :=
  mkVec3 (f64_add (vx self) (vx other)) (f64_add (vy self) (vy other)) (f64_add (vz self) (vz other)).
Definition vec_sub (self other : Vec3) : Vec3 :=
  mkVec3 (f64_sub (vx self) (vx other)) (f64_sub (vy self) (vy other)) (f64_sub (vz self) (vz other)).
Definition vec_scale (self : Vec3) (scalar : f64) : Vec3 :=
  mkVec3 (f64_mul (vx self) scalar) (f64_mul (vy self) scalar) (f64_mul (vz self) scalar).

Definition normalized (self : Vec3) : option Vec3 :=
  let length := vec_length self in
  if negb (f64_is_finite length) || SFleb length F64_EPSILON then None
  else Some (vec_scale self (f64_div (f64_of_Z 1) length)).

Definition aiming_basis (forward : Vec3) : option (Vec3 * Vec3) :=
  let helper := if SFltb (SFabs (vy forward)) (f64_div (f64_of_Z 99) (f64_of_Z 100))
                then Vec3_Y else Vec3_X in
  right_ ← normalized (vec_cross forward helper);
  up ← normalized (vec_cross right_ forward);
  Some (right_, up).

Definition unit_sample (seed : Z) : f64 :=
  f64_div (f64_of_Z (Z.shiftr (splitmix64 seed) 11)) (f64_of_Z (2 ^ 53)).

Definition radians_of_millidegrees (m : Z) : f64 :=
  f64_div (f64_mul (f64_div (f64_of_Z m) (f64_of_Z 1000)) PI) (f64_of_Z 180).

Section libm.
Context `{Libm}.

(** Peak-to-peak amplitude in millidegrees and frequency in millihertz. *)
Definition sway_profile (g : CombatGait) : Z * Z :=
  match g with
  | GaitIdle => (0, 0)
  | GaitWalk => (300, 1200)
  | GaitTrot => (600, 1800)
  | GaitCanter => (900, 2400)
  | GaitGallop => (1300, 3000)
  end.

Definition deterministic_sway (tick tick_rate : Z) (riding : RidingState) : SwaySample :=
  if (tick_rate =? 0) || bool_decide (gait riding = GaitIdle) then sway_default
  else
    let '(peak_to_peak_millidegrees, frequency_millihertz) := sway_profile (gait riding) in
    let amplitude := f64_div (f64_of_Z peak_to_peak_millidegrees) (f64_of_Z 2) in
    let cycles := f64_div (f64_mul (f64_of_Z tick) (f64_of_Z frequency_millihertz))
                    (f64_mul (f64_of_Z tick_rate) (f64_of_Z 1000)) in
    let phase := f64_mul TAU cycles in
    let turn_coupling :=
      Z.max (-450) (Z.min 450 (Z.quot (yaw_rate_millidegrees_per_second riding) 200)) in
    let sample := mkSwaySample
      (f64_as_i32 (f64_round (f64_mul (f64_sin phase) amplitude)))
      (wrap_i32 (f64_as_i32 (f64_round (f64_mul (f64_cos phase) amplitude)) + turn_coupling)) in
    if majestic_charge riding then scale_sway sample CHARGE_SWAY_MULTIPLIER_MILLI else sample.

Definition spread_direction (base : QuantizedDirection) (seed spread_millidegrees : Z)
    (sway : SwaySample) : option QuantizedDirection :=
  forward ← normalized (vec_from_direction base);
  '(right_, up) ← aiming_basis forward;
  let yaw_tangent := f64_tan (radians_of_millidegrees (sway_yaw sway)) in
  let pitch_tangent := f64_tan (radians_of_millidegrees (sway_pitch sway)) in
  swayed ← normalized (vec_add (vec_add forward (vec_scale right_ yaw_tangent))
                               (vec_scale up pitch_tangent));
  '(swayed_right, swayed_up) ← aiming_basis swayed;
  let radius_fraction := f64_sqrt (unit_sample (Z.lxor seed 0xa0761d6478bd642f)) in
  let azimuth := f64_mul TAU (unit_sample (Z.lxor seed 0xe7037ed1a0b428db)) in
  let cone_tangent := f64_tan (radians_of_millidegrees spread_millidegrees) in
  let radius := f64_mul radius_fraction cone_tangent in
  resolved ← normalized (vec_add (vec_add swayed
                 (vec_scale swayed_right (f64_mul radius (f64_cos azimuth))))
                 (vec_scale swayed_up (f64_mul radius (f64_sin azimuth))));
  match from_components (vx resolved) (vy resolved) (vz resolved) with
  | Ok d => Some d
  | Err _ => None
  end.
End libm.

(** A coarse but total platform, to run the model with. *)
Definition small_angle_libm : Libm := {|
  f64_sin := fun x => x; f64_cos := fun _ => f64_of_Z 1; f64_tan := fun x => x |}.

Example round_half_away :
  (fun n => f64_as_i32 (f64_round (f64_div (f64_of_Z n) (f64_of_Z 2)))) <$> [-3; -1; 0; 1; 3; 4]
  = [-2; -1; 0; 1; 2; 2].
Proof. by vm_compute. Qed.
Example components_roundtrip :
  let d := mkQuantizedDirection 600000 0 (-800000) in
  from_components (to_component (dir_x d)) (to_component (dir_y d)) (to_component (dir_z d)) = Ok d.
Proof. by vm_compute. Qed.
Example spread_direction_runs :
  spread_direction (H := small_angle_libm) (mkQuantizedDirection 0 0 (-1000000)) 7 800 sway_default
  = Some (mkQuantizedDirection 8311 46451 (-998886)).
Proof. by vm_compute. Qed.

(** ** Recoil *)

Definition recoil_ok (r : RecoilState) : Prop :=
  in_sint 32 (recoil_pitch r) /\ in_sint 32 (recoil_yaw r).

(** Recovery shrinks an axis by the amount, stops at zero, and keeps its sign. *)
Lemma move_toward_zero_spec v a :
  in_sint 32 v -> 0 <= a <= i32_max ->
  move_toward_zero v a = Z.sgn v * Z.max 0 (Z.abs v - a).
Proof.
  intros Hv Ha. unfold move_toward_zero.
  destruct (Z.gtb_spec v 0); [rewrite Z.sgn_pos by lia; int_lia|].
  destruct (Z.ltb_spec v 0); [rewrite Z.sgn_neg by lia; int_lia|].
  assert (v = 0) as -> by lia. done.
Qed.

Lemma try_from_int_amount n : 0 <= n -> 0 <= default i32_max (try_from_int 32 n) <= i32_max.
Proof.
  intros Hn. unfold try_from_int.
  destruct (_ && _) eqn:E; cbn [default from_option]; unfold id; [|int_lia].
  apply andb_true_iff in E as [_ E]. int_lia.
Qed.

Lemma recover_spec r e rate :
  recoil_ok r -> 0 <= e -> 0 < rate ->
  recoil_ok (recover r e rate) /\
  Z.abs (recoil_pitch (recover r e rate)) <= Z.abs (recoil_pitch r) /\
  Z.abs (recoil_yaw (recover r e rate)) <= Z.abs (recoil_yaw r).
Proof.
  intros [Hp Hy] He Hr. unfold recover. cbn [recoil_pitch recoil_yaw].
  set (a := default i32_max _).
  assert (0 <= a <= i32_max).
  { apply try_from_int_amount, Z.div_pos; [|done].
    unfold RECOIL_RECOVERY_MILLIDEGREES_PER_SECOND. int_lia. }
  rewrite !move_toward_zero_spec by done. unfold recoil_ok, in_sint in *. cbn [recoil_pitch recoil_yaw].
  clearbody a. nia.
Qed.

Lemma deterministic_signed_range seed m :
  0 <= m < 2 ^ 16 -> - m <= deterministic_signed seed m <= m.
Proof.
  intros Hm. unfold deterministic_signed. destruct (Z.eqb_spec m 0); [lia|].
  change (2 ^ 16) with 65536 in Hm.
  replace (saturating_add 64 (saturating_mul 64 m 2) 1) with (2 * m + 1) by int_lia.
  pose proof (Z.mod_pos_bound (splitmix64 seed) (2 * m + 1) ltac:(lia)) as Hb.
  set (x := splitmix64 seed mod (2 * m + 1)) in *. clearbody x.
  rewrite !try_from_int_ok by int_lia. simpl. lia.
Qed.

Lemma apply_impulse_ok r stats seed : recoil_ok (apply_impulse r stats seed).
Proof. split; cbn [apply_impulse recoil_pitch recoil_yaw]; int_lia. Qed.

(** ** Sway and spread *)

(** Scaling by at most one never enlarges a sample. *)
Lemma scale_axis_le v s :
  in_sint 32 v -> 0 <= s <= 1000 -> Z.abs (scale_axis v s) <= Z.abs v.
Proof.
  intros Hv Hs. unfold scale_axis. set (r := if 0 <=? v * s then _ else _).
  assert (Hr : Z.abs r <= Z.abs v).
  { unfold r. destruct (Z.leb_spec 0 (v * s)).
    - assert (0 <= (v * s + 500) / 1000) by (apply Z.div_pos; lia).
      assert ((v * s + 500) / 1000 < Z.abs v + 1) by (apply Z.div_lt_upper_bound; nia). lia.
    - assert (0 <= (- (v * s) + 500) / 1000) by (apply Z.div_pos; lia).
      assert ((- (v * s) + 500) / 1000 < Z.abs v + 1) by (apply Z.div_lt_upper_bound; nia). lia. }
  clearbody r. destruct (decide (in_sint 32 r)).
  - rewrite try_from_int_ok by done. simpl. done.
  - destruct (try_from_int 32 r) eqn:E; [apply try_from_int_Some in E as [_ ?]; done|].
    cbn [default from_option]. destruct (Z.ltb_spec r 0); int_lia.
Qed.

Definition handling_ok (r : RidingState) : Prop :=
  u32 (planar_speed_mmps r) /\ u32 (gait_top_speed_mmps r) /\
  i32 (yaw_rate_millidegrees_per_second r).

Lemma speed_ratio_range r : handling_ok r -> 0 <= speed_ratio_milli r <= 1000.
Proof.
  intros (Hs & Ht & _). unfold speed_ratio_milli. destruct (Z.eqb_spec (gait_top_speed_mmps r) 0); [lia|].
  assert (0 <= div_ceil (saturating_mul 64 (planar_speed_mmps r) 1000) (gait_top_speed_mmps r)).
  { apply Z.div_pos; int_lia. }
  unfold try_from_uint. rewrite (proj2 (uint_ok_true _ _)) by int_lia.
  cbn [default from_option]. unfold id. lia.
Qed.

Lemma speed_ratio_mono r1 r2 :
  handling_ok r1 -> handling_ok r2 -> gait_top_speed_mmps r1 = gait_top_speed_mmps r2 ->
  planar_speed_mmps r1 <= planar_speed_mmps r2 -> speed_ratio_milli r1 <= speed_ratio_milli r2.
Proof.
  intros H1 H2 Ht Hs. pose proof (speed_ratio_range _ H1). pose proof (speed_ratio_range _ H2).
  unfold speed_ratio_milli in *. rewrite <- Ht in *.
  destruct (Z.eqb_spec (gait_top_speed_mmps r1) 0); [done|].
  destruct H1 as (Hs1 & Ht1 & _), H2 as (Hs2 & _ & _).
  assert (0 <= div_ceil (saturating_mul 64 (planar_speed_mmps r1) 1000) (gait_top_speed_mmps r1)
          <= div_ceil (saturating_mul 64 (planar_speed_mmps r2) 1000) (gait_top_speed_mmps r1)).
  { split; [apply Z.div_pos; int_lia|]. apply Z.div_le_mono; int_lia. }
  unfold try_from_uint. rewrite !(proj2 (uint_ok_true _ _)) by int_lia.
  cbn [default from_option]. unfold id. lia.
Qed.

(** The rows' spreads are ordered: aiming at rest, moving, galloping. *)
Lemma weapon_spreads w :
  0 < base_spread_millidegrees (weapon_stats w) <= moving_spread_millidegrees (weapon_stats w) /\
  moving_spread_millidegrees (weapon_stats w) <= gallop_spread_millidegrees (weapon_stats w) < 4000.
Proof. destruct w; by vm_compute. Qed.

(** The cone before the stance and the sights are taken into account. *)
Definition riding_spread (stats : WeaponStats) (r : RidingState) : Z :=
  let target := if bool_decide (gait r = GaitGallop)
                then gallop_spread_millidegrees stats else moving_spread_millidegrees stats in
  let base := base_spread_millidegrees stats in
  base + ((target - base) * speed_ratio_milli r + 500) / 1000
  + target * Z.min (Z.abs (yaw_rate_millidegrees_per_second r)) 120000 / 120000 / 4.

Lemma riding_spread_range w r :
  handling_ok r ->
  base_spread_millidegrees (weapon_stats w) <= riding_spread (weapon_stats w) r
    <= gallop_spread_millidegrees (weapon_stats w) + gallop_spread_millidegrees (weapon_stats w) / 4.
Proof.
  intros Hr. pose proof (speed_ratio_range r Hr) as Hq. pose proof (weapon_spreads w) as [Hb Hg].
  unfold riding_spread. set (s := weapon_stats w) in *. set (q := speed_ratio_milli r) in *.
  set (t := if bool_decide (gait r = GaitGallop) then _ else _).
  assert (Ht : moving_spread_millidegrees s <= t <= gallop_spread_millidegrees s)
    by (unfold t; case_bool_decide; lia).
  set (m := Z.min _ 120000). assert (Hm : 0 <= m <= 120000) by lia.
  clearbody t m q s.
  assert (0 <= ((t - base_spread_millidegrees s) * q + 500) / 1000 <= t - base_spread_millidegrees s).
  { split; [apply Z.div_pos; nia|]. apply Z.lt_succ_r, Z.div_lt_upper_bound; nia. }
  assert (0 <= t * m / 120000 <= t).
  { split; [apply Z.div_pos; nia|]. apply Z.div_le_upper_bound; nia. }
  assert (0 <= t * m / 120000 / 4 <= gallop_spread_millidegrees s / 4).
  { split; [apply Z.div_pos; lia|]. apply Z.div_le_mono; lia. }
  lia.
Qed.

Lemma effective_spread_eq w r :
  handling_ok r ->
  effective_spread_millidegrees (weapon_stats w) r =
    let s := riding_spread (weapon_stats w) r in
    let s := if bool_decide (stance r = MountedAirborne) then s * 3 / 2 else s in
    if ads r then (s * 3 + 2) / 5 else s.
Proof.
  intros Hr. pose proof (riding_spread_range w r Hr) as Hs.
  pose proof (speed_ratio_range r Hr) as Hq. pose proof (weapon_spreads w) as [Hb Hg].
  unfold effective_spread_millidegrees.
  set (t := if bool_decide (gait r = GaitGallop) then _ else _).
  assert (Ht : moving_spread_millidegrees (weapon_stats w) <= t <= gallop_spread_millidegrees (weapon_stats w))
    by (unfold t; case_bool_decide; lia).
  unfold MAX_TURN_RATE_MILLIDEGREES_PER_SECOND, MAX_TURN_SPREAD_PENALTY_DIVISOR,
    AIRBORNE_SPREAD_PENALTY_NUMERATOR, AIRBORNE_SPREAD_PENALTY_DENOMINATOR,
    ADS_SPREAD_NUMERATOR, ADS_SPREAD_DENOMINATOR.
  assert (saturating_sub t (base_spread_millidegrees (weapon_stats w))
          = t - base_spread_millidegrees (weapon_stats w)) as -> by int_lia.
  assert (E : riding_spread (weapon_stats w) r =
    base_spread_millidegrees (weapon_stats w) +
    ((t - base_spread_millidegrees (weapon_stats w)) * speed_ratio_milli r + 500) / 1000
    + t * Z.min (Z.abs (yaw_rate_millidegrees_per_second r)) 120000 / 120000 / 4) by reflexivity.
  set (a := base_spread_millidegrees (weapon_stats w) + _) in *.
  set (b := t * _ / 120000 / 4) in *.
  set (x := riding_spread (weapon_stats w) r) in *.
  assert (Hx : 0 < x < 5000).
  { clearbody x. clear - Hs Hb Hg. div_lia. }
  assert (saturating_add 64 a b = x) as -> by (rewrite E in *; int_lia).
  clearbody x. clear - Hx.
  assert (Hmul : saturating_mul 64 x 3 = x * 3) by int_lia.
  assert (Hfin : forall n, 0 <= n < 10000 -> default u32_max (try_from_uint 32 n) = n).
  { intros n Hn. unfold try_from_uint. by rewrite (proj2 (uint_ok_true _ _)) by int_lia. }
  case_bool_decide; destruct (ads r); rewrite ?Hmul.
  - assert (Hy : 0 <= x * 3 / 2 < 7500) by (clear - Hx; div_lia).
    set (y := x * 3 / 2) in *. clearbody y.
    assert (saturating_mul 64 y 3 = y * 3) as -> by int_lia. apply Hfin. clear - Hy. div_lia.
  - apply Hfin. clear - Hx. div_lia.
  - apply Hfin. clear - Hx. div_lia.
  - apply Hfin. lia.
Qed.

Lemma riding_spread_mono w r1 r2 :
  handling_ok r1 -> handling_ok r2 -> gait r1 = gait r2 ->
  gait_top_speed_mmps r1 = gait_top_speed_mmps r2 ->
  planar_speed_mmps r1 <= planar_speed_mmps r2 ->
  Z.abs (yaw_rate_millidegrees_per_second r1) <= Z.abs (yaw_rate_millidegrees_per_second r2) ->
  riding_spread (weapon_stats w) r1 <= riding_spread (weapon_stats w) r2.
Proof.
  intros H1 H2 Hg Ht Hs Hy.
  pose proof (speed_ratio_mono r1 r2 H1 H2 Ht Hs). pose proof (weapon_spreads w) as [Hb Hb'].
  unfold riding_spread. rewrite <- Hg.
  set (t := if bool_decide (gait r1 = GaitGallop) then _ else _).
  assert (moving_spread_millidegrees (weapon_stats w) <= t) by (unfold t; case_bool_decide; lia).
  clearbody t. apply Z.add_le_mono; [apply Z.add_le_mono; [done|]; apply Z.div_le_mono; nia|].
  apply Z.div_le_mono; [done|]. apply Z.div_le_mono; nia.
Qed.

(** The cone of every rifle: riding faster or turning harder at the same gait
    never narrows it, aiming down the sights never widens it, and it always lies
    between three fifths of the rifle's rest cone and 7.5 degrees, so the
    conversion to [u32] never falls back. *)
Theorem spread_rule w r1 r2 :
  handling_ok r1 -> handling_ok r2 ->
  gait r1 = gait r2 -> gait_top_speed_mmps r1 = gait_top_speed_mmps r2 ->
  stance r1 = stance r2 -> (ads r2 = true -> ads r1 = true) ->
  planar_speed_mmps r1 <= planar_speed_mmps r2 ->
  Z.abs (yaw_rate_millidegrees_per_second r1) <= Z.abs (yaw_rate_millidegrees_per_second r2) ->
  effective_spread_millidegrees (weapon_stats w) r1
    <= effective_spread_millidegrees (weapon_stats w) r2 /\
  base_spread_millidegrees (weapon_stats w) * 3 / 5
    <= effective_spread_millidegrees (weapon_stats w) r1 /\
  effective_spread_millidegrees (weapon_stats w) r2 < 7500.
Proof.
  intros H1 H2 Hg Ht Hst Hads Hs Hy.
  pose proof (riding_spread_mono w r1 r2 H1 H2 Hg Ht Hs Hy) as Hm.
  pose proof (riding_spread_range w r1 H1) as [Hb1 _].
  pose proof (riding_spread_range w r2 H2) as [_ Hb2].
  pose proof (weapon_spreads w) as [Hw Hw'].
  rewrite !effective_spread_eq by done. cbv zeta. rewrite <- Hst.
  set (x := riding_spread (weapon_stats w) r1) in *. set (y := riding_spread (weapon_stats w) r2) in *.
  set (b := base_spread_millidegrees _) in *. set (g := gallop_spread_millidegrees _) in *.
  clearbody x y b g. clear - Hads Hm Hb1 Hb2 Hw Hw'.
  assert (y < 5000) by div_lia. clear Hb2.
  case_bool_decide; destruct (ads r1), (ads r2);
    try (by destruct (diff_false_true (Hads eq_refl))); clear Hads; div_lia.
Qed.

Lemma spread_rule_witness :
  let still := riding_default <| gait := GaitGallop |> <| gait_top_speed_mmps := 14000 |>
                              <| ads := true |> in
  let galloping := still <| planar_speed_mmps := 14000 |> <| ads := false |> in
  effective_spread_millidegrees DUSTWALKER_STATS still
    <= effective_spread_millidegrees DUSTWALKER_STATS galloping /\
  effective_spread_millidegrees DUSTWALKER_STATS galloping = 2600.
Proof.
  intros still galloping. split; [|by vm_compute].
  apply (spread_rule Dustwalker still galloping); try reflexivity; try (unfold handling_ok; simpl; int_lia);
    simpl; done.
Defined.

(** ** Directions that pass the check of the wire

    A direction that [is_normalized] accepts is far from zero in double precision, so
    [normalized] never refuses it. The length is a rounded square root: were it at most
    the machine epsilon, its difference from one would round to a number between one
    half and one, which is more than a thousandth. *)

Lemma digits2_pos_spec p : 2 ^ (Zpos (digits2_pos p) - 1) <= Zpos p < 2 ^ Zpos (digits2_pos p).
Proof.
  induction p as [p IH|p IH|]; cbn [digits2_pos]; [| |done].
  all: rewrite Pos2Z.inj_succ; replace (Z.succ _ - 1) with (Z.succ (Zpos (digits2_pos p) - 1)) by lia;
    rewrite !Z.pow_succ_r by lia; lia.
Qed.
Lemma digits_unique m k : 2 ^ (k - 1) <= m < 2 ^ k -> 0 < k -> Zdigits2 m = k.
Proof.
  intros Hm Hk. assert (0 < 2 ^ (k - 1)) by (apply Z.pow_pos_nonneg; lia).
  destruct m as [|p|p]; [lia| |lia]. cbn. pose proof (digits2_pos_spec p) as Hp.
  assert (k - 1 < Zpos (digits2_pos p)) by (apply (Z.pow_lt_mono_r_iff 2); lia).
  assert (Zpos (digits2_pos p) - 1 < k) by (apply (Z.pow_lt_mono_r_iff 2); lia). lia.
Qed.

Lemma shr_iter n mrs : 0 <= shr_m mrs -> shr_m (SpecFloat.iter_pos shr_1 n mrs) = shr_m mrs / 2 ^ Zpos n.
Proof.
  assert (Hone : forall mrs, 0 <= shr_m mrs -> shr_m (shr_1 mrs) = shr_m mrs / 2).
  { intros [m r s] Hm. cbn in Hm. destruct m as [|[p|p|]|p]; cbn; try done; [|].
    - rewrite Pos2Z.inj_xI. apply (Z.div_unique_pos _ 2 _ 1); lia.
    - rewrite Pos2Z.inj_xO. apply (Z.div_unique_pos _ 2 _ 0); lia. }
  revert mrs. induction n as [n IH|n IH|]; intros mrs Hm; cbn [SpecFloat.iter_pos].
  - assert (0 <= shr_m (shr_1 mrs)) by (rewrite Hone by done; apply Z.div_pos; lia).
    rewrite !IH, Hone by (rewrite ?IH by done; try apply Z.div_pos; lia).
    rewrite !Z.div_div, <- Z.pow_add_r, <- Z.pow_succ_r by (try apply Z.pow_nonzero; lia). f_equal. f_equal. lia.
  - rewrite !IH by (rewrite ?IH by done; try apply Z.div_pos; lia).
    rewrite Z.div_div, <- Z.pow_add_r by (try apply Z.pow_nonzero; lia). f_equal. f_equal. lia.
  - by rewrite Hone.
Qed.
Lemma shr_fexp_spec m e l : 0 <= m -> let n := Z.max 0 (fexp 53 1024 (Zdigits2 m + e) - e) in
  shr_m (shr_fexp 53 1024 m e l).1 = m / 2 ^ n /\ (shr_fexp 53 1024 m e l).2 = e + n.
Proof.
  intros Hm. cbv zeta. unfold shr_fexp. assert (Hl : shr_m (shr_record_of_loc m l) = m) by (by destruct l as [|[]]).
  destruct (fexp 53 1024 (Zdigits2 m + e) - e) as [|n|n] eqn:Hn; cbn [shr fst snd].
  - rewrite Hl, Z.max_id, Z.pow_0_r, Z.div_1_r. split; lia.
  - rewrite shr_iter, Hl by lia. by replace (Z.max 0 (Zpos n)) with (Zpos n) by lia.
  - replace (Z.max 0 (Zneg n)) with 0 by lia. rewrite Hl, Z.pow_0_r, Z.div_1_r. split; lia.
Qed.
(** A mantissa that was shifted has at most 53 digits. *)
Lemma shr_fexp_digits m e l : 0 <= m -> 0 <= shr_m (shr_fexp 53 1024 m e l).1 < 2 ^ 53.
Proof.
  intros Hm. destruct (shr_fexp_spec m e l Hm) as [-> _]. set (n := Z.max 0 _).
  assert (Hn : Zdigits2 m - 53 <= n /\ 0 <= n) by (unfold n, fexp; lia). clearbody n.
  destruct (Z.eq_dec m 0) as [->|Hne]; [by rewrite Z.div_0_l by (apply Z.pow_nonzero; lia)|].
  assert (Hlt : m < 2 ^ (53 + n)).
  { destruct m as [|p|p]; [lia| |lia]. pose proof (digits2_pos_spec p) as [_ Hp]. cbn in Hn.
    eapply Z.lt_le_trans; [exact Hp|]. apply Z.pow_le_mono_r; lia. }
  assert (0 < 2 ^ n) by (apply Z.pow_pos_nonneg; lia). rewrite Z.pow_add_r in Hlt by lia.
  split; [apply Z.div_pos; lia|]. apply Z.div_lt_upper_bound; lia.
Qed.

Lemma nearest_even_bounds m l : m <= round_nearest_even m l <= m + 1.
Proof. destruct l as [|[]]; cbn; [lia| |lia..]. destruct (Z.even m); lia. Qed.
Lemma round_aux_mantissa s m e l s' m' e' : 0 <= m ->
  binary_round_aux 53 1024 s m e l = S754_finite s' m' e' -> s' = s /\ Zpos m' < 2 ^ 53.
Proof.
  intros Hm. unfold binary_round_aux. pose proof (shr_fexp_digits m e l Hm) as Hd.
  destruct (shr_fexp 53 1024 m e l) as [mrs e1]. cbn [fst] in Hd.
  pose proof (nearest_even_bounds (shr_m mrs) (loc_of_shr_record mrs)) as Hr.
  pose proof (shr_fexp_digits (round_nearest_even (shr_m mrs) (loc_of_shr_record mrs)) e1 loc_Exact ltac:(lia)) as Hd2.
  destruct (shr_fexp 53 1024 _ e1 loc_Exact) as [mrs2 e2]. cbn [fst] in Hd2.
  destruct (shr_m mrs2); [done| |done]. destruct (_ <=? _); [|done]. intros [= <- <- <-]. split; [done|lia].
Qed.
(** A square root is no negative number, and its mantissa has at most 53 digits. *)
Lemma f64_sqrt_mantissa x s m e : f64_sqrt x = S754_finite s m e -> s = false /\ Zpos m < 2 ^ 53.
Proof.
  unfold f64_sqrt, SFsqrt. destruct x as [| | |[] mx ex]; try done; [by destruct s0|].
  destruct (SFsqrt_core_binary _ _ _ _) as [[mz ez] lz] eqn:Hc. apply round_aux_mantissa.
  unfold SFsqrt_core_binary in Hc. cbv zeta in Hc. destruct (Z.sqrtrem _) as [q r] eqn:Hq. injection Hc as <- <- <-.
  match type of Hq with Z.sqrtrem ?a = _ => pose proof (Z.sqrtrem_sqrt a) as Hs; pose proof (Z.sqrt_nonneg a) as Hnn end.
  rewrite Hq in Hs. cbn [fst] in Hs. rewrite Hs. exact Hnn.
Qed.

(** Below the machine epsilon nothing is left of a number beside one. *)
Lemma f64_sub_one m e : Zpos m < 2 ^ 53 -> e <= -104 ->
  exists m' e', f64_sub (S754_finite false m e) (f64_of_Z 1) = S754_finite true m' e' /\ -53 <= e'.
Proof.
  intros Hm He. change (f64_of_Z 1) with (S754_finite false 4503599627370496 (-52)). unfold f64_sub, SFsub.
  cbn [cond_Zopp]. rewrite Z.min_l by lia. unfold shl_align at 1. rewrite Z.sub_diag. cbn [fst].
  unfold shl_align. destruct (e - -52) as [|n|n] eqn:Hn; [lia|lia|]. cbn [fst].
  assert (Hone : Zpos (Pos.iter xO 4503599627370496%positive n) = 2 ^ (- e)).
  { replace (- e) with (52 + Zpos n) by lia. rewrite Z.pow_add_r by lia. change (2 ^ 52) with 4503599627370496. clear.
    induction n as [|n IH] using Pos.peano_ind; [done|].
    rewrite Pos.iter_succ, Pos2Z.inj_xO, IH, Pos2Z.inj_succ, Z.pow_succ_r by lia. lia. }
  rewrite Hone. assert (Hhalf : 2 ^ (- e) = 2 * 2 ^ (- e - 1)) by (rewrite <- Z.pow_succ_r by lia; f_equal; lia).
  assert (Hbig : 2 ^ 53 <= 2 ^ (- e - 1)) by (apply Z.pow_le_mono_r; lia).
  assert (Hdig : Zdigits2 (2 ^ (- e) - Zpos m) = - e) by (apply digits_unique; lia).
  replace (Zpos m - 2 ^ (- e)) with (- (2 ^ (- e) - Zpos m)) by lia.
  set (rest := 2 ^ (- e) - Zpos m) in *. assert (Hrest : 2 ^ (- e - 1) <= rest < 2 ^ (- e)) by lia.
  destruct rest as [|p|p] eqn:Hp; [lia| |lia]. change (- Zpos p) with (Zneg p). cbn [binary_normalize]. unfold binary_round, shl_align.
  change (Zdigits2 (Zpos p)) with (Zpos (digits2_pos p)) in Hdig. rewrite Hdig. replace (- e + e) with 0 by lia.
  change (fexp 53 1024 0) with (-53). destruct (-53 - e) as [|k|k] eqn:Hk; [lia| |lia].
  unfold binary_round_aux. destruct (shr_fexp_spec (Zpos p) e loc_Exact ltac:(lia)) as [H1 H2].
  change (Zdigits2 (Zpos p)) with (Zpos (digits2_pos p)) in H1, H2. rewrite Hdig in H1, H2. replace (- e + e) with 0 in H1, H2 by lia. change (fexp 53 1024 0) with (-53) in H1, H2.
  rewrite Hk in H1, H2. destruct (shr_fexp 53 1024 (Zpos p) e loc_Exact) as [mrs e1]. cbn [fst snd] in H1, H2. cbv beta iota.
  assert (He1 : e1 = -53) by lia. assert (Hm1 : 2 ^ 52 <= shr_m mrs < 2 ^ 53).
  { rewrite H1. replace (Z.max 0 (Zpos k)) with (- e - 53) by lia. assert (0 < 2 ^ (- e - 53)) by (apply Z.pow_pos_nonneg; lia).
    split; [apply Z.div_le_lower_bound|apply Z.div_lt_upper_bound]; try lia; rewrite <- Z.pow_add_r by lia.
    - replace (- e - 53 + 52) with (- e - 1) by lia. lia.
    - replace (- e - 53 + 53) with (- e) by lia. lia. }
  pose proof (nearest_even_bounds (shr_m mrs) (loc_of_shr_record mrs)) as Hr.
  set (m1 := round_nearest_even (shr_m mrs) (loc_of_shr_record mrs)) in *. clearbody m1. clear H2. subst e1.
  assert (Hd1 : Zdigits2 m1 = 53 \/ m1 = 2 ^ 53).
  { destruct (Z.eq_dec m1 (2 ^ 53)); [by right|left]. apply digits_unique; lia. }
  destruct Hd1 as [Hd1| ->].
  - destruct (shr_fexp_spec m1 (-53) loc_Exact ltac:(lia)) as [H3 H4]. rewrite Hd1 in H3, H4.
    destruct (shr_fexp 53 1024 m1 (-53) loc_Exact) as [mrs2 e2]. cbn [fst snd] in H3, H4. cbv beta iota.
    change (2 ^ Z.max 0 (fexp 53 1024 (53 + -53) - -53)) with 1 in H3. rewrite Z.div_1_r in H3.
    change (e2 = -53) in H4. subst e2. rewrite H3. destruct m1 as [|q|q]; [lia| |lia]. by exists q, (-53).
  - by exists 4503599627370496%positive, (-52).
Qed.

(** What the target registry relies on when it unwraps the direction of a horse. *)
Lemma normalized_direction d : is_normalized d = true -> is_Some (normalized (vec_from_direction d)).
Proof.
  unfold is_normalized, normalized. change (vec_length (vec_from_direction d)) with (direction_length d).
  set (x := direction_length d). assert (Hx : forall s m e, x = S754_finite s m e -> s = false /\ Zpos m < 2 ^ 53)
    by (intros s m e; apply f64_sqrt_mantissa). clearbody x.
  destruct (f64_is_finite x) eqn:Hfin; [|done]. cbn [negb orb andb].
  destruct (SFleb x F64_EPSILON) eqn:Hle; [|by eexists]. intros Hone. exfalso.
  destruct x as [[]|[]| |s m e]; try done. destruct (Hx s m e eq_refl) as [-> Hm].
  assert (He : e <= -104).
  { change F64_EPSILON with (S754_finite false 4503599627370496 (-104)) in Hle. unfold SFleb, SFcompare in Hle. clear -Hle.
    destruct (e ?= -104) eqn:Hc; [apply Z.compare_eq in Hc; lia|rewrite Z.compare_lt_iff in Hc; lia|done]. }
  destruct (f64_sub_one m e Hm He) as (m' & e' & Heq & He'). rewrite Heq in Hone.
  change DIRECTION_NORMALIZATION_EPSILON with (S754_finite false 4611686018427388 (-62)) in Hone.
  unfold SFleb, SFcompare, SFabs in Hone. clear -Hone He'. destruct (e' ?= -62) eqn:Hc; [apply Z.compare_eq in Hc; lia|rewrite Z.compare_lt_iff in Hc; lia|done].
Qed.
