(* ===== verification/WeaponKernel.v ===== *)
(** * The weapon kernel ([combat/kernel.rs], [CombatKernel])

    Ammo, cadence, reload, recoil, the saddle-dive firing window and pickups of
    one shooter. Every operation of the source is one definition; a method that
    keeps mutations made before an early return gives the new state with both
    outcomes. *)

From S2P Require Import Prelude MachineInt SplitMix Ordered Clock Bytes Identifiers Stance Combat.
From S2P Require Import DiveMath Aim.
Open Scope Z_scope.

Definition PICKUP_RANGE_MM : Z := 3000.
Definition DROPPED_WEAPON_LIFETIME_MS : Z := 30000.

#[export] Instance WeaponId_countable : Countable WeaponId.
Proof.
  apply (inj_countable weapon_as_u8
    (fun z => match weapon_try_from_u8 z with Ok w => Some w | Err _ => None end)).
  by intros [].
Defined.

(** ** Data *)

Record WeaponAmmo := mkWeaponAmmo { magazine : Z; reserve : Z }.
#[export] Instance WeaponAmmo_settable : Settable WeaponAmmo :=
  fun a => mkWeaponAmmo (magazine a) (reserve a).
#[export] Instance WeaponAmmo_eq_dec : EqDecision WeaponAmmo.
Proof. solve_decision. Defined.
Definition ammo_default : WeaponAmmo := mkWeaponAmmo 0 0.

Definition ammo_full (stats : WeaponStats) : WeaponAmmo :=
  mkWeaponAmmo (magazine_capacity stats) (reserve_capacity stats).

Definition ammo_clamped (self : WeaponAmmo) (stats : WeaponStats) : WeaponAmmo :=
  mkWeaponAmmo (Z.min (magazine self) (magazine_capacity stats))
               (Z.min (reserve self) (reserve_capacity stats)).

Record ReloadSnapshot := mkReloadSnapshot {
  reload_weapon : WeaponId;
  active_ticks : Z;
  required_ticks : Z;
}.
#[export] Instance ReloadSnapshot_eq_dec : EqDecision ReloadSnapshot.
Proof. solve_decision. Defined.

Definition progress_milli (self : ReloadSnapshot) : Z :=
  if required_ticks self =? 0 then 1000
  else
    let progress := saturating_mul 64 (active_ticks self) 1000 / required_ticks self in
    default 1000 (try_from_uint 16 (Z.min progress 1000)).

Record AdvanceOutcome := mkAdvanceOutcome { reload_completed : bool; ammo_changed : bool }.
Definition advance_default : AdvanceOutcome := mkAdvanceOutcome false false.

Inductive InvalidTickRate := InvalidTickRate_.
Inductive TickRegression := TickRegression_.

Inductive ReloadStartError :=
| ReloadTickReplay | ReloadHolstered | ReloadAirborne | ReloadDismounted
| AlreadyReloading | MagazineFull | NoReserve.

Inductive ShotRejectionReason :=
| UnknownShooter | RejectRiderSnapshot | TickReplay | TickStale | TickFuture | RejectWeapon
| SpreadSeed | Rate | Empty | Reloading | InvalidDirection | OriginLeash | Holstered
| Dismounted | Airborne | Stumble.

Inductive DiveFireRejection := DiveContextMismatch | DiveWeaponMismatch | DiveClosed | ShotCap.

Record FireRejection := mkFireRejection {
  wire_reason : ShotRejectionReason;
  dive_reason : option DiveFireRejection;
}.
Definition reject_wire (r : ShotRejectionReason) : FireRejection := mkFireRejection r None.
Definition reject_dive (r : ShotRejectionReason) (d : DiveFireRejection) : FireRejection :=
  mkFireRejection r (Some d).

Inductive DiveContextError :=
| ContextTickReplay | ContextWeaponMismatch | DiveAlreadyOpen | ContextMismatch.

Record DiveFireContext := mkDiveFireContext {
  context_dive_id : DiveId;
  launch_tick : SimulationTick;
  launch_weapon : WeaponId;
  accepted_count : Z;
  prelaunch_horizontal_velocity_mmps : Z * Z;
  context_airtime_ticks : Z;
  closed_to_new_shots : bool;
  launch_handling : RidingState;
}.
#[export] Instance DiveFireContext_settable : Settable DiveFireContext := fun c =>
  mkDiveFireContext (context_dive_id c) (launch_tick c) (launch_weapon c) (accepted_count c)
    (prelaunch_horizontal_velocity_mmps c) (context_airtime_ticks c) (closed_to_new_shots c)
    (launch_handling c).

Record PreparedShot := mkPreparedShot {
  shot_tick : SimulationTick;
  shot_weapon : WeaponId;
  spread_seed : Z;
  resolved_direction : QuantizedDirection;
  spread_millidegrees : Z;
  shot_sway : SwaySample;
  shot_ammo : WeaponAmmo;
  shot_recoil : RecoilState;
  accepted_shot_index : Z;
  shot_dive_id : option DiveId;
}.

Record WeaponPickup := mkWeaponPickup {
  pickup_weapon : WeaponId;
  pickup_ammo : WeaponAmmo;
  spawned_at : SimulationTick;
  expires_at : option SimulationTick;
}.

Definition world_spawn (weapon_id : WeaponId) (tick : SimulationTick) : WeaponPickup :=
  let stats := weapon_stats weapon_id in
  mkWeaponPickup weapon_id (mkWeaponAmmo (magazine_capacity stats) (reserve_capacity stats / 2)) tick None.

Definition is_expired (self : WeaponPickup) (tick : SimulationTick) : bool :=
  is_some_and (expires_at self) (fun expires => expires <=? tick).

Inductive PickupError := PickupOutOfRange | PickupExpired | PickupAirborne.

Inductive PickupOutcome :=
| AmmoOnly (weapon_id : WeaponId) (added_reserve total_reserve : Z)
| Swapped (weapon_id : WeaponId) (dropped : WeaponPickup).

Record CombatKernel := mkCombatKernel {
  tick_rate : Z;
  lobby_seed : Z;
  shooter_peer_id : PlayerId;
  inventory : gmap WeaponId WeaponAmmo;
  equipped : WeaponId;
  holstered : bool;
  reload : option ReloadSnapshot;
  last_accepted_tick : option SimulationTick;
  last_advanced_tick : SimulationTick;
  shot_index : Z;
  recoil : RecoilState;
  riding : RidingState;
  dive_context : option DiveFireContext;
}.
#[export] Instance CombatKernel_settable : Settable CombatKernel := fun k =>
  mkCombatKernel (tick_rate k) (lobby_seed k) (shooter_peer_id k) (inventory k) (equipped k)
    (holstered k) (reload k) (last_accepted_tick k) (last_advanced_tick k) (shot_index k)
    (recoil k) (riding k) (dive_context k).

(** ** Construction *)

Definition with_weapon (tick_rate lobby_seed : Z) (shooter_peer_id : PlayerId) (weapon_id : WeaponId)
    : result CombatKernel InvalidTickRate :=
  if tick_rate =? 0 then Err InvalidTickRate_
  else Ok (mkCombatKernel tick_rate lobby_seed shooter_peer_id
             {[weapon_id := ammo_full (weapon_stats weapon_id)]} weapon_id false None None 0 0
             recoil_default riding_default None).

Definition kernel_new (tick_rate lobby_seed : Z) (shooter_peer_id : PlayerId)
    : result CombatKernel InvalidTickRate :=
  with_weapon tick_rate lobby_seed shooter_peer_id Dustwalker.

Definition with_full_loadout (tick_rate lobby_seed : Z) (shooter_peer_id : PlayerId)
    : result CombatKernel InvalidTickRate :=
  match kernel_new tick_rate lobby_seed shooter_peer_id with
  | Err e => Err e
  | Ok kernel =>
      Ok (fold_left (fun k w => k <| inventory := <[w := ammo_full (weapon_stats w)]> (inventory k) |>)
            WeaponId_ALL kernel)
  end.

(** ** Inventory *)

Definition ammo (self : CombatKernel) (weapon_id : WeaponId) : option WeaponAmmo :=
  inventory self !! weapon_id.
Definition equipped_ammo (self : CombatKernel) : WeaponAmmo :=
  default ammo_default (ammo self (equipped self)).

Definition has_open_dive_context (self : CombatKernel) : bool :=
  is_some_and (dive_context self) (fun context => negb (closed_to_new_shots context)).

Definition holster (self : CombatKernel) : CombatKernel :=
  self <| holstered := true |> <| reload := None |>.

Definition grant_weapon (self : CombatKernel) (weapon_id : WeaponId) (a : WeaponAmmo) : CombatKernel :=
  self <| inventory := <[weapon_id := ammo_clamped a (weapon_stats weapon_id)]> (inventory self) |>.

Definition refill_equipped_ammo (self : CombatKernel) : CombatKernel * WeaponAmmo :=
  let a := ammo_full (weapon_stats (equipped self)) in
  (self <| inventory := <[equipped self := a]> (inventory self) |> <| reload := None |>, a).

Definition equip_weapon (self : CombatKernel) (weapon_id : WeaponId) : CombatKernel * bool :=
  if has_open_dive_context self
     || bool_decide (stance (riding self) = SaddleDiveAirborne)
     || is_none (inventory self !! weapon_id)
  then (self, false)
  else
    let changed := negb (bool_decide (equipped self = weapon_id)) || holstered self in
    (self <| equipped := weapon_id |> <| holstered := false |> <| reload := None |>, changed).

Definition set_ammo (self : CombatKernel) (weapon_id : WeaponId) (a : WeaponAmmo) : CombatKernel * bool :=
  match inventory self !! weapon_id with
  | None => (self, false)
  | Some _ =>
      (self <| inventory := <[weapon_id := ammo_clamped a (weapon_stats weapon_id)]> (inventory self) |>,
       true)
  end.

Definition respawn_at (self : CombatKernel) (tick : SimulationTick) : CombatKernel * bool :=
  if tick <? last_advanced_tick self then (self, false)
  else
    (self <| inventory := map_imap (fun weapon _ => Some (ammo_full (weapon_stats weapon))) (inventory self) |>
          <| holstered := false |>
          <| reload := None |>
          <| recoil := recoil_default |>
          <| riding := riding_default |>
          <| dive_context := None |>
          <| last_advanced_tick := tick |>, true).

(** ** Time and reloads *)

Definition reload_ammo (stats : WeaponStats) (a : WeaponAmmo) : WeaponAmmo * Z :=
  let needed := saturating_sub (magazine_capacity stats) (magazine a) in
  let loaded := Z.min needed (reserve a) in
  (mkWeaponAmmo (saturating_add 16 (magazine a) loaded) (saturating_sub (reserve a) loaded), loaded).

Definition advance_reload_by (self : CombatKernel) (elapsed_ticks : Z) (paused : bool)
    : CombatKernel * AdvanceOutcome :=
  match reload self with
  | None => (self, advance_default)
  | Some r =>
      let active := if paused then active_ticks r
                    else saturating_add 64 (active_ticks r) elapsed_ticks in
      let r := mkReloadSnapshot (reload_weapon r) active (required_ticks r) in
      if required_ticks r <=? active_ticks r then
        let '(self, changed) :=
          match inventory self !! reload_weapon r with
          | Some a =>
              let '(a, loaded) := reload_ammo (weapon_stats (reload_weapon r)) a in
              (self <| inventory := <[reload_weapon r := a]> (inventory self) |>, loaded >? 0)
          | None => (self, false)
          end in
        (self <| reload := None |>, mkAdvanceOutcome true changed)
      else (self <| reload := Some r |>, advance_default)
  end.

Definition advance_to (self : CombatKernel) (tick : SimulationTick) (r : RidingState)
    : CombatKernel * result AdvanceOutcome TickRegression :=
  match checked_duration_since tick (last_advanced_tick self) with
  | None => (self, Err TickRegression_)
  | Some elapsed_ticks =>
      let self := self <| riding := r |> in
      let self := if carries_mounted_weapon (stance r) then self else holster self in
      let self := self <| recoil := recover (recoil self) elapsed_ticks (tick_rate self) |> in
      let '(self, outcome) := advance_reload_by self elapsed_ticks (sprint_gallop r) in
      (self <| last_advanced_tick := tick |>, Ok outcome)
  end.

Definition begin_reload (self : CombatKernel) : CombatKernel * result ReloadSnapshot ReloadStartError :=
  if holstered self then (self, Err ReloadHolstered)
  else if is_some (reload self) then (self, Err AlreadyReloading)
  else
    let stats := weapon_stats (equipped self) in
    let a := equipped_ammo self in
    if magazine_capacity stats <=? magazine a then (self, Err MagazineFull)
    else if reserve a =? 0 then (self, Err NoReserve)
    else
      let r := mkReloadSnapshot (equipped self) 0 (reload_ticks stats (tick_rate self)) in
      (self <| reload := Some r |>, Ok r).

Definition request_m3_reload (self : CombatKernel)
    : CombatKernel * result ReloadSnapshot ReloadStartError :=
  if has_open_dive_context self then (self, Err ReloadAirborne) else begin_reload self.

Definition advance_m3_reload (self : CombatKernel) (elapsed_ticks : Z) (paused : bool)
    : CombatKernel * AdvanceOutcome := advance_reload_by self elapsed_ticks paused.

Definition restore_m3_reload (self : CombatKernel) (r : option ReloadSnapshot) : CombatKernel * bool :=
  let refused :=
    is_some_and r (fun r =>
      let stats := weapon_stats (equipped self) in
      let a := equipped_ammo self in
      holstered self
      || negb (bool_decide (reload_weapon r = equipped self))
      || negb (required_ticks r =? reload_ticks stats (tick_rate self))
      || (required_ticks r <=? active_ticks r)
      || (magazine_capacity stats <=? magazine a)
      || (reserve a =? 0)) in
  if refused then (self, false) else (self <| reload := r |>, true).

Definition request_reload (self : CombatKernel) (tick : SimulationTick) (r : RidingState)
    : CombatKernel * result ReloadSnapshot ReloadStartError :=
  if tick <? last_advanced_tick self then (self, Err ReloadTickReplay)
  else if has_open_dive_context self
          || match stance r with MountedAirborne | SaddleDiveAirborne => true | _ => false end
  then (self, Err ReloadAirborne)
  else if negb (bool_decide (stance r = Mounted)) || negb (riding_is_consistent r)
  then (self, Err ReloadDismounted)
  else
    match advance_to self tick r with
    | (self, Err _) => (self, Err ReloadTickReplay)
    | (self, Ok _) => begin_reload self
    end.

(** ** The dive's firing window *)

Definition begin_saddle_dive (self : CombatKernel) (id : DiveId) (tick : SimulationTick)
    (weapon : WeaponId) (velocity : Z * Z) (airtime : Z)
    : CombatKernel * result unit (fault DiveContextError) :=
  match checked_duration_since tick (last_advanced_tick self) with
  | None => (self, Err (Raised ContextTickReplay))
  | Some _ =>
      if negb (bool_decide (weapon = equipped self)) then (self, Err (Raised ContextWeaponMismatch))
      else if has_open_dive_context self then (self, Err (Raised DiveAlreadyOpen))
      else if negb (bool_decide (stance (riding self) = Mounted))
              || negb (riding_is_consistent (riding self))
      then (self, Err (Raised ContextMismatch))
      else
        let handling := riding self in
        let prelaunch :=
          if last_advanced_tick self <? tick then
            let prelaunch_tick := tick - 1 in
            let advanced :=
              if last_advanced_tick self <? prelaunch_tick then
                match advance_to self prelaunch_tick handling with
                | (self, Ok _) => Some self
                | (_, Err _) => None
                end
              else Some self in
            self ← advanced;
            final_elapsed ← checked_duration_since tick (last_advanced_tick self);
            Some (self <| recoil := recover (recoil self) final_elapsed (tick_rate self) |>)
          else Some self in
        match prelaunch with
        | None => (self, Err Panicked)
        | Some self =>
            (self <| reload := None |>
                  <| last_advanced_tick := tick |>
                  <| riding := (riding self) <| stance := SaddleDiveAirborne |> <| dive_id := Some id |> |>
                  <| dive_context :=
                       Some (mkDiveFireContext id tick weapon 0 velocity airtime false handling) |>,
             Ok tt)
        end
  end.

Definition finish_saddle_dive (self : CombatKernel) (id : DiveId) (tick : SimulationTick)
    : CombatKernel * result unit (fault DiveContextError) :=
  if tick <? last_advanced_tick self then (self, Err (Raised ContextTickReplay))
  else
    match dive_context self with
    | None => (self, Err (Raised ContextMismatch))
    | Some context =>
        if negb (context_dive_id context =? id) then (self, Err (Raised ContextMismatch))
        else
          let self := self <| dive_context := Some (context <| closed_to_new_shots := true |>) |> in
          match checked_duration_since tick (last_advanced_tick self) with
          | None => (self, Err Panicked)
          | Some elapsed =>
              (holster (self <| recoil := recover (recoil self) elapsed (tick_rate self) |>
                             <| last_advanced_tick := tick |>
                             <| riding := (riding self) <| stance := LandingProne |> <| dive_id := None |> |>),
               Ok tt)
          end
    end.

(** ** Fire *)

Definition next_spread_seed (self : CombatKernel) : Z :=
  shot_spread_seed (lobby_seed self) (shooter_peer_id self) (shot_index self).

(** What is checked before anything moves: the rider's claim against the dive. *)
Definition dive_gate (self : CombatKernel) (r : RidingState)
    : result (option DiveFireContext) FireRejection :=
  if negb (riding_is_consistent r)
     || (has_open_dive_context self && negb (bool_decide (stance r = SaddleDiveAirborne)))
  then Err (reject_dive Dismounted DiveContextMismatch)
  else if bool_decide (stance r = SaddleDiveAirborne) then
    match dive_context self with
    | None => Err (reject_dive Dismounted DiveContextMismatch)
    | Some context =>
        if negb (bool_decide (dive_id r = Some (context_dive_id context)))
        then Err (reject_dive Dismounted DiveContextMismatch)
        else if closed_to_new_shots context then Err (reject_dive Dismounted DiveClosed)
        else if negb (bool_decide (equipped self = launch_weapon context))
        then Err (reject_dive RejectWeapon DiveWeaponMismatch)
        else if dive_shot_cap (launch_weapon context) <=? accepted_count context
        then Err (reject_dive Rate ShotCap)
        else Ok (Some context)
    end
  else Ok None.

(** The gates after time has advanced, in the code's order. *)
Definition fire_gate (self : CombatKernel) (tick : SimulationTick) (direction : QuantizedDirection)
    (r : RidingState) : option ShotRejectionReason :=
  if negb (is_normalized direction) then Some InvalidDirection
  else
    match stance r with
    | MountedAirborne => Some Airborne
    | LandingProne | LandingRecovery | OnFootStanding | Unknown _ => Some Dismounted
    | Mounted | SaddleDiveAirborne =>
        if stumbling r then Some Stumble
        else if holstered self then Some Holstered
        else if is_some (reload self) then Some Reloading
        else
          let cadence :=
            match last_accepted_tick self with
            | None => None
            | Some last_tick =>
                match checked_duration_since tick last_tick with
                | None => Some TickReplay
                | Some elapsed =>
                    if elapsed <? cadence_ticks (weapon_stats (equipped self)) (tick_rate self)
                    then Some Rate else None
                end
            end in
          match cadence with
          | Some reason => Some reason
          | None => if magazine (equipped_ammo self) =? 0 then Some Empty else None
          end
    end.

Definition dive_handling (dive : option DiveFireContext) (r : RidingState) : RidingState :=
  match dive with
  | None => r
  | Some context =>
      (launch_handling context) <| stance := SaddleDiveAirborne |>
                                <| dive_id := Some (context_dive_id context) |>
  end.

Section fire.
Context `{Libm}.

Definition fire_sway (self : CombatKernel) (dive : option DiveFireContext) (tick : SimulationTick)
    (handling : RidingState) : SwaySample :=
  let sway := deterministic_sway tick (tick_rate self) handling in
  match dive with
  | None => sway
  | Some context =>
      let elapsed := default 0 (checked_duration_since tick (launch_tick context)) in
      scale_sway sway (dive_sway_scale_milli elapsed (context_airtime_ticks context))
  end.

(** The effects of an accepted shot; [None] is the panic of its [expect]. *)
Definition commit_shot (self : CombatKernel) (dive : option DiveFireContext) (tick : SimulationTick)
    (seed : Z) (resolved : QuantizedDirection) (spread : Z) (sway : SwaySample)
    : option (CombatKernel * PreparedShot) :=
  a ← inventory self !! equipped self;
  let accepted_index := shot_index self in
  let a := a <| magazine := saturating_sub (magazine a) 1 |> in
  let self :=
    self <| inventory := <[equipped self := a]> (inventory self) |>
         <| last_accepted_tick := Some tick |>
         <| shot_index := saturating_add 64 (shot_index self) 1 |>
         <| recoil := apply_impulse (recoil self) (weapon_stats (equipped self)) seed |> in
  let self :=
    if is_some dive
    then self <| dive_context :=
           (fun c => c <| accepted_count := saturating_add 16 (accepted_count c) 1 |>)
             <$> dive_context self |>
    else self in
  Some (self, mkPreparedShot tick (equipped self) seed resolved spread sway a (recoil self)
                accepted_index (context_dive_id <$> dive)).

Definition request_fire_detailed (self : CombatKernel) (tick : SimulationTick)
    (direction : QuantizedDirection) (r : RidingState) (supplied_seed : Z)
    : CombatKernel * result PreparedShot (fault FireRejection) :=
  if tick <? last_advanced_tick self then (self, Err (Raised (reject_wire TickReplay)))
  else
    match dive_gate self r with
    | Err e => (self, Err (Raised e))
    | Ok dive =>
        match advance_to self tick r with
        | (self, Err _) => (self, Err (Raised (reject_wire TickReplay)))
        | (self, Ok _) =>
            match fire_gate self tick direction r with
            | Some reason => (self, Err (Raised (reject_wire reason)))
            | None =>
                let expected_seed := next_spread_seed self in
                if negb (supplied_seed =? expected_seed)
                then (self, Err (Raised (reject_wire SpreadSeed)))
                else
                  let handling := dive_handling dive r in
                  let spread := effective_spread_millidegrees (weapon_stats (equipped self)) handling in
                  let sway := fire_sway self dive tick handling in
                  match spread_direction direction expected_seed spread sway with
                  | None => (self, Err (Raised (reject_wire InvalidDirection)))
                  | Some resolved =>
                      match commit_shot self dive tick expected_seed resolved spread sway with
                      | None => (self, Err Panicked)
                      | Some (self, shot) => (self, Ok shot)
                      end
                  end
            end
        end
    end.

Definition wire_fault (e : fault FireRejection) : fault ShotRejectionReason :=
  match e with Raised e => Raised (wire_reason e) | Panicked => Panicked end.

Definition request_fire_with_seed (self : CombatKernel) (tick : SimulationTick)
    (direction : QuantizedDirection) (r : RidingState) (supplied_seed : Z)
    : CombatKernel * result PreparedShot (fault ShotRejectionReason) :=
  let '(self, shot) := request_fire_detailed self tick direction r supplied_seed in
  (self, map_err wire_fault shot).

Definition request_fire (self : CombatKernel) (tick : SimulationTick)
    (direction : QuantizedDirection) (r : RidingState)
    : CombatKernel * result PreparedShot (fault ShotRejectionReason) :=
  let seed := next_spread_seed self in
  let '(self, shot) := request_fire_detailed self tick direction r seed in
  (self, map_err wire_fault shot).
End fire.

(** ** Pickups *)

Definition pickup (self : CombatKernel) (p : WeaponPickup) (distance_mm : Z) (tick : SimulationTick)
    : CombatKernel * result PickupOutcome PickupError :=
  if has_open_dive_context self || bool_decide (stance (riding self) = SaddleDiveAirborne)
  then (self, Err PickupAirborne)
  else if distance_mm >? PICKUP_RANGE_MM then (self, Err PickupOutOfRange)
  else if is_expired p tick then (self, Err PickupExpired)
  else
    let stats := weapon_stats (pickup_weapon p) in
    match inventory self !! pickup_weapon p with
    | Some existing =>
        let before := reserve existing in
        let existing := existing <| reserve := reserve_capacity stats |> in
        (self <| inventory := <[pickup_weapon p := existing]> (inventory self) |>,
         Ok (AmmoOnly (pickup_weapon p) (wrapping_sub 16 (reserve existing) before) (reserve existing)))
    | None =>
        let old_weapon := equipped self in
        let old_ammo := default ammo_default (inventory self !! old_weapon) in
        let lifetime_ticks :=
          div_ceil (saturating_mul 64 (tick_rate self) DROPPED_WEAPON_LIFETIME_MS) 1000 in
        let dropped := mkWeaponPickup old_weapon old_ammo tick
                         (Some (tick_saturating_add tick lifetime_ticks)) in
        (self <| inventory := <[pickup_weapon p := ammo_clamped (pickup_ammo p) stats]>
                                (delete old_weapon (inventory self)) |>
              <| equipped := pickup_weapon p |>
              <| holstered := false |>
              <| reload := None |>,
         Ok (Swapped (pickup_weapon p) dropped))
    end.

(** ** The invariant *)

Definition ammo_ok (w : WeaponId) (a : WeaponAmmo) : Prop :=
  0 <= magazine a <= magazine_capacity (weapon_stats w) /\
  0 <= reserve a <= reserve_capacity (weapon_stats w).
Definition ammo_typed (a : WeaponAmmo) : Prop := u16 (magazine a) /\ u16 (reserve a).

Definition reload_ok (rate : Z) (w : WeaponId) (r : ReloadSnapshot) : Prop :=
  reload_weapon r = w /\ 0 <= active_ticks r < required_ticks r /\
  required_ticks r = reload_ticks (weapon_stats w) rate.

Definition context_ok (clock : Z) (w : WeaponId) (c : DiveFireContext) : Prop :=
  0 <= accepted_count c <= dive_shot_cap (launch_weapon c) /\
  0 <= launch_tick c <= clock /\
  (closed_to_new_shots c = false -> launch_weapon c = w).

Record weapon_inv (k : CombatKernel) : Prop := {
  inv_rate : 0 < tick_rate k < 2 ^ 32;
  inv_ammo : map_Forall ammo_ok (inventory k);
  inv_owned : is_Some (inventory k !! equipped k);
  inv_reload : forall r, reload k = Some r ->
    holstered k = false /\ reload_ok (tick_rate k) (equipped k) r;
  inv_clock : u64 (last_advanced_tick k);
  inv_accepted : forall t, last_accepted_tick k = Some t -> 0 <= t <= last_advanced_tick k;
  inv_index : u64 (shot_index k);
  inv_recoil : recoil_ok (recoil k);
  inv_context : forall c, dive_context k = Some c -> context_ok (last_advanced_tick k) (equipped k) c;
}.

(** Capacities are far below the machine limits. *)
Lemma capacities w :
  0 < magazine_capacity (weapon_stats w) <= 40 /\ 0 < reserve_capacity (weapon_stats w) <= 160.
Proof. destruct w; by vm_compute. Qed.

Lemma ammo_full_ok w : ammo_ok w (ammo_full (weapon_stats w)).
Proof. destruct w; split; by vm_compute. Qed.

Lemma ammo_clamped_ok w a : ammo_typed a -> ammo_ok w (ammo_clamped a (weapon_stats w)).
Proof.
  intros [Hm Hr]. pose proof (capacities w). split; simpl; int_lia.
Qed.

(** A reload moves rounds from the reserve into the magazine: as many as fit and
    are there. *)
Lemma reload_ammo_spec w a :
  ammo_ok w a ->
  let '(a', loaded) := reload_ammo (weapon_stats w) a in
  ammo_ok w a' /\ magazine a' = magazine a + loaded /\ reserve a' = reserve a - loaded /\
  loaded = Z.min (magazine_capacity (weapon_stats w) - magazine a) (reserve a) /\ 0 <= loaded.
Proof.
  intros [Hm Hr]. pose proof (capacities w). unfold reload_ammo, ammo_ok. cbn [magazine reserve].
  int_lia.
Qed.

Lemma reload_ticks_pos w rate : 0 < rate < 2 ^ 32 -> 0 < reload_ticks (weapon_stats w) rate.
Proof.
  intros Hr. unfold reload_ticks. destruct (Z.eqb_spec rate 0); [lia|].
  assert (0 < saturating_mul 64 rate (reload_ms (weapon_stats w))).
  { destruct (weapon_stats_ok w) as [(_ & Hms & _) _]. unfold saturating_mul. pow_norm. nia. }
  unfold div_ceil. apply Z.div_str_pos. lia.
Qed.

(** Two kernels that differ at most in their ammo and reload. *)
Definition same_but_ammo (k k' : CombatKernel) : Prop :=
  k' = k <| inventory := inventory k' |> <| reload := reload k' |>.

Definition rounds (a : WeaponAmmo) : Z := magazine a + reserve a.
Definition carried (k : CombatKernel) : gmap WeaponId Z := rounds <$> inventory k.

Lemma advance_reload_by_spec k e p :
  weapon_inv k -> 0 <= e ->
  let k' := (advance_reload_by k e p).1 in
  weapon_inv k' /\ same_but_ammo k k' /\ carried k' = carried k.
Proof.
  intros Hk He. unfold advance_reload_by.
  destruct (reload k) as [r|] eqn:Hr; [|split; [done|]; split; [by destruct k|done]].
  cbn [required_ticks active_ticks reload_weapon].
  pose proof (inv_reload k Hk r Hr) as (Hh & Hw & Ha & Hreq).
  set (act := if p then _ else _).
  assert (Hact : 0 <= act) by (unfold act; destruct p; int_lia). clearbody act.
  destruct (Z.leb_spec (required_ticks r) act); cbn [fst].
  - destruct (inventory k !! reload_weapon r) as [a|] eqn:E.
    + pose proof (inv_ammo k Hk _ _ E) as Hok. pose proof (reload_ammo_spec _ _ Hok) as Hspec.
      destruct (reload_ammo (weapon_stats (reload_weapon r)) a) as [a' loaded].
      destruct Hspec as (Hok' & Hm & Hs & _). cbn [fst]. split_and!.
      * destruct Hk. split; simpl; try done.
        -- by apply map_Forall_insert_2.
        -- rewrite lookup_insert_is_Some. destruct (decide (reload_weapon r = equipped k)); auto.
      * done.
      * unfold carried. cbn [inventory set_field]. simpl. rewrite fmap_insert. apply insert_id.
        rewrite lookup_fmap, E. simpl. f_equal. unfold rounds. lia.
    + destruct (inv_owned k Hk) as [? Ho]. congruence.
  - split_and!; [|done|done]. destruct Hk. split; simpl; try done.
    intros r' [= <-]. split; [done|]. split; [done|]. simpl. lia.
Qed.

Lemma holster_inv k : weapon_inv k -> weapon_inv (holster k).
Proof. intros []. by split. Qed.

(** Advancing time never touches shots, the dive or the rounds carried. *)
Lemma advance_to_spec k t r k' out :
  weapon_inv k -> u64 t -> advance_to k t r = (k', out) ->
  weapon_inv k' /\
  (last_advanced_tick k <= t ->
     (exists o, out = Ok o) /\ last_advanced_tick k' = t /\ riding k' = r /\
     (carries_mounted_weapon (stance r) = true -> holstered k' = holstered k)) /\
  (t < last_advanced_tick k -> k' = k /\ out = Err TickRegression_) /\
  carried k' = carried k /\ equipped k' = equipped k /\ shot_index k' = shot_index k /\
  last_accepted_tick k' = last_accepted_tick k /\ dive_context k' = dive_context k /\
  tick_rate k' = tick_rate k /\ lobby_seed k' = lobby_seed k /\
  shooter_peer_id k' = shooter_peer_id k.
Proof.
  intros Hk Ht. unfold advance_to, checked_duration_since, checked_sub.
  destruct (Z.leb_spec (last_advanced_tick k) t) as [Hle|Hlt].
  2:{ intros [= <- <-]. split_and!; try done; lia. }
  set (k1 := if carries_mounted_weapon (stance r) then _ else _).
  set (k2 := k1 <| recoil := _ |>).
  assert (H2 : weapon_inv k2 /\ carried k2 = carried k /\ equipped k2 = equipped k /\
    shot_index k2 = shot_index k /\ last_accepted_tick k2 = last_accepted_tick k /\
    last_advanced_tick k2 = last_advanced_tick k /\
    dive_context k2 = dive_context k /\ tick_rate k2 = tick_rate k /\
    lobby_seed k2 = lobby_seed k /\ shooter_peer_id k2 = shooter_peer_id k /\ riding k2 = r /\
    (carries_mounted_weapon (stance r) = true -> holstered k2 = holstered k)).
  { assert (Hrec : recoil_ok (recover (recoil k) (t - last_advanced_tick k) (tick_rate k))).
    { apply recover_spec; [apply Hk | lia | apply Hk]. }
    unfold k2, k1. destruct (carries_mounted_weapon (stance r)); split_and!; try done;
      destruct Hk; split; try done. }
  destruct H2 as (Hi & Hc & He & Hs & Hla & Hlt & Hd & Hr & Hl & Hp & Hrid & Hh). clearbody k2. clear k1.
  pose proof (advance_reload_by_spec k2 (t - last_advanced_tick k) (sprint_gallop r) Hi ltac:(lia))
    as (Hi' & Hsame & Hc').
  destruct (advance_reload_by k2 (t - last_advanced_tick k) (sprint_gallop r)) as [k3 o]. cbn [fst] in *.
  intros [= <- <-]. rewrite Hsame in *. cbn in Hi', Hc' |- *.
  split_and!; try done; try congruence.
  - destruct Hi'. split; try done; simpl in *.
    + intros t' Ht'. specialize (inv_accepted0 t' Ht'). lia.
    + intros c Hc0. destruct (inv_context0 c Hc0) as (? & ? & ?). split_and!; try done; lia.
  - intros _. split_and!; try done. eauto.
  - lia.
Qed.
