(* ===== verification/WeaponRun.v ===== *)
(** * Runs of the weapon kernel, and the ledger they refine

    [ledger_step] is the abstract contract of a shooter: rounds, one clock, the
    shots so far and the window of the open dive. Reloads, holstering, recoil and
    aim are invisible to it. Every operation of [CombatKernel], accepted or
    refused, is a step of the ledger. *)

From S2P Require Import Prelude MachineInt SplitMix Ordered Clock Bytes Identifiers Stance Combat.
From S2P Require Import DiveMath Aim WeaponKernel.
Open Scope Z_scope.

(** ** The operations of a kernel *)

Inductive weapon_op :=
| OpRespawn (t : SimulationTick)
| OpBeginDive (id : DiveId) (t : SimulationTick) (w : WeaponId) (v : Z * Z) (airtime : Z)
| OpFinishDive (id : DiveId) (t : SimulationTick)
| OpGrant (w : WeaponId) (a : WeaponAmmo)
| OpRefill
| OpEquip (w : WeaponId)
| OpHolster
| OpSetAmmo (w : WeaponId) (a : WeaponAmmo)
| OpAdvance (t : SimulationTick) (r : RidingState)
| OpM3Reload
| OpAdvanceM3 (elapsed : Z) (paused : bool)
| OpRestoreM3 (r : option ReloadSnapshot)
| OpReload (t : SimulationTick) (r : RidingState)
| OpFire (t : SimulationTick) (d : QuantizedDirection) (r : RidingState) (seed : Z)
| OpPickup (p : WeaponPickup) (distance_mm : Z) (t : SimulationTick).

Inductive weapon_event := EvDone | EvRefused | EvPanicked | EvShot (s : PreparedShot).

Definition event_of {A E} (r : result A E) : weapon_event :=
  match r with Ok _ => EvDone | Err _ => EvRefused end.
Definition event_of_bool (b : bool) : weapon_event := if b then EvDone else EvRefused.
Definition event_of_fault {A E} (r : result A (fault E)) : weapon_event :=
  match r with Ok _ => EvDone | Err Panicked => EvPanicked | Err (Raised _) => EvRefused end.

Section run.
Context `{Libm}.

Definition weapon_step (k : CombatKernel) (op : weapon_op) : CombatKernel * weapon_event :=
  match op with
  | OpRespawn t => prod_map id event_of_bool (respawn_at k t)
  | OpBeginDive id t w v airtime => prod_map (fun k => k) event_of_fault (begin_saddle_dive k id t w v airtime)
  | OpFinishDive id t => prod_map (fun k => k) event_of_fault (finish_saddle_dive k id t)
  | OpGrant w a => (grant_weapon k w a, EvDone)
  | OpRefill => ((refill_equipped_ammo k).1, EvDone)
  | OpEquip w => ((equip_weapon k w).1, EvDone)
  | OpHolster => (holster k, EvDone)
  | OpSetAmmo w a => prod_map id event_of_bool (set_ammo k w a)
  | OpAdvance t r => prod_map id event_of (advance_to k t r)
  | OpM3Reload => prod_map id event_of (request_m3_reload k)
  | OpAdvanceM3 e p => ((advance_m3_reload k e p).1, EvDone)
  | OpRestoreM3 r => prod_map id event_of_bool (restore_m3_reload k r)
  | OpReload t r => prod_map id event_of (request_reload k t r)
  | OpFire t d r seed =>
      match request_fire_detailed k t d r seed with
      | (k, Ok shot) => (k, EvShot shot)
      | (k, Err e) => (k, event_of_fault (A := unit) (Err e))
      end
  | OpPickup p distance_mm t => prod_map id event_of (pickup k p distance_mm t)
  end.

Fixpoint weapon_run (k : CombatKernel) (ops : list weapon_op) : CombatKernel * list weapon_event :=
  match ops with
  | [] => (k, [])
  | op :: ops =>
      let '(k, e) := weapon_step k op in
      let '(k, es) := weapon_run k ops in (k, e :: es)
  end.
End run.

(** Arguments in the ranges of their types. *)
Definition weapon_op_ok (op : weapon_op) : Prop :=
  match op with
  | OpRespawn t | OpBeginDive _ t _ _ _ | OpFinishDive _ t | OpAdvance t _ | OpReload t _
  | OpFire t _ _ _ => u64 t
  | OpGrant _ a | OpSetAmmo _ a => ammo_typed a
  | OpAdvanceM3 e _ => u64 e
  | OpRestoreM3 r => forall r', r = Some r' -> u64 (active_ticks r')
  | OpPickup p _ t => ammo_typed (pickup_ammo p) /\ u64 t
  | OpRefill | OpEquip _ | OpHolster | OpM3Reload => True
  end.

(** ** The ledger *)

Record Ledger := mkLedger {
  l_rate : Z;
  l_rounds : gmap WeaponId Z;
  l_fired : Z;
  l_last : option SimulationTick;
  l_clock : SimulationTick;
  l_window : option (DiveId * WeaponId * Z);
}.

Inductive ledger_label :=
| LShot (t : SimulationTick) (w : WeaponId) (index : Z) (dive : option DiveId)
| LTime
| LOpen (id : DiveId) (w : WeaponId)
| LClose
| LRespawn
| LSupply.

Definition within_capacity (rs : gmap WeaponId Z) : Prop :=
  map_Forall (fun w n => 0 <= n <=
    magazine_capacity (weapon_stats w) + reserve_capacity (weapon_stats w)) rs.

(** A shot outside a dive needs no open dive; inside, the dive's weapon and one
    shot left. *)
Inductive window_shot : option (DiveId * WeaponId * Z) -> option DiveId -> WeaponId ->
    option (DiveId * WeaponId * Z) -> Prop :=
| window_ground w : window_shot None None w None
| window_dive id w n : 0 < n -> window_shot (Some (id, w, n)) (Some id) w (Some (id, w, n - 1)).

Inductive ledger_step (L : Ledger) : ledger_label -> Ledger -> Prop :=
| ledger_time t :
    l_clock L <= t ->
    ledger_step L LTime (mkLedger (l_rate L) (l_rounds L) (l_fired L) (l_last L) t (l_window L))
| ledger_shot t w n dive window :
    l_clock L <= t ->
    l_rounds L !! w = Some n -> 0 < n ->
    (forall t0, l_last L = Some t0 -> cadence_ticks (weapon_stats w) (l_rate L) <= t - t0) ->
    window_shot (l_window L) dive w window ->
    ledger_step L (LShot t w (l_fired L) dive)
      (mkLedger (l_rate L) (<[w := n - 1]> (l_rounds L)) (saturating_add 64 (l_fired L) 1)
         (Some t) t window)
| ledger_open t id w :
    l_clock L <= t -> is_Some (l_rounds L !! w) -> l_window L = None ->
    ledger_step L (LOpen id w)
      (mkLedger (l_rate L) (l_rounds L) (l_fired L) (l_last L) t (Some (id, w, dive_shot_cap w)))
| ledger_close t :
    l_clock L <= t -> l_window L <> None ->
    ledger_step L LClose (mkLedger (l_rate L) (l_rounds L) (l_fired L) (l_last L) t None)
| ledger_respawn t rs :
    l_clock L <= t ->
    (forall w, rs !! w = (fun _ => magazine_capacity (weapon_stats w)
                                  + reserve_capacity (weapon_stats w)) <$> l_rounds L !! w) ->
    ledger_step L LRespawn (mkLedger (l_rate L) rs (l_fired L) (l_last L) t None)
| ledger_supply rs :
    within_capacity rs ->
    ledger_step L LSupply (mkLedger (l_rate L) rs (l_fired L) (l_last L) (l_clock L) (l_window L)).

Lemma ledger_shot_inv L t w i d L' :
  ledger_step L (LShot t w i d) L' ->
  exists n window,
    i = l_fired L /\ l_clock L <= t /\ l_rounds L !! w = Some n /\ 0 < n /\
    (forall t0, l_last L = Some t0 -> cadence_ticks (weapon_stats w) (l_rate L) <= t - t0) /\
    window_shot (l_window L) d w window /\
    L' = mkLedger (l_rate L) (<[w := n - 1]> (l_rounds L)) (saturating_add 64 (l_fired L) 1)
           (Some t) t window.
Proof. inversion 1; subst. eauto 12. Qed.

Inductive ledger_run : Ledger -> list ledger_label -> Ledger -> Prop :=
| ledger_nil L : ledger_run L [] L
| ledger_cons L l L1 ls L2 : ledger_step L l L1 -> ledger_run L1 ls L2 -> ledger_run L (l :: ls) L2.

(** ** The abstraction *)

Definition window_of (c : DiveFireContext) : option (DiveId * WeaponId * Z) :=
  if closed_to_new_shots c then None
  else Some (context_dive_id c, launch_weapon c, dive_shot_cap (launch_weapon c) - accepted_count c).
Definition window (k : CombatKernel) : option (DiveId * WeaponId * Z) := dive_context k ≫= window_of.

Definition ledger_of (k : CombatKernel) : Ledger :=
  mkLedger (tick_rate k) (carried k) (shot_index k) (last_accepted_tick k) (last_advanced_tick k) (window k).

(** What the ledger sees of an operation on a kernel with that event. *)
Definition label_of (k : CombatKernel) (op : weapon_op) (e : weapon_event) : ledger_label :=
  match e with
  | EvShot s => LShot (shot_tick s) (shot_weapon s) (accepted_shot_index s) (shot_dive_id s)
  | EvDone =>
      match op with
      | OpRespawn _ => LRespawn
      | OpBeginDive id _ w _ _ => LOpen id w
      | OpFinishDive _ _ => if has_open_dive_context k then LClose else LTime
      | OpGrant _ _ | OpRefill | OpSetAmmo _ _ | OpPickup _ _ _ => LSupply
      | _ => LTime
      end
  | EvRefused | EvPanicked => LTime
  end.

Definition statics (k : CombatKernel) : Z * PlayerId := (lobby_seed k, shooter_peer_id k).

(** One step of the kernel, seen abstractly. *)
Definition refines (k k' : CombatKernel) (l : ledger_label) : Prop :=
  weapon_inv k' /\ ledger_step (ledger_of k) l (ledger_of k') /\ statics k' = statics k.

Lemma has_open_window k : has_open_dive_context k = is_some (window k).
Proof.
  unfold has_open_dive_context, window, window_of.
  destruct (dive_context k) as [c|]; simpl; [|done]. by destruct (closed_to_new_shots c).
Qed.

(** A step that leaves the ledger's view alone but may move the clock. *)
Lemma refines_time k k' :
  weapon_inv k' -> l_clock (ledger_of k) <= last_advanced_tick k' ->
  tick_rate k' = tick_rate k -> carried k' = carried k -> shot_index k' = shot_index k ->
  last_accepted_tick k' = last_accepted_tick k -> window k' = window k -> statics k' = statics k ->
  refines k k' LTime.
Proof.
  intros Hi Hc Hr Hca Hs Hl Hw Hst. split_and!; [done| |done].
  replace (ledger_of k') with
    (mkLedger (l_rate (ledger_of k)) (l_rounds (ledger_of k)) (l_fired (ledger_of k))
       (l_last (ledger_of k)) (last_advanced_tick k') (l_window (ledger_of k))).
  - by apply ledger_time.
  - unfold ledger_of. simpl. congruence.
Qed.

Lemma refines_refl k : weapon_inv k -> refines k k LTime.
Proof. intros. by apply refines_time. Qed.

Lemma refines_supply k rs :
  weapon_inv k ->
  map_Forall ammo_ok rs -> is_Some (rs !! equipped k) ->
  refines k (k <| inventory := rs |>) LSupply.
Proof.
  intros Hk Hrs He. split_and!; [destruct Hk; by split| |done].
  apply (ledger_supply (ledger_of k) (rounds <$> rs)).
  intros w n Hn. apply lookup_fmap_Some in Hn as (a & <- & Ha).
  destruct (Hrs w a Ha). unfold rounds. lia.
Qed.

(** Dropping a reload is invisible. *)
Lemma refines_no_reload k k' l : refines k k' l -> refines k (k' <| reload := None |>) l.
Proof. intros (Hi & Hs & Hst). split_and!; [destruct Hi; by split|done|done]. Qed.

(** ** Each operation refines the ledger *)

Lemma advance_refines k t r k' out :
  weapon_inv k -> u64 t -> advance_to k t r = (k', out) -> refines k k' LTime.
Proof.
  intros Hk Ht E. pose proof (advance_to_spec k t r k' out Hk Ht E)
    as (Hi & Hle & Hlt & Hc & He & Hs & Hla & Hd & Hr & Hl & Hp).
  apply refines_time; try done.
  - cbn. destruct (Z.le_gt_cases (last_advanced_tick k) t) as [Hcase|Hcase].
    + destruct (Hle Hcase) as (_ & -> & _). done.
    + destruct (Hlt Hcase) as [-> _]. done.
  - unfold window. by rewrite Hd.
  - unfold statics. congruence.
Qed.

Lemma refines_time_inv k k' :
  refines k k' LTime ->
  last_advanced_tick k <= last_advanced_tick k' /\ tick_rate k' = tick_rate k /\
  carried k' = carried k /\ shot_index k' = shot_index k /\
  last_accepted_tick k' = last_accepted_tick k /\ window k' = window k /\ statics k' = statics k.
Proof.
  intros (_ & Hs & Hst). remember (ledger_of k') as L' eqn:EL.
  inversion Hs as [t Ht El E| | | | |]. subst L'. unfold ledger_of in *. simpl in *.
  injection E as <- <- <- <- <- <-. by split_and!.
Qed.

Lemma refines_time_trans k k1 k2 : refines k k1 LTime -> refines k1 k2 LTime -> refines k k2 LTime.
Proof.
  intros H1%refines_time_inv H2. pose proof (refines_time_inv _ _ H2). destruct H2 as [H2 _].
  destruct_and!. apply refines_time; try congruence. simpl. lia.
Qed.

Lemma begin_reload_refines k : weapon_inv k -> refines k (begin_reload k).1 LTime.
Proof.
  intros Hk. unfold begin_reload. repeat case_match; try by apply refines_refl. cbn [fst].
  apply refines_time; try done. destruct Hk. split; simpl; try done.
  intros r [= <-]. split; [by apply not_true_is_false; intros ?; congruence|].
  split; [done|]. simpl. split; [|done]. split; [done|]. by apply reload_ticks_pos.
Qed.

Lemma equip_refines k w : weapon_inv k -> refines k (equip_weapon k w).1 LTime.
Proof.
  intros Hk. unfold equip_weapon. destruct (_ || _) eqn:E; [by apply refines_refl|].
  rewrite !orb_false_iff in E. destruct E as [[Hopen _] Howned].
  apply refines_time; try done. destruct Hk. split; simpl; try done.
  - destruct (inventory k !! w); [eauto|done].
  - intros c Hc. destruct (inv_context c Hc) as (? & ? & ?). split_and!; try done; try lia.
    intros Hcl. unfold has_open_dive_context in Hopen. rewrite Hc in Hopen. simpl in Hopen.
    by rewrite Hcl in Hopen.
Qed.

Lemma respawn_refines k t k' b :
  weapon_inv k -> u64 t -> respawn_at k t = (k', b) ->
  refines k k' (if b then LRespawn else LTime).
Proof.
  intros Hk Ht. unfold respawn_at. destruct (Z.ltb_spec t (last_advanced_tick k)).
  { intros [= <- <-]. by apply refines_refl. }
  intros [= <- <-]. set (inv := map_imap _ (inventory k)).
  assert (Hinv : forall w, inv !! w = (fun _ => ammo_full (weapon_stats w)) <$> inventory k !! w).
  { intros w. unfold inv. rewrite map_lookup_imap. by destruct (inventory k !! w). }
  split_and!; [| |done].
  - destruct Hk. split; simpl; try done.
    + intros w a Ha. rewrite Hinv in Ha. apply fmap_Some in Ha as (a0 & _ & ->). apply ammo_full_ok.
    + rewrite Hinv. destruct inv_owned as [a ->]. eauto.
    + intros t' Ht'. specialize (inv_accepted t' Ht'). lia.
  - apply (ledger_respawn (ledger_of k) t (rounds <$> inv)); [done|].
    intros w. cbn. unfold carried. rewrite !lookup_fmap, Hinv. by destruct (inventory k !! w).
Qed.

(** The clock, the recoil and the rider's state do not matter to the rest. *)
Lemma weapon_inv_clock k t c r :
  weapon_inv k -> u64 t -> last_advanced_tick k <= t -> recoil_ok c ->
  weapon_inv (k <| recoil := c |> <| last_advanced_tick := t |> <| riding := r |>).
Proof.
  intros [] Ht Hle Hc. split; simpl; try done.
  - intros t' Ht'. specialize (inv_accepted t' Ht'). lia.
  - intros c' Hc'. destruct (inv_context c' Hc') as (? & ? & ?). split_and!; try done; lia.
Qed.

Lemma finish_refines k id t k' out :
  weapon_inv k -> u64 t -> finish_saddle_dive k id t = (k', out) ->
  out <> Err Panicked /\
  refines k k' (if is_ok out then if has_open_dive_context k then LClose else LTime else LTime).
Proof.
  intros Hk Ht. unfold finish_saddle_dive.
  destruct (Z.ltb_spec t (last_advanced_tick k)) as [|Hle].
  { intros [= <- <-]. split; [done|]. by apply refines_refl. }
  destruct (dive_context k) as [c|] eqn:Hc.
  2:{ intros [= <- <-]. split; [done|]. by apply refines_refl. }
  destruct (Z.eqb_spec (context_dive_id c) id) as [<-|]; cbn [negb].
  2:{ intros [= <- <-]. split; [done|]. by apply refines_refl. }
  unfold checked_duration_since, checked_sub. cbn [set_field last_advanced_tick]. simpl.
  destruct (Z.leb_spec (last_advanced_tick k) t); [|lia].
  intros [= <- <-]. split; [done|]. cbn [is_ok].
  pose proof (recover_spec (recoil k) (t - last_advanced_tick k) (tick_rate k)
    (inv_recoil k Hk) ltac:(lia) (proj1 (inv_rate k Hk))) as [Hrec _].
  set (rec := recover _ _ _) in *. clearbody rec.
  assert (Hi : weapon_inv (k <| dive_context := Some (c <| closed_to_new_shots := true |>) |>)).
  { destruct Hk. split; simpl; try done. intros c' [= <-].
    destruct (inv_context c Hc) as (Ha & Hb & _). split; [exact Ha|]. by split. }
  apply (weapon_inv_clock _ t rec ((riding k) <| stance := LandingProne |> <| dive_id := None |>))
    in Hi; [|done|done|done].
  apply holster_inv in Hi. rewrite has_open_window. destruct (window k) eqn:Hwin; cbn [is_some].
  - split_and!; [exact Hi| |done]. apply (ledger_close (ledger_of k) t); [done|]. cbn. by rewrite Hwin.
  - apply refines_time; try done.
Qed.

Lemma begin_dive_refines k id t w v airtime k' out :
  weapon_inv k -> u64 t -> begin_saddle_dive k id t w v airtime = (k', out) ->
  out <> Err Panicked /\ refines k k' (if is_ok out then LOpen id w else LTime).
Proof.
  intros Hk Ht. unfold begin_saddle_dive. unfold checked_duration_since at 1, checked_sub.
  destruct (Z.leb_spec (last_advanced_tick k) t) as [Hle|].
  2:{ intros [= <- <-]. split; [done|]. by apply refines_refl. }
  case_bool_decide as Hw; cbn [negb].
  2:{ intros [= <- <-]. split; [done|]. by apply refines_refl. }
  destruct (has_open_dive_context k) eqn:Hopen.
  { intros [= <- <-]. split; [done|]. by apply refines_refl. }
  destruct (negb _ || negb _) eqn:Hcons.
  { intros [= <- <-]. split; [done|]. by apply refines_refl. }
  set (pre := if last_advanced_tick k <? t then _ else _).
  assert (Hpre : exists k1, pre = Some k1 /\ refines k k1 LTime /\ last_advanced_tick k1 <= t /\
                            equipped k1 = equipped k /\ dive_context k1 = dive_context k).
  { unfold pre. destruct (Z.ltb_spec (last_advanced_tick k) t).
    2:{ exists k. split_and!; try done; [by apply refines_refl]. }
    set (adv := if last_advanced_tick k <? t - 1 then _ else _).
    assert (Hadv : exists k1, adv = Some k1 /\ refines k k1 LTime /\ last_advanced_tick k1 <= t /\
                              equipped k1 = equipped k /\ dive_context k1 = dive_context k).
    { unfold adv. destruct (Z.ltb_spec (last_advanced_tick k) (t - 1)).
      2:{ exists k. split_and!; try done; [by apply refines_refl]. }
      assert (Ht1 : u64 (t - 1)) by (destruct Hk; int_lia).
      destruct (advance_to k (t - 1) (riding k)) as [k1 out1] eqn:E.
      pose proof (advance_to_spec _ _ _ _ _ Hk Ht1 E) as (_ & Hok & _ & _ & He & _ & _ & Hd & _).
      destruct (Hok ltac:(lia)) as ([o ->] & Hl & _).
      exists k1. split_and!; try done; [by eapply advance_refines | lia]. }
    destruct Hadv as (k1 & -> & Href & Hl & He & Hd). cbn [mbind option_bind].
    unfold checked_duration_since, checked_sub.
    destruct (Z.leb_spec (last_advanced_tick k1) t); [|lia]. cbn [mbind option_bind].
    eexists. split; [done|]. pose proof Href as (Hi1 & _ & _).
    pose proof (recover_spec (recoil k1) (t - last_advanced_tick k1) (tick_rate k1)
      (inv_recoil _ Hi1) ltac:(lia) (proj1 (inv_rate _ Hi1))) as [Hrec _].
    set (rec := recover _ _ _) in *. clearbody rec.
    split_and!; try done. apply (refines_time_trans _ k1); [done|].
    apply refines_time; try done. destruct Hi1. by split. }
  destruct Hpre as (k1 & -> & Href & Hl & He & Hd).
  intros [= <- <-]. split; [done|]. cbn [is_ok]. pose proof (refines_time_inv _ _ Href) as (Ht1 & Er & Ec & Es & El & Ew & Hst).
  destruct Href as (Hi & _ & _).
  assert (Hwin : window k = None).
  { rewrite has_open_window in Hopen. by destruct (window k). }
  split_and!; [| |done].
  - destruct Hi. split; simpl; try done.
    + intros t' Ht'. specialize (inv_accepted t' Ht'). lia.
    + intros c [= <-]. unfold context_ok. simpl. rewrite He, <- Hw.
      split; [split; [done|by destruct w]|]. split; [|done]. destruct Hk; int_lia.
  - match goal with |- ledger_step _ _ ?L => replace L with
      (mkLedger (l_rate (ledger_of k)) (l_rounds (ledger_of k)) (l_fired (ledger_of k))
         (l_last (ledger_of k)) t (Some (id, w, dive_shot_cap w))) end.
    + apply ledger_open; [done| |done]. cbn. unfold carried. rewrite lookup_fmap, Hw.
      destruct (inv_owned k Hk) as [a ->]. eauto.
    + unfold ledger_of, window, window_of. simpl. unfold carried in *. simpl.
      rewrite Z.sub_0_r. congruence.
Qed.

(** The dive gate passes a rider on the ground of dives, or in the open dive with
    a shot left, with the dive's weapon in hand. *)
Lemma dive_gate_Ok k r dive :
  dive_gate k r = Ok dive <->
  riding_is_consistent r = true /\
  ((stance r <> SaddleDiveAirborne /\ has_open_dive_context k = false /\ dive = None) \/
   (exists c, stance r = SaddleDiveAirborne /\ dive_context k = Some c /\ dive = Some c /\
      dive_id r = Some (context_dive_id c) /\ closed_to_new_shots c = false /\
      equipped k = launch_weapon c /\ accepted_count c < dive_shot_cap (launch_weapon c))).
Proof.
  unfold dive_gate. destruct (riding_is_consistent r); simpl; [|naive_solver].
  destruct (decide (stance r = SaddleDiveAirborne)) as [Hs|Hs].
  - rewrite bool_decide_eq_true_2 by done. rewrite andb_false_r. simpl.
    destruct (dive_context k) as [c|] eqn:Hc; [|naive_solver].
    case_bool_decide as Hid; simpl; [|naive_solver].
    destruct (closed_to_new_shots c) eqn:Hcl; [naive_solver congruence|].
    case_bool_decide as He; simpl; [|naive_solver].
    destruct (Z.leb_spec (dive_shot_cap (launch_weapon c)) (accepted_count c)); naive_solver lia.
  - rewrite bool_decide_eq_false_2 by done. simpl. rewrite andb_true_r.
    destruct (has_open_dive_context k); naive_solver.
Qed.

(** The other gates, as one condition. *)
Lemma fire_gate_None k t d r :
  fire_gate k t d r = None <->
  is_normalized d = true /\ (stance r = Mounted \/ stance r = SaddleDiveAirborne) /\
  stumbling r = false /\ holstered k = false /\ reload k = None /\
  (forall t0, last_accepted_tick k = Some t0 ->
     t0 <= t /\ cadence_ticks (weapon_stats (equipped k)) (tick_rate k) <= t - t0) /\
  magazine (equipped_ammo k) <> 0.
Proof.
  unfold fire_gate. destruct (is_normalized d); cbn [negb]; [|naive_solver].
  assert (Hmain :
    (if stumbling r then Some Stumble
     else if holstered k then Some Holstered
     else if is_some (reload k) then Some Reloading
     else
       match
         match last_accepted_tick k with
         | None => None
         | Some last_tick =>
             match checked_duration_since t last_tick with
             | None => Some TickReplay
             | Some elapsed =>
                 if elapsed <? cadence_ticks (weapon_stats (equipped k)) (tick_rate k)
                 then Some Rate else None
             end
         end
       with
       | Some reason => Some reason
       | None => if magazine (equipped_ammo k) =? 0 then Some Empty else None
       end) = None <->
    stumbling r = false /\ holstered k = false /\ reload k = None /\
    (forall t0, last_accepted_tick k = Some t0 ->
       t0 <= t /\ cadence_ticks (weapon_stats (equipped k)) (tick_rate k) <= t - t0) /\
    magazine (equipped_ammo k) <> 0).
  { destruct (stumbling r); [naive_solver|]. destruct (holstered k); [naive_solver|].
    destruct (reload k); simpl; [naive_solver|].
    destruct (last_accepted_tick k) as [t0|].
    - unfold checked_duration_since, checked_sub. destruct (Z.leb_spec t0 t); [|naive_solver lia].
      destruct (Z.ltb_spec (t - t0) (cadence_ticks (weapon_stats (equipped k)) (tick_rate k)));
        [naive_solver lia|].
      destruct (Z.eqb_spec (magazine (equipped_ammo k)) 0); naive_solver.
    - destruct (Z.eqb_spec (magazine (equipped_ammo k)) 0); naive_solver. }
  destruct (stance r); try naive_solver.
Qed.

Lemma equipped_ammo_Some k : magazine (equipped_ammo k) <> 0 ->
  inventory k !! equipped k = Some (equipped_ammo k).
Proof. unfold equipped_ammo, ammo. by destruct (inventory k !! equipped k). Qed.

(** An accepted shot takes exactly one round, one index and, in a dive, one of its
    shots. *)
Lemma commit_refines k dive t seed resolved spread sway :
  weapon_inv k -> last_advanced_tick k = t ->
  magazine (equipped_ammo k) <> 0 ->
  (forall t0, last_accepted_tick k = Some t0 ->
     cadence_ticks (weapon_stats (equipped k)) (tick_rate k) <= t - t0) ->
  ((dive = None /\ has_open_dive_context k = false) \/
   (exists c, dive = Some c /\ dive_context k = Some c /\ closed_to_new_shots c = false /\
              accepted_count c < dive_shot_cap (launch_weapon c))) ->
  exists k' shot,
    commit_shot k dive t seed resolved spread sway = Some (k', shot) /\
    refines k k' (LShot t (equipped k) (shot_index k) (context_dive_id <$> dive)) /\
    shot_tick shot = t /\ shot_weapon shot = equipped k /\ spread_seed shot = seed /\
    accepted_shot_index shot = shot_index k /\ shot_dive_id shot = context_dive_id <$> dive.
Proof.
  intros Hk Ht Hmag Hcad Hdive. pose proof (equipped_ammo_Some k Hmag) as Ha.
  unfold commit_shot. rewrite Ha. cbn [mbind option_bind].
  eexists _, _. split; [done|]. split; [|destruct dive; by split_and!].
  pose proof (inv_ammo k Hk _ _ Ha) as [Hm Hr]. set (a := equipped_ammo k) in *.
  assert (Hdec : saturating_sub (magazine a) 1 = magazine a - 1) by int_lia. rewrite Hdec.
  assert (Hidx : u64 (saturating_add 64 (shot_index k) 1)).
  { apply saturating_add_range; [done|pose proof (inv_index k Hk); int_lia|done]. }
  pose proof (apply_impulse_ok (recoil k) (weapon_stats (equipped k)) seed) as Hrec.
  set (rec := apply_impulse _ _ _) in *. clearbody rec.
  split_and!; [| |by destruct (is_some dive)].
  - destruct Hdive as [[-> Hopen]|(c & -> & Hc & Hcl & Hcount)]; cbn [is_some].
    + destruct Hk. split; simpl; try done.
      * apply map_Forall_insert_2; [|done]. split; simpl; lia.
      * rewrite lookup_insert_is_Some. auto.
      * intros t' [= <-]. int_lia.
    + destruct Hk. split; simpl; try done.
      * apply map_Forall_insert_2; [|done]. split; simpl; lia.
      * rewrite lookup_insert_is_Some. auto.
      * intros t' [= <-]. int_lia.
      * intros c'. rewrite Hc. simpl. intros [= <-]. destruct (inv_context c Hc) as (Hn & Hl & Heq).
        split; [|by split]. simpl.
        assert (dive_shot_cap (launch_weapon c) <= 5) by (by destruct (launch_weapon c)). int_lia.
  - assert (Hn : carried k !! equipped k = Some (rounds a)).
    { unfold carried. by rewrite lookup_fmap, Ha. }
    assert (Hrounds : rounds (mkWeaponAmmo (magazine a - 1) (reserve a)) = rounds a - 1).
    { unfold rounds. simpl. lia. }
    assert (Hpos : 0 < rounds a) by (unfold rounds; lia).
    destruct Hdive as [[-> Hopen]|(c & -> & Hc & Hcl & Hcount)]; cbn [is_some].
    + match goal with |- ledger_step _ _ ?L => replace L with
        (mkLedger (l_rate (ledger_of k)) (<[equipped k := rounds a - 1]> (l_rounds (ledger_of k)))
           (saturating_add 64 (l_fired (ledger_of k)) 1) (Some t) t None) end.
      * apply ledger_shot; try done; [cbn; lia|]. rewrite has_open_window in Hopen. cbn.
        destruct (window k); [done|]. constructor.
      * rewrite has_open_window in Hopen. unfold ledger_of. cbn. unfold carried. simpl.
        rewrite fmap_insert, Hrounds. rewrite Ht. f_equal.
        unfold window in *. simpl. by destruct (dive_context k ≫= window_of).
    + match goal with |- ledger_step _ _ ?L => replace L with
        (mkLedger (l_rate (ledger_of k)) (<[equipped k := rounds a - 1]> (l_rounds (ledger_of k)))
           (saturating_add 64 (l_fired (ledger_of k)) 1) (Some t) t
           (Some (context_dive_id c, launch_weapon c,
                  dive_shot_cap (launch_weapon c) - accepted_count c - 1))) end.
      * apply ledger_shot; try done; [cbn; lia|]. cbn. unfold window, window_of. rewrite Hc. simpl.
        rewrite Hcl. destruct (inv_context k Hk c Hc) as (_ & _ & Heq). rewrite <- (Heq Hcl).
        constructor. lia.
      * unfold ledger_of. cbn. unfold carried. simpl. rewrite fmap_insert, Hrounds, Ht. f_equal.
        unfold window, window_of. simpl. rewrite Hc. simpl. rewrite Hcl. do 2 f_equal.
        destruct (inv_context k Hk c Hc) as (Hcnt & _).
        assert (dive_shot_cap (launch_weapon c) <= 5) by (by destruct (launch_weapon c)). int_lia.
Qed.

Section fire_refines.
Context `{Libm}.

(** The anatomy of a fire request: refused where it stood, refused after time
    advanced, or accepted. *)
Lemma fire_cases k t d r seed k' out :
  weapon_inv k -> u64 t -> request_fire_detailed k t d r seed = (k', out) ->
  (k' = k /\ exists e, out = Err (Raised e)) \/
  (exists k1 o, advance_to k t r = (k1, o) /\ last_advanced_tick k <= t /\
     ((k' = k1 /\ exists e, out = Err (Raised e)) \/
      (exists dive spread sway dir shot,
         dive_gate k r = Ok dive /\ fire_gate k1 t d r = None /\ seed = next_spread_seed k /\
         spread_direction d seed spread sway = Some dir /\
         commit_shot k1 dive t seed dir spread sway = Some (k', shot) /\ out = Ok shot))).
Proof.
  intros Hk Ht. unfold request_fire_detailed.
  destruct (Z.ltb_spec t (last_advanced_tick k)) as [|Hle]; [intros [= <- <-]; eauto|].
  destruct (dive_gate k r) as [dive|e] eqn:Hgate; [|intros [= <- <-]; eauto].
  destruct (advance_to k t r) as [k1 o] eqn:Hadv. intros Hf. right. exists k1, o.
  split; [done|]. split; [done|]. revert Hf.
  pose proof (advance_to_spec k t r k1 o Hk Ht Hadv)
    as (Hi & Hok & _ & Hc & He & Hs & Hla & Hd & Hr & Hl & Hp).
  destruct (Hok Hle) as ([ou ->] & Hclock & _).
  destruct (fire_gate k1 t d r) as [reason|] eqn:Hfire; [intros [= <- <-]; eauto|].
  assert (Hseed : next_spread_seed k1 = next_spread_seed k)
    by (unfold next_spread_seed; congruence).
  destruct (Z.eqb_spec seed (next_spread_seed k1)) as [->|]; cbn [negb]; [|intros [= <- <-]; eauto].
  cbv zeta. set (spread := effective_spread_millidegrees _ _). set (sway := fire_sway _ _ _ _).
  destruct (spread_direction d (next_spread_seed k1) spread sway) as [dir|] eqn:Hdir;
    [|intros [= <- <-]; eauto].
  pose proof Hfire as Hgates. apply fire_gate_None in Hgates as (_ & _ & _ & _ & _ & Hcad & Hmag).
  destruct (commit_refines k1 dive t (next_spread_seed k1) dir spread sway) as (k2 & shot & Hcm & _);
    try done.
  { intros t0 Ht0. by destruct (Hcad t0 Ht0). }
  { apply dive_gate_Ok in Hgate as (_ & [(_ & Hopen & ->)|(c & _ & Hc0 & -> & _ & Hcl & _ & Hcnt)]).
    - left. split; [done|]. unfold has_open_dive_context in *. by rewrite Hd.
    - right. exists c. split_and!; try done. congruence. }
  rewrite Hcm. intros [= <- <-]. right. exists dive, spread, sway, dir, shot. by split_and!.
Qed.

Lemma fire_refines k t d r seed k' out :
  weapon_inv k -> u64 t -> request_fire_detailed k t d r seed = (k', out) ->
  match out with
  | Ok s =>
      refines k k' (LShot (shot_tick s) (shot_weapon s) (accepted_shot_index s) (shot_dive_id s)) /\
      spread_seed s = shot_spread_seed (lobby_seed k) (shooter_peer_id k) (accepted_shot_index s)
  | Err Panicked => False
  | Err (Raised _) => refines k k' LTime
  end.
Proof.
  intros Hk Ht Hf. destruct (fire_cases k t d r seed k' out Hk Ht Hf)
    as [[-> [e ->]]|(k1 & o & Hadv & Hle & [[-> [e ->]]|Hacc])].
  - by apply refines_refl.
  - by eapply advance_refines.
  - destruct Hacc as (dive & spread & sway & dir & shot & Hgate & Hfire & -> & _ & Hcm & ->).
    pose proof (advance_to_spec k t r k1 o Hk Ht Hadv)
      as (Hi & Hok & _ & Hc & He & Hs & Hla & Hd & Hr & Hl & Hp).
    destruct (Hok Hle) as (_ & Hclock & _).
    apply fire_gate_None in Hfire as (_ & _ & _ & _ & _ & Hcad & Hmag).
    edestruct (commit_refines k1 dive t (next_spread_seed k) dir spread sway Hi Hclock Hmag)
      as (k2 & shot' & Hcm' & Href & Htick & Hweap & Hseed & Hidx & Hdid).
    { intros t0 Ht0. by destruct (Hcad t0 Ht0). }
    { apply dive_gate_Ok in Hgate as (_ & [(_ & Hopen & ->)|(c & _ & Hc0 & -> & _ & Hcl & _ & Hcnt)]).
      - left. split; [done|]. unfold has_open_dive_context in *. by rewrite Hd.
      - right. exists c. split_and!; try done. congruence. }
    rewrite Hcm in Hcm'. injection Hcm' as <- <-. rewrite Htick, Hweap, Hidx, Hdid. split.
    + destruct Href as (Hi' & Hstep & Hst). split_and!; [done| |unfold statics in *; congruence].
      apply ledger_shot_inv in Hstep as (n & w' & _ & Hcl & Hn & Hpos & Hcd & Hw & ->).
      rewrite Hs. unfold ledger_of in *. cbn in *.
      replace (window k1) with (window k) in Hw by (unfold window; by rewrite Hd).
      rewrite Hr, Hc, Hs in *. rewrite Hla in Hcd.
      by apply (ledger_shot (ledger_of k)).
    + rewrite Hseed. unfold next_spread_seed. rewrite Hs. reflexivity.
Qed.
(** The fields of an accepted shot. *)
Lemma fire_prepared k t d r seed k' shot :
  weapon_inv k -> u64 t -> request_fire_detailed k t d r seed = (k', Ok shot) ->
  shot_tick shot = t /\ shot_weapon shot = equipped k /\
  (stance r = Mounted \/ stance r = SaddleDiveAirborne) /\
  is_dive_airborne (stance r) = is_some (shot_dive_id shot).
Proof.
  intros Hk Ht Hf. destruct (fire_cases k t d r seed k' _ Hk Ht Hf)
    as [[-> [e ?]]|(k1 & o & Hadv & Hle & [[-> [e ?]]|Hacc])]; [done|done|].
  destruct Hacc as (dive & spread & sway & dir & shot' & Hg & Hfg & -> & _ & Hcm & [= <-]).
  destruct (advance_to_spec k t r k1 o Hk Ht Hadv) as (_ & _ & _ & _ & He & _).
  apply fire_gate_None in Hfg as (_ & Hst & _ & _ & _ & _ & Hm).
  unfold commit_shot in Hcm. rewrite (equipped_ammo_Some k1 Hm) in Hcm. cbn [mbind option_bind] in Hcm.
  injection Hcm as _ <-. rewrite <- He.
  assert (Hd : is_dive_airborne (stance r) = is_some dive).
  { apply dive_gate_Ok in Hg as (_ & [(Hns & _ & ->)|(c & -> & _ & -> & _)]); [|done].
    by destruct (stance r). }
  split_and!; [done| |done|]; cbn [shot_weapon shot_dive_id].
  - by destruct (is_some dive).
  - rewrite Hd. by destruct dive.
Qed.
End fire_refines.

Lemma pickup_refines k p dist t k' out :
  weapon_inv k -> ammo_typed (pickup_ammo p) -> pickup k p dist t = (k', out) ->
  refines k k' (if is_ok out then LSupply else LTime).
Proof.
  intros Hk Hp. unfold pickup.
  destruct (has_open_dive_context k || _) eqn:Hopen; [intros [= <- <-]; by apply refines_refl|].
  destruct (dist >? PICKUP_RANGE_MM); [intros [= <- <-]; by apply refines_refl|].
  destruct (is_expired p t); [intros [= <- <-]; by apply refines_refl|].
  destruct (inventory k !! pickup_weapon p) as [a|] eqn:Ha; intros [= <- <-]; cbn [is_ok].
  - apply refines_supply; [done| |].
    + apply map_Forall_insert_2; [|apply Hk]. destruct (inv_ammo k Hk _ _ Ha). split; simpl; [done|].
      pose proof (capacities (pickup_weapon p)). lia.
    + rewrite lookup_insert_is_Some. pose proof (inv_owned k Hk).
      destruct (decide (pickup_weapon p = equipped k)); auto.
  - apply orb_false_iff in Hopen as [Hopen _].
    assert (Hammo : map_Forall ammo_ok
      (<[pickup_weapon p := ammo_clamped (pickup_ammo p) (weapon_stats (pickup_weapon p))]>
         (delete (equipped k) (inventory k)))).
    { apply map_Forall_insert_2; [by apply ammo_clamped_ok|]. apply map_Forall_delete, Hk. }
    split_and!; [| |done].
    + destruct Hk. split; simpl; try done.
      * rewrite lookup_insert_is_Some. auto.
      * intros c Hc. destruct (inv_context c Hc) as (? & ? & ?). split; [done|]. split; [done|].
        intros Hcl. unfold has_open_dive_context in Hopen. rewrite Hc in Hopen. simpl in Hopen.
        by rewrite Hcl in Hopen.
    + match goal with |- ledger_step _ _ (ledger_of ?k1) =>
        apply (ledger_supply (ledger_of k) (carried k1)) end.
      intros w n Hn. unfold carried in Hn. apply lookup_fmap_Some in Hn as (a & <- & Hw).
      destruct (Hammo w a Hw). unfold rounds. lia.
Qed.

Lemma refill_refines k : weapon_inv k -> refines k (refill_equipped_ammo k).1 LSupply.
Proof.
  intros Hk. unfold refill_equipped_ammo. cbn [fst].
  apply (refines_no_reload k (k <| inventory :=
    <[equipped k := ammo_full (weapon_stats (equipped k))]> (inventory k) |>) LSupply).
  apply refines_supply; [done| |].
  - apply map_Forall_insert_2; [apply ammo_full_ok|apply Hk].
  - rewrite lookup_insert_is_Some. auto.
Qed.

Lemma request_reload_refines k t r :
  weapon_inv k -> u64 t -> refines k (request_reload k t r).1 LTime.
Proof.
  intros Hk Ht. unfold request_reload. repeat (case_match; try by apply refines_refl).
  - destruct (advance_to k t r) as [k1 [o|e]] eqn:E; simplify_eq/=.
    pose proof (advance_refines _ _ _ _ _ Hk Ht E) as Href.
    eapply refines_time_trans; [exact Href|]. apply begin_reload_refines, Href.
  - simplify_eq/=. by eapply advance_refines.
Qed.

Lemma restore_refines k r :
  weapon_inv k -> (forall r', r = Some r' -> u64 (active_ticks r')) ->
  refines k (restore_m3_reload k r).1 LTime.
Proof.
  intros Hk Hr. unfold restore_m3_reload. destruct (is_some_and r _) eqn:E; [by apply refines_refl|].
  cbn [fst]. apply refines_time; try done. destruct Hk. split; simpl; try done.
  intros r' ->. simpl in E. rewrite !orb_false_iff in E. destruct_and! E.
  repeat match goal with H : negb _ = false |- _ => apply negb_false_iff in H end.
  split; [done|]. specialize (Hr r' eq_refl). unfold reload_ok, in_uint in *.
  match goal with H : bool_decide _ = true |- _ => apply bool_decide_eq_true in H end.
  split; [done|]. lia.
Qed.

(** ** Runs *)

Section runs.
Context `{Libm}.

Lemma weapon_step_refines k op k' e :
  weapon_inv k -> weapon_op_ok op -> weapon_step k op = (k', e) ->
  e <> EvPanicked /\ refines k k' (label_of k op e) /\
  (forall s, e = EvShot s ->
     spread_seed s = shot_spread_seed (lobby_seed k) (shooter_peer_id k) (accepted_shot_index s)).
Proof.
  intros Hk Hop E. destruct op; cbn [weapon_step weapon_op_ok] in *.
  - destruct (respawn_at k t) as [k1 b] eqn:E1. pose proof (respawn_refines _ _ _ _ Hk Hop E1).
    destruct b; simplify_eq/=; naive_solver.
  - destruct (begin_saddle_dive k id t w v airtime) as [k1 o] eqn:E1.
    destruct (begin_dive_refines _ _ _ _ _ _ _ _ Hk Hop E1) as [Hnp Href].
    destruct o as [u|[]]; simplify_eq/=; naive_solver.
  - destruct (finish_saddle_dive k id t) as [k1 o] eqn:E1.
    destruct (finish_refines _ _ _ _ _ Hk Hop E1) as [Hnp Href].
    destruct o as [u|[]]; simplify_eq/=; naive_solver.
  - simplify_eq/=. split; [done|]. split; [|done]. apply refines_supply; [done| |].
    + apply map_Forall_insert_2; [by apply ammo_clamped_ok|apply Hk].
    + rewrite lookup_insert_is_Some. pose proof (inv_owned k Hk).
      destruct (decide (w = equipped k)); auto.
  - simplify_eq/=. split; [done|]. split; [|done].
    by apply refill_refines.
  - simplify_eq/=. pose proof (equip_refines k w Hk). naive_solver.
  - simplify_eq/=. split; [done|]. split; [|done].
    apply refines_time; try done. by apply holster_inv.
  - unfold set_ammo in E. destruct (inventory k !! w) eqn:Ew; simplify_eq/=;
      (split; [done|]; split; [|done]); [|by apply refines_refl].
    apply refines_supply; [done| |].
    + apply map_Forall_insert_2; [by apply ammo_clamped_ok|apply Hk].
    + rewrite lookup_insert_is_Some. pose proof (inv_owned k Hk).
      destruct (decide (w = equipped k)); auto.
  - destruct (advance_to k t r) as [k1 o] eqn:E1. pose proof (advance_refines _ _ _ _ _ Hk Hop E1).
    destruct o; simplify_eq/=; naive_solver.
  - unfold request_m3_reload in E. pose proof (begin_reload_refines k Hk).
    destruct (has_open_dive_context k); [simplify_eq/=; split_and!; try done; by apply refines_refl|].
    destruct (begin_reload k) as [k1 []]; simplify_eq/=; naive_solver.
  - simplify_eq/=. split; [done|]. split; [|done].
    destruct (advance_reload_by_spec k elapsed paused Hk ltac:(int_lia)) as (Hi & Hs & Hc).
    unfold advance_m3_reload. rewrite Hs in *. by apply refines_time.
  - pose proof (restore_refines k r Hk Hop). destruct (restore_m3_reload k r) as [k1 []];
      simplify_eq/=; naive_solver.
  - pose proof (request_reload_refines k t r Hk Hop). destruct (request_reload k t r) as [k1 []];
      simplify_eq/=; naive_solver.
  - destruct (request_fire_detailed k t d r seed) as [k1 o] eqn:E1.
    pose proof (fire_refines _ _ _ _ _ _ _ Hk Hop E1) as Href.
    destruct o as [s|[]]; simplify_eq/=.
    + destruct Href as [Href Hseed]. split; [done|]. split; [exact Href|]. intros s' [= <-]. exact Hseed.
    + split; [done|]. by split.
    + done.
  - destruct Hop as [Hp Ht]. destruct (pickup k p distance_mm t) as [k1 o] eqn:E1.
    pose proof (pickup_refines _ _ _ _ _ _ Hk Hp E1). destruct o; simplify_eq/=; naive_solver.
Qed.

(** The labels of a run. *)
Fixpoint run_labels (k : CombatKernel) (ops : list weapon_op) : list ledger_label :=
  match ops with
  | [] => []
  | op :: ops => let '(k', e) := weapon_step k op in label_of k op e :: run_labels k' ops
  end.

Definition run_shots (es : list weapon_event) : list PreparedShot :=
  omap (fun e => match e with EvShot s => Some s | _ => None end) es.

Lemma weapon_run_refines_aux ops : forall k k' es,
  weapon_inv k -> Forall weapon_op_ok ops -> weapon_run k ops = (k', es) ->
  EvPanicked ∉ es /\ weapon_inv k' /\ statics k' = statics k /\
  ledger_run (ledger_of k) (run_labels k ops) (ledger_of k') /\
  Forall (fun s => spread_seed s =
    shot_spread_seed (lobby_seed k) (shooter_peer_id k) (accepted_shot_index s)) (run_shots es).
Proof.
  induction ops as [|op ops IH]; intros k k' es Hk Hops Hrun; cbn [weapon_run run_labels] in *.
  { simplify_eq. split; [apply not_elem_of_nil|]. do 2 (split; [done|]).
    split; [apply ledger_nil|by apply Forall_nil]. }
  apply Forall_cons in Hops as [Hop Hops].
  destruct (weapon_step k op) as [k1 e] eqn:E1. destruct (weapon_run k1 ops) as [k2 es2] eqn:E2.
  injection Hrun as <- <-.
  destruct (weapon_step_refines k op k1 e Hk Hop E1) as (Hnp & (Hi & Hs & Hst) & Hseed).
  destruct (IH k1 k2 es2 Hi Hops E2) as (Hnp2 & Hi2 & Hst2 & Hrun2 & Hseed2).
  split_and!; try done; [|congruence|by econstructor|].
  - rewrite elem_of_cons. naive_solver.
  - unfold statics in Hst. injection Hst as Hl Hp. rewrite Hl, Hp in Hseed2.
    unfold run_shots in *. destruct e; cbn [omap list_omap]; try exact Hseed2.
    apply Forall_cons. split; [by apply Hseed|exact Hseed2].
Qed.

Lemma shots_of_labels ops : forall k k' es,
  weapon_run k ops = (k', es) ->
  omap (fun l => match l with LShot t w i d => Some (t, w, i, d) | _ => None end) (run_labels k ops)
  = (fun s => (shot_tick s, shot_weapon s, accepted_shot_index s, shot_dive_id s)) <$> run_shots es.
Proof.
  induction ops as [|op ops IH]; intros k k' es Hrun; cbn [weapon_run run_labels] in *.
  { by simplify_eq. }
  destruct (weapon_step k op) as [k1 e]. destruct (weapon_run k1 ops) as [k2 es2] eqn:E2.
  injection Hrun as <- <-. specialize (IH _ _ _ E2). unfold run_shots in *.
  destruct e; cbn [omap list_omap label_of]; [destruct op; try exact IH| exact IH | exact IH |].
  - by destruct (has_open_dive_context k).
  - cbn [fmap list_fmap]. f_equal. exact IH.
Qed.
End runs.

(** ** What the ledger guarantees *)

Definition ledger_shots (ls : list ledger_label) : list (SimulationTick * WeaponId * Z * option DiveId) :=
  omap (fun l => match l with LShot t w i d => Some (t, w, i, d) | _ => None end) ls.

(** Consecutive shots are at least the later rifle's cadence apart. *)
Fixpoint spaced (rate : Z) (last : option SimulationTick)
    (shots : list (SimulationTick * WeaponId * Z * option DiveId)) : Prop :=
  match shots with
  | [] => True
  | (t, w, _, _) :: shots =>
      (forall t0, last = Some t0 -> cadence_ticks (weapon_stats w) rate <= t - t0) /\
      spaced rate (Some t) shots
  end.

Lemma ledger_spaced L ls L' :
  ledger_run L ls L' -> spaced (l_rate L) (l_last L) (ledger_shots ls).
Proof.
  induction 1 as [|L l L1 ls L2 Hs Hr IH]; [done|].
  unfold ledger_shots in *. inversion Hs; subst; simpl in *; done.
Qed.

(** Indices count the shots, from the ledger's. *)
Lemma ledger_indices L ls L' :
  ledger_run L ls L' -> 0 <= l_fired L -> l_fired L + Z.of_nat (length (ledger_shots ls)) <= u64_max ->
  (fun s => s.1.2) <$> ledger_shots ls = seqZ (l_fired L) (Z.of_nat (length (ledger_shots ls))) /\
  l_fired L' = l_fired L + Z.of_nat (length (ledger_shots ls)).
Proof.
  intros Hrun. induction Hrun as [|L l L1 ls L2 Hs Hr IH]; intros Hpos Hlen.
  { split; [done|]. cbn [ledger_shots omap list_omap length]. lia. }
  unfold ledger_shots in *. inversion Hs; subst; cbn [omap list_omap length l_fired] in *;
    try (apply IH; done || lia).
  destruct IH as [IH1 IH2]; [int_lia|int_lia|].
  rewrite saturating_add_exact in IH1, IH2 by int_lia.
  split; [|rewrite IH2; lia]. cbn [fmap list_fmap fst snd].
  rewrite (seqZ_cons (l_fired L)) by lia. f_equal. etrans; [exact IH1|]. f_equal; lia.
Qed.

Definition label_dive_cap (id : DiveId) (l : ledger_label) : Z :=
  match l with LOpen i w => if i =? id then dive_shot_cap w else 0 | _ => 0 end.
Definition dive_shots (id : DiveId) (ls : list ledger_label) : Z :=
  Z.of_nat (length (filter (fun s => s.2 = Some id) (ledger_shots ls))).
Definition window_left (id : DiveId) (w : option (DiveId * WeaponId * Z)) : Z :=
  match w with Some (i, _, n) => if i =? id then n else 0 | None => 0 end.
Definition window_sane (w : option (DiveId * WeaponId * Z)) : Prop :=
  match w with Some (_, _, n) => 0 <= n | None => True end.

(** A dive's shots never exceed what its openings granted. *)
Lemma ledger_dive_cap id L ls L' :
  ledger_run L ls L' -> window_sane (l_window L) ->
  dive_shots id ls <= window_left id (l_window L) + foldr Z.add 0 (label_dive_cap id <$> ls).
Proof.
  intros Hrun. induction Hrun as [L|L l L1 ls L2 Hs Hr IH]; intros Hw.
  { unfold dive_shots, window_left. simpl. destruct (l_window L) as [[[i ?] n]|]; simpl in *; [|lia].
    destruct (i =? id); lia. }
  assert (Hcap : forall w, 0 < dive_shot_cap w) by (by intros []).
  unfold dive_shots, ledger_shots in *.
  inversion Hs as [t Ht|t w n dive window Ht Hn Hpos Hcd Hsh|t i w Ht Ho Hn|t Ht Hn|t rs Ht Hrs|rs Hrs];
    subst; cbn [omap list_omap label_dive_cap fmap list_fmap foldr l_window] in *.
  - by apply IH.
  - inversion Hsh as [w0 E1 E2|id0 w0 n0 Hn0 E1 E2]; subst; rewrite <- E1 in Hw; simpl in *.
    + rewrite filter_cons_False by done. by apply IH.
    + specialize (IH ltac:(lia)). destruct (Z.eqb_spec id0 id) as [->|Hne].
      * rewrite filter_cons_True by done. simpl. lia.
      * rewrite filter_cons_False by (simpl; congruence). lia.
  - specialize (IH ltac:(simpl; specialize (Hcap w); lia)). rewrite Hn. simpl in *.
    destruct (i =? id); lia.
  - specialize (IH I). simpl in IH. destruct (l_window L) as [[[i ?] n]|]; simpl in *; [|lia].
    destruct (i =? id); lia.
  - specialize (IH I). simpl in IH. destruct (l_window L) as [[[i ?] n]|]; simpl in *; [|lia].
    destruct (i =? id); lia.
  - by apply IH.
Qed.

Definition label_supplies (l : ledger_label) : bool :=
  match l with LSupply | LRespawn => true | _ => false end.
Definition weapon_shots (w : WeaponId) (ls : list ledger_label) : Z :=
  Z.of_nat (length (filter (fun s => s.1.1.2 = w) (ledger_shots ls))).

(** Between supplies, a rifle's rounds are what it had less what it fired. *)
Lemma ledger_conservation w L ls L' :
  ledger_run L ls L' -> forallb (fun l => negb (label_supplies l)) ls = true ->
  l_rounds L' !! w = (fun n => n - weapon_shots w ls) <$> l_rounds L !! w.
Proof.
  intros Hrun. induction Hrun as [L|L l L1 ls L2 Hs Hr IH]; intros Hsup.
  { unfold weapon_shots. simpl. destruct (l_rounds L !! w); simpl; [|done]. f_equal. lia. }
  simpl in Hsup. apply andb_true_iff in Hsup as [Hl Hsup]. rewrite (IH Hsup).
  unfold weapon_shots, ledger_shots in *.
  inversion Hs; subst; cbn [omap list_omap l_rounds label_supplies negb] in *; try done.
  destruct (decide (w0 = w)) as [->|Hne].
  - rewrite lookup_insert_eq, filter_cons_True by done. simpl.
    match goal with H : l_rounds L !! w = Some _ |- _ => rewrite H end. simpl. f_equal. lia.
  - rewrite lookup_insert_ne, filter_cons_False by (simpl; congruence). done.
Qed.

(** ** The properties of the weapon kernel *)

Definition weapon_start (k : CombatKernel) : Prop :=
  exists rate seed p w, u32 rate /\
    (with_weapon rate seed p w = Ok k \/ with_full_loadout rate seed p = Ok k).

Lemma with_weapon_inv rate seed p w k :
  u32 rate -> with_weapon rate seed p w = Ok k -> weapon_inv k.
Proof.
  intros Hr. unfold with_weapon. destruct (Z.eqb_spec rate 0); [done|]. intros [= <-].
  split; cbn; try done; [unfold in_uint in *; lia| |].
  - apply map_Forall_singleton, ammo_full_ok.
  - rewrite lookup_singleton_eq. eauto.
Qed.

Lemma weapon_start_inv k : weapon_start k -> weapon_inv k.
Proof.
  intros (rate & seed & p & w & Hr & [E|E]); [by eapply with_weapon_inv|].
  unfold with_full_loadout, kernel_new in E.
  destruct (with_weapon rate seed p Dustwalker) as [k0|] eqn:E0; [|done].
  apply Ok_inj in E as <-.
  assert (Hfold : forall ws k1, weapon_inv k1 -> weapon_inv (fold_left (fun k w =>
    k <| inventory := <[w := ammo_full (weapon_stats w)]> (inventory k) |>) ws k1)).
  { induction ws as [|w' ws IH]; intros k1 Hk1; [done|]. apply IH.
    destruct Hk1. split; simpl; try done.
    - apply map_Forall_insert_2; [apply ammo_full_ok|done].
    - rewrite lookup_insert_is_Some. destruct (decide (w' = equipped k1)); auto. }
  apply Hfold. by eapply with_weapon_inv.
Qed.

(** The shots of a run, as the ledger names them. *)
Definition shot_entry (s : PreparedShot) : SimulationTick * WeaponId * Z * option DiveId :=
  (shot_tick s, shot_weapon s, accepted_shot_index s, shot_dive_id s).

Section properties.
Context `{Libm}.

(** C38. The state of a shooter is well formed under any operations, refused ones
    included: every magazine and reserve stays within its rifle's capacities, the
    equipped rifle is owned, a reload belongs to the rifle in hand and has not run
    out, an open dive has shots left of its own rifle. No operation ever panics:
    the [expect]s of the dive and of the fire path are never reached with nothing. *)
Theorem weapon_state_typed k ops k' es :
  weapon_start k -> Forall weapon_op_ok ops -> weapon_run k ops = (k', es) ->
  weapon_inv k' /\ EvPanicked ∉ es.
Proof.
  intros Hk%weapon_start_inv Hops Hrun.
  by destruct (weapon_run_refines_aux ops k k' es Hk Hops Hrun) as (? & ? & _).
Qed.

(** C16. The kernel refines the ledger: under its abstraction, every operation of
    any run is one step of the ledger with the operation's label. So a shot takes
    exactly one round of the rifle in hand, only a supply or a respawn adds rounds,
    reloads move none in or out, refused operations change nothing but the clock,
    and no operation moves the clock back. *)
Theorem weapon_refines_ledger k ops k' es :
  weapon_inv k -> Forall weapon_op_ok ops -> weapon_run k ops = (k', es) ->
  ledger_run (ledger_of k) (run_labels k ops) (ledger_of k') /\
  ledger_shots (run_labels k ops) = shot_entry <$> run_shots es.
Proof.
  intros Hk Hops Hrun.
  destruct (weapon_run_refines_aux ops k k' es Hk Hops Hrun) as (_ & _ & _ & Hl & _).
  split; [exact Hl|]. by eapply shots_of_labels.
Qed.

(** The accepted shots of any run: they carry consecutive indices and the seed
    derived from the lobby, the shooter and that index; each is at least its
    rifle's cadence after the one before, through reloads, swaps, dives and
    respawns; a dive opened once fires at most its rifle's cap. *)
Theorem accepted_shots_contract k ops k' es :
  weapon_start k -> Forall weapon_op_ok ops -> weapon_run k ops = (k', es) ->
  Z.of_nat (length (run_shots es)) <= u64_max ->
  let shots := run_shots es in
  accepted_shot_index <$> shots = seqZ 0 (Z.of_nat (length shots)) /\
  Forall (fun s => spread_seed s =
    shot_spread_seed (lobby_seed k) (shooter_peer_id k) (accepted_shot_index s)) shots /\
  spaced (tick_rate k) None (shot_entry <$> shots) /\
  (forall id w, (forall l, l ∈ run_labels k ops -> label_dive_cap id l <> 0 -> l = LOpen id w) ->
     (length (filter (fun l => label_dive_cap id l <> 0%Z) (run_labels k ops)) <= 1)%nat ->
     Z.of_nat (length (filter (fun s => shot_dive_id s = Some id) shots)) <= dive_shot_cap w).
Proof.
  intros Hstart Hops Hrun Hlen shots.
  pose proof (weapon_start_inv k Hstart) as Hk.
  destruct (weapon_run_refines_aux ops k k' es Hk Hops Hrun) as (_ & _ & _ & Hl & Hseeds).
  pose proof (shots_of_labels ops k k' es Hrun) as Hent.
  change (ledger_shots (run_labels k ops) = shot_entry <$> shots) in Hent.
  assert (Hstart0 : l_fired (ledger_of k) = 0 /\ l_last (ledger_of k) = None /\
                    l_window (ledger_of k) = None).
  { destruct Hstart as (rate & seed & p & w & _ & E).
    assert (Hw : forall w0, with_weapon rate seed p w0 = Ok k ->
      shot_index k = 0 /\ last_accepted_tick k = None /\ dive_context k = None).
    { unfold with_weapon. intros w0. destruct (rate =? 0); [done|]. by intros [= <-]. }
    unfold ledger_of, window. cbn [l_fired l_last l_window].
    destruct E as [E|E]; [by destruct (Hw _ E) as (-> & -> & ->)|].
    unfold with_full_loadout, kernel_new, with_weapon in E.
    destruct (rate =? 0); [done|]. by injection E as <-. }
  destruct Hstart0 as (H0 & H1 & H2).
  assert (Hn : length (ledger_shots (run_labels k ops)) = length shots)
    by (rewrite Hent; apply length_fmap).
  split; [|split; [exact Hseeds|split]].
  - destruct (ledger_indices _ _ _ Hl) as [Hidx _]; [lia|rewrite Hn, H0; exact Hlen|].
    rewrite Hn, H0, Hent, <- list_fmap_compose in Hidx. exact Hidx.
  - rewrite <- Hent, <- H1. exact (ledger_spaced _ _ _ Hl).
  - intros id w Honly Honce.
    pose proof (ledger_dive_cap id _ _ _ Hl) as Hcap. rewrite H2 in Hcap. specialize (Hcap I).
    unfold dive_shots in Hcap. rewrite Hent in Hcap.
    assert (Hf : length (filter (fun s => s.2 = Some id) (shot_entry <$> shots))
                 = length (filter (fun s => shot_dive_id s = Some id) shots)).
    { by apply length_filter_fmap. }
    rewrite Hf in Hcap. simpl in Hcap. etrans; [exact Hcap|]. clear Hcap Hf.
    clear -Honly Honce. induction (run_labels k ops) as [|l ls IH]; [by destruct w|].
    cbn [fmap list_fmap foldr]. destruct (decide (label_dive_cap id l = 0)) as [E|E].
    + rewrite E. apply IH; [intros l' Hl'; apply Honly; by right|].
      by rewrite filter_cons_False in Honce by (by intros []).
    + rewrite filter_cons_True in Honce by done. cbn [length] in Honce.
      assert (Hrest : foldr Z.add 0 (label_dive_cap id <$> ls) = 0).
      { clear IH Honly. induction ls as [|l' ls IH]; [done|]. cbn [fmap list_fmap foldr].
        destruct (decide (label_dive_cap id l' = 0)) as [E'|E'].
        - rewrite E', IH; [done|]. by rewrite filter_cons_False in Honce by (by intros []).
        - rewrite filter_cons_True in Honce by done. cbn [length] in Honce. lia. }
      rewrite Hrest, (Honly l ltac:(left) E). simpl. rewrite Z.eqb_refl. lia.
Qed.

(** Rounds are conserved: between two supplies, whatever else happens, a rifle
    that stays in the inventory holds what it held less the shots it fired. *)
Theorem rounds_conserved k ops k' es w a :
  weapon_inv k -> Forall weapon_op_ok ops -> weapon_run k ops = (k', es) ->
  forallb (fun l => negb (label_supplies l)) (run_labels k ops) = true ->
  inventory k !! w = Some a ->
  exists a', inventory k' !! w = Some a' /\
    rounds a' = rounds a - Z.of_nat (length (filter (fun s => shot_weapon s = w) (run_shots es))).
Proof.
  intros Hk Hops Hrun Hsup Ha.
  destruct (weapon_run_refines_aux ops k k' es Hk Hops Hrun) as (_ & _ & _ & Hl & _).
  pose proof (shots_of_labels ops k k' es Hrun) as Hent.
  change (ledger_shots (run_labels k ops) = shot_entry <$> run_shots es) in Hent.
  pose proof (ledger_conservation w _ _ _ Hl Hsup) as Hc. cbn [l_rounds ledger_of] in Hc.
  unfold carried in Hc. rewrite !lookup_fmap, Ha in Hc. unfold weapon_shots in Hc.
  rewrite Hent, (length_filter_fmap shot_entry _ (fun s => shot_weapon s = w)) in Hc by done.
  simpl in Hc.
  apply fmap_Some in Hc as (a' & Ha' & Hr). exists a'. split; [exact Ha'|]. symmetry. exact Hr.
Qed.

(** The dive a shot of this rider belongs to. *)
Definition shot_dive (k : CombatKernel) (r : RidingState) : option DiveFireContext :=
  if bool_decide (stance r = SaddleDiveAirborne) then dive_context k else None.

(** The direction an accepted shot would take. *)
Definition shot_direction (k : CombatKernel) (t : SimulationTick) (d : QuantizedDirection)
    (r : RidingState) : option QuantizedDirection :=
  let dive := shot_dive k r in
  let handling := dive_handling dive r in
  spread_direction d (next_spread_seed k)
    (effective_spread_millidegrees (weapon_stats (equipped k)) handling)
    (fire_sway k dive t handling).

(** What the gates and the aim see does not change while time advances. *)
Lemma fire_frame k t r ka oa :
  weapon_inv k -> u64 t -> advance_to k t r = (ka, oa) ->
  equipped ka = equipped k /\ last_accepted_tick ka = last_accepted_tick k /\
  tick_rate ka = tick_rate k /\ next_spread_seed ka = next_spread_seed k /\
  (last_advanced_tick k <= t -> is_ok oa = true /\
     (carries_mounted_weapon (stance r) = true -> holstered ka = holstered k)) /\
  (forall d dive, dive_gate k r = Ok dive ->
     spread_direction d (next_spread_seed ka)
       (effective_spread_millidegrees (weapon_stats (equipped ka)) (dive_handling dive r))
       (fire_sway ka dive t (dive_handling dive r)) = shot_direction k t d r).
Proof.
  intros Hk Ht Hadv. pose proof (advance_to_spec k t r ka oa Hk Ht Hadv)
    as (_ & Hok & _ & _ & He & Hs & Hla & _ & Hr & Hl & Hp).
  assert (Hseed : next_spread_seed ka = next_spread_seed k)
    by (unfold next_spread_seed; rewrite Hl, Hp, Hs; reflexivity).
  do 4 (split; [done|]). split.
  { intros Hle. by destruct (Hok Hle) as ([o ->] & _ & _ & Hh). }
  intros d dive Hg. assert (dive = shot_dive k r) as ->.
  { apply dive_gate_Ok in Hg. unfold shot_dive.
    destruct Hg as (_ & [(Hs' & _ & ->)|(c & Hs' & -> & -> & _)]).
    - by rewrite bool_decide_eq_false_2.
    - by rewrite bool_decide_eq_true_2. }
  unfold shot_direction, fire_sway. rewrite He, Hr, Hseed. reflexivity.
Qed.

(** The conditions under which a request is accepted. *)
Definition fire_conditions (k : CombatKernel) (t : SimulationTick) (d : QuantizedDirection)
    (r : RidingState) (seed : Z) : Prop :=
  let k1 := (advance_to k t r).1 in
  last_advanced_tick k <= t /\ riding_is_consistent r = true /\
  ((stance r = Mounted /\ has_open_dive_context k = false) \/
   (exists c, stance r = SaddleDiveAirborne /\ dive_context k = Some c /\
      dive_id r = Some (context_dive_id c) /\ closed_to_new_shots c = false /\
      accepted_count c < dive_shot_cap (equipped k))) /\
  is_normalized d = true /\ stumbling r = false /\ holstered k = false /\ reload k1 = None /\
  (forall t0, last_accepted_tick k = Some t0 ->
     cadence_ticks (weapon_stats (equipped k)) (tick_rate k) <= t - t0) /\
  magazine (equipped_ammo k1) <> 0 /\ seed = next_spread_seed k /\
  is_Some (shot_direction k t d r).

Lemma fire_accepted_needs k t d r seed :
  weapon_inv k -> u64 t ->
  is_ok (request_fire_detailed k t d r seed).2 = true -> fire_conditions k t d r seed.
Proof.
  intros Hk Ht Hout. unfold fire_conditions, request_fire_detailed in *.
  destruct (advance_to k t r) as [ka oa] eqn:Hadv.
  destruct (fire_frame k t r ka oa Hk Ht Hadv) as (He & Hla & Hr & Hseed & Hok & Hdir).
  cbn [fst]. destruct (Z.ltb_spec t (last_advanced_tick k)) as [|Hle]; [done|].
  destruct (dive_gate k r) as [dive|] eqn:Hg; [|done].
  destruct (Hok Hle) as [Hoa Hhol]. destruct oa; [|done].
  destruct (fire_gate ka t d r) eqn:Hf; [done|].
  destruct (Z.eqb_spec seed (next_spread_seed ka)) as [->|]; [|done]. cbn [negb] in Hout.
  cbv zeta in Hout. rewrite (Hdir d dive eq_refl) in Hout.
  destruct (shot_direction k t d r) as [dir|]; [|done].
  apply fire_gate_None in Hf as (Hn & Hst & Hstum & Hh & Hrel & Hcad & Hm).
  apply dive_gate_Ok in Hg as (Hcons & Hg). split; [done|]. split; [done|]. split.
  { destruct Hg as [(Hns & Hopen & _)|(c & Hss & Hcx & _ & Hid & Hcl & Heq & Hcnt)].
    - left. destruct Hst; done.
    - right. exists c. rewrite Heq. by split_and!. }
  split; [done|]. split; [done|]. split.
  { rewrite <- Hhol; [done|]. by destruct Hst as [-> | ->]. }
  split; [done|]. split; [|split; [done|]; split; [exact Hseed|eauto]].
  intros t0 Ht0. rewrite <- He, <- Hr. apply Hcad. congruence.
Qed.

Lemma fire_accepted_when k t d r seed :
  weapon_inv k -> u64 t ->
  fire_conditions k t d r seed -> is_ok (request_fire_detailed k t d r seed).2 = true.
Proof.
  intros Hk Ht. unfold fire_conditions, request_fire_detailed.
  destruct (advance_to k t r) as [ka oa] eqn:Hadv. cbn [fst].
  destruct (fire_frame k t r ka oa Hk Ht Hadv) as (He & Hla & Hr & Hseed & Hok & Hdir).
  intros (Hle & Hcons & Hg & Hn & Hstum & Hh & Hrel & Hcad & Hm & -> & [dir Hdr]).
  destruct (Hok Hle) as [Hoa Hhol]. destruct oa; [|done].
  destruct (Z.ltb_spec t (last_advanced_tick k)); [lia|].
  assert (Hgk : dive_gate k r = Ok (shot_dive k r)).
  { apply dive_gate_Ok. split; [done|]. unfold shot_dive.
    destruct Hg as [(Hms & Hopen)|(c & Hss & Hcx & Hid & Hcl & Hcnt)].
    - left. rewrite Hms. done.
    - right. exists c. rewrite Hss, Hcx. cbn.
      destruct (inv_context k Hk c Hcx) as (_ & _ & Heq). rewrite (Heq Hcl). by split_and!. }
  assert (Hf : fire_gate ka t d r = None).
  { apply fire_gate_None. split; [done|]. split; [destruct Hg as [[? _]|(? & ? & _)]; auto|].
    split; [done|]. split; [rewrite Hhol; [done|]; destruct Hg as [[-> _]|(? & -> & _)]; done|].
    split; [done|]. split; [|done]. intros t0 Ht0. rewrite Hla in Ht0. rewrite He, Hr.
    destruct (inv_accepted k Hk t0 Ht0). split; [lia|]. by apply Hcad. }
  rewrite Hgk, Hf, <- Hseed, Z.eqb_refl. cbn [negb]. cbv zeta. rewrite (Hdir d _ Hgk), Hdr.
  unfold commit_shot. rewrite (equipped_ammo_Some ka Hm). done.
Qed.

Lemma fire_takes_one_round k t d r seed :
  weapon_inv k -> u64 t ->
  is_ok (request_fire_detailed k t d r seed).2 = true ->
  let k1 := (advance_to k t r).1 in
  inventory (request_fire_detailed k t d r seed).1
  = <[equipped k := mkWeaponAmmo (magazine (equipped_ammo k1) - 1) (reserve (equipped_ammo k1))]>
      (inventory k1).
Proof.
  intros Hk Ht Hout. destruct (request_fire_detailed k t d r seed) as [k' o] eqn:Hfire.
  cbn [fst snd] in *. destruct (fire_cases k t d r seed k' o Hk Ht Hfire)
    as [[-> [e ->]]|(ka & oa & Hadv & Hle & [[-> [e ->]]|Hacc])]; [done|done|].
  destruct Hacc as (dive & spread & sway & dir & shot & _ & Hf & -> & _ & Hcm & ->).
  rewrite Hadv. cbn [fst]. pose proof (advance_to_spec k t r ka oa Hk Ht Hadv)
    as (Hi & _ & _ & _ & He & _).
  apply fire_gate_None in Hf as (_ & _ & _ & _ & _ & _ & Hm).
  pose proof (equipped_ammo_Some ka Hm) as Ha. destruct (inv_ammo ka Hi _ _ Ha) as [[Hpos _] _].
  unfold commit_shot in Hcm. rewrite Ha in Hcm. cbn [mbind option_bind] in Hcm.
  injection Hcm as <- _. rewrite <- He.
  assert (Hdec : saturating_sub (magazine (equipped_ammo ka)) 1 = magazine (equipped_ammo ka) - 1)
    by int_lia.
  destruct (is_some dive); simpl; rewrite Hdec; reflexivity.
Qed.

(** A shot is accepted exactly when the command is not older than the kernel,
    the rider sits mounted outside any dive or flies the open dive with a shot
    left, the aim is a unit vector, the rider neither stumbles nor has holstered,
    no reload is left once time has reached the shot, the cadence has elapsed, the
    magazine has a round, the seed is the derived one, and the spread yields a
    direction. It then takes one round from that magazine. *)
Theorem fire_accepted_iff k t d r seed :
  weapon_inv k -> u64 t ->
  let k1 := (advance_to k t r).1 in
  let out := request_fire_detailed k t d r seed in
  (is_ok out.2 = true <-> fire_conditions k t d r seed) /\
  (is_ok out.2 = true ->
   inventory out.1 = <[equipped k := mkWeaponAmmo (magazine (equipped_ammo k1) - 1)
                                       (reserve (equipped_ammo k1))]> (inventory k1)).
Proof.
  intros Hk Ht k1 out. split; [split|].
  - by apply fire_accepted_needs.
  - by apply fire_accepted_when.
  - by apply fire_takes_one_round.
Qed.
End properties.

(** ** Reloads *)

(** Time passes in pieces, some of them paused by the sprint. *)
Definition advance_reloads (k : CombatKernel) (steps : list (Z * bool)) : CombatKernel :=
  fold_left (fun k s => (advance_reload_by k s.1 s.2).1) steps k.

Definition unpaused (steps : list (Z * bool)) : Z :=
  foldr Z.add 0 ((fun s => if (s : Z * bool).2 then 0 else s.1) <$> steps).

(** The kernel once the reload [r] has run for [n] ticks. *)
Definition reloaded (k : CombatKernel) (r : ReloadSnapshot) (n : Z) : CombatKernel :=
  if required_ticks r <=? n then
    k <| inventory := <[equipped k := (reload_ammo (weapon_stats (equipped k)) (equipped_ammo k)).1]>
                        (inventory k) |>
      <| reload := None |>
  else k <| reload := Some (mkReloadSnapshot (reload_weapon r) n (required_ticks r)) |>.

Lemma advance_reloads_idle steps k : reload k = None -> advance_reloads k steps = k.
Proof.
  intros Hr. induction steps as [|s steps IH]; [done|].
  unfold advance_reloads in *. cbn [fold_left]. unfold advance_reload_by at 2. by rewrite Hr.
Qed.

Lemma unpaused_nonneg steps : Forall (fun s => 0 <= s.1) steps -> 0 <= unpaused steps.
Proof.
  unfold unpaused. induction 1 as [|[e p] steps He Hs IH]; [done|].
  cbn [fmap list_fmap foldr snd fst] in *. destruct p; lia.
Qed.

Lemma required_ticks_small w rate : 0 < rate < 2 ^ 32 -> reload_ticks (weapon_stats w) rate < 2 ^ 62.
Proof.
  intros Hr. unfold reload_ticks, saturating_mul, div_ceil. destruct (Z.eqb_spec rate 0); [lia|].
  apply Z.div_lt_upper_bound; [done|]. pow_norm. change (2 ^ 62) with 4611686018427387904. lia.
Qed.

(** One piece of time. *)
Lemma advance_reload_by_eq k r e p :
  weapon_inv k -> reload k = Some r -> 0 <= e ->
  (advance_reload_by k e p).1 = reloaded k r (active_ticks r + (if p then 0 else e)).
Proof.
  intros Hk Hr He. destruct (inv_reload k Hk r Hr) as (_ & Hw & Ha & Hreq).
  pose proof (required_ticks_small (equipped k) (tick_rate k) (inv_rate k Hk)) as Hsmall.
  destruct (inv_owned k Hk) as [a Hown].
  unfold advance_reload_by, reloaded. rewrite Hr. cbn [required_ticks active_ticks reload_weapon].
  rewrite Hw, Hown. unfold equipped_ammo, ammo. rewrite Hown. cbn [default from_option].
  set (act := if p then _ else saturating_add 64 _ _).
  assert (Hact : (required_ticks r <=? act) = (required_ticks r <=? active_ticks r + (if p then 0 else e))
                 /\ (required_ticks r <=? act = false -> act = active_ticks r + (if p then 0 else e))).
  { unfold act. change (2 ^ 62) with 4611686018427387904 in Hsmall.
    destruct p; [rewrite Z.add_0_r; done|]. split.
    - apply eq_true_iff_eq. rewrite !Z.leb_le. int_lia.
    - intros Hn%Z.leb_gt. int_lia. }
  destruct Hact as [Hact Heq]. rewrite <- Hact. destruct (required_ticks r <=? act).
  - unfold id. by destruct (reload_ammo (weapon_stats (equipped k)) a).
  - by rewrite (Heq eq_refl).
Qed.

(** A reload depends only on the unpaused time: however it is cut into ticks,
    and wherever the sprint pauses it, it is still running with exactly that time
    on it before its duration, and from its duration on it has moved, once, as
    many rounds from the reserve as fit the magazine. *)
Theorem reload_schedule_independent steps : forall k r,
  weapon_inv k -> reload k = Some r -> Forall (fun s => 0 <= s.1) steps ->
  advance_reloads k steps = reloaded k r (active_ticks r + unpaused steps).
Proof.
  induction steps as [|[e p] steps IH]; intros k r Hk Hr Hsteps.
  { destruct (inv_reload k Hk r Hr) as (_ & _ & Ha & _). unfold reloaded, unpaused. simpl.
    rewrite Z.add_0_r. destruct (Z.leb_spec (required_ticks r) (active_ticks r)); [lia|].
    destruct k, r. simpl in *. by subst. }
  apply Forall_cons in Hsteps as [He Hsteps]. cbn [fst] in He.
  pose proof (unpaused_nonneg steps Hsteps) as Hnn.
  destruct (advance_reload_by_spec k e p Hk He) as (Hi & _).
  unfold advance_reloads in *. cbn [fold_left fst snd].
  rewrite advance_reload_by_eq with (r := r) in * by done.
  assert (Hun : unpaused ((e, p) :: steps) = (if p then 0 else e) + unpaused steps) by done.
  rewrite Hun. unfold reloaded in *.
  destruct (Z.leb_spec (required_ticks r) (active_ticks r + (if p then 0 else e))) as [Hd|Hd].
  - rewrite (proj2 (Z.leb_le _ _)) by lia. by apply advance_reloads_idle.
  - rewrite (IH _ (mkReloadSnapshot (reload_weapon r) (active_ticks r + (if p then 0 else e))
                     (required_ticks r)) Hi eq_refl Hsteps).
    unfold reloaded. cbn [active_ticks required_ticks reload_weapon]. rewrite Z.add_assoc.
    destruct (required_ticks r <=? _); done.
Qed.

(** ** A concrete shooter *)

Definition demo_shooter : PlayerId := mkProtocolId [0;0;0;0;0;0;64;0;128;0;0;0;0;0;0;2].
Definition demo_kernel : CombatKernel :=
  match with_full_loadout 60 7 demo_shooter with
  | Ok k => k
  | Err _ => mkCombatKernel 0 0 demo_shooter ∅ Dustwalker false None None 0 0 recoil_default riding_default None
  end.
Definition ahead : QuantizedDirection := mkQuantizedDirection 0 0 (-1000000).
Definition diving : RidingState := riding_default <| stance := SaddleDiveAirborne |> <| dive_id := Some 1 |>.
Definition demo_seed (i : Z) : Z := shot_spread_seed 7 demo_shooter i.

(** A mounted shot, one refused by the cadence, a dive with four attempts of which
    the cap admits three, a landing, a remount with a reload, and a last shot. *)
Definition demo_ops : list weapon_op :=
  [OpFire 10 ahead riding_default (demo_seed 0);
   OpFire 12 ahead riding_default (demo_seed 1);
   OpBeginDive 1 20 Dustwalker (0, -9000) 45;
   OpFire 25 ahead diving (demo_seed 1); OpFire 33 ahead diving (demo_seed 2);
   OpFire 41 ahead diving (demo_seed 3); OpFire 49 ahead diving (demo_seed 4);
   OpFinishDive 1 65; OpAdvance 300 riding_default; OpEquip Dustwalker;
   OpReload 310 riding_default; OpAdvance 500 riding_default;
   OpFire 510 ahead riding_default (demo_seed 4)].

#[local] Existing Instance small_angle_libm.

Lemma demo_start : weapon_start demo_kernel.
Proof. exists 60, 7, demo_shooter, Dustwalker. split; [by vm_compute|]. by right. Qed.
Lemma demo_ops_ok : Forall weapon_op_ok demo_ops.
Proof. repeat constructor; by vm_compute. Qed.

Definition demo_end : CombatKernel := (weapon_run demo_kernel demo_ops).1.
Definition demo_events : list weapon_event := (weapon_run demo_kernel demo_ops).2.
Lemma demo_run : weapon_run demo_kernel demo_ops = (demo_end, demo_events).
Proof. unfold demo_end, demo_events. by destruct (weapon_run demo_kernel demo_ops). Qed.

Lemma weapon_state_typed_witness : weapon_inv demo_end.
Proof.
  exact (proj1 (weapon_state_typed demo_kernel demo_ops demo_end demo_events demo_start demo_ops_ok
                  demo_run)).
Defined.

Lemma weapon_refines_ledger_witness :
  length (run_labels demo_kernel demo_ops) = 13%nat /\
  ledger_run (ledger_of demo_kernel) (run_labels demo_kernel demo_ops)
             (ledger_of demo_end).
Proof.
  split; [by vm_compute|].
  exact (proj1 (weapon_refines_ledger demo_kernel demo_ops demo_end demo_events
                  (weapon_start_inv _ demo_start) demo_ops_ok demo_run)).
Defined.

Lemma demo_labels : run_labels demo_kernel demo_ops =
  [LShot 10 Dustwalker 0 None; LTime; LOpen 1 Dustwalker;
   LShot 25 Dustwalker 1 (Some 1); LShot 33 Dustwalker 2 (Some 1); LShot 41 Dustwalker 3 (Some 1);
   LTime; LClose; LTime; LTime; LTime; LTime; LShot 510 Dustwalker 4 None].
Proof. by vm_compute. Qed.

Lemma demo_one_dive l :
  l ∈ run_labels demo_kernel demo_ops -> label_dive_cap 1 l <> 0 -> l = LOpen 1 Dustwalker.
Proof.
  rewrite demo_labels. revert l.
  apply (proj1 (Forall_forall (fun l => label_dive_cap 1 l <> 0 -> l = LOpen 1 Dustwalker) _)).
  repeat constructor; done.
Qed.

Lemma accepted_shots_contract_witness :
  let shots := run_shots demo_events in
  length shots = 5%nat /\ accepted_shot_index <$> shots = [0; 1; 2; 3; 4] /\
  Z.of_nat (length (filter (fun s => shot_dive_id s = Some 1) shots)) <= 3.
Proof.
  intros shots.
  destruct (accepted_shots_contract demo_kernel demo_ops demo_end demo_events demo_start
              demo_ops_ok demo_run ltac:(by vm_compute)) as (H1 & _ & _ & H2).
  split; [vm_compute; reflexivity|]. split; [exact H1|].
  apply (H2 1 Dustwalker demo_one_dive). clear. vm_compute. constructor.
Defined.

Lemma rounds_conserved_witness :
  exists a', inventory demo_end !! Dustwalker = Some a' /\ rounds a' = 145.
Proof.
  destruct (rounds_conserved demo_kernel demo_ops demo_end demo_events Dustwalker
              (mkWeaponAmmo 30 120) (weapon_start_inv _ demo_start) demo_ops_ok demo_run
              ltac:(by vm_compute) ltac:(by vm_compute)) as (a' & H1 & H2).
  exists a'. split; [exact H1|]. rewrite H2. by vm_compute.
Defined.

Lemma fire_accepted_iff_witness :
  fire_conditions demo_kernel 10 ahead riding_default (demo_seed 0).
Proof.
  apply (proj1 (fire_accepted_iff demo_kernel 10 ahead riding_default (demo_seed 0)
                  (weapon_start_inv _ demo_start) ltac:(by vm_compute))).
  by vm_compute.
Defined.

(** 126 ticks of reload at 60 Hz, of which the sprint pauses thirty. *)
Definition reloading_kernel : CombatKernel :=
  (weapon_run demo_kernel (take 11 demo_ops)).1.
Lemma reload_schedule_independent_witness :
  reload (advance_reloads reloading_kernel [(100, false); (30, true); (25, false)]) <> None /\
  reload (advance_reloads reloading_kernel [(100, false); (30, true); (26, false)]) = None.
Proof.
  assert (Hi : weapon_inv reloading_kernel).
  { apply (weapon_run_refines_aux (take 11 demo_ops) demo_kernel _ _ (weapon_start_inv _ demo_start)
             ltac:(repeat constructor; by vm_compute) (surjective_pairing _)). }
  assert (Hr : reload reloading_kernel = Some (mkReloadSnapshot Dustwalker 0 126)) by (by vm_compute).
  split.
  - rewrite (reload_schedule_independent _ _ _ Hi Hr) by (repeat constructor; done). by vm_compute.
  - rewrite (reload_schedule_independent _ _ _ Hi Hr) by (repeat constructor; done). by vm_compute.
Defined.
