(* ===== verification/ShotLedger.v ===== *)
(** * The match-lifetime shot ledger ([saddle_dive.rs], [ShotAttributionLedger])

    Accepted shots and their results, kept for late attribution: every result is
    applied at most once, and the style notifications of a shot are derived from
    what was stored when it was accepted. *)

From Stdlib Require Import String.
From S2P Require Import Prelude MachineInt SplitMix Ordered Clock Bytes Identifiers Stance Combat.
From S2P Require Import DiveMath Aim WeaponKernel.
Open Scope Z_scope.

(** ** Results and telemetry ([combat.rs]) *)

Inductive ShotOutcome := ShotHit | ShotMiss | ShotReject.
#[export] Instance ShotOutcome_eq_dec : EqDecision ShotOutcome.
Proof. solve_decision. Defined.
#[export] Instance HitZone_eq_dec : EqDecision HitZone.
Proof. solve_decision. Defined.

Record ShotResult := mkShotResult {
  result_tick : SimulationTick;
  result_shooter : PlayerId;
  result_weapon : WeaponId;
  outcome : ShotOutcome;
  rejection_reason : option ShotRejectionReason;
  result_direction : option QuantizedDirection;
  target_id : option EntityId;
  hit_zone : option HitZone;
  damage : Z;
  distance_mm : option Z;
  eliminated : bool;
}.

Record ShotTelemetry := mkShotTelemetry {
  telemetry_tick : SimulationTick;
  telemetry_shooter : PlayerId;
  telemetry_weapon : WeaponId;
  ammo_mag : Z;
  ammo_reserve : Z;
  telemetry_spread : Z;
  telemetry_sway : Z;
  telemetry_gait : CombatGait;
  telemetry_stance : RiderStance;
  speed_mmps : Z;
  telemetry_origin : QuantizedOrigin;
  telemetry_direction : QuantizedDirection;
  telemetry_result : ShotOutcome;
  reject_reason : option ShotRejectionReason;
  telemetry_target : option EntityId;
  telemetry_zone : option HitZone;
  telemetry_damage : Z;
  telemetry_distance : option Z;
}.

(** ** Notifications *)

Inductive GameplayEventKind :=
| FlyingDismount | SaddleDiveHeadshot | FullGallopHit | AirborneReversal.
#[export] Instance GameplayEventKind_eq_dec : EqDecision GameplayEventKind.
Proof. solve_decision. Defined.

Definition event_text (self : GameplayEventKind) : string :=
  match self with
  | FlyingDismount => "FLYING DISMOUNT"
  | SaddleDiveHeadshot => "SADDLE DIVE HEADSHOT"
  | FullGallopHit => "FULL-GALLOP HIT"
  | AirborneReversal => "AIRBORNE REVERSAL"
  end.

Record GameplayEventId := mkGameplayEventId {
  event_epoch : Z;
  event_actor : PlayerId;
  source_tick : SimulationTick;
  id_kind : GameplayEventKind;
  event_sequence : Z;
}.

Record GameplayEventRow := mkGameplayEventRow {
  event_id : GameplayEventId;
  event_kind : GameplayEventKind;
  event_tick : SimulationTick;
  row_actor : PlayerId;
  event_dive : option DiveId;
  event_weapon : option WeaponId;
  event_target : option EntityId;
  event_zone : option HitZone;
  event_damage : Z;
  text : string;
}.

(** ** The ledger *)

Record AcceptedShotMetadata := mkAcceptedShotMetadata {
  shooter : PlayerId;
  meta_tick : SimulationTick;
  meta_index : Z;
  meta_weapon : WeaponId;
  meta_stance : RiderStance;
  meta_gait : CombatGait;
  meta_dive : option DiveId;
  meta_velocity : Z * Z;
}.
#[export] Instance AcceptedShotMetadata_eq_dec : EqDecision AcceptedShotMetadata.
Proof. solve_decision. Defined.

Definition metadata_is_consistent (self : AcceptedShotMetadata) : bool :=
  Bool.eqb (is_dive_airborne (meta_stance self)) (is_some (meta_dive self))
  && match meta_stance self with Mounted | SaddleDiveAirborne => true | _ => false end.

Abbreviation ShotKey := (PlayerId * Z)%type.

Record ShotAttributionLedger := mkShotAttributionLedger {
  accepted : gmap ShotKey AcceptedShotMetadata;
  resolved : gset ShotKey;
}.
Definition shot_ledger_default : ShotAttributionLedger := mkShotAttributionLedger ∅ ∅.

Record ShotResultAttribution := mkShotResultAttribution {
  attributed_result : ShotResult;
  accepted_shot : option AcceptedShotMetadata;
  duplicate : bool;
  events : list GameplayEventRow;
}.

Definition record_accepted (self : ShotAttributionLedger) (shot : AcceptedShotMetadata)
    : ShotAttributionLedger * bool :=
  if negb (metadata_is_consistent shot) then (self, false)
  else
    let key := (shooter shot, meta_tick shot) in
    if is_some (accepted self !! key) then (self, false)
    else (mkShotAttributionLedger (<[key := shot]> (accepted self)) (resolved self), true).

(** The planar product in which the sign of a reversal is decided ([i128]). *)
Definition horizontal_dot (first second : Z * Z) : Z := first.1 * second.1 + first.2 * second.2.

Definition shot_event (epoch : Z) (shot : AcceptedShotMetadata) (r : ShotResult)
    (kind : GameplayEventKind) : GameplayEventRow :=
  mkGameplayEventRow (mkGameplayEventId epoch (shooter shot) (meta_tick shot) kind (meta_index shot))
    kind (meta_tick shot) (shooter shot) (meta_dive shot) (Some (meta_weapon shot))
    (target_id r) (hit_zone r) (damage r) (event_text kind).

(** The notifications of a hit. *)
Definition hit_kinds (shot : AcceptedShotMetadata) (r : ShotResult) : list GameplayEventKind :=
  (if is_some (meta_dive shot) && bool_decide (hit_zone r = Some HitHead)
   then [SaddleDiveHeadshot] else []) ++
  (if bool_decide (meta_stance shot = Mounted) && bool_decide (meta_gait shot = GaitGallop)
   then [FullGallopHit] else []) ++
  (if is_some (meta_dive shot)
      && is_some_and (result_direction r)
           (fun d => horizontal_dot (meta_velocity shot) (dir_x d, dir_z d) <? 0)
   then [AirborneReversal] else []).

Definition observe_result (self : ShotAttributionLedger) (epoch : Z) (r : ShotResult)
    : ShotAttributionLedger * ShotResultAttribution :=
  let key := (result_shooter r, result_tick r) in
  let found :=
    match accepted self !! key with
    | Some shot =>
        if bool_decide (meta_weapon shot = result_weapon r)
           && negb (bool_decide (outcome r = ShotReject))
        then Some shot else None
    | None => None
    end in
  let dup := is_some found && bool_decide (key ∈ resolved self) in
  let self :=
    if is_some found then mkShotAttributionLedger (accepted self) ({[key]} ∪ resolved self) else self in
  let evs :=
    if negb dup && bool_decide (outcome r = ShotHit) then
      match found with
      | Some shot => shot_event epoch shot r <$> hit_kinds shot r
      | None => []
      end
    else [] in
  (self, mkShotResultAttribution r found dup evs).

(** ** Runs of the ledger *)

Inductive ledger_op :=
| RecordShot (shot : AcceptedShotMetadata)
| ObserveResult (epoch : Z) (r : ShotResult).

Definition shot_ledger_step (l : ShotAttributionLedger) (op : ledger_op)
    : ShotAttributionLedger * list GameplayEventRow :=
  match op with
  | RecordShot shot => ((record_accepted l shot).1, [])
  | ObserveResult epoch r => let '(l, a) := observe_result l epoch r in (l, events a)
  end.

Fixpoint shot_ledger_run (l : ShotAttributionLedger) (ops : list ledger_op)
    : ShotAttributionLedger * list GameplayEventRow :=
  match ops with
  | [] => (l, [])
  | op :: ops =>
      let '(l, es) := shot_ledger_step l op in
      let '(l, es') := shot_ledger_run l ops in (l, es ++ es')
  end.

(** Stored under its own shooter and tick, and consistent; results only of
    accepted shots. *)
Record shot_ledger_inv (l : ShotAttributionLedger) : Prop := {
  keys_ok : map_Forall (fun k shot => k = (shooter shot, meta_tick shot) /\
                                      metadata_is_consistent shot = true) (accepted l);
  resolved_ok : resolved l ⊆ dom (accepted l);
}.

Definition event_key (e : GameplayEventRow) : ShotKey * GameplayEventKind :=
  ((row_actor e, event_tick e), event_kind e).

Lemma hit_kinds_NoDup shot r : NoDup (hit_kinds shot r).
Proof.
  unfold hit_kinds. repeat match goal with |- context [if ?b then _ else _] => destruct b end;
    simpl; repeat constructor; set_solver.
Qed.

Lemma record_accepted_inv l shot :
  shot_ledger_inv l -> shot_ledger_inv (record_accepted l shot).1.
Proof.
  intros Hl. unfold record_accepted. destruct (metadata_is_consistent shot) eqn:Hc; [|done].
  destruct (accepted l !! _) eqn:E; [done|]. destruct Hl as [Hk Hr]. split; simpl.
  - by apply map_Forall_insert_2.
  - set_solver.
Qed.

(** Observing a result marks its shot resolved, and nothing else. *)
Lemma observe_result_spec l epoch r l' a :
  shot_ledger_inv l -> observe_result l epoch r = (l', a) ->
  shot_ledger_inv l' /\ accepted l' = accepted l /\ resolved l ⊆ resolved l' /\
  (events a <> [] -> (result_shooter r, result_tick r) ∉ resolved l /\
                     (result_shooter r, result_tick r) ∈ resolved l') /\
  Forall (fun e => (row_actor e, event_tick e) = (result_shooter r, result_tick r)) (events a) /\
  NoDup (event_key <$> events a).
Proof.
  intros Hl. unfold observe_result. set (key := (result_shooter r, result_tick r)).
  set (found := match accepted l !! key with Some _ => _ | None => None end).
  intros [= <- <-]. cbn [events].
  assert (Hfound : forall shot, found = Some shot ->
    accepted l !! key = Some shot /\ (shooter shot, meta_tick shot) = key).
  { intros shot. unfold found. destruct (accepted l !! key) as [s|] eqn:E; [|done].
    case_match; [|done]. intros [= ->]. split; [done|].
    by destruct (keys_ok l Hl _ _ E) as [-> _]. }
  destruct found as [shot|] eqn:Hf; cbn [is_some andb].
  2:{ split_and!; try done; [by case_match|by case_match; constructor|]. case_match; constructor. }
  destruct (Hfound shot eq_refl) as [Hlk Hkey].
  split_and!; simpl; [|done|set_solver| | |].
  - destruct Hl as [Hk Hr]. split; simpl; [done|].
    apply union_subseteq. split; [|done]. apply singleton_subseteq_l, elem_of_dom. eauto.
  - case_bool_decide as Hin; simpl; [done|]. set_solver.
  - case_match; [|constructor]. apply Forall_fmap, Forall_true. intros k. exact Hkey.
  - case_match; [|constructor]. rewrite <- list_fmap_compose. apply NoDup_fmap_2; [|apply hit_kinds_NoDup].
    intros k1 k2. by intros [= ->].
Qed.

(** A shot recorded for the first time and its own result. *)
Lemma record_then_observe l epoch shot r :
  shot_ledger_inv l -> metadata_is_consistent shot = true ->
  accepted l !! (shooter shot, meta_tick shot) = None ->
  result_shooter r = shooter shot -> result_tick r = meta_tick shot ->
  result_weapon r = meta_weapon shot -> outcome r <> ShotReject ->
  exists l', record_accepted l shot = (l', true) /\
    let '(l2, a) := observe_result l' epoch r in
    shot_ledger_inv l2 /\ accepted l2 = <[(shooter shot, meta_tick shot) := shot]> (accepted l) /\
    duplicate a = false /\
    events a = if bool_decide (outcome r = ShotHit)
               then shot_event epoch shot r <$> hit_kinds shot r else [].
Proof.
  intros Hl Hc Hnew Hs Ht Hw Ho.
  pose proof (record_accepted_inv l shot Hl) as Hi. unfold record_accepted in *.
  rewrite Hc, Hnew in *. cbn [negb is_some fst] in *. eexists. split; [done|].
  destruct (observe_result _ epoch r) as [l2 a] eqn:E.
  destruct (observe_result_spec _ epoch r l2 a Hi E) as (Hi2 & Hacc & _ & _ & _ & _).
  split; [done|]. split; [done|].
  unfold observe_result in E. rewrite Hs, Ht in E. cbn [accepted resolved] in E.
  rewrite lookup_insert_eq, Hw, bool_decide_eq_true_2, (bool_decide_eq_false_2 (outcome r = ShotReject))
    in E by done.
  cbn [andb negb is_some] in E.
  rewrite (bool_decide_eq_false_2 (_ ∈ resolved l)) in E.
  2:{ intros Hin. apply (resolved_ok l Hl), elem_of_dom in Hin. rewrite Hnew in Hin. by destruct Hin. }
  injection E as <- <-. done.
Qed.

Lemma shot_ledger_run_spec ops : forall l l' es,
  shot_ledger_inv l -> shot_ledger_run l ops = (l', es) ->
  shot_ledger_inv l' /\ resolved l ⊆ resolved l' /\
  Forall (fun e => (row_actor e, event_tick e) ∉ resolved l /\
                   (row_actor e, event_tick e) ∈ resolved l') es /\
  NoDup (event_key <$> es).
Proof.
  induction ops as [|op ops IH]; intros l l' es Hl Hrun; cbn [shot_ledger_run] in Hrun.
  { injection Hrun as <- <-. split_and!; try done; constructor. }
  destruct (shot_ledger_step l op) as [l1 es1] eqn:E1.
  destruct (shot_ledger_run l1 ops) as [l2 es2] eqn:E2. injection Hrun as <- <-.
  assert (H1 : shot_ledger_inv l1 /\ resolved l ⊆ resolved l1 /\
    Forall (fun e => (row_actor e, event_tick e) ∉ resolved l /\
                     (row_actor e, event_tick e) ∈ resolved l1) es1 /\ NoDup (event_key <$> es1)).
  { destruct op as [shot|epoch r]; cbn [shot_ledger_step] in E1.
    - injection E1 as <- <-. pose proof (record_accepted_inv l shot Hl) as Hi.
      split; [exact Hi|]. split; [|split; constructor].
      unfold record_accepted. repeat case_match; done.
    - destruct (observe_result l epoch r) as [l1' a] eqn:E. injection E1 as <- <-.
      destruct (observe_result_spec l epoch r l1' a Hl E) as (Hi & _ & Hsub & Hnew & Hall & Hnd).
      split_and!; try done. apply Forall_forall. intros e He.
      rewrite Forall_forall in Hall. rewrite (Hall e He). apply Hnew. intros Hnil.
      rewrite Hnil in He. by apply elem_of_nil in He. }
  destruct H1 as (Hi1 & Hs1 & Hf1 & Hn1). destruct (IH l1 l2 es2 Hi1 E2) as (Hi2 & Hs2 & Hf2 & Hn2).
  split_and!; [done|set_solver| |].
  - apply Forall_app. split; (eapply Forall_impl; [eassumption|]); intros e [H1 H2]; set_solver.
  - rewrite fmap_app. apply NoDup_app. split_and!; [done| |done].
    intros x Hx1 Hx2. apply list_elem_of_fmap in Hx1 as (e1 & -> & He1).
    apply list_elem_of_fmap in Hx2 as (e2 & Heq & He2). rewrite Forall_forall in Hf1, Hf2.
    destruct (Hf1 e1 He1) as [_ Hin]. destruct (Hf2 e2 He2) as [Hout _].
    injection Heq as Ha Ht _. rewrite Ha, Ht in Hin. done.
Qed.

(** A style notification is emitted at most once: over any interleaving of
    accepted shots and results, in any order and with any repetitions, no two
    events share actor, tick and kind, and every event belongs to a shot that was
    accepted, consistent, and not resolved before. *)
Theorem events_exactly_once ops l es :
  shot_ledger_run shot_ledger_default ops = (l, es) ->
  NoDup (event_key <$> es) /\
  Forall (fun e => exists shot, accepted l !! (row_actor e, event_tick e) = Some shot /\
                                metadata_is_consistent shot = true) es.
Proof.
  intros Hrun. destruct (shot_ledger_run_spec ops shot_ledger_default l es) with (2 := Hrun) as (Hi & _ & Hf & Hn).
  { split; [apply map_Forall_empty|set_solver]. }
  split; [exact Hn|]. eapply Forall_impl; [exact Hf|]. intros e [_ Hin]. simpl in *.
  apply (resolved_ok l Hi), elem_of_dom in Hin as [shot Hs]. exists shot. split; [done|].
  by destruct (keys_ok l Hi _ _ Hs).
Qed.

Definition demo_rider : PlayerId := mkProtocolId [0;0;0;0;0;0;64;0;128;0;0;0;0;0;0;2].
Definition demo_meta : AcceptedShotMetadata :=
  mkAcceptedShotMetadata demo_rider 25 0 Dustwalker SaddleDiveAirborne GaitGallop (Some 1) (0, -9000).
Definition demo_hit : ShotResult :=
  mkShotResult 25 demo_rider Dustwalker ShotHit None (Some (mkQuantizedDirection 0 0 1000000))
    (Some 9) (Some HitHead) 28 (Some 4000) false.
Definition demo_ledger_ops : list ledger_op :=
  [ObserveResult 0 demo_hit; RecordShot demo_meta; ObserveResult 0 demo_hit; ObserveResult 1 demo_hit].

Lemma events_exactly_once_witness :
  let es := (shot_ledger_run shot_ledger_default demo_ledger_ops).2 in
  (event_kind <$> es) = [SaddleDiveHeadshot; AirborneReversal] /\ NoDup (event_key <$> es).
Proof.
  split; [by vm_compute|].
  exact (proj1 (events_exactly_once demo_ledger_ops (shot_ledger_run shot_ledger_default demo_ledger_ops).1
                  _ (surjective_pairing _))).
Defined.
