(* ===== verification/Targets.v ===== *)
(** * Targets, their pose ring and hit geometry ([combat/kernel.rs])

    The server-owned registry of what can be hit: identities and health, the
    poses of the rewind window, and the nearest intersection of a ray with them,
    in double precision. *)

From Stdlib Require Import SpecFloat.
From S2P Require Import Prelude MachineInt SplitMix Ordered Clock Bytes Identifiers Stance Combat.
From S2P Require Import DiveMath Aim WeaponKernel ShotLedger.
Open Scope Z_scope.

Definition ROLLBACK_WINDOW_MS : Z := 250.

Record TargetDefinition := mkTargetDefinition {
  entity_id : EntityId;
  owner_peer_id : option PlayerId;
  team_id : Z;
  target_max_health : Z;
}.

Record TargetPoseSnapshot := mkTargetPoseSnapshot {
  pose_tick : SimulationTick;
  pose_entity : EntityId;
  pose_stance : RiderStance;
  body_center : QuantizedOrigin;
  body_half_height_mm : Z;
  body_radius_mm : Z;
  head_center : QuantizedOrigin;
  head_radius_mm : Z;
  active : bool;
}.

Record HorseTargetPoseSnapshot := mkHorseTargetPoseSnapshot {
  horse_pose_tick : SimulationTick;
  horse_pose_entity : EntityId;
  horse_body_center : QuantizedOrigin;
  body_forward : QuantizedDirection;
  body_half_length_mm : Z;
  horse_body_radius_mm : Z;
  horse_head_center : QuantizedOrigin;
  horse_head_radius_mm : Z;
  horse_active : bool;
}.

Inductive TargetRegistryError :=
| InvalidTargetTickRate | DuplicateTarget | UnknownTarget | InvalidTarget | TargetTickReplay.

Inductive TargetGeometryKind := KindRider | KindHorse.
#[export] Instance TargetGeometryKind_eq_dec : EqDecision TargetGeometryKind.
Proof. solve_decision. Defined.

Inductive TargetGeometrySnapshot :=
| GeometryRider (pose : TargetPoseSnapshot)
| GeometryHorse (pose : HorseTargetPoseSnapshot).

Definition geometry_tick (self : TargetGeometrySnapshot) : SimulationTick :=
  match self with GeometryRider pose => pose_tick pose | GeometryHorse pose => horse_pose_tick pose end.
Definition kind_of (self : TargetGeometrySnapshot) : TargetGeometryKind :=
  match self with GeometryRider _ => KindRider | GeometryHorse _ => KindHorse end.

(** The deque, front first. *)
Record TargetRecord := mkTargetRecord {
  definition : TargetDefinition;
  target_health : Z;
  history : list TargetGeometrySnapshot;
  geometry_kind : option TargetGeometryKind;
}.
#[export] Instance TargetRecord_settable : Settable TargetRecord := fun r =>
  mkTargetRecord (definition r) (target_health r) (history r) (geometry_kind r).

Record TargetRegistry := mkTargetRegistry {
  history_ticks : Z;
  targets : gmap EntityId TargetRecord;
}.
#[export] Instance TargetRegistry_settable : Settable TargetRegistry := fun r =>
  mkTargetRegistry (history_ticks r) (targets r).

(** ** Registration and health *)

Definition registry_new (tick_rate : Z) : result TargetRegistry TargetRegistryError :=
  if tick_rate =? 0 then Err InvalidTargetTickRate
  else Ok (mkTargetRegistry (div_ceil (saturating_mul 64 tick_rate ROLLBACK_WINDOW_MS) 1000) ∅).

Definition registry_restore (self : TargetRegistry) (d : TargetDefinition) (h : Z)
    : TargetRegistry * result unit TargetRegistryError :=
  if (target_max_health d =? 0) || (h >? target_max_health d) then (self, Err InvalidTarget)
  else if is_some (targets self !! entity_id d) then (self, Err DuplicateTarget)
  else (self <| targets := <[entity_id d := mkTargetRecord d h [] None]> (targets self) |>, Ok tt).

Definition register (self : TargetRegistry) (d : TargetDefinition)
    : TargetRegistry * result unit TargetRegistryError :=
  registry_restore self d (target_max_health d).

Definition health (self : TargetRegistry) (id : EntityId) : option Z :=
  target_health <$> targets self !! id.

Definition synchronize_health (self : TargetRegistry) (id : EntityId) (h : Z)
    : TargetRegistry * result unit TargetRegistryError :=
  match targets self !! id with
  | None => (self, Err UnknownTarget)
  | Some record =>
      if h >? target_max_health (definition record) then (self, Err InvalidTarget)
      else (self <| targets := <[id := record <| target_health := h |>]> (targets self) |>, Ok tt)
  end.

Definition respawn (self : TargetRegistry) (id : EntityId)
    : TargetRegistry * result unit TargetRegistryError :=
  match targets self !! id with
  | None => (self, Err UnknownTarget)
  | Some record =>
      (self <| targets :=
         <[id := record <| target_health := target_max_health (definition record) |>]> (targets self) |>,
       Ok tt)
  end.

(** The remaining health, and whether this damage was the fatal one. *)
Definition apply_damage (self : TargetRegistry) (id : EntityId) (d : Z) : TargetRegistry * (Z * bool) :=
  match targets self !! id with
  | None => (self, (0, false))
  | Some record =>
      let was_alive := target_health record >? 0 in
      let h := saturating_sub (target_health record) d in
      (self <| targets := <[id := record <| target_health := h |>]> (targets self) |>,
       (h, was_alive && (h =? 0)))
  end.

(** ** The pose ring *)

Fixpoint pop_front_while (f : TargetGeometrySnapshot -> bool) (l : list TargetGeometrySnapshot)
    : list TargetGeometrySnapshot :=
  match l with
  | g :: l' => if f g then pop_front_while f l' else l
  | [] => []
  end.

Definition push_geometry (record : TargetRecord) (g : TargetGeometrySnapshot) (history_ticks : Z)
    : result TargetRecord TargetRegistryError :=
  let tick := geometry_tick g in
  if is_some_and (geometry_kind record) (fun existing => negb (bool_decide (existing = kind_of g)))
  then Err InvalidTarget
  else if is_some_and (last (history record)) (fun previous => tick <=? geometry_tick previous)
  then Err TargetTickReplay
  else
    let oldest := saturating_sub tick history_ticks in
    Ok (record <| history := pop_front_while (fun snapshot => geometry_tick snapshot <? oldest)
                               (history record ++ [g]) |>
               <| geometry_kind := Some (kind_of g) |>).

Definition store_geometry (self : TargetRegistry) (id : EntityId) (g : TargetGeometrySnapshot)
    : TargetRegistry * result unit TargetRegistryError :=
  match targets self !! id with
  | None => (self, Err UnknownTarget)
  | Some record =>
      match push_geometry record g (history_ticks self) with
      | Err e => (self, Err e)
      | Ok record => (self <| targets := <[id := record]> (targets self) |>, Ok tt)
      end
  end.

Definition record_pose (self : TargetRegistry) (pose : TargetPoseSnapshot)
    : TargetRegistry * result unit TargetRegistryError :=
  if (body_radius_mm pose =? 0) || (head_radius_mm pose =? 0) then (self, Err InvalidTarget)
  else store_geometry self (pose_entity pose) (GeometryRider pose).

Definition record_horse_pose (self : TargetRegistry) (pose : HorseTargetPoseSnapshot)
    : TargetRegistry * result unit TargetRegistryError :=
  if (body_half_length_mm pose =? 0) || (horse_body_radius_mm pose =? 0)
     || (horse_head_radius_mm pose =? 0) || negb (is_normalized (body_forward pose))
     || (Z.abs (dir_y (body_forward pose)) >? DIRECTION_UNITS / 100)
  then (self, Err InvalidTarget)
  else store_geometry self (horse_pose_entity pose) (GeometryHorse pose).

(** [history.iter().rev().find(|s| s.tick() <= tick)] *)
Definition geometry_at (record : TargetRecord) (tick : SimulationTick) : option TargetGeometrySnapshot :=
  head (filter (fun g => geometry_tick g <= tick) (reverse (history record))).

Definition target_pose_at (self : TargetRegistry) (id : EntityId) (tick : SimulationTick)
    : option TargetPoseSnapshot :=
  record ← targets self !! id;
  g ← geometry_at record tick;
  match g with GeometryRider pose => Some pose | GeometryHorse _ => None end.

Definition horse_pose_at (self : TargetRegistry) (id : EntityId) (tick : SimulationTick)
    : option HorseTargetPoseSnapshot :=
  record ← targets self !! id;
  g ← geometry_at record tick;
  match g with GeometryHorse pose => Some pose | GeometryRider _ => None end.

(** ** Intersections *)

Definition f64_zero : f64 := f64_of_Z 0.
Definition f64_neg (x : f64) : f64 := SFopp x.
Definition f64_is_nan (x : f64) : bool := match x with S754_nan => true | _ => false end.
(** [f64::min]: a NaN operand is ignored. *)
Definition f64_min (a b : f64) : f64 :=
  if f64_is_nan a then b else if f64_is_nan b then a else if SFltb b a then b else a.
(** [f64::clamp]; its bounds are always ordered below. *)
Definition f64_clamp (x lo hi : f64) : f64 := if SFltb x lo then lo else if SFltb hi x then hi else x.
(** [x as u32]. *)
Definition f64_as_u32 (x : f64) : Z :=
  match x with
  | S754_finite false m e => Z.min u32_max (if 0 <=? e then Zpos m * 2 ^ e else Zpos m / 2 ^ (- e))
  | S754_infinity false => u32_max
  | _ => 0
  end.

Definition ray_sphere_intersection (origin direction center : Vec3) (radius : f64) : option f64 :=
  let offset := vec_sub origin center in
  let c := f64_sub (vec_dot offset offset) (f64_mul radius radius) in
  if SFleb c f64_zero then Some f64_zero
  else
    let b := vec_dot offset direction in
    let discriminant := f64_sub (f64_mul b b) c in
    if SFltb discriminant f64_zero then None
    else
      let root := f64_sqrt discriminant in
      let near := f64_sub (f64_neg b) root in
      if SFleb f64_zero near then Some near
      else
        let far := f64_add (f64_neg b) root in
        if SFleb f64_zero far then Some far else None.

Definition choose_nearer (first second : option f64) : option f64 :=
  match first, second with
  | Some first, Some second => Some (f64_min first second)
  | Some value, None | None, Some value => Some value
  | None, None => None
  end.

Definition ray_vertical_capsule_intersection (origin direction center : Vec3)
    (half_height radius : f64) : option f64 :=
  let minimum_y := f64_sub (vy center) half_height in
  let maximum_y := f64_add (vy center) half_height in
  let closest_y := f64_clamp (vy origin) minimum_y maximum_y in
  let inside_offset := vec_sub origin (mkVec3 (vx center) closest_y (vz center)) in
  if SFleb (vec_dot inside_offset inside_offset) (f64_mul radius radius) then Some f64_zero
  else
    let two := f64_of_Z 2 in
    let horizontal_x := f64_sub (vx origin) (vx center) in
    let horizontal_z := f64_sub (vz origin) (vz center) in
    let a := f64_add (f64_mul (vx direction) (vx direction)) (f64_mul (vz direction) (vz direction)) in
    let nearest :=
      if SFltb F64_EPSILON a then
        let b := f64_mul two (f64_add (f64_mul horizontal_x (vx direction))
                                      (f64_mul horizontal_z (vz direction))) in
        let c := f64_sub (f64_add (f64_mul horizontal_x horizontal_x)
                                  (f64_mul horizontal_z horizontal_z)) (f64_mul radius radius) in
        let discriminant := f64_sub (f64_mul b b) (f64_mul (f64_mul (f64_of_Z 4) a) c) in
        if SFleb f64_zero discriminant then
          let root := f64_sqrt discriminant in
          fold_left (fun nearest distance =>
            if SFleb f64_zero distance then
              let y := f64_add (vy origin) (f64_mul (vy direction) distance) in
              if SFleb minimum_y y && SFleb y maximum_y
              then choose_nearer nearest (Some distance) else nearest
            else nearest)
            [f64_div (f64_sub (f64_neg b) root) (f64_mul two a);
             f64_div (f64_add (f64_neg b) root) (f64_mul two a)] None
        else None
      else None in
    fold_left (fun nearest cap_y =>
      choose_nearer nearest
        (ray_sphere_intersection origin direction (mkVec3 (vx center) cap_y (vz center)) radius))
      [minimum_y; maximum_y] nearest.

Definition ray_capsule_intersection (origin direction start end_ : Vec3) (radius : f64) : option f64 :=
  let axis := vec_sub end_ start in
  let axis_length_squared := vec_dot axis axis in
  if SFleb axis_length_squared F64_EPSILON then ray_sphere_intersection origin direction start radius
  else
    let origin_from_start := vec_sub origin start in
    let closest_fraction :=
      f64_clamp (f64_div (vec_dot origin_from_start axis) axis_length_squared) f64_zero (f64_of_Z 1) in
    let closest := vec_add start (vec_scale axis closest_fraction) in
    let inside_offset := vec_sub origin closest in
    if SFleb (vec_dot inside_offset inside_offset) (f64_mul radius radius) then Some f64_zero
    else
      let axis_dot_ray := vec_dot axis direction in
      let axis_dot_origin := vec_dot axis origin_from_start in
      let ray_dot_origin := vec_dot direction origin_from_start in
      let origin_length_squared := vec_dot origin_from_start origin_from_start in
      let quadratic_a := f64_sub axis_length_squared (f64_mul axis_dot_ray axis_dot_ray) in
      let quadratic_b := f64_sub (f64_mul axis_length_squared ray_dot_origin)
                                 (f64_mul axis_dot_origin axis_dot_ray) in
      let quadratic_c :=
        f64_sub (f64_sub (f64_mul axis_length_squared origin_length_squared)
                         (f64_mul axis_dot_origin axis_dot_origin))
                (f64_mul (f64_mul radius radius) axis_length_squared) in
      let discriminant := f64_sub (f64_mul quadratic_b quadratic_b) (f64_mul quadratic_a quadratic_c) in
      let nearest :=
        if SFltb F64_EPSILON (SFabs quadratic_a) && SFleb f64_zero discriminant then
          let root := f64_sqrt discriminant in
          fold_left (fun nearest distance =>
            if SFleb f64_zero distance then
              let axial := f64_add axis_dot_origin (f64_mul distance axis_dot_ray) in
              if SFleb f64_zero axial && SFleb axial axis_length_squared
              then choose_nearer nearest (Some distance) else nearest
            else nearest)
            [f64_div (f64_sub (f64_neg quadratic_b) root) quadratic_a;
             f64_div (f64_add (f64_neg quadratic_b) root) quadratic_a] None
        else None in
      let nearest := choose_nearer nearest (ray_sphere_intersection origin direction start radius) in
      choose_nearer nearest (ray_sphere_intersection origin direction end_ radius).

(** ** The nearest hit *)

Record ResolvedTargetHit := mkResolvedTargetHit {
  hit_target : EntityId;
  resolved_zone : HitZone;
  hit_distance_mm : Z;
}.

Definition sort_key (self : ResolvedTargetHit) : Z * (Z * Z) :=
  (hit_distance_mm self,
   (hit_target self, match resolved_zone self with HitHead => 0 | HitBody => 1 end)).

(** Whether the geometry can be hit, its body's and its head's distance; [None] is
    the panic of the horse's [expect]. *)
Definition geometry_distances (ray_origin ray_direction : Vec3) (g : TargetGeometrySnapshot)
    : option (bool * option f64 * option f64) :=
  match g with
  | GeometryRider pose =>
      Some (active pose,
        ray_vertical_capsule_intersection ray_origin ray_direction (vec_from_origin (body_center pose))
          (f64_of_Z (body_half_height_mm pose)) (f64_of_Z (body_radius_mm pose)),
        ray_sphere_intersection ray_origin ray_direction (vec_from_origin (head_center pose))
          (f64_of_Z (head_radius_mm pose)))
  | GeometryHorse pose =>
      let center := vec_from_origin (horse_body_center pose) in
      forward ← normalized (vec_from_direction (body_forward pose));
      let half_length := f64_of_Z (body_half_length_mm pose) in
      Some (horse_active pose,
        ray_capsule_intersection ray_origin ray_direction
          (vec_sub center (vec_scale forward half_length))
          (vec_add center (vec_scale forward half_length)) (f64_of_Z (horse_body_radius_mm pose)),
        ray_sphere_intersection ray_origin ray_direction (vec_from_origin (horse_head_center pose))
          (f64_of_Z (horse_head_radius_mm pose)))
  end.

(** The candidate of one zone, if the ray meets it within the clamp. *)
Definition zone_candidate (maximum_distance_mm : Z) (id : EntityId) (zone : HitZone)
    (distance : option f64) : option ResolvedTargetHit :=
  distance ← distance;
  if negb (f64_is_finite distance) || SFltb distance f64_zero
     || SFltb (f64_of_Z maximum_distance_mm) distance
  then None
  else Some (mkResolvedTargetHit id zone
               (f64_as_u32 (f64_clamp (f64_round distance) f64_zero (f64_of_Z u32_max)))).

(** The candidates of one record, in the order they are compared. *)
Definition record_candidates (tick : SimulationTick) (ray_origin ray_direction : Vec3)
    (maximum_distance_mm : Z) (shooter_peer_id : PlayerId) (shooter_team : Z) (record : TargetRecord)
    : option (list ResolvedTargetHit) :=
  if (target_health record =? 0)
     || bool_decide (owner_peer_id (definition record) = Some shooter_peer_id)
     || (team_id (definition record) =? shooter_team)
  then Some []
  else
    match geometry_at record tick with
    | None => Some []
    | Some g =>
        '(active, body_distance, head_distance) ← geometry_distances ray_origin ray_direction g;
        if negb active then Some []
        else Some (omap (fun '(zone, distance) =>
                     zone_candidate maximum_distance_mm (entity_id (definition record)) zone distance)
                     [(HitHead, head_distance); (HitBody, body_distance)])
    end.

Definition keep_nearer (nearest : option ResolvedTargetHit) (candidate : ResolvedTargetHit)
    : option ResolvedTargetHit :=
  if is_none_or nearest (fun current => key_ltb (sort_key candidate) (sort_key current))
  then Some candidate else nearest.

(** [None] is a panic, [Some None] a miss. *)
Definition nearest_hit (self : TargetRegistry) (tick : SimulationTick) (origin : QuantizedOrigin)
    (direction : QuantizedDirection) (maximum_distance_mm : Z) (shooter_peer_id : PlayerId)
    (shooter_team : Z) : option (option ResolvedTargetHit) :=
  let ray_origin := vec_from_origin origin in
  match normalized (vec_from_direction direction) with
  | None => Some None
  | Some ray_direction =>
      fold_left (fun nearest record =>
        nearest ← nearest;
        candidates ← record_candidates tick ray_origin ray_direction maximum_distance_mm
                       shooter_peer_id shooter_team record;
        Some (fold_left keep_nearer candidates nearest))
        (btree_values (targets self)) (Some None)
  end.

(** ** The registry's invariant *)

Record registry_inv (r : TargetRegistry) : Prop := {
  ids_ok : map_Forall (fun id record => entity_id (definition record) = id) (targets r);
  health_ok : map_Forall (fun _ record =>
    0 <= target_health record <= target_max_health (definition record)) (targets r);
}.

Lemma registry_update r id record record' :
  registry_inv r -> targets r !! id = Some record ->
  entity_id (definition record') = id ->
  0 <= target_health record' <= target_max_health (definition record') ->
  registry_inv (r <| targets := <[id := record']> (targets r) |>).
Proof. intros [] Hr Hid Hh. split; simpl; by apply map_Forall_insert_2. Qed.

(** Damage is exact: the target loses it down to zero, is eliminated exactly when
    it was alive and had no more than that, and nobody else is touched. *)
Lemma apply_damage_spec r id record d r' h e :
  registry_inv r -> 0 <= d -> targets r !! id = Some record ->
  apply_damage r id d = (r', (h, e)) ->
  registry_inv r' /\ health r' id = Some h /\ h = Z.max 0 (target_health record - d) /\
  (e = true <-> 0 < target_health record <= d) /\
  (forall id', id' <> id -> targets r' !! id' = targets r !! id') /\
  history_ticks r' = history_ticks r.
Proof.
  intros Hi Hd Hr. unfold apply_damage. rewrite Hr. intros [= <- <- <-].
  pose proof (ids_ok r Hi _ _ Hr) as Hid. pose proof (health_ok r Hi _ _ Hr) as Hh. simpl in *.
  assert (Hs : saturating_sub (target_health record) d = Z.max 0 (target_health record - d)) by int_lia.
  split; [|split; [|split; [exact Hs|split; [|split; [|done]]]]].
  - eapply registry_update; try done. simpl. lia.
  - unfold health. simpl. by rewrite lookup_insert_eq.
  - rewrite andb_true_iff, Z.gtb_lt, Z.eqb_eq. lia.
  - intros id' Hne. by rewrite lookup_insert_ne.
Qed.

(** ** The nearest hit is the least candidate *)

Lemma sort_key_inj a b : sort_key a = sort_key b -> a = b.
Proof.
  destruct a as [ta za da], b as [tb zb db]. unfold sort_key. cbn. intros [= -> -> Hz].
  by destruct za, zb.
Qed.

Section nearest.
Context (tick : SimulationTick) (ray_origin ray_direction : Vec3) (clamp : Z)
        (shooter_id : PlayerId) (team : Z).

Definition candidates_of (record : TargetRecord) : option (list ResolvedTargetHit) :=
  record_candidates tick ray_origin ray_direction clamp shooter_id team record.

(** A candidate comes from a living hostile target with an active pose at the
    tick, and lies within the clamp. *)
Lemma candidate_facts record cs c :
  candidates_of record = Some cs -> c ∈ cs ->
  target_health record <> 0 /\ owner_peer_id (definition record) <> Some shooter_id /\
  team_id (definition record) <> team /\ hit_target c = entity_id (definition record) /\
  exists g d, geometry_at record tick = Some g /\
    zone_candidate clamp (entity_id (definition record)) (resolved_zone c) (Some d) = Some c.
Proof.
  unfold candidates_of, record_candidates.
  destruct (_ || _) eqn:E; [intros [= <-] Hc; by apply elem_of_nil in Hc|].
  rewrite !orb_false_iff in E. destruct E as [[Hh Ho] Ht].
  apply Z.eqb_neq in Hh, Ht. apply bool_decide_eq_false in Ho.
  destruct (geometry_at record tick) as [g|]; [|intros [= <-] Hc; by apply elem_of_nil in Hc].
  destruct (geometry_distances ray_origin ray_direction g) as [[[act body] hd]|]; [|done].
  cbn [mbind option_bind]. destruct act; [|intros [= <-] Hc; by apply elem_of_nil in Hc].
  intros Hcs Hc. apply (inj Some) in Hcs. rewrite <- Hcs in Hc. clear Hcs.
  apply list_elem_of_omap in Hc as ([zone dist] & _ & Hz).
  assert (Hzone : resolved_zone c = zone /\ hit_target c = entity_id (definition record) /\ is_Some dist).
  { unfold zone_candidate in Hz. destruct dist; [|done]. cbn [mbind option_bind] in Hz.
    case_match; [done|]. by injection Hz as <-. }
  destruct Hzone as (Hzo & Hta & [d ->]). split_and!; try done. exists g, d. split; [done|].
  by rewrite Hzo.
Qed.

Definition is_best (nearest : option ResolvedTargetHit) (seen : list ResolvedTargetHit) : Prop :=
  match nearest with
  | None => seen = []
  | Some h => h ∈ seen /\ (forall c, c ∈ seen -> c = h \/ key_lt (sort_key h) (sort_key c))
  end.

Lemma keep_nearer_best nearest seen c :
  is_best nearest seen -> is_best (keep_nearer nearest c) (seen ++ [c]).
Proof.
  intros Hb. unfold keep_nearer. destruct nearest as [h|]; cbn [is_none_or].
  - destruct Hb as [Hin Hall]. destruct (key_ltb (sort_key c) (sort_key h)) eqn:E.
    + apply key_ltb_lt in E. split; [set_solver|]. intros c'. rewrite elem_of_app, list_elem_of_singleton.
      intros [Hc|Hc]; [|by left]. destruct (Hall c' Hc) as [-> |Hlt]; [by right|right].
      by eapply key_lt_trans.
    + split; [set_solver|]. intros c'. rewrite elem_of_app, list_elem_of_singleton.
      intros [Hc| ->]; [by apply Hall|].
      assert (Hle : key_le (sort_key h) (sort_key c)).
      { apply key_leb_le. rewrite key_leb_ltb. by rewrite E. }
      apply key_le_lteq in Hle as [?|Heq]; [by right|left]. symmetry. by apply sort_key_inj.
  - simpl in Hb. rewrite Hb. split; [set_solver|]. set_solver.
Qed.

Lemma fold_keep_nearer cs : forall nearest seen,
  is_best nearest seen -> is_best (fold_left keep_nearer cs nearest) (seen ++ cs).
Proof.
  induction cs as [|c cs IH]; intros nearest seen Hb; simpl; [by rewrite app_nil_r|].
  replace (seen ++ c :: cs) with ((seen ++ [c]) ++ cs) by (by rewrite <- app_assoc).
  by apply IH, keep_nearer_best.
Qed.

Lemma nearest_fold records : forall nearest seen result,
  is_best nearest seen ->
  fold_left (fun nearest record =>
    nearest ← nearest;
    candidates ← candidates_of record;
    Some (fold_left keep_nearer candidates nearest)) records (Some nearest) = Some result ->
  exists css, Forall2 (fun record cs => candidates_of record = Some cs) records css /\
              is_best result (seen ++ concat css).
Proof.
  assert (Hnone : forall records, fold_left (fun nearest record =>
    nearest ← nearest;
    candidates ← candidates_of record;
    Some (fold_left keep_nearer candidates nearest)) records None
    = (None : option (option ResolvedTargetHit))) by (induction records0; done).
  induction records as [|record records IH]; intros nearest seen result Hb Hf; cbn [fold_left] in Hf.
  { injection Hf as <-. exists []. split; [constructor|]. simpl. by rewrite app_nil_r. }
  cbn [mbind option_bind] in Hf. destruct (candidates_of record) as [cs|] eqn:E.
  2:{ cbn in Hf. by rewrite Hnone in Hf. }
  cbn [mbind option_bind] in Hf.
  destruct (IH _ (seen ++ cs) result (fold_keep_nearer cs nearest seen Hb) Hf) as (css & Hf2 & Hbest).
  exists (cs :: css). split; [by constructor|]. simpl. by rewrite app_assoc.
Qed.
End nearest.

(** What the ray meets: a candidate of some record of the registry. *)
Definition is_candidate (r : TargetRegistry) (tick : SimulationTick) (origin : QuantizedOrigin)
    (ray : Vec3) (clamp : Z) (shooter_id : PlayerId) (team : Z) (c : ResolvedTargetHit) : Prop :=
  exists id record cs,
    targets r !! id = Some record /\
    candidates_of tick (vec_from_origin origin) ray clamp shooter_id team record = Some cs /\ c ∈ cs.

Lemma nearest_hit_best r tick origin direction clamp shooter_id team ray result :
  normalized (vec_from_direction direction) = Some ray ->
  nearest_hit r tick origin direction clamp shooter_id team = Some result ->
  exists seen, is_best result seen /\
    (forall c, is_candidate r tick origin ray clamp shooter_id team c <-> c ∈ seen).
Proof.
  intros Hray Hhit. unfold nearest_hit in Hhit. rewrite Hray in Hhit.
  destruct (nearest_fold tick (vec_from_origin origin) ray clamp shooter_id team
              (btree_values (targets r)) None [] result eq_refl Hhit) as (css & Hf2 & Hbest).
  exists (concat css). split; [exact Hbest|].
  intros c. rewrite list_elem_of_In, in_concat. setoid_rewrite <- list_elem_of_In. split.
  - intros (id & record & cs & Hr & Hcs & Hc).
    assert (Hin : record ∈ btree_values (targets r)) by (apply elem_of_btree_values; eauto).
    apply list_elem_of_lookup in Hin as [i Hi].
    destruct (Forall2_lookup_l _ _ _ _ _ Hf2 Hi) as (cs' & Hi' & Hcs').
    exists cs'. split; [by eapply list_elem_of_lookup_2|]. congruence.
  - intros (cs & Hin & Hc). apply list_elem_of_lookup in Hin as [i Hi].
    destruct (Forall2_lookup_r _ _ _ _ _ Hf2 Hi) as (record & Hi' & Hcs).
    assert (Hrec : record ∈ btree_values (targets r)) by (by eapply list_elem_of_lookup_2).
    apply elem_of_btree_values in Hrec as [id Hr]. exists id, record, cs. by split_and!.
Qed.

Lemma f64_as_u32_nonneg x : 0 <= f64_as_u32 x.
Proof.
  destruct x as [|[]| |[] m e]; simpl; try (unfold u32_max; lia).
  apply Z.min_glb; [unfold u32_max; lia|]. destruct (0 <=? e); [nia|]. apply Z_div_nonneg_nonneg; lia.
Qed.

(** A hit is on a living hostile target of the registry. *)
Lemma nearest_hit_hostile r tick origin direction clamp shooter_id team h :
  registry_inv r -> nearest_hit r tick origin direction clamp shooter_id team = Some (Some h) ->
  0 <= hit_distance_mm h /\
  exists record, targets r !! hit_target h = Some record /\ 0 < target_health record /\
    owner_peer_id (definition record) <> Some shooter_id /\ team_id (definition record) <> team.
Proof.
  intros Hr Hhit. destruct (normalized (vec_from_direction direction)) as [ray|] eqn:Hray.
  2:{ unfold nearest_hit in Hhit. by rewrite Hray in Hhit. }
  destruct (nearest_hit_best _ _ _ _ _ _ _ _ _ Hray Hhit) as (seen & [Hin _] & Hseen).
  apply Hseen in Hin as (id & record & cs & Hid & Hcs & Hc).
  destruct (candidate_facts _ _ _ _ _ _ _ _ _ Hcs Hc) as (Hh & Ho & Ht & Heq & g & d & _ & Hz).
  split.
  - unfold zone_candidate in Hz. cbn [mbind option_bind] in Hz. case_match; [done|].
    injection Hz as <-. apply f64_as_u32_nonneg.
  - exists record. pose proof (ids_ok r Hr _ _ Hid) as Hk. pose proof (health_ok r Hr _ _ Hid) as Hl.
    cbv beta in Hk, Hl. rewrite Heq, Hk. split_and!; try done. lia.
Qed.

(** C31. The authority hits the nearest thing there is: the result is the least
    candidate by distance, then identity, then head before body, over every living
    hostile target with an active pose at the command's tick, whatever the order of
    the registry; a miss means that no such target meets the ray. *)
Theorem nearest_hit_spec r tick origin direction clamp shooter_id team ray result :
  normalized (vec_from_direction direction) = Some ray ->
  nearest_hit r tick origin direction clamp shooter_id team = Some result ->
  let candidate := is_candidate r tick origin ray clamp shooter_id team in
  match result with
  | None => forall c, ~ candidate c
  | Some h =>
      candidate h /\ (forall c, candidate c -> c = h \/ key_lt (sort_key h) (sort_key c)) /\
      exists record, (exists id, targets r !! id = Some record) /\
        hit_target h = entity_id (definition record) /\ target_health record <> 0 /\
        owner_peer_id (definition record) <> Some shooter_id /\ team_id (definition record) <> team
  end.
Proof.
  intros Hray Hhit candidate.
  destruct (nearest_hit_best _ _ _ _ _ _ _ _ _ Hray Hhit) as (seen & Hbest & Hseen).
  destruct result as [h|]; simpl in Hbest.
  - destruct Hbest as [Hin Hall]. apply Hseen in Hin.
    split; [exact Hin|]. split; [intros c Hc; apply Hall; by apply Hseen|].
    destruct Hin as (id & record & cs & Hr & Hcs & Hc).
    destruct (candidate_facts _ _ _ _ _ _ _ _ _ Hcs Hc) as (? & ? & ? & ? & _).
    exists record. split; [by exists id|]. by split_and!.
  - intros c Hc. apply Hseen in Hc. rewrite Hbest in Hc. by apply elem_of_nil in Hc.
Qed.

(** Two riders in line: the nearer one's head stands in the ray. *)
Definition demo_rider_pose (id : EntityId) (z : Z) : TargetPoseSnapshot :=
  mkTargetPoseSnapshot 50 id Mounted (mkQuantizedOrigin 0 1000 z) 500 300
    (mkQuantizedOrigin 0 1900 z) 150 true.
Definition demo_registry : TargetRegistry :=
  let r := mkTargetRegistry 15 ∅ in
  let r := (register r (mkTargetDefinition 8 None 2 100)).1 in
  let r := (register r (mkTargetDefinition 9 (Some demo_rider) 2 100)).1 in
  let r := (register r (mkTargetDefinition 7 None 2 100)).1 in
  let r := (record_pose r (demo_rider_pose 8 (-30000))).1 in
  let r := (record_pose r (demo_rider_pose 9 (-10000))).1 in
  (record_pose r (demo_rider_pose 7 (-20000))).1.

Lemma nearest_hit_spec_witness :
  let h := mkResolvedTargetHit 7 HitHead 19850 in
  nearest_hit demo_registry 55 (mkQuantizedOrigin 0 1900 0) (mkQuantizedDirection 0 0 (-1000000))
    300000 demo_rider 1 = Some (Some h) /\
  exists record, (exists id, targets demo_registry !! id = Some record) /\
    owner_peer_id (definition record) <> Some demo_rider.
Proof.
  split; [by vm_compute|].
  destruct (nearest_hit_spec demo_registry 55 (mkQuantizedOrigin 0 1900 0)
              (mkQuantizedDirection 0 0 (-1000000)) 300000 demo_rider 1
              (mkVec3 (f64_of_Z 0) (f64_of_Z 0) (f64_of_Z (-1)))
              (Some (mkResolvedTargetHit 7 HitHead 19850))
              ltac:(by vm_compute) ltac:(by vm_compute)) as (_ & _ & record & Hin & _ & _ & Ho & _).
  by exists record.
Defined.

(** ** The pose ring is a window on the full log *)

Definition log_sorted (l : list TargetGeometrySnapshot) : Prop :=
  StronglySorted (fun a b => geometry_tick a < geometry_tick b) l.

(** Every geometry the record accepted, oldest first, beside the record. *)
Fixpoint push_all (w : Z) (record : TargetRecord) (log : list TargetGeometrySnapshot)
    (gs : list TargetGeometrySnapshot) : TargetRecord * list TargetGeometrySnapshot :=
  match gs with
  | [] => (record, log)
  | g :: gs =>
      match push_geometry record g w with
      | Ok record => push_all w record (log ++ [g]) gs
      | Err _ => push_all w record log gs
      end
  end.

(** The latest entry not after the tick, in a log oldest first. *)
Definition latest (log : list TargetGeometrySnapshot) (tick : SimulationTick)
    : option TargetGeometrySnapshot :=
  head (filter (fun g => geometry_tick g <= tick) (reverse log)).

Definition newest (log : list TargetGeometrySnapshot) : Z := from_option geometry_tick 0 (last log).

Lemma pop_front_sorted f l oldest :
  (forall g, f g = true <-> geometry_tick g < oldest) -> log_sorted l ->
  pop_front_while f l = filter (fun g => oldest <= geometry_tick g) l.
Proof.
  intros Hf Hs. induction Hs as [|g l Hs IH Hall]; [done|]. cbn [pop_front_while].
  destruct (f g) eqn:E.
  - apply Hf in E. rewrite filter_cons_False by lia. exact IH.
  - assert (oldest <= geometry_tick g).
    { destruct (Z.le_gt_cases oldest (geometry_tick g)); [done|].
      rewrite (proj2 (Hf g)) in E by lia. done. }
    rewrite filter_cons_True by done. f_equal. symmetry. clear IH Hs. induction l as [|g' l IH]; [done|].
    apply Forall_cons in Hall as [Hg Hall]. rewrite filter_cons_True by lia. f_equal. by apply IH.
Qed.

Lemma log_sorted_snoc l g :
  log_sorted l -> is_some_and (last l) (fun p => geometry_tick g <=? geometry_tick p) = false ->
  log_sorted (l ++ [g]).
Proof.
  intros Hs Hl. unfold log_sorted in *. induction Hs as [|a l Hs IH Hall]; cbn [app].
  { repeat constructor. }
  destruct l as [|b l].
  { repeat constructor. simpl in Hl. lia. }
  constructor; [apply IH; exact Hl|]. apply Forall_app. split; [exact Hall|].
  apply Forall_singleton. simpl in Hl.
  assert (Hlast : exists z, last (b :: l) = Some z /\ z ∈ b :: l).
  { destruct (last (b :: l)) as [z|] eqn:E; [|by apply last_None in E].
    exists z. split; [done|]. by apply last_Some_elem_of. }
  destruct Hlast as (z & Hz & Hin). rewrite Forall_forall in Hall. specialize (Hall z Hin).
  change (is_some_and (last (b :: l)) (fun p => geometry_tick g <=? geometry_tick p) = false) in Hl.
  rewrite Hz in Hl. simpl in Hl. lia.
Qed.

Lemma list_filter_ext_in {A} (P1 P2 : A -> Prop) `{!forall x, Decision (P1 x), !forall x, Decision (P2 x)}
    (l : list A) : (forall x, x ∈ l -> (P1 x <-> P2 x)) -> filter P1 l = filter P2 l.
Proof.
  intros Hext. induction l as [|a l IH]; [done|]. rewrite !filter_cons.
  assert (HP : P1 a <-> P2 a) by (apply Hext; left).
  rewrite IH by (intros x Hx; apply Hext; by right).
  destruct (decide (P1 a)), (decide (P2 a)); naive_solver.
Qed.

(** The ring holds exactly the log's entries inside the window of its newest. *)
Definition ring_of (w : Z) (record : TargetRecord) (log : list TargetGeometrySnapshot) : Prop :=
  log_sorted log /\ Forall (fun g => 0 <= geometry_tick g) log /\
  history record = filter (fun g => newest log - w <= geometry_tick g) log.

Lemma filter_snoc_keeps (w : Z) (log : list TargetGeometrySnapshot) :
  0 <= w -> Forall (fun g => 0 <= geometry_tick g) log ->
  last (filter (fun g => newest log - w <= geometry_tick g) log) = last log.
Proof.
  intros Hw Hpos. destruct log as [|g log _] using rev_ind; [done|].
  assert (Hn : newest (log ++ [g]) = geometry_tick g) by (unfold newest; by rewrite last_snoc).
  rewrite Hn, filter_app, filter_cons_True, filter_nil by lia. by rewrite !last_snoc.
Qed.

Lemma push_ring w record log g record' :
  0 <= w -> 0 <= geometry_tick g -> ring_of w record log ->
  push_geometry record g w = Ok record' -> ring_of w record' (log ++ [g]).
Proof.
  intros Hw Hg (Hs & Hpos & Hh). unfold push_geometry. case_match; [done|].
  destruct (is_some_and (last (history record)) _) eqn:Hlast; [done|]. intros [= <-].
  rewrite Hh, filter_snoc_keeps in Hlast by done.
  assert (Hs' : log_sorted (log ++ [g])) by (by apply log_sorted_snoc).
  assert (Hnew : newest (log ++ [g]) = geometry_tick g) by (unfold newest; by rewrite last_snoc).
  split; [exact Hs'|]. split; [apply Forall_app; split; [done|constructor; [exact Hg|constructor]]|].
  cbn [history set_field]. simpl. rewrite Hh, Hnew.
  assert (Hmono : log <> [] -> newest log < geometry_tick g).
  { intros Hne. unfold newest. destruct (last log) as [p|] eqn:E; [|by apply last_None in E].
    simpl in *. lia. }
  assert (Hsub : log_sorted (filter (fun g => newest log - w <= geometry_tick g) log ++ [g])).
  { apply log_sorted_snoc; [|by rewrite filter_snoc_keeps].
    unfold log_sorted in *. clear -Hs. generalize (newest log). intros n.
    induction Hs as [|a l Hs IH Hall]; [constructor|]. rewrite filter_cons. case_decide; [|done].
    constructor; [done|]. apply Forall_forall. intros x Hx. apply list_elem_of_filter in Hx as [_ Hx].
    rewrite Forall_forall in Hall. by apply Hall. }
  rewrite (pop_front_sorted _ _ (saturating_sub (geometry_tick g) w)); [| |exact Hsub].
  2:{ intros g0. apply Z.ltb_lt. }
  rewrite !filter_app, list_filter_filter. f_equal.
  - apply list_filter_ext_in. intros x Hx. pose proof Hpos as Hp. rewrite Forall_forall in Hp.
    specialize (Hp x Hx). unfold saturating_sub.
    assert (log <> []) by (intros E; rewrite E in Hx; by apply elem_of_nil in Hx).
    specialize (Hmono ltac:(done)). lia.
  - rewrite !filter_cons. rewrite !decide_True; [done|lia|int_lia].
Qed.

Lemma push_all_ring w gs : forall record log record' log',
  0 <= w -> Forall (fun g => 0 <= geometry_tick g) gs -> ring_of w record log ->
  push_all w record log gs = (record', log') -> ring_of w record' log'.
Proof.
  induction gs as [|g gs IH]; intros record log record' log' Hw Hgs Hr Hp; cbn [push_all] in Hp.
  { by injection Hp as <- <-. }
  apply Forall_cons in Hgs as [Hg Hgs].
  destruct (push_geometry record g w) as [rec1|e] eqn:E; [|by eapply IH].
  eapply IH; [done|done| |exact Hp]. by eapply push_ring.
Qed.

(** In a sorted log, cutting the old entries off only cuts the answer off. *)
Lemma latest_window log t o :
  log_sorted log ->
  latest (filter (fun g => o <= geometry_tick g) log) t =
  (g ← latest log t; if o <=? geometry_tick g then Some g else None).
Proof.
  unfold latest. induction log as [|g log IH] using rev_ind; intros Hs; [done|].
  assert (Hs' : log_sorted log /\ Forall (fun a => geometry_tick a < geometry_tick g) log).
  { unfold log_sorted in *. clear IH. induction log as [|a log IH]; [split; constructor|].
    cbn [app] in Hs. inversion Hs as [|? ? Hs1 Hall]; subst. destruct (IH Hs1) as [H1 H2].
    apply Forall_app in Hall as [Ha Hg]. split; [by constructor|].
    constructor; [|done]. by inversion Hg. }
  destruct Hs' as [Hs' Hall].
  rewrite filter_app, !filter_cons, filter_nil, reverse_app, filter_app.
  rewrite (reverse_snoc log g), filter_cons.
  assert (Hold : geometry_tick g < o -> filter (fun g => o <= geometry_tick g) log = []).
  { intros Hg. clear -Hall Hg. induction log as [|a log IH]; [done|].
    apply Forall_cons in Hall as [Ha Hall]. rewrite filter_cons_False by lia. by apply IH. }
  destruct (decide (o <= geometry_tick g)) as [Ho|Ho].
  - rewrite reverse_singleton, filter_cons, filter_nil.
    destruct (decide (geometry_tick g <= t)) as [Ht|Ht].
    + cbn [app head mbind option_bind]. by rewrite (proj2 (Z.leb_le _ _) Ho).
    + cbn [app]. by apply IH.
  - rewrite Hold by lia. destruct (decide (geometry_tick g <= t)) as [Ht|Ht].
    + cbn. by rewrite (proj2 (Z.leb_gt o (geometry_tick g))) by lia.
    + rewrite <- IH by done. rewrite Hold by lia. done.
Qed.

(** The pose ring is a window on the full log: whatever poses arrive, in
    whatever order and with whatever repetitions, the rewound pose of a tick is the
    latest accepted one not after it, as if nothing had ever been dropped, exactly
    when that pose lies within the rewind window of the newest; otherwise there is
    none, and no older pose is served in its place. *)
Theorem pose_ring_is_window w d h gs record log t :
  0 <= w -> Forall (fun g => 0 <= geometry_tick g) gs ->
  push_all w (mkTargetRecord d h [] None) [] gs = (record, log) ->
  log_sorted log /\
  geometry_at record t =
    (g ← latest log t; if newest log - w <=? geometry_tick g then Some g else None).
Proof.
  intros Hw Hgs Hp.
  assert (Hr : ring_of w record log).
  { eapply push_all_ring; [done|done| |exact Hp]. split; [constructor|]. by split. }
  destruct Hr as (Hs & _ & Hh). split; [exact Hs|].
  unfold geometry_at. rewrite Hh. exact (latest_window log t (newest log - w) Hs).
Qed.

Definition rider_at (t : Z) : TargetGeometrySnapshot :=
  GeometryRider (mkTargetPoseSnapshot t 7 Mounted (mkQuantizedOrigin 0 0 0) 500 300
    (mkQuantizedOrigin 0 900 0) 150 true).
Definition demo_pushes : TargetRecord * list TargetGeometrySnapshot :=
  push_all 15 (mkTargetRecord (mkTargetDefinition 7 None 2 100) 100 [] None) []
    (rider_at <$> [0; 10; 10; 5; 20; 30]).

Lemma pose_ring_is_window_witness :
  (geometry_tick <$> demo_pushes.2) = [0; 10; 20; 30] /\
  geometry_at demo_pushes.1 29 = Some (rider_at 20) /\ geometry_at demo_pushes.1 19 = None.
Proof.
  assert (Hok : Forall (fun g => 0 <= geometry_tick g) (rider_at <$> [0; 10; 10; 5; 20; 30]))
    by (repeat constructor; simpl; lia).
  pose proof (pose_ring_is_window 15 (mkTargetDefinition 7 None 2 100) 100
    (rider_at <$> [0; 10; 10; 5; 20; 30]) demo_pushes.1 demo_pushes.2) as H.
  split; [by vm_compute|]. split.
  - rewrite (proj2 (H 29 ltac:(lia) Hok (surjective_pairing _))). by vm_compute.
  - rewrite (proj2 (H 19 ltac:(lia) Hok (surjective_pairing _))). by vm_compute.
Defined.
