(* ===== verification/CombatAuthority.v ===== *)
(** * The elected authority's shot validation ([combat/kernel.rs], [CombatAuthority])

    Every registered shooter has a weapon kernel; a command is admitted, checked
    against the rewound rider and the shooter's kernel, resolved against the target
    registry, and attributed in the match-lifetime ledger. *)

From S2P Require Import Prelude MachineInt SplitMix Ordered Clock Bytes Identifiers Stance Combat.
From S2P Require Import DiveMath Aim WeaponKernel WeaponRun ShotLedger Targets.
Open Scope Z_scope.

Definition ORIGIN_LEASH_MM : Z := 1500.
Definition MAX_LAG_COMPENSATION_MS : Z := 150.

(** ** Commands and snapshots *)

Record ClaimedTarget := mkClaimedTarget {
  claimed_id : EntityId;
  claimed_zone : option HitZone;
  claimed_damage : option Z;
  claimed_distance : option Z;
}.

Record ShotCommand := mkShotCommand {
  cmd_tick : SimulationTick;
  cmd_shooter : PlayerId;
  cmd_weapon : WeaponId;
  cmd_origin : QuantizedOrigin;
  cmd_direction : QuantizedDirection;
  cmd_seed : Z;
  claimed_target : option ClaimedTarget;
}.

Record RiderSnapshot := mkRiderSnapshot {
  rider_tick : SimulationTick;
  rider_shooter : PlayerId;
  muzzle_origin : QuantizedOrigin;
  rider_team : Z;
  rider_riding : RidingState;
}.

Record AuthorityShot := mkAuthorityShot {
  shot_result : ShotResult;
  telemetry : ShotTelemetry;
  dive_fire_rejection : option DiveFireRejection;
  shot_metadata : option AcceptedShotMetadata;
  gameplay_events : list GameplayEventRow;
}.

(** ** State *)

Record AuthorityShooter := mkAuthorityShooter {
  kernel : CombatKernel;
  last_command_tick : option SimulationTick;
}.
#[export] Instance AuthorityShooter_settable : Settable AuthorityShooter := fun s =>
  mkAuthorityShooter (kernel s) (last_command_tick s).

Record CombatAuthority := mkCombatAuthority {
  auth_tick_rate : Z;
  auth_seed : Z;
  authority_epoch : Z;
  shooters : gmap PlayerId AuthorityShooter;
  shot_ledger : ShotAttributionLedger;
}.
#[export] Instance CombatAuthority_settable : Settable CombatAuthority := fun a =>
  mkCombatAuthority (auth_tick_rate a) (auth_seed a) (authority_epoch a) (shooters a) (shot_ledger a).

Definition authority_new (tick_rate seed : Z) : result CombatAuthority InvalidTickRate :=
  if tick_rate =? 0 then Err InvalidTickRate_
  else Ok (mkCombatAuthority tick_rate seed 0 ∅ shot_ledger_default).

Definition set_authority_epoch (self : CombatAuthority) (epoch : Z) : CombatAuthority * bool :=
  if epoch <? authority_epoch self then (self, false)
  else (self <| authority_epoch := epoch |>, true).

Definition observe_authority_result (self : CombatAuthority) (r : ShotResult)
    : CombatAuthority * ShotResultAttribution :=
  let '(l, a) := observe_result (shot_ledger self) (authority_epoch self) r in
  (self <| shot_ledger := l |>, a).

Definition set_shooter (self : CombatAuthority) (id : PlayerId) (s : AuthorityShooter) : CombatAuthority :=
  self <| shooters := <[id := s]> (shooters self) |>.

Definition authority_begin_dive (self : CombatAuthority) (shooter : PlayerId) (id : DiveId)
    (tick : SimulationTick) (weapon : WeaponId) (velocity : Z * Z) (airtime : Z)
    : CombatAuthority * result unit (fault DiveContextError) :=
  match shooters self !! shooter with
  | None => (self, Err (Raised ContextMismatch))
  | Some s =>
      let '(k, out) := begin_saddle_dive (kernel s) id tick weapon velocity airtime in
      (set_shooter self shooter (s <| kernel := k |>), out)
  end.

Definition authority_finish_dive (self : CombatAuthority) (shooter : PlayerId) (id : DiveId)
    (tick : SimulationTick) : CombatAuthority * result unit (fault DiveContextError) :=
  match shooters self !! shooter with
  | None => (self, Err (Raised ContextMismatch))
  | Some s =>
      let '(k, out) := finish_saddle_dive (kernel s) id tick in
      (set_shooter self shooter (s <| kernel := k |>), out)
  end.

(** [None] is the panic of the tick rate's [expect]. *)
Definition register_shooter (self : CombatAuthority) (shooter : PlayerId) (weapon : WeaponId)
    : CombatAuthority * option bool :=
  match shooters self !! shooter with
  | Some _ => (self, Some false)
  | None =>
      match with_weapon (auth_tick_rate self) (auth_seed self) shooter weapon with
      | Err _ => (self, None)
      | Ok k => (set_shooter self shooter (mkAuthorityShooter k None), Some true)
      end
  end.

Definition restore_shooter (self : CombatAuthority) (shooter : PlayerId) (weapon : WeaponId)
    (a : WeaponAmmo) (last_command last_accepted : option SimulationTick) (index : Z)
    : CombatAuthority * bool :=
  match with_weapon (auth_tick_rate self) (auth_seed self) shooter weapon with
  | Err _ => (self, false)
  | Ok k =>
      let '(k, stored) := set_ammo k weapon a in
      if negb stored
         || negb (Bool.eqb (is_some last_accepted) (index >? 0))
         || (is_some last_accepted && is_none last_command)
         || is_some_and last_command (fun command =>
              is_some_and last_accepted (fun accepted => accepted >? command))
      then (self, false)
      else
        let k := k <| last_accepted_tick := last_accepted |>
                   <| last_advanced_tick :=
                        default 0 (match last_command with Some c => Some c | None => last_accepted end) |>
                   <| shot_index := index |> in
        (set_shooter self shooter (mkAuthorityShooter k last_command), true)
  end.

(** ** Rejections *)

Section validation.
Context `{Libm}.

Definition rejected_authority_shot_detailed (command : ShotCommand) (weapon : WeaponId)
    (a : WeaponAmmo) (r : RidingState) (tick_rate : Z) (reason : ShotRejectionReason)
    (dive : option DiveFireRejection) : AuthorityShot :=
  let spread := effective_spread_millidegrees (weapon_stats weapon) r in
  let sway := deterministic_sway (cmd_tick command) tick_rate r in
  mkAuthorityShot
    (mkShotResult (cmd_tick command) (cmd_shooter command) weapon ShotReject (Some reason)
       None None None 0 None false)
    (mkShotTelemetry (cmd_tick command) (cmd_shooter command) weapon (magazine a) (reserve a)
       spread (magnitude_millidegrees sway) (gait r) (stance r) (planar_speed_mmps r)
       (cmd_origin command) (cmd_direction command) ShotReject (Some reason) None None 0 None)
    dive None [].

Definition rejected_authority_shot (command : ShotCommand) (weapon : WeaponId) (a : WeaponAmmo)
    (r : RidingState) (tick_rate : Z) (reason : ShotRejectionReason) : AuthorityShot :=
  rejected_authority_shot_detailed command weapon a r tick_rate reason None.

(** ** The checks, in the code's order *)

(** Before the command counts as seen. *)
Definition admission (self : CombatAuthority) (s : AuthorityShooter) (command : ShotCommand)
    (authority_tick : SimulationTick) (rider : RiderSnapshot) : option ShotRejectionReason :=
  if negb (bool_decide (rider_shooter rider = cmd_shooter command))
     || negb (rider_tick rider =? cmd_tick command)
     || negb (riding_is_consistent (rider_riding rider))
  then Some RejectRiderSnapshot
  else if cmd_tick command >? authority_tick then Some TickFuture
  else
    let rollback_ticks :=
      div_ceil (saturating_mul 64 (auth_tick_rate self) MAX_LAG_COMPENSATION_MS) 1000 in
    let age := default u64_max (checked_duration_since authority_tick (cmd_tick command)) in
    if age >? rollback_ticks then Some TickStale
    else if is_some_and (last_command_tick s) (fun last_tick => cmd_tick command <=? last_tick)
    then Some TickReplay
    else None.

(** What the command claims against what the authority knows. *)
Definition claim_gate (s : AuthorityShooter) (command : ShotCommand) (rider : RiderSnapshot)
    : option ShotRejectionReason :=
  if negb (bool_decide (cmd_weapon command = equipped (kernel s))) then Some RejectWeapon
  else if negb (is_normalized (cmd_direction command)) then Some InvalidDirection
  else if squared_distance_mm (cmd_origin command) (muzzle_origin rider)
          >? ORIGIN_LEASH_MM * ORIGIN_LEASH_MM
  then Some OriginLeash
  else None.

(** Nearest hit, its damage and the target's loss; [None] is a panic. *)
Definition resolve_hit (registry : TargetRegistry) (command : ShotCommand) (rider : RiderSnapshot)
    (prepared : PreparedShot)
    : option (TargetRegistry * (ShotOutcome * option EntityId * option HitZone * Z * option Z * bool)) :=
  let stats := weapon_stats (shot_weapon prepared) in
  hit ← nearest_hit registry (cmd_tick command) (cmd_origin command) (resolved_direction prepared)
          (hitscan_clamp_mm stats) (cmd_shooter command) (rider_team rider);
  match hit with
  | Some hit =>
      let d := damage_at stats (hit_distance_mm hit) (resolved_zone hit) in
      let '(registry, (_, eliminated)) := apply_damage registry (hit_target hit) d in
      Some (registry, (ShotHit, Some (hit_target hit), Some (resolved_zone hit), d,
                       Some (hit_distance_mm hit), eliminated))
  | None => Some (registry, (ShotMiss, None, None, 0, None, false))
  end.

(** The row kept for attribution; the velocity is the current dive's. *)
Definition accepted_metadata (k : CombatKernel) (command : ShotCommand) (rider : RiderSnapshot)
    (prepared : PreparedShot) : AcceptedShotMetadata :=
  let velocity :=
    id ← shot_dive_id prepared;
    context ← dive_context k;
    if context_dive_id context =? id then Some (prelaunch_horizontal_velocity_mmps context) else None in
  mkAcceptedShotMetadata (cmd_shooter command) (cmd_tick command) (accepted_shot_index prepared)
    (shot_weapon prepared) (stance (rider_riding rider)) (gait (rider_riding rider))
    (shot_dive_id prepared) (default (0, 0) velocity).

Definition accepted_telemetry (command : ShotCommand) (rider : RiderSnapshot)
    (prepared : PreparedShot) (r : ShotResult) : ShotTelemetry :=
  mkShotTelemetry (cmd_tick command) (cmd_shooter command) (shot_weapon prepared)
    (magazine (shot_ammo prepared)) (reserve (shot_ammo prepared)) (spread_millidegrees prepared)
    (magnitude_millidegrees (shot_sway prepared)) (gait (rider_riding rider))
    (stance (rider_riding rider)) (planar_speed_mmps (rider_riding rider)) (cmd_origin command)
    (resolved_direction prepared) (outcome r) None (target_id r) (hit_zone r) (damage r)
    (distance_mm r).

(** From an accepted shot to its answer: hit, damage, result, telemetry, ledger. *)
Definition conclude_shot (self : CombatAuthority) (registry : TargetRegistry) (command : ShotCommand)
    (rider : RiderSnapshot) (k : CombatKernel) (prepared : PreparedShot)
    : CombatAuthority * TargetRegistry * option AuthorityShot :=
  match resolve_hit registry command rider prepared with
  | None => (self, registry, None)
  | Some (registry, (out, target, zone, d, distance, elim)) =>
      let r := mkShotResult (cmd_tick command) (cmd_shooter command) (shot_weapon prepared) out None
                 (Some (resolved_direction prepared)) target zone d distance elim in
      let shot := accepted_metadata k command rider prepared in
      let '(l, _) := record_accepted (shot_ledger self) shot in
      let '(l, attribution) := observe_result l (authority_epoch self) r in
      (self <| shot_ledger := l |>, registry,
       Some (mkAuthorityShot r (accepted_telemetry command rider prepared r) None
               (Some shot) (events attribution)))
  end.

(** The new authority, the new registry and the answer; [None] is a panic. *)
Definition validate_shot (self : CombatAuthority) (command : ShotCommand)
    (authority_tick : SimulationTick) (rider : RiderSnapshot) (registry : TargetRegistry)
    : CombatAuthority * TargetRegistry * option AuthorityShot :=
  match shooters self !! cmd_shooter command with
  | None =>
      (self, registry, Some (rejected_authority_shot command (cmd_weapon command) ammo_default
         (rider_riding rider) (auth_tick_rate self) UnknownShooter))
  | Some s =>
      let weapon := equipped (kernel s) in
      let ammo_before := equipped_ammo (kernel s) in
      match admission self s command authority_tick rider with
      | Some reason =>
          (self, registry, Some (rejected_authority_shot command weapon ammo_before
             (rider_riding rider) (auth_tick_rate self) reason))
      | None =>
          let s := s <| last_command_tick := Some (cmd_tick command) |> in
          match claim_gate s command rider with
          | Some reason =>
              (set_shooter self (cmd_shooter command) s, registry,
               Some (rejected_authority_shot command weapon ammo_before (rider_riding rider)
                       (auth_tick_rate self) reason))
          | None =>
              let '(k, fired) := request_fire_detailed (kernel s) (cmd_tick command)
                                   (cmd_direction command) (rider_riding rider) (cmd_seed command) in
              let self := set_shooter self (cmd_shooter command) (s <| kernel := k |>) in
              match fired with
              | Err Panicked => (self, registry, None)
              | Err (Raised rejection) =>
                  (self, registry,
                   Some (rejected_authority_shot_detailed command weapon (equipped_ammo k)
                           (rider_riding rider) (auth_tick_rate self) (wire_reason rejection)
                           (dive_reason rejection)))
              | Ok prepared =>
                  conclude_shot self registry command rider k prepared
              end
          end
      end
  end.
End validation.

(** ** The invariant *)

(** Every shooter runs its own kernel with the authority's rate and seed, and the
    ledger holds no shot of a tick the shooter's commands have not reached. *)
Record authority_inv (a : CombatAuthority) : Prop := {
  auth_rate_ok : 0 < auth_tick_rate a < 2 ^ 32;
  auth_shooters_ok : map_Forall (fun id s =>
    weapon_inv (kernel s) /\ statics (kernel s) = (auth_seed a, id) /\
    opt_u64 (last_command_tick s)) (shooters a);
  auth_ledger_ok : shot_ledger_inv (shot_ledger a);
  auth_commands_ok : forall key shot, accepted (shot_ledger a) !! key = Some shot ->
    exists s c, shooters a !! key.1 = Some s /\ last_command_tick s = Some c /\ key.2 <= c;
}.

Lemma set_shooter_inv a id s s' :
  authority_inv a -> shooters a !! id = Some s ->
  weapon_inv (kernel s') -> statics (kernel s') = (auth_seed a, id) ->
  opt_u64 (last_command_tick s') ->
  (forall c, last_command_tick s = Some c -> exists c', last_command_tick s' = Some c' /\ c <= c') ->
  authority_inv (set_shooter a id s').
Proof.
  intros [Hr Hsh Hl Hc] Hs Hk Hst Hu Hmono. split; simpl; try done.
  - by apply map_Forall_insert_2.
  - intros key shot Hkey. destruct (Hc key shot Hkey) as (s0 & c & Hs0 & Hc0 & Hle).
    destruct (decide (key.1 = id)) as [Heq|Hne].
    + rewrite Heq in Hs0. rewrite Hs in Hs0. injection Hs0 as ->.
      destruct (Hmono c Hc0) as (c' & Hc' & Hcc). exists s', c'.
      rewrite Heq, lookup_insert_eq. split_and!; [done|done|lia].
    + exists s0, c. by rewrite lookup_insert_ne.
Qed.

(** A kernel moved by any of its own operations. *)
Lemma kernel_step_inv `{Libm} a id s op :
  authority_inv a -> shooters a !! id = Some s -> weapon_op_ok op ->
  authority_inv (set_shooter a id (s <| kernel := (weapon_step (kernel s) op).1 |>)).
Proof.
  intros Ha Hs Hop. destruct (auth_shooters_ok a Ha _ _ Hs) as (Hk & Hst & Hu).
  destruct (weapon_step (kernel s) op) as [k e] eqn:E.
  destruct (weapon_step_refines _ _ _ _ Hk Hop E) as (_ & (Hi & _ & Hst') & _).
  apply (set_shooter_inv a id s); simpl; try done; [congruence|].
  intros c Hc. exists c. split; [done|lia].
Qed.

Lemma register_inv a id w :
  authority_inv a -> authority_inv (register_shooter a id w).1 /\ (register_shooter a id w).2 <> None.
Proof.
  intros Ha. unfold register_shooter. destruct (shooters a !! id) eqn:E; [done|].
  pose proof (auth_rate_ok a Ha). unfold with_weapon at 1 2.
  destruct (Z.eqb_spec (auth_tick_rate a) 0); [lia|]. cbn [fst snd]. split; [|done].
  set (k := mkCombatKernel _ _ _ _ _ _ _ _ _ _ _ _ _).
  assert (Hk : weapon_inv k).
  { apply (with_weapon_inv (auth_tick_rate a) (auth_seed a) id w); [int_lia|].
    unfold with_weapon. destruct (Z.eqb_spec (auth_tick_rate a) 0); [lia|done]. }
  destruct Ha as [Hr Hsh Hl Hc]. split; simpl; try done.
  - apply map_Forall_insert_2; [|done]. by split_and!.
  - intros key shot Hkey. destruct (Hc key shot Hkey) as (s0 & c & Hs0 & Hc0 & Hle).
    exists s0, c. rewrite lookup_insert_ne by congruence. done.
Qed.

(** A shooter restored from a handoff has no shots in this authority's ledger. *)
Definition unrecorded (a : CombatAuthority) (id : PlayerId) : Prop :=
  forall key, is_Some (accepted (shot_ledger a) !! key) -> key.1 <> id.

Lemma restore_shooter_inv a id w am lc la index :
  authority_inv a -> unrecorded a id -> ammo_typed am -> opt_u64 lc -> opt_u64 la -> u64 index ->
  authority_inv (restore_shooter a id w am lc la index).1.
Proof.
  intros Ha Hun Ham Hlc Hla Hidx. unfold restore_shooter.
  destruct (with_weapon _ _ _ _) as [k|] eqn:Ew; [|done].
  assert (Hk : weapon_inv k) by (eapply with_weapon_inv; [|exact Ew]; pose proof (auth_rate_ok a Ha); int_lia).
  destruct (set_ammo k w am) as [k1 st] eqn:Es.
  assert (H1 : weapon_inv k1 /\ reload k1 = None /\ dive_context k1 = None /\
               statics k1 = (auth_seed a, id)).
  { unfold with_weapon in Ew. destruct (_ =? 0); [done|]. apply Ok_inj in Ew. subst k.
    unfold set_ammo in Es. cbn [inventory] in Es. rewrite lookup_singleton_eq in Es.
    injection Es as <- <-. split_and!; try done. destruct Hk. split; simpl in *; try done.
    - apply map_Forall_insert_2; [by apply ammo_clamped_ok|done].
    - rewrite lookup_insert_eq. eauto. }
  destruct H1 as (Hk1 & Hrel & Hdc & Hst). destruct (_ || _) eqn:E; [done|].
  rewrite !orb_false_iff in E. destruct_and! E. cbn [fst].
  set (clock := default 0 _).
  assert (Hclock : u64 clock /\ forall t, la = Some t -> 0 <= t <= clock).
  { unfold clock. destruct lc as [c|], la as [t|]; simpl in *; try done.
    split; [done|]. intros t' [= <-]. unfold in_uint in *. lia. }
  destruct Hclock as [Hcl Hacc]. clearbody clock.
  destruct Ha as [Hr Hsh Hl Hc]. split; simpl; try done.
  - apply map_Forall_insert_2; [|done]. cbn [kernel last_command_tick]. split_and!; [|done|done].
    destruct Hk1. split; simpl; try done; rewrite Hdc; done.
  - intros key shot Hkey. destruct (Hc key shot Hkey) as (s0 & c & Hs0 & Hc0 & Hle).
    exists s0, c. rewrite lookup_insert_ne; [done|]. intros Heq. apply (Hun key); eauto.
Qed.

(** Every recorded horse pose has a direction, so the ray test cannot panic. *)
Definition geometry_total (g : TargetGeometrySnapshot) : Prop :=
  match g with
  | GeometryRider _ => True
  | GeometryHorse pose => is_Some (normalized (vec_from_direction (body_forward pose)))
  end.
Definition registry_total (r : TargetRegistry) : Prop :=
  map_Forall (fun _ record => Forall geometry_total (history record)) (targets r).

Lemma nearest_hit_total r t o d m id team :
  registry_total r -> is_Some (nearest_hit r t o d m id team).
Proof.
  intros Hr. unfold nearest_hit. destruct (normalized (vec_from_direction d)) as [ray|]; [|eauto].
  assert (Hall : Forall (fun record => is_Some (record_candidates t (vec_from_origin o) ray m id team record))
                        (btree_values (targets r))).
  { apply Forall_forall. intros record [i Hi]%elem_of_btree_values. specialize (Hr i record Hi). simpl in Hr.
    unfold record_candidates. case_match; [eauto|].
    destruct (geometry_at record t) as [g|] eqn:E; [|eauto].
    assert (Hg : geometry_total g).
    { rewrite Forall_forall in Hr. apply Hr. unfold geometry_at in E.
      apply head_Some_elem_of, list_elem_of_filter in E as [_ E]. exact (proj1 (elem_of_reverse _ _) E). }
    destruct g as [pose|pose]; cbn [geometry_distances mbind option_bind].
    - case_match; eauto.
    - simpl in Hg. destruct Hg as [f ->]. cbn [mbind option_bind]. case_match; eauto. }
  revert Hall.
  assert (Hgen : forall records nearest,
    Forall (fun record => is_Some (record_candidates t (vec_from_origin o) ray m id team record)) records ->
    is_Some (fold_left (fun nearest record =>
      nearest ← nearest;
      candidates ← record_candidates t (vec_from_origin o) ray m id team record;
      Some (fold_left keep_nearer candidates nearest)) records (Some nearest))).
  { induction records as [|record records IH]; intros nearest Hall; cbn [fold_left]; [eauto|].
    apply Forall_cons in Hall as [[cs Hcs] Hall]. cbn [mbind option_bind]. rewrite Hcs.
    cbn [mbind option_bind]. by apply IH. }
  intros Hall. by apply Hgen.
Qed.

Lemma apply_damage_total r id d r' h e :
  registry_total r -> apply_damage r id d = (r', (h, e)) -> registry_total r'.
Proof.
  intros Hr. unfold apply_damage. destruct (targets r !! id) as [record|] eqn:E; intros [= <- <- <-]; [|done].
  apply map_Forall_insert_2; [|done]. exact (Hr id record E).
Qed.

(** ** What an accepted shot means *)

Definition rollback_ticks (rate : Z) : Z := div_ceil (rate * MAX_LAG_COMPENSATION_MS) 1000.

Section validate.
Context `{Libm}.

(** The command is the shooter's own, of a tick the authority has reached no more
    than the lag window ago and newer than all before, made with the equipped rifle
    within the leash of the rewound muzzle, and its kernel would fire. *)
Definition shot_admissible (a : CombatAuthority) (command : ShotCommand) (now : SimulationTick)
    (rider : RiderSnapshot) : Prop :=
  exists s, shooters a !! cmd_shooter command = Some s /\
    rider_shooter rider = cmd_shooter command /\ rider_tick rider = cmd_tick command /\
    now - rollback_ticks (auth_tick_rate a) <= cmd_tick command <= now /\
    (forall t, last_command_tick s = Some t -> t < cmd_tick command) /\
    cmd_weapon command = equipped (kernel s) /\
    squared_distance_mm (cmd_origin command) (muzzle_origin rider) <= ORIGIN_LEASH_MM * ORIGIN_LEASH_MM /\
    fire_conditions (kernel s) (cmd_tick command) (cmd_direction command) (rider_riding rider)
      (cmd_seed command).

Lemma admission_None a s command now rider :
  0 < auth_tick_rate a < 2 ^ 32 ->
  admission a s command now rider = None <->
  rider_shooter rider = cmd_shooter command /\ rider_tick rider = cmd_tick command /\
  riding_is_consistent (rider_riding rider) = true /\
  now - rollback_ticks (auth_tick_rate a) <= cmd_tick command <= now /\
  (forall t, last_command_tick s = Some t -> t < cmd_tick command).
Proof.
  intros Hr. unfold admission.
  assert (Hroll : div_ceil (saturating_mul 64 (auth_tick_rate a) MAX_LAG_COMPENSATION_MS) 1000
                  = rollback_ticks (auth_tick_rate a)).
  { unfold rollback_ticks. f_equal. unfold MAX_LAG_COMPENSATION_MS. int_lia. }
  rewrite Hroll. generalize (rollback_ticks (auth_tick_rate a)). intros w.
  case_bool_decide; cbn [negb orb]; [|naive_solver].
  destruct (Z.eqb_spec (rider_tick rider) (cmd_tick command)); cbn [negb orb]; [|naive_solver].
  destruct (riding_is_consistent (rider_riding rider)); cbn [negb]; [|naive_solver].
  destruct (Z.gtb_spec (cmd_tick command) now); [naive_solver lia|].
  unfold checked_duration_since, checked_sub. destruct (Z.leb_spec (cmd_tick command) now); [|lia].
  cbn [default from_option]. unfold id.
  destruct (Z.gtb_spec (now - cmd_tick command) w); [naive_solver lia|].
  destruct (last_command_tick s) as [t|]; cbn [is_some_and]; [|naive_solver lia].
  destruct (Z.leb_spec (cmd_tick command) t).
  - split; [done|]. intros (_ & _ & _ & _ & Hlast). specialize (Hlast t eq_refl). lia.
  - split; [|done]. intros _. split_and!; try done; try lia. intros t' [= <-]. lia.
Qed.

Lemma claim_gate_None s command rider :
  claim_gate s command rider = None <->
  cmd_weapon command = equipped (kernel s) /\ is_normalized (cmd_direction command) = true /\
  squared_distance_mm (cmd_origin command) (muzzle_origin rider) <= ORIGIN_LEASH_MM * ORIGIN_LEASH_MM.
Proof.
  unfold claim_gate. case_bool_decide; cbn [negb]; [|naive_solver].
  destruct (is_normalized (cmd_direction command)); cbn [negb]; [|naive_solver].
  destruct (Z.gtb_spec (squared_distance_mm (cmd_origin command) (muzzle_origin rider))
    (ORIGIN_LEASH_MM * ORIGIN_LEASH_MM)); naive_solver lia.
Qed.

(** The shooter's state after a command that did not fire. *)
Definition quiet (a a' : CombatAuthority) (command : ShotCommand) : Prop :=
  a' = a \/
  exists s s', shooters a !! cmd_shooter command = Some s /\
    a' = set_shooter a (cmd_shooter command) s' /\
    refines (kernel s) (kernel s') LTime /\ last_command_tick s' = Some (cmd_tick command) /\
    (forall t, last_command_tick s = Some t -> t < cmd_tick command).

Definition refused_result (r : ShotResult) : Prop :=
  outcome r = ShotReject /\ is_some (rejection_reason r) = true /\ result_direction r = None /\
  target_id r = None /\ hit_zone r = None /\ damage r = 0 /\ distance_mm r = None /\
  eliminated r = false.

Definition refused (a a' : CombatAuthority) (reg reg' : TargetRegistry) (command : ShotCommand)
    (shot : AuthorityShot) : Prop :=
  reg' = reg /\ quiet a a' command /\ refused_result (shot_result shot) /\
  shot_metadata shot = None /\ gameplay_events shot = [].

(** The shooter, registry and ledger after a command that fired. *)
Definition fired (a a' : CombatAuthority) (reg reg' : TargetRegistry) (command : ShotCommand)
    (rider : RiderSnapshot) (shot : AuthorityShot) : Prop :=
  exists s k' prepared meta,
    shooters a !! cmd_shooter command = Some s /\
    request_fire_detailed (kernel s) (cmd_tick command) (cmd_direction command)
      (rider_riding rider) (cmd_seed command) = (k', Ok prepared) /\
    shooters a' = <[cmd_shooter command := mkAuthorityShooter k' (Some (cmd_tick command))]> (shooters a) /\
    accepted (shot_ledger a) !! (cmd_shooter command, cmd_tick command) = None /\
    accepted (shot_ledger a') = <[(cmd_shooter command, cmd_tick command) := meta]> (accepted (shot_ledger a)) /\
    meta = accepted_metadata k' command rider prepared /\ shot_metadata shot = Some meta /\
    shot_ledger_run (shot_ledger a)
      [RecordShot meta; ObserveResult (authority_epoch a) (shot_result shot)]
      = (shot_ledger a', gameplay_events shot) /\
    (exists hit,
       nearest_hit reg (cmd_tick command) (cmd_origin command) (resolved_direction prepared)
         (hitscan_clamp_mm (weapon_stats (equipped (kernel s)))) (cmd_shooter command)
         (rider_team rider) = Some hit /\
       match hit with
       | None => reg' = reg /\ outcome (shot_result shot) = ShotMiss /\ damage (shot_result shot) = 0 /\
                 eliminated (shot_result shot) = false /\ gameplay_events shot = []
       | Some h =>
           outcome (shot_result shot) = ShotHit /\ target_id (shot_result shot) = Some (hit_target h) /\
           damage (shot_result shot)
             = damage_at (weapon_stats (equipped (kernel s))) (hit_distance_mm h) (resolved_zone h) /\
           (exists left, apply_damage reg (hit_target h) (damage (shot_result shot))
                         = (reg', (left, eliminated (shot_result shot)))) /\
           gameplay_events shot
             = shot_event (authority_epoch a) meta (shot_result shot) <$> hit_kinds meta (shot_result shot)
       end).

Lemma rejected_refused a command w am r rate reason dive reg :
  refused a a reg reg command (rejected_authority_shot_detailed command w am r rate reason dive).
Proof. split; [done|]. split; [by left|]. by split_and!. Qed.

(** The gates: a command is answered with a rejection, or it fires. *)
Lemma validate_gates a command now rider reg :
  authority_inv a -> u64 (cmd_tick command) ->
  (exists a' shot, validate_shot a command now rider reg = (a', reg, Some shot) /\
     ~ shot_admissible a command now rider /\ refused a a' reg reg command shot /\ authority_inv a') \/
  (exists s k' prepared,
     let a1 := set_shooter a (cmd_shooter command) (mkAuthorityShooter k' (Some (cmd_tick command))) in
     shooters a !! cmd_shooter command = Some s /\ shot_admissible a command now rider /\
     request_fire_detailed (kernel s) (cmd_tick command) (cmd_direction command)
       (rider_riding rider) (cmd_seed command) = (k', Ok prepared) /\
     authority_inv a1 /\
     validate_shot a command now rider reg = conclude_shot a1 reg command rider k' prepared).
Proof.
  intros Ha Ht. unfold validate_shot.
  destruct (shooters a !! cmd_shooter command) as [s|] eqn:Hs.
  2:{ left. eexists _, _. split; [done|]. split; [|split; [apply rejected_refused|done]].
      intros (s & Hs' & _). congruence. }
  destruct (auth_shooters_ok a Ha _ _ Hs) as (Hk & Hst & Hu).
  destruct (admission a s command now rider) as [reason|] eqn:Hadm.
  { left. eexists _, _. split; [done|]. split; [|split; [apply rejected_refused|done]].
    intros (s' & Hs' & H1 & H2 & H3 & H4 & _ & _ & H5). rewrite Hs in Hs'. injection Hs' as <-.
    rewrite (proj2 (admission_None a s command now rider (auth_rate_ok a Ha))) in Hadm; [done|].
    split_and!; try done; [apply H5|lia|lia]. }
  apply admission_None in Hadm as (Hrs & Hrt & Hcons & Hwin & Hlast); [|apply Ha].
  set (s1 := s <| last_command_tick := Some (cmd_tick command) |>).
  assert (Hmono : forall c, last_command_tick s = Some c ->
    exists c', Some (cmd_tick command) = Some c' /\ c <= c').
  { intros c Hc. exists (cmd_tick command). split; [done|]. specialize (Hlast c Hc). lia. }
  destruct (claim_gate s1 command rider) as [reason|] eqn:Hclaim.
  { left. eexists _, _. split; [done|]. split; [|split].
    - intros (s' & Hs' & _ & _ & _ & _ & Hw & Hl & Hc). rewrite Hs in Hs'. injection Hs' as <-.
      rewrite (proj2 (claim_gate_None s1 command rider)) in Hclaim; [done|].
      split_and!; [exact Hw|apply Hc|exact Hl].
    - split; [done|]. split; [right|by split_and!]. exists s, s1. split_and!; try done.
      apply (refines_refl (kernel s) Hk).
    - by apply (set_shooter_inv a _ s s1). }
  apply claim_gate_None in Hclaim as (Hw & Hn & Hleash). change (kernel s1) with (kernel s) in *.
  destruct (request_fire_detailed (kernel s) (cmd_tick command) (cmd_direction command)
              (rider_riding rider) (cmd_seed command)) as [k' o] eqn:Hfire.
  pose proof (fire_refines _ _ _ _ _ _ _ Hk Ht Hfire) as Href.
  destruct o as [prepared|[rejection|]]; [| |done].
  - right. exists s, k', prepared. split; [done|]. split; [|split; [done|split; [|done]]].
    + exists s. split_and!; try done; [lia|lia|]. apply (fire_accepted_needs _ _ _ _ _ Hk Ht).
      by rewrite Hfire.
    + apply (set_shooter_inv a _ s); try done; [apply Href|].
      destruct Href as [(_ & _ & Hst') _]. simpl. congruence.
  - left. eexists _, _. split; [done|]. split; [|split].
    + intros (s' & Hs' & _ & _ & _ & _ & _ & _ & Hc). rewrite Hs in Hs'. injection Hs' as <-.
      apply (fire_accepted_when _ _ _ _ _ Hk Ht) in Hc. by rewrite Hfire in Hc.
    + split; [done|]. split; [right|by split_and!]. exists s, (s1 <| kernel := k' |>).
      by split_and!.
    + apply (set_shooter_inv a _ s); try done; [apply Href|].
      destruct Href as (_ & _ & Hst'). simpl. congruence.
Qed.

(** Whatever is not refused was admissible. *)
Lemma answered_admissible a command now rider reg shot :
  authority_inv a -> u64 (cmd_tick command) ->
  (validate_shot a command now rider reg).2 = Some shot -> outcome (shot_result shot) <> ShotReject ->
  shot_admissible a command now rider.
Proof.
  intros Ha Ht Hv Ho. destruct (validate_gates a command now rider reg Ha Ht)
    as [(a' & shot' & Heq & _ & (_ & _ & (Hout & _) & _) & _)|(s & k' & p & _ & Hadm & _)]; [|done].
  rewrite Heq in Hv. simpl in Hv. apply (inj Some) in Hv. subst shot'. done.
Qed.

(** No shot of a newer tick is in the ledger. *)
Lemma command_unrecorded a command now rider s :
  authority_inv a -> shooters a !! cmd_shooter command = Some s ->
  shot_admissible a command now rider ->
  accepted (shot_ledger a) !! (cmd_shooter command, cmd_tick command) = None.
Proof.
  intros Ha Hs (s' & Hs' & _ & _ & _ & Hlast & _). rewrite Hs in Hs'. injection Hs' as <-.
  destruct (accepted (shot_ledger a) !! _) as [shot|] eqn:E; [|done].
  destruct (auth_commands_ok a Ha _ _ E) as (s' & c & Hs'' & Hc & Hle). cbn [fst snd] in *.
  rewrite Hs in Hs''. injection Hs'' as <-. specialize (Hlast c Hc). lia.
Qed.

Lemma metadata_consistent k t d r seed k' prepared command rider :
  weapon_inv k -> u64 t -> request_fire_detailed k t d r seed = (k', Ok prepared) ->
  rider_riding rider = r ->
  metadata_is_consistent (accepted_metadata k' command rider prepared) = true.
Proof.
  intros Hk Ht Hf <-. destruct (fire_prepared _ _ _ _ _ _ _ Hk Ht Hf) as (_ & _ & Hst & Hd).
  unfold metadata_is_consistent. cbn [accepted_metadata meta_stance meta_dive].
  rewrite Hd, Bool.eqb_reflx. by destruct Hst as [-> | ->].
Qed.

(** What [conclude_shot] does with the ledger. *)
Lemma ledger_grows a id s k' tick meta l2 :
  authority_inv (set_shooter a id (mkAuthorityShooter k' (Some tick))) ->
  shooters a !! id = Some s ->
  shooter meta = id -> meta_tick meta = tick ->
  shot_ledger_inv l2 -> accepted l2 = <[(id, tick) := meta]> (accepted (shot_ledger a)) ->
  authority_inv ((set_shooter a id (mkAuthorityShooter k' (Some tick))) <| shot_ledger := l2 |>).
Proof.
  intros [Hr Hsh Hl Hc] Hs Hm1 Hm2 Hl2 Hacc. split; simpl in *; try done.
  intros key shot. rewrite Hacc, lookup_insert_Some. intros [[<- <-]|[_ Hkey]].
  - eexists _, tick. cbn [fst snd]. rewrite lookup_insert_eq. done.
  - by apply (Hc key shot).
Qed.

Lemma conclude_spec a command now rider reg s k' prepared :
  let a1 := set_shooter a (cmd_shooter command) (mkAuthorityShooter k' (Some (cmd_tick command))) in
  authority_inv a -> authority_inv a1 -> registry_inv reg -> registry_total reg -> u64 (cmd_tick command) ->
  shooters a !! cmd_shooter command = Some s -> shot_admissible a command now rider ->
  request_fire_detailed (kernel s) (cmd_tick command) (cmd_direction command)
    (rider_riding rider) (cmd_seed command) = (k', Ok prepared) ->
  exists a' reg' shot,
    conclude_shot a1 reg command rider k' prepared = (a', reg', Some shot) /\
    fired a a' reg reg' command rider shot /\ authority_inv a' /\ registry_total reg'.
Proof.
  intros a1 Ha Ha1 Hreg Htot Ht Hs Hadm Hfire.
  destruct (auth_shooters_ok a Ha _ _ Hs) as (Hk & _ & _).
  destruct (fire_prepared _ _ _ _ _ _ _ Hk Ht Hfire) as (Hpt & Hpw & _ & _).
  pose proof (command_unrecorded a command now rider s Ha Hs Hadm) as Hnew.
  pose proof (metadata_consistent _ _ _ _ _ _ prepared command rider Hk Ht Hfire eq_refl) as Hcons.
  set (meta := accepted_metadata k' command rider prepared) in *.
  unfold conclude_shot, resolve_hit. fold meta. rewrite Hpw.
  destruct (nearest_hit_total reg (cmd_tick command) (cmd_origin command) (resolved_direction prepared)
    (hitscan_clamp_mm (weapon_stats (equipped (kernel s)))) (cmd_shooter command) (rider_team rider) Htot)
    as [hit Hhit]. rewrite Hhit. cbn [mbind option_bind].
  assert (Hledger : forall r, result_shooter r = cmd_shooter command -> result_tick r = cmd_tick command ->
    result_weapon r = equipped (kernel s) -> outcome r <> ShotReject ->
    exists l1 l2 at_, record_accepted (shot_ledger a1) meta = (l1, true) /\
      observe_result l1 (authority_epoch a1) r = (l2, at_) /\
      accepted l2 = <[(cmd_shooter command, cmd_tick command) := meta]> (accepted (shot_ledger a)) /\
      authority_inv (a1 <| shot_ledger := l2 |>) /\
      shot_ledger_run (shot_ledger a) [RecordShot meta; ObserveResult (authority_epoch a) r]
        = (l2, events at_) /\
      events at_ = if bool_decide (outcome r = ShotHit)
                   then shot_event (authority_epoch a) meta r <$> hit_kinds meta r else []).
  { intros r H1 H2 H3 H4.
    destruct (record_then_observe (shot_ledger a1) (authority_epoch a1) meta r) as (l1 & Hl1 & Hobs);
      try done; [apply Ha1|unfold meta; cbn; congruence|].
    destruct (observe_result l1 (authority_epoch a1) r) as [l2 at_] eqn:Eo. destruct Hobs as (Hi & Hacc & _ & Hev).
    exists l1, l2, at_. split_and!; try done; [by apply (ledger_grows a _ s k' _ meta)|].
    change (shot_ledger a1) with (shot_ledger a) in Hl1. change (authority_epoch a1) with (authority_epoch a) in Eo.
    cbn [shot_ledger_run shot_ledger_step]. rewrite Hl1. cbn [fst]. rewrite Eo. by rewrite app_nil_r. }
  destruct hit as [h|].
  - destruct (apply_damage reg (hit_target h) _) as [reg' [left_ elim]] eqn:Hdam.
    set (r := mkShotResult _ _ _ _ _ _ _ _ _ _ _).
    destruct (Hledger r eq_refl eq_refl eq_refl ltac:(done)) as (l1 & l2 & at_ & -> & -> & Hacc & Hi & Hrun & Hev).
    eexists _, _, _. split; [reflexivity|]. split; [|split; [exact Hi|by eapply apply_damage_total]].
    exists s, k', prepared, meta. split_and!; try done. exists (Some h). split; [exact Hhit|].
    split_and!; try done. by exists left_.
  - set (r := mkShotResult _ _ _ _ _ _ _ _ _ _ _).
    destruct (Hledger r eq_refl eq_refl eq_refl ltac:(done)) as (l1 & l2 & at_ & -> & -> & Hacc & Hi & Hrun & Hev).
    eexists _, _, _. split; [reflexivity|]. split; [|split; [exact Hi|done]].
    exists s, k', prepared, meta. split_and!; try done. exists None. split; [exact Hhit|]. by split_and!.
Qed.
End validate.
