(* ===== verification/AuthorityRun.v ===== *)
(** * The authority over a match: one command's contract, and all commands'

    What the shot validation of [CombatAuthority] promises for one command, and what
    holds over any sequence of commands, observed results, dives and target updates. *)

From S2P Require Import Prelude MachineInt SplitMix Ordered Clock Bytes Identifiers Stance Combat.
From S2P Require Import DiveMath Aim WeaponKernel WeaponRun ShotLedger Targets CombatAuthority.
Open Scope Z_scope.

(** ** The registry's operations keep its invariant *)

(** Well-formed, and every horse pose it holds has a direction. *)
Definition registry_ok (r : TargetRegistry) : Prop := registry_inv r /\ registry_total r.

Lemma registry_ok_update r id record record' :
  registry_ok r -> targets r !! id = Some record ->
  definition record' = definition record ->
  0 <= target_health record' <= target_max_health (definition record') ->
  Forall geometry_total (history record') ->
  registry_ok (r <| targets := <[id := record']> (targets r) |>).
Proof.
  intros [Hi Ht] Hr Hd Hh Hg. split.
  - apply (registry_update r id record); try done. rewrite Hd. exact (ids_ok r Hi _ _ Hr).
  - by apply map_Forall_insert_2.
Qed.

Lemma registry_restore_ok r d h :
  registry_ok r -> 0 <= h -> registry_ok (registry_restore r d h).1.
Proof.
  intros [Hi Ht] Hh. unfold registry_restore. destruct (_ || _) eqn:E; [done|].
  rewrite orb_false_iff, Z.gtb_ltb, Z.ltb_ge in E. destruct E as [_ E].
  destruct (is_some _); [done|]. destruct Hi as [Hids Hhs]. split; [split|]; simpl.
  - by apply map_Forall_insert_2.
  - by apply map_Forall_insert_2.
  - apply map_Forall_insert_2; [constructor|exact Ht].
Qed.

Lemma pop_front_while_sub f l x : x ∈ pop_front_while f l -> x ∈ l.
Proof. induction l as [|g l IH]; [done|]. simpl. case_match; [|done]. intros Hx. right. by apply IH. Qed.

Lemma store_geometry_ok r id g :
  registry_ok r -> geometry_total g -> registry_ok (store_geometry r id g).1.
Proof.
  intros Hr Hg. unfold store_geometry. destruct (targets r !! id) as [record|] eqn:E; [|done].
  unfold push_geometry. destruct (is_some_and (geometry_kind record) _); [done|].
  destruct (is_some_and (last _) _); [done|]. apply (registry_ok_update r id record); try done.
  - exact (health_ok r (proj1 Hr) _ _ E).
  - pose proof (proj2 Hr id record E) as Hh. cbv beta in Hh. rewrite Forall_forall in *.
    intros x Hx. apply pop_front_while_sub, elem_of_app in Hx as [Hx|Hx]; [by apply Hh|].
    apply list_elem_of_singleton in Hx. by subst x.
Qed.

(** A horse pose is recorded only when its direction passes the check of the wire. *)
Lemma recorded_horse_total pose :
  negb (is_normalized (body_forward pose)) = false -> geometry_total (GeometryHorse pose).
Proof. intros Hn%negb_false_iff. exact (normalized_direction _ Hn). Qed.
Lemma record_horse_pose_ok r pose : registry_ok r -> registry_ok (record_horse_pose r pose).1.
Proof.
  intros Hr. unfold record_horse_pose. destruct (_ || _) eqn:Hg; [done|]. rewrite !orb_false_iff in Hg.
  destruct Hg as [[_ Hn] _]. by apply store_geometry_ok, recorded_horse_total.
Qed.

Lemma synchronize_health_ok r id h :
  registry_ok r -> 0 <= h -> registry_ok (synchronize_health r id h).1.
Proof.
  intros Hr Hh. unfold synchronize_health. destruct (targets r !! id) as [record|] eqn:E; [|done].
  destruct (Z.gtb_spec h (target_max_health (definition record))); [done|].
  apply (registry_ok_update r id record); try done. exact (proj2 Hr id record E).
Qed.

Lemma respawn_ok r id : registry_ok r -> registry_ok (respawn r id).1.
Proof.
  intros Hr. unfold respawn. destruct (targets r !! id) as [record|] eqn:E; [|done].
  apply (registry_ok_update r id record); try done; [|exact (proj2 Hr id record E)].
  pose proof (health_ok r (proj1 Hr) _ _ E) as Hh. simpl in *. lia.
Qed.

(** ** The properties of one command *)

Section shots.
Context `{Libm}.

(** C2. The authority accepts a shot exactly when it is admissible: its shooter is
    registered and is the rewound rider, its tick is at most the lag window old,
    not in the future and newer than every command seen, the rifle is the one in
    hand, the origin lies within the leash of the authority's muzzle, and the
    kernel's own conditions hold. It always answers, without a panic. *)
Theorem shot_accepted_iff a command now rider reg :
  authority_inv a -> registry_ok reg -> u64 (cmd_tick command) ->
  exists shot, (validate_shot a command now rider reg).2 = Some shot /\
    (outcome (shot_result shot) <> ShotReject <-> shot_admissible a command now rider).
Proof.
  intros Ha [Hreg Htot] Ht.
  destruct (validate_gates a command now rider reg Ha Ht)
    as [(a' & shot & -> & Hno & (_ & _ & (Hout & _) & _) & _)|(s & k' & p & Hs & Hadm & Hf & Ha1 & ->)].
  - exists shot. split; [done|]. by rewrite Hout.
  - destruct (conclude_spec a command now rider reg s k' p Ha Ha1 Hreg Htot Ht Hs Hadm Hf)
      as (a' & reg' & shot & -> & Hfired & _). exists shot. split; [done|]. split; [done|]. intros _.
    destruct Hfired as (s1 & k1 & prep & meta & _ & _ & _ & _ & _ & _ & _ & _ & hit & Hnear & Hhit).
    destruct hit; [destruct Hhit as (Ho & _)|destruct Hhit as (_ & Ho & _)]; by rewrite Ho.
Qed.

(** A refused command harms nobody: the registry, the ledger, the epoch and
    every other shooter are untouched, the shooter keeps all rounds and indices,
    and the answer names a reason and carries neither target nor damage, whatever
    the command claimed. *)
Theorem shot_refused_cleanly a command now rider reg :
  authority_inv a -> u64 (cmd_tick command) -> ~ shot_admissible a command now rider ->
  exists a' shot, validate_shot a command now rider reg = (a', reg, Some shot) /\
    refused_result (shot_result shot) /\ gameplay_events shot = [] /\
    shot_ledger a' = shot_ledger a /\ authority_epoch a' = authority_epoch a /\
    (forall id, id <> cmd_shooter command -> shooters a' !! id = shooters a !! id) /\
    (forall s, shooters a !! cmd_shooter command = Some s ->
       exists s', shooters a' !! cmd_shooter command = Some s' /\
         carried (kernel s') = carried (kernel s) /\ shot_index (kernel s') = shot_index (kernel s) /\
         last_accepted_tick (kernel s') = last_accepted_tick (kernel s)).
Proof.
  intros Ha Ht Hno. destruct (validate_gates a command now rider reg Ha Ht)
    as [(a' & shot & Hv & _ & (_ & Hq & Hr & _ & He) & _)|(s & k' & p & _ & Hadm & _)]; [|done].
  exists a', shot. split; [done|]. split; [done|]. split; [done|].
  destruct Hq as [-> |(s & s' & Hs & -> & Href & _ & _)].
  - split_and!; try done. intros s Hs. exists s. by split_and!.
  - apply refines_time_inv in Href as (_ & _ & Hc & Hi & Hl & _).
    split; [done|]. split; [done|]. split; [intros id Hid; by apply lookup_insert_ne|].
    intros s0 Hs0. rewrite Hs in Hs0. injection Hs0 as <-.
    exists s'. unfold set_shooter. simpl. rewrite lookup_insert_eq. by split_and!.
Qed.

(** An accepted shot has exactly its effects: what the shot does to the kernel of the
    shooter ([request_fire_detailed], see [WeaponRun] for its cost of one round), one
    entry of the ledger for its tick; on a miss nothing else, on a hit the
    nearest target loses the rifle's damage at that distance and zone, is
    eliminated exactly when that was all it had left, and every other target keeps
    its state. *)
Theorem shot_effects a command now rider reg :
  authority_inv a -> registry_ok reg -> u64 (cmd_tick command) ->
  shot_admissible a command now rider ->
  exists a' reg' shot, validate_shot a command now rider reg = (a', reg', Some shot) /\
    fired a a' reg reg' command rider shot /\ authority_inv a' /\ registry_inv reg' /\
    (outcome (shot_result shot) = ShotHit ->
     exists id record left, target_id (shot_result shot) = Some id /\ targets reg !! id = Some record /\
       0 < target_health record /\ team_id (definition record) <> rider_team rider /\
       owner_peer_id (definition record) <> Some (cmd_shooter command) /\
       health reg' id = Some left /\ left = Z.max 0 (target_health record - damage (shot_result shot)) /\
       (eliminated (shot_result shot) = true <-> target_health record <= damage (shot_result shot)) /\
       (forall id', id' <> id -> targets reg' !! id' = targets reg !! id')).
Proof.
  intros Ha [Hreg Htot] Ht Hadm. destruct (validate_gates a command now rider reg Ha Ht)
    as [(_ & _ & _ & Hno & _)|(s & k' & p & Hs & _ & Hf & Ha1 & ->)]; [done|].
  destruct (conclude_spec a command now rider reg s k' p Ha Ha1 Hreg Htot Ht Hs Hadm Hf)
    as (a' & reg' & shot & -> & Hfired & Ha' & _).
  exists a', reg', shot. split; [done|]. split; [done|]. split; [done|].
  destruct Hfired as (s1 & k1 & prep & meta & _ & _ & _ & _ & _ & _ & _ & _ & hit & Hnear & Hhit).
  destruct hit as [h|].
  2:{ destruct Hhit as (-> & Hmiss & _). split; [done|]. intros Hh. congruence. }
  destruct Hhit as (_ & Htarget & Hdmg & (left_ & Happ) & _).
  destruct (nearest_hit_hostile _ _ _ _ _ _ _ _ Hreg Hnear) as (Hdist & record & Hid & Hh & Ho & Hteam).
  assert (Hd0 : 0 <= damage (shot_result shot)) by (rewrite Hdmg; by apply weapon_damage_nonneg).
  destruct (apply_damage_spec reg (hit_target h) record _ reg' left_ _ Hreg Hd0 Hid Happ) as (Hi & Hl & Hv & He & Hoth & _).
  split; [done|]. intros _. exists (hit_target h), record, left_. split_and!; try done.
  rewrite He. lia.
Qed.
End shots.


(** ** Everything a match does to the authority *)

Section run.
Context `{Libm}.

Inductive authority_op :=
| AShot (command : ShotCommand) (now : SimulationTick) (rider : RiderSnapshot)
| ARegister (id : PlayerId) (w : WeaponId)
| AObserve (r : ShotResult)
| AEpoch (epoch : Z)
| ABeginDive (id : PlayerId) (dive : DiveId) (tick : SimulationTick) (w : WeaponId) (v : Z * Z) (airtime : Z)
| AFinishDive (id : PlayerId) (dive : DiveId) (tick : SimulationTick)
| ATarget (d : TargetDefinition) (h : Z)
| APose (pose : TargetPoseSnapshot)
| AHorsePose (pose : HorseTargetPoseSnapshot)
| AHealth (id : EntityId) (h : Z)
| ARespawn (id : EntityId).

(** Arguments in the ranges of their types. *)
Definition authority_op_ok (op : authority_op) : Prop :=
  match op with
  | AShot command _ _ => u64 (cmd_tick command)
  | ABeginDive _ _ tick _ _ _ | AFinishDive _ _ tick => u64 tick
  | ATarget d h => 0 <= h /\ 0 <= target_max_health d
  | AHealth _ h => 0 <= h
  | ARegister _ _ | AObserve _ | AEpoch _ | APose _ | AHorsePose _ | ARespawn _ => True
  end.

Definition AuthorityWorld : Type := CombatAuthority * TargetRegistry.

(** The new state, the shots accepted and the notifications raised; [None] is a panic. *)
Definition authority_step (world : AuthorityWorld) (op : authority_op)
    : option (AuthorityWorld * list AcceptedShotMetadata * list GameplayEventRow) :=
  let '(a, reg) := world in
  match op with
  | AShot command now rider =>
      match validate_shot a command now rider reg with
      | (a, reg, Some shot) => Some ((a, reg), option_list (shot_metadata shot), gameplay_events shot)
      | (_, _, None) => None
      end
  | ARegister id w =>
      match register_shooter a id w with
      | (a, Some _) => Some ((a, reg), [], [])
      | (_, None) => None
      end
  | AObserve r => let '(a, at_) := observe_authority_result a r in Some ((a, reg), [], events at_)
  | AEpoch epoch => Some (((set_authority_epoch a epoch).1, reg), [], [])
  | ABeginDive id dive tick w v airtime =>
      match authority_begin_dive a id dive tick w v airtime with
      | (_, Err Panicked) => None
      | (a, _) => Some ((a, reg), [], [])
      end
  | AFinishDive id dive tick =>
      match authority_finish_dive a id dive tick with
      | (_, Err Panicked) => None
      | (a, _) => Some ((a, reg), [], [])
      end
  | ATarget d h => Some ((a, (registry_restore reg d h).1), [], [])
  | APose pose => Some ((a, (record_pose reg pose).1), [], [])
  | AHorsePose pose => Some ((a, (record_horse_pose reg pose).1), [], [])
  | AHealth id h => Some ((a, (synchronize_health reg id h).1), [], [])
  | ARespawn id => Some ((a, (respawn reg id).1), [], [])
  end.

Fixpoint authority_run (world : AuthorityWorld) (ops : list authority_op)
    : option (AuthorityWorld * list AcceptedShotMetadata * list GameplayEventRow) :=
  match ops with
  | [] => Some (world, [], [])
  | op :: ops =>
      '(world, shots, es) ← authority_step world op;
      '(world, shots', es') ← authority_run world ops;
      Some (world, shots ++ shots', es ++ es')
  end.

Definition world_ok (world : AuthorityWorld) : Prop := authority_inv world.1 /\ registry_ok world.2.

Definition meta_key (shot : AcceptedShotMetadata) : ShotKey := (shooter shot, meta_tick shot).

(** What a step does to the ledger: it replays there, its shots are new keys, and
    no key is lost. *)
Definition ledger_moves (l l' : ShotAttributionLedger) (shots : list AcceptedShotMetadata)
    (es : list GameplayEventRow) : Prop :=
  (exists ops, shot_ledger_run l ops = (l', es)) /\
  NoDup (meta_key <$> shots) /\
  Forall (fun shot => accepted l !! meta_key shot = None /\ accepted l' !! meta_key shot = Some shot) shots /\
  accepted l ⊆ accepted l'.

Lemma ledger_still l : ledger_moves l l [] [].
Proof. split; [by exists []|]. split; [constructor|]. by split. Qed.

Lemma shot_ledger_run_app l ops1 ops2 :
  shot_ledger_run l (ops1 ++ ops2) =
  let '(l1, es1) := shot_ledger_run l ops1 in
  let '(l2, es2) := shot_ledger_run l1 ops2 in (l2, es1 ++ es2).
Proof.
  revert l. induction ops1 as [|op ops1 IH]; intros l; cbn [app shot_ledger_run].
  { by destruct (shot_ledger_run l ops2). }
  destruct (shot_ledger_step l op) as [l1 es1]. rewrite IH.
  destruct (shot_ledger_run l1 ops1) as [l2 es2]. destruct (shot_ledger_run l2 ops2) as [l3 es3].
  by rewrite app_assoc.
Qed.

Lemma ledger_moves_trans l1 l2 l3 shots es shots' es' :
  ledger_moves l1 l2 shots es -> ledger_moves l2 l3 shots' es' ->
  ledger_moves l1 l3 (shots ++ shots') (es ++ es').
Proof.
  intros ((ops1 & H1) & Hn1 & Hf1 & Hs1) ((ops2 & H2) & Hn2 & Hf2 & Hs2).
  split; [|split; [|split]].
  - exists (ops1 ++ ops2). by rewrite shot_ledger_run_app, H1, H2.
  - rewrite fmap_app. apply NoDup_app. split_and!; [done| |done].
    intros key Hk1 Hk2. apply list_elem_of_fmap in Hk1 as (s1 & -> & Hin1).
    apply list_elem_of_fmap in Hk2 as (s2 & Heq & Hin2). rewrite Forall_forall in Hf1, Hf2.
    destruct (Hf1 s1 Hin1) as [_ Hold]. destruct (Hf2 s2 Hin2) as [Hnew _]. congruence.
  - apply Forall_app. split; (eapply Forall_impl; [eassumption|]); intros s [Ha Hb]; cbv beta in *.
    + split; [done|]. by eapply lookup_weaken.
    + split; [|done]. by eapply lookup_weaken_None.
  - by transitivity (accepted l2).
Qed.

(** Observed results, late ones included. *)
Lemma observe_moves l epoch r :
  shot_ledger_inv l ->
  let '(l', at_) := observe_result l epoch r in
  shot_ledger_inv l' /\ accepted l' = accepted l /\ ledger_moves l l' [] (events at_).
Proof.
  intros Hl. destruct (observe_result l epoch r) as [l' at_] eqn:E.
  destruct (observe_result_spec l epoch r l' at_ Hl E) as (Hi & Hacc & _).
  split; [done|]. split; [done|]. split; [|split; [constructor|split; [constructor|by rewrite Hacc]]].
  exists [ObserveResult epoch r]. cbn [shot_ledger_run shot_ledger_step]. rewrite E. by rewrite app_nil_r.
Qed.

Lemma set_ledger_inv a l :
  authority_inv a -> shot_ledger_inv l -> accepted l = accepted (shot_ledger a) ->
  authority_inv (a <| shot_ledger := l |>).
Proof. intros [Hr Hsh Hl Hc] Hi Hacc. split; simpl; try done. by rewrite Hacc. Qed.

Lemma set_epoch_inv a epoch :
  authority_inv a -> authority_inv (set_authority_epoch a epoch).1 /\
    shot_ledger (set_authority_epoch a epoch).1 = shot_ledger a.
Proof.
  intros Ha. unfold set_authority_epoch. destruct (_ <? _); [done|]. split; [|done].
  destruct Ha. by split.
Qed.

Lemma begin_dive_ok a id dive tick w v airtime :
  authority_inv a -> u64 tick ->
  let '(a', out) := authority_begin_dive a id dive tick w v airtime in
  out <> Err Panicked /\ authority_inv a' /\ shot_ledger a' = shot_ledger a.
Proof.
  intros Ha Ht. unfold authority_begin_dive. destruct (shooters a !! id) as [s|] eqn:Hs; [|done].
  pose proof (kernel_step_inv a id s (OpBeginDive dive tick w v airtime) Ha Hs Ht) as Hi.
  destruct (auth_shooters_ok a Ha _ _ Hs) as (Hk & _). cbn [weapon_step] in Hi.
  destruct (begin_saddle_dive (kernel s) dive tick w v airtime) as [k out] eqn:E.
  split; [|split; [exact Hi|done]]. apply (begin_dive_refines _ _ _ _ _ _ _ _ Hk Ht E).
Qed.

Lemma finish_dive_ok a id dive tick :
  authority_inv a -> u64 tick ->
  let '(a', out) := authority_finish_dive a id dive tick in
  out <> Err Panicked /\ authority_inv a' /\ shot_ledger a' = shot_ledger a.
Proof.
  intros Ha Ht. unfold authority_finish_dive. destruct (shooters a !! id) as [s|] eqn:Hs; [|done].
  pose proof (kernel_step_inv a id s (OpFinishDive dive tick) Ha Hs Ht) as Hi.
  destruct (auth_shooters_ok a Ha _ _ Hs) as (Hk & _). cbn [weapon_step] in Hi.
  destruct (finish_saddle_dive (kernel s) dive tick) as [k out] eqn:E.
  split; [|split; [exact Hi|done]]. apply (finish_refines _ _ _ _ _ Hk Ht E).
Qed.

Lemma register_ledger a id w : shot_ledger (register_shooter a id w).1 = shot_ledger a.
Proof. unfold register_shooter. destruct (shooters a !! id); [done|]. by destruct (with_weapon _ _ _ _). Qed.

(** One command. *)
Lemma shot_moves a command now rider reg :
  authority_inv a -> registry_ok reg -> u64 (cmd_tick command) ->
  exists a' reg' shot, validate_shot a command now rider reg = (a', reg', Some shot) /\
    authority_inv a' /\ registry_ok reg' /\
    ledger_moves (shot_ledger a) (shot_ledger a') (option_list (shot_metadata shot)) (gameplay_events shot).
Proof.
  intros Ha [Hreg Htot] Ht. destruct (validate_gates a command now rider reg Ha Ht)
    as [(a' & shot & Hv & _ & (_ & Hq & _ & Hm & He) & Ha')|(s & k' & p & Hs & Hadm & Hf & Ha1 & Hv)].
  - exists a', reg, shot. split; [done|]. split; [done|]. split; [done|]. rewrite Hm, He.
    destruct Hq as [-> |(? & ? & _ & -> & _)]; exact (ledger_still (shot_ledger a)).
  - destruct (conclude_spec a command now rider reg s k' p Ha Ha1 Hreg Htot Ht Hs Hadm Hf)
      as (a' & reg' & shot & Hc & (s1 & k1 & prep & meta & _ & _ & _ & Hnew & Hacc & Hmeta & Hsm & Hrun & hit & Hnear & Hhit)
          & Ha' & Htot').
    exists a', reg', shot. rewrite Hv. split; [done|]. split; [done|]. split; [split; [|done]|].
    + destruct hit as [h|]; [|by destruct Hhit as (-> & _)].
      destruct Hhit as (_ & _ & Hdmg & (left_ & Happ) & _).
      destruct (nearest_hit_hostile _ _ _ _ _ _ _ _ Hreg Hnear) as (Hdist & record & Hid & _).
      eapply apply_damage_spec; [exact Hreg| |exact Hid|exact Happ].
      rewrite Hdmg. by apply weapon_damage_nonneg.
    + rewrite Hsm. assert (Hkey : meta_key meta = (cmd_shooter command, cmd_tick command)) by (by rewrite Hmeta).
      split; [by eexists|]. split; [apply NoDup_singleton|]. split.
      * apply Forall_singleton. rewrite Hkey, Hacc, lookup_insert_eq. done.
      * rewrite Hacc. by apply insert_subseteq.
Qed.

Lemma world_step_ok world op :
  world_ok world -> authority_op_ok op ->
  exists world' shots es, authority_step world op = Some (world', shots, es) /\ world_ok world' /\
    ledger_moves (shot_ledger world.1) (shot_ledger world'.1) shots es.
Proof.
  destruct world as [a reg]. intros [Ha Hreg] Hop. cbn [fst snd] in *.
  destruct op as [command now rider|id w|r|epoch|id dive tick w v airtime|id dive tick|d h|pose|pose|id h|id];
    cbn [authority_step authority_op_ok] in *.
  - destruct (shot_moves a command now rider reg Ha Hreg Hop) as (a' & reg' & shot & -> & Ha' & Hr' & Hm).
    eexists _, _, _. split; [reflexivity|]. by split.
  - destruct (register_inv a id w Ha) as [Hi Hn]. pose proof (register_ledger a id w) as Hl.
    destruct (register_shooter a id w) as [a' [b|]]; [|done]. cbn [fst snd] in *.
    eexists _, _, _. split; [reflexivity|]. split; [by split|]. rewrite <- Hl at 1. apply ledger_still.
  - unfold observe_authority_result.
    pose proof (observe_moves (shot_ledger a) (authority_epoch a) r (auth_ledger_ok a Ha)) as Hm.
    destruct (observe_result _ _ r) as [l at_]. destruct Hm as (Hi & Hacc & Hm).
    eexists _, _, _. split; [reflexivity|]. split; [split; [by apply set_ledger_inv|done]|exact Hm].
  - destruct (set_epoch_inv a epoch Ha) as [Hi Hl].
    eexists _, _, _. split; [reflexivity|]. split; [by split|]. cbn [fst]. rewrite Hl. apply ledger_still.
  - pose proof (begin_dive_ok a id dive tick w v airtime Ha Hop) as Hd.
    destruct (authority_begin_dive _ _ _ _ _ _ _) as [a' out]. destruct Hd as (Hnp & Hi & Hl).
    exists (a', reg), [], []. split; [by destruct out as [|[|]]|]. split; [by split|].
    cbn [fst]. rewrite Hl. apply ledger_still.
  - pose proof (finish_dive_ok a id dive tick Ha Hop) as Hd.
    destruct (authority_finish_dive _ _ _ _) as [a' out]. destruct Hd as (Hnp & Hi & Hl).
    exists (a', reg), [], []. split; [by destruct out as [|[|]]|]. split; [by split|].
    cbn [fst]. rewrite Hl. apply ledger_still.
  - eexists _, _, _. split; [reflexivity|]. split; [|apply ledger_still].
    split; [done|]. apply registry_restore_ok; [exact Hreg|lia].
  - eexists _, _, _. split; [reflexivity|]. split; [|apply ledger_still].
    split; [done|]. unfold record_pose. destruct (_ || _); [done|]. by apply store_geometry_ok.
  - eexists _, _, _. split; [reflexivity|]. split; [|apply ledger_still].
    split; [done|]. by apply record_horse_pose_ok.
  - eexists _, _, _. split; [reflexivity|]. split; [|apply ledger_still].
    split; [done|]. by apply synchronize_health_ok.
  - eexists _, _, _. split; [reflexivity|]. split; [|apply ledger_still].
    split; [done|]. by apply respawn_ok.
Qed.

Lemma authority_run_ok ops : forall world,
  world_ok world -> Forall authority_op_ok ops ->
  exists world' shots es, authority_run world ops = Some (world', shots, es) /\ world_ok world' /\
    ledger_moves (shot_ledger world.1) (shot_ledger world'.1) shots es.
Proof.
  induction ops as [|op ops IH]; intros world Hw Hops; cbn [authority_run].
  { exists world, [], []. split; [done|]. split; [done|]. apply ledger_still. }
  apply Forall_cons in Hops as [Hop Hops].
  destruct (world_step_ok world op Hw Hop) as (w1 & shots1 & es1 & -> & Hw1 & Hm1).
  cbn [mbind option_bind]. destruct (IH w1 Hw1 Hops) as (w2 & shots2 & es2 & -> & Hw2 & Hm2).
  cbn [mbind option_bind]. eexists _, _, _. split; [reflexivity|]. split; [done|].
  by eapply ledger_moves_trans.
Qed.

(** C15. From an authority in its invariant with an empty ledger of shots, and
    targets whose recorded poses normalise (a new registry has none), a whole match
    never panics, accepts at most one shot per shooter and tick, raises every style notification at most once and only for a
    shot it accepted, and keeps its invariant: whatever commands arrive, stale,
    replayed, forged or duplicated, between dives, epochs, late results, changes of the
    targets and poses of any kind, healths not negative and ticks of 64 bits. *)
Theorem authority_exactly_once a reg ops :
  authority_inv a -> shot_ledger a = shot_ledger_default -> registry_ok reg ->
  Forall authority_op_ok ops ->
  exists a' reg' shots es, authority_run (a, reg) ops = Some (a', reg', shots, es) /\
    authority_inv a' /\ registry_ok reg' /\
    NoDup (meta_key <$> shots) /\ NoDup (event_key <$> es) /\
    Forall (fun shot => accepted (shot_ledger a') !! meta_key shot = Some shot) shots /\
    Forall (fun e => is_Some (accepted (shot_ledger a') !! (row_actor e, event_tick e))) es.
Proof.
  intros Ha Hl Hreg Hops. destruct (authority_run_ok ops (a, reg) (conj Ha Hreg) Hops)
    as ([a' reg'] & shots & es & Hrun & [Ha' Hreg'] & (lops & Hlr) & Hn & Hf & _).
  cbn [fst snd] in *. exists a', reg', shots, es.
  destruct (shot_ledger_run_spec lops _ _ _ (auth_ledger_ok a Ha) Hlr) as (Hi & _ & He & Hne).
  split_and!; try done.
  - eapply Forall_impl; [exact Hf|]. by intros shot [_ ?].
  - eapply Forall_impl; [exact He|]. intros e [_ Hin]. by apply (resolved_ok _ Hi), elem_of_dom in Hin.
Qed.
End run.

(** ** A concrete authority *)

#[local] Existing Instance small_angle_libm.

Definition demo_authority : CombatAuthority :=
  (register_shooter (mkCombatAuthority 60 7 3 ∅ shot_ledger_default) demo_rider Dustwalker).1.
Definition demo_snapshot : RiderSnapshot :=
  mkRiderSnapshot 55 demo_rider (mkQuantizedOrigin 0 1600 0) 1 riding_default.
Definition demo_command : ShotCommand :=
  mkShotCommand 55 demo_rider Dustwalker (mkQuantizedOrigin 0 1600 300)
    (mkQuantizedDirection 0 0 (-1000000)) (shot_spread_seed 7 demo_rider 0) None.

Lemma demo_authority_inv : authority_inv demo_authority.
Proof.
  apply (register_inv (mkCombatAuthority 60 7 3 ∅ shot_ledger_default)). split; simpl.
  - lia.
  - apply map_Forall_empty.
  - split; [apply map_Forall_empty|set_solver].
  - intros key shot Hk. by rewrite lookup_empty in Hk.
Qed.
Lemma demo_registry_ok : registry_ok demo_registry.
Proof.
  repeat (apply (store_geometry_ok _ _ (GeometryRider _)); [|done]).
  repeat (apply registry_restore_ok; [|done]). split; [split|]; apply map_Forall_empty.
Qed.
Lemma demo_hits :
  (fun shot => outcome (shot_result shot)) <$>
    (validate_shot demo_authority demo_command 58 demo_snapshot demo_registry).2 = Some ShotHit.
Proof. vm_compute. reflexivity. Qed.

Lemma demo_admissible : shot_admissible demo_authority demo_command 58 demo_snapshot.
Proof.
  destruct (proj1 (fmap_Some _ _ _) demo_hits) as (shot & Hv & Ho).
  eapply answered_admissible; [exact demo_authority_inv| |exact Hv|].
  - split; done.
  - intros Hr. rewrite Hr in Ho. discriminate Ho.
Qed.

Lemma shot_accepted_iff_witness :
  exists shot, (validate_shot demo_authority demo_command 58 demo_snapshot demo_registry).2 = Some shot /\
    outcome (shot_result shot) <> ShotReject.
Proof.
  destruct (shot_accepted_iff demo_authority demo_command 58 demo_snapshot demo_registry
              demo_authority_inv demo_registry_ok ltac:(split; done)) as (shot & Hv & Hiff).
  exists shot. split; [exact Hv|]. apply Hiff, demo_admissible.
Defined.

(** The same command a second after its tick: too old to be rewound. *)
Lemma demo_stale : ~ shot_admissible demo_authority demo_command 115 demo_snapshot.
Proof. intros (s & _ & _ & _ & [Hlo _] & _). revert Hlo. by vm_compute. Qed.

Lemma shot_refused_cleanly_witness :
  exists a' shot, validate_shot demo_authority demo_command 115 demo_snapshot demo_registry
                    = (a', demo_registry, Some shot) /\ damage (shot_result shot) = 0.
Proof.
  destruct (shot_refused_cleanly demo_authority demo_command 115 demo_snapshot demo_registry
              demo_authority_inv ltac:(split; done) demo_stale) as (a' & shot & Hv & Hr & _).
  exists a', shot. split; [exact Hv|]. apply Hr.
Defined.

Lemma shot_effects_witness :
  exists a' reg' shot, validate_shot demo_authority demo_command 58 demo_snapshot demo_registry
                         = (a', reg', Some shot) /\ authority_inv a' /\ registry_inv reg'.
Proof.
  destruct (shot_effects demo_authority demo_command 58 demo_snapshot demo_registry
              demo_authority_inv demo_registry_ok ltac:(split; done) demo_admissible)
    as (a' & reg' & shot & Hv & _ & Ha & Hr & _).
  exists a', reg', shot. split; [exact Hv|]. split; [exact Ha|exact Hr].
Defined.

(** A hit, the same command replayed, its result reported again by a peer, an epoch
    later again, and the replay once more after a respawn. *)
Definition demo_match : list authority_op :=
  [AShot demo_command 58 demo_snapshot; AShot demo_command 58 demo_snapshot;
   AObserve demo_hit; AEpoch 4; AObserve demo_hit; ARespawn 7; ARegister demo_rider Rattler;
   ABeginDive demo_rider 1 60 Dustwalker (0, -9000) 45; AShot demo_command 60 demo_snapshot;
   AFinishDive demo_rider 1 100].

Lemma demo_match_ok : Forall authority_op_ok demo_match.
Proof. repeat constructor; done. Qed.

Lemma demo_match_shots :
  match authority_run (demo_authority, demo_registry) demo_match with
  | Some (_, shots, _) => meta_key <$> shots = [(demo_rider, 55)]
  | None => False
  end.
Proof. vm_compute. reflexivity. Qed.

Lemma authority_exactly_once_witness :
  exists a' reg' shots es,
    authority_run (demo_authority, demo_registry) demo_match = Some (a', reg', shots, es) /\
    authority_inv a' /\ NoDup (meta_key <$> shots).
Proof.
  destruct (authority_exactly_once demo_authority demo_registry demo_match demo_authority_inv eq_refl
              demo_registry_ok demo_match_ok) as (a' & reg' & shots & es & Hrun & Ha & _ & Hn & _).
  exists a', reg', shots, es. split; [exact Hrun|]. split; [exact Ha|exact Hn].
Defined.
