(* ===== verification/PeerSession.v ===== *)
(** * The peer session ([spurfire-net/src/lib.rs])

    What one peer remembers of the others, which envelopes it accepts, how authority
    moves after silence, and the signed session around it. JSON is [serde_json]: the
    interface [PeerJson]. *)

From S2P Require Import Prelude MachineInt Ordered Clock Bytes Identifiers WireVersion Stance Wire Session Combat.
From S2P Require Import Aim WeaponKernel ShotLedger CombatAuthority.
From stdpp Require Import gmap.
Open Scope Z_scope.

Definition MAX_DATAGRAM_BYTES : Z := 1200.
Definition HEARTBEAT_TIMEOUT_MS : Z := 2000.
Definition MAX_CHECKPOINT_RIDERS : Z := 16.
Definition MAX_CHECKPOINT_RIDER_HEALTH : Z := 100.
Definition RIDER_INPUT_JUMP_PRESSED : Z := Z.shiftl 1 0.
Definition RIDER_INPUT_INTERACT_PRESSED : Z := Z.shiftl 1 1.
(** [!(a | b)] on [u16]. *)
Definition RIDER_INPUT_RESERVED_MASK : Z :=
  Z.lxor u16_max (Z.lor RIDER_INPUT_JUMP_PRESSED RIDER_INPUT_INTERACT_PRESSED).

(** ** Checkpoints *)

(** [[i32; 3]] *)
Record Triple := mkTriple { triple_x : Z; triple_y : Z; triple_z : Z }.
#[export] Instance Triple_eq_dec : EqDecision Triple.
Proof. solve_decision. Defined.

Record RiderCheckpoint := mkRiderCheckpoint {
  ck_rider_player_id : PlayerId;
  ck_position_mm : Triple;
  ck_velocity_mmps : Triple;
  ck_yaw_millidegrees : Z;
  ck_stance : RiderStance;
  ck_health : Z;
  ck_weapon_id : Z;
  ck_ammo_magazine : Z;
  ck_ammo_reserve : Z;
  ck_last_input_tick : Z;
  ck_last_shot_tick : option Z;
  ck_last_command_tick : option Z;
  ck_shot_index : Z;
}.

Record MatchCheckpoint := mkMatchCheckpoint {
  source_epoch : Z;
  checkpoint_tick : Z;
  riders : list RiderCheckpoint;
  resolved_shots : list (PlayerId * Z);
}.

(** The closure of the [any]. *)
Definition rider_rejected (rider : RiderCheckpoint) : bool :=
  let weapon := match weapon_try_from_i64 (ck_weapon_id rider) with Ok w => Some w | Err _ => None end in
  negb (Stance.is_canonical (ck_stance rider))
  || (ck_health rider >? MAX_CHECKPOINT_RIDER_HEALTH)
  || is_none weapon
  || is_some_and weapon (fun weapon =>
       (ck_ammo_magazine rider >? magazine_capacity (weapon_stats weapon))
       || (ck_ammo_reserve rider >? reserve_capacity (weapon_stats weapon)))
  || negb (Bool.eqb (is_some (ck_last_shot_tick rider)) (ck_shot_index rider >? 0))
  || (is_some (ck_last_shot_tick rider) && is_none (ck_last_command_tick rider))
  || is_some_and (ck_last_command_tick rider) (fun command =>
       is_some_and (ck_last_shot_tick rider) (fun shot => shot >? command)).

Definition is_bounded_and_canonical (self : MatchCheckpoint) : bool :=
  if (length (riders self) =? 0)%nat
     || (Z.of_nat (length (riders self)) >? MAX_CHECKPOINT_RIDERS)
     || (Z.of_nat (length (resolved_shots self)) >? MAX_CHECKPOINT_RIDERS * 64)
     || existsb rider_rejected (riders self)
  then false
  else
    let rider_ids : gset PlayerId := list_to_set (ck_rider_player_id <$> riders self) in
    let receipts : gset (PlayerId * Z) := list_to_set (resolved_shots self) in
    (size rider_ids =? length (riders self))%nat && (size receipts =? length (resolved_shots self))%nat.

(** ** Envelopes *)

Inductive PeerPayload :=
| Hello (hostname : list Z)
| Heartbeat
| Probe (nonce : Z) (reply : bool)
| RiderInput (throttle_milli steer_milli buttons : Z)
| RiderSnapshotPayload (rider_player_id : PlayerId) (position_mm velocity_mmps : Triple) (yaw_millidegrees : Z)
    (s : RiderStance)
| ShotCommandPayload (command : ShotCommand)
| ShotResultPayload (r : ShotResult)
| AuthorityClaim (authority : PlayerId) (epoch : Z)
| MigrationSnapshot (authority : PlayerId) (epoch : Z) (checkpoint : MatchCheckpoint) (state_hash : list Z)
| Leave.

Record Envelope := mkEnvelope {
  env_wire_version : WireVersion;
  env_lobby_id : LobbyId;
  sender : PlayerId;
  env_sequence : Z;
  env_authority_epoch : Z;
  simulation_tick : Z;
  payload : PeerPayload;
  env_session : option SessionBinding;
}.
#[export] Instance Envelope_settable : Settable Envelope := fun e =>
  mkEnvelope (env_wire_version e) (env_lobby_id e) (sender e) (env_sequence e) (env_authority_epoch e)
    (simulation_tick e) (payload e) (env_session e).

(** [serde_json]: a checkpoint's bytes, an envelope's bytes, and what parses. *)
Class PeerJson := {
  json_checkpoint : MatchCheckpoint -> list Z;
  json_envelope : Envelope -> list Z;
  parse_version_header : list Z -> option WireVersion;
  parse_envelope : list Z -> option Envelope;
}.
(** Its documented round trip. *)
Class PeerJsonSound `{PeerJson} : Prop := {
  parse_header_print : forall e, parse_version_header (json_envelope e) = Some (env_wire_version e);
  parse_envelope_print : forall e, parse_envelope (json_envelope e) = Some e;
}.

(** [Malformed] without its text. *)
Inductive CodecError := TooLarge | Malformed | IncompatibleVersion.

(** [ffffffff-ffff-4fff-bfff-ffffffffffff] *)
Definition legacy_snapshot_subject : PlayerId :=
  mkProtocolId [255; 255; 255; 255; 255; 255; 79; 255; 191; 255; 255; 255; 255; 255; 255; 255].
Example legacy_snapshot_subject_parses :
  parse (bytes_of_string "ffffffff-ffff-4fff-bfff-ffffffffffff") = Ok legacy_snapshot_subject.
Proof. vm_compute. reflexivity. Qed.
Definition legacy_mounted_stance : RiderStance := Mounted.

Definition validate_stance (p : PeerPayload) : result unit CodecError :=
  match p with
  | RiderSnapshotPayload _ _ _ _ s => if Stance.is_canonical s then Ok tt else Err Malformed
  | _ => Ok tt
  end.

Definition has_reserved_bits (p : PeerPayload) : bool :=
  match p with RiderInput _ _ buttons => negb (Z.land buttons RIDER_INPUT_RESERVED_MASK =? 0) | _ => false end.

Definition validate_local_payload (p : PeerPayload) : result unit CodecError :=
  match validate_stance p with
  | Err e => Err e
  | Ok _ => if has_reserved_bits p then Err Malformed else Ok tt
  end.

Definition validate_remote_payload (p : PeerPayload) (sender_version : WireVersion) : result unit CodecError :=
  match validate_stance p with
  | Err e => Err e
  | Ok _ => if (minor sender_version <=? minor WIRE_VERSION) && has_reserved_bits p then Err Malformed else Ok tt
  end.

(** The rebinding of snapshots older than wire 1.2. *)
Definition rebind_legacy (e : Envelope) : Envelope :=
  if minor (env_wire_version e) <? 2 then
    match payload e with
    | RiderSnapshotPayload rider position velocity yaw s =>
        if bool_decide (rider = legacy_snapshot_subject)
        then e <| payload := RiderSnapshotPayload (sender e) position velocity yaw s |>
        else e
    | _ => e
    end
  else e.

Section codec.
Context `{PeerJson}.

Definition encode (e : Envelope) : result (list Z) CodecError :=
  match validate_local_payload (payload e) with
  | Err error => Err error
  | Ok _ =>
      let encoded := json_envelope e in
      if Z.of_nat (length encoded) >? MAX_DATAGRAM_BYTES then Err TooLarge else Ok encoded
  end.

Definition decode (bytes : list Z) : result Envelope CodecError :=
  if Z.of_nat (length bytes) >? MAX_DATAGRAM_BYTES then Err TooLarge
  else
    match parse_version_header bytes with
    | None => Err Malformed
    | Some version =>
        if negb (is_compatible_with WIRE_VERSION version) then Err IncompatibleVersion
        else
          match parse_envelope bytes with
          | None => Err Malformed
          | Some e =>
              let e := rebind_legacy e in
              match validate_remote_payload (payload e) (env_wire_version e) with
              | Err error => Err error
              | Ok _ => Ok e
              end
          end
    end.
End codec.

Definition checkpoint_hash `{Crypto} `{PeerJson} (self : MatchCheckpoint) : list Z := sha2 (json_checkpoint self).

(** ** Payload bytes for signatures *)

Definition outcome_as_str (o : ShotOutcome) : list Z :=
  match o with
  | ShotHit => bytes_of_string "hit" | ShotMiss => bytes_of_string "miss" | ShotReject => bytes_of_string "reject"
  end.
Definition zone_as_str (z : HitZone) : list Z :=
  match z with HitBody => bytes_of_string "body" | HitHead => bytes_of_string "head" end.
Definition reason_as_str (r : ShotRejectionReason) : list Z :=
  match r with
  | UnknownShooter => bytes_of_string "unknown_shooter"
  | RejectRiderSnapshot => bytes_of_string "rider_snapshot"
  | TickReplay => bytes_of_string "tick_replay"
  | TickStale => bytes_of_string "tick_stale"
  | TickFuture => bytes_of_string "tick_future"
  | RejectWeapon => bytes_of_string "weapon"
  | SpreadSeed => bytes_of_string "spread_seed"
  | Rate => bytes_of_string "rate"
  | WeaponKernel.Empty => bytes_of_string "empty"
  | Reloading => bytes_of_string "reloading"
  | InvalidDirection => bytes_of_string "invalid_direction"
  | OriginLeash => bytes_of_string "origin_leash"
  | Holstered => bytes_of_string "holstered"
  | Dismounted => bytes_of_string "dismounted"
  | Airborne => bytes_of_string "airborne"
  | Stumble => bytes_of_string "stumble"
  end.

Definition direction_bytes (d : QuantizedDirection) : list Z :=
  int_be_bytes 4 (dir_x d) ++ int_be_bytes 4 (dir_y d) ++ int_be_bytes 4 (dir_z d).
Definition origin_bytes (o : QuantizedOrigin) : list Z :=
  int_be_bytes 4 (origin_x o) ++ int_be_bytes 4 (origin_y o) ++ int_be_bytes 4 (origin_z o).
Definition triple_bytes (t : Triple) : list Z :=
  int_be_bytes 4 (triple_x t) ++ int_be_bytes 4 (triple_y t) ++ int_be_bytes 4 (triple_z t).

Definition claimed_target_bytes (t : ClaimedTarget) : list Z :=
  be_bytes 8 (claimed_id t)
  ++ option_bytes (fun z => string_bytes (zone_as_str z)) (claimed_zone t)
  ++ option_bytes (be_bytes 2) (claimed_damage t)
  ++ option_bytes (be_bytes 4) (claimed_distance t).

Definition shot_command_bytes (c : ShotCommand) : list Z :=
  be_bytes 8 (cmd_tick c)
  ++ id_bytes (cmd_shooter c)
  ++ be_bytes 1 (weapon_as_u8 (cmd_weapon c))
  ++ origin_bytes (cmd_origin c)
  ++ direction_bytes (cmd_direction c)
  ++ be_bytes 8 (cmd_seed c)
  ++ option_bytes claimed_target_bytes (claimed_target c).

Definition shot_result_bytes (r : ShotResult) : list Z :=
  be_bytes 8 (result_tick r)
  ++ id_bytes (result_shooter r)
  ++ be_bytes 1 (weapon_as_u8 (result_weapon r))
  ++ string_bytes (outcome_as_str (outcome r))
  ++ option_bytes (fun reason => string_bytes (reason_as_str reason)) (rejection_reason r)
  ++ option_bytes direction_bytes (result_direction r)
  ++ option_bytes (be_bytes 8) (target_id r)
  ++ option_bytes (fun z => string_bytes (zone_as_str z)) (hit_zone r)
  ++ be_bytes 2 (damage r)
  ++ option_bytes (be_bytes 4) (distance_mm r)
  ++ bool_byte (eliminated r).

Definition canonical_payload_bytes `{PeerJson} (p : PeerPayload) : list Z :=
  match p with
  | Hello hostname => 0 :: string_bytes hostname
  | Heartbeat => [1]
  | Probe nonce reply => 2 :: be_bytes 8 nonce ++ bool_byte reply
  | RiderInput throttle steer buttons => 3 :: int_be_bytes 2 throttle ++ int_be_bytes 2 steer ++ be_bytes 2 buttons
  | RiderSnapshotPayload rider position velocity yaw s =>
      4 :: id_bytes rider ++ triple_bytes position ++ triple_bytes velocity ++ int_be_bytes 4 yaw
        ++ be_bytes 1 (Stance.as_u8 s)
  | ShotCommandPayload command => 5 :: shot_command_bytes command
  | ShotResultPayload r => 6 :: shot_result_bytes r
  | AuthorityClaim authority epoch => 7 :: id_bytes authority ++ be_bytes 8 epoch
  | MigrationSnapshot authority epoch checkpoint state_hash =>
      8 :: id_bytes authority ++ be_bytes 8 epoch ++ be_bytes 8 (source_epoch checkpoint)
        ++ be_bytes 8 (checkpoint_tick checkpoint) ++ state_hash ++ json_checkpoint checkpoint
  | Leave => [9]
  end.

(** ** Session state *)

Inductive AcceptOutcome :=
| Accepted | DuplicateOrReplay | WrongLobby | StaleAuthorityEpoch | UnknownSender | UnsignedInSecureMode
| EndpointMismatch | NodeKeyMismatch | WrongGeneration | RosterMismatch | AcceptBadSignature
| InvalidAuthorityClaim | InvalidPayloadRole | InvalidPayloadSubject | InvalidCheckpoint | DuplicateShotResult
| PendingMigration | PendingFragment.
#[export] Instance AcceptOutcome_eq_dec : EqDecision AcceptOutcome.
Proof. solve_decision. Defined.

Record PeerState := mkPeerState {
  last_sequence : Z;
  last_seen_ms : Z;
  connected : bool;
}.
#[export] Instance PeerState_settable : Settable PeerState := fun p =>
  mkPeerState (last_sequence p) (last_seen_ms p) (connected p).

Record SessionState := mkSessionState {
  lobby_id : LobbyId;
  local_player : PlayerId;
  session_authority : PlayerId;
  session_epoch : Z;
  next_sequence : Z;
  peers : gmap PlayerId PeerState;
  migration_preference : list PlayerId;
  applied_shot_results : gset (Z * PlayerId * Z);
  session_checkpoint : option MatchCheckpoint;
}.
#[export] Instance SessionState_settable : Settable SessionState := fun s =>
  mkSessionState (lobby_id s) (local_player s) (session_authority s) (session_epoch s) (next_sequence s) (peers s)
    (migration_preference s) (applied_shot_results s) (session_checkpoint s).

Definition session_new (lobby : LobbyId) (local authority : PlayerId) (now_ms : Z) : SessionState :=
  let peer := mkPeerState 0 now_ms true in
  let entry (m : gmap PlayerId PeerState) p := match m !! p with Some _ => m | None => <[p := peer]> m end in
  mkSessionState lobby local authority 1 1 (entry (entry ∅ local) authority) [] ∅ None.

Definition add_peer (self : SessionState) (player : PlayerId) (now_ms : Z) : SessionState :=
  self <| peers := <[player := mkPeerState 0 now_ms true]> (peers self) |>.

(** The order must cover the exact roster: [iter().ne(keys())] compares the sorted
    sequences of two sets. *)
Definition configure_migration_preference (self : SessionState) (preference : list PlayerId) : SessionState * bool :=
  let ordered : gset PlayerId := list_to_set preference in
  if negb (size ordered =? length preference)%nat
     || negb (size ordered =? size (peers self))%nat
     || negb (bool_decide (ordered = dom (peers self)))
  then (self, false)
  else (self <| migration_preference := preference |>, true).

Definition connected_players (self : SessionState) : list PlayerId :=
  fst <$> filter (fun entry => connected entry.2 = true) (btree_list (peers self)).

Definition next_envelope (self : SessionState) (tick : Z) (p : PeerPayload) : SessionState * Envelope :=
  (self <| next_sequence := saturating_add 64 (next_sequence self) 1 |>,
   mkEnvelope WIRE_VERSION (lobby_id self) (local_player self) (next_sequence self) (session_epoch self) tick p None).

(** ** Authority *)

(** The closure [connected] of [deterministic_successor]. *)
Definition counts_connected (self : SessionState) (now_ms : Z) (player : PlayerId) : bool :=
  is_some_and (peers self !! player) (fun peer =>
    bool_decide (player = local_player self)
    || (connected peer && (saturating_sub now_ms (last_seen_ms peer) <? HEARTBEAT_TIMEOUT_MS))).

(** [find]: the first element that satisfies the test. *)
Definition find_first {A} (f : A -> bool) (l : list A) : option A := head (filter (fun a => f a = true) l).
Definition or_else {A} (a b : option A) : option A := match a with Some _ => a | None => b end.

Definition deterministic_successor (self : SessionState) (now_ms : Z) : option PlayerId :=
  or_else (find_first (counts_connected self now_ms) (migration_preference self))
          (find_first (counts_connected self now_ms) (btree_keys (peers self))).

Definition current_authority_is_silent (self : SessionState) (now_ms : Z) : bool :=
  negb (bool_decide (session_authority self = local_player self))
  && is_none_or (peers self !! session_authority self)
       (fun peer => HEARTBEAT_TIMEOUT_MS <=? saturating_sub now_ms (last_seen_ms peer)).

Definition authority_claim_is_coherent (self : SessionState) (from authority : PlayerId) (epoch now_ms : Z) : bool :=
  if negb (bool_decide (authority = from)) then false
  else if epoch =? session_epoch self
  then bool_decide (authority = session_authority self)
       || (key_ltb authority (session_authority self) && current_authority_is_silent self now_ms)
  else if negb (bool_decide (checked_add 64 (session_epoch self) 1 = Some epoch))
          || negb (current_authority_is_silent self now_ms)
  then false
  else bool_decide (deterministic_successor self now_ms = Some authority).

(** The claim an envelope carries. *)
Definition claim_of (p : PeerPayload) : option (PlayerId * Z) :=
  match p with
  | AuthorityClaim authority epoch | MigrationSnapshot authority epoch _ _ => Some (authority, epoch)
  | _ => None
  end.
Definition speaks_for_authority (p : PeerPayload) : bool :=
  match p with RiderSnapshotPayload _ _ _ _ _ | ShotResultPayload _ => true | _ => false end.

Definition expire_peers (self : SessionState) (now_ms : Z) : SessionState :=
  self <| peers := map_imap (fun player peer => Some (
    if decide (player = local_player self) then peer <| connected := true |>
    else if HEARTBEAT_TIMEOUT_MS <=? saturating_sub now_ms (last_seen_ms peer) then peer <| connected := false |>
    else peer)) (peers self) |>.

Definition is_connected (self : SessionState) (player : PlayerId) : bool :=
  is_some_and (peers self !! player) connected.

Definition expire_and_migrate (self : SessionState) (now_ms : Z) : SessionState * option (PlayerId * Z) :=
  let self := expire_peers self now_ms in
  if is_connected self (session_authority self) then (self, None)
  else
    match or_else (find_first (is_connected self) (migration_preference self))
                  (find_first (is_connected self) (btree_keys (peers self))) with
    | None => (self, None)
    | Some successor =>
        match checked_add 64 (session_epoch self) 1 with
        | None => (self, None)
        | Some next_epoch =>
            (self <| session_authority := successor |> <| session_epoch := next_epoch |>, Some (successor, next_epoch))
        end
    end.

(** ** Acceptance *)

Section accept.
Context `{Crypto} `{PeerJson}.

(** The checks of a subject before replay and liveness. *)
Definition subject_refusal (self : SessionState) (e : Envelope) : option AcceptOutcome :=
  match payload e with
  | ShotCommandPayload command =>
      if negb (bool_decide (cmd_shooter command = sender e)) || negb (cmd_tick command =? simulation_tick e)
      then Some InvalidPayloadSubject else None
  | ShotResultPayload r =>
      if negb (result_tick r =? simulation_tick e) || is_none (peers self !! result_shooter r)
      then Some InvalidPayloadSubject
      else if bool_decide ((env_authority_epoch e, result_shooter r, result_tick r) ∈ applied_shot_results self)
      then Some DuplicateShotResult else None
  | RiderSnapshotPayload rider _ _ _ _ =>
      if is_none (peers self !! rider) then Some InvalidPayloadSubject else None
  | _ => None
  end.

Definition checkpoint_refusal (self : SessionState) (e : Envelope) : option AcceptOutcome :=
  match payload e with
  | MigrationSnapshot authority epoch checkpoint state_hash =>
      let expected_epoch := checked_add 64 (source_epoch checkpoint) 1 in
      let epoch_window := (source_epoch checkpoint =? session_epoch self)
        || (bool_decide (expected_epoch = Some (session_epoch self)) && (epoch =? session_epoch self)) in
      if negb (bool_decide (authority = sender e))
         || negb (bool_decide (expected_epoch = Some epoch))
         || negb epoch_window
         || negb (checkpoint_tick checkpoint =? simulation_tick e)
         || negb (bool_decide (checkpoint_hash checkpoint = state_hash))
         || negb (is_bounded_and_canonical checkpoint)
         || existsb (fun rider => is_none (peers self !! ck_rider_player_id rider)) (riders checkpoint)
      then Some InvalidCheckpoint else None
  | _ => None
  end.

(** Everything that happens before the first mutation. *)
Definition refusal (self : SessionState) (e : Envelope) (now_ms : Z) : option AcceptOutcome :=
  if negb (bool_decide (env_lobby_id e = lobby_id self)) then Some WrongLobby
  else if env_authority_epoch e <? session_epoch self then Some StaleAuthorityEpoch
  else
    match peers self !! sender e with
    | None => Some UnknownSender
    | Some peer =>
        if negb (env_authority_epoch e =? session_epoch self) && is_none (claim_of (payload e))
        then Some InvalidPayloadRole
        else if speaks_for_authority (payload e) && negb (bool_decide (sender e = session_authority self))
        then Some InvalidPayloadRole
        else
          match subject_refusal self e with
          | Some o => Some o
          | None =>
              match checkpoint_refusal self e with
              | Some o => Some o
              | None =>
                  if env_sequence e <=? last_sequence peer then Some DuplicateOrReplay
                  else
                    match claim_of (payload e) with
                    | Some (authority, epoch) =>
                        if negb (authority_claim_is_coherent self (sender e) authority epoch now_ms)
                        then Some InvalidAuthorityClaim else None
                    | None => None
                    end
              end
          end
    end.

(** The mutations of an accepted envelope. *)
Definition commit_peer (self : SessionState) (e : Envelope) (now_ms : Z) : SessionState :=
  self <| peers := <[sender e := mkPeerState (env_sequence e) now_ms
                       (match payload e with Leave => false | _ => true end)]> (peers self) |>.

Definition commit_results (self : SessionState) (e : Envelope) : SessionState :=
  match payload e with
  | ShotResultPayload r =>
      self <| applied_shot_results := {[(env_authority_epoch e, result_shooter r, result_tick r)]} ∪ applied_shot_results self |>
  | MigrationSnapshot _ _ checkpoint _ =>
      self <| applied_shot_results :=
                list_to_set ((fun '(shooter, tick) => (source_epoch checkpoint, shooter, tick)) <$> resolved_shots checkpoint)
                ∪ applied_shot_results self |>
           <| session_checkpoint := Some checkpoint |>
  | _ => self
  end.

Definition commit_claim (self : SessionState) (e : Envelope) : SessionState :=
  match claim_of (payload e) with
  | Some (authority, epoch) =>
      if (epoch >? session_epoch self) || ((epoch =? session_epoch self) && key_ltb authority (session_authority self))
      then self <| session_authority := authority |> <| session_epoch := epoch |>
      else self
  | None => self
  end.

Definition accept (self : SessionState) (e : Envelope) (now_ms : Z) : SessionState * AcceptOutcome :=
  match refusal self e now_ms with
  | Some o => (self, o)
  | None => (commit_claim (commit_results (commit_peer self e now_ms) e) e, Accepted)
  end.
End accept.

(** ** The signed session *)

Record SecureSession := mkSecureSession {
  manifest : RosterManifest;
  secure_roster_hash : RosterHash;
  state : SessionState;
}.
#[export] Instance SecureSession_settable : Settable SecureSession := fun s =>
  mkSecureSession (manifest s) (secure_roster_hash s) (state s).


Definition find_entry (m : RosterManifest) (player : PlayerId) : option RosterManifestEntry :=
  find_first (fun entry => bool_decide (entry_player_id entry = player)) (entries m).

Section secure.
Context `{Crypto} `{PeerJson}.

Definition secure_new (m : RosterManifest) (manifest_public_key : SessionPublicKey)
    (manifest_signature : SessionSignature) (s : SessionState) : result SecureSession SessionIdentityError :=
  match manifest_validate m with
  | Err e => Err e
  | Ok _ =>
      match verify_digest manifest_public_key (canonical_manifest_digest manifest_public_key m) manifest_signature with
      | Err e => Err e
      | Ok _ => Ok (mkSecureSession m (roster_hash m) s)
      end
  end.

Definition envelope_digest (e : Envelope) (network session : Z) (hash : RosterHash) : list Z :=
  canonical_envelope_digest (env_wire_version e) (env_lobby_id e) network session hash (sender e)
    (env_authority_epoch e) (env_sequence e) (simulation_tick e) (canonical_payload_bytes (payload e)).

Definition sign_envelope (self : SecureSession) (e : Envelope) (key : SigningKey) : result Envelope SessionIdentityError :=
  match find_entry (manifest self) (sender e) with
  | None => Err BadSignature
  | Some entry =>
      if negb (bool_decide (key_bytes (session_public_key entry) = verifying_key key)) then Err BadSignature
      else
        let digest := envelope_digest e (network_generation (manifest self)) (session_generation (manifest self))
                        (secure_roster_hash self) in
        Ok (e <| env_session := Some (mkSessionBinding (network_generation (manifest self))
                   (session_generation (manifest self)) (secure_roster_hash self)
                   (mkSessionSignature (sign_bytes key digest))) |>)
  end.

(** A local payload the peer may not send. *)
Definition may_not_send (self : SessionState) (tick : Z) (p : PeerPayload) : bool :=
  (speaks_for_authority p && negb (bool_decide (local_player self = session_authority self)))
  || match p with
     | ShotCommandPayload command =>
         negb (bool_decide (cmd_shooter command = local_player self)) || negb (cmd_tick command =? tick)
     | ShotResultPayload r => negb (result_tick r =? tick)
     | _ => false
     end.

Definition secure_envelope (self : SecureSession) (tick : Z) (p : PeerPayload) (key : SigningKey)
    : SecureSession * result Envelope SessionIdentityError :=
  if may_not_send (state self) tick p then (self, Err BadSignature)
  else
    let '(s, e) := next_envelope (state self) tick p in
    let self := self <| state := s |> in
    (self, sign_envelope self e key).

(** Identity, endpoint and signature, before the session state is asked. *)
Definition secure_refusal (self : SecureSession) (e : Envelope) (source : SocketAddr)
    (current_node_key : option NodeKey) : option AcceptOutcome :=
  match env_session e with
  | None => Some UnsignedInSecureMode
  | Some binding =>
      match find_entry (manifest self) (sender e) with
      | None => Some UnknownSender
      | Some entry =>
          if negb (bool_decide (tailnet_address entry = socket_ip source))
             || negb (application_port entry =? socket_port source)
          then Some EndpointMismatch
          else if match node_key entry, current_node_key with
                  | Some claimed, Some current => negb (bool_decide (claimed = current))
                  | _, _ => false
                  end
          then Some NodeKeyMismatch
          else if negb (bool_decide (env_lobby_id e = manifest_lobby_id (manifest self))) then Some WrongLobby
          else if negb (binding_network_generation binding =? network_generation (manifest self))
                  || negb (binding_session_generation binding =? session_generation (manifest self))
          then Some WrongGeneration
          else if negb (bool_decide (binding_roster_hash binding = secure_roster_hash self)) then Some RosterMismatch
          else
            let digest := envelope_digest e (binding_network_generation binding) (binding_session_generation binding)
                            (binding_roster_hash binding) in
            match verify_digest (session_public_key entry) digest (binding_signature binding) with
            | Err _ => Some AcceptBadSignature
            | Ok _ => None
            end
      end
  end.

Definition accept_with_source (self : SecureSession) (e : Envelope) (source : SocketAddr)
    (current_node_key : option NodeKey) (now_ms : Z) : SecureSession * AcceptOutcome :=
  match secure_refusal self e source current_node_key with
  | Some o => (self, o)
  | None => let '(s, o) := accept (state self) e now_ms in (self <| state := s |>, o)
  end.
End secure.
