(* ===== verification/PeerRun.v ===== *)
(** * What a peer session guarantees

    Over any operations of [PeerSession]: nothing is applied twice, authority moves
    only by election, the survivors of a silent authority agree on its successor,
    and a signed session acts on authentic envelopes alone. *)

From S2P Require Import Prelude MachineInt Ordered Clock Bytes Identifiers WireVersion Stance Wire Sha256 Session Combat.
From S2P Require Import Aim WeaponKernel ShotLedger CombatAuthority PeerSession.
From stdpp Require Import gmap.
Open Scope Z_scope.

(** ** Operations and runs *)

Inductive PeerOp :=
| Receive (e : Envelope) (now_ms : Z)
| ExpireAt (now_ms : Z)
| Send (tick : Z) (p : PeerPayload)
| AddPeer (player : PlayerId) (now_ms : Z)
| Configure (preference : list PlayerId).

Section run.
Context `{Crypto} `{PeerJson}.

(** The state after an operation and the envelope it applied, if any. *)
Definition peer_step (s : SessionState) (op : PeerOp) : SessionState * option Envelope :=
  match op with
  | Receive e now =>
      let '(s', o) := accept s e now in (s', if bool_decide (o = Accepted) then Some e else None)
  | ExpireAt now => ((expire_and_migrate s now).1, None)
  | Send tick p => ((next_envelope s tick p).1, None)
  | AddPeer player now => (add_peer s player now, None)
  | Configure preference => ((configure_migration_preference s preference).1, None)
  end.

Fixpoint peer_run (s : SessionState) (ops : list PeerOp) : SessionState * list Envelope :=
  match ops with
  | [] => (s, [])
  | op :: ops =>
      let '(s1, applied) := peer_step s op in
      let '(s2, rest) := peer_run s1 ops in (s2, from_option (fun e => [e]) [] applied ++ rest)
  end.

(** ** Acceptance *)

Lemma subject_refusal_refuses s e : subject_refusal s e <> Some Accepted.
Proof. unfold subject_refusal. repeat case_match; done. Qed.
Lemma checkpoint_refusal_refuses s e : checkpoint_refusal s e <> Some Accepted.
Proof. unfold checkpoint_refusal. repeat case_match; done. Qed.
Lemma refusal_refuses s e now : refusal s e now <> Some Accepted.
Proof.
  pose proof (subject_refusal_refuses s e). pose proof (checkpoint_refusal_refuses s e).
  unfold refusal. repeat case_match; congruence.
Qed.

Lemma accept_cases s e now :
  (exists o, refusal s e now = Some o /\ o <> Accepted /\ accept s e now = (s, o)) \/
  (refusal s e now = None /\ accept s e now = (commit_claim (commit_results (commit_peer s e now) e) e, Accepted)).
Proof.
  unfold accept. destruct (refusal s e now) as [o|] eqn:Hr; [left; exists o|by right].
  split_and!; try done. intros ->. by apply (refusal_refuses s e now).
Qed.

(** What no refusal means. *)
Record accepted_facts (s : SessionState) (e : Envelope) (now : Z) : Prop := {
  af_lobby : env_lobby_id e = lobby_id s;
  af_epoch : session_epoch s <= env_authority_epoch e;
  af_member : exists peer, peers s !! sender e = Some peer /\ last_sequence peer < env_sequence e;
  af_current : claim_of (payload e) = None -> env_authority_epoch e = session_epoch s;
  af_role : speaks_for_authority (payload e) = true -> sender e = session_authority s;
  af_subject : subject_refusal s e = None;
  af_checkpoint : checkpoint_refusal s e = None;
  af_claim : forall authority epoch, claim_of (payload e) = Some (authority, epoch) ->
    authority_claim_is_coherent s (sender e) authority epoch now = true;
}.

Lemma refusal_none_iff s e now : refusal s e now = None <-> accepted_facts s e now.
Proof.
  unfold refusal. split.
  - intros Hr. destruct (bool_decide_reflect (env_lobby_id e = lobby_id s)) as [Hl|]; [|done].
    destruct (Z.ltb_spec (env_authority_epoch e) (session_epoch s)); [done|].
    destruct (peers s !! sender e) as [peer|] eqn:Hp; [|done]. simpl in Hr.
    destruct (negb (_ =? _) && _) eqn:Hc; [done|].
    destruct (speaks_for_authority (payload e) && _) eqn:Hs; [done|].
    destruct (subject_refusal s e) eqn:Hsub; [done|]. destruct (checkpoint_refusal s e) eqn:Hck; [done|].
    destruct (Z.leb_spec (env_sequence e) (last_sequence peer)); [done|].
    split; try done; [by exists peer| | |].
    + intros Hn. rewrite Hn in Hc. unfold is_none in Hc. simpl in Hc. rewrite andb_true_r in Hc.
      apply negb_false_iff in Hc. by apply Z.eqb_eq.
    + intros Hsp. rewrite Hsp in Hs. apply negb_false_iff in Hs. by apply bool_decide_eq_true in Hs.
    + intros a ep Ha. rewrite Ha in Hr. by destruct (authority_claim_is_coherent _ _ _ _ _).
  - intros [Hl He (peer & Hp & Hq) Hc Hs Hsub Hck Ha].
    rewrite bool_decide_true by done. simpl. destruct (Z.ltb_spec (env_authority_epoch e) (session_epoch s)); [lia|].
    rewrite Hp, Hsub, Hck. destruct (Z.leb_spec (env_sequence e) (last_sequence peer)); [lia|].
    destruct (claim_of (payload e)) as [[a ep]|] eqn:Hclaim.
    + rewrite andb_false_r, (Ha a ep) by done. simpl.
      destruct (speaks_for_authority (payload e)) eqn:Hsp; [|done]. rewrite Hs by done. by rewrite bool_decide_true.
    + rewrite Hc by done. rewrite Z.eqb_refl. simpl.
      destruct (speaks_for_authority (payload e)) eqn:Hsp; [|done]. rewrite Hs by done. by rewrite bool_decide_true.
Qed.

(** The fields of the state an accepted envelope leaves. *)
Definition committed (s : SessionState) (e : Envelope) (now : Z) : SessionState :=
  commit_claim (commit_results (commit_peer s e now) e) e.

Lemma commit_results_fixes s e :
  peers (commit_results s e) = peers s /\ session_authority (commit_results s e) = session_authority s /\
  session_epoch (commit_results s e) = session_epoch s /\ local_player (commit_results s e) = local_player s.
Proof. unfold commit_results. by destruct (payload e). Qed.
Lemma commit_claim_fixes s e :
  peers (commit_claim s e) = peers s /\ applied_shot_results (commit_claim s e) = applied_shot_results s /\
  local_player (commit_claim s e) = local_player s.
Proof. unfold commit_claim. destruct (claim_of (payload e)) as [[a ep]|]; [|done]. by destruct (_ || _). Qed.

Lemma committed_peers s e now :
  peers (committed s e now) =
    <[sender e := mkPeerState (env_sequence e) now (match payload e with Leave => false | _ => true end)]> (peers s).
Proof.
  unfold committed. destruct (commit_claim_fixes (commit_results (commit_peer s e now) e) e) as (-> & _).
  by destruct (commit_results_fixes (commit_peer s e now) e) as (-> & _).
Qed.

(** The shot result an envelope carries. *)
Definition receipt (e : Envelope) : option (Z * PlayerId * Z) :=
  match payload e with ShotResultPayload r => Some (env_authority_epoch e, result_shooter r, result_tick r) | _ => None end.

Lemma committed_receipts s e now :
  applied_shot_results s ⊆ applied_shot_results (committed s e now) /\
  forall r, receipt e = Some r -> r ∈ applied_shot_results (committed s e now).
Proof.
  unfold committed. destruct (commit_claim_fixes (commit_results (commit_peer s e now) e) e) as (_ & -> & _).
  unfold receipt, commit_results. destruct (payload e); simpl; (split; [set_solver|]); intros ? [= <-]; set_solver.
Qed.

Lemma accepted_receipt_fresh s e now r :
  accepted_facts s e now -> receipt e = Some r -> r ∉ applied_shot_results s.
Proof.
  intros [_ _ _ _ _ Hsub _ _] Hr. unfold receipt in Hr. unfold subject_refusal in Hsub.
  destruct (payload e); try done. injection Hr as <-. destruct (_ || _); [done|].
  by destruct (bool_decide_reflect ((env_authority_epoch e, result_shooter r0, result_tick r0) ∈ applied_shot_results s)).
Qed.

(** ** Nothing is applied twice *)

Definition added (ops : list PeerOp) : list PlayerId :=
  omap (fun op => match op with AddPeer p _ => Some p | _ => None end) ops.

Lemma expire_peers_last s now p :
  last_sequence <$> (peers (expire_peers s now) !! p) = last_sequence <$> (peers s !! p).
Proof.
  unfold expire_peers. simpl. rewrite map_lookup_imap. destruct (peers s !! p) as [peer|]; [|done].
  simpl. by repeat case_match.
Qed.
Lemma migrate_fixes s now :
  peers (expire_and_migrate s now).1 = peers (expire_peers s now) /\
  applied_shot_results (expire_and_migrate s now).1 = applied_shot_results s /\
  local_player (expire_and_migrate s now).1 = local_player s.
Proof. unfold expire_and_migrate. cbv zeta. by repeat case_match. Qed.

(** One operation: sequences grow, receipts are kept, and what it applied is new. *)
Lemma peer_step_spec s op :
  let '(s', applied) := peer_step s op in
  applied_shot_results s ⊆ applied_shot_results s' /\
  (forall p peer, peers s !! p = Some peer -> (forall now, op <> AddPeer p now) ->
     exists peer', peers s' !! p = Some peer' /\ last_sequence peer <= last_sequence peer') /\
  (forall p, peers s !! p = None -> (forall now, op <> AddPeer p now) -> peers s' !! p = None) /\
  (forall e, applied = Some e ->
     (exists peer, peers s !! sender e = Some peer /\ last_sequence peer < env_sequence e) /\
     (exists peer, peers s' !! sender e = Some peer /\ last_sequence peer = env_sequence e) /\
     forall r, receipt e = Some r -> r ∉ applied_shot_results s /\ r ∈ applied_shot_results s').
Proof.
  destruct op as [e now|now|tick p|player now|preference]; unfold peer_step.
  - destruct (accept_cases s e now) as [(o & Hr & Ho & ->)|[Hr ->]].
    + rewrite bool_decide_false by done. split_and!; try done. intros p peer Hp _. by exists peer.
    + rewrite bool_decide_true by done. apply refusal_none_iff in Hr. fold (committed s e now).
      pose proof (committed_receipts s e now) as [Hsub Hin]. rewrite committed_peers.
      destruct (af_member _ _ _ Hr) as (peer & Hp & Hq). split_and!; [done|..].
      * intros p peer' Hp' _. destruct (decide (p = sender e)) as [->|Hne].
        -- rewrite lookup_insert_eq. eexists. split; [done|]. simpl. rewrite Hp in Hp'. injection Hp' as <-. lia.
        -- rewrite lookup_insert_ne by done. by exists peer'.
      * intros p Hnone _. rewrite lookup_insert_ne by congruence. done.
      * intros e' [= <-]. split_and!; [by exists peer|rewrite lookup_insert_eq; by eexists|].
        intros r Hrec. split; [by eapply accepted_receipt_fresh|by apply Hin].
  - destruct (migrate_fixes s now) as (-> & -> & _). split_and!; try done.
    + intros p peer Hp _. pose proof (expire_peers_last s now p) as Hl. rewrite Hp in Hl.
      destruct (peers (expire_peers s now) !! p) as [peer'|]; [|done]. exists peer'. split; [done|]. injection Hl as ->. lia.
    + intros p Hp _. pose proof (expire_peers_last s now p) as Hl. rewrite Hp in Hl.
      by destruct (peers (expire_peers s now) !! p).
  - simpl. split_and!; try done. intros p' peer Hp _. by exists peer.
  - simpl. split_and!; try done; intros p.
    + intros peer Hp Hne. rewrite lookup_insert_ne by (intros ->; by eapply Hne). by exists peer.
    + intros Hp Hne. rewrite lookup_insert_ne by (intros ->; by eapply Hne). done.
  - unfold configure_migration_preference. destruct (_ || _); simpl; split_and!; try done; intros p peer Hp _; by exists peer.
Qed.

(** What a run applies from a player that it does not add anew lies above what the
    player had said, and in order. *)
Lemma peer_run_sequences p ops : p ∉ added ops -> forall s,
  Forall (fun e => forall peer, peers s !! p = Some peer -> last_sequence peer < env_sequence e)
    (filter (fun e => sender e = p) (peer_run s ops).2) /\
  StronglySorted (fun a b => env_sequence a < env_sequence b) (filter (fun e => sender e = p) (peer_run s ops).2).
Proof.
  induction ops as [|op ops IH]; intros Hp s; [split; constructor|]. cbn [peer_run].
  pose proof (peer_step_spec s op) as Hstep. destruct (peer_step s op) as [s1 applied]. destruct Hstep as (_ & Hgrow & _ & Happ).
  assert (Hop : forall now, op <> AddPeer p now) by (intros now ->; apply Hp; left).
  assert (Hrest : p ∉ added ops) by (intros Hin; apply Hp; unfold added; destruct op; simpl; try done; by right).
  destruct (IH Hrest s1) as [IH1 IH2]. destruct (peer_run s1 ops) as [s2 rest]. cbn [snd] in *.
  assert (Habove : Forall (fun e => forall peer, peers s !! p = Some peer -> last_sequence peer < env_sequence e)
    (filter (fun e => sender e = p) rest)).
  { eapply Forall_impl; [exact IH1|]. intros e He peer Hpeer. cbv beta in He.
    destruct (Hgrow p peer Hpeer Hop) as (peer' & Hp' & Hle). specialize (He peer' Hp'). lia. }
  destruct applied as [e|]; [|done]. cbn [from_option app]. rewrite filter_cons. destruct (decide (sender e = p)) as [Hs|]; [|done].
  destruct (Happ e eq_refl) as ((peer & Hpeer & Hlt) & (peer' & Hpeer' & Heq) & _). rewrite Hs in *. split; constructor; try done.
  - intros q Hq. rewrite Hpeer in Hq. by injection Hq as <-.
  - eapply Forall_impl; [exact IH1|]. intros e' He'. cbv beta in He'. specialize (He' peer' Hpeer'). lia.
Qed.

(** The shot results a run applies are new to it, and to one another. *)
Lemma peer_run_receipts ops : forall s,
  NoDup (omap receipt (peer_run s ops).2) /\ Forall (fun r => r ∉ applied_shot_results s) (omap receipt (peer_run s ops).2).
Proof.
  induction ops as [|op ops IH]; intros s; [split; constructor|]. cbn [peer_run].
  pose proof (peer_step_spec s op) as Hstep. destruct (peer_step s op) as [s1 applied]. destruct Hstep as (Hsub & _ & _ & Happ).
  destruct (IH s1) as [IH1 IH2]. destruct (peer_run s1 ops) as [s2 rest]. cbn [snd] in *.
  assert (Hold : Forall (fun r => r ∉ applied_shot_results s) (omap receipt rest))
    by (eapply Forall_impl; [exact IH2|]; intros r Hr Hin; by apply Hr, Hsub).
  destruct applied as [e|]; [|done]. cbn [from_option app omap list_omap]. destruct (receipt e) as [r|] eqn:Hr; [|done].
  destruct (Happ e eq_refl) as (_ & _ & Hnew). destruct (Hnew r Hr) as [Hn Hin]. split; constructor; try done.
  intros Hdup. rewrite Forall_forall in IH2. by apply (IH2 r Hdup).
Qed.

(** C17. No envelope takes effect twice. Over any run of a session no shot result is
    applied twice, and none that was known before it: not by result, nor from the
    receipts of an installed checkpoint. And as long as a player is not added anew, which
    resets what is known of it, the envelopes applied from it carry strictly increasing
    sequences, all above the last one heard before the run. *)
Theorem no_envelope_applied_twice s ops :
  let applied := (peer_run s ops).2 in
  NoDup (omap receipt applied) /\
  Forall (fun r => r ∉ applied_shot_results s) (omap receipt applied) /\
  forall p, p ∉ added ops ->
    StronglySorted (fun a b => env_sequence a < env_sequence b) (filter (fun e => sender e = p) applied) /\
    Forall (fun e => forall peer, peers s !! p = Some peer -> last_sequence peer < env_sequence e)
      (filter (fun e => sender e = p) applied).
Proof.
  cbv zeta. destruct (peer_run_receipts ops s) as [H1 H2]. split; [done|]. split; [done|].
  intros p Hp. destruct (peer_run_sequences p ops Hp s) as [H3 H4]. by split.
Qed.

(** ** Authority *)

(** After expiry a peer is connected exactly when the election counts it. *)
Lemma is_connected_expire s now p : is_connected (expire_peers s now) p = counts_connected s now p.
Proof.
  unfold is_connected, counts_connected, expire_peers. simpl. rewrite map_lookup_imap.
  destruct (peers s !! p) as [peer|]; [|done]. simpl. destruct (decide (p = local_player s)) as [->|Hne].
  - by rewrite bool_decide_true.
  - rewrite bool_decide_false by done. rewrite Z.leb_antisym. simpl.
    destruct (_ <? _); simpl; [by rewrite andb_true_r|by rewrite andb_false_r].
Qed.

Lemma find_first_ext {A} (f g : A -> bool) l : (forall a, f a = g a) -> find_first f l = find_first g l.
Proof.
  intros Hfg. unfold find_first. f_equal. apply list_filter_iff. intros a. by rewrite Hfg.
Qed.

(** The order of candidates does not depend on what is known of them. *)
Lemma elects_successor s now :
  or_else (find_first (is_connected (expire_peers s now)) (migration_preference s))
          (find_first (is_connected (expire_peers s now)) (btree_keys (peers (expire_peers s now))))
  = deterministic_successor s now.
Proof.
  unfold deterministic_successor.
  assert (Hk : btree_keys (peers (expire_peers s now)) = btree_keys (peers s)).
  { apply btree_keys_dom. intros k. unfold expire_peers. simpl. rewrite map_lookup_imap. by destruct (peers s !! k). }
  rewrite Hk. f_equal; apply find_first_ext, is_connected_expire.
Qed.

(** [expire_and_migrate] in the terms of the election. *)
Lemma expire_and_migrate_eq s now :
  expire_and_migrate s now =
    let s' := expire_peers s now in
    if counts_connected s now (session_authority s) then (s', None)
    else match deterministic_successor s now with
         | None => (s', None)
         | Some w => match checked_add 64 (session_epoch s) 1 with
                     | None => (s', None)
                     | Some ep => (s' <| session_authority := w |> <| session_epoch := ep |>, Some (w, ep))
                     end
         end.
Proof.
  rewrite <- (is_connected_expire s now (session_authority s)), <- elects_successor. done.
Qed.

Lemma silent_not_counted s now :
  current_authority_is_silent s now = true -> counts_connected s now (session_authority s) = false.
Proof.
  unfold current_authority_is_silent, counts_connected.
  intros [Hne%negb_true_iff%bool_decide_eq_false Hs]%andb_true_iff.
  destruct (peers s !! session_authority s) as [peer|]; [|done]. simpl in *. rewrite bool_decide_false by done.
  apply Z.leb_le in Hs. simpl.
  destruct (Z.ltb_spec (saturating_sub now (last_seen_ms peer)) HEARTBEAT_TIMEOUT_MS); [lia|]. apply andb_false_r.
Qed.

(** The moves of authority, as one peer at one time may see them. *)
Inductive authority_move (s : SessionState) (now : Z) : PlayerId -> Z -> Prop :=
| AuthorityStays : authority_move s now (session_authority s) (session_epoch s)
| AuthorityElected w :
    counts_connected s now (session_authority s) = false ->
    deterministic_successor s now = Some w -> session_epoch s < u64_max ->
    authority_move s now w (session_epoch s + 1)
| AuthorityConverges w :
    current_authority_is_silent s now = true -> key_lt w (session_authority s) ->
    authority_move s now w (session_epoch s).

Definition op_time (op : PeerOp) : Z :=
  match op with Receive _ now | ExpireAt now | AddPeer _ now => now | Send _ _ | Configure _ => 0 end.

(** A claim that passes is one of the moves. *)
Lemma claim_moves s from w ep now :
  authority_claim_is_coherent s from w ep now = true ->
  w = from /\
  ((ep = session_epoch s /\ (w = session_authority s \/ current_authority_is_silent s now = true /\ key_lt w (session_authority s))) \/
   (ep = session_epoch s + 1 /\ session_epoch s < u64_max /\ current_authority_is_silent s now = true /\
    deterministic_successor s now = Some w)).
Proof.
  unfold authority_claim_is_coherent. destruct (bool_decide_reflect (w = from)) as [Hw|]; [|done]. simpl.
  destruct (Z.eqb_spec ep (session_epoch s)) as [->|Hne].
  - intros [Ha%bool_decide_eq_true|Ha]%orb_true_iff; [by auto|].
    apply andb_true_iff in Ha as [Hl%key_ltb_lt Hs]. split; [done|]. left. split; [done|]. by right.
  - destruct (bool_decide_reflect (checked_add 64 (session_epoch s) 1 = Some ep)) as [He|]; [|intros Hc; discriminate Hc].
    destruct (current_authority_is_silent s now) eqn:Hs; [|intros Hc; discriminate Hc]. simpl. intros Hd%bool_decide_eq_true.
    apply checked_add_Some in He as [-> Hb]. split; [done|]. right. split_and!; try done. unfold u64_max. lia.
Qed.

Lemma committed_authority s e now :
  accepted_facts s e now ->
  let s' := committed s e now in
  authority_move s now (session_authority s') (session_epoch s') /\
  (session_authority s' <> session_authority s \/ session_epoch s' <> session_epoch s -> session_authority s' = sender e).
Proof.
  intros Hf. cbv zeta. unfold committed, commit_claim.
  set (s1 := commit_results (commit_peer s e now) e).
  assert (Ha : session_authority s1 = session_authority s) by (unfold s1, commit_results; by destruct (payload e)).
  assert (He : session_epoch s1 = session_epoch s) by (unfold s1, commit_results; by destruct (payload e)).
  destruct (claim_of (payload e)) as [[w ep]|] eqn:Hc; [|rewrite Ha, He; split; [constructor|naive_solver]].
  pose proof (af_claim _ _ _ Hf _ _ Hc) as Hcoh. apply claim_moves in Hcoh as (Hw & Hmove). rewrite Ha, He.
  destruct (_ || _) eqn:Hg; simpl; [|rewrite Ha, He; split; [constructor|naive_solver]].
  split; [|done].
  destruct Hmove as [(-> & [-> |(Hs & Hl)])|(-> & Hmax & Hs & Hd)].
  - constructor.
  - by constructor.
  - constructor; [by apply silent_not_counted|done|done].
Qed.

Lemma step_authority s op :
  let s' := (peer_step s op).1 in
  authority_move s (op_time op) (session_authority s') (session_epoch s') /\
  (forall e now, op = Receive e now ->
     session_authority s' <> session_authority s \/ session_epoch s' <> session_epoch s -> session_authority s' = sender e).
Proof.
  cbv zeta. destruct op as [e now|now|tick p|player now|preference]; unfold peer_step.
  - destruct (accept_cases s e now) as [(o & Hr & Ho & ->)|[Hr ->]]; simpl.
    + split; [exact (AuthorityStays s _)|naive_solver].
    + apply refusal_none_iff in Hr. fold (committed s e now). destruct (committed_authority s e now Hr) as [H1 H2].
      split; [done|]. by intros ? ? [= <- <-].
  - split; [|done]. rewrite expire_and_migrate_eq. cbv zeta. simpl.
    destruct (counts_connected s now (session_authority s)) eqn:Hcc; [exact (AuthorityStays s _)|].
    destruct (deterministic_successor s now) as [w|] eqn:Hd; [|exact (AuthorityStays s _)].
    destruct (checked_add 64 (session_epoch s) 1) as [ep|] eqn:He; [|exact (AuthorityStays s _)]. simpl.
    apply checked_add_Some in He as [-> Hb]. apply AuthorityElected; [done..|unfold u64_max; lia].
  - split; [exact (AuthorityStays s _)|done].
  - split; [exact (AuthorityStays s _)|done].
  - split; [|done]. simpl. unfold configure_migration_preference. destruct (_ || _); exact (AuthorityStays s _).
Qed.

(** The authority counts as connected whenever something happens. *)
Fixpoint authority_heard (s : SessionState) (ops : list PeerOp) : Prop :=
  match ops with
  | [] => True
  | op :: ops =>
      match op with Send _ _ | Configure _ => True | _ => counts_connected s (op_time op) (session_authority s) = true end /\
      authority_heard (peer_step s op).1 ops
  end.

(** C18. Authority moves by election alone. Over any run, whatever envelopes arrive, the
    epoch never falls and grows by at most one per operation; and while the authority
    counts as connected at each of them, it keeps its office and its epoch: no signed
    member can depose a live authority or skip epochs. *)
Theorem live_authority_keeps_office s ops :
  let s' := (peer_run s ops).1 in
  session_epoch s <= session_epoch s' <= session_epoch s + Z.of_nat (length ops) /\
  (authority_heard s ops -> session_authority s' = session_authority s /\ session_epoch s' = session_epoch s).
Proof.
  revert s. induction ops as [|op ops IH]; intros s; cbv zeta; [simpl; split; [lia|done]|].
  pose proof (step_authority s op) as [Hmove _]. specialize (IH (peer_step s op).1). cbv zeta in IH.
  cbn [peer_run]. destruct (peer_step s op) as [s1 applied] eqn:Hop. cbn [fst] in *.
  destruct (peer_run s1 ops) as [s2 rest]. cbn [fst length] in *. destruct IH as [IH1 IH2].
  assert (Hone : session_epoch s <= session_epoch s1 <= session_epoch s + 1) by (inversion Hmove; lia).
  split; [lia|].
  cbn [authority_heard]. rewrite Hop. intros [Hh Hrest]. specialize (IH2 Hrest) as [-> ->].
  assert (Hstay : counts_connected s (op_time op) (session_authority s) = true ->
    session_authority s1 = session_authority s /\ session_epoch s1 = session_epoch s).
  { intros Hc. inversion Hmove as [|w Hcc|w Hs]; [done|congruence|]. apply silent_not_counted in Hs. congruence. }
  destruct op as [e now|now|tick p|player now|preference]; try by apply Hstay.
  - simpl in Hop. by injection Hop as <- <-.
  - simpl in Hop. unfold configure_migration_preference in Hop. destruct (_ || _); by injection Hop as <- <-.
Qed.

(** What one operation does to authority is one of the moves the protocol allows:
    nothing; the election of the peer's own deterministic successor under the next
    epoch, once the authority has left or been silent for two seconds; or, among split
    elections under a silent authority, a lower player. A received envelope moves it
    only to its own sender. *)
Theorem authority_moves_by_election s op :
  let s' := (peer_step s op).1 in
  authority_move s (op_time op) (session_authority s') (session_epoch s') /\
  (forall e now, op = Receive e now ->
     session_authority s' <> session_authority s \/ session_epoch s' <> session_epoch s -> session_authority s' = sender e).
Proof. apply step_authority. Qed.

(** ** Migration *)

(** Two peers that saw the same: one roster, one order, and the same players alive. *)
Record same_view (s r : SessionState) (now : Z) : Prop := {
  sv_lobby : lobby_id s = lobby_id r;
  sv_authority : session_authority s = session_authority r;
  sv_epoch : session_epoch s = session_epoch r;
  sv_preference : migration_preference s = migration_preference r;
  sv_roster : forall p, is_Some (peers s !! p) <-> is_Some (peers r !! p);
  sv_alive : forall p, counts_connected s now p = counts_connected r now p;
}.

Lemma same_view_successor s r now : same_view s r now -> deterministic_successor s now = deterministic_successor r now.
Proof.
  intros Hv. unfold deterministic_successor. rewrite (sv_preference _ _ _ Hv).
  rewrite (btree_keys_dom (peers s) (peers r)) by apply Hv. f_equal; apply find_first_ext, Hv.
Qed.

(** What the winner of an election sends: its claim, or its claim with a checkpoint. *)
Definition announcement (roster : gset PlayerId) (w : PlayerId) (ep tick : Z) (p : PeerPayload) : Prop :=
  p = AuthorityClaim w ep \/
  exists ck, p = MigrationSnapshot w ep ck (checkpoint_hash ck) /\ source_epoch ck + 1 = ep /\
    checkpoint_tick ck = tick /\ is_bounded_and_canonical ck = true /\
    Forall (fun rider => ck_rider_player_id rider ∈ roster) (riders ck).

Lemma announcement_claim roster w ep tick p : announcement roster w ep tick p -> claim_of p = Some (w, ep).
Proof. by intros [-> |(ck & -> & _)]. Qed.

Lemma announcement_checks (r : SessionState) w ep e :
  announcement (dom (peers r)) w ep (simulation_tick e) (payload e) -> sender e = w -> 0 < ep <= u64_max ->
  ep = session_epoch r \/ ep = session_epoch r + 1 ->
  subject_refusal r e = None /\ checkpoint_refusal r e = None.
Proof.
  intros Ha Hw Hmax Hep. unfold subject_refusal, checkpoint_refusal.
  destruct Ha as [-> |(ck & -> & Hsrc & Htick & Hb & Hr)]; [done|]. split; [done|].
  assert (Hc : checked_add 64 (source_epoch ck) 1 = Some ep) by (apply checked_add_Some; unfold u64_max in Hmax; lia).
  rewrite Hc, Hw, Htick, Hb, Z.eqb_refl, (bool_decide_true (w = w)), (bool_decide_true (Some ep = Some ep)),
    (bool_decide_true (checkpoint_hash ck = checkpoint_hash ck)) by done. simpl.
  assert (Hwin : (source_epoch ck =? session_epoch r)
     || bool_decide (Some ep = Some (session_epoch r)) && (ep =? session_epoch r) = true).
  { destruct Hep as [-> |Hep]; [rewrite bool_decide_true, Z.eqb_refl by done; apply orb_true_r|].
    apply orb_true_iff. left. apply Z.eqb_eq. lia. }
  rewrite Hwin. simpl. destruct (existsb _ _) eqn:He; [|done]. apply existsb_exists in He as (rider & Hin & Hn).
  apply list_elem_of_In in Hin. rewrite Forall_forall in Hr. apply Hr, elem_of_dom in Hin as [? Hin]. by rewrite Hin in Hn.
Qed.

Lemma announcement_speaks roster w ep tick p : announcement roster w ep tick p -> speaks_for_authority p = false.
Proof. by intros [-> |(ck & -> & _)]. Qed.

(** The checkpoint an announcement installs. *)
Definition announced_checkpoint (p : PeerPayload) (before : option MatchCheckpoint) : option MatchCheckpoint :=
  match p with MigrationSnapshot _ _ ck _ => Some ck | _ => before end.

Lemma committed_announcement r e w ep now roster :
  announcement roster w ep (simulation_tick e) (payload e) ->
  ep = session_epoch r + 1 \/ (ep = session_epoch r /\ session_authority r = w) ->
  session_authority (committed r e now) = w /\ session_epoch (committed r e now) = ep /\
  session_checkpoint (committed r e now) = announced_checkpoint (payload e) (session_checkpoint r).
Proof.
  intros Ha Hep. unfold committed, commit_claim. rewrite (announcement_claim _ _ _ _ _ Ha).
  destruct (commit_results_fixes (commit_peer r e now) e) as (_ & -> & -> & _). simpl.
  assert (Hck : session_checkpoint (commit_results (commit_peer r e now) e) = announced_checkpoint (payload e) (session_checkpoint r))
    by (unfold commit_results; destruct Ha as [-> |(ck & -> & _)]; done).
  destruct (_ || _) eqn:Hg; simpl; [by split_and!|].
  apply orb_false_iff in Hg as [Hg1 Hg2]. destruct Hep as [-> |[-> Haut]].
  - rewrite Z.gtb_ltb in Hg1. apply Z.ltb_ge in Hg1. lia.
  - destruct (commit_results_fixes (commit_peer r e now) e) as (_ & -> & -> & _). by split_and!.
Qed.

(** What a migrating peer's state is. *)
Lemma migrate_to s now w :
  counts_connected s now (session_authority s) = false -> deterministic_successor s now = Some w ->
  0 <= session_epoch s < u64_max ->
  expire_and_migrate s now =
    ((expire_peers s now) <| session_authority := w |> <| session_epoch := session_epoch s + 1 |>, Some (w, session_epoch s + 1)).
Proof.
  intros Hc Hd He. rewrite expire_and_migrate_eq. cbv zeta. rewrite Hc, Hd.
  assert (Hadd : checked_add 64 (session_epoch s) 1 = Some (session_epoch s + 1)) by (apply checked_add_Some; unfold u64_max in He; lia).
  by rewrite Hadd.
Qed.

Lemma find_first_true {A} (f : A -> bool) l a : find_first f l = Some a -> f a = true.
Proof.
  unfold find_first. destruct (filter _ l) as [|b l'] eqn:Hl; [done|]. intros [= ->].
  assert (Hin : a ∈ a :: l') by left. rewrite <- Hl in Hin. by apply list_elem_of_filter in Hin as [? _].
Qed.

Lemma successor_is_member s now w : deterministic_successor s now = Some w -> is_Some (peers s !! w).
Proof.
  intros Hd. assert (Hc : counts_connected s now w = true).
  { unfold deterministic_successor, or_else in Hd. destruct (find_first _ (migration_preference s)) as [q|] eqn:Hq.
    - injection Hd as ->. by eapply find_first_true.
    - by eapply find_first_true. }
  unfold counts_connected in Hc. by destruct (peers s !! w).
Qed.

(** Before and after its own migration a survivor is ready for the winner's claim. *)
Definition expects (r : SessionState) (w : PlayerId) (ep now : Z) : Prop :=
  authority_claim_is_coherent r w w ep now = true /\
  (ep = session_epoch r + 1 \/ ep = session_epoch r /\ session_authority r = w).

Lemma expects_before r w now :
  current_authority_is_silent r now = true -> deterministic_successor r now = Some w ->
  0 <= session_epoch r < u64_max -> expects r w (session_epoch r + 1) now.
Proof.
  intros Hs Hd He. split; [|by left]. unfold authority_claim_is_coherent. rewrite bool_decide_true by done. simpl.
  destruct (Z.eqb_spec (session_epoch r + 1) (session_epoch r)); [lia|].
  rewrite bool_decide_true by (apply checked_add_Some; unfold u64_max in He; lia). rewrite Hs. simpl.
  by apply bool_decide_eq_true.
Qed.

Lemma expects_after r w now : expects ((expire_peers r now) <| session_authority := w |> <| session_epoch := session_epoch r + 1 |>)
  w (session_epoch r + 1) now.
Proof.
  split; [|by right]. unfold authority_claim_is_coherent. simpl. rewrite bool_decide_true by done. simpl.
  by rewrite Z.eqb_refl.
Qed.

(** An expected announcement of a member is accepted and installed. *)
Lemma announcement_accepted r w ep now e peer :
  expects r w ep now -> 0 < ep <= u64_max -> env_lobby_id e = lobby_id r -> sender e = w -> env_authority_epoch e = ep ->
  peers r !! w = Some peer -> last_sequence peer < env_sequence e ->
  announcement (dom (peers r)) w ep (simulation_tick e) (payload e) ->
  let '(r', outcome) := accept r e now in
  outcome = Accepted /\ session_authority r' = w /\ session_epoch r' = ep /\
  session_checkpoint r' = announced_checkpoint (payload e) (session_checkpoint r).
Proof.
  intros [Hcoh Hcase] Hep Hl Hw He Hp Hq Ha.
  assert (Hacc : accepted_facts r e now).
  { destruct (announcement_checks r w ep e) as [Hsub Hchk]; [done..|naive_solver|].
    split; try done; rewrite ?Hw, ?He.
    - naive_solver lia.
    - by exists peer.
    - by rewrite (announcement_claim _ _ _ _ _ Ha).
    - by rewrite (announcement_speaks _ _ _ _ _ Ha).
    - intros a ep'. rewrite (announcement_claim _ _ _ _ _ Ha). by intros [= <- <-]. }
  apply refusal_none_iff in Hacc. unfold accept. rewrite Hacc. fold (committed r e now).
  by destruct (committed_announcement r e w ep now _ Ha Hcase) as (-> & -> & ->).
Qed.

(** Survivors with the same view of a silent authority agree: the same lobby, epoch,
    authority, roster and migration order, and the same verdict on who is connected.
    Take the peer [s] that the election makes authority, and any such peer [r]. Both
    elect the same successor under the same epoch; and the winner's next
    envelope, a claim or a migration snapshot, is accepted by [r] and leaves it with the
    winner, the new epoch and the announced checkpoint, whether it arrives before or
    after [r] runs its own migration. *)
Theorem migration_converges s r now tick p :
  same_view s r now -> counts_connected s now (session_authority s) = false ->
  deterministic_successor s now = Some (local_player s) ->
  0 <= session_epoch s < u64_max -> current_authority_is_silent r now = true ->
  (forall peer, peers r !! local_player s = Some peer -> last_sequence peer < next_sequence s) ->
  announcement (dom (peers r)) (local_player s) (session_epoch s + 1) tick p ->
  (expire_and_migrate s now).2 = Some (local_player s, session_epoch s + 1) /\
  (expire_and_migrate r now).2 = (expire_and_migrate s now).2 /\
  let e := (next_envelope (expire_and_migrate s now).1 tick p).2 in
  forall r', r' = r \/ r' = (expire_and_migrate r now).1 ->
    let '(r'', outcome) := accept r' e now in
    outcome = Accepted /\ session_authority r'' = local_player s /\ session_epoch r'' = session_epoch s + 1 /\
    session_checkpoint r'' = announced_checkpoint p (session_checkpoint r).
Proof.
  intros Hv Hdead Hwin Hep Hsilent Hfresh Ha.
  pose proof (same_view_successor _ _ _ Hv) as Hsucc. rewrite Hwin in Hsucc. symmetry in Hsucc.
  pose proof (sv_epoch _ _ _ Hv) as Hepoch. pose proof (sv_lobby _ _ _ Hv) as Hlobby.
  assert (Hmr := migrate_to r now (local_player s)). rewrite <- (sv_alive _ _ _ Hv), <- (sv_authority _ _ _ Hv) in Hmr.
  rewrite <- Hepoch in Hmr. specialize (Hmr Hdead Hsucc Hep).
  rewrite (migrate_to s now _ Hdead Hwin Hep), Hmr. simpl. split; [done|]. split; [done|].
  intros r' Hr'. set (e := mkEnvelope _ _ _ _ _ _ _ _).
  destruct (successor_is_member _ _ _ Hsucc) as [peer Hp].
  assert (Hstored : session_checkpoint r' = session_checkpoint r) by (by destruct Hr' as [-> | ->]).
  rewrite <- Hstored.
  destruct Hr' as [-> | ->].
  - apply (announcement_accepted r (local_player s) (session_epoch s + 1) now e peer); try done; [|lia|by apply Hfresh].
    rewrite Hepoch. apply expects_before; [done|done|lia].
  - pose proof (expire_peers_last r now (local_player s)) as Hlast. rewrite Hp in Hlast.
    destruct (peers (expire_peers r now) !! local_player s) as [peer'|] eqn:Hp'; [|done]. injection Hlast as Hlast.
    eapply announcement_accepted; [rewrite Hepoch; apply expects_after|lia|done|done|done|exact Hp'| |].
    + rewrite Hlast. by apply Hfresh.
    + assert (Hdom : dom (peers (expire_peers r now)) = dom (peers r)); [|by rewrite <- Hdom in Ha].
      apply set_eq. intros q. rewrite !elem_of_dom. unfold expire_peers. simpl. rewrite map_lookup_imap.
      by destruct (peers r !! q).
Qed.
End run.

(** ** Witnesses *)

Module PeerDemo.
(** Toy libraries: the hash of a message is the message, a signature is the key in
    front of what it signs. *)
#[export] Instance demo_crypto : Crypto := {
  sha2 := fun message => message;
  valid_key := fun key => (length key =? 32)%nat;
  verify_strict := fun key message signature => bool_decide (signature = key ++ message);
  SigningKey := Z;
  verifying_key := fun key => repeat key 32;
  sign_bytes := fun key message => repeat key 32 ++ message;
}.
#[export] Instance demo_crypto_sound : CryptoSound.
Proof. split; intros; simpl; [done|by apply bool_decide_eq_true]. Qed.

Definition lobby : LobbyId := demo_session_player 200.
Definition player (n : Z) : PlayerId := demo_session_player n.
Definition triple : Triple := mkTriple 0 0 0.
Definition rider (n : Z) : RiderCheckpoint :=
  mkRiderCheckpoint (player n) triple triple 0 Mounted 100 0 6 24 0 None None 0.
Definition checkpoint : MatchCheckpoint := mkMatchCheckpoint 1 60 [rider 1; rider 2; rider 3] [].

Definition heartbeat : Envelope := mkEnvelope WIRE_VERSION lobby (player 1) 1 1 60 Heartbeat None.
Definition hit (sequence : Z) : Envelope :=
  mkEnvelope WIRE_VERSION lobby (player 1) sequence 1 60
    (ShotResultPayload (mkShotResult 60 (player 2) Dustwalker ShotMiss None None None None 0 None false)) None.

(** JSON in which just the demonstration's values can be told apart. *)
#[export] Instance demo_json : PeerJson := {
  json_checkpoint := fun c => [source_epoch c; checkpoint_tick c];
  json_envelope := fun e => [123; env_sequence e; 125];
  parse_version_header := fun bytes => if bool_decide (bytes = [123; 1; 125]) then Some WIRE_VERSION else None;
  parse_envelope := fun bytes => if bool_decide (bytes = [123; 1; 125]) then Some heartbeat else None;
}.

(** The sessions of players 2 and 3 under the authority of player 1, last heard at 0. *)
Definition view (local : Z) : SessionState :=
  add_peer (add_peer (session_new lobby (player local) (player 1) 0) (player 2) 2500) (player 3) 2500.
Lemma view_others n m p : In n [2; 3] -> In m [2; 3] -> peers (view n) !! p = peers (view m) !! p.
Proof.
  intros Hn Hm. assert (Hv : peers (view n) = peers (view m)); [|by rewrite Hv].
  destruct Hn as [<- |[<- |[]]], Hm as [<- |[<- |[]]]; vm_compute; reflexivity.
Qed.
End PeerDemo.
Import PeerDemo.

Lemma no_envelope_applied_twice_witness :
  (peer_run (view 2) [Receive heartbeat 100; Receive heartbeat 110; Receive (hit 2) 120; Receive (hit 3) 130]).2
    = [heartbeat; hit 2] /\
  NoDup (omap receipt [heartbeat; hit 2]).
Proof.
  assert (Hrun : (peer_run (view 2) [Receive heartbeat 100; Receive heartbeat 110; Receive (hit 2) 120; Receive (hit 3) 130]).2
    = [heartbeat; hit 2]) by (vm_compute; reflexivity).
  split; [exact Hrun|]. rewrite <- Hrun. apply no_envelope_applied_twice.
Defined.

Lemma live_authority_keeps_office_witness :
  session_authority (peer_run (view 2) [Receive heartbeat 1900; ExpireAt 3800; Send 61 Heartbeat]).1 = player 1.
Proof.
  apply (live_authority_keeps_office (view 2) [Receive heartbeat 1900; ExpireAt 3800; Send 61 Heartbeat]).
  vm_compute. split_and!; reflexivity || exact I.
Defined.

Lemma authority_moves_by_election_witness :
  authority_move (view 3) 3000 (player 2) 2.
Proof.
  pose proof (proj1 (authority_moves_by_election (view 3) (ExpireAt 3000))) as Hmove.
  replace (session_authority (peer_step (view 3) (ExpireAt 3000)).1) with (player 2) in Hmove by (vm_compute; reflexivity).
  replace (session_epoch (peer_step (view 3) (ExpireAt 3000)).1) with 2 in Hmove by (vm_compute; reflexivity).
  exact Hmove.
Defined.

Lemma migration_converges_witness :
  (expire_and_migrate (view 3) 3000).2 = Some (player 2, 2) /\
  let e := (next_envelope (expire_and_migrate (view 2) 3000).1 60
              (MigrationSnapshot (player 2) 2 checkpoint (checkpoint_hash checkpoint))).2 in
  (accept (view 3) e 3000).2 = Accepted.
Proof.
  pose proof (migration_converges (view 2) (view 3) 3000 60
    (MigrationSnapshot (player 2) 2 checkpoint (checkpoint_hash checkpoint))) as Hm.
  destruct Hm as (H1 & H2 & H3).
  - split; try (vm_compute; reflexivity).
    + intros p. by rewrite (view_others 2 3 p) by (simpl; auto).
    + intros p. unfold counts_connected. pose proof (view_others 2 3 p ltac:(simpl; auto) ltac:(simpl; auto)) as Ho.
      destruct (decide (p = player 1)) as [->|]; [vm_compute; reflexivity|].
      destruct (decide (p = player 2)) as [->|]; [vm_compute; reflexivity|].
      destruct (decide (p = player 3)) as [->|]; [vm_compute; reflexivity|].
      rewrite Ho. destruct (peers (view 3) !! p) as [peer|] eqn:Hp; [|done]. apply elem_of_dom_2 in Hp.
      assert (Hdom : dom (peers (view 3)) = {[player 1; player 2; player 3]}) by (vm_compute; reflexivity).
      rewrite Hdom in Hp. set_solver.
  - vm_compute. reflexivity.
  - vm_compute. reflexivity.
  - vm_compute. split; [discriminate|reflexivity].
  - vm_compute. reflexivity.
  - intros peer Hp. vm_compute in Hp. injection Hp as <-. vm_compute. reflexivity.
  - right. exists checkpoint. split_and!; try (vm_compute; reflexivity).
    repeat constructor; vm_compute; reflexivity.
  - split; [rewrite H2, H1; vm_compute; reflexivity|]. cbv zeta.
    specialize (H3 (view 3) (or_introl eq_refl)). destruct (accept _ _ _) as [r o]. apply H3.
Defined.

(** After a [Leave] the peer's own election migrates at once, but it refuses the claim
    of the same winner until the two seconds of silence are over. *)
Lemma leave_claim_refused :
  let left := (accept (view 3) (mkEnvelope WIRE_VERSION lobby (player 1) 1 1 60 Leave None) 2600).1 in
  let claim := mkEnvelope WIRE_VERSION lobby (player 2) 1 2 60 (AuthorityClaim (player 2) 2) None in
  (accept left claim 2700).2 = InvalidAuthorityClaim /\ (expire_and_migrate left 2700).2 = Some (player 2, 2).
Proof. vm_compute. split; reflexivity. Qed.

(** The comment of [expire_and_migrate] promises the smallest connected identity; a
    configured order of preference comes first. *)
Lemma preference_beats_smallest :
  let ordered := (view 2) <| migration_preference := [player 3; player 2] |> in
  (expire_and_migrate (view 2) 3000).2 = Some (player 2, 2) /\
  (expire_and_migrate ordered 3000).2 = Some (player 3, 2).
Proof. vm_compute. split; reflexivity. Qed.

(** A player that is added again starts over: an envelope that was applied is applied a
    second time. *)
Lemma readded_player_replays :
  (peer_run (view 2) [Receive heartbeat 100; Receive heartbeat 110; AddPeer (player 1) 120; Receive heartbeat 130]).2
    = [heartbeat; heartbeat].
Proof. vm_compute. reflexivity. Qed.
