(* ===== verification/PeerSecure.v ===== *)
(** * What a signature says

    The canonical payload bytes determine the payload, so that a signature binds the
    whole envelope; a signed session accepts authentic envelopes only, and every
    envelope a member signs passes its checks. *)

From S2P Require Import Prelude MachineInt Ordered Clock Bytes Identifiers WireVersion Stance Wire Sha256 Session Combat.
From S2P Require Import Aim WeaponKernel ShotLedger CombatAuthority PeerSession PeerRun.
From stdpp Require Import gmap.
Open Scope Z_scope.

(** ** Fields of the payloads *)

Definition triple_ok (t : Triple) : Prop := in_sint 32 (triple_x t) /\ in_sint 32 (triple_y t) /\ in_sint 32 (triple_z t).
Definition origin_ok (o : QuantizedOrigin) : Prop := in_sint 32 (origin_x o) /\ in_sint 32 (origin_y o) /\ in_sint 32 (origin_z o).
Definition claimed_ok (t : ClaimedTarget) : Prop :=
  in_uint 64 (claimed_id t) /\ from_option (in_uint 16) True (claimed_damage t) /\ from_option (in_uint 32) True (claimed_distance t).
Definition command_ok (c : ShotCommand) : Prop :=
  in_uint 64 (cmd_tick c) /\ id_ok (cmd_shooter c) /\ origin_ok (cmd_origin c) /\ direction_ok (cmd_direction c) /\
  in_uint 64 (cmd_seed c) /\ from_option claimed_ok True (claimed_target c).
Definition shot_result_ok (r : ShotResult) : Prop :=
  in_uint 64 (result_tick r) /\ id_ok (result_shooter r) /\ from_option direction_ok True (result_direction r) /\
  from_option (in_uint 64) True (target_id r) /\ in_uint 16 (damage r) /\ from_option (in_uint 32) True (distance_mm r).

#[export] Instance triple_bytes_delimited : Delimited triple_bytes triple_ok.
Proof.
  intros [a b c] [a' b' c'] s t (Ha & Hb & Hc) (Ha' & Hb' & Hc') H. unfold triple_bytes in H. simpl in *.
  next_field (int_be_bytes 4) H H1. next_field (int_be_bytes 4) H H2. next_field (int_be_bytes 4) H H3. by subst.
Qed.
#[export] Instance direction_bytes_delimited : Delimited direction_bytes direction_ok.
Proof.
  intros [a b c] [a' b' c'] s t (Ha & Hb & Hc) (Ha' & Hb' & Hc') H. unfold direction_bytes in H. simpl in *.
  next_field (int_be_bytes 4) H H1. next_field (int_be_bytes 4) H H2. next_field (int_be_bytes 4) H H3. by subst.
Qed.
#[export] Instance origin_bytes_delimited : Delimited origin_bytes origin_ok.
Proof.
  intros [a b c] [a' b' c'] s t (Ha & Hb & Hc) (Ha' & Hb' & Hc') H. unfold origin_bytes in H. simpl in *.
  next_field (int_be_bytes 4) H H1. next_field (int_be_bytes 4) H H2. next_field (int_be_bytes 4) H H3. by subst.
Qed.

#[export] Instance zone_delimited : Delimited (fun z => string_bytes (zone_as_str z)) (fun _ => True).
Proof. apply spelled_delimited; [by intros []|by intros [] []]. Qed.
#[export] Instance outcome_delimited : Delimited (fun o => string_bytes (outcome_as_str o)) (fun _ => True).
Proof. apply spelled_delimited; [by intros []|by intros [] []]. Qed.
#[export] Instance reason_delimited : Delimited (fun r => string_bytes (reason_as_str r)) (fun _ => True).
Proof. apply spelled_delimited; [by intros []|by intros [] []]. Qed.
#[export] Instance weapon_byte_delimited : Delimited (fun w => be_bytes 1 (weapon_as_u8 w)) (fun _ => True).
Proof. apply numbered_delimited; [by intros []|by intros [] []]. Qed.

(** A stance as it is carried: canonical, of one byte. *)
Definition stance_ok (s : RiderStance) : Prop := Stance.is_canonical s = true /\ in_uint 8 (Stance.as_u8 s).
#[export] Instance stance_byte_delimited : Delimited (fun s => be_bytes 1 (Stance.as_u8 s)) stance_ok.
Proof.
  apply numbered_delimited; [by intros a [_ Ha]|]. intros a b [Ha _] [Hb _] He.
  destruct a, b; try done; simpl in *; try (by subst); exfalso; subst; discriminate.
Qed.

#[export] Instance claimed_delimited : Delimited claimed_target_bytes claimed_ok.
Proof.
  intros [i z d m] [i' z' d' m'] s t (H1 & H2 & H3) (H1' & H2' & H3') H. unfold claimed_target_bytes in H. simpl in *.
  assert (Hz : forall o : option HitZone, from_option (fun _ => True) True o) by (by intros []).
  next_field (be_bytes 8) H E1. next_field (option_bytes (fun z => string_bytes (zone_as_str z))) H E2.
  next_field (option_bytes (be_bytes 2)) H E3. next_field (option_bytes (be_bytes 4)) H E4. by subst.
Qed.

#[export] Instance command_delimited : Delimited shot_command_bytes command_ok.
Proof.
  intros [k p w o d sd c] [k' p' w' o' d' sd' c'] s t (H1 & H2 & H3 & H4 & H5 & H6) (H1' & H2' & H3' & H4' & H5' & H6') H.
  unfold shot_command_bytes in H. cbn [cmd_tick cmd_shooter cmd_weapon cmd_origin cmd_direction cmd_seed claimed_target] in *.
  next_field (be_bytes 8) H E1. next_field id_bytes H E2. next_field (fun w => be_bytes 1 (weapon_as_u8 w)) H E3.
  next_field origin_bytes H E4. next_field direction_bytes H E5. next_field (be_bytes 8) H E6.
  next_field (option_bytes claimed_target_bytes) H E7. by subst.
Qed.

#[export] Instance result_delimited : Delimited shot_result_bytes shot_result_ok.
Proof.
  intros [k p w o r d t z g m x] [k' p' w' o' r' d' t' z' g' m' x'] u v
    (H1 & H2 & H3 & H4 & H5 & H6) (H1' & H2' & H3' & H4' & H5' & H6') H.
  unfold shot_result_bytes in H.
  cbn [result_tick result_shooter result_weapon outcome rejection_reason result_direction target_id hit_zone damage distance_mm eliminated] in *.
  assert (Hz : forall A (o : option A), from_option (fun _ => True) True o) by (by intros ? []).
  next_field (be_bytes 8) H E1. next_field id_bytes H E2. next_field (fun w => be_bytes 1 (weapon_as_u8 w)) H E3.
  next_field (fun o => string_bytes (outcome_as_str o)) H E4.
  next_field (option_bytes (fun r => string_bytes (reason_as_str r))) H E5.
  next_field (option_bytes direction_bytes) H E6. next_field (option_bytes (be_bytes 8)) H E7.
  next_field (option_bytes (fun z => string_bytes (zone_as_str z))) H E8. next_field (be_bytes 2) H E9.
  next_field (option_bytes (be_bytes 4)) H E10. next_field bool_byte H E11. by subst.
Qed.

(** ** Payloads and envelopes *)

Definition checkpoint_ok (c : MatchCheckpoint) : Prop := in_uint 64 (source_epoch c) /\ in_uint 64 (checkpoint_tick c).

Definition payload_ok (p : PeerPayload) : Prop :=
  match p with
  | Hello hostname => short hostname
  | Heartbeat | Leave => True
  | Probe nonce _ => in_uint 64 nonce
  | RiderInput throttle steer buttons => in_sint 16 throttle /\ in_sint 16 steer /\ in_uint 16 buttons
  | RiderSnapshotPayload rider position velocity yaw s =>
      id_ok rider /\ triple_ok position /\ triple_ok velocity /\ in_sint 32 yaw /\ stance_ok s
  | ShotCommandPayload command => command_ok command
  | ShotResultPayload r => shot_result_ok r
  | AuthorityClaim authority epoch => id_ok authority /\ in_uint 64 epoch
  | MigrationSnapshot authority epoch checkpoint state_hash =>
      id_ok authority /\ in_uint 64 epoch /\ checkpoint_ok checkpoint /\ bytes_n 32 state_hash
  end.

Definition envelope_ok (e : Envelope) : Prop :=
  version_ok (env_wire_version e) /\ id_ok (env_lobby_id e) /\ id_ok (sender e) /\ in_uint 64 (env_sequence e) /\
  in_uint 64 (env_authority_epoch e) /\ in_uint 64 (simulation_tick e) /\ payload_ok (payload e).

Section secure.
Context `{Crypto} `{PeerJson}.

(** [serde_json] writes different checkpoints differently. *)
Definition checkpoints_distinguished (p p' : PeerPayload) : Prop :=
  match p, p' with
  | MigrationSnapshot _ _ c _, MigrationSnapshot _ _ c' _ => json_checkpoint c = json_checkpoint c' -> c = c'
  | _, _ => True
  end.

Lemma payload_bytes_injective p p' :
  payload_ok p -> payload_ok p' -> checkpoints_distinguished p p' ->
  canonical_payload_bytes p = canonical_payload_bytes p' -> p = p'.
Proof.
  intros Hp Hp' Hj Heq.
  assert (Happ : canonical_payload_bytes p ++ [] = canonical_payload_bytes p' ++ []) by (by rewrite !app_nil_r).
  clear Heq. destruct p, p'; try discriminate Happ; cbn [canonical_payload_bytes app] in Happ;
    apply (f_equal (@tl Z)) in Happ; cbn [tl] in Happ; simpl in Hp, Hp'; try done.
  - by next_field string_bytes Happ E1; subst.
  - next_field (be_bytes 8) Happ E1. next_field bool_byte Happ E2. by subst.
  - destruct Hp as (H1 & H2 & H3), Hp' as (H1' & H2' & H3').
    next_field (int_be_bytes 2) Happ E1. next_field (int_be_bytes 2) Happ E2. next_field (be_bytes 2) Happ E3. by subst.
  - destruct Hp as (H1 & H2 & H3 & H4 & H5), Hp' as (H1' & H2' & H3' & H4' & H5').
    next_field id_bytes Happ E1. next_field triple_bytes Happ E2. next_field triple_bytes Happ E3.
    next_field (int_be_bytes 4) Happ E4. next_field (fun s => be_bytes 1 (Stance.as_u8 s)) Happ E5. by subst.
  - next_field shot_command_bytes Happ E1. by subst.
  - next_field shot_result_bytes Happ E1. by subst.
  - destruct Hp as (H1 & H2), Hp' as (H1' & H2'). next_field id_bytes Happ E1. next_field (be_bytes 8) Happ E2. by subst.
  - destruct Hp as (H1 & H2 & (H3 & H4) & H5 & _), Hp' as (H1' & H2' & (H3' & H4') & H5' & _).
    next_field id_bytes Happ E1. next_field (be_bytes 8) Happ E2. next_field (be_bytes 8) Happ E3.
    next_field (be_bytes 8) Happ E4. rewrite <- ?app_assoc in Happ.
    apply app_eq_length in Happ as [E5 Happ]; [|congruence]. rewrite !app_nil_r in Happ. apply Hj in Happ. by subst.
Qed.

(** What a signature is made over, before hashing. *)
Definition signed_bytes (e : Envelope) (network session : Z) (hash : RosterHash) : list Z :=
  envelope_bytes (env_wire_version e) (env_lobby_id e) network session hash (sender e) (env_authority_epoch e)
    (env_sequence e) (simulation_tick e) (canonical_payload_bytes (payload e)).
Lemma envelope_digest_signs e network session hash :
  envelope_digest e network session hash = sha2 (signed_bytes e network session hash).
Proof. done. Qed.

(** A signature binds the envelope. If the bytes signed for two well-formed
    envelopes are equal, then so are the envelopes, their session binding apart, the
    generations and the roster hash: no field and no part of a payload can be moved,
    dropped or reread without changing the signed bytes. *)
Theorem signature_binds_envelope e e' n n' s s' h h' :
  envelope_ok e -> envelope_ok e' -> checkpoints_distinguished (payload e) (payload e') ->
  in_uint 64 n -> in_uint 64 n' -> in_uint 64 s -> in_uint 64 s' ->
  length (hash_bytes h) = length (hash_bytes h') ->
  short (canonical_payload_bytes (payload e)) -> short (canonical_payload_bytes (payload e')) ->
  signed_bytes e n s h = signed_bytes e' n' s' h' ->
  e <| env_session := None |> = e' <| env_session := None |> /\ n = n' /\ s = s' /\ h = h'.
Proof.
  intros (Hv & Hl & Hp & Hq & He & Ht & Hok) (Hv' & Hl' & Hp' & Hq' & He' & Ht' & Hok') Hj Hn Hn' Hs Hs' Hh Hb Hb' H1.
  unfold signed_bytes in H1. apply envelope_bytes_injective in H1; [|assumption..].
  destruct H1 as (E1 & E2 & -> & -> & -> & E3 & E4 & E5 & E6 & E7).
  apply payload_bytes_injective in E7; [|assumption..]. destruct e, e'. cbn in E1, E2, E3, E4, E5, E6, E7. by subst.
Qed.

(** ** Acceptance in a signed session *)

(** An envelope is authentic: signed by the roster's key for its sender over what it
    says, from the roster's endpoint, for this lobby, generation and roster. *)
Definition authentic (self : SecureSession) (e : Envelope) (source : SocketAddr) (current : option NodeKey) : Prop :=
  exists binding entry,
    env_session e = Some binding /\ find_entry (manifest self) (sender e) = Some entry /\
    tailnet_address entry = socket_ip source /\ application_port entry = socket_port source /\
    (forall claimed now_key, node_key entry = Some claimed -> current = Some now_key -> claimed = now_key) /\
    env_lobby_id e = manifest_lobby_id (manifest self) /\
    binding_network_generation binding = network_generation (manifest self) /\
    binding_session_generation binding = session_generation (manifest self) /\
    binding_roster_hash binding = secure_roster_hash self /\
    valid_key (key_bytes (session_public_key entry)) = true /\
    verify_strict (key_bytes (session_public_key entry))
      (sha2 (signed_bytes e (network_generation (manifest self)) (session_generation (manifest self)) (secure_roster_hash self)))
      (signature_bytes (binding_signature binding)) = true.

Lemma secure_refusal_none_iff self e source current :
  secure_refusal self e source current = None <-> authentic self e source current.
Proof.
  unfold secure_refusal. split.
  - destruct (env_session e) as [b|] eqn:Hb; [|done]. destruct (find_entry _ _) as [entry|] eqn:Hf; [|done].
    destruct (bool_decide_reflect (tailnet_address entry = socket_ip source)) as [Ha|]; [|done]. simpl.
    destruct (Z.eqb_spec (application_port entry) (socket_port source)) as [Hp|]; [|done]. simpl.
    destruct (match node_key entry with Some _ => _ | None => _ end) eqn:Hn; [done|].
    destruct (bool_decide_reflect (env_lobby_id e = manifest_lobby_id (manifest self))) as [Hl|]; [|done]. simpl.
    destruct (Z.eqb_spec (binding_network_generation b) (network_generation (manifest self))) as [Hg|]; [|done]. simpl.
    destruct (Z.eqb_spec (binding_session_generation b) (session_generation (manifest self))) as [Hs|]; [|done]. simpl.
    destruct (bool_decide_reflect (binding_roster_hash b = secure_roster_hash self)) as [Hr|]; [|done]. simpl.
    unfold verify_digest. destruct (valid_key _) eqn:Hv; [|done]. simpl.
    destruct (verify_strict _ _ _) eqn:Hsig; [|done]. intros _. exists b, entry.
    rewrite Hg, Hs, Hr in Hsig. split_and!; try done.
    intros claimed k Hc Hk. rewrite Hc, Hk in Hn. apply negb_false_iff in Hn. by apply bool_decide_eq_true in Hn.
  - intros (b & entry & -> & -> & -> & -> & Hn & -> & Hg & Hs & Hr & Hv & Hsig).
    rewrite !bool_decide_true, !Z.eqb_refl by done. simpl.
    assert (Hk : match node_key entry, current with Some c, Some k => negb (bool_decide (c = k)) | _, _ => false end = false).
    { destruct (node_key entry) as [c|], current as [k|]; try done. by rewrite bool_decide_true by (by apply Hn). }
    rewrite Hk, Hg, Hs, ?Hr, !Z.eqb_refl. simpl.
    unfold verify_digest. rewrite Hv. simpl. by rewrite envelope_digest_signs, Hsig.
Qed.

(** C24. A signed session acts on authentic envelopes alone. An envelope is accepted
    exactly when it is authentic (signed, over its own content, with the key the roster
    gives its sender, and sent from the roster's endpoint for this very roster) and the
    session's own rules admit it; then the state is the one those rules give. Anything
    else leaves the session as it was, whatever the reason of the refusal. *)
Theorem secure_accepts_iff_authentic self e source current now :
  let '(self', o) := accept_with_source self e source current now in
  (o = Accepted <-> authentic self e source current /\ accepted_facts (state self) e now) /\
  (o = Accepted -> self' = self <| state := committed (state self) e now |>) /\
  (o <> Accepted -> self' = self).
Proof.
  unfold accept_with_source. pose proof (secure_refusal_none_iff self e source current) as Haut.
  destruct (secure_refusal self e source current) as [o|] eqn:Hr.
  - assert (Hno : o <> Accepted).
    { intros ->. unfold secure_refusal in Hr. repeat case_match; congruence. }
    split_and!; [|done|done]. split; [done|]. intros [Ha _]. by apply Haut in Ha.
  - destruct (accept_cases (state self) e now) as [(o & Hs & Ho & ->)|[Hs ->]].
    + split_and!; [split; [done|]|done|by destruct self]. intros [_ Hf]. apply refusal_none_iff in Hf. congruence.
    + split_and!; [|done|done]. split; [|done]. intros _. split; [by apply Haut|by apply refusal_none_iff].
Qed.

(** ** Delivery *)

Lemma is_compatible_with_itself : is_compatible_with WIRE_VERSION WIRE_VERSION = true.
Proof. done. Qed.

Lemma local_payload_is_remote p : validate_local_payload p = Ok tt -> validate_remote_payload p WIRE_VERSION = Ok tt.
Proof.
  unfold validate_local_payload, validate_remote_payload. destruct (validate_stance p); [|done].
  by destruct (has_reserved_bits p).
Qed.

(** The JSON of an envelope is read back. *)
Definition json_faithful (e : Envelope) : Prop :=
  parse_version_header (json_envelope e) = Some (env_wire_version e) /\ parse_envelope (json_envelope e) = Some e.

(** What a member signs is delivered. Whatever payload the session [a] signs and
    encodes within a datagram decodes to the same envelope at [b], and when it comes
    from the roster's endpoint of its sender it passes every check of identity there:
    only the rules of the session state decide about it. *)
Theorem signed_datagram_delivered `{!CryptoSound} a b tick p key e bytes source current now entry :
  manifest a = manifest b -> secure_roster_hash a = secure_roster_hash b ->
  lobby_id (state a) = manifest_lobby_id (manifest a) ->
  (secure_envelope a tick p key).2 = Ok e -> PeerSession.encode e = Ok bytes -> json_faithful e ->
  find_entry (manifest b) (local_player (state a)) = Some entry ->
  source = mkSocketAddr (tailnet_address entry) (application_port entry) ->
  current = None \/ current = node_key entry ->
  PeerSession.decode bytes = Ok e /\
  accept_with_source b e source current now =
    (b <| state := (accept (state b) e now).1 |>, (accept (state b) e now).2).
Proof.
  intros Hm Hh Hlobby Hsign Henc [Hver Hparse] Hentry -> Hcur.
  unfold secure_envelope in Hsign. destruct (may_not_send _ _ _); [done|]. cbn [next_envelope snd] in Hsign.
  unfold sign_envelope in Hsign. simpl in Hsign. rewrite Hm, Hentry in Hsign.
  destruct (bool_decide_reflect (key_bytes (session_public_key entry) = verifying_key key)) as [Hkey|]; [|done].
  simpl in Hsign. injection Hsign as <-. split.
  - unfold PeerSession.encode in Henc. destruct (validate_local_payload _) as [[]|] eqn:Hloc; [|done]. simpl in Hloc.
    destruct (_ >? _) eqn:Hlen in Henc; [done|]. injection Henc as <-.
    unfold PeerSession.decode. rewrite Hlen, Hver. simpl (env_wire_version _). rewrite is_compatible_with_itself, Hparse. simpl.
    unfold rebind_legacy. simpl. by rewrite local_payload_is_remote.
  - unfold accept_with_source. rewrite (proj2 (secure_refusal_none_iff _ _ _ _)); [by destruct (accept _ _ _)|].
    eexists _, entry. simpl. split_and!; try done.
    + intros c k Hc Hk. destruct Hcur as [-> | ->]; congruence.
    + by rewrite Hlobby, Hm.
    + rewrite Hkey. apply verifying_key_valid.
    + rewrite Hkey. rewrite envelope_digest_signs, Hh. unfold signed_bytes. simpl. apply signature_verifies.
Qed.
End secure.

(** ** Witnesses *)

Import PeerDemo.
Module SecureDemo.
Definition address (n : Z) : IpAddr := V4 [100; 64; 0; n].
Definition entry (n : Z) : RosterManifestEntry :=
  mkRosterManifestEntry (PeerDemo.player n) (mkSessionPublicKey (repeat n 32)) (address n) 41641 None.
Definition roster : RosterManifest := mkRosterManifest PeerDemo.lobby 4 1 9 [entry 1; entry 2; entry 3].
Definition secure (s : SessionState) : SecureSession := mkSecureSession roster (roster_hash roster) s.
(** Player 1, the authority, and its heartbeat, signed with its key. *)
Definition sender_session : SecureSession := secure (session_new PeerDemo.lobby (PeerDemo.player 1) (PeerDemo.player 1) 0).
Definition signed_heartbeat : Envelope :=
  match (secure_envelope sender_session 60 Heartbeat 1).2 with Ok e => e | Err _ => PeerDemo.heartbeat end.
#[export] Instance signed_json : PeerJson := {
  json_checkpoint := fun c => [source_epoch c; checkpoint_tick c];
  json_envelope := fun e => [123; env_sequence e; 125];
  parse_version_header := fun bytes => if bool_decide (bytes = [123; 1; 125]) then Some WIRE_VERSION else None;
  parse_envelope := fun bytes => if bool_decide (bytes = [123; 1; 125]) then Some signed_heartbeat else None;
}.
Definition from_player (n : Z) : SocketAddr := mkSocketAddr (address n) 41641.
End SecureDemo.
Import SecureDemo.

Lemma signature_binds_envelope_witness :
  let probe := fun nonce => mkEnvelope WIRE_VERSION PeerDemo.lobby (PeerDemo.player 1) 1 1 60 (Probe nonce true) None in
  let hash := mkRosterHash (repeat 7 32) in
  signed_bytes (probe 5) 4 1 hash <> signed_bytes (probe 6) 4 1 hash.
Proof.
  intros probe hash Heq.
  assert (Hid : forall i, in_uint 8 i -> id_ok (demo_session_player i)) by (intros i Hi; apply (demo_entry_ok i Hi)).
  assert (Hok : forall n, in_uint 64 n -> envelope_ok (probe n)).
  { intros n Hn. split_and!; try (by split); try (by apply Hid); done. }
  apply signature_binds_envelope in Heq as [Heq _]; try done; apply Hok; done.
Defined.

Lemma secure_accepts_iff_authentic_witness :
  authentic (secure (PeerDemo.view 2)) signed_heartbeat (from_player 1) None /\
  ~ authentic (secure (PeerDemo.view 2)) signed_heartbeat (from_player 3) None.
Proof.
  pose proof (secure_accepts_iff_authentic (secure (PeerDemo.view 2)) signed_heartbeat (from_player 1) None 100) as Hyes.
  pose proof (secure_accepts_iff_authentic (secure (PeerDemo.view 2)) signed_heartbeat (from_player 3) None 100) as Hno.
  assert (Ho : (accept_with_source (secure (PeerDemo.view 2)) signed_heartbeat (from_player 1) None 100).2 = Accepted)
    by (vm_compute; reflexivity).
  destruct (accept_with_source _ _ (from_player 1) _ _) as [s1 o1]. simpl in Ho. subst o1.
  destruct Hyes as [[Hyes _] _]. destruct (Hyes eq_refl) as [Ha Hf]. split; [exact Ha|].
  assert (Hr : (accept_with_source (secure (PeerDemo.view 2)) signed_heartbeat (from_player 3) None 100).2 = EndpointMismatch)
    by (vm_compute; reflexivity).
  destruct (accept_with_source _ _ (from_player 3) _ _) as [s3 o3]. simpl in Hr. subst o3.
  destruct Hno as [[_ Hno] _]. intros Hthird. by specialize (Hno (conj Hthird Hf)).
Defined.

Lemma signed_datagram_delivered_witness :
  PeerSession.decode [123; 1; 125] = Ok signed_heartbeat /\
  (accept_with_source (secure (PeerDemo.view 2)) signed_heartbeat (from_player 1) None 100).2 = Accepted.
Proof.
  destruct (@signed_datagram_delivered demo_crypto signed_json demo_crypto_sound sender_session (secure (PeerDemo.view 2)) 60 Heartbeat 1 signed_heartbeat [123; 1; 125]
    (from_player 1) None 100 (entry 1)) as [Hd Ha].
  - reflexivity.
  - reflexivity.
  - reflexivity.
  - vm_compute. reflexivity.
  - vm_compute. reflexivity.
  - split; vm_compute; reflexivity.
  - vm_compute. reflexivity.
  - reflexivity.
  - by left.
  - split; [exact Hd|]. rewrite Ha. vm_compute. reflexivity.
Defined.
