(* ===== verification/DiveVectors.v ===== *)
(** * Integer planar vectors of the saddle dive ([saddle_dive.rs])

    Rounded magnitudes, normalization to millionths, the CORDIC rotation and
    arctangent, the launch cone, the landing slope, and the clamp of a step. *)

From S2P Require Import Prelude MachineInt Ordered Clock Combat DiveMath.
Open Scope Z_scope.

Definition HORIZONTAL_LAUNCH_IMPULSE_MMPS : Z := 6000.
Definition NANODEGREES_PER_MILLIDEGREE : Z := 1000000.
Definition NANODEGREES_180 : Z := 180000000000.
Definition CORDIC_SCALE : Z := 1000000000000.
Definition CORDIC_GAIN_INVERSE : Z := 607252935009.
Definition NORMALIZED_LOWER_UNITS : Z := 999000.
Definition NORMALIZED_UPPER_UNITS : Z := 1001000.
Definition CORDIC_ANGLES_NANODEGREES : list Z :=
  [45000000000; 26565051177; 14036243468; 7125016349; 3576334375; 1789910608; 895173710;
   447614171; 223810500; 111905677; 55952892; 27976453; 13988227; 6994114; 3497057; 1748528;
   874264; 437132; 218566; 109283; 54642; 27321; 13660; 6830; 3415; 1708; 854; 427; 213; 107;
   53; 27; 13; 7; 3; 2; 1].

(** [[i32; 3]]; a planar vector is a pair. *)
Record Velocity := mkVelocity { vel_x : Z; vel_y : Z; vel_z : Z }.
#[export] Instance Velocity_eq_dec : EqDecision Velocity.
Proof. solve_decision. Defined.
Definition velocity_zero : Velocity := mkVelocity 0 0 0.
Definition origin_default : QuantizedOrigin := mkQuantizedOrigin 0 0 0.

(** ** Magnitudes *)

Definition planar_speed_squared (v : Velocity) : Z := vel_x v * vel_x v + vel_z v * vel_z v.

Definition planar_distance_squared (first second : QuantizedOrigin) : Z :=
  let x := origin_x first - origin_x second in
  let z := origin_z first - origin_z second in
  x * x + z * z.

Definition rounded_magnitude_2d (value : Z * Z) : Z :=
  rounded_sqrt (value.1 * value.1 + value.2 * value.2).
Definition rounded_planar_magnitude (v : Velocity) : Z := rounded_magnitude_2d (vel_x v, vel_z v).
Definition rounded_magnitude_3d (v : Velocity) : Z :=
  rounded_sqrt (vel_x v * vel_x v + vel_y v * vel_y v + vel_z v * vel_z v).
Definition rounded_planar_distance (first second : QuantizedOrigin) : Z :=
  rounded_sqrt (planar_distance_squared first second).

Definition scale_ratio_symmetric (value numerator denominator : Z) : Z :=
  if denominator =? 0 then 0
  else saturating_i128_to_i32 (div_round_half_away (value * numerator) denominator).

Definition clamp_velocity_to_step (target : Z * Z) (maximum_step_mm tick_rate : Z) : Z * Z :=
  let magnitude := rounded_magnitude_2d target in
  if (magnitude =? 0) || (maximum_step_mm =? 0) then (0, 0)
  else
    let maximum_velocity := saturating_mul 64 maximum_step_mm tick_rate in
    if magnitude <=? maximum_velocity then target
    else
      (saturating_i128_to_i32 (div_round_half_away (target.1 * maximum_velocity) magnitude),
       saturating_i128_to_i32 (div_round_half_away (target.2 * maximum_velocity) magnitude)).

(** ** Directions *)

Definition direction_is_normalized_integer (d : QuantizedDirection) : bool :=
  let squared := dir_x d * dir_x d + dir_y d * dir_y d + dir_z d * dir_z d in
  (NORMALIZED_LOWER_UNITS * NORMALIZED_LOWER_UNITS <=? squared)
  && (squared <=? NORMALIZED_UPPER_UNITS * NORMALIZED_UPPER_UNITS).

(** [i128] multiplication and addition of two squares. *)
Definition checked_i128 (n : Z) : option Z := try_from_int 128 n.

Definition normalize_planar (value : Z * Z) : option (Z * Z) :=
  xx ← checked_i128 (value.1 * value.1);
  zz ← checked_i128 (value.2 * value.2);
  squared ← checked_i128 (xx + zz);
  if squared =? 0 then None
  else
    let length := Z.max (Z.sqrt squared) 1 in
    Some (saturating_i128_to_i32 (div_round_half_away (value.1 * DIRECTION_UNITS) length),
          saturating_i128_to_i32 (div_round_half_away (value.2 * DIRECTION_UNITS) length)).

(** One round of the rotation: the vector follows the sign of the angle left. *)
Fixpoint cordic_rotate (steps : list Z) (shift : Z) (x y angle : Z) : Z * Z :=
  match steps with
  | [] => (x, y)
  | step :: steps =>
      if angle >? 0 then
        cordic_rotate steps (shift + 1) (x - Z.shiftr y shift) (y + Z.shiftr x shift) (angle - step)
      else if angle <? 0 then
        cordic_rotate steps (shift + 1) (x + Z.shiftr y shift) (y - Z.shiftr x shift) (angle + step)
      else cordic_rotate steps (shift + 1) x y angle
  end.

(** [rem_euclid], then to the half turn, then to the right half plane. *)
Definition reduce_angle (angle_millidegrees : Z) : Z * bool :=
  let reduced := angle_millidegrees mod 360000 in
  let reduced := if reduced >? 180000 then reduced - 360000 else reduced in
  if reduced >? 90000 then (reduced - 180000, true)
  else if reduced <? -90000 then (reduced + 180000, true)
  else (reduced, false).

Definition cordic_sin_cos (angle_millidegrees : Z) : Z * Z :=
  let '(reduced, negate) := reduce_angle angle_millidegrees in
  let '(x, y) := cordic_rotate CORDIC_ANGLES_NANODEGREES 0 CORDIC_GAIN_INVERSE 0
                   (reduced * NANODEGREES_PER_MILLIDEGREE) in
  if negate then (- x, - y) else (x, y).

(** [i64] addition at the type's limits. *)
Definition i64_saturating_add (a b : Z) : Z := Z.max (- 2 ^ 63) (Z.min (2 ^ 63 - 1) (a + b)).

Fixpoint cordic_vector (steps : list Z) (shift : Z) (x y angle : Z) : Z :=
  match steps with
  | [] => angle
  | step :: steps =>
      if y >? 0 then
        cordic_vector steps (shift + 1) (x + Z.shiftr y shift) (y - Z.shiftr x shift)
          (i64_saturating_add angle step)
      else if y <? 0 then
        cordic_vector steps (shift + 1) (x - Z.shiftr y shift) (y + Z.shiftr x shift)
          (i64_saturating_add angle (- step))
      else cordic_vector steps (shift + 1) x y angle
  end.

Definition atan2_millidegrees (y x : Z) : Z :=
  if (x =? 0) && (y =? 0) then 0
  else
    let '(x, y, angle) :=
      if x <? 0 then (- x, - y, if 0 <=? y then NANODEGREES_180 else - NANODEGREES_180)
      else (x, y, 0) in
    saturating_i128_to_i32
      (div_round_half_away (cordic_vector CORDIC_ANGLES_NANODEGREES 0 x y angle)
         NANODEGREES_PER_MILLIDEGREE).

Definition rotate_planar (base : Z * Z) (angle_millidegrees : Z) : Z * Z :=
  if angle_millidegrees mod 360000 =? 0 then base
  else
    let '(cosine, sine) := cordic_sin_cos angle_millidegrees in
    let x := div_round_half_away (base.1 * cosine + base.2 * sine) CORDIC_SCALE in
    let z := div_round_half_away (- base.1 * sine + base.2 * cosine) CORDIC_SCALE in
    default base (normalize_planar (x, z)).

(** ** The launch cone and the landing slope *)

Record LaunchDirection := mkLaunchDirection {
  requested_direction : QuantizedDirection;
  requested_angle_millidegrees : Z;
  clamped_direction : QuantizedDirection;
  clamped_angle_millidegrees : Z;
  direction_was_clamped : bool;
}.

Definition clamp_launch_direction (horse_velocity : Velocity)
    (chosen_direction : option QuantizedDirection) : LaunchDirection :=
  let base := default (0, - DIRECTION_UNITS) (normalize_planar (vel_x horse_velocity, vel_z horse_velocity)) in
  let requested :=
    default base
      (chosen ← chosen_direction;
       if direction_is_normalized_integer chosen then normalize_planar (dir_x chosen, dir_z chosen)
       else None) in
  let dot := base.1 * requested.1 + base.2 * requested.2 in
  let cross_y := base.2 * requested.1 - base.1 * requested.2 in
  let requested_angle := atan2_millidegrees cross_y dot in
  let clamped_angle :=
    Z.max (- LAUNCH_CONE_HALF_ANGLE_MILLIDEGREES)
          (Z.min LAUNCH_CONE_HALF_ANGLE_MILLIDEGREES requested_angle) in
  let clamped := rotate_planar base clamped_angle in
  mkLaunchDirection (mkQuantizedDirection requested.1 0 requested.2) requested_angle
    (mkQuantizedDirection clamped.1 0 clamped.2) clamped_angle
    (negb (requested_angle =? clamped_angle)).

Definition landing_slope_millidegrees (normal : QuantizedDirection) : option Z :=
  if (dir_y normal <=? 0) || negb (direction_is_normalized_integer normal) then None
  else
    let horizontal_squared := dir_x normal * dir_x normal + dir_z normal * dir_z normal in
    horizontal ← try_from_int 128 (Z.sqrt horizontal_squared);
    try_from_uint 32 (atan2_millidegrees horizontal (dir_y normal)).

(** ** The clamp of a step *)

Definition step_towards (origin requested : QuantizedOrigin) (distance scaled_step : Z)
    : QuantizedOrigin :=
  let dx := origin_x requested - origin_x origin in
  let dz := origin_z requested - origin_z origin in
  mkQuantizedOrigin
    (i32_clamp (origin_x origin + saturating_i128_to_i32 (div_round_half_away (dx * scaled_step) distance)))
    (origin_y requested)
    (i32_clamp (origin_z origin + saturating_i128_to_i32 (div_round_half_away (dz * scaled_step) distance))).

(** [None] when the fuel does not suffice. *)
Fixpoint shrink_step (fuel : nat) (origin requested : QuantizedOrigin)
    (distance maximum_step_mm scaled_step : Z) : option QuantizedOrigin :=
  match fuel with
  | O => None
  | S fuel =>
      let clamped := step_towards origin requested distance scaled_step in
      if (rounded_planar_distance origin clamped <=? maximum_step_mm) || (scaled_step =? 0)
      then Some clamped
      else shrink_step fuel origin requested distance maximum_step_mm (scaled_step - 1)
  end.

Definition clamp_origin_to_planar_step (origin requested : QuantizedOrigin) (maximum_step_mm : Z)
    : option QuantizedOrigin :=
  let distance := rounded_planar_distance origin requested in
  if distance <=? maximum_step_mm then Some requested
  else if maximum_step_mm =? 0 then
    Some (mkQuantizedOrigin (origin_x origin) (origin_y requested) (origin_z origin))
  else shrink_step (S (Z.to_nat maximum_step_mm)) origin requested distance maximum_step_mm maximum_step_mm.

(** ** The clamp always yields an admissible step *)

Definition origin_typed (o : QuantizedOrigin) : Prop := i32 (origin_x o) /\ i32 (origin_y o) /\ i32 (origin_z o).

Lemma i32_clamp_range n : i32 (i32_clamp n).
Proof. unfold i32_clamp. int_lia. Qed.
Lemma i32_clamp_id n : i32 n -> i32_clamp n = n.
Proof. unfold i32_clamp. int_lia. Qed.

Lemma step_towards_typed o r d s : origin_typed r -> origin_typed (step_towards o r d s).
Proof. intros (_ & Hy & _). split_and!; [apply i32_clamp_range|exact Hy|apply i32_clamp_range]. Qed.

Lemma step_towards_zero o r d :
  origin_typed o -> 0 < d -> rounded_planar_distance o (step_towards o r d 0) = 0.
Proof.
  intros (Hx & _ & Hz) Hd. unfold step_towards. rewrite !Z.mul_0_r.
  assert (Hzero : saturating_i128_to_i32 (div_round_half_away 0 d) = 0).
  { unfold div_round_half_away. cbn [Z.leb Z.compare]. rewrite Z.add_0_l, Z.div_small by div_lia. done. }
  rewrite !Hzero, !Z.add_0_r, !i32_clamp_id by done.
  unfold rounded_planar_distance, planar_distance_squared. cbn [origin_x origin_z].
  rewrite !Z.sub_diag. done.
Qed.

Lemma shrink_step_spec o r d m : forall fuel s,
  origin_typed o -> origin_typed r -> 0 < d -> 0 <= m -> 0 <= s < Z.of_nat fuel ->
  exists p, shrink_step fuel o r d m s = Some p /\ origin_typed p /\
    rounded_planar_distance o p <= m /\ origin_y p = origin_y r.
Proof.
  induction fuel as [|fuel IH]; intros s Ho Hr Hd Hm Hs; [lia|]. cbn [shrink_step].
  pose proof (step_towards_typed o r d s Hr) as Ht.
  destruct (Z.leb_spec (rounded_planar_distance o (step_towards o r d s)) m); cbn [orb].
  { exists (step_towards o r d s). by split_and!. }
  destruct (Z.eqb_spec s 0) as [->|Hne]; [|by apply IH; try lia].
  eexists. split; [done|]. split; [done|]. rewrite step_towards_zero by done. by split.
Qed.

(** The loop ends within one round per millimetre of the step, and what it yields
    is within the step. *)
Lemma clamp_origin_spec o r m :
  origin_typed o -> origin_typed r -> 0 <= m ->
  exists p, clamp_origin_to_planar_step o r m = Some p /\ origin_typed p /\
    rounded_planar_distance o p <= m /\ origin_y p = origin_y r /\
    (rounded_planar_distance o r <= m -> p = r).
Proof.
  intros Ho Hr Hm. unfold clamp_origin_to_planar_step.
  destruct (Z.leb_spec (rounded_planar_distance o r) m).
  { exists r. by split_and!. }
  destruct (Z.eqb_spec m 0) as [->|Hne].
  - eexists. split; [done|]. destruct Ho as (Hx & _ & Hz), Hr as (_ & Hy & _).
    split; [by split_and!|]. split; [|split; [done|intros; lia]].
    unfold rounded_planar_distance, planar_distance_squared. cbn [origin_x origin_z origin_y].
    by rewrite !Z.sub_diag.
  - destruct (shrink_step_spec o r (rounded_planar_distance o r) m (S (Z.to_nat m)) m)
      as (p & Hp & Ht & Hd & Hy); try done; [lia|lia|].
    exists p. split_and!; try done. lia.
Qed.

(** ** Normalization gives unit directions *)

Lemma round_error n d : 0 < d -> exists e, div_round_half_away n d * d = n + e /\ 2 * Z.abs e <= d.
Proof.
  intros Hd. pose proof (div_round_half_away_spec n d Hd).
  exists (div_round_half_away n d * d - n). lia.
Qed.

Lemma checked_i128_Some n : Z.abs n < 2 ^ 100 -> checked_i128 n = Some n.
Proof. intros Hn. apply try_from_int_Some. unfold in_sint. int_lia. Qed.

(** The integer root of a sum of two squares. *)
Lemma hypot_sqrt a b :
  let l := Z.sqrt (a * a + b * b) in
  0 <= l /\ l * l <= a * a + b * b <= l * l + 2 * l.
Proof.
  intros l. pose proof (Z.sqrt_spec (a * a + b * b) ltac:(nia)). pose proof (Z.sqrt_nonneg (a * a + b * b)).
  unfold l in *. lia.
Qed.

Lemma abs_mul_le a b c d : Z.abs a <= c -> Z.abs b <= d -> Z.abs (a * b) <= c * d.
Proof. intros. rewrite Z.abs_mul. apply Z.mul_le_mono_nonneg; lia. Qed.

(** [n] is the vector [(a, b)] scaled to a million, up to the roundings. *)
Definition scaled_to_unit (a b l : Z) (n : Z * Z) : Prop :=
  exists e1 e2, n.1 * l = a * DIRECTION_UNITS + e1 /\ n.2 * l = b * DIRECTION_UNITS + e2 /\
    2 * Z.abs e1 <= l /\ 2 * Z.abs e2 <= l.

Lemma scaled_component a l : 1 <= l -> Z.abs a <= l + 1 ->
  saturating_i128_to_i32 (div_round_half_away (a * DIRECTION_UNITS) l)
    = div_round_half_away (a * DIRECTION_UNITS) l.
Proof.
  intros Hl Ha. destruct (round_error (a * DIRECTION_UNITS) l ltac:(lia)) as (e & He & Hb).
  apply i32_clamp_id. unfold DIRECTION_UNITS in *. set (n := div_round_half_away _ _) in *. clearbody n.
  assert (Z.abs n <= 2000001) by nia. unfold in_sint. change (2 ^ (32 - 1)) with 2147483648. lia.
Qed.

Lemma normalize_planar_spec a b :
  (a, b) <> (0, 0) -> Z.abs a < 2 ^ 48 -> Z.abs b < 2 ^ 48 ->
  exists n, normalize_planar (a, b) = Some n /\
    scaled_to_unit a b (Z.max (Z.sqrt (a * a + b * b)) 1) n.
Proof.
  intros Hne Ha Hb. unfold normalize_planar. cbn [fst snd].
  change (2 ^ 48) with 281474976710656 in *.
  rewrite !checked_i128_Some by (change (2 ^ 100) with 1267650600228229401496703205376; nia).
  cbn [mbind option_bind].
  rewrite checked_i128_Some by (change (2 ^ 100) with 1267650600228229401496703205376; nia).
  cbn [mbind option_bind].
  assert (Hpos : 0 < a * a + b * b).
  { assert (a <> 0 \/ b <> 0) by (destruct (decide (a = 0)), (decide (b = 0)); subst; auto). nia. }
  destruct (Z.eqb_spec (a * a + b * b) 0); [lia|].
  destruct (hypot_sqrt a b) as (Hl0 & Hl1 & Hl2).
  set (l := Z.max (Z.sqrt (a * a + b * b)) 1).
  assert (Hl : 1 <= l /\ Z.abs a <= l + 1 /\ Z.abs b <= l + 1) by (unfold l; nia).
  destruct Hl as (Hl & Hal & Hbl). rewrite !scaled_component by done.
  eexists. split; [reflexivity|].
  destruct (round_error (a * DIRECTION_UNITS) l ltac:(lia)) as (e1 & He1 & Hb1).
  destruct (round_error (b * DIRECTION_UNITS) l ltac:(lia)) as (e2 & He2 & Hb2).
  by exists e1, e2.
Qed.

(** Long enough vectors become unit vectors within the tolerance of a part in a
    thousand. *)
Lemma scaled_unit_norm a b l n :
  2000 <= l -> l * l <= a * a + b * b <= l * l + 2 * l -> scaled_to_unit a b l n ->
  NORMALIZED_LOWER_UNITS * NORMALIZED_LOWER_UNITS <= n.1 * n.1 + n.2 * n.2
    <= NORMALIZED_UPPER_UNITS * NORMALIZED_UPPER_UNITS.
Proof.
  intros Hl HN (e1 & e2 & H1 & H2 & He1 & He2). destruct n as [x y]. cbn [fst snd] in *.
  unfold NORMALIZED_LOWER_UNITS, NORMALIZED_UPPER_UNITS, DIRECTION_UNITS in *.
  assert (Hab : Z.abs a <= l + 1 /\ Z.abs b <= l + 1) by nia. destruct Hab as [Ha Hb].
  assert (Heq : (x * x + y * y) * (l * l) =
    1000000000000 * (a * a + b * b) + 2000000 * (a * e1 + b * e2) + (e1 * e1 + e2 * e2)).
  { replace ((x * x + y * y) * (l * l)) with (x * l * (x * l) + y * l * (y * l)) by ring.
    rewrite H1, H2. ring. }
  assert (Hc1 : Z.abs (a * e1) <= (l + 1) * l) by (apply abs_mul_le; lia).
  assert (Hc2 : Z.abs (b * e2) <= (l + 1) * l) by (apply abs_mul_le; lia).
  assert (Hs : 0 <= e1 * e1 + e2 * e2 <= l * l).
  { pose proof (abs_mul_le (2 * e1) (2 * e1) l l ltac:(lia) ltac:(lia)).
    pose proof (abs_mul_le (2 * e2) (2 * e2) l l ltac:(lia) ltac:(lia)).
    pose proof (Z.square_nonneg e1). pose proof (Z.square_nonneg e2). lia. }
  set (N := x * x + y * y) in *. set (S := a * a + b * b) in *. clearbody N S.
  set (c1 := a * e1) in *. set (c2 := b * e2) in *. set (s := e1 * e1 + e2 * e2) in *.
  clearbody c1 c2 s.
  assert (Hq : 2000 * l <= l * l) by (apply Z.mul_le_mono_nonneg_r; lia).
  replace ((l + 1) * l) with (l * l + l) in * by ring.
  set (q := l * l) in *. clearbody q. clear H1 H2 He1 He2 Ha Hb.
  split; apply (Z.mul_le_mono_pos_r _ _ q); lia.
Qed.

(** ** The rotation keeps the cone in front *)

(** What the rounds left may still take off the first component, and how far the
    sum of both magnitudes may grow. *)
Fixpoint cordic_slack (steps : list Z) (shift size : Z) : Z * Z :=
  match steps with
  | [] => (0, size)
  | _ :: steps =>
      let step := size / 2 ^ shift + 1 in
      let '(loss, size') := cordic_slack steps (shift + 1) (size + 2 * step) in (step + loss, size')
  end.

Lemma shiftr_bound v shift size :
  0 <= shift -> Z.abs v <= size -> Z.abs (Z.shiftr v shift) <= size / 2 ^ shift + 1.
Proof.
  intros Hs Hv. rewrite Z.shiftr_div_pow2 by done.
  assert (Hp : 0 < 2 ^ shift) by (apply Z.pow_pos_nonneg; lia).
  pose proof (Z.div_le_mono v size (2 ^ shift) Hp ltac:(lia)).
  pose proof (Z.div_le_mono (- size) v (2 ^ shift) Hp ltac:(lia)).
  pose proof (Z.div_mod size (2 ^ shift) ltac:(lia)). pose proof (Z.mod_pos_bound size _ Hp).
  pose proof (Z.div_mod (- size) (2 ^ shift) ltac:(lia)). pose proof (Z.mod_pos_bound (- size) _ Hp).
  assert (- size / 2 ^ shift >= - (size / 2 ^ shift) - 1) by nia. lia.
Qed.

Lemma cordic_slack_spec steps : forall shift x y angle size,
  0 <= shift -> Z.abs x + Z.abs y <= size ->
  let '(loss, size') := cordic_slack steps shift size in
  let '(x', y') := cordic_rotate steps shift x y angle in
  0 <= loss /\ size <= size' /\ x - loss <= x' /\ Z.abs x' + Z.abs y' <= size'.
Proof.
  induction steps as [|step steps IH]; intros shift x y angle size Hs Hsize; cbn [cordic_slack cordic_rotate].
  { lia. }
  pose proof (shiftr_bound x shift size Hs ltac:(lia)) as Hx.
  pose proof (shiftr_bound y shift size Hs ltac:(lia)) as Hy.
  assert (Hp : 0 < 2 ^ shift) by (apply Z.pow_pos_nonneg; lia).
  assert (Hd : 0 <= size / 2 ^ shift) by (apply Z.div_pos; lia).
  set (d := size / 2 ^ shift + 1) in *.
  assert (Hstep : forall x1 y1 a1, x - d <= x1 -> Z.abs x1 + Z.abs y1 <= size + 2 * d ->
    let '(loss, size') := let '(loss, size') := cordic_slack steps (shift + 1) (size + 2 * d) in (d + loss, size') in
    let '(x', y') := cordic_rotate steps (shift + 1) x1 y1 a1 in
    0 <= loss /\ size <= size' /\ x - loss <= x' /\ Z.abs x' + Z.abs y' <= size').
  { intros x1 y1 a1 Hx1 Hs1. specialize (IH (shift + 1) x1 y1 a1 (size + 2 * d) ltac:(lia) Hs1).
    destruct (cordic_slack steps _ _) as [loss size'], (cordic_rotate steps _ _ _ _) as [x' y']. lia. }
  destruct (angle >? 0); [apply Hstep; lia|]. destruct (angle <? 0); apply Hstep; lia.
Qed.

(** Every sequence of turns some angle of the interval takes ends with the first
    component at least [m]; explored for [depth] rounds, the rest by the slack. *)
Fixpoint cordic_check (depth : nat) (steps : list Z) (shift x y lo hi m : Z) : bool :=
  match depth, steps with
  | S depth, step :: steps =>
      (if 0 <? hi then
         cordic_check depth steps (shift + 1) (x - Z.shiftr y shift) (y + Z.shiftr x shift)
           (Z.max lo 1 - step) (hi - step) m
       else true)
      && (if lo <? 0 then
            cordic_check depth steps (shift + 1) (x + Z.shiftr y shift) (y - Z.shiftr x shift)
              (lo + step) (Z.min hi (-1) + step) m
          else true)
      && (if (lo <=? 0) && (0 <=? hi) then m <=? x else true)
  | _, _ => m <=? x - (cordic_slack steps shift (Z.abs x + Z.abs y)).1
  end.

Lemma cordic_rotate_still steps : forall shift x y, cordic_rotate steps shift x y 0 = (x, y).
Proof. induction steps as [|step steps IH]; intros; cbn; [done|]. apply IH. Qed.

Lemma cordic_check_sound depth : forall steps shift x y lo hi m angle,
  0 <= shift -> cordic_check depth steps shift x y lo hi m = true -> lo <= angle <= hi ->
  m <= (cordic_rotate steps shift x y angle).1.
Proof.
  induction depth as [|depth IH]; intros steps shift x y lo hi m angle Hs Hc Ha.
  - cbn [cordic_check] in Hc. apply Z.leb_le in Hc.
    pose proof (cordic_slack_spec steps shift x y angle _ Hs (Z.le_refl _)) as Hb.
    destruct (cordic_slack _ _ _), (cordic_rotate _ _ _ _ _). simpl in *. lia.
  - destruct steps as [|step steps].
    { cbn [cordic_check cordic_slack] in Hc. apply Z.leb_le in Hc. simpl in *. lia. }
    cbn [cordic_check] in Hc. rewrite !andb_true_iff in Hc. destruct Hc as [[H1 H2] H3].
    cbn [cordic_rotate]. destruct (Z.gtb_spec angle 0) as [Hg|Hg].
    + rewrite (proj2 (Z.ltb_lt 0 hi)) in H1 by lia. eapply IH; [lia|exact H1|lia].
    + destruct (Z.ltb_spec angle 0) as [Hl|Hl].
      * rewrite (proj2 (Z.ltb_lt lo 0)) in H2 by lia. eapply IH; [lia|exact H2|lia].
      * assert (angle = 0) as -> by lia. rewrite cordic_rotate_still. cbn [fst].
        destruct (Z.leb_spec lo 0), (Z.leb_spec 0 hi); simpl in H3; lia.
Qed.

(** Within the launch cone the cosine stays above a tenth. *)
Lemma launch_cone_cosine a :
  - LAUNCH_CONE_HALF_ANGLE_MILLIDEGREES <= a <= LAUNCH_CONE_HALF_ANGLE_MILLIDEGREES ->
  let '(c, s) := cordic_sin_cos a in
  CORDIC_SCALE <= 10 * c /\ Z.abs c + Z.abs s <= 10 * CORDIC_SCALE.
Proof.
  unfold LAUNCH_CONE_HALF_ANGLE_MILLIDEGREES. intros Ha. unfold cordic_sin_cos.
  assert (Hred : reduce_angle a = (a, false)).
  { unfold reduce_angle. destruct (Z.le_gt_cases 0 a).
    - rewrite Z.mod_small by lia. destruct (Z.gtb_spec a 180000); [lia|].
      destruct (Z.gtb_spec a 90000); [lia|]. destruct (Z.ltb_spec a (-90000)); [lia|done].
    - replace (a mod 360000) with (a + 360000).
      2:{ rewrite <- (Z_mod_plus_full a 1 360000), Z.mul_1_l. symmetry. apply Z.mod_small. lia. }
      destruct (Z.gtb_spec (a + 360000) 180000); [|lia]. replace (a + 360000 - 360000) with a by ring.
      destruct (Z.gtb_spec a 90000); [lia|]. destruct (Z.ltb_spec a (-90000)); [lia|done]. }
  rewrite Hred.
  assert (Hcheck : cordic_check 7 CORDIC_ANGLES_NANODEGREES 0 CORDIC_GAIN_INVERSE 0
    (-75000000000) 75000000000 100000000000 = true) by (vm_compute; reflexivity).
  pose proof (cordic_check_sound 7 CORDIC_ANGLES_NANODEGREES 0 CORDIC_GAIN_INVERSE 0 _ _ _
    (a * NANODEGREES_PER_MILLIDEGREE) ltac:(lia) Hcheck ltac:(unfold NANODEGREES_PER_MILLIDEGREE; lia)) as Hc.
  pose proof (cordic_slack_spec CORDIC_ANGLES_NANODEGREES 0 CORDIC_GAIN_INVERSE 0
    (a * NANODEGREES_PER_MILLIDEGREE) CORDIC_GAIN_INVERSE ltac:(lia) ltac:(unfold CORDIC_GAIN_INVERSE; lia)) as Hb.
  assert (Hsl : (cordic_slack CORDIC_ANGLES_NANODEGREES 0 CORDIC_GAIN_INVERSE).2 <= 10 * CORDIC_SCALE)
    by (apply Z.leb_le; vm_compute; reflexivity).
  destruct (cordic_slack _ _ _) as [loss size], (cordic_rotate _ _ _ _ _) as [c s].
  cbn [fst snd] in *. unfold CORDIC_SCALE in *. lia.
Qed.

(** ** Launching *)

Definition unit_tolerance (n : Z * Z) : Prop :=
  NORMALIZED_LOWER_UNITS * NORMALIZED_LOWER_UNITS <= n.1 * n.1 + n.2 * n.2
    <= NORMALIZED_UPPER_UNITS * NORMALIZED_UPPER_UNITS.

Lemma unit_components n : unit_tolerance n -> Z.abs n.1 <= 1001000 /\ Z.abs n.2 <= 1001000.
Proof. unfold unit_tolerance, NORMALIZED_UPPER_UNITS. intros [_ H]. split; nia. Qed.

Lemma hypot_lower a b m : 0 <= m -> m * m <= a * a + b * b -> m <= Z.sqrt (a * a + b * b).
Proof. intros Hm H. rewrite <- (Z.sqrt_square m) by done. by apply Z.sqrt_le_mono. Qed.

(** A vector with a component along [b] of at least a tenth normalizes to a unit
    vector that keeps its side. *)
Lemma normalize_forward b x z :
  unit_tolerance b -> Z.abs x <= 20000000 -> Z.abs z <= 20000000 ->
  90000000000 <= b.1 * x + b.2 * z ->
  exists n, normalize_planar (x, z) = Some n /\ unit_tolerance n /\ 1000000000 <= b.1 * n.1 + b.2 * n.2.
Proof.
  intros Hb Hx Hz Hd. destruct (unit_components b Hb) as [Hb1 Hb2].
  assert (Hsum : 89000 <= Z.abs x + Z.abs z).
  { pose proof (abs_mul_le b.1 x _ _ Hb1 (Z.le_refl _)). pose proof (abs_mul_le b.2 z _ _ Hb2 (Z.le_refl _)). lia. }
  assert (Hl1 : 2000 <= Z.sqrt (x * x + z * z)).
  { apply hypot_lower; [lia|]. rewrite <- (Z.abs_square x), <- (Z.abs_square z).
    assert (2000 <= Z.abs x \/ 2000 <= Z.abs z) as [H|H] by lia; nia. }
  destruct (normalize_planar_spec x z) as (n & Hn & Hs).
  { intros [= -> ->]. simpl in Hsum. lia. }
  { change (2 ^ 48) with 281474976710656. lia. }
  { change (2 ^ 48) with 281474976710656. lia. }
  exists n. split; [done|]. destruct (hypot_sqrt x z) as (Hl0 & Hl2 & Hl3).
  rewrite Z.max_l in Hs by lia. set (l := Z.sqrt (x * x + z * z)) in *.
  split; [by apply (scaled_unit_norm x z l)|].
  assert (Hlu : l <= 40000000) by nia. clearbody l.
  destruct Hs as (f1 & f2 & H1 & H2 & He1 & He2). unfold DIRECTION_UNITS in *.
  pose proof (abs_mul_le b.1 (2 * f1) _ l Hb1 ltac:(lia)) as Hc1.
  pose proof (abs_mul_le b.2 (2 * f2) _ l Hb2 ltac:(lia)) as Hc2.
  assert (Heq : (b.1 * n.1 + b.2 * n.2) * l = 1000000 * (b.1 * x + b.2 * z) + (b.1 * f1 + b.2 * f2)).
  { replace ((b.1 * n.1 + b.2 * n.2) * l) with (b.1 * (n.1 * l) + b.2 * (n.2 * l)) by ring.
    rewrite H1, H2. ring. }
  set (D := b.1 * n.1 + b.2 * n.2) in *. clearbody D. clear H1 H2 Hl2 Hl3 Hsum.
  assert (Hlow : 1000000000 * l <= D * l) by (rewrite Heq; lia).
  apply (Z.mul_le_mono_pos_r _ _ l); lia.
Qed.

Lemma rotate_planar_forward b a :
  unit_tolerance b ->
  - LAUNCH_CONE_HALF_ANGLE_MILLIDEGREES <= a <= LAUNCH_CONE_HALF_ANGLE_MILLIDEGREES ->
  let n := rotate_planar b a in unit_tolerance n /\ 1000000000 <= b.1 * n.1 + b.2 * n.2.
Proof.
  intros Hb Ha n. unfold n, rotate_planar. destruct (unit_components b Hb) as [Hb1 Hb2].
  destruct (Z.eqb_spec (a mod 360000) 0) as [_|_].
  { split; [done|]. unfold unit_tolerance, NORMALIZED_LOWER_UNITS in Hb. lia. }
  pose proof (launch_cone_cosine a Ha) as Hcs. destruct (cordic_sin_cos a) as [c s].
  destruct Hcs as [Hc Hs]. unfold CORDIC_SCALE in *.
  destruct (round_error (b.1 * c + b.2 * s) 1000000000000 ltac:(lia)) as (e1 & He1 & Hb1').
  destruct (round_error (- b.1 * s + b.2 * c) 1000000000000 ltac:(lia)) as (e2 & He2 & Hb2').
  set (x := div_round_half_away (b.1 * c + b.2 * s) _) in *.
  set (z := div_round_half_away (- b.1 * s + b.2 * c) _) in *. clearbody x z.
  pose proof (abs_mul_le b.1 c _ _ Hb1 (Z.le_refl _)) as P1.
  pose proof (abs_mul_le b.2 s _ _ Hb2 (Z.le_refl _)) as P2.
  pose proof (abs_mul_le (- b.1) s _ _ ltac:(rewrite Z.abs_opp; exact Hb1) (Z.le_refl _)) as P3.
  pose proof (abs_mul_le b.2 c _ _ Hb2 (Z.le_refl _)) as P4.
  pose proof (abs_mul_le b.1 (2 * e1) _ _ Hb1 ltac:(rewrite Z.abs_mul; exact Hb1')) as Q1.
  pose proof (abs_mul_le b.2 (2 * e2) _ _ Hb2 ltac:(rewrite Z.abs_mul; exact Hb2')) as Q2.
  assert (HB : 998001000000 <= b.1 * b.1 + b.2 * b.2) by (apply Hb).
  assert (Heq : (b.1 * x + b.2 * z) * 1000000000000
                = c * (b.1 * b.1 + b.2 * b.2) + (b.1 * e1 + b.2 * e2)).
  { replace ((b.1 * x + b.2 * z) * 1000000000000)
      with (b.1 * (x * 1000000000000) + b.2 * (z * 1000000000000)) by ring.
    rewrite He1, He2. ring. }
  assert (Hc' : 100000000000 <= c) by (clear - Hc; lia).
  pose proof (Z.mul_le_mono_nonneg 100000000000 c 998001000000 (b.1 * b.1 + b.2 * b.2)
    ltac:(done) Hc' ltac:(done) HB) as HcB.
  assert (Hx : Z.abs x <= 20000000) by (clear - He1 Hb1' P1 P2 Hs; lia).
  assert (Hz : Z.abs z <= 20000000) by (clear - He2 Hb2' P3 P4 Hs; lia).
  destruct (normalize_forward b x z Hb Hx Hz) as (n' & Hn' & Hu & Hf).
  { clear - Heq HcB Q1 Q2. set (D := b.1 * x + b.2 * z) in *. clearbody D. lia. }
  rewrite Hn'. by split.
Qed.

Lemma cordic_vector_flat steps : forall shift x angle,
  cordic_vector steps shift x 0 angle = angle.
Proof. induction steps as [|step steps IH]; intros; cbn; [done|]. apply IH. Qed.

Lemma atan2_forward x : 0 < x -> atan2_millidegrees 0 x = 0.
Proof.
  intros Hx. unfold atan2_millidegrees. destruct (Z.eqb_spec x 0); [lia|]. cbn [andb].
  destruct (Z.ltb_spec x 0); [lia|]. by rewrite cordic_vector_flat.
Qed.

(** What the velocity of a fast horse normalizes to. *)
Lemma launch_base v :
  i32 (vel_x v) -> i32 (vel_z v) -> 64000000 <= planar_speed_squared v ->
  exists b l, normalize_planar (vel_x v, vel_z v) = Some b /\ unit_tolerance b /\ 0 < l /\
    scaled_to_unit (vel_x v) (vel_z v) l b.
Proof.
  unfold planar_speed_squared. intros Hx Hz Hs.
  assert (Hl : 8000 <= Z.sqrt (vel_x v * vel_x v + vel_z v * vel_z v)) by (apply hypot_lower; lia).
  destruct (normalize_planar_spec (vel_x v) (vel_z v)) as (b & Hb & Hsc).
  { intros [= E1 E2]. rewrite E1, E2 in Hs. lia. }
  { unfold in_sint in *. change (2 ^ (32 - 1)) with 2147483648 in *. change (2 ^ 48) with 281474976710656. lia. }
  { unfold in_sint in *. change (2 ^ (32 - 1)) with 2147483648 in *. change (2 ^ 48) with 281474976710656. lia. }
  rewrite Z.max_l in Hsc by lia. exists b, (Z.sqrt (vel_x v * vel_x v + vel_z v * vel_z v)).
  destruct (hypot_sqrt (vel_x v) (vel_z v)) as (_ & Hlo & Hhi).
  split_and!; try done; try lia; eapply scaled_unit_norm; try exact Hsc; lia.
Qed.

(** Every launch of a horse at dive speed goes forward: its direction is
    horizontal, of unit length within the accepted tolerance, at most 75 degrees
    off the horse's motion by the code's own angle, with the row flagged exactly
    when the request lay outside the cone, and never sideways or backward of the
    motion however the player aims; without a usable aim it is straight ahead. *)
Theorem launch_goes_forward v chosen :
  i32 (vel_x v) -> i32 (vel_z v) -> 8000 * 8000 <= planar_speed_squared v ->
  let launch := clamp_launch_direction v chosen in
  let d := clamped_direction launch in
  - 75000 <= clamped_angle_millidegrees launch <= 75000 /\
  (direction_was_clamped launch = true <-> 75000 < Z.abs (requested_angle_millidegrees launch)) /\
  direction_is_normalized_integer d = true /\ dir_y d = 0 /\
  0 < vel_x v * dir_x d + vel_z v * dir_z d /\
  (chosen = None -> requested_angle_millidegrees launch = 0 /\ d = requested_direction launch).
Proof.
  intros Hx Hz Hs launch d. destruct (launch_base v Hx Hz Hs) as (b & l & Hb & Hu & Hl & e1 & e2 & H1 & H2 & He1 & He2).
  unfold d, launch, clamp_launch_direction. rewrite Hb.
  change (default (0, - DIRECTION_UNITS) (Some b)) with b.
  match goal with |- context [default b ?o] => set (req := default b o) end.
  set (ang := atan2_millidegrees _ _). unfold LAUNCH_CONE_HALF_ANGLE_MILLIDEGREES.
  set (cl := Z.max (Z.opp 75000) (Z.min 75000 ang)).
  assert (Hcl : - 75000 <= cl <= 75000) by lia.
  destruct (rotate_planar_forward b cl Hu Hcl) as [Hn Hf]. set (n := rotate_planar b cl) in *.
  cbn [clamped_angle_millidegrees requested_angle_millidegrees direction_was_clamped clamped_direction
       requested_direction dir_x dir_y dir_z].
  split; [done|]. split; [destruct (Z.eqb_spec ang cl); simpl; lia|]. split; [|split; [done|split]].
  - unfold direction_is_normalized_integer. cbn [dir_x dir_y dir_z]. apply andb_true_iff.
    unfold unit_tolerance in Hn. rewrite !Z.leb_le. lia.
  - destruct (unit_components n Hn) as [Hn1 Hn2]. unfold DIRECTION_UNITS in *.
    pose proof (abs_mul_le n.1 (2 * e1) _ l Hn1 ltac:(lia)) as Hc1.
    pose proof (abs_mul_le n.2 (2 * e2) _ l Hn2 ltac:(lia)) as Hc2.
    assert (Heq : 1000000 * (vel_x v * n.1 + vel_z v * n.2)
                  = l * (b.1 * n.1 + b.2 * n.2) - (n.1 * e1 + n.2 * e2)).
    { replace (l * (b.1 * n.1 + b.2 * n.2)) with ((b.1 * l) * n.1 + (b.2 * l) * n.2) by ring.
      rewrite H1, H2. ring. }
    assert (l * 1000000000 <= l * (b.1 * n.1 + b.2 * n.2)) by (apply Z.mul_le_mono_nonneg_l; lia).
    clear - Heq H Hc1 Hc2 Hl. lia.
  - intros Hnone. subst chosen. cbn in req. subst req. cbn [mbind option_bind] in *.
    assert (Hang : ang = 0).
    { unfold ang. replace (b.2 * b.1 - b.1 * b.2) with 0 by ring. apply atan2_forward.
      unfold unit_tolerance, NORMALIZED_LOWER_UNITS in Hu. lia. }
    split; [done|]. subst n cl. by rewrite Hang.
Qed.

(** A request backward from a canter along [-Z]. *)
Lemma launch_goes_forward_witness :
  let launch := clamp_launch_direction (mkVelocity 0 0 (-8000)) (Some (mkQuantizedDirection 0 0 1000000)) in
  clamped_angle_millidegrees launch = 75000 /\ direction_was_clamped launch = true /\
  0 < 0 * dir_x (clamped_direction launch) + -8000 * dir_z (clamped_direction launch).
Proof.
  destruct (launch_goes_forward (mkVelocity 0 0 (-8000)) (Some (mkQuantizedDirection 0 0 1000000))
              ltac:(split; done) ltac:(split; done) ltac:(by vm_compute)) as (_ & _ & _ & _ & H & _).
  split; [by vm_compute|]. split; [by vm_compute|]. exact H.
Defined.

(** The test's pins around the cone of a launch along [-Z]. *)
Example launch_cone_pins :
  (fun a => let '(x, z) := rotate_planar (0, - DIRECTION_UNITS) a in
            let launch := clamp_launch_direction (mkVelocity 0 0 (-8000)) (Some (mkQuantizedDirection x 0 z)) in
            (clamped_angle_millidegrees launch, direction_was_clamped launch))
    <$> [0; 74999; 75000; 75001; -75000; -90000]
  = [(0, false); (74999, false); (75000, false); (75000, true); (-75000, false); (-75000, true)].
Proof. by vm_compute. Qed.
