(* ===== verification/HorseRunout.v ===== *)
(** * The horse's runout after a dive ([saddle_dive.rs], [HorseRunoutKernel])

    A riderless horse slows down linearly for two seconds, travels at most 25 m
    of collision-resolved motion, and then waits to be retrieved. *)

From S2P Require Import Prelude MachineInt Ordered Clock Combat DiveMath DiveVectors.
Open Scope Z_scope.

Definition HORSE_MAX_TRAVEL_MM : Z := 25000.

Inductive HorseRunoutState := PlayerControlled | Runout | IdleRetrievable.
#[export] Instance HorseRunoutState_eq_dec : EqDecision HorseRunoutState.
Proof. solve_decision. Defined.

Record HorseRunoutTransition := mkHorseRunoutTransition {
  runout_from : HorseRunoutState;
  runout_to : HorseRunoutState;
  runout_tick : SimulationTick;
}.

Record HorseRunoutTickOutput := mkHorseRunoutTickOutput {
  output_state : HorseRunoutState;
  requested_velocity_mmps : Velocity;
  maximum_step_mm : Z;
  output_travel_mm : Z;
  transition : option HorseRunoutTransition;
}.

Inductive HorseRunoutError :=
| RunoutInvalidTickRate | NotPlayerControlled | RunoutTickReplay | RunoutTickMismatch
| RunoutMotionAlreadyResolved | MotionExceedsMaximumStep | NotRetrievable.

Record HorseRunoutKernel := mkHorseRunoutKernel {
  runout_tick_rate : Z;
  runout_state : HorseRunoutState;
  runout_launch_tick : option SimulationTick;
  runout_current_tick : option SimulationTick;
  runout_motion_resolved : bool;
  initial_planar_velocity_mmps : Z * Z;
  last_position : QuantizedOrigin;
  current_maximum_step_mm : Z;
  cumulative_travel_mm : Z;
}.
#[export] Instance HorseRunoutKernel_settable : Settable HorseRunoutKernel := fun k =>
  mkHorseRunoutKernel (runout_tick_rate k) (runout_state k) (runout_launch_tick k)
    (runout_current_tick k) (runout_motion_resolved k) (initial_planar_velocity_mmps k)
    (last_position k) (current_maximum_step_mm k) (cumulative_travel_mm k).

Definition runout_new (tick_rate : Z) : result HorseRunoutKernel HorseRunoutError :=
  if tick_rate =? 0 then Err RunoutInvalidTickRate
  else Ok (mkHorseRunoutKernel tick_rate PlayerControlled None None false (0, 0) origin_default 0 0).

Definition is_retrievable (self : HorseRunoutKernel) : bool :=
  match runout_state self with IdleRetrievable => true | _ => false end.

Definition start_runout (self : HorseRunoutKernel) (tick : SimulationTick)
    (position : QuantizedOrigin) (velocity : Velocity)
    : HorseRunoutKernel * result HorseRunoutTransition HorseRunoutError :=
  if negb (bool_decide (runout_state self = PlayerControlled)) then (self, Err NotPlayerControlled)
  else
    (mkHorseRunoutKernel (runout_tick_rate self) Runout (Some tick) None false
       (vel_x velocity, vel_z velocity) position 0 0,
     Ok (mkHorseRunoutTransition PlayerControlled Runout tick)).

Definition stop_for_dismount (self : HorseRunoutKernel) (tick : SimulationTick)
    (position : QuantizedOrigin) : HorseRunoutKernel * HorseRunoutTransition :=
  (mkHorseRunoutKernel (runout_tick_rate self) IdleRetrievable None None false (0, 0) position 0 0,
   mkHorseRunoutTransition (runout_state self) IdleRetrievable tick).

Definition runout_duration (self : HorseRunoutKernel) : Z :=
  duration_ticks_ceil (runout_tick_rate self) 2000.

(** The boundary of the runout; [None] is the panic of a runout without launch. *)
Definition expire_runout (self : HorseRunoutKernel) (tick : SimulationTick)
    : option (HorseRunoutKernel * option HorseRunoutTransition) :=
  if bool_decide (runout_state self = Runout) then
    launch ← runout_launch_tick self;
    let boundary := tick_saturating_add launch (runout_duration self) in
    let far := HORSE_MAX_TRAVEL_MM <=? cumulative_travel_mm self in
    if (boundary <=? tick) || far then
      Some (self <| runout_state := IdleRetrievable |>,
            Some (mkHorseRunoutTransition Runout IdleRetrievable (if far then tick else boundary)))
    else Some (self, None)
  else Some (self, None).

(** The velocity requested for the tick and the longest step it allows. *)
Definition request_step (self : HorseRunoutKernel) (tick : SimulationTick) : option (Velocity * Z) :=
  if bool_decide (runout_state self = Runout) then
    launch ← runout_launch_tick self;
    let elapsed := default 0 (checked_duration_since tick launch) in
    let duration := Z.max (runout_duration self) 1 in
    let remaining_ticks := saturating_sub duration elapsed in
    let remaining := saturating_sub HORSE_MAX_TRAVEL_MM (cumulative_travel_mm self) in
    let target :=
      (scale_ratio_symmetric (initial_planar_velocity_mmps self).1 remaining_ticks duration,
       scale_ratio_symmetric (initial_planar_velocity_mmps self).2 remaining_ticks duration) in
    let natural_step := div_ceil (rounded_magnitude_2d target) (runout_tick_rate self) in
    let maximum_step := Z.min (default u32_max (try_from_uint 32 natural_step)) remaining in
    let velocity := clamp_velocity_to_step target maximum_step (runout_tick_rate self) in
    Some (mkVelocity velocity.1 0 velocity.2, maximum_step)
  else Some (velocity_zero, 0).

Definition runout_begin_tick (self : HorseRunoutKernel) (tick : SimulationTick)
    : HorseRunoutKernel * result HorseRunoutTickOutput (fault HorseRunoutError) :=
  if is_some_and (runout_current_tick self) (fun current => tick <=? current)
  then (self, Err (Raised RunoutTickReplay))
  else
    let self := self <| runout_current_tick := Some tick |> <| runout_motion_resolved := false |> in
    match expire_runout self tick with
    | None => (self, Err Panicked)
    | Some (self, transition) =>
        match request_step self tick with
        | None => (self, Err Panicked)
        | Some (velocity, maximum_step) =>
            let self := self <| current_maximum_step_mm := maximum_step |> in
            (self, Ok (mkHorseRunoutTickOutput (runout_state self) velocity maximum_step
                         (cumulative_travel_mm self) transition))
        end
    end.

Definition clamp_motion_position (self : HorseRunoutKernel) (position : QuantizedOrigin)
    : option QuantizedOrigin :=
  if negb (bool_decide (runout_state self = Runout)) then Some position
  else clamp_origin_to_planar_step (last_position self) position (current_maximum_step_mm self).

Definition runout_resolve_motion (self : HorseRunoutKernel) (tick : SimulationTick)
    (position : QuantizedOrigin)
    : HorseRunoutKernel * result (option HorseRunoutTransition) HorseRunoutError :=
  if negb (bool_decide (runout_current_tick self = Some tick)) then (self, Err RunoutTickMismatch)
  else if runout_motion_resolved self then (self, Err RunoutMotionAlreadyResolved)
  else if negb (bool_decide (runout_state self = Runout)) then
    (self <| runout_motion_resolved := true |> <| last_position := position |>, Ok None)
  else
    let travelled := rounded_planar_distance (last_position self) position in
    if travelled >? current_maximum_step_mm self then (self, Err MotionExceedsMaximumStep)
    else
      let remaining := saturating_sub HORSE_MAX_TRAVEL_MM (cumulative_travel_mm self) in
      let self :=
        self <| runout_motion_resolved := true |>
             <| cumulative_travel_mm :=
                  saturating_add 32 (cumulative_travel_mm self) (Z.min travelled remaining) |>
             <| last_position := position |> in
      if cumulative_travel_mm self <? HORSE_MAX_TRAVEL_MM then (self, Ok None)
      else
        (self <| runout_state := IdleRetrievable |>,
         Ok (Some (mkHorseRunoutTransition Runout IdleRetrievable tick))).

Definition runout_complete_remount (self : HorseRunoutKernel) (tick : SimulationTick)
    : HorseRunoutKernel * result HorseRunoutTransition HorseRunoutError :=
  if negb (bool_decide (runout_state self = IdleRetrievable)) then (self, Err NotRetrievable)
  else
    (self <| runout_state := PlayerControlled |> <| runout_launch_tick := None |>
          <| runout_current_tick := None |> <| runout_motion_resolved := false |>
          <| initial_planar_velocity_mmps := (0, 0) |> <| current_maximum_step_mm := 0 |>,
     Ok (mkHorseRunoutTransition IdleRetrievable PlayerControlled tick)).

(** ** Runs *)

Inductive runout_op :=
| RStart (tick : SimulationTick) (position : QuantizedOrigin) (velocity : Velocity)
| RStop (tick : SimulationTick) (position : QuantizedOrigin)
| RBegin (tick : SimulationTick)
| RResolve (tick : SimulationTick) (position : QuantizedOrigin)
| RRemount (tick : SimulationTick).

Definition runout_op_ok (op : runout_op) : Prop :=
  match op with
  | RStart tick position velocity =>
      u64 tick /\ origin_typed position /\ i32 (vel_x velocity) /\ i32 (vel_z velocity)
  | RStop tick position | RResolve tick position => u64 tick /\ origin_typed position
  | RBegin tick | RRemount tick => u64 tick
  end.

(** A step; whether it panicked; and what it adds to the distances covered since
    the runout began ([None] starts a new list). *)
Definition runout_step (k : HorseRunoutKernel) (op : runout_op)
    : HorseRunoutKernel * bool * option (list Z) :=
  match op with
  | RStart t p v =>
      let '(k', out) := start_runout k t p v in (k', false, if is_ok out then None else Some [])
  | RStop t p => ((stop_for_dismount k t p).1, false, None)
  | RBegin t =>
      let '(k', out) := runout_begin_tick k t in
      (k', match out with Err Panicked => true | _ => false end, Some [])
  | RResolve t p =>
      let '(k', out) := runout_resolve_motion k t p in
      (k', false, if is_ok out && bool_decide (runout_state k = Runout)
                  then Some [rounded_planar_distance (last_position k) p] else Some [])
  | RRemount t => ((runout_complete_remount k t).1, false, Some [])
  end.

Fixpoint runout_run (k : HorseRunoutKernel) (steps : list Z) (ops : list runout_op)
    : HorseRunoutKernel * bool * list Z :=
  match ops with
  | [] => (k, false, steps)
  | op :: ops =>
      let '(k, panicked, more) := runout_step k op in
      let '(k, panicked', steps) :=
        runout_run k (match more with None => [] | Some more => steps ++ more end) ops in
      (k, panicked || panicked', steps)
  end.

Definition total (steps : list Z) : Z := fold_right Z.add 0 steps.

Record runout_inv (k : HorseRunoutKernel) : Prop := {
  run_rate : 0 < runout_tick_rate k < 2 ^ 32;
  run_travel : 0 <= cumulative_travel_mm k <= HORSE_MAX_TRAVEL_MM;
  run_position : origin_typed (last_position k);
  run_velocity : i32 (initial_planar_velocity_mmps k).1 /\ i32 (initial_planar_velocity_mmps k).2;
  run_step : 0 <= current_maximum_step_mm k;
  run_launch : runout_state k = Runout -> exists launch, runout_launch_tick k = Some launch /\ u64 launch /\
    cumulative_travel_mm k < HORSE_MAX_TRAVEL_MM /\
    (runout_motion_resolved k = false ->
       current_maximum_step_mm k <= HORSE_MAX_TRAVEL_MM - cumulative_travel_mm k) /\
    (forall tick, runout_current_tick k = Some tick ->
       tick < tick_saturating_add launch (runout_duration k));
}.

Lemma runout_duration_eq k : runout_inv k -> runout_duration k = 2 * runout_tick_rate k.
Proof.
  intros Hk. pose proof (run_rate k Hk) as Hr. unfold runout_duration, duration_ticks_ceil.
  destruct (Z.eqb_spec (runout_tick_rate k) 0); [lia|].
  unfold saturating_mul, div_ceil. change (2 ^ 64) with 18446744073709551616.
  change (2 ^ 32) with 4294967296 in Hr. rewrite Z.min_l by lia. div_lia.
Qed.

Lemma rounded_sqrt_nonneg v : 0 <= rounded_sqrt v.
Proof.
  unfold rounded_sqrt, try_from_uint. pose proof (Z.sqrt_nonneg v).
  destruct (uint_ok 32 _) eqn:E; [|by vm_compute]. apply uint_ok_true in E. simpl. apply E.
Qed.

Lemma runout_new_inv rate k : 0 <= rate < 2 ^ 32 -> runout_new rate = Ok k -> runout_inv k.
Proof.
  intros Hr. unfold runout_new. destruct (Z.eqb_spec rate 0); [done|]. intros E%Ok_inj. subst k.
  by split; simpl; try done; lia.
Qed.

Lemma start_runout_inv k t p v :
  runout_inv k -> u64 t -> origin_typed p -> i32 (vel_x v) -> i32 (vel_z v) ->
  runout_inv (start_runout k t p v).1.
Proof.
  intros Hk Ht Hp Hx Hz. unfold start_runout. case_bool_decide; [|done]. destruct Hk as [Hr _ _ _ _ _].
  split; simpl; try done. intros _. exists t. by split_and!.
Qed.

(** What a request allows: never more than what is left of the way. *)
Lemma request_step_spec k t :
  runout_inv k -> exists v m, request_step k t = Some (v, m) /\ 0 <= m /\
    (runout_state k = Runout -> m <= HORSE_MAX_TRAVEL_MM - cumulative_travel_mm k).
Proof.
  intros Hk. unfold request_step. case_bool_decide as Hs; [|by eexists _, _].
  destruct (run_launch k Hk Hs) as (launch & -> & _ & Hc & _). cbn [mbind option_bind].
  eexists _, _. split; [reflexivity|]. pose proof (run_travel k Hk) as Ht. pose proof (run_rate k Hk) as Hr.
  set (n := div_ceil _ _).
  assert (Hn : 0 <= default u32_max (try_from_uint 32 n)).
  { unfold try_from_uint. destruct (uint_ok 32 n) eqn:E; [|by vm_compute]. apply uint_ok_true in E. apply E. }
  unfold saturating_sub. split; [lia|]. intros _. lia.
Qed.

Lemma begin_tick_inv k t :
  runout_inv k -> u64 t ->
  let '(k', out) := runout_begin_tick k t in
  out <> Err Panicked /\ runout_inv k' /\ cumulative_travel_mm k' = cumulative_travel_mm k.
Proof.
  intros Hk Ht. unfold runout_begin_tick. destruct (is_some_and _ _) eqn:Ecur; [done|].
  set (k1 := k <| runout_current_tick := Some t |> <| runout_motion_resolved := false |>).
  assert (Hexp : exists k2 tr, expire_runout k1 t = Some (k2, tr) /\ runout_inv (k2 <| current_maximum_step_mm := 0 |>) /\
    cumulative_travel_mm k2 = cumulative_travel_mm k /\
    (runout_state k2 = Runout -> runout_motion_resolved k2 = false)).
  { unfold expire_runout. change (runout_state k1) with (runout_state k).
    case_bool_decide as Hs.
    2:{ eexists _, _. split; [reflexivity|]. split; [|done]. destruct Hk as [H1 H2 H3 H4 H5 H6]. by split. }
    destruct (run_launch k Hk Hs) as (launch & Hl & Hu & Hc & _). change (runout_launch_tick k1) with (runout_launch_tick k).
    rewrite Hl. cbn [mbind option_bind]. change (runout_duration k1) with (runout_duration k).
    change (cumulative_travel_mm k1) with (cumulative_travel_mm k).
    destruct (Z.leb_spec (tick_saturating_add launch (runout_duration k)) t) as [Hb|Hb];
      [|destruct (Z.leb_spec HORSE_MAX_TRAVEL_MM (cumulative_travel_mm k)); [lia|]]; cbn [orb];
      eexists _, _; (split; [reflexivity|]); (split; [|done]);
      destruct Hk as [H1 H2 H3 H4 H5 H6]; split; simpl; try done.
    intros _. exists launch. split_and!; try done; [lia|]. intros t' [= <-]. exact Hb. }
  destruct Hexp as (k2 & tr & -> & Hi & Hcum & Hres).
  destruct (request_step_spec _ t Hi) as (v & m & Hreq & Hm & Hrem).
  change (request_step (k2 <| current_maximum_step_mm := 0 |>) t) with (request_step k2 t) in Hreq.
  rewrite Hreq. split; [done|]. split; [|done].
  destruct Hi as [H1 H2 H3 H4 H5 H6]. split; simpl in *; try done.
  intros Hs. destruct (H6 Hs) as (launch & Hl & Hu & Hc & _ & Hcur). exists launch.
  split_and!; try done. intros _. specialize (Hrem Hs). lia.
Qed.

Lemma resolve_motion_inv k t p :
  runout_inv k -> origin_typed p ->
  let '(k', out) := runout_resolve_motion k t p in
  runout_inv k' /\
  cumulative_travel_mm k' = cumulative_travel_mm k +
    (if is_ok out && bool_decide (runout_state k = Runout)
     then rounded_planar_distance (last_position k) p else 0).
Proof.
  intros Hk Hp. unfold runout_resolve_motion.
  destruct (bool_decide (runout_current_tick k = Some t)) eqn:Hcur; cbn [negb]; [|simpl; split; [done|lia]].
  destruct (runout_motion_resolved k) eqn:Hres; [simpl; split; [done|lia]|].
  destruct (bool_decide (runout_state k = Runout)) eqn:Es; cbn [negb].
  2:{ apply bool_decide_eq_false in Es. split; [|simpl; lia].
      destruct Hk as [H1 H2 H3 H4 H5 H6]. split; simpl; try done; intros ?; by destruct Es. }
  apply bool_decide_eq_true in Es. destruct (run_launch k Hk Es) as (launch & Hl & Hu & Hc & Hm & Ht).
  specialize (Hm Hres). pose proof (rounded_sqrt_nonneg (planar_distance_squared (last_position k) p)) as Hd.
  change (rounded_sqrt _) with (rounded_planar_distance (last_position k) p) in Hd.
  destruct (Z.gtb_spec (rounded_planar_distance (last_position k) p) (current_maximum_step_mm k));
    [simpl; split; [done|lia]|].
  set (d := rounded_planar_distance (last_position k) p) in *. clearbody d.
  set (k1 := _ <| last_position := p |>).
  assert (Hcum : cumulative_travel_mm k1 = cumulative_travel_mm k + d).
  { unfold k1. simpl. pose proof (run_travel k Hk). unfold HORSE_MAX_TRAVEL_MM in *. int_lia. }
  pose proof (run_travel k Hk) as Htr. destruct Hk as [H1 H2 H3 H4 H5 H6].
  assert (Hlast : last_position k1 = p /\ origin_typed p) by done.
  destruct (Z.ltb_spec (cumulative_travel_mm k1) HORSE_MAX_TRAVEL_MM); (split; [|simpl in *; lia]).
  - split; try done; [simpl in *; lia|]. intros _. exists launch. by split_and!.
  - split; try done. simpl in *. lia.
Qed.

Lemma runout_step_ok k op k' panicked more :
  runout_inv k -> runout_op_ok op -> runout_step k op = (k', panicked, more) ->
  panicked = false /\ runout_inv k' /\
  cumulative_travel_mm k' = match more with None => 0 | Some l => cumulative_travel_mm k + total l end.
Proof.
  intros Hk Hop E. destruct op as [t p v|t p|t|t p|t]; cbn [runout_step runout_op_ok] in *.
  - destruct Hop as (Ht & Hp & Hx & Hz). pose proof (start_runout_inv k t p v Hk Ht Hp Hx Hz) as Hi.
    destruct (start_runout k t p v) as [k1 out] eqn:E1. injection E as <- <- <-.
    split; [done|]. split; [exact Hi|].
    unfold start_runout in E1. case_bool_decide; injection E1 as <- <-; simpl; lia.
  - destruct Hop as [_ Hp]. injection E as <- <- <-. destruct Hk as [H1 H2 H3 H4 H5 H6].
    split; [done|]. split; [|done]. by split.
  - pose proof (begin_tick_inv k t Hk Hop) as Hb. destruct (runout_begin_tick k t) as [k1 out].
    destruct Hb as (Hnp & Hi & Hc). injection E as <- <- <-. split; [by destruct out as [|[|]]|].
    split; [done|]. simpl. lia.
  - destruct Hop as [Ht Hp]. pose proof (resolve_motion_inv k t p Hk Hp) as Hb.
    destruct (runout_resolve_motion k t p) as [k1 out]. destruct Hb as (Hi & Hc).
    injection E as <- <- <-. split; [done|]. split; [done|]. rewrite Hc.
    destruct (is_ok out && _); simpl; lia.
  - unfold runout_complete_remount in E. destruct Hk as [H1 H2 H3 H4 H5 H6].
    case_bool_decide; injection E as <- <- <-; (split; [done|]); (split; [|simpl; lia]); by split.
Qed.

Lemma total_app a b : total (a ++ b) = total a + total b.
Proof. induction a as [|x a IH]; simpl; lia. Qed.

Lemma runout_run_ok ops : forall k steps k' panicked steps',
  runout_inv k -> cumulative_travel_mm k = total steps -> Forall runout_op_ok ops ->
  runout_run k steps ops = (k', panicked, steps') ->
  panicked = false /\ runout_inv k' /\ cumulative_travel_mm k' = total steps'.
Proof.
  induction ops as [|op ops IH]; intros k steps k' panicked steps' Hk Hc Hops Hrun; cbn [runout_run] in Hrun.
  { by injection Hrun as <- <- <-. }
  apply Forall_cons in Hops as [Hop Hops].
  destruct (runout_step k op) as [[k1 p1] more] eqn:E.
  destruct (runout_step_ok k op k1 p1 more Hk Hop E) as (-> & Hi & Hcum).
  destruct (runout_run k1 _ ops) as [[k2 p2] s2] eqn:E2. injection Hrun as <- <- <-. cbn [orb].
  eapply IH; [exact Hi| |exact Hops|exact E2].
  destruct more as [more|]; [rewrite total_app; lia|done].
Qed.

(** A riderless horse is bounded: over any operations, in any order, the kernel
    never panics, the collision-resolved steps it accepted since the runout began
    sum up to exactly its travel, which never exceeds 25 m, and while it still runs
    the clock is before the end of the two seconds. *)
Theorem horse_runout_bounded rate k ops k' panicked steps :
  0 <= rate < 2 ^ 32 -> runout_new rate = Ok k -> Forall runout_op_ok ops ->
  runout_run k [] ops = (k', panicked, steps) ->
  panicked = false /\ cumulative_travel_mm k' = total steps /\ total steps <= 25000 /\
  (runout_state k' = Runout ->
     total steps < 25000 /\
     exists launch, runout_launch_tick k' = Some launch /\
       forall t, runout_current_tick k' = Some t -> t < launch + 2 * runout_tick_rate k').
Proof.
  intros Hr Hnew Hops Hrun. pose proof (runout_new_inv rate k Hr Hnew) as Hk.
  assert (Hc0 : cumulative_travel_mm k = 0).
  { unfold runout_new in Hnew. case_match; [done|]. by apply Ok_inj in Hnew as <-. }
  destruct (runout_run_ok ops k [] k' panicked steps Hk Hc0 Hops Hrun) as (Hp & Hi & Hc).
  pose proof (run_travel k' Hi) as Ht. unfold HORSE_MAX_TRAVEL_MM in *.
  split; [done|]. split; [done|]. split; [lia|]. intros Hs.
  destruct (run_launch k' Hi Hs) as (launch & Hl & Hu & Hlt & _ & Hcur). unfold HORSE_MAX_TRAVEL_MM in *.
  split; [lia|]. exists launch. split; [done|]. intros t Ht'. specialize (Hcur t Ht').
  rewrite runout_duration_eq in Hcur by done. unfold tick_saturating_add, saturating_add in Hcur. lia.
Qed.

(** C39. The two halves of a tick agree: whatever position the engine proposes, its
    clamp exists, keeps the height, is the proposal when that is admissible, and is
    accepted by the resolution of the same tick. *)
Theorem clamped_motion_accepted k t p :
  runout_inv k -> runout_current_tick k = Some t -> runout_motion_resolved k = false -> origin_typed p ->
  exists q, clamp_motion_position k p = Some q /\ is_ok (runout_resolve_motion k t q).2 = true /\
    origin_typed q /\ origin_y q = origin_y p /\
    (is_ok (runout_resolve_motion k t p).2 = true -> q = p).
Proof.
  intros Hk Ht Hres Hp. unfold clamp_motion_position, runout_resolve_motion.
  rewrite Ht, Hres, (bool_decide_eq_true_2 (Some t = Some t)) by done. cbn [negb].
  destruct (bool_decide (runout_state k = Runout)) eqn:Hs; cbn [negb].
  2:{ exists p. by split_and!. }
  destruct (clamp_origin_spec (last_position k) p (current_maximum_step_mm k) (run_position k Hk) Hp (run_step k Hk))
    as (q & -> & Hq & Hd & Hy & Hsame).
  exists q. split; [done|]. split.
  - destruct (Z.gtb_spec (rounded_planar_distance (last_position k) q) (current_maximum_step_mm k)); [lia|].
    by case_match.
  - split; [done|]. split; [done|].
    destruct (Z.gtb_spec (rounded_planar_distance (last_position k) p) (current_maximum_step_mm k)) as [|Hle]; [done|].
    intros _. by apply Hsame.
Qed.

(** ** The horse only slows down *)

Lemma div_round_half_away_between n d v :
  0 < d -> (0 <= n <= v * d \/ v * d <= n <= 0) ->
  (0 <= div_round_half_away n d <= v \/ v <= div_round_half_away n d <= 0).
Proof.
  intros Hd Hn. pose proof (div_round_half_away_spec n d Hd) as Hr.
  set (q := div_round_half_away n d) in *. clearbody q. destruct Hn; [left|right]; split; nia.
Qed.

(** Toward zero, and on the same side of it. *)
Definition slower (w v : Z) : Prop := 0 <= w <= v \/ v <= w <= 0.

Lemma slower_trans u v w : slower u v -> slower v w -> slower u w.
Proof. unfold slower. lia. Qed.
Lemma slower_clamp w v : i32 v -> slower w v -> slower (saturating_i128_to_i32 w) v.
Proof. unfold slower, saturating_i128_to_i32, i32_clamp. int_lia. Qed.

Lemma scale_ratio_slower v n d : i32 v -> 0 <= n <= d -> 0 < d -> slower (scale_ratio_symmetric v n d) v.
Proof.
  intros Hv Hn Hd. unfold scale_ratio_symmetric. destruct (Z.eqb_spec d 0); [lia|].
  apply slower_clamp; [done|]. apply div_round_half_away_between; [done|].
  destruct (Z.le_gt_cases 0 v); [left|right]; nia.
Qed.

Lemma clamp_velocity_slower target m rate :
  i32 target.1 -> i32 target.2 -> 0 <= m -> 0 <= rate ->
  slower (clamp_velocity_to_step target m rate).1 target.1 /\
  slower (clamp_velocity_to_step target m rate).2 target.2.
Proof.
  intros H1 H2 Hm Hr. unfold clamp_velocity_to_step.
  destruct ((rounded_magnitude_2d target =? 0) || (m =? 0)) eqn:E; [unfold slower; simpl; lia|].
  rewrite orb_false_iff, !Z.eqb_neq in E. destruct E as [Hmag _].
  pose proof (rounded_sqrt_nonneg (target.1 * target.1 + target.2 * target.2)) as Hpos.
  change (rounded_sqrt _) with (rounded_magnitude_2d target) in Hpos.
  set (mag := rounded_magnitude_2d target) in *. clearbody mag.
  assert (Hmax : 0 <= saturating_mul 64 m rate) by (unfold saturating_mul; change (2 ^ 64) with 18446744073709551616; nia).
  destruct (Z.leb_spec mag (saturating_mul 64 m rate)) as [|Hlt]; [unfold slower; lia|].
  set (top := saturating_mul 64 m rate) in *. clearbody top. cbn [fst snd].
  split; (apply slower_clamp; [done|]); apply div_round_half_away_between; try lia;
    [destruct (Z.le_gt_cases 0 target.1)|destruct (Z.le_gt_cases 0 target.2)]; [left|right|left|right]; nia.
Qed.

(** A riderless horse only slows down: the velocity requested for a tick is
    horizontal, each component lies between zero and the launch velocity's, and
    once the runout is over, by its two seconds or its 25 m, it is zero. *)
Theorem runout_only_slows k t k' out :
  runout_inv k -> u64 t -> runout_begin_tick k t = (k', Ok out) ->
  vel_y (requested_velocity_mmps out) = 0 /\
  slower (vel_x (requested_velocity_mmps out)) (initial_planar_velocity_mmps k).1 /\
  slower (vel_z (requested_velocity_mmps out)) (initial_planar_velocity_mmps k).2 /\
  (runout_state k' <> Runout -> requested_velocity_mmps out = velocity_zero /\ maximum_step_mm out = 0) /\
  (forall launch, runout_state k = Runout -> runout_launch_tick k = Some launch ->
     launch + 2 * runout_tick_rate k <= t -> runout_state k' = IdleRetrievable).
Proof.
  intros Hk Ht. unfold runout_begin_tick. case_match; [done|].
  set (k1 := _ <| runout_motion_resolved := false |>).
  destruct (expire_runout k1 t) as [[k2 tr]|] eqn:Ee; [|done].
  assert (H2 : runout_launch_tick k2 = runout_launch_tick k /\
    initial_planar_velocity_mmps k2 = initial_planar_velocity_mmps k /\
    runout_tick_rate k2 = runout_tick_rate k /\
    (forall launch, runout_state k = Runout -> runout_launch_tick k = Some launch ->
     launch + 2 * runout_tick_rate k <= t -> runout_state k2 = IdleRetrievable)).
  { unfold expire_runout in Ee. change (runout_state k1) with (runout_state k) in Ee.
    case_bool_decide as Hs; [|injection Ee as <- <-; by split_and!].
    change (runout_launch_tick k1) with (runout_launch_tick k) in Ee.
    destruct (runout_launch_tick k) as [launch|] eqn:El; [|done]. cbn [mbind option_bind] in Ee.
    change (runout_duration k1) with (runout_duration k) in Ee. rewrite runout_duration_eq in Ee by done.
    destruct (_ || _) eqn:Eo; injection Ee as <- <-; split_and!; try done.
    intros launch' _ [= <-] Hle. rewrite orb_false_iff, Z.leb_gt in Eo.
    unfold tick_saturating_add, saturating_add in Eo. lia. }
  destruct H2 as (H2a & H2b & H2c & H2d).
  destruct (request_step k2 t) as [[v m]|] eqn:Er; [|done].
  intros [= <- <-]. cbn [requested_velocity_mmps maximum_step_mm]. unfold request_step in Er.
  change (runout_state (k2 <| current_maximum_step_mm := m |>)) with (runout_state k2).
  case_bool_decide as Hs.
  2:{ injection Er as <- <-. split_and!; try done; unfold slower; simpl; lia. }
  rewrite H2a in Er. destruct (runout_launch_tick k) as [launch|] eqn:El; [|done].
  cbn [mbind option_bind] in Er. rewrite H2b, H2c in Er.
  replace (runout_duration k2) with (runout_duration k) in Er by (unfold runout_duration; by rewrite H2c).
  rewrite runout_duration_eq in Er by done.
  assert (He : 0 <= default 0 (checked_duration_since t launch)).
  { unfold checked_duration_since, checked_sub. destruct (Z.leb_spec launch t); simpl; lia. }
  set (elapsed := default 0 (checked_duration_since t launch)) in *. clearbody elapsed.
  pose proof (run_rate k Hk) as Hr. pose proof (run_velocity k Hk) as [Hv1 Hv2].
  rewrite Z.max_l in Er by lia.
  set (rem := saturating_sub (2 * runout_tick_rate k) elapsed) in Er.
  assert (Hrem : 0 <= rem <= 2 * runout_tick_rate k) by (unfold rem, saturating_sub; lia). clearbody rem.
  set (target := (scale_ratio_symmetric _ rem _, _)) in Er.
  assert (Ht1 : slower target.1 (initial_planar_velocity_mmps k).1) by (apply scale_ratio_slower; try done; lia).
  assert (Ht2 : slower target.2 (initial_planar_velocity_mmps k).2) by (apply scale_ratio_slower; try done; lia).
  set (step := Z.min _ _) in Er.
  assert (Hstep : 0 <= step).
  { unfold step, saturating_sub, try_from_uint. case_match eqn:E; simpl; [|unfold u32_max; lia].
    apply uint_ok_true in E. unfold in_uint, id in *. lia. }
  clearbody step. injection Er as <- <-. cbn [vel_x vel_y vel_z].
  destruct (clamp_velocity_slower target step (runout_tick_rate k)) as [Hw1 Hw2];
    [unfold slower, in_sint in *; lia|unfold slower, in_sint in *; lia|done|lia|].
  split; [done|]. split; [by eapply slower_trans|]. split; [by eapply slower_trans|].
  split; [done|]. exact H2d.
Qed.

(** A canter of 12 m/s: three ticks of free motion, a wall, and the boundary. *)
Definition demo_runout : HorseRunoutKernel :=
  mkHorseRunoutKernel 60 PlayerControlled None None false (0, 0) origin_default 0 0.
Definition demo_runout_ops : list runout_op :=
  [RStart 100 origin_default (mkVelocity 0 0 (-12000)); RBegin 101; RResolve 101 (mkQuantizedOrigin 0 0 (-199));
   RResolve 101 (mkQuantizedOrigin 0 0 (-300)); RBegin 102; RResolve 102 (mkQuantizedOrigin 0 0 (-900));
   RResolve 102 (mkQuantizedOrigin 0 0 (-390)); RBegin 103; RResolve 103 (mkQuantizedOrigin 0 0 (-390));
   RBegin 103; RBegin 150].
Lemma demo_runout_ops_ok : Forall runout_op_ok demo_runout_ops.
Proof. repeat constructor; by vm_compute. Qed.
Definition demo_runout_end : HorseRunoutKernel := (runout_run demo_runout [] demo_runout_ops).1.1.
Lemma demo_runout_run : runout_run demo_runout [] demo_runout_ops = (demo_runout_end, false, [199; 191; 0]).
Proof. vm_compute. reflexivity. Qed.

Lemma horse_runout_bounded_witness : cumulative_travel_mm demo_runout_end = 390.
Proof.
  destruct (horse_runout_bounded 60 demo_runout demo_runout_ops demo_runout_end false [199; 191; 0]
              ltac:(lia) ltac:(by vm_compute) demo_runout_ops_ok demo_runout_run) as (_ & Hc & _).
  exact Hc.
Defined.

Lemma demo_runout_inv : runout_inv demo_runout_end.
Proof.
  apply (runout_run_ok demo_runout_ops demo_runout [] demo_runout_end false [199; 191; 0]);
    [|done|exact demo_runout_ops_ok|exact demo_runout_run].
  by apply (runout_new_inv 60); [lia|vm_compute].
Qed.

Lemma clamped_motion_accepted_witness :
  exists q, clamp_motion_position demo_runout_end (mkQuantizedOrigin 5000 7 (-9000)) = Some q /\
    is_ok (runout_resolve_motion demo_runout_end 150 q).2 = true /\ origin_y q = 7.
Proof.
  destruct (clamped_motion_accepted demo_runout_end 150 (mkQuantizedOrigin 5000 7 (-9000)) demo_runout_inv
              ltac:(by vm_compute) ltac:(by vm_compute) ltac:(by vm_compute)) as (q & Hq & Hok & _ & Hy & _).
  exists q. split; [exact Hq|]. split; [exact Hok|exact Hy].
Defined.

Lemma runout_only_slows_witness :
  exists k' out, runout_begin_tick demo_runout_end 160 = (k', Ok out) /\
    vel_z (requested_velocity_mmps out) = -6000 /\
    slower (vel_z (requested_velocity_mmps out)) (-12000).
Proof.
  eexists _, _. split; [vm_compute; reflexivity|]. split; [vm_compute; reflexivity|].
  eapply (runout_only_slows demo_runout_end 160 _ _ demo_runout_inv); [by vm_compute|vm_compute; reflexivity].
Defined.
