(* ===== verification/SaddleDive.v ===== *)
(** * The saddle dive of one rider ([saddle_dive.rs], [SaddleDiveKernel])

    Launch, flight, landing, recovery and remount on absolute ticks, the rider's
    health, and the instrumentation row every dive leaves behind. *)

From Stdlib Require Import String.
From S2P Require Import Prelude MachineInt Ordered Clock Bytes Identifiers Stance Combat.
From S2P Require Import DiveMath Aim WeaponKernel DiveVectors ShotLedger.
Open Scope Z_scope.

Definition MIN_DIVE_SPEED_MMPS : Z := 8000.
Definition BAD_LANDING_THRESHOLD_MILLIDEGREES : Z := 30000.
Definition BAD_LANDING_DAMAGE : Z := 15.
Definition REMOUNT_RANGE_MM : Z := 3000.
Definition MOVEMENT_SCALE_FULL_MILLI : Z := 1000.
Definition MOVEMENT_SCALE_PRONE_MILLI : Z := 0.
Definition MOVEMENT_SCALE_RECOVERY_MILLI : Z := 500.
Definition PROTOTYPE_RIDER_HEALTH : Z := 100.

(** ** Data *)

Inductive SaddleDiveState :=
| DiveMounted | DiveAirborne | DiveLandingProne | DiveLandingRecovery | OnFootReady.
#[export] Instance SaddleDiveState_eq_dec : EqDecision SaddleDiveState.
Proof. solve_decision. Defined.

Inductive LandingTerrain := TerrainFlat | TerrainScrub | TerrainMud | TerrainRiverbed | TerrainUnknown.
Inductive LandingOutcome := LandingGood | LandingBad.
Inductive DiveCensorReason :=
| DiedAirborne | DiedBeforeRemount | CensorMatchEnded | CensorReset | CensorNotObserved.
#[export] Instance DiveCensorReason_eq_dec : EqDecision DiveCensorReason.
Proof. solve_decision. Defined.

Record DiveInstrumentationRow := mkDiveInstrumentationRow {
  schema_version : Z;
  row_authority_epoch : Z;
  row_rider : PlayerId;
  row_dive_id : DiveId;
  launch_tick : SimulationTick;
  row_launch_weapon : WeaponId;
  launch_gait : CombatGait;
  prelaunch_velocity_mmps : Z * Z;
  prelaunch_speed_mmps : Z;
  row_requested_direction : QuantizedDirection;
  row_requested_angle_millidegrees : Z;
  row_clamped_direction : QuantizedDirection;
  row_clamped_angle_millidegrees : Z;
  row_direction_was_clamped : bool;
  horizontal_impulse_mmps : Z;
  resulting_planar_speed_mmps : Z;
  resulting_total_speed_mmps : Z;
  vertical_pop_mmps : Z;
  launch_height_mm : Z;
  row_nominal_airtime_ticks : Z;
  landing_tick : option SimulationTick;
  airtime_ticks : option Z;
  shot_attempts : Z;
  shots_fired : Z;
  shots_hit : Z;
  headshots : Z;
  reversal_hits : Z;
  damage_dealt : Z;
  landing_terrain : option LandingTerrain;
  row_landing_slope_millidegrees : option Z;
  landing_outcome : option LandingOutcome;
  landing_damage : Z;
  damage_taken_landing_through_3s : Z;
  death_tick : option SimulationTick;
  death_within_3s : option bool;
  remount_tick : option SimulationTick;
  time_to_remount_ticks : option Z;
  censor_reason : option DiveCensorReason;
}.
#[export] Instance DiveInstrumentationRow_settable : Settable DiveInstrumentationRow := fun r =>
  mkDiveInstrumentationRow (schema_version r) (row_authority_epoch r) (row_rider r) (row_dive_id r)
    (launch_tick r) (row_launch_weapon r) (launch_gait r) (prelaunch_velocity_mmps r)
    (prelaunch_speed_mmps r) (row_requested_direction r) (row_requested_angle_millidegrees r)
    (row_clamped_direction r) (row_clamped_angle_millidegrees r) (row_direction_was_clamped r)
    (horizontal_impulse_mmps r) (resulting_planar_speed_mmps r) (resulting_total_speed_mmps r)
    (vertical_pop_mmps r) (launch_height_mm r) (row_nominal_airtime_ticks r) (landing_tick r)
    (airtime_ticks r) (shot_attempts r) (shots_fired r) (shots_hit r) (headshots r) (reversal_hits r)
    (damage_dealt r) (landing_terrain r) (row_landing_slope_millidegrees r) (landing_outcome r)
    (landing_damage r) (damage_taken_landing_through_3s r) (death_tick r) (death_within_3s r)
    (remount_tick r) (time_to_remount_ticks r) (censor_reason r).

Record SaddleDiveTransition := mkSaddleDiveTransition {
  transition_from : SaddleDiveState;
  transition_to : SaddleDiveState;
  transition_tick : SimulationTick;
  transition_dive : option DiveId;
}.

(** Epoch, actor, dive, landing tick; and epoch, actor, tick, sequence: compared in
    this order, as derived. *)
Abbreviation RiderDamageCommandId := (Z * (PlayerId * (DiveId * SimulationTick)))%type.
Abbreviation DamageObservationId := (Z * (PlayerId * (SimulationTick * Z)))%type.
Definition observation_epoch (id : DamageObservationId) : Z := id.1.
Definition observation_actor (id : DamageObservationId) : PlayerId := id.2.1.
Definition observation_tick (id : DamageObservationId) : SimulationTick := id.2.2.1.

Record RiderDamageCommand := mkRiderDamageCommand {
  command_id : RiderDamageCommandId;
  command_amount : Z;
  command_tick : SimulationTick;
  command_source : string;
}.

Record DamageObservation := mkDamageObservation {
  observation_id : DamageObservationId;
  observation_amount : Z;
}.

Inductive SaddleDiveCommand :=
| StartHorseRunout (dive : DiveId) (tick : SimulationTick) (position : QuantizedOrigin) (velocity : Velocity)
| DetachRider (dive : option DiveId) (tick : SimulationTick) (velocity : Velocity)
| ApplyRiderDamage (command : RiderDamageCommand)
| AttachRider (tick : SimulationTick) (position : QuantizedOrigin).

Record SaddleDiveEffects := mkSaddleDiveEffects {
  transitions : list SaddleDiveTransition;
  commands : list SaddleDiveCommand;
  effect_events : list GameplayEventRow;
  telemetry_updates : list DiveInstrumentationRow;
  telemetry_finalized : list DiveInstrumentationRow;
}.
#[export] Instance SaddleDiveEffects_settable : Settable SaddleDiveEffects := fun e =>
  mkSaddleDiveEffects (transitions e) (commands e) (effect_events e) (telemetry_updates e)
    (telemetry_finalized e).
Definition effects_default : SaddleDiveEffects := mkSaddleDiveEffects [] [] [] [] [].

Record SaddleDiveTickOutput := mkSaddleDiveTickOutput {
  out_tick : SimulationTick;
  out_state : SaddleDiveState;
  out_stance : RiderStance;
  out_dive_id : option DiveId;
  movement_input_scale_milli : Z;
  can_fire : bool;
  can_reload : bool;
  out_sway_scale_milli : Z;
  requested_rider_velocity_mmps : option Velocity;
  interact_consumed : bool;
  out_effects : SaddleDiveEffects;
}.

Record SaddleDiveTickInput := mkSaddleDiveTickInput {
  in_tick : SimulationTick;
  interact_pressed : bool;
  chosen_direction : option QuantizedDirection;
  horse_grounded : bool;
  horse_position : QuantizedOrigin;
  horse_velocity_mmps : Velocity;
  horse_gait : CombatGait;
  equipped_weapon : WeaponId;
  in_rider_position : QuantizedOrigin;
  horse_retrievable : bool;
  in_authority_epoch : Z;
  in_actor : PlayerId;
}.

Record RiderMotionObservation := mkRiderMotionObservation {
  motion_tick : SimulationTick;
  motion_position : QuantizedOrigin;
  motion_velocity_mmps : Velocity;
  descending : bool;
  landing_normal : option QuantizedDirection;
  motion_terrain : LandingTerrain;
}.

Inductive SaddleDiveError :=
| DiveInvalidTickRate | DiveTickReplay | DiveTickMismatch | DiveMotionAlreadyResolved
| DiveActorMismatch | DiveAuthorityEpochMismatch | DiveIdExhausted.
#[export] Instance SaddleDiveError_eq_dec : EqDecision SaddleDiveError.
Proof. solve_decision. Defined.

(** ** The rider's health *)

Record RiderHealthApplication := mkRiderHealthApplication {
  health_before : Z;
  health_after : Z;
  died : bool;
}.

Record RiderHealthKernel := mkRiderHealthKernel {
  rider_health : Z;
  landing_commands : gset RiderDamageCommandId;
  external_observations : gset DamageObservationId;
}.
#[export] Instance RiderHealthKernel_settable : Settable RiderHealthKernel := fun h =>
  mkRiderHealthKernel (rider_health h) (landing_commands h) (external_observations h).
Definition rider_health_default : RiderHealthKernel := mkRiderHealthKernel PROTOTYPE_RIDER_HEALTH ∅ ∅.

Definition apply_amount (self : RiderHealthKernel) (amount : Z)
    : RiderHealthKernel * RiderHealthApplication :=
  let before := rider_health self in
  let after := saturating_sub before amount in
  (self <| rider_health := after |>,
   mkRiderHealthApplication before after ((before >? 0) && (after =? 0))).

Definition apply_landing_command (self : RiderHealthKernel) (command : RiderDamageCommand)
    : RiderHealthKernel * option RiderHealthApplication :=
  if bool_decide (command_id command ∈ landing_commands self) then (self, None)
  else
    let self := self <| landing_commands := {[command_id command]} ∪ landing_commands self |> in
    let '(self, application) := apply_amount self (command_amount command) in
    (self, Some application).

Definition apply_external (self : RiderHealthKernel) (observation : DamageObservation)
    : RiderHealthKernel * option RiderHealthApplication :=
  if bool_decide (observation_id observation ∈ external_observations self) then (self, None)
  else
    let self := self <| external_observations :=
                          {[observation_id observation]} ∪ external_observations self |> in
    let '(self, application) := apply_amount self (observation_amount observation) in
    (self, Some application).

Definition health_observe_death (self : RiderHealthKernel) : RiderHealthKernel * bool :=
  if rider_health self =? 0 then (self, false) else (self <| rider_health := 0 |>, true).

Definition health_reset (self : RiderHealthKernel) : RiderHealthKernel :=
  self <| rider_health := PROTOTYPE_RIDER_HEALTH |>.

(** ** The kernel's state *)

Record DiveRecord := mkDiveRecord {
  row : DiveInstrumentationRow;
  attempt_ticks : gset SimulationTick;
  accepted_shots : gmap SimulationTick AcceptedShotMetadata;
  resolved_shots : gset SimulationTick;
  attributed_damage_observations : gset DamageObservationId;
  finalized : bool;
}.
#[export] Instance DiveRecord_settable : Settable DiveRecord := fun r =>
  mkDiveRecord (row r) (attempt_ticks r) (accepted_shots r) (resolved_shots r)
    (attributed_damage_observations r) (finalized r).

Record AirborneState := mkAirborneState {
  air_dive_id : DiveId;
  air_launch_tick : SimulationTick;
  air_launch_velocity_mmps : Velocity;
  resolved_horizontal_velocity_mmps : Z * Z;
}.
#[export] Instance AirborneState_settable : Settable AirborneState := fun a =>
  mkAirborneState (air_dive_id a) (air_launch_tick a) (air_launch_velocity_mmps a)
    (resolved_horizontal_velocity_mmps a).

Record LandingState := mkLandingState {
  landed_dive_id : DiveId;
  landed_tick : SimulationTick;
  bad : bool;
}.

Record SaddleDiveKernel := mkSaddleDiveKernel {
  dive_tick_rate : Z;
  actor : PlayerId;
  dive_authority_epoch : Z;
  current_tick : option SimulationTick;
  motion_resolved : bool;
  previous_interact_level : bool;
  state : SaddleDiveState;
  state_enter_tick : SimulationTick;
  state_dive_id : option DiveId;
  mounted_horse_grounded : bool;
  next_dive_id : option DiveId;
  airborne : option AirborneState;
  landing : option LandingState;
  rider_position : QuantizedOrigin;
  health : RiderHealthKernel;
  damage_observations : gmap DamageObservationId Z;
  observation_watermark : option SimulationTick;
  rows : gmap DiveId DiveRecord;
}.
#[export] Instance SaddleDiveKernel_settable : Settable SaddleDiveKernel := fun k =>
  mkSaddleDiveKernel (dive_tick_rate k) (actor k) (dive_authority_epoch k) (current_tick k)
    (motion_resolved k) (previous_interact_level k) (state k) (state_enter_tick k) (state_dive_id k)
    (mounted_horse_grounded k) (next_dive_id k) (airborne k) (landing k) (rider_position k) (health k)
    (damage_observations k) (observation_watermark k) (rows k).

Definition dive_new (tick_rate : Z) (id : PlayerId) (epoch : Z) : result SaddleDiveKernel SaddleDiveError :=
  if tick_rate =? 0 then Err DiveInvalidTickRate
  else Ok (mkSaddleDiveKernel tick_rate id epoch None false false DiveMounted 0 None true (dive_id_new 1)
             None None origin_default rider_health_default ∅ None ∅).

Definition dive_set_authority_epoch (self : SaddleDiveKernel) (epoch : Z) : SaddleDiveKernel * bool :=
  if epoch <? dive_authority_epoch self then (self, false)
  else (self <| dive_authority_epoch := epoch |>, true).

Definition dive_stance (self : SaddleDiveKernel) : RiderStance :=
  match state self with
  | DiveMounted => if mounted_horse_grounded self then Mounted else MountedAirborne
  | DiveAirborne => SaddleDiveAirborne
  | DiveLandingProne => LandingProne
  | DiveLandingRecovery => LandingRecovery
  | OnFootReady => OnFootStanding
  end.

(** The kernel with the effects of the call so far. *)
Abbreviation Call := (SaddleDiveKernel * SaddleDiveEffects)%type.

Definition push_transition (t : SaddleDiveTransition) (e : SaddleDiveEffects) : SaddleDiveEffects :=
  e <| transitions := transitions e ++ [t] |>.
Definition push_command (c : SaddleDiveCommand) (e : SaddleDiveEffects) : SaddleDiveEffects :=
  e <| commands := commands e ++ [c] |>.

(** [rows.get_mut(&id)] and a mutation. *)
Definition alter_record (f : DiveRecord -> DiveRecord) (id : DiveId) (self : SaddleDiveKernel)
    : SaddleDiveKernel := self <| rows := alter f id (rows self) |>.
Definition alter_row (f : DiveInstrumentationRow -> DiveInstrumentationRow) (record : DiveRecord)
    : DiveRecord := record <| row := f (row record) |>.

(** The row replaces the one of its dive, or is appended. *)
Fixpoint put_row (new : DiveInstrumentationRow) (l : list DiveInstrumentationRow)
    : list DiveInstrumentationRow :=
  match l with
  | [] => [new]
  | old :: l => if row_dive_id old =? row_dive_id new then new :: l else old :: put_row new l
  end.

Definition push_update (self : SaddleDiveKernel) (id : DiveId) (e : SaddleDiveEffects)
    : SaddleDiveEffects :=
  match rows self !! id with
  | None => e
  | Some record => e <| telemetry_updates := put_row (row record) (telemetry_updates e) |>
  end.

Definition should_finalize (self : SaddleDiveKernel) (record : DiveRecord) : bool :=
  if finalized record then false
  else
    let settled := Z.of_nat (size (accepted_shots record)) =? Z.of_nat (size (resolved_shots record)) in
    match censor_reason (row record) with
    | Some (CensorMatchEnded | CensorReset | CensorNotObserved) => true
    | Some DiedAirborne =>
        settled
        && (motion_resolved self
            || is_some_and (current_tick self) (fun tick =>
                 is_some_and (death_tick (row record)) (fun death => tick >? death)))
    | Some DiedBeforeRemount => settled
    | None =>
        settled && is_some (death_within_3s (row record)) && is_some (remount_tick (row record))
    end.

Definition maybe_finalize (id : DiveId) (call : Call) : Call :=
  let '(self, e) := call in
  match rows self !! id with
  | None => call
  | Some record =>
      if should_finalize self record then
        (alter_record (fun record => record <| finalized := true |>) id self,
         e <| telemetry_finalized := telemetry_finalized e ++ [row record] |>)
      else call
  end.

(** The rows a filter selects, in the map's order. *)
Definition select_rows (f : DiveRecord -> bool) (self : SaddleDiveKernel) : list DiveId :=
  (filter (fun entry => f entry.2 = true) (btree_list (rows self))).*1.

Definition observation_ticks (self : SaddleDiveKernel) : Z :=
  duration_ticks_ceil (dive_tick_rate self) 3000.

(** ** Damage and death windows *)

Definition in_damage_window (self : SaddleDiveKernel) (o : DamageObservationId) (record : DiveRecord) : bool :=
  negb (finalized record) && negb (bool_decide (o ∈ attributed_damage_observations record))
  && is_some_and (landing_tick (row record)) (fun landing =>
       (landing <=? observation_tick o)
       && (observation_tick o <=? tick_saturating_add landing (observation_ticks self))).

Definition attribute_damage (o : DamageObservation) (record : DiveRecord) : DiveRecord :=
  alter_row (fun r => r <| damage_taken_landing_through_3s :=
                             saturating_add 32 (damage_taken_landing_through_3s r) (observation_amount o) |>)
    (record <| attributed_damage_observations :=
                 {[observation_id o]} ∪ attributed_damage_observations record |>).

Definition record_damage_in_windows (o : DamageObservation) (call : Call) : Call :=
  fold_left (fun call id =>
    let '(self, e) := call in
    let self := alter_record (attribute_damage o) id self in
    (self, push_update self id e))
    (select_rows (in_damage_window call.1 (observation_id o)) call.1) call.

Definition damage_taken_of (self : SaddleDiveKernel) (id : DiveId) : option Z :=
  (fun record => damage_taken_landing_through_3s (row record)) <$> rows self !! id.

Definition attribute_retained_damage_for_dive (id : DiveId) (call : Call) : Call :=
  fold_left (fun call '(o, amount) =>
    let before := damage_taken_of call.1 id in
    let '(self, e) := record_damage_in_windows (mkDamageObservation o amount) call in
    if bool_decide (before = damage_taken_of self id) then (self, e) else (self, push_update self id e))
    (btree_list (damage_observations call.1)) call.

Definition may_observe_death (tick : SimulationTick) (record : DiveRecord) : bool :=
  negb (finalized record) && is_none (death_tick (row record)) && (launch_tick (row record) <=? tick).

Definition mark_death (observation_ticks : Z) (tick : SimulationTick) (r : DiveInstrumentationRow)
    : DiveInstrumentationRow :=
  let r := r <| death_tick := Some tick |> in
  match landing_tick r with
  | None => r <| censor_reason := Some DiedAirborne |>
  | Some landing =>
      let r := r <| death_within_3s := Some (tick <=? tick_saturating_add landing observation_ticks) |> in
      if is_none_or (remount_tick r) (fun remount => tick <? remount)
      then r <| censor_reason := Some DiedBeforeRemount |> else r
  end.

(** A change of the selected rows, each followed by its snapshot and, when it is
    complete, its final one. *)
Definition update_rows (f : DiveInstrumentationRow -> DiveInstrumentationRow) (ids : list DiveId)
    (call : Call) : Call :=
  fold_left (fun call id =>
    let '(self, e) := call in
    let self := alter_record (alter_row f) id self in
    maybe_finalize id (self, push_update self id e)) ids call.

Definition observe_death_internal (tick : SimulationTick) (call : Call) : Call :=
  update_rows (mark_death (observation_ticks call.1) tick) (select_rows (may_observe_death tick) call.1) call.

Definition window_elapsed (self : SaddleDiveKernel) (now : SimulationTick) (record : DiveRecord) : bool :=
  negb (finalized record || is_some (death_within_3s (row record)))
  && is_some_and (landing_tick (row record)) (fun landing =>
       tick_saturating_add landing (observation_ticks self) <=? now).

Definition resolve_elapsed_death_windows (now : SimulationTick) (call : Call) : Call :=
  update_rows (fun r => r <| death_within_3s := Some false |>)
    (select_rows (window_elapsed call.1 now) call.1) call.

Definition censor_open_rows (reason : DiveCensorReason) (self : SaddleDiveKernel) : Call :=
  update_rows (fun r => r <| censor_reason := Some reason |>)
    (select_rows (fun record => negb (finalized record)) self) (self, effects_default).

(** ** Transitions of the rider *)

(** One round of the recovery loop; [None] is its exit. *)
Definition recovery_round (tick : SimulationTick) (call : Call) : option Call :=
  let '(self, e) := call in
  landing ← landing self;
  match state self with
  | DiveLandingProne =>
      let prone_ticks :=
        saturating_add 64 (duration_ticks_ceil (dive_tick_rate self) 400)
          (if bad landing then duration_ticks_ceil (dive_tick_rate self) 400 else 0) in
      let boundary := tick_saturating_add (landed_tick landing) prone_ticks in
      if tick <? boundary then None
      else
        Some (self <| state := DiveLandingRecovery |> <| state_enter_tick := boundary |>,
              push_transition (mkSaddleDiveTransition DiveLandingProne DiveLandingRecovery boundary
                                 (Some (landed_dive_id landing))) e)
  | DiveLandingRecovery =>
      let boundary :=
        tick_saturating_add (state_enter_tick self) (duration_ticks_ceil (dive_tick_rate self) 400) in
      if tick <? boundary then None
      else
        Some (self <| state := OnFootReady |> <| state_enter_tick := boundary |>
                   <| state_dive_id := Some (landed_dive_id landing) |>,
              push_transition (mkSaddleDiveTransition DiveLandingRecovery OnFootReady boundary
                                 (Some (landed_dive_id landing))) e)
  | _ => None
  end.

Fixpoint recovery_loop (fuel : nat) (tick : SimulationTick) (call : Call) : Call :=
  match fuel with
  | O => call
  | S fuel =>
      match recovery_round tick call with
      | None => call
      | Some call => recovery_loop fuel tick call
      end
  end.

Definition advance_recovery_boundaries (tick : SimulationTick) (call : Call) : Call :=
  recovery_loop 3 tick call.

Definition ordinary_dismount (tick : SimulationTick) (call : Call) : Call :=
  let '(self, e) := call in
  let previous := state self in
  (self <| state := OnFootReady |> <| state_enter_tick := tick |> <| state_dive_id := None |>
        <| airborne := None |> <| landing := None |>,
   push_command (DetachRider None tick velocity_zero)
     (push_transition (mkSaddleDiveTransition previous OnFootReady tick None) e)).

Definition mark_remount (tick : SimulationTick) (record : DiveRecord) : DiveRecord :=
  if negb (finalized record) && is_none (remount_tick (row record)) then
    alter_row (fun r => r <| remount_tick := Some tick |>
                          <| time_to_remount_ticks :=
                               landing ← landing_tick r; checked_duration_since tick landing |>) record
  else record.

Definition complete_remount (tick : SimulationTick) (position : QuantizedOrigin) (call : Call) : Call :=
  let '(self, e) := call in
  let previous := state self in
  let dive := state_dive_id self in
  let self := self <| state := DiveMounted |> <| state_enter_tick := tick |> <| state_dive_id := None |>
                   <| airborne := None |> <| landing := None |> in
  let e := push_command (AttachRider tick position)
             (push_transition (mkSaddleDiveTransition previous DiveMounted tick dive) e) in
  match dive with
  | None => (self, e)
  | Some id =>
      let self := alter_record (mark_remount tick) id self in
      maybe_finalize id (self, push_update self id e)
  end.

(** ** Launch *)

Definition impulse_component (d : Z) : Z :=
  div_round_half_away (d * HORIZONTAL_LAUNCH_IMPULSE_MMPS) DIRECTION_UNITS.

Definition launch_velocity_of (input : SaddleDiveTickInput) (launch : LaunchDirection) : Velocity :=
  let v := horse_velocity_mmps input in
  mkVelocity
    (saturating_i128_to_i32 (vel_x v + impulse_component (dir_x (clamped_direction launch))))
    VERTICAL_POP_MMPS
    (saturating_i128_to_i32 (vel_z v + impulse_component (dir_z (clamped_direction launch)))).

Definition launch_row (self : SaddleDiveKernel) (id : DiveId) (input : SaddleDiveTickInput)
    : DiveInstrumentationRow :=
  let v := horse_velocity_mmps input in
  let launch := clamp_launch_direction v (chosen_direction input) in
  let w := launch_velocity_of input launch in
  mkDiveInstrumentationRow 1 (dive_authority_epoch self) (actor self) id (in_tick input)
    (equipped_weapon input) (horse_gait input) (vel_x v, vel_z v) (rounded_planar_magnitude v)
    (requested_direction launch) (requested_angle_millidegrees launch) (clamped_direction launch)
    (clamped_angle_millidegrees launch) (direction_was_clamped launch)
    HORIZONTAL_LAUNCH_IMPULSE_MMPS (rounded_magnitude_2d (vel_x w, vel_z w)) (rounded_magnitude_3d w)
    VERTICAL_POP_MMPS
    (i32_clamp (origin_y (in_rider_position input) - origin_y (horse_position input)))
    (nominal_airtime_ticks (dive_tick_rate self))
    None None 0 0 0 0 0 0 None None None 0 0 None None None None None.

Definition flying_dismount_event (self : SaddleDiveKernel) (id : DiveId) (input : SaddleDiveTickInput)
    : GameplayEventRow :=
  mkGameplayEventRow
    (mkGameplayEventId (dive_authority_epoch self) (actor self) (in_tick input) FlyingDismount id)
    FlyingDismount (in_tick input) (actor self) (Some id) (Some (equipped_weapon input)) None None 0
    (event_text FlyingDismount).

Definition launch_dive (input : SaddleDiveTickInput) (call : Call) : result Call SaddleDiveError * SaddleDiveKernel :=
  let '(self, e) := call in
  match next_dive_id self with
  | None => (Err DiveIdExhausted, self)
  | Some id =>
      let w := launch_velocity_of input (clamp_launch_direction (horse_velocity_mmps input) (chosen_direction input)) in
      let v := horse_velocity_mmps input in
      let previous := state self in
      let self := self <| next_dive_id := next ← checked_add 64 id 1; dive_id_new next |> in
      let self := self <| rows := <[id := mkDiveRecord (launch_row self id input) ∅ ∅ ∅ ∅ false]> (rows self) |>
                       <| state := DiveAirborne |> <| state_enter_tick := in_tick input |>
                       <| state_dive_id := Some id |>
                       <| airborne := Some (mkAirborneState id (in_tick input) w (vel_x w, vel_z w)) |>
                       <| landing := None |> in
      let e := push_transition (mkSaddleDiveTransition previous DiveAirborne (in_tick input) (Some id)) e in
      let e := push_command (DetachRider (Some id) (in_tick input) w) e in
      let e := push_command (StartHorseRunout id (in_tick input) (horse_position input)
                               (mkVelocity (vel_x v) 0 (vel_z v))) e in
      let e := e <| effect_events := effect_events e ++ [flying_dismount_event self id input] |> in
      (Ok (self, push_update self id e), self)
  end.

(** ** Landing *)

Definition mark_landing (airborne : AirborneState) (o : RiderMotionObservation) (slope : Z)
    (observation_ticks : Z) (r : DiveInstrumentationRow) : DiveInstrumentationRow :=
  if is_some (landing_tick r) then r
  else
    let bad := slope >? BAD_LANDING_THRESHOLD_MILLIDEGREES in
    let r := r <| landing_tick := Some (motion_tick o) |>
               <| airtime_ticks := checked_duration_since (motion_tick o) (air_launch_tick airborne) |>
               <| landing_terrain := Some (motion_terrain o) |>
               <| row_landing_slope_millidegrees := Some slope |>
               <| landing_outcome := Some (if bad then LandingBad else LandingGood) |> in
    let r :=
      if bad then
        r <| landing_damage := BAD_LANDING_DAMAGE |>
          <| damage_taken_landing_through_3s :=
               saturating_add 32 (damage_taken_landing_through_3s r) BAD_LANDING_DAMAGE |>
      else r in
    match death_tick r with
    | Some death =>
        r <| death_within_3s := Some (death <=? tick_saturating_add (motion_tick o) observation_ticks) |>
          <| censor_reason := Some DiedBeforeRemount |>
    | None => r
    end.

Definition landing_command (self : SaddleDiveKernel) (id : DiveId) (tick : SimulationTick)
    : RiderDamageCommand :=
  mkRiderDamageCommand (dive_authority_epoch self, (actor self, (id, tick))) BAD_LANDING_DAMAGE tick
    "bad_landing".

(** The damage of a bad landing, once per landing, and its death. *)
Definition hurt_rider (id : DiveId) (tick : SimulationTick) (call : Call) : Call :=
  let '(self, e) := call in
  let command := landing_command self id tick in
  match apply_landing_command (health self) command with
  | (h, None) => (self <| health := h |>, e)
  | (h, Some application) =>
      let call := (self <| health := h |>, push_command (ApplyRiderDamage command) e) in
      if died application then observe_death_internal tick call else call
  end.

Definition land_dive (air : AirborneState) (o : RiderMotionObservation) (slope : Z) (call : Call) : Call :=
  let '(self, e) := call in
  let id := air_dive_id air in
  let tick := motion_tick o in
  let is_bad := slope >? BAD_LANDING_THRESHOLD_MILLIDEGREES in
  let previous := state self in
  let self := self <| state := DiveLandingProne |> <| state_enter_tick := tick |>
                   <| state_dive_id := Some id |> <| airborne := None |>
                   <| landing := Some (mkLandingState id tick is_bad) |> in
  let e := push_transition (mkSaddleDiveTransition previous DiveLandingProne tick (Some id)) e in
  let self := alter_record (alter_row (mark_landing air o slope (observation_ticks self))) id self in
  let call := attribute_retained_damage_for_dive id (self, e) in
  let call := if is_bad then hurt_rider id tick call else call in
  maybe_finalize id (call.1, push_update call.1 id call.2).

(** ** The operations *)

Definition tick_output (self : SaddleDiveKernel) (tick : SimulationTick) (consumed : bool)
    (e : SaddleDiveEffects) : SaddleDiveTickOutput :=
  let s := dive_stance self in
  let scale :=
    match state self with
    | DiveLandingProne => MOVEMENT_SCALE_PRONE_MILLI
    | DiveLandingRecovery => MOVEMENT_SCALE_RECOVERY_MILLI
    | _ => MOVEMENT_SCALE_FULL_MILLI
    end in
  let '(sway, velocity) :=
    match airborne self with
    | Some air =>
        let elapsed := default 0 (checked_duration_since tick (air_launch_tick air)) in
        (dive_sway_scale_milli elapsed (nominal_airtime_ticks (dive_tick_rate self)),
         Some (mkVelocity (resolved_horizontal_velocity_mmps air).1
                 (airborne_vertical_velocity_mmps elapsed (dive_tick_rate self))
                 (resolved_horizontal_velocity_mmps air).2))
    | None => (1000, None)
    end in
  mkSaddleDiveTickOutput tick (state self) s (state_dive_id self) scale
    (bool_decide (s = Mounted) || bool_decide (s = SaddleDiveAirborne)) (bool_decide (s = Mounted))
    sway velocity consumed e.

Definition validate_identity (self : SaddleDiveKernel) (id : PlayerId) (epoch : Z) : option SaddleDiveError :=
  if negb (bool_decide (id = actor self)) then Some DiveActorMismatch
  else if negb (epoch =? dive_authority_epoch self) then Some DiveAuthorityEpochMismatch
  else None.

(** The interact edge in the state the timers left. *)
Definition interact (input : SaddleDiveTickInput) (edge : bool) (call : Call)
    : SaddleDiveKernel * result (Call * bool) SaddleDiveError :=
  let '(self, e) := call in
  match state self with
  | DiveMounted =>
      let self := self <| mounted_horse_grounded := horse_grounded input |> in
      if edge then
        if horse_grounded input then
          if MIN_DIVE_SPEED_MMPS * MIN_DIVE_SPEED_MMPS <=? planar_speed_squared (horse_velocity_mmps input)
          then
            match launch_dive input (self, e) with
            | (Ok call, _) => (call.1, Ok (call, true))
            | (Err err, self) => (self, Err err)
            end
          else let call := ordinary_dismount (in_tick input) (self, e) in (call.1, Ok (call, true))
        else (self, Ok ((self, e), true))
      else (self, Ok ((self, e), false))
  | OnFootReady =>
      if edge && horse_retrievable input
         && (planar_distance_squared (in_rider_position input) (horse_position input)
             <=? REMOUNT_RANGE_MM * REMOUNT_RANGE_MM)
      then
        let '(self, e) := complete_remount (in_tick input) (horse_position input) call in
        let self := self <| mounted_horse_grounded := horse_grounded input |> in
        (self, Ok ((self, e), true))
      else (self, Ok (call, false))
  | _ => (self, Ok (call, false))
  end.

Definition dive_begin_tick (self : SaddleDiveKernel) (input : SaddleDiveTickInput)
    : SaddleDiveKernel * result SaddleDiveTickOutput SaddleDiveError :=
  match validate_identity self (in_actor input) (in_authority_epoch input) with
  | Some err => (self, Err err)
  | None =>
      if is_some_and (current_tick self) (fun current => in_tick input <=? current)
      then (self, Err DiveTickReplay)
      else
        let self := self <| current_tick := Some (in_tick input) |> <| motion_resolved := false |>
                         <| rider_position := in_rider_position input |> in
        let '(self, e) := advance_recovery_boundaries (in_tick input) (self, effects_default) in
        let edge := interact_pressed input && negb (previous_interact_level self) in
        let self := self <| previous_interact_level := interact_pressed input |> in
        match interact input edge (self, e) with
        | (self, Err err) => (self, Err err)
        | (_, Ok ((self, e), consumed)) => (self, Ok (tick_output self (in_tick input) consumed e))
        end
  end.

Definition settle_observations_through (self : SaddleDiveKernel) (tick : SimulationTick) : Call :=
  if is_none_or (current_tick self) (fun current => tick >? current)
     || is_some_and (observation_watermark self) (fun watermark => tick <=? watermark)
  then (self, effects_default)
  else resolve_elapsed_death_windows tick
         (self <| observation_watermark := Some tick |>, effects_default).

Definition dive_resolve_motion (self : SaddleDiveKernel) (o : RiderMotionObservation)
    : SaddleDiveKernel * result SaddleDiveEffects SaddleDiveError :=
  if negb (bool_decide (current_tick self = Some (motion_tick o))) then (self, Err DiveTickMismatch)
  else if motion_resolved self then (self, Err DiveMotionAlreadyResolved)
  else
    let self := self <| motion_resolved := true |> <| rider_position := motion_position o |> in
    match airborne self with
    | None => (self, Ok effects_default)
    | Some air =>
        if negb (bool_decide (state self = DiveAirborne)) then (self, Ok effects_default)
        else
          match (if descending o
                 then normal ← landing_normal o; landing_slope_millidegrees normal else None) with
          | Some slope =>
              let '(self, e) := land_dive air o slope (self, effects_default) in (self, Ok e)
          | None =>
              (self <| airborne := Some (air <| resolved_horizontal_velocity_mmps :=
                         (vel_x (motion_velocity_mmps o), vel_z (motion_velocity_mmps o)) |>) |>,
               Ok effects_default)
          end
    end.

Definition record_shot_attempt (self : SaddleDiveKernel) (tick : SimulationTick) : Call :=
  if negb (bool_decide (current_tick self = Some tick)) || negb (bool_decide (state self = DiveAirborne))
  then (self, effects_default)
  else
    match state_dive_id self with
    | None => (self, effects_default)
    | Some id =>
        match rows self !! id with
        | None => (self, effects_default)
        | Some record =>
            if bool_decide (tick ∈ attempt_ticks record) then (self, effects_default)
            else
              let self := alter_record (fun record =>
                alter_row (fun r => r <| shot_attempts := saturating_add 16 (shot_attempts r) 1 |>)
                  (record <| attempt_ticks := {[tick]} ∪ attempt_ticks record |>)) id self in
              (self, push_update self id effects_default)
        end
    end.

Definition shot_rejected_by_row (record : DiveRecord) (shot : AcceptedShotMetadata) : bool :=
  finalized record
  || (meta_tick shot <? launch_tick (row record))
  || negb (bool_decide (meta_weapon shot = row_launch_weapon (row record)))
  || negb (bool_decide (meta_velocity shot = prelaunch_velocity_mmps (row record)))
  || is_some_and (landing_tick (row record)) (fun landing => meta_tick shot >? landing)
  || is_some (accepted_shots record !! meta_tick shot).

Definition record_accepted_shot (self : SaddleDiveKernel) (shot : AcceptedShotMetadata) : Call :=
  match meta_dive shot with
  | None => (self, effects_default)
  | Some id =>
      if negb (bool_decide (shooter shot = actor self)) || negb (metadata_is_consistent shot)
      then (self, effects_default)
      else
        match rows self !! id with
        | None => (self, effects_default)
        | Some record =>
            if shot_rejected_by_row record shot then (self, effects_default)
            else
              let self := alter_record (fun record =>
                alter_row (fun r => r <| shots_fired := saturating_add 16 (shots_fired r) 1 |>)
                  (record <| accepted_shots := <[meta_tick shot := shot]> (accepted_shots record) |>)) id self in
              (self, push_update self id effects_default)
        end
  end.

Definition count_hit (r : ShotResult) (row : DiveInstrumentationRow) : DiveInstrumentationRow :=
  let row := row <| shots_hit := saturating_add 16 (shots_hit row) 1 |>
                 <| damage_dealt := saturating_add 32 (damage_dealt row) (damage r) |> in
  let row := if bool_decide (hit_zone r = Some HitHead)
             then row <| headshots := saturating_add 16 (headshots row) 1 |> else row in
  if is_some_and (result_direction r) (fun d =>
       horizontal_dot (prelaunch_velocity_mmps row) (dir_x d, dir_z d) <? 0)
  then row <| reversal_hits := saturating_add 16 (reversal_hits row) 1 |> else row.

Definition record_authority_result (self : SaddleDiveKernel) (attribution : ShotResultAttribution) : Call :=
  let r := attributed_result attribution in
  if negb (bool_decide (result_shooter r = actor self)) || duplicate attribution
  then (self, effects_default)
  else
    match accepted_shot attribution with
    | None => (self, effects_default)
    | Some shot =>
        match meta_dive shot with
        | None => (self, effects_default <| effect_events := events attribution |>)
        | Some id =>
            match rows self !! id with
            | None => (self, effects_default)
            | Some record =>
                if finalized record || negb (bool_decide (accepted_shots record !! meta_tick shot = Some shot))
                   || bool_decide (meta_tick shot ∈ resolved_shots record)
                then (self, effects_default)
                else
                  let self := alter_record (fun record =>
                    let record := record <| resolved_shots := {[meta_tick shot]} ∪ resolved_shots record |> in
                    if bool_decide (outcome r = ShotHit) then alter_row (count_hit r) record else record) id self in
                  maybe_finalize id
                    (self, push_update self id (effects_default <| effect_events := events attribution |>))
            end
        end
    end.

Definition apply_external_damage (self : SaddleDiveKernel) (o : DamageObservation) : Call :=
  if negb (bool_decide (observation_actor (observation_id o) = actor self))
     || negb (observation_epoch (observation_id o) =? dive_authority_epoch self)
  then (self, effects_default)
  else
    match apply_external (health self) o with
    | (h, None) => (self <| health := h |>, effects_default)
    | (h, Some application) =>
        let self := self <| health := h |>
                         <| damage_observations :=
                              <[observation_id o := observation_amount o]> (damage_observations self) |> in
        let call := record_damage_in_windows o (self, effects_default) in
        if died application then observe_death_internal (observation_tick (observation_id o)) call else call
    end.

Definition dive_observe_death (self : SaddleDiveKernel) (tick : SimulationTick) : Call :=
  observe_death_internal tick
    (self <| health := (health_observe_death (health self)).1 |>, effects_default).

Definition end_match (self : SaddleDiveKernel) : Call := censor_open_rows CensorMatchEnded self.
Definition censor_not_observed (self : SaddleDiveKernel) : Call := censor_open_rows CensorNotObserved self.

Definition dive_reset (self : SaddleDiveKernel) (tick : SimulationTick) : Call :=
  let '(self, e) := censor_open_rows CensorReset self in
  let previous := state self in
  let dive := state_dive_id self in
  let self := self <| state := DiveMounted |> <| state_enter_tick := tick |> in
  let self := if is_none_or (current_tick self) (fun current => tick >? current)
              then self <| current_tick := Some tick |> else self in
  let self := self <| motion_resolved := true |> <| state_dive_id := None |> <| airborne := None |>
                   <| landing := None |> <| mounted_horse_grounded := true |>
                   <| previous_interact_level := false |> <| health := health_reset (health self) |> in
  if bool_decide (previous = DiveMounted) then (self, e)
  else (self, push_transition (mkSaddleDiveTransition previous DiveMounted tick dive) e).
