(* ===== verification/SaddleDiveRun.v ===== *)
(** * Runs of the saddle dive: lifecycle, recovery, and instrumentation

    What holds of a rider's kernel over any sequence of its operations. The rows
    evolve by a small set of record steps; the rider's states follow a lifecycle. *)

From S2P Require Import Prelude MachineInt Ordered Clock Bytes Identifiers Stance Combat.
From S2P Require Import DiveMath Aim WeaponKernel DiveVectors ShotLedger SaddleDive.
Open Scope Z_scope.

(** ** The steps of one record *)

Definition open_reason (reason : DiveCensorReason) : Prop :=
  reason = CensorMatchEnded \/ reason = CensorReset \/ reason = CensorNotObserved.

(** [w] is the length of the observation windows; the label is the final snapshot a
    step emits. *)
Inductive record_step (w : Z) : DiveRecord -> option DiveInstrumentationRow -> DiveRecord -> Prop :=
| step_damage o landing record :
    finalized record = false -> observation_id o ∉ attributed_damage_observations record ->
    landing_tick (row record) = Some landing ->
    landing <= observation_tick (observation_id o) <= tick_saturating_add landing w ->
    record_step w record None (attribute_damage o record)
| step_death tick record :
    finalized record = false -> death_tick (row record) = None -> launch_tick (row record) <= tick ->
    record_step w record None (alter_row (mark_death w tick) record)
| step_window landing record :
    finalized record = false -> death_within_3s (row record) = None ->
    landing_tick (row record) = Some landing ->
    record_step w record None (alter_row (fun r => r <| death_within_3s := Some false |>) record)
| step_censor reason record :
    finalized record = false -> open_reason reason ->
    record_step w record None (alter_row (fun r => r <| censor_reason := Some reason |>) record)
| step_finalize k record :
    should_finalize k record = true ->
    record_step w record (Some (row record)) (record <| finalized := true |>)
| step_remount tick record : record_step w record None (mark_remount tick record)
| step_landing air o slope record :
    record_step w record None (alter_row (mark_landing air o slope w) record)
| step_attempt tick record :
    tick ∉ attempt_ticks record ->
    record_step w record None
      (alter_row (fun r => r <| shot_attempts := saturating_add 16 (shot_attempts r) 1 |>)
         (record <| attempt_ticks := {[tick]} ∪ attempt_ticks record |>))
| step_accept shot record :
    shot_rejected_by_row record shot = false ->
    record_step w record None
      (alter_row (fun r => r <| shots_fired := saturating_add 16 (shots_fired r) 1 |>)
         (record <| accepted_shots := <[meta_tick shot := shot]> (accepted_shots record) |>))
| step_result r shot record :
    finalized record = false -> accepted_shots record !! meta_tick shot = Some shot ->
    meta_tick shot ∉ resolved_shots record ->
    record_step w record None
      (let record := record <| resolved_shots := {[meta_tick shot]} ∪ resolved_shots record |> in
       if bool_decide (outcome r = ShotHit) then alter_row (count_hit r) record else record).

(** Any number of them, on the rows of a kernel, with the snapshots emitted. *)
Inductive rows_evolve (w : Z) : gmap DiveId DiveRecord -> gmap DiveId DiveRecord ->
    list DiveInstrumentationRow -> Prop :=
| evolve_refl m : rows_evolve w m m []
| evolve_step m id record f record' m' F :
    m !! id = Some record -> record_step w record f record' ->
    rows_evolve w (<[id := record']> m) m' F ->
    rows_evolve w m m' (option_list f ++ F).

Lemma rows_evolve_trans w m1 m2 m3 F1 F2 :
  rows_evolve w m1 m2 F1 -> rows_evolve w m2 m3 F2 -> rows_evolve w m1 m3 (F1 ++ F2).
Proof. induction 1; intros H2; [done|]. rewrite <- app_assoc. econstructor; eauto. Qed.

Lemma rows_evolve_one w m id record f record' :
  m !! id = Some record -> record_step w record f record' ->
  rows_evolve w m (<[id := record']> m) (option_list f).
Proof. intros H1 H2. rewrite <- (app_nil_r (option_list f)). econstructor; eauto using evolve_refl. Qed.

(** ** Work on the rows leaves the rider alone *)

Definition row_work (w : Z) (call call' : Call) : Prop :=
  exists F, rows_evolve w (rows call.1) (rows call'.1) F /\
    call'.1 = call.1 <| rows := rows call'.1 |> /\
    telemetry_finalized call'.2 = telemetry_finalized call.2 ++ F /\
    transitions call'.2 = transitions call.2 /\ commands call'.2 = commands call.2 /\
    effect_events call'.2 = effect_events call.2.

#[export] Instance row_work_preorder w : PreOrder (row_work w).
Proof.
  split.
  - intros [k e]. exists []. split; [constructor|]. rewrite app_nil_r. split_and!; try done. by destruct k.
  - intros [k1 e1] [k2 e2] [k3 e3] (F1 & H1 & Hk1 & Hf1 & Ht1 & Hc1 & He1) (F2 & H2 & Hk2 & Hf2 & Ht2 & Hc2 & He2).
    exists (F1 ++ F2). cbn [fst snd] in *. split; [by eapply rows_evolve_trans|].
    split; [rewrite Hk2, Hk1; done|]. rewrite Hf2, Hf1, app_assoc. split_and!; congruence.
Qed.

Lemma row_work_fold {A} w (f : Call -> A -> Call) (l : list A) : forall call,
  (forall call a, row_work w call (f call a)) -> row_work w call (fold_left f l call).
Proof.
  induction l as [|a l IH]; intros call Hf; [reflexivity|].
  cbn [fold_left]. etransitivity; [apply Hf|]. by apply IH.
Qed.

Lemma push_update_work w k id e : row_work w (k, e) (k, push_update k id e).
Proof.
  exists []. split; [constructor|]. rewrite app_nil_r. unfold push_update.
  destruct (rows k !! id); split_and!; try done; by destruct k.
Qed.

(** A record's step, in place. *)
Lemma alter_record_work w k id e f :
  (forall record, rows k !! id = Some record -> record_step w record None (f record) \/ f record = record) ->
  row_work w (k, e) (alter_record f id k, e).
Proof.
  intros Hf. destruct (rows k !! id) as [record|] eqn:E.
  - assert (Hrows : alter f id (rows k) = <[id := f record]> (rows k)).
    { apply map_eq. intros i. destruct (decide (i = id)) as [->|].
      - by rewrite lookup_alter_eq, E, lookup_insert_eq.
      - by rewrite lookup_alter_ne, lookup_insert_ne. }
    exists []. split; [|by rewrite app_nil_r]. unfold alter_record. simpl. rewrite Hrows.
    destruct (Hf record eq_refl) as [Hs|Hid]; [exact (rows_evolve_one w _ _ _ _ _ E Hs)|].
    rewrite Hid, insert_id by done. constructor.
  - exists []. split; [|by rewrite app_nil_r]. unfold alter_record. simpl.
    rewrite (proj2 (map_eq_iff (alter f id (rows k)) (rows k))); [constructor|].
    intros i. destruct (decide (i = id)) as [->|]; [by rewrite lookup_alter_eq, E|by rewrite lookup_alter_ne].
Qed.

Lemma maybe_finalize_work w id call : row_work w call (maybe_finalize id call).
Proof.
  destruct call as [k e]. unfold maybe_finalize. destruct (rows k !! id) as [record|] eqn:E; [|reflexivity].
  destruct (should_finalize k record) eqn:Hs; [|reflexivity].
  exists [row record]. cbn [fst snd]. split; [|done].
  assert (Hrows : rows (alter_record (fun record => record <| finalized := true |>) id k)
                  = <[id := record <| finalized := true |>]> (rows k)).
  { unfold alter_record. simpl. apply map_eq. intros i. destruct (decide (i = id)) as [->|].
    - by rewrite lookup_alter_eq, E, lookup_insert_eq.
    - by rewrite lookup_alter_ne, lookup_insert_ne. }
  rewrite Hrows. apply (rows_evolve_one w _ _ record (Some (row record))); [done|]. by econstructor.
Qed.

(** The kernel's parameters a record step may read are the same after row work. *)
Lemma row_work_frame w call call' :
  row_work w call call' -> call'.1 = call.1 <| rows := rows call'.1 |>.
Proof. by intros (F & _ & H & _). Qed.

(** ** The selected rows *)

Lemma elem_of_select_rows f k id :
  id ∈ select_rows f k <-> exists record, rows k !! id = Some record /\ f record = true.
Proof.
  unfold select_rows. rewrite list_elem_of_fmap. split.
  - intros ([i record] & -> & Hin). apply list_elem_of_filter in Hin as [Hf Hin].
    exists record. split; [by apply elem_of_btree_list|done].
  - intros (record & Hr & Hf). exists (id, record). split; [done|].
    apply list_elem_of_filter. split; [done|]. by apply elem_of_btree_list.
Qed.

Lemma NoDup_fst_filter {K V} (P : K * V -> Prop) `{!forall x, Decision (P x)} (l : list (K * V)) :
  NoDup l.*1 -> NoDup (filter P l).*1.
Proof.
  induction l as [|x l IH]; [done|]. rewrite fmap_cons, NoDup_cons. intros [Hx Hl].
  rewrite filter_cons. case_decide; [|by apply IH]. rewrite fmap_cons. constructor; [|by apply IH].
  intros Hin. apply Hx. apply list_elem_of_fmap in Hin as (y & -> & Hy).
  apply list_elem_of_filter in Hy as [_ Hy]. apply list_elem_of_fmap. by exists y.
Qed.

Lemma select_rows_NoDup f k : NoDup (select_rows f k).
Proof. apply NoDup_fst_filter, btree_keys_NoDup. Qed.

Lemma maybe_finalize_other id i call :
  i <> id -> rows (maybe_finalize id call).1 !! i = rows call.1 !! i.
Proof.
  destruct call as [k e]. intros Hi. unfold maybe_finalize. destruct (rows k !! id); [|done].
  destruct (should_finalize k _); [|done]. simpl. by rewrite lookup_alter_ne.
Qed.

Lemma maybe_finalize_same id call record :
  rows call.1 !! id = Some record ->
  exists b, rows (maybe_finalize id call).1 !! id = Some (record <| finalized := b |>) /\
    (finalized record = true -> b = true).
Proof.
  destruct call as [k e]. cbn [fst]. intros Hr. unfold maybe_finalize. rewrite Hr.
  destruct (should_finalize k record); [|exists (finalized record); split; [by destruct record|done]].
  exists true. split; [|done]. simpl. by rewrite lookup_alter_eq, Hr.
Qed.

Lemma update_rows_cons f id ids call :
  update_rows f (id :: ids) call =
  update_rows f ids
    (maybe_finalize id (alter_record (alter_row f) id call.1,
                        push_update (alter_record (alter_row f) id call.1) id call.2)).
Proof. by destruct call. Qed.

Lemma update_rows_work w f (P : DiveRecord -> Prop) ids : forall call,
  NoDup ids -> (forall id, id ∈ ids -> exists record, rows call.1 !! id = Some record /\ P record) ->
  (forall record, P record -> record_step w record None (alter_row f record)) ->
  row_work w call (update_rows f ids call).
Proof.
  induction ids as [|id ids IH]; intros [k e] Hnd Hin HP; [reflexivity|].
  apply NoDup_cons in Hnd as [Hid Hnd]. rewrite update_rows_cons. cbn [fst snd].
  etransitivity; [|apply IH; [done| |done]].
  - etransitivity; [apply (alter_record_work w k id e (alter_row f))|].
    + intros record Hr. left. apply HP. destruct (Hin id ltac:(left)) as (record' & Hr' & Hp).
      cbn [fst] in Hr'. congruence.
    + etransitivity; [apply push_update_work|]. apply maybe_finalize_work.
  - intros i Hi. destruct (Hin i ltac:(by right)) as (record & Hr & Hp). exists record. split; [|done].
    rewrite maybe_finalize_other by (intros ->; done). cbn [fst]. unfold alter_record. simpl.
    rewrite lookup_alter_ne by (intros ->; done). exact Hr.
Qed.

(** What a selection guarantees at each of its rows. *)
Lemma select_rows_all f k id :
  id ∈ select_rows f k -> exists record, rows k !! id = Some record /\ f record = true.
Proof. apply elem_of_select_rows. Qed.

Lemma observe_death_work tick call :
  row_work (observation_ticks call.1) call (observe_death_internal tick call).
Proof.
  apply (update_rows_work _ _ (fun record => may_observe_death tick record = true)).
  - apply select_rows_NoDup.
  - apply select_rows_all.
  - intros record. unfold may_observe_death, is_none. intros H. btrue.
    apply step_death; [done| |by apply Z.leb_le]. by destruct (death_tick (row record)).
Qed.

Lemma resolve_windows_work tick call :
  row_work (observation_ticks call.1) call (resolve_elapsed_death_windows tick call).
Proof.
  apply (update_rows_work _ _ (fun record => window_elapsed call.1 tick record = true)).
  - apply select_rows_NoDup.
  - apply select_rows_all.
  - intros record. unfold window_elapsed. intros H. btrue. apply is_some_and_true in H1 as (landing & Hl & _).
    apply (step_window _ landing); [done| |done]. by destruct (death_within_3s (row record)).
Qed.

Lemma censor_work reason k :
  open_reason reason -> row_work (observation_ticks k) (k, effects_default) (censor_open_rows reason k).
Proof.
  intros Hr. apply (update_rows_work _ _ (fun record => negb (finalized record) = true)).
  - apply select_rows_NoDup.
  - apply select_rows_all.
  - intros record H. btrue. by apply step_censor.
Qed.

(** Damage reaches every row whose window it falls into, and no other. *)
Lemma damage_fold o ids : forall call,
  NoDup ids ->
  let call' := fold_left (fun call id =>
    let '(self, e) := call in
    let self := alter_record (attribute_damage o) id self in (self, push_update self id e)) ids call in
  (forall i, rows call'.1 !! i =
     if decide (i ∈ ids) then attribute_damage o <$> rows call.1 !! i else rows call.1 !! i) /\
  ((forall id, id ∈ ids -> exists record, rows call.1 !! id = Some record /\
      record_step (observation_ticks call.1) record None (attribute_damage o record)) ->
   row_work (observation_ticks call.1) call call').
Proof.
  induction ids as [|id ids IH]; intros [k e] Hnd; cbn [fold_left].
  { split; [|done]. intros i. by rewrite decide_False by (apply not_elem_of_nil). }
  apply NoDup_cons in Hnd as [Hid Hnd].
  destruct (IH (alter_record (attribute_damage o) id k,
                push_update (alter_record (attribute_damage o) id k) id e) Hnd) as [IH1 IH2]. cbn [fst] in *.
  split.
  - intros i. rewrite IH1. unfold alter_record. simpl. destruct (decide (i = id)) as [->|Hne].
    + rewrite decide_False by done. rewrite lookup_alter_eq. by rewrite decide_True by left.
    + rewrite lookup_alter_ne by done. destruct (decide (i ∈ ids)) as [Hin|Hout].
      * by rewrite decide_True by (by right).
      * rewrite decide_False; [done|]. by apply not_elem_of_cons.
  - intros Hstep. etransitivity; [|apply IH2].
    + etransitivity; [apply alter_record_work|apply push_update_work].
      intros record Hr. left. destruct (Hstep id ltac:(left)) as (record' & Hr' & Hs). congruence.
    + intros i Hi. destruct (Hstep i ltac:(by right)) as (record & Hr & Hs). exists record.
      split; [|exact Hs]. unfold alter_record. simpl. rewrite lookup_alter_ne by (intros ->; done). exact Hr.
Qed.

Lemma in_damage_window_true k o record :
  in_damage_window k o record = true <->
  finalized record = false /\ o ∉ attributed_damage_observations record /\
  exists landing, landing_tick (row record) = Some landing /\
    landing <= observation_tick o <= tick_saturating_add landing (observation_ticks k).
Proof.
  unfold in_damage_window. rewrite !andb_true_iff, !negb_true_iff, bool_decide_eq_false, is_some_and_true.
  setoid_rewrite andb_true_iff. setoid_rewrite Z.leb_le. naive_solver.
Qed.

Lemma record_damage_spec o call :
  row_work (observation_ticks call.1) call (record_damage_in_windows o call) /\
  (forall i, rows (record_damage_in_windows o call).1 !! i =
     (fun record => if in_damage_window call.1 (observation_id o) record
                    then attribute_damage o record else record) <$> rows call.1 !! i).
Proof.
  destruct (damage_fold o (select_rows (in_damage_window call.1 (observation_id o)) call.1) call
              (select_rows_NoDup _ _)) as [H1 H2].
  split.
  - apply H2. intros id (record & Hr & Hw)%select_rows_all. exists record. split; [done|].
    apply in_damage_window_true in Hw as (Hf & Ho & landing & Hl & Hle). by eapply step_damage.
  - intros i. unfold record_damage_in_windows. rewrite H1. destruct (decide _) as [Hin|Hout].
    + apply elem_of_select_rows in Hin as (record & -> & Hw). simpl. by rewrite Hw.
    + destruct (rows call.1 !! i) as [record|] eqn:E; [|done]. simpl.
      destruct (in_damage_window _ _ _) eqn:Hw; [|done]. destruct Hout. apply elem_of_select_rows. eauto.
Qed.

(** ** Retained damage at a landing *)

(** The observation is counted wherever its window is open. *)
Definition covers (w : Z) (m : gmap DiveId DiveRecord) (o : DamageObservationId) : Prop :=
  forall i record landing, m !! i = Some record -> finalized record = false ->
    landing_tick (row record) = Some landing ->
    landing <= observation_tick o <= tick_saturating_add landing w ->
    o ∈ attributed_damage_observations record.

Lemma record_damage_covers o call :
  covers (observation_ticks call.1) (rows (record_damage_in_windows o call).1) (observation_id o).
Proof.
  intros i record landing. rewrite (proj2 (record_damage_spec o call)).
  destruct (rows call.1 !! i) as [r|] eqn:E; [|done]. cbn [fmap option_fmap option_map]. intros Hr.
  apply (inj Some) in Hr. destruct (in_damage_window call.1 (observation_id o) r) eqn:Hw; subst record.
  - intros _ _ _. simpl. set_solver.
  - intros Hf Hl Hle. destruct (decide (observation_id o ∈ attributed_damage_observations r)); [done|].
    rewrite (proj2 (in_damage_window_true call.1 (observation_id o) r)) in Hw; [done|]. eauto 6.
Qed.

Lemma record_damage_covers_other o o' call :
  covers (observation_ticks call.1) (rows call.1) o' ->
  covers (observation_ticks call.1) (rows (record_damage_in_windows o call).1) o'.
Proof.
  intros Hc i record landing. rewrite (proj2 (record_damage_spec o call)).
  destruct (rows call.1 !! i) as [r|] eqn:E; [|done]. cbn [fmap option_fmap option_map]. intros Hr.
  apply (inj Some) in Hr. destruct (in_damage_window _ _ r); subst record; [|exact (Hc i _ landing E)].
  intros Hf Hl Hle. simpl in *. apply elem_of_union_r. by eapply Hc.
Qed.

Lemma frame_ticks w call call' : row_work w call call' -> observation_ticks call'.1 = observation_ticks call.1.
Proof. intros ->%row_work_frame. done. Qed.

Definition retained_round (id : DiveId) (call : Call) (entry : DamageObservationId * Z) : Call :=
  let '(o, amount) := entry in
  let before := damage_taken_of call.1 id in
  let '(self, e) := record_damage_in_windows (mkDamageObservation o amount) call in
  if bool_decide (before = damage_taken_of self id) then (self, e) else (self, push_update self id e).

Lemma retained_round_spec id call entry :
  row_work (observation_ticks call.1) call (retained_round id call entry) /\
  rows (retained_round id call entry).1
    = rows (record_damage_in_windows (mkDamageObservation entry.1 entry.2) call).1.
Proof.
  destruct entry as [o amount]. unfold retained_round. cbn [fst snd].
  pose proof (proj1 (record_damage_spec (mkDamageObservation o amount) call)) as Hw.
  destruct (record_damage_in_windows _ call) as [k e]. case_bool_decide; (split; [|done]); [done|].
  etransitivity; [exact Hw|]. apply push_update_work.
Qed.

Lemma retained_fold_spec id l : forall call,
  let call' := fold_left (retained_round id) l call in
  row_work (observation_ticks call.1) call call' /\
  (forall o, covers (observation_ticks call.1) (rows call.1) o ->
             covers (observation_ticks call.1) (rows call'.1) o) /\
  Forall (fun entry => covers (observation_ticks call.1) (rows call'.1) entry.1) l.
Proof.
  induction l as [|entry l IH]; intros call; cbn [fold_left]; [split_and!; try done; constructor|].
  destruct (retained_round_spec id call entry) as [Hw Hrows].
  pose proof (frame_ticks _ _ _ Hw) as Ht.
  destruct (IH (retained_round id call entry)) as (H1 & H2 & H3). rewrite Ht in *.
  split; [by etransitivity|]. split.
  - intros o Ho. apply H2. rewrite Hrows. by apply record_damage_covers_other.
  - constructor; [|exact H3]. apply H2. rewrite Hrows.
    exact (record_damage_covers (mkDamageObservation entry.1 entry.2) call).
Qed.

Lemma attribute_retained_spec id call :
  let call' := attribute_retained_damage_for_dive id call in
  row_work (observation_ticks call.1) call call' /\
  (forall o, is_Some (damage_observations call.1 !! o) ->
     covers (observation_ticks call.1) (rows call'.1) o).
Proof.
  destruct (retained_fold_spec id (btree_list (damage_observations call.1)) call) as (H1 & _ & H3).
  split; [exact H1|]. intros o [amount Ho]. rewrite Forall_forall in H3.
  apply (H3 (o, amount)). by apply elem_of_btree_list.
Qed.

(** The same, where the rider may also be hurt. *)
Definition rider_work (w : Z) (call call' : Call) : Prop :=
  exists F h, rows_evolve w (rows call.1) (rows call'.1) F /\
    call'.1 = call.1 <| health := h |> <| rows := rows call'.1 |> /\
    telemetry_finalized call'.2 = telemetry_finalized call.2 ++ F /\
    transitions call'.2 = transitions call.2 /\ effect_events call'.2 = effect_events call.2.

Lemma row_rider_work w call call' : row_work w call call' -> rider_work w call call'.
Proof.
  intros (F & H1 & H2 & H3 & H4 & _ & H6). exists F, (health call.1). split; [done|].
  split; [rewrite H2; by destruct call.1|]. by split_and!.
Qed.

Lemma rider_row_work w c1 c2 c3 : rider_work w c1 c2 -> row_work w c2 c3 -> rider_work w c1 c3.
Proof.
  intros (F & h & H1 & H2 & H3 & H4 & H5) (G & G1 & G2 & G3 & G4 & _ & G6). exists (F ++ G), h.
  split; [by eapply rows_evolve_trans|]. split; [rewrite G2, H2; done|].
  rewrite G3, H3, app_assoc. split_and!; congruence.
Qed.

Lemma row_then_rider_work w c1 c2 c3 : row_work w c1 c2 -> rider_work w c2 c3 -> rider_work w c1 c3.
Proof.
  intros (F & H1 & H2 & H3 & H4 & _ & H6) (G & h & G1 & G2 & G3 & G4 & G5). exists (F ++ G), h.
  split; [by eapply rows_evolve_trans|]. split; [rewrite G2, H2; done|].
  rewrite G3, H3, app_assoc. split_and!; congruence.
Qed.

Lemma hurt_rider_work id tick call : rider_work (observation_ticks call.1) call (hurt_rider id tick call).
Proof.
  destruct call as [k e]. unfold hurt_rider. cbn [fst].
  destruct (apply_landing_command (health k) _) as [h [application|]].
  2:{ exists [], h. split; [constructor|]. by rewrite app_nil_r. }
  set (call1 := (k <| health := h |>, push_command _ e)).
  assert (Hc : rider_work (observation_ticks k) (k, e) call1).
  { exists [], h. split; [constructor|]. cbn [fst snd]. by rewrite app_nil_r. }
  destruct (died application); [|exact Hc].
  eapply rider_row_work; [exact Hc|]. exact (observe_death_work tick call1).
Qed.

(** ** Runs *)

Inductive dive_op :=
| DBegin (input : SaddleDiveTickInput)
| DMotion (o : RiderMotionObservation)
| DSettle (tick : SimulationTick)
| DAttempt (tick : SimulationTick)
| DAccepted (shot : AcceptedShotMetadata)
| DResult (attribution : ShotResultAttribution)
| DDamage (o : DamageObservation)
| DDeath (tick : SimulationTick)
| DEndMatch
| DNotObserved
| DReset (tick : SimulationTick)
| DEpoch (epoch : Z).

Definition dive_step (k : SaddleDiveKernel) (op : dive_op) : Call :=
  match op with
  | DBegin input =>
      match dive_begin_tick k input with
      | (k, Ok out) => (k, out_effects out)
      | (k, Err _) => (k, effects_default)
      end
  | DMotion o =>
      match dive_resolve_motion k o with (k, Ok e) => (k, e) | (k, Err _) => (k, effects_default) end
  | DSettle tick => settle_observations_through k tick
  | DAttempt tick => record_shot_attempt k tick
  | DAccepted shot => record_accepted_shot k shot
  | DResult attribution => record_authority_result k attribution
  | DDamage o => apply_external_damage k o
  | DDeath tick => dive_observe_death k tick
  | DEndMatch => end_match k
  | DNotObserved => censor_not_observed k
  | DReset tick => dive_reset k tick
  | DEpoch epoch => ((dive_set_authority_epoch k epoch).1, effects_default)
  end.

Fixpoint dive_run (k : SaddleDiveKernel) (ops : list dive_op) : SaddleDiveKernel * list SaddleDiveEffects :=
  match ops with
  | [] => (k, [])
  | op :: ops =>
      let '(k, e) := dive_step k op in
      let '(k, es) := dive_run k ops in (k, e :: es)
  end.

(** Ticks before the clock's last. *)
Definition dive_tick_ok (tick : SimulationTick) : Prop := 0 <= tick < u64_max.
Definition dive_op_ok (op : dive_op) : Prop :=
  match op with
  | DBegin input => dive_tick_ok (in_tick input)
  | DReset tick => dive_tick_ok tick
  | DDamage o => 0 <= observation_amount o
  | _ => True
  end.

(** ** The lifecycle *)

Inductive rider_step : SaddleDiveState -> SaddleDiveState -> Prop :=
| rider_launches : rider_step DiveMounted DiveAirborne
| rider_dismounts : rider_step DiveMounted OnFootReady
| rider_lands : rider_step DiveAirborne DiveLandingProne
| rider_gets_up : rider_step DiveLandingProne DiveLandingRecovery
| rider_recovers : rider_step DiveLandingRecovery OnFootReady
| rider_mounts s : s <> DiveMounted -> rider_step s DiveMounted.

Fixpoint follows (s : SaddleDiveState) (ts : list SaddleDiveTransition) (s' : SaddleDiveState) : Prop :=
  match ts with
  | [] => s = s'
  | t :: ts => transition_from t = s /\ rider_step s (transition_to t) /\ follows (transition_to t) ts s'
  end.

Lemma follows_app s1 ts1 s2 ts2 s3 : follows s1 ts1 s2 -> follows s2 ts2 s3 -> follows s1 (ts1 ++ ts2) s3.
Proof.
  revert s1. induction ts1 as [|t ts1 IH]; intros s1; simpl; [by intros ->|].
  intros (H1 & H2 & H3) H4. eauto.
Qed.

(** ** The recovery schedule *)

Definition phase_ticks (rate : Z) : Z := duration_ticks_ceil rate 400.
Definition prone_end (rate : Z) (l : LandingState) : SimulationTick :=
  tick_saturating_add (landed_tick l) (saturating_add 64 (phase_ticks rate) (if bad l then phase_ticks rate else 0)).
Definition recovery_end (rate : Z) (l : LandingState) : SimulationTick :=
  tick_saturating_add (prone_end rate l) (phase_ticks rate).
Definition recovery_state (rate : Z) (l : LandingState) (t : SimulationTick) : SaddleDiveState :=
  if t <? prone_end rate l then DiveLandingProne
  else if t <? recovery_end rate l then DiveLandingRecovery else OnFootReady.

Lemma phase_ticks_bounds rate : 0 < rate < 2 ^ 32 -> 0 < phase_ticks rate < 2 ^ 32.
Proof.
  intros Hr. unfold phase_ticks, duration_ticks_ceil, saturating_mul, div_ceil.
  change (2 ^ 32) with 4294967296 in *. change (2 ^ 64) with 18446744073709551616.
  destruct (Z.eqb_spec rate 0); [lia|]. rewrite Z.min_l by lia. div_lia.
Qed.

Lemma recovery_ends rate l :
  0 < rate < 2 ^ 32 -> 0 <= landed_tick l < u64_max ->
  landed_tick l < prone_end rate l /\ prone_end rate l <= recovery_end rate l.
Proof.
  intros Hr Hl. pose proof (phase_ticks_bounds rate Hr) as Hp. unfold recovery_end, prone_end, tick_saturating_add.
  unfold saturating_add, u64_max in *. change (2 ^ 64) with 18446744073709551616 in *.
  change (2 ^ 32) with 4294967296 in *. destruct (bad l); lia.
Qed.

Record rider_inv (k : SaddleDiveKernel) : Prop := {
  ri_rate : 0 < dive_tick_rate k < 2 ^ 32;
  ri_clock : forall c, current_tick k = Some c -> dive_tick_ok c;
  ri_next : forall n, next_dive_id k = Some n -> 1 <= n < 2 ^ 64;
  ri_rows : forall id record, rows k !! id = Some record ->
    row_dive_id (row record) = id /\ forall n, next_dive_id k = Some n -> id < n;
  ri_air : match airborne k with
           | Some a => state k = DiveAirborne /\ state_dive_id k = Some (air_dive_id a) /\
                       is_Some (rows k !! air_dive_id a)
           | None => state k <> DiveAirborne
           end;
  ri_landing : match landing k with
               | Some l => exists c, current_tick k = Some c /\ 0 <= landed_tick l <= c /\
                   state k = recovery_state (dive_tick_rate k) l c /\
                   state_dive_id k = Some (landed_dive_id l) /\
                   (state k = DiveLandingRecovery -> state_enter_tick k = prone_end (dive_tick_rate k) l)
               | None => state k <> DiveLandingProne /\ state k <> DiveLandingRecovery
               end;
}.

(** The kernel after its timers. *)
Definition recovered (k : SaddleDiveKernel) (s : SaddleDiveState) (enter : SimulationTick)
    (id : option DiveId) : SaddleDiveKernel :=
  k <| state := s |> <| state_enter_tick := enter |> <| state_dive_id := id |>.

Lemma recovered_id k : recovered k (state k) (state_enter_tick k) (state_dive_id k) = k.
Proof. by destruct k. Qed.
Lemma effects_app_nil e : e <| transitions := transitions e ++ [] |> = e.
Proof. rewrite app_nil_r. by destruct e. Qed.

Definition gets_up (l : LandingState) (boundary : SimulationTick) : SaddleDiveTransition :=
  mkSaddleDiveTransition DiveLandingProne DiveLandingRecovery boundary (Some (landed_dive_id l)).
Definition recovers (l : LandingState) (boundary : SimulationTick) : SaddleDiveTransition :=
  mkSaddleDiveTransition DiveLandingRecovery OnFootReady boundary (Some (landed_dive_id l)).

(** What the loop does from each phase, by the two boundaries. *)
Definition recovery_transitions (rate : Z) (l : LandingState) (s : SaddleDiveState) (tick : SimulationTick)
    : list SaddleDiveTransition :=
  match s with
  | DiveLandingProne =>
      if tick <? prone_end rate l then []
      else if tick <? recovery_end rate l then [gets_up l (prone_end rate l)]
      else [gets_up l (prone_end rate l); recovers l (recovery_end rate l)]
  | DiveLandingRecovery => if tick <? recovery_end rate l then [] else [recovers l (recovery_end rate l)]
  | _ => []
  end.

Lemma recovery_loop_done fuel tick k e :
  state k = OnFootReady -> recovery_loop fuel tick (k, e) = (k, e).
Proof.
  intros Hs. destruct fuel as [|fuel]; [done|]. cbn [recovery_loop recovery_round].
  rewrite Hs. by destruct (landing k).
Qed.

Lemma recovery_loop_recovery fuel tick k e l :
  landing k = Some l -> state k = DiveLandingRecovery -> state_enter_tick k = prone_end (dive_tick_rate k) l ->
  recovery_loop (S (S fuel)) tick (k, e) =
    if tick <? recovery_end (dive_tick_rate k) l then (k, e)
    else (recovered k OnFootReady (recovery_end (dive_tick_rate k) l) (Some (landed_dive_id l)),
          push_transition (recovers l (recovery_end (dive_tick_rate k) l)) e).
Proof.
  intros Hl Hs He.
  assert (Hround : recovery_round tick (k, e) =
    if tick <? recovery_end (dive_tick_rate k) l then None
    else Some (recovered k OnFootReady (recovery_end (dive_tick_rate k) l) (Some (landed_dive_id l)),
               push_transition (recovers l (recovery_end (dive_tick_rate k) l)) e)).
  { cbn [recovery_round]. rewrite Hl, Hs, He. cbn [mbind option_bind]. unfold recovery_end, phase_ticks.
    by destruct (tick <? _). }
  change (recovery_loop (S (S fuel)) tick (k, e)) with
    (match recovery_round tick (k, e) with None => (k, e) | Some call => recovery_loop (S fuel) tick call end).
  rewrite Hround. destruct (tick <? recovery_end (dive_tick_rate k) l); [done|].
  by rewrite (recovery_loop_done (S fuel) tick).
Qed.

Lemma recovery_loop_prone tick k e l :
  landing k = Some l -> state k = DiveLandingProne -> state_dive_id k = Some (landed_dive_id l) ->
  prone_end (dive_tick_rate k) l <= recovery_end (dive_tick_rate k) l ->
  recovery_loop 3 tick (k, e) =
    let rate := dive_tick_rate k in
    if tick <? prone_end rate l then (k, e)
    else if tick <? recovery_end rate l then
      (recovered k DiveLandingRecovery (prone_end rate l) (Some (landed_dive_id l)),
       push_transition (gets_up l (prone_end rate l)) e)
    else (recovered k OnFootReady (recovery_end rate l) (Some (landed_dive_id l)),
          push_transition (recovers l (recovery_end rate l)) (push_transition (gets_up l (prone_end rate l)) e)).
Proof.
  intros Hl Hs Hid Hle. cbn zeta. change (recovery_loop 3 tick (k, e)) with
    (match recovery_round tick (k, e) with None => (k, e) | Some call => recovery_loop 2 tick call end).
  assert (Hround : recovery_round tick (k, e) =
    if tick <? prone_end (dive_tick_rate k) l then None
    else Some (recovered k DiveLandingRecovery (prone_end (dive_tick_rate k) l) (Some (landed_dive_id l)),
               push_transition (gets_up l (prone_end (dive_tick_rate k) l)) e)).
  { cbn [recovery_round]. rewrite Hl, Hs. cbn [mbind option_bind]. unfold prone_end, phase_ticks.
    destruct (tick <? _); [done|]. unfold recovered, gets_up. rewrite <- Hid. by destruct k. }
  rewrite Hround. destruct (tick <? prone_end (dive_tick_rate k) l); [done|].
  rewrite (recovery_loop_recovery 0 tick _ _ l); [|exact Hl|done|done].
  change (dive_tick_rate (recovered k _ _ _)) with (dive_tick_rate k).
  by destruct (tick <? recovery_end (dive_tick_rate k) l).
Qed.

(** The timers bring the rider to the state of the tick, along its lifecycle. *)
Lemma recovery_spec k e c tick l :
  0 < dive_tick_rate k < 2 ^ 32 -> landing k = Some l -> 0 <= landed_tick l <= c -> c < tick -> dive_tick_ok tick ->
  state k = recovery_state (dive_tick_rate k) l c -> state_dive_id k = Some (landed_dive_id l) ->
  (state k = DiveLandingRecovery -> state_enter_tick k = prone_end (dive_tick_rate k) l) ->
  exists enter,
    advance_recovery_boundaries tick (k, e)
      = (recovered k (recovery_state (dive_tick_rate k) l tick) enter (Some (landed_dive_id l)),
         e <| transitions := transitions e ++ recovery_transitions (dive_tick_rate k) l (state k) tick |>) /\
    follows (state k) (recovery_transitions (dive_tick_rate k) l (state k) tick)
      (recovery_state (dive_tick_rate k) l tick) /\
    (recovery_state (dive_tick_rate k) l tick = DiveLandingRecovery -> enter = prone_end (dive_tick_rate k) l).
Proof.
  intros Hr Hl Hc Hlt [_ Hok] Hs Hid He. unfold advance_recovery_boundaries.
  destruct (recovery_ends (dive_tick_rate k) l Hr ltac:(lia)) as [Hp Hre].
  set (pe := prone_end (dive_tick_rate k) l) in *. set (re := recovery_end (dive_tick_rate k) l) in *.
  unfold recovery_state in *. fold pe re in Hs |- *.
  destruct (Z.ltb_spec c pe) as [Hcp|Hcp]; [|destruct (Z.ltb_spec c re) as [Hcr|Hcr]].
  - rewrite (recovery_loop_prone tick k e l Hl Hs Hid Hre). cbn zeta. fold pe re. rewrite Hs.
    cbn [recovery_transitions]. fold pe re.
    destruct (Z.ltb_spec tick pe); [|destruct (Z.ltb_spec tick re)].
    + exists (state_enter_tick k). rewrite effects_app_nil, <- Hs, <- Hid, recovered_id. split_and!; try done.
    + exists pe. split; [done|]. split; [|done]. split; [done|]. split; [constructor|done].
    + exists re. split; [|split; [|done]].
      * f_equal. unfold push_transition. simpl. by rewrite <- app_assoc.
      * split; [done|]. split; [constructor|]. split; [done|]. split; [constructor|done].
  - rewrite (recovery_loop_recovery 1 tick k e l Hl Hs (He Hs)). fold re. rewrite Hs.
    cbn [recovery_transitions]. fold re.
    rewrite (proj2 (Z.ltb_ge tick pe)) by lia. destruct (Z.ltb_spec tick re).
    + exists (state_enter_tick k). rewrite effects_app_nil, <- Hs, <- Hid, recovered_id. split; [done|]. split; [by rewrite Hs|]. intros _. by apply He.
    + exists re. split; [done|]. split; [|done]. split; [done|]. split; [constructor|done].
  - rewrite (proj2 (Z.ltb_ge tick pe)), (proj2 (Z.ltb_ge tick re)) by lia.
    exists (state_enter_tick k). rewrite Hs. cbn [recovery_transitions]. rewrite effects_app_nil.
    split; [|split; done]. cbn [recovery_loop recovery_round]. rewrite Hl, Hs. cbn [mbind option_bind].
    by rewrite <- Hs, <- Hid, recovered_id.
Qed.

(** ** What evolution keeps *)

Definition record_reach (w : Z) : relation DiveRecord := rtc (fun r r' => exists f, record_step w r f r').

Lemma evolve_lookup w m m' F id :
  rows_evolve w m m' F ->
  match m !! id, m' !! id with
  | Some r, Some r' => record_reach w r r'
  | None, None => True
  | _, _ => False
  end.
Proof.
  induction 1 as [m|m i record f record' m' F Hi Hs Hev IH].
  { destruct (m !! id); [apply rtc_refl|done]. }
  destruct (decide (i = id)) as [->|Hne].
  - rewrite lookup_insert_eq in IH. rewrite Hi. destruct (m' !! id) as [r'|]; [|done].
    eapply rtc_l; [|exact IH]. by exists f.
  - rewrite lookup_insert_ne in IH by done. exact IH.
Qed.

Lemma evolve_backward w m m' F id r' :
  rows_evolve w m m' F -> m' !! id = Some r' -> exists r, m !! id = Some r /\ record_reach w r r'.
Proof.
  intros Hev Hr. pose proof (evolve_lookup w m m' F id Hev) as H. rewrite Hr in H.
  destruct (m !! id) as [r|]; [|done]. by exists r.
Qed.

Lemma evolve_forward w m m' F id r :
  rows_evolve w m m' F -> m !! id = Some r -> exists r', m' !! id = Some r' /\ record_reach w r r'.
Proof.
  intros Hev Hr. pose proof (evolve_lookup w m m' F id Hev) as H. rewrite Hr in H.
  destruct (m' !! id) as [r'|]; [|done]. by exists r'.
Qed.

(** A property every step keeps is kept by evolution. *)
Lemma reach_ind w (P : DiveRecord -> Prop) r r' :
  (forall r f r', record_step w r f r' -> P r -> P r') -> record_reach w r r' -> P r -> P r'.
Proof. intros HP. induction 1 as [|r1 r2 r3 [f Hs] _ IH]; eauto. Qed.

Ltac record_cases H :=
  inversion H; subst; clear H;
  unfold attribute_damage, alter_row, mark_remount, mark_landing, mark_death, count_hit in *;
  repeat case_match; simpl in *; simplify_eq.

Lemma reach_dive_id w r r' : record_reach w r r' -> row_dive_id (row r') = row_dive_id (row r).
Proof.
  intros Hr. apply (reach_ind w (fun r' => row_dive_id (row r') = row_dive_id (row r)) _ _) in Hr; [done| |done].
  clear. intros r1 f r2 Hs. record_cases Hs; intros; congruence.
Qed.

Lemma reach_finalized w r r' : record_reach w r r' -> finalized r = true -> finalized r' = true.
Proof.
  apply (reach_ind w (fun r => finalized r = true)). clear. intros r1 f r2 Hs. record_cases Hs; intros; congruence.
Qed.

(** ** One operation *)

Definition fresh_record (r : DiveInstrumentationRow) : DiveRecord := mkDiveRecord r ∅ ∅ ∅ ∅ false.

(** The rows a launch starts from. *)
Definition launched (k : SaddleDiveKernel) (m : gmap DiveId DiveRecord) : Prop :=
  m = rows k \/
  exists id input k0, next_dive_id k = Some id /\ m = <[id := fresh_record (launch_row k0 id input)]> (rows k) /\
    dive_tick_rate k0 = dive_tick_rate k.

Definition step_ok (k : SaddleDiveKernel) (call : Call) : Prop :=
  rider_inv call.1 /\ follows (state k) (transitions call.2) (state call.1) /\
  dive_tick_rate call.1 = dive_tick_rate k /\ actor call.1 = actor k /\
  exists m, launched k m /\ rows_evolve (observation_ticks k) m (rows call.1) (telemetry_finalized call.2).

Lemma rider_work_inv w call call' : rider_work w call call' -> rider_inv call.1 -> rider_inv call'.1.
Proof.
  intros (F & h & Hev & Hk & _) [H1 H2 H3 H4 H5 H6]. rewrite Hk. split; simpl; try done.
  - intros id record Hr. destruct (evolve_backward _ _ _ _ _ _ Hev Hr) as (r & Hr0 & Hreach).
    destruct (H4 id r Hr0) as [Hid Hlt]. split; [|exact Hlt]. by rewrite (reach_dive_id _ _ _ Hreach).
  - destruct (airborne call.1) as [a|]; [|done]. destruct H5 as (Ha & Hs & [r Hr]). split_and!; try done.
    destruct (evolve_forward _ _ _ _ _ _ Hev Hr) as (r' & -> & _). by eexists.
Qed.

Lemma step_ok_refl k : rider_inv k -> step_ok k (k, effects_default).
Proof.
  intros Hk. split_and!; try done. exists (rows k). split; [by left|constructor].
Qed.

Lemma step_ok_work k call call' :
  step_ok k call -> rider_work (observation_ticks k) call call' -> step_ok k call'.
Proof.
  intros (H1 & H2 & H3 & H4 & m & Hm & Hev) Hw. split; [by eapply rider_work_inv|].
  destruct Hw as (F & h & Hev' & Hk & Hf & Ht & _).
  split; [rewrite Ht, Hk; exact H2|]. split; [rewrite Hk; exact H3|]. split; [rewrite Hk; exact H4|].
  exists m. split; [done|]. rewrite Hf. by eapply rows_evolve_trans.
Qed.

Lemma step_ok_row_work k call call' :
  step_ok k call -> row_work (observation_ticks call.1) call call' -> step_ok k call'.
Proof.
  intros H Hw. eapply step_ok_work; [exact H|]. apply row_rider_work.
  assert (Hr : dive_tick_rate call.1 = dive_tick_rate k) by apply H.
  unfold observation_ticks in *. by rewrite <- Hr.
Qed.

Ltac rider_frame :=
  match goal with H : rider_inv ?k |- rider_inv _ => destruct H; split; simpl in *; done end.

Lemma record_shot_attempt_ok k tick : rider_inv k -> step_ok k (record_shot_attempt k tick).
Proof.
  intros Hk. unfold record_shot_attempt. pose proof (step_ok_refl k Hk) as H0.
  destruct (_ || _); [done|]. destruct (state_dive_id k) as [id|]; [|done].
  destruct (rows k !! id) as [record|] eqn:E; [|done]. case_bool_decide as Ht; [done|].
  eapply step_ok_row_work; [exact H0|]. etransitivity; [|apply push_update_work].
  apply (alter_record_work _ k id effects_default). intros r Hr. left. apply step_attempt. congruence.
Qed.

Lemma record_accepted_shot_ok k shot : rider_inv k -> step_ok k (record_accepted_shot k shot).
Proof.
  intros Hk. unfold record_accepted_shot. pose proof (step_ok_refl k Hk) as H0.
  destruct (meta_dive shot) as [id|]; [|done]. destruct (_ || _); [done|].
  destruct (rows k !! id) as [record|] eqn:E; [|done].
  destruct (shot_rejected_by_row record shot) eqn:Hs; [done|].
  eapply step_ok_row_work; [exact H0|]. etransitivity; [|apply push_update_work].
  apply (alter_record_work _ k id effects_default). intros r Hr. left. apply step_accept. congruence.
Qed.

Lemma record_authority_result_ok k at_ : rider_inv k -> step_ok k (record_authority_result k at_).
Proof.
  intros Hk. unfold record_authority_result. pose proof (step_ok_refl k Hk) as H0.
  destruct (_ || duplicate at_); [done|]. destruct (accepted_shot at_) as [shot|]; [|done].
  set (e1 := effects_default <| effect_events := events at_ |>).
  assert (H1 : step_ok k (k, e1)) by exact H0.
  destruct (meta_dive shot) as [id|]; [|exact H1].
  destruct (rows k !! id) as [record|] eqn:E; [|done].
  destruct (finalized record || _ || _) eqn:Hs; [done|].
  rewrite !orb_false_iff, negb_false_iff, bool_decide_eq_true, bool_decide_eq_false in Hs.
  destruct Hs as [[Hf Ha] Hr].
  eapply step_ok_row_work; [exact H1|]. etransitivity; [|apply maybe_finalize_work].
  etransitivity; [|apply push_update_work]. apply (alter_record_work _ k id e1).
  intros r Hr'. left. assert (r = record) as -> by congruence. by apply step_result.
Qed.

Lemma damage_ok k o : rider_inv k -> step_ok k (apply_external_damage k o).
Proof.
  intros Hk. unfold apply_external_damage. pose proof (step_ok_refl k Hk) as H0.
  destruct (_ || _); [done|]. destruct (apply_external (health k) o) as [h [application|]].
  2:{ destruct H0 as (H1 & H2 & H3 & H4 & H5). split; [rider_frame|done]. }
  set (k1 := _ <| damage_observations := _ |>).
  assert (H1 : step_ok k (k1, effects_default)).
  { destruct H0 as (H1 & H2 & H3 & H4 & H5). split; [|done]. cbn [fst] in *. clear -H1. rider_frame. }
  assert (H2 : step_ok k (record_damage_in_windows o (k1, effects_default))).
  { eapply step_ok_row_work; [exact H1|]. apply (proj1 (record_damage_spec o (k1, effects_default))). }
  destruct (died application); [|exact H2]. eapply step_ok_row_work; [exact H2|apply observe_death_work].
Qed.

Lemma death_ok k tick : rider_inv k -> step_ok k (dive_observe_death k tick).
Proof.
  intros Hk. unfold dive_observe_death. eapply step_ok_row_work; [|apply observe_death_work].
  destruct (step_ok_refl k Hk) as (H1 & H2 & H3 & H4 & H5). split; [|done]. cbn [fst] in *. clear -H1. rider_frame.
Qed.

Lemma settle_ok k tick : rider_inv k -> step_ok k (settle_observations_through k tick).
Proof.
  intros Hk. unfold settle_observations_through. pose proof (step_ok_refl k Hk) as H0. destruct (_ || _); [done|].
  eapply step_ok_row_work; [|apply resolve_windows_work].
  destruct H0 as (H1 & H2 & H3 & H4 & H5). split; [|done]. cbn [fst] in *. clear -H1. rider_frame.
Qed.

Lemma censor_ok k reason : rider_inv k -> open_reason reason -> step_ok k (censor_open_rows reason k).
Proof.
  intros Hk Hr. eapply step_ok_row_work; [by apply step_ok_refl|]. by apply (censor_work reason k).
Qed.

Lemma reset_ok k tick : rider_inv k -> dive_tick_ok tick -> step_ok k (dive_reset k tick).
Proof.
  intros Hk Ht. unfold dive_reset.
  pose proof (censor_ok k CensorReset Hk ltac:(right; by left)) as H0.
  destruct (censor_open_rows CensorReset k) as [k1 e1].
  destruct H0 as (Hi & Hf & Hr & Ha & m & Hm & Hev). cbn [fst snd] in *.
  set (k2 := if is_none_or _ _ then _ else _).
  set (k3 := k2 <| motion_resolved := true |> <| state_dive_id := None |> <| airborne := None |>
     <| landing := None |> <| mounted_horse_grounded := true |> <| previous_interact_level := false |>
     <| health := health_reset (health k2) |>).
  assert (Hk3 : rider_inv k3 /\ state k3 = DiveMounted /\ dive_tick_rate k3 = dive_tick_rate k1 /\
                actor k3 = actor k1 /\ rows k3 = rows k1).
  { destruct Hi as [H1 H2 H3 H4 H5 H6]. unfold k3, k2.
    destruct (is_none_or _ _); (split; [|done]); split; simpl; try done. by intros c [= <-]. }
  destruct Hk3 as (Hi3 & Hs3 & Hr3 & Ha3 & Hrows3).
  case_bool_decide as Hp; (split; [exact Hi3|]); cbn [fst snd].
  - split; [rewrite Hs3, <- Hp; exact Hf|]. split; [congruence|]. split; [congruence|].
    exists m. rewrite Hrows3. done.
  - split. { eapply follows_app; [exact Hf|]. rewrite Hs3. simpl. split; [done|]. split; [by constructor|done]. }
    split; [congruence|]. split; [congruence|]. exists m. rewrite Hrows3. done.
Qed.

Lemma land_dive_ok k air o slope :
  rider_inv k -> airborne k = Some air -> current_tick k = Some (motion_tick o) ->
  step_ok k (land_dive air o slope (k, effects_default)).
Proof.
  intros Hk Hair Hcur. pose proof Hk as [Hr Hcl Hn Hrows Ha Hl]. rewrite Hair in Ha.
  destruct Ha as (Hs & Hid & Hrow). pose proof (Hcl _ Hcur) as [Hc0 Hc1]. unfold land_dive.
  set (k1 := k <| state := DiveLandingProne |> <| state_enter_tick := motion_tick o |>
               <| state_dive_id := Some (air_dive_id air) |> <| airborne := None |> <| landing := _ |>).
  set (e1 := push_transition _ _).
  assert (H1 : step_ok k (k1, e1)).
  { split; [|split; [|split; [done|split; [done|exists (rows k); split; [by left|constructor]]]]].
    - split; simpl; try done. exists (motion_tick o). split; [done|]. split; [lia|].
      set (l := mkLandingState _ _ _). destruct (recovery_ends (dive_tick_rate k) l Hr) as [Hp _]; [done|].
      split; [|done]. unfold recovery_state. by rewrite (proj2 (Z.ltb_lt (motion_tick o) _) Hp).
    - simpl. rewrite Hs. split; [done|]. split; [constructor|done]. }
  set (k2 := alter_record _ _ k1).
  assert (H2 : step_ok k (k2, e1)).
  { eapply step_ok_row_work; [exact H1|]. apply (alter_record_work _ k1). intros r _. left. apply step_landing. }
  assert (H3 : step_ok k (attribute_retained_damage_for_dive (air_dive_id air) (k2, e1))).
  { eapply step_ok_row_work; [exact H2|]. apply (proj1 (attribute_retained_spec _ (k2, e1))). }
  set (call3 := attribute_retained_damage_for_dive _ _) in *.
  assert (H4 : step_ok k (if slope >? BAD_LANDING_THRESHOLD_MILLIDEGREES
                          then hurt_rider (air_dive_id air) (motion_tick o) call3 else call3)).
  { destruct (slope >? _); [|exact H3]. eapply step_ok_work; [exact H3|].
    assert (Hrate : dive_tick_rate call3.1 = dive_tick_rate k) by apply H3.
    replace (observation_ticks k) with (observation_ticks call3.1) by (unfold observation_ticks; by rewrite Hrate).
    apply hurt_rider_work. }
  set (call4 := if slope >? _ then _ else _) in *. clearbody call4.
  eapply step_ok_row_work; [exact H4|]. etransitivity; [|apply maybe_finalize_work].
  destruct call4 as [k4 e4]. apply push_update_work.
Qed.

Lemma motion_ok k o : rider_inv k -> step_ok k (dive_step k (DMotion o)).
Proof.
  intros Hk. cbn [dive_step]. unfold dive_resolve_motion. pose proof (step_ok_refl k Hk) as H0.
  case_bool_decide as Hc; cbn [negb]; [|done]. destruct (motion_resolved k); [done|].
  set (k1 := k <| motion_resolved := true |> <| rider_position := motion_position o |>).
  assert (Hk1 : rider_inv k1) by (clear -Hk; rider_frame).
  assert (H1 : forall call, step_ok k1 call -> step_ok k call).
  { intros call (A & B & C & D & m & Hm & Hev). split_and!; try done. by exists m. }
  change (airborne k1) with (airborne k). change (state k1) with (state k).
  destruct (airborne k) as [air|] eqn:Hair; [|by apply H1, step_ok_refl].
  case_bool_decide as Hs; cbn [negb]; [|by apply H1, step_ok_refl].
  destruct (if descending o then _ else None) as [slope|].
  - pose proof (land_dive_ok k1 air o slope Hk1 Hair Hc) as H2.
    destruct (land_dive air o slope (k1, effects_default)) as [k2 e2]. by apply H1.
  - set (k2 := k1 <| airborne := _ |>). split; [|split; [done|split; [done|split; [done|]]]].
    + destruct Hk1 as [Hr Hcl Hn Hrows Ha Hl]. change (airborne k1) with (airborne k) in Ha. rewrite Hair in Ha.
      split; simpl; try done.
    + exists (rows k). split; [by left|constructor].
Qed.

(** ** The interact edge *)

Lemma next_dive_id_spec id n :
  (next ← checked_add 64 id 1; dive_id_new next) = Some n -> n = id + 1 /\ id + 1 < 2 ^ 64.
Proof.
  destruct (checked_add 64 id 1) as [m|] eqn:E; [|done]. apply checked_add_Some in E as [-> E].
  cbn [mbind option_bind]. unfold dive_id_new. destruct (id + 1 =? 0); [done|]. by intros [= <-].
Qed.

Lemma launch_ok k input e :
  rider_inv k -> state k = DiveMounted -> telemetry_finalized e = [] ->
  current_tick k = Some (in_tick input) ->
  match launch_dive input (k, e) with
  | (Ok (k', e'), _) =>
      rider_inv k' /\ follows DiveMounted [mkSaddleDiveTransition DiveMounted DiveAirborne (in_tick input) (state_dive_id k')] (state k') /\
      transitions e' = transitions e ++ [mkSaddleDiveTransition DiveMounted DiveAirborne (in_tick input) (state_dive_id k')] /\
      telemetry_finalized e' = [] /\ launched k (rows k') /\
      dive_tick_rate k' = dive_tick_rate k /\ actor k' = actor k
  | (Err _, k') => k' = k
  end.
Proof.
  intros [Hr Hcl Hn Hrows Ha Hl] Hs Hf Hc. unfold launch_dive.
  destruct (next_dive_id k) as [id|] eqn:Hid; [|done].
  set (k1 := k <| next_dive_id := _ |>).
  set (k2 := k1 <| rows := _ |> <| state := _ |> <| state_enter_tick := _ |> <| state_dive_id := _ |>
                <| airborne := _ |> <| landing := _ |>).
  set (e2 := _ <| effect_events := _ |>).
  assert (Hpu : transitions (push_update k2 id e2) = transitions e2 /\
                telemetry_finalized (push_update k2 id e2) = telemetry_finalized e2).
  { unfold push_update. by destruct (rows k2 !! id). }
  destruct Hpu as [Hpt Hpf]. specialize (Hn id eq_refl).
  split; [|split; [|split; [|split; [|split; [|split]]]]]; try done.
  - split; simpl; try done.
    + intros n [-> Hlt]%next_dive_id_spec. lia.
    + intros i record. rewrite lookup_insert_Some. intros [[<- <-]|[Hne Hi]].
      * split; [done|]. intros n [-> _]%next_dive_id_spec. lia.
      * destruct (Hrows i record Hi) as [Hi1 Hi2]. split; [done|]. intros n [-> _]%next_dive_id_spec.
        specialize (Hi2 id eq_refl). lia.
    + split_and!; try done. rewrite lookup_insert_eq. by eexists.
  - split; [done|]. split; [constructor|done].
  - rewrite Hpt. unfold e2. simpl. by rewrite Hs.
  - by rewrite Hpf.
  - right. exists id, input, k1. split; [done|]. by split.
Qed.

Lemma remount_ok k tick p e :
  rider_inv k -> state k = OnFootReady ->
  let '(k', e') := complete_remount tick p (k, e) in
  rider_inv k' /\ state k' = DiveMounted /\
  transitions e' = transitions e ++ [mkSaddleDiveTransition OnFootReady DiveMounted tick (state_dive_id k)] /\
  dive_tick_rate k' = dive_tick_rate k /\ actor k' = actor k /\
  exists F, telemetry_finalized e' = telemetry_finalized e ++ F /\
    rows_evolve (observation_ticks k) (rows k) (rows k') F.
Proof.
  intros Hk Hs. unfold complete_remount.
  set (k1 := k <| state := _ |> <| state_enter_tick := _ |> <| state_dive_id := _ |> <| airborne := _ |> <| landing := _ |>).
  set (e1 := push_command _ _).
  assert (Hk1 : rider_inv k1) by (destruct Hk; by split).
  assert (Hw : row_work (observation_ticks k1) (k1, e1)
    (match state_dive_id k with
     | None => (k1, e1)
     | Some id => maybe_finalize id (alter_record (mark_remount tick) id k1,
                                     push_update (alter_record (mark_remount tick) id k1) id e1)
     end)).
  { destruct (state_dive_id k) as [id|]; [|reflexivity]. etransitivity; [|apply maybe_finalize_work].
    etransitivity; [|apply push_update_work]. apply (alter_record_work _ k1 id e1). intros r _. left. apply step_remount. }
  destruct (match state_dive_id k with None => _ | Some id => _ end) as [k2 e2].
  pose proof (rider_work_inv _ _ _ (row_rider_work _ _ _ Hw) Hk1) as Hk2.
  destruct Hw as (F & Hev & Hf & Hfin & Ht & _). cbn [fst snd] in *.
  split; [done|]. split; [by rewrite Hf|]. split; [rewrite Ht; unfold e1; simpl; by rewrite Hs|].
  split; [by rewrite Hf|]. split; [by rewrite Hf|]. by exists F.
Qed.

(** The interact edge makes at most one transition of the lifecycle. *)
Definition interact_post (k : SaddleDiveKernel) (e : SaddleDiveEffects) (k' : SaddleDiveKernel)
    (out : result (Call * bool) SaddleDiveError) : Prop :=
  rider_inv k' /\ dive_tick_rate k' = dive_tick_rate k /\ actor k' = actor k /\
  match out with
  | Err _ => state k = DiveMounted /\ state k' = state k /\ rows k' = rows k
  | Ok (k1, e', _) =>
      k1 = k' /\ exists ts m, transitions e' = transitions e ++ ts /\ follows (state k) ts (state k') /\
      launched k m /\ rows_evolve (observation_ticks k) m (rows k') (telemetry_finalized e')
  end.

Lemma interact_quiet k k0 e b :
  rider_inv k0 -> dive_tick_rate k0 = dive_tick_rate k -> actor k0 = actor k -> state k0 = state k ->
  rows k0 = rows k -> telemetry_finalized e = [] -> interact_post k e k0 (Ok ((k0, e), b)).
Proof.
  intros Hi Hr Ha Hs Hrows Hf. split_and!; try done. exists [], (rows k). rewrite app_nil_r, Hf, Hrows.
  split_and!; try done; [by left|constructor].
Qed.

Lemma interact_ok k input edge e :
  rider_inv k -> telemetry_finalized e = [] -> current_tick k = Some (in_tick input) ->
  let '(k', out) := interact input edge (k, e) in interact_post k e k' out.
Proof.
  intros Hk Hf Hc. unfold interact.
  destruct (state k) eqn:Hs; try by apply interact_quiet.
  - set (k0 := k <| mounted_horse_grounded := horse_grounded input |>).
    assert (Hk0 : rider_inv k0) by (clear -Hk; rider_frame).
    assert (Hq0 : forall b, interact_post k e k0 (Ok ((k0, e), b))) by (intros; by apply interact_quiet).
    destruct edge; [|apply Hq0]. destruct (horse_grounded input); [|apply Hq0].
    destruct (_ <=? _).
    + pose proof (launch_ok k0 input e Hk0 Hs Hf Hc) as Hl.
      destruct (launch_dive input (k0, e)) as [[[k1 e1]|err] k2].
      * destruct Hl as (Hi & Hfo & Ht & Hfi & Hla & Hr & Ha). cbn [fst]. split_and!; try done.
        exists [mkSaddleDiveTransition DiveMounted DiveAirborne (in_tick input) (state_dive_id k1)], (rows k1).
        rewrite Hfi, Hs. split_and!; try done. constructor.
      * subst k2. by split_and!.
    + cbn [ordinary_dismount fst].
      split. { destruct Hk0. by split. } split_and!; try done.
      eexists [mkSaddleDiveTransition DiveMounted OnFootReady (in_tick input) None], (rows k).
      cbn [transitions push_command push_transition set_field]. simpl. rewrite Hs, Hf. split; [done|].
      split; [split; [done|split; [constructor|done]]|]. split; [by left|constructor].
  - destruct (_ && _); [|by apply interact_quiet].
    pose proof (remount_ok k (in_tick input) (horse_position input) e Hk Hs) as Hm.
    destruct (complete_remount _ _ _) as [k1 e1]. destruct Hm as (Hi & Hs1 & Ht & Hr & Ha & F & HF & Hev).
    split; [clear -Hi; rider_frame|]. split_and!; try done.
    exists [mkSaddleDiveTransition OnFootReady DiveMounted (in_tick input) (state_dive_id k)], (rows k).
    rewrite HF, Hf, Hs. split; [exact Ht|]. split; [|split; [by left|exact Hev]].
    simpl. split; [done|]. split; [by constructor|]. by rewrite Hs1.
Qed.

Lemma tick_output_effects k t c e : out_effects (tick_output k t c e) = e.
Proof. unfold tick_output. by destruct (airborne k). Qed.

(** A tick: the timers, then the edge. *)
Lemma begin_ok k input : rider_inv k -> dive_tick_ok (in_tick input) -> step_ok k (dive_step k (DBegin input)).
Proof.
  intros Hk Ht. cbn [dive_step]. unfold dive_begin_tick. pose proof (step_ok_refl k Hk) as H0.
  destruct (validate_identity k _ _); [done|]. destruct (is_some_and _ _) eqn:Hc; [done|].
  set (tick := in_tick input) in *.
  set (k1 := k <| current_tick := Some tick |> <| motion_resolved := false |> <| rider_position := _ |>).
  assert (Hrec : exists ts, advance_recovery_boundaries tick (k1, effects_default)
      = ((advance_recovery_boundaries tick (k1, effects_default)).1, effects_default <| transitions := ts |>) /\
    let k2 := (advance_recovery_boundaries tick (k1, effects_default)).1 in
    rider_inv k2 /\ follows (state k) ts (state k2) /\ current_tick k2 = Some tick /\
    dive_tick_rate k2 = dive_tick_rate k /\ actor k2 = actor k /\ rows k2 = rows k /\
    next_dive_id k2 = next_dive_id k /\ (state k2 = DiveMounted -> ts = [])).
  { pose proof Hk as [Hr Hcl Hn Hrows Ha Hl].
    assert (Hclock : forall c, Some tick = Some c -> dive_tick_ok c) by (intros c [= <-]; exact Ht).
    destruct (landing k) as [l|] eqn:El.
    - destruct Hl as (c & Hcur & Hl0 & Hs & Hid & He). rewrite Hcur in Hc. cbn [is_some_and] in Hc.
      destruct (recovery_spec k1 effects_default c tick l Hr El Hl0 ltac:(lia) Ht Hs Hid He) as (enter & -> & Hf & Hen).
      assert (Hnm : recovery_state (dive_tick_rate k) l tick <> DiveMounted)
        by (unfold recovery_state; by repeat case_match).
      eexists. split; [reflexivity|]. cbn [fst]. split; [|by split_and!].
      split; simpl; try done.
      + assert (Hnone : airborne k = None).
        { destruct (airborne k) as [a|]; [|done]. destruct Ha as (Hs' & _). rewrite Hs in Hs'.
          unfold recovery_state in Hs'. by repeat case_match. }
        rewrite Hnone. unfold recovery_state. by repeat case_match.
      + rewrite El. exists tick. split; [done|]. split; [lia|]. by split_and!.
    - exists []. assert (Hloop : advance_recovery_boundaries tick (k1, effects_default) = (k1, effects_default)).
      { unfold advance_recovery_boundaries. cbn [recovery_loop recovery_round].
        change (landing k1) with (landing k). by rewrite El. }
      rewrite Hloop. split; [done|]. cbn [fst]. split; [|by split_and!]. split; simpl; try done. by rewrite El. }
  destruct Hrec as (ts & Heq & Hk2 & Hf2 & Hc2 & Hr2 & Ha2 & Hrows2 & Hn2 & Hts). rewrite Heq.
  set (k2 := (advance_recovery_boundaries tick (k1, effects_default)).1) in *. clearbody k2. clear Heq.
  set (k3 := k2 <| previous_interact_level := _ |>).
  assert (Hk3 : rider_inv k3) by (clear -Hk2; rider_frame).
  pose proof (interact_ok k3 input (interact_pressed input && negb (previous_interact_level k2))
    (effects_default <| transitions := ts |>) Hk3 eq_refl Hc2) as Hi.
  destruct (interact input _ _) as [k4 [[[k5 e5] consumed]|err]]; destruct Hi as (Hi & Hr & Ha & Hpost);
    change (dive_tick_rate k3) with (dive_tick_rate k2) in Hr; change (actor k3) with (actor k2) in Ha.
  - destruct Hpost as (-> & ts' & m & Ht' & Hf' & Hm & Hev). rewrite tick_output_effects.
    split; [exact Hi|]. cbn [fst snd]. split; [rewrite Ht'; eapply follows_app; [exact Hf2|exact Hf']|].
    split; [congruence|]. split; [congruence|]. exists m.
    replace (observation_ticks k) with (observation_ticks k3) by (unfold observation_ticks; by rewrite <- Hr2).
    split; [|exact Hev]. unfold launched in *. change (rows k3) with (rows k2) in Hm.
    change (next_dive_id k3) with (next_dive_id k2) in Hm. change (dive_tick_rate k3) with (dive_tick_rate k2) in Hm.
    rewrite Hrows2, Hn2, Hr2 in Hm. exact Hm.
  - destruct Hpost as (Hs & Hs' & Hrows'). rewrite (Hts Hs) in Hf2.
    split; [exact Hi|]. cbn [fst snd transitions telemetry_finalized effects_default].
    split; [rewrite Hs'; exact Hf2|]. split; [congruence|]. split; [congruence|].
    exists (rows k). split; [by left|]. rewrite Hrows'. change (rows k3) with (rows k2). rewrite Hrows2. constructor.
Qed.

Lemma dive_step_ok k op : rider_inv k -> dive_op_ok op -> step_ok k (dive_step k op).
Proof.
  intros Hk Hop. destruct op; cbn [dive_op_ok] in Hop; try (cbn [dive_step]).
  - by apply begin_ok.
  - by apply motion_ok.
  - by apply settle_ok.
  - by apply record_shot_attempt_ok.
  - by apply record_accepted_shot_ok.
  - by apply record_authority_result_ok.
  - by apply damage_ok.
  - by apply death_ok.
  - apply censor_ok; [done|by left].
  - apply censor_ok; [done|by right; right].
  - by apply reset_ok.
  - pose proof (step_ok_refl k Hk) as (H1 & H2 & H3 & H4 & H5). unfold dive_set_authority_epoch.
    destruct (_ <? _); [done|]. split; [clear -Hk; cbn [fst]; rider_frame|done].
Qed.
