(* ===== verification/SaddleDiveSpec.v ===== *)
(** * What a rider's dives guarantee over a match

    The contract of [SaddleDiveKernel] over any sequence of its operations, refused
    ones included: lifecycle, recovery, final rows, shots, and damage windows. *)

From S2P Require Import Prelude MachineInt Ordered Clock Bytes Identifiers Stance Combat.
From S2P Require Import DiveMath Aim WeaponKernel DiveVectors ShotLedger SaddleDive SaddleDiveRun.
Open Scope Z_scope.

Definition all_transitions (es : list SaddleDiveEffects) : list SaddleDiveTransition := es ≫= transitions.
Definition all_finalized (es : list SaddleDiveEffects) : list DiveInstrumentationRow := es ≫= telemetry_finalized.

Lemma dive_new_inv rate id epoch k : 0 <= rate < 2 ^ 32 -> dive_new rate id epoch = Ok k -> rider_inv k.
Proof.
  intros Hr. unfold dive_new. destruct (Z.eqb_spec rate 0); [done|]. intros E%Ok_inj. subst k.
  split; simpl; try done; try lia; intros ? [= <-]; lia.
Qed.

(** Every run: the invariant, the lifecycle, the frame. *)
Lemma dive_run_ok ops : forall k k' es,
  rider_inv k -> Forall dive_op_ok ops -> dive_run k ops = (k', es) ->
  rider_inv k' /\ follows (state k) (all_transitions es) (state k') /\
  dive_tick_rate k' = dive_tick_rate k /\ actor k' = actor k.
Proof.
  induction ops as [|op ops IH]; intros k k' es Hk Hops Hrun; cbn [dive_run] in Hrun.
  { by injection Hrun as <- <-. }
  apply Forall_cons in Hops as [Hop Hops]. pose proof (dive_step_ok k op Hk Hop) as (Hi & Hf & Hr & Ha & _).
  destruct (dive_step k op) as [k1 e1]. destruct (dive_run k1 ops) as [k2 es2] eqn:E2.
  injection Hrun as <- <-. cbn [fst snd] in *. destruct (IH k1 k2 es2 Hi Hops E2) as (Hi2 & Hf2 & Hr2 & Ha2).
  split; [done|]. split; [|split; congruence]. unfold all_transitions in *. cbn [mbind list_bind].
  by eapply follows_app.
Qed.

(** C29. The rider's states refine its lifecycle: over any operations the transitions
    reported, read in order, form one unbroken path from the saddle to the rider's
    present state, made only of launch, ordinary dismount, landing, getting up,
    recovering, and mounting or being reset; and the rider flies exactly while the
    kernel holds a flight, of the dive the state names, whose row exists. *)
Theorem dive_lifecycle rate id epoch k ops k' es :
  0 <= rate < 2 ^ 32 -> dive_new rate id epoch = Ok k -> Forall dive_op_ok ops -> dive_run k ops = (k', es) ->
  follows DiveMounted (all_transitions es) (state k') /\
  (state k' = DiveAirborne <-> is_Some (airborne k')) /\
  (forall air, airborne k' = Some air ->
     state_dive_id k' = Some (air_dive_id air) /\ is_Some (rows k' !! air_dive_id air)).
Proof.
  intros Hr Hnew Hops Hrun. pose proof (dive_new_inv _ _ _ _ Hr Hnew) as Hk.
  destruct (dive_run_ok ops k k' es Hk Hops Hrun) as (Hi & Hf & _).
  assert (Hs : state k = DiveMounted).
  { unfold dive_new in Hnew. case_match; [done|]. by apply Ok_inj in Hnew as <-. }
  rewrite Hs in Hf. split; [exact Hf|]. pose proof (ri_air k' Hi) as Ha.
  destruct (airborne k') as [air|].
  - destruct Ha as (H1 & H2 & H3). split; [by split; [eexists|]|]. by intros ? [= <-].
  - split; [split; [done|by intros []]|done].
Qed.

(** Recovery is a function of the landing and the clock alone: whatever ticks
    were sampled and whatever else happened meanwhile, a rider who landed is prone
    for 400 ms, 800 after a bad landing, then recovers for 400 ms, each boundary
    inclusive, and is ready from then on until it mounts again. *)
Theorem recovery_schedule rate id epoch k ops k' es l :
  0 < rate < 2 ^ 32 -> dive_new rate id epoch = Ok k -> Forall dive_op_ok ops -> dive_run k ops = (k', es) ->
  landing k' = Some l ->
  let phase := duration_ticks_ceil rate 400 in
  let prone := if bad l then phase + phase else phase in
  exists c, current_tick k' = Some c /\ landed_tick l <= c /\
    (landed_tick l + prone + phase < 2 ^ 64 ->
     state k' = if c <? landed_tick l + prone then DiveLandingProne
                else if c <? landed_tick l + prone + phase then DiveLandingRecovery
                else OnFootReady).
Proof.
  intros Hr Hnew Hops Hrun Hl phase prone. pose proof (dive_new_inv rate _ _ _ ltac:(lia) Hnew) as Hk.
  destruct (dive_run_ok ops k k' es Hk Hops Hrun) as (Hi & _ & Hrate & _).
  assert (Hk0 : dive_tick_rate k = rate).
  { unfold dive_new in Hnew. case_match; [done|]. by apply Ok_inj in Hnew as <-. }
  pose proof (ri_landing k' Hi) as Hland. rewrite Hl in Hland.
  destruct Hland as (c & Hc & Hle & Hs & _). exists c. split; [done|]. split; [lia|]. intros Hmax.
  rewrite Hs, Hrate, Hk0. pose proof (phase_ticks_bounds rate Hr) as Hp.
  change (phase_ticks rate) with phase in Hp.
  assert (Hpe : prone_end rate l = landed_tick l + prone).
  { unfold prone_end. change (phase_ticks rate) with phase. unfold tick_saturating_add, saturating_add, prone in *.
    change (2 ^ 32) with 4294967296 in *. change (2 ^ 64) with 18446744073709551616 in *. destruct (bad l); lia. }
  assert (Hre : recovery_end rate l = landed_tick l + prone + phase).
  { unfold recovery_end. rewrite Hpe. change (phase_ticks rate) with phase.
    unfold tick_saturating_add, saturating_add. lia. }
  unfold recovery_state. by rewrite Hpe, Hre.
Qed.

(** ** Facts of every record *)

Section records.
Context (P : DiveRecord -> Prop).
Context (Hfresh : forall r, landing_tick r = None -> death_tick r = None -> death_within_3s r = None ->
  remount_tick r = None -> censor_reason r = None -> shot_attempts r = 0 -> shots_fired r = 0 ->
  shots_hit r = 0 -> headshots r = 0 -> reversal_hits r = 0 -> landing_damage r = 0 ->
  damage_taken_landing_through_3s r = 0 -> P (fresh_record r)).
Context (Hstep : forall w r f r', record_step w r f r' -> P r -> P r').

Lemma step_records k op :
  rider_inv k -> dive_op_ok op -> map_Forall (fun _ r => P r) (rows k) ->
  map_Forall (fun _ r => P r) (rows (dive_step k op).1).
Proof.
  intros Hk Hop HP. destruct (dive_step_ok k op Hk Hop) as (_ & _ & _ & _ & m & Hm & Hev).
  intros i r' Hr'. destruct (evolve_backward _ _ _ _ _ _ Hev Hr') as (r & Hr & Hreach).
  apply (reach_ind _ P _ _ ltac:(intros; by eapply Hstep) Hreach).
  destruct Hm as [-> |(id & input & k0 & _ & -> & _)]; [by apply (HP i)|].
  apply lookup_insert_Some in Hr as [[<- <-]|[_ Hr]]; [by apply Hfresh|by apply (HP i)].
Qed.

Lemma run_records ops : forall k k' es,
  rider_inv k -> Forall dive_op_ok ops -> dive_run k ops = (k', es) ->
  map_Forall (fun _ r => P r) (rows k) -> map_Forall (fun _ r => P r) (rows k').
Proof.
  induction ops as [|op ops IH]; intros k k' es Hk Hops Hrun HP; cbn [dive_run] in Hrun.
  { by injection Hrun as <- <-. }
  apply Forall_cons in Hops as [Hop Hops]. pose proof (dive_step_ok k op Hk Hop) as (Hi & _).
  pose proof (step_records k op Hk Hop HP) as HP1.
  destruct (dive_step k op) as [k1 e1]. destruct (dive_run k1 ops) as [k2 es2] eqn:E2.
  injection Hrun as <- <-. by apply (IH k1 k2 es2).
Qed.
End records.

(** ** Final snapshots *)

Definition is_final (m : gmap DiveId DiveRecord) (id : DiveId) : Prop :=
  exists r, m !! id = Some r /\ finalized r = true.

(** A row whose story is over: cut short, or remounted after a whole window. *)
Definition row_complete (r : DiveInstrumentationRow) : Prop :=
  censor_reason r = None -> is_Some (death_within_3s r) /\ is_Some (remount_tick r).

Lemma should_finalize_true k r :
  should_finalize k r = true -> finalized r = false /\ row_complete (row r).
Proof.
  unfold should_finalize, row_complete. destruct (finalized r); [done|]. intros H. split; [done|].
  intros Hc. rewrite Hc in H. btrue. destruct (death_within_3s (row r)), (remount_tick (row r)); try done.
Qed.

Lemma record_step_final w r f r' :
  record_step w r f r' ->
  match f with
  | None => finalized r' = finalized r
  | Some l => l = row r /\ finalized r = false /\ finalized r' = true /\ row_complete l
  end.
Proof.
  intros Hs. destruct f as [l|].
  - inversion Hs as [| | | |k0 r0 Hf| | | | |]; subst. destruct (should_finalize_true _ _ Hf) as [H1 H2]. by split_and!.
  - record_cases Hs; done.
Qed.

Lemma record_step_dive_id w r f r' : record_step w r f r' -> row_dive_id (row r') = row_dive_id (row r).
Proof. intros Hs. apply (reach_dive_id w). apply rtc_once. by exists f. Qed.

(** Evolution finalizes exactly the rows it labels, each once. *)
Lemma evolve_final w m m' F :
  rows_evolve w m m' F -> map_Forall (fun id r => row_dive_id (row r) = id) m ->
  NoDup (row_dive_id <$> F) /\ Forall row_complete F /\
  (forall id, is_final m' id <-> is_final m id \/ id ∈ (row_dive_id <$> F)) /\
  (forall id, id ∈ (row_dive_id <$> F) -> ~ is_final m id).
Proof.
  induction 1 as [m|m i r f r' m' F Hi Hs Hev IH]; intros Hkeys.
  { split; [constructor|]. split; [constructor|]. split; [|by intros id ?%elem_of_nil].
    intros id. split; [by left|]. by intros [?|?%elem_of_nil]. }
  assert (Hi' := Hkeys i r Hi).
  destruct IH as (Hnd & Hc & Hiff & Hfresh).
  { apply map_Forall_insert_2; [|done]. by rewrite (record_step_dive_id _ _ _ _ Hs). }
  pose proof (record_step_final w r f r' Hs) as Hf.
  assert (Hother : forall id, id <> i -> is_final (<[i := r']> m) id <-> is_final m id).
  { intros id Hne. unfold is_final. by rewrite lookup_insert_ne. }
  assert (Hself : is_final (<[i := r']> m) i <-> finalized r' = true).
  { unfold is_final. rewrite lookup_insert_eq. naive_solver. }
  assert (Hold : is_final m i <-> finalized r = true).
  { unfold is_final. rewrite Hi. naive_solver. }
  destruct f as [l|].
  - destruct Hf as (-> & Hr & Hr' & Hcl).
    change (option_list (Some (row r)) ++ F) with (row r :: F). rewrite fmap_cons, Hi'.
    assert (Hout : i ∉ (row_dive_id <$> F)) by (intros H; by apply (Hfresh i H), Hself).
    split; [by constructor|]. split; [by constructor|]. split.
    + intros id. rewrite Hiff, elem_of_cons. destruct (decide (id = i)) as [->|Hne].
      * rewrite Hself. naive_solver.
      * rewrite (Hother id Hne). naive_solver.
    + intros id. rewrite elem_of_cons. intros [->|Hin].
      * rewrite Hold. congruence.
      * rewrite <- (Hother id); [by apply Hfresh|]. by intros ->.
  - change (option_list None ++ F) with F. split; [done|]. split; [done|]. split.
    + intros id. rewrite Hiff. destruct (decide (id = i)) as [->|Hne].
      * rewrite Hself, Hold, Hf. done.
      * by rewrite (Hother id Hne).
    + intros id Hin Hm. apply (Hfresh id Hin). destruct (decide (id = i)) as [->|Hne].
      * apply Hself. rewrite Hf. by apply Hold.
      * by apply Hother.
Qed.

Lemma step_final k op :
  rider_inv k -> dive_op_ok op ->
  let '(k', e) := dive_step k op in
  let ids := row_dive_id <$> telemetry_finalized e in
  NoDup ids /\ Forall row_complete (telemetry_finalized e) /\
  (forall id, is_final (rows k') id <-> is_final (rows k) id \/ id ∈ ids) /\
  (forall id, id ∈ ids -> ~ is_final (rows k) id).
Proof.
  intros Hk Hop. pose proof (dive_step_ok k op Hk Hop) as (_ & _ & _ & _ & m & Hm & Hev).
  destruct (dive_step k op) as [k' e]. cbn [fst snd] in *.
  assert (Hkeys : map_Forall (fun id r => row_dive_id (row r) = id) (rows k)).
  { intros id r Hr. apply (ri_rows k Hk id r Hr). }
  destruct Hm as [-> |(id & input & k0 & Hid & -> & _)]; [by apply (evolve_final _ _ _ _ Hev)|].
  assert (Hnew : rows k !! id = None).
  { destruct (rows k !! id) as [r|] eqn:E; [|done]. pose proof (proj2 (ri_rows k Hk id r E) id Hid). lia. }
  assert (Hsame : forall i, is_final (<[id := fresh_record (launch_row k0 id input)]> (rows k)) i <-> is_final (rows k) i).
  { intros i. unfold is_final. destruct (decide (i = id)) as [->|Hne].
    - rewrite lookup_insert_eq, Hnew. naive_solver.
    - by rewrite lookup_insert_ne. }
  destruct (evolve_final _ _ _ _ Hev) as (H1 & H2 & H3 & H4); [by apply map_Forall_insert_2|].
  setoid_rewrite Hsame in H3. setoid_rewrite Hsame in H4. by split_and!.
Qed.

Lemma run_final ops : forall k k' es,
  rider_inv k -> Forall dive_op_ok ops -> dive_run k ops = (k', es) ->
  NoDup (row_dive_id <$> all_finalized es) /\ Forall row_complete (all_finalized es) /\
  (forall id, is_final (rows k') id <-> is_final (rows k) id \/ id ∈ (row_dive_id <$> all_finalized es)) /\
  (forall id, id ∈ (row_dive_id <$> all_finalized es) -> ~ is_final (rows k) id).
Proof.
  induction ops as [|op ops IH]; intros k k' es Hk Hops Hrun; cbn [dive_run] in Hrun.
  { injection Hrun as <- <-. split; [constructor|]. split; [constructor|]. split.
    - intros id. split; [by left|]. by intros [?|?%elem_of_nil].
    - by intros id ?%elem_of_nil. }
  apply Forall_cons in Hops as [Hop Hops]. pose proof (dive_step_ok k op Hk Hop) as (Hi & _).
  pose proof (step_final k op Hk Hop) as Hs.
  destruct (dive_step k op) as [k1 e1]. destruct (dive_run k1 ops) as [k2 es2] eqn:E2.
  injection Hrun as <- <-. cbn [fst] in Hi. destruct Hs as (S1 & S2 & S3 & S4).
  destruct (IH k1 k2 es2 Hi Hops E2) as (R1 & R2 & R3 & R4).
  unfold all_finalized in *. cbn [mbind list_bind]. rewrite fmap_app. split; [|split; [|split]].
  - apply NoDup_app. split; [done|]. split; [|done]. intros id H1 H2. apply (R4 id H2), S3. by right.
  - by apply Forall_app.
  - intros id. rewrite R3, S3, elem_of_app. tauto.
  - intros id. rewrite elem_of_app. intros [H|H]; [by apply S4|]. intros Hm. apply (R4 id H), S3. by left.
Qed.

(** The end of the match finalizes what is open. *)
Lemma censor_row_final k reason r e id :
  open_reason reason -> rows k !! id = Some r -> finalized r = false ->
  is_final (rows (maybe_finalize id (alter_record (alter_row (fun r => r <| censor_reason := Some reason |>)) id k, e)).1) id.
Proof.
  intros Hr Hid Hf. unfold maybe_finalize.
  assert (Hl : rows (alter_record (alter_row (fun r => r <| censor_reason := Some reason |>)) id k) !! id
               = Some (alter_row (fun r => r <| censor_reason := Some reason |>) r)).
  { unfold alter_record. simpl. by rewrite lookup_alter_eq, Hid. }
  rewrite Hl. unfold should_finalize at 1. simpl finalized. rewrite Hf. simpl censor_reason.
  assert (Hs : match reason with
               | CensorMatchEnded | CensorReset | CensorNotObserved => true | _ => false end = true)
    by (by destruct Hr as [-> | [-> | ->]]).
  destruct reason; try done; unfold is_final; cbn [fst]; unfold alter_record at 1; simpl;
    rewrite !lookup_alter_eq, Hid; simpl; eexists; split; reflexivity || done.
Qed.

Lemma censor_fold_final reason ids : open_reason reason -> forall call,
  NoDup ids -> (forall id, id ∈ ids -> exists r, rows call.1 !! id = Some r /\ finalized r = false) ->
  let call' := update_rows (fun r => r <| censor_reason := Some reason |>) ids call in
  (forall id, id ∈ ids -> is_final (rows call'.1) id) /\
  (forall id, id ∉ ids -> rows call'.1 !! id = rows call.1 !! id).
Proof.
  intros Hr. induction ids as [|i ids IH]; intros [k e] Hnd Hin.
  { split; [by intros id ?%elem_of_nil|done]. }
  apply NoDup_cons in Hnd as [Hi Hnd]. rewrite update_rows_cons. cbn [fst snd].
  set (k1 := alter_record _ i k). set (call1 := maybe_finalize i _).
  assert (Hother : forall id, id <> i -> rows call1.1 !! id = rows k !! id).
  { intros id Hne. unfold call1. rewrite maybe_finalize_other by done. cbn [fst]. unfold k1, alter_record. simpl.
    by rewrite lookup_alter_ne. }
  destruct (IH call1 Hnd) as [IH1 IH2].
  { intros id Hid. destruct (Hin id ltac:(by right)) as (r & Hr' & Hf). exists r. split; [|done].
    rewrite Hother; [exact Hr'|]. by intros ->. }
  split.
  - intros id [->|Hid]%elem_of_cons; [|by apply IH1]. unfold is_final. rewrite IH2 by done.
    destruct (Hin i ltac:(left)) as (r & Hr' & Hf). by apply (censor_row_final k reason r).
  - intros id [Hne Hid]%not_elem_of_cons. rewrite IH2 by done. by apply Hother.
Qed.

Lemma end_match_final k id : is_Some (rows k !! id) -> is_final (rows (end_match k).1) id.
Proof.
  intros [r Hr]. unfold end_match, censor_open_rows.
  destruct (censor_fold_final CensorMatchEnded (select_rows (fun record => negb (finalized record)) k)
              ltac:(by left) (k, effects_default)) as [H1 H2].
  - apply select_rows_NoDup.
  - intros i (r' & Hr' & Hf)%select_rows_all. exists r'. split; [done|]. by apply negb_true_iff.
  - destruct (decide (id ∈ select_rows (fun record => negb (finalized record)) k)) as [Hin|Hout]; [by apply H1|].
    unfold is_final. rewrite H2 by done. exists r. split; [done|]. destruct (finalized r) eqn:E; [done|].
    destruct Hout. apply elem_of_select_rows. exists r. by rewrite E.
Qed.

Lemma dive_run_app ops1 ops2 : forall k,
  dive_run k (ops1 ++ ops2) =
    let '(k1, es1) := dive_run k ops1 in let '(k2, es2) := dive_run k1 ops2 in (k2, es1 ++ es2).
Proof.
  induction ops1 as [|op ops1 IH]; intros k; cbn [app dive_run].
  { by destruct (dive_run k ops2). }
  destruct (dive_step k op) as [k1 e1]. rewrite IH. destruct (dive_run k1 ops1) as [k2 es1].
  by destruct (dive_run k2 ops2).
Qed.

(** C30. Every dive is reported finally exactly once by the end of its match: over any
    operations followed by the end of the match, the dives with a final snapshot are
    exactly those with a row, no dive has two, and a final row that was not cut short
    has its three-second death observation and its remount. *)
Theorem dives_finalized_once rate id epoch k ops k' es :
  0 <= rate < 2 ^ 32 -> dive_new rate id epoch = Ok k -> Forall dive_op_ok ops ->
  dive_run k (ops ++ [DEndMatch]) = (k', es) ->
  NoDup (row_dive_id <$> all_finalized es) /\ Forall row_complete (all_finalized es) /\
  (forall dive, dive ∈ (row_dive_id <$> all_finalized es) <-> is_Some (rows k' !! dive)).
Proof.
  intros Hr Hnew Hops Hrun. pose proof (dive_new_inv _ _ _ _ Hr Hnew) as Hk.
  assert (Hops' : Forall dive_op_ok (ops ++ [DEndMatch])) by (apply Forall_app; split; [done|by constructor]).
  destruct (run_final _ k k' es Hk Hops' Hrun) as (H1 & H2 & H3 & _). split; [done|]. split; [done|].
  assert (Hempty : rows k = ∅) by (unfold dive_new in Hnew; case_match; [done|]; by apply Ok_inj in Hnew as <-).
  rewrite Hempty in H3.
  assert (Hnone : forall d, ~ is_final (∅ : gmap DiveId DiveRecord) d) by (intros d (r & Hr' & _); by rewrite lookup_empty in Hr').
  intros dive. split.
  - intros Hin. destruct (proj2 (H3 dive) ltac:(by right)) as (r & Hr' & _). by exists r.
  - intros Hrow. destruct (proj1 (H3 dive)) as [Hd|Hd]; [|by destruct (Hnone dive)|done].
    rewrite dive_run_app in Hrun. destruct (dive_run k ops) as [k1 es1] eqn:E1. cbn [dive_run dive_step] in Hrun.
    destruct (end_match k1) as [k2 e2] eqn:E2. injection Hrun as <- _.
    assert (Hk2 : k2 = (end_match k1).1) by (by rewrite E2). rewrite Hk2. apply end_match_final.
    destruct (dive_run_ok ops k k1 es1 Hk Hops E1) as (Hi1 & _).
    destruct (censor_work CensorMatchEnded k1 ltac:(by left)) as (F & Hev & _).
    change (censor_open_rows CensorMatchEnded k1) with (end_match k1) in Hev. rewrite E2 in Hev.
    destruct Hrow as [r Hr']. destruct (evolve_backward _ _ _ _ _ _ Hev Hr') as (r0 & Hr0 & _). by exists r0.
Qed.

(** ** Shots *)

Definition u16_max : Z := 65535.

(** A record's shot counters against its sets. *)
Record shots_ok (r : DiveRecord) : Prop := {
  so_attempts : shot_attempts (row r) = Z.min u16_max (Z.of_nat (size (attempt_ticks r)));
  so_fired : shots_fired (row r) = Z.min u16_max (Z.of_nat (size (accepted_shots r)));
  so_resolved : resolved_shots r ⊆ dom (accepted_shots r);
  so_hit : 0 <= shots_hit (row r) <= Z.of_nat (size (resolved_shots r));
  so_heads : 0 <= headshots (row r) <= shots_hit (row r);
  so_reversals : 0 <= reversal_hits (row r) <= shots_hit (row r);
  so_width : shots_hit (row r) <= u16_max;
  so_shots : map_Forall (fun tick shot => meta_tick shot = tick /\ meta_weapon shot = row_launch_weapon (row r) /\
    meta_velocity shot = prelaunch_velocity_mmps (row r) /\ launch_tick (row r) <= tick) (accepted_shots r);
}.

Lemma size_insert_new (s : gset Z) x : x ∉ s -> Z.of_nat (size ({[x]} ∪ s)) = Z.of_nat (size s) + 1.
Proof. intros Hx. rewrite size_union by set_solver. rewrite size_singleton. lia. Qed.

Lemma saturating_count n : 0 <= n -> saturating_add 16 (Z.min u16_max n) 1 = Z.min u16_max (n + 1).
Proof. intros Hn. unfold saturating_add, u16_max. change (2 ^ 16) with 65536. lia. Qed.

Lemma shots_ok_row r r' :
  shots_ok r -> attempt_ticks r' = attempt_ticks r -> accepted_shots r' = accepted_shots r ->
  resolved_shots r' = resolved_shots r ->
  shot_attempts (row r') = shot_attempts (row r) -> shots_fired (row r') = shots_fired (row r) ->
  shots_hit (row r') = shots_hit (row r) -> headshots (row r') = headshots (row r) ->
  reversal_hits (row r') = reversal_hits (row r) -> row_launch_weapon (row r') = row_launch_weapon (row r) ->
  prelaunch_velocity_mmps (row r') = prelaunch_velocity_mmps (row r) -> launch_tick (row r') = launch_tick (row r) ->
  shots_ok r'.
Proof. intros [] E1 E2 E3 E4 E5 E6 E7 E8 E9 E10 E11. split; rewrite ?E1, ?E2, ?E3, ?E4, ?E5, ?E6, ?E7, ?E8, ?E9, ?E10, ?E11; done. Qed.

Lemma step_shots w r f r' : record_step w r f r' -> shots_ok r -> shots_ok r'.
Proof.
  intros Hs Hr. inversion Hs as [| | | | | | |tick r0 Ht|shot r0 Hrej|res shot r0 Hf Ha Hu]; subst; clear Hs;
    try (apply (shots_ok_row r); [done|..];
         unfold attribute_damage, alter_row, mark_remount, mark_landing, mark_death; repeat case_match; done).
  - destruct Hr. split; simpl; try done. rewrite so_attempts0, size_insert_new by done. apply saturating_count. lia.
  - destruct Hr. unfold shot_rejected_by_row in Hrej.
    rewrite !orb_false_iff, !negb_false_iff, !bool_decide_eq_true, Z.ltb_ge in Hrej.
    destruct Hrej as (((((_ & Hl) & Hw) & Hv) & _) & Hn).
    assert (Hnone : accepted_shots r !! meta_tick shot = None) by (by destruct (accepted_shots r !! meta_tick shot)).
    split; simpl; try done.
    + rewrite so_fired0, map_size_insert_None by done. rewrite saturating_count by lia. f_equal. lia.
    + set_solver.
    + apply map_Forall_insert_2; done.
  - destruct Hr.
    assert (Hin : {[meta_tick shot]} ∪ resolved_shots r ⊆ dom (accepted_shots r)).
    { apply union_subseteq. split; [|done]. apply singleton_subseteq_l, elem_of_dom. by eexists. }
    pose proof (size_insert_new (resolved_shots r) (meta_tick shot) Hu) as Hsize.
    assert (Hsat : forall a, 0 <= a -> a <= saturating_add 16 a 1 <= a + 1 \/ u16_max < a)
      by (intros a Ha'; unfold saturating_add, u16_max; change (2 ^ 16) with 65536; lia).
    cbn zeta. unfold u16_max in *. case_bool_decide.
    + split; simpl in *; try done; unfold count_hit; simpl; repeat case_match; simpl; unfold saturating_add, u16_max in *;
        change (2 ^ 16) with 65536 in *; try done; lia.
    + split; simpl in *; try done; lia.
Qed.

Lemma fresh_shots r : shot_attempts r = 0 -> shots_fired r = 0 -> shots_hit r = 0 -> headshots r = 0 ->
  reversal_hits r = 0 -> shots_ok (fresh_record r).
Proof.
  intros E1 E2 E3 E4 E5. unfold fresh_record.
  split; simpl; rewrite ?E1, ?E2, ?E3, ?E4, ?E5, ?size_empty, ?map_size_empty; unfold u16_max; try done.
Qed.

(** A dive's telemetry counts its shots: over any operations, duplicates and
    foreign or late reports included, each row's attempts and shots are the numbers of
    its distinct attempt ticks and accepted shots (capped at the width of the counter),
    only accepted shots are resolved, hits are among the resolved and headshots and
    reversals among the hits, and every accepted shot is filed under its tick, not before
    the launch, with the weapon and the velocity of the launch. *)
Theorem shot_accounting rate id epoch k ops k' es dive r :
  0 <= rate < 2 ^ 32 -> dive_new rate id epoch = Ok k -> Forall dive_op_ok ops -> dive_run k ops = (k', es) ->
  rows k' !! dive = Some r ->
  shot_attempts (row r) = Z.min u16_max (Z.of_nat (size (attempt_ticks r))) /\
  shots_fired (row r) = Z.min u16_max (Z.of_nat (size (accepted_shots r))) /\
  resolved_shots r ⊆ dom (accepted_shots r) /\
  shots_hit (row r) <= Z.of_nat (size (resolved_shots r)) /\
  headshots (row r) <= shots_hit (row r) /\ reversal_hits (row r) <= shots_hit (row r) /\
  map_Forall (fun tick shot => meta_tick shot = tick /\ meta_weapon shot = row_launch_weapon (row r) /\
    meta_velocity shot = prelaunch_velocity_mmps (row r) /\ launch_tick (row r) <= tick) (accepted_shots r).
Proof.
  intros Hr Hnew Hops Hrun Hd. pose proof (dive_new_inv _ _ _ _ Hr Hnew) as Hk.
  assert (Hempty : rows k = ∅) by (unfold dive_new in Hnew; case_match; [done|]; by apply Ok_inj in Hnew as <-).
  assert (H : map_Forall (fun _ r => shots_ok r) (rows k')).
  { refine (run_records shots_ok _ step_shots ops k k' es Hk Hops Hrun _).
    - intros. by apply fresh_shots.
    - rewrite Hempty. apply map_Forall_empty. }
  destruct (H dive r Hd). split_and!; try done; lia.
Qed.

(** ** A dive, end to end *)

Definition demo_input (tick : SimulationTick) (pressed : bool) : SaddleDiveTickInput :=
  mkSaddleDiveTickInput tick pressed (Some (mkQuantizedDirection 0 0 (-1000000))) true
    (mkQuantizedOrigin 0 0 0) (mkVelocity 0 0 (-12000)) GaitGallop Dustwalker
    (mkQuantizedOrigin 0 1600 0) true 3 demo_rider.
Definition demo_observation (tick : SimulationTick) (normal : option QuantizedDirection) : RiderMotionObservation :=
  mkRiderMotionObservation tick (mkQuantizedOrigin 0 1600 0) (mkVelocity 0 0 (-12000)) true normal TerrainScrub.
Definition demo_dive_shot : AcceptedShotMetadata :=
  mkAcceptedShotMetadata demo_rider 11 0 Dustwalker SaddleDiveAirborne GaitGallop (Some 1) (0, -12000).
Definition demo_dive_hit : ShotResult :=
  mkShotResult 11 demo_rider Dustwalker ShotHit None (Some (mkQuantizedDirection 0 0 1000000)) (Some 5)
    (Some HitHead) 40 (Some 9000) false.
Definition demo_dive_ops : list dive_op :=
  [DBegin (demo_input 10 true); DMotion (demo_observation 10 None);
   DBegin (demo_input 11 false); DAttempt 11; DAttempt 11; DAccepted demo_dive_shot; DAccepted demo_dive_shot;
   DResult (mkShotResultAttribution demo_dive_hit (Some demo_dive_shot) false []);
   DMotion (demo_observation 11 None); DDamage (mkDamageObservation (3, (demo_rider, (41, 0))) 7);
   DBegin (demo_input 40 false); DMotion (demo_observation 40 (Some (mkQuantizedDirection 866025 500000 0)));
   DDamage (mkDamageObservation (3, (demo_rider, (45, 1))) 4);
   DDamage (mkDamageObservation (3, (demo_rider, (45, 1))) 4);
   DDamage (mkDamageObservation (3, (demo_rider, (131, 2))) 9);
   DBegin (demo_input 60 false)].
Definition demo_kernel : SaddleDiveKernel :=
  match dive_new 30 demo_rider 3 with Ok k => k | Err _ => mkSaddleDiveKernel 30 demo_rider 3 None false false DiveMounted 0 None true None None None origin_default rider_health_default ∅ None ∅ end.
Definition demo_landed : SaddleDiveKernel := (dive_run demo_kernel demo_dive_ops).1.

Lemma demo_kernel_new : dive_new 30 demo_rider 3 = Ok demo_kernel.
Proof. done. Qed.
Lemma demo_dive_ops_ok : Forall dive_op_ok demo_dive_ops.
Proof. repeat constructor; done. Qed.

Definition demo_row : DiveRecord := default (fresh_record (launch_row demo_kernel 1 (demo_input 10 true))) (rows demo_landed !! 1).
Lemma demo_row_of : rows demo_landed !! 1 = Some demo_row.
Proof. by vm_compute. Qed.
Lemma demo_landed_run : dive_run demo_kernel demo_dive_ops = (demo_landed, (dive_run demo_kernel demo_dive_ops).2).
Proof. apply surjective_pairing. Qed.

Lemma dive_lifecycle_witness :
  follows DiveMounted (all_transitions (dive_run demo_kernel demo_dive_ops).2) DiveLandingProne /\
  length (all_transitions (dive_run demo_kernel demo_dive_ops).2) = 2%nat.
Proof.
  split; [|by vm_compute].
  exact (proj1 (dive_lifecycle 30 demo_rider 3 demo_kernel demo_dive_ops demo_landed (dive_run demo_kernel demo_dive_ops).2
    ltac:(lia) demo_kernel_new demo_dive_ops_ok (surjective_pairing _))).
Defined.

(** Prone for 24 ticks from the bad landing at 40. *)
Lemma recovery_schedule_witness :
  exists c, current_tick demo_landed = Some c /\ 40 <= c /\
    (40 + 24 + 12 < 2 ^ 64 -> state demo_landed =
       if c <? 40 + 24 then DiveLandingProne else if c <? 40 + 24 + 12 then DiveLandingRecovery else OnFootReady).
Proof.
  exact (recovery_schedule 30 demo_rider 3 demo_kernel demo_dive_ops demo_landed (dive_run demo_kernel demo_dive_ops).2
    (mkLandingState 1 40 true) ltac:(lia) demo_kernel_new demo_dive_ops_ok (surjective_pairing _) ltac:(by vm_compute)).
Defined.

Lemma dives_finalized_once_witness :
  (row_dive_id <$> all_finalized (dive_run demo_kernel (demo_dive_ops ++ [DEndMatch])).2) = [1] /\
  NoDup (row_dive_id <$> all_finalized (dive_run demo_kernel (demo_dive_ops ++ [DEndMatch])).2).
Proof.
  split; [by vm_compute|].
  exact (proj1 (dives_finalized_once 30 demo_rider 3 demo_kernel demo_dive_ops _ _
    ltac:(lia) demo_kernel_new demo_dive_ops_ok (surjective_pairing _))).
Defined.

Lemma shot_accounting_witness :
  shots_fired (row demo_row) = 1 /\ headshots (row demo_row) <= shots_hit (row demo_row).
Proof.
  split; [by vm_compute|].
  exact (proj1 (proj2 (proj2 (proj2 (proj2 (shot_accounting 30 demo_rider 3 demo_kernel demo_dive_ops demo_landed
    (dive_run demo_kernel demo_dive_ops).2 1 demo_row
    ltac:(lia) demo_kernel_new demo_dive_ops_ok demo_landed_run demo_row_of)))))).
Defined.

(** The final snapshot of a dive cut short in the air is not the last word on it: the
    landing still rewrites the row and reports it again. *)
Example final_row_still_changes :
  let ops := [DBegin (demo_input 10 true); DMotion (demo_observation 10 None); DEndMatch;
              DBegin (demo_input 40 false); DMotion (demo_observation 40 (Some (mkQuantizedDirection 0 1000000 0)))] in
  let '(k, es) := dive_run demo_kernel ops in
  (landing_tick <$> all_finalized es) = [None] /\
  (landing_tick <$> (es ≫= telemetry_updates)) = [None; None; Some 40] /\
  ((fun r => (finalized r, landing_tick (row r))) <$> rows k !! 1) = Some (true, Some 40).
Proof. by vm_compute. Qed.
