(* ===== verification/SaddleDiveDamage.v ===== *)
(** * The damage a landing is charged with

    The observation window of a landing: which damage observations it counts, and
    what they add up to, over any operations. *)

From S2P Require Import Prelude MachineInt Ordered Clock Bytes Identifiers Stance Combat.
From S2P Require Import DiveMath Aim WeaponKernel DiveVectors ShotLedger SaddleDive SaddleDiveRun SaddleDiveSpec.
Open Scope Z_scope.

(** ** The damage window *)

(** The damage of a set of observations, by their recorded amounts. *)
Definition observed_damage (D : gmap DamageObservationId Z) (s : gset DamageObservationId) : Z :=
  foldr Z.add 0 ((fun o => default 0 (D !! o)) <$> elements s).

Lemma foldr_add_perm (l1 l2 : list Z) : l1 ≡ₚ l2 -> foldr Z.add 0 l1 = foldr Z.add 0 l2.
Proof. induction 1; simpl; lia. Qed.

Lemma observed_damage_add D s o : o ∉ s ->
  observed_damage D ({[o]} ∪ s) = default 0 (D !! o) + observed_damage D s.
Proof. intros Ho. unfold observed_damage. by rewrite (foldr_add_perm _ _ (fmap_Permutation _ _ _ (elements_union_singleton s o Ho))). Qed.

Lemma observed_damage_insert D s o a : o ∉ s -> observed_damage (<[o := a]> D) s = observed_damage D s.
Proof.
  intros Ho. unfold observed_damage. f_equal. apply list_fmap_ext. intros i x Hx.
  assert (Hin : x ∈ s) by (by apply elem_of_elements, list_elem_of_lookup; exists i).
  rewrite lookup_insert_ne; [done|]. by intros ->.
Qed.

Lemma observed_damage_nonneg D s : map_Forall (fun _ a => 0 <= a) D -> 0 <= observed_damage D s.
Proof.
  intros HD. unfold observed_damage. induction (elements s) as [|o l IH]; simpl; [done|].
  destruct (D !! o) as [a|] eqn:E; simpl; [|exact IH]. pose proof (HD o a E) as Ha. cbn beta in Ha.
  apply Z.add_nonneg_nonneg; [exact Ha|exact IH].
Qed.

(** What a record's damage fields say. *)
Record books_ok (w : Z) (D : gmap DamageObservationId Z) (r : DiveRecord) : Prop := {
  do_seen : forall o, o ∈ attributed_damage_observations r ->
    is_Some (D !! o) /\ exists landing, landing_tick (row r) = Some landing /\
      landing <= observation_tick o <= tick_saturating_add landing w;
  do_sum : damage_taken_landing_through_3s (row r)
           = Z.min u32_max (landing_damage (row r) + observed_damage D (attributed_damage_observations r));
  do_landing : 0 <= landing_damage (row r) /\ (landing_tick (row r) = None -> landing_damage (row r) = 0);
}.

(** A change that leaves a record's damage alone. *)
Definition damage_frame (r r' : DiveRecord) : Prop :=
  attributed_damage_observations r' = attributed_damage_observations r /\
  landing_tick (row r') = landing_tick (row r) /\ landing_damage (row r') = landing_damage (row r) /\
  damage_taken_landing_through_3s (row r') = damage_taken_landing_through_3s (row r) /\
  (finalized r = true -> finalized r' = true).
Definition rows_frame (m m' : gmap DiveId DiveRecord) : Prop :=
  forall id r', m' !! id = Some r' -> exists r, m !! id = Some r /\ damage_frame r r'.

#[export] Instance damage_frame_preorder : PreOrder damage_frame.
Proof.
  split; [by intros r|]. intros r1 r2 r3 (A1 & A2 & A3 & A4 & A5) (B1 & B2 & B3 & B4 & B5).
  split_and!; try congruence; auto.
Qed.
#[export] Instance rows_frame_preorder : PreOrder rows_frame.
Proof.
  split.
  - intros m id r Hr. by exists r.
  - intros m1 m2 m3 H12 H23 id r3 H3. destruct (H23 id r3 H3) as (r2 & H2 & F2).
    destruct (H12 id r2 H2) as (r1 & H1 & F1). exists r1. split; [done|]. by etransitivity.
Qed.

Lemma alter_frame f id m : (forall r, damage_frame r (f r)) -> rows_frame m (alter f id m).
Proof.
  intros Hf i r' Hr. destruct (decide (i = id)) as [->|Hne].
  - rewrite lookup_alter_eq in Hr. apply fmap_Some in Hr as (r & Hr & ->). by exists r.
  - rewrite lookup_alter_ne in Hr by done. by exists r'.
Qed.

Lemma maybe_finalize_frame id call : rows_frame (rows call.1) (rows (maybe_finalize id call).1).
Proof.
  destruct call as [k e]. unfold maybe_finalize. destruct (rows k !! id); [|reflexivity].
  destruct (should_finalize k _); [|reflexivity]. apply alter_frame. by intros r.
Qed.

Lemma update_rows_frame f ids : (forall r, damage_frame r (alter_row f r)) -> forall call,
  rows_frame (rows call.1) (rows (update_rows f ids call).1).
Proof.
  intros Hf. induction ids as [|id ids IH]; intros [k e]; [reflexivity|]. rewrite update_rows_cons. cbn [fst snd].
  etransitivity; [|apply IH]. etransitivity; [|apply maybe_finalize_frame]. by apply alter_frame.
Qed.

Lemma mark_death_frame w tick r : damage_frame r (alter_row (mark_death w tick) r).
Proof. unfold alter_row, mark_death. simpl. repeat case_match; done. Qed.

Lemma observe_death_frame tick call : rows_frame (rows call.1) (rows (observe_death_internal tick call).1).
Proof. apply update_rows_frame, mark_death_frame. Qed.

Lemma hurt_rider_frame id tick call : rows_frame (rows call.1) (rows (hurt_rider id tick call).1).
Proof.
  destruct call as [k e]. unfold hurt_rider. destruct (apply_landing_command _ _) as [h [a|]]; [|reflexivity].
  destruct (died a); [|reflexivity].
  exact (observe_death_frame tick (_, push_command (ApplyRiderDamage (landing_command k id tick)) e)).
Qed.

(** The invariant of the damage bookkeeping. *)
Record damage_inv (k : SaddleDiveKernel) : Prop := {
  di_rate : 0 < dive_tick_rate k < 2 ^ 32;
  di_seen : dom (damage_observations k) = external_observations (health k);
  di_amounts : map_Forall (fun _ a => 0 <= a) (damage_observations k);
  di_rows : map_Forall (fun _ r => books_ok (observation_ticks k) (damage_observations k) r) (rows k);
  di_covers : forall o, is_Some (damage_observations k !! o) -> covers (observation_ticks k) (rows k) o;
}.

Lemma damage_ok_frame w D r r' : damage_frame r r' -> books_ok w D r -> books_ok w D r'.
Proof. intros (E1 & E2 & E3 & E4 & _) []. split; rewrite ?E1, ?E2, ?E3, ?E4; done. Qed.

Lemma covers_frame w m m' o : rows_frame m m' -> covers w m o -> covers w m' o.
Proof.
  intros Hf Hc i r' landing Hr' Hfin. destruct (Hf i r' Hr') as (r & Hr & (E1 & E2 & _ & _ & Hfi)).
  rewrite E1, E2. apply (Hc i r landing Hr). destruct (finalized r); [|done]. by rewrite Hfi in Hfin.
Qed.

(** The operations that only frame the damage. *)
Lemma damage_inv_frame k k' :
  damage_inv k -> dive_tick_rate k' = dive_tick_rate k -> damage_observations k' = damage_observations k ->
  external_observations (health k') = external_observations (health k) -> rows_frame (rows k) (rows k') ->
  damage_inv k'.
Proof.
  intros [] Hr Hd He Hf. unfold observation_ticks in *.
  split; unfold observation_ticks; rewrite ?Hr, ?Hd, ?He; try done.
  - intros id r' Hr'. destruct (Hf id r' Hr') as (r & Hr0 & Hfr). eapply damage_ok_frame; [exact Hfr|].
    exact (di_rows0 id r Hr0).
  - intros o Ho. eapply covers_frame; [exact Hf|]. by apply di_covers0.
Qed.

(** Attributing an observation keeps the books. *)
Lemma attribute_damage_ok w D o landing r :
  0 <= observation_amount o -> map_Forall (fun _ a => 0 <= a) D ->
  D !! observation_id o = Some (observation_amount o) -> observation_id o ∉ attributed_damage_observations r ->
  landing_tick (row r) = Some landing -> landing <= observation_tick (observation_id o) <= tick_saturating_add landing w ->
  books_ok w D r -> books_ok w D (attribute_damage o r).
Proof.
  intros Ha HD Hd Ho Hl Hw []. split; simpl; [| |done].
  - intros o' [->%elem_of_singleton|Ho']%elem_of_union; [|by apply do_seen0]. split; [by eexists|]. by exists landing.
  - rewrite do_sum0, observed_damage_add, Hd by done. cbn [default from_option id]. unfold saturating_add.
    pose proof (observed_damage_nonneg D (attributed_damage_observations r) HD).
    unfold u32_max. change (2 ^ 32) with 4294967296. lia.
Qed.

Lemma record_damage_ok D o call :
  0 <= observation_amount o -> map_Forall (fun _ a => 0 <= a) D ->
  D !! observation_id o = Some (observation_amount o) ->
  map_Forall (fun _ r => books_ok (observation_ticks call.1) D r) (rows call.1) ->
  map_Forall (fun _ r => books_ok (observation_ticks call.1) D r) (rows (record_damage_in_windows o call).1).
Proof.
  intros Ha HD Hd Hok id r'. rewrite (proj2 (record_damage_spec o call)). intros (r & Hr & ->)%fmap_Some.
  pose proof (Hok id r Hr) as H. cbn beta in H.
  destruct (in_damage_window call.1 (observation_id o) r) eqn:E; [|exact H].
  apply in_damage_window_true in E as (_ & Ho & landing & Hl & Hw). by eapply attribute_damage_ok.
Qed.

Lemma damage_op_inv k o : 0 <= observation_amount o -> damage_inv k -> damage_inv (apply_external_damage k o).1.
Proof.
  intros Ha Hk. unfold apply_external_damage. destruct (_ || _); [done|].
  unfold apply_external. case_bool_decide as Hseen; [by apply (damage_inv_frame k)|].
  cbn [apply_amount]. set (k1 := _ <| damage_observations := _ |>).
  set (a := mkRiderHealthApplication _ _ _). destruct Hk as [Hr Hs Hp Hrows Hc].
  assert (Hnew : damage_observations k !! observation_id o = None).
  { apply not_elem_of_dom. rewrite Hs. exact Hseen. }
  assert (Hw1 : observation_ticks k1 = observation_ticks k) by done.
  set (D := <[observation_id o := observation_amount o]> (damage_observations k)).
  assert (HD : map_Forall (fun _ a => 0 <= a) D) by (by apply map_Forall_insert_2).
  assert (Hout : forall id r, rows k !! id = Some r -> observation_id o ∉ attributed_damage_observations r).
  { intros id r Hid Hin. destruct (do_seen _ _ _ (Hrows id r Hid) _ Hin) as [[? ?] _]. congruence. }
  assert (Hrows1 : map_Forall (fun _ r => books_ok (observation_ticks k) D r) (rows k)).
  { intros id r Hid. pose proof (Hout id r Hid) as Hno. destruct (Hrows id r Hid). split; [| |done].
    - intros o' Ho'. destruct (do_seen0 o' Ho') as [[x Hx] Hl]. split; [|done].
      unfold D. rewrite lookup_insert_ne by congruence. by exists x.
    - unfold D. by rewrite observed_damage_insert. }
  set (call2 := record_damage_in_windows o (k1, effects_default)).
  assert (H2 : damage_inv call2.1).
  { pose proof (row_work_frame _ _ _ (proj1 (record_damage_spec o (k1, effects_default)))) as Hf.
    fold call2 in Hf. cbn [fst] in Hf.
    assert (Hw2 : observation_ticks call2.1 = observation_ticks k) by (by rewrite Hf).
    assert (Hd2 : damage_observations call2.1 = D) by (by rewrite Hf).
    split; rewrite ?Hw2, ?Hd2; try done.
    - by rewrite Hf.
    - assert (He : external_observations (health call2.1) = {[observation_id o]} ∪ external_observations (health k))
        by (by rewrite Hf).
      unfold D. rewrite He, dom_insert_L. by rewrite Hs.
    - apply (record_damage_ok D o (k1, effects_default)); [done|done| |exact Hrows1]. apply lookup_insert_eq.
    - intros o' Ho'. destruct (decide (o' = observation_id o)) as [->|Hne].
      + exact (record_damage_covers o (k1, effects_default)).
      + apply (record_damage_covers_other o o' (k1, effects_default)). apply Hc.
        unfold D in Ho'. by rewrite lookup_insert_ne in Ho'. }
  assert (H3 : damage_inv (observe_death_internal (observation_tick (observation_id o)) call2).1).
  { pose proof (row_work_frame _ _ _ (observe_death_work (observation_tick (observation_id o)) call2)) as Hf.
    apply (damage_inv_frame call2.1); [done|by rewrite Hf|by rewrite Hf|by rewrite Hf|]. apply observe_death_frame. }
  destruct (died a); [exact H3|exact H2].
Qed.

(** A landing opens the window and counts what was retained for it. *)
Lemma retained_fold_ok D id l : forall call,
  map_Forall (fun _ a => 0 <= a) D -> Forall (fun entry => D !! entry.1 = Some entry.2) l ->
  map_Forall (fun _ r => books_ok (observation_ticks call.1) D r) (rows call.1) ->
  map_Forall (fun _ r => books_ok (observation_ticks call.1) D r) (rows (fold_left (retained_round id) l call).1).
Proof.
  induction l as [|[o a] l IH]; intros call HD Hl Hok; cbn [fold_left]; [done|].
  apply Forall_cons in Hl as [Ho Hl]. cbn [fst snd] in Ho.
  destruct (retained_round_spec id call (o, a)) as [Hw Hrows]. pose proof (frame_ticks _ _ _ Hw) as Ht.
  rewrite <- Ht. apply IH; [done|done|]. rewrite Ht, Hrows.
  apply record_damage_ok; [exact (HD o a Ho)|done|exact Ho|exact Hok].
Qed.

Lemma mark_landing_ok w D air o slope r : map_Forall (fun _ a => 0 <= a) D ->
  books_ok w D r -> books_ok w D (alter_row (mark_landing air o slope w) r).
Proof.
  intros HD []. unfold alter_row, mark_landing. destruct (landing_tick (row r)) as [l|] eqn:El.
  { cbn [is_some]. split; simpl; try done; by rewrite ?El. }
  cbn [is_some].
  assert (Hnone : attributed_damage_observations r = ∅).
  { apply set_eq. intros o'. split; [|done]. intros Ho. destruct (do_seen0 o' Ho) as (_ & l & Hl & _). congruence. }
  rewrite (proj2 do_landing0) in do_sum0 by done.
  assert (Hz : observed_damage D (attributed_damage_observations r) = 0).
  { rewrite Hnone. unfold observed_damage. by rewrite elements_empty. }
  rewrite Hz in do_sum0. change (Z.min u32_max (0 + 0)) with 0 in do_sum0.
  split; simpl.
  - rewrite Hnone. intros o' Ho'. by apply elem_of_empty in Ho'.
  - destruct (slope >? _), (death_tick _); simpl; rewrite Hz, do_sum0; try rewrite (proj2 do_landing0 eq_refl); done.
  - destruct (slope >? _), (death_tick _); simpl; split; try done; by rewrite (proj2 do_landing0 eq_refl).
Qed.

Lemma land_dive_damage k air o slope e : damage_inv k -> damage_inv (land_dive air o slope (k, e)).1.
Proof.
  intros [Hr Hs Hp Hrows Hc]. unfold land_dive.
  set (k1 := k <| state := _ |> <| state_enter_tick := _ |> <| state_dive_id := _ |> <| airborne := _ |> <| landing := _ |>).
  set (id := air_dive_id air). set (e1 := push_transition _ e).
  set (k2 := alter_record _ id k1).
  assert (Hrows2 : map_Forall (fun _ r => books_ok (observation_ticks k) (damage_observations k) r) (rows k2)).
  { intros i r' Hi. unfold k2, alter_record in Hi. simpl in Hi.
    destruct (decide (i = id)) as [->|Hne].
    - rewrite lookup_alter_eq in Hi. apply fmap_Some in Hi as (r & Hi & ->). apply mark_landing_ok; [done|].
      exact (Hrows id r Hi).
    - rewrite lookup_alter_ne in Hi by done. exact (Hrows i r' Hi). }
  destruct (attribute_retained_spec id (k2, e1)) as [Hw3 Hc3].
  assert (Hrows3 : map_Forall (fun _ r => books_ok (observation_ticks k) (damage_observations k) r)
      (rows (attribute_retained_damage_for_dive id (k2, e1)).1)).
  { apply (retained_fold_ok (damage_observations k) id _ (k2, e1)); [done| |exact Hrows2].
    apply Forall_forall. intros [o' a] Ho. by apply elem_of_btree_list in Ho. }
  set (call3 := attribute_retained_damage_for_dive id (k2, e1)) in *.
  pose proof (row_work_frame _ _ _ Hw3) as Hf3. cbn [fst] in Hf3.
  assert (H3 : damage_inv call3.1).
  { assert (Hw : observation_ticks call3.1 = observation_ticks k) by (by rewrite Hf3).
    assert (Hd : damage_observations call3.1 = damage_observations k) by (by rewrite Hf3).
    split; rewrite ?Hw, ?Hd; try done; by rewrite Hf3. }
  clearbody call3. clear Hf3 Hc3 Hw3 Hrows3 Hrows2 Hc Hrows Hp Hs Hr.
  set (call4 := if slope >? _ then _ else _).
  assert (H4 : damage_inv call4.1).
  { unfold call4. destruct (slope >? _); [|done].
    pose proof (hurt_rider_frame id (motion_tick o) call3) as Hfr. revert Hfr.
    destruct call3 as [k3 e3]. cbn [fst] in *. unfold hurt_rider, apply_landing_command.
    case_bool_decide; [intros _; by apply (damage_inv_frame k3)|]. cbn [apply_amount].
    set (k5 := k3 <| health := _ |>). destruct (died _); [|intros _; by apply (damage_inv_frame k3)].
    set (e5 := push_command _ e3).
    pose proof (row_work_frame _ _ _ (observe_death_work (motion_tick o) (k5, e5))) as Hf. cbn [fst] in Hf.
    intros Hfr. apply (damage_inv_frame k3); [done|by rewrite Hf|by rewrite Hf|by rewrite Hf|exact Hfr]. }
  clearbody call4. destruct call4 as [k4 e4]. cbn [fst snd] in *.
  pose proof (row_work_frame 0 _ _ (maybe_finalize_work 0 id (k4, push_update k4 id e4))) as Hf. cbn [fst] in Hf.
  apply (damage_inv_frame k4); [done|by rewrite Hf|by rewrite Hf|by rewrite Hf|].
  apply (maybe_finalize_frame id (k4, _)).
Qed.

(** The other operations. *)
Lemma launch_damage k input e : damage_inv k ->
  match launch_dive input (k, e) with
  | (Ok (k', _), _) => damage_inv k'
  | (Err _, k') => damage_inv k'
  end.
Proof.
  intros Hk. unfold launch_dive. destruct (next_dive_id k) as [id|] eqn:Hid; [|done].
  set (k1 := k <| next_dive_id := _ |>).
  destruct Hk as [Hr Hse Hp Hrows Hc]. split; try done.
  - intros i r. simpl. rewrite lookup_insert_Some. intros [[<- <-]|[Hne Hi']]; [|exact (Hrows i r Hi')].
    split; try done; intros o Ho; by apply elem_of_empty in Ho.
  - intros o Ho i r landing. simpl. rewrite lookup_insert_Some. intros [[<- <-]|[Hne Hi']]; [done|].
    exact (Hc o Ho i r landing Hi').
Qed.

Lemma mark_remount_frame tick r : damage_frame r (mark_remount tick r).
Proof. unfold mark_remount, alter_row. by destruct (_ && _). Qed.

Lemma remount_damage k tick p e : damage_inv k -> damage_inv (complete_remount tick p (k, e)).1.
Proof.
  intros Hk. unfold complete_remount.
  set (k1 := k <| state := _ |> <| state_enter_tick := _ |> <| state_dive_id := _ |> <| airborne := _ |> <| landing := _ |>).
  set (e1 := push_command _ _).
  assert (Hk1 : damage_inv k1) by (by apply (damage_inv_frame k)).
  destruct (state_dive_id k) as [id|]; [|exact Hk1].
  set (k2 := alter_record (mark_remount tick) id k1).
  pose proof (row_work_frame 0 _ _ (maybe_finalize_work 0 id (k2, push_update k2 id e1))) as Hf. cbn [fst] in Hf.
  apply (damage_inv_frame k1); [done|by rewrite Hf|by rewrite Hf|by rewrite Hf|].
  etransitivity; [|apply (maybe_finalize_frame id (k2, _))]. apply alter_frame, mark_remount_frame.
Qed.

Lemma recovery_damage tick fuel : forall call, damage_inv call.1 -> damage_inv (recovery_loop fuel tick call).1.
Proof.
  induction fuel as [|fuel IH]; intros [k e] Hk; [done|]. cbn [recovery_loop].
  destruct (recovery_round tick (k, e)) as [[k1 e1]|] eqn:E; [|done]. apply IH. cbn [recovery_round fst] in *.
  destruct (landing k) as [l|]; [|done]. cbn [mbind option_bind] in E.
  destruct (state k); try done; (case_match; [done|]); injection E as <- _; by apply (damage_inv_frame k).
Qed.

Lemma interact_damage k input edge e :
  damage_inv k ->
  damage_inv (interact input edge (k, e)).1 /\
  (forall call b, (interact input edge (k, e)).2 = Ok (call, b) -> damage_inv call.1).
Proof.
  intros Hk. unfold interact. destruct (state k); try by (split; [done|intros call b [= <- _]]).
  - set (k0 := k <| mounted_horse_grounded := horse_grounded input |>).
    assert (Hk0 : damage_inv k0) by (by apply (damage_inv_frame k)).
    destruct edge; [|by split; [|intros call b [= <- _]]].
    destruct (horse_grounded input); [|by split; [|intros call b [= <- _]]].
    destruct (_ <=? _).
    + pose proof (launch_damage k0 input e Hk0) as Hl.
      destruct (launch_dive input (k0, e)) as [[[k1 e1]|err] k2]; (split; [exact Hl|]); [by intros call b [= <- _]|done].
    + assert (Hd : damage_inv (ordinary_dismount (in_tick input) (k0, e)).1) by (by apply (damage_inv_frame k0)).
      split; [exact Hd|by intros call b [= <- _]].
  - destruct (_ && _); [|by split; [|intros call b [= <- _]]].
    pose proof (remount_damage k (in_tick input) (horse_position input) e Hk) as Hm.
    destruct (complete_remount _ _ _) as [k1 e1]. cbn [fst] in Hm.
    assert (Hm' : damage_inv (k1 <| mounted_horse_grounded := horse_grounded input |>)) by (by apply (damage_inv_frame k1)).
    split; [exact Hm'|by intros call b [= <- _]].
Qed.

Lemma begin_damage k input : damage_inv k -> damage_inv (dive_step k (DBegin input)).1.
Proof.
  intros Hk. cbn [dive_step]. unfold dive_begin_tick.
  destruct (validate_identity k _ _); [done|]. destruct (is_some_and _ _); [done|].
  set (tick := in_tick input) in *.
  set (k1 := k <| current_tick := Some tick |> <| motion_resolved := false |> <| rider_position := _ |>).
  assert (Hd : damage_inv (advance_recovery_boundaries tick (k1, effects_default)).1)
    by (apply recovery_damage; by apply (damage_inv_frame k)).
  destruct (advance_recovery_boundaries tick (k1, effects_default)) as [k2 e2]. cbn [fst] in *.
  set (k3 := k2 <| previous_interact_level := _ |>).
  assert (Hd3 : damage_inv k3) by (by apply (damage_inv_frame k2)).
  destruct (interact_damage k3 input (interact_pressed input && negb (previous_interact_level k2)) e2 Hd3) as [H1 H2].
  destruct (interact input _ _) as [k4 [[[k5 e5] consumed]|err]]; [|exact H1]. exact (H2 _ _ eq_refl).
Qed.

Lemma update_rows_damage w f ids call :
  (forall r, damage_frame r (alter_row f r)) -> row_work w call (update_rows f ids call) ->
  damage_inv call.1 -> damage_inv (update_rows f ids call).1.
Proof.
  intros Hf Hw Hk. pose proof (row_work_frame _ _ _ Hw) as He.
  apply (damage_inv_frame call.1); [done|by rewrite He|by rewrite He|by rewrite He|]. by apply update_rows_frame.
Qed.

Lemma censor_damage reason k : open_reason reason -> damage_inv k -> damage_inv (censor_open_rows reason k).1.
Proof.
  intros Hr Hk. refine (update_rows_damage _ _ _ (k, effects_default) _ (censor_work reason k Hr) Hk). by intros r.
Qed.

Lemma alter_record_damage f id k :
  (forall r, damage_frame r (f r)) -> damage_inv k -> damage_inv (alter_record f id k).
Proof. intros Hf Hk. apply (damage_inv_frame k); try done. by apply alter_frame. Qed.

Lemma step_damage k op : dive_op_ok op -> damage_inv k -> damage_inv (dive_step k op).1.
Proof.
  intros Hop Hk. destruct op as [input|o|tick|tick|shot|at_|o|tick| | |tick|epoch]; [by apply begin_damage|..]; cbn [dive_step].
  - unfold dive_resolve_motion. destruct (negb _); [done|]. destruct (motion_resolved k); [done|].
    set (k1 := k <| motion_resolved := _ |> <| rider_position := _ |>).
    assert (Hk1 : damage_inv k1) by (by apply (damage_inv_frame k)).
    destruct (airborne k1) as [air|]; [|exact Hk1]. destruct (negb _); [exact Hk1|].
    destruct (if descending o then _ else None) as [slope|]; [|by apply (damage_inv_frame k1)].
    pose proof (land_dive_damage k1 air o slope effects_default Hk1) as H.
    by destruct (land_dive air o slope (k1, effects_default)).
  - unfold settle_observations_through. destruct (_ || _); [done|].
    set (k1 := k <| observation_watermark := _ |>).
    assert (Hk1 : damage_inv k1) by (by apply (damage_inv_frame k)).
    refine (update_rows_damage _ _ _ (k1, effects_default) _ (resolve_windows_work tick (k1, effects_default)) Hk1).
    by intros r.
  - unfold record_shot_attempt. destruct (_ || _); [done|]. destruct (state_dive_id k) as [id|]; [|done].
    destruct (rows k !! id); [|done]. case_bool_decide; [done|]. by apply alter_record_damage.
  - unfold record_accepted_shot. destruct (meta_dive shot) as [id|]; [|done]. destruct (_ || _); [done|].
    destruct (rows k !! id); [|done]. destruct (shot_rejected_by_row _ _); [done|]. by apply alter_record_damage.
  - unfold record_authority_result. destruct (_ || duplicate at_); [done|].
    destruct (accepted_shot at_) as [shot|]; [|done]. destruct (meta_dive shot) as [id|]; [|done].
    destruct (rows k !! id); [|done]. destruct (finalized _ || _ || _); [done|].
    set (k1 := alter_record _ id k).
    assert (Hk1 : damage_inv k1).
    { apply alter_record_damage; [|done]. intros r. unfold alter_row, count_hit. by repeat case_match. }
    set (e1 := push_update _ _ _).
    pose proof (row_work_frame 0 _ _ (maybe_finalize_work 0 id (k1, e1))) as Hf. cbn [fst] in Hf.
    apply (damage_inv_frame k1); [done|by rewrite Hf|by rewrite Hf|by rewrite Hf|].
    apply (maybe_finalize_frame id (k1, _)).
  - by apply damage_op_inv.
  - unfold dive_observe_death. set (k1 := k <| health := _ |>).
    assert (Hk1 : damage_inv k1).
    { apply (damage_inv_frame k); try done. unfold k1, health_observe_death. by destruct (rider_health _ =? 0). }
    exact (update_rows_damage _ _ _ (k1, effects_default) (mark_death_frame _ _) (observe_death_work tick (k1, effects_default)) Hk1).
  - by apply censor_damage; [left|].
  - by apply censor_damage; [right; right|].
  - unfold dive_reset. pose proof (censor_damage CensorReset k ltac:(right; by left) Hk) as H.
    destruct (censor_open_rows CensorReset k) as [k1 e1]. cbn [fst] in H.
    set (k2 := if is_none_or _ _ then _ else _).
    case_bool_decide; cbn [fst]; apply (damage_inv_frame k1); unfold k2; try done; by destruct (is_none_or _ _).
  - unfold dive_set_authority_epoch. destruct (_ <? _); [done|]. by apply (damage_inv_frame k).
Qed.

Lemma run_damage ops : forall k k' es,
  Forall dive_op_ok ops -> damage_inv k -> dive_run k ops = (k', es) -> damage_inv k'.
Proof.
  induction ops as [|op ops IH]; intros k k' es Hops Hk Hrun; cbn [dive_run] in Hrun; [by injection Hrun as <- _|].
  apply Forall_cons in Hops as [Hop Hops]. pose proof (step_damage k op Hop Hk) as H.
  destruct (dive_step k op) as [k1 e1]. destruct (dive_run k1 ops) as [k2 es2] eqn:E2.
  injection Hrun as <- _. by apply (IH k1 k2 es2).
Qed.

Definition in_window (landing window : Z) (o : DamageObservationId) : Prop :=
  landing <= observation_tick o <= tick_saturating_add landing window.
#[export] Instance in_window_dec landing window o : Decision (in_window landing window o).
Proof. unfold in_window. apply _. Defined.

(** C28. The damage of the three seconds after a landing is exactly the damage observed
    in them: after any operations, a landed dive that is not yet finalized has counted
    precisely the distinct observations whose tick is in its window, reported before the
    landing or after, in any order. A finalized one ignores later reports: it holds some
    of the observations of its window and nothing else. In both cases its damage is the
    landing's and that of the observations it holds, saturating once. *)
Theorem damage_window_exact rate id epoch k ops k' es dive r landing :
  0 <= rate < 2 ^ 32 -> dive_new rate id epoch = Ok k -> Forall dive_op_ok ops -> dive_run k ops = (k', es) ->
  rows k' !! dive = Some r -> landing_tick (row r) = Some landing ->
  let in_time := filter (in_window landing (duration_ticks_ceil (dive_tick_rate k') 3000)) (dom (damage_observations k')) in
  attributed_damage_observations r ⊆ in_time /\
  (finalized r = false -> attributed_damage_observations r = in_time) /\
  damage_taken_landing_through_3s (row r)
    = Z.min u32_max (landing_damage (row r)
        + observed_damage (damage_observations k') (attributed_damage_observations r)).
Proof.
  intros Hr Hnew Hops Hrun Hd Hl in_time.
  assert (Hk : damage_inv k).
  { unfold dive_new in Hnew. destruct (Z.eqb_spec rate 0); [done|]. apply Ok_inj in Hnew as <-.
    split; simpl; try done; lia. }
  destruct (run_damage ops k k' es Hops Hk Hrun) as [_ _ _ Hrows Hc]. destruct (Hrows dive r Hd) as [Hseen Hsum _].
  assert (Hsub : attributed_damage_observations r ⊆ in_time).
  { intros o Ho. apply elem_of_filter. rewrite elem_of_dom. destruct (Hseen o Ho) as (Hin & l & Hl' & Hw).
    assert (l = landing) as -> by congruence. done. }
  split; [exact Hsub|]. split; [|exact Hsum]. intros Hf. apply set_eq. intros o. split; [by apply Hsub|].
  intros [Hw Hin]%elem_of_filter. apply elem_of_dom in Hin. by apply (Hc o Hin dive r landing).
Qed.

Lemma demo_row_open : finalized demo_row = false.
Proof. by vm_compute. Qed.
Lemma demo_row_landed : landing_tick (row demo_row) = Some 40.
Proof. by vm_compute. Qed.

(** Fifteen for the landing, seven reported before it, four after; nine came too late. *)
Lemma damage_window_exact_witness :
  attributed_damage_observations demo_row
    = filter (in_window 40 (duration_ticks_ceil (dive_tick_rate demo_landed) 3000)) (dom (damage_observations demo_landed)) /\
  damage_taken_landing_through_3s (row demo_row) = 26.
Proof.
  split; [|by vm_compute].
  exact (proj1 (proj2 (damage_window_exact 30 demo_rider 3 demo_kernel demo_dive_ops demo_landed
    (dive_run demo_kernel demo_dive_ops).2 1 demo_row 40 ltac:(lia) demo_kernel_new demo_dive_ops_ok demo_landed_run
    demo_row_of demo_row_landed)) demo_row_open).
Defined.
