(* ===== verification/M3.v ===== *)
(** * Shared M3 rules ([m3.rs], constants, stances and errors)

    The tick constants of the horse, on-foot and recall kernels, the wire-v2
    stance namespace and the kernels' error type. *)

From S2P Require Import Prelude MachineInt.
Open Scope Z_scope.

Definition M3_TICK_RATE_HZ : Z := 60.
Definition ON_FOOT_WALK_SPEED_MMPS : Z := 2000.
Definition ON_FOOT_SPRINT_SPEED_MMPS : Z := 4500.
Definition ON_FOOT_CROUCH_SPEED_MMPS : Z := 1200.
Definition ON_FOOT_WALK_ACCEL_MMPS2 : Z := 12000.
Definition ON_FOOT_WALK_DECEL_MMPS2 : Z := 16000.
Definition ON_FOOT_SPRINT_ACCEL_MMPS2 : Z := 15000.
Definition ON_FOOT_SPRINT_DECEL_MMPS2 : Z := 18000.
Definition ON_FOOT_CROUCH_ACCEL_MMPS2 : Z := 8000.
Definition ON_FOOT_CROUCH_DECEL_MMPS2 : Z := 12000.
Definition ON_FOOT_STAMINA_TICKS : Z := 4 * M3_TICK_RATE_HZ.
Definition ON_FOOT_STAMINA_REGEN_TICKS : Z := 6 * M3_TICK_RATE_HZ.
Definition TACTICAL_ROLL_TICKS : Z := M3_TICK_RATE_HZ / 2.
Definition TACTICAL_ROLL_SPEED_MMPS : Z := 7000.
Definition TACTICAL_ROLL_COOLDOWN_TICKS : Z := 3 * M3_TICK_RATE_HZ / 2.
Definition ROLL_EXIT_SWAY_IMPULSE_MILLI : Z := 300.
Definition ROLL_EXIT_SWAY_DECAY_TICKS : Z := 3 * M3_TICK_RATE_HZ / 5.
Definition ON_FOOT_INPUT_BUFFER_TICKS : Z := 3 * M3_TICK_RATE_HZ / 20.
Definition BASE_RECALL_TICKS : Z := 20 * M3_TICK_RATE_HZ.
Definition MIN_RECALL_TICKS : Z := 8 * M3_TICK_RATE_HZ.
Definition RUNNING_MOUNT_RANGE_MM : Z := 4000.
Definition STATIONARY_REMOUNT_RANGE_MM : Z := 3000.
Definition RUNNING_MOUNT_WINDOW_TICKS : Z := 3 * M3_TICK_RATE_HZ / 2.
Definition HORSE_BOLT_TICKS : Z := 3 * M3_TICK_RATE_HZ.
Definition HORSE_REGEN_DELAY_TICKS : Z := 6 * M3_TICK_RATE_HZ.
Definition HORSE_REGEN_HEALTH_PER_SECOND : Z := 10.
Definition SPOOK_THROW_DISTANCE_MM : Z := 3000.
Definition SPOOK_STUN_TICKS : Z := 3 * M3_TICK_RATE_HZ / 5.
Definition HOOFBEAT_TICKS : Z := 2 * M3_TICK_RATE_HZ.
Definition DUST_REVEAL_TICKS : Z := 3 * M3_TICK_RATE_HZ / 2.
Definition GALLOP_IN_TICKS : Z := 3 * M3_TICK_RATE_HZ.
Definition MAX_M3_AUTHORITY_ACTORS : Z := 16.

(** The durations as numerals, for [lia]. *)
Lemma m3_durations :
  ON_FOOT_STAMINA_TICKS = 240 /\ ON_FOOT_STAMINA_REGEN_TICKS = 360 /\ TACTICAL_ROLL_TICKS = 30 /\
  TACTICAL_ROLL_COOLDOWN_TICKS = 90 /\ ROLL_EXIT_SWAY_DECAY_TICKS = 36 /\
  ON_FOOT_INPUT_BUFFER_TICKS = 9 /\ BASE_RECALL_TICKS = 1200 /\ MIN_RECALL_TICKS = 480 /\
  RUNNING_MOUNT_WINDOW_TICKS = 90 /\ HORSE_BOLT_TICKS = 180 /\ HORSE_REGEN_DELAY_TICKS = 360 /\
  SPOOK_STUN_TICKS = 36 /\ HOOFBEAT_TICKS = 120 /\ DUST_REVEAL_TICKS = 90 /\
  GALLOP_IN_TICKS = 180 /\ M3_TICK_RATE_HZ = 60.
Proof. by vm_compute. Qed.

Ltac m3_consts := pose proof m3_durations; destruct_and?.
Ltac m3_lia := m3_consts; int_lia.

Inductive M3RiderStance :=
| StanceSpookStunned | StanceStanding | StanceSprinting | StanceCrouched | StanceRolling.

#[export] Instance M3RiderStance_eq_dec : EqDecision M3RiderStance.
Proof. solve_decision. Defined.

Inductive M3ActorStance :=
| ActorMounted | ActorMountedAirborne | ActorSaddleDiveAirborne | ActorLandingProne
| ActorLandingRecovery | ActorSpookStunned | ActorOnFootStanding | ActorOnFootSprinting
| ActorOnFootCrouched | ActorOnFootRolling.

Definition actor_stance_as_u8 (self : M3ActorStance) : Z :=
  match self with
  | ActorMounted => 0 | ActorMountedAirborne => 1 | ActorSaddleDiveAirborne => 2
  | ActorLandingProne => 3 | ActorLandingRecovery => 4 | ActorSpookStunned => 5
  | ActorOnFootStanding => 6 | ActorOnFootSprinting => 7 | ActorOnFootCrouched => 8
  | ActorOnFootRolling => 9
  end.

Definition actor_stance_is_mounted (self : M3ActorStance) : bool :=
  match self with ActorMounted | ActorMountedAirborne => true | _ => false end.

Inductive M3Error := TickReplay | InvalidState.

#[export] Instance M3Error_eq_dec : EqDecision M3Error.
Proof. solve_decision. Defined.
