(* ===== verification/HorseVitality.v ===== *)
(** * Horse vitality ([m3.rs], [HorseVitalityKernel])

    Replay-safe damage, the fatal edge into the bolt, delayed regeneration and
    the despawn, on the authority's absolute ticks. *)

From S2P Require Import Prelude MachineInt Ordered Clock Combat M3.
Open Scope Z_scope.

Inductive HorseVitalityClass := Courser | Warhorse | Mustang.
#[export] Instance HorseVitalityClass_eq_dec : EqDecision HorseVitalityClass.
Proof. solve_decision. Defined.

Definition max_health (self : HorseVitalityClass) : Z :=
  match self with Courser => 200 | Warhorse => 320 | Mustang => 250 end.

Abbreviation HorseDamageId := ReceiptId (only parsing).

Record HorseDamageCommand := mkHorseDamageCommand {
  damage_id : HorseDamageId;
  amount : Z;
  horse_position : QuantizedOrigin;
  damage_source_position : QuantizedOrigin;
}.

Inductive HorseVitalityState := Available | Bolting | Despawned.
#[export] Instance HorseVitalityState_eq_dec : EqDecision HorseVitalityState.
Proof. solve_decision. Defined.

Record HorseDamageApplication := mkHorseDamageApplication {
  health_before : Z;
  health_after : Z;
  spooked : bool;
  app_bolt_away_delta_mm : Z * Z;
  rider_throw_distance_mm : Z;
  rider_stun_ticks : Z;
  rider_fall_damage : bool;
}.
#[export] Instance HorseDamageApplication_eq_dec : EqDecision HorseDamageApplication.
Proof. solve_decision. Defined.

Record HorseBoltedEvent := mkHorseBoltedEvent {
  event_id : HorseDamageId;
  event_class : HorseVitalityClass;
  event_bolt_away_delta_mm : Z * Z;
  notification_points : Z;
}.
#[export] Instance HorseBoltedEvent_eq_dec : EqDecision HorseBoltedEvent.
Proof. solve_decision. Defined.

Record HorseDamageEffects := mkHorseDamageEffects {
  application : HorseDamageApplication;
  horse_bolted : option HorseBoltedEvent;
}.
#[export] Instance HorseDamageEffects_eq_dec : EqDecision HorseDamageEffects.
Proof. solve_decision. Defined.

Record HorseVitalityKernel := mkHorseVitalityKernel {
  class : HorseVitalityClass;
  health : Z;
  horse_state : HorseVitalityState;
  bolt_started_tick : option SimulationTick;
  bolt_away_delta_mm : Z * Z;
  last_damage_id : option HorseDamageId;
  horse_current_tick : option SimulationTick;
  last_damage_tick : option SimulationTick;
  regen_units : Z;
}.

#[export] Instance eta_HorseVitalityKernel : Settable HorseVitalityKernel := fun k =>
  mkHorseVitalityKernel (class k) (health k) (horse_state k) (bolt_started_tick k)
    (bolt_away_delta_mm k) (last_damage_id k) (horse_current_tick k) (last_damage_tick k)
    (regen_units k).
#[export] Instance HorseVitalityKernel_eq_dec : EqDecision HorseVitalityKernel.
Proof. solve_decision. Defined.

Definition horse_new (c : HorseVitalityClass) : HorseVitalityKernel :=
  mkHorseVitalityKernel c (max_health c) Available None (0, 1) None None None 0.

Definition apply_damage (self : HorseVitalityKernel) (command : HorseDamageCommand)
    : HorseVitalityKernel * option HorseDamageApplication :=
  if bool_decide (horse_state self <> Available)
     || is_replay (last_damage_id self) (damage_id command)
     || is_some_and (horse_current_tick self)
          (fun current => negb (receipt_tick (damage_id command) =? current))
  then (self, None)
  else
    let self := self <| last_damage_id := Some (damage_id command) |> in
    let health_before := health self in
    let self := self <| health := saturating_sub (health self) (amount command) |>
                     <| last_damage_tick := Some (receipt_tick (damage_id command)) |>
                     <| regen_units := 0 |> in
    let spooked := (0 <? health_before) && (health self =? 0) in
    let self :=
      if spooked then
        let away_x := i32_clamp (origin_x (horse_position command)
                                 - origin_x (damage_source_position command)) in
        let away_z := i32_clamp (origin_z (horse_position command)
                                 - origin_z (damage_source_position command)) in
        self <| horse_state := Bolting |>
             <| bolt_started_tick := Some (receipt_tick (damage_id command)) |>
             <| bolt_away_delta_mm :=
                  if (away_x =? 0) && (away_z =? 0) then (0, 1) else (away_x, away_z) |>
      else self in
    (self, Some (mkHorseDamageApplication health_before (health self) spooked
                   (bolt_away_delta_mm self)
                   (if spooked then SPOOK_THROW_DISTANCE_MM else 0)
                   (if spooked then SPOOK_STUN_TICKS else 0) false)).

(** The regeneration block of [advance_tick]. *)
Definition regenerate (self : HorseVitalityKernel) (previous_tick : option SimulationTick)
    (tick : SimulationTick) : HorseVitalityKernel :=
  if bool_decide (horse_state self = Available) && (health self <? max_health (class self)) then
    match (fun last => tick_saturating_add last HORSE_REGEN_DELAY_TICKS) <$> last_damage_tick self with
    | None => self
    | Some boundary =>
        let eligible_start :=
          Z.max (default boundary ((fun previous => tick_saturating_add previous 1) <$> previous_tick))
                boundary in
        if eligible_start <=? tick then
          let eligible_ticks := tick - eligible_start + 1 in
          let units := saturating_add 64 (regen_units self)
                         (saturating_mul 64 eligible_ticks HORSE_REGEN_HEALTH_PER_SECOND) in
          let restored := units / M3_TICK_RATE_HZ in
          let self := self <| regen_units := units mod M3_TICK_RATE_HZ |>
                           <| health := Z.min
                                (saturating_add 16 (health self)
                                   (default u16_max (try_from_uint 16 restored)))
                                (max_health (class self)) |> in
          if health self =? max_health (class self) then self <| regen_units := 0 |> else self
        else self
    end
  else self.

Definition horse_advance_tick (self : HorseVitalityKernel) (tick : SimulationTick)
    : HorseVitalityKernel * result (option SimulationTick) M3Error :=
  if is_some_and (horse_current_tick self) (fun current => tick <=? current)
  then (self, Err TickReplay)
  else
    let previous_tick := horse_current_tick self in
    let self := self <| horse_current_tick := Some tick |> in
    let self := regenerate self previous_tick tick in
    if bool_decide (horse_state self <> Bolting) then (self, Ok None)
    else
      match bolt_started_tick self with
      | None => (self, Err InvalidState)
      | Some started =>
          if HORSE_BOLT_TICKS <=? default 0 (checked_duration_since tick started)
          then (self <| horse_state := Despawned |>,
                Ok (Some (tick_saturating_add started HORSE_BOLT_TICKS)))
          else (self, Ok None)
      end.

Definition restore_returned_horse (self : HorseVitalityKernel) : HorseVitalityKernel * bool :=
  if bool_decide (horse_state self <> Despawned) then (self, false)
  else (self <| health := max_health (class self) |>
             <| horse_state := Available |>
             <| bolt_started_tick := None |>
             <| bolt_away_delta_mm := (0, 1) |>
             <| regen_units := 0 |>, true).

Definition horse_state_is_valid (self : HorseVitalityKernel) : bool :=
  if (max_health (class self) <? health self) || (M3_TICK_RATE_HZ <=? regen_units self) then false
  else if negb (bool_decide (receipt_tick <$> last_damage_id self = last_damage_tick self))
       || negb (tick_is_not_after (last_damage_tick self) (horse_current_tick self))
       || negb (tick_is_not_after (bolt_started_tick self) (horse_current_tick self))
       || ((health self =? max_health (class self)) && negb (regen_units self =? 0))
  then false
  else
    match horse_state self with
    | Available => (0 <? health self) && is_none (bolt_started_tick self)
    | Bolting =>
        (health self =? 0)
        && is_some_and (bolt_started_tick self) (fun started =>
             is_none_or (horse_current_tick self) (fun current =>
               default 0 (checked_duration_since current started) <? HORSE_BOLT_TICKS))
    | Despawned =>
        (health self =? 0)
        && is_some_and (bolt_started_tick self) (fun started =>
             is_some_and (horse_current_tick self) (fun current =>
               HORSE_BOLT_TICKS <=? default 0 (checked_duration_since current started)))
    end.

(** Field ranges. *)
Definition horse_typed (k : HorseVitalityKernel) : Prop :=
  0 <= health k /\ 0 <= regen_units k /\ opt_u64 (bolt_started_tick k) /\
  from_option receipt_ok True (last_damage_id k) /\ opt_u64 (horse_current_tick k) /\
  opt_u64 (last_damage_tick k).

Definition horse_inv (k : HorseVitalityKernel) : Prop := horse_typed k /\ horse_state_is_valid k = true.

Definition command_ok (c : HorseDamageCommand) : Prop :=
  receipt_ok (damage_id c) /\ in_uint 16 (amount c).

(** ** Invariant *)

Lemma max_health_range c : 200 <= max_health c <= 320.
Proof. destruct c; simpl; lia. Qed.

(** The validity test, as the facts the proofs use. *)
Definition horse_state_facts (k : HorseVitalityKernel) : Prop :=
  match horse_state k with
  | Available => 0 < health k /\ bolt_started_tick k = None
  | Bolting => health k = 0 /\ exists started, bolt_started_tick k = Some started /\
      is_none_or (horse_current_tick k) (fun now => now - started <? HORSE_BOLT_TICKS) = true
  | Despawned => health k = 0 /\ exists started now, bolt_started_tick k = Some started /\
      horse_current_tick k = Some now /\ HORSE_BOLT_TICKS <= now - started
  end.

Lemma horse_state_is_valid_true k :
  horse_state_is_valid k = true <->
  health k <= max_health (class k) /\ regen_units k < M3_TICK_RATE_HZ /\
  receipt_tick <$> last_damage_id k = last_damage_tick k /\
  tick_is_not_after (last_damage_tick k) (horse_current_tick k) = true /\
  tick_is_not_after (bolt_started_tick k) (horse_current_tick k) = true /\
  (health k = max_health (class k) -> regen_units k = 0) /\ horse_state_facts k.
Proof.
  unfold horse_state_is_valid, horse_state_facts.
  destruct (_ || _) eqn:H1; [split; [done|]; btrue; intros; lia|]. btrue.
  destruct (_ || _ || _ || _) eqn:H2.
  - split; [done|]. rewrite !orb_true_iff, andb_true_iff, !negb_true_iff, bool_decide_eq_false in H2.
    intros (? & ? & ? & ? & ? & Hmax & ?). destruct H2 as [[[?|?]|?]|[? ?]]; try congruence; lia.
  - rewrite !orb_false_iff, !negb_false_iff, bool_decide_eq_true in H2.
    destruct H2 as [[[Hid Hld] Hbs] Hfull].
    assert (Hmax : health k = max_health (class k) -> regen_units k = 0).
    { intros Heq. apply andb_false_iff in Hfull. rewrite negb_false_iff in Hfull. lia. }
    split.
    + intros Hs. split_and!; try done; try lia.
      destruct (horse_state k); apply andb_true_iff in Hs as [Hh Hs].
      * split; [lia|]. by destruct (bolt_started_tick k).
      * split; [lia|]. destruct (bolt_started_tick k) as [s|]; [|done]. exists s. split; [done|].
        destruct (horse_current_tick k) as [now|]; simpl in *; [|done].
        rewrite checked_duration_since_or in Hs. lia.
      * split; [lia|]. destruct (bolt_started_tick k) as [s|]; [|done].
        destruct (horse_current_tick k) as [now|]; simpl in *; [|done].
        rewrite checked_duration_since_or in Hs. exists s, now. m3_consts. split_and!; try done; lia.
    + intros (_ & _ & _ & _ & _ & _ & Hs). destruct (horse_state k).
      * destruct Hs as [? ->]. bsplit; [lia|done].
      * destruct Hs as (? & s & -> & Hn). bsplit; [lia|]. simpl.
        destruct (horse_current_tick k) as [now|]; simpl in *; [|done].
        rewrite checked_duration_since_or. m3_lia.
      * destruct Hs as (? & s & now & -> & -> & Hn). bsplit; [lia|]. simpl.
        rewrite checked_duration_since_or. lia.
Qed.

Lemma horse_new_inv c : horse_inv (horse_new c).
Proof. split; [destruct c; unfold horse_typed; simpl; split_and!; done || lia | by destruct c]. Qed.

(** Damage on the kernel's current tick keeps the invariant. Before the first
    tick the receipt's tick would be ahead of the clock. *)
Lemma apply_damage_inv k c :
  horse_inv k -> command_ok c -> horse_current_tick k <> None -> horse_inv (apply_damage k c).1.
Proof.
  intros [Ht Hv] [Hid Hamount] Hnow.
  pose proof (max_health_range (class k)) as Hmax.
  apply horse_state_is_valid_true in Hv as (? & ? & ? & ? & ? & ? & Hs).
  destruct k as [cl h st bolt away lid now ldt ru]. unfold horse_typed, horse_state_facts in *. simpl in *.
  destruct now as [now|]; [|done]. clear Hnow.
  unfold apply_damage. simpl.
  destruct (_ || _ || _) eqn:Hg; [split; [done|]; apply horse_state_is_valid_true; by split_and!|].
  apply orb_false_iff in Hg as [[Hg Hrep]%orb_false_iff Htick].
  apply bool_decide_eq_false in Hg. destruct st; try (by destruct Hg).
  destruct Hs as [? ->].
  destruct ((0 <? h) && (_ =? 0)) eqn:Hfatal; btrue; simpl.
  all: destruct_and?; split; [unfold horse_typed; simpl; destruct Hid; destruct_and?; split_and!; try done; try int_lia|].
  all: apply horse_state_is_valid_true; unfold horse_state_facts; simpl.
  all: split_and!; try done; try m3_lia; try (apply andb_false_iff in Hfatal; int_lia).
  exists (receipt_tick (damage_id c)). split; [done|]. m3_lia.
Qed.

(** ** Regeneration *)

(** The last tick the results cover: beyond it the product of elapsed ticks and
    the regeneration rate would saturate (about 600 million years of play). *)
Definition tick_horizon : Z := 2 ^ 60.

(** What regeneration does, without the machine-width detours. *)
Lemma regenerate_eq k p tick last :
  horse_state k = Available -> 0 <= health k < max_health (class k) ->
  last_damage_tick k = Some last -> 0 <= regen_units k < 60 -> 0 <= last <= p ->
  p < tick <= tick_horizon ->
  regenerate k (Some p) tick =
    let start := Z.max (p + 1) (last + HORSE_REGEN_DELAY_TICKS) in
    if start <=? tick then
      let units := regen_units k + (tick - start + 1) * HORSE_REGEN_HEALTH_PER_SECOND in
      let full := max_health (class k) <=? health k + units / M3_TICK_RATE_HZ in
      k <| regen_units := if full then 0 else units mod M3_TICK_RATE_HZ |>
        <| health := if full then max_health (class k) else health k + units / M3_TICK_RATE_HZ |>
    else k.
Proof.
  intros Hst Hh Hlast Hru Hl Hp. unfold tick_horizon in Hp.
  pose proof (max_health_range (class k)) as Hmax.
  change (2 ^ 60) with 1152921504606846976 in Hp. cbv zeta.
  unfold regenerate. rewrite bool_decide_true by done. rewrite Hlast. simpl.
  replace (health k <? _) with true by lia. simpl.
  rewrite !tick_saturating_add_exact by m3_lia.
  destruct (_ <=? tick) eqn:Hstart; [|done].
  unfold saturating_mul, HORSE_REGEN_HEALTH_PER_SECOND.
  rewrite (Z.min_l (_ * 10)) by int_lia. rewrite !(saturating_add_exact 64) by int_lia.
  set (units := regen_units k + _).
  assert (Hu : 0 <= units) by (unfold units; lia).
  assert (Hdiv : 0 <= units / M3_TICK_RATE_HZ) by (apply Z.div_pos; [done | m3_lia]).
  assert (Hhealth : Z.min (saturating_add 16 (health k)
            (default u16_max (try_from_uint 16 (units / M3_TICK_RATE_HZ)))) (max_health (class k))
          = if max_health (class k) <=? health k + units / M3_TICK_RATE_HZ
            then max_health (class k) else health k + units / M3_TICK_RATE_HZ).
  { unfold try_from_uint. destruct (uint_ok 16 _) eqn:Hfit; simpl.
    - apply uint_ok_true in Hfit. split_ifs; int_lia.
    - assert (65536 <= units / M3_TICK_RATE_HZ)
        by (unfold uint_ok in Hfit; apply andb_false_iff in Hfit; int_lia).
      split_ifs; int_lia. }
  destruct k; simpl in *. rewrite Hhealth.
  destruct (max_health _ <=? _) eqn:Hfull; simpl; [by rewrite Z.eqb_refl|].
  by replace (_ =? max_health _) with false by lia.
Qed.

Lemma regenerate_id k p t :
  last_damage_tick k = None \/ horse_state k <> Available \/ max_health (class k) <= health k ->
  regenerate k p t = k.
Proof.
  unfold regenerate. intros [-> | [Hst | Hh]].
  - by destruct (_ && _).
  - by rewrite bool_decide_false.
  - replace (health k <? _) with false by lia. by rewrite andb_false_r.
Qed.

(** ** Ticks *)

Definition tick_after (now : option SimulationTick) (t : SimulationTick) : Prop :=
  from_option (fun n => 0 <= n < t) (0 <= t) now /\ t <= tick_horizon.

Lemma regenerate_state k p t :
  horse_state (regenerate k p t) = horse_state k /\
  bolt_started_tick (regenerate k p t) = bolt_started_tick k.
Proof.
  destruct k. unfold regenerate. simpl. destruct (_ && _); [|done]. destruct last_damage_tick0; simpl; [|done].
  destruct (_ <=? t); [|done]. by destruct (_ =? _).
Qed.

Lemma tick_after_accepted now t :
  tick_after now t -> is_some_and now (fun current => t <=? current) = false.
Proof. intros [Ht _]. destruct now; simpl in *; [lia|done]. Qed.

(** An accepted tick, by the state it finds. *)
Lemma horse_advance_tick_eq k t :
  horse_inv k -> tick_after (horse_current_tick k) t ->
  let k1 := k <| horse_current_tick := Some t |> in
  horse_advance_tick k t =
    match horse_state k with
    | Available => (regenerate k1 (horse_current_tick k) t, Ok None)
    | Bolting =>
        let started := default 0 (bolt_started_tick k) in
        if HORSE_BOLT_TICKS <=? t - started
        then (k1 <| horse_state := Despawned |>, Ok (Some (started + HORSE_BOLT_TICKS)))
        else (k1, Ok None)
    | Despawned => (k1, Ok None)
    end.
Proof.
  intros [Htyped Hv] Ht k1. apply horse_state_is_valid_true in Hv as (_ & _ & _ & _ & Hbs & _ & Hs).
  unfold horse_advance_tick. rewrite tick_after_accepted by done. fold k1.
  assert (Hst : horse_state k1 = horse_state k /\ bolt_started_tick k1 = bolt_started_tick k)
    by (by destruct k).
  destruct (regenerate_state k1 (horse_current_tick k) t) as [Hrs Hrb].
  destruct Hst as [Hst Hbolt]. rewrite Hrs, Hrb, Hst, Hbolt.
  unfold horse_state_facts in Hs.
  destruct (horse_state k) eqn:Hstate; simpl.
  - done.
  - rewrite regenerate_id by (right; left; congruence).
    destruct Hs as (_ & s & Hbk & Hn). rewrite Hbk in *. simpl in *.
    destruct Htyped as (_ & _ & Hs64 & _). rewrite Hbk in Hs64. simpl in Hs64.
    destruct Ht as [Hnow Hmax]. unfold tick_horizon in Hmax.
    change (2 ^ 60) with 1152921504606846976 in Hmax.
    destruct (horse_current_tick k) as [now|]; simpl in *; [|done].
    rewrite checked_duration_since_or.
    rewrite tick_saturating_add_exact by m3_lia.
    replace (HORSE_BOLT_TICKS <=? Z.max 0 (t - s)) with (HORSE_BOLT_TICKS <=? t - s) by m3_lia.
    by rewrite Hbk.
  - by rewrite regenerate_id by (right; left; congruence).
Qed.

(** Regeneration on an available horse's accepted tick, in one equation. *)
Lemma available_tick_eq k t p last :
  horse_inv k -> horse_state k = Available -> health k < max_health (class k) ->
  horse_current_tick k = Some p -> last_damage_tick k = Some last -> tick_after (Some p) t ->
  regenerate (k <| horse_current_tick := Some t |>) (Some p) t =
    let start := Z.max (p + 1) (last + HORSE_REGEN_DELAY_TICKS) in
    let k1 := k <| horse_current_tick := Some t |> in
    if start <=? t then
      let units := regen_units k + (t - start + 1) * HORSE_REGEN_HEALTH_PER_SECOND in
      let full := max_health (class k) <=? health k + units / M3_TICK_RATE_HZ in
      k1 <| regen_units := if full then 0 else units mod M3_TICK_RATE_HZ |>
         <| health := if full then max_health (class k) else health k + units / M3_TICK_RATE_HZ |>
    else k1.
Proof.
  intros [Htyped Hv] Hst Hh Hp Hlast [Ht Hmax].
  apply horse_state_is_valid_true in Hv as (_ & Hru & _ & Hld & _ & _ & Hs).
  unfold horse_typed, horse_state_facts in *. rewrite Hst, Hp, Hlast in *. simpl in *.
  rewrite regenerate_eq with (last := last); destruct k; simpl in *; destruct_and?;
    try done; try m3_lia.
Qed.

Lemma horse_advance_tick_inv k t :
  horse_inv k -> tick_after (horse_current_tick k) t -> horse_inv (horse_advance_tick k t).1.
Proof.
  intros Hinv Ht. rewrite horse_advance_tick_eq by done.
  pose proof Hinv as [Htyped Hv]. pose proof (max_health_range (class k)) as Hmaxh.
  apply horse_state_is_valid_true in Hv as (Hh & Hru & Hid & Hld & Hbs & Hfull & Hs).
  assert (Hldt : tick_is_not_after (last_damage_tick k) (Some t) = true /\
                 tick_is_not_after (bolt_started_tick k) (Some t) = true).
  { destruct Ht as [Ht _]. split; [destruct (last_damage_tick k)|destruct (bolt_started_tick k)];
      simpl; try done; destruct (horse_current_tick k); simpl in *; try done; lia. }
  assert (Ht64 : in_uint 64 t).
  { destruct Ht as [Ht Hz]. unfold tick_horizon in Hz.
    destruct (horse_current_tick k); simpl in Ht; int_lia. }
  destruct Hldt as [Hldt Hbst].
  assert (Hsame : horse_state k <> Bolting \/ t - default 0 (bolt_started_tick k) < HORSE_BOLT_TICKS ->
    horse_inv (k <| horse_current_tick := Some t |>)).
  { intros Hcase. destruct k as [cl h st bolt away lid now ldt ru].
    unfold horse_inv, horse_typed, horse_state_facts in *. simpl in *.
    split; [by destruct_and?; split_and!|]. apply horse_state_is_valid_true. unfold horse_state_facts. simpl.
    split_and!; try done. destruct st; [done|..].
    - destruct Hs as (? & s & -> & _). split; [done|]. exists s. simpl in *. split; [done|]. destruct Hcase; [done|]. lia.
    - destruct Hs as (? & s & n & -> & -> & ?). split; [done|]. exists s, t.
      destruct Ht as [Ht _]. simpl in Ht. split_and!; try done. lia. }
  destruct (horse_state k) eqn:Hst; cbn [fst].
  - destruct (decide (health k < max_health (class k))) as [Hlt|Hge];
      [|rewrite regenerate_id; [apply Hsame; by left | right; right; destruct k; simpl in *; lia]].
    assert (Hcase : last_damage_tick k = None \/ exists last p,
              last_damage_tick k = Some last /\ horse_current_tick k = Some p).
    { destruct (last_damage_tick k), (horse_current_tick k); naive_solver. }
    destruct Hcase as [Hnone|(last & p & Hlast & Hp)];
      [rewrite regenerate_id; [apply Hsame; by left | left; by destruct k]|].
    rewrite Hp in *.
    rewrite available_tick_eq with (last := last) by done. cbv zeta.
    destruct (_ <=? t) eqn:Hstart; [|apply Hsame; by left].
    set (units := regen_units k + _).
    assert (Hu : 0 <= units) by (unfold units, HORSE_REGEN_HEALTH_PER_SECOND; destruct Htyped as (_&?&_); lia).
    assert (0 <= units / M3_TICK_RATE_HZ) by (apply Z.div_pos; [done|m3_lia]).
    assert (0 <= units mod M3_TICK_RATE_HZ < M3_TICK_RATE_HZ) by (apply Z.mod_pos_bound; m3_lia).
    clearbody units. unfold horse_state_facts in Hs. rewrite Hst in Hs.
    destruct k as [cl h st bolt away lid now ldt ru]. unfold horse_inv, horse_typed in *. simpl in *.
    split; [destruct_and?; split_and!; try done; try (split_ifs; lia)|].
    apply horse_state_is_valid_true. unfold horse_state_facts. simpl.
    subst. split_and!; try done; try (split_ifs; m3_lia). by destruct Hs.
  - destruct (_ <=? _) eqn:Hend; [|apply Hsame; right; lia].
    unfold horse_state_facts in Hs. rewrite Hst in Hs. destruct Hs as (Hh0 & s & Hb & Hn).
    destruct k as [cl h st bolt away lid now ldt ru]. unfold horse_inv, horse_typed in *. simpl in *.
    subst. simpl in *. split; [destruct_and?; by split_and!|].
    apply horse_state_is_valid_true. unfold horse_state_facts. simpl.
    split_and!; try done. exists s, t. split_and!; try done. lia.
  - apply Hsame. by left.
Qed.

(** ** Schedule independence *)

Definition despawn_reports (r : result (option SimulationTick) M3Error) : list SimulationTick :=
  match r with Ok (Some t) => [t] | _ => [] end.

(** The kernel advanced through a list of ticks, with the despawns reported. *)
Fixpoint horse_ticks (k : HorseVitalityKernel) (ts : list SimulationTick)
    : HorseVitalityKernel * list SimulationTick :=
  match ts with
  | [] => (k, [])
  | t :: ts =>
      let '(k1, r) := horse_advance_tick k t in
      let '(k2, ds) := horse_ticks k1 ts in
      (k2, despawn_reports r ++ ds)
  end.

Lemma regen_split h m ru e1 e2 :
  0 <= h < m -> 0 <= ru < 60 -> 0 <= e1 -> 0 <= e2 ->
  let u1 := ru + e1 * 10 in
  let u := ru + (e1 + e2) * 10 in
  (m <= h + u1 / 60 -> m <= h + u / 60) /\
  (h + u1 / 60 < m ->
     u / 60 = u1 / 60 + (u1 mod 60 + e2 * 10) / 60 /\ u mod 60 = (u1 mod 60 + e2 * 10) mod 60).
Proof. cbv zeta. intros. div_lia. Qed.

Lemma available_ticks_compose k t1 t2 p last :
  horse_inv k -> horse_state k = Available -> health k < max_health (class k) ->
  horse_current_tick k = Some p -> last_damage_tick k = Some last ->
  tick_after (Some p) t1 -> t1 < t2 <= tick_horizon ->
  let k1 := regenerate (k <| horse_current_tick := Some t1 |>) (Some p) t1 in
  regenerate (k1 <| horse_current_tick := Some t2 |>) (Some t1) t2 =
  regenerate (k <| horse_current_tick := Some t2 |>) (Some p) t2.
Proof.
  intros Hinv Hst Hh Hp Hlast Ht1 Ht2 k1.
  assert (Hinv1 : horse_inv k1).
  { pose proof (horse_advance_tick_inv k t1 Hinv) as Hi. rewrite Hp in Hi. specialize (Hi Ht1).
    rewrite horse_advance_tick_eq, Hst, Hp in Hi by (done || by rewrite Hp). exact Hi. }
  assert (Ht12 : tick_after (Some t1) t2) by (destruct Ht1; split; simpl in *; lia).
  assert (Ht02 : tick_after (Some p) t2) by (destruct Ht1; split; simpl in *; lia).
  rewrite (available_tick_eq k t2 p last) by done. cbv zeta.
  assert (Hk1 := available_tick_eq k t1 p last Hinv Hst Hh Hp Hlast Ht1).
  fold k1 in Hk1. cbv zeta in Hk1.
  destruct Hinv as [Htyped Hv].
  apply horse_state_is_valid_true in Hv as (_ & Hru & _ & Hld & _ & _ & _).
  rewrite Hlast, Hp in Hld. simpl in Hld. destruct Htyped as (? & Hru0 & _).
  destruct Ht1 as [Ht1 _]. simpl in Ht1. m3_consts.
  destruct (Z.leb_spec (Z.max (p + 1) (last + HORSE_REGEN_DELAY_TICKS)) t1) as [Hs1|Hs1].
  - set (start := Z.max (p + 1) (last + HORSE_REGEN_DELAY_TICKS)) in *.
    pose proof (regen_split (health k) (max_health (class k)) (regen_units k)
      (t1 - start + 1) (t2 - t1) ltac:(lia) ltac:(lia) ltac:(lia) ltac:(lia)) as [Hfull Hpart].
    replace (t1 - start + 1 + (t2 - t1)) with (t2 - start + 1) in * by lia.
    unfold HORSE_REGEN_HEALTH_PER_SECOND in *.
    replace M3_TICK_RATE_HZ with 60 in * by done.
    replace (start <=? t2) with true by lia.
    destruct (Z.leb_spec (max_health (class k)) (health k + (regen_units k + (t1 - start + 1) * 10) / 60))
      as [Hf1|Hf1].
    + rewrite regenerate_id by (right; right; rewrite Hk1; destruct k; simpl; lia).
      rewrite Hk1. replace (max_health (class k) <=? _) with true; [by destruct k|].
      specialize (Hfull Hf1). lia.
    + destruct (Hpart Hf1) as [Hdiv Hmod].
      rewrite (available_tick_eq k1 t2 t1 last); try done.
      2-5: rewrite Hk1; destruct k; simpl in *; try done; lia.
      cbv zeta. replace (Z.max (t1 + 1) _) with (t1 + 1) by lia.
      replace (t1 + 1 <=? t2) with true by lia.
      replace (t2 - (t1 + 1) + 1) with (t2 - t1) by lia.
      rewrite Hk1. unfold HORSE_REGEN_HEALTH_PER_SECOND.
      replace M3_TICK_RATE_HZ with 60 by done.
      rewrite Hdiv, Hmod. destruct k; simpl in *. rewrite Z.add_assoc. by destruct (_ <=? _).
  - rewrite (available_tick_eq k1 t2 t1 last); try done.
    2-5: rewrite Hk1; destruct k; simpl in *; try done; lia.
    cbv zeta. rewrite Hk1.
    replace (Z.max (t1 + 1) (last + HORSE_REGEN_DELAY_TICKS))
      with (Z.max (p + 1) (last + HORSE_REGEN_DELAY_TICKS)) by lia.
    destruct k; simpl in *. by destruct (_ <=? _).
Qed.

Lemma horse_ticks_compose k t1 t2 :
  horse_inv k -> tick_after (horse_current_tick k) t1 -> t1 < t2 <= tick_horizon ->
  (horse_advance_tick (horse_advance_tick k t1).1 t2).1 = (horse_advance_tick k t2).1 /\
  despawn_reports (horse_advance_tick k t1).2
    ++ despawn_reports (horse_advance_tick (horse_advance_tick k t1).1 t2).2
  = despawn_reports (horse_advance_tick k t2).2.
Proof.
  intros Hinv Ht1 Ht2.
  assert (Ht02 : tick_after (horse_current_tick k) t2)
    by (destruct Ht1; split; [destruct (horse_current_tick k); simpl in *; lia | lia]).
  pose proof (horse_advance_tick_inv k t1 Hinv Ht1) as Hinv1.
  assert (Hcur : horse_current_tick (horse_advance_tick k t1).1 = Some t1).
  { rewrite horse_advance_tick_eq by done. destruct (horse_state k); simpl; try done.
    - unfold regenerate. simpl. destruct (_ && _); [|done]. destruct (last_damage_tick k); simpl; [|done].
      destruct (_ <=? t1); [|done]. simpl. by destruct (_ =? _).
    - by destruct (_ <=? _). }
  assert (Ht12 : tick_after (Some t1) t2).
  { destruct Ht1 as [Hn ?]. split; [simpl|lia]. destruct (horse_current_tick k); simpl in *; lia. }
  rewrite (horse_advance_tick_eq (horse_advance_tick k t1).1) by (done || by rewrite Hcur).
  rewrite (horse_advance_tick_eq k t2) by done. rewrite Hcur.
  rewrite (horse_advance_tick_eq k t1) by done.
  destruct (horse_state k) eqn:Hst; cbn [fst snd].
  - set (k1 := regenerate _ _ t1).
    assert (Hst1 : horse_state k1 = Available).
    { destruct (regenerate_state (k <| horse_current_tick := Some t1 |>) (horse_current_tick k) t1)
        as [Hrs _]. etrans; [exact Hrs|by destruct k]. }
    rewrite Hst1. cbn [fst snd]. split; [|done].
    destruct (decide (health k < max_health (class k))) as [Hlt|Hge].
    2:{ assert (Hk1 : k1 = k <| horse_current_tick := Some t1 |>)
          by (apply regenerate_id; right; right; destruct k; simpl in *; lia).
        rewrite Hk1, !regenerate_id; [done|..]; right; right; destruct k; simpl in *; lia. }
    assert (Hcase : last_damage_tick k = None \/ exists last p,
              last_damage_tick k = Some last /\ horse_current_tick k = Some p).
    { destruct Hinv as [_ Hv]. apply horse_state_is_valid_true in Hv as (_ & _ & _ & Hld & _).
      destruct (last_damage_tick k), (horse_current_tick k); naive_solver. }
    destruct Hcase as [Hnone|(last & p & Hlast & Hp)].
    + assert (Hk1 : k1 = k <| horse_current_tick := Some t1 |>)
        by (apply regenerate_id; left; by destruct k).
      rewrite Hk1, !regenerate_id; [done|..]; left; by destruct k.
    + unfold k1. rewrite Hp in *. by apply (available_ticks_compose k t1 t2 p last).
  - destruct (HORSE_BOLT_TICKS <=? t1 - default 0 (bolt_started_tick k)) eqn:H1; simpl.
    + replace (HORSE_BOLT_TICKS <=? t2 - _) with true by lia. done.
    + rewrite Hst. by destruct (HORSE_BOLT_TICKS <=? t2 - _).
  - simpl. by rewrite Hst.
Qed.

Fixpoint ticks_after (now : option SimulationTick) (ts : list SimulationTick) : Prop :=
  match ts with
  | [] => True
  | t :: ts => tick_after now t /\ ticks_after (Some t) ts
  end.

Lemma horse_current_tick_advance k t :
  horse_inv k -> tick_after (horse_current_tick k) t ->
  horse_current_tick (horse_advance_tick k t).1 = Some t.
Proof.
  intros Hinv Ht. rewrite horse_advance_tick_eq by done. destruct (horse_state k); simpl; try done.
  - unfold regenerate. simpl. destruct (_ && _); [|done]. destruct (last_damage_tick k); simpl; [|done].
    destruct (_ <=? t); [|done]. simpl. by destruct (_ =? _).
  - by destruct (_ <=? _).
Qed.

Lemma ticks_after_last now ts t :
  ticks_after now (ts ++ [t]) -> tick_after now t.
Proof.
  revert now. induction ts as [|t0 ts IH]; intros now [H1 H2]; [done|].
  specialize (IH _ H2). destruct H1 as [H1 _], IH as [IH ?]. simpl in IH.
  split; [|done]. destruct now; simpl in *; lia.
Qed.

Lemma horse_ticks_last ts k t :
  horse_inv k -> ticks_after (horse_current_tick k) (ts ++ [t]) ->
  horse_ticks k (ts ++ [t]) = ((horse_advance_tick k t).1, despawn_reports (horse_advance_tick k t).2).
Proof.
  revert k. induction ts as [|t1 ts IH]; intros k Hinv Hts.
  - simpl. destruct (horse_advance_tick k t). simpl. by rewrite app_nil_r.
  - destruct Hts as [Ht1 Hts]. simpl.
    pose proof (horse_advance_tick_inv k t1 Hinv Ht1) as Hinv1.
    pose proof (horse_current_tick_advance k t1 Hinv Ht1) as Hcur.
    pose proof (ticks_after_last _ _ _ Hts) as Ht. destruct Ht as [Ht Hmax]. simpl in Ht.
    destruct (horse_ticks_compose k t1 t Hinv Ht1 ltac:(lia)) as [Hk Hr].
    destruct (horse_advance_tick k t1) as [k1 r1]. simpl in *.
    rewrite IH by (done || by rewrite Hcur). by rewrite Hk, Hr.
Qed.

(** Regeneration, the bolt and the despawn do not depend on how the
    authority's clock is sliced: advancing through any increasing ticks leaves
    the kernel, and reports the despawns, of the single advance to the last
    tick. *)
Theorem horse_schedule_independent ts k t :
  horse_inv k -> ticks_after (horse_current_tick k) (ts ++ [t]) ->
  horse_ticks k (ts ++ [t]) = ((horse_advance_tick k t).1, despawn_reports (horse_advance_tick k t).2)
  /\ horse_inv (horse_ticks k (ts ++ [t])).1.
Proof.
  intros Hinv Hts. rewrite horse_ticks_last by done. split; [done|].
  apply horse_advance_tick_inv; [done|]. by eapply ticks_after_last.
Qed.

(** ** Damage, regeneration and the bolt *)

(** The command that an available horse accepts on its current tick. *)
Lemma apply_damage_accepted k c k' app d :
  horse_inv k -> command_ok c -> horse_current_tick k = Some d ->
  apply_damage k c = (k', Some app) ->
  horse_state k = Available /\ receipt_tick (damage_id c) = d /\ last_damage_tick k' = Some d /\
  class k' = class k /\ horse_current_tick k' = Some d /\ regen_units k' = 0 /\
  last_damage_id k' = Some (damage_id c) /\
  health_before app = health k /\ health_after app = health k' /\
  health k' = Z.max 0 (health k - amount c) /\
  spooked app = (health k <=? amount c) /\
  horse_state k' = (if spooked app then Bolting else Available) /\
  bolt_started_tick k' = (if spooked app then Some d else None) /\
  app_bolt_away_delta_mm app = bolt_away_delta_mm k' /\
  rider_throw_distance_mm app = (if spooked app then SPOOK_THROW_DISTANCE_MM else 0) /\
  rider_stun_ticks app = (if spooked app then SPOOK_STUN_TICKS else 0) /\
  rider_fall_damage app = false.
Proof.
  intros [Ht Hv] [_ Ha] Hd. apply horse_state_is_valid_true in Hv as (_ & _ & _ & _ & _ & _ & Hs).
  unfold apply_damage. destruct (_ || _ || _) eqn:Hg; [done|].
  apply orb_false_iff in Hg as [[Hst _]%orb_false_iff Htick].
  apply bool_decide_eq_false in Hst. rewrite Hd in Htick. simpl in Htick.
  destruct k as [cl h st bolt away lid now ldt ru]. unfold horse_state_facts in Hs. simpl in *.
  destruct st; try (by destruct Hst). destruct Hs as [Hh ->].
  intros [= <- <-]. simpl.
  replace ((0 <? h) && (saturating_sub h (amount c) =? 0)) with (h <=? amount c) by int_lia.
  destruct (h <=? amount c) eqn:Hf; simpl; split_and!; try done; try int_lia; repeat f_equal; lia.
Qed.

(** After a survivable hit at tick [d] the horse regenerates nothing for
    [HORSE_REGEN_DELAY_TICKS], then [HORSE_REGEN_HEALTH_PER_SECOND] per second
    up to its row's maximum, whatever ticks the authority visits. *)
Theorem horse_regeneration_closed_form k c k' app d ts t :
  horse_inv k -> command_ok c -> horse_current_tick k = Some d ->
  apply_damage k c = (k', Some app) -> spooked app = false ->
  ticks_after (Some d) (ts ++ [t]) ->
  health (horse_ticks k' (ts ++ [t])).1 =
    Z.min (max_health (class k))
      (health_after app
       + Z.max 0 (t - (d + HORSE_REGEN_DELAY_TICKS) + 1) * HORSE_REGEN_HEALTH_PER_SECOND / M3_TICK_RATE_HZ)
  /\ horse_state (horse_ticks k' (ts ++ [t])).1 = Available.
Proof.
  intros Hinv Hc Hd Happ Hsp Hts.
  assert (Hinv' : horse_inv k').
  { replace k' with (apply_damage k c).1 by (by rewrite Happ). apply apply_damage_inv; congruence. }
  destruct (apply_damage_accepted k c k' app d Hinv Hc Hd Happ)
    as (_ & _ & Hld & Hcl & Hcur & Hru & _ & _ & Hha & _ & _ & Hst & _).
  rewrite Hsp in Hst. pose proof (ticks_after_last _ _ _ Hts) as Ht.
  rewrite horse_ticks_last by (done || by rewrite Hcur). cbn [fst].
  rewrite horse_advance_tick_eq by (done || by rewrite Hcur). rewrite Hst. cbn [fst].
  split.
  2:{ destruct (regenerate_state (k' <| horse_current_tick := Some t |>) (horse_current_tick k') t)
        as [-> _]. by destruct k'. }
  pose proof Hinv' as [Htyped' Hv''].
  apply horse_state_is_valid_true in Hv'' as (Hh & _ & _ & _ & _ & _ & Hs).
  destruct Htyped' as (Hh0 & _). pose proof (max_health_range (class k)).
  rewrite Hha, <- Hcl. rewrite <- Hcl in *. m3_consts. unfold HORSE_REGEN_HEALTH_PER_SECOND.
  destruct (Z.lt_ge_cases (health k') (max_health (class k'))) as [Hlt|Hge].
  - rewrite Hcur, (available_tick_eq k' t d d) by done. cbv zeta.
    destruct Ht as [Ht _]. simpl in Ht. unfold HORSE_REGEN_HEALTH_PER_SECOND.
    replace M3_TICK_RATE_HZ with 60 by done. rewrite Hru.
    destruct (_ <=? t) eqn:Hstart; [|destruct k'; simpl in *; div_lia].
    replace (Z.max (d + 1) (d + HORSE_REGEN_DELAY_TICKS)) with (d + HORSE_REGEN_DELAY_TICKS) by lia.
    replace (Z.max 0 (t - (d + HORSE_REGEN_DELAY_TICKS) + 1)) with (t - (d + HORSE_REGEN_DELAY_TICKS) + 1) by lia.
    destruct k'; simpl in *. rewrite Z.add_0_l. split_ifs; lia.
  - rewrite regenerate_id by (right; right; destruct k'; simpl in *; lia).
    assert (0 <= Z.max 0 (t - (d + HORSE_REGEN_DELAY_TICKS) + 1) * 10 / M3_TICK_RATE_HZ)
      by (apply Z.div_pos; lia).
    destruct k'; simpl in *. lia.
Qed.

(** The fatal hit is an edge: the hit that empties the horse starts one bolt
    on its own tick, from then on damage is refused without effect, the horse is
    bolting for exactly [HORSE_BOLT_TICKS] and its despawn is reported exactly
    once, at the end of the bolt, whatever ticks the authority visits. *)
Theorem horse_bolt_once k c k' app d ts t c2 :
  horse_inv k -> command_ok c -> horse_current_tick k = Some d ->
  apply_damage k c = (k', Some app) -> health k <= amount c ->
  ticks_after (Some d) (ts ++ [t]) ->
  spooked app = true /\ health k' = 0 /\ bolt_started_tick k' = Some d /\
  let '(k2, reports) := horse_ticks k' (ts ++ [t]) in
  apply_damage k2 c2 = (k2, None) /\
  if t <? d + HORSE_BOLT_TICKS
  then horse_state k2 = Bolting /\ reports = []
  else horse_state k2 = Despawned /\ reports = [d + HORSE_BOLT_TICKS].
Proof.
  intros Hinv Hc Hd Happ Hfatal Hts.
  assert (Hinv' : horse_inv k').
  { replace k' with (apply_damage k c).1 by (by rewrite Happ). apply apply_damage_inv; congruence. }
  destruct (apply_damage_accepted k c k' app d Hinv Hc Hd Happ)
    as (_ & _ & _ & _ & Hcur & _ & _ & _ & _ & Hh & Hsp & Hst & Hbolt & _).
  assert (Hspt : spooked app = true) by (rewrite Hsp; lia).
  rewrite Hspt in Hst, Hbolt. split_and!; [done|lia|done|].
  rewrite horse_ticks_last by (done || by rewrite Hcur).
  pose proof (ticks_after_last _ _ _ Hts) as Ht.
  rewrite horse_advance_tick_eq by (done || by rewrite Hcur). rewrite Hst, Hbolt. simpl.
  destruct (HORSE_BOLT_TICKS <=? t - d) eqn:Hend; simpl.
  - replace (t <? d + HORSE_BOLT_TICKS) with false by lia. done.
  - replace (t <? d + HORSE_BOLT_TICKS) with true by lia.
    unfold apply_damage. simpl. rewrite Hst. done.
Qed.

(** ** Witnesses *)

Definition ready_courser : HorseVitalityKernel := (horse_advance_tick (horse_new Courser) 100).1.
Definition hit (sequence amount : Z) : HorseDamageCommand :=
  mkHorseDamageCommand (mkReceiptId 1 100 sequence) amount
    (mkQuantizedOrigin 0 0 0) (mkQuantizedOrigin (-5000) 0 2000).

Lemma ready_courser_inv : horse_inv ready_courser.
Proof. apply horse_advance_tick_inv; [apply horse_new_inv|by vm_compute]. Qed.

Lemma horse_schedule_independent_witness :
  let k := (apply_damage ready_courser (hit 1 50)).1 in
  (horse_ticks k [300; 465; 470; 500]).1 = (horse_advance_tick k 500).1.
Proof.
  intros k. assert (Hinv : horse_inv k)
    by (apply apply_damage_inv; [apply ready_courser_inv|by vm_compute|by vm_compute]).
  destruct (horse_schedule_independent [300; 465; 470] k 500 Hinv) as [H _]; [by vm_compute|].
  change [300; 465; 470; 500] with ([300; 465; 470] ++ [500]). by rewrite H.
Defined.

Lemma horse_regeneration_closed_form_witness :
  health (horse_ticks (apply_damage ready_courser (hit 1 50)).1 [465; 519]).1 = 160.
Proof.
  destruct (horse_regeneration_closed_form ready_courser (hit 1 50)
    (apply_damage ready_courser (hit 1 50)).1
    (mkHorseDamageApplication 200 150 false (0, 1) 0 0 false) 100 [465] 519
    ready_courser_inv ltac:(by vm_compute) ltac:(by vm_compute) ltac:(by vm_compute) eq_refl
    ltac:(by vm_compute)) as [H _].
  etrans; [exact H|]. by vm_compute.
Defined.

Lemma horse_bolt_once_witness :
  (horse_ticks (apply_damage ready_courser (hit 1 200)).1 [200; 279; 281; 400]).2 = [280].
Proof.
  destruct (horse_bolt_once ready_courser (hit 1 200)
    (apply_damage ready_courser (hit 1 200)).1
    (mkHorseDamageApplication 200 0 true (5000, -2000) 3000 36 false) 100 [200; 279; 281] 400
    (hit 2 10) ready_courser_inv ltac:(by vm_compute) ltac:(by vm_compute) ltac:(by vm_compute)
    ltac:(by vm_compute) ltac:(by vm_compute)) as (_ & _ & _ & H).
  change [200; 279; 281; 400] with ([200; 279; 281] ++ [400]).
  destruct (horse_ticks _ ([200; 279; 281] ++ [400])) as [k2 reports]. by destruct H as (_ & _ & ->).
Defined.
