(* ===== verification/Recall.v ===== *)
(** * Horse recall and the Majestic Return ([m3.rs], [RecallKernel])

    The cooldown with its earned reductions, the timed return phases and the
    running and stationary remounts. *)

From S2P Require Import Prelude MachineInt Ordered Clock Combat M3 HorseVitality.
Open Scope Z_scope.

Abbreviation RecallCreditId := ReceiptId (only parsing).

Inductive RecallCreditKind := DamageDealt (damage : Z) | ObjectiveTick.

Record RecallCreditCommand := mkRecallCreditCommand {
  recall_credit_id : RecallCreditId;
  recall_credit_kind : RecallCreditKind;
}.

Inductive RecallState :=
| HorsePresent | CoolingDown | Ready | Hoofbeats | DustReveal | GallopIn | MountWindow | WaitingMount.
#[export] Instance RecallState_eq_dec : EqDecision RecallState.
Proof. solve_decision. Defined.

Record RecallTickOutput := mkRecallTickOutput {
  recall_out_state : RecallState;
  recall_out_ready_tick : option SimulationTick;
  cooldown_remaining_ticks : Z;
  mount_window_opened : bool;
}.

Record RemountTelemetryRow := mkRemountTelemetryRow {
  horse_lost_tick : SimulationTick;
  remount_tick : option SimulationTick;
  lose_horse_to_remount_ticks : option Z;
  running_mount : bool;
}.
#[export] Instance RemountTelemetryRow_eq_dec : EqDecision RemountTelemetryRow.
Proof. solve_decision. Defined.

Record RecallKernel := mkRecallKernel {
  recall_state : RecallState;
  recall_current_tick : option SimulationTick;
  recall_horse_loss_tick : option SimulationTick;
  lost_tick : option SimulationTick;
  phase_enter_tick : option SimulationTick;
  earned_reduction_ticks : Z;
  damage_remainder : Z;
  recall_last_credit_id : option RecallCreditId;
  telemetry : option RemountTelemetryRow;
}.

#[export] Instance eta_RecallKernel : Settable RecallKernel := fun k =>
  mkRecallKernel (recall_state k) (recall_current_tick k) (recall_horse_loss_tick k) (lost_tick k)
    (phase_enter_tick k) (earned_reduction_ticks k) (damage_remainder k) (recall_last_credit_id k)
    (telemetry k).
#[export] Instance RecallKernel_eq_dec : EqDecision RecallKernel.
Proof. solve_decision. Defined.

Definition recall_default : RecallKernel :=
  mkRecallKernel HorsePresent None None None None 0 0 None None.

Definition lose_horse (self : RecallKernel) (despawn_tick horse_loss_tick : SimulationTick)
    : RecallKernel * result unit M3Error :=
  if bool_decide (recall_state self <> HorsePresent) || (despawn_tick <? horse_loss_tick)
  then (self, Err InvalidState)
  else (self <| recall_state := CoolingDown |>
             <| recall_current_tick := Some despawn_tick |>
             <| recall_horse_loss_tick := Some horse_loss_tick |>
             <| lost_tick := Some despawn_tick |>
             <| phase_enter_tick := Some despawn_tick |>
             <| earned_reduction_ticks := 0 |>
             <| damage_remainder := 0 |>
             <| recall_last_credit_id := None |>
             <| telemetry := Some (mkRemountTelemetryRow horse_loss_tick None None false) |>,
        Ok tt).

Definition recall_apply_credit (self : RecallKernel) (command : RecallCreditCommand)
    : RecallKernel * bool :=
  let id := recall_credit_id command in
  if negb (bool_decide (recall_state self = CoolingDown \/ recall_state self = Ready))
  then (self, false)
  else if is_replay (recall_last_credit_id self) id
       || is_none_or (lost_tick self) (fun lost => receipt_tick id <? lost)
       || is_none_or (recall_current_tick self) (fun current => current <? receipt_tick id)
  then (self, false)
  else
    let self := self <| recall_last_credit_id := Some id |> in
    match recall_credit_kind command with
    | DamageDealt damage =>
        let total := saturating_add 32 (damage_remainder self) damage in
        let whole := total / 25 in
        (self <| damage_remainder := total mod 25 |>
              <| earned_reduction_ticks :=
                   Z.min (saturating_add 64 (earned_reduction_ticks self)
                            (wrapping_mul 64 whole M3_TICK_RATE_HZ))
                         (BASE_RECALL_TICKS - MIN_RECALL_TICKS) |>, true)
    | ObjectiveTick =>
        (self <| earned_reduction_ticks :=
                   Z.min (saturating_add 64 (earned_reduction_ticks self) (2 * M3_TICK_RATE_HZ))
                         (BASE_RECALL_TICKS - MIN_RECALL_TICKS) |>, true)
    end.

Definition ready_tick (self : RecallKernel) : option SimulationTick :=
  (fun lost => tick_saturating_add lost
     (Z.max (saturating_sub BASE_RECALL_TICKS (earned_reduction_ticks self)) MIN_RECALL_TICKS))
  <$> lost_tick self.

(** The timed phases of the return: how long each lasts and what follows. *)
Definition phase_transition (state : RecallState) : option (Z * RecallState) :=
  match state with
  | Hoofbeats => Some (HOOFBEAT_TICKS, DustReveal)
  | DustReveal => Some (DUST_REVEAL_TICKS, GallopIn)
  | GallopIn => Some (saturating_sub GALLOP_IN_TICKS RUNNING_MOUNT_WINDOW_TICKS, MountWindow)
  | MountWindow => Some (RUNNING_MOUNT_WINDOW_TICKS, WaitingMount)
  | HorsePresent | CoolingDown | Ready | WaitingMount => None
  end.

(** The [while let] loop of [advance_tick]. *)
Fixpoint return_phases (fuel : nat) (self : RecallKernel) (tick : SimulationTick) (opened : bool)
    : RecallKernel * bool :=
  match fuel with
  | O => (self, opened)
  | S fuel =>
      match phase_enter_tick self with
      | None => (self, opened)
      | Some entered =>
          match phase_transition (recall_state self) with
          | None => (self, opened)
          | Some (duration, next) =>
              let boundary := tick_saturating_add entered duration in
              if tick <? boundary then (self, opened)
              else return_phases fuel
                     (self <| recall_state := next |> <| phase_enter_tick := Some boundary |>)
                     tick (opened || bool_decide (next = MountWindow))
          end
      end
  end.

(** Four transitions are all there are; [return_phases_fuel] below shows that
    this is enough for the loop to reach its exit. *)
Definition PHASE_FUEL : nat := 5.

Definition recall_advance_tick (self : RecallKernel) (tick : SimulationTick)
    : RecallKernel * result RecallTickOutput M3Error :=
  if is_some_and (recall_current_tick self) (fun current => tick <=? current)
  then (self, Err TickReplay)
  else
    let self := self <| recall_current_tick := Some tick |> in
    let self :=
      match recall_state self with
      | CoolingDown =>
          if is_some_and (ready_tick self) (fun ready => ready <=? tick)
          then self <| recall_state := Ready |> <| phase_enter_tick := ready_tick self |>
          else self
      | _ => self
      end in
    let '(self, mount_window_opened) := return_phases PHASE_FUEL self tick false in
    let ready := ready_tick self in
    let cooldown_remaining_ticks :=
      if bool_decide (recall_state self = CoolingDown)
      then default 0 (ready ≫= (fun ready => checked_duration_since ready tick))
      else 0 in
    (self, Ok (mkRecallTickOutput (recall_state self) ready cooldown_remaining_ticks
                 mount_window_opened)).

Definition request_recall (self : RecallKernel) (tick : SimulationTick) : RecallKernel * bool :=
  if bool_decide (recall_state self <> Ready) || bool_decide (recall_current_tick self <> Some tick)
  then (self, false)
  else (self <| recall_state := Hoofbeats |> <| phase_enter_tick := Some tick |>, true).

Definition request_recall_instant (self : RecallKernel) (tick : SimulationTick)
    : RecallKernel * bool :=
  if negb (bool_decide (recall_state self = CoolingDown \/ recall_state self = Ready))
     || bool_decide (recall_current_tick self <> Some tick)
  then (self, false)
  else (self <| recall_state := Hoofbeats |> <| phase_enter_tick := Some tick |>, true).

Definition try_mount (self : RecallKernel) (tick : SimulationTick)
    (rider_position horse_position : QuantizedOrigin) (horse_moving : bool) : RecallKernel * bool :=
  if bool_decide (recall_current_tick self <> Some tick) then (self, false)
  else
    match
      match recall_state self with
      | MountWindow => if horse_moving then Some (RUNNING_MOUNT_RANGE_MM, true) else None
      | WaitingMount => if horse_moving then None else Some (STATIONARY_REMOUNT_RANGE_MM, false)
      | _ => None
      end
    with
    | None => (self, false)
    | Some (range_mm, running) =>
        if range_mm ^ 2 <? squared_distance_mm rider_position horse_position then (self, false)
        else
          match telemetry self with
          | None => (self, false)
          | Some row =>
              let row := mkRemountTelemetryRow (horse_lost_tick row) (Some tick)
                           (checked_duration_since tick (horse_lost_tick row)) running in
              (self <| telemetry := Some row |>
                    <| recall_state := HorsePresent |>
                    <| phase_enter_tick := Some tick |>, true)
          end
    end.

Definition recall_state_is_valid (self : RecallKernel) : bool :=
  if (BASE_RECALL_TICKS - MIN_RECALL_TICKS <? earned_reduction_ticks self)
     || (25 <=? damage_remainder self)
     || is_some_and (recall_last_credit_id self) (fun id =>
          is_none_or (lost_tick self) (fun lost => receipt_tick id <? lost)
          || is_none_or (recall_current_tick self) (fun current => current <? receipt_tick id))
  then false
  else
    match recall_state self with
    | HorsePresent =>
        match telemetry self with
        | None =>
            is_none (recall_horse_loss_tick self) && is_none (lost_tick self)
            && is_none (phase_enter_tick self) && (earned_reduction_ticks self =? 0)
            && (damage_remainder self =? 0) && is_none (recall_last_credit_id self)
        | Some row =>
            bool_decide (Some (horse_lost_tick row) = recall_horse_loss_tick self)
            && is_some (lost_tick self)
            && bool_decide (phase_enter_tick self = remount_tick row)
            && tick_is_not_after (lost_tick self) (remount_tick row)
            && bool_decide (lose_horse_to_remount_ticks row
                 = remount_tick row ≫= (fun tick => checked_duration_since tick (horse_lost_tick row)))
        end
    | _ =>
        is_some (recall_horse_loss_tick self) && is_some (lost_tick self)
        && is_some (phase_enter_tick self)
        && tick_is_not_after (recall_horse_loss_tick self) (lost_tick self)
        && tick_is_not_after (lost_tick self) (phase_enter_tick self)
        && tick_is_not_after (phase_enter_tick self) (recall_current_tick self)
        && is_some_and (telemetry self) (fun row =>
             bool_decide (Some (horse_lost_tick row) = recall_horse_loss_tick self)
             && is_none (remount_tick row) && is_none (lose_horse_to_remount_ticks row))
    end.

(** Field ranges. *)
Definition recall_typed (k : RecallKernel) : Prop :=
  opt_u64 (recall_current_tick k) /\ opt_u64 (recall_horse_loss_tick k) /\ opt_u64 (lost_tick k) /\
  opt_u64 (phase_enter_tick k) /\ 0 <= earned_reduction_ticks k /\ 0 <= damage_remainder k /\
  from_option receipt_ok True (recall_last_credit_id k).

Definition recall_inv (k : RecallKernel) : Prop := recall_typed k /\ recall_state_is_valid k = true.

Definition recall_command_ok (c : RecallCreditCommand) : Prop :=
  receipt_ok (recall_credit_id c) /\
  match recall_credit_kind c with DamageDealt d => in_uint 16 d | ObjectiveTick => True end.

(** ** Invariant *)

(** Validity of a recall in progress, as the order of its ticks. *)
Definition recall_in_progress (k : RecallKernel) : Prop :=
  exists loss lost enter now running,
    recall_horse_loss_tick k = Some loss /\ lost_tick k = Some lost /\
    phase_enter_tick k = Some enter /\ recall_current_tick k = Some now /\
    loss <= lost <= enter /\ enter <= now /\
    telemetry k = Some (mkRemountTelemetryRow loss None None running).

Definition credit_cursor_ok (k : RecallKernel) : Prop :=
  forall id, recall_last_credit_id k = Some id -> exists lost now,
    lost_tick k = Some lost /\ recall_current_tick k = Some now /\ lost <= receipt_tick id <= now.

Lemma recall_state_is_valid_true k :
  recall_state k <> HorsePresent ->
  (recall_state_is_valid k = true <->
   earned_reduction_ticks k <= BASE_RECALL_TICKS - MIN_RECALL_TICKS /\ damage_remainder k < 25 /\
   credit_cursor_ok k /\ recall_in_progress k).
Proof.
  intros Hst. unfold recall_state_is_valid, recall_in_progress, credit_cursor_ok.
  destruct k as [st now loss lost enter earned rem last row]. simpl in *.
  split.
  - destruct (_ || _ || _) eqn:Hg; [done|].
    apply orb_false_iff in Hg as [[He Hr]%orb_false_iff Hl]. intros Hm.
    assert (Hm' : is_some loss && is_some lost && is_some enter && tick_is_not_after loss lost
       && tick_is_not_after lost enter && tick_is_not_after enter now
       && is_some_and row (fun row => bool_decide (Some (horse_lost_tick row) = loss)
            && is_none (remount_tick row) && is_none (lose_horse_to_remount_ticks row)) = true)
      by (by destruct st). clear Hm.
    destruct loss as [loss|], lost as [lost|], enter as [enter|], now as [now|], row as [[? [] [] ?]|];
      simpl in *; rewrite ?andb_false_r in Hm'; try done.
    rewrite !andb_true_r, !andb_true_iff, bool_decide_eq_true in Hm'. destruct Hm' as [[[? ?] ?] [= ->]].
    split_and!; [lia|lia| |].
    + intros id ->. simpl in Hl. exists lost, now. split_and!; try done; lia.
    + exists loss, lost, enter, now, running_mount0. split_and!; done || lia.
  - intros (He & Hr & Hl & l & lo & e & n & run & -> & -> & -> & -> & ? & ? & ->).
    destruct (_ || _ || _) eqn:Hg.
    { rewrite !orb_true_iff, is_some_and_true in Hg. destruct Hg as [[?|?]|(id & -> & Hid)]; [lia|lia|].
      destruct (Hl id eq_refl) as (? & ? & [= <-] & [= <-] & ?). simpl in Hid. lia. }
    assert ((l <=? lo) = true /\ (lo <=? e) = true /\ (e <=? n) = true) as (H1 & H2 & H3) by lia.
    destruct st; try done; simpl; rewrite H1, H2, H3, bool_decide_true; done.
Qed.

Lemma lose_horse_inv k despawn loss :
  recall_state k = HorsePresent -> in_uint 64 despawn -> 0 <= loss <= despawn ->
  (lose_horse k despawn loss).2 = Ok tt /\ recall_inv (lose_horse k despawn loss).1.
Proof.
  intros Hst Hd Hl. unfold lose_horse. rewrite bool_decide_false by (intros H; by apply H).
  replace (despawn <? loss) with false by lia. simpl. split; [done|]. split.
  - unfold recall_typed. simpl. split_and!; done || int_lia.
  - apply recall_state_is_valid_true; [done|].
    split; [by vm_compute|]. split; [done|]. split; [by intros ? [=]|].
    exists loss, despawn, despawn, despawn, false. split_and!; done || lia.
Qed.

(** ** Earned reductions *)

Definition credit_cap : Z := BASE_RECALL_TICKS - MIN_RECALL_TICKS.

Definition damage_of (c : RecallCreditCommand) : Z :=
  match recall_credit_kind c with DamageDealt d => d | ObjectiveTick => 0 end.
Definition objective_of (c : RecallCreditCommand) : Z :=
  match recall_credit_kind c with DamageDealt _ => 0 | ObjectiveTick => 1 end.

(** What an accepted credit does, and that a refused one changes nothing. *)
Lemma recall_apply_credit_cases k c :
  recall_inv k -> recall_command_ok c ->
  (recall_apply_credit k c = (k, false)) \/
  (exists k', recall_apply_credit k c = (k', true) /\
   (recall_state k = CoolingDown \/ recall_state k = Ready) /\
   is_replay (recall_last_credit_id k) (recall_credit_id c) = false /\
   (exists lost now, lost_tick k = Some lost /\ recall_current_tick k = Some now /\
      lost <= receipt_tick (recall_credit_id c) <= now) /\
   k' = k <| recall_last_credit_id := Some (recall_credit_id c) |>
          <| damage_remainder := (damage_remainder k + damage_of c) mod 25 |>
          <| earned_reduction_ticks :=
               Z.min credit_cap (earned_reduction_ticks k
                 + 60 * ((damage_remainder k + damage_of c) / 25) + 120 * objective_of c) |>).
Proof.
  intros [Ht Hv] [Hid Hkind]. unfold recall_apply_credit.
  destruct (negb _) eqn:Hst; [by left|].
  destruct (_ || _ || _) eqn:Hg; [by left|right].
  apply negb_false_iff, bool_decide_eq_true in Hst.
  apply orb_false_iff in Hg as [[Hrep Hlost]%orb_false_iff Hnow].
  apply recall_state_is_valid_true in Hv as (He & Hr & _); [|by destruct Hst; congruence].
  destruct Ht as (_ & _ & _ & _ & He0 & Hr0 & _).
  assert (Hticks : exists lost now, lost_tick k = Some lost /\ recall_current_tick k = Some now /\
      lost <= receipt_tick (recall_credit_id c) <= now).
  { destruct (lost_tick k) as [lost|], (recall_current_tick k) as [now|]; simpl in *; try done.
    exists lost, now. split_and!; done || lia. }
  destruct k. unfold damage_of, objective_of, credit_cap in *. simpl in *.
  destruct (recall_credit_kind c) as [d|]; eexists; (split; [reflexivity|]).
  - do 3 (split; [done|]). m3_consts.
    rewrite !(saturating_add_exact 32) by int_lia.
    assert (0 <= (damage_remainder0 + d) / 25 <= 70000) by (unfold in_uint in Hkind; change (2 ^ 16) with 65536 in Hkind; div_lia).
    unfold wrapping_mul. rewrite wrap_small by m3_lia. f_equal. m3_lia.
  - do 3 (split; [done|]). m3_consts.
    rewrite Z.add_0_r, (Z.div_small damage_remainder0), (Z.mod_small damage_remainder0) by lia.
    f_equal. int_lia.
Qed.

Lemma recall_apply_credit_inv k c :
  recall_inv k -> recall_command_ok c -> recall_inv (recall_apply_credit k c).1.
Proof.
  intros Hinv Hc.
  destruct (recall_apply_credit_cases k c Hinv Hc)
    as [->|(k' & -> & Hst & _ & (lost & now & Hlost & Hnow & Htick) & ->)]; [done|].
  destruct Hinv as [Ht Hv].
  assert (Hnp : recall_state k <> HorsePresent) by (destruct Hst; congruence).
  apply (recall_state_is_valid_true k Hnp) in Hv as (He & Hr & _ & Hprog). destruct Hc as [Hid Hkind].
  assert (Hd : 0 <= damage_of c)
    by (unfold damage_of; destruct (recall_credit_kind c); [unfold in_uint in Hkind|]; lia).
  assert (Ho : 0 <= objective_of c) by (unfold objective_of; destruct (recall_credit_kind c); lia).
  unfold recall_inv, recall_typed, credit_cap, recall_in_progress in *.
  destruct k; simpl in *. destruct_and?. m3_consts.
  assert (0 <= (damage_remainder0 + damage_of c) mod 25 < 25) by (apply Z.mod_pos_bound; lia).
  assert (0 <= (damage_remainder0 + damage_of c) / 25) by (apply Z.div_pos; lia).
  split; [split_and!; done || lia|].
  apply recall_state_is_valid_true; [done|]. unfold credit_cursor_ok, recall_in_progress. simpl.
  split_and!; [lia|lia| |done]. intros ? [= <-]. exists lost, now. by split_and!.
Qed.

(** ** The return phases *)

Definition phases_left (s : RecallState) : nat :=
  match s with Hoofbeats => 4 | DustReveal => 3 | GallopIn => 2 | MountWindow => 1 | _ => 0 end.

(** The loop's exit test: no phase entered, none follows, or the next one is not
    due yet. *)
Definition loop_exited (k : RecallKernel) (tick : SimulationTick) : bool :=
  is_none_or (phase_enter_tick k) (fun entered =>
    is_none_or (phase_transition (recall_state k)) (fun '(duration, _) =>
      tick <? tick_saturating_add entered duration)).

Lemma return_phases_exit n k t o :
  (phases_left (recall_state k) < n)%nat ->
  loop_exited (return_phases n k t o).1 t = true /\
  return_phases n k t o = return_phases (S n) k t o.
Proof.
  revert k o. induction n as [|n IH]; intros k o Hn; [lia|].
  cbn [return_phases]. unfold loop_exited.
  destruct (phase_enter_tick k) as [entered|] eqn:He; [|simpl; by rewrite He].
  destruct (phase_transition (recall_state k)) as [[duration next]|] eqn:Htr;
    [|simpl; rewrite He; simpl; by rewrite Htr].
  destruct (t <? _) eqn:Hdue; [simpl; rewrite He; simpl; by rewrite Htr|].
  apply IH. destruct k as [st]; simpl in *. destruct st; simplify_eq/=; lia.
Qed.

(** The loop over the return phases terminates within its bound: it ends at
    its exit test, and no larger bound changes the result. *)
Theorem return_phases_fuel k t o n :
  loop_exited (return_phases PHASE_FUEL k t o).1 t = true /\
  return_phases (PHASE_FUEL + n) k t o = return_phases PHASE_FUEL k t o.
Proof.
  assert (Hleft : (phases_left (recall_state k) < PHASE_FUEL)%nat)
    by (destruct (recall_state k); simpl; unfold PHASE_FUEL; lia).
  split; [by apply return_phases_exit|].
  induction n as [|n IH]; [by rewrite Nat.add_0_r|].
  rewrite <- IH, Nat.add_succ_r. symmetry. apply return_phases_exit. lia.
Qed.

(** Ticks from the request to the entry of each return phase. *)
Definition phase_offset (s : RecallState) : option Z :=
  match s with
  | Hoofbeats => Some 0
  | DustReveal => Some 120
  | GallopIn => Some 210
  | MountWindow => Some 300
  | WaitingMount => Some 390
  | HorsePresent | CoolingDown | Ready => None
  end.

(** The phase and its entry tick at [t] of a return requested at [r]. *)
Definition return_phase (r t : SimulationTick) : RecallState * SimulationTick :=
  if t <? r + 120 then (Hoofbeats, r)
  else if t <? r + 210 then (DustReveal, r + 120)
  else if t <? r + 300 then (GallopIn, r + 210)
  else if t <? r + 390 then (MountWindow, r + 300)
  else (WaitingMount, r + 390).

Lemma return_phases_idle n k t o :
  phase_transition (recall_state k) = None -> return_phases n k t o = (k, o).
Proof.
  intros H. destruct n; simpl; [done|]. destruct (phase_enter_tick k); [|done]. by rewrite H.
Qed.

Lemma return_phases_eq k t e off :
  phase_enter_tick k = Some e -> phase_offset (recall_state k) = Some off ->
  0 <= e <= t -> t <= tick_horizon ->
  return_phases PHASE_FUEL k t false =
    (k <| recall_state := (return_phase (e - off) t).1 |>
       <| phase_enter_tick := Some (return_phase (e - off) t).2 |>,
     (off <? 300) && (e - off + 300 <=? t)).
Proof.
  intros He Hoff Het Ht. unfold tick_horizon in Ht.
  change (2 ^ 60) with 1152921504606846976 in Ht. m3_consts.
  assert (Hg : saturating_sub GALLOP_IN_TICKS RUNNING_MOUNT_WINDOW_TICKS = 90) by done.
  destruct k as [st now loss lost enter earned rem last row]. simpl in *. subst enter.
  unfold PHASE_FUEL, return_phase.
  unfold tick_saturating_add, saturating_add. pow_norm. destruct st; simplify_eq/=; rewrite ?Hg.
  all: repeat match goal with |- context [?a <? ?b] => destruct (Z.ltb_spec a b) end; simpl; try lia.
  all: repeat match goal with |- context [?a <=? ?b] => destruct (Z.leb_spec a b) end; simpl; try lia.
  all: do 2 f_equal; f_equal; lia.
Qed.

(** ** Ticks *)

Definition ready_at (k : RecallKernel) : SimulationTick :=
  default 0 (lost_tick k) + Z.max (BASE_RECALL_TICKS - earned_reduction_ticks k) MIN_RECALL_TICKS.

(** The kernel after an accepted tick [t], without the loop. *)
Definition recall_at (k : RecallKernel) (t : SimulationTick) : RecallKernel :=
  let k1 := k <| recall_current_tick := Some t |> in
  match phase_offset (recall_state k) with
  | Some off =>
      let p := return_phase (default 0 (phase_enter_tick k) - off) t in
      k1 <| recall_state := p.1 |> <| phase_enter_tick := Some p.2 |>
  | None =>
      if bool_decide (recall_state k = CoolingDown) && (ready_at k <=? t)
      then k1 <| recall_state := Ready |> <| phase_enter_tick := Some (ready_at k) |>
      else k1
  end.

Definition window_opened (k : RecallKernel) (t : SimulationTick) : bool :=
  match phase_offset (recall_state k) with
  | Some off => (off <? 300) && (default 0 (phase_enter_tick k) - off + 300 <=? t)
  | None => false
  end.

Lemma ready_tick_eq k now t :
  recall_inv k -> recall_state k <> HorsePresent -> recall_current_tick k = Some now ->
  now < t <= tick_horizon -> ready_tick k = Some (ready_at k).
Proof.
  intros [Ht Hv] Hst Hnow Hmax. unfold tick_horizon in Hmax.
  apply (recall_state_is_valid_true k Hst) in Hv
    as (He & _ & _ & loss & lost & enter & now' & run & _ & Hlost & _ & Hnow' & ? & ? & _).
  simplify_eq. destruct Ht as (_ & _ & Hl64 & _ & He0 & _). unfold ready_tick, ready_at.
  rewrite Hlost in *. simpl in *. f_equal. unfold saturating_sub.
  change (2 ^ 60) with 1152921504606846976 in Hmax.
  rewrite (Z.max_l _ 0) by m3_lia. apply tick_saturating_add_exact. m3_lia.
Qed.

Lemma recall_advance_tick_eq k t :
  recall_inv k -> recall_state k <> HorsePresent -> tick_after (recall_current_tick k) t ->
  exists out, recall_advance_tick k t = (recall_at k t, Ok out) /\
    recall_out_state out = recall_state (recall_at k t) /\ mount_window_opened out = window_opened k t.
Proof.
  intros Hinv Hst Ht. pose proof Hinv as [Htyped Hv].
  apply (recall_state_is_valid_true k Hst) in Hv
    as (_ & _ & _ & loss & lost & enter & now & run & _ & _ & Henter & Hnow & ? & ? & _).
  rewrite Hnow in Ht. destruct Ht as [Ht Hmax]. simpl in Ht.
  assert (Hready : ready_tick (k <| recall_current_tick := Some t |>) = Some (ready_at k)).
  { rewrite <- (ready_tick_eq k now t) by (done || lia). by destruct k. }
  unfold recall_advance_tick, recall_at, window_opened. rewrite Hnow.
  set (k1 := k <| recall_current_tick := Some t |>) in *. simpl is_some_and.
  replace (t <=? now) with false by lia.
  destruct (phase_offset (recall_state k)) as [off|] eqn:Hoff.
  - rewrite Henter.
    assert (He0 : 0 <= enter).
    { destruct Htyped as (_ & _ & _ & Hp & _). rewrite Henter in Hp. simpl in Hp. unfold in_uint in Hp. lia. }
    replace (match recall_state k1 with CoolingDown => _ | _ => k1 end) with k1
      by (destruct k as [[]]; done).
    rewrite (return_phases_eq k1 t enter off); [|by destruct k|by destruct k|lia|done].
    eexists. split_and!; [reflexivity|done|done].
  - assert (Hk1 : recall_state k1 = recall_state k) by (by destruct k). rewrite Hk1.
    destruct (recall_state k) eqn:Hstate; try done; rewrite ?Hready; simpl is_some_and.
    + rewrite bool_decide_true by done. simpl andb. destruct (ready_at k <=? t).
      * rewrite return_phases_idle by done. eexists. split_and!; [reflexivity|done|done].
      * rewrite return_phases_idle by (by rewrite Hk1). eexists. split_and!; [reflexivity|done|done].
    + rewrite bool_decide_false by done. simpl andb.
      rewrite return_phases_idle by (by rewrite Hk1). eexists. split_and!; [reflexivity|done|done].
Qed.

Lemma return_phase_spec r t :
  r <= t -> exists off, phase_offset (return_phase r t).1 = Some off /\
    (return_phase r t).2 - off = r /\ r <= (return_phase r t).2 <= t.
Proof. intros Hrt. unfold return_phase. split_ifs; simpl; eexists; (split; [done|]); lia. Qed.

Lemma recall_at_inv k t :
  recall_inv k -> recall_state k <> HorsePresent -> tick_after (recall_current_tick k) t ->
  recall_inv (recall_at k t) /\ recall_state (recall_at k t) <> HorsePresent.
Proof.
  intros [Htyped Hv] Hst Ht.
  apply (recall_state_is_valid_true k Hst) in Hv
    as (He & Hr & Hcur & loss & lost & enter & now & run & Hloss & Hlost & Henter & Hnow & Hle & ? & Hrow).
  rewrite Hnow in Ht. destruct Ht as [Ht Hmax]. simpl in Ht. unfold tick_horizon in Hmax.
  change (2 ^ 60) with 1152921504606846976 in Hmax.
  assert (Hgen : forall s e, s <> HorsePresent -> lost <= e <= t ->
    let k' := k <| recall_current_tick := Some t |> <| recall_state := s |>
                <| phase_enter_tick := Some e |> in recall_inv k' /\ recall_state k' <> HorsePresent).
  { intros s e Hs Hen k'. unfold recall_inv. rewrite recall_state_is_valid_true by done.
    unfold k', recall_typed, credit_cursor_ok, recall_in_progress in *.
    destruct k; simpl in *; subst; simpl in *. destruct_and?. split_and!; try done; try int_lia.
    - intros id ->. destruct (Hcur id eq_refl) as (? & ? & [= <-] & [= <-] & ?).
      exists lost, t. split_and!; done || lia.
    - exists loss, lost, e, t, run. split_and!; done || lia. }
  unfold recall_at. rewrite Henter. simpl default.
  destruct (phase_offset (recall_state k)) as [off|] eqn:Hoff.
  - destruct (return_phase_spec (enter - off) t) as (off' & Hoff' & Heq & Hb).
    { destruct (recall_state k); simplify_eq/=; lia. }
    apply Hgen; [by destruct (return_phase (enter - off) t).1|].
    split; [|lia]. clear Hgen. unfold return_phase in *.
    destruct (recall_state k); simplify_eq/=; split_ifs; simplify_eq/=; lia.
  - destruct (bool_decide _ && _) eqn:Hr2.
    + apply andb_true_iff in Hr2 as [Hcool%bool_decide_eq_true Hready].
      apply Hgen; [done|]. split; [|lia]. unfold ready_at. rewrite Hlost. simpl. m3_lia.
    + destruct (Hgen (recall_state k) enter Hst ltac:(lia)) as [H1 H2].
      by destruct k; simpl in *; subst.
Qed.

(** Ticks visited in order, with the number of openings of the mount window. *)
Fixpoint recall_ticks (k : RecallKernel) (ts : list SimulationTick) : RecallKernel * Z :=
  match ts with
  | [] => (k, 0)
  | t :: ts =>
      let '(k1, r) := recall_advance_tick k t in
      let '(k2, n) := recall_ticks k1 ts in
      (k2, n + match r with Ok out => if mount_window_opened out then 1 else 0 | Err _ => 0 end)
  end.

Lemma recall_at_compose k t1 t2 :
  recall_inv k -> recall_state k <> HorsePresent -> tick_after (recall_current_tick k) t1 -> t1 < t2 ->
  recall_at (recall_at k t1) t2 = recall_at k t2 /\
  (if window_opened k t1 then 1 else 0) + (if window_opened (recall_at k t1) t2 then 1 else 0)
  = (if window_opened k t2 then 1 else 0).
Proof.
  intros [_ Hv] Hst Ht1 Ht2.
  apply (recall_state_is_valid_true k Hst) in Hv
    as (_ & _ & _ & loss & lost & enter & now & run & _ & _ & Henter & Hnow & ? & ? & _).
  rewrite Hnow in Ht1. destruct Ht1 as [Ht1 _]. simpl in Ht1.
  destruct (phase_offset (recall_state k)) as [off|] eqn:Hoff.
  - destruct (return_phase_spec (enter - off) t1) as (off' & Hoff' & Heq & Hb).
    { destruct (recall_state k); simplify_eq/=; lia. }
    set (p := return_phase (enter - off) t1) in *. unfold recall_at, window_opened.
    destruct k; simpl in *. subst. simpl. rewrite Hoff. fold p. simpl. rewrite Hoff'. simpl.
    rewrite Heq. split; [done|].
    assert (Hcmp : (off' <? 300) = negb (enter - off + 300 <=? t1)).
    { unfold p, return_phase in Hoff'. split_ifs; simplify_eq/=; lia. }
    rewrite Hcmp. destruct (off <? 300) eqn:?, (enter - off + 300 <=? t1) eqn:?,
      (enter - off + 300 <=? t2) eqn:?; simpl; try done; try lia.
  - assert (Hk : recall_state k = CoolingDown \/ recall_state k = Ready)
      by (destruct (recall_state k); simplify_eq/=; auto).
    unfold recall_at, window_opened, ready_at.
    destruct k as [st cur loss' lost' enter' earned rem last row]. simpl in *.
    destruct Hk as [-> | ->]; simpl; [|done].
    destruct (_ <=? t1) eqn:H1; simpl; [by replace (_ <=? t2) with true by lia|].
    by destruct (_ <=? t2).
Qed.

Lemma recall_ticks_last ts k t :
  recall_inv k -> recall_state k <> HorsePresent ->
  ticks_after (recall_current_tick k) (ts ++ [t]) ->
  recall_ticks k (ts ++ [t]) = (recall_at k t, if window_opened k t then 1 else 0).
Proof.
  revert k. induction ts as [|t1 ts IH]; intros k Hinv Hst Hts.
  - destruct Hts as [Ht _]. simpl.
    destruct (recall_advance_tick_eq k t Hinv Hst Ht) as (out & -> & _ & ->). done.
  - destruct Hts as [Ht1 Hts]. simpl.
    destruct (recall_advance_tick_eq k t1 Hinv Hst Ht1) as (out & -> & _ & Hopen).
    destruct (recall_at_inv k t1 Hinv Hst Ht1) as [Hinv1 Hst1].
    assert (Hcur : recall_current_tick (recall_at k t1) = Some t1).
    { unfold recall_at. destruct (phase_offset _); [done|]. by destruct (_ && _). }
    destruct (ticks_after_last _ _ _ Hts) as [Hlt _]. simpl in Hlt.
    destruct (recall_at_compose k t1 t Hinv Hst Ht1 ltac:(lia)) as [Hk Hn].
    rewrite IH by (done || by rewrite Hcur). rewrite Hk, Hopen. f_equal. lia.
Qed.

(** ** Requests and mounts *)

Lemma request_any k r s :
  recall_inv k -> recall_current_tick k = Some r -> recall_state k = s -> s <> HorsePresent ->
  recall_inv (k <| recall_state := Hoofbeats |> <| phase_enter_tick := Some r |>).
Proof.
  intros [Ht Hv] Hnow Hs Hst. subst s.
  apply (recall_state_is_valid_true k Hst) in Hv
    as (He & Hr & Hcur & loss & lost & enter & now & run & Hloss & Hlost & Henter & Hnow' & ? & ? & Hrow).
  unfold recall_inv. rewrite recall_state_is_valid_true by done.
  unfold recall_typed, credit_cursor_ok, recall_in_progress in *.
  destruct k; simpl in *; simplify_eq. destruct_and?. split_and!; try done.
  exists loss, lost, r, r, run. split_and!; done || lia.
Qed.

Lemma request_recall_inv k r : recall_inv k -> recall_inv (request_recall k r).1.
Proof.
  intros Hinv. unfold request_recall. destruct (_ || _) eqn:Hg; [done|].
  apply orb_false_iff in Hg as [Hs Hn].
  apply bool_decide_eq_false, dec_stable in Hs. apply bool_decide_eq_false, dec_stable in Hn.
  by eapply request_any.
Qed.

Lemma request_recall_instant_inv k r : recall_inv k -> recall_inv (request_recall_instant k r).1.
Proof.
  intros Hinv. unfold request_recall_instant. destruct (_ || _) eqn:Hg; [done|].
  apply orb_false_iff in Hg as [Hs Hn].
  apply negb_false_iff, bool_decide_eq_true in Hs. apply bool_decide_eq_false, dec_stable in Hn.
  eapply request_any; try done. destruct Hs; congruence.
Qed.

Lemma try_mount_refused k t rider horse moving k' :
  try_mount k t rider horse moving = (k', false) -> k' = k.
Proof. unfold try_mount. intros H. by repeat case_match; simplify_eq. Qed.

(** The accepted mount: in range, in its window, on the kernel's tick. *)
Lemma try_mount_spec k t rider horse moving k' :
  recall_inv k -> try_mount k t rider horse moving = (k', true) ->
  recall_inv k' /\ recall_current_tick k = Some t /\ recall_state k' = HorsePresent /\
  recall_state k = (if moving then MountWindow else WaitingMount) /\
  squared_distance_mm rider horse
    <= (if moving then RUNNING_MOUNT_RANGE_MM else STATIONARY_REMOUNT_RANGE_MM) ^ 2 /\
  exists loss, recall_horse_loss_tick k = Some loss /\
    telemetry k' = Some (mkRemountTelemetryRow loss (Some t) (Some (t - loss)) moving) /\
    recall_current_tick k' = Some t /\ recall_horse_loss_tick k' = Some loss.
Proof.
  intros [Ht Hv]. unfold try_mount. destruct (bool_decide _) eqn:Hn; [done|].
  apply bool_decide_eq_false, dec_stable in Hn.
  destruct (match recall_state k with MountWindow => _ | _ => _ end) as [[range run]|] eqn:Hwin; [|done].
  destruct (_ <? _) eqn:Hd; [done|].
  assert (Hcase : recall_state k <> HorsePresent /\ recall_state k = (if moving then MountWindow else WaitingMount)
    /\ range = (if moving then RUNNING_MOUNT_RANGE_MM else STATIONARY_REMOUNT_RANGE_MM) /\ run = moving).
  { destruct (recall_state k), moving; simplify_eq/=; done. }
  destruct Hcase as (Hst & Hstate & -> & ->).
  apply (recall_state_is_valid_true k Hst) in Hv
    as (He & Hr & Hcur & loss & lost & enter & now & run & Hloss & Hlost & Henter & Hnow' & ? & ? & Hrow).
  rewrite Hrow. simpl. intros [= <-].
  assert (Hdur : checked_duration_since t loss = Some (t - loss)).
  { apply checked_duration_since_Some. split; [done|]. simplify_eq. lia. }
  rewrite Hdur. split.
  - unfold recall_inv, recall_typed, recall_state_is_valid, credit_cursor_ok in *.
    destruct k; simpl in *; simplify_eq. destruct_and?. split; [by split_and!|].
    destruct (_ || _ || _) eqn:Hg.
    { rewrite !orb_true_iff, is_some_and_true in Hg. destruct Hg as [[?|?]|(id & -> & Hid)]; [lia|lia|].
      destruct (Hcur id eq_refl) as (? & ? & [= <-] & [= <-] & ?). simpl in Hid. lia. }
    rewrite !bool_decide_true by done. simpl. rewrite andb_true_r. lia.
  - split_and!; try done; [lia|]. exists loss. by destruct k; simpl in *.
Qed.

(** The Majestic Return runs on its exact timeline: a request accepted at
    tick [r] enters its phases at the offsets of [return_phase] whatever ticks
    the authority visits, and opens the mount window exactly once, at [r + 300]. *)
Theorem return_timeline k r k1 (instant : bool) ts t :
  recall_inv k ->
  (if instant then request_recall_instant k r else request_recall k r) = (k1, true) ->
  ticks_after (Some r) (ts ++ [t]) ->
  let '(k2, openings) := recall_ticks k1 (ts ++ [t]) in
  (recall_state k2, phase_enter_tick k2) = ((return_phase r t).1, Some (return_phase r t).2) /\
  openings = (if r + 300 <=? t then 1 else 0) /\ recall_inv k2.
Proof.
  intros Hinv Hreq Hts.
  assert (Hk1 : recall_inv k1 /\ recall_state k1 = Hoofbeats /\ phase_enter_tick k1 = Some r /\
                recall_current_tick k1 = Some r).
  { pose proof (request_recall_inv k r Hinv) as H1.
    pose proof (request_recall_instant_inv k r Hinv) as H2.
    destruct instant; rewrite Hreq in *; unfold request_recall, request_recall_instant in Hreq;
      destruct (_ || _) eqn:Hg; simplify_eq/=; (split; [done|]);
      apply orb_false_iff in Hg as [_ Hn]; apply bool_decide_eq_false, dec_stable in Hn; done. }
  destruct Hk1 as (Hinv1 & Hst1 & Hp1 & Hc1).
  rewrite (recall_ticks_last ts k1 t) by (rewrite ?Hst1, ?Hc1; done).
  assert (Ht : tick_after (recall_current_tick k1) t).
  { rewrite Hc1. by eapply ticks_after_last. }
  destruct (recall_at_inv k1 t Hinv1 ltac:(by rewrite Hst1) Ht) as [Hinv2 _].
  split_and!; [| |done].
  - unfold recall_at. rewrite Hst1, Hp1. simpl. by rewrite Z.sub_0_r.
  - unfold window_opened. rewrite Hst1, Hp1. simpl. by rewrite Z.sub_0_r.
Qed.

(** ** The recall economy *)

Inductive recall_op := RecallCredit (c : RecallCreditCommand) | RecallTick (t : SimulationTick).

Definition recall_op_ok (op : recall_op) : Prop :=
  match op with RecallCredit c => recall_command_ok c | RecallTick t => 0 <= t <= tick_horizon end.

(** Credits and ticks in any interleaving, with the credits accepted. *)
Fixpoint recall_run (k : RecallKernel) (ops : list recall_op) : RecallKernel * list RecallCreditCommand :=
  match ops with
  | [] => (k, [])
  | RecallCredit c :: ops =>
      let '(k1, ok) := recall_apply_credit k c in
      let '(k2, acc) := recall_run k1 ops in
      (k2, if ok then c :: acc else acc)
  | RecallTick t :: ops => recall_run (recall_advance_tick k t).1 ops
  end.

Definition total_damage (cs : list RecallCreditCommand) : Z := foldr (fun c n => damage_of c + n) 0 cs.
Definition total_objectives (cs : list RecallCreditCommand) : Z :=
  foldr (fun c n => objective_of c + n) 0 cs.

(** Ticks of cooldown a list of credits is worth, before the cap. *)
Definition worth (remainder : Z) (cs : list RecallCreditCommand) : Z :=
  60 * ((remainder + total_damage cs) / 25) + 120 * total_objectives cs.

Lemma damage_of_nonneg c : recall_command_ok c -> 0 <= damage_of c.
Proof.
  intros [_ Hk]. unfold damage_of. destruct (recall_credit_kind c); [unfold in_uint in Hk|]; lia.
Qed.

Lemma worth_cons r c cs :
  0 <= r < 25 -> 0 <= damage_of c -> 0 <= total_damage cs ->
  worth r (c :: cs) = 60 * ((r + damage_of c) / 25) + 120 * objective_of c
                      + worth ((r + damage_of c) mod 25) cs.
Proof.
  intros Hr Hc Hcs. unfold worth, total_damage, total_objectives. simpl.
  fold (total_damage cs) (total_objectives cs). div_lia.
Qed.

Lemma total_objectives_nonneg cs : 0 <= total_objectives cs.
Proof.
  unfold total_objectives. induction cs as [|c cs IH]; simpl; [lia|].
  unfold objective_of at 1. case_match; lia.
Qed.

Lemma worth_nonneg r cs : 0 <= r -> 0 <= total_damage cs -> 0 <= worth r cs.
Proof.
  intros Hr Hd. unfold worth. pose proof (total_objectives_nonneg cs).
  assert (0 <= (r + total_damage cs) / 25) by (apply Z.div_pos; lia). lia.
Qed.

(** The state a recall keeps while it waits to be requested. *)
Definition economy (k k' : RecallKernel) (acc : list RecallCreditCommand) : Prop :=
  lost_tick k' = lost_tick k /\ 0 <= total_damage acc /\
  damage_remainder k' = (damage_remainder k + total_damage acc) mod 25 /\
  earned_reduction_ticks k' = Z.min credit_cap (earned_reduction_ticks k + worth (damage_remainder k) acc) /\
  Forall (fun c => forall l, recall_last_credit_id k = Some l -> key_lt l (recall_credit_id c)) acc /\
  StronglySorted key_lt (recall_credit_id <$> acc).

Lemma recall_inv_range k :
  recall_inv k -> 0 <= damage_remainder k < 25 /\ 0 <= earned_reduction_ticks k <= credit_cap.
Proof.
  intros [Ht Hv]. destruct Ht as (_ & _ & _ & _ & ? & ? & _).
  unfold recall_state_is_valid in Hv. destruct (_ || _ || _) eqn:Hg; [done|].
  apply orb_false_iff in Hg as [[? Hr]%orb_false_iff _]. unfold credit_cap. lia.
Qed.

Lemma economy_refl k : recall_inv k -> economy k k [].
Proof.
  intros Hinv. apply recall_inv_range in Hinv as [Hr He]. unfold economy, worth. simpl.
  rewrite Z.add_0_r, Z.div_small, Z.mod_small by lia. split_and!; try done; try lia; constructor.
Qed.

Lemma recall_tick_economy k t k' acc :
  recall_inv k -> recall_state k <> HorsePresent -> 0 <= t <= tick_horizon ->
  recall_inv (recall_advance_tick k t).1 /\ recall_state (recall_advance_tick k t).1 <> HorsePresent /\
  (economy (recall_advance_tick k t).1 k' acc -> economy k k' acc).
Proof.
  intros Hinv Hst Ht.
  destruct (is_some_and (recall_current_tick k) (fun n => t <=? n)) eqn:Hnew.
  { unfold recall_advance_tick. by rewrite Hnew. }
  assert (Hafter : tick_after (recall_current_tick k) t).
  { split; [|lia]. destruct Hinv as [(Hn & _) _].
    destruct (recall_current_tick k); simpl in *; [unfold in_uint in Hn|]; lia. }
  destruct (recall_advance_tick_eq k t Hinv Hst Hafter) as (out & -> & _). simpl.
  destruct (recall_at_inv k t Hinv Hst Hafter) as [? ?]. split_and!; [done|done|].
  assert (Hsame : lost_tick (recall_at k t) = lost_tick k /\
    damage_remainder (recall_at k t) = damage_remainder k /\
    earned_reduction_ticks (recall_at k t) = earned_reduction_ticks k /\
    recall_last_credit_id (recall_at k t) = recall_last_credit_id k).
  { unfold recall_at. destruct (phase_offset _); [done|]. by destruct (_ && _). }
  destruct Hsame as (H1 & H2 & H3 & H4). unfold economy. by rewrite H1, H2, H3, H4.
Qed.

Lemma recall_run_economy ops k k' acc :
  recall_inv k -> recall_state k <> HorsePresent -> Forall recall_op_ok ops ->
  recall_run k ops = (k', acc) -> recall_inv k' /\ economy k k' acc.
Proof.
  revert k k' acc. induction ops as [|[c|t] ops IH]; intros k k' acc Hinv Hst Hops Hrun; simpl in Hrun.
  { simplify_eq. auto using economy_refl. }
  - apply Forall_cons in Hops as [Hc Hops].
    pose proof (recall_apply_credit_inv k c Hinv Hc) as Hinv1.
    destruct (recall_apply_credit_cases k c Hinv Hc)
      as [Heq|(k1 & Heq & _ & Hrep & _ & Hk1)]; rewrite Heq in Hrun, Hinv1; simpl in Hinv1.
    { destruct (recall_run k ops) as [k2 acc2] eqn:Hrest. simplify_eq. by apply IH. }
    destruct (recall_run k1 ops) as [k2 acc2] eqn:Hrest. injection Hrun as -> <-.
    assert (Hst1 : recall_state k1 <> HorsePresent) by (rewrite Hk1; by destruct k).
    destruct (IH k1 k' acc2 Hinv1 Hst1 Hops Hrest) as (Hinv' & Hlost & Hd2 & Hr2 & He2 & Hlt & Hsort).
    split; [done|].
    pose proof (damage_of_nonneg c Hc). pose proof (recall_inv_range k Hinv) as [Hr He].
    assert (Hk1f : lost_tick k1 = lost_tick k /\ recall_last_credit_id k1 = Some (recall_credit_id c) /\
      damage_remainder k1 = (damage_remainder k + damage_of c) mod 25 /\
      earned_reduction_ticks k1 = Z.min credit_cap (earned_reduction_ticks k
         + 60 * ((damage_remainder k + damage_of c) / 25) + 120 * objective_of c))
      by (rewrite Hk1; by destruct k). clear Hk1.
    destruct Hk1f as (Hl1 & Hid1 & Hr1 & He1).
    unfold economy. rewrite worth_cons by done. split_and!.
    + congruence.
    + unfold total_damage in *. simpl. lia.
    + rewrite Hr2, Hr1. unfold total_damage in *. simpl. rewrite Zplus_mod_idemp_l. f_equal. lia.
    + rewrite He2, He1, Hr1. unfold worth at 1.
      assert (0 <= worth ((damage_remainder k + damage_of c) mod 25) acc2).
      { apply worth_nonneg; [|done]. pose proof (Z.mod_pos_bound (damage_remainder k + damage_of c) 25). lia. }
      unfold worth in *. lia.
    + rewrite Forall_cons. split; [by apply is_replay_false|].
      eapply Forall_impl; [exact Hlt|]. simpl. intros x Hx l Hl. specialize (Hx _ Hid1).
      eapply key_lt_trans; [exact (is_replay_false _ _ Hrep _ Hl) | exact Hx].
    + simpl. constructor; [done|]. apply Forall_fmap. eapply Forall_impl; [exact Hlt|]. simpl. auto.
  - apply Forall_cons in Hops as [Ht Hops].
    destruct (recall_tick_economy k t k' acc Hinv Hst Ht) as (Hinv1 & Hst1 & Hec).
    destruct (IH _ _ _ Hinv1 Hst1 Hops Hrun). auto.
Qed.

(** The recall economy: from a horse lost at tick [lost], over any
    interleaving of credits (duplicated, stale or early ones included) and ticks,
    the accepted receipts are strictly increasing, and the recall is ready after
    the base delay less one second per complete 25 of the total damage accepted
    and two per objective tick, however the damage was split, never less than the
    floor. *)
Theorem recall_economy k lost loss k0 ops k' acc :
  recall_state k = HorsePresent -> 0 <= loss <= lost -> lost + BASE_RECALL_TICKS <= u64_max ->
  lose_horse k lost loss = (k0, Ok tt) -> Forall recall_op_ok ops -> recall_run k0 ops = (k', acc) ->
  StronglySorted key_lt (recall_credit_id <$> acc) /\
  ready_tick k' = Some (lost + Z.max MIN_RECALL_TICKS
    (BASE_RECALL_TICKS - 60 * (total_damage acc / 25) - 120 * total_objectives acc)) /\
  damage_remainder k' = total_damage acc mod 25 /\ recall_inv k'.
Proof.
  intros Hst Hl Hmax Hlose Hops Hrun.
  destruct (lose_horse_inv k lost loss Hst) as [_ Hinv0]; [m3_lia|done|].
  rewrite Hlose in Hinv0. simpl in Hinv0.
  assert (Hk0 : recall_state k0 = CoolingDown /\ lost_tick k0 = Some lost /\
    earned_reduction_ticks k0 = 0 /\ damage_remainder k0 = 0).
  { unfold lose_horse in Hlose. destruct (_ || _); by simplify_eq/=. }
  destruct Hk0 as (Hst0 & Hlost0 & He0 & Hr0).
  destruct (recall_run_economy ops k0 k' acc Hinv0 ltac:(by rewrite Hst0) Hops Hrun)
    as (Hinv' & Hlost & Hd & Hr & He & _ & Hs).
  rewrite He0, Hr0 in *. rewrite Z.add_0_l in *. split_and!; [done| |done|done].
  pose proof (worth_nonneg 0 acc ltac:(lia) Hd) as Hw.
  unfold ready_tick. rewrite Hlost, Hlost0, He. simpl. f_equal. unfold worth, credit_cap in *.
  rewrite Z.add_0_l in *. rewrite tick_saturating_add_exact by m3_lia. m3_lia.
Qed.

(** A remount is granted only in its window, in range and on the kernel's own
    tick: the running mount while the horse still moves through the window, the
    stationary one after it; the acceptance row records the exact time since the
    horse was lost, and the kernel keeps its invariant. *)
Theorem mount_only_in_window k t rider horse moving k' :
  recall_inv k -> try_mount k t rider horse moving = (k', true) ->
  recall_inv k' /\ recall_current_tick k = Some t /\ recall_state k' = HorsePresent /\
  recall_state k = (if moving then MountWindow else WaitingMount) /\
  squared_distance_mm rider horse
    <= (if moving then RUNNING_MOUNT_RANGE_MM else STATIONARY_REMOUNT_RANGE_MM) ^ 2 /\
  exists loss, recall_horse_loss_tick k = Some loss /\
    telemetry k' = Some (mkRemountTelemetryRow loss (Some t) (Some (t - loss)) moving).
Proof.
  intros Hinv Hm. destruct (try_mount_spec k t rider horse moving k' Hinv Hm)
    as (H1 & H2 & H3 & H4 & H5 & loss & H6 & H7 & _). split_and!; try done. by exists loss.
Qed.

(** ** Witnesses *)

Definition lost_at_280 : RecallKernel := (lose_horse recall_default 280 100).1.

Lemma lost_at_280_inv : recall_inv lost_at_280.
Proof. by apply lose_horse_inv. Qed.

(** Damage of 30 and 20 in two credits, one objective tick, and a replay. *)
Definition economy_ops : list recall_op :=
  [RecallTick 300;
   RecallCredit (mkRecallCreditCommand (mkReceiptId 1 290 1) (DamageDealt 30));
   RecallCredit (mkRecallCreditCommand (mkReceiptId 1 290 1) (DamageDealt 30));
   RecallTick 320;
   RecallCredit (mkRecallCreditCommand (mkReceiptId 1 320 1) ObjectiveTick);
   RecallCredit (mkRecallCreditCommand (mkReceiptId 1 320 2) (DamageDealt 20))].

Lemma recall_economy_witness :
  ready_tick (recall_run lost_at_280 economy_ops).1 = Some (280 + (1200 - 2 * 60 - 120)).
Proof.
  assert (Hops : Forall recall_op_ok economy_ops)
    by (unfold economy_ops; repeat constructor; by vm_compute).
  destruct (recall_economy recall_default 280 100 lost_at_280 economy_ops _ _ eq_refl ltac:(lia)
    ltac:(by vm_compute) eq_refl Hops (surjective_pairing _)) as (_ & H & _).
  etrans; [exact H|]. by vm_compute.
Defined.

Lemma return_timeline_witness :
  let k1 := (request_recall_instant lost_at_280 280).1 in
  recall_state (recall_ticks k1 ([400; 580] ++ [600])).1 = MountWindow.
Proof.
  intros k1.
  pose proof (return_timeline lost_at_280 280 k1 true [400; 580] 600 lost_at_280_inv
    ltac:(by vm_compute) ltac:(by vm_compute)) as H.
  destruct (recall_ticks k1 ([400; 580] ++ [600])) as [k2 n]. destruct H as [H _].
  by injection H.
Defined.

(** A horse moving through its window, 3,999 mm from the rider. *)
Definition in_window : RecallKernel :=
  (recall_ticks (request_recall_instant lost_at_280 280).1 ([] ++ [580])).1.

Lemma mount_only_in_window_witness :
  let rider := mkQuantizedOrigin 0 0 0 in
  let horse := mkQuantizedOrigin 3999 0 0 in
  squared_distance_mm rider horse <= 4000 ^ 2.
Proof.
  intros rider horse.
  assert (Hinv : recall_inv in_window).
  { unfold in_window. rewrite recall_ticks_last; [|by apply request_recall_instant_inv, lost_at_280_inv|by vm_compute|by vm_compute].
    apply recall_at_inv; [by apply request_recall_instant_inv, lost_at_280_inv|by vm_compute|by vm_compute]. }
  destruct (mount_only_in_window in_window 580 rider horse true
    (try_mount in_window 580 rider horse true).1 Hinv ltac:(by vm_compute)) as (_ & _ & _ & _ & H & _).
  exact H.
Defined.
