(* ===== verification/OnFoot.v ===== *)
(** * On-foot locomotion ([m3.rs], [OnFootKernel])

    Stance, stamina, the buffered tactical roll, the spook stun and the planar
    velocity of a rider without a horse. *)

From S2P Require Import Prelude MachineInt Ordered Clock Combat M3 HorseVitality.
Open Scope Z_scope.

Inductive OnFootState := SpookStunned | Standing | Sprinting | Crouched | Rolling.
#[export] Instance OnFootState_eq_dec : EqDecision OnFootState.
Proof. solve_decision. Defined.

(** [OnFootState::stance] *)
Definition stance (self : OnFootState) : M3RiderStance :=
  match self with
  | SpookStunned => StanceSpookStunned
  | Standing => StanceStanding
  | Sprinting => StanceSprinting
  | Crouched => StanceCrouched
  | Rolling => StanceRolling
  end.

Record OnFootTickInput := mkOnFootTickInput {
  foot_tick : SimulationTick;
  move_direction : option QuantizedDirection;
  sprint_pressed : bool;
  crouch_pressed : bool;
  reload_active : bool;
}.

Record OnFootTickOutput := mkOnFootTickOutput {
  out_state : OnFootState;
  out_stance : M3RiderStance;
  speed_mmps : Z;
  requested_velocity_mmps : Z * Z;
  out_stamina_ticks : Z;
  can_fire : bool;
  reload_pause_started : bool;
  sway_multiplier_milli : Z;
  roll_exit_sway_milli : Z;
}.

Record OnFootKernel := mkOnFootKernel {
  foot_current_tick : option SimulationTick;
  foot_state : OnFootState;
  stamina_units : Z;
  previous_crouch_level : bool;
  buffered_roll_until : option SimulationTick;
  roll_started_tick : option SimulationTick;
  roll_direction : QuantizedDirection;
  roll_cooldown_until : SimulationTick;
  roll_exit_tick : option SimulationTick;
  spook_stun_until : option SimulationTick;
  velocity_mmps : Z * Z;
}.

#[export] Instance eta_OnFootKernel : Settable OnFootKernel := fun k =>
  mkOnFootKernel (foot_current_tick k) (foot_state k) (stamina_units k) (previous_crouch_level k)
    (buffered_roll_until k) (roll_started_tick k) (roll_direction k) (roll_cooldown_until k)
    (roll_exit_tick k) (spook_stun_until k) (velocity_mmps k).
#[export] Instance OnFootKernel_eq_dec : EqDecision OnFootKernel.
Proof. solve_decision. Defined.

Definition STAMINA_FULL : Z := ON_FOOT_STAMINA_TICKS * ON_FOOT_STAMINA_REGEN_TICKS.

(** [Default] *)
Definition foot_default : OnFootKernel :=
  mkOnFootKernel None Standing STAMINA_FULL false None None
    (mkQuantizedDirection 0 0 (-DIRECTION_UNITS)) 0 None None (0, 0).

Definition stamina_ticks (self : OnFootKernel) : Z := stamina_units self / ON_FOOT_STAMINA_REGEN_TICKS.

Definition begin_spook_stun (self : OnFootKernel) (tick : SimulationTick) : OnFootKernel * bool :=
  if is_some_and (foot_current_tick self) (fun current => tick <=? current)
     || bool_decide (foot_state self = SpookStunned)
  then (self, false)
  else (self <| foot_state := SpookStunned |>
             <| spook_stun_until := Some (tick_saturating_add tick SPOOK_STUN_TICKS) |>
             <| buffered_roll_until := None |>
             <| roll_started_tick := None |>
             <| velocity_mmps := (0, 0) |>, true).

(** The division truncates toward zero, as [i64] division does. *)
Definition scale_planar_direction (direction : QuantizedDirection) (speed : Z) : Z * Z :=
  (i32_clamp (Z.quot (dir_x direction * speed) DIRECTION_UNITS),
   i32_clamp (Z.quot (dir_z direction * speed) DIRECTION_UNITS)).

Definition move_toward (current target max_delta : Z) : Z :=
  if current <? target then Z.min (i32_clamp (current + max_delta)) target
  else if target <? current then Z.max (i32_clamp (current - max_delta)) target
  else current.

Definition norm2 (v : Z * Z) : Z := v.1 ^ 2 + v.2 ^ 2.

Definition approach_planar_velocity (current target : Z * Z)
    (acceleration_mmps2 deceleration_mmps2 elapsed_ticks : Z) : Z * Z :=
  let accelerating :=
    (0 <=? current.1 * target.1 + current.2 * target.2) && (norm2 current <? norm2 target) in
  let rate := if accelerating then acceleration_mmps2 else deceleration_mmps2 in
  let max_delta := div_ceil (saturating_mul 64 rate elapsed_ticks) M3_TICK_RATE_HZ in
  let max_delta := default i32_max (try_from_int 32 max_delta) in
  (move_toward current.1 target.1 max_delta, move_toward current.2 target.2 max_delta).

Definition roll_exit_sway (elapsed_ticks : Z) : Z :=
  if ROLL_EXIT_SWAY_DECAY_TICKS <=? elapsed_ticks then 0
  else
    let remaining := ROLL_EXIT_SWAY_DECAY_TICKS - elapsed_ticks in
    default 0 (try_from_uint 16 (ROLL_EXIT_SWAY_IMPULSE_MILLI * remaining / ROLL_EXIT_SWAY_DECAY_TICKS)).

(** The planar direction an input contributes: malformed vectors are ignored. *)
Definition accepted_direction (input : OnFootTickInput) : option QuantizedDirection :=
  match move_direction input with
  | Some value =>
      if is_normalized value && (Z.abs (dir_y value) <=? DIRECTION_UNITS / 100) then Some value else None
  | None => None
  end.

(** The end of a running roll: [Err] when a rolling kernel has no start tick. *)
Definition end_roll (self : OnFootKernel) (tick : SimulationTick)
    : OnFootKernel * result bool M3Error :=
  if bool_decide (foot_state self = Rolling) then
    match roll_started_tick self with
    | None => (self, Err InvalidState)
    | Some started =>
        if TACTICAL_ROLL_TICKS <=? default 0 (checked_duration_since tick started)
        then (self <| foot_state := Standing |>
                   <| roll_started_tick := None |>
                   <| roll_exit_tick := Some (tick_saturating_add started TACTICAL_ROLL_TICKS) |>,
              Ok true)
        else (self, Ok false)
    end
  else (self, Ok false).

(** The stance selection of a kernel that is not rolling; the boolean is
    [reload_pause_started]. *)
Definition select_stance (self : OnFootKernel) (input : OnFootTickInput)
    (direction : option QuantizedDirection) : OnFootKernel * bool :=
  if bool_decide (foot_state self = Rolling) then (self, false)
  else
    let has_stamina := 0 <? stamina_ticks self in
    let wants_sprint := sprint_pressed input && is_some direction && has_stamina in
    let buffer_live := is_some_and (buffered_roll_until self) (fun deadline => foot_tick input <=? deadline) in
    if wants_sprint && buffer_live && (roll_cooldown_until self <=? foot_tick input) then
      (self <| foot_state := Rolling |>
            <| roll_started_tick := Some (foot_tick input) |>
            <| roll_direction := default (roll_direction self) direction |>
            <| roll_cooldown_until :=
                 tick_saturating_add (foot_tick input) TACTICAL_ROLL_COOLDOWN_TICKS |>
            <| buffered_roll_until := None |>,
       reload_active input)
    else if crouch_pressed input then (self <| foot_state := Crouched |>, false)
    else if wants_sprint then (self <| foot_state := Sprinting |>, false)
    else (self <| foot_state := Standing |>, false).

Definition spend_stamina (self : OnFootKernel) : OnFootKernel :=
  if bool_decide (foot_state self = Sprinting)
  then self <| stamina_units := saturating_sub (stamina_units self) ON_FOOT_STAMINA_REGEN_TICKS |>
  else self <| stamina_units :=
         Z.min (saturating_add 32 (stamina_units self) ON_FOOT_STAMINA_TICKS) STAMINA_FULL |>.

(** Requested speed, movement direction, permission to fire and stance sway. *)
Definition stance_row (self : OnFootKernel) (direction : option QuantizedDirection)
    : Z * option QuantizedDirection * bool * Z :=
  match foot_state self with
  | SpookStunned => (0, None, false, 1500)
  | Standing => (ON_FOOT_WALK_SPEED_MMPS, direction, true, if is_some direction then 1200 else 900)
  | Sprinting => (ON_FOOT_SPRINT_SPEED_MMPS, direction, true, 1500)
  | Crouched => (ON_FOOT_CROUCH_SPEED_MMPS, direction, true, 800)
  | Rolling => (TACTICAL_ROLL_SPEED_MMPS, Some (roll_direction self), false, 1200)
  end.

Definition next_velocity (self : OnFootKernel) (target : Z * Z) (roll_ended : bool)
    (elapsed_ticks : Z) : Z * Z :=
  match foot_state self with
  | SpookStunned => (0, 0)
  | Rolling => target
  | Standing =>
      if roll_ended then (0, 0)
      else approach_planar_velocity (velocity_mmps self) target
             ON_FOOT_WALK_ACCEL_MMPS2 ON_FOOT_WALK_DECEL_MMPS2 elapsed_ticks
  | Sprinting =>
      if roll_ended then (0, 0)
      else approach_planar_velocity (velocity_mmps self) target
             ON_FOOT_SPRINT_ACCEL_MMPS2 ON_FOOT_SPRINT_DECEL_MMPS2 elapsed_ticks
  | Crouched =>
      if roll_ended then (0, 0)
      else approach_planar_velocity (velocity_mmps self) target
             ON_FOOT_CROUCH_ACCEL_MMPS2 ON_FOOT_CROUCH_DECEL_MMPS2 elapsed_ticks
  end.

(** The part of a tick that follows the stun. *)
Definition advance_awake (self : OnFootKernel) (input : OnFootTickInput) (crouch_edge : bool)
    (elapsed_ticks : Z) : OnFootKernel * result OnFootTickOutput M3Error :=
  let tick := foot_tick input in
  let direction := accepted_direction input in
  let self :=
    if crouch_edge
    then self <| buffered_roll_until := Some (tick_saturating_add tick ON_FOOT_INPUT_BUFFER_TICKS) |>
    else self in
  match end_roll self tick with
  | (self, Err e) => (self, Err e)
  | (self, Ok roll_ended) =>
      let '(self, reload_pause_started) := select_stance self input direction in
      let self := spend_stamina self in
      let '(speed, movement_direction, can_fire, sway) := stance_row self direction in
      let target :=
        match movement_direction with
        | Some value => scale_planar_direction value speed
        | None => (0, 0)
        end in
      let self := self <| velocity_mmps := next_velocity self target roll_ended elapsed_ticks |> in
      let roll_exit_sway_milli :=
        match roll_exit_tick self ≫= (fun exit => checked_duration_since tick exit) with
        | Some elapsed => roll_exit_sway elapsed
        | None => 0
        end in
      (self, Ok (mkOnFootTickOutput (foot_state self) (stance (foot_state self)) speed
                   (velocity_mmps self) (stamina_ticks self) can_fire reload_pause_started sway
                   roll_exit_sway_milli))
  end.

Definition foot_advance_tick (self : OnFootKernel) (input : OnFootTickInput)
    : OnFootKernel * result OnFootTickOutput M3Error :=
  let tick := foot_tick input in
  let previous_tick := foot_current_tick self in
  if is_some_and previous_tick (fun current => tick <=? current) then (self, Err TickReplay)
  else
    let elapsed_ticks :=
      default 1 (previous_tick ≫= (fun current => checked_duration_since tick current)) in
    let self := self <| foot_current_tick := Some tick |> in
    let crouch_edge := crouch_pressed input && negb (previous_crouch_level self) in
    let self := self <| previous_crouch_level := crouch_pressed input |> in
    if bool_decide (foot_state self = SpookStunned) then
      match spook_stun_until self with
      | None => (self, Err InvalidState)
      | Some stun_until =>
          if tick <? stun_until then
            let self := self <| velocity_mmps := (0, 0) |> in
            (self, Ok (mkOnFootTickOutput (foot_state self) (stance (foot_state self)) 0 (0, 0)
                         (stamina_ticks self) false false 1500 0))
          else
            advance_awake (self <| foot_state := Standing |> <| spook_stun_until := None |>)
              input crouch_edge elapsed_ticks
      end
    else advance_awake self input crouch_edge elapsed_ticks.

Definition foot_state_is_valid (self : OnFootKernel) : bool :=
  if (STAMINA_FULL <? stamina_units self)
     || (TACTICAL_ROLL_SPEED_MMPS ^ 2 <? norm2 (velocity_mmps self))
  then false
  else
    match foot_state self with
    | SpookStunned =>
        is_none (roll_started_tick self)
        && is_some_and (spook_stun_until self) (fun until =>
             is_none_or (foot_current_tick self) (fun current => current <? until))
    | Rolling =>
        is_none (spook_stun_until self)
        && is_some_and (roll_started_tick self) (fun started =>
             is_none_or (foot_current_tick self) (fun current =>
               (started <=? current)
               && (default 0 (checked_duration_since current started) <? TACTICAL_ROLL_TICKS)))
        && is_normalized (roll_direction self)
    | Standing | Sprinting | Crouched =>
        is_none (spook_stun_until self) && is_none (roll_started_tick self)
    end
    && tick_is_not_after (roll_exit_tick self) (foot_current_tick self).

(** ** Planar velocity *)

Lemma quot_bound x s :
  0 <= s -> Z.abs (Z.quot (x * s) DIRECTION_UNITS) * DIRECTION_UNITS <= Z.abs x * s.
Proof.
  intros Hs. unfold DIRECTION_UNITS.
  replace (Z.abs x * s) with (Z.abs (x * s)) by (rewrite Z.abs_mul; lia).
  set (n := x * s). rewrite <- (Z.quot_abs n 1000000) by lia. change (Z.abs 1000000) with 1000000.
  pose proof (Z.mul_quot_le (Z.abs n) 1000000 ltac:(lia) ltac:(lia)). lia.
Qed.

(** A direction inside the unit disc gives a velocity no faster than asked. *)
Lemma scale_planar_direction_norm d s :
  within_unit d -> 0 <= s <= 10000 -> norm2 (scale_planar_direction d s) <= s ^ 2.
Proof.
  intros Hd Hs. unfold within_unit in Hd. unfold scale_planar_direction, norm2. cbn [fst snd].
  assert (Hclamp : forall x, Z.abs x <= DIRECTION_UNITS ->
    i32_clamp (Z.quot (x * s) DIRECTION_UNITS) = Z.quot (x * s) DIRECTION_UNITS).
  { intros x Hx. pose proof (quot_bound x s ltac:(lia)). unfold DIRECTION_UNITS in *.
    assert (Z.abs (Z.quot (x * s) 1000000) <= 10000) by nia. int_lia. }
  assert (Z.abs (dir_x d) <= DIRECTION_UNITS /\ Z.abs (dir_z d) <= DIRECTION_UNITS) as [Hx Hz]
    by (unfold DIRECTION_UNITS in *; nia).
  rewrite !Hclamp by done.
  pose proof (quot_bound (dir_x d) s ltac:(lia)) as Hqx.
  pose proof (quot_bound (dir_z d) s ltac:(lia)) as Hqz.
  set (qx := Z.quot (dir_x d * s) DIRECTION_UNITS) in *.
  set (qz := Z.quot (dir_z d * s) DIRECTION_UNITS) in *. clearbody qx qz.
  assert (Hx2 : (qx * qx) * (DIRECTION_UNITS * DIRECTION_UNITS) <= dir_x d * dir_x d * (s * s)).
  { rewrite <- (Z.abs_square qx), <- (Z.abs_square (dir_x d)). unfold DIRECTION_UNITS in *. nia. }
  assert (Hz2 : (qz * qz) * (DIRECTION_UNITS * DIRECTION_UNITS) <= dir_z d * dir_z d * (s * s)).
  { rewrite <- (Z.abs_square qz), <- (Z.abs_square (dir_z d)). unfold DIRECTION_UNITS in *. nia. }
  rewrite !Z.pow_2_r. unfold DIRECTION_UNITS in *. nia.
Qed.

(** One axis of the approach toward a slow target: it gains at most the allowed
    delta, and while it is still fast it loses all of it. *)
Lemma move_toward_axis c t delta :
  Z.abs c <= 7000 -> Z.abs t <= 4500 -> 0 <= delta <= i32_max ->
  let r := Z.abs (move_toward c t delta) in
  r <= Z.abs c + delta /\ (4500 < r -> delta <= Z.abs c - r).
Proof. cbv zeta. intros. unfold move_toward. split_ifs; int_lia. Qed.

(** Trading length on a long axis for at most as much on a short one. *)
Lemma disc_trade a b x z :
  0 <= b -> 4500 <= x <= a -> 0 <= z <= 4500 -> z - b <= a - x ->
  a * a + b * b <= 49000000 -> x * x + z * z <= 49000000.
Proof.
  intros Hb Hx Hz Hmove Hab.
  assert (Ha : (a - x) * 9000 <= a * a - x * x) by nia.
  destruct (Z.le_gt_cases z b) as [Hzb|Hzb].
  - assert (z * z <= b * b) by nia. assert (x * x <= a * a) by nia. lia.
  - assert (z * z - b * b <= (z - b) * 9000) by nia. lia.
Qed.

Lemma disc_step a b x z delta :
  0 <= a -> 0 <= b -> 0 <= x -> 0 <= z -> a * a + b * b <= 49000000 -> 0 <= delta ->
  x <= a + delta -> (4500 < x -> delta <= a - x) ->
  z <= b + delta -> (4500 < z -> delta <= b - z) -> x * x + z * z <= 49000000.
Proof.
  intros Ha Hb Hx Hz Hab Hd Hx1 Hx2 Hz1 Hz2.
  destruct (Z.le_gt_cases x 4500) as [Hxs|Hxs], (Z.le_gt_cases z 4500) as [Hzs|Hzs].
  - assert (x * x <= 4500 * 4500) by (apply Z.mul_le_mono_nonneg; lia).
    assert (z * z <= 4500 * 4500) by (apply Z.mul_le_mono_nonneg; lia). lia.
  - specialize (Hz2 ltac:(lia)). rewrite Z.add_comm. apply (disc_trade b a); lia.
  - specialize (Hx2 ltac:(lia)). apply (disc_trade a b); lia.
  - assert (x * x <= a * a) by (apply Z.mul_le_mono_nonneg; lia).
    assert (z * z <= b * b) by (apply Z.mul_le_mono_nonneg; lia). lia.
Qed.

(** Moving both axes by the same delta toward a slow target never leaves the
    disc of the roll speed. *)
Lemma approach_in_disc a b c d delta :
  a * a + b * b <= 49000000 -> Z.abs c <= 4500 -> Z.abs d <= 4500 -> 0 <= delta <= i32_max ->
  move_toward a c delta * move_toward a c delta + move_toward b d delta * move_toward b d delta
    <= 49000000.
Proof.
  intros Hab Hc Hd Hdelta.
  assert (Ha : Z.abs a <= 7000) by nia.
  assert (Hb : Z.abs b <= 7000) by nia.
  destruct (move_toward_axis a c delta Ha Hc Hdelta) as [Hx1 Hx2].
  destruct (move_toward_axis b d delta Hb Hd Hdelta) as [Hz1 Hz2].
  rewrite <- (Z.abs_square (move_toward a c delta)), <- (Z.abs_square (move_toward b d delta)).
  rewrite <- (Z.abs_square a), <- (Z.abs_square b) in Hab.
  destruct Hdelta as [Hdelta _].
  by apply (disc_step (Z.abs a) (Z.abs b) _ _ delta); try apply Z.abs_nonneg.
Qed.

Lemma approach_planar_velocity_norm v target accel decel elapsed :
  norm2 v <= TACTICAL_ROLL_SPEED_MMPS ^ 2 -> Z.abs target.1 <= 4500 -> Z.abs target.2 <= 4500 ->
  0 <= accel <= 20000 -> 0 <= decel <= 20000 -> 0 <= elapsed ->
  norm2 (approach_planar_velocity v target accel decel elapsed) <= TACTICAL_ROLL_SPEED_MMPS ^ 2.
Proof.
  intros Hv H1 H2 Ha Hd He. unfold approach_planar_velocity.
  set (rate := if _ : bool then accel else decel).
  assert (Hr : 0 <= rate <= 20000) by (unfold rate; case_match; lia). clearbody rate.
  assert (Hm : 0 <= default i32_max (try_from_int 32 (div_ceil (saturating_mul 64 rate elapsed) M3_TICK_RATE_HZ)) <= i32_max).
  { assert (0 <= div_ceil (saturating_mul 64 rate elapsed) M3_TICK_RATE_HZ).
    { unfold div_ceil. apply Z.div_pos; [|m3_lia]. m3_consts. unfold saturating_mul.
      assert (0 <= rate * elapsed) by nia. int_lia. }
    unfold try_from_int. change (2 ^ (32 - 1)) with 2147483648.
    destruct (_ && _) eqn:Hfit; simpl; btrue; int_lia. }
  set (delta := default _ _) in *. clearbody delta.
  unfold norm2 in *. cbn [fst snd]. rewrite !Z.pow_2_r in *.
  by apply approach_in_disc.
Qed.

(** ** Invariant *)

Definition foot_typed (k : OnFootKernel) : Prop :=
  opt_u64 (foot_current_tick k) /\ 0 <= stamina_units k /\ opt_u64 (roll_started_tick k) /\
  in_uint 64 (roll_cooldown_until k) /\ opt_u64 (roll_exit_tick k) /\ opt_u64 (spook_stun_until k) /\
  opt_u64 (buffered_roll_until k).

(** The phase and stamina part of [state_is_valid]; what is left is the speed. *)
Definition foot_phase_valid (k : OnFootKernel) : bool :=
  foot_state_is_valid (k <| velocity_mmps := (0, 0) |>).
Lemma foot_state_is_valid_split k :
  foot_state_is_valid k = foot_phase_valid k && (norm2 (velocity_mmps k) <=? TACTICAL_ROLL_SPEED_MMPS ^ 2).
Proof.
  unfold foot_phase_valid, foot_state_is_valid. destruct k as [cur st stam crl buf rst dir cd ex stun vel]. simpl.
  change (TACTICAL_ROLL_SPEED_MMPS ^ 2 <? norm2 (0, 0)) with false. rewrite orb_false_r.
  rewrite Z.leb_antisym. destruct (STAMINA_FULL <? stam); [done|].
  destruct (TACTICAL_ROLL_SPEED_MMPS ^ 2 <? norm2 vel); simpl; by rewrite ?andb_false_r, ?andb_true_r.
Qed.

(** Whether the directions of a run stay inside the exact unit disc. The tolerance of
    [is_normalized] is slightly wider, and a direction in between starts a roll that is
    too fast for [state_is_valid], see [overlong_roll_is_invalid]: the lemmas below hold
    for any accepted direction, and bound the speed when the directions are exact. *)
Class FootDirections := exact_directions : bool.
#[export] Instance any_directions : FootDirections | 100 := false.

Section Runs.
Context {Directions : FootDirections}.

(** The checkpoint's validity, with a rolling rider's clock started. *)
Definition foot_inv (k : OnFootKernel) : Prop :=
  foot_typed k /\ foot_phase_valid k = true /\ (foot_state k = Rolling -> foot_current_tick k <> None) /\
  (exact_directions = true -> norm2 (velocity_mmps k) <= TACTICAL_ROLL_SPEED_MMPS ^ 2 /\
     (foot_state k = Rolling -> within_unit (roll_direction k))).

Definition foot_input_ok (i : OnFootTickInput) : Prop :=
  0 <= foot_tick i <= tick_horizon /\ (exact_directions = true -> from_option within_unit True (accepted_direction i)).

Lemma foot_inv_valid k : foot_inv k -> exact_directions = true -> foot_state_is_valid k = true.
Proof.
  intros (_ & Hp & _ & Hv) Hx. rewrite foot_state_is_valid_split, Hp. destruct (Hv Hx) as [Hn _]. by apply Z.leb_le.
Qed.

(** The phase facts of an awake kernel at tick [t]; [done_rolling] once the end
    of a roll has been processed. *)
Definition awake_phase (k : OnFootKernel) (t : SimulationTick) (done_rolling : bool) : Prop :=
  spook_stun_until k = None /\
  match foot_state k with
  | SpookStunned => False
  | Rolling => is_normalized (roll_direction k) = true /\ (exact_directions = true -> within_unit (roll_direction k)) /\
      exists s, roll_started_tick k = Some s /\ 0 <= s <= t /\
        (done_rolling = true -> t < s + TACTICAL_ROLL_TICKS)
  | Standing | Sprinting | Crouched => roll_started_tick k = None
  end.

Definition awake (k : OnFootKernel) (t : SimulationTick) (done_rolling : bool) : Prop :=
  foot_current_tick k = Some t /\ 0 <= t <= tick_horizon /\
  0 <= stamina_units k <= STAMINA_FULL /\
  (exact_directions = true -> norm2 (velocity_mmps k) <= TACTICAL_ROLL_SPEED_MMPS ^ 2) /\
  tick_is_not_after (roll_exit_tick k) (Some t) = true /\
  in_uint 64 (roll_cooldown_until k) /\ opt_u64 (roll_exit_tick k) /\ opt_u64 (buffered_roll_until k) /\
  awake_phase k t done_rolling.

Lemma tick_horizon_u64 t : 0 <= t <= tick_horizon -> in_uint 64 t /\ t + 1000000 <= u64_max.
Proof. unfold tick_horizon. change (2 ^ 60) with 1152921504606846976. int_lia. Qed.

Lemma awake_inv k t : awake k t true -> foot_inv k.
Proof.
  intros (Hcur & Ht & Hst & Hv & Hex & Hcd & Hex64 & Hb & Hstun & Hphase).
  destruct (tick_horizon_u64 t Ht) as [Ht64 _].
  unfold foot_inv, foot_typed, foot_phase_valid, foot_state_is_valid. simpl. rewrite Hcur, Hstun, Hex.
  replace (STAMINA_FULL <? _) with false by lia.
  change (TACTICAL_ROLL_SPEED_MMPS ^ 2 <? norm2 (0, 0)) with false. simpl.
  destruct (foot_state k); try done; try (rewrite Hphase; split_and!; try done; try lia; intros Hx; split; [by apply Hv|done]).
  destruct Hphase as (-> & Hw & s & -> & Hs & Hd). specialize (Hd eq_refl). simpl.
  split_and!; try done; try lia; [int_lia|rewrite checked_duration_since_or, !andb_true_r; lia|intros Hx; split; auto].
Qed.

Lemma end_roll_awake k t :
  awake k t false ->
  exists k' b, end_roll k t = (k', Ok b) /\ awake k' t true /\
    stamina_units k' = stamina_units k /\ buffered_roll_until k' = buffered_roll_until k /\
    roll_cooldown_until k' = roll_cooldown_until k /\
    (foot_state k <> Rolling -> k' = k /\ b = false) /\ (b = true -> foot_state k' = Standing).
Proof.
  intros (Hcur & Ht & Hst & Hv & Hex & Hcd & Hex64 & Hb & Hstun & Hphase).
  destruct (tick_horizon_u64 t Ht) as [Ht64 Hmax]. unfold end_roll.
  destruct (bool_decide (foot_state k = Rolling)) eqn:Hr.
  - apply bool_decide_eq_true in Hr. rewrite Hr in Hphase.
    destruct Hphase as (Hn & Hw & s & Hs & Hle & _). rewrite Hs, checked_duration_since_or.
    destruct (TACTICAL_ROLL_TICKS <=? _) eqn:Hend.
    + eexists _, true. split; [reflexivity|].
      assert (Hexit : tick_saturating_add s TACTICAL_ROLL_TICKS = s + TACTICAL_ROLL_TICKS)
        by (apply tick_saturating_add_exact; m3_lia).
      destruct k; simpl in *; subst. rewrite Hexit. unfold awake, awake_phase. simpl.
      split_and!; try done; m3_lia.
    + exists k, false. split_and!; try done. unfold awake, awake_phase. rewrite Hr.
      split_and!; try done; try lia. exists s. split_and!; try done; lia.
  - apply bool_decide_eq_false in Hr. exists k, false. split_and!; try done.
    unfold awake, awake_phase in *. destruct (foot_state k); try done.
Qed.

Lemma accepted_direction_normalized i d :
  accepted_direction i = Some d -> is_normalized d = true.
Proof.
  unfold accepted_direction. destruct (move_direction i); [|done].
  destruct (_ && _) eqn:H; [|done]. intros [= <-]. by apply andb_true_iff in H as [? _].
Qed.

Lemma select_stance_awake k i k' b :
  foot_input_ok i -> awake k (foot_tick i) true ->
  select_stance k i (accepted_direction i) = (k', b) ->
  awake k' (foot_tick i) true /\ velocity_mmps k' = velocity_mmps k /\
  stamina_units k' = stamina_units k.
Proof.
  intros [Ht Hd] Haw. pose proof Haw as (Hcur & _ & Hst & Hv & Hex & Hcd & Hex64 & Hb & Hstun & Hphase).
  destruct (tick_horizon_u64 _ Ht) as [Ht64 Hmax].
  unfold select_stance. destruct (bool_decide (foot_state k = Rolling)) eqn:Hr; [by intros [= <- <-]|].
  apply bool_decide_eq_false in Hr.
  assert (Hns : roll_started_tick k = None /\ foot_state k <> SpookStunned)
    by (destruct (foot_state k); done).
  destruct Hns as [Hns Hnst].
  assert (Hcd' : in_uint 64 (tick_saturating_add (foot_tick i) TACTICAL_ROLL_COOLDOWN_TICKS))
    by (apply tick_saturating_add_range; [done|m3_lia]).
  destruct (accepted_direction i) as [d|] eqn:Hdir.
  - pose proof (accepted_direction_normalized i d Hdir) as Hn. simpl in Hd.
    destruct (_ && _ && _); [|destruct (crouch_pressed i); [|destruct (_ && _)]]; intros [= <- <-];
      destruct k; simpl in *; subst; unfold awake, awake_phase; simpl; split_and!; try done; try lia.
    exists (foot_tick i). m3_consts. split_and!; done || lia.
  - rewrite andb_false_r. simpl.
    destruct (crouch_pressed i); intros [= <- <-];
      destruct k; simpl in *; subst; unfold awake, awake_phase; simpl; split_and!; done || lia.
Qed.

Lemma spend_stamina_awake k t :
  awake k t true -> awake (spend_stamina k) t true /\
  foot_state (spend_stamina k) = foot_state k /\ velocity_mmps (spend_stamina k) = velocity_mmps k.
Proof.
  intros (Hcur & Ht & Hst & Hv & Hex & Hcd & Hex64 & Hb & Hphase).
  assert (HF : STAMINA_FULL = 86400) by done.
  unfold spend_stamina. destruct (bool_decide _); destruct k; unfold awake, awake_phase in *; simpl in *;
    destruct_and?; split_and!; try done; try m3_lia.
Qed.

Lemma planar_target_bound d s :
  within_unit d -> 0 <= s <= 4500 ->
  Z.abs (scale_planar_direction d s).1 <= 4500 /\ Z.abs (scale_planar_direction d s).2 <= 4500.
Proof.
  intros Hd Hs. pose proof (scale_planar_direction_norm d s Hd ltac:(lia)) as Hn.
  unfold norm2 in Hn. rewrite !Z.pow_2_r in Hn. split; nia.
Qed.

Lemma next_velocity_bound k i speed dir fire sway b elapsed t :
  awake k t true -> foot_input_ok i -> 0 <= elapsed ->
  stance_row k (accepted_direction i) = (speed, dir, fire, sway) ->
  exact_directions = true ->
  norm2 (next_velocity k (match dir with Some v => scale_planar_direction v speed | None => (0, 0) end)
           b elapsed) <= TACTICAL_ROLL_SPEED_MMPS ^ 2.
Proof.
  intros (_ & _ & _ & Hv & _ & _ & _ & _ & _ & Hphase) [_ Hd] He Hrow Hx. specialize (Hv Hx). specialize (Hd Hx).
  assert (Hslow : forall s, 0 <= s <= 4500 ->
    let target := match accepted_direction i with
                  | Some v => scale_planar_direction v s | None => (0, 0) end in
    Z.abs target.1 <= 4500 /\ Z.abs target.2 <= 4500).
  { intros s Hs. destruct (accepted_direction i); [by apply planar_target_bound|simpl; lia]. }
  unfold next_velocity, stance_row in *. destruct (foot_state k); simplify_eq/=; try done.
  1-3: destruct b; [done|]; apply approach_planar_velocity_norm; try done; try apply Hslow; done.
  destruct Hphase as (_ & Hw & _). apply scale_planar_direction_norm; [by apply Hw|done].
Qed.

Lemma select_stance_sprint k i d k' b :
  select_stance k i d = (k', b) -> foot_state k' = Sprinting ->
  foot_state k <> Rolling -> ON_FOOT_STAMINA_REGEN_TICKS <= stamina_units k.
Proof.
  unfold select_stance, stamina_ticks. destruct (bool_decide _) eqn:Hr.
  { apply bool_decide_eq_true in Hr. done. }
  destruct (sprint_pressed i && is_some d && (0 <? _)) eqn:Hw.
  - intros _ _ _. apply andb_true_iff in Hw as [_ Hs]. m3_consts.
    destruct (Z.lt_ge_cases (stamina_units k) ON_FOOT_STAMINA_REGEN_TICKS) as [Hlt|]; [|done].
    assert (stamina_units k / ON_FOOT_STAMINA_REGEN_TICKS < 1)
      by (apply Z.div_lt_upper_bound; lia). lia.
  - simpl. destruct (crouch_pressed i); intros [= <- <-]; by destruct k.
Qed.

Lemma select_stance_roll k i d :
  foot_state k = Rolling -> select_stance k i d = (k, false).
Proof. intros H. unfold select_stance. by rewrite bool_decide_true. Qed.

Lemma spend_stamina_eq k :
  0 <= stamina_units k <= STAMINA_FULL ->
  stamina_units (spend_stamina k) =
    if bool_decide (foot_state k = Sprinting)
    then Z.max 0 (stamina_units k - ON_FOOT_STAMINA_REGEN_TICKS)
    else Z.min STAMINA_FULL (stamina_units k + ON_FOOT_STAMINA_TICKS).
Proof.
  intros H. assert (HF : STAMINA_FULL = 86400) by done. unfold spend_stamina.
  destruct (bool_decide _); destruct k; simpl in *; m3_lia.
Qed.

Lemma set_velocity_awake k t v :
  awake k t true -> (exact_directions = true -> norm2 v <= TACTICAL_ROLL_SPEED_MMPS ^ 2) ->
  awake (k <| velocity_mmps := v |>) t true.
Proof. unfold awake, awake_phase. destruct k; simpl. tauto. Qed.

Lemma buffer_awake k t (edge : bool) d :
  awake k t d -> 
  awake (if edge
    then k <| buffered_roll_until := Some (tick_saturating_add t ON_FOOT_INPUT_BUFFER_TICKS) |>
    else k) t d.
Proof.
  intros H. destruct edge; [|done]. pose proof H as (_ & Ht & _).
  destruct (tick_horizon_u64 t Ht) as [Ht64 _].
  assert (in_uint 64 (tick_saturating_add t ON_FOOT_INPUT_BUFFER_TICKS))
    by (apply tick_saturating_add_range; [done|m3_lia]).
  unfold awake, awake_phase in *. destruct k; simpl in *. tauto.
Qed.

(** What a tick past the stun does. *)
Definition awake_effect (k k' : OnFootKernel) (out : OnFootTickOutput) : Prop :=
  out_state out = foot_state k' /\ out_stance out = stance (foot_state k') /\
  requested_velocity_mmps out = velocity_mmps k' /\ out_stamina_ticks out = stamina_ticks k' /\
  can_fire out = negb (bool_decide (foot_state k' = Rolling)) /\
  stamina_units k' = (if bool_decide (foot_state k' = Sprinting)
    then Z.max 0 (stamina_units k - ON_FOOT_STAMINA_REGEN_TICKS)
    else Z.min STAMINA_FULL (stamina_units k + ON_FOOT_STAMINA_TICKS)) /\
  (foot_state k' = Sprinting -> ON_FOOT_STAMINA_REGEN_TICKS <= stamina_units k).

Lemma advance_awake_spec k i edge elapsed :
  foot_input_ok i -> awake k (foot_tick i) false -> 0 <= elapsed ->
  exists k' out, advance_awake k i edge elapsed = (k', Ok out) /\
    awake k' (foot_tick i) true /\ awake_effect k k' out.
Proof.
  intros Hi Haw He. unfold advance_awake.
  apply (buffer_awake _ _ edge) in Haw. set (k0 := if edge then _ else k) in *.
  assert (Hs0 : stamina_units k0 = stamina_units k) by (unfold k0; by destruct edge, k).
  destruct (end_roll_awake k0 (foot_tick i) Haw) as (k1 & ended & -> & Haw1 & Hs1 & _ & _ & _ & Hended).
  destruct (select_stance k1 i (accepted_direction i)) as [k2 paused] eqn:Hsel.
  destruct (select_stance_awake k1 i k2 paused Hi Haw1 Hsel) as (Haw2 & Hv2 & Hs2).
  destruct (spend_stamina_awake k2 _ Haw2) as (Haw3 & Hst3 & Hv3).
  assert (Hstam : stamina_units (spend_stamina k2) =
    if bool_decide (foot_state k2 = Sprinting)
    then Z.max 0 (stamina_units k2 - ON_FOOT_STAMINA_REGEN_TICKS)
    else Z.min STAMINA_FULL (stamina_units k2 + ON_FOOT_STAMINA_TICKS)).
  { apply spend_stamina_eq. by destruct Haw2 as (_ & _ & ? & _). }
  set (k3 := spend_stamina k2) in *. clearbody k3.
  destruct (stance_row k3 (accepted_direction i)) as [[[speed dir] fire] sway] eqn:Hrow.
  pose proof (next_velocity_bound k3 i speed dir fire sway ended elapsed _ Haw3 Hi He Hrow) as Hvel.
  set (v := next_velocity k3 _ ended elapsed) in *. clearbody v.
  eexists _, _. split; [reflexivity|]. split; [by apply set_velocity_awake|].
  assert (Hsprint : foot_state k2 = Sprinting -> ON_FOOT_STAMINA_REGEN_TICKS <= stamina_units k1).
  { intros Hsp. eapply select_stance_sprint; [exact Hsel|done|].
    intros Hr. rewrite select_stance_roll in Hsel by done. simplify_eq. congruence. }
  assert (Hfire : fire = negb (bool_decide (foot_state k3 = Rolling))).
  { destruct Haw3 as (_ & _ & _ & _ & _ & _ & _ & _ & _ & Hph). unfold stance_row in Hrow.
    destruct (foot_state k3); by simplify_eq/=. }
  unfold awake_effect. destruct k3; simpl in *. rewrite Hst3, Hstam, Hfire, Hst3, Hs2, Hs1, Hs0.
  split_and!; try done. intros Hsp. specialize (Hsprint Hsp). congruence.
Qed.

(** The validity test, as the facts the proofs use. *)
Lemma foot_valid_facts k :
  foot_inv k ->
  0 <= stamina_units k <= STAMINA_FULL /\
  (exact_directions = true -> norm2 (velocity_mmps k) <= TACTICAL_ROLL_SPEED_MMPS ^ 2) /\
  tick_is_not_after (roll_exit_tick k) (foot_current_tick k) = true /\
  match foot_state k with
  | SpookStunned => roll_started_tick k = None /\ exists until, spook_stun_until k = Some until /\
      is_none_or (foot_current_tick k) (fun now => now <? until) = true
  | Rolling => spook_stun_until k = None /\ is_normalized (roll_direction k) = true /\
      (exact_directions = true -> within_unit (roll_direction k)) /\ exists s now, roll_started_tick k = Some s /\
      foot_current_tick k = Some now /\ 0 <= s <= now /\ now < s + TACTICAL_ROLL_TICKS
  | Standing | Sprinting | Crouched => spook_stun_until k = None /\ roll_started_tick k = None
  end.
Proof.
  intros (Ht & Hv & Hw & Hx). unfold foot_phase_valid, foot_state_is_valid in Hv. simpl in Hv.
  destruct (_ || _) eqn:Hg; [done|]. apply orb_false_iff in Hg as [Hs Hn].
  apply andb_true_iff in Hv as [Hv Hex]. destruct Ht as (_ & Hs0 & Hr64 & _).
  split_and!; try done; try lia; [by apply Hx|].
  assert (Hunit : exact_directions = true -> foot_state k = Rolling -> within_unit (roll_direction k)) by (intros H; by apply Hx).
  destruct (foot_state k).
  - apply andb_true_iff in Hv as [H1 H2]. split; [by destruct (roll_started_tick k)|].
    destruct (spook_stun_until k) as [u|]; [|done]. by exists u.
  - apply andb_true_iff in Hv as [H1 H2]. by destruct (spook_stun_until k), (roll_started_tick k).
  - apply andb_true_iff in Hv as [H1 H2]. by destruct (spook_stun_until k), (roll_started_tick k).
  - apply andb_true_iff in Hv as [H1 H2]. by destruct (spook_stun_until k), (roll_started_tick k).
  - apply andb_true_iff in Hv as [[H1 H2]%andb_true_iff H3].
    destruct (roll_started_tick k) as [s|]; [|done]. simpl in H2, Hr64.
    specialize (Hw eq_refl).
    split_and!; [by destruct (spook_stun_until k)|done|auto|].
    destruct (foot_current_tick k) as [now|]; [|done]. simpl in *. exists s, now.
    rewrite checked_duration_since_or in H2. unfold in_uint in Hr64. split_and!; done || lia.
Qed.

(** A tick of an awake kernel, or of one whose stun is over, starts from the
    facts of [awake]. *)
Lemma tick_awake k t crouch :
  foot_inv k -> tick_after (foot_current_tick k) t ->
  (foot_state k <> SpookStunned ->
   awake (k <| foot_current_tick := Some t |> <| previous_crouch_level := crouch |>) t false) /\
  (foot_state k = SpookStunned ->
   awake (k <| foot_current_tick := Some t |> <| previous_crouch_level := crouch |>
            <| foot_state := Standing |> <| spook_stun_until := None |>) t false).
Proof.
  intros Hinv Ht. pose proof (foot_valid_facts k Hinv) as (Hst & Hv & Hex & Hphase).
  destruct Hinv as ((Hcur & _ & _ & Hcd & Hex64 & _ & Hb) & _ & _ & _).
  assert (Hrange : 0 <= t <= tick_horizon)
    by (destruct Ht as [H ?]; destruct (foot_current_tick k); simpl in H; lia).
  assert (Hex' : tick_is_not_after (roll_exit_tick k) (Some t) = true).
  { destruct Ht as [H _]. destruct (roll_exit_tick k), (foot_current_tick k); simpl in *; try done; lia. }
  unfold awake, awake_phase. destruct k as [cur st stam crl buf rst dir cd ex stun vel]. simpl in *.
  split; intros Hs; destruct st; try done; destruct_and?; split_and!; try done; try lia.
  destruct H5 as (s & now & -> & -> & Hs0 & Hn). exists s.
  destruct Ht as [Hlt _]. simpl in Hlt. split_and!; done || lia.
Qed.

(** ** Ticks *)

(** The two shapes of an accepted tick: the stun holds, or the rider is awake. *)
Lemma foot_advance_tick_spec k i :
  foot_inv k -> foot_input_ok i -> tick_after (foot_current_tick k) (foot_tick i) ->
  exists k' out, foot_advance_tick k i = (k', Ok out) /\ foot_inv k' /\
    foot_current_tick k' = Some (foot_tick i) /\
    match spook_stun_until k with
    | Some until =>
        if foot_tick i <? until
        then foot_state k' = SpookStunned /\ spook_stun_until k' = Some until /\
             out_state out = SpookStunned /\ can_fire out = false /\
             requested_velocity_mmps out = (0, 0) /\ velocity_mmps k' = (0, 0) /\
             stamina_units k' = stamina_units k
        else awake_effect k k' out /\ foot_state k' <> SpookStunned /\ spook_stun_until k' = None
    | None => awake_effect k k' out /\ foot_state k' <> SpookStunned /\ spook_stun_until k' = None
    end.
Proof.
  intros Hinv Hi Ht. pose proof (foot_valid_facts k Hinv) as (Hst & Hv & Hex & Hphase).
  destruct (tick_awake k (foot_tick i) (crouch_pressed i) Hinv Ht) as [Haw1 Haw2].
  pose proof Hinv as (Htyped & _ & _).
  unfold foot_advance_tick. rewrite tick_after_accepted by done.
  set (elapsed := default 1 _).
  assert (He : 0 <= elapsed).
  { unfold elapsed. destruct (foot_current_tick k); simpl; [|lia].
    unfold checked_duration_since, checked_sub. destruct (_ <=? _) eqn:?; simpl; lia. }
  set (edge := crouch_pressed i && _). clearbody elapsed edge.
  set (k1 := k <| foot_current_tick := Some (foot_tick i) |>
               <| previous_crouch_level := crouch_pressed i |>) in *.
  assert (Hk1 : foot_state k1 = foot_state k /\ spook_stun_until k1 = spook_stun_until k /\
    stamina_units k1 = stamina_units k) by (by destruct k). destruct Hk1 as (Hk1s & Hk1u & Hk1st).
  assert (Hgo : forall k2, awake k2 (foot_tick i) false -> stamina_units k2 = stamina_units k ->
    exists k' out, advance_awake k2 i edge elapsed = (k', Ok out) /\ foot_inv k' /\
      foot_current_tick k' = Some (foot_tick i) /\
      awake_effect k k' out /\ foot_state k' <> SpookStunned /\ spook_stun_until k' = None).
  { intros k2 Haw Hs2. destruct (advance_awake_spec k2 i edge elapsed Hi Haw He) as (k' & out & -> & Haw' & Heff).
    exists k', out. unfold awake_effect in *. rewrite Hs2 in Heff.
    pose proof (awake_inv _ _ Haw'). destruct Haw' as (? & _ & _ & _ & _ & _ & _ & _ & ? & Hph).
    split_and!; try done; try tauto. by intros Hx; rewrite Hx in Hph. }
  rewrite Hk1s, Hk1u. destruct (decide (foot_state k = SpookStunned)) as [Hs|Hs].
  - rewrite Hs in Hphase. destruct Hphase as (Hrs & until & Hu & Hlt). rewrite Hu.
    rewrite bool_decide_true by done. destruct (foot_tick i <? until) eqn:Hstun.
    + eexists _, _. split; [reflexivity|]. destruct Hi as [Hrange _].
      destruct (tick_horizon_u64 _ Hrange) as [Ht64 _].
      assert (Hex' : tick_is_not_after (roll_exit_tick k) (Some (foot_tick i)) = true).
      { destruct Ht as [H _]. destruct (roll_exit_tick k), (foot_current_tick k); simpl in *; try done; lia. }
      unfold foot_inv, foot_typed, foot_phase_valid, foot_state_is_valid in *. unfold k1. destruct k; simpl in *; subst.
      destruct_and?. split_and!; try done. simpl. rewrite Hstun, Hex'.
      by replace (STAMINA_FULL <? _) with false by lia.
    + apply Hgo; [by apply Haw2|by destruct k].
  - rewrite bool_decide_false by done.
    assert (Hn : spook_stun_until k = None) by (destruct (foot_state k); by destruct_and?).
    rewrite Hn. apply Hgo; [by apply Haw1|done].
Qed.

Lemma begin_spook_stun_inv k t k' :
  foot_inv k -> 0 <= t <= tick_horizon -> begin_spook_stun k t = (k', true) ->
  foot_inv k' /\ spook_stun_until k' = Some (t + SPOOK_STUN_TICKS) /\ foot_state k' = SpookStunned /\
  foot_current_tick k' = foot_current_tick k.
Proof.
  intros Hinv Ht. pose proof (foot_valid_facts k Hinv) as (Hst & _ & Hex & _).
  destruct Hinv as (Htyped & _ & _ & _). unfold begin_spook_stun.
  destruct (_ || _) eqn:Hg; [done|]. apply orb_false_iff in Hg as [Hnow _]. intros [= <-].
  destruct (tick_horizon_u64 t Ht) as [Ht64 Hmax].
  rewrite tick_saturating_add_exact by m3_lia.
  assert (Hu : in_uint 64 (t + SPOOK_STUN_TICKS)) by m3_lia.
  unfold foot_inv, foot_typed, foot_phase_valid, foot_state_is_valid in *. destruct k as [cur]; simpl in *.
  destruct_and?. split_and!; try done.
  - replace (STAMINA_FULL <? _) with false by lia. rewrite Hex. simpl. rewrite andb_true_r.
    destruct cur as [now|]; simpl in *; [m3_lia|done].
Qed.

Lemma begin_spook_stun_refused k t k' : begin_spook_stun k t = (k', false) -> k' = k.
Proof. unfold begin_spook_stun. destruct (_ || _); [|done]. by intros [= ->]. Qed.

Lemma foot_default_inv : foot_inv foot_default.
Proof.
  unfold foot_inv, foot_typed, foot_default. simpl. split_and!; try done; try lia.
Qed.

(** A run of accepted ticks, with the outputs. *)
Fixpoint foot_run (k : OnFootKernel) (ins : list OnFootTickInput)
    : OnFootKernel * list (SimulationTick * OnFootTickOutput) :=
  match ins with
  | [] => (k, [])
  | i :: ins =>
      let '(k1, r) := foot_advance_tick k i in
      let '(k2, outs) := foot_run k1 ins in
      (k2, match r with Ok out => (foot_tick i, out) :: outs | Err _ => outs end)
  end.

Definition foot_inputs_ok (k : OnFootKernel) (ins : list OnFootTickInput) : Prop :=
  Forall foot_input_ok ins /\ ticks_after (foot_current_tick k) (foot_tick <$> ins).

(** On foot, no tick fails: over any inputs on increasing ticks every tick is
    answered, stamina stays within its store and the phase timers stay consistent with
    the clock; when the planar directions lie in the exact unit disc the speed stays
    within the roll's, and a migration checkpoint accepts the state. *)
Theorem foot_run_valid ins k :
  foot_inv k -> foot_inputs_ok k ins ->
  foot_inv (foot_run k ins).1 /\ length (foot_run k ins).2 = length ins /\
  foot_phase_valid (foot_run k ins).1 = true /\
  (exact_directions = true -> foot_state_is_valid (foot_run k ins).1 = true).
Proof.
  intros Hinv His.
  assert (H : foot_inv (foot_run k ins).1 /\ length (foot_run k ins).2 = length ins).
  { revert k Hinv His. induction ins as [|i ins IH]; intros k Hinv [Hok Hts]; [done|].
    apply Forall_cons in Hok as [Hi Hok]. destruct Hts as [Ht Hts]. simpl.
    destruct (foot_advance_tick_spec k i Hinv Hi Ht) as (k1 & out & -> & Hinv1 & Hcur & _).
    destruct (IH k1 Hinv1) as [H1 H2]; [split; [done|by rewrite Hcur]|].
    destruct (foot_run k1 ins) as [k2 outs]. simpl in *. auto. }
  destruct H as [H1 H2]. split_and!; [done|done|by destruct H1 as (_ & ? & _)|by apply foot_inv_valid].
Qed.

(** The spook stun is exact: from a stun begun at tick [d], every answered
    tick before [d + SPOOK_STUN_TICKS] is stunned, still and without fire, and
    every later one is not stunned, whatever the inputs. *)
Theorem spook_stun_exact k d k1 ins t out :
  foot_inv k -> 0 <= d <= tick_horizon -> begin_spook_stun k d = (k1, true) ->
  foot_inputs_ok k1 ins -> (t, out) ∈ (foot_run k1 ins).2 ->
  if t <? d + SPOOK_STUN_TICKS
  then out_state out = SpookStunned /\ can_fire out = false /\ requested_velocity_mmps out = (0, 0)
  else out_state out <> SpookStunned.
Proof.
  intros Hinv Hd Hb His Hin.
  destruct (begin_spook_stun_inv k d k1 Hinv Hd Hb) as (Hinv1 & Hu & _ & _). clear Hinv Hb k.
  assert (Hgen : forall k, foot_inv k -> foot_inputs_ok k ins ->
    (spook_stun_until k = Some (d + SPOOK_STUN_TICKS) \/
     spook_stun_until k = None /\ exists now, foot_current_tick k = Some now /\ d + SPOOK_STUN_TICKS <= now) ->
    (t, out) ∈ (foot_run k ins).2 ->
    if t <? d + SPOOK_STUN_TICKS
    then out_state out = SpookStunned /\ can_fire out = false /\ requested_velocity_mmps out = (0, 0)
    else out_state out <> SpookStunned); [|exact (Hgen k1 Hinv1 His (or_introl Hu) Hin)].
  clear Hin His Hu Hinv1 k1.
  induction ins as [|i ins IH]; intros k Hinv [Hok Hts] Hstun Hin; [by apply elem_of_nil in Hin|].
  apply Forall_cons in Hok as [Hi Hok]. destruct Hts as [Ht Hts]. simpl in Hin.
  destruct (foot_advance_tick_spec k i Hinv Hi Ht) as (k' & out' & Heq & Hinv' & Hcur & Hsh).
  rewrite Heq in Hin. destruct (foot_run k' ins) as [k2 outs] eqn:Hrun. simpl in Hin.
  assert (His' : foot_inputs_ok k' ins) by (split; [done|by rewrite Hcur]).
  specialize (IH k' Hinv' His'). rewrite Hrun in IH. simpl in IH.
  destruct Hstun as [Hu | (Hu & now & Hnow & Hle)]; rewrite Hu in Hsh.
  - destruct (foot_tick i <? d + SPOOK_STUN_TICKS) eqn:Hlt.
    + destruct Hsh as (_ & Hu' & Ho & Hf & Hv & _).
      apply elem_of_cons in Hin as [[= -> ->]|Hin]; [by rewrite Hlt|]. apply IH; [by left|done].
    + destruct Hsh as ((Ho & _) & Hns & Hu').
      apply elem_of_cons in Hin as [[= -> ->]|Hin]; [rewrite Hlt; congruence|].
      apply IH; [|done]. right. split; [done|]. exists (foot_tick i). split; [done|lia].
  - destruct Hsh as ((Ho & _) & Hns & Hu'). rewrite Hnow in Ht. destruct Ht as [Ht _]. simpl in Ht.
    apply elem_of_cons in Hin as [[= -> ->]|Hin].
    + replace (foot_tick i <? _) with false by lia. congruence.
    + apply IH; [|done]. right. split; [done|]. exists (foot_tick i). split; [done|lia].
Qed.

(** Continuous sprinting is bounded by the stamina store: no run of ticks
    that all answer [Sprinting] is longer than four seconds. *)
Theorem sprint_bounded ins k :
  foot_inv k -> foot_inputs_ok k ins ->
  Forall (fun '(_, out) => out_state out = Sprinting) (foot_run k ins).2 ->
  Z.of_nat (length ins) <= ON_FOOT_STAMINA_TICKS.
Proof.
  intros Hinv Hins Hall.
  assert (H : Z.of_nat (length ins) * ON_FOOT_STAMINA_REGEN_TICKS <= stamina_units k).
  { revert k Hinv Hins Hall. induction ins as [|i ins IH]; intros k Hinv [Hok Hts] Hall.
    { pose proof (foot_valid_facts k Hinv) as (? & _). simpl. lia. }
    apply Forall_cons in Hok as [Hi Hok]. destruct Hts as [Ht Hts]. simpl in Hall.
    destruct (foot_advance_tick_spec k i Hinv Hi Ht) as (k1 & out & Heq & Hinv1 & Hcur & Hsh).
    rewrite Heq in Hall. destruct (foot_run k1 ins) as [k2 outs] eqn:Hrun. simpl in Hall.
    apply Forall_cons in Hall as [Ho Hall].
    assert (Heff : awake_effect k k1 out).
    { destruct (spook_stun_until k) as [u|]; [destruct (_ <? u)|]; destruct_and?; congruence. }
    destruct Heff as (Hos & _ & _ & _ & _ & Hst & Hsp). rewrite Ho in Hos. symmetry in Hos.
    rewrite bool_decide_true in Hst by done. specialize (Hsp Hos).
    specialize (IH k1 Hinv1). rewrite Hrun in IH.
    specialize (IH ltac:(split; [done|by rewrite Hcur]) Hall). m3_consts. simpl length. lia. }
  pose proof (foot_valid_facts k Hinv) as (Hst & _).
  assert (HF : STAMINA_FULL = 86400) by done. m3_consts. lia.
Qed.

(** ** The tactical roll *)

(** Whether a tick started a roll, and the ticks of a run that did. *)
Definition rolled (k' : OnFootKernel) (t : SimulationTick) : bool :=
  bool_decide (roll_started_tick k' = Some t).

Fixpoint roll_starts (k : OnFootKernel) (ins : list OnFootTickInput) : list SimulationTick :=
  match ins with
  | [] => []
  | i :: ins =>
      let k1 := (foot_advance_tick k i).1 in
      (if rolled k1 (foot_tick i) then [foot_tick i] else []) ++ roll_starts k1 ins
  end.

(** A roll starts only from a sprint with a live buffered crouch, after the
    cooldown of the previous roll. *)
Definition roll_gate (k k' : OnFootKernel) (i : OnFootTickInput) : Prop :=
  if rolled k' (foot_tick i)
  then roll_cooldown_until k <= foot_tick i /\
       roll_cooldown_until k' = foot_tick i + TACTICAL_ROLL_COOLDOWN_TICKS /\
       sprint_pressed i = true /\ is_some (accepted_direction i) = true
  else roll_cooldown_until k' = roll_cooldown_until k.

Lemma advance_awake_roll_gate k i edge elapsed k' r :
  0 <= foot_tick i <= tick_horizon -> awake k (foot_tick i) false ->
  (foot_state k = Rolling -> forall s, roll_started_tick k = Some s -> s < foot_tick i) ->
  advance_awake k i edge elapsed = (k', r) -> roll_gate k k' i.
Proof.
  intros Ht Haw Hold. destruct (tick_horizon_u64 _ Ht) as [_ Hmax]. unfold advance_awake.
  apply (buffer_awake _ _ edge) in Haw. set (k0 := if edge then _ else k) in *.
  assert (H0 : foot_state k0 = foot_state k /\ roll_started_tick k0 = roll_started_tick k /\
    roll_cooldown_until k0 = roll_cooldown_until k) by (unfold k0; by destruct edge, k).
  clearbody k0. destruct H0 as (Hs0 & Hr0 & Hc0). rewrite <- Hs0, <- Hr0 in Hold.
  unfold roll_gate. rewrite <- Hc0. clear k Hs0 Hr0 Hc0.
  destruct (end_roll_awake k0 (foot_tick i) Haw) as (k1 & ended & Hend & Haw1 & _ & _ & Hc1 & _ & _).
  rewrite Hend.
  assert (Hold1 : forall s, roll_started_tick k1 = Some s -> s < foot_tick i).
  { intros s Hs. unfold end_roll in Hend.
    destruct Haw as (_ & _ & _ & _ & _ & _ & _ & _ & _ & Hph).
    destruct (foot_state k0) eqn:Hst; rewrite ?bool_decide_false, ?bool_decide_true in Hend by done;
      simplify_eq/=; try done; try congruence.
    destruct (roll_started_tick k0) as [s0|] eqn:Hs0; [|done].
    destruct (_ <=? _); simplify_eq/=; auto; congruence. }
  destruct (select_stance k1 i (accepted_direction i)) as [k2 paused] eqn:Hsel.
  assert (Hsp : roll_started_tick (spend_stamina k2) = roll_started_tick k2 /\
    roll_cooldown_until (spend_stamina k2) = roll_cooldown_until k2)
    by (unfold spend_stamina; by destruct (bool_decide _), k2).
  destruct Hsp as [Hsp1 Hsp2].
  destruct (stance_row _ _) as [[[speed dir] fire] sway]. intros [= <- _].
  set (v := next_velocity _ _ _ _). clearbody v.
  assert (Hf : rolled ((spend_stamina k2) <| velocity_mmps := v |>) (foot_tick i) = rolled k2 (foot_tick i) /\
    roll_cooldown_until ((spend_stamina k2) <| velocity_mmps := v |>) = roll_cooldown_until k2).
  { unfold rolled. rewrite <- Hsp1, <- Hsp2. by destruct (spend_stamina k2). }
  match goal with |- context [rolled ?x _] =>
    change x with ((spend_stamina k2) <| velocity_mmps := v |>) end.
  destruct Hf as [-> ->]. rewrite <- Hc1.
  assert (Hno : forall k3, roll_started_tick k3 = roll_started_tick k1 -> rolled k3 (foot_tick i) = false).
  { intros k3 Hk3. unfold rolled. rewrite Hk3. apply bool_decide_eq_false.
    intros Hx. specialize (Hold1 _ Hx). lia. }
  unfold select_stance in Hsel. destruct (bool_decide (foot_state k1 = Rolling)).
  { simplify_eq. by rewrite (Hno k2). }
  destruct (_ && _ && (roll_cooldown_until k1 <=? _)) eqn:Hgate.
  - simplify_eq/=. unfold rolled. simpl. rewrite bool_decide_true by done.
    apply andb_true_iff in Hgate as [[[[Hpress Hdir]%andb_true_iff _]%andb_true_iff _]%andb_true_iff Hcd].
    rewrite tick_saturating_add_exact by m3_lia. split_and!; try done. lia.
  - destruct (crouch_pressed i); [|destruct (sprint_pressed i && _ && _)]; injection Hsel as <- <-; by rewrite Hno by (by destruct k1).
Qed.

Lemma foot_advance_roll_gate k i :
  foot_inv k -> foot_input_ok i -> tick_after (foot_current_tick k) (foot_tick i) ->
  roll_gate k (foot_advance_tick k i).1 i.
Proof.
  intros Hinv Hi Ht. pose proof (foot_valid_facts k Hinv) as (_ & _ & _ & Hphase).
  destruct (tick_awake k (foot_tick i) (crouch_pressed i) Hinv Ht) as [Haw1 Haw2].
  destruct Hi as [Hrange _]. unfold foot_advance_tick. rewrite tick_after_accepted by done.
  set (elapsed := default 1 _). set (edge := crouch_pressed i && _). clearbody elapsed edge.
  set (k1 := k <| foot_current_tick := Some (foot_tick i) |>
               <| previous_crouch_level := crouch_pressed i |>) in *.
  assert (Hk1 : foot_state k1 = foot_state k /\ spook_stun_until k1 = spook_stun_until k /\
    roll_cooldown_until k1 = roll_cooldown_until k /\ roll_started_tick k1 = roll_started_tick k)
    by (by destruct k). destruct Hk1 as (Hs & Hu & Hc & Hr). rewrite Hs, Hu.
  destruct (decide (foot_state k = SpookStunned)) as [Hst|Hst].
  - rewrite Hst in Hphase. destruct Hphase as (Hrs & until & -> & _).
    rewrite bool_decide_true by done. destruct (_ <? until).
    + unfold roll_gate, rolled. simpl. rewrite bool_decide_false; [by destruct k|]. rewrite Hrs. done.
    + specialize (Haw2 Hst). set (k2 := k1 <| foot_state := Standing |> <| spook_stun_until := None |>) in *.
      destruct (advance_awake k2 i edge elapsed) as [k' r] eqn:Hadv. simpl.
      assert (Hg : roll_gate k2 k' i).
      { by eapply advance_awake_roll_gate. }
      exact Hg.
  - rewrite bool_decide_false by done. specialize (Haw1 Hst).
    destruct (advance_awake k1 i edge elapsed) as [k' r] eqn:Hadv. simpl.
    assert (Hg : roll_gate k1 k' i).
    { eapply advance_awake_roll_gate; [done|done| |exact Hadv]. rewrite Hs, Hr. intros Hroll s Hs'.
      rewrite Hroll in Hphase. destruct Hphase as (_ & _ & _ & s0 & now & Hs0 & Hnow & ? & _).
      rewrite Hnow in Ht. destruct Ht as [Ht _]. simpl in Ht. simplify_eq. lia. }
    unfold roll_gate in *. by rewrite Hc in Hg.
Qed.

(** Rolls are spaced by their cooldown: in any run, the ticks on which a
    tactical roll starts are at least [TACTICAL_ROLL_COOLDOWN_TICKS] apart. *)
Theorem roll_cooldown_spacing ins k :
  foot_inv k -> foot_inputs_ok k ins ->
  StronglySorted (fun a b => a + TACTICAL_ROLL_COOLDOWN_TICKS <= b) (roll_starts k ins) /\
  Forall (fun t => roll_cooldown_until k <= t) (roll_starts k ins).
Proof.
  revert k. induction ins as [|i ins IH]; intros k Hinv [Hok Hts]; simpl; [split; constructor|].
  apply Forall_cons in Hok as [Hi Hok]. destruct Hts as [Ht Hts].
  pose proof (foot_advance_roll_gate k i Hinv Hi Ht) as Hgate.
  destruct (foot_advance_tick_spec k i Hinv Hi Ht) as (k1 & out & Heq & Hinv1 & Hcur & _).
  rewrite Heq in *. simpl in *.
  destruct (IH k1 Hinv1) as [Hs Hall]; [split; [done|by rewrite Hcur]|].
  unfold roll_gate in Hgate. destruct (rolled k1 (foot_tick i)); simpl.
  - destruct Hgate as (Hle & Hcd & _). rewrite Hcd in Hall. m3_consts. split.
    + by constructor.
    + constructor; [done|]. eapply Forall_impl; [exact Hall|]. simpl. intros; lia.
  - by rewrite Hgate in Hall.
Qed.

End Runs.

(** ** The tolerance of a roll's direction *)

(** A direction one thousandth too long passes [is_normalized], and the roll it
    starts moves at 7,007 mm/s, above the bound of [state_is_valid]: the kernel
    accepts the tick, but a checkpoint taken during that roll is refused. *)
Definition overlong_input : OnFootTickInput :=
  mkOnFootTickInput 1 (Some (mkQuantizedDirection 1001000 0 0)) true true false.

Lemma overlong_roll_is_invalid :
  is_normalized (mkQuantizedDirection 1001000 0 0) = true /\
  foot_state_is_valid foot_default = true /\
  is_ok (foot_advance_tick foot_default overlong_input).2 = true /\
  foot_state (foot_advance_tick foot_default overlong_input).1 = Rolling /\
  velocity_mmps (foot_advance_tick foot_default overlong_input).1 = (7007, 0) /\
  foot_state_is_valid (foot_advance_tick foot_default overlong_input).1 = false.
Proof. by vm_compute. Qed.

(** ** Witnesses *)

Definition sprint_input (t : SimulationTick) (crouch : bool) : OnFootTickInput :=
  mkOnFootTickInput t (Some (mkQuantizedDirection 600000 0 (-800000))) true crouch false.

Definition roll_inputs : list OnFootTickInput :=
  [sprint_input 1 false; sprint_input 2 true; sprint_input 20 false; sprint_input 40 true;
   sprint_input 41 false; sprint_input 91 true; sprint_input 92 false; sprint_input 93 true].

Lemma sprint_input_ok (Directions : FootDirections) t c : 0 <= t <= tick_horizon -> foot_input_ok (sprint_input t c).
Proof. intros Ht. split; [done|]. intros _. by vm_compute. Qed.

Ltac sprint_inputs_ok :=
  repeat (apply Forall_cons; split; [apply sprint_input_ok; unfold tick_horizon; lia|]); by constructor.

Lemma roll_inputs_ok Directions : foot_inputs_ok (Directions := Directions) foot_default roll_inputs.
Proof.
  split; [|by vm_compute]. sprint_inputs_ok.
Qed.

Lemma foot_run_valid_witness : foot_state_is_valid (foot_run foot_default roll_inputs).1 = true.
Proof. by apply (foot_run_valid (Directions := true) roll_inputs foot_default foot_default_inv (roll_inputs_ok true)). Defined.

Lemma roll_cooldown_spacing_witness :
  roll_starts foot_default roll_inputs = [2; 92] /\
  StronglySorted (fun a b => a + TACTICAL_ROLL_COOLDOWN_TICKS <= b) (roll_starts foot_default roll_inputs).
Proof.
  split; [by vm_compute|].
  apply (roll_cooldown_spacing roll_inputs foot_default foot_default_inv (roll_inputs_ok _)).
Defined.

Definition sprint_inputs : list OnFootTickInput := [sprint_input 1 false; sprint_input 2 false].

Lemma sprint_bounded_witness : Z.of_nat (length sprint_inputs) <= 240.
Proof.
  assert (Hok : foot_inputs_ok foot_default sprint_inputs).
  { split; [|by vm_compute]. sprint_inputs_ok. }
  apply (sprint_bounded sprint_inputs foot_default foot_default_inv Hok).
  vm_compute. repeat constructor.
Defined.

Lemma spook_stun_exact_witness :
  let k1 := (begin_spook_stun foot_default 10).1 in
  let out := mkOnFootTickOutput SpookStunned StanceSpookStunned 0 (0, 0) 240 false false 1500 0 in
  (45, out) ∈ (foot_run k1 [sprint_input 45 false; sprint_input 46 false]).2 /\ can_fire out = false.
Proof.
  intros k1 out.
  assert (Hin : (45, out) ∈ (foot_run k1 [sprint_input 45 false; sprint_input 46 false]).2)
    by (vm_compute; left).
  split; [done|].
  assert (Hok : foot_inputs_ok k1 [sprint_input 45 false; sprint_input 46 false]).
  { split; [|by vm_compute]. sprint_inputs_ok. }
  destruct (spook_stun_exact foot_default 10 k1 [sprint_input 45 false; sprint_input 46 false] 45 out
    foot_default_inv ltac:(unfold tick_horizon; lia) eq_refl Hok Hin) as (_ & H & _). exact H.
Defined.
