(* ===== verification/ActorGameplay.v ===== *)
(** * The composed actor ([m3.rs], [ActorGameplayKernel])

    One rider: the horse, on-foot, recall and Spur kernels advanced together on
    the shared tick, the transactional horse damage, and the migration
    checkpoint with its cross-kernel validation. *)

From S2P Require Import Prelude MachineInt Ordered Clock WireVersion Spur Combat M3 HorseVitality Recall OnFoot.
Open Scope Z_scope.

Definition M3_WIRE_VERSION : WireVersion := mkWireVersion 2 0.

Inductive ActorM3Mode := ModeMounted | ModeSpookStunned | ModeOnFoot | ModeReturningHorse.
#[export] Instance ActorM3Mode_eq_dec : EqDecision ActorM3Mode.
Proof. solve_decision. Defined.

Record ActorM3TickInput := mkActorM3TickInput {
  in_tick : SimulationTick;
  in_on_foot : OnFootTickInput;
  interact_pressed : bool;
  spur_pressed : bool;
  mounted_for_spur : bool;
  rider_position : QuantizedOrigin;
  return_horse_position : QuantizedOrigin;
  return_horse_moving : bool;
}.

Record ActorM3TickOutput := mkActorM3TickOutput {
  out_mode : ActorM3Mode;
  out_on_foot : option OnFootTickOutput;
  out_recall : option RecallTickOutput;
  horse_despawned : bool;
  remounted : bool;
  out_running_mount : bool;
  out_spur : SpurTickOutput;
}.

Record ActorGameplayKernel := mkActorGameplayKernel {
  actor_current_tick : option SimulationTick;
  horse : HorseVitalityKernel;
  on_foot : OnFootKernel;
  recall : RecallKernel;
  horse_loss_tick : option SimulationTick;
  pending_horse_loss_effects : option HorseDamageEffects;
  spur : SpurKernel;
}.

#[export] Instance eta_ActorGameplayKernel : Settable ActorGameplayKernel := fun k =>
  mkActorGameplayKernel (actor_current_tick k) (horse k) (on_foot k) (recall k) (horse_loss_tick k)
    (pending_horse_loss_effects k) (spur k).
#[export] Instance ActorGameplayKernel_eq_dec : EqDecision ActorGameplayKernel.
Proof. solve_decision. Defined.

Record ActorGameplayCheckpointV2 := mkActorGameplayCheckpointV2 {
  checkpoint_wire_version : WireVersion;
  checkpoint_actor : ActorGameplayKernel;
}.
#[export] Instance ActorGameplayCheckpointV2_eq_dec : EqDecision ActorGameplayCheckpointV2.
Proof. solve_decision. Defined.

Inductive M3CheckpointError := WireVersionMismatch | InvalidCheckpointState.

Definition actor_new (c : HorseVitalityClass) : ActorGameplayKernel :=
  mkActorGameplayKernel None (horse_new c) foot_default recall_default None None spur_default.

Definition respawn (self : ActorGameplayKernel) : ActorGameplayKernel :=
  let current_tick := actor_current_tick self in
  let fresh := actor_new (class (horse self)) in
  fresh <| actor_current_tick := current_tick |>
        <| horse := (horse fresh) <| horse_current_tick := current_tick |> |>
        <| on_foot := (on_foot fresh) <| foot_current_tick := current_tick |> |>
        <| recall := (recall fresh) <| recall_current_tick := current_tick |> |>
        <| spur := spur self |>.

Definition acknowledge_horse_loss_effects (self : ActorGameplayKernel) (id : HorseDamageId)
    : ActorGameplayKernel * bool :=
  match pending_horse_loss_effects self ≫= horse_bolted with
  | None => (self, false)
  | Some event =>
      if bool_decide (event_id event <> id) then (self, false)
      else (self <| pending_horse_loss_effects := None |>, true)
  end.

Definition checkpoint (self : ActorGameplayKernel) : ActorGameplayCheckpointV2 :=
  mkActorGameplayCheckpointV2 M3_WIRE_VERSION self.

Definition cross_kernel_valid (actor : ActorGameplayKernel) : bool :=
  match horse_state (horse actor) with
  | Available =>
      bool_decide (recall_state (recall actor) = HorsePresent) && is_none (horse_loss_tick actor)
  | Bolting =>
      bool_decide (recall_state (recall actor) = HorsePresent)
      && bool_decide (horse_loss_tick actor = bolt_started_tick (horse actor))
  | Despawned =>
      bool_decide (recall_state (recall actor) <> HorsePresent)
      && bool_decide (horse_loss_tick actor = recall_horse_loss_tick (recall actor))
  end.

Definition pending_valid (actor : ActorGameplayKernel) : bool :=
  is_none_or (pending_horse_loss_effects actor) (fun effects =>
    let app := application effects in
    is_some_and (horse_bolted effects) (fun event =>
      (0 <? health_before app)
      && (health_after app =? 0)
      && spooked app
      && bool_decide (app_bolt_away_delta_mm app = bolt_away_delta_mm (horse actor))
      && (rider_throw_distance_mm app =? SPOOK_THROW_DISTANCE_MM)
      && (rider_stun_ticks app =? SPOOK_STUN_TICKS)
      && negb (rider_fall_damage app)
      && bool_decide (Some (event_id event) = last_damage_id (horse actor))
      && bool_decide (event_class event = class (horse actor))
      && bool_decide (event_bolt_away_delta_mm event = bolt_away_delta_mm (horse actor))
      && (notification_points event =? 15)
      && bool_decide (Some (receipt_tick (event_id event))
           = (match recall_horse_loss_tick (recall actor) with
              | Some t => Some t | None => horse_loss_tick actor end)))).

Definition restore_checkpoint (c : ActorGameplayCheckpointV2)
    : result ActorGameplayKernel M3CheckpointError :=
  if bool_decide (checkpoint_wire_version c <> M3_WIRE_VERSION) then Err WireVersionMismatch
  else
    let actor := checkpoint_actor c in
    if negb (horse_state_is_valid (horse actor))
       || negb (foot_state_is_valid (on_foot actor))
       || negb (recall_state_is_valid (recall actor))
       || negb (state_is_valid (spur actor))
       || negb (tick_is_not_after (horse_current_tick (horse actor)) (actor_current_tick actor))
       || negb (tick_is_not_after (foot_current_tick (on_foot actor)) (actor_current_tick actor))
       || negb (tick_is_not_after (recall_current_tick (recall actor)) (actor_current_tick actor))
       || negb (tick_is_not_after (spur_current_tick (spur actor)) (actor_current_tick actor))
    then Err InvalidCheckpointState
    else if negb (cross_kernel_valid actor) || negb (pending_valid actor)
    then Err InvalidCheckpointState
    else Ok actor.

(** [Deserialize for ActorGameplayCheckpointV2]: a decoded checkpoint is kept
    only when [restore_checkpoint] accepts it. *)
Definition deserialize_checkpoint (raw : ActorGameplayCheckpointV2)
    : result ActorGameplayCheckpointV2 M3CheckpointError :=
  match restore_checkpoint raw with Ok _ => Ok raw | Err e => Err e end.

Definition mode (self : ActorGameplayKernel) : ActorM3Mode :=
  if bool_decide (horse_state (horse self) = Available) then ModeMounted
  else if bool_decide (foot_state (on_foot self) = SpookStunned) then ModeSpookStunned
  else match recall_state (recall self) with
       | Hoofbeats | DustReveal | GallopIn | MountWindow | WaitingMount => ModeReturningHorse
       | _ => ModeOnFoot
       end.

Definition apply_horse_damage (self : ActorGameplayKernel) (command : HorseDamageCommand)
    : ActorGameplayKernel * option HorseDamageEffects :=
  if is_some_and (actor_current_tick self)
       (fun current => negb (receipt_tick (damage_id command) =? current))
  then (self, None)
  else
    match apply_damage (horse self) command with
    | (_, None) => (self, None)
    | (horse', Some app) =>
        let commit foot bolted :=
          let effects := mkHorseDamageEffects app bolted in
          let self := self <| horse := horse' |> <| on_foot := foot |> in
          let self :=
            if spooked app
            then self <| horse_loss_tick := Some (receipt_tick (damage_id command)) |>
                      <| pending_horse_loss_effects := Some effects |>
            else self in
          (self, Some effects) in
        if spooked app then
          match begin_spook_stun (on_foot self) (receipt_tick (damage_id command)) with
          | (_, false) => (self, None)
          | (foot', true) =>
              commit foot' (Some (mkHorseBoltedEvent (damage_id command) (class horse')
                                    (app_bolt_away_delta_mm app) 15))
          end
        else commit (on_foot self) None
    end.

Definition apply_recall_credit (self : ActorGameplayKernel) (command : RecallCreditCommand)
    : ActorGameplayKernel * bool :=
  let '(r, ok) := recall_apply_credit (recall self) command in (self <| recall := r |>, ok).

Definition apply_spur_credit (self : ActorGameplayKernel) (command : SpurCreditCommand)
    : ActorGameplayKernel * option Z :=
  let '(s, points) := Spur.apply_credit (spur self) command in (self <| spur := s |>, points).

(** ** The actor's tick *)

Local Open Scope step_scope.

Abbreviation actor_step := (M ActorGameplayKernel M3Error) (only parsing).

Definition lift_horse {A} (m : M HorseVitalityKernel M3Error A) : actor_step A := fun self =>
  let '(h, r) := m (horse self) in (self <| horse := h |>, r).
Definition lift_recall {A} (m : M RecallKernel M3Error A) : actor_step A := fun self =>
  let '(k, r) := m (recall self) in (self <| recall := k |>, r).
Definition lift_foot {A} (m : M OnFootKernel M3Error A) : actor_step A := fun self =>
  let '(k, r) := m (on_foot self) in (self <| on_foot := k |>, r).

(** A despawn reported by the horse starts the recall. *)
Definition begin_recall (despawn : option SimulationTick) : actor_step unit :=
  match despawn with
  | None => sret tt
  | Some despawn_tick =>
      let* self := sget in
      match horse_loss_tick self with
      | None => sfail InvalidState
      | Some loss => lift_recall (fun k => lose_horse k despawn_tick loss)
      end
  end.

Definition spur_context (self : ActorGameplayKernel) (input : ActorM3TickInput) : SpurSpendContext :=
  if bool_decide (horse_state (horse self) = Available) && mounted_for_spur input then SpendMounted
  else if bool_decide (horse_state (horse self) = Despawned)
          && bool_decide (recall_state (recall self) = CoolingDown \/ recall_state (recall self) = Ready)
  then HorseAbsent
  else Ineligible.

(** The Spur kernel's tick, its only error mapped to [TickReplay]. *)
Definition advance_spur (input : ActorM3TickInput) : actor_step SpurTickOutput := fun self =>
  let '(k, r) := Spur.advance_tick (spur self) (in_tick input) (spur_pressed input)
                   (spur_context self input) in
  (self <| spur := k |>, match r with Ok out => Ok out | Err _ => Err TickReplay end).

Definition advance_on_foot (input : ActorM3TickInput) : actor_step (option OnFootTickOutput) :=
  let* self := sget in
  if bool_decide (horse_state (horse self) = Available) then sret None
  else let* out := lift_foot (fun k => foot_advance_tick k (in_on_foot input)) in sret (Some out).

Definition advance_recall (input : ActorM3TickInput) (despawn : option SimulationTick)
    : actor_step (option RecallTickOutput) :=
  let tick := in_tick input in
  let* self := sget in
  match despawn with
  | Some despawn_tick =>
      if despawn_tick <? tick
      then let* out := lift_recall (fun k => recall_advance_tick k tick) in sret (Some out)
      else sret (Some (mkRecallTickOutput (recall_state (recall self)) (ready_tick (recall self))
                         (default 0 (ready_tick (recall self)
                                     ≫= (fun ready => checked_duration_since ready tick))) false))
  | None =>
      if bool_decide (horse_state (horse self) = Despawned)
      then let* out := lift_recall (fun k => recall_advance_tick k tick) in
           let* self := sget in
           sret (Some (mkRecallTickOutput (recall_state (recall self)) (recall_out_ready_tick out)
                         (cooldown_remaining_ticks out) (mount_window_opened out)))
      else sret None
  end.

(** [output.state = self.recall.state()] for a present output. *)
Definition with_recall_state (self : ActorGameplayKernel) (r : option RecallTickOutput)
    : option RecallTickOutput :=
  (fun out => mkRecallTickOutput (recall_state (recall self)) (recall_out_ready_tick out)
                (cooldown_remaining_ticks out) (mount_window_opened out)) <$> r.

Definition request_return (input : ActorM3TickInput) (spur_out : SpurTickOutput)
    (r : option RecallTickOutput) : actor_step (option RecallTickOutput) :=
  let* self := sget in
  if bool_decide (spend spur_out = Some InstantMajesticReturn) then
    let* ok := lift_recall (fun k => let '(k', ok) := request_recall_instant k (in_tick input) in (k', Ok ok)) in
    if negb ok then sfail InvalidState
    else let* self := sget in sret (with_recall_state self r)
  else if spur_pressed input && bool_decide (recall_state (recall self) = Ready) then
    let* _ok := lift_recall (fun k => let '(k', ok) := request_recall k (in_tick input) in (k', Ok ok)) in
    let* self := sget in sret (with_recall_state self r)
  else sret r.

Definition try_remount (input : ActorM3TickInput) : actor_step bool :=
  let* self := sget in
  if bool_decide (recall_state (recall self) = MountWindow \/ recall_state (recall self) = WaitingMount)
     && interact_pressed input
  then
    let* mounted := lift_recall (fun k =>
      let '(k', ok) := try_mount k (in_tick input) (rider_position input)
                         (return_horse_position input) (return_horse_moving input) in (k', Ok ok)) in
    if mounted
    then sbind (smodify (fun self =>
           self <| horse := (restore_returned_horse (horse self)).1 |>
                <| on_foot := foot_default |>
                <| horse_loss_tick := None |>)) (fun _ => sret true)
    else sret false
  else sret false.

Definition finish_tick (input : ActorM3TickInput) (despawn : option SimulationTick)
    (foot_out : option OnFootTickOutput) (recall_out : option RecallTickOutput)
    (spur_out : SpurTickOutput) : actor_step ActorM3TickOutput :=
  let* before := sget in
  let running_mount_candidate :=
    bool_decide (recall_state (recall before) = MountWindow) && return_horse_moving input in
  let* mounted := try_remount input in
  let* self := sget in
  sret (mkActorM3TickOutput (mode self) (if mounted then None else foot_out)
          (if mounted then None else recall_out) (is_some despawn) mounted
          (mounted && running_mount_candidate) spur_out).

Definition actor_advance_tick (self : ActorGameplayKernel) (input : ActorM3TickInput)
    : ActorGameplayKernel * result ActorM3TickOutput M3Error :=
  if negb (foot_tick (in_on_foot input) =? in_tick input)
     || is_some_and (actor_current_tick self) (fun current => in_tick input <=? current)
  then (self, Err TickReplay)
  else
    (let* despawn := lift_horse (fun h => horse_advance_tick h (in_tick input)) in
     do* begin_recall despawn in
     let* spur_out := advance_spur input in
     let* foot_out := advance_on_foot input in
     let* recall_out := advance_recall input despawn in
     let* recall_out := request_return input spur_out recall_out in
     finish_tick input despawn foot_out recall_out spur_out)
      (self <| actor_current_tick := Some (in_tick input) |>).

(** ** Invariant *)

Section Runs.
Context {Directions : FootDirections}.

(** While the rider is mounted the on-foot kernel is the default one, its clock
    apart. *)
Definition foot_idle (f : OnFootKernel) : Prop :=
  f = foot_default <| foot_current_tick := foot_current_tick f |>.

Definition actor_inv (a : ActorGameplayKernel) : Prop :=
  horse_inv (horse a) /\ foot_inv (on_foot a) /\ recall_inv (recall a) /\ spur_inv (spur a) /\
  horse_current_tick (horse a) = actor_current_tick a /\
  spur_current_tick (spur a) = actor_current_tick a /\
  tick_is_not_after (foot_current_tick (on_foot a)) (actor_current_tick a) = true /\
  tick_is_not_after (recall_current_tick (recall a)) (actor_current_tick a) = true /\
  cross_kernel_valid a = true /\
  (horse_state (horse a) = Available -> foot_idle (on_foot a)) /\
  (horse_state (horse a) = Despawned -> recall_current_tick (recall a) = actor_current_tick a).

Definition actor_input_ok (a : ActorGameplayKernel) (i : ActorM3TickInput) : Prop :=
  foot_tick (in_on_foot i) = in_tick i /\ foot_input_ok (in_on_foot i) /\
  tick_after (actor_current_tick a) (in_tick i).

Lemma recall_default_inv now : opt_u64 now -> recall_inv (recall_default <| recall_current_tick := now |>).
Proof. intros H. split; [|done]. unfold recall_typed. simpl. split_and!; done || lia. Qed.

Lemma foot_idle_inv f : foot_idle f -> opt_u64 (foot_current_tick f) -> foot_inv f.
Proof.
  intros Hf H. rewrite Hf. unfold foot_inv, foot_typed. simpl. split_and!; try done; try lia.
Qed.

Lemma actor_new_inv c : actor_inv (actor_new c).
Proof.
  unfold actor_inv. simpl. split; [apply horse_new_inv|]. split; [apply foot_default_inv|].
  split; [by apply (recall_default_inv None)|]. split; [apply spur_default_inv|]. by split_and!.
Qed.

Lemma respawn_inv a : actor_inv a -> actor_inv (respawn a).
Proof.
  intros (Hh & _ & _ & Hs & Hht & Hst & _). unfold actor_inv, respawn. simpl.
  assert (Hnow : opt_u64 (actor_current_tick a)).
  { rewrite <- Hht. by destruct Hh as [(_ & _ & _ & _ & ? & _) _]. }
  assert (Hrefl : tick_is_not_after (actor_current_tick a) (actor_current_tick a) = true)
    by (destruct (actor_current_tick a); simpl; [lia|done]).
  split; [|split; [by apply foot_idle_inv|split; [by apply recall_default_inv|by split_and!]]].
  destruct (horse_new_inv (class (horse a))) as [Ht Hv]. split.
  - unfold horse_typed in *. simpl in *. by destruct_and?; split_and!.
  - apply horse_state_is_valid_true. apply horse_state_is_valid_true in Hv.
    unfold horse_state_facts in *. simpl in *. by destruct_and?; split_and!.
Qed.

Lemma acknowledge_inv a id : actor_inv a -> actor_inv (acknowledge_horse_loss_effects a id).1.
Proof.
  intros H. unfold acknowledge_horse_loss_effects. destruct (_ ≫= _); [|done].
  by destruct (bool_decide _).
Qed.

Lemma apply_spur_credit_inv a c :
  actor_inv a -> receipt_ok (credit_id c) -> actor_inv (apply_spur_credit a c).1.
Proof.
  intros Ha Hc. pose proof Ha as (_ & _ & _ & Hs & _). unfold apply_spur_credit.
  destruct (apply_credit_cases (spur a) c Hs Hc) as [[Hn Hk]|(p & Hn & Hp & Heff)];
    destruct (Spur.apply_credit (spur a) c) as [k r]; simpl in *; subst.
  - by destruct a.
  - pose proof (credit_effect_inv _ _ _ _ Hs Hc Hp Heff) as Hs'.
    assert (Ht : spur_current_tick k = spur_current_tick (spur a)).
    { destruct Heff as (? & _ & _ & _ & _ & _ & ->). by destruct (spur a). }
    unfold actor_inv, cross_kernel_valid in *. simpl. rewrite Ht. tauto.
Qed.

Lemma apply_recall_credit_inv a c :
  actor_inv a -> recall_command_ok c -> actor_inv (apply_recall_credit a c).1.
Proof.
  intros Ha Hc. pose proof Ha as (_ & _ & Hr & _). unfold apply_recall_credit.
  pose proof (recall_apply_credit_inv (recall a) c Hr Hc) as Hr'.
  destruct (recall_apply_credit_cases (recall a) c Hr Hc) as [Heq|(k' & Heq & Hst & _ & _ & Hk')];
    rewrite Heq in *; simpl in *.
  - by destruct a.
  - assert (Hsame : recall_current_tick k' = recall_current_tick (recall a) /\
      recall_state k' = recall_state (recall a) /\
      recall_horse_loss_tick k' = recall_horse_loss_tick (recall a))
      by (rewrite Hk'; by destruct (recall a)).
    destruct Hsame as (H1 & H2 & H3). unfold actor_inv, cross_kernel_valid in *. simpl.
    rewrite H1, H2, H3. tauto.
Qed.

(** ** Damage *)

Lemma horse_damage_spec a c a' r :
  actor_inv a -> command_ok c -> 0 <= receipt_tick (damage_id c) <= tick_horizon ->
  actor_current_tick a <> None -> apply_horse_damage a c = (a', r) ->
  actor_inv a' /\ actor_current_tick a' = actor_current_tick a /\
  match r with
  | None => a' = a
  | Some effects =>
      spooked (application effects) = (health (horse a) <=? amount c) /\
      is_some (horse_bolted effects) = (health (horse a) <=? amount c) /\
      (if health (horse a) <=? amount c
       then horse_state (horse a') = Bolting /\ foot_state (on_foot a') = SpookStunned /\
            horse_loss_tick a' = Some (receipt_tick (damage_id c)) /\
            pending_horse_loss_effects a' = Some effects /\ mode a' = ModeSpookStunned
       else horse_state (horse a') = Available /\ on_foot a' = on_foot a)
  end.
Proof.
  intros Ha Hc Hrange Hnone. unfold apply_horse_damage.
  destruct (is_some_and _ _) eqn:Hguard; [by intros [= <- <-]|].
  destruct (actor_current_tick a) as [now|] eqn:Hnow; [|done]. clear Hnone. simpl in Hguard.
  assert (Hid : receipt_tick (damage_id c) = now) by (apply negb_false_iff in Hguard; lia).
  pose proof Ha as (Hh & Hf & Hr & Hs & Hht & Hst & Hft & Hrt & Hx & Hidle & Hdes).
  rewrite Hnow in *.
  pose proof (apply_damage_inv (horse a) c Hh Hc ltac:(by rewrite Hht)) as Hh'.
  destruct (apply_damage (horse a) c) as [h' [app|]] eqn:Happ; [|by intros [= <- <-]].
  simpl in Hh'.
  destruct (apply_damage_accepted (horse a) c h' app now Hh Hc Hht Happ)
    as (Hav & _ & _ & _ & Hcur' & _ & _ & _ & _ & _ & Hsp & Hst' & Hb' & _).
  specialize (Hidle Hav).
  unfold cross_kernel_valid in Hx. rewrite Hav in Hx.
  apply andb_true_iff in Hx as [Hpres Hloss].
  destruct (spooked app) eqn:Hspk.
  - destruct (begin_spook_stun (on_foot a) (receipt_tick (damage_id c))) as [f' [|]] eqn:Hstun;
      [|intros [= <- <-]; done].
    destruct (begin_spook_stun_inv _ _ _ Hf Hrange Hstun) as (Hf' & _ & Hfs & Hfc).
    intros [= <- <-]. simpl. rewrite <- Hsp. split_and!; try done.
    + unfold actor_inv, cross_kernel_valid. simpl. rewrite Hnow, Hst', Hfc, Hb', Hid.
      split_and!; try done. rewrite Hpres. simpl. by apply bool_decide_eq_true.
    + unfold mode. simpl. rewrite Hst', Hfs. done.
  - intros [= <- <-]. simpl. rewrite <- Hsp. split_and!; try done.
    unfold actor_inv, cross_kernel_valid. simpl. rewrite Hnow, Hst'. split_and!; try done.
    by rewrite Hpres.
Qed.

(** Horse damage is transactional: a refused command leaves the whole actor
    unchanged; an accepted one keeps the actor's invariant, and reports a bolt
    event exactly when it empties the horse, in which case the rider is stunned
    on the same tick and the loss recorded. *)
Theorem horse_damage_transactional a c a' r :
  actor_inv a -> command_ok c -> 0 <= receipt_tick (damage_id c) <= tick_horizon ->
  actor_current_tick a <> None -> apply_horse_damage a c = (a', r) ->
  actor_inv a' /\
  match r with
  | None => a' = a
  | Some effects =>
      spooked (application effects) = (health (horse a) <=? amount c) /\
      is_some (horse_bolted effects) = (health (horse a) <=? amount c) /\
      (if health (horse a) <=? amount c
       then horse_state (horse a') = Bolting /\ foot_state (on_foot a') = SpookStunned /\
            horse_loss_tick a' = Some (receipt_tick (damage_id c)) /\
            pending_horse_loss_effects a' = Some effects /\ mode a' = ModeSpookStunned
       else horse_state (horse a') = Available /\ on_foot a' = on_foot a)
  end.
Proof.
  intros Ha Hc Ht Hn Hd. destruct (horse_damage_spec a c a' r Ha Hc Ht Hn Hd) as (H1 & _ & H2). done.
Qed.

(** ** Ticks *)

Lemma sbind_ok {S E A B} (m : M S E A) (k : A -> M S E B) s s' a :
  m s = (s', Ok a) -> sbind m k s = k a s'.
Proof. unfold sbind. by intros ->. Qed.

(** A Spur tick that is not a replay is answered; the instant return is offered
    only in the context of an absent horse. *)
Lemma spur_tick_ok k t p ctx :
  spur_inv k -> tick_after (spur_current_tick k) t ->
  exists k' out, Spur.advance_tick k t p ctx = (k', Ok out) /\ spur_inv k' /\
    spur_current_tick k' = Some t /\ (spend out = Some InstantMajesticReturn -> ctx = HorseAbsent).
Proof.
  intros Hinv Ht. pose proof Ht as [Hn Hmax].
  assert (Hrange : 0 <= t < u64_max).
  { unfold tick_horizon in Hmax. change (2 ^ 60) with 1152921504606846976 in Hmax.
    destruct (spur_current_tick k); simpl in Hn; int_lia. }
  pose proof (advance_tick_inv k t p ctx Hinv Hrange) as Hinv'.
  unfold Spur.advance_tick in *. rewrite tick_after_accepted in * by done.
  destruct k as [now m style last next held start end_]. simpl in *.
  destruct (is_some_and end_ _); simpl in *; destruct (_ && _ && _); try destruct ctx;
    eexists _, _; (split; [reflexivity|]); by split_and!.
Qed.

(** The parts of the actor's state that a tick keeps consistent after the horse
    and the recall have started it: what [finish_tick] needs to restore the
    invariant. *)
Definition core (a : ActorGameplayKernel) (t : SimulationTick) : Prop :=
  actor_current_tick a = Some t /\ horse_inv (horse a) /\ recall_inv (recall a) /\
  horse_current_tick (horse a) = Some t /\
  tick_is_not_after (recall_current_tick (recall a)) (Some t) = true /\
  cross_kernel_valid a = true /\
  (horse_state (horse a) = Available -> foot_idle (on_foot a)).

(** The recall's clock before it advances: at the despawn just reported, or
    strictly behind the tick. *)
Definition recall_behind (a : ActorGameplayKernel) (t : SimulationTick)
    (despawn : option SimulationTick) : Prop :=
  match despawn with
  | Some d => horse_state (horse a) = Despawned /\ recall_current_tick (recall a) = Some d /\ 0 <= d <= t
  | None => horse_state (horse a) = Despawned ->
      exists n, recall_current_tick (recall a) = Some n /\ 0 <= n < t
  end.

Lemma recall_in_progress_clock k :
  recall_inv k -> recall_state k <> HorsePresent -> exists n, recall_current_tick k = Some n /\ 0 <= n.
Proof.
  intros [(Hn & _) Hv] Hst. apply (recall_state_is_valid_true k Hst) in Hv
    as (_ & _ & _ & loss & lost & enter & now & run & _ & _ & _ & Hnow & _).
  rewrite Hnow in *. simpl in Hn. exists now. unfold in_uint in Hn. split; [done|lia].
Qed.

Lemma horse_stage a i :
  actor_inv a -> actor_input_ok a i ->
  exists a1 a2 despawn,
    lift_horse (fun h => horse_advance_tick h (in_tick i))
      (a <| actor_current_tick := Some (in_tick i) |>) = (a1, Ok despawn) /\
    begin_recall despawn a1 = (a2, Ok tt) /\
    core a2 (in_tick i) /\ recall_behind a2 (in_tick i) despawn /\
    on_foot a2 = on_foot a /\ spur a2 = spur a /\
    pending_horse_loss_effects a2 = pending_horse_loss_effects a.
Proof.
  intros (Hh & Hf & Hr & Hs & Hht & Hst & Hft & Hrt & Hx & Hidle & Hdes) (_ & _ & Ht).
  rewrite <- Hht in Ht. pose proof (horse_advance_tick_inv (horse a) (in_tick i) Hh Ht) as Hh'.
  pose proof (horse_current_tick_advance (horse a) (in_tick i) Hh Ht) as Hc'.
  assert (Hrt' : tick_is_not_after (recall_current_tick (recall a)) (Some (in_tick i)) = true).
  { destruct Ht as [Ht _]. rewrite Hht in Ht.
    destruct (recall_current_tick (recall a)), (actor_current_tick a); simpl in *; try done; lia. }
  rewrite Hht in Ht.
  pose proof (horse_advance_tick_eq (horse a) (in_tick i) Hh ltac:(by rewrite Hht)) as Heq.
  unfold cross_kernel_valid in Hx. unfold lift_horse. simpl.
  destruct (horse_state (horse a)) eqn:Hstate; cbv zeta in Heq.
  - destruct (regenerate_state ((horse a) <| horse_current_tick := Some (in_tick i) |>)
      (horse_current_tick (horse a)) (in_tick i)) as [Hrs _].
    assert (Hav : horse_state (horse_advance_tick (horse a) (in_tick i)).1 = Available)
      by (rewrite Heq; cbn [fst]; etrans; [exact Hrs | by destruct (horse a)]).
    destruct (horse_advance_tick (horse a) (in_tick i)) as [h' r]. injection Heq as _ ->. simpl in *.
    eexists _, _, None. split; [reflexivity|]. split; [reflexivity|].
    unfold core, recall_behind, cross_kernel_valid. simpl. rewrite Hav. by split_and!.
  - apply andb_true_iff in Hx as [Hpres Hloss].
    apply bool_decide_eq_true in Hpres. apply bool_decide_eq_true in Hloss.
    destruct Hh as [Hhty Hhv]. apply horse_state_is_valid_true in Hhv as (_ & _ & _ & _ & _ & _ & Hfacts).
    unfold horse_state_facts in Hfacts. rewrite Hstate in Hfacts. destruct Hfacts as (_ & s & Hb & _).
    destruct Hhty as (_ & _ & Hs64 & _). rewrite Hb in *. simpl in Heq, Hs64.
    destruct (HORSE_BOLT_TICKS <=? in_tick i - s) eqn:Hend; rewrite Heq in *; simpl in *.
    + destruct Ht as [_ Hmax]. unfold tick_horizon in Hmax. change (2 ^ 60) with 1152921504606846976 in Hmax.
      set (d := s + HORSE_BOLT_TICKS) in *.
      assert (Hd : d = s + 180 /\ d <= in_tick i) by (unfold d; m3_lia). clearbody d. clear Heq.
      destruct (lose_horse_inv (recall a) d s Hpres) as [Hok Hinv']; [int_lia|int_lia|].
      assert (Hlh : recall_state (lose_horse (recall a) d s).1 = CoolingDown /\
        recall_current_tick (lose_horse (recall a) d s).1 = Some d /\
        recall_horse_loss_tick (lose_horse (recall a) d s).1 = Some s).
      { unfold lose_horse in *. by destruct (_ || _). }
      destruct (lose_horse (recall a) d s) as [k' r'] eqn:Hlose. cbn [fst snd] in *. subst r'.
      eexists _, _, (Some d). split; [reflexivity|].
      split; [unfold begin_recall, sbind, sget, lift_recall; simpl; rewrite Hloss; simpl; rewrite Hlose; reflexivity|].
      destruct Hlh as (H1 & H2 & H3).
      unfold core, recall_behind, cross_kernel_valid. simpl. rewrite ?H1, ?H2, ?H3, ?Hloss.
      rewrite !bool_decide_true by done. simpl.
      split_and!; try done; try int_lia.
    + eexists _, _, None. split; [reflexivity|]. split; [reflexivity|].
      unfold core, recall_behind, cross_kernel_valid. simpl. rewrite Hstate, Hb, Hpres, Hloss.
      rewrite !bool_decide_true by done. split_and!; try done. by rewrite <- Hstate, <- Hb.
  - apply andb_true_iff in Hx as [Hnp Hloss]. rewrite Heq in *. simpl in *.
    destruct (recall_in_progress_clock (recall a) Hr ltac:(by apply bool_decide_eq_true in Hnp))
      as (n & Hn & Hn0).
    eexists _, _, None. split; [reflexivity|]. split; [reflexivity|].
    assert (Hlt : 0 <= n < in_tick i).
    { rewrite (Hdes eq_refl) in Hn. rewrite Hn in Ht. destruct Ht as [Ht _]. exact Ht. }
    unfold core, recall_behind, cross_kernel_valid. simpl. rewrite Hstate, Hnp, Hloss.
    split_and!; try done; [by rewrite <- Hstate|]. intros _. by exists n.
Qed.

Definition waiting (k : RecallKernel) : Prop := recall_state k = CoolingDown \/ recall_state k = Ready.

Lemma spur_stage a i :
  spur_inv (spur a) -> tick_after (spur_current_tick (spur a)) (in_tick i) ->
  exists k' out, advance_spur i a = (a <| spur := k' |>, Ok out) /\ spur_inv k' /\
    spur_current_tick k' = Some (in_tick i) /\
    (spend out = Some InstantMajesticReturn -> horse_state (horse a) = Despawned /\ waiting (recall a)).
Proof.
  intros Hs Ht. unfold advance_spur.
  destruct (spur_tick_ok (spur a) (in_tick i) (spur_pressed i) (spur_context a i) Hs Ht)
    as (k' & out & -> & Hs' & Hc & Hctx).
  exists k', out. split_and!; try done. intros Hsp. specialize (Hctx Hsp). unfold spur_context in Hctx.
  destruct (_ && mounted_for_spur i); [done|]. destruct (_ && _) eqn:Habs; [|done].
  apply andb_true_iff in Habs as [H1 H2]. by rewrite bool_decide_eq_true in H1, H2.
Qed.

Lemma foot_stage a i :
  foot_inv (on_foot a) -> foot_input_ok (in_on_foot i) -> foot_tick (in_on_foot i) = in_tick i ->
  tick_after (foot_current_tick (on_foot a)) (in_tick i) ->
  exists f' fo, advance_on_foot i a = (a <| on_foot := f' |>, Ok fo) /\ foot_inv f' /\
    tick_is_not_after (foot_current_tick f') (Some (in_tick i)) = true /\
    (horse_state (horse a) = Available -> f' = on_foot a).
Proof.
  intros Hf Hi Heq Ht. unfold advance_on_foot, sbind, sget, lift_foot, sret.
  destruct (bool_decide _) eqn:Hav.
  - exists (on_foot a), None. split_and!; try done; [by destruct a|].
    destruct Ht as [Ht _]. destruct (foot_current_tick (on_foot a)); simpl in *; [lia|done].
  - apply bool_decide_eq_false in Hav.
    destruct (foot_advance_tick_spec (on_foot a) (in_on_foot i) Hf Hi ltac:(by rewrite Heq))
      as (f' & out & -> & Hf' & Hc & _).
    exists f', (Some out). rewrite Hc, Heq. split_and!; try done. simpl. lia.
Qed.

Lemma core_set_recall a t k' :
  core a t -> recall_inv k' -> tick_is_not_after (recall_current_tick k') (Some t) = true ->
  (recall_state k' = HorsePresent <-> recall_state (recall a) = HorsePresent) ->
  recall_horse_loss_tick k' = recall_horse_loss_tick (recall a) ->
  core (a <| recall := k' |>) t.
Proof.
  intros (H1 & H2 & H3 & H4 & H5 & H6 & H7) Hk Ht Hhp Hl. unfold core, cross_kernel_valid in *. simpl.
  rewrite Hl. split_and!; try done.
  destruct (horse_state (horse a)).
  - rewrite (bool_decide_ext _ _ Hhp). done.
  - rewrite (bool_decide_ext _ _ Hhp). done.
  - rewrite (bool_decide_ext _ (recall_state (recall a) <> HorsePresent)); [done|]. by rewrite Hhp.
Qed.

Lemma core_set_spur a t k' : core a t -> core (a <| spur := k' |>) t.
Proof. unfold core, cross_kernel_valid. by destruct a. Qed.

Lemma core_set_foot a t f' :
  core a t -> (horse_state (horse a) = Available -> f' = on_foot a) -> core (a <| on_foot := f' |>) t.
Proof.
  unfold core, cross_kernel_valid. destruct a; simpl. intros (H1 & H2 & H3 & H4 & H5 & H6 & H7) Hf.
  split_and!; try done. intros Hav. rewrite (Hf Hav). auto.
Qed.

Lemma core_despawned a t :
  core a t -> horse_state (horse a) = Despawned -> recall_state (recall a) <> HorsePresent.
Proof.
  intros (_ & _ & _ & _ & _ & Hx & _) Hd. unfold cross_kernel_valid in Hx. rewrite Hd in Hx.
  apply andb_true_iff in Hx as [Hx _]. by apply bool_decide_eq_true in Hx.
Qed.

Lemma recall_at_fields k t :
  recall_horse_loss_tick (recall_at k t) = recall_horse_loss_tick k /\
  recall_current_tick (recall_at k t) = Some t /\ (waiting k -> waiting (recall_at k t)).
Proof.
  unfold recall_at, waiting. destruct (phase_offset (recall_state k)) eqn:Hoff.
  - split_and!; try done. intros [Hw|Hw]; rewrite Hw in Hoff; done.
  - destruct (_ && _); split_and!; try done; simpl; auto.
Qed.

(** The recall advances to the tick whenever the horse is away. *)
Lemma recall_stage a i despawn :
  core a (in_tick i) -> recall_behind a (in_tick i) despawn -> in_tick i <= tick_horizon ->
  exists k' ro, advance_recall i despawn a = (a <| recall := k' |>, Ok ro) /\
    core (a <| recall := k' |>) (in_tick i) /\
    (horse_state (horse a) = Despawned ->
       recall_current_tick k' = Some (in_tick i) /\ (waiting (recall a) -> waiting k')).
Proof.
  intros Hcore Hbehind Hmax. pose proof Hcore as (_ & _ & Hr & _).
  assert (Hadv : forall n, horse_state (horse a) = Despawned ->
    recall_current_tick (recall a) = Some n -> 0 <= n < in_tick i ->
    exists out, recall_advance_tick (recall a) (in_tick i) = (recall_at (recall a) (in_tick i), Ok out) /\
      core (a <| recall := recall_at (recall a) (in_tick i) |>) (in_tick i)).
  { intros n Hd Hn Hlt. pose proof (core_despawned _ _ Hcore Hd) as Hnp.
    assert (Ht : tick_after (recall_current_tick (recall a)) (in_tick i))
      by (rewrite Hn; split; [done|done]).
    destruct (recall_advance_tick_eq (recall a) (in_tick i) Hr Hnp Ht) as (out & -> & _).
    destruct (recall_at_inv (recall a) (in_tick i) Hr Hnp Ht) as [Hr' Hnp'].
    destruct (recall_at_fields (recall a) (in_tick i)) as (Hl & Hc & _).
    exists out. split; [done|]. apply core_set_recall; try done. rewrite Hc. simpl. lia. }
  assert (Hsame : a <| recall := recall a |> = a) by (by destruct a).
  destruct (recall_at_fields (recall a) (in_tick i)) as (_ & Hc & Hw).
  unfold advance_recall, sbind, sget, lift_recall, sret. destruct despawn as [d|]; simpl in Hbehind.
  - destruct Hbehind as (Hd & Hn & Hle). destruct (d <? in_tick i) eqn:Hlt.
    + destruct (Hadv d Hd Hn ltac:(lia)) as (out & -> & Hcore'). eexists _, _. by split_and!.
    + eexists (recall a), _. rewrite Hsame. split; [reflexivity|]. split; [done|].
      intros _. split; [|done]. rewrite Hn. f_equal. lia.
  - destruct (bool_decide _) eqn:Hd.
    + apply bool_decide_eq_true in Hd. destruct (Hbehind Hd) as (n & Hn & Hlt).
      destruct (Hadv n Hd Hn Hlt) as (out & -> & Hcore'). eexists _, _. by split_and!.
    + apply bool_decide_eq_false in Hd. exists (recall a), None. rewrite Hsame. by split_and!.
Qed.

(** A request, granted or not, keeps the clock, the loss and the presence of a
    recall. *)
Lemma request_fields k t :
  (recall_current_tick (request_recall k t).1 = recall_current_tick k /\
   recall_horse_loss_tick (request_recall k t).1 = recall_horse_loss_tick k /\
   (recall_state (request_recall k t).1 = HorsePresent <-> recall_state k = HorsePresent)) /\
  (recall_current_tick (request_recall_instant k t).1 = recall_current_tick k /\
   recall_horse_loss_tick (request_recall_instant k t).1 = recall_horse_loss_tick k /\
   (recall_state (request_recall_instant k t).1 = HorsePresent <-> recall_state k = HorsePresent)).
Proof.
  unfold request_recall, request_recall_instant. split.
  - destruct (_ || _) eqn:Hg; [done|]. apply orb_false_iff in Hg as [Hs _].
    apply bool_decide_eq_false, dec_stable in Hs. simpl. by rewrite Hs.
  - destruct (_ || _) eqn:Hg; [done|]. apply orb_false_iff in Hg as [Hs _].
    apply negb_false_iff, bool_decide_eq_true in Hs. simpl. by destruct Hs as [-> | ->].
Qed.

Lemma request_stage a i spur_out ro :
  core a (in_tick i) ->
  (horse_state (horse a) = Despawned -> recall_current_tick (recall a) = Some (in_tick i)) ->
  (spend spur_out = Some InstantMajesticReturn -> horse_state (horse a) = Despawned /\ waiting (recall a)) ->
  exists k' ro', request_return i spur_out ro a = (a <| recall := k' |>, Ok ro') /\
    core (a <| recall := k' |>) (in_tick i) /\
    recall_current_tick k' = recall_current_tick (recall a).
Proof.
  intros Hcore Hsync Hinst. pose proof Hcore as (_ & _ & Hr & _ & Ht & _).
  destruct (request_fields (recall a) (in_tick i)) as [(Hc1 & Hl1 & Hp1) (Hc2 & Hl2 & Hp2)].
  pose proof (request_recall_inv (recall a) (in_tick i) Hr) as Hi1.
  pose proof (request_recall_instant_inv (recall a) (in_tick i) Hr) as Hi2.
  unfold request_return, sbind, sget, lift_recall, sret. destruct (bool_decide _) eqn:Hsp.
  - apply bool_decide_eq_true in Hsp. destruct (Hinst Hsp) as [Hd Hw].
    assert (Hok : (request_recall_instant (recall a) (in_tick i)).2 = true).
    { unfold request_recall_instant. rewrite (bool_decide_true (_ \/ _)) by done.
      rewrite bool_decide_false by (intros H; apply H; auto). done. }
    destruct (request_recall_instant (recall a) (in_tick i)) as [k' ok]. simpl in *. subst ok. simpl.
    eexists k', _. split; [reflexivity|]. split; [|done].
    apply core_set_recall; try done. by rewrite Hc2.
  - destruct (spur_pressed i && _).
    + destruct (request_recall (recall a) (in_tick i)) as [k' ok]. simpl in *.
      eexists k', _. split; [reflexivity|]. split; [|done].
      apply core_set_recall; try done. by rewrite Hc1.
    + exists (recall a), ro. assert (Hsame : a <| recall := recall a |> = a) by (by destruct a).
      rewrite Hsame. by split_and!.
Qed.

(** The remount: it restores a horse that has despawned, and no other. *)
Lemma remount_stage a i :
  core a (in_tick i) ->
  (horse_state (horse a) = Despawned -> recall_current_tick (recall a) = Some (in_tick i)) ->
  exists a' mounted, try_remount i a = (a', Ok mounted) /\ core a' (in_tick i) /\
    spur a' = spur a /\ pending_horse_loss_effects a' = pending_horse_loss_effects a /\
    (horse_state (horse a') = Despawned -> recall_current_tick (recall a') = Some (in_tick i)) /\
    (if mounted
     then horse_state (horse a) = Despawned /\ horse_state (horse a') = Available /\
          health (horse a') = max_health (class (horse a)) /\ on_foot a' = foot_default /\
          recall_state (recall a) = (if return_horse_moving i then MountWindow else WaitingMount) /\
          squared_distance_mm (rider_position i) (return_horse_position i)
            <= (if return_horse_moving i then RUNNING_MOUNT_RANGE_MM else STATIONARY_REMOUNT_RANGE_MM) ^ 2
     else a' = a).
Proof.
  intros Hcore Hsync. pose proof Hcore as (Hcur & Hh & Hr & Hht & Hrt & Hx & Hidle).
  unfold try_remount, sbind, sget, lift_recall, sret, smodify.
  destruct (_ && interact_pressed i) eqn:Hg; [|exists a, false; by split_and!].
  destruct (try_mount _ _ _ _ _) as [k' [|]] eqn:Hm.
  2:{ apply try_mount_refused in Hm.
      subst k'. exists a, false. split_and!; try done. by destruct a. }
  destruct (try_mount_spec _ _ _ _ _ _ Hr Hm)
    as (Hr' & Hnow & Hhp & Hst & Hdist & loss & Hloss & Htel & Hc' & Hl').
  assert (Hd : horse_state (horse a) = Despawned).
  { unfold cross_kernel_valid in Hx.
    destruct (horse_state (horse a)); [| |done]; apply andb_true_iff in Hx as [Hx _];
      apply bool_decide_eq_true in Hx; rewrite Hx in Hst; by destruct (return_horse_moving i). }
  simpl. eexists _, true. split; [reflexivity|]. unfold restore_returned_horse.
  rewrite bool_decide_false by (simpl; rewrite Hd; tauto). simpl.
  pose proof (max_health_range (class (horse a))) as Hmax.
  assert (Hh' : horse_inv ((horse a) <| health := max_health (class (horse a)) |>
      <| horse_state := Available |> <| bolt_started_tick := None |>
      <| bolt_away_delta_mm := (0, 1) |> <| regen_units := 0 |>)).
  { destruct Hh as [Hty Hv]. apply horse_state_is_valid_true in Hv as (_ & _ & ? & ? & _ & _ & _).
    split; [unfold horse_typed in *; simpl; destruct_and?; split_and!; done || lia|].
    apply horse_state_is_valid_true. unfold horse_state_facts. simpl. split_and!; try done; try lia. }
  assert (Hrefl : tick_is_not_after (recall_current_tick k') (Some (in_tick i)) = true)
    by (rewrite Hc'; simpl; lia).
  unfold core, cross_kernel_valid. simpl. rewrite Hhp. split_and!; try done.
Qed.

Lemma finish_stage a i despawn fo ro so :
  core a (in_tick i) -> foot_inv (on_foot a) ->
  tick_is_not_after (foot_current_tick (on_foot a)) (Some (in_tick i)) = true ->
  spur_inv (spur a) -> spur_current_tick (spur a) = Some (in_tick i) ->
  (horse_state (horse a) = Despawned -> recall_current_tick (recall a) = Some (in_tick i)) ->
  exists a' out, finish_tick i despawn fo ro so a = (a', Ok out) /\ actor_inv a' /\
    actor_current_tick a' = Some (in_tick i) /\ out_mode out = mode a' /\
    pending_horse_loss_effects a' = pending_horse_loss_effects a.
Proof.
  intros Hcore Hf Hft Hs Hst Hsync. unfold finish_tick, sbind, sget, sret.
  destruct (remount_stage a i Hcore Hsync) as (a' & mounted & -> & Hcore' & Hs' & Hp' & Hsync' & Hm).
  eexists a', _. split; [reflexivity|].
  assert (Hfoot : foot_inv (on_foot a') /\
    tick_is_not_after (foot_current_tick (on_foot a')) (Some (in_tick i)) = true).
  { destruct mounted; [|by subst a']. destruct Hm as (_ & _ & _ & -> & _).
    split; [apply foot_default_inv|done]. }
  destruct Hcore' as (Hcur & Hh & Hr & Hht & Hrt & Hx & Hidle). destruct Hfoot as [Hf1 Hf2].
  split; [|done].
  unfold actor_inv. rewrite Hcur, Hs'. by do 10 (split; [done|]).
Qed.

Lemma actor_advance_tick_ok a i :
  actor_inv a -> actor_input_ok a i ->
  exists a' out, actor_advance_tick a i = (a', Ok out) /\ actor_inv a' /\
    actor_current_tick a' = Some (in_tick i) /\ out_mode out = mode a' /\
    pending_horse_loss_effects a' = pending_horse_loss_effects a.
Proof.
  intros Ha Hi. pose proof Hi as (Hft & Hfi & Ht). pose proof Ht as [_ Hmax].
  unfold actor_advance_tick. rewrite Hft, Z.eqb_refl. simpl negb.
  rewrite tick_after_accepted by done. simpl orb.
  destruct (horse_stage a i Ha Hi) as (a1 & a2 & despawn & Hst1 & Hst2 & Hcore & Hbehind & Hfoot & Hspur & Hpend).
  rewrite (sbind_ok _ _ _ _ _ Hst1), (sbind_ok _ _ _ _ _ Hst2).
  destruct Ha as (_ & Hf & _ & Hs & _ & Hspt & Hft' & _).
  destruct (spur_stage a2 i) as (sk & so & Hst3 & Hs' & Hsc & Hinst); [by rewrite Hspur|by rewrite Hspur, Hspt|].
  rewrite (sbind_ok _ _ _ _ _ Hst3). set (a3 := a2 <| spur := sk |>) in *.
  destruct (foot_stage a3 i) as (f' & fo & Hst4 & Hf' & Hfc & Hfsame); [by unfold a3; simpl; rewrite Hfoot|done|done| |].
  { unfold a3. simpl. rewrite Hfoot. destruct Ht as [Hlt _].
    split; [|done]. destruct Hf as ((Hf64 & _) & _).
    destruct (foot_current_tick (on_foot a)), (actor_current_tick a); simpl in *; try done;
      unfold in_uint in *; lia. }
  rewrite (sbind_ok _ _ _ _ _ Hst4). set (a4 := a3 <| on_foot := f' |>) in *.
  assert (Hcore4 : core a4 (in_tick i)) by (apply core_set_foot; [by apply core_set_spur|done]).
  destruct (recall_stage a4 i despawn Hcore4 Hbehind Hmax) as (k5 & ro & Hst5 & Hcore5 & Hsync5).
  rewrite (sbind_ok _ _ _ _ _ Hst5). set (a5 := a4 <| recall := k5 |>) in *.
  destruct (request_stage a5 i so ro Hcore5) as (k6 & ro' & Hst6 & Hcore6 & Hc6).
  { intros Hd. by apply Hsync5. }
  { intros Hsp. destruct (Hinst Hsp) as [Hd Hw]. split; [done|]. by apply Hsync5. }
  rewrite (sbind_ok _ _ _ _ _ Hst6).
  destruct (finish_stage (a5 <| recall := k6 |>) i despawn fo ro' so Hcore6) as (a' & out & Hfin & Hinv & Hc & Hm & Hp);
    try done.
  { intros Hd. simpl. rewrite Hc6. by apply Hsync5. }
  exists a', out. rewrite Hfin. split_and!; try done. rewrite Hp. exact Hpend.
Qed.

(** ** Runs *)

Inductive actor_op :=
| ActTick (input : ActorM3TickInput)
| ActDamage (command : HorseDamageCommand)
| ActRecallCredit (command : RecallCreditCommand)
| ActSpurCredit (command : SpurCreditCommand)
| ActAcknowledge (id : HorseDamageId)
| ActRespawn.

(** The actor after an operation, and the error a tick reported. *)
Definition actor_apply (a : ActorGameplayKernel) (op : actor_op) : ActorGameplayKernel * option M3Error :=
  match op with
  | ActTick i =>
      let '(a', r) := actor_advance_tick a i in (a', match r with Err e => Some e | Ok _ => None end)
  | ActDamage c => ((apply_horse_damage a c).1, None)
  | ActRecallCredit c => ((apply_recall_credit a c).1, None)
  | ActSpurCredit c => ((apply_spur_credit a c).1, None)
  | ActAcknowledge id => ((acknowledge_horse_loss_effects a id).1, None)
  | ActRespawn => (respawn a, None)
  end.

Fixpoint actor_run (a : ActorGameplayKernel) (ops : list actor_op) : ActorGameplayKernel * list M3Error :=
  match ops with
  | [] => (a, [])
  | op :: ops =>
      let '(a1, e) := actor_apply a op in
      let '(a2, es) := actor_run a1 ops in
      (a2, option_list e ++ es)
  end.

Definition actor_op_ok (op : actor_op) : Prop :=
  match op with
  | ActTick i => 0 <= in_tick i <= tick_horizon /\ foot_input_ok (in_on_foot i)
  | ActDamage c => command_ok c /\ 0 <= receipt_tick (damage_id c) <= tick_horizon
  | ActRecallCredit c => recall_command_ok c
  | ActSpurCredit c => receipt_ok (credit_id c)
  | ActAcknowledge _ | ActRespawn => True
  end.

Lemma actor_tick_cases a i :
  actor_inv a -> 0 <= in_tick i <= tick_horizon -> foot_input_ok (in_on_foot i) ->
  (actor_advance_tick a i = (a, Err TickReplay)) \/
  (exists a' out, actor_advance_tick a i = (a', Ok out) /\ actor_inv a' /\
     actor_current_tick a' = Some (in_tick i)).
Proof.
  intros Ha Ht Hf. unfold actor_advance_tick.
  destruct (_ || _) eqn:Hg; [by left|right].
  apply orb_false_iff in Hg as [Heq Hnew]. apply negb_false_iff in Heq.
  assert (Hi : actor_input_ok a i).
  { split; [lia|]. split; [done|]. split; [|lia].
    destruct Ha as (_ & _ & _ & (Hs & _) & _ & Hst & _). destruct Hs as (Hs & _).
    rewrite Hst in Hs. destruct (actor_current_tick a); simpl in *; [unfold in_uint in Hs|]; lia. }
  destruct (actor_advance_tick_ok a i Ha Hi) as (a' & out & Hadv & Ha' & Hc & _).
  unfold actor_advance_tick in Hadv. rewrite (proj1 Hi), Z.eqb_refl in Hadv. simpl in Hadv.
  rewrite Hnew in Hadv. eauto 10.
Qed.

Lemma actor_apply_inv a op a' e :
  actor_inv a -> actor_current_tick a <> None -> actor_op_ok op -> actor_apply a op = (a', e) ->
  actor_inv a' /\ actor_current_tick a' <> None /\ e <> Some InvalidState.
Proof.
  intros Ha Hnow Hop. destruct op as [i|c|c|c|id|]; simpl in *.
  - destruct Hop as [Ht Hf].
    destruct (actor_tick_cases a i Ha Ht Hf) as [-> |(a1 & out & -> & Ha1 & Hc)]; intros [= <- <-].
    + done.
    + by rewrite Hc.
  - destruct Hop as [Hc Ht]. destruct (apply_horse_damage a c) as [a1 r] eqn:Hd. intros [= <- <-].
    destruct (horse_damage_spec a c a1 r Ha Hc Ht Hnow Hd) as (Ha1 & Hc1 & _). by rewrite Hc1.
  - intros [= <- <-]. split_and!; [by apply apply_recall_credit_inv| |done].
    unfold apply_recall_credit. by destruct (recall_apply_credit _ _).
  - intros [= <- <-]. split_and!; [by apply apply_spur_credit_inv| |done].
    unfold apply_spur_credit. by destruct (Spur.apply_credit _ _).
  - intros [= <- <-]. split_and!; [by apply acknowledge_inv| |done].
    unfold acknowledge_horse_loss_effects. destruct (_ ≫= _); [|done]. by destruct (bool_decide _).
  - intros [= <- <-]. split_and!; [by apply respawn_inv|done|done].
Qed.

Lemma actor_run_inv ops a :
  actor_inv a -> actor_current_tick a <> None -> Forall actor_op_ok ops ->
  actor_inv (actor_run a ops).1 /\ InvalidState ∉ (actor_run a ops).2.
Proof.
  revert a. induction ops as [|op ops IH]; intros a Ha Hnow Hops; simpl; [split; [done|apply not_elem_of_nil]|].
  apply Forall_cons in Hops as [Hop Hops]. destruct (actor_apply a op) as [a1 e] eqn:Happ.
  destruct (actor_apply_inv a op a1 e Ha Hnow Hop Happ) as (Ha1 & Hn1 & He).
  destruct (IH a1 Ha1 Hn1 Hops) as [H1 H2]. destruct (actor_run a1 ops) as [a2 es]. simpl in *.
  split; [done|]. rewrite elem_of_app. intros [Hin|Hin]; [|done].
  destruct e as [e|]; simpl in Hin; [|by apply elem_of_nil in Hin].
  apply list_elem_of_singleton in Hin. congruence.
Qed.

(** ** Migration *)

Lemma restore_checkpoint_spec c a :
  restore_checkpoint c = Ok a -> c = checkpoint a /\ cross_kernel_valid a = true /\ pending_valid a = true.
Proof.
  unfold restore_checkpoint, checkpoint. destruct (bool_decide _) eqn:Hv; [done|].
  apply bool_decide_eq_false, dec_stable in Hv.
  destruct (_ || _ || _ || _ || _ || _ || _ || _); [done|].
  destruct (negb _ || negb _) eqn:Hx; [done|]. intros [= <-].
  apply orb_false_iff in Hx as [H1%negb_false_iff H2%negb_false_iff].
  split_and!; try done. destruct c; simpl in *. by subst.
Qed.

Lemma restore_accepts a :
  actor_inv a -> exact_directions = true -> pending_valid a = true -> restore_checkpoint (checkpoint a) = Ok a.
Proof.
  intros ((_ & H1) & Hfoot & (_ & H3) & (_ & H4) & Hht & Hst & Hft & Hrt & H5 & _) Hx Hp. pose proof (foot_inv_valid _ Hfoot Hx) as H2.
  unfold restore_checkpoint, checkpoint. simpl.
  assert (Hrefl : tick_is_not_after (actor_current_tick a) (actor_current_tick a) = true)
    by (destruct (actor_current_tick a); simpl; [lia|done]).
  by rewrite H1, H2, H3, H4, Hht, Hst, Hft, Hrt, Hrefl, H5, Hp.
Qed.

(** Migration round trip: the checkpoint of any actor reached by exact directions and
    without an undelivered bolt event is accepted and restores that very actor; and a
    checkpoint that is accepted is the checkpoint of the actor it restores. *)
Theorem actor_checkpoint_roundtrip cl i a0 out0 ops a errors :
  exact_directions = true -> actor_op_ok (ActTick i) -> actor_advance_tick (actor_new cl) i = (a0, Ok out0) ->
  Forall actor_op_ok ops -> actor_run a0 ops = (a, errors) ->
  pending_horse_loss_effects a = None ->
  restore_checkpoint (checkpoint a) = Ok a /\
  deserialize_checkpoint (checkpoint a) = Ok (checkpoint a) /\
  (forall c, restore_checkpoint c = Ok a -> c = checkpoint a).
Proof.
  intros Hx [Ht Hf] H0 Hops Hrun Hpend.
  destruct (actor_tick_cases (actor_new cl) i (actor_new_inv cl) Ht Hf) as [Hbad|(a1 & out & Heq & Ha & Hc)];
    [congruence|].
  rewrite H0 in Heq. injection Heq as <- <-.
  destruct (actor_run_inv ops a0 Ha ltac:(by rewrite Hc) Hops) as [Hinv _]. rewrite Hrun in Hinv. simpl in Hinv.
  assert (Hr : restore_checkpoint (checkpoint a) = Ok a).
  { apply restore_accepts; [done|done|]. unfold pending_valid. by rewrite Hpend. }
  split; [done|]. split; [unfold deserialize_checkpoint; by rewrite Hr|].
  intros c Hc'. by apply restore_checkpoint_spec in Hc' as [-> _].
Qed.

End Runs.

(** ** Consistency over a run *)

(** A tick whose direction on foot lies in the exact unit disc. *)
Definition op_direction_exact (op : actor_op) : Prop :=
  match op with ActTick i => from_option within_unit True (accepted_direction (in_on_foot i)) | _ => True end.
Lemma op_exact op : actor_op_ok op -> op_direction_exact op -> actor_op_ok (Directions := true) op.
Proof. destruct op; try done. intros [? [? _]] Hd. split; [done|]. by split. Qed.

Lemma first_run_inv (Directions : FootDirections) c i a0 out0 ops :
  actor_op_ok (ActTick i) -> actor_advance_tick (actor_new c) i = (a0, Ok out0) -> Forall actor_op_ok ops ->
  actor_inv (actor_run a0 ops).1 /\ InvalidState ∉ (actor_run a0 ops).2.
Proof.
  intros [Ht Hf] H0 Hops.
  destruct (actor_tick_cases (actor_new c) i (actor_new_inv c) Ht Hf) as [Hbad|(a1 & out & Heq & Ha & Hc)]; [congruence|].
  rewrite H0 in Heq. injection Heq as <- <-. apply actor_run_inv; [done|by rewrite Hc|done].
Qed.

(** C1. The composed actor stays consistent. From its first tick on, over any
    interleaving of ticks (replayed ones included), damage, credits, acknowledgements and
    respawns whose ticks and receipts are in the range of their types, no operation
    reports [InvalidState], the horse, recall and Spur kernels stay valid, the four
    kernels stay consistent with one another, and so do the phase, timers and stamina
    of the rider on foot. Its whole check, which also bounds the speed, holds as long as
    no accepted direction is longer than a unit: up to one thousandth more passes
    [is_normalized], and a roll in such a direction fails it ([overlong_roll_is_invalid]). *)
Theorem actor_never_invalid c i a0 out0 ops :
  Forall actor_op_ok (ActTick i :: ops) -> actor_advance_tick (actor_new c) i = (a0, Ok out0) ->
  let '(a, errors) := actor_run a0 ops in
  InvalidState ∉ errors /\ cross_kernel_valid a = true /\
  horse_state_is_valid (horse a) = true /\ recall_state_is_valid (recall a) = true /\ state_is_valid (spur a) = true /\
  foot_phase_valid (on_foot a) = true /\
  (Forall op_direction_exact (ActTick i :: ops) -> foot_state_is_valid (on_foot a) = true).
Proof.
  intros Hok H0. pose proof Hok as [Hi Hops]%Forall_cons.
  pose proof (first_run_inv any_directions c i a0 out0 ops Hi H0 Hops) as [Hinv He].
  assert (Hexact : Forall op_direction_exact (ActTick i :: ops) -> foot_state_is_valid (on_foot (actor_run a0 ops).1) = true).
  { intros Hd. assert (Hx : Forall (actor_op_ok (Directions := true)) (ActTick i :: ops))
      by (rewrite Forall_forall in *; intros op Hin; apply op_exact; auto).
    apply Forall_cons in Hx as [Hxi Hx]. destruct (first_run_inv true c i a0 out0 ops Hxi H0 Hx) as ((_ & Hf & _) & _).
    by apply (foot_inv_valid (Directions := true)). }
  destruct (actor_run a0 ops) as [a errors]. simpl in *.
  destruct Hinv as ((_ & H1) & (_ & H2 & _) & (_ & H3) & (_ & H4) & _ & _ & _ & _ & H5 & _). by split_and!.
Qed.

(** ** Scenario: a lost horse, its return and its remount *)

Definition idle_input (t : SimulationTick) (interact spur : bool) : ActorM3TickInput :=
  mkActorM3TickInput t (mkOnFootTickInput t None false false false) interact spur true
    (mkQuantizedOrigin 0 0 0) (mkQuantizedOrigin 3999 0 0) true.

Definition fatal_hit (t sequence : Z) : HorseDamageCommand :=
  mkHorseDamageCommand (mkReceiptId 1 t sequence) 200
    (mkQuantizedOrigin 0 0 0) (mkQuantizedOrigin (-5000) 0 2000).

Definition first_tick : ActorGameplayKernel := (actor_advance_tick (actor_new Courser) (idle_input 100 false false)).1.

(** Loss at tick 100, despawn at 280, request at 1480, running mount at 1780. *)
Definition return_ops : list actor_op :=
  [ActDamage (fatal_hit 100 1); ActTick (idle_input 280 false false);
   ActTick (idle_input 1480 false true); ActTick (idle_input 1780 true false)].

Lemma idle_op_ok (Directions : FootDirections) t b s : 0 <= t <= tick_horizon -> actor_op_ok (ActTick (idle_input t b s)).
Proof. intros Ht. by split; [|split]. Qed.

Lemma return_ops_ok (Directions : FootDirections) : Forall actor_op_ok return_ops.
Proof.
  unfold return_ops. apply Forall_cons. split; [by vm_compute|].
  repeat (apply Forall_cons; split; [apply idle_op_ok; unfold tick_horizon; lia|]). by constructor.
Qed.

Example return_remounts :
  mode (actor_run first_tick return_ops).1 = ModeMounted /\
  telemetry (recall (actor_run first_tick return_ops).1)
    = Some (mkRemountTelemetryRow 100 (Some 1780) (Some 1680) true).
Proof. by vm_compute. Qed.

(** An undelivered bolt event does not survive the remount it waits through: the
    restored horse has a fresh bolt heading, so the checkpoint that still carries
    the event is refused. *)
Lemma stale_pending_refused :
  actor_inv (actor_run first_tick return_ops).1 /\
  is_some (pending_horse_loss_effects (actor_run first_tick return_ops).1) = true /\
  restore_checkpoint (checkpoint (actor_run first_tick return_ops).1) = Err InvalidCheckpointState.
Proof.
  split; [|by vm_compute].
  destruct (actor_tick_cases (actor_new Courser) (idle_input 100 false false) (actor_new_inv Courser)
    ltac:(unfold tick_horizon; simpl; lia) ltac:(by split)) as [Hbad|(a1 & out & Heq & Ha & Hc)]; [by vm_compute in Hbad|].
  apply actor_run_inv; [|by vm_compute|apply return_ops_ok].
  unfold first_tick. by rewrite Heq.
Qed.

(** A second bolt is compared with the loss tick of the first recall, which the
    recall keeps after the remount: while the second bolt's event is undelivered,
    the checkpoint of the bolting horse is refused. *)
Definition second_bolt_ops : list actor_op :=
  return_ops ++ [ActAcknowledge (mkReceiptId 1 100 1); ActDamage (fatal_hit 1780 2)].

Lemma second_bolt_refused :
  let a := (actor_run first_tick second_bolt_ops).1 in
  horse_state (horse a) = Bolting /\ horse_loss_tick a = Some 1780 /\
  recall_horse_loss_tick (recall a) = Some 100 /\
  restore_checkpoint (checkpoint a) = Err InvalidCheckpointState /\
  (let acknowledged := (acknowledge_horse_loss_effects a (mkReceiptId 1 1780 2)).1 in
   restore_checkpoint (checkpoint acknowledged) = Ok acknowledged).
Proof. by vm_compute. Qed.

(** ** Witnesses *)

Lemma first_tick_op_ok (Directions : FootDirections) : actor_op_ok (ActTick (idle_input 100 false false)).
Proof. apply idle_op_ok. unfold tick_horizon. lia. Qed.

Lemma horse_damage_transactional_witness :
  mode (apply_horse_damage first_tick (fatal_hit 100 1)).1 = ModeSpookStunned.
Proof.
  assert (Ha : actor_inv first_tick).
  { destruct (first_tick_op_ok any_directions) as [Ht Hf].
    destruct (actor_tick_cases (actor_new Courser) (idle_input 100 false false) (actor_new_inv Courser) Ht Hf)
      as [Hbad|(a1 & out & Heq & Ha & _)]; [by vm_compute in Hbad|].
    unfold first_tick. by rewrite Heq. }
  pose proof (horse_damage_transactional first_tick (fatal_hit 100 1) _ _ Ha ltac:(by vm_compute)
    ltac:(by vm_compute) ltac:(by vm_compute) (surjective_pairing _)) as [_ H].
  change (apply_horse_damage first_tick (fatal_hit 100 1)).2 with
    (Some (mkHorseDamageEffects
       (mkHorseDamageApplication 200 0 true (5000, -2000) 3000 36 false)
       (Some (mkHorseBoltedEvent (mkReceiptId 1 100 1) Courser (5000, -2000) 15)))) in H.
  destruct H as (_ & _ & H). change (health (horse first_tick) <=? amount (fatal_hit 100 1)) with true in H.
  by destruct H as (_ & _ & _ & _ & H).
Defined.

Lemma actor_never_invalid_witness :
  foot_state_is_valid (on_foot (actor_run first_tick return_ops).1) = true.
Proof.
  pose proof (actor_never_invalid Courser (idle_input 100 false false) first_tick _ return_ops
    ltac:(constructor; [apply first_tick_op_ok|apply return_ops_ok]) eq_refl) as H.
  destruct (actor_run first_tick return_ops) as [a es]. destruct H as (_ & _ & _ & _ & _ & _ & H).
  apply H. repeat constructor.
Defined.

Lemma actor_checkpoint_roundtrip_witness :
  let ops := return_ops ++ [ActAcknowledge (mkReceiptId 1 100 1)] in
  let a := (actor_run first_tick ops).1 in
  restore_checkpoint (checkpoint a) = Ok a.
Proof.
  intros ops a.
  assert (Hops : Forall (actor_op_ok (Directions := true)) ops)
    by (apply Forall_app; split; [apply (return_ops_ok true)|by constructor]).
  apply (actor_checkpoint_roundtrip (Directions := true) Courser (idle_input 100 false false) first_tick _ ops a _
    eq_refl (first_tick_op_ok true) eq_refl Hops (surjective_pairing _)). by vm_compute.
Defined.
