(* ===== verification/AuthorityBank.v ===== *)
(** * The authority bank ([m3.rs], [M3AuthorityBank])

    Every actor of the match by roster identity, the routes from horse combat
    entities to their riders, and the epoch-checked handoff of the whole bank. *)

From stdpp Require Import gmap.
From S2P Require Import Prelude MachineInt Ordered Clock Identifiers WireVersion Spur Combat M3 HorseVitality Recall OnFoot ActorGameplay.
Open Scope Z_scope.

Record M3AuthorityActor := mkM3AuthorityActor {
  row_horse_entity_id : EntityId;
  row_actor : ActorGameplayKernel;
}.
#[export] Instance eta_M3AuthorityActor : Settable M3AuthorityActor := fun r =>
  mkM3AuthorityActor (row_horse_entity_id r) (row_actor r).

Record M3AuthorityBank := mkM3AuthorityBank {
  bank_authority_epoch : Z;
  actors : gmap PlayerId M3AuthorityActor;
  horse_owners : gmap EntityId PlayerId;
}.
#[export] Instance eta_M3AuthorityBank : Settable M3AuthorityBank := fun b =>
  mkM3AuthorityBank (bank_authority_epoch b) (actors b) (horse_owners b).

Record M3AuthorityActorCheckpoint := mkM3AuthorityActorCheckpoint {
  rider_player_id : PlayerId;
  horse_entity_id : EntityId;
  actor_checkpoint : ActorGameplayCheckpointV2;
}.

Record M3AuthorityCheckpointV2 := mkM3AuthorityCheckpointV2 {
  bank_wire_version : WireVersion;
  source_authority_epoch : Z;
  checkpoint_actors : list M3AuthorityActorCheckpoint;
}.

Record M3AuthorityHorseDamage := mkM3AuthorityHorseDamage {
  damaged_rider : PlayerId;
  damaged_horse : EntityId;
  damage_effects : HorseDamageEffects;
}.

Inductive M3AuthorityError :=
| UnknownActor
| UnknownHorseTarget
| AuthorityEpochMismatch
| ActorState (e : M3Error).

Inductive M3AuthorityCheckpointError :=
| BankWireVersionMismatch
| BankEpochMismatch
| BankInvalidState.

Definition bank_new (authority_epoch : Z) : M3AuthorityBank := mkM3AuthorityBank authority_epoch ∅ ∅.

Definition register_actor (self : M3AuthorityBank) (rider : PlayerId) (horse_entity : EntityId)
    (c : HorseVitalityClass) : M3AuthorityBank * bool :=
  if (MAX_M3_AUTHORITY_ACTORS <=? Z.of_nat (size (actors self)))
     || is_some (actors self !! rider) || is_some (horse_owners self !! horse_entity)
  then (self, false)
  else (self <| actors := <[rider := mkM3AuthorityActor horse_entity (actor_new c)]> (actors self) |>
             <| horse_owners := <[horse_entity := rider]> (horse_owners self) |>, true).

Definition bank_actor (self : M3AuthorityBank) (rider : PlayerId) : option ActorGameplayKernel :=
  row_actor <$> actors self !! rider.

Definition bank_horse_entity_id (self : M3AuthorityBank) (rider : PlayerId) : option EntityId :=
  row_horse_entity_id <$> actors self !! rider.

Definition horse_owner (self : M3AuthorityBank) (h : EntityId) : option PlayerId := horse_owners self !! h.

(** A mutation of one registered row through [get_mut]. *)
Definition update_row (self : M3AuthorityBank) (rider : PlayerId) (row : M3AuthorityActor)
    (a : ActorGameplayKernel) : M3AuthorityBank :=
  self <| actors := <[rider := row <| row_actor := a |>]> (actors self) |>.

Definition respawn_actor (self : M3AuthorityBank) (rider : PlayerId) : M3AuthorityBank * bool :=
  match actors self !! rider with
  | None => (self, false)
  | Some row => (update_row self rider row (respawn (row_actor row)), true)
  end.

(** [None] is the panic of the [expect] on the owner map. *)
Definition bank_apply_horse_damage (self : M3AuthorityBank) (h : EntityId) (command : HorseDamageCommand)
    : option (M3AuthorityBank * result (option M3AuthorityHorseDamage) M3AuthorityError) :=
  if negb (authority_epoch (damage_id command) =? bank_authority_epoch self)
  then Some (self, Err AuthorityEpochMismatch)
  else
    match horse_owners self !! h with
    | None => Some (self, Err UnknownHorseTarget)
    | Some rider =>
        match actors self !! rider with
        | None => None
        | Some row =>
            let '(a, effects) := apply_horse_damage (row_actor row) command in
            Some (update_row self rider row a, Ok (mkM3AuthorityHorseDamage rider h <$> effects))
        end
    end.

Definition bank_apply_recall_credit (self : M3AuthorityBank) (rider : PlayerId)
    (command : RecallCreditCommand) : M3AuthorityBank * result bool M3AuthorityError :=
  if negb (authority_epoch (recall_credit_id command) =? bank_authority_epoch self)
  then (self, Err AuthorityEpochMismatch)
  else
    match actors self !! rider with
    | None => (self, Err UnknownActor)
    | Some row =>
        let '(a, ok) := apply_recall_credit (row_actor row) command in
        (update_row self rider row a, Ok ok)
    end.

Definition issue_spur_credit (self : M3AuthorityBank) (rider : PlayerId) (tick : SimulationTick)
    (kind : SpurCreditKind) : M3AuthorityBank * result (option Z) M3AuthorityError :=
  match actors self !! rider with
  | None => (self, Err UnknownActor)
  | Some row =>
      let '(s, points) := Spur.issue_credit (spur (row_actor row)) (bank_authority_epoch self) tick kind in
      (update_row self rider row ((row_actor row) <| spur := s |>), Ok points)
  end.

Definition advance_actor (self : M3AuthorityBank) (rider : PlayerId) (input : ActorM3TickInput)
    : M3AuthorityBank * result ActorM3TickOutput M3AuthorityError :=
  match actors self !! rider with
  | None => (self, Err UnknownActor)
  | Some row =>
      let '(a, r) := actor_advance_tick (row_actor row) input in
      (update_row self rider row a, match r with Ok out => Ok out | Err e => Err (ActorState e) end)
  end.

Definition bank_acknowledge (self : M3AuthorityBank) (rider : PlayerId) (id : HorseDamageId)
    : M3AuthorityBank * result bool M3AuthorityError :=
  match actors self !! rider with
  | None => (self, Err UnknownActor)
  | Some row =>
      let '(a, ok) := acknowledge_horse_loss_effects (row_actor row) id in
      (update_row self rider row a, Ok ok)
  end.

Definition checkpoint_row (p : PlayerId * M3AuthorityActor) : M3AuthorityActorCheckpoint :=
  mkM3AuthorityActorCheckpoint p.1 (row_horse_entity_id p.2) (checkpoint (row_actor p.2)).

Definition bank_checkpoint (self : M3AuthorityBank) : M3AuthorityCheckpointV2 :=
  mkM3AuthorityCheckpointV2 M3_WIRE_VERSION (bank_authority_epoch self)
    (checkpoint_row <$> btree_list (actors self)).

(** The row loop of [validate_checkpoint]. *)
Fixpoint validate_rows (previous_player : option PlayerId) (horse_entities : gset EntityId)
    (rows : list M3AuthorityActorCheckpoint) : bool :=
  match rows with
  | [] => true
  | row :: rows =>
      if is_some_and previous_player (fun previous => key_leb (rider_player_id row) previous)
         || bool_decide (horse_entity_id row ∈ horse_entities)
         || negb (is_ok (restore_checkpoint (actor_checkpoint row)))
      then false
      else validate_rows (Some (rider_player_id row)) ({[horse_entity_id row]} ∪ horse_entities) rows
  end.

Definition validate_checkpoint (c : M3AuthorityCheckpointV2) : result unit M3AuthorityCheckpointError :=
  if bool_decide (bank_wire_version c <> M3_WIRE_VERSION) then Err BankWireVersionMismatch
  else if MAX_M3_AUTHORITY_ACTORS <? Z.of_nat (length (checkpoint_actors c)) then Err BankInvalidState
  else if validate_rows None ∅ (checkpoint_actors c) then Ok tt
  else Err BankInvalidState.

(** The row loop of [restore_checkpoint]. *)
Fixpoint restore_rows (bank : M3AuthorityBank) (rows : list M3AuthorityActorCheckpoint)
    : result M3AuthorityBank M3AuthorityCheckpointError :=
  match rows with
  | [] => Ok bank
  | row :: rows =>
      match restore_checkpoint (actor_checkpoint row) with
      | Err _ => Err BankInvalidState
      | Ok a =>
          restore_rows
            (bank <| horse_owners := <[horse_entity_id row := rider_player_id row]> (horse_owners bank) |>
                  <| actors := <[rider_player_id row := mkM3AuthorityActor (horse_entity_id row) a]> (actors bank) |>)
            rows
      end
  end.

Definition bank_restore_checkpoint (c : M3AuthorityCheckpointV2) (next_authority_epoch : Z)
    : result M3AuthorityBank M3AuthorityCheckpointError :=
  match validate_checkpoint c with
  | Err e => Err e
  | Ok _ =>
      if bool_decide (checked_add 64 (source_authority_epoch c) 1 <> Some next_authority_epoch)
      then Err BankEpochMismatch
      else restore_rows (bank_new next_authority_epoch) (checkpoint_actors c)
  end.

(** [Deserialize for M3AuthorityCheckpointV2] *)
Definition deserialize_bank_checkpoint (raw : M3AuthorityCheckpointV2)
    : result M3AuthorityCheckpointV2 M3AuthorityCheckpointError :=
  match validate_checkpoint raw with Ok _ => Ok raw | Err e => Err e end.

(** ** Routing *)

(** At most [MAX_M3_AUTHORITY_ACTORS] rows, and the owner map is exactly the
    inverse of the rows' horse entities. *)
Definition routes (acts : gmap PlayerId M3AuthorityActor) (owners : gmap EntityId PlayerId) : Prop :=
  forall h p, owners !! h = Some p <-> exists row, acts !! p = Some row /\ row_horse_entity_id row = h.

Definition bank_inv (b : M3AuthorityBank) : Prop :=
  Z.of_nat (size (actors b)) <= MAX_M3_AUTHORITY_ACTORS /\ routes (actors b) (horse_owners b).

Lemma bank_new_inv e : bank_inv (bank_new e).
Proof.
  split; [by vm_compute|]. intros h p. simpl. rewrite lookup_empty.
  split; [done|]. intros (row & Hr & _). by rewrite lookup_empty in Hr.
Qed.

Lemma register_actor_inv b p h c : bank_inv b -> bank_inv (register_actor b p h c).1.
Proof.
  intros [Hsz Hr]. unfold register_actor. destruct (_ || _ || _) eqn:Hg; [done|].
  apply orb_false_iff in Hg as [[Hn Hp]%orb_false_iff Hh].
  destruct (actors b !! p) eqn:Hap; [done|]. destruct (horse_owners b !! h) eqn:Hho; [done|].
  split; simpl.
  - rewrite map_size_insert_None by done. lia.
  - intros h' p'. destruct (decide (h' = h)) as [-> |Hne], (decide (p' = p)) as [-> |Hnp].
    + rewrite !lookup_insert_eq. naive_solver.
    + rewrite lookup_insert_eq, lookup_insert_ne by done. split; [naive_solver|].
      intros Hx. apply Hr in Hx. congruence.
    + rewrite lookup_insert_ne, lookup_insert_eq by done. split; [|naive_solver].
      intros Hx. apply Hr in Hx as (row & Hrow & _). congruence.
    + rewrite !lookup_insert_ne by done. apply Hr.
Qed.

Lemma update_row_inv b p row a :
  bank_inv b -> actors b !! p = Some row -> bank_inv (update_row b p row a).
Proof.
  intros [Hsz Hr] Hp. unfold update_row. split; simpl.
  - by rewrite map_size_insert_Some.
  - intros h p'. destruct (decide (p' = p)) as [-> |Hne].
    + rewrite lookup_insert_eq. etrans; [apply Hr|]. rewrite Hp. naive_solver.
    + rewrite lookup_insert_ne by done. apply Hr.
Qed.

(** The bank's operations. *)
Inductive bank_op :=
| BankRegister (rider : PlayerId) (h : EntityId) (c : HorseVitalityClass)
| BankRespawn (rider : PlayerId)
| BankDamage (h : EntityId) (command : HorseDamageCommand)
| BankRecallCredit (rider : PlayerId) (command : RecallCreditCommand)
| BankSpurCredit (rider : PlayerId) (tick : SimulationTick) (kind : SpurCreditKind)
| BankAdvance (rider : PlayerId) (input : ActorM3TickInput)
| BankAcknowledge (rider : PlayerId) (id : HorseDamageId).

(** [None] is a panic. *)
Definition bank_step (b : M3AuthorityBank) (op : bank_op) : option M3AuthorityBank :=
  match op with
  | BankRegister p h c => Some (register_actor b p h c).1
  | BankRespawn p => Some (respawn_actor b p).1
  | BankDamage h c => fst <$> bank_apply_horse_damage b h c
  | BankRecallCredit p c => Some (bank_apply_recall_credit b p c).1
  | BankSpurCredit p t kind => Some (issue_spur_credit b p t kind).1
  | BankAdvance p i => Some (advance_actor b p i).1
  | BankAcknowledge p id => Some (bank_acknowledge b p id).1
  end.

Fixpoint bank_run (b : M3AuthorityBank) (ops : list bank_op) : option M3AuthorityBank :=
  match ops with
  | [] => Some b
  | op :: ops => bank_step b op ≫= (fun b' => bank_run b' ops)
  end.

Lemma bank_step_inv b op :
  bank_inv b -> exists b', bank_step b op = Some b' /\ bank_inv b' /\
    bank_authority_epoch b' = bank_authority_epoch b.
Proof.
  intros Hb. pose proof Hb as [_ Hr]. destruct op as [p h c|p|h c|p c|p t kind|p i|p id]; simpl.
  - eexists. split_and!; [reflexivity|by apply register_actor_inv|].
    unfold register_actor. by destruct (_ || _ || _).
  - unfold respawn_actor. destruct (actors b !! p) eqn:Hp; eexists; split_and!; try reflexivity; try done.
    by apply update_row_inv.
  - unfold bank_apply_horse_damage. destruct (negb _); [by exists b|].
    destruct (horse_owners b !! h) as [p|] eqn:Ho; [|by exists b].
    apply Hr in Ho as (row & Hrow & _). rewrite Hrow.
    destruct (apply_horse_damage _ _) as [a eff]. simpl. eexists. split_and!; [reflexivity| |done].
    by apply update_row_inv.
  - unfold bank_apply_recall_credit. destruct (negb _); [by exists b|].
    destruct (actors b !! p) eqn:Hp; [|by exists b]. destruct (apply_recall_credit _ _).
    eexists. split_and!; [reflexivity| |done]. by apply update_row_inv.
  - unfold issue_spur_credit. destruct (actors b !! p) eqn:Hp; [|by exists b].
    destruct (Spur.issue_credit _ _ _ _). eexists. split_and!; [reflexivity| |done]. by apply update_row_inv.
  - unfold advance_actor. destruct (actors b !! p) eqn:Hp; [|by exists b].
    destruct (actor_advance_tick _ _). eexists. split_and!; [reflexivity| |done]. by apply update_row_inv.
  - unfold bank_acknowledge. destruct (actors b !! p) eqn:Hp; [|by exists b].
    destruct (acknowledge_horse_loss_effects _ _). eexists. split_and!; [reflexivity| |done].
    by apply update_row_inv.
Qed.

(** The bank's routing never breaks and never panics: over any operations on
    any arguments, starting from an empty bank, every horse entity routes to
    exactly the rider whose row carries it, the roster stays within its ceiling
    and the epoch does not change. *)
Theorem bank_routing e ops :
  exists b, bank_run (bank_new e) ops = Some b /\ bank_inv b /\ bank_authority_epoch b = e.
Proof.
  cut (forall b0, bank_inv b0 -> exists b, bank_run b0 ops = Some b /\ bank_inv b /\
         bank_authority_epoch b = bank_authority_epoch b0).
  { intros H. apply (H (bank_new e)), bank_new_inv. }
  induction ops as [|op ops IH]; intros b0 Hb0; simpl; [by exists b0|].
  destruct (bank_step_inv b0 op Hb0) as (b1 & -> & Hb1 & He1). simpl.
  destruct (IH b1 Hb1) as (b & Hrun & Hb & He). exists b. split_and!; congruence || done.
Qed.

(** ** The handoff *)

Definition row_entry (r : M3AuthorityActorCheckpoint) : PlayerId * M3AuthorityActor :=
  (rider_player_id r,
   mkM3AuthorityActor (horse_entity_id r) (checkpoint_actor (actor_checkpoint r))).
Definition row_route (r : M3AuthorityActorCheckpoint) : EntityId * PlayerId :=
  (horse_entity_id r, rider_player_id r).

Definition rows_acceptable (rows : list M3AuthorityActorCheckpoint) : Prop :=
  Forall (fun r => restore_checkpoint (actor_checkpoint r) = Ok (checkpoint_actor (actor_checkpoint r))) rows.

(** What the validation loop accepts. *)
Lemma validate_rows_true prev hs rows :
  validate_rows prev hs rows = true ->
  NoDup (rider_player_id <$> rows) /\ NoDup (horse_entity_id <$> rows) /\ rows_acceptable rows /\
  (forall r, r ∈ rows -> horse_entity_id r ∉ hs) /\
  (forall r p, r ∈ rows -> prev = Some p -> key_lt p (rider_player_id r)).
Proof.
  revert prev hs. induction rows as [|r rows IH]; intros prev hs H; simpl in *.
  { split_and!; try constructor; intros; by match goal with H : _ ∈ [] |- _ => apply elem_of_nil in H end. }
  destruct (_ || _ || _) eqn:Hg; [done|].
  apply orb_false_iff in Hg as [[Hp Hh]%orb_false_iff Hok].
  apply negb_false_iff in Hok. apply bool_decide_eq_false in Hh.
  destruct (IH _ _ H) as (Hnd1 & Hnd2 & Hacc & Hfresh & Hlt). split_and!.
  - constructor; [|done]. intros Hin. apply list_elem_of_fmap in Hin as (r' & Heq & Hr').
    specialize (Hlt r' _ Hr' eq_refl). rewrite Heq in Hlt. by apply key_lt_irrefl in Hlt.
  - constructor; [|done]. intros Hin. apply list_elem_of_fmap in Hin as (r' & Heq & Hr').
    apply (Hfresh r' Hr'). rewrite Heq. set_solver.
  - constructor; [|done]. destruct (restore_checkpoint _) as [a|] eqn:Ha; [|done].
    apply restore_checkpoint_spec in Ha as [-> _]. done.
  - intros r' Hin. apply elem_of_cons in Hin as [-> |Hin]; [done|]. specialize (Hfresh _ Hin). set_solver.
  - intros r' p Hin ->. simpl in Hp. rewrite key_leb_ltb in Hp. apply negb_false_iff, key_ltb_lt in Hp.
    apply elem_of_cons in Hin as [-> |Hin]; [done|].
    eapply key_lt_trans; [exact Hp|]. by apply Hlt.
Qed.

Lemma restore_rows_eq rows bank :
  rows_acceptable rows -> NoDup (rider_player_id <$> rows) -> NoDup (horse_entity_id <$> rows) ->
  restore_rows bank rows =
    Ok (mkM3AuthorityBank (bank_authority_epoch bank)
          (list_to_map (row_entry <$> rows) ∪ actors bank)
          (list_to_map (row_route <$> rows) ∪ horse_owners bank)).
Proof.
  revert bank. induction rows as [|r rows IH]; intros bank Hacc Hnd1 Hnd2; simpl.
  { rewrite !(left_id_L ∅ (∪)). by destruct bank. }
  apply Forall_cons in Hacc as [Hr Hacc]. rewrite Hr.
  apply NoDup_cons in Hnd1 as [Hp Hnd1]. apply NoDup_cons in Hnd2 as [Hh Hnd2].
  rewrite IH by done. simpl. do 2 f_equal.
  - rewrite <- insert_union_r, insert_union_l; [done|].
    apply not_elem_of_list_to_map_1. by rewrite <- list_fmap_compose.
  - rewrite <- insert_union_r, insert_union_l; [done|].
    apply not_elem_of_list_to_map_1. by rewrite <- list_fmap_compose.
Qed.

Lemma rows_routes rows :
  NoDup (rider_player_id <$> rows) -> NoDup (horse_entity_id <$> rows) ->
  routes (list_to_map (row_entry <$> rows)) (list_to_map (row_route <$> rows)).
Proof.
  intros Hnd1 Hnd2 h p.
  assert (H1 : NoDup (row_entry <$> rows).*1) by (by rewrite <- list_fmap_compose).
  assert (H2 : NoDup (row_route <$> rows).*1) by (by rewrite <- list_fmap_compose).
  rewrite <- elem_of_list_to_map by done. setoid_rewrite <- elem_of_list_to_map; [|done..].
  rewrite list_elem_of_fmap. setoid_rewrite list_elem_of_fmap. split.
  - intros (r & [= -> ->] & Hr). eexists. split; [exists r; done|done].
  - intros (row & (r & [= -> ->] & Hr) & <-). by exists r.
Qed.

Lemma validate_checkpoint_ok c :
  validate_checkpoint c = Ok tt ->
  bank_wire_version c = M3_WIRE_VERSION /\
  Z.of_nat (length (checkpoint_actors c)) <= MAX_M3_AUTHORITY_ACTORS /\
  validate_rows None ∅ (checkpoint_actors c) = true.
Proof.
  unfold validate_checkpoint. destruct (bool_decide _) eqn:Hv; [done|].
  apply bool_decide_eq_false, dec_stable in Hv. destruct (_ <? _) eqn:Hlen; [done|].
  destruct (validate_rows _ _ _); [|done]. intros _. split_and!; [done|lia|done].
Qed.

(** C34. Any accepted handoff is safe to run: a bank restored from a checkpoint,
    wherever it came from, is for exactly the next authority epoch, has a
    consistent routing within the roster ceiling, and every actor of it passed
    the actor checkpoint's validation. *)
Theorem bank_restore_safe c e b :
  bank_restore_checkpoint c e = Ok b ->
  bank_inv b /\ bank_authority_epoch b = e /\ e = source_authority_epoch c + 1 /\
  bank_wire_version c = M3_WIRE_VERSION /\
  map_Forall (fun _ row => restore_checkpoint (checkpoint (row_actor row)) = Ok (row_actor row)) (actors b).
Proof.
  unfold bank_restore_checkpoint. destruct (validate_checkpoint c) as [[]|] eqn:Hval; [|done].
  destruct (bool_decide _) eqn:He; [done|]. apply bool_decide_eq_false, dec_stable in He.
  apply checked_add_Some in He as [-> _].
  apply validate_checkpoint_ok in Hval as (Hv & Hlen & Hrows).
  apply validate_rows_true in Hrows as (Hnd1 & Hnd2 & Hacc & _).
  rewrite restore_rows_eq by done. simpl. intros [= <-].
  rewrite !(right_id_L ∅ (∪)). split_and!; try done; simpl.
  - split; simpl; [|by apply rows_routes].
    rewrite (map_size_list_to_map (M := gmap PlayerId)); [by rewrite length_fmap|].
    by rewrite <- list_fmap_compose.
  - intros p row Hrow. rewrite <- elem_of_list_to_map in Hrow by (by rewrite <- list_fmap_compose).
    apply list_elem_of_fmap in Hrow as (r & [= -> ->] & Hr). simpl.
    unfold rows_acceptable in Hacc. rewrite Forall_forall in Hacc. specialize (Hacc r Hr).
    pose proof Hacc as Hspec. apply restore_checkpoint_spec in Hspec as [Heq _]. by rewrite <- Heq.
Qed.

Lemma validate_rows_sorted rows prev hs :
  rows_acceptable rows -> StronglySorted key_lt (rider_player_id <$> rows) ->
  NoDup (horse_entity_id <$> rows) ->
  (forall p, prev = Some p -> Forall (key_lt p) (rider_player_id <$> rows)) ->
  Forall (fun h => h ∉ hs) (horse_entity_id <$> rows) ->
  validate_rows prev hs rows = true.
Proof.
  revert prev hs. induction rows as [|r rows IH]; intros prev hs Hacc Hs Hnd Hprev Hfresh; simpl; [done|].
  apply Forall_cons in Hacc as [Hr Hacc]. simpl in Hs. inversion Hs as [|? ? Hs' Hall]; subst.
  apply NoDup_cons in Hnd as [Hnin Hnd]. apply Forall_cons in Hfresh as [Hf Hfresh].
  rewrite Hr, bool_decide_false by done. simpl.
  assert (Hp : is_some_and prev (fun previous => key_leb (rider_player_id r) previous) = false).
  { apply is_some_and_false. intros p ->. specialize (Hprev p eq_refl).
    apply Forall_cons in Hprev as [Hlt _]. rewrite key_leb_ltb. by apply negb_false_iff, key_ltb_lt. }
  rewrite Hp. simpl. apply IH; try done; [by intros p [= <-]|].
  apply Forall_forall. intros h Hh. rewrite Forall_forall in Hfresh. specialize (Hfresh h Hh).
  assert (h <> horse_entity_id r) by (intros ->; done). set_solver.
Qed.

Lemma bank_rows_horses_NoDup b :
  bank_inv b -> NoDup (horse_entity_id <$> (checkpoint_row <$> btree_list (actors b))).
Proof.
  intros [_ Hr]. rewrite <- list_fmap_compose.
  assert (Hnd : NoDup (btree_list (actors b))) by (eapply NoDup_fmap_1, btree_keys_NoDup).
  assert (Hin : forall x, x ∈ btree_list (actors b) -> horse_owners b !! row_horse_entity_id x.2 = Some x.1).
  { intros [p row] Hx. apply elem_of_btree_list in Hx. apply Hr. by exists row. }
  pose proof (btree_keys_NoDup (actors b)) as Hkeys. unfold btree_keys in Hkeys.
  induction (btree_list (actors b)) as [|x l IH]; simpl in *; constructor.
  - intros Hx. apply list_elem_of_fmap in Hx as (y & Heq & Hy). simpl in Heq.
    pose proof (Hin x ltac:(left)) as H1. pose proof (Hin y ltac:(by right)) as H2.
    rewrite Heq in H1. rewrite H1 in H2. injection H2 as H2.
    apply NoDup_cons in Hkeys as [Hk _]. apply Hk. rewrite H2. by apply list_elem_of_fmap_2.
  - apply NoDup_cons in Hnd as [_ Hnd]. apply NoDup_cons in Hkeys as [_ Hkeys].
    apply IH; [done| |done]. intros y Hy. apply Hin. by right.
Qed.

Lemma bank_rows_entries b :
  list_to_map (row_entry <$> (checkpoint_row <$> btree_list (actors b))) = actors b.
Proof.
  rewrite <- list_fmap_compose.
  replace (row_entry ∘ checkpoint_row <$> btree_list (actors b)) with (btree_list (actors b)).
  2:{ rewrite <- (list_fmap_id (btree_list (actors b))) at 1. apply list_fmap_ext. by intros i [p []] _. }
  rewrite (list_to_map_proper _ (map_to_list (actors b))) by (apply btree_keys_NoDup || apply btree_list_perm).
  apply list_to_map_to_list.
Qed.

(** The handoff round trip: the checkpoint of a well-routed bank whose actors
    are individually acceptable is canonical, passes its own validation, and
    restores the same bank, rows and routes alike, under the next epoch; every
    other epoch is refused. *)
Theorem bank_handoff_roundtrip b e :
  bank_inv b -> 0 <= bank_authority_epoch b < u64_max ->
  map_Forall (fun _ row => restore_checkpoint (checkpoint (row_actor row)) = Ok (row_actor row)) (actors b) ->
  bank_restore_checkpoint (bank_checkpoint b) e =
    if e =? bank_authority_epoch b + 1
    then Ok (mkM3AuthorityBank (bank_authority_epoch b + 1) (actors b) (horse_owners b))
    else Err BankEpochMismatch.
Proof.
  intros Hb He Hacts. pose proof Hb as [Hsz Hr].
  set (rows := checkpoint_row <$> btree_list (actors b)).
  assert (Hacc : rows_acceptable rows).
  { apply Forall_forall. intros r Hin. apply list_elem_of_fmap in Hin as ([p row] & -> & Hin).
    apply elem_of_btree_list in Hin. by specialize (Hacts p row Hin). }
  assert (Hplayers : rider_player_id <$> rows = btree_keys (actors b)).
  { unfold rows, btree_keys. by rewrite <- list_fmap_compose. }
  assert (Hnd2 : NoDup (horse_entity_id <$> rows)) by (by apply bank_rows_horses_NoDup).
  assert (Hnd1 : NoDup (rider_player_id <$> rows)) by (rewrite Hplayers; apply btree_keys_NoDup).
  assert (Hval : validate_checkpoint (bank_checkpoint b) = Ok tt).
  { unfold validate_checkpoint, bank_checkpoint. cbn [bank_wire_version checkpoint_actors]. fold rows.
    rewrite bool_decide_false by (intros H; by apply H).
    replace (_ <? Z.of_nat (length rows)) with false
      by (unfold rows; rewrite length_fmap, length_btree_list; lia).
    rewrite validate_rows_sorted; try done; [rewrite Hplayers; apply btree_keys_sorted|].
    apply Forall_forall. intros. set_solver. }
  unfold bank_restore_checkpoint. rewrite Hval. cbn [bank_checkpoint source_authority_epoch checkpoint_actors].
  fold rows.
  assert (Hadd : checked_add 64 (bank_authority_epoch b) 1 = Some (bank_authority_epoch b + 1))
    by (apply checked_add_Some; split; [done|int_lia]).
  rewrite Hadd. destruct (Z.eqb_spec e (bank_authority_epoch b + 1)) as [-> |Hne].
  2:{ by rewrite bool_decide_true by (intros [= H]; congruence). }
  rewrite bool_decide_false by (intros H; by apply H).
  rewrite restore_rows_eq by done. simpl. rewrite !(right_id_L ∅ (∪)). do 2 f_equal.
  - apply bank_rows_entries.
  - apply map_eq. intros h. apply option_eq. intros p. etrans; [apply (rows_routes rows Hnd1 Hnd2 h p)|].
    unfold rows. rewrite bank_rows_entries. symmetry. apply Hr.
Qed.

(** ** Witnesses *)

Definition player (suffix : Z) : PlayerId :=
  mkProtocolId [0; 0; 0; 0; 0; 0; 64; 0; 128; 0; 0; 0; 0; 0; 0; suffix].

Definition two_riders : M3AuthorityBank :=
  (register_actor (register_actor (bank_new 7) (player 2) 20 Courser).1 (player 1) 10 Mustang).1.

Lemma two_riders_inv : bank_inv two_riders.
Proof. by apply register_actor_inv, register_actor_inv, bank_new_inv. Qed.

Lemma two_riders_acceptable :
  map_Forall (fun _ row => restore_checkpoint (checkpoint (row_actor row)) = Ok (row_actor row))
    (actors two_riders).
Proof.
  assert (Hacts : actors two_riders =
    <[player 1 := mkM3AuthorityActor 10 (actor_new Mustang)]>
      (<[player 2 := mkM3AuthorityActor 20 (actor_new Courser)]> ∅)) by (by vm_compute).
  rewrite Hacts. intros p row. rewrite !lookup_insert_Some, lookup_empty.
  intros [[_ <-]|[_ [[_ <-]|[_ H]]]]; [by vm_compute|by vm_compute|done].
Qed.

Lemma bank_handoff_roundtrip_witness :
  bank_restore_checkpoint (bank_checkpoint two_riders) 8
  = Ok (mkM3AuthorityBank 8 (actors two_riders) (horse_owners two_riders)) /\
  bank_restore_checkpoint (bank_checkpoint two_riders) 9 = Err BankEpochMismatch.
Proof.
  split.
  - exact (bank_handoff_roundtrip two_riders 8 two_riders_inv ltac:(by vm_compute) two_riders_acceptable).
  - exact (bank_handoff_roundtrip two_riders 9 two_riders_inv ltac:(by vm_compute) two_riders_acceptable).
Defined.

Definition two_rider_handoff : M3AuthorityCheckpointV2 :=
  mkM3AuthorityCheckpointV2 M3_WIRE_VERSION 7
    [mkM3AuthorityActorCheckpoint (player 1) 10 (checkpoint (actor_new Mustang));
     mkM3AuthorityActorCheckpoint (player 2) 20 (checkpoint (actor_new Courser))].

Lemma bank_restore_safe_witness :
  exists b, bank_restore_checkpoint two_rider_handoff 8 = Ok b /\ bank_inv b.
Proof.
  destruct (bank_restore_checkpoint two_rider_handoff 8) as [b|] eqn:Hb; [|by vm_compute in Hb].
  exists b. split; [done|]. apply (bank_restore_safe two_rider_handoff 8 b Hb).
Defined.
