(* ===== verification/M3Combat.v ===== *)
(** * Combat on foot and on horseback together ([m3_combat.rs])

    [M3CombatAuthority] owns the rifle authority, the target registry and the bank of
    actors of a match. Its mutations prepare a candidate and commit it only when every
    kernel agreed, so an operation is a step of the candidate under [transaction]. *)

From S2P Require Import Prelude MachineInt Ordered Clock Identifiers Stance Spur Combat M3 HorseVitality Recall OnFoot.
From S2P Require Import ActorGameplay AuthorityBank Aim WeaponKernel ShotLedger Targets CombatAuthority.
Open Scope Z_scope.

Definition M3_RIDER_MAX_HEALTH : Z := 100.
Definition M3_HORSE_BODY_HALF_LENGTH_MM : Z := 900.
Definition M3_HORSE_BODY_RADIUS_MM : Z := 650.
Definition M3_HORSE_HEAD_RADIUS_MM : Z := 350.

Record M3HorseTargetPose := mkM3HorseTargetPose {
  m3_pose_tick : SimulationTick;
  m3_pose_rider : PlayerId;
  m3_body_center : QuantizedOrigin;
  m3_body_forward : QuantizedDirection;
  m3_head_center : QuantizedOrigin;
}.

Record M3AuthorityShot := mkM3AuthorityShot {
  m3_shot : AuthorityShot;
  horse_damage : option M3AuthorityHorseDamage;
}.

Record M3ReloadCheckpointV2 := mkM3ReloadCheckpointV2 {
  reload_rider : PlayerId;
  reload_current_tick : option SimulationTick;
  reload_row_held : bool;
  reload_row : option ReloadSnapshot;
}.

Record M3ReloadClock := mkM3ReloadClock {
  clock_tick : option SimulationTick;
  reload_held : bool;
}.
#[export] Instance M3ReloadClock_settable : Settable M3ReloadClock := fun c =>
  mkM3ReloadClock (clock_tick c) (reload_held c).
Definition reload_clock_default : M3ReloadClock := mkM3ReloadClock None false.

Inductive M3CombatAuthorityError :=
| M3InvalidTickRate
| UnknownActorOrTarget
| M3ActorState (e : M3AuthorityError)
| M3TargetState (e : TargetRegistryError)
| CrossKernelInvariant
| DamageSequenceExhausted.

Record M3CombatAuthority := mkM3CombatAuthority {
  combat : CombatAuthority;
  registry : TargetRegistry;
  bank : M3AuthorityBank;
  rider_entities : gmap PlayerId EntityId;
  reload_clocks : gmap PlayerId M3ReloadClock;
  next_horse_damage_sequence : Z;
}.
#[export] Instance M3CombatAuthority_settable : Settable M3CombatAuthority := fun a =>
  mkM3CombatAuthority (combat a) (registry a) (bank a) (rider_entities a) (reload_clocks a)
    (next_horse_damage_sequence a).

(** ** Transactions *)

(** A step of the candidate. [Panicked] is an [expect] of a component. *)
Abbreviation m3_step := (M M3CombatAuthority (fault M3CombatAuthorityError)) (only parsing).

(** [let mut candidate = self.clone(); ...; *self = candidate;] *)
Definition transaction {A} (m : m3_step A) : m3_step A := fun self =>
  match m self with
  | (candidate, Ok a) => (candidate, Ok a)
  | (_, Err e) => (self, Err e)
  end.

Definition or_fail {A} (o : option A) (e : M3CombatAuthorityError) : m3_step A :=
  match o with Some a => sret a | None => sfail (Raised e) end.
Definition or_panic {A} (o : option A) : m3_step A :=
  match o with Some a => sret a | None => sfail Panicked end.

Definition on_bank {A} (f : M3AuthorityBank -> M3AuthorityBank * result A M3AuthorityError) : m3_step A :=
  fun self => let '(b, r) := f (bank self) in
    (self <| bank := b |>, map_err (fun e => Raised (M3ActorState e)) r).
Definition on_registry {A} (f : TargetRegistry -> TargetRegistry * result A TargetRegistryError) : m3_step A :=
  fun self => let '(r, out) := f (registry self) in
    (self <| registry := r |>, map_err (fun e => Raised (M3TargetState e)) out).

Definition shooter_kernel (self : CombatAuthority) (p : PlayerId) : option CombatKernel :=
  kernel <$> shooters self !! p.
(** A mutation through [shooter_kernel_mut]. *)
Definition set_kernel (self : CombatAuthority) (p : PlayerId) (k : CombatKernel) : CombatAuthority :=
  self <| shooters := alter (fun s => s <| kernel := k |>) p (shooters self) |>.
Definition on_kernel {A} (p : PlayerId) (f : CombatKernel -> CombatKernel * A) : m3_step A :=
  fun self =>
    match shooter_kernel (combat self) p with
    | None => (self, Err (Raised UnknownActorOrTarget))
    | Some k => let '(k, a) := f k in (self <| combat := set_kernel (combat self) p k |>, Ok a)
    end.

(** ** Construction and the handoff *)

Definition m3_new (tick_rate lobby_seed epoch : Z) : result M3CombatAuthority M3CombatAuthorityError :=
  match authority_new tick_rate lobby_seed with
  | Err _ => Err M3InvalidTickRate
  | Ok c =>
      let '(c, accepted) := set_authority_epoch c epoch in
      if negb accepted then Err CrossKernelInvariant
      else
        match registry_new tick_rate with
        | Err _ => Err M3InvalidTickRate
        | Ok r => Ok (mkM3CombatAuthority c r (bank_new epoch) ∅ ∅ 1)
        end
  end.

(** The rows of the loop agree with the components. *)
Definition row_agrees (c : CombatAuthority) (r : TargetRegistry) (b : M3AuthorityBank)
    (riders : gmap PlayerId EntityId) (seen : gset EntityId) (row : M3AuthorityActorCheckpoint)
    (reload : M3ReloadCheckpointV2) : option EntityId :=
  let player := rider_player_id row in
  rider_entity ← riders !! player;
  let horse_entity := horse_entity_id row in
  a ← bank_actor b player;
  rider ← targets r !! rider_entity;
  mount ← targets r !! horse_entity;
  if (rider_entity =? horse_entity) || bool_decide (rider_entity ∈ seen) || bool_decide (horse_entity ∈ seen)
     || is_none (shooter_kernel c player)
     || negb (bool_decide (owner_peer_id (definition rider) = Some player))
     || negb (target_max_health (definition rider) =? M3_RIDER_MAX_HEALTH)
     || negb (bool_decide (owner_peer_id (definition mount) = Some player))
     || negb (team_id (definition mount) =? team_id (definition rider))
     || negb (target_max_health (definition mount) =? max_health (class (horse a)))
     || negb (bool_decide (Targets.health r horse_entity = Some (HorseVitality.health (horse a))))
     || negb (bool_decide (reload_rider reload = player))
     || negb (bool_decide (actor_current_tick a = reload_current_tick reload))
  then None else Some rider_entity.

(** The loop over actors and reloads, [zip]ped. *)
Fixpoint restore_loop (r : TargetRegistry) (b : M3AuthorityBank) (riders : gmap PlayerId EntityId)
    (rows : list (M3AuthorityActorCheckpoint * M3ReloadCheckpointV2)) (seen : gset EntityId)
    (c : CombatAuthority) (clocks : gmap PlayerId M3ReloadClock)
    : option (CombatAuthority * gmap PlayerId M3ReloadClock) :=
  match rows with
  | [] => Some (c, clocks)
  | (row, reload) :: rows =>
      let player := rider_player_id row in
      rider_entity ← row_agrees c r b riders seen row reload;
      k ← shooter_kernel c player;
      let '(k, ok) := restore_m3_reload k (reload_row reload) in
      if negb ok then None
      else restore_loop r b riders rows ({[rider_entity; horse_entity_id row]} ∪ seen)
             (set_kernel c player k)
             (<[player := mkM3ReloadClock (reload_current_tick reload) (reload_row_held reload)]> clocks)
  end.

Definition restore_components (c : CombatAuthority) (r : TargetRegistry) (b : M3AuthorityBank)
    (riders : gmap PlayerId EntityId) (reloads : list M3ReloadCheckpointV2) (next : Z)
    : result M3CombatAuthority M3CombatAuthorityError :=
  let rows := checkpoint_actors (bank_checkpoint b) in
  let n := Z.of_nat (length rows) in
  if (next =? 0)
     || negb (authority_epoch c =? bank_authority_epoch b)
     || negb (n =? Z.of_nat (size riders))
     || negb (n =? Z.of_nat (length reloads))
     || negb (Z.of_nat (size (shooters c)) =? n)
     || negb (Z.of_nat (size (targets r)) =? saturating_mul 64 n 2)
  then Err CrossKernelInvariant
  else
    match restore_loop r b riders (zip rows reloads) ∅ c ∅ with
    | None => Err CrossKernelInvariant
    | Some (c, clocks) => Ok (mkM3CombatAuthority c r b riders clocks next)
    end.

Definition m3_reload (self : M3CombatAuthority) (p : PlayerId) : option ReloadSnapshot :=
  shooter_kernel (combat self) p ≫= reload.

Definition reload_checkpoint_row (self : M3CombatAuthority) (row : M3AuthorityActorCheckpoint)
    : M3ReloadCheckpointV2 :=
  let p := rider_player_id row in
  let clock := default reload_clock_default (reload_clocks self !! p) in
  mkM3ReloadCheckpointV2 p (clock_tick clock) (reload_held clock) (m3_reload self p).

Definition reload_checkpoints (self : M3CombatAuthority) : list M3ReloadCheckpointV2 :=
  reload_checkpoint_row self <$> checkpoint_actors (bank_checkpoint (bank self)).

(** The first entry in key order. *)
Definition rider_owner (self : M3CombatAuthority) (e : EntityId) : option PlayerId :=
  fst <$> head (filter (fun entry => entry.2 = e) (btree_list (rider_entities self))).

(** ** Registration *)

(** [None] is a panic of the rifle authority. *)
Definition m3_register_actor (self : M3CombatAuthority) (p : PlayerId) (rider_entity horse_entity : EntityId)
    (c : HorseVitalityClass) (w : WeaponId) (team : Z) : M3CombatAuthority * option bool :=
  if (rider_entity =? horse_entity) || is_some (rider_entities self !! p) then (self, Some false)
  else
    let '(b, stored) := register_actor (bank self) p horse_entity c in
    if negb stored then (self, Some false)
    else
      match register_shooter (combat self) p w with
      | (_, None) => (self, None)
      | (_, Some false) => (self, Some false)
      | (combat, Some true) =>
          let '(r, rider) := register (registry self)
            (mkTargetDefinition rider_entity (Some p) team M3_RIDER_MAX_HEALTH) in
          if negb (is_ok rider) then (self, Some false)
          else
            let '(r, mount) := register r (mkTargetDefinition horse_entity (Some p) team (max_health c)) in
            if negb (is_ok mount) then (self, Some false)
            else
              (mkM3CombatAuthority combat r b (<[p := rider_entity]> (rider_entities self))
                 (<[p := reload_clock_default]> (reload_clocks self)) (next_horse_damage_sequence self),
               Some true)
      end.

(** ** Ticks *)

Local Open Scope step_scope.

Definition with_reload_active (input : ActorM3TickInput) (active : bool) : ActorM3TickInput :=
  let f := in_on_foot input in
  mkActorM3TickInput (in_tick input)
    (mkOnFootTickInput (foot_tick f) (move_direction f) (sprint_pressed f) (crouch_pressed f) active)
    (interact_pressed input) (spur_pressed input) (mounted_for_spur input) (rider_position input)
    (return_horse_position input) (return_horse_moving input).

(** The reload clock of a tick: progress, then a new reload on a rising edge. *)
Definition advance_reload_clock (p : PlayerId) (tick : SimulationTick) (pressed paused : bool)
    : m3_step unit :=
  let* self := sget in
  let* clock := or_fail (reload_clocks self !! p) UnknownActorOrTarget in
  let elapsed := default 0 (previous ← clock_tick clock; checked_duration_since tick previous) in
  let* outcome := on_kernel p (fun k => advance_m3_reload k elapsed paused) in
  do* (if pressed && negb (reload_held clock) && negb paused && negb (reload_completed outcome)
       then on_kernel p (fun k => if is_none (reload k) then ((request_m3_reload k).1, tt) else (k, tt))
       else sret tt) in
  smodify (fun self => self <| reload_clocks := <[p := mkM3ReloadClock (Some tick) pressed]> (reload_clocks self) |>).

(** The registry follows the health of the actor's horse. *)
Definition synchronize_horse (p : PlayerId) : m3_step unit :=
  let* self := sget in
  let* h := or_fail (bank_horse_entity_id (bank self) p) UnknownActorOrTarget in
  let* a := or_fail (bank_actor (bank self) p) UnknownActorOrTarget in
  on_registry (fun r => synchronize_health r h (HorseVitality.health (horse a))).

Definition m3_advance_actor (p : PlayerId) (input : ActorM3TickInput) : m3_step ActorM3TickOutput :=
  transaction (
    let* self := sget in
    let pressed := reload_active (in_on_foot input) in
    let input := with_reload_active input (is_some (m3_reload self p)) in
    let* out := on_bank (fun b => advance_actor b p input) in
    let paused := is_some_and (out_on_foot out) (fun state => negb (can_fire state)) in
    do* advance_reload_clock p (in_tick input) pressed paused in
    do* synchronize_horse p in
    sret out).

Definition m3_issue_spur_credit (p : PlayerId) (tick : SimulationTick) (kind : SpurCreditKind)
    : m3_step (option Z) :=
  on_bank (fun b => issue_spur_credit b p tick kind).

Definition refill_rider_ammo (p : PlayerId) : m3_step WeaponAmmo :=
  transaction (
    let* a := on_kernel p refill_equipped_ammo in
    do* smodify (fun self =>
      self <| reload_clocks := alter (fun c => c <| reload_held := false |>) p (reload_clocks self) |>) in
    sret a).

(** What the candidate of a respawn goes through. *)
Definition respawn_candidate (p : PlayerId) (rider_entity : EntityId) (tick : SimulationTick) : m3_step unit :=
  let* self := sget in
  let* horse_entity := or_fail (bank_horse_entity_id (bank self) p) UnknownActorOrTarget in
  do* (fun self => let '(b, ok) := respawn_actor (bank self) p in
         (self <| bank := b |>, if ok then Ok tt else Err (Raised UnknownActorOrTarget))) in
  let* ok := on_kernel p (fun k => respawn_at k tick) in
  do* (if ok then sret tt else sfail (Raised UnknownActorOrTarget)) in
  do* on_registry (fun r => Targets.respawn r rider_entity) in
  do* on_registry (fun r => Targets.respawn r horse_entity) in
  smodify (fun self =>
    self <| reload_clocks := <[p := mkM3ReloadClock (Some tick) false]> (reload_clocks self) |>).

Definition respawn_rider (p : PlayerId) (tick : SimulationTick) : m3_step unit :=
  let* self := sget in
  let* rider_entity := or_fail (rider_entities self !! p) UnknownActorOrTarget in
  transaction (respawn_candidate p rider_entity tick).

(** ** Poses *)

Definition m3_record_horse_pose (pose : M3HorseTargetPose) : m3_step unit :=
  let* self := sget in
  let* horse_entity := or_fail (bank_horse_entity_id (bank self) (m3_pose_rider pose)) UnknownActorOrTarget in
  let* a := or_fail (bank_actor (bank self) (m3_pose_rider pose)) UnknownActorOrTarget in
  if negb (bool_decide (actor_current_tick a = Some (m3_pose_tick pose)))
  then sfail (Raised CrossKernelInvariant)
  else
    on_registry (fun r => record_horse_pose r
      (mkHorseTargetPoseSnapshot (m3_pose_tick pose) horse_entity (m3_body_center pose) (m3_body_forward pose)
         M3_HORSE_BODY_HALF_LENGTH_MM M3_HORSE_BODY_RADIUS_MM (m3_head_center pose) M3_HORSE_HEAD_RADIUS_MM
         (bool_decide (horse_state (horse a) = Available) && (HorseVitality.health (horse a) >? 0)))).

Definition m3_record_rider_pose (p : PlayerId) (pose : TargetPoseSnapshot) : m3_step unit :=
  let* self := sget in
  let* expected := or_fail (rider_entities self !! p) UnknownActorOrTarget in
  if negb (pose_entity pose =? expected) then sfail (Raised UnknownActorOrTarget)
  else if is_none_or (bank_actor (bank self) p)
            (fun a => negb (bool_decide (actor_current_tick a = Some (pose_tick pose))))
  then sfail (Raised CrossKernelInvariant)
  else on_registry (fun r => record_pose r pose).

(** ** Shots *)

Definition not_eliminated (r : ShotResult) : ShotResult :=
  mkShotResult (result_tick r) (result_shooter r) (result_weapon r) (outcome r) (rejection_reason r)
    (result_direction r) (target_id r) (hit_zone r) (damage r) (distance_mm r) false.
Definition map_result (f : ShotResult -> ShotResult) (s : AuthorityShot) : AuthorityShot :=
  mkAuthorityShot (f (shot_result s)) (telemetry s) (dive_fire_rejection s) (shot_metadata s) (gameplay_events s).

(** The actor's share of a hit on its horse; both kernels must agree on it. *)
Definition route_horse_damage (command : ShotCommand) (authority_tick : SimulationTick)
    (rider : RiderSnapshot) (r : ShotResult) (target : EntityId) : m3_step M3AuthorityHorseDamage :=
  let* self := sget in
  let* pose := or_fail (horse_pose_at (registry self) target (cmd_tick command)) CrossKernelInvariant in
  let sequence := next_horse_damage_sequence self in
  let* next := or_fail (checked_add 64 sequence 1) DamageSequenceExhausted in
  do* smodify (fun self => self <| next_horse_damage_sequence := next |>) in
  let damage_command :=
    mkHorseDamageCommand (mkReceiptId (bank_authority_epoch (bank self)) authority_tick sequence)
      (damage r) (horse_body_center pose) (muzzle_origin rider) in
  let* applied := or_panic (bank_apply_horse_damage (bank self) target damage_command) in
  let* routed := on_bank (fun _ => applied) in
  let* routed := or_fail routed CrossKernelInvariant in
  let* self := sget in
  let* a := or_fail (bank_actor (bank self) (damaged_rider routed)) CrossKernelInvariant in
  let* target_health := or_fail (Targets.health (registry self) target) CrossKernelInvariant in
  let app := application (damage_effects routed) in
  if negb (HorseVitality.health (horse a) =? target_health)
     || negb (health_after app =? target_health)
     || negb (Bool.eqb (spooked app) (eliminated r))
  then sfail (Raised CrossKernelInvariant)
  else sret routed.

Definition shot_spur_kind (s : RiderStance) (r : ShotResult) : option SpurCreditKind :=
  match s, outcome r, eliminated r with
  | SaddleDiveAirborne, ShotHit, true => Some SaddleDiveElimination
  | Mounted, ShotHit, true => Some MountedElimination
  | Mounted, ShotHit, false => Some MountedHit
  | _, _, _ => None
  end.

(** The horse a hit met, if its target is one. *)
Definition hit_horse (self : M3CombatAuthority) (r : ShotResult) : option EntityId :=
  if bool_decide (outcome r = ShotHit)
  then target ← target_id r; if is_some (horse_owner (bank self) target) then Some target else None
  else None.

Definition credit_shot (command : ShotCommand) (authority_tick : SimulationTick) (rider : RiderSnapshot)
    (r : ShotResult) : m3_step unit :=
  match shot_spur_kind (stance (rider_riding rider)) r with
  | None => sret tt
  | Some kind =>
      let* points := on_bank (fun b => issue_spur_credit b (cmd_shooter command) authority_tick kind) in
      let* _points := or_fail points CrossKernelInvariant in sret tt
  end.

Section shots.
Context `{Libm}.

(** [combat.validate_shot] of the candidate. *)
Definition fire_shot (command : ShotCommand) (authority_tick : SimulationTick) (rider : RiderSnapshot)
    : m3_step AuthorityShot := fun self =>
  match validate_shot (combat self) command authority_tick rider (registry self) with
  | (c, r, Some shot) => (self <| combat := c |> <| registry := r |>, Ok shot)
  | (_, _, None) => (self, Err Panicked)
  end.

Definition resolve_candidate (command : ShotCommand) (authority_tick : SimulationTick) (rider : RiderSnapshot)
    : m3_step M3AuthorityShot :=
  let* shot := fire_shot command authority_tick rider in
  let* self := sget in
  let* damage :=
    match hit_horse self (shot_result shot) with
    | None => sret None
    | Some target =>
        let* routed := route_horse_damage command authority_tick rider (shot_result shot) target in
        sret (Some routed)
    end in
  let shot := if is_some damage then map_result not_eliminated shot else shot in
  do* credit_shot command authority_tick rider (shot_result shot) in
  sret (mkM3AuthorityShot shot damage).

Definition resolve_shot (command : ShotCommand) (authority_tick : SimulationTick) (rider : RiderSnapshot)
    : m3_step M3AuthorityShot := transaction (resolve_candidate command authority_tick rider).
End shots.
