(* ===== verification/M3CombatRun.v ===== *)
(** * Runs of the composed authority of [m3_combat.rs]

    The rifles, targets and actors of a match form one graph: what every operation
    keeps of it, when a shot resolves, what it does to a horse and its rider, and
    which graphs a handoff reassembles. *)

From S2P Require Import Prelude MachineInt Ordered Clock Bytes Identifiers Stance Spur Combat M3 HorseVitality Recall OnFoot.
From S2P Require Import ActorGameplay DiveMath Aim WeaponKernel WeaponRun ShotLedger Targets CombatAuthority AuthorityRun AuthorityBank M3Combat.
Open Scope Z_scope.

(** ** Reloads a handoff accepts *)

(** A reload in progress has rounds to move. *)
Definition reload_startable (k : CombatKernel) : Prop :=
  is_Some (reload k) ->
  magazine (equipped_ammo k) < magazine_capacity (weapon_stats (equipped k)) /\ reserve (equipped_ammo k) <> 0.

Lemma no_reload_startable k : reload k = None -> reload_startable k.
Proof. intros H [r Hr]. congruence. Qed.

Lemma advance_reload_startable k e p : reload_startable k -> reload_startable (advance_reload_by k e p).1.
Proof.
  intros Hk. unfold advance_reload_by. destruct (reload k) as [r|] eqn:Hr; [|exact Hk].
  destruct (_ <=? _).
  - destruct (inventory k !! _); [destruct (reload_ammo _ _)|]; by apply no_reload_startable.
  - intros _. apply Hk. by exists r.
Qed.

Lemma begin_reload_startable k : reload_startable k -> reload_startable (begin_reload k).1.
Proof.
  intros Hk. unfold begin_reload. destruct (holstered k); [done|]. destruct (is_some (reload k)); [done|].
  destruct (Z.leb_spec (magazine_capacity (weapon_stats (equipped k))) (magazine (equipped_ammo k))); [done|].
  destruct (Z.eqb_spec (reserve (equipped_ammo k)) 0); [done|]. intros _. done.
Qed.

Lemma advance_to_startable k t r : reload_startable k -> reload_startable (advance_to k t r).1.
Proof.
  intros Hk. unfold advance_to. destruct (checked_duration_since _ _) as [n|]; [|done].
  set (k1 := if carries_mounted_weapon (stance r) then _ else _).
  assert (H1 : reload_startable k1) by (unfold k1; destruct (carries_mounted_weapon _); [exact Hk|by apply no_reload_startable]).
  set (k2 := k1 <| recoil := _ |>).
  pose proof (advance_reload_startable k2 n (sprint_gallop r) H1) as H2.
  destruct (advance_reload_by k2 n (sprint_gallop r)) as [k3 o]. exact H2.
Qed.

Section fire.
Context `{Libm}.

Lemma fire_startable k t d r seed k' out :
  weapon_inv k -> u64 t -> request_fire_detailed k t d r seed = (k', out) ->
  reload_startable k -> reload_startable k'.
Proof.
  intros Hk Ht Hf Hs. destruct (fire_cases k t d r seed k' out Hk Ht Hf)
    as [[-> _]|(k1 & o & Hadv & _ & Hcase)]; [done|].
  pose proof (advance_to_startable k t r Hs) as H1. rewrite Hadv in H1.
  destruct Hcase as [[-> _]|(dive & spread & sway & dir & shot & _ & Hgate & _ & _ & Hc & _)]; [done|].
  apply no_reload_startable. apply fire_gate_None in Hgate as (_ & _ & _ & _ & Hr & _).
  unfold commit_shot in Hc. destruct (inventory k1 !! equipped k1); [|done]. cbn [mbind option_bind] in Hc.
  injection Hc as <- _. by destruct (is_some dive).
Qed.

(** What a command does to the kernels: at most one fire request of the shooter's. *)
Lemma validate_kernels c command now rider reg id s' :
  shooters (validate_shot c command now rider reg).1.1 !! id = Some s' ->
  exists s, shooters c !! id = Some s /\
    (kernel s' = kernel s \/
     exists out, request_fire_detailed (kernel s) (cmd_tick command) (cmd_direction command)
       (rider_riding rider) (cmd_seed command) = (kernel s', out)).
Proof.
  unfold validate_shot. destruct (shooters c !! cmd_shooter command) as [s|] eqn:Hs; [|eauto].
  destruct (admission _ _ _ _ _); [eauto|].
  destruct (claim_gate _ _ _).
  { unfold set_shooter. simpl. rewrite lookup_insert_Some. intros [[<- <-]|[_ ?]]; eauto. }
  cbn [kernel]. destruct (request_fire_detailed _ _ _ _ _) as [k out] eqn:Ef.
  assert (Hset : shooters (set_shooter c (cmd_shooter command)
      ((s <| last_command_tick := Some (cmd_tick command) |>) <| kernel := k |>)) !! id = Some s' ->
    exists s, shooters c !! id = Some s /\ (kernel s' = kernel s \/
      exists out, request_fire_detailed (kernel s) (cmd_tick command) (cmd_direction command)
       (rider_riding rider) (cmd_seed command) = (kernel s', out))).
  { unfold set_shooter. simpl. rewrite lookup_insert_Some. intros [[<- <-]|[_ ?]]; [|by eauto].
    exists s. split; [done|]. right. by exists out. }
  destruct out as [prepared|[|]]; [|exact Hset|exact Hset].
  unfold conclude_shot. destruct (resolve_hit _ _ _ _) as [[? [[[[[? ?] ?] ?] ?] ?]]|]; [|exact Hset].
  destruct (record_accepted _ _). destruct (observe_result _ _ _). exact Hset.
Qed.

Lemma validate_frame c command now rider reg :
  let c' := (validate_shot c command now rider reg).1.1 in
  authority_epoch c' = authority_epoch c /\ dom (shooters c') = dom (shooters c).
Proof.
  unfold validate_shot. destruct (shooters c !! cmd_shooter command) as [s|] eqn:Hs; [|done].
  assert (Hdom : forall s', dom (<[cmd_shooter command := s']> (shooters c)) = dom (shooters c)).
  { intros s'. rewrite dom_insert_L. apply subseteq_union_1_L, singleton_subseteq_l, elem_of_dom. by exists s. }
  destruct (admission _ _ _ _ _); [done|]. destruct (claim_gate _ _ _); [by split; [|apply Hdom]|].
  destruct (request_fire_detailed _ _ _ _ _) as [k out].
  destruct out as [prepared|[|]]; [|by split; [|apply Hdom]|by split; [|apply Hdom]].
  unfold conclude_shot. destruct (resolve_hit _ _ _ _) as [[? [[[[[? ?] ?] ?] ?] ?]]|]; [|by split; [|apply Hdom]].
  destruct (record_accepted _ _). destruct (observe_result _ _ _). by split; [|apply Hdom].
Qed.
End fire.

(** ** Targets *)

Section target.
Context `{Libm}.

(** What a hit says of its target: alive, hostile, with geometry at the tick. *)
Lemma nearest_hit_geometry r tick origin direction clamp shooter_id team h :
  registry_inv r -> nearest_hit r tick origin direction clamp shooter_id team = Some (Some h) ->
  0 <= hit_distance_mm h /\
  exists record g, targets r !! hit_target h = Some record /\ 0 < target_health record /\
    owner_peer_id (definition record) <> Some shooter_id /\ team_id (definition record) <> team /\
    geometry_at record tick = Some g.
Proof.
  intros Hr Hhit.
  destruct (nearest_hit_hostile _ _ _ _ _ _ _ _ Hr Hhit) as (Hd & record & Hrec & Hh & Ho & Ht).
  split; [done|].
  destruct (normalized (vec_from_direction direction)) as [ray|] eqn:Hray.
  2:{ unfold nearest_hit in Hhit. by rewrite Hray in Hhit. }
  destruct (nearest_hit_best _ _ _ _ _ _ _ _ _ Hray Hhit) as (seen & [Hin _] & Hseen).
  apply Hseen in Hin as (id & record' & cs & Hid & Hcs & Hc).
  destruct (candidate_facts _ _ _ _ _ _ _ _ _ Hcs Hc) as (_ & _ & _ & Heq & g & d & Hg & _).
  pose proof (ids_ok r Hr _ _ Hid) as Hk. cbv beta in Hk.
  assert (record' = record) as -> by congruence. by exists record, g.
Qed.

Lemma weapon_damage_u16 w d zone : 0 <= d -> in_uint 16 (damage_at (weapon_stats w) d zone).
Proof.
  intros Hd. destruct (weapon_stats_ok w) as [Hok _]. pose proof (body_damage_at_bounds _ d Hok Hd) as Hb.
  pose proof Hok as (_ & _ & Hmin & Hbody & _ & _ & Hhead).
  destruct zone; [unfold damage_at; clear -Hb Hmin Hbody; change (2 ^ 10) with 1024 in *; int_lia|].
  rewrite head_damage_eq by done. change (2 ^ 10) with 1024 in *. unfold in_uint. change (2 ^ 16) with 65536.
  split; [apply Z.div_pos; nia|]. apply Z.div_lt_upper_bound; nia.
Qed.

(** Every command is answered; the registry loses at most the damage of one hit. *)
Definition shot_outcome (command : ShotCommand) (rider : RiderSnapshot) (reg reg' : TargetRegistry)
    (r : ShotResult) : Prop :=
  (outcome r <> ShotHit /\ reg' = reg) \/
  (exists id record g left, outcome r = ShotHit /\ target_id r = Some id /\ targets reg !! id = Some record /\
     0 < target_health record /\ owner_peer_id (definition record) <> Some (cmd_shooter command) /\
     team_id (definition record) <> rider_team rider /\ geometry_at record (cmd_tick command) = Some g /\
     in_uint 16 (damage r) /\ apply_damage reg id (damage r) = (reg', (left, eliminated r))).

Lemma shot_cases c command now rider reg :
  authority_inv c -> registry_ok reg -> u64 (cmd_tick command) ->
  exists c' reg' shot, validate_shot c command now rider reg = (c', reg', Some shot) /\
    authority_inv c' /\ registry_ok reg' /\ shot_outcome command rider reg reg' (shot_result shot) /\
    (outcome (shot_result shot) = ShotHit -> is_Some (shooters c !! cmd_shooter command)).
Proof.
  intros Ha [Hreg Htot] Ht. destruct (validate_gates c command now rider reg Ha Ht)
    as [(c' & shot & Hv & _ & (_ & _ & (Ho & _) & _) & Hc')|(s & k' & p & Hs & Hadm & Hf & Ha1 & Hv)].
  - exists c', reg, shot. split_and!; try done; [left; split; [by rewrite Ho|done]|by rewrite Ho].
  - destruct (conclude_spec c command now rider reg s k' p Ha Ha1 Hreg Htot Ht Hs Hadm Hf)
      as (c' & reg' & shot & Hc & (s1 & k1 & prep & meta & _ & _ & _ & _ & _ & _ & _ & _ & hit & Hnear & Hhit) & Hc' & Htot').
    exists c', reg', shot. rewrite Hv. split; [done|]. split; [done|].
    destruct hit as [h|].
    2:{ destruct Hhit as (-> & Ho & _). split; [done|]. split; [left; split; [by rewrite Ho|done]|by rewrite Ho]. }
    destruct Hhit as (Ho & Htg & Hdmg & (left_ & Happ) & _).
    destruct (nearest_hit_geometry _ _ _ _ _ _ _ _ Hreg Hnear) as (Hd & record & g & Hrec & Hh & How & Hte & Hg).
    assert (Hu : in_uint 16 (damage (shot_result shot))) by (rewrite Hdmg; by apply weapon_damage_u16).
    assert (Hr' : registry_inv reg').
    { eapply apply_damage_spec; [exact Hreg| |exact Hrec|exact Happ]. apply Hu. }
    split; [by split|]. split; [|by intros _; exists s]. right. by exists (hit_target h), record, g, left_.
Qed.
End target.

(** ** What an actor's tick keeps *)

(** A step that never changes the view [f] of its state. *)
Definition keeps {S E A T} (f : S -> T) (m : M S E A) : Prop := forall s, f (m s).1 = f s.

Lemma keeps_bind {S E A B T} (f : S -> T) (m : M S E A) (k : A -> M S E B) :
  keeps f m -> (forall a, keeps f (k a)) -> keeps f (sbind m k).
Proof.
  intros Hm Hk s. unfold sbind. specialize (Hm s). destruct (m s) as [s1 [a|e]]; [|exact Hm].
  rewrite (Hk a s1). exact Hm.
Qed.
Lemma keeps_ret {S E A T} (f : S -> T) (a : A) : keeps f (sret (E := E) a).
Proof. by intros s. Qed.
Lemma keeps_fail {S E A T} (f : S -> T) (e : E) : keeps f (sfail (A := A) e).
Proof. by intros s. Qed.
Lemma keeps_get {S E T} (f : S -> T) : keeps f (sget (E := E)).
Proof. by intros s. Qed.

(** The species, and the receipts of damage and credits. *)
Definition receipts (a : ActorGameplayKernel) :
    HorseVitalityClass * option HorseDamageId * option SpurCreditId :=
  (class (horse a), last_damage_id (horse a), spur_last_credit_id (spur a)).

Lemma regenerate_keeps k prev t :
  class (regenerate k prev t) = class k /\ last_damage_id (regenerate k prev t) = last_damage_id k.
Proof. unfold regenerate. repeat case_match; done. Qed.

Lemma keeps_horse_tick t : keeps receipts (lift_horse (fun h => horse_advance_tick h t)).
Proof.
  intros a. unfold lift_horse, horse_advance_tick. destruct (is_some_and _ _); [by destruct a|].
  destruct (regenerate_keeps ((horse a) <| horse_current_tick := Some t |>) (horse_current_tick (horse a)) t) as [H1 H2].
  set (h := regenerate _ _ _) in *. unfold receipts.
  destruct (bool_decide _); [simpl; by rewrite H1, H2|].
  destruct (bolt_started_tick h); [|simpl; by rewrite H1, H2]. destruct (_ <=? _); simpl; by rewrite H1, H2.
Qed.

Lemma keeps_recall {A} (m : M RecallKernel M3Error A) : keeps receipts (lift_recall m).
Proof. intros a. unfold lift_recall. by destruct (m (recall a)). Qed.
Lemma keeps_foot {A} (m : M OnFootKernel M3Error A) : keeps receipts (lift_foot m).
Proof. intros a. unfold lift_foot. by destruct (m (on_foot a)). Qed.

Lemma keeps_spur_tick i : keeps receipts (advance_spur i).
Proof.
  intros a. unfold advance_spur.
  assert (Hk : forall k t b ctx, spur_last_credit_id (Spur.advance_tick k t b ctx).1 = spur_last_credit_id k).
  { intros k t b ctx. unfold Spur.advance_tick. destruct (is_some_and _ _); [done|]. cbv zeta.
    destruct (is_some_and (charge_end_tick _) _), (_ && _ && _); [destruct ctx|..|destruct ctx|]; done. }
  specialize (Hk (spur a) (in_tick i) (spur_pressed i) (spur_context a i)).
  destruct (Spur.advance_tick _ _ _ _) as [k r]. unfold receipts. simpl in *. by rewrite Hk.
Qed.

Lemma keeps_remount i : keeps receipts (try_remount i).
Proof.
  unfold try_remount. apply keeps_bind; [apply keeps_get|]. intros a. destruct (_ && _); [|apply keeps_ret].
  apply keeps_bind; [apply keeps_recall|]. intros [|]; [|apply keeps_ret].
  apply keeps_bind; [|intros; apply keeps_ret]. intros b. unfold smodify, restore_returned_horse, receipts. simpl.
  by destruct (bool_decide _).
Qed.

Lemma keeps_recall_stage i d : keeps receipts (advance_recall i d).
Proof.
  unfold advance_recall. apply keeps_bind; [apply keeps_get|]. intros a. destruct d as [t|].
  - destruct (_ <? _); [|apply keeps_ret]. apply keeps_bind; [apply keeps_recall|intros; apply keeps_ret].
  - destruct (bool_decide _); [|apply keeps_ret]. apply keeps_bind; [apply keeps_recall|]. intros o.
    apply keeps_bind; [apply keeps_get|intros; apply keeps_ret].
Qed.

Lemma keeps_request i so ro : keeps receipts (request_return i so ro).
Proof.
  unfold request_return. apply keeps_bind; [apply keeps_get|]. intros a. destruct (bool_decide _).
  - apply keeps_bind; [apply keeps_recall|]. intros [|]; [|apply keeps_fail].
    apply keeps_bind; [apply keeps_get|intros; apply keeps_ret].
  - destruct (_ && _); [|apply keeps_ret]. apply keeps_bind; [apply keeps_recall|]. intros ?.
    apply keeps_bind; [apply keeps_get|intros; apply keeps_ret].
Qed.

Lemma tick_keeps_receipts a i : receipts (actor_advance_tick a i).1 = receipts a.
Proof.
  unfold actor_advance_tick. destruct (_ || _); [done|].
  match goal with |- receipts (?m ?s).1 = _ => change (receipts a) with (receipts s); cut (keeps receipts m); [intros Hm; exact (Hm s)|] end.
  apply keeps_bind; [apply keeps_horse_tick|intros d].
  apply keeps_bind; [|intros _].
  { unfold begin_recall. destruct d as [t|]; [|apply keeps_ret].
    apply keeps_bind; [apply keeps_get|]. intros b. destruct (horse_loss_tick b); [apply keeps_recall|apply keeps_fail]. }
  apply keeps_bind; [apply keeps_spur_tick|intros so].
  apply keeps_bind; [|intros fo].
  { unfold advance_on_foot. apply keeps_bind; [apply keeps_get|]. intros b. destruct (bool_decide _); [apply keeps_ret|].
    apply keeps_bind; [apply keeps_foot|intros; apply keeps_ret]. }
  apply keeps_bind; [apply keeps_recall_stage|intros ro].
  apply keeps_bind; [apply keeps_request|intros ro'].
  unfold finish_tick. apply keeps_bind; [apply keeps_get|]. intros b. apply keeps_bind; [apply keeps_remount|].
  intros c. apply keeps_bind; [apply keeps_get|intros; apply keeps_ret].
Qed.

(** ** The graph's invariant *)

(** A rider's two targets: both the rider's, of one team, with the rider's and the
    horse's maximum health; [synced] is whether the horse's target shows the health
    of the actor's horse. *)
Definition linked (synced : Prop) (r : TargetRegistry) (p : PlayerId) (e : EntityId)
    (row : M3AuthorityActor) : Prop :=
  e <> row_horse_entity_id row /\
  exists rider mount, targets r !! e = Some rider /\ targets r !! row_horse_entity_id row = Some mount /\
    owner_peer_id (definition rider) = Some p /\ owner_peer_id (definition mount) = Some p /\
    team_id (definition mount) = team_id (definition rider) /\
    target_max_health (definition rider) = M3_RIDER_MAX_HEALTH /\
    target_max_health (definition mount) = max_health (class (horse (row_actor row))) /\
    (history mount <> [] -> actor_current_tick (row_actor row) <> None) /\
    (synced -> target_health mount = HorseVitality.health (horse (row_actor row))).

(** Every player has one rifle, one actor, one rider target, one horse target and
    one reload clock; [out] is the player whose horse target may be behind. *)
Record bridge (out : option PlayerId) (a : M3CombatAuthority) : Prop := {
  br_combat : authority_inv (combat a);
  br_registry : registry_ok (registry a);
  br_bank : bank_inv (bank a);
  br_epoch : bank_authority_epoch (bank a) = authority_epoch (combat a) /\ u64 (authority_epoch (combat a));
  br_next : 1 <= next_horse_damage_sequence a < 2 ^ 64;
  br_shooters : dom (shooters (combat a)) = dom (actors (bank a));
  br_riders : dom (rider_entities a) = dom (actors (bank a));
  br_clocks : dom (reload_clocks a) = dom (actors (bank a));
  br_clock_ticks : map_Forall (fun _ c => opt_u64 (clock_tick c)) (reload_clocks a);
  br_actors : map_Forall (fun _ row => actor_inv (row_actor row)) (actors (bank a));
  br_linked : forall p e row, rider_entities a !! p = Some e -> actors (bank a) !! p = Some row ->
    linked (out <> Some p) (registry a) p e row;
  br_targets : forall id, is_Some (targets (registry a) !! id) -> exists p row,
    actors (bank a) !! p = Some row /\ (id = row_horse_entity_id row \/ rider_entities a !! p = Some id);
  br_size : size (targets (registry a)) = (2 * size (actors (bank a)))%nat;
  br_reloads : map_Forall (fun _ s => reload_startable (kernel s)) (shooters (combat a));
}.

Lemma linked_weaken (P Q : Prop) r p e row : (Q -> P) -> linked P r p e row -> linked Q r p e row.
Proof. intros HQ (Hne & rd & hd & H). split; [done|]. exists rd, hd. naive_solver. Qed.

Lemma bridge_weaken out a : bridge None a -> forall o, o = out -> bridge o a.
Proof.
  intros [] o _. constructor; try done. intros p e row He Hr. by eapply linked_weaken; [|eauto].
Qed.

Lemma bridge_row out a p :
  bridge out a -> p ∈ dom (actors (bank a)) ->
  exists row e s c, actors (bank a) !! p = Some row /\ rider_entities a !! p = Some e /\
    shooters (combat a) !! p = Some s /\ reload_clocks a !! p = Some c.
Proof.
  intros H Hp. pose proof Hp as Hp1. pose proof Hp as Hp2. pose proof Hp as Hp3.
  rewrite <- (br_shooters _ _ H) in Hp1. rewrite <- (br_riders _ _ H) in Hp2. rewrite <- (br_clocks _ _ H) in Hp3.
  apply elem_of_dom in Hp as [row ?], Hp1 as [s ?], Hp2 as [e ?], Hp3 as [c ?]. by exists row, e, s, c.
Qed.

(** Which player a target belongs to. *)
Lemma linked_owner P r p e row id record :
  linked P r p e row -> targets r !! id = Some record -> id = e \/ id = row_horse_entity_id row ->
  owner_peer_id (definition record) = Some p.
Proof. intros (_ & rd & hd & He & Hh & Ho & Ho' & _) Hr [-> | ->]; congruence. Qed.

(** *** What each part may do *)

Lemma set_kernel_eq c p s k :
  shooters c !! p = Some s -> set_kernel c p k = set_shooter c p (s <| kernel := k |>).
Proof.
  intros Hs. unfold set_kernel, set_shooter. destruct c as [rate seed epoch ss l]. simpl in *. f_equal.
  apply map_eq. intros id. destruct (decide (id = p)) as [-> |Hne].
  - by rewrite lookup_alter_eq, Hs, lookup_insert_eq.
  - by rewrite lookup_alter_ne, lookup_insert_ne.
Qed.

Section parts.
Context `{Libm}.

Lemma bridge_kernel out a p s op :
  bridge out a -> shooters (combat a) !! p = Some s -> weapon_op_ok op ->
  reload_startable (weapon_step (kernel s) op).1 ->
  bridge out (a <| combat := set_kernel (combat a) p (weapon_step (kernel s) op).1 |>).
Proof.
  intros Hb Hs Hop Hr. rewrite (set_kernel_eq _ _ s) by done.
  pose proof (kernel_step_inv (combat a) p s op (br_combat _ _ Hb) Hs Hop) as Hc.
  destruct Hb. constructor; simpl; try done.
  - rewrite dom_insert_lookup_L; [done|by exists s].
  - by apply map_Forall_insert_2.
Qed.

Lemma bridge_clock out a p c c' :
  bridge out a -> reload_clocks a !! p = Some c -> opt_u64 (clock_tick c') ->
  bridge out (a <| reload_clocks := <[p := c']> (reload_clocks a) |>).
Proof.
  intros [] Hp Hc. constructor; simpl; try done.
  - rewrite dom_insert_lookup_L; [done|by exists c].
  - by apply map_Forall_insert_2.
Qed.

(** An actor's step: its horse's target is behind, unless the health stayed. *)
Lemma bridge_actor out a p row a' :
  bridge out a -> out = None \/ out = Some p -> actors (bank a) !! p = Some row ->
  actor_inv a' -> class (horse a') = class (horse (row_actor row)) ->
  (actor_current_tick (row_actor row) <> None -> actor_current_tick a' <> None) ->
  forall out', out' = Some p \/ (out' = out /\ HorseVitality.health (horse a') = HorseVitality.health (horse (row_actor row))) ->
  bridge out' (a <| bank := update_row (bank a) p row a' |>).
Proof.
  intros Hb Hout Hp Ha Hc Ht out' Hout'. destruct Hb. constructor; simpl; try done.
  - by apply update_row_inv.
  - rewrite dom_insert_lookup_L; [done|by exists row].
  - rewrite dom_insert_lookup_L; [done|by exists row].
  - rewrite dom_insert_lookup_L; [done|by exists row].
  - by apply map_Forall_insert_2.
  - intros p' e row' He. rewrite lookup_insert_Some. intros [[<- <-]|[Hne Hrow]].
    + destruct (br_linked0 p e row He Hp) as (Hx & rd & hd & Hl). split; [done|]. exists rd, hd.
      simpl. destruct Hl as (? & ? & ? & ? & ? & ? & Hmax & Hh & Hs). split_and!; try done; try congruence; [auto|].
      intros Ho. destruct Hout' as [-> |[-> Heq]]; [done|]. rewrite Heq. auto.
    + eapply linked_weaken; [|by apply br_linked0]. naive_solver.
  - intros id Hid. destruct (br_targets0 id Hid) as (p' & row' & Hr & Hor).
    destruct (decide (p' = p)) as [-> |Hne].
    + exists p. eexists. rewrite lookup_insert_eq. split; [done|]. simpl. naive_solver.
    + exists p', row'. by rewrite lookup_insert_ne.
  - by rewrite map_size_insert_Some.
Qed.

(** A step of one target; it may bring a horse's target up to date. *)
Lemma bridge_target out out' a id record record' :
  bridge out a -> targets (registry a) !! id = Some record -> definition record' = definition record ->
  0 <= target_health record' <= target_max_health (definition record') ->
  Forall geometry_total (history record') ->
  (forall p row, actors (bank a) !! p = Some row -> row_horse_entity_id row = id ->
     (history record' <> [] -> actor_current_tick (row_actor row) <> None) /\
     (out' <> Some p -> target_health record' = HorseVitality.health (horse (row_actor row)))) ->
  (forall p row, actors (bank a) !! p = Some row -> row_horse_entity_id row <> id -> out' <> Some p -> out <> Some p) ->
  bridge out' (a <| registry := (registry a) <| targets := <[id := record']> (targets (registry a)) |> |>).
Proof.
  intros Hb Hid Hd Hh Hg Hhorse Hrest. destruct Hb. constructor; simpl; try done.
  - by apply (registry_ok_update _ id record).
  - intros p e row He Hrow. destruct (br_linked0 p e row He Hrow) as (Hx & rd & hd & Hl).
    split; [done|]. destruct Hl as (Hrd & Hhd & Ho1 & Ho2 & Hteam & Hm1 & Hm2 & Hhist & Hsync). simpl.
    assert (Hmount : exists hd', <[id := record']> (targets (registry a)) !! row_horse_entity_id row = Some hd' /\
      definition hd' = definition hd /\ (history hd' <> [] -> actor_current_tick (row_actor row) <> None) /\
      (out' <> Some p -> target_health hd' = HorseVitality.health (horse (row_actor row)))).
    { destruct (decide (row_horse_entity_id row = id)) as [Heq|Hne].
      - destruct (Hhorse p row Hrow Heq) as [H1 H2]. exists record'. rewrite Heq, lookup_insert_eq.
        rewrite Heq, Hid in Hhd. injection Hhd as <-. done.
      - exists hd. rewrite lookup_insert_ne by done. split_and!; try done. intros Ho. apply Hsync. by apply (Hrest p row). }
    destruct Hmount as (hd' & Hhd' & Hd' & Hhist' & Hsync').
    assert (Hrider : exists rd', <[id := record']> (targets (registry a)) !! e = Some rd' /\ definition rd' = definition rd).
    { destruct (decide (e = id)) as [-> |Hne]; [exists record'|exists rd].
      - rewrite lookup_insert_eq. split; [done|]. congruence.
      - by rewrite lookup_insert_ne. }
    destruct Hrider as (rd' & Hrd' & Hdr'). exists rd', hd'. rewrite Hd', Hdr'. by split_and!.
  - intros id'. rewrite lookup_insert_is_Some'. intros [<-|Hi]; apply br_targets0; [by exists record|done].
  - by rewrite map_size_insert_Some.
Qed.
End parts.

(** ** The logic of steps *)

(** From [P], the step ends in [Q] or reports an error; it never panics. *)
Definition triple {A} (P : M3CombatAuthority -> Prop) (m : M M3CombatAuthority (fault M3CombatAuthorityError) A)
    (Q : A -> M3CombatAuthority -> Prop) : Prop :=
  forall a, P a -> match m a with (a', Ok x) => Q x a' | (_, Err e) => e <> Panicked end.

Lemma triple_bind {A B} P (m : M M3CombatAuthority (fault M3CombatAuthorityError) A) Q
    (k : A -> M M3CombatAuthority (fault M3CombatAuthorityError) B) R :
  triple P m Q -> (forall x, triple (Q x) (k x) R) -> triple P (sbind m k) R.
Proof.
  intros Hm Hk a Ha. unfold sbind. specialize (Hm a Ha). destruct (m a) as [a1 [x|e]]; [|done]. by apply Hk.
Qed.
Lemma triple_get {B} P (k : M3CombatAuthority -> M M3CombatAuthority (fault M3CombatAuthorityError) B) R :
  (forall a, P a -> triple (fun a' => a' = a) (k a) R) -> triple P (sbind sget k) R.
Proof. intros Hk a Ha. unfold sbind, sget. by apply (Hk a Ha a). Qed.
Lemma triple_ret {A} P (x : A) : triple P (sret x) (fun y a => y = x /\ P a).
Proof. by intros a Ha. Qed.
Lemma triple_or_fail {A} P (o : option A) e : triple P (or_fail o e) (fun x a => o = Some x /\ P a).
Proof. intros a Ha. unfold or_fail. by destruct o. Qed.
Lemma triple_conseq {A} (P P' : M3CombatAuthority -> Prop) m (Q Q' : A -> M3CombatAuthority -> Prop) :
  triple P m Q -> (forall a, P' a -> P a) -> (forall x a, Q x a -> Q' x a) -> triple P' m Q'.
Proof.
  intros Hm HP HQ a Ha. specialize (Hm a (HP a Ha)). destruct (m a) as [a1 [x|e]]; [by apply HQ|done].
Qed.

(** A transaction leaves the state it found when it fails. *)
Lemma transaction_spec {A} P (m : M M3CombatAuthority (fault M3CombatAuthorityError) A) Q a :
  triple P m Q -> P a ->
  (exists x a', transaction m a = (a', Ok x) /\ m a = (a', Ok x) /\ Q x a') \/
  (exists e, transaction m a = (a, Err (Raised e))).
Proof.
  intros Hm Ha. specialize (Hm a Ha). unfold transaction. destruct (m a) as [a' [x|[e|]]].
  - left. by exists x, a'.
  - right. by exists e.
  - done.
Qed.

Section steps.
Context `{Libm}.

(** A kernel's step, and what else holds of the state it does not touch. *)
Lemma on_kernel_triple {A} out F p (f : CombatKernel -> CombatKernel * A) :
  (forall a c, F a -> F (a <| combat := c |>)) ->
  (forall k, (f k).1 = k \/ exists op, weapon_op_ok op /\ (f k).1 = (weapon_step k op).1) ->
  (forall k, reload_startable k -> reload_startable (f k).1) ->
  triple (fun a => bridge out a /\ F a) (on_kernel p f) (fun _ a => bridge out a /\ F a).
Proof.
  intros HF Hf Hr a [Ha HFa]. unfold on_kernel, shooter_kernel.
  destruct (shooters (combat a) !! p) as [s|] eqn:Hs; [|done]. simpl.
  pose proof (Hr (kernel s) (br_reloads _ _ Ha _ _ Hs)) as Hr'. specialize (Hf (kernel s)).
  destruct (f (kernel s)) as [k x]. simpl in *. split; [|by apply HF].
  destruct Hf as [-> |(op & Hop & ->)]; [|by apply bridge_kernel].
  rewrite (set_kernel_eq _ _ s) by done. unfold set_shooter. destruct s.
  destruct a as [[] ? ? ? ? ?]. unfold set_field. simpl in *. by rewrite insert_id.
Qed.

Lemma request_m3_startable k : reload_startable k -> reload_startable (request_m3_reload k).1.
Proof. intros Hk. unfold request_m3_reload. destruct (has_open_dive_context k); [done|by apply begin_reload_startable]. Qed.

Lemma reload_clock_triple out p tick pressed paused :
  0 <= tick <= tick_horizon ->
  triple (bridge out) (advance_reload_clock p tick pressed paused) (fun _ a => bridge out a).
Proof.
  intros Ht. unfold advance_reload_clock. apply triple_get. intros a0 Ha0.
  eapply triple_bind; [apply triple_or_fail|]. intros clock.
  set (elapsed := default 0 _).
  set (F := fun a : M3CombatAuthority => is_Some (reload_clocks a !! p) /\ u64 elapsed).
  assert (HF : forall a c, F a -> F (a <| combat := c |>)) by done.
  apply (triple_conseq (fun a => bridge out a /\ F a) _ _ (fun _ a => bridge out a)); [| |done].
  2:{ intros a (Hc & ->). split; [done|]. split; [by exists clock|].
      pose proof (br_clock_ticks _ _ Ha0 _ _ Hc) as Hcl. cbv beta in Hcl. unfold elapsed.
      destruct (clock_tick clock) as [prev|]; simpl in *; [|by vm_compute].
      rewrite checked_duration_since_or. unfold tick_horizon in *. int_lia. }
  destruct (decide (u64 elapsed)) as [He|He]; [|intros a [_ [_ ?]]; done].
  eapply triple_bind.
  { apply (on_kernel_triple out F); [done| |intros k; apply advance_reload_startable].
    intros k. right. by exists (OpAdvanceM3 elapsed paused). }
  intros outcome. eapply triple_bind with (Q := fun _ a => bridge out a /\ F a).
  { destruct (pressed && _ && _ && _); [|by intros a Ha].
    apply on_kernel_triple; [done|..].
    - intros k. destruct (is_none (reload k)); [right|by left]. exists OpM3Reload. split; [done|].
      simpl. by destruct (request_m3_reload k).
    - intros k. destruct (is_none _); [|done]. apply request_m3_startable. }
  intros _ a [Ha [[c Hc] _]]. unfold smodify. eapply bridge_clock; [done|exact Hc|].
  simpl. unfold tick_horizon in Ht. int_lia.
Qed.

(** *** Rows and targets *)

Lemma horses_differ a p p' row row' :
  bank_inv (bank a) -> actors (bank a) !! p = Some row -> actors (bank a) !! p' = Some row' ->
  row_horse_entity_id row = row_horse_entity_id row' -> p = p'.
Proof.
  intros [_ Hr] Hp Hp' Heq.
  assert (H1 : horse_owners (bank a) !! row_horse_entity_id row = Some p) by (apply Hr; by exists row).
  assert (H2 : horse_owners (bank a) !! row_horse_entity_id row = Some p') by (apply Hr; by exists row').
  congruence.
Qed.

Lemma rider_not_horse out a p e p' row' :
  bridge out a -> rider_entities a !! p = Some e -> actors (bank a) !! p' = Some row' ->
  row_horse_entity_id row' <> e.
Proof.
  intros Ha He Hr' Heq.
  assert (Hp : p ∈ dom (actors (bank a))) by (rewrite <- (br_riders _ _ Ha); apply elem_of_dom; by exists e).
  destruct (bridge_row _ _ _ Ha Hp) as (row & e0 & _ & _ & Hrow & He0 & _).
  destruct (bridge_row _ _ _ Ha (elem_of_dom_2 _ _ _ Hr')) as (row2 & e' & _ & _ & Hrow2 & He' & _).
  pose proof (br_linked _ _ Ha p e row He Hrow) as (Hne & rd & hd & Hrd & _ & Ho & _).
  pose proof (br_linked _ _ Ha p' e' row' He' Hr') as (_ & rd' & hd' & _ & Hhd & _ & Ho' & _).
  rewrite Heq in Hhd. assert (p = p') by congruence. subst p'. congruence.
Qed.

Lemma bridge_resync a p row :
  bridge (Some p) a -> actors (bank a) !! p = Some row ->
  Targets.health (registry a) (row_horse_entity_id row) = Some (HorseVitality.health (horse (row_actor row))) ->
  bridge None a.
Proof.
  intros Ha Hrow Hh. destruct Ha. constructor; try done. intros p' e row' He Hr'.
  destruct (decide (p' = p)) as [-> |Hne].
  - rewrite Hrow in Hr'. injection Hr' as <-. destruct (br_linked0 p e row He Hrow) as (Hne & rd & hd & Hl).
    split; [done|]. exists rd, hd. destruct Hl as (Hrd & Hhd & Hl). split; [done|]. split; [done|].
    unfold Targets.health in Hh. rewrite Hhd in Hh. injection Hh as Hh. naive_solver.
  - eapply linked_weaken; [|by apply br_linked0]. intros _. congruence.
Qed.

Lemma bridge_combat out a c :
  bridge out a -> authority_inv c -> authority_epoch c = authority_epoch (combat a) ->
  dom (shooters c) = dom (shooters (combat a)) -> map_Forall (fun _ s => reload_startable (kernel s)) (shooters c) ->
  bridge out (a <| combat := c |>).
Proof. intros [] Hc He Hd Hs. constructor; simpl; try done; congruence. Qed.
End steps.

(** ** Operations *)

Section operations.
Context `{Libm}.

Lemma synchronize_triple p : triple (bridge (Some p)) (synchronize_horse p) (fun _ a => bridge None a).
Proof.
  unfold synchronize_horse. apply triple_get. intros a Ha. unfold bank_horse_entity_id, bank_actor.
  destruct (actors (bank a) !! p) as [row|] eqn:Hrow; [|by intros ? ->]. intros ? ->. unfold sbind. simpl.
  unfold on_registry, synchronize_health.
  destruct (targets (registry a) !! row_horse_entity_id row) as [record|] eqn:Hrec; [|done].
  destruct (Z.gtb_spec (HorseVitality.health (horse (row_actor row))) (target_max_health (definition record)));
    [done|]. simpl.
  apply (bridge_target (Some p) None a (row_horse_entity_id row) record _ Ha Hrec); simpl; try done.
  - pose proof (br_actors _ _ Ha _ _ Hrow) as [[(Hh & _) _] _]. lia.
  - exact (proj2 (br_registry _ _ Ha) _ _ Hrec).
  - intros p' row' Hrow' Heq. assert (p' = p) as -> by (eapply horses_differ; [apply Ha|done..]).
    rewrite Hrow in Hrow'. injection Hrow' as <-. split; [|done].
    destruct (bridge_row _ _ _ Ha (elem_of_dom_2 _ _ _ Hrow)) as (? & e & _ & _ & _ & He & _).
    destruct (br_linked _ _ Ha p e row He Hrow) as (_ & ? & hd & _ & Hhd & _ & _ & _ & _ & _ & Hhist & _).
    rewrite Hrec in Hhd. by injection Hhd as <-.
  - intros p' row' Hrow' Hne _ [= ->]. congruence.
Qed.

Lemma advance_triple p input :
  0 <= in_tick input <= tick_horizon -> foot_input_ok (in_on_foot input) ->
  triple (bridge None) (on_bank (fun b => advance_actor b p input)) (fun _ a => bridge (Some p) a).
Proof.
  intros Ht Hf a Ha. unfold on_bank, advance_actor.
  destruct (actors (bank a) !! p) as [row|] eqn:Hrow; [|done].
  pose proof (br_actors _ _ Ha _ _ Hrow) as Hact. cbv beta in Hact.
  pose proof (tick_keeps_receipts (row_actor row) input) as Hk.
  destruct (actor_tick_cases _ _ Hact Ht Hf) as [-> |(a' & out & Heq & Ha' & Hc)]; [done|].
  rewrite Heq in *. simpl in *. injection Hk as Hk _ _.
  apply (bridge_actor None a p row a'); try done; [by left| |by left]. by rewrite Hc.
Qed.

(** An operation ends in a graph in step, or in the state it started from. *)
Definition m3_settles {A} (m : M M3CombatAuthority (fault M3CombatAuthorityError) A) (a : M3CombatAuthority) : Prop :=
  bridge None (m a).1 /\ (m a).2 <> Err Panicked.

Lemma transaction_settles {A} (m : M M3CombatAuthority (fault M3CombatAuthorityError) A) a :
  triple (fun a' => a' = a) m (fun _ a' => bridge None a') -> bridge None a -> m3_settles (transaction m) a.
Proof.
  intros Hm Ha. unfold m3_settles.
  destruct (transaction_spec _ m _ a Hm eq_refl) as [(x & a' & -> & _ & Ha')|(e & ->)]; done.
Qed.

Lemma m3_advance_settles p input a :
  bridge None a -> 0 <= in_tick input <= tick_horizon -> foot_input_ok (in_on_foot input) ->
  m3_settles (m3_advance_actor p input) a.
Proof.
  intros Ha Ht Hf. apply transaction_settles; [|done]. apply triple_get. intros a0 ->.
  apply (triple_conseq (bridge None) _ _ (fun _ a' => bridge None a')); [|by intros ? ->|done].
  eapply triple_bind; [by apply advance_triple|]. intros out.
  eapply triple_bind; [by apply reload_clock_triple|]. intros ?.
  eapply triple_bind; [apply synchronize_triple|]. by intros _ a1 Ha1.
Qed.

Lemma update_row_id b p row : actors b !! p = Some row -> update_row b p row (row_actor row) = b.
Proof.
  intros Hp. unfold update_row. destruct b, row. unfold set_field. simpl in *. by rewrite insert_id.
Qed.

Lemma m3_credit_settles p tick kind a :
  bridge None a -> u64 tick -> m3_settles (m3_issue_spur_credit p tick kind) a.
Proof.
  intros Ha Ht. unfold m3_settles, m3_issue_spur_credit, on_bank, issue_spur_credit.
  destruct (actors (bank a) !! p) as [row|] eqn:Hrow; [|split; [by destruct a|done]].
  pose proof (br_actors _ _ Ha _ _ Hrow) as Hact. cbv beta in Hact.
  set (command := mkSpurCreditCommand (mkReceiptId (bank_authority_epoch (bank a)) tick
                    (next_credit_sequence (spur (row_actor row)))) kind).
  assert (Hok : receipt_ok (credit_id command)).
  { pose proof (br_epoch _ _ Ha) as [He Hu]. destruct Hact as (_ & _ & _ & [Hs _] & _).
    unfold receipt_ok, command. simpl. rewrite He. split; [done|]. split; [done|apply Hs]. }
  pose proof (apply_spur_credit_inv (row_actor row) command Hact Hok) as Hinv.
  unfold apply_spur_credit in Hinv. unfold Spur.issue_credit. fold command.
  destruct (Spur.apply_credit (spur (row_actor row)) command) as [k points]. simpl in *.
  split; [|done]. apply (bridge_actor None a p row _); try done; [by left|by right].
Qed.

Lemma m3_refill_settles p a : bridge None a -> m3_settles (refill_rider_ammo p) a.
Proof.
  intros Ha. apply transaction_settles; [|done].
  eapply triple_bind with (Q := fun _ a' => bridge None a' /\ True).
  { apply (triple_conseq (fun a => bridge None a /\ True) _ _ (fun _ a => bridge None a /\ True)); [|by intros ? ->|done].
    apply on_kernel_triple; [done|..].
    - intros k. right. exists OpRefill. done.
    - intros k _. by apply no_reload_startable. }
  intros ammo a1 [Ha1 _]. simpl. destruct (reload_clocks a1 !! p) as [c|] eqn:Hc.
  - replace (alter _ p (reload_clocks a1)) with (<[p := c <| reload_held := false |>]> (reload_clocks a1)).
    2:{ apply map_eq. intros q. destruct (decide (q = p)) as [-> |].
        - by rewrite lookup_insert_eq, lookup_alter_eq, Hc.
        - by rewrite lookup_insert_ne, lookup_alter_ne. }
    eapply bridge_clock; [done|done|]. exact (br_clock_ticks _ _ Ha1 _ _ Hc).
  - replace (alter _ p (reload_clocks a1)) with (reload_clocks a1); [by destruct a1|].
    apply map_eq. intros q. destruct (decide (q = p)) as [-> |]; [by rewrite lookup_alter_eq, Hc|by rewrite lookup_alter_ne].
Qed.

(** The registry's poses. *)
Lemma store_settles a id g :
  bridge None a -> geometry_total g ->
  (forall p row, actors (bank a) !! p = Some row -> row_horse_entity_id row = id ->
     actor_current_tick (row_actor row) <> None) ->
  bridge None (a <| registry := (store_geometry (registry a) id g).1 |>).
Proof.
  intros Ha Hg Ht. unfold store_geometry. destruct (targets (registry a) !! id) as [record|] eqn:Hid; [|by destruct a].
  unfold push_geometry. destruct (is_some_and (geometry_kind record) _); [by destruct a|].
  destruct (is_some_and (last _) _); [by destruct a|]. simpl.
  apply (bridge_target None None a id record); simpl; try done.
  - exact (health_ok _ (proj1 (br_registry _ _ Ha)) _ _ Hid).
  - pose proof (proj2 (br_registry _ _ Ha) id record Hid) as Hh. cbv beta in Hh. rewrite Forall_forall in *.
    intros x Hx. apply pop_front_while_sub, elem_of_app in Hx as [Hx|Hx]; [by apply Hh|].
    apply list_elem_of_singleton in Hx. by subst x.
  - intros p row Hrow Heq. split; [by intros _; eapply Ht|]. intros _.
    destruct (bridge_row _ _ _ Ha (elem_of_dom_2 _ _ _ Hrow)) as (? & e & _ & _ & _ & He & _).
    destruct (br_linked _ _ Ha p e row He Hrow) as (_ & ? & hd & _ & Hhd & _ & _ & _ & _ & _ & _ & Hs).
    rewrite Heq, Hid in Hhd. injection Hhd as <-. by apply Hs.
Qed.

Lemma m3_horse_pose_settles pose a : bridge None a -> m3_settles (m3_record_horse_pose pose) a.
Proof.
  intros Ha. unfold m3_settles, m3_record_horse_pose, sbind, sget, bank_horse_entity_id, bank_actor.
  destruct (actors (bank a) !! m3_pose_rider pose) as [row|] eqn:Hrow; [|done]. simpl.
  destruct (bool_decide _) eqn:Ht; [|done]. apply bool_decide_eq_true in Ht. simpl.
  unfold on_registry, record_horse_pose. destruct (_ || _) eqn:Hg; [split; [by destruct a|done]|].
  rewrite !orb_false_iff in Hg. destruct Hg as [[_ Hn] _]. apply recorded_horse_total in Hn.
  set (g := GeometryHorse _) in *.
  pose proof (store_settles a (row_horse_entity_id row) g Ha Hn) as Hst.
  change (horse_pose_entity _) with (row_horse_entity_id row).
  destruct (store_geometry (registry a) (row_horse_entity_id row) g) as [r out] eqn:Eq. simpl in *.
  split; [|by destruct out]. apply Hst. intros p' row' Hrow' Heq.
  assert (p' = m3_pose_rider pose) as -> by (eapply horses_differ; [apply Ha|done..]). congruence.
Qed.

Lemma m3_rider_pose_settles p pose a :
  bridge None a -> m3_settles (m3_record_rider_pose p pose) a.
Proof.
  intros Ha. unfold m3_settles, m3_record_rider_pose, sbind, sget.
  destruct (rider_entities a !! p) as [e|] eqn:He; [|done]. simpl.
  destruct (Z.eqb_spec (pose_entity pose) e) as [Heq|]; [|done]. simpl. destruct (is_none_or _ _); [done|].
  unfold on_registry, record_pose. destruct (_ || _); [split; [by destruct a|done]|].
  pose proof (store_settles a (pose_entity pose) (GeometryRider pose) Ha I) as Hst.
  destruct (store_geometry _ _ _) as [r out]. simpl in *. split; [|by destruct out].
  apply Hst. intros p' row' Hrow' Hh. exfalso. eapply rider_not_horse; [done|exact He|exact Hrow'|congruence].
Qed.

(** A respawned rider: its actor's horse is fresh. *)
Definition respawned (p : PlayerId) (e h : EntityId) (a : M3CombatAuthority) : Prop :=
  exists row c, rider_entities a !! p = Some e /\ actors (bank a) !! p = Some row /\
    row_horse_entity_id row = h /\
    HorseVitality.health (horse (row_actor row)) = max_health (class (horse (row_actor row))) /\
    reload_clocks a !! p = Some c.

Lemma target_respawn_triple out p e h id :
  (id = e /\ out = Some p) \/ (id = h /\ out = None) ->
  triple (fun a => bridge (Some p) a /\ respawned p e h a)
    (on_registry (fun r => Targets.respawn r id)) (fun _ a => bridge out a /\ respawned p e h a).
Proof.
  intros Hid a [Ha Hr]. unfold on_registry, Targets.respawn.
  destruct (targets (registry a) !! id) as [record|] eqn:Hrec; [|done]. simpl. split; [|exact Hr].
  destruct Hr as (row & c & He & Hrow & Hh & Hfull & Hc).
  destruct (br_linked _ _ Ha p e row He Hrow) as (_ & rd & hd & _ & Hhd & _ & _ & _ & _ & Hmax & Hhist & _).
  apply (bridge_target (Some p) out a id record); simpl; try done.
  - pose proof (health_ok _ (proj1 (br_registry _ _ Ha)) _ _ Hrec) as Hb. simpl in Hb. lia.
  - exact (proj2 (br_registry _ _ Ha) _ _ Hrec).
  - intros p' row' Hrow' Heq. destruct Hid as [[-> _]|[-> ->]].
    { exfalso. exact (rider_not_horse _ _ _ _ _ _ Ha He Hrow' Heq). }
    assert (p' = p) as -> by (eapply horses_differ; [apply Ha|done..|congruence]).
    rewrite Hrow in Hrow'. injection Hrow' as <-. rewrite Hh in Hhd. rewrite Hrec in Hhd. injection Hhd as <-.
    split; [done|]. intros _. congruence.
  - intros p' row' Hrow' Hne Ho. destruct Hid as [[-> ->]|[-> ->]]; [done|]. intros [= ->]. congruence.
Qed.

Lemma respawn_kernel_triple p F tick :
  u64 tick -> (forall a c, F a -> F (a <| combat := c |>)) ->
  triple (fun a => bridge (Some p) a /\ F a) (on_kernel p (fun k => respawn_at k tick))
    (fun _ a => bridge (Some p) a /\ F a).
Proof.
  intros Ht HF. apply on_kernel_triple; [done|..].
  - intros k. right. exists (OpRespawn tick). split; [done|]. simpl. by destruct (respawn_at k tick).
  - intros k Hk. unfold respawn_at. destruct (_ <? _); [done|]. by apply no_reload_startable.
Qed.

Lemma m3_respawn_settles p tick a : bridge None a -> u64 tick -> m3_settles (respawn_rider p tick) a.
Proof.
  intros Ha Ht.
  assert (Heq : respawn_rider p tick a = match rider_entities a !! p with
    | Some e => transaction (respawn_candidate p e tick) a | None => (a, Err (Raised UnknownActorOrTarget)) end)
    by (unfold respawn_rider, sbind, sget, or_fail; by destruct (rider_entities a !! p)).
  unfold m3_settles. rewrite Heq. destruct (rider_entities a !! p) as [e|] eqn:He; [|done].
  apply transaction_settles; [|done]. apply triple_get. intros a0 ->. unfold bank_horse_entity_id.
  destruct (actors (bank a) !! p) as [row|] eqn:Hrow; [|by intros ? ->]. cbn [option_fmap option_map fmap].
  set (h := row_horse_entity_id row). set (F := respawned p e h).
  apply (triple_conseq (fun a' => a' = a) (fun a' => a' = a) _ (fun _ a' => bridge None a')); [|done..].
  intros ? ->. unfold sbind at 1. cbn [or_fail sret].
  pose proof (br_actors _ _ Ha _ _ Hrow) as Hact. cbv beta in Hact.
  destruct (bridge_row _ _ _ Ha (elem_of_dom_2 _ _ _ Hrow)) as (? & ? & ? & c & _ & _ & _ & Hclock).
  unfold respawn_actor. unfold sbind at 1. rewrite Hrow.
  set (a1 := a <| bank := update_row (bank a) p row (ActorGameplay.respawn (row_actor row)) |>).
  assert (Ha1 : bridge (Some p) a1 /\ F a1).
  { split; [apply (bridge_actor None a p row); try done; [by left|by apply respawn_inv|by left]|].
    eexists _, c. split; [done|]. split; [by apply lookup_insert_eq|]. done. }
  revert Ha1. generalize a1. change (triple (fun a1 => bridge (Some p) a1 /\ F a1)
    (sbind (on_kernel p (fun k => respawn_at k tick)) (fun ok => sbind (if ok then sret tt else sfail (Raised UnknownActorOrTarget))
     (fun _ => sbind (on_registry (fun r => Targets.respawn r e)) (fun _ => sbind (on_registry (fun r => Targets.respawn r h))
      (fun _ => smodify (fun self =>
        self <| reload_clocks := <[p := mkM3ReloadClock (Some tick) false]> (reload_clocks self) |>))))))
    (fun _ a' => bridge None a')).
  eapply triple_bind; [by apply respawn_kernel_triple|]. intros ok.
  eapply triple_bind with (Q := fun _ a => bridge (Some p) a /\ F a); [by destruct ok; intros a2 Ha2|]. intros _.
  eapply triple_bind; [apply target_respawn_triple; by left|]. intros ?.
  eapply triple_bind; [apply target_respawn_triple; by right|]. intros ?.
  intros a2 [Ha2 (row2 & c2 & _ & _ & _ & _ & Hc2)]. by eapply bridge_clock.
Qed.

(** *** Registration *)

Lemma register_spec r d :
  is_ok (register r d).2 = true ->
  targets r !! entity_id d = None /\
  targets (register r d).1 = <[entity_id d := mkTargetRecord d (target_max_health d) [] None]> (targets r).
Proof.
  unfold register, registry_restore. destruct (_ || _); [done|]. by destruct (targets r !! entity_id d).
Qed.

Lemma linked_frame P r r' p e row :
  linked P r p e row -> targets r ⊆ targets r' -> linked P r' p e row.
Proof.
  intros (Hne & rd & hd & Hrd & Hhd & Hl) Hsub. split; [done|]. exists rd, hd.
  split; [by eapply lookup_weaken|]. split; [by eapply lookup_weaken|done].
Qed.

Lemma register_shooter_spec c p w c' :
  register_shooter c p w = (c', Some true) ->
  shooters c !! p = None /\ exists k, c' = set_shooter c p (mkAuthorityShooter k None) /\ reload k = None.
Proof.
  unfold register_shooter. destruct (shooters c !! p); [done|]. unfold with_weapon.
  destruct (_ =? 0); [done|]. intros [= <-]. split; [done|]. by eexists.
Qed.

(** A new player's parts, put together. *)
Lemma bridge_join a p e h c team s' r1 r2 :
  bridge None a -> e <> h -> p ∉ dom (actors (bank a)) ->
  let row := mkM3AuthorityActor h (actor_new c) in
  let rider := mkTargetDefinition e (Some p) team M3_RIDER_MAX_HEALTH in
  let mount := mkTargetDefinition h (Some p) team (max_health c) in
  authority_inv (set_shooter (combat a) p s') -> reload_startable (kernel s') ->
  bank_inv (mkM3AuthorityBank (bank_authority_epoch (bank a)) (<[p := row]> (actors (bank a)))
              (<[h := p]> (horse_owners (bank a)))) ->
  is_ok (register (registry a) rider).2 = true -> r1 = (register (registry a) rider).1 ->
  is_ok (register r1 mount).2 = true -> r2 = (register r1 mount).1 ->
  bridge None (mkM3CombatAuthority (set_shooter (combat a) p s') r2
    (mkM3AuthorityBank (bank_authority_epoch (bank a)) (<[p := row]> (actors (bank a))) (<[h := p]> (horse_owners (bank a))))
    (<[p := e]> (rider_entities a)) (<[p := reload_clock_default]> (reload_clocks a)) (next_horse_damage_sequence a)).
Proof.
  intros Ha Hne Hnew row rider mount Hc Hs Hb Ho1 -> Ho2 ->.
  pose proof (registry_restore_ok _ rider (target_max_health rider) (br_registry _ _ Ha) ltac:(done)) as Hr1.
  pose proof (registry_restore_ok _ mount (target_max_health mount) Hr1 ltac:(by destruct c)) as Hr2.
  apply register_spec in Ho1 as [Hn1 Ht1]. apply register_spec in Ho2 as [Hn2 Ht2].
  change (registry_restore (registry a) rider (target_max_health rider)) with (register (registry a) rider) in *.
  change (registry_restore _ mount (target_max_health mount)) with (register (register (registry a) rider).1 mount) in *.
  destruct (register (registry a) rider) as [r1 o1]. simpl fst in *. destruct (register r1 mount) as [r2 o2]. simpl fst in *.
  assert (Hsub : targets (registry a) ⊆ targets r2).
  { rewrite Ht2. etrans; [|by apply insert_subseteq]. rewrite Ht1. by apply insert_subseteq. }
  assert (Hre : targets r2 !! e = Some (mkTargetRecord rider M3_RIDER_MAX_HEALTH [] None)).
  { rewrite Ht2, lookup_insert_ne by done. rewrite Ht1. by rewrite lookup_insert_eq. }
  assert (Hrh : targets r2 !! h = Some (mkTargetRecord mount (max_health c) [] None)) by (rewrite Ht2; by rewrite lookup_insert_eq).
  destruct Ha. constructor; simpl; try done.
  - by rewrite !dom_insert_L, br_shooters0.
  - by rewrite !dom_insert_L, br_riders0.
  - by rewrite !dom_insert_L, br_clocks0.
  - by apply map_Forall_insert_2.
  - apply map_Forall_insert_2; [apply actor_new_inv|done].
  - intros p' e' row'. rewrite !lookup_insert_Some. intros He Hrow.
    destruct (decide (p' = p)) as [-> |Hnp].
    + destruct He as [[_ <-]|[? _]]; [|done]. destruct Hrow as [[_ <-]|[? _]]; [|done].
      split; [done|]. eexists _, _. by split_and!.
    + destruct He as [[? _]|[_ He]]; [done|]. destruct Hrow as [[? _]|[_ Hrow]]; [done|].
      eapply linked_frame; [|exact Hsub]. by apply br_linked0.
  - intros id. rewrite Ht2. rewrite lookup_insert_is_Some'. rewrite Ht1, lookup_insert_is_Some'.
    intros [<-|[<-|Hid]].
    + exists p, row. rewrite lookup_insert_eq. by split; [|left].
    + exists p, row. rewrite !lookup_insert_eq. by split; [|right].
    + destruct (br_targets0 id Hid) as (p' & row' & Hrow & Hor). exists p', row'.
      assert (p' <> p) by (intros ->; apply Hnew; by eapply elem_of_dom_2). by rewrite !lookup_insert_ne.
  - apply not_elem_of_dom in Hnew. rewrite Ht2, map_size_insert_None, Ht1, map_size_insert_None by (done || congruence).
    rewrite map_size_insert_None by done. lia.
  - by apply map_Forall_insert_2.
Qed.

Lemma m3_register_settles p e h c w team a :
  bridge None a -> exists b, (m3_register_actor a p e h c w team).2 = Some b /\
  bridge None (m3_register_actor a p e h c w team).1.
Proof.
  intros Ha. unfold m3_register_actor. destruct (Z.eqb_spec e h) as [|Hne]; [by exists false|].
  destruct (rider_entities a !! p) as [|] eqn:Hp; [by exists false|]. simpl orb. cbv iota.
  assert (Hnew : p ∉ dom (actors (bank a))) by (rewrite <- (br_riders _ _ Ha); by apply not_elem_of_dom).
  pose proof (register_actor_inv (bank a) p h c (br_bank _ _ Ha)) as Hbank.
  destruct (register_actor (bank a) p h c) as [b stored] eqn:Hreg. destruct stored; [|by exists false]. simpl negb. cbv iota.
  unfold register_actor in Hreg. destruct (_ || _ || _); [done|]. injection Hreg as <-.
  destruct (register_inv (combat a) p w (br_combat _ _ Ha)) as [Hc Hsome].
  destruct (register_shooter (combat a) p w) as [c' [[|]|]] eqn:Hrs; [|by exists false|done].
  apply register_shooter_spec in Hrs as (_ & k & -> & Hk).
  destruct (register (registry a) _) as [r1 o1] eqn:H1. destruct (is_ok o1) eqn:Ho1; [|by exists false].
  destruct (register r1 _) as [r2 o2] eqn:H2. destruct (is_ok o2) eqn:Ho2; [|by exists false].
  simpl. exists true. split; [done|]. eapply (bridge_join a p e h c team _ r1 r2); try done.
  - by apply no_reload_startable.
  - by rewrite H1.
  - by rewrite H1.
  - by rewrite H2.
  - by rewrite H2.
Qed.

(** *** Shots *)

Lemma bridge_validate a command now rider :
  bridge None a -> u64 (cmd_tick command) ->
  exists c' reg' shot, validate_shot (combat a) command now rider (registry a) = (c', reg', Some shot) /\
    bridge None (a <| combat := c' |>) /\ shot_outcome command rider (registry a) reg' (shot_result shot) /\
    (outcome (shot_result shot) = ShotHit -> is_Some (shooters (combat a) !! cmd_shooter command)).
Proof.
  intros Ha Ht.
  destruct (shot_cases (combat a) command now rider (registry a) (br_combat _ _ Ha) (br_registry _ _ Ha) Ht)
    as (c' & reg' & shot & Hv & Hc & _ & Hout & Hsome).
  exists c', reg', shot. split; [done|]. split; [|done].
  pose proof (validate_frame (combat a) command now rider (registry a)) as [He Hd]. rewrite Hv in He, Hd. simpl in *.
  apply bridge_combat; try done. intros id s' Hs'.
  pose proof (validate_kernels (combat a) command now rider (registry a) id s') as Hk. rewrite Hv in Hk.
  destruct (Hk Hs') as (s & Hs & Hcase). pose proof (br_reloads _ _ Ha _ _ Hs) as Hr. cbv beta in Hr.
  destruct Hcase as [-> |(out & Hf)]; [done|].
  eapply fire_startable; [|exact Ht|exact Hf|done]. apply (auth_shooters_ok _ (br_combat _ _ Ha) _ _ Hs).
Qed.

(** After the rifle's part of a shot only the horse it met is behind. *)
Definition fired_state (r : ShotResult) (a : M3CombatAuthority) : Prop :=
  match hit_horse a r with
  | None => bridge None a
  | Some id => exists p, horse_owners (bank a) !! id = Some p /\ bridge (Some p) a /\ in_uint 16 (damage r)
  end.

Lemma fire_triple command now rider :
  u64 (cmd_tick command) ->
  triple (bridge None) (fire_shot command now rider) (fun shot a => fired_state (shot_result shot) a).
Proof.
  intros Ht a Ha. unfold fire_shot.
  destruct (bridge_validate a command now rider Ha Ht) as (c' & reg' & shot & -> & Hb & Hout & _).
  unfold fired_state, hit_horse. destruct Hout as [[Ho ->]|(id & record & g & left_ & Ho & Htg & Hrec & Hh & _ & _ & Hg & Hu & Happ)].
  { rewrite bool_decide_false by done. by destruct a. }
  rewrite bool_decide_true by done. rewrite Htg. cbn [mbind option_bind].
  unfold apply_damage in Happ. rewrite Hrec in Happ. injection Happ as <- _ _. simpl.
  pose proof (health_ok _ (proj1 (br_registry _ _ Ha)) _ _ Hrec) as Hb0. cbv beta in Hb0.
  assert (Hbound : 0 <= saturating_sub (target_health record) (damage (shot_result shot)) <= target_max_health (definition record))
    by (unfold in_uint in Hu; int_lia).
  pose proof (br_bank _ _ Ha) as [_ Hroutes].
  assert (Htarget : forall out', (forall p row, actors (bank a) !! p = Some row -> row_horse_entity_id row = id -> out' = Some p) ->
    bridge out' ((a <| combat := c' |>) <| registry := (registry a) <| targets :=
      <[id := record <| target_health := saturating_sub (target_health record) (damage (shot_result shot)) |>]>
        (targets (registry a)) |> |>)).
  { intros out' Hout.
    set (record' := record <| target_health := saturating_sub (target_health record) (damage (shot_result shot)) |>).
    pose proof (bridge_target None out' (a <| combat := c' |>) id record record' Hb Hrec) as Hstep. simpl in Hstep.
    apply Hstep; try done.
    - exact (proj2 (br_registry _ _ Ha) _ _ Hrec).
    - intros p row Hrow Heq. split; [|intros Hn; by destruct (Hn (Hout p row Hrow Heq))].
      destruct (bridge_row _ _ _ Ha (elem_of_dom_2 _ _ _ Hrow)) as (? & e & _ & _ & _ & He & _).
      destruct (br_linked _ _ Ha p e row He Hrow) as (_ & ? & hd & _ & Hhd & _ & _ & _ & _ & _ & Hhist & _).
      rewrite Heq, Hrec in Hhd. by injection Hhd as <-. }
  unfold horse_owner. destruct (horse_owners (bank a) !! id) as [p|] eqn:Howner; simpl.
  - exists p. split; [done|]. split; [|done]. apply Htarget. intros p' row Hrow Heq.
    rewrite <- Howner. apply Hroutes. by exists row.
  - apply Htarget. intros p' row Hrow Heq. exfalso.
    assert (Hs : horse_owners (bank a) !! id = Some p') by (apply Hroutes; by exists row). congruence.
Qed.

Lemma damage_keeps_class a c : class (horse (apply_horse_damage a c).1) = class (horse a).
Proof.
  unfold apply_horse_damage. destruct (is_some_and _ _); [done|].
  assert (Hc : class (HorseVitality.apply_damage (horse a) c).1 = class (horse a)).
  { unfold HorseVitality.apply_damage. destruct (_ || _ || _); [done|]. simpl. by destruct (_ && _). }
  destruct (HorseVitality.apply_damage (horse a) c) as [h [app|]]; [|done]. simpl in *.
  destruct (spooked app) eqn:Hsp; [|done]. destruct (begin_spook_stun _ _) as [f [|]]; [|done]. done.
Qed.

Lemma geometry_history record t g : geometry_at record t = Some g -> history record <> [].
Proof. unfold geometry_at. intros Hg Hn. by rewrite Hn in Hg. Qed.

(** The actor's share of a hit, and what it changes. *)
Definition routed_to (p : PlayerId) (target : EntityId) (r : ShotResult) (a : M3CombatAuthority)
    (routed : M3AuthorityHorseDamage) (a' : M3CombatAuthority) : Prop :=
  exists row actor' effects c, actors (bank a) !! p = Some row /\ row_horse_entity_id row = target /\
    actor_inv (row_actor row) /\ actor_current_tick (row_actor row) <> None /\
    command_ok c /\ 0 <= receipt_tick (damage_id c) <= tick_horizon /\ amount c = damage r /\
    apply_horse_damage (row_actor row) c = (actor', Some effects) /\
    routed = mkM3AuthorityHorseDamage p target effects /\
    Targets.health (registry a) target = Some (HorseVitality.health (horse actor')) /\
    spooked (application effects) = eliminated r /\
    a' = a <| next_horse_damage_sequence := next_horse_damage_sequence a + 1 |>
           <| bank := update_row (bank a) p row actor' |>.

Lemma route_spec p command now rider r target a :
  in_uint 16 (damage r) -> 0 <= now <= tick_horizon ->
  horse_owners (bank a) !! target = Some p -> bridge (Some p) a ->
  match route_horse_damage command now rider r target a with
  | (a', Ok routed) => bridge None a' /\ routed_to p target r a routed a'
  | (_, Err e) => e <> Panicked
  end.
Proof.
  intros Hd Hnow Howner Ha. unfold route_horse_damage, sbind at 1, sget.
  destruct (horse_pose_at (registry a) target (cmd_tick command)) as [pose|] eqn:Hpose; [|done].
  destruct (checked_add 64 (next_horse_damage_sequence a) 1) as [next|] eqn:Hnext; [|done].
  apply checked_add_Some in Hnext as [-> Hlim].
  unfold sbind at 1, or_fail at 1, sret at 1. unfold sbind at 1, or_fail at 1, sret at 1.
  unfold sbind at 1, smodify at 1.
  set (next := next_horse_damage_sequence a + 1) in *. set (a1 := a <| next_horse_damage_sequence := next |>).
  assert (Ha1 : bridge (Some p) a1).
  { pose proof (br_next _ _ Ha) as Hn. destruct Ha. constructor; simpl; try done. unfold next, in_uint in *. lia. }
  cbv zeta. set (command' := mkHorseDamageCommand _ _ _ _).
  pose proof (br_bank _ _ Ha) as [_ Hroutes]. pose proof Howner as Hrow. apply Hroutes in Hrow as (row & Hrow & Htg).
  pose proof (br_actors _ _ Ha _ _ Hrow) as Hact. cbv beta in Hact.
  destruct (bridge_row _ _ _ Ha (elem_of_dom_2 _ _ _ Hrow)) as (? & e & _ & _ & _ & He & _).
  destruct (br_linked _ _ Ha p e row He Hrow) as (_ & ? & hd & _ & Hhd & _ & _ & _ & _ & _ & Hhist & _).
  assert (Htick : actor_current_tick (row_actor row) <> None).
  { apply Hhist. unfold horse_pose_at in Hpose. rewrite Htg in Hhd. rewrite Hhd in Hpose. cbn [mbind option_bind] in Hpose.
    destruct (geometry_at hd (cmd_tick command)) eqn:Hg; [|done]. by eapply geometry_history. }
  assert (Hcmd : command_ok command').
  { pose proof (br_epoch _ _ Ha) as [Heq Hu]. pose proof (br_next _ _ Ha). split; [|exact Hd].
    unfold receipt_ok, command'. simpl. rewrite Heq. unfold tick_horizon, in_uint in *. simpl.
    change (2 ^ 64) with 18446744073709551616 in *. change (2 ^ 60) with 1152921504606846976 in *. lia. }
  unfold sbind at 1, or_panic, bank_apply_horse_damage. simpl negb. rewrite Z.eqb_refl. simpl.
  rewrite Howner, Hrow.
  pose proof (damage_keeps_class (row_actor row) command') as Hclass.
  destruct (apply_horse_damage (row_actor row) command') as [a' effects] eqn:Happ.
  destruct (horse_damage_spec _ _ _ _ Hact Hcmd Hnow Htick Happ) as (Ha' & Htick' & _).
  unfold sbind at 1, on_bank, sret at 1. simpl.
  destruct effects as [eff|]; [|done]. simpl.
  unfold sbind, or_fail, sget, sret, bank_actor, update_row. simpl. rewrite lookup_insert_eq. simpl.
  destruct (Targets.health (registry a) target) as [target_health|] eqn:Hth; [|done].
  destruct (negb _ || _ || _) eqn:Hagree; [done|].
  apply orb_false_iff in Hagree as [[Hh%negb_false_iff _]%orb_false_iff Hsp%negb_false_iff].
  apply Z.eqb_eq in Hh. apply eqb_prop in Hsp.
  assert (Ha2 : bridge (Some p) (a1 <| bank := update_row (bank a1) p row a' |>)).
  { apply (bridge_actor (Some p) a1 p row a'); first [done|by right|congruence|by rewrite Htick'|by left]. }
  split.
  - apply (bridge_resync _ p (row <| row_actor := a' |>)) in Ha2; [exact Ha2|by apply lookup_insert_eq|].
    simpl. rewrite Htg, Hth. by f_equal.
  - exists row, a', eff, command'. rewrite Hth, Hh. split_and!; try done; apply Hnow || apply Hcmd.
Qed.

Lemma credit_triple command now rider r :
  u64 now -> triple (bridge None) (credit_shot command now rider r) (fun _ a => bridge None a).
Proof.
  intros Hnow a Ha. unfold credit_shot. destruct (shot_spur_kind _ _) as [kind|]; [|done].
  unfold sbind. pose proof (m3_credit_settles (cmd_shooter command) now kind a Ha Hnow) as [H1 H2].
  unfold m3_issue_spur_credit in *.
  destruct (on_bank _ a) as [a1 [points|e]]; [|by intros ->; apply H2].
  destruct points; [exact H1|done].
Qed.

Lemma m3_shot_settles command now rider a :
  bridge None a -> u64 (cmd_tick command) -> 0 <= now <= tick_horizon ->
  m3_settles (resolve_shot command now rider) a.
Proof.
  intros Ha Ht Hnow. apply transaction_settles; [|done].
  apply (triple_conseq (bridge None) _ _ (fun _ a' => bridge None a')); [|by intros ? ->|done].
  assert (Hu : u64 now) by (unfold tick_horizon in Hnow; int_lia).
  eapply triple_bind; [by apply fire_triple|]. intros shot. apply triple_get. intros a0 Ha0.
  eapply triple_bind with (Q := fun _ a => bridge None a).
  { unfold fired_state in Ha0. destruct (hit_horse a0 (shot_result shot)) as [target|]; [|by intros ? ->].
    destruct Ha0 as (p & Howner & Hb & Hd). eapply triple_bind with (Q := fun _ a => bridge None a); [|by intros ? ? ?].
    intros ? ->. pose proof (route_spec p command now rider _ target a0 Hd Hnow Howner Hb) as Hroute.
    destruct (route_horse_damage _ _ _ _ _ _) as [a1 [routed|e]]; [by destruct Hroute|exact Hroute]. }
  intros d. eapply triple_bind; [by apply credit_triple|]. by intros ? ? ?.
Qed.

(** *** What a resolved shot did *)

Definition horse_of (a : M3CombatAuthority) (p : PlayerId) : option HorseVitalityKernel :=
  (fun row => horse (row_actor row)) <$> actors (bank a) !! p.

Lemma credit_spec p now kind a a' r :
  on_bank (fun b => issue_spur_credit b p now kind) a = (a', r) ->
  registry a' = registry a /\ rider_entities a' = rider_entities a /\
  next_horse_damage_sequence a' = next_horse_damage_sequence a /\
  (forall q, horse_of a' q = horse_of a q) /\
  (forall q, mode <$> bank_actor (bank a') q = mode <$> bank_actor (bank a) q).
Proof.
  unfold on_bank, issue_spur_credit. destruct (actors (bank a) !! p) as [row|] eqn:Hrow; [|by intros [= <- _]].
  destruct (Spur.issue_credit _ _ _ _) as [k points]. intros [= <- _]. split_and!; try done.
  - intros q. unfold horse_of. simpl. destruct (decide (q = p)) as [-> |Hne].
    + by rewrite lookup_insert_eq, Hrow.
    + by rewrite lookup_insert_ne.
  - intros q. unfold bank_actor. simpl. destruct (decide (q = p)) as [-> |Hne].
    + by rewrite lookup_insert_eq, Hrow.
    + by rewrite lookup_insert_ne.
Qed.

Lemma credit_shot_spec command now rider r a a' :
  credit_shot command now rider r a = (a', Ok tt) ->
  registry a' = registry a /\ rider_entities a' = rider_entities a /\
  next_horse_damage_sequence a' = next_horse_damage_sequence a /\
  (forall q, horse_of a' q = horse_of a q) /\
  (forall q, mode <$> bank_actor (bank a') q = mode <$> bank_actor (bank a) q).
Proof.
  unfold credit_shot. destruct (shot_spur_kind _ _) as [kind|]; [|by intros [= <-]].
  unfold sbind. destruct (on_bank _ a) as [a1 [[points|]|e]] eqn:Hb; [|done|done]. intros [= <-].
  by eapply credit_spec.
Qed.

Lemma resolve_inv command now rider a a' out :
  bridge None a -> u64 (cmd_tick command) -> 0 <= now <= tick_horizon ->
  resolve_shot command now rider a = (a', Ok out) ->
  exists c' reg' shot a1, validate_shot (combat a) command now rider (registry a) = (c', reg', Some shot) /\
    shot_outcome command rider (registry a) reg' (shot_result shot) /\
    let fired := a <| combat := c' |> <| registry := reg' |> in
    match horse_damage out with
    | None => hit_horse fired (shot_result shot) = None /\ a1 = fired /\ m3_shot out = shot
    | Some routed => exists target p, hit_horse fired (shot_result shot) = Some target /\
        horse_owners (bank a) !! target = Some p /\
        routed_to p target (shot_result shot) fired routed a1 /\ m3_shot out = map_result not_eliminated shot
    end /\
    credit_shot command now rider (shot_result (m3_shot out)) a1 = (a', Ok tt).
Proof.
  intros Ha Ht Hnow. unfold resolve_shot, transaction, resolve_candidate, sbind, sget, sret.
  pose proof (fire_triple command now rider Ht a Ha) as Hfired.
  destruct (bridge_validate a command now rider Ha Ht) as (c' & reg' & shot & Hv & _ & Hout & _).
  unfold fire_shot in *. rewrite Hv in *.
  set (fired := a <| combat := c' |> <| registry := reg' |>) in *. unfold fired_state in Hfired.
  destruct (hit_horse fired (shot_result shot)) as [target|] eqn:Hhit.
  - destruct Hfired as (p & Howner & Hb & Hd).
    pose proof (route_spec p command now rider _ target fired Hd Hnow Howner Hb) as Hroute.
    destruct (route_horse_damage command now rider (shot_result shot) target fired) as [a1 [routed|e]]; [|done].
    destruct Hroute as [_ Hr]. simpl is_some. cbv iota.
    match goal with |- context [credit_shot ?c ?n ?ri ?re a1] => destruct (credit_shot c n ri re a1) as [a2 [[]|e]] eqn:Hcr end; [|done].
    intros [= <- <-]. exists c', reg', shot, a1. split; [done|]. split; [done|]. simpl. split; [|exact Hcr]. by exists target, p.
  - simpl is_some. cbv iota.
    match goal with |- context [credit_shot ?c ?n ?ri ?re fired] => destruct (credit_shot c n ri re fired) as [a2 [[]|e]] eqn:Hcr end; [|done].
    intros [= <- <-]. exists c', reg', shot, fired. split; [done|]. split; [done|]. simpl. by split; [|exact Hcr].
Qed.
End operations.

(** ** The composed authority's runs *)

Inductive m3_op :=
| M3Register (p : PlayerId) (rider_entity horse_entity : EntityId) (c : HorseVitalityClass) (w : WeaponId) (team : Z)
| M3Advance (p : PlayerId) (input : ActorM3TickInput)
| M3Credit (p : PlayerId) (tick : SimulationTick) (kind : SpurCreditKind)
| M3Refill (p : PlayerId)
| M3Respawn (p : PlayerId) (tick : SimulationTick)
| M3HorsePose (pose : M3HorseTargetPose)
| M3RiderPose (p : PlayerId) (pose : TargetPoseSnapshot)
| M3Shot (command : ShotCommand) (now : SimulationTick) (rider : RiderSnapshot).

Definition m3_op_ok (op : m3_op) : Prop :=
  match op with
  | M3Advance _ input => 0 <= in_tick input <= tick_horizon /\ foot_input_ok (in_on_foot input)
  | M3Credit _ tick _ | M3Respawn _ tick => u64 tick
  | M3Shot command now _ => u64 (cmd_tick command) /\ 0 <= now <= tick_horizon
  | M3Register _ _ _ _ _ _ | M3Refill _ | M3HorsePose _ | M3RiderPose _ _ => True
  end.

Section runs.
Context `{Libm}.

(** The state after an operation, and what it reported. *)
Definition m3_apply (a : M3CombatAuthority) (op : m3_op)
    : M3CombatAuthority * option (fault M3CombatAuthorityError) :=
  let report {A} (r : M3CombatAuthority * result A (fault M3CombatAuthorityError)) :=
    (r.1, match r.2 with Ok _ => None | Err e => Some e end) in
  match op with
  | M3Register p e h c w team =>
      let '(a, b) := m3_register_actor a p e h c w team in (a, if b then None else Some Panicked)
  | M3Advance p input => report (m3_advance_actor p input a)
  | M3Credit p tick kind => report (m3_issue_spur_credit p tick kind a)
  | M3Refill p => report (refill_rider_ammo p a)
  | M3Respawn p tick => report (respawn_rider p tick a)
  | M3HorsePose pose => report (m3_record_horse_pose pose a)
  | M3RiderPose p pose => report (m3_record_rider_pose p pose a)
  | M3Shot command now rider => report (resolve_shot command now rider a)
  end.

Fixpoint m3_run (a : M3CombatAuthority) (ops : list m3_op)
    : M3CombatAuthority * list (fault M3CombatAuthorityError) :=
  match ops with
  | [] => (a, [])
  | op :: ops =>
      let '(a, e) := m3_apply a op in
      let '(a, es) := m3_run a ops in (a, option_list e ++ es)
  end.

Lemma m3_apply_settles a op :
  bridge None a -> m3_op_ok op -> bridge None (m3_apply a op).1 /\ (m3_apply a op).2 <> Some Panicked.
Proof.
  intros Ha Hop.
  assert (Hreport : forall A (m : M M3CombatAuthority (fault M3CombatAuthorityError) A), m3_settles m a ->
    bridge None (m a).1 /\ (match (m a).2 with Ok _ => None | Err e => Some e end) <> Some Panicked).
  { intros A m [H1 H2]. split; [done|]. destruct (m a).2 as [x|e]; [done|]. intros [= ->]. done. }
  destruct op as [p e h c w team|p input|p tick kind|p|p tick|pose|p pose|command now rider]; simpl in *;
    try (apply Hreport).
  - destruct (m3_register_settles p e h c w team a Ha) as (b & Hb & Ha').
    destruct (m3_register_actor a p e h c w team) as [a' o]. simpl in *. by subst o.
  - by destruct Hop; apply m3_advance_settles.
  - by apply m3_credit_settles.
  - by apply m3_refill_settles.
  - by apply m3_respawn_settles.
  - by apply m3_horse_pose_settles.
  - by apply m3_rider_pose_settles.
  - by destruct Hop; apply m3_shot_settles.
Qed.

Lemma m3_run_settles ops : forall a, bridge None a -> Forall m3_op_ok ops ->
  bridge None (m3_run a ops).1 /\ Panicked ∉ (m3_run a ops).2.
Proof.
  induction ops as [|op ops IH]; intros a Ha Hops; simpl; [split; [done|apply not_elem_of_nil]|].
  apply Forall_cons in Hops as [Hop Hops]. destruct (m3_apply_settles a op Ha Hop) as [H1 H2].
  destruct (m3_apply a op) as [a1 e]. simpl in *. destruct (IH a1 H1 Hops) as [H3 H4].
  destruct (m3_run a1 ops) as [a2 es]. simpl in *. split; [done|]. rewrite elem_of_app. intros [Hin|Hin]; [|done].
  destruct e; simpl in Hin; [|by apply elem_of_nil in Hin]. apply list_elem_of_singleton in Hin. by subst.
Qed.

Lemma m3_new_bridge rate seed epoch a : 0 < rate < 2 ^ 32 -> u64 epoch -> m3_new rate seed epoch = Ok a -> bridge None a.
Proof.
  intros Hrate He. unfold m3_new, authority_new. destruct (Z.eqb_spec rate 0); [lia|].
  unfold set_authority_epoch. simpl. destruct (epoch <? 0); [done|]. simpl.
  unfold registry_new. destruct (rate =? 0); [done|]. intros [= <-].
  assert (Hc : authority_inv (mkCombatAuthority rate seed epoch ∅ shot_ledger_default)).
  { split; simpl; [done|apply map_Forall_empty| |].
    - split; [apply map_Forall_empty|set_solver].
    - intros key shot Hk. by rewrite lookup_empty in Hk. }
  assert (Hr : forall n, registry_ok (mkTargetRegistry n ∅)) by (intros m; split; [split|]; apply map_Forall_empty).
  pose proof (bank_new_inv epoch) as Hb.
  constructor; try done; simpl.
  - intros id [? Hid]. by rewrite lookup_empty in Hid.
Qed.

(** C4. The kernels of a match never drift apart and never panic. From a match as
    it is created, over any registrations, ticks, credits, refills, respawns, poses and
    shots, accepted or refused, with ticks and times below [tick_horizon] (2^60) and any
    poses and directions at all: every player keeps exactly one rifle, one reload clock, one actor, one
    rider target and one horse target; the horse target always shows the health of
    the actor's horse, and both targets carry the player, one team and the maxima
    of the rider and of the horse's class. *)
Theorem m3_kernels_agree rate seed epoch a0 ops a errors :
  0 < rate < 2 ^ 32 -> u64 epoch -> m3_new rate seed epoch = Ok a0 ->
  Forall m3_op_ok ops -> m3_run a0 ops = (a, errors) ->
  Panicked ∉ errors /\
  dom (shooters (combat a)) = dom (actors (bank a)) /\ dom (rider_entities a) = dom (actors (bank a)) /\
  dom (reload_clocks a) = dom (actors (bank a)) /\
  size (targets (registry a)) = (2 * size (actors (bank a)))%nat /\
  forall p row, actors (bank a) !! p = Some row -> exists e rider mount,
    rider_entities a !! p = Some e /\ e <> row_horse_entity_id row /\
    targets (registry a) !! e = Some rider /\ targets (registry a) !! row_horse_entity_id row = Some mount /\
    target_health mount = HorseVitality.health (horse (row_actor row)) /\
    owner_peer_id (definition rider) = Some p /\ owner_peer_id (definition mount) = Some p /\
    team_id (definition mount) = team_id (definition rider) /\
    0 <= target_health rider <= M3_RIDER_MAX_HEALTH /\
    0 <= target_health mount <= max_health (class (horse (row_actor row))) /\
    (target_health mount = 0 <-> horse_state (horse (row_actor row)) <> Available).
Proof.
  intros Hrate He Hnew Hops Hrun.
  destruct (m3_run_settles ops a0 (m3_new_bridge _ _ _ _ Hrate He Hnew) Hops) as [Ha Herr].
  rewrite Hrun in Ha, Herr. simpl in *. split; [done|]. do 3 (split; [apply Ha|]). split; [apply Ha|].
  intros p row Hrow. destruct (bridge_row _ _ _ Ha (elem_of_dom_2 _ _ _ Hrow)) as (? & e & _ & _ & _ & Hen & _).
  destruct (br_linked _ _ Ha p e row Hen Hrow)
    as (Hne & rider & mount & Hrider & Hmount & Ho1 & Ho2 & Hteam & Hm1 & Hm2 & _ & Hsync).
  exists e, rider, mount.
  pose proof (health_ok _ (proj1 (br_registry _ _ Ha)) _ _ Hrider) as Hh1.
  pose proof (health_ok _ (proj1 (br_registry _ _ Ha)) _ _ Hmount) as Hh2. cbv beta in Hh1, Hh2.
  pose proof (br_actors _ _ Ha _ _ Hrow) as [[_ Hv] _]. apply horse_state_is_valid_true in Hv as (_ & _ & _ & _ & _ & _ & Hs).
  unfold horse_state_facts in Hs. rewrite Hm1 in Hh1. rewrite Hm2 in Hh2. specialize (Hsync ltac:(done)).
  do 8 (split; [done|]). split; [exact Hh1|]. split; [exact Hh2|]. rewrite Hsync.
  destruct (horse_state _); intuition (done || lia).
Qed.
End runs.

(** ** Where a shot's damage lands *)

Section damage.
Context `{Libm}.

Lemma horse_damage_health a c a' effects :
  actor_inv a -> command_ok c -> actor_current_tick a <> None ->
  apply_horse_damage a c = (a', Some effects) ->
  0 < HorseVitality.health (horse a) /\
  HorseVitality.health (horse a') = Z.max 0 (HorseVitality.health (horse a) - amount c).
Proof.
  intros Ha Hc Hnow. unfold apply_horse_damage. destruct (is_some_and _ _) eqn:Hg; [done|].
  destruct (actor_current_tick a) as [now|] eqn:Ht; [|done].
  destruct (HorseVitality.apply_damage (horse a) c) as [h [app|]] eqn:Happ; [|done].
  destruct Ha as (Hh & _ & _ & _ & Hht & _). pose proof Hh as [_ Hv].
  apply horse_state_is_valid_true in Hv as (_ & _ & _ & _ & _ & _ & Hs). unfold horse_state_facts in Hs.
  destruct (apply_damage_accepted _ _ _ _ now Hh Hc ltac:(congruence) Happ)
    as (Hst & _ & _ & _ & _ & _ & _ & _ & _ & Hhealth & _). rewrite Hst in Hs.
  destruct (spooked app).
  - destruct (begin_spook_stun _ _) as [f [|]]; [|done]. simpl. intros [= <- _]. simpl. lia.
  - simpl. intros [= <- _]. simpl. lia.
Qed.

Lemma horse_hit_target a r id :
  hit_horse a r = Some id -> outcome r = ShotHit /\ target_id r = Some id /\ is_Some (horse_owners (bank a) !! id).
Proof.
  unfold hit_horse. destruct (bool_decide _) eqn:Ho; [|done]. apply bool_decide_eq_true in Ho.
  destruct (target_id r) as [t|]; [|done]. cbn [mbind option_bind]. unfold horse_owner.
  destruct (horse_owners (bank a) !! t) eqn:Hw; [|done]. intros [= <-]. by rewrite Hw.
Qed.

(** C9. The damage of a resolved shot lands exactly once. A hit on a horse drops
    its target and its actor's horse to one and the same health, reports a spooked
    rider exactly when the horse was emptied, and eliminates nobody; a hit on a
    rider leaves every horse alone; the target never belongs to the shooter, no
    other target or horse changes, and only horse damage takes a sequence number. *)
Theorem shot_damage_lands_once command now rider a a' out :
  bridge None a -> u64 (cmd_tick command) -> 0 <= now <= tick_horizon ->
  resolve_shot command now rider a = (a', Ok out) ->
  let r := shot_result (m3_shot out) in
  match horse_damage out with
  | Some d =>
      let p := damaged_rider d in
      exists h left_, outcome r = ShotHit /\ target_id r = Some (damaged_horse d) /\ eliminated r = false /\
        p <> cmd_shooter command /\ bank_horse_entity_id (bank a) p = Some (damaged_horse d) /\
        HorseVitality.health <$> horse_of a p = Some h /\ 0 < h /\ left_ = Z.max 0 (h - damage r) /\
        HorseVitality.health <$> horse_of a' p = Some left_ /\
        Targets.health (registry a') (damaged_horse d) = Some left_ /\
        spooked (application (damage_effects d)) = (left_ =? 0) /\
        (left_ = 0 -> mode <$> bank_actor (bank a') p = Some ModeSpookStunned) /\
        (forall q, q <> p -> horse_of a' q = horse_of a q) /\
        (forall id, id <> damaged_horse d -> targets (registry a') !! id = targets (registry a) !! id) /\
        next_horse_damage_sequence a' = next_horse_damage_sequence a + 1
  | None =>
      (forall q, horse_of a' q = horse_of a q) /\
      next_horse_damage_sequence a' = next_horse_damage_sequence a /\
      if bool_decide (outcome r = ShotHit)
      then exists p e h, p <> cmd_shooter command /\ rider_entities a !! p = Some e /\ target_id r = Some e /\
             Targets.health (registry a) e = Some h /\ 0 < h /\
             Targets.health (registry a') e = Some (Z.max 0 (h - damage r)) /\
             (eliminated r = true <-> h <= damage r) /\
             (forall id, id <> e -> targets (registry a') !! id = targets (registry a) !! id)
      else targets (registry a') = targets (registry a)
  end.
Proof.
  intros Ha Ht Hnow Hres.
  destruct (resolve_inv command now rider a a' out Ha Ht Hnow Hres) as (c' & reg' & shot & a1 & Hv & Hout & Hcase & Hcr).
  apply credit_shot_spec in Hcr as (Hreg & Hriders & Hnext & Hhorse & Hmode).
  set (fired := a <| combat := c' |> <| registry := reg' |>) in *. cbv zeta in Hcase |- *.
  destruct (horse_damage out) as [d|].
  - destruct Hcase as (target & p & Hhit & Howner & Hrouted & ->).
    destruct Hrouted as (row & a2 & eff & c & Hrow & Htg & Hact & Htick & Hc & Htc & Ham & Happ & -> & Hth & Hsp & ->).
    apply horse_hit_target in Hhit as (Ho & Htid & _).
    destruct Hout as [[? _]|(id & record & g & left_ & _ & Hid & Hrec & Hpos & Hown & _ & _ & Hu & Hdmg)]; [done|].
    rewrite Htid in Hid. injection Hid as <-. 
    destruct (horse_damage_health _ _ _ _ Hact Hc Htick Happ) as [Hh0 Hh].
    destruct (horse_damage_spec _ _ _ _ Hact Hc Htc Htick Happ) as (_ & _ & Hspk & _ & Hmodes).
    destruct (apply_damage_spec _ _ _ _ _ _ _ (proj1 (br_registry _ _ Ha)) (proj1 Hu) Hrec Hdmg)
      as (_ & Hh' & Hleft & Helim & Hother & _).
    assert (Hfired : forall q, q <> p -> horse_of a' q = horse_of a q).
    { intros q Hq. rewrite Hhorse. unfold horse_of. simpl. by rewrite lookup_insert_ne. }
    assert (Hleft' : left_ = HorseVitality.health (horse a2)).
    { change (registry fired) with reg' in Hth. congruence. }
    assert (Hshooter : p <> cmd_shooter command).
    { intros ->. destruct (bridge_row _ _ _ Ha (elem_of_dom_2 _ _ _ Hrow)) as (? & e & _ & _ & _ & He & _).
      apply Hown. eapply (linked_owner _ _ _ e row); [by apply (br_linked _ _ Ha)|exact Hrec|by right]. }
    simpl in Hreg. rewrite Hreg, Hnext. simpl. rewrite Ham in Hh, Hspk, Hmodes.
    exists (HorseVitality.health (horse (row_actor row))), left_.
    do 4 (split; [done|]). split; [unfold bank_horse_entity_id; simpl in Hrow; rewrite Hrow; simpl; by rewrite Htg|].
    split; [unfold horse_of; simpl in Hrow; by rewrite Hrow|]. split; [done|]. split; [lia|].
    split; [rewrite Hhorse; unfold horse_of; simpl; rewrite lookup_insert_eq; simpl; by f_equal|].
    split; [done|]. split; [rewrite Hspk; lia|].
    split; [|by split_and!].
    intros Hz. rewrite Hmode. unfold bank_actor. simpl. rewrite lookup_insert_eq. simpl.
    rewrite (proj2 (Z.leb_le _ _)) in Hmodes by lia. by destruct Hmodes as (_ & _ & _ & _ & ->).
  - destruct Hcase as (Hhit & -> & ->). simpl in Hreg, Hnext.
    split; [intros q; by rewrite Hhorse|]. split; [done|]. rewrite Hreg.
    destruct Hout as [[Ho ->]|(id & record & g & left_ & Ho & Htid & Hrec & Hpos & Hown & _ & _ & Hu & Hdmg)].
    { by rewrite bool_decide_false. }
    rewrite bool_decide_true by done.
    destruct (br_targets _ _ Ha id ltac:(by exists record)) as (p & row & Hrow & Hid).
    assert (He : rider_entities a !! p = Some id).
    { destruct Hid as [Hid|]; [|done]. exfalso. pose proof (br_bank _ _ Ha) as [_ Hroutes].
      assert (Hw : horse_owners (bank a) !! id = Some p) by (apply Hroutes; by exists row).
      unfold hit_horse in Hhit. rewrite bool_decide_true, Htid in Hhit by done. cbn [mbind option_bind] in Hhit.
      unfold horse_owner in Hhit. simpl in Hhit. by rewrite Hw in Hhit. }
    destruct (apply_damage_spec _ _ _ _ _ _ _ (proj1 (br_registry _ _ Ha)) (proj1 Hu) Hrec Hdmg)
      as (_ & Hh' & -> & Helim & Hother & _).
    exists p, id, (target_health record). split.
    { intros ->. apply Hown. eapply (linked_owner _ _ _ id row); [by apply (br_linked _ _ Ha)|exact Hrec|by left]. }
    split; [done|]. split; [done|]. split; [unfold Targets.health; by rewrite Hrec|]. split; [done|]. split; [done|].
    split; [|done]. rewrite Helim. lia.
Qed.
End damage.

(** ** Reassembly at a handoff *)

Section handoff.

(** A rifle as the combat checkpoint carries it: without the reload in progress. *)
Definition unload (s : AuthorityShooter) : AuthorityShooter := s <| kernel := (kernel s) <| reload := None |> |>.
Definition unloaded (c : CombatAuthority) : CombatAuthority := c <| shooters := unload <$> shooters c |>.

Lemma restore_unloaded k :
  weapon_inv k -> reload_startable k -> restore_m3_reload (k <| reload := None |>) (reload k) = (k, true).
Proof.
  intros Hk Hs. unfold restore_m3_reload. destruct (reload k) as [r|] eqn:Hr; [|destruct k; simpl in *; by subst].
  destruct (inv_reload k Hk r Hr) as [Hh (Hw & Ha & Hq)]. destruct (Hs (ex_intro _ r Hr)) as [Hm Hz].
  replace (is_some_and (Some r) _) with false; [destruct k; simpl in *; by subst|]. symmetry.
  change (holstered (k <| reload := None |>)) with (holstered k). change (equipped (k <| reload := None |>)) with (equipped k).
  change (equipped_ammo (k <| reload := None |>)) with (equipped_ammo k).
  change (tick_rate (k <| reload := None |>)) with (tick_rate k).
  simpl. rewrite Hh, Hw, Hq, bool_decide_true, Z.eqb_refl by done. rewrite Hq in Ha. simpl.
  bsplit; lia.
Qed.

Section rows.
Variable a : M3CombatAuthority.
Hypothesis Ha : bridge None a.

Definition clock_agrees (x : PlayerId * M3AuthorityActor) : Prop :=
  exists c, reload_clocks a !! x.1 = Some c /\ actor_current_tick (row_actor x.2) = clock_tick c.
#[local] Instance clock_agrees_dec x : Decision (clock_agrees x).
Proof.
  destruct (reload_clocks a !! x.1) as [c|] eqn:Hc.
  - destruct (decide (actor_current_tick (row_actor x.2) = clock_tick c)) as [H1|H1].
    + left. by exists c.
    + right. intros (c' & H2 & H3). congruence.
  - right. intros (c' & H2 & _). congruence.
Defined.

(** The entities of a player. *)
Definition entities_of (x : PlayerId * M3AuthorityActor) (id : EntityId) : Prop :=
  id = row_horse_entity_id x.2 \/ rider_entities a !! x.1 = Some id.

Lemma row_agrees_iff c seen x e :
  actors (bank a) !! x.1 = Some x.2 -> rider_entities a !! x.1 = Some e -> is_Some (shooters c !! x.1) ->
  (forall id, id ∈ seen -> ~ entities_of x id) ->
  row_agrees c (registry a) (bank a) (rider_entities a) seen (checkpoint_row x) (reload_checkpoint_row a (checkpoint_row x)) =
    if decide (clock_agrees x) then Some e else None.
Proof.
  intros Hrow He [s Hs] Hseen. destruct x as [p row]. simpl in *.
  destruct (br_linked _ _ Ha p e row He Hrow)
    as (Hne & rd & hd & Hrd & Hhd & Ho1 & Ho2 & Hteam & Hm1 & Hm2 & _ & Hsync).
  destruct (bridge_row _ _ _ Ha (elem_of_dom_2 _ _ _ Hrow)) as (? & ? & ? & clock & _ & _ & _ & Hclock).
  unfold row_agrees, reload_checkpoint_row, bank_actor, shooter_kernel, Targets.health. simpl.
  rewrite He, Hrow, Hclock, Hs. cbn [mbind option_bind fmap option_fmap option_map].
  rewrite Hrd. cbn [mbind option_bind]. rewrite Hhd. cbn [mbind option_bind fmap option_fmap option_map default is_none].
  rewrite Ho1, Ho2, Hteam, Hm1, Hm2, (Hsync ltac:(done)), !Z.eqb_refl.
  rewrite (bool_decide_true (Some p = Some p)), (bool_decide_true (Some (HorseVitality.health _) = _)), (bool_decide_true (p = p)) by done.
  rewrite !(bool_decide_false (_ ∈ seen)) by (intros Hin; apply (Hseen _ Hin); first [by left|by right]).
  replace (e =? row_horse_entity_id row) with false by lia. simpl.
  unfold clock_agrees. destruct (decide _) as [(c' & Hc' & Heq)|Hn]; simpl in *.
  - assert (c' = clock) as -> by congruence. by rewrite bool_decide_true.
  - rewrite bool_decide_false; [done|]. intros Heq. apply Hn. by exists clock.
Qed.

Lemma entities_disjoint x y id :
  actors (bank a) !! x.1 = Some x.2 -> actors (bank a) !! y.1 = Some y.2 ->
  entities_of x id -> entities_of y id -> x.1 = y.1.
Proof.
  assert (Howner : forall x id, actors (bank a) !! x.1 = Some x.2 -> entities_of x id ->
    exists record, targets (registry a) !! id = Some record /\ owner_peer_id (definition record) = Some x.1).
  { intros z i Hz Hi. destruct (bridge_row _ _ _ Ha (elem_of_dom_2 _ _ _ Hz)) as (? & e & _ & _ & _ & He & _).
    pose proof (br_linked _ _ Ha _ e _ He Hz) as (_ & rd & hd & Hrd & Hhd & Ho1 & Ho2 & _).
    destruct Hi as [-> |Hi]; [by exists hd|]. exists rd. split; [congruence|done]. }
  intros Hx Hy Hix Hiy. destruct (Howner x id Hx Hix) as (r1 & H1 & H2).
  destruct (Howner y id Hy Hiy) as (r2 & H3 & H4). congruence.
Qed.

(** One turn of the loop. *)
Lemma restore_loop_cons x l seen c clocks :
  actors (bank a) !! x.1 = Some x.2 -> (forall id, id ∈ seen -> ~ entities_of x id) ->
  shooters c !! x.1 = unload <$> shooters (combat a) !! x.1 ->
  let rows := checkpoint_row <$> l in
  exists e s clock, rider_entities a !! x.1 = Some e /\ shooters (combat a) !! x.1 = Some s /\
    reload_clocks a !! x.1 = Some clock /\
    restore_loop (registry a) (bank a) (rider_entities a)
      (zip (checkpoint_row x :: rows) (reload_checkpoint_row a (checkpoint_row x) :: (reload_checkpoint_row a <$> rows))) seen c clocks
    = if decide (clock_agrees x)
      then restore_loop (registry a) (bank a) (rider_entities a) (zip rows (reload_checkpoint_row a <$> rows))
             ({[e; row_horse_entity_id x.2]} ∪ seen) (set_shooter c x.1 s) (<[x.1 := clock]> clocks)
      else None.
Proof.
  intros Hrow Hseen Hshx rows.
  destruct (bridge_row _ _ _ Ha (elem_of_dom_2 _ _ _ Hrow)) as (? & e & s & clock & _ & He & Hs & Hclock).
  exists e, s, clock. split; [done|]. split; [done|]. split; [done|].
  rewrite Hs in Hshx. simpl in Hshx. cbn [zip zip_with restore_loop].
  change (rider_player_id (checkpoint_row x)) with x.1. change (horse_entity_id (checkpoint_row x)) with (row_horse_entity_id x.2).
  rewrite (row_agrees_iff c seen x e) by (done || (by rewrite Hshx)).
  destruct (decide (clock_agrees x)) as [Hagree|Hnot]; [|done].
  cbn [mbind option_bind]. unfold shooter_kernel at 1. rewrite Hshx. cbn [fmap option_fmap option_map mbind option_bind].
  assert (Hrl : reload_checkpoint_row a (checkpoint_row x) =
    mkM3ReloadCheckpointV2 x.1 (clock_tick clock) (reload_held clock) (reload (kernel s))).
  { unfold reload_checkpoint_row, m3_reload, shooter_kernel. simpl. by rewrite Hclock, Hs. }
  rewrite Hrl. cbn [reload_row reload_current_tick reload_row_held].
  change (kernel (unload s)) with ((kernel s) <| reload := None |>).
  rewrite restore_unloaded by (apply (auth_shooters_ok _ (br_combat _ _ Ha) _ _ Hs) || apply (br_reloads _ _ Ha _ _ Hs)).
  cbn [negb]. rewrite (set_kernel_eq c x.1 (unload s)) by done.
  replace ((unload s) <| kernel := kernel s |>) with s by (by destruct s). by destruct clock.
Qed.

(** The loop over the rows of the players in [l]. *)
Lemma restore_loop_spec l : forall seen c clocks,
  NoDup l.*1 -> (forall x, x ∈ l -> actors (bank a) !! x.1 = Some x.2) ->
  (forall x id, x ∈ l -> id ∈ seen -> ~ entities_of x id) ->
  (forall x, x ∈ l -> shooters c !! x.1 = unload <$> shooters (combat a) !! x.1) ->
  let rows := checkpoint_row <$> l in
  let out := restore_loop (registry a) (bank a) (rider_entities a) (zip rows (reload_checkpoint_row a <$> rows)) seen c clocks in
  if decide (Forall clock_agrees l)
  then exists c' clocks', out = Some (c', clocks') /\
    c' = c <| shooters := shooters c' |> /\
    (forall p, shooters c' !! p = if decide (p ∈ l.*1) then shooters (combat a) !! p else shooters c !! p) /\
    (forall p, clocks' !! p = if decide (p ∈ l.*1) then reload_clocks a !! p else clocks !! p)
  else out = None.
Proof.
  induction l as [|x l IH]; intros seen c clocks Hnd Hrows Hseen Hsh.
  { destruct (decide _) as [_|Hn]; [|by destruct Hn]. exists c, clocks. split; [done|]. split; [by destruct c|].
    split; intros p; by rewrite decide_False by (by intros ?%elem_of_nil). }
  cbv zeta. rewrite !fmap_cons.
  pose proof (Hrows x ltac:(left)) as Hrow.
  destruct (restore_loop_cons x l seen c clocks Hrow ltac:(intros id Hid; apply (Hseen x id); [left|done])
    (Hsh x ltac:(left))) as (e & s & clock & He & Hs & Hclock & ->).
  apply NoDup_cons in Hnd as [Hnin Hnd].
  assert (Hother : forall y, y ∈ l -> y.1 <> x.1) by (intros y Hy Heq; apply Hnin; rewrite <- Heq; by apply list_elem_of_fmap_2).
  specialize (IH ({[e; row_horse_entity_id x.2]} ∪ seen) (set_shooter c x.1 s) (<[x.1 := clock]> clocks) Hnd).
  cbv zeta in IH. destruct (decide (clock_agrees x)) as [Hagree|Hnot].
  2:{ rewrite decide_False; [done|]. by intros [Hx _]%Forall_cons. }
  assert (Hiff : Forall clock_agrees (x :: l) <-> Forall clock_agrees l) by (rewrite Forall_cons; naive_solver).
  assert (Hstep : forall P Q : Prop, (if decide (Forall clock_agrees l) then P else Q) ->
    forall P' : Prop, (P -> P') -> if decide (Forall clock_agrees (x :: l)) then P' else Q).
  { intros P Q H P' HP. destruct (decide (Forall clock_agrees l)), (decide (Forall clock_agrees (x :: l))); naive_solver. }
  eapply Hstep; [apply IH|].
  - intros y Hy. apply Hrows. by right.
  - intros y id Hy Hid Hent. apply elem_of_union in Hid as [Hid|Hid]; [|by apply (Hseen y id); [right|..]].
    apply (Hother y Hy). apply (entities_disjoint y x id); [apply Hrows; by right|done|done|].
    unfold entities_of. set_solver.
  - intros y Hy. unfold set_shooter. simpl. rewrite lookup_insert_ne by (by intros Heq; apply (Hother y Hy)).
    apply Hsh. by right.
  - intros (c' & clocks' & Hout & Hc' & Hss & Hcc). exists c', clocks'. split; [exact Hout|].
    split; [rewrite Hc'; by destruct c|]. split; intros p; [rewrite Hss|rewrite Hcc]; simpl.
    + destruct (decide (p ∈ l.*1)); [rewrite decide_True by set_solver; done|].
      destruct (decide (p = x.1)) as [-> |Hne]; [rewrite decide_True by set_solver; by rewrite lookup_insert_eq|].
      rewrite decide_False by set_solver. by rewrite lookup_insert_ne.
    + destruct (decide (p ∈ l.*1)); [rewrite decide_True by set_solver; done|].
      destruct (decide (p = x.1)) as [-> |Hne]; [rewrite decide_True by set_solver; by rewrite lookup_insert_eq|].
      rewrite decide_False by set_solver. by rewrite lookup_insert_ne.
Qed.
End rows.

Lemma restore_parts a :
  bridge None a ->
  let rows := checkpoint_row <$> btree_list (actors (bank a)) in
  restore_components (unloaded (combat a)) (registry a) (bank a) (rider_entities a) (reload_checkpoints a)
    (next_horse_damage_sequence a) =
  match restore_loop (registry a) (bank a) (rider_entities a) (zip rows (reload_checkpoint_row a <$> rows)) ∅
          (unloaded (combat a)) ∅ with
  | None => Err CrossKernelInvariant
  | Some (c, clocks) => Ok (mkM3CombatAuthority c (registry a) (bank a) (rider_entities a) clocks (next_horse_damage_sequence a))
  end.
Proof.
  intros Ha rows. unfold restore_components, reload_checkpoints. cbn [bank_checkpoint checkpoint_actors]. fold rows.
  assert (Hsizes : size (rider_entities a) = size (actors (bank a)) /\ size (shooters (combat a)) = size (actors (bank a))).
  { rewrite <- !size_dom. by rewrite (br_riders _ _ Ha), (br_shooters _ _ Ha). }
  destruct Hsizes as [Hs1 Hs2].
  assert (Hlen : length rows = size (actors (bank a))) by (unfold rows; by rewrite length_fmap, length_btree_list).
  pose proof (br_next _ _ Ha) as Hn. pose proof (br_bank _ _ Ha) as [Hmax _]. unfold MAX_M3_AUTHORITY_ACTORS in Hmax.
  pose proof (br_epoch _ _ Ha) as [He _]. pose proof (br_size _ _ Ha) as Hsize.
  rewrite length_fmap, Hlen, Hs1. change (shooters (unloaded (combat a))) with (unload <$> shooters (combat a)).
  rewrite map_size_fmap, Hs2, Hsize. change (authority_epoch (unloaded (combat a))) with (authority_epoch (combat a)).
  rewrite <- He, !Z.eqb_refl.
  replace (next_horse_damage_sequence a =? 0) with false by lia.
  replace (Z.of_nat (2 * size (actors (bank a))) =? _) with true; [done|]. symmetry. apply Z.eqb_eq.
  unfold saturating_mul. int_lia.
Qed.

(** C37. A handoff reassembles the very graph it took apart: the rifles without
    their reloads, the targets, the actors, the rider entities and the reload rows
    of any consistent graph restore it, reloads included, exactly when every
    reload clock stands at its actor's tick; otherwise the parts are refused. *)
Theorem m3_handoff_reassembles a :
  bridge None a ->
  ((forall p row c, actors (bank a) !! p = Some row -> reload_clocks a !! p = Some c ->
      actor_current_tick (row_actor row) = clock_tick c) ->
   restore_components (unloaded (combat a)) (registry a) (bank a) (rider_entities a) (reload_checkpoints a)
     (next_horse_damage_sequence a) = Ok a) /\
  (forall p row c, actors (bank a) !! p = Some row -> reload_clocks a !! p = Some c ->
     actor_current_tick (row_actor row) <> clock_tick c ->
   restore_components (unloaded (combat a)) (registry a) (bank a) (rider_entities a) (reload_checkpoints a)
     (next_horse_damage_sequence a) = Err CrossKernelInvariant).
Proof.
  intros Ha. rewrite (restore_parts a Ha). set (l := btree_list (actors (bank a))).
  assert (Hl : forall x, x ∈ l -> actors (bank a) !! x.1 = Some x.2) by (intros [p row] Hx; by apply elem_of_btree_list).
  pose proof (restore_loop_spec a Ha l ∅ (unloaded (combat a)) ∅ (btree_keys_NoDup _) Hl ltac:(set_solver)
    ltac:(intros x _; simpl; apply lookup_fmap)) as Hloop. cbv zeta in Hloop.
  assert (Hdom : forall p, p ∈ l.*1 <-> p ∈ dom (actors (bank a))) by (intros p; rewrite elem_of_dom; apply elem_of_btree_keys).
  split.
  - intros Hall. destruct (decide (Forall (clock_agrees a) l)) as [_|Hn].
    2:{ destruct Hn. apply Forall_forall. intros x Hx.
        destruct (bridge_row _ _ _ Ha (elem_of_dom_2 _ _ _ (Hl x Hx))) as (? & ? & ? & c & _ & _ & _ & Hc).
        exists c. split; [done|]. exact (Hall x.1 x.2 c (Hl x Hx) Hc). }
    destruct Hloop as (c' & clocks' & -> & Hc' & Hss & Hcc).
    assert (Hsame : shooters c' = shooters (combat a)).
    { apply map_eq. intros p. rewrite Hss. destruct (decide (p ∈ l.*1)) as [|Hp]; [done|].
      rewrite Hdom, <- (br_shooters _ _ Ha), not_elem_of_dom in Hp. simpl. by rewrite lookup_fmap, Hp. }
    assert (Hclocks : clocks' = reload_clocks a).
    { apply map_eq. intros p. rewrite Hcc. destruct (decide (p ∈ l.*1)) as [|Hp]; [done|].
      rewrite Hdom, <- (br_clocks _ _ Ha), not_elem_of_dom in Hp. by rewrite Hp, lookup_empty. }
    rewrite Hclocks, Hc', Hsame. by destruct a as [[] ? ? ? ? ?].
  - intros p row c Hrow Hc Hne. destruct (decide (Forall (clock_agrees a) l)) as [Hf|_]; [|by rewrite Hloop].
    rewrite Forall_forall in Hf. destruct (Hf (p, row)) as (c' & Hc' & Heq); [by apply elem_of_btree_list|].
    simpl in *. congruence.
Qed.
End handoff.

(** ** A duel *)

#[local] Existing Instance small_angle_libm.

Definition duel_rival : PlayerId := player 5.
Definition duel_tick (t : SimulationTick) : ActorM3TickInput := idle_input t false false.
Definition duel_ops : list m3_op :=
  [M3Register demo_rider 1 11 Courser Dustwalker 1; M3Register duel_rival 2 12 Courser Dustwalker 2;
   M3Advance demo_rider (duel_tick 55); M3Advance duel_rival (duel_tick 55);
   M3HorsePose (mkM3HorseTargetPose 55 duel_rival (mkQuantizedOrigin 0 1600 (-10000))
     (mkQuantizedDirection 1000000 0 0) (mkQuantizedOrigin 0 5000 (-10000)))].
Definition duel_start : M3CombatAuthority :=
  mkM3CombatAuthority (mkCombatAuthority 60 7 3 ∅ shot_ledger_default) (mkTargetRegistry 15 ∅) (bank_new 3) ∅ ∅ 1.
Definition duel : M3CombatAuthority := (m3_run duel_start duel_ops).1.

Lemma duel_new : m3_new 60 7 3 = Ok duel_start.
Proof. vm_compute. reflexivity. Qed.
Lemma duel_ops_ok : Forall m3_op_ok duel_ops.
Proof.
  unfold duel_ops. by repeat (apply Forall_cons; split).
Qed.
Lemma duel_bridge : bridge None duel.
Proof. by apply m3_run_settles; [eapply m3_new_bridge; [| |exact duel_new]|exact duel_ops_ok]. Qed.

Lemma m3_kernels_agree_witness :
  Panicked ∉ (m3_run duel_start duel_ops).2 /\ dom (reload_clocks duel) = dom (actors (bank duel)).
Proof.
  destruct (m3_kernels_agree 60 7 3 duel_start duel_ops duel (m3_run duel_start duel_ops).2
    ltac:(done) ltac:(done) duel_new duel_ops_ok (surjective_pairing _)) as (H1 & _ & _ & H2 & _).
  by split.
Defined.

Lemma duel_shot :
  exists a' out d, resolve_shot demo_command 55 demo_snapshot duel = (a', Ok out) /\ horse_damage out = Some d /\
    damaged_horse d = 12 /\ damage (shot_result (m3_shot out)) = 14 /\
    HorseVitality.health <$> horse_of duel (damaged_rider d) = Some 200.
Proof. vm_compute. do 3 eexists. split_and!; reflexivity. Qed.

Lemma shot_damage_lands_once_witness :
  exists a' out, resolve_shot demo_command 55 demo_snapshot duel = (a', Ok out) /\
    Targets.health (registry a') 12 = Some 186 /\ next_horse_damage_sequence a' = next_horse_damage_sequence duel + 1.
Proof.
  assert (Ht : u64 (cmd_tick demo_command)) by (by vm_compute).
  assert (Hnow : 0 <= 55 <= tick_horizon) by (by vm_compute).
  destruct duel_shot as (a' & out & d & Hres & Hd & Hh & Hdmg & Hfull). exists a', out. split; [exact Hres|].
  pose proof (shot_damage_lands_once demo_command 55 demo_snapshot duel a' out duel_bridge Ht Hnow Hres) as H. cbv zeta in H. rewrite Hd in H.
  destruct H as (h & left_ & _ & _ & _ & _ & _ & Hh0 & _ & Hleft & _ & Hreg & _ & _ & _ & _ & Hn).
  rewrite Hfull in Hh0. injection Hh0 as <-. rewrite Hdmg in Hleft. rewrite Hh in Hreg. split; [|exact Hn].
  rewrite Hreg, Hleft. reflexivity.
Defined.

Lemma duel_clocks : map_Forall (fun p row =>
  forall c, reload_clocks duel !! p = Some c -> actor_current_tick (row_actor row) = clock_tick c) (actors (bank duel)).
Proof.
  assert (Hb : forallb (fun x => is_none_or (reload_clocks duel !! x.1)
    (fun c => bool_decide (actor_current_tick (row_actor x.2) = clock_tick c))) (btree_list (actors (bank duel))) = true)
    by (vm_compute; reflexivity).
  intros p row Hrow c Hc. rewrite forallb_forall in Hb.
  specialize (Hb (p, row) (proj1 (list_elem_of_In _ _) (proj2 (elem_of_btree_list _ _ _) Hrow))).
  simpl in Hb. rewrite Hc in Hb. by apply bool_decide_eq_true in Hb.
Qed.

Lemma m3_handoff_reassembles_witness :
  restore_components (unloaded (combat duel)) (registry duel) (bank duel) (rider_entities duel)
    (reload_checkpoints duel) (next_horse_damage_sequence duel) = Ok duel.
Proof.
  destruct (m3_handoff_reassembles duel duel_bridge) as [H _]. apply H.
  intros p row c Hrow Hc. exact (duel_clocks p row Hrow c Hc).
Defined.
