(* ===== verification/BountyPlacement.v ===== *)
(** * Deterministic placement ([m5.rs])

    Objective and respawn points, derived by every peer from the lobby seed. *)

From S2P Require Import Prelude MachineInt Ordered Clock SplitMix Identifiers Territory.
Open Scope Z_scope.

Definition OBJECTIVE_EDGE_BUFFER_M : Z := 150.
Definition RESPAWN_MIN_SEPARATION_M : Z := 120.
Definition RESPAWN_PLACEMENT_CANDIDATES : nat := 32.

Record BountyWorldPoint := mkBountyWorldPoint { x_mm : Z; z_mm : Z }.
#[export] Instance BountyWorldPoint_eq_dec : EqDecision BountyWorldPoint.
Proof. solve_decision. Defined.

(** The derived order: [x_mm], then [z_mm]. *)
Definition point_key (p : BountyWorldPoint) : Z * Z := (x_mm p, z_mm p).
Lemma point_key_inj (a b : BountyWorldPoint) : point_key a = point_key b -> a = b.
Proof. destruct a, b. unfold point_key. simpl. by intros [= -> ->]. Qed.
#[export] Instance BountyWorldPoint_key_order : KeyOrder BountyWorldPoint :=
  key_order_via point_key point_key_inj.

Definition squared_radius_mm (self : BountyWorldPoint) : Z :=
  wrap 128 (x_mm self * x_mm self + z_mm self * z_mm self).

Definition point_squared_distance_mm (self other : BountyWorldPoint) : Z :=
  let x := x_mm self - x_mm other in
  let z := z_mm self - z_mm other in
  wrap 128 (x * x + z * z).

(** The planar vector drawn from the entropy, never zero. *)
Definition raw_vector (entropy : Z) : Z * Z :=
  let next := splitmix64 entropy in
  let raw_x := Z.land entropy 0x1fffff - 0x0fffff in
  let raw_z := Z.land next 0x1fffff - 0x0fffff in
  if (raw_x =? 0) && (raw_z =? 0) then (1, 0) else (raw_x, raw_z).

(** [i128] division truncates toward zero. *)
Definition radial_point (entropy radius_mm : Z) : BountyWorldPoint :=
  let '(raw_x, raw_z) := raw_vector entropy in
  let norm := Z.max (integer_sqrt_u128 (raw_x * raw_x + raw_z * raw_z)) 1 in
  mkBountyWorldPoint
    (default 0 (try_from_int 32 (Z.quot (raw_x * radius_mm) norm)))
    (default 0 (try_from_int 32 (Z.quot (raw_z * radius_mm) norm))).

Definition usable_radius_mm (player_count : Z) : Z :=
  saturating_sub (playable_radius_m player_count * 1000) (OBJECTIVE_EDGE_BUFFER_M * 1000).

Definition objective_entropy (lobby_seed objective_id : Z) : Z :=
  splitmix64 (Z.lxor lobby_seed (wrapping_mul 64 objective_id 0x9e3779b97f4a7c15)).

Definition bounty_objective_world_point (lobby_seed objective_id player_count : Z) : BountyWorldPoint :=
  let usable_mm := usable_radius_mm player_count in
  let entropy := objective_entropy lobby_seed objective_id in
  let fraction_percent := 45 + entropy mod 31 in
  radial_point entropy (saturating_mul 64 usable_mm fraction_percent / 100).

Definition respawn_base (lobby_seed : Z) (player : PlayerId) (deaths : Z) (respawn_tick : SimulationTick) : Z :=
  Z.lxor (Z.lxor (Z.lxor lobby_seed (be_value (take 8 (id_bytes player))))
                 (wrapping_mul 64 deaths 0xbf58476d1ce4e5b9))
         (wrapping_mul 64 respawn_tick 0x94d049bb133111eb).

Definition respawn_candidate (base radius_mm index : Z) : BountyWorldPoint :=
  let entropy := splitmix64 (Z.lxor base (wrapping_mul 64 index 0x9e3779b97f4a7c15)) in
  let ring_percent := 70 + entropy mod 16 in
  radial_point entropy (saturating_mul 64 radius_mm ring_percent / 100).

(** [Vec::dedup]: repeated neighbours are dropped. *)
Fixpoint dedup (l : list BountyWorldPoint) : list BountyWorldPoint :=
  match l with
  | [] => []
  | a :: rest =>
      match rest with
      | [] => [a]
      | b :: _ => if decide (a = b) then dedup rest else a :: dedup rest
      end
  end.

(** [iter().map(..).min().unwrap_or(u128::MAX)] *)
Definition nearest_sq (occupied : list BountyWorldPoint) (candidate : BountyWorldPoint) : Z :=
  match point_squared_distance_mm candidate <$> occupied with
  | [] => u128_max
  | d :: ds => fold_left Z.min ds d
  end.

Definition required_sq : Z := (RESPAWN_MIN_SEPARATION_M * 1000) ^ 2.

(** The candidate loop. *)
Fixpoint respawn_loop (base radius_mm : Z) (occupied : list BountyWorldPoint) (indices : list Z)
    (best : BountyWorldPoint) (best_nearest_sq : Z) : BountyWorldPoint :=
  match indices with
  | [] => best
  | index :: indices =>
      let candidate := respawn_candidate base radius_mm index in
      let nearest := nearest_sq occupied candidate in
      if required_sq <=? nearest then candidate
      else if (best_nearest_sq <? nearest)
              || ((nearest =? best_nearest_sq) && key_ltb candidate best)
      then respawn_loop base radius_mm occupied indices candidate nearest
      else respawn_loop base radius_mm occupied indices best best_nearest_sq
  end.

Definition candidate_indices : list Z := Z.of_nat <$> seq 0 RESPAWN_PLACEMENT_CANDIDATES.

Definition bounty_respawn_world_point (lobby_seed : Z) (player : PlayerId) (deaths : Z)
    (respawn_tick : SimulationTick) (player_count : Z) (occupied : list BountyWorldPoint)
    : BountyWorldPoint :=
  let radius_mm := playable_radius_m player_count * 1000 in
  let base := respawn_base lobby_seed player deaths respawn_tick in
  let occupied := dedup (merge_sort key_le occupied) in
  respawn_loop base radius_mm occupied candidate_indices (mkBountyWorldPoint 0 0) 0.

(** ** Radial points *)

(** The drawn vector's squared length. *)
Definition raw_norm2 (entropy : Z) : Z :=
  (raw_vector entropy).1 * (raw_vector entropy).1 + (raw_vector entropy).2 * (raw_vector entropy).2.

Lemma land_21 n : 0 <= Z.land n 0x1fffff <= 0x1fffff.
Proof.
  change 0x1fffff with (Z.ones 21). rewrite Z.land_ones by lia.
  pose proof (Z.mod_pos_bound n (2 ^ 21) eq_refl). change (Z.ones 21) with 2097151.
  change (2 ^ 21) with 2097152 in *. lia.
Qed.

Lemma raw_vector_range e :
  - 2 ^ 21 <= (raw_vector e).1 <= 2 ^ 21 /\ - 2 ^ 21 <= (raw_vector e).2 <= 2 ^ 21 /\ 1 <= raw_norm2 e.
Proof.
  unfold raw_norm2, raw_vector. pose proof (land_21 e). pose proof (land_21 (splitmix64 e)).
  destruct (_ && _) eqn:Hz; simpl; [lia|].
  split; [lia|]. split; [lia|].
  set (a := Z.land e 2097151 - 1048575) in *. set (b := Z.land (splitmix64 e) 2097151 - 1048575) in *.
  clearbody a b. assert (a <> 0 \/ b <> 0) as [Ha|Hb] by lia; nia.
Qed.

Lemma abs_square_le a b : Z.abs a <= b -> a * a <= b * b.
Proof. intros H. rewrite <- (Z.abs_square a). apply Z.mul_le_mono_nonneg; lia. Qed.

Lemma scaled_square_le a s b r :
  0 <= s -> 0 <= r -> Z.abs a * s <= Z.abs b * r -> (a * a) * (s * s) <= b * b * (r * r).
Proof.
  intros Hs Hr H. rewrite <- (Z.abs_square a), <- (Z.abs_square b).
  assert ((Z.abs a * s) * (Z.abs a * s) <= (Z.abs b * r) * (Z.abs b * r))
    by (apply Z.mul_le_mono_nonneg; nia). lia.
Qed.

(** One component of the scaled vector. *)
Lemma radial_component raw other radius :
  let n2 := raw * raw + other * other in
  1 <= n2 -> 0 <= radius <= 2000000 ->
  let q := Z.quot (raw * radius) (Z.sqrt n2) in
  Z.abs q <= radius /\ default 0 (try_from_int 32 q) = q /\
  Z.abs q * Z.sqrt n2 <= Z.abs raw * radius.
Proof.
  intros n2 Hn Hr q.
  assert (Hs : 1 <= Z.sqrt n2) by (change 1 with (Z.sqrt 1); apply Z.sqrt_le_mono; lia).
  assert (Hraw : Z.abs raw <= Z.sqrt n2).
  { rewrite <- (Z.sqrt_square (Z.abs raw)) by lia. apply Z.sqrt_le_mono. rewrite Z.abs_square. unfold n2. nia. }
  assert (Hq : Z.abs q * Z.sqrt n2 <= Z.abs raw * radius).
  { unfold q. rewrite <- Z.quot_abs by lia. rewrite Z.abs_mul, (Z.abs_eq radius), (Z.abs_eq (Z.sqrt n2)) by lia.
    pose proof (Z.mul_quot_le (Z.abs raw * radius) (Z.sqrt n2) ltac:(nia) ltac:(lia)). lia. }
  assert (Hb : Z.abs q <= radius) by nia.
  split; [done|]. split; [|done]. unfold try_from_int.
  destruct (_ && _) eqn:Hfit; [done|]. apply andb_false_iff in Hfit.
  change (2 ^ (32 - 1)) with 2147483648 in Hfit. lia.
Qed.

Lemma radial_point_eq e radius :
  0 <= radius <= 2000000 ->
  let p := radial_point e radius in
  Z.abs (x_mm p) <= radius /\ Z.abs (z_mm p) <= radius /\
  squared_radius_mm p = x_mm p * x_mm p + z_mm p * z_mm p /\
  squared_radius_mm p * (Z.sqrt (raw_norm2 e) * Z.sqrt (raw_norm2 e)) <= raw_norm2 e * (radius * radius).
Proof.
  intros Hr p. destruct (raw_vector_range e) as (Hx & Hz & Hn).
  unfold p, radial_point. unfold raw_norm2 in *. destruct (raw_vector e) as [rx rz]. simpl in *.
  rewrite integer_sqrt_u128_sqrt.
  2:{ unfold in_uint. change (2 ^ 21) with 2097152 in *. split; [nia|].
      apply Z.le_lt_trans with (2 * (2097152 * 2097152)); [nia|]. by vm_compute. }
  assert (Hs : 1 <= Z.sqrt (rx * rx + rz * rz))
    by (change 1 with (Z.sqrt 1) at 1; apply Z.sqrt_le_mono; lia).
  rewrite Z.max_l by lia.
  destruct (radial_component rx rz radius Hn Hr) as (H1 & H2 & H3).
  pose proof (radial_component rz rx radius) as Hrz. cbv zeta in Hrz.
  rewrite (Z.add_comm (rz * rz)) in Hrz. destruct (Hrz Hn Hr) as (H4 & H5 & H6).
  rewrite H2, H5.
  set (s := Z.sqrt (rx * rx + rz * rz)) in *. set (x := Z.quot (rx * radius) s) in *.
  set (z := Z.quot (rz * radius) s) in *. clearbody x z s.
  assert (Hsq : x * x + z * z <= 2 * (2000000 * 2000000)).
  { pose proof (abs_square_le x radius H1). pose proof (abs_square_le z radius H4).
    assert (radius * radius <= 2000000 * 2000000) by (apply Z.mul_le_mono_nonneg; lia). lia. }
  assert (Hexact : squared_radius_mm (mkBountyWorldPoint x z) = x * x + z * z).
  { unfold squared_radius_mm. simpl. apply wrap_small. unfold in_uint. split; [nia|].
    eapply Z.le_lt_trans; [exact Hsq|]. by vm_compute. }
  split_and!; try done. rewrite Hexact.
  assert (Hx2 : (x * x) * (s * s) <= rx * rx * (radius * radius)).
  { apply (scaled_square_le x s rx radius); lia. }
  assert (Hz2 : (z * z) * (s * s) <= rz * rz * (radius * radius)).
  { apply (scaled_square_le z s rz radius); lia. }
  nia.
Qed.

Lemma usable_radius_range n :
  in_uint 32 n -> usable_radius_mm n = (playable_radius_m n - 150) * 1000 /\
  300000 <= usable_radius_mm n <= 1350000.
Proof.
  intros Hn. pose proof (playable_radius_bounds n Hn). unfold usable_radius_mm, OBJECTIVE_EDGE_BUFFER_M.
  unfold saturating_sub. lia.
Qed.

(** A root is never far below: the squared length over the squared floor. *)
Lemma sqrt_ratio n : 9 <= n -> n * 9 <= Z.sqrt n * Z.sqrt n * 15.
Proof.
  intros Hn. pose proof (Z.sqrt_spec n ltac:(lia)) as [_ Hs].
  assert (H3 : 3 <= Z.sqrt n) by (change 3 with (Z.sqrt 9); apply Z.sqrt_le_mono; lia). nia.
Qed.

(** Outside the lengths the floored root shortens most, the overshoot is at most
    the square root of 15/9. *)
Lemma raw_norm_ratio e :
  raw_norm2 e <> 2 -> raw_norm2 e <> 8 ->
  raw_norm2 e * 9 <= Z.sqrt (raw_norm2 e) * Z.sqrt (raw_norm2 e) * 15.
Proof.
  intros H2 H8. destruct (raw_vector_range e) as (_ & _ & H1).
  destruct (Z.le_gt_cases 9 (raw_norm2 e)) as [Hge|Hlt]; [by apply sqrt_ratio|].
  assert (Hsum : raw_norm2 e <> 3 /\ raw_norm2 e <> 6 /\ raw_norm2 e <> 7).
  { unfold raw_norm2 in *. generalize dependent (raw_vector e). intros [a b]; simpl; intros.
    assert (-2 <= a <= 2 /\ -2 <= b <= 2) by nia.
    assert (a = -2 \/ a = -1 \/ a = 0 \/ a = 1 \/ a = 2) as Ha by lia.
    assert (b = -2 \/ b = -1 \/ b = 0 \/ b = 1 \/ b = 2) as Hb by lia.
    destruct_or! Ha; destruct_or! Hb; subst; lia. }
  assert (raw_norm2 e = 1 \/ raw_norm2 e = 4 \/ raw_norm2 e = 5) as Hc by lia.
  destruct_or! Hc; rewrite Hc; by vm_compute.
Qed.

(** A radial point in the disc of three quarters of [usable]. *)
Lemma radial_point_inside e r usable :
  0 <= r -> r * 4 <= usable * 3 -> usable <= 2000000 ->
  let p := radial_point e r in
  Z.abs (x_mm p) * 4 <= usable * 3 /\ Z.abs (z_mm p) * 4 <= usable * 3 /\
  squared_radius_mm p * 8 <= 9 * (usable * usable) /\
  (raw_norm2 e <> 2 -> raw_norm2 e <> 8 -> squared_radius_mm p <= usable * usable).
Proof.
  intros Hr0 Hr Hu p. destruct (radial_point_eq e r ltac:(lia)) as (Hx & Hz & Hsq & Hn2).
  fold p in Hx, Hz, Hsq, Hn2. clearbody p.
  assert (Hr2 : r * r * 16 <= usable * usable * 9).
  { assert (H : (r * 4) * (r * 4) <= (usable * 3) * (usable * 3)) by (apply Z.mul_le_mono_nonneg; lia). lia. }
  pose proof (abs_square_le _ _ Hx). pose proof (abs_square_le _ _ Hz).
  split; [lia|]. split; [lia|]. split; [lia|].
  intros H2 H8. pose proof (raw_norm_ratio e H2 H8) as Hratio.
  destruct (raw_vector_range e) as (_ & _ & H1).
  assert (Hs : 1 <= Z.sqrt (raw_norm2 e)) by (change 1 with (Z.sqrt 1) at 1; apply Z.sqrt_le_mono; lia).
  set (s2 := Z.sqrt (raw_norm2 e) * Z.sqrt (raw_norm2 e)) in *.
  assert (Hs2 : 1 <= s2) by (unfold s2; nia). clearbody s2.
  assert (H15 : squared_radius_mm p * 9 <= 15 * (r * r)); [|lia].
  apply (Z.mul_le_mono_pos_r _ _ s2); [lia|].
  assert (raw_norm2 e * 9 * (r * r) <= s2 * 15 * (r * r))
    by (apply Z.mul_le_mono_nonneg_r; [apply Z.square_nonneg|done]). lia.
Qed.

(** A percentage of a radius. *)
Lemma percent_of radius f :
  0 <= radius <= 2000000 -> 0 <= f <= 100 ->
  0 <= saturating_mul 64 radius f / 100 /\ saturating_mul 64 radius f / 100 * 100 <= radius * f.
Proof.
  intros Hr Hf. assert (0 <= radius * f <= 200000000) by nia.
  assert (Hsm : saturating_mul 64 radius f = radius * f) by (unfold saturating_mul; pow_norm; lia).
  rewrite Hsm. set (m := radius * f) in *. clearbody m. div_lia.
Qed.

(** Objective points are placed inside the territory, at most three quarters
    of the usable radius along each axis; and they lie at least 150 m inside its
    edge unless the drawn vector has squared length 2 or 8, where the floored root
    is short by a factor of up to the square root of two. *)
Theorem objective_point_inside seed id n :
  in_uint 32 n ->
  let p := bounty_objective_world_point seed id n in
  let usable := usable_radius_mm n in
  let entropy := objective_entropy seed id in
  Z.abs (x_mm p) * 4 <= usable * 3 /\ Z.abs (z_mm p) * 4 <= usable * 3 /\
  squared_radius_mm p <= (playable_radius_m n * 1000) ^ 2 /\
  (raw_norm2 entropy <> 2 -> raw_norm2 entropy <> 8 -> squared_radius_mm p <= usable ^ 2).
Proof.
  intros Hn p usable entropy. destruct (usable_radius_range n Hn) as [Hu Hur]. fold usable in Hu, Hur.
  unfold p, bounty_objective_world_point. fold usable entropy.
  pose proof (Z.mod_pos_bound entropy 31 ltac:(lia)) as Hf.
  set (f := 45 + entropy mod 31). assert (Hfr : 45 <= f <= 75) by (unfold f; lia). clearbody f.
  destruct (percent_of usable f) as [Hr0 Hr]; [lia..|].
  set (r := saturating_mul 64 usable f / 100) in *. clearbody r.
  assert (Hr4 : r * 4 <= usable * 3) by nia.
  destruct (radial_point_inside entropy r usable) as (Hx & Hz & Hsq & Hin); [lia..|].
  pose proof (playable_radius_bounds n Hn). rewrite !Z.pow_2_r.
  split; [done|]. split; [done|]. split; [|done].
  assert (9 * (usable * usable) <= 8 * ((playable_radius_m n * 1000) * (playable_radius_m n * 1000))); [|lia].
  replace (playable_radius_m n * 1000) with (usable + 150000) by lia.
  assert (usable * usable <= usable * 1350000) by (apply Z.mul_le_mono_nonneg_l; lia). lia.
Qed.

Lemma objective_point_inside_witness :
  squared_radius_mm (bounty_objective_world_point 42 1 4) <= usable_radius_mm 4 ^ 2.
Proof.
  destruct (objective_point_inside 42 1 4) as (_ & _ & _ & H); [vm_compute; split; congruence|].
  apply H; vm_compute; congruence.
Defined.

(** The exception is real: with this seed the first objective of a four-player
    match is drawn along a diagonal of squared length 2 or 8 and lands in the
    150 m edge buffer. *)
Lemma objective_point_in_edge_buffer :
  usable_radius_mm 4 ^ 2 < squared_radius_mm (bounty_objective_world_point 5953739200739084083 1 4).
Proof. by vm_compute. Qed.

(** ** Respawn placement *)

Lemma fold_min_spec l d :
  fold_left Z.min l d ∈ d :: l /\ forall x, x ∈ d :: l -> fold_left Z.min l d <= x.
Proof.
  revert d. induction l as [|a l IH]; intros d; simpl.
  - split; [set_solver|]. intros x Hx. apply list_elem_of_singleton in Hx as ->. lia.
  - destruct (IH (Z.min d a)) as [Hin Hle]. split.
    + apply elem_of_cons in Hin as [Hin|Hin]; [|set_solver].
      rewrite Hin. destruct (Z.min_spec d a) as [[_ ->]|[_ ->]]; set_solver.
    + intros x Hx. pose proof (Hle (Z.min d a) ltac:(set_solver)).
      rewrite !elem_of_cons in Hx. destruct Hx as [-> |[-> |Hx]]; [lia..|]. apply Hle. set_solver.
Qed.

(** The nearest distance only depends on which points are occupied. *)
Lemma nearest_sq_spec occupied c :
  occupied <> [] ->
  (exists p, p ∈ occupied /\ nearest_sq occupied c = point_squared_distance_mm c p) /\
  forall p, p ∈ occupied -> nearest_sq occupied c <= point_squared_distance_mm c p.
Proof.
  destruct occupied as [|o occupied]; [done|intros _]. unfold nearest_sq.
  rewrite fmap_cons. destruct (fold_min_spec (point_squared_distance_mm c <$> occupied) (point_squared_distance_mm c o)) as [Hin Hle].
  rewrite <- fmap_cons in Hin, Hle. split.
  - apply list_elem_of_fmap in Hin as (p & -> & Hp). eauto.
  - intros p Hp. apply Hle. by apply list_elem_of_fmap_2.
Qed.

Lemma nearest_sq_proper l1 l2 c :
  (forall p, p ∈ l1 <-> p ∈ l2) -> nearest_sq l1 c = nearest_sq l2 c.
Proof.
  intros Heq. destruct (decide (l1 = [])) as [-> |H1].
  { destruct l2 as [|p l2]; [done|]. specialize (Heq p). set_solver. }
  destruct (decide (l2 = [])) as [-> |H2].
  { destruct l1 as [|p l1]; [done|]. specialize (Heq p). set_solver. }
  destruct (nearest_sq_spec l1 c H1) as [(p1 & Hp1 & E1) Hl1].
  destruct (nearest_sq_spec l2 c H2) as [(p2 & Hp2 & E2) Hl2].
  apply Heq, Hl2 in Hp1. apply Heq, Hl1 in Hp2. lia.
Qed.

Lemma elem_of_dedup l p : p ∈ dedup l <-> p ∈ l.
Proof.
  induction l as [|a l IH]; [done|]. destruct l as [|b l]; [done|].
  change (p ∈ (if decide (a = b) then dedup (b :: l) else a :: dedup (b :: l)) <-> p ∈ a :: b :: l).
  case_decide as H; [subst|]; set_solver.
Qed.

Lemma elem_of_occupied l p : p ∈ dedup (merge_sort key_le l) <-> p ∈ l.
Proof. rewrite elem_of_dedup. by rewrite (merge_sort_Permutation key_le l). Qed.

Lemma nearest_sq_occupied l c : nearest_sq (dedup (merge_sort key_le l)) c = nearest_sq l c.
Proof. apply nearest_sq_proper, elem_of_occupied. Qed.

(** The candidates, in the order they are tried. *)
Definition respawn_candidates (lobby_seed : Z) (player : PlayerId) (deaths : Z)
    (respawn_tick : SimulationTick) (player_count : Z) : list BountyWorldPoint :=
  respawn_candidate (respawn_base lobby_seed player deaths respawn_tick)
    (playable_radius_m player_count * 1000) <$> candidate_indices.

(** [c] is a best of the list: farthest from its nearest rider, and the least
    point among those. *)
Definition best_of (near : BountyWorldPoint -> Z) (cs : list BountyWorldPoint) (c : BountyWorldPoint) : Prop :=
  c ∈ cs /\ forall c', c' ∈ cs -> near c' < near c \/ (near c' = near c /\ key_le c c').

(** The running best over the candidates seen: nothing seen has a positive
    distance, or it is a best of them. *)
Definition running_best (near : BountyWorldPoint -> Z) (seen : list BountyWorldPoint)
    (best : BountyWorldPoint) (best_nearest : Z) : Prop :=
  (best_nearest = 0 /\ forall c, c ∈ seen -> near c = 0) \/
  (best_nearest = near best /\ best_of near seen best).

Lemma running_best_snoc near seen best bn c :
  0 <= near c -> running_best near seen best bn ->
  if (bn <? near c) || ((near c =? bn) && key_ltb c best)
  then running_best near (seen ++ [c]) c (near c) else running_best near (seen ++ [c]) best bn.
Proof.
  intros Hc [[-> Hz]|[-> [Hin Hall]]].
  - destruct (Z.eq_dec (near c) 0) as [Hn|Hn].
    + destruct (_ || _); left; (split; [lia|]); set_solver.
    + destruct (Z.ltb_spec 0 (near c)); [simpl|lia]. right. split; [done|]. split; [set_solver|].
      intros c' Hc'. apply elem_of_app in Hc' as [Hc'|Hc']; [rewrite (Hz _ Hc'); lia|].
      apply list_elem_of_singleton in Hc' as ->. by right.
  - destruct (_ || _) eqn:E; right; (split; [done|]); (split; [set_solver|]); intros c' Hc';
      apply elem_of_app in Hc' as [Hc'|Hc'%list_elem_of_singleton]; [|subst; by right|by apply Hall|subst].
    + apply orb_true_iff in E as [E|E]; [specialize (Hall _ Hc'); lia|].
      apply andb_true_iff in E as [E1 E2]. apply key_ltb_lt, key_lt_le in E2.
      destruct (Hall _ Hc') as [?|[? Hle]]; [lia|]. right. split; [lia|]. by trans best.
    + apply orb_false_iff in E as [E1 E2]. destruct (Z.eq_dec (near c) (near best)) as [Heq|]; [|lia].
      right. split; [done|]. apply key_not_lt. rewrite <- key_ltb_lt. apply andb_false_iff in E2 as [E2|E2]; [lia|].
      by rewrite E2.
Qed.

Lemma nearest_sq_nonneg occ c : 0 <= nearest_sq occ c.
Proof.
  destruct (decide (occ = [])) as [-> |H]; [by vm_compute|].
  destruct (nearest_sq_spec occ c H) as [(p & _ & ->) _].
  unfold point_squared_distance_mm, wrap. by apply Z.mod_pos_bound.
Qed.

(** A candidate clear of every rider, and when the loop takes it. *)
Definition clear_of (occupied : list BountyWorldPoint) (c : BountyWorldPoint) : Prop :=
  Forall (fun p => required_sq <= point_squared_distance_mm c p) occupied.
#[export] Instance clear_of_dec occupied c : Decision (clear_of occupied c).
Proof. unfold clear_of. apply _. Defined.

Lemma clear_of_nearest occ c : required_sq <= nearest_sq occ c <-> clear_of occ c.
Proof.
  unfold clear_of. rewrite Forall_forall. destruct (decide (occ = [])) as [-> |H].
  { split; [set_solver|]. intros _. by vm_compute. }
  destruct (nearest_sq_spec occ c H) as [(p & Hp & E) Hle]. split.
  - intros Hr q Hq. specialize (Hle q Hq). lia.
  - intros Hall. rewrite E. by apply Hall.
Qed.

Lemma respawn_loop_spec base radius occ indices : forall seen best bn,
  let near := nearest_sq occ in
  let cs := respawn_candidate base radius <$> indices in
  running_best near seen best bn ->
  let r := respawn_loop base radius occ indices best bn in
  match list_find (clear_of occ) cs with
  | Some (_, c) => r = c
  | None => exists bn', running_best near (seen ++ cs) r bn'
  end.
Proof.
  induction indices as [|i indices IH]; intros seen best bn near cs Hrun r.
  { unfold cs. simpl. rewrite app_nil_r. by exists bn. }
  unfold cs, r. rewrite fmap_cons. cbn [list_find respawn_loop].
  set (c := respawn_candidate base radius i) in *.
  fold near. destruct (Z.leb_spec required_sq (near c)) as [Hge|Hlt].
  { by rewrite decide_True by (by apply clear_of_nearest). }
  rewrite decide_False by (rewrite <- clear_of_nearest; fold near; lia).
  pose proof (running_best_snoc near seen best bn c (nearest_sq_nonneg occ c) Hrun) as Hnext.
  destruct (_ || _); apply IH in Hnext; fold near in Hnext; rewrite <- app_assoc in Hnext; simpl in Hnext;
    (destruct (list_find _ (respawn_candidate base radius <$> indices)) as [[k c']|]; exact Hnext).
Qed.

Lemma respawn_loop_proper base radius l1 l2 indices : forall best bn,
  (forall p, p ∈ l1 <-> p ∈ l2) ->
  respawn_loop base radius l1 indices best bn = respawn_loop base radius l2 indices best bn.
Proof.
  induction indices as [|i indices IH]; intros best bn Heq; [done|]. simpl.
  rewrite (nearest_sq_proper l1 l2) by done. by rewrite !IH.
Qed.

(** From the initial best, the origin at distance zero. *)
Lemma respawn_loop_start base radius occ indices :
  let cs := respawn_candidate base radius <$> indices in
  let r := respawn_loop base radius occ indices (mkBountyWorldPoint 0 0) 0 in
  match list_find (clear_of occ) cs with
  | Some (_, c) => r = c
  | None => (forall c, c ∈ cs -> nearest_sq occ c = 0) \/ best_of (nearest_sq occ) cs r
  end.
Proof.
  intros cs r. pose proof (respawn_loop_spec base radius occ indices [] (mkBountyWorldPoint 0 0) 0) as H.
  cbv zeta in H. specialize (H ltac:(left; set_solver)). fold cs r in H. clearbody r. clearbody cs.
  destruct (list_find (clear_of occ) cs) as [[k c]|]; [exact H|].
  destruct H as (bn' & [[_ Hz]|[_ Hb]]); [by left|by right].
Qed.

(** A respawn point is the first of the thirty-two candidates that is 120 m
    from every occupied point; when there is none it is the candidate farthest
    from its nearest rider (the least one on a tie), unless every candidate is
    exactly on a rider. Only the set of occupied points matters: neither their
    order nor repetitions change the result. *)
Theorem respawn_point_spec seed player deaths tick count occupied :
  let cs := respawn_candidates seed player deaths tick count in
  let near := nearest_sq occupied in
  let r := bounty_respawn_world_point seed player deaths tick count occupied in
  match list_find (clear_of occupied) cs with
  | Some (_, c) => r = c
  | None => (forall c, c ∈ cs -> near c = 0) \/ best_of near cs r
  end /\
  (forall occupied', (forall p, p ∈ occupied <-> p ∈ occupied') ->
     bounty_respawn_world_point seed player deaths tick count occupied' = r).
Proof.
  intros cs near r.
  assert (Hr : forall l, (forall p, p ∈ occupied <-> p ∈ l) ->
    bounty_respawn_world_point seed player deaths tick count l =
    respawn_loop (respawn_base seed player deaths tick) (playable_radius_m count * 1000) occupied
      candidate_indices (mkBountyWorldPoint 0 0) 0).
  { intros l Hl. apply respawn_loop_proper. intros p. by rewrite elem_of_occupied, Hl. }
  split; [|intros l Hl; unfold r; by rewrite !Hr].
  unfold r. rewrite Hr by done.
  apply respawn_loop_start.
Qed.

(** The saturated branch is reachable: every candidate has a rider one metre away. *)
Lemma respawn_point_saturated :
  let id := mkProtocolId (replicate 16 7) in
  let cs := respawn_candidates 42 id 3 6000 4 in
  let occupied := (fun c => mkBountyWorldPoint (x_mm c + 1000) (z_mm c)) <$> cs in
  bool_decide (bounty_respawn_world_point 42 id 3 6000 4 occupied ∈ cs) = true /\
  forallb (fun c => negb (bool_decide (clear_of occupied c))) cs = true.
Proof. by vm_compute. Qed.
