(* ===== verification/Bounty.v ===== *)
(** * The Bounty Run match ([m5.rs])

    Scoreboard, eliminations, assists, respawns, Most Wanted reveals, dynamic
    objectives, the public snapshot and the authority handoff. *)

From S2P Require Import Prelude MachineInt Ordered Clock Identifiers Territory M3 BountyPlacement.
Open Scope Z_scope.

(** ** Constants *)

Definition BOUNTY_RUN_DURATION_TICKS : Z := 15 * 60 * 60.
Definition RESPAWN_DELAY_TICKS : Z := 5 * 60.
Definition RESPAWN_SPEED_BUFF_TICKS : Z := 10 * 60.
Definition MOST_WANTED_CADENCE_TICKS : Z := 60 * 60.
Definition MOST_WANTED_REVEAL_TICKS : Z := 10 * 60.
Definition OBJECTIVE_CADENCE_TICKS : Z := 90 * 60.
Definition OBJECTIVE_LIFETIME_TICKS : Z := 60 * 60.
Definition ASSIST_WINDOW_TICKS : Z := 5 * 60.
Definition ASSIST_DAMAGE_THRESHOLD : Z := 30.
Definition LONG_HIT_DISTANCE_MM : Z := 60000.
Definition LONG_HIT_BONUS_CAP : Z := 50.
Definition HORSE_STATION_BUFF_TICKS : Z := 60 * 60.
Definition SIGNAL_TOWER_INTERVAL_TICKS : Z := 10 * 60.
Definition MAX_BOUNTY_SCORE : Z := 1000000.

(** ** Scores *)

Inductive BountyScoreCategory :=
| Elimination | Assist | HorseBolt | SaddleDiveBonus | MountedLongHit | Objective
| MostWantedElimination | MostWantedSurvival.
#[export] Instance BountyScoreCategory_eq_dec : EqDecision BountyScoreCategory.
Proof. solve_decision. Defined.

Definition points (self : BountyScoreCategory) : Z :=
  match self with
  | Elimination => 100
  | Assist => 50
  | HorseBolt => 15
  | SaddleDiveBonus => 25
  | MountedLongHit => 10
  | Objective => 0
  | MostWantedElimination => 75
  | MostWantedSurvival => 10
  end.

Record BountyAward := mkBountyAward {
  award_player_id : PlayerId;
  award_category : BountyScoreCategory;
  award_points : Z;
  award_total_score : Z;
}.

Record BountyScoreBreakdown := mkBountyScoreBreakdown {
  elimination : Z;
  assist : Z;
  horse_bolt : Z;
  saddle_dive_bonus : Z;
  mounted_long_hit : Z;
  objective : Z;
  most_wanted_elimination : Z;
  most_wanted_survival : Z;
}.
#[export] Instance eta_BountyScoreBreakdown : Settable BountyScoreBreakdown := fun s =>
  mkBountyScoreBreakdown (elimination s) (assist s) (horse_bolt s) (saddle_dive_bonus s)
    (mounted_long_hit s) (objective s) (most_wanted_elimination s) (most_wanted_survival s).

Definition score_default : BountyScoreBreakdown := mkBountyScoreBreakdown 0 0 0 0 0 0 0 0.

Definition score_total (self : BountyScoreBreakdown) : Z :=
  let add := saturating_add 32 in
  add (add (add (add (add (add (add (elimination self) (assist self)) (horse_bolt self))
    (saddle_dive_bonus self)) (mounted_long_hit self)) (objective self))
    (most_wanted_elimination self)) (most_wanted_survival self).

(** The bounded addition into one category. *)
Definition bounded_add (target points : Z) : Z :=
  Z.min (saturating_add 32 target points) MAX_BOUNTY_SCORE.

Definition score_add (self : BountyScoreBreakdown) (category : BountyScoreCategory) (points : Z)
    : BountyScoreBreakdown :=
  match category with
  | Elimination => self <| elimination := bounded_add (elimination self) points |>
  | Assist => self <| assist := bounded_add (assist self) points |>
  | HorseBolt => self <| horse_bolt := bounded_add (horse_bolt self) points |>
  | SaddleDiveBonus => self <| saddle_dive_bonus := bounded_add (saddle_dive_bonus self) points |>
  | MountedLongHit => self <| mounted_long_hit := bounded_add (mounted_long_hit self) points |>
  | Objective => self <| objective := bounded_add (objective self) points |>
  | MostWantedElimination =>
      self <| most_wanted_elimination := bounded_add (most_wanted_elimination self) points |>
  | MostWantedSurvival =>
      self <| most_wanted_survival := bounded_add (most_wanted_survival self) points |>
  end.

(** ** Rows, reveals and objectives *)

Record BountyPlayerState := mkBountyPlayerState {
  player_id : PlayerId;
  score : BountyScoreBreakdown;
  eliminations : Z;
  assists : Z;
  deaths : Z;
  alive : bool;
  respawn_at_tick : option SimulationTick;
  respawn_speed_buff_end_tick : option SimulationTick;
  horse_buff_end_tick : option SimulationTick;
  mounted_long_hit_bonus : Z;
}.
#[export] Instance eta_BountyPlayerState : Settable BountyPlayerState := fun r =>
  mkBountyPlayerState (player_id r) (score r) (eliminations r) (assists r) (deaths r) (alive r)
    (respawn_at_tick r) (respawn_speed_buff_end_tick r) (horse_buff_end_tick r)
    (mounted_long_hit_bonus r).

Definition player_new (player : PlayerId) : BountyPlayerState :=
  mkBountyPlayerState player score_default 0 0 0 true None None None 0.

Definition total_score (self : BountyPlayerState) : Z := score_total (score self).

Record DamageContribution := mkDamageContribution { damage_dealt : Z; last_tick : SimulationTick }.
#[export] Instance eta_DamageContribution : Settable DamageContribution := fun c =>
  mkDamageContribution (damage_dealt c) (last_tick c).

Record MostWantedReveal := mkMostWantedReveal {
  reveal_player_id : PlayerId;
  reveal_started_tick : SimulationTick;
  reveal_end_tick : SimulationTick;
  eliminated : bool;
}.
#[export] Instance eta_MostWantedReveal : Settable MostWantedReveal := fun r =>
  mkMostWantedReveal (reveal_player_id r) (reveal_started_tick r) (reveal_end_tick r) (eliminated r).

Inductive DynamicObjectiveKind := MovingBounty | SupplyHerd | AmmoWagon | SignalTower | HorseBuffStation.
#[export] Instance DynamicObjectiveKind_eq_dec : EqDecision DynamicObjectiveKind.
Proof. solve_decision. Defined.

Definition completion_points (self : DynamicObjectiveKind) : Z :=
  match self with
  | MovingBounty => 150
  | SupplyHerd => 100
  | AmmoWagon => 80
  | SignalTower => 50
  | HorseBuffStation => 50
  end.

Definition from_index (index : Z) : DynamicObjectiveKind :=
  match index mod 5 with
  | 0 => MovingBounty
  | 1 => SupplyHerd
  | 2 => AmmoWagon
  | 3 => SignalTower
  | _ => HorseBuffStation
  end.

Record ActiveDynamicObjective := mkActiveDynamicObjective {
  objective_id : Z;
  kind : DynamicObjectiveKind;
  objective_started_tick : SimulationTick;
  objective_end_tick : SimulationTick;
  completed : bool;
  signal_paid_intervals : Z;
}.
#[export] Instance eta_ActiveDynamicObjective : Settable ActiveDynamicObjective := fun o =>
  mkActiveDynamicObjective (objective_id o) (kind o) (objective_started_tick o)
    (objective_end_tick o) (completed o) (signal_paid_intervals o).

(** ** Public snapshots *)

Record BountyRevealSnapshot := mkBountyRevealSnapshot {
  shown_player_id : PlayerId;
  shown_reveal_started : SimulationTick;
  shown_reveal_end : SimulationTick;
}.

Record BountyObjectiveSnapshot := mkBountyObjectiveSnapshot {
  shown_objective_id : Z;
  shown_kind : DynamicObjectiveKind;
  shown_objective_started : SimulationTick;
  shown_objective_end : SimulationTick;
  shown_completed : bool;
  world_point : BountyWorldPoint;
}.

Record BountyMatchSnapshot := mkBountyMatchSnapshot {
  shown_epoch : Z;
  shown_lobby_seed : Z;
  shown_current_tick : SimulationTick;
  shown_end_tick : SimulationTick;
  shown_players : list BountyPlayerState;
  shown_reveal : option BountyRevealSnapshot;
  shown_objective : option BountyObjectiveSnapshot;
  shown_finished : bool;
  shown_winner : option PlayerId;
}.

(** The scoreboard's order: higher total first, then the lower identity. *)
Definition board_cmp (left right : BountyPlayerState) : comparison :=
  match Z.compare (total_score left) (total_score right) with
  | Eq => key_cmp (player_id right) (player_id left)
  | c => c
  end.

Definition board_max (rows : list BountyPlayerState) : option BountyPlayerState :=
  match rows with [] => None | row :: rows => Some (max_by board_cmp row rows) end.

(** [windows(2)] with [rows[0].player_id >= rows[1].player_id] somewhere. *)
Fixpoint unsorted_rows (rows : list BountyPlayerState) : bool :=
  match rows with
  | [] => false
  | a :: rest =>
      match rest with
      | [] => false
      | b :: _ => negb (key_ltb (player_id a) (player_id b)) || unsorted_rows rest
      end
  end.

Definition row_rejected (finished : bool) (tick : SimulationTick) (row : BountyPlayerState) : bool :=
  (MAX_BOUNTY_SCORE <? total_score row)
  || (LONG_HIT_BONUS_CAP <? mounted_long_hit_bonus row)
  || negb (mounted_long_hit (score row) =? mounted_long_hit_bonus row)
  || Bool.eqb (alive row) (is_some (respawn_at_tick row))
  || is_some_and (respawn_at_tick row) (fun respawn => negb finished && (respawn <=? tick))
  || is_some_and (respawn_speed_buff_end_tick row) (fun end_ => end_ <=? tick)
  || is_some_and (horse_buff_end_tick row) (fun end_ => end_ <=? tick).

(** [u32::try_from(self.players.len()).unwrap_or(u32::MAX)] *)
Definition roster_count (n : nat) : Z := default u32_max (try_from_uint 32 (Z.of_nat n)).

Definition is_canonical (self : BountyMatchSnapshot) : bool :=
  if (length (shown_players self) =? 0)%nat
     || (MAX_M3_AUTHORITY_ACTORS <? Z.of_nat (length (shown_players self)))
     || negb (Bool.eqb (shown_finished self) (shown_end_tick self <=? shown_current_tick self))
     || unsorted_rows (shown_players self)
  then false
  else
    let effective_tick := Z.min (shown_current_tick self) (shown_end_tick self) in
    if existsb (row_rejected (shown_finished self) effective_tick) (shown_players self) then false
    else
      let contains_player player :=
        existsb (fun row => bool_decide (player_id row = player)) (shown_players self) in
      if is_some_and (shown_reveal self) (fun reveal =>
           shown_finished self
           || negb (contains_player (shown_player_id reveal))
           || negb (shown_reveal_end reveal
                    =? tick_saturating_add (shown_reveal_started reveal) MOST_WANTED_REVEAL_TICKS)
           || (shown_reveal_end reveal <=? effective_tick))
         || is_some_and (shown_objective self) (fun objective =>
           shown_finished self
           || (shown_objective_id objective =? 0)
           || negb (shown_objective_end objective
                    =? tick_saturating_add (shown_objective_started objective) OBJECTIVE_LIFETIME_TICKS)
           || (shown_objective_end objective <=? effective_tick)
           || negb (bool_decide (world_point objective
                = bounty_objective_world_point (shown_lobby_seed self) (shown_objective_id objective)
                    (roster_count (length (shown_players self))))))
      then false
      else
        match shown_finished self, shown_winner self, board_max (shown_players self) with
        | false, None, Some _ => true
        | true, Some winner, Some expected => bool_decide (winner = player_id expected)
        | _, _, _ => false
        end.

(** ** The match kernel *)

Record BountyMatchTickOutput := mkBountyMatchTickOutput {
  respawned_players : list PlayerId;
  reveal_started : option MostWantedReveal;
  reveal_ended : option PlayerId;
  objective_started : option ActiveDynamicObjective;
  objective_ended : option Z;
  survival_award : option BountyAward;
  match_ended : bool;
  output_winner : option PlayerId;
}.
#[export] Instance eta_BountyMatchTickOutput : Settable BountyMatchTickOutput := fun o =>
  mkBountyMatchTickOutput (respawned_players o) (reveal_started o) (reveal_ended o)
    (objective_started o) (objective_ended o) (survival_award o) (match_ended o) (output_winner o).
Definition output_default : BountyMatchTickOutput :=
  mkBountyMatchTickOutput [] None None None None None false None.

Inductive BountyMatchError :=
| InvalidRoster | TickReplay | TickMismatch | UnknownPlayer | InvalidEvent | MatchFinished
| InvalidCheckpoint | AuthorityEpoch.

Record BountyMatchKernel := mkBountyMatchKernel {
  match_epoch : Z;
  lobby_seed : Z;
  start_tick : SimulationTick;
  current_tick : SimulationTick;
  end_tick : SimulationTick;
  players : gmap PlayerId BountyPlayerState;
  damage : gmap PlayerId (gmap PlayerId DamageContribution);
  next_reveal_tick : SimulationTick;
  active_reveal : option MostWantedReveal;
  next_objective_tick : SimulationTick;
  active_objective : option ActiveDynamicObjective;
  objective_sequence : Z;
  finished : bool;
}.
#[export] Instance eta_BountyMatchKernel : Settable BountyMatchKernel := fun k =>
  mkBountyMatchKernel (match_epoch k) (lobby_seed k) (start_tick k) (current_tick k) (end_tick k)
    (players k) (damage k) (next_reveal_tick k) (active_reveal k) (next_objective_tick k)
    (active_objective k) (objective_sequence k) (finished k).

Record BountyMatchCheckpointV2 := mkBountyMatchCheckpointV2 {
  match_source_epoch : Z;
  match_state : BountyMatchKernel;
}.

(** [sort_unstable] then [dedup] on identities. *)
Fixpoint dedup_ids (l : list PlayerId) : list PlayerId :=
  match l with
  | [] => []
  | a :: rest =>
      match rest with
      | [] => [a]
      | b :: _ => if decide (a = b) then dedup_ids rest else a :: dedup_ids rest
      end
  end.

Definition match_new (epoch seed : Z) (start : SimulationTick) (roster : list PlayerId)
    : result BountyMatchKernel BountyMatchError :=
  let submitted_roster_len := length roster in
  let roster := dedup_ids (merge_sort key_le roster) in
  if (length roster =? 0)%nat || negb (length roster =? submitted_roster_len)%nat
     || (MAX_M3_AUTHORITY_ACTORS <? Z.of_nat (length roster))
  then Err InvalidRoster
  else Ok {|
    match_epoch := epoch;
    lobby_seed := seed;
    start_tick := start;
    current_tick := start;
    end_tick := tick_saturating_add start BOUNTY_RUN_DURATION_TICKS;
    players := list_to_map ((fun player => (player, player_new player)) <$> roster);
    damage := ∅;
    next_reveal_tick := tick_saturating_add start MOST_WANTED_CADENCE_TICKS;
    active_reveal := None;
    next_objective_tick := tick_saturating_add start OBJECTIVE_CADENCE_TICKS;
    active_objective := None;
    objective_sequence := 0;
    finished := false;
  |}.

Definition winner (self : BountyMatchKernel) : option PlayerId :=
  player_id <$> board_max (btree_values (players self)).

Definition snapshot (self : BountyMatchKernel) : BountyMatchSnapshot := {|
  shown_epoch := match_epoch self;
  shown_lobby_seed := lobby_seed self;
  shown_current_tick := current_tick self;
  shown_end_tick := end_tick self;
  shown_players := btree_values (players self);
  shown_reveal := (fun reveal => {|
    shown_player_id := reveal_player_id reveal;
    shown_reveal_started := reveal_started_tick reveal;
    shown_reveal_end := reveal_end_tick reveal |}) <$> active_reveal self;
  shown_objective := (fun objective => {|
    shown_objective_id := objective_id objective;
    shown_kind := kind objective;
    shown_objective_started := objective_started_tick objective;
    shown_objective_end := objective_end_tick objective;
    shown_completed := completed objective;
    world_point := bounty_objective_world_point (lobby_seed self) (objective_id objective)
                     (roster_count (size (players self))) |}) <$> active_objective self;
  shown_finished := finished self;
  shown_winner := if finished self then winner self else None;
|}.

Definition kernel_step := M BountyMatchKernel BountyMatchError.

Open Scope step_scope.

Definition require_live_tick (tick : SimulationTick) : kernel_step unit := fun self =>
  if finished self then (self, Err MatchFinished)
  else if negb (tick =? current_tick self) then (self, Err TickMismatch)
  else (self, Ok tt).

Definition award (player : PlayerId) (category : BountyScoreCategory) (pts : Z) : kernel_step BountyAward :=
  fun self =>
    match players self !! player with
    | None => (self, Err UnknownPlayer)
    | Some row =>
        let row := row <| score := score_add (score row) category pts |> in
        (self <| players := <[player := row]> (players self) |>,
         Ok (mkBountyAward player category pts (total_score row)))
    end.

(** A mutation through [get_mut(player).expect(..)], on a player whose presence
    the caller has established. *)
Definition alter_player (f : BountyPlayerState -> BountyPlayerState) (player : PlayerId) : kernel_step unit :=
  smodify (fun self => self <| players := alter f player (players self) |>).

(** *** The clock *)

(** The loop body over [players.values_mut()]: the row, and whether it respawned. *)
Definition row_advance (effective_tick : SimulationTick) (row : BountyPlayerState) : BountyPlayerState * bool :=
  let '(row, respawned) :=
    match respawn_at_tick row with
    | Some respawn_tick =>
        if negb (alive row) && (respawn_tick <=? effective_tick) then
          let buff_end := tick_saturating_add respawn_tick RESPAWN_SPEED_BUFF_TICKS in
          (row <| alive := true |> <| respawn_at_tick := None |>
               <| respawn_speed_buff_end_tick := if effective_tick <? buff_end then Some buff_end else None |>,
           true)
        else (row, false)
    | None => (row, false)
    end in
  let row := if is_some_and (respawn_speed_buff_end_tick row) (fun end_ => end_ <=? effective_tick)
             then row <| respawn_speed_buff_end_tick := None |> else row in
  let row := if is_some_and (horse_buff_end_tick row) (fun end_ => end_ <=? effective_tick)
             then row <| horse_buff_end_tick := None |> else row in
  (row, respawned).

Definition close_reveal (tick : SimulationTick) (self : BountyMatchKernel) (output : BountyMatchTickOutput)
    : BountyMatchKernel * BountyMatchTickOutput :=
  match active_reveal self with
  | Some reveal =>
      if reveal_end_tick reveal <=? tick then
        let self := self <| active_reveal := None |> in
        let output := output <| reveal_ended := Some (reveal_player_id reveal) |> in
        if negb (eliminated reveal) then
          let '(self, paid) := award (reveal_player_id reveal) MostWantedSurvival 10 self in
          (self, output <| survival_award := match paid with Ok a => Some a | Err _ => None end |>)
        else (self, output)
      else (self, output)
  | None => (self, output)
  end.

(** One iteration of the reveal loop. *)
Definition reveal_iteration (self : BountyMatchKernel) (output : BountyMatchTickOutput)
    : BountyMatchKernel * BountyMatchTickOutput :=
  let '(self, output) := close_reveal (next_reveal_tick self) self output in
  let '(self, output) :=
    match winner self with
    | Some player =>
        let reveal := mkMostWantedReveal player (next_reveal_tick self)
          (tick_saturating_add (next_reveal_tick self) MOST_WANTED_REVEAL_TICKS) false in
        (self <| active_reveal := Some reveal |>, output <| reveal_started := Some reveal |>)
    | None => (self, output)
    end in
  (self <| next_reveal_tick := tick_saturating_add (next_reveal_tick self) MOST_WANTED_CADENCE_TICKS |>, output).

Fixpoint reveal_loop (fuel : nat) (tick : SimulationTick) (self : BountyMatchKernel)
    (output : BountyMatchTickOutput) : BountyMatchKernel * BountyMatchTickOutput :=
  match fuel with
  | O => (self, output)
  | S fuel =>
      if (next_reveal_tick self <=? tick) && (next_reveal_tick self <? end_tick self) then
        let '(self, output) := reveal_iteration self output in
        reveal_loop fuel tick self output
      else (self, output)
  end.

(** Enough iterations for [next] to reach the end in steps of [cadence]. *)
Definition cadence_fuel (next end_ cadence : Z) : nat := Z.to_nat ((end_ - next) / cadence + 1).

Definition advance_reveals (tick : SimulationTick) (self : BountyMatchKernel) (output : BountyMatchTickOutput)
    : BountyMatchKernel * BountyMatchTickOutput :=
  let '(self, output) :=
    reveal_loop (cadence_fuel (next_reveal_tick self) (end_tick self) MOST_WANTED_CADENCE_TICKS)
      tick self output in
  close_reveal tick self output.

Definition close_objective (tick : SimulationTick) (self : BountyMatchKernel) (output : BountyMatchTickOutput)
    : BountyMatchKernel * BountyMatchTickOutput :=
  if is_some_and (active_objective self) (fun o => objective_end_tick o <=? tick) then
    (self <| active_objective := None |>,
     output <| objective_ended := objective_id <$> active_objective self |>)
  else (self, output).

Definition objective_iteration (self : BountyMatchKernel) (output : BountyMatchTickOutput)
    : BountyMatchKernel * BountyMatchTickOutput :=
  let '(self, output) := close_objective (next_objective_tick self) self output in
  let self := self <| objective_sequence := saturating_add 64 (objective_sequence self) 1 |> in
  let o := mkActiveDynamicObjective (objective_sequence self)
    (from_index (wrapping_add 64 (lobby_seed self) (saturating_sub (objective_sequence self) 1)))
    (next_objective_tick self)
    (tick_saturating_add (next_objective_tick self) OBJECTIVE_LIFETIME_TICKS) false 0 in
  (self <| active_objective := Some o |>
        <| next_objective_tick := tick_saturating_add (next_objective_tick self) OBJECTIVE_CADENCE_TICKS |>,
   output <| objective_started := Some o |>).

Fixpoint objective_loop (fuel : nat) (tick : SimulationTick) (self : BountyMatchKernel)
    (output : BountyMatchTickOutput) : BountyMatchKernel * BountyMatchTickOutput :=
  match fuel with
  | O => (self, output)
  | S fuel =>
      if (next_objective_tick self <=? tick) && (next_objective_tick self <? end_tick self) then
        let '(self, output) := objective_iteration self output in
        objective_loop fuel tick self output
      else (self, output)
  end.

Definition advance_objectives (tick : SimulationTick) (self : BountyMatchKernel)
    (output : BountyMatchTickOutput) : BountyMatchKernel * BountyMatchTickOutput :=
  let '(self, output) := close_objective tick self output in
  let '(self, output) :=
    objective_loop (cadence_fuel (next_objective_tick self) (end_tick self) OBJECTIVE_CADENCE_TICKS)
      tick self output in
  close_objective tick self output.

Definition finish_if_due (tick : SimulationTick) (self : BountyMatchKernel) (output : BountyMatchTickOutput)
    : BountyMatchKernel * BountyMatchTickOutput :=
  if (end_tick self <=? tick) && negb (finished self) then
    let self := self <| finished := true |> <| active_reveal := None |> <| active_objective := None |> in
    (self, output <| match_ended := true |> <| output_winner := winner self |>)
  else (self, output).

Definition advance_rows (effective_tick : SimulationTick) (self : BountyMatchKernel)
    : BountyMatchKernel * list PlayerId :=
  (self <| players := (fun row => (row_advance effective_tick row).1) <$> players self |>,
   player_id <$> List.filter (fun row => (row_advance effective_tick row).2) (btree_values (players self))).

Definition advance_tick (tick : SimulationTick) : kernel_step BountyMatchTickOutput := fun self =>
  if tick <=? current_tick self then (self, Err TickReplay)
  else
    let effective_tick := Z.min tick (end_tick self) in
    let self := self <| current_tick := tick |> in
    let '(self, respawned) := advance_rows effective_tick self in
    let output := output_default <| respawned_players := respawned |> in
    let '(self, output) := advance_reveals effective_tick self output in
    let '(self, output) := advance_objectives effective_tick self output in
    let '(self, output) := finish_if_due tick self output in
    (self, Ok (output <| respawned_players := merge_sort key_le (respawned_players output) |>)).

(** *** Combat events *)

Definition record_damage (tick : SimulationTick) (attacker target : PlayerId) (dmg : Z) : kernel_step unit :=
  do* require_live_tick tick in
  let* self := sget in
  if (dmg =? 0) || bool_decide (attacker = target) || is_none (players self !! attacker)
  then sfail InvalidEvent
  else
    match players self !! target with
    | None => sfail UnknownPlayer
    | Some target_state =>
        if negb (alive target_state) then sfail InvalidEvent
        else
          let contributors := default ∅ (damage self !! target) in
          let contribution := default (mkDamageContribution 0 tick) (contributors !! attacker) in
          let contribution :=
            mkDamageContribution (saturating_add 16 (damage_dealt contribution) dmg) tick in
          smodify (fun self =>
            self <| damage := <[target := <[attacker := contribution]> contributors]> (damage self) |>)
    end.

(** The contributors loop of [record_elimination], in key order. *)
Fixpoint assist_loop (tick : SimulationTick) (killer : PlayerId)
    (contributors : list (PlayerId * DamageContribution)) (awards : list BountyAward)
    : kernel_step (list BountyAward) :=
  match contributors with
  | [] => sret awards
  | (attacker, contribution) :: contributors =>
      if negb (bool_decide (attacker = killer))
         && (ASSIST_DAMAGE_THRESHOLD <=? damage_dealt contribution)
         && (saturating_sub tick (last_tick contribution) <? ASSIST_WINDOW_TICKS)
      then
        let* a := award attacker Assist 50 in
        do* alter_player (fun row => row <| assists := saturating_add 16 (assists row) 1 |>) attacker in
        assist_loop tick killer contributors (awards ++ [a])
      else assist_loop tick killer contributors awards
  end.

(** An award pushed only when [condition] holds. *)
Definition award_if (condition : bool) (player : PlayerId) (category : BountyScoreCategory) (pts : Z)
    (awards : list BountyAward) : kernel_step (list BountyAward) :=
  if condition then let* a := award player category pts in sret (awards ++ [a]) else sret awards.

Definition is_most_wanted (self : BountyMatchKernel) (tick : SimulationTick) (target : PlayerId) : bool :=
  is_some_and (active_reveal self) (fun reveal =>
    bool_decide (reveal_player_id reveal = target)
    && (reveal_started_tick reveal <=? tick) && (tick <? reveal_end_tick reveal)).

Definition mark_reveal_eliminated (most_wanted : bool) (self : BountyMatchKernel) : BountyMatchKernel :=
  if most_wanted
  then self <| active_reveal := (fun reveal => reveal <| eliminated := true |>) <$> active_reveal self |>
  else self.

Definition row_eliminated (tick : SimulationTick) (row : BountyPlayerState) : BountyPlayerState :=
  row <| alive := false |>
      <| deaths := saturating_add 16 (deaths row) 1 |>
      <| respawn_at_tick := Some (tick_saturating_add tick RESPAWN_DELAY_TICKS) |>
      <| respawn_speed_buff_end_tick := None |>.

Definition record_elimination (tick : SimulationTick) (killer target : PlayerId) (saddle_dive : bool)
    : kernel_step (list BountyAward) :=
  do* require_live_tick tick in
  let* self := sget in
  if bool_decide (killer = target) || is_none (players self !! killer) then sfail InvalidEvent
  else if negb (is_some_and (players self !! target) alive) then sfail UnknownPlayer
  else
    let most_wanted := is_most_wanted self tick target in
    do* smodify (mark_reveal_eliminated most_wanted) in
    let* a := award killer Elimination 100 in
    let* awards := award_if saddle_dive killer SaddleDiveBonus 25 [a] in
    let* awards := award_if most_wanted killer MostWantedElimination 75 awards in
    do* alter_player (fun row => row <| eliminations := saturating_add 16 (eliminations row) 1 |>) killer in
    let* self := sget in
    let contributors := default ∅ (damage self !! target) in
    do* smodify (fun self => self <| damage := delete target (damage self) |>) in
    let* awards := assist_loop tick killer (btree_list contributors) awards in
    do* alter_player (row_eliminated tick) target in
    sret awards.

Definition record_horse_bolt (tick : SimulationTick) (attacker target : PlayerId) : kernel_step BountyAward :=
  do* require_live_tick tick in
  let* self := sget in
  if bool_decide (attacker = target) || is_none (players self !! target) then sfail InvalidEvent
  else award attacker HorseBolt 15.

Definition record_mounted_long_hit (tick : SimulationTick) (attacker : PlayerId) (distance_mm : Z)
    : kernel_step (option BountyAward) :=
  do* require_live_tick tick in
  let* self := sget in
  if distance_mm <=? LONG_HIT_DISTANCE_MM then sret None
  else
    match players self !! attacker with
    | None => sfail UnknownPlayer
    | Some row =>
        if LONG_HIT_BONUS_CAP <=? mounted_long_hit_bonus row then sret None
        else
          do* alter_player (fun row =>
            row <| mounted_long_hit_bonus := wrapping_add 16 (mounted_long_hit_bonus row) 10 |>) attacker in
          let* a := award attacker MountedLongHit 10 in
          sret (Some a)
    end.

(** *** Objective events *)

Definition complete_objective (tick : SimulationTick) (player : PlayerId) (id : Z) : kernel_step BountyAward :=
  do* require_live_tick tick in
  let* self := sget in
  if is_none (players self !! player) then sfail UnknownPlayer
  else
    match active_objective self with
    | None => sfail InvalidEvent
    | Some o =>
        if negb (objective_id o =? id) || completed o || bool_decide (kind o = SignalTower)
           || (objective_end_tick o <=? tick)
        then sfail InvalidEvent
        else
          do* smodify (fun self => self <| active_objective := Some (o <| completed := true |>) |>) in
          do* (if bool_decide (kind o = HorseBuffStation)
               then alter_player (fun row => row <| horse_buff_end_tick :=
                      Some (tick_saturating_add tick HORSE_STATION_BUFF_TICKS) |>) player
               else sret tt) in
          award player Objective (completion_points (kind o))
    end.

Definition record_signal_tower_hold (tick : SimulationTick) (player : PlayerId) (id total_hold_ticks : Z)
    : kernel_step (option BountyAward) :=
  do* require_live_tick tick in
  let* self := sget in
  if is_none (players self !! player) then sfail UnknownPlayer
  else
    match active_objective self with
    | None => sfail InvalidEvent
    | Some o =>
        if negb (objective_id o =? id) || negb (bool_decide (kind o = SignalTower))
           || (objective_end_tick o <=? tick)
        then sfail InvalidEvent
        else if completed o || (3 <=? signal_paid_intervals o) then sret None
        else
          let earned := Z.min (total_hold_ticks / SIGNAL_TOWER_INTERVAL_TICKS) 3 in
          if earned <=? signal_paid_intervals o then sret None
          else
            let paid := wrapping_add 8 (signal_paid_intervals o) 1 in
            do* smodify (fun self => self <| active_objective :=
                  Some (o <| signal_paid_intervals := paid |>
                          <| completed := if paid =? 3 then true else completed o |>) |>) in
            let* a := award player Objective 50 in
            sret (Some a)
    end.

(** *** Handoff *)

Definition match_checkpoint (self : BountyMatchKernel) : BountyMatchCheckpointV2 :=
  mkBountyMatchCheckpointV2 (match_epoch self) self.

Definition contribution_rejected (self : BountyMatchKernel) (target : PlayerId)
    (entry : PlayerId * DamageContribution) : bool :=
  let '(attacker, contribution) := entry in
  bool_decide (attacker = target)
  || is_none (players self !! attacker)
  || (damage_dealt contribution =? 0)
  || (current_tick self <? last_tick contribution).

Definition contributors_rejected (self : BountyMatchKernel)
    (entry : PlayerId * gmap PlayerId DamageContribution) : bool :=
  let '(target, contributors) := entry in
  is_none (players self !! target)
  || (size (players self) <? size contributors)%nat
  || existsb (contribution_rejected self target) (btree_list contributors).

Definition match_state_is_valid (self : BountyMatchKernel) : bool :=
  if (size (players self) =? 0)%nat
     || (MAX_M3_AUTHORITY_ACTORS <? Z.of_nat (size (players self)))
     || (current_tick self <? start_tick self)
     || negb (end_tick self =? tick_saturating_add (start_tick self) BOUNTY_RUN_DURATION_TICKS)
     || negb (Bool.eqb (finished self) (end_tick self <=? current_tick self))
     || (finished self && (is_some (active_reveal self) || is_some (active_objective self)))
     || (objective_sequence self =? u64_max)
     || existsb (fun '(id, row) => negb (bool_decide (id = player_id row))
                                   || row_rejected (finished self) (current_tick self) row)
          (btree_list (players self))
     || existsb (contributors_rejected self) (btree_list (damage self))
  then false
  else if is_some_and (active_reveal self) (fun reveal =>
            is_none (players self !! reveal_player_id reveal)
            || negb (reveal_end_tick reveal
                     =? tick_saturating_add (reveal_started_tick reveal) MOST_WANTED_REVEAL_TICKS)
            || (reveal_end_tick reveal <=? current_tick self))
  then false
  else is_none_or (active_objective self) (fun o =>
         (0 <? objective_id o)
         && (objective_end_tick o =? tick_saturating_add (objective_started_tick o) OBJECTIVE_LIFETIME_TICKS)
         && (signal_paid_intervals o <=? 3)
         && (current_tick self <? objective_end_tick o)).

Definition match_restore_checkpoint (checkpoint : BountyMatchCheckpointV2) (next_authority_epoch : Z)
    : result BountyMatchKernel BountyMatchError :=
  if negb (bool_decide (checked_add 64 (match_source_epoch checkpoint) 1 = Some next_authority_epoch))
     || negb (match_epoch (match_state checkpoint) =? match_source_epoch checkpoint)
     || negb (match_state_is_valid (match_state checkpoint))
  then Err InvalidCheckpoint
  else Ok ((match_state checkpoint) <| match_epoch := next_authority_epoch |>).
