(* ===== verification/BountyRun.v ===== *)
(** * Runs of a Bounty Run match

    The invariant of [BountyMatchKernel], its preservation by every operation,
    and what follows for the clock, the scoreboard, respawns and the handoff. *)

From S2P Require Import Prelude MachineInt Ordered Clock Identifiers Territory M3 BountyPlacement Bounty.
Open Scope Z_scope.

(** [lia] with the match's durations as numerals. *)
Ltac m5_consts :=
  change BOUNTY_RUN_DURATION_TICKS with 54000 in *;
  change RESPAWN_DELAY_TICKS with 300 in *;
  change RESPAWN_SPEED_BUFF_TICKS with 600 in *;
  change MOST_WANTED_CADENCE_TICKS with 3600 in *;
  change MOST_WANTED_REVEAL_TICKS with 600 in *;
  change OBJECTIVE_CADENCE_TICKS with 5400 in *;
  change OBJECTIVE_LIFETIME_TICKS with 3600 in *;
  change ASSIST_WINDOW_TICKS with 300 in *;
  change ASSIST_DAMAGE_THRESHOLD with 30 in *;
  change LONG_HIT_BONUS_CAP with 50 in *;
  change HORSE_STATION_BUFF_TICKS with 3600 in *;
  change MAX_BOUNTY_SCORE with 1000000 in *.
Ltac m5_lia := m5_consts; int_lia.

(** ** Termination of the cadence loops *)

(** A loop that moves [next] on by [cadence], saturating, while [next] is at most
    [tick] and below [end_]. *)
Section cadence.
Context {S : Type} (next end_ : S -> Z) (cadence tick : Z) (iter : S -> S) (loop : nat -> S -> S).
Let cond s := (next s <=? tick) && (next s <? end_ s).
Hypothesis loop_O : forall s, loop 0%nat s = s.
Hypothesis loop_S : forall fuel s, loop (Datatypes.S fuel) s = if cond s then loop fuel (iter s) else s.
Hypothesis iter_next : forall s, next (iter s) = tick_saturating_add (next s) cadence.
Hypothesis iter_end : forall s, end_ (iter s) = end_ s.
Hypothesis cadence_pos : 0 < cadence.

Lemma cadence_fuel_step n e :
  n < e -> n + cadence < e ->
  cadence_fuel n e cadence = Datatypes.S (cadence_fuel (n + cadence) e cadence).
Proof.
  intros Hn He. unfold cadence_fuel.
  replace (e - n) with ((e - (n + cadence)) + 1 * cadence) by lia. rewrite Z.div_add by lia.
  assert (0 <= (e - (n + cadence)) / cadence) by (apply Z.div_pos; lia). lia.
Qed.

(** What the iterations keep holds at the end, and the loop has ended. *)
Lemma cadence_loop_ind (P : S -> Prop) :
  (forall s, P s -> cond s = true -> P (iter s)) ->
  forall fuel s, P s -> end_ s <= u64_max ->
  (next s < end_ s -> (cadence_fuel (next s) (end_ s) cadence <= fuel)%nat) ->
  P (loop fuel s) /\ cond (loop fuel s) = false.
Proof.
  intros Hstep fuel. induction fuel as [|fuel IH]; intros s HP He Hfuel.
  - rewrite loop_O. split; [done|]. unfold cond. apply andb_false_iff. right.
    apply Z.ltb_ge. destruct (Z.le_gt_cases (end_ s) (next s)) as [|Hlt]; [done|].
    specialize (Hfuel Hlt). unfold cadence_fuel in Hfuel.
    assert (0 <= (end_ s - next s) / cadence) by (apply Z.div_pos; lia). lia.
  - rewrite loop_S. destruct (cond s) eqn:Hc; [|done].
    assert (Hlt : next s < end_ s) by (unfold cond in Hc; lia). specialize (Hfuel Hlt).
    apply IH; [by apply Hstep|by rewrite iter_end|]. rewrite iter_end, iter_next.
    unfold tick_saturating_add. intros Hbefore.
    assert (Hexact : saturating_add 64 (next s) cadence = next s + cadence) by int_lia.
    rewrite Hexact in *. rewrite cadence_fuel_step in Hfuel by lia. lia.
Qed.
End cadence.

(** ** The invariant *)

(** The tick the rows and schedules have reached: the clock, stopped at the end. *)
Definition now (k : BountyMatchKernel) : Z := Z.min (current_tick k) (end_tick k).

Definition row_inv (t : Z) (id : PlayerId) (row : BountyPlayerState) : Prop :=
  player_id row = id /\
  mounted_long_hit (score row) = mounted_long_hit_bonus row /\
  0 <= mounted_long_hit_bonus row <= 50 /\ mounted_long_hit_bonus row mod 10 = 0 /\
  alive row = is_none (respawn_at_tick row) /\
  (forall r, respawn_at_tick row = Some r -> t < r) /\
  (forall b, respawn_speed_buff_end_tick row = Some b -> t < b) /\
  (forall b, horse_buff_end_tick row = Some b -> t < b).

Definition roster_inv (t : Z) (ps : gmap PlayerId BountyPlayerState) : Prop :=
  1 <= Z.of_nat (size ps) <= MAX_M3_AUTHORITY_ACTORS /\ map_Forall (row_inv t) ps.

Definition damage_inv (cur : Z) (ids : gset PlayerId) (d : gmap PlayerId (gmap PlayerId DamageContribution)) : Prop :=
  map_Forall (fun target cs => target ∈ ids /\
    map_Forall (fun attacker c => attacker <> target /\ attacker ∈ ids /\
      0 < damage_dealt c /\ last_tick c <= cur) cs) d.

(** How many windows of a cadence have opened by the elapsed time: none opens at
    or after the end of the match. *)
Definition windows_opened (cadence elapsed : Z) : Z :=
  Z.min ((BOUNTY_RUN_DURATION_TICKS - 1) / cadence) (elapsed / cadence).

Definition reveal_inv (s t : Z) (ids : gset PlayerId) (next : Z) (reveal : option MostWantedReveal) : Prop :=
  let i := windows_opened MOST_WANTED_CADENCE_TICKS (t - s) in
  let opened := s + i * MOST_WANTED_CADENCE_TICKS in
  next = opened + MOST_WANTED_CADENCE_TICKS /\
  match reveal with
  | Some r => 1 <= i /\ reveal_player_id r ∈ ids /\ reveal_started_tick r = opened /\
              reveal_end_tick r = opened + MOST_WANTED_REVEAL_TICKS /\ t < reveal_end_tick r
  | None => i = 0 \/ opened + MOST_WANTED_REVEAL_TICKS <= t
  end.

Definition objective_inv (seed s t seq next : Z) (o : option ActiveDynamicObjective) : Prop :=
  let i := windows_opened OBJECTIVE_CADENCE_TICKS (t - s) in
  let opened := s + i * OBJECTIVE_CADENCE_TICKS in
  seq = i /\ next = opened + OBJECTIVE_CADENCE_TICKS /\
  match o with
  | Some o => 1 <= i /\ objective_id o = i /\ kind o = from_index (wrapping_add 64 seed (i - 1)) /\
              objective_started_tick o = opened /\
              objective_end_tick o = opened + OBJECTIVE_LIFETIME_TICKS /\
              0 <= signal_paid_intervals o <= 3 /\ t < objective_end_tick o
  | None => i = 0 \/ opened + OBJECTIVE_LIFETIME_TICKS <= t
  end.

Record match_inv (k : BountyMatchKernel) : Prop := {
  inv_start : 0 <= start_tick k <= u64_max - 60000;
  inv_end : end_tick k = start_tick k + BOUNTY_RUN_DURATION_TICKS;
  inv_clock : start_tick k <= current_tick k;
  inv_finished : finished k = (end_tick k <=? current_tick k);
  inv_roster : roster_inv (now k) (players k);
  inv_damage : damage_inv (current_tick k) (dom (players k)) (damage k);
  inv_reveal : reveal_inv (start_tick k) (now k) (dom (players k)) (next_reveal_tick k) (active_reveal k);
  inv_objective : objective_inv (lobby_seed k) (start_tick k) (now k) (objective_sequence k)
                    (next_objective_tick k) (active_objective k);
}.

(** ** Updates of single rows *)

Lemma size_alter (ps : gmap PlayerId BountyPlayerState) f p : size (alter f p ps) = size ps.
Proof. by rewrite <- !size_dom, dom_alter_L. Qed.

Lemma roster_inv_alter t ps f p :
  (forall row, ps !! p = Some row -> row_inv t p row -> row_inv t p (f row)) ->
  roster_inv t ps -> roster_inv t (alter f p ps).
Proof.
  intros Hf [Hsize Hrows]. split; [by rewrite size_alter|].
  intros q row Hq. destruct (decide (q = p)) as [-> |Hne].
  - rewrite lookup_alter_eq in Hq. apply fmap_Some in Hq as (row0 & Hp & ->). eauto.
  - rewrite lookup_alter_ne in Hq by done. eauto.
Qed.

Lemma alter_alter (ps : gmap PlayerId BountyPlayerState) f g p :
  alter f p (alter g p ps) = alter (fun row => f (g row)) p ps.
Proof.
  apply map_eq. intros q. destruct (decide (q = p)) as [-> |].
  - rewrite !lookup_alter_eq. by destruct (ps !! p).
  - by rewrite !lookup_alter_ne.
Qed.

(** The state after an operation that updates the row of one player. *)
Definition with_row (f : BountyPlayerState -> BountyPlayerState) (p : PlayerId) (k : BountyMatchKernel)
    : BountyMatchKernel := k <| players := alter f p (players k) |>.

Lemma with_row_inv f p k :
  (forall row, players k !! p = Some row -> row_inv (now k) p row -> row_inv (now k) p (f row)) ->
  match_inv k -> match_inv (with_row f p k).
Proof.
  intros Hf [? ? ? ? ? ? ? ?]. constructor; unfold with_row, now in *; simpl; rewrite ?dom_alter_L; try done.
  by apply roster_inv_alter.
Qed.

Definition add_points (c : BountyScoreCategory) (n : Z) (row : BountyPlayerState) : BountyPlayerState :=
  row <| score := score_add (score row) c n |>.

(** An award is the update of one row; it fails exactly on an unknown player. *)
Lemma award_eq p c n k :
  award p c n k =
  (with_row (add_points c n) p k,
   match players k !! p with
   | Some row => Ok (mkBountyAward p c n (total_score (add_points c n row)))
   | None => Err UnknownPlayer
   end).
Proof.
  unfold award, with_row. destruct (players k !! p) as [row|] eqn:Hp.
  - assert (Heq : <[p := add_points c n row]> (players k) = alter (add_points c n) p (players k)); [|by rewrite <- Heq].
    apply map_eq. intros q. destruct (decide (q = p)) as [-> |].
    + by rewrite lookup_insert_eq, lookup_alter_eq, Hp.
    + by rewrite lookup_insert_ne, lookup_alter_ne.
  - rewrite alter_id by (intros ? H; by rewrite Hp in H). by destruct k.
Qed.

Lemma add_points_inv t id c n row :
  c <> MountedLongHit -> row_inv t id row -> row_inv t id (add_points c n row).
Proof. intros Hc H. by destruct c. Qed.

Lemma award_inv p c n k k' r :
  c <> MountedLongHit -> match_inv k -> award p c n k = (k', r) -> match_inv k'.
Proof.
  intros Hc Hinv. rewrite award_eq. intros [= <- _]. apply with_row_inv; [|done].
  intros row _. by apply add_points_inv.
Qed.

Lemma require_live_tick_inv t k k' r :
  require_live_tick t k = (k', r) ->
  k' = k /\ (r = Ok tt -> finished k = false /\ t = current_tick k).
Proof. unfold require_live_tick. intros. split_matches; split; try done; intros; split; try done; lia. Qed.

(** A live tick is before the end, and the schedules have reached it. *)
Lemma live_now k : match_inv k -> finished k = false -> now k = current_tick k /\ current_tick k < end_tick k.
Proof. intros [] Hf. unfold now. rewrite inv_finished0 in Hf. lia. Qed.

(** Steps after the liveness test and the read of the state. *)
Lemma live_step_inv {A} t (f : BountyMatchKernel -> kernel_step A) k k' r :
  sbind (require_live_tick t) (fun _ => sbind sget f) k = (k', r) ->
  k' = k \/ (finished k = false /\ t = current_tick k /\ f k k = (k', r)).
Proof.
  intros H. apply sbind_inv in H as [(s1 & [] & H1 & H2)|(e & H1 & ->)];
    apply require_live_tick_inv in H1 as [-> Hlive]; [|by left].
  destruct (Hlive eq_refl) as [Hf Ht]. right. split; [done|]. split; [done|]. exact H2.
Qed.

(** ** Every event keeps the invariant *)

Lemma record_damage_inv t a b n k :
  0 <= n -> match_inv k -> match_inv (record_damage t a b n k).1.
Proof.
  intros Hn Hinv. destruct (record_damage t a b n k) as [k' r] eqn:H. unfold record_damage in H.
  apply live_step_inv in H as [-> |(Hf & -> & H)]; [done|]. simpl.
  destruct (_ || _) eqn:Hguard in H; [by injection H as <- _|]. btrue.
  destruct (players k !! b) as [row|] eqn:Hb; [|by injection H as <- _].
  destruct (negb (alive row)); [by injection H as <- _|]. injection H as <- _.
  destruct (players k !! a) eqn:Ha; [|done]. apply bool_decide_eq_false in H3.
  destruct Hinv as [? ? ? ? ? Hd ? ?]. constructor; try done. simpl.
  intros target cs Hcs. destruct (decide (target = b)) as [-> |Hne].
  - rewrite lookup_insert_eq in Hcs. injection Hcs as <-. split; [by apply elem_of_dom|].
    assert (Hold : map_Forall (fun attacker c => attacker <> b /\ attacker ∈ dom (players k) /\
              0 < damage_dealt c /\ last_tick c <= current_tick k) (default ∅ (damage k !! b))).
    { destruct (damage k !! b) as [old|] eqn:Eold; simpl; [by apply (Hd b old Eold)|apply map_Forall_empty]. }
    apply map_Forall_insert_2; [|exact Hold]. simpl. split; [done|]. split; [by apply elem_of_dom|].
    split; [|lia]. destruct (default ∅ (damage k !! b) !! a) as [c|] eqn:Ec; simpl; [destruct (Hold a c Ec) as (_ & _ & ? & _)|]; m5_lia.
  - rewrite lookup_insert_ne in Hcs by done. by apply Hd.
Qed.

Lemma record_horse_bolt_inv t a b k : match_inv k -> match_inv (record_horse_bolt t a b k).1.
Proof.
  intros Hinv. destruct (record_horse_bolt t a b k) as [k' r] eqn:H. unfold record_horse_bolt in H.
  apply live_step_inv in H as [-> |(Hf & -> & H)]; [done|].
  destruct (_ || _); [by injection H as <- _|]. by apply award_inv in H.
Qed.

(** The bonus and its score category grow together. *)
Lemma long_hit_row_inv t id row :
  mounted_long_hit_bonus row < 50 -> row_inv t id row ->
  row_inv t id (add_points MountedLongHit 10
    (row <| mounted_long_hit_bonus := wrapping_add 16 (mounted_long_hit_bonus row) 10 |>)).
Proof.
  intros Hlt (? & Hs & Hr & Hm & ?). unfold row_inv, add_points, bounded_add. simpl.
  assert (Hw : wrapping_add 16 (mounted_long_hit_bonus row) 10 = mounted_long_hit_bonus row + 10)
    by (apply wrap_small; m5_lia).
  assert (Hm10 : (mounted_long_hit_bonus row + 10) mod 10 = 0) by div_lia.
  assert (mounted_long_hit_bonus row <= 40) by div_lia.
  rewrite Hw, Hs. split; [done|]. split; [unfold bounded_add; m5_lia|]. split; [lia|]. done.
Qed.

Lemma record_mounted_long_hit_inv t a d k : match_inv k -> match_inv (record_mounted_long_hit t a d k).1.
Proof.
  intros Hinv. destruct (record_mounted_long_hit t a d k) as [k' r] eqn:H. unfold record_mounted_long_hit in H.
  apply live_step_inv in H as [-> |(Hf & -> & H)]; [done|].
  destruct (_ <=? _); [by injection H as <- _|].
  destruct (players k !! a) as [row|] eqn:Ha; [|by injection H as <- _].
  destruct (_ <=? _) eqn:Hcap; [by injection H as <- _|].
  assert (Hk' : k' = with_row (fun row => add_points MountedLongHit 10
    (row <| mounted_long_hit_bonus := wrapping_add 16 (mounted_long_hit_bonus row) 10 |>)) a k).
  { unfold sbind, alter_player, smodify in H. rewrite award_eq in H. simpl in H.
    rewrite lookup_alter_eq, Ha in H. injection H as <- _. unfold with_row. simpl.
    by rewrite alter_alter. }
  rewrite Hk'. apply with_row_inv; [|done]. intros row' Hrow'. rewrite Ha in Hrow'. injection Hrow' as <-.
  apply long_hit_row_inv. m5_lia.
Qed.

(** Replacing the active objective by one that differs in progress only. *)
Lemma with_objective_inv o done_ paid k :
  match_inv k -> active_objective k = Some o -> 0 <= paid <= 3 ->
  match_inv (k <| active_objective := Some (o <| completed := done_ |> <| signal_paid_intervals := paid |>) |>).
Proof.
  intros [? ? ? ? ? ? ? Hobj] Ho Hp. constructor; try done. unfold objective_inv, now in *. simpl.
  rewrite Ho in Hobj. naive_solver.
Qed.

Lemma horse_buff_inv k p :
  match_inv k -> finished k = false ->
  match_inv (with_row (fun row => row <| horse_buff_end_tick :=
    Some (tick_saturating_add (current_tick k) HORSE_STATION_BUFF_TICKS) |>) p k).
Proof.
  intros Hinv Hf. apply with_row_inv; [|done].
  pose proof Hinv as [Hs He _ _ _ _ _ _]. destruct (live_now k Hinv Hf) as [Hnow Hend].
  intros row _ (? & ? & ? & ? & ? & ? & ? & ?). unfold row_inv. simpl. split_and!; try done; try lia.
  intros b [= <-]. rewrite Hnow. unfold tick_saturating_add. m5_lia.
Qed.

Lemma complete_objective_inv t p id k : match_inv k -> match_inv (complete_objective t p id k).1.
Proof.
  intros Hinv. destruct (complete_objective t p id k) as [k' r] eqn:H. unfold complete_objective in H.
  apply live_step_inv in H as [-> |(Hf & -> & H)]; [done|].
  destruct (is_none _); [by injection H as <- _|].
  destruct (active_objective k) as [o|] eqn:Ho; [|by injection H as <- _].
  destruct (_ || _); [by injection H as <- _|].
  pose proof (inv_objective k Hinv) as Hobj. unfold objective_inv in Hobj. rewrite Ho in Hobj.
  pose proof (with_objective_inv o true (signal_paid_intervals o) k Hinv Ho ltac:(naive_solver)) as Hinv1.
  set (k1 := k <| active_objective := _ |>) in Hinv1. simpl.
  unfold sbind at 1 in H. cbn [smodify] in H. change (k <| active_objective := _ |>) with k1 in H.
  destruct (bool_decide _); (apply sbind_inv in H as [(s1 & [] & [= <-] & H)|(e & [=] & _)]);
    (apply award_inv in H; [done|done|]); [|done]. by apply (horse_buff_inv k1 p).
Qed.

Lemma record_signal_tower_hold_inv t p id h k : match_inv k -> match_inv (record_signal_tower_hold t p id h k).1.
Proof.
  intros Hinv. destruct (record_signal_tower_hold t p id h k) as [k' r] eqn:H. unfold record_signal_tower_hold in H.
  apply live_step_inv in H as [-> |(Hf & -> & H)]; [done|].
  destruct (is_none _); [by injection H as <- _|].
  destruct (active_objective k) as [o|] eqn:Ho; [|by injection H as <- _].
  destruct (_ || _); [by injection H as <- _|].
  destruct (completed o || _) eqn:Hpaid; [by injection H as <- _|]. btrue.
  destruct (Z.min _ 3 <=? _); [by injection H as <- _|].
  pose proof (inv_objective k Hinv) as Hobj. unfold objective_inv in Hobj. rewrite Ho in Hobj.
  assert (Hr : 0 <= signal_paid_intervals o < 3) by (destruct_and! Hobj; lia).
  set (paid := wrapping_add 8 (signal_paid_intervals o) 1) in H.
  assert (Hw : paid = signal_paid_intervals o + 1) by (apply wrap_small; m5_lia).
  set (done_ := if paid =? 3 then true else completed o) in H.
  pose proof (with_objective_inv o done_ paid k Hinv Ho ltac:(lia)) as Hinv1.
  apply sbind_inv in H as [(s1 & [] & [= <-] & H)|(e & [=] & _)].
  apply sbind_inv in H as [(s2 & a & H & [= <- _])|(e & H & _)]; by apply award_inv in H.
Qed.

(** ** Eliminations, by rows *)

(** Every row updated by a function of its player. *)
Definition upd_rows (f : PlayerId -> BountyPlayerState -> BountyPlayerState) (k : BountyMatchKernel)
    : BountyMatchKernel :=
  k <| players := map_imap (fun q row => Some (f q row)) (players k) |>.

Definition on_player (p : PlayerId) (f : BountyPlayerState -> BountyPlayerState) (q : PlayerId)
    (row : BountyPlayerState) : BountyPlayerState := if decide (q = p) then f row else row.

Lemma upd_rows_lookup f k q : players (upd_rows f k) !! q = f q <$> players k !! q.
Proof. unfold upd_rows. simpl. rewrite map_lookup_imap. by destruct (players k !! q). Qed.

Lemma upd_rows_ext f ps k :
  (forall q, ps !! q = f q <$> players k !! q) -> k <| players := ps |> = upd_rows f k.
Proof.
  intros H. unfold upd_rows. assert (ps = map_imap (fun q row => Some (f q row)) (players k)) as ->; [|done].
  apply map_eq. intros q. rewrite H, map_lookup_imap. by destruct (players k !! q).
Qed.

Lemma with_row_upd f p k : with_row f p k = upd_rows (on_player p f) k.
Proof.
  apply upd_rows_ext. intros q. unfold on_player. destruct (decide (q = p)) as [-> |].
  - by rewrite lookup_alter_eq.
  - rewrite lookup_alter_ne by done. by destruct (players k !! q).
Qed.

Lemma upd_rows_compose f g k : upd_rows f (upd_rows g k) = upd_rows (fun q row => f q (g q row)) k.
Proof.
  transitivity (k <| players := map_imap (fun q row => Some (f q row)) (players (upd_rows g k)) |>); [done|].
  apply upd_rows_ext. intros q.
  rewrite map_lookup_imap, upd_rows_lookup. by destruct (players k !! q).
Qed.

Lemma upd_rows_proper f g k :
  (forall q row, players k !! q = Some row -> f q row = g q row) -> upd_rows f k = upd_rows g k.
Proof.
  intros H. apply upd_rows_ext. intros q. rewrite map_lookup_imap.
  destruct (players k !! q) as [row|] eqn:E; simpl; [|done]. f_equal. by apply H.
Qed.

Lemma upd_rows_id k : upd_rows (fun _ row => row) k = k.
Proof.
  transitivity (k <| players := players k |>); [|by destruct k].
  symmetry. apply upd_rows_ext. intros q. by destruct (players k !! q).
Qed.

Lemma dom_upd_rows f k : dom (players (upd_rows f k)) = dom (players k).
Proof.
  apply set_eq. intros q. rewrite !elem_of_dom, upd_rows_lookup, fmap_is_Some. done.
Qed.

(** *** The assists *)

(** A contributor who earns an assist. *)
Definition qualifies (tick : SimulationTick) (killer : PlayerId) (entry : PlayerId * DamageContribution) : bool :=
  negb (bool_decide (entry.1 = killer)) && (ASSIST_DAMAGE_THRESHOLD <=? damage_dealt entry.2)
  && (saturating_sub tick (last_tick entry.2) <? ASSIST_WINDOW_TICKS).

Definition assisted (tick : SimulationTick) (killer : PlayerId) (cs : list (PlayerId * DamageContribution))
    (q : PlayerId) : bool :=
  existsb (fun entry => bool_decide (entry.1 = q) && qualifies tick killer entry) cs.

Definition assist_row (row : BountyPlayerState) : BountyPlayerState :=
  (add_points Assist 50 row) <| assists := saturating_add 16 (assists row) 1 |>.

Definition payout (a : BountyAward) : PlayerId * BountyScoreCategory * Z :=
  (award_player_id a, award_category a, award_points a).

Lemma assisted_not_in tick killer cs q : q ∉ cs.*1 -> assisted tick killer cs q = false.
Proof.
  intros Hq. unfold assisted. apply not_true_iff_false. intros H%existsb_exists.
  destruct H as (e & He & Hb). apply andb_true_iff in Hb as [Hb _]. apply bool_decide_eq_true in Hb.
  apply Hq, list_elem_of_fmap. exists e. split; [done|]. by apply list_elem_of_In.
Qed.

Lemma assist_loop_eq tick killer cs : forall awards k,
  NoDup cs.*1 -> (forall a, a ∈ cs.*1 -> is_Some (players k !! a)) ->
  exists paid,
    assist_loop tick killer cs awards k =
    (upd_rows (fun q row => if assisted tick killer cs q then assist_row row else row) k, Ok (awards ++ paid)) /\
    payout <$> paid = (fun e => (e.1, Assist, 50)) <$> List.filter (qualifies tick killer) cs.
Proof.
  induction cs as [|[a c] cs IH]; intros awards k Hnd Hin.
  { exists []. split; [|done]. simpl. by rewrite upd_rows_id, app_nil_r. }
  apply NoDup_cons in Hnd as [Hnin Hnd]. simpl assist_loop. cbn [List.filter].
  change (_ && _ && _) with (qualifies tick killer (a, c)).
  destruct (qualifies tick killer (a, c)) eqn:Hq.
  - destruct (Hin a ltac:(left)) as [row Hrow].
    unfold sbind at 1. rewrite award_eq, Hrow. unfold sbind at 1. cbn [alter_player smodify].
    change (_ <| players := _ |>) with
      (with_row (fun row => row <| assists := saturating_add 16 (assists row) 1 |>) a
         (with_row (add_points Assist 50) a k)).
    set (w := mkBountyAward a Assist 50 _).
    set (k1 := with_row _ a _). destruct (IH (awards ++ [w]) k1) as (paid & -> & Hpaid); [done| |]; subst k1.
    { intros b Hb. rewrite !with_row_upd, !upd_rows_lookup, !fmap_is_Some. apply Hin. by right. }
    exists (w :: paid). rewrite <- app_assoc. split; [|by rewrite !fmap_cons, Hpaid].
    f_equal. rewrite !with_row_upd, !upd_rows_compose. apply upd_rows_proper. intros q r _.
    unfold on_player. simpl. destruct (decide (q = a)) as [-> |Hne].
    + rewrite bool_decide_true by done. rewrite assisted_not_in by done. simpl. by rewrite Hq.
    + rewrite (bool_decide_false (a = q)) by congruence. done.
  - destruct (IH awards k) as (paid & -> & Hpaid); [done| |].
    { intros b Hb. apply Hin. by right. }
    exists paid. split; [|done]. f_equal. apply upd_rows_proper. intros q r _. simpl. rewrite Hq.
    by rewrite andb_false_r.
Qed.

(** *** The whole elimination *)

Definition elimination_allowed (k : BountyMatchKernel) (tick : SimulationTick) (killer target : PlayerId) : bool :=
  negb (finished k) && (tick =? current_tick k) && negb (bool_decide (killer = target))
  && is_some (players k !! killer) && is_some_and (players k !! target) alive.

Definition killer_row (saddle_dive most_wanted : bool) (row : BountyPlayerState) : BountyPlayerState :=
  let row := add_points Elimination 100 row in
  let row := if saddle_dive then add_points SaddleDiveBonus 25 row else row in
  let row := if most_wanted then add_points MostWantedElimination 75 row else row in
  row <| eliminations := saturating_add 16 (eliminations row) 1 |>.

(** The contributors to a target's damage, in key order. *)
Definition contributors_of (k : BountyMatchKernel) (target : PlayerId) : list (PlayerId * DamageContribution) :=
  btree_list (default ∅ (damage k !! target)).

Definition elimination_row (k : BountyMatchKernel) (tick : SimulationTick) (killer target : PlayerId)
    (saddle_dive : bool) (q : PlayerId) (row : BountyPlayerState) : BountyPlayerState :=
  if decide (q = target) then row_eliminated tick row
  else if decide (q = killer) then killer_row saddle_dive (is_most_wanted k tick target) row
  else if assisted tick killer (contributors_of k target) q then assist_row row
  else row.

Definition elimination_result (k : BountyMatchKernel) (tick : SimulationTick) (killer target : PlayerId)
    (saddle_dive : bool) : BountyMatchKernel :=
  upd_rows (elimination_row k tick killer target saddle_dive)
    ((mark_reveal_eliminated (is_most_wanted k tick target) k) <| damage := delete target (damage k) |>).

Definition elimination_payouts (k : BountyMatchKernel) (tick : SimulationTick) (killer target : PlayerId)
    (saddle_dive : bool) : list (PlayerId * BountyScoreCategory * Z) :=
  [(killer, Elimination, 100)]
  ++ (if saddle_dive then [(killer, SaddleDiveBonus, 25)] else [])
  ++ (if is_most_wanted k tick target then [(killer, MostWantedElimination, 75)] else [])
  ++ ((fun e => (e.1, Assist, 50)) <$> List.filter (qualifies tick killer) (contributors_of k target)).

Lemma award_if_eq b p c n awards k :
  is_Some (players k !! p) ->
  exists paid,
    award_if b p c n awards k = (upd_rows (on_player p (fun row => if b then add_points c n row else row)) k,
                                 Ok (awards ++ paid)) /\
    payout <$> paid = if b then [(p, c, n)] else [].
Proof.
  intros [row Hrow]. unfold award_if. destruct b.
  - unfold sbind. rewrite award_eq, Hrow, with_row_upd. eexists. split; [done|]. done.
  - exists []. rewrite app_nil_r. split; [|done]. unfold sret. f_equal.
    rewrite <- (upd_rows_id k) at 1. apply upd_rows_proper. intros q r _. unfold on_player. by case_decide.
Qed.

Lemma alter_player_eq f p k : alter_player f p k = (upd_rows (on_player p f) k, Ok tt).
Proof. by rewrite <- with_row_upd. Qed.

Lemma mark_reveal_players b k : players (mark_reveal_eliminated b k) = players k.
Proof. by destruct b. Qed.
Lemma mark_reveal_damage b k : damage (mark_reveal_eliminated b k) = damage k.
Proof. by destruct b. Qed.

Lemma contributors_rostered k target :
  match_inv k -> NoDup (contributors_of k target).*1 /\
  forall a, a ∈ (contributors_of k target).*1 -> is_Some (players k !! a) /\ a <> target.
Proof.
  intros Hinv. split; [apply btree_keys_NoDup|]. intros a Ha.
  apply list_elem_of_fmap in Ha as ([a' c] & -> & Hc). apply elem_of_btree_list in Hc.
  destruct (damage k !! target) as [cs|] eqn:Ecs; [|simpl in Hc; by apply lookup_empty_Some in Hc].
  destruct (inv_damage k Hinv target cs Ecs) as [_ Hcs]. destruct (Hcs a' c Hc) as (? & Hdom & _).
  split; [|done]. by apply elem_of_dom.
Qed.

Lemma elimination_accepted k tick killer target saddle_dive :
  match_inv k -> elimination_allowed k tick killer target = true ->
  exists awards,
    record_elimination tick killer target saddle_dive k
    = (elimination_result k tick killer target saddle_dive, Ok awards) /\
    payout <$> awards = elimination_payouts k tick killer target saddle_dive.
Proof.
  intros Hinv Hok. unfold elimination_allowed in Hok. rewrite !andb_true_iff, !negb_true_iff in Hok.
  destruct Hok as [[[[Hfin Ht] Hne] Hkiller] Htarget]. apply Z.eqb_eq in Ht as ->.
  destruct (players k !! killer) as [krow|] eqn:Hk; [|done].
  unfold record_elimination. unfold sbind at 1. unfold require_live_tick. rewrite Hfin, Z.eqb_refl. cbn [negb].
  unfold sbind at 1. cbn [sget]. rewrite Hne, Hk, Htarget. cbn [is_none is_some negb orb].
  set (mw := is_most_wanted k (current_tick k) target). set (tick := current_tick k) in *.
  unfold sbind at 1. cbn [smodify]. set (k1 := mark_reveal_eliminated mw k).
  assert (Hk1 : players k1 = players k) by apply mark_reveal_players.
  unfold sbind at 1. rewrite award_eq, with_row_upd, Hk1, Hk.
  edestruct (award_if_eq saddle_dive killer SaddleDiveBonus 25) as (p2 & E2 & P2);
    [|unfold sbind at 1; rewrite E2].
  { rewrite upd_rows_lookup, Hk1, Hk. by eexists. }
  edestruct (award_if_eq mw killer MostWantedElimination 75) as (p3 & E3 & P3);
    [|unfold sbind at 1; rewrite E3].
  { rewrite !upd_rows_lookup, Hk1, Hk. by eexists. }
  unfold sbind at 1. rewrite alter_player_eq, !upd_rows_compose.
  set (f := fun (q : PlayerId) (row : BountyPlayerState) => on_player killer _ _ _).
  unfold sbind at 1. cbn [sget]. unfold sbind at 1. cbn [smodify].
  change (damage (upd_rows f k1)) with (damage k1).
  assert (Hd1 : damage k1 = damage k) by apply mark_reveal_damage. rewrite !Hd1.
  change (btree_list (default ∅ (damage k !! target))) with (contributors_of k target).
  set (k2 := (upd_rows f k1) <| damage := delete target (damage k) |>).
  destruct (contributors_rostered k target Hinv) as [Hnd Hcs].
  edestruct (assist_loop_eq tick killer (contributors_of k target)) as (p4 & E4 & P4);
    [exact Hnd| |unfold sbind at 1; rewrite E4].
  { intros a Ha. change (players k2) with (players (upd_rows f k1)).
    rewrite upd_rows_lookup, Hk1, fmap_is_Some. by apply Hcs. }
  unfold sbind at 1. rewrite alter_player_eq, !upd_rows_compose. unfold sret.
  eexists. split.
  - f_equal. unfold elimination_result. fold tick mw k1. apply bool_decide_eq_false in Hne.
    change (upd_rows ?g k2) with (upd_rows g (upd_rows f (k1 <| damage := delete target (damage k) |>))).
    rewrite upd_rows_compose. apply upd_rows_proper. intros q row _.
    unfold elimination_row, f, on_player. fold tick mw.
    destruct (decide (q = target)) as [-> |Hqt].
    + destruct (decide (target = killer)) as [Heq|_]; [by rewrite Heq in Hne|].
      rewrite assisted_not_in; [done|]. intros Ha. by apply Hcs in Ha as [_ ?].
    + destruct (decide (q = killer)) as [-> |]; [|done].
      assert (Hself : assisted tick killer (contributors_of k target) killer = false).
      { apply not_true_iff_false. intros (e & _ & He)%existsb_exists. unfold qualifies in He.
        destruct (bool_decide (e.1 = killer)); done. }
      rewrite Hself. by destruct saddle_dive, mw.
  - rewrite !fmap_app, P2, P3, P4. unfold elimination_payouts. fold tick mw. simpl. by rewrite <- !app_assoc.
Qed.

Lemma elimination_rejected k tick killer target saddle_dive :
  elimination_allowed k tick killer target = false ->
  exists e, record_elimination tick killer target saddle_dive k = (k, Err e).
Proof.
  intros Hno. unfold elimination_allowed in Hno. unfold record_elimination, sbind, require_live_tick, sget.
  destruct (finished k); [by eexists|]. destruct (tick =? current_tick k); [|by eexists]. simpl in *.
  destruct (bool_decide _); [by eexists|]. destruct (players k !! killer); [|by eexists]. simpl in *.
  rewrite Hno. by eexists.
Qed.

Lemma upd_rows_inv f k :
  (forall q row, players k !! q = Some row -> row_inv (now k) q row -> row_inv (now k) q (f q row)) ->
  match_inv k -> match_inv (upd_rows f k).
Proof.
  intros Hf [? ? ? ? [Hsize Hrows] ? ? ?]. constructor; rewrite ?dom_upd_rows; try done.
  split; [by rewrite <- size_dom, dom_upd_rows, size_dom|].
  intros q row Hq. rewrite upd_rows_lookup in Hq. apply fmap_Some in Hq as (row0 & Hq & ->).
  apply Hf; [done|]. by apply Hrows.
Qed.

Lemma record_elimination_inv t a b sd k : match_inv k -> match_inv (record_elimination t a b sd k).1.
Proof.
  intros Hinv. destruct (elimination_allowed k t a b) eqn:Hok.
  2:{ by destruct (elimination_rejected k t a b sd Hok) as [e ->]. }
  destruct (elimination_accepted k t a b sd Hinv Hok) as (aw & -> & _). simpl.
  assert (Hlive : finished k = false /\ t = current_tick k).
  { unfold elimination_allowed in Hok. rewrite !andb_true_iff, negb_true_iff in Hok. destruct_and! Hok.
    split; [done|lia]. }
  destruct Hlive as [Hf ->]. destruct (live_now k Hinv Hf) as [Hnow Hend].
  set (mw := is_most_wanted k (current_tick k) b).
  apply upd_rows_inv.
  - intros q row _. fold mw.
    assert (Hn : now ((mark_reveal_eliminated mw k) <| damage := delete b (damage k) |>) = current_tick k)
      by (destruct mw; exact Hnow).
    rewrite Hn. intros Hrow. unfold elimination_row. fold mw. pose proof (inv_start k Hinv). pose proof (inv_end k Hinv).
    repeat case_decide; [..|by destruct (assisted _ _ _ _)].
    + destruct Hrow as (? & ? & ? & ? & ? & ? & ? & ?). unfold row_inv, row_eliminated. simpl.
      split_and!; try done; try lia. intros r [= <-]. unfold tick_saturating_add. m5_lia.
    + by destruct sd, mw.
  - destruct Hinv as [? ? ? ? ? Hd Hrev ?].
    assert (Hdel : damage_inv (current_tick k) (dom (players k)) (delete b (damage k))).
    { intros target cs [_ Hcs]%lookup_delete_Some. by apply Hd. }
    fold mw. clearbody mw. destruct mw; constructor; try done.
    unfold reveal_inv, now in *. simpl. by destruct (active_reveal k).
Qed.

(** An elimination is accepted exactly when the match runs, the tick is the
    current one, and a rostered killer takes down another, living rider. The
    killer's row then gains 100 points (25 for a saddle dive, 75 when the target is
    the active Most Wanted) and one elimination; every other rider whose damage to
    the target since its last elimination reaches 30, with just the last hit less than
    five seconds old ([stale_damage_counts_for_assist]), gains 50 points and one assist;
    the target dies and is due back 300 ticks later; every
    other row, and on rejection the whole state, stays. The awards returned are
    those additions in that order. *)
Theorem elimination_effects k tick killer target saddle_dive :
  match_inv k ->
  if elimination_allowed k tick killer target
  then exists awards,
    record_elimination tick killer target saddle_dive k
    = (elimination_result k tick killer target saddle_dive, Ok awards) /\
    payout <$> awards = elimination_payouts k tick killer target saddle_dive
  else exists e, record_elimination tick killer target saddle_dive k = (k, Err e).
Proof.
  intros Hinv. destruct (elimination_allowed _ _ _ _) eqn:Hok.
  - by apply elimination_accepted.
  - by apply elimination_rejected.
Qed.

(** ** The clock *)

(** *** Rows *)

(** Advancing a row to [t]: it returns when due, and expired buffs go. *)
Lemma row_advance_inv t0 t id row :
  t0 <= t -> 0 <= t -> t + 600 <= u64_max -> row_inv t0 id row -> row_inv t id (row_advance t row).1.
Proof.
  intros Ht H0 Hmax (Hid & Hs & Hr & Hm & Ha & Hresp & Hbuff & Hhorse).
  assert (Hclear : forall r : BountyPlayerState,
    (forall b, respawn_at_tick r = Some b -> t < b) ->
    player_id r = id -> mounted_long_hit (score r) = mounted_long_hit_bonus r ->
    0 <= mounted_long_hit_bonus r <= 50 -> mounted_long_hit_bonus r mod 10 = 0 ->
    alive r = is_none (respawn_at_tick r) ->
    row_inv t id
      (let r1 := if is_some_and (respawn_speed_buff_end_tick r) (fun e => e <=? t)
                 then r <| respawn_speed_buff_end_tick := None |> else r in
       if is_some_and (horse_buff_end_tick r1) (fun e => e <=? t)
       then r1 <| horse_buff_end_tick := None |> else r1)).
  { intros r ? ? ? ? ? ?. cbv zeta.
    destruct (respawn_speed_buff_end_tick r) as [b1|] eqn:E1; destruct (horse_buff_end_tick r) as [b2|] eqn:E2;
      simpl; rewrite ?E1, ?E2; simpl; rewrite ?E2; simpl;
      try destruct (Z.leb_spec b1 t); simpl; rewrite ?E2; simpl;
      try destruct (Z.leb_spec b2 t); unfold row_inv; simpl; rewrite ?E1, ?E2; naive_solver. }
  unfold row_advance. destruct (respawn_at_tick row) as [r|] eqn:Er.
  - rewrite Ha. simpl. destruct (Z.leb_spec r t); apply Hclear; try done; simpl; rewrite ?Er; naive_solver lia.
  - apply Hclear; try done; rewrite ?Er; naive_solver.
Qed.

Lemma advance_rows_roster t0 t k :
  t0 <= t -> 0 <= t -> t + 600 <= u64_max -> roster_inv t0 (players k) ->
  roster_inv t (players (advance_rows t k).1) /\ dom (players (advance_rows t k).1) = dom (players k).
Proof.
  intros Ht H0 Hmax [Hsize Hrows]. unfold advance_rows. simpl. rewrite dom_fmap_L. split; [|done].
  split; [by rewrite map_size_fmap|]. intros q row Hq. rewrite lookup_fmap in Hq.
  apply fmap_Some in Hq as (row0 & Hq & ->). apply (row_advance_inv t0); try done. by apply Hrows.
Qed.

(** *** Reveals *)

Definition with_reveal (k : BountyMatchKernel) (ps : gmap PlayerId BountyPlayerState) (next : Z)
    (reveal : option MostWantedReveal) : BountyMatchKernel :=
  k <| players := ps |> <| next_reveal_tick := next |> <| active_reveal := reveal |>.

Lemma with_reveal_eta k : with_reveal k (players k) (next_reveal_tick k) (active_reveal k) = k.
Proof. by destruct k. Qed.

(** The roster after a survival award: same riders, rows still valid. *)
Definition roster_like (t : Z) (ps ps' : gmap PlayerId BountyPlayerState) : Prop :=
  roster_inv t ps' /\ dom ps' = dom ps.

Lemma close_reveal_eq t tick k out :
  roster_inv t (players k) ->
  exists ps, roster_like t (players k) ps /\
    (close_reveal tick k out).1
    = with_reveal k ps (next_reveal_tick k)
        (match active_reveal k with
         | Some r => if reveal_end_tick r <=? tick then None else Some r
         | None => None
         end).
Proof.
  intros Hr. unfold close_reveal. destruct (active_reveal k) as [r|] eqn:Ea.
  2:{ exists (players k). split; [done|]. rewrite <- Ea. by rewrite with_reveal_eta. }
  destruct (reveal_end_tick r <=? tick).
  2:{ exists (players k). split; [done|]. rewrite <- Ea. by rewrite with_reveal_eta. }
  destruct (negb (eliminated r)).
  - rewrite award_eq. exists (alter (add_points MostWantedSurvival 10) (reveal_player_id r) (players k)).
    split; [|by destruct k]. split; [|by rewrite dom_alter_L].
    apply roster_inv_alter; [|done]. intros row _. by apply add_points_inv.
  - exists (players k). split; [done|]. by destruct k.
Qed.

Lemma board_max_some rows : rows <> [] -> is_Some (board_max rows).
Proof. destruct rows; [done|]. intros _. by eexists. Qed.

(** The scoreboard's order as a key. *)
Definition board_key (row : BountyPlayerState) : Z * Reverse PlayerId :=
  (total_score row, mkReverse (player_id row)).

Lemma board_cmp_key x y : board_cmp x y = key_cmp (board_key x) (board_key y).
Proof.
  unfold board_cmp, board_key. symmetry. apply score_then_reverse_cmp.
Qed.

Lemma board_max_spec rows row :
  board_max rows = Some row ->
  row ∈ rows /\ forall r, r ∈ rows -> key_le (board_key r) (board_key row).
Proof.
  destruct rows as [|r rows]; [done|]. unfold board_max. intros [= <-].
  exact (max_by_spec board_key board_cmp r rows board_cmp_key).
Qed.

Lemma winner_rostered t k :
  roster_inv t (players k) -> exists w, winner k = Some w /\ w ∈ dom (players k).
Proof.
  intros [Hsize Hrows]. unfold winner.
  destruct (board_max_some (btree_values (players k))) as [row Hrow].
  { intros H. apply (f_equal length) in H. rewrite length_btree_values in H. simpl in H. lia. }
  rewrite Hrow. exists (player_id row). split; [done|].
  apply board_max_spec in Hrow as [Hrow _]. apply elem_of_btree_values in Hrow as [id Hid].
  destruct (Hrows id row Hid) as [-> _]. apply elem_of_dom. by eexists.
Qed.

(** During the loop: [j] windows have opened, none after [t], and the reveal on
    show is that of the last window. *)
Definition reveal_loop_inv (k0 : BountyMatchKernel) (t : Z) (k : BountyMatchKernel) : Prop :=
  exists ps j reveal,
    k = with_reveal k0 ps (start_tick k0 + (j + 1) * 3600) reveal /\
    roster_like t (players k0) ps /\ 0 <= j <= 14 /\ start_tick k0 + j * 3600 <= t /\
    match reveal with
    | Some r => 1 <= j /\ reveal_player_id r ∈ dom (players k0) /\
                reveal_started_tick r = start_tick k0 + j * 3600 /\
                reveal_end_tick r = start_tick k0 + j * 3600 + 600
    | None => j = 0 \/ start_tick k0 + j * 3600 + 600 <= t
    end.

Lemma reveal_iteration_fields k out :
  next_reveal_tick (reveal_iteration k out).1
  = tick_saturating_add (next_reveal_tick k) MOST_WANTED_CADENCE_TICKS /\
  end_tick (reveal_iteration k out).1 = end_tick k.
Proof.
  unfold reveal_iteration, close_reveal.
  destruct (active_reveal k) as [r|]; [|by destruct (winner k)].
  destruct (reveal_end_tick r <=? _); [|by destruct (winner k)].
  destruct (negb (eliminated r)); rewrite ?award_eq; by destruct (winner _).
Qed.

Lemma reveal_iteration_inv k0 t k out :
  0 <= start_tick k0 <= u64_max - 60000 -> end_tick k0 = start_tick k0 + 54000 ->
  reveal_loop_inv k0 t k -> next_reveal_tick k <= t -> next_reveal_tick k < end_tick k ->
  reveal_loop_inv k0 t (reveal_iteration k out).1.
Proof.
  intros Hs He (ps & j & reveal & -> & Hlike & Hj & Hjt & Hreveal) Hnext Hend. simpl in Hnext, Hend.
  set (next := start_tick k0 + (j + 1) * 3600) in *. unfold reveal_iteration.
  destruct (close_reveal_eq t next (with_reveal k0 ps next reveal) out) as (ps1 & [Hr1 Hd1] & Hclose);
    [apply Hlike|].
  change (next_reveal_tick (with_reveal k0 ps next reveal)) with next in *.
  destruct (close_reveal next _ out) as [k1 out1]. simpl in Hclose. subst k1.
  assert (Hgone : (match reveal with Some r => if reveal_end_tick r <=? next then None else Some r | None => None end) = None).
  { destruct reveal as [r|]; [|done]. destruct Hreveal as (_ & _ & _ & ->).
    destruct (Z.leb_spec (start_tick k0 + j * 3600 + 600) next); [done|unfold next in *; lia]. }
  change (active_reveal (with_reveal k0 ps next reveal)) with reveal. rewrite Hgone.
  set (k1 := with_reveal (with_reveal k0 ps next reveal) ps1 next None).
  destruct (winner_rostered t k1 Hr1) as (w & Hw & Hwin). rewrite Hw.
  change (next_reveal_tick k1) with next.
  assert (Hn1 : tick_saturating_add next MOST_WANTED_CADENCE_TICKS = next + 3600)
    by (apply tick_saturating_add_exact; unfold next; m5_lia).
  assert (Hn2 : tick_saturating_add next MOST_WANTED_REVEAL_TICKS = next + 600)
    by (apply tick_saturating_add_exact; unfold next; m5_lia).
  exists ps1, (j + 1). eexists. split; [|split; [|split; [|split]]].
  - simpl. rewrite Hn1. unfold with_reveal. simpl. f_equal. unfold next. lia.
  - split; [done|]. etrans; [exact Hd1|apply Hlike].
  - unfold next in *; lia.
  - unfold next in *; lia.
  - simpl. split; [lia|]. split; [|split; [done|rewrite Hn2; done]].
    change (dom (players k1)) with (dom ps1) in Hwin. change (dom ps1 = dom ps) in Hd1.
    destruct Hlike as [_ Hd]. by rewrite <- Hd, <- Hd1.
Qed.

(** The fuel is enough from any state: when [advance_reveals] leaves the loop, no
    window is due. *)
Lemma reveal_loop_complete (P : BountyMatchKernel -> Prop) tick k out :
  end_tick k <= u64_max ->
  (forall k out, P k -> next_reveal_tick k <= tick -> next_reveal_tick k < end_tick k ->
     P (reveal_iteration k out).1) ->
  P k ->
  let k' := (reveal_loop (cadence_fuel (next_reveal_tick k) (end_tick k) MOST_WANTED_CADENCE_TICKS) tick k out).1 in
  P k' /\ (tick < next_reveal_tick k' \/ end_tick k' <= next_reveal_tick k').
Proof.
  intros He Hstep HP k'.
  pose proof (cadence_loop_ind (fun s : BountyMatchKernel * BountyMatchTickOutput => next_reveal_tick s.1)
    (fun s => end_tick s.1) MOST_WANTED_CADENCE_TICKS tick (fun s => reveal_iteration s.1 s.2)
    (fun fuel s => reveal_loop fuel tick s.1 s.2)) as Hind. cbv beta in Hind.
  edestruct Hind with (P := fun s : BountyMatchKernel * BountyMatchTickOutput => P s.1)
    (s := (k, out)) as [HP' Hexit];
    [by intros [] | | intros []; apply reveal_iteration_fields | intros []; apply reveal_iteration_fields
    | done | | exact HP | exact He | intros _; reflexivity |].
  - intros fuel [k1 o1]. simpl. destruct (_ && _); [|done]. by destruct (reveal_iteration k1 o1).
  - intros [k1 o1] H1 H2. simpl in *. apply Hstep; [done|lia..].
  - simpl in *. fold k' in HP', Hexit. split; [exact HP'|]. lia.
Qed.

Lemma windows_opened_unique s t j c n :
  0 < c -> n = (BOUNTY_RUN_DURATION_TICKS - 1) / c -> 0 <= j <= n -> s + j * c <= t ->
  (t < s + (j + 1) * c \/ n <= j) -> windows_opened c (t - s) = j.
Proof.
  intros Hc Hn Hj Hjt Hlast. unfold windows_opened. rewrite <- Hn.
  assert (j <= (t - s) / c) by (apply Z.div_le_lower_bound; lia).
  destruct Hlast as [Hlt|?]; [|lia].
  assert ((t - s) / c < j + 1) by (apply Z.div_lt_upper_bound; lia). lia.
Qed.

Lemma advance_reveals_inv k t0 t out :
  0 <= start_tick k <= u64_max - 60000 -> end_tick k = start_tick k + BOUNTY_RUN_DURATION_TICKS ->
  start_tick k <= t0 <= t -> t <= end_tick k -> roster_inv t (players k) ->
  reveal_inv (start_tick k) t0 (dom (players k)) (next_reveal_tick k) (active_reveal k) ->
  exists ps next reveal, (advance_reveals t k out).1 = with_reveal k ps next reveal /\
    roster_like t (players k) ps /\
    reveal_inv (start_tick k) t (dom ps) next reveal.
Proof.
  intros Hs He Ht0 Ht Hr Hrev. m5_consts. unfold advance_reveals. m5_consts.
  assert (Hi0 : 0 <= windows_opened 3600 (t0 - start_tick k) <= 14 /\
    start_tick k + windows_opened 3600 (t0 - start_tick k) * 3600 <= t0).
  { unfold windows_opened. m5_consts. change ((54000 - 1) / 3600) with 14. div_lia. }
  set (i0 := windows_opened 3600 (t0 - start_tick k)) in *.
  assert (Hinit : reveal_loop_inv k t k).
  { exists (players k), i0, (active_reveal k). unfold reveal_inv in Hrev. fold i0 in Hrev.
    destruct Hrev as [Hnext Hrev]. split.
    { rewrite <- (with_reveal_eta k) at 1. f_equal. rewrite Hnext. m5_lia. }
    split; [done|]. split; [lia|]. split; [lia|].
    destruct (active_reveal k); m5_consts; [naive_solver|]. destruct Hrev; [by left|right; lia]. }
  assert (Hmax : end_tick k <= u64_max) by (rewrite He; int_lia).
  destruct (reveal_loop_complete (reveal_loop_inv k t) t k out Hmax) as [Hloop Hexit]; [|done|].
  { intros k1 o1 H1 H2 H3. by apply reveal_iteration_inv. }
  m5_consts. destruct (reveal_loop _ t k out) as [k1 o1]. simpl in Hloop, Hexit.
  destruct Hloop as (ps & j & reveal & -> & [Hps Hdom] & Hj & Hjt & Hcase). simpl in Hexit.
  destruct (close_reveal_eq t t (with_reveal k ps (start_tick k + (j + 1) * 3600) reveal) o1 Hps)
    as (ps2 & [Hps2 Hdom2] & ->).
  exists ps2, (start_tick k + (j + 1) * 3600),
    (match reveal with Some r => if reveal_end_tick r <=? t then None else Some r | None => None end).
  split; [done|]. change (dom ps2 = dom ps) in Hdom2.
  split; [split; [done|by rewrite Hdom2]|]. unfold reveal_inv. m5_consts.
  rewrite (windows_opened_unique (start_tick k) t j 3600 14) by (done || lia).
  split; [lia|]. destruct reveal as [r|]; [|done].
  destruct Hcase as (H1 & H2 & H3 & H4). rewrite Hdom2, Hdom.
  destruct (Z.leb_spec (reveal_end_tick r) t); [right; lia|]. split_and!; [lia|done|lia..].
Qed.

(** *** Objectives *)

Definition with_objective (k : BountyMatchKernel) (seq next : Z) (o : option ActiveDynamicObjective)
    : BountyMatchKernel :=
  k <| objective_sequence := seq |> <| next_objective_tick := next |> <| active_objective := o |>.

Lemma with_objective_eta k : with_objective k (objective_sequence k) (next_objective_tick k) (active_objective k) = k.
Proof. by destruct k. Qed.

Definition open_objective (tick : Z) (o : option ActiveDynamicObjective) : option ActiveDynamicObjective :=
  match o with Some o => if objective_end_tick o <=? tick then None else Some o | None => None end.

Lemma close_objective_eq tick k out :
  (close_objective tick k out).1
  = with_objective k (objective_sequence k) (next_objective_tick k) (open_objective tick (active_objective k)).
Proof.
  unfold close_objective, open_objective. destruct (active_objective k) as [o|] eqn:Eo; simpl.
  - destruct (_ <=? _); [by destruct k|]. rewrite <- Eo. by rewrite with_objective_eta.
  - rewrite <- Eo. by rewrite with_objective_eta.
Qed.

Definition objective_loop_inv (k0 : BountyMatchKernel) (t : Z) (k : BountyMatchKernel) : Prop :=
  exists j o,
    k = with_objective k0 j (start_tick k0 + (j + 1) * 5400) o /\
    0 <= j <= 9 /\ start_tick k0 + j * 5400 <= t /\
    match o with
    | Some o => 1 <= j /\ objective_id o = j /\ kind o = from_index (wrapping_add 64 (lobby_seed k0) (j - 1)) /\
                objective_started_tick o = start_tick k0 + j * 5400 /\
                objective_end_tick o = start_tick k0 + j * 5400 + 3600 /\
                0 <= signal_paid_intervals o <= 3
    | None => j = 0 \/ start_tick k0 + j * 5400 + 3600 <= t
    end.

Lemma objective_iteration_fields k out :
  next_objective_tick (objective_iteration k out).1
  = tick_saturating_add (next_objective_tick k) OBJECTIVE_CADENCE_TICKS /\
  end_tick (objective_iteration k out).1 = end_tick k.
Proof. unfold objective_iteration, close_objective. by destruct (is_some_and _ _). Qed.

Lemma objective_iteration_inv k0 t k out :
  0 <= start_tick k0 <= u64_max - 60000 -> end_tick k0 = start_tick k0 + 54000 ->
  objective_loop_inv k0 t k -> next_objective_tick k <= t -> next_objective_tick k < end_tick k ->
  objective_loop_inv k0 t (objective_iteration k out).1.
Proof.
  intros Hs He (j & o & -> & Hj & Hjt & Ho) Hnext Hend. simpl in Hnext, Hend.
  set (next := start_tick k0 + (j + 1) * 5400) in *. unfold objective_iteration.
  pose proof (close_objective_eq next (with_objective k0 j next o) out) as Hclose.
  change (next_objective_tick (with_objective k0 j next o)) with next in *.
  destruct (close_objective next _ out) as [k1 out1]. simpl in Hclose. subst k1.
  assert (Hn1 : tick_saturating_add next OBJECTIVE_CADENCE_TICKS = next + 5400)
    by (apply tick_saturating_add_exact; unfold next; m5_lia).
  assert (Hn2 : tick_saturating_add next OBJECTIVE_LIFETIME_TICKS = next + 3600)
    by (apply tick_saturating_add_exact; unfold next; m5_lia).
  assert (Hseq : saturating_add 64 j 1 = j + 1) by (apply saturating_add_exact; pow_norm; lia).
  assert (Hsub : saturating_sub (j + 1) 1 = j) by int_lia.
  exists (j + 1). eexists. split; [|split; [|split]].
  - unfold with_objective. cbn -[Z.add Z.mul]. rewrite Hseq, Hn1, Hsub, Hn2. f_equal. unfold next. lia.
  - unfold next in *; lia.
  - unfold next in *; lia.
  - cbn -[Z.add Z.mul]. replace (j + 1 - 1) with j by lia. unfold next in *. split_and!; (done || lia).
Qed.

Lemma objective_loop_complete (P : BountyMatchKernel -> Prop) tick k out :
  end_tick k <= u64_max ->
  (forall k out, P k -> next_objective_tick k <= tick -> next_objective_tick k < end_tick k ->
     P (objective_iteration k out).1) ->
  P k ->
  let k' := (objective_loop (cadence_fuel (next_objective_tick k) (end_tick k) OBJECTIVE_CADENCE_TICKS) tick k out).1 in
  P k' /\ (tick < next_objective_tick k' \/ end_tick k' <= next_objective_tick k').
Proof.
  intros He Hstep HP k'.
  pose proof (cadence_loop_ind (fun s : BountyMatchKernel * BountyMatchTickOutput => next_objective_tick s.1)
    (fun s => end_tick s.1) OBJECTIVE_CADENCE_TICKS tick (fun s => objective_iteration s.1 s.2)
    (fun fuel s => objective_loop fuel tick s.1 s.2)) as Hind. cbv beta in Hind.
  edestruct Hind with (P := fun s : BountyMatchKernel * BountyMatchTickOutput => P s.1)
    (s := (k, out)) as [HP' Hexit];
    [by intros [] | | intros []; apply objective_iteration_fields | intros []; apply objective_iteration_fields
    | done | | exact HP | exact He | intros _; reflexivity |].
  - intros fuel [k1 o1]. simpl. destruct (_ && _); [|done]. by destruct (objective_iteration k1 o1).
  - intros [k1 o1] H1 H2. simpl in *. apply Hstep; [done|lia..].
  - simpl in *. fold k' in HP', Hexit. split; [exact HP'|]. lia.
Qed.

Lemma advance_objectives_inv k t0 t out :
  0 <= start_tick k <= u64_max - 60000 -> end_tick k = start_tick k + BOUNTY_RUN_DURATION_TICKS ->
  start_tick k <= t0 <= t -> t <= end_tick k ->
  objective_inv (lobby_seed k) (start_tick k) t0 (objective_sequence k) (next_objective_tick k) (active_objective k) ->
  exists seq next o, (advance_objectives t k out).1 = with_objective k seq next o /\
    objective_inv (lobby_seed k) (start_tick k) t seq next o.
Proof.
  intros Hs He Ht0 Ht Hobj. m5_consts. unfold advance_objectives.
  pose proof (close_objective_eq t k out) as Hc. destruct (close_objective t k out) as [k1 out1].
  simpl in Hc. subst k1. set (k1 := with_objective k _ _ _).
  assert (Hi0 : 0 <= windows_opened 5400 (t0 - start_tick k) <= 9 /\
    start_tick k + windows_opened 5400 (t0 - start_tick k) * 5400 <= t0).
  { unfold windows_opened. m5_consts. change ((54000 - 1) / 5400) with 9. div_lia. }
  unfold objective_inv in Hobj. m5_consts.
  set (i0 := windows_opened 5400 (t0 - start_tick k)) in *. destruct Hobj as (Hseq & Hnext & Hobj).
  assert (Hinit : objective_loop_inv k t k1).
  { exists i0, (open_objective t (active_objective k)). split.
    { unfold k1. rewrite Hseq, Hnext. f_equal. lia. }
    split; [lia|]. split; [lia|]. destruct (active_objective k) as [o|]; simpl; [|lia].
    destruct (Z.leb_spec (objective_end_tick o) t); [lia|]. naive_solver. }
  assert (Hmax : end_tick k1 <= u64_max) by (change (end_tick k1) with (end_tick k); rewrite He; int_lia).
  destruct (objective_loop_complete (objective_loop_inv k t) t k1 out1 Hmax) as [Hloop Hexit]; [|done|].
  { intros k2 o2 H1 H2 H3. by apply objective_iteration_inv. }
  m5_consts. destruct (objective_loop _ t k1 out1) as [k2 o2]. simpl in Hloop, Hexit.
  destruct Hloop as (j & o & -> & Hj & Hjt & Hcase). simpl in Hexit. rewrite close_objective_eq.
  exists j, (start_tick k + (j + 1) * 5400), (open_objective t o).
  split; [done|]. unfold objective_inv. m5_consts.
  rewrite (windows_opened_unique (start_tick k) t j 5400 9) by (done || lia).
  split; [lia|]. split; [lia|]. destruct o as [o|]; [|done]. simpl.
  destruct Hcase as (H1 & H2 & H3 & H4 & H5 & H6).
  destruct (Z.leb_spec (objective_end_tick o) t); [right; lia|]. split_and!; (done || lia).
Qed.

(** *** A whole tick *)

Lemma finish_if_due_eq tick k out :
  (finish_if_due tick k out).1
  = if (end_tick k <=? tick) && negb (finished k)
    then k <| finished := true |> <| active_reveal := None |> <| active_objective := None |> else k.
Proof. unfold finish_if_due. by destruct (_ && _). Qed.

(** No window opens in the last sixty seconds, so nothing is on show at the end. *)
Lemma reveal_inv_end s ids next reveal :
  reveal_inv s (s + BOUNTY_RUN_DURATION_TICKS) ids next reveal -> reveal = None.
Proof.
  unfold reveal_inv. replace (s + BOUNTY_RUN_DURATION_TICKS - s) with BOUNTY_RUN_DURATION_TICKS by lia.
  change (windows_opened MOST_WANTED_CADENCE_TICKS BOUNTY_RUN_DURATION_TICKS) with 14. m5_consts.
  intros [_ H]. destruct reveal; [lia|done].
Qed.
Lemma objective_inv_end seed s seq next o :
  objective_inv seed s (s + BOUNTY_RUN_DURATION_TICKS) seq next o -> o = None.
Proof.
  unfold objective_inv. replace (s + BOUNTY_RUN_DURATION_TICKS - s) with BOUNTY_RUN_DURATION_TICKS by lia.
  change (windows_opened OBJECTIVE_CADENCE_TICKS BOUNTY_RUN_DURATION_TICKS) with 9. m5_consts.
  intros (_ & _ & H). destruct o; [lia|done].
Qed.

Lemma damage_inv_mono c1 c2 ids d : c1 <= c2 -> damage_inv c1 ids d -> damage_inv c2 ids d.
Proof.
  intros Hc Hd target cs Hcs. destruct (Hd target cs Hcs) as [Ht Hall]. split; [done|].
  intros a c Ha. destruct (Hall a c Ha) as (? & ? & ? & ?). repeat split; (done || lia).
Qed.

Lemma match_tick_inv t k : match_inv k -> match_inv (advance_tick t k).1.
Proof.
  intros Hinv. unfold advance_tick. destruct (Z.leb_spec t (current_tick k)) as [|Hlt]; [done|].
  pose proof Hinv as [Hs He Hc Hf Hr Hd Hrev Hobj]. set (e := Z.min t (end_tick k)).
  assert (Hnow : start_tick k <= now k <= e) by (unfold e, now; m5_lia).
  assert (Hle : e <= end_tick k) by (unfold e; lia).
  set (k0 := k <| current_tick := t |>).
  destruct (advance_rows_roster (now k) e k0) as [Hr1 Hd1]; [lia|lia|m5_lia|done|].
  destruct (advance_rows e k0) as [k1 resp] eqn:E1. simpl in Hr1, Hd1.
  assert (Hk1 : k1 = k0 <| players := players k1 |>) by (unfold advance_rows in E1; by injection E1 as <- _).
  rewrite Hk1. set (ps1 := players k1) in *. clearbody ps1. clear E1 Hk1 k1.
  set (k1 := k0 <| players := ps1 |>). change (dom ps1 = dom (players k)) in Hd1. rewrite <- Hd1 in *.
  set (out := output_default <| respawned_players := resp |>).
  destruct (advance_reveals_inv k1 (now k) e out Hs He Hnow Hle Hr1 Hrev) as (ps2 & nr & rev & E2 & [Hr2 Hd2] & Hrev2).
  destruct (advance_reveals e k1 out) as [k2 out2]. simpl in E2. subst k2.
  set (k2 := with_reveal k1 ps2 nr rev).
  destruct (advance_objectives_inv k2 (now k) e out2 Hs He Hnow Hle Hobj) as (seq & no & o & E3 & Hobj3).
  destruct (advance_objectives e k2 out2) as [k3 out3]. simpl in E3. subst k3.
  set (k3 := with_objective k2 seq no o).
  pose proof (finish_if_due_eq t k3 out3) as E4. destruct (finish_if_due t k3 out3) as [k4 out4].
  simpl in E4 |- *. subst k4. change (end_tick k3) with (end_tick k). change (finished k3) with (finished k).
  change (dom ps2 = dom ps1) in Hd2.
  assert (Hd3 : damage_inv t (dom ps2) (damage k)) by (rewrite Hd2; apply (damage_inv_mono (current_tick k)); [lia|done]).
  destruct ((end_tick k <=? t) && negb (finished k)) eqn:Hfin.
  - apply andb_true_iff in Hfin as [Hfin _]. assert (He' : e = start_tick k + BOUNTY_RUN_DURATION_TICKS) by (unfold e; lia).
    change (start_tick k1) with (start_tick k) in Hrev2. change (start_tick k2) with (start_tick k) in Hobj3.
    rewrite He' in Hrev2, Hobj3.
    rewrite (reveal_inv_end _ _ _ _ Hrev2) in Hrev2. rewrite (objective_inv_end _ _ _ _ _ Hobj3) in Hobj3.
    constructor; unfold now; cbn -[Z.add Z.mul Z.min]; fold e; try done; try lia; by rewrite He'.
  - constructor; unfold now; cbn -[Z.add Z.mul Z.min]; fold e; try done; try lia.
    rewrite Hf in *. apply andb_false_iff in Hfin. destruct (Z.leb_spec (end_tick k) (current_tick k));
      destruct (Z.leb_spec (end_tick k) t); simpl in Hfin; naive_solver lia.
Qed.

(** ** New matches *)

Lemma elem_of_dedup_ids l p : p ∈ dedup_ids l <-> p ∈ l.
Proof.
  induction l as [|a l IH]; [done|]. destruct l as [|b l]; [done|].
  change (p ∈ (if decide (a = b) then dedup_ids (b :: l) else a :: dedup_ids (b :: l)) <-> p ∈ a :: b :: l).
  case_decide as H; [subst|]; set_solver.
Qed.

(** Without repeated neighbours a sorted list has no repetition. *)
Lemma dedup_ids_NoDup l : StronglySorted key_le l -> NoDup (dedup_ids l).
Proof.
  induction l as [|a l IH]; intros Hs; [apply NoDup_nil_2|]. inversion_clear Hs as [|? ? Hs' Hall].
  destruct l as [|b l]; [apply NoDup_singleton|].
  change (NoDup (if decide (a = b) then dedup_ids (b :: l) else a :: dedup_ids (b :: l))).
  case_decide as Hab; [by apply IH|]. apply NoDup_cons. split; [|by apply IH].
  rewrite elem_of_dedup_ids. intros [Heq|Hin]%elem_of_cons; [done|].
  inversion_clear Hs' as [|? ? _ Hb]. rewrite Forall_forall in Hb, Hall.
  apply Hab. apply (anti_symm key_le); [apply Hall; left|by apply Hb].
Qed.

Definition canonical_roster (roster : list PlayerId) : list PlayerId := dedup_ids (merge_sort key_le roster).

Lemma canonical_roster_NoDup roster : NoDup (canonical_roster roster).
Proof. apply dedup_ids_NoDup, StronglySorted_merge_sort; apply _. Qed.

Definition new_players (ids : list PlayerId) : gmap PlayerId BountyPlayerState :=
  list_to_map ((fun player => (player, player_new player)) <$> ids).

Lemma new_players_keys ids : ((fun player => (player, player_new player)) <$> ids).*1 = ids.
Proof. rewrite <- list_fmap_compose. apply list_fmap_id. Qed.

Lemma new_players_lookup ids p row :
  NoDup ids -> new_players ids !! p = Some row <-> p ∈ ids /\ row = player_new p.
Proof.
  intros Hnd. unfold new_players. rewrite <- elem_of_list_to_map by (by rewrite new_players_keys).
  rewrite list_elem_of_fmap. naive_solver.
Qed.

Lemma size_new_players ids : NoDup ids -> size (new_players ids) = length ids.
Proof.
  intros Hnd. unfold new_players. rewrite map_size_list_to_map by (by rewrite new_players_keys).
  apply length_fmap.
Qed.

Lemma row_inv_new t id : row_inv t id (player_new id).
Proof. unfold row_inv. simpl. split_and!; done || lia. Qed.

Lemma match_new_inv epoch seed start roster k :
  0 <= start <= u64_max - 60000 -> match_new epoch seed start roster = Ok k -> match_inv k.
Proof.
  intros Hs. unfold match_new. fold (canonical_roster roster).
  destruct (_ || _) eqn:Hguard; [done|]. intros [= <-].
  rewrite !orb_false_iff, negb_false_iff in Hguard. destruct Hguard as [[H0 _] H16].
  pose proof (canonical_roster_NoDup roster) as Hnd. fold (new_players (canonical_roster roster)).
  assert (Hend : tick_saturating_add start BOUNTY_RUN_DURATION_TICKS = start + 54000)
    by (apply tick_saturating_add_exact; m5_lia).
  assert (Hrev : tick_saturating_add start MOST_WANTED_CADENCE_TICKS = start + 3600)
    by (apply tick_saturating_add_exact; m5_lia).
  assert (Hobj : tick_saturating_add start OBJECTIVE_CADENCE_TICKS = start + 5400)
    by (apply tick_saturating_add_exact; m5_lia).
  assert (Hn : Z.min start (start + 54000) = start) by lia.
  constructor; unfold now; cbn -[Z.add Z.mul Z.min]; rewrite ?Hend, ?Hrev, ?Hobj, ?Hn; try done; try lia.
  - split; [rewrite size_new_players by done; apply Nat.eqb_neq in H0; lia|].
    intros p row Hp. apply new_players_lookup in Hp as [_ ->]; [|done]. apply row_inv_new.
  - unfold reveal_inv. rewrite Z.sub_diag. change (windows_opened MOST_WANTED_CADENCE_TICKS 0) with 0. m5_consts.
    split; [lia|by left].
  - unfold objective_inv. rewrite Z.sub_diag. change (windows_opened OBJECTIVE_CADENCE_TICKS 0) with 0. m5_consts.
    split; [done|]. split; [lia|by left].
Qed.

(** ** Runs *)

Inductive BountyEvent :=
| EvTick (tick : SimulationTick)
| EvDamage (tick : SimulationTick) (attacker target : PlayerId) (dmg : Z)
| EvElimination (tick : SimulationTick) (killer target : PlayerId) (saddle_dive : bool)
| EvHorseBolt (tick : SimulationTick) (attacker target : PlayerId)
| EvLongHit (tick : SimulationTick) (attacker : PlayerId) (distance_mm : Z)
| EvObjective (tick : SimulationTick) (player : PlayerId) (id : Z)
| EvTowerHold (tick : SimulationTick) (player : PlayerId) (id total_hold_ticks : Z).

(** The state after an event, accepted or refused. *)
Definition bounty_apply (k : BountyMatchKernel) (e : BountyEvent) : BountyMatchKernel :=
  match e with
  | EvTick t => (advance_tick t k).1
  | EvDamage t a b n => (record_damage t a b n k).1
  | EvElimination t a b sd => (record_elimination t a b sd k).1
  | EvHorseBolt t a b => (record_horse_bolt t a b k).1
  | EvLongHit t a d => (record_mounted_long_hit t a d k).1
  | EvObjective t p id => (complete_objective t p id k).1
  | EvTowerHold t p id h => (record_signal_tower_hold t p id h k).1
  end.

Definition bounty_run (k : BountyMatchKernel) (es : list BountyEvent) : BountyMatchKernel :=
  foldl bounty_apply k es.

(** Damage amounts are unsigned. *)
Definition event_ok (e : BountyEvent) : Prop :=
  match e with EvDamage _ _ _ n => in_uint 16 n | _ => True end.

Lemma bounty_apply_inv k e : event_ok e -> match_inv k -> match_inv (bounty_apply k e).
Proof.
  destruct e; simpl; intros He Hinv;
    [by apply match_tick_inv|apply record_damage_inv; [unfold in_uint in He; lia|done]
    |by apply record_elimination_inv|by apply record_horse_bolt_inv|by apply record_mounted_long_hit_inv
    |by apply complete_objective_inv|by apply record_signal_tower_hold_inv].
Qed.

Lemma bounty_run_inv k es : Forall event_ok es -> match_inv k -> match_inv (bounty_run k es).
Proof.
  intros Hes. revert k. induction Hes as [|e es He Hes IH]; intros k Hinv; [done|]. apply IH.
  by apply bounty_apply_inv.
Qed.

(** A match in progress: a new match after any events. *)
Definition reachable (k : BountyMatchKernel) : Prop :=
  exists epoch seed start roster k0 es,
    0 <= start <= u64_max - 60000 /\ match_new epoch seed start roster = Ok k0 /\
    Forall event_ok es /\ k = bounty_run k0 es.

Lemma reachable_inv k : reachable k -> match_inv k.
Proof.
  intros (epoch & seed & start & roster & k0 & es & Hs & Hnew & Hes & ->).
  apply bounty_run_inv; [done|]. by eapply match_new_inv.
Qed.

(** ** What the invariant means outside *)

(** Every total within the bound a checkpoint may carry. *)
Definition totals_ok (k : BountyMatchKernel) : bool :=
  forallb (fun row => total_score row <=? MAX_BOUNTY_SCORE) (btree_values (players k)).

(** No buff has expired by the raw clock. *)
Definition buffs_live (k : BountyMatchKernel) : bool :=
  forallb (fun row => is_none_or (respawn_speed_buff_end_tick row) (fun b => current_tick k <? b)
                      && is_none_or (horse_buff_end_tick row) (fun b => current_tick k <? b))
    (btree_values (players k)).

Lemma existsb_negb_forallb {A} (f : A -> bool) l : existsb f l = negb (forallb (fun x => negb (f x)) l).
Proof. induction l as [|a l IH]; simpl; [done|]. rewrite IH. by destruct (f a). Qed.

Lemma forallb_ext_in {A} (f g : A -> bool) l : (forall x, x ∈ l -> f x = g x) -> forallb f l = forallb g l.
Proof. induction l as [|a l IH]; intros H; simpl; [done|]. rewrite H, IH by set_solver. done. Qed.

Lemma forallb_andb {A} (f g : A -> bool) l : forallb (fun x => f x && g x) l = forallb f l && forallb g l.
Proof. induction l as [|a l IH]; simpl; [done|]. rewrite IH. by destruct (f a), (g a), (forallb f l). Qed.

(** The row checks, on a row of a valid roster. *)
Lemma row_rejected_inv t id fin tick row :
  row_inv t id row -> (fin = true \/ tick = t) ->
  negb (row_rejected fin tick row)
  = (total_score row <=? MAX_BOUNTY_SCORE)
    && (is_none_or (respawn_speed_buff_end_tick row) (fun b => tick <? b)
        && is_none_or (horse_buff_end_tick row) (fun b => tick <? b)).
Proof.
  intros (_ & Hs & Hr & _ & Ha & Hresp & _ & _) Hfin. unfold row_rejected.
  rewrite Hs, Z.eqb_refl, Ha.
  replace (LONG_HIT_BONUS_CAP <? mounted_long_hit_bonus row) with false by m5_lia.
  replace (Bool.eqb (is_none (respawn_at_tick row)) (is_some (respawn_at_tick row))) with false
    by (by destruct (respawn_at_tick row)).
  replace (is_some_and (respawn_at_tick row) (fun r => negb fin && (r <=? tick))) with false.
  2:{ destruct (respawn_at_tick row) as [r|]; [|done]. specialize (Hresp r eq_refl). simpl.
      destruct Hfin as [-> | ->]; [done|]. symmetry. apply andb_false_iff. right. lia. }
  rewrite Z.leb_antisym. cbn [orb]. rewrite !orb_false_r.
  destruct (MAX_BOUNTY_SCORE <? total_score row); [done|]. cbn [negb orb andb].
  destruct (respawn_speed_buff_end_tick row), (horse_buff_end_tick row); simpl; rewrite ?negb_orb, ?Z.leb_antisym, ?negb_involutive; done.
Qed.

Lemma rows_accepted k fin tick :
  match_inv k -> (fin = true \/ tick = now k) ->
  negb (existsb (row_rejected fin tick) (btree_values (players k)))
  = totals_ok k && forallb (fun row => is_none_or (respawn_speed_buff_end_tick row) (fun b => tick <? b)
                                       && is_none_or (horse_buff_end_tick row) (fun b => tick <? b))
                     (btree_values (players k)).
Proof.
  intros Hinv Hfin. rewrite existsb_negb_forallb, negb_involutive. unfold totals_ok. rewrite <- forallb_andb.
  apply forallb_ext_in. intros row [id Hid]%elem_of_btree_values.
  destruct (inv_roster k Hinv) as [_ Hrows]. by apply (row_rejected_inv (now k) id fin tick row (Hrows id row Hid)).
Qed.

(** By the effective tick the invariant keeps every buff live. *)
Lemma buffs_live_now k :
  match_inv k ->
  forallb (fun row => is_none_or (respawn_speed_buff_end_tick row) (fun b => now k <? b)
                      && is_none_or (horse_buff_end_tick row) (fun b => now k <? b))
    (btree_values (players k)) = true.
Proof.
  intros Hinv. apply btree_values_forallb. intros id row Hid.
  destruct (inv_roster k Hinv) as [_ Hrows]. destruct (Hrows id row Hid) as (_ & _ & _ & _ & _ & _ & H1 & H2).
  apply andb_true_iff. rewrite !is_none_or_true. split; intros b Hb; [specialize (H1 b Hb)|specialize (H2 b Hb)]; lia.
Qed.

Lemma unsorted_rows_sorted k : match_inv k -> unsorted_rows (btree_values (players k)) = false.
Proof.
  intros Hinv. pose proof (btree_keys_sorted (players k)) as Hs.
  assert (Hids : forall e, e ∈ btree_list (players k) -> player_id e.2 = e.1).
  { intros [id row] He%elem_of_btree_list. destruct (inv_roster k Hinv) as [_ Hrows].
    destruct (Hrows id row He) as [Heq _]. exact Heq. }
  unfold btree_keys, btree_values in *. generalize dependent (btree_list (players k)).
  induction l as [|[a ra] l IH]; intros Hs Hids; [done|]. inversion_clear Hs as [|? ? Hs' Hall].
  destruct l as [|[b rb] l]; [done|]. simpl. apply orb_false_iff. split.
  - apply negb_false_iff, key_ltb_lt. pose proof (Hids (a, ra) ltac:(left)) as Ha.
    pose proof (Hids (b, rb) ltac:(right; left)) as Hb. simpl in Ha, Hb. rewrite Ha, Hb.
    inversion_clear Hall. done.
  - apply IH; [done|]. intros e He. apply Hids. by right.
Qed.

(** *** The schedule *)

(** C35. At every point of a match the Most Wanted and objective schedules are
    functions of the clock alone, however the ticks were batched: the match is
    finished from tick 54000 on; window [i] of a schedule opens [i] cadences after
    the start, none in the last one; a reveal is on show exactly during the 600 ticks
    of its window, an objective during 3600, numbered by its window and of the kind
    the seed assigns it; the progress on an objective never exceeds three payments. *)
Theorem bounty_timeline k :
  reachable k ->
  let t := now k in
  let i := windows_opened MOST_WANTED_CADENCE_TICKS (t - start_tick k) in
  let j := windows_opened OBJECTIVE_CADENCE_TICKS (t - start_tick k) in
  finished k = (start_tick k + 54000 <=? current_tick k) /\
  is_some (active_reveal k) = (1 <=? i) && (t <? start_tick k + i * 3600 + 600) /\
  (forall r, active_reveal k = Some r ->
     reveal_started_tick r = start_tick k + i * 3600 /\ is_Some (players k !! reveal_player_id r)) /\
  is_some (active_objective k) = (1 <=? j) && (t <? start_tick k + j * 5400 + 3600) /\
  (forall o, active_objective k = Some o ->
     objective_id o = j /\ kind o = from_index (wrapping_add 64 (lobby_seed k) (j - 1)) /\
     objective_started_tick o = start_tick k + j * 5400 /\ 0 <= signal_paid_intervals o <= 3).
Proof.
  intros Hk t i j. destruct (reachable_inv k Hk) as [Hs He _ Hf _ _ Hrev Hobj].
  unfold reveal_inv in Hrev. unfold objective_inv in Hobj. m5_consts. fold t i in Hrev. fold t j in Hobj.
  split; [rewrite Hf, He; done|]. destruct Hrev as [_ Hrev]. destruct Hobj as (_ & _ & Hobj).
  split; [destruct (active_reveal k); simpl; lia|]. split.
  { intros r Hr. rewrite Hr in Hrev. destruct_and! Hrev. split; [done|]. by apply elem_of_dom. }
  split; [destruct (active_objective k); simpl; lia|].
  intros o Ho. rewrite Ho in Hobj. by destruct_and! Hobj.
Qed.

(** *** The public snapshot *)

Lemma contains_player_true k p :
  match_inv k -> p ∈ dom (players k) ->
  existsb (fun row => bool_decide (player_id row = p)) (btree_values (players k)) = true.
Proof.
  intros Hinv [row Hrow]%elem_of_dom. apply existsb_exists. exists row.
  split; [apply list_elem_of_In, elem_of_btree_values; by exists p|].
  destruct (inv_roster k Hinv) as [_ Hrows]. destruct (Hrows p row Hrow) as [-> _]. by apply bool_decide_eq_true.
Qed.

Lemma snapshot_reveal_accepted k r :
  match_inv k -> active_reveal k = Some r ->
  finished k = false /\ reveal_end_tick r = tick_saturating_add (reveal_started_tick r) MOST_WANTED_REVEAL_TICKS /\
  now k < reveal_end_tick r /\ reveal_player_id r ∈ dom (players k).
Proof.
  intros Hinv Hr. pose proof Hinv as [Hs He _ Hf _ _ Hrev _]. rewrite Hr in Hrev.
  assert (Hfin : finished k = false).
  { apply not_true_iff_false. rewrite Hf, Z.leb_le. intros Hle.
    assert (Hnow : now k = start_tick k + BOUNTY_RUN_DURATION_TICKS) by (unfold now; lia).
    rewrite Hnow in Hrev. by apply reveal_inv_end in Hrev. }
  destruct Hrev as (_ & Hi & Hdom & Hstart & Hend & Hlt).
  rewrite Hstart, Hend. split; [done|]. split; [|split; [lia|done]].
  assert (now k <= start_tick k + 54000) by (unfold now; m5_lia).
  rewrite tick_saturating_add_exact; [done|]. m5_consts. unfold windows_opened. m5_consts.
  change ((54000 - 1) / 3600) with 14. int_lia.
Qed.

Lemma snapshot_objective_accepted k o :
  match_inv k -> active_objective k = Some o ->
  finished k = false /\ 0 < objective_id o /\
  objective_end_tick o = tick_saturating_add (objective_started_tick o) OBJECTIVE_LIFETIME_TICKS /\
  now k < objective_end_tick o.
Proof.
  intros Hinv Ho. pose proof Hinv as [Hs He _ Hf _ _ _ Hobj]. rewrite Ho in Hobj.
  assert (Hfin : finished k = false).
  { apply not_true_iff_false. rewrite Hf, Z.leb_le. intros Hle.
    assert (Hnow : now k = start_tick k + BOUNTY_RUN_DURATION_TICKS) by (unfold now; lia).
    rewrite Hnow in Hobj. by apply objective_inv_end in Hobj. }
  destruct Hobj as (_ & _ & Hi & Hid & _ & Hstart & Hend & _ & Hlt).
  rewrite Hstart, Hend, Hid. split; [done|]. split; [lia|]. split; [|lia].
  rewrite tick_saturating_add_exact; [done|]. m5_consts. unfold windows_opened. m5_consts.
  change ((54000 - 1) / 5400) with 9. int_lia.
Qed.

(** Every snapshot a running authority publishes passes its followers' check,
    at any time of a match, exactly as long as no rider's total exceeds the bound
    of one million. *)
Theorem snapshot_canonical k : reachable k -> is_canonical (snapshot k) = totals_ok k.
Proof.
  intros Hk. pose proof (reachable_inv k Hk) as Hinv. unfold is_canonical.
  destruct (inv_roster k Hinv) as [Hsize Hrows].
  assert (Hguard : ((length (shown_players (snapshot k)) =? 0)%nat
    || (MAX_M3_AUTHORITY_ACTORS <? Z.of_nat (length (shown_players (snapshot k))))
    || negb (Bool.eqb (shown_finished (snapshot k)) (shown_end_tick (snapshot k) <=? shown_current_tick (snapshot k)))
    || unsorted_rows (shown_players (snapshot k))) = false).
  { simpl. rewrite length_btree_values, unsorted_rows_sorted, (inv_finished k Hinv), eqb_reflx by done. simpl.
    rewrite !orb_false_r. apply orb_false_iff. split; [apply Nat.eqb_neq; lia|lia]. }
  rewrite Hguard. cbn [snapshot shown_current_tick shown_end_tick shown_finished shown_players
    shown_reveal shown_objective shown_winner shown_lobby_seed]. fold (now k).
  pose proof (rows_accepted k (finished k) (now k) Hinv (or_intror eq_refl)) as Hacc.
  rewrite buffs_live_now, andb_true_r in Hacc by done. rewrite <- Hacc.
  destruct (existsb (row_rejected _ _) _); [done|]. simpl.
  assert (Hrev : is_some_and ((fun reveal => {|
    shown_player_id := reveal_player_id reveal;
    shown_reveal_started := reveal_started_tick reveal;
    shown_reveal_end := reveal_end_tick reveal |}) <$> active_reveal k) (fun reveal =>
      finished k
      || negb (existsb (fun row => bool_decide (player_id row = shown_player_id reveal)) (btree_values (players k)))
      || negb (shown_reveal_end reveal
               =? tick_saturating_add (shown_reveal_started reveal) MOST_WANTED_REVEAL_TICKS)
      || (shown_reveal_end reveal <=? now k)) = false).
  { apply is_some_and_false. intros s (r & Hr & ->)%fmap_Some. simpl.
    destruct (snapshot_reveal_accepted k r Hinv Hr) as (-> & <- & Hlt & Hdom).
    rewrite contains_player_true, Z.eqb_refl by done. simpl. lia. }
  rewrite Hrev. simpl.
  match goal with |- (if is_some_and ?o ?f then _ else _) = _ => assert (Hobj : is_some_and o f = false) end.
  { apply is_some_and_false. intros s (o & Ho & ->)%fmap_Some. simpl.
    destruct (snapshot_objective_accepted k o Hinv Ho) as (-> & Hid & <- & Hlt).
    rewrite Z.eqb_refl, length_btree_values, bool_decide_true by done. simpl. lia. }
  rewrite Hobj. destruct (winner_rostered (now k) k ltac:(done)) as (w & Hw & _).
  unfold winner in *. destruct (board_max (btree_values (players k))) as [row|]; [|done]. simpl in *.
  destruct (finished k); [|done]. by apply bool_decide_eq_true.
Qed.

(** *** The handoff *)

Lemma damage_accepted k :
  match_inv k -> existsb (contributors_rejected k) (btree_list (damage k)) = false.
Proof.
  intros Hinv. apply not_true_iff_false. intros ((target & cs) & Hcs & Hrej)%existsb_exists.
  apply list_elem_of_In, elem_of_btree_list in Hcs.
  destruct (inv_damage k Hinv target cs Hcs) as [Htarget Hall].
  unfold contributors_rejected in Hrej. apply elem_of_dom in Htarget as [row Hrow]. rewrite Hrow in Hrej.
  simpl in Hrej. apply orb_true_iff in Hrej as [Hsize|Hrej].
  - apply Nat.ltb_lt in Hsize. assert (size cs <= size (players k))%nat; [|lia]. rewrite <- !size_dom. apply subseteq_size.
    intros a [c Hc]%elem_of_dom. destruct (Hall a c Hc) as (_ & ? & _). done.
  - apply existsb_exists in Hrej as ((a & c) & Hac & Hrej). apply list_elem_of_In, elem_of_btree_list in Hac.
    destruct (Hall a c Hac) as (Hne & [arow Harow]%elem_of_dom & Hpos & Hlast). unfold contribution_rejected in Hrej.
    rewrite Harow, bool_decide_false in Hrej by done. simpl in Hrej. lia.
Qed.

Lemma player_rows_keyed k :
  match_inv k ->
  existsb (fun '(id, row) => negb (bool_decide (id = player_id row)) || row_rejected (finished k) (current_tick k) row)
    (btree_list (players k))
  = existsb (row_rejected (finished k) (current_tick k)) (btree_values (players k)).
Proof.
  intros Hinv. unfold btree_values.
  assert (Hids : forall e, e ∈ btree_list (players k) -> player_id e.2 = e.1).
  { intros [id row] He%elem_of_btree_list. destruct (inv_roster k Hinv) as [_ Hrows].
    destruct (Hrows id row He) as [Heq _]. exact Heq. }
  induction (btree_list (players k)) as [|[id row] l IH]; [done|]. cbn [fmap list_fmap existsb snd].
  pose proof (Hids (id, row) ltac:(left)) as Heq. cbn [fst snd] in Heq.
  rewrite Heq, bool_decide_true by done. cbn [negb orb].
  f_equal. apply IH. intros e He. apply Hids. by right.
Qed.

Lemma schedules_accepted k :
  match_inv k -> (finished k = true \/ current_tick k = now k) ->
  is_some_and (active_reveal k) (fun reveal =>
    is_none (players k !! reveal_player_id reveal)
    || negb (reveal_end_tick reveal =? tick_saturating_add (reveal_started_tick reveal) MOST_WANTED_REVEAL_TICKS)
    || (reveal_end_tick reveal <=? current_tick k)) = false.
Proof.
  intros Hinv Hfin. apply is_some_and_false. intros r Er.
  destruct (snapshot_reveal_accepted k r Hinv Er) as (Hlive & <- & Hlt & [row Hrow]%elem_of_dom).
  destruct Hfin as [|Hnow]; [congruence|]. rewrite Hrow, Z.eqb_refl. simpl. lia.
Qed.

Lemma objective_schedule_accepted k :
  match_inv k -> (finished k = true \/ current_tick k = now k) ->
  is_none_or (active_objective k) (fun o =>
    (0 <? objective_id o)
    && (objective_end_tick o =? tick_saturating_add (objective_started_tick o) OBJECTIVE_LIFETIME_TICKS)
    && (signal_paid_intervals o <=? 3) && (current_tick k <? objective_end_tick o)) = true.
Proof.
  intros Hinv Hfin. apply is_none_or_true. intros o Eo.
  destruct (snapshot_objective_accepted k o Hinv Eo) as (Hlive & Hid & <- & Hlt).
  destruct Hfin as [|Hnow]; [congruence|]. rewrite Z.eqb_refl.
  pose proof (inv_objective k Hinv) as Hobj. rewrite Eo in Hobj. destruct_and! Hobj. lia.
Qed.

(** The checkpoint of any match in progress is valid while the totals are in
    bounds; after the end no buff may also have run out by the raw clock. *)
Lemma match_state_valid_eq k :
  match_inv k -> match_state_is_valid k = totals_ok k && buffs_live k.
Proof.
  intros Hinv. pose proof Hinv as [Hs He Hc Hf [Hsize _] _ _ Hobj]. unfold match_state_is_valid.
  rewrite player_rows_keyed, damage_accepted by done.
  assert (Hfin : finished k = true \/ current_tick k = now k).
  { rewrite Hf. unfold now. destruct (Z.leb_spec (end_tick k) (current_tick k)); [by left|right; lia]. }
  pose proof (rows_accepted k (finished k) (current_tick k) Hinv Hfin) as Hacc. fold (buffs_live k) in Hacc.
  rewrite <- Hacc. clear Hacc.
  replace (size (players k) =? 0)%nat with false by (symmetry; apply Nat.eqb_neq; lia).
  replace (MAX_M3_AUTHORITY_ACTORS <? Z.of_nat (size (players k))) with false by lia.
  replace (current_tick k <? start_tick k) with false by lia.
  rewrite (tick_saturating_add_exact (start_tick k)) by m5_lia. rewrite <- He, Z.eqb_refl, <- Hf, eqb_reflx.
  destruct Hobj as (Hseq & _ & _).
  assert (Hseq9 : objective_sequence k <= 9).
  { rewrite Hseq. unfold windows_opened. m5_consts. change ((54000 - 1) / 5400) with 9. lia. }
  replace (objective_sequence k =? u64_max) with false by m5_lia. cbn [negb orb].
  assert (Hgone : finished k && (is_some (active_reveal k) || is_some (active_objective k)) = false).
  { destruct (finished k) eqn:Efin; [|done]. simpl.
    destruct (active_reveal k) as [r|] eqn:Er; [by destruct (snapshot_reveal_accepted k r Hinv Er) as [? _]; congruence|].
    destruct (active_objective k) as [o|] eqn:Eo; [|done].
    by destruct (snapshot_objective_accepted k o Hinv Eo) as [? _]; congruence. }
  rewrite Hgone. cbn [orb]. rewrite orb_false_r. destruct (existsb _ _); [done|]. cbn [negb].
  rewrite (schedules_accepted k Hinv Hfin). exact (objective_schedule_accepted k Hinv Hfin).
Qed.

(** C36. A checkpoint carries the whole match to the successor authority and to
    nobody else: during a match it is restored, with only the epoch moved on, exactly
    when the next epoch is the successor and no total exceeds a million; after the
    end it is also required that no buff has run out by the raw clock. *)
Theorem match_handoff k next :
  reachable k ->
  match_restore_checkpoint (match_checkpoint k) next
  = (if (next =? match_epoch k + 1) && (next <? 2 ^ 64) && totals_ok k && (negb (finished k) || buffs_live k)
     then Ok (k <| match_epoch := next |>) else Err InvalidCheckpoint).
Proof.
  intros Hk. pose proof (reachable_inv k Hk) as Hinv.
  unfold match_restore_checkpoint, match_checkpoint. cbn [match_source_epoch match_state].
  rewrite Z.eqb_refl, match_state_valid_eq by done. cbn [negb]. rewrite orb_false_r.
  assert (Hlive : finished k = false -> buffs_live k = true).
  { intros Hf. destruct (live_now k Hinv Hf) as [Hnow _]. unfold buffs_live. rewrite <- Hnow. by apply buffs_live_now. }
  assert (Hnext : bool_decide (checked_add 64 (match_epoch k) 1 = Some next)
                  = (next =? match_epoch k + 1) && (next <? 2 ^ 64)).
  { apply eq_true_iff_eq. rewrite bool_decide_eq_true, checked_add_Some, andb_true_iff, Z.eqb_eq, Z.ltb_lt. lia. }
  rewrite Hnext. destruct ((next =? _) && _); [|done]. cbn [negb orb andb].
  destruct (totals_ok k); [|done]. destruct (finished k); [|by rewrite Hlive].
  by destruct (buffs_live k).
Qed.

(** *** The winner *)

Lemma board_key_le a b :
  key_le (board_key a) (board_key b) <->
  total_score a < total_score b \/ (total_score a = total_score b /\ key_le (player_id b) (player_id a)).
Proof.
  unfold key_le at 1, board_key. rewrite score_then_reverse_cmp.
  destruct (Z.compare_spec (total_score a) (total_score b)); unfold key_le; naive_solver lia.
Qed.

(** The winner is the rider with the highest total, and among equal totals the
    one with the lowest identity. *)
Theorem winner_spec k w :
  reachable k ->
  winner k = Some w <->
  exists row, players k !! w = Some row /\
    forall p other, players k !! p = Some other -> p <> w ->
      total_score other < total_score row \/ (total_score other = total_score row /\ key_lt w p).
Proof.
  intros Hk. pose proof (reachable_inv k Hk) as Hinv. destruct (inv_roster k Hinv) as [_ Hrows].
  assert (Hid : forall p r, players k !! p = Some r -> player_id r = p) by (intros p r Hp; apply (Hrows p r Hp)).
  destruct (winner_rostered (now k) k (inv_roster k Hinv)) as (w0 & Hw0 & _). unfold winner in *.
  destruct (board_max _) as [best|] eqn:Ebest; [|done]. simpl in *.
  apply board_max_spec in Ebest as [Hin Hmax]. apply elem_of_btree_values in Hin as [b Hb].
  assert (Hbest : forall p other, players k !! p = Some other -> p <> b ->
    total_score other < total_score best \/ (total_score other = total_score best /\ key_lt b p)).
  { intros p other Hp Hne. assert (Hle : key_le (board_key other) (board_key best))
      by (apply Hmax, elem_of_btree_values; by exists p).
    apply board_key_le in Hle as [?|[? Hle]]; [by left|right]. split; [done|].
    rewrite (Hid _ _ Hb), (Hid _ _ Hp) in Hle. apply key_le_lteq in Hle as [?|?]; congruence. }
  rewrite (Hid _ _ Hb). split.
  - intros [= <-]. by exists best.
  - intros (row & Hw & Hrow). f_equal. destruct (decide (b = w)) as [|Hne]; [done|]. exfalso.
    destruct (Hrow b best Hb Hne) as [?|[? Hlt1]], (Hbest w row Hw ltac:(done)) as [?|[? Hlt2]]; try lia.
    apply (key_lt_irrefl b). by eapply key_lt_trans.
Qed.

(** ** Respawns *)

Lemma sbind_smodify {S E A} (f : S -> S) (g : unit -> M S E A) s : sbind (smodify f) g s = g tt (f s).
Proof. reflexivity. Qed.

(** Whether a rider lives, when they are due back and how long they are fast. *)
Definition row_life (row : BountyPlayerState) : bool * option Z * option Z :=
  (alive row, respawn_at_tick row, respawn_speed_buff_end_tick row).

Definition lives (k : BountyMatchKernel) (p : PlayerId) : option (bool * option Z * option Z) :=
  row_life <$> players k !! p.

(** Steps that leave every rider's life and the clock as they are. *)
Definition keeps_lives (k k' : BountyMatchKernel) : Prop :=
  (forall p, lives k' p = lives k p) /\ current_tick k' = current_tick k /\ end_tick k' = end_tick k.

#[export] Instance keeps_lives_preorder : PreOrder keeps_lives.
Proof.
  split; [by intros k|]. intros k1 k2 k3 (H1 & Hc1 & He1) (H2 & Hc2 & He2).
  split; [intros p; by rewrite H2, H1|]. split; congruence.
Qed.

Lemma keeps_lives_players k k' :
  players k' = players k -> current_tick k' = current_tick k -> end_tick k' = end_tick k -> keeps_lives k k'.
Proof. intros H Hc He. split; [|done]. intros p. unfold lives. by rewrite H. Qed.

Lemma with_row_lives f p k : (forall row, row_life (f row) = row_life row) -> keeps_lives k (with_row f p k).
Proof.
  intros Hf. split; [|done]. intros q. unfold lives, with_row. simpl. destruct (decide (q = p)) as [-> |].
  - rewrite lookup_alter_eq. destruct (players k !! p); simpl; [by rewrite Hf|done].
  - by rewrite lookup_alter_ne.
Qed.

Lemma add_points_life c n row : row_life (add_points c n row) = row_life row.
Proof. by destruct c. Qed.

Lemma award_lives p c n k k' r : award p c n k = (k', r) -> keeps_lives k k'.
Proof. rewrite award_eq. intros [= <- _]. apply with_row_lives, add_points_life. Qed.

Lemma record_damage_lives t a b n k : keeps_lives k (record_damage t a b n k).1.
Proof.
  destruct (record_damage t a b n k) as [k' r] eqn:H. unfold record_damage in H.
  apply live_step_inv in H as [-> |(_ & _ & H)]; [done|].
  destruct (_ || _) in H; [by injection H as <- _|].
  destruct (players k !! b) as [row|]; [|by injection H as <- _].
  destruct (negb (alive row)); by injection H as <- _.
Qed.

Lemma record_horse_bolt_lives t a b k : keeps_lives k (record_horse_bolt t a b k).1.
Proof.
  destruct (record_horse_bolt t a b k) as [k' r] eqn:H. unfold record_horse_bolt in H.
  apply live_step_inv in H as [-> |(_ & _ & H)]; [done|].
  destruct (_ || _); [by injection H as <- _|]. by apply award_lives in H.
Qed.

Lemma record_mounted_long_hit_lives t a d k : keeps_lives k (record_mounted_long_hit t a d k).1.
Proof.
  destruct (record_mounted_long_hit t a d k) as [k' r] eqn:H. unfold record_mounted_long_hit in H.
  apply live_step_inv in H as [-> |(_ & _ & H)]; [done|].
  destruct (_ <=? _); [by injection H as <- _|].
  destruct (players k !! a) as [row|] eqn:Ha; [|by injection H as <- _].
  destruct (_ <=? _); [by injection H as <- _|].
  unfold alter_player in H. rewrite sbind_smodify in H.
  etrans; [|apply sbind_inv in H as [(s2 & w & H & [= <- _])|(e & H & _)]; exact (award_lives _ _ _ _ _ _ H)].
  by apply (with_row_lives
    (fun row => row <| mounted_long_hit_bonus := wrapping_add 16 (mounted_long_hit_bonus row) 10 |>) a k).
Qed.

Lemma complete_objective_lives t p id k : keeps_lives k (complete_objective t p id k).1.
Proof.
  destruct (complete_objective t p id k) as [k' r] eqn:H. unfold complete_objective in H.
  apply live_step_inv in H as [-> |(_ & -> & H)]; [done|].
  destruct (is_none _); [by injection H as <- _|].
  destruct (active_objective k) as [o|]; [|by injection H as <- _].
  destruct (_ || _); [by injection H as <- _|].
  rewrite sbind_smodify in H. set (k1 := k <| active_objective := _ |>) in *. etrans; [by apply (keeps_lives_players k k1)|].
  destruct (bool_decide _); unfold alter_player in H; [rewrite sbind_smodify in H|];
    (etrans; [|exact (award_lives _ _ _ _ _ _ H)]); [|done].
  by apply (with_row_lives (fun row => row <| horse_buff_end_tick :=
                      Some (tick_saturating_add (current_tick k) HORSE_STATION_BUFF_TICKS) |>) p k1).
Qed.

Lemma record_signal_tower_hold_lives t p id h k : keeps_lives k (record_signal_tower_hold t p id h k).1.
Proof.
  destruct (record_signal_tower_hold t p id h k) as [k' r] eqn:H. unfold record_signal_tower_hold in H.
  apply live_step_inv in H as [-> |(_ & _ & H)]; [done|].
  destruct (is_none _); [by injection H as <- _|].
  destruct (active_objective k) as [o|]; [|by injection H as <- _].
  destruct (_ || _); [by injection H as <- _|].
  destruct (completed o || _); [by injection H as <- _|].
  destruct (Z.min _ 3 <=? _); [by injection H as <- _|].
  rewrite sbind_smodify in H. set (k1 := k <| active_objective := _ |>) in *. etrans; [by apply (keeps_lives_players k k1)|].
  apply sbind_inv in H as [(s2 & w & H & [= <- _])|(e & H & _)]; exact (award_lives _ _ _ _ _ _ H).
Qed.

Lemma close_reveal_lives t k out : keeps_lives k (close_reveal t k out).1.
Proof.
  unfold close_reveal. destruct (active_reveal k) as [r|]; [|done].
  destruct (_ <=? _); [|done]. set (k1 := k <| active_reveal := None |>).
  etrans; [by apply (keeps_lives_players k k1)|]. destruct (negb (eliminated r)); [|done].
  destruct (award _ _ _ k1) as [k2 w] eqn:E. exact (award_lives _ _ _ _ _ _ E).
Qed.

Lemma reveal_iteration_lives k out : keeps_lives k (reveal_iteration k out).1.
Proof.
  unfold reveal_iteration. pose proof (close_reveal_lives (next_reveal_tick k) k out) as Hc.
  destruct (close_reveal _ k out) as [k1 o1]. simpl in Hc. etrans; [exact Hc|].
  by destruct (winner k1).
Qed.

Lemma advance_reveals_lives t k out : end_tick k <= u64_max -> keeps_lives k (advance_reveals t k out).1.
Proof.
  intros He. unfold advance_reveals.
  destruct (reveal_loop_complete (keeps_lives k) t k out He) as [H _]; [|done|].
  { intros k1 o1 Hk1 _ _. etrans; [exact Hk1|apply reveal_iteration_lives]. }
  destruct (reveal_loop _ t k out) as [k1 o1]. etrans; [exact H|apply close_reveal_lives].
Qed.

Lemma advance_objectives_lives t k out : end_tick k <= u64_max -> keeps_lives k (advance_objectives t k out).1.
Proof.
  intros He. unfold advance_objectives. pose proof (close_objective_eq t k out) as Hc.
  destruct (close_objective t k out) as [k1 out1]. simpl in Hc. subst k1.
  set (k1 := with_objective k _ _ _).
  destruct (objective_loop_complete (keeps_lives k) t k1 out1 He) as [H _].
  { intros k2 o2 Hk2 _ _. etrans; [exact Hk2|].
    unfold objective_iteration, close_objective. by destruct (is_some_and _ _). }
  { by apply keeps_lives_players. }
  destruct (objective_loop _ t k1 out1) as [k2 o2]. etrans; [exact H|].
  rewrite close_objective_eq. by apply keeps_lives_players.
Qed.

(** A tick changes lives as [row_advance] does. *)
Lemma advance_tick_lives t k :
  end_tick k <= u64_max -> current_tick k < t ->
  (forall p, lives (bounty_apply k (EvTick t)) p
             = (fun row => row_life (row_advance (Z.min t (end_tick k)) row).1) <$> players k !! p) /\
  current_tick (bounty_apply k (EvTick t)) = t /\ end_tick (bounty_apply k (EvTick t)) = end_tick k.
Proof.
  intros He Ht. cbn [bounty_apply]. unfold advance_tick. destruct (Z.leb_spec t (current_tick k)); [lia|].
  set (e := Z.min t (end_tick k)). set (k0 := k <| current_tick := t |>).
  destruct (advance_rows e k0) as [k1 resp] eqn:E1.
  assert (Hk1 : current_tick k1 = t /\ end_tick k1 = end_tick k /\
    forall p, lives k1 p = (fun row => row_life (row_advance e row).1) <$> players k !! p).
  { unfold advance_rows in E1. injection E1 as <- _. split; [done|]. split; [done|]. intros p. unfold lives. simpl.
    rewrite lookup_fmap. by destruct (players k !! p). }
  destruct Hk1 as (Hcur & Hend & Hlives). set (out := output_default <| respawned_players := resp |>).
  pose proof (advance_reveals_lives e k1 out ltac:(lia)) as H2.
  destruct (advance_reveals e k1 out) as [k2 o2]. cbn [fst] in H2.
  pose proof (advance_objectives_lives e k2 o2 ltac:(destruct H2 as (_ & _ & ->); lia)) as H3.
  destruct (advance_objectives e k2 o2) as [k3 o3]. cbn [fst] in H3.
  pose proof (finish_if_due_eq t k3 o3) as H4. destruct (finish_if_due t k3 o3) as [k4 o4]. simpl in *.
  assert (H34 : keeps_lives k3 k4) by (rewrite H4; by destruct (_ && _)).
  destruct (transitivity (transitivity H2 H3) H34) as (Hl & Hc & Hee). simpl in *.
  split; [intros p; by rewrite Hl, Hlives|]. split; congruence.
Qed.

(** A dead rider cannot be eliminated again. *)
Lemma record_elimination_lives t a b sd k p r :
  match_inv k -> lives k p = Some (false, r, None) ->
  lives (record_elimination t a b sd k).1 p = Some (false, r, None).
Proof.
  intros Hinv Hp. destruct (elimination_allowed k t a b) eqn:Hok.
  2:{ by destruct (elimination_rejected k t a b sd Hok) as [e ->]. }
  destruct (elimination_accepted k t a b sd Hinv Hok) as (aw & -> & _). simpl.
  unfold lives, elimination_result. rewrite upd_rows_lookup.
  change (players (_ <| damage := _ |>)) with (players (mark_reveal_eliminated (is_most_wanted k t b) k)).
  rewrite mark_reveal_players. unfold lives in Hp. rewrite <- Hp.
  destruct (players k !! p) as [row|] eqn:Erow; [|done]. simpl. f_equal.
  unfold elimination_row. injection Hp as Hdead _ _. case_decide as Hpb.
  { subst p. unfold elimination_allowed in Hok. rewrite Erow in Hok. simpl in Hok. by rewrite Hdead, andb_false_r in Hok. }
  case_decide; [by destruct sd, (is_most_wanted k t b)|]. by destruct (assisted _ _ _ _).
Qed.

Lemma row_advance_pending e row r :
  row_life row = (false, Some r, None) ->
  row_life (row_advance e row).1
  = if e <? r then (false, Some r, None)
    else (true, None, if e <? tick_saturating_add r RESPAWN_SPEED_BUFF_TICKS
                      then Some (tick_saturating_add r RESPAWN_SPEED_BUFF_TICKS) else None).
Proof.
  destruct row as [id sc el asst de al resp buff horse bonus]. unfold row_life. simpl. intros [= -> -> ->].
  unfold row_advance. cbn [respawn_at_tick alive negb andb]. rewrite (Z.ltb_antisym r e).
  set (buff := tick_saturating_add r RESPAWN_SPEED_BUFF_TICKS). clearbody buff.
  destruct (Z.leb_spec r e); simpl; [|destruct horse as [b|]; simpl; [by destruct (b <=? e)|done]].
  destruct (Z.ltb_spec e buff); simpl.
  - destruct (Z.leb_spec buff e); [lia|]. destruct horse as [b|]; simpl; [by destruct (b <=? e)|done].
  - destruct horse as [b|]; simpl; [by destruct (b <=? e)|done].
Qed.

Lemma pending_apply k e p r :
  match_inv k -> lives k p = Some (false, Some r, None) -> now (bounty_apply k e) < r ->
  lives (bounty_apply k e) p = Some (false, Some r, None).
Proof.
  intros Hinv Hp Hr. pose proof (inv_start k Hinv) as Hs. pose proof (inv_end k Hinv) as He.
  assert (Hkeep : forall k', keeps_lives k k' -> lives k' p = Some (false, Some r, None)) by (intros k' [-> _]; done).
  destruct e; simpl;
    [|apply Hkeep, record_damage_lives|by apply record_elimination_lives|apply Hkeep, record_horse_bolt_lives
     |apply Hkeep, record_mounted_long_hit_lives|apply Hkeep, complete_objective_lives
     |apply Hkeep, record_signal_tower_hold_lives].
  destruct (Z.le_gt_cases tick (current_tick k)) as [Hle|Hlt].
  { unfold advance_tick. by destruct (Z.leb_spec tick (current_tick k)); [|lia]. }
  destruct (advance_tick_lives tick k ltac:(m5_lia) ltac:(lia)) as (Hl & Hc & Hee).
  unfold now in Hr. rewrite Hc, Hee in Hr. cbn [bounty_apply] in Hl. rewrite Hl.
  unfold lives in Hp. destruct (players k !! p) as [row|]; [|done]. injection Hp as Hp. cbn [fmap option_fmap option_map].
  f_equal. rewrite (row_advance_pending _ _ r) by (unfold row_life; congruence).
  by destruct (Z.ltb_spec (Z.min tick (end_tick k)) r); [|lia].
Qed.

Lemma bounty_apply_clock k e :
  match_inv k -> end_tick (bounty_apply k e) = end_tick k /\ current_tick k <= current_tick (bounty_apply k e).
Proof.
  intros Hinv. pose proof (inv_start k Hinv) as Hs. pose proof (inv_end k Hinv) as He.
  assert (Hkeep : forall k', keeps_lives k k' -> end_tick k' = end_tick k /\ current_tick k <= current_tick k')
    by (intros k' (_ & -> & ->); lia).
  destruct e; simpl;
    [|apply Hkeep, record_damage_lives| |apply Hkeep, record_horse_bolt_lives
     |apply Hkeep, record_mounted_long_hit_lives|apply Hkeep, complete_objective_lives
     |apply Hkeep, record_signal_tower_hold_lives].
  - destruct (Z.le_gt_cases tick (current_tick k)) as [Hle|Hlt].
    { unfold advance_tick. by destruct (Z.leb_spec tick (current_tick k)); [|lia]. }
    destruct (advance_tick_lives tick k ltac:(m5_lia) ltac:(lia)) as (_ & Hc & Hee).
    cbn [bounty_apply] in *. lia.
  - destruct (elimination_allowed k tick killer target) eqn:Hok.
    + destruct (elimination_accepted k tick killer target saddle_dive Hinv Hok) as (aw & -> & _). simpl.
      destruct (is_most_wanted k tick target); simpl; lia.
    + destruct (elimination_rejected k tick killer target saddle_dive Hok) as [e ->]. simpl. lia.
Qed.

Lemma pending_run k es p r :
  match_inv k -> Forall event_ok es -> lives k p = Some (false, Some r, None) -> now (bounty_run k es) < r ->
  lives (bounty_run k es) p = Some (false, Some r, None) /\ now k <= now (bounty_run k es).
Proof.
  intros Hinv Hes. revert k Hinv. induction Hes as [|e es He Hes IH]; intros k Hinv Hp Hr; [simpl in *; split; [done|lia]|].
  change (bounty_run k (e :: es)) with (bounty_run (bounty_apply k e) es) in *.
  pose proof (bounty_apply_inv k e He Hinv) as Hinv'.
  destruct (bounty_apply_clock k e Hinv) as [Hend Hcur].
  assert (Hmono : forall k, match_inv k -> now k <= now (bounty_run k es)).
  { clear -Hes. induction Hes as [|e es He Hes IH]; intros k Hinv; [simpl; lia|].
    change (bounty_run k (e :: es)) with (bounty_run (bounty_apply k e) es).
    etrans; [|apply IH; by apply bounty_apply_inv].
    destruct (bounty_apply_clock k e Hinv) as [Hend Hcur]. unfold now. lia. }
  pose proof (Hmono _ Hinv').
  destruct (IH (bounty_apply k e) Hinv') as [Hl Hn]; [|done|split; [done|]].
  - apply pending_apply; [done|done|lia].
  - unfold now in *. lia.
Qed.

(** A rider eliminated at tick [T] stays dead, whatever else happens, until the
    clock reaches [T + 300]; the first tick that reaches it, before the match ends,
    brings them back to life with the speed buff running until [T + 900] (none left
    when that tick is already past it). *)
Theorem respawn_exact k T killer target saddle_dive es t :
  reachable k -> elimination_allowed k T killer target = true -> Forall event_ok es ->
  let k' := bounty_run (record_elimination T killer target saddle_dive k).1 es in
  now k' < T + 300 ->
  lives k' target = Some (false, Some (T + 300), None) /\
  (T + 300 <= Z.min t (end_tick k') ->
   lives (bounty_apply k' (EvTick t)) target
   = Some (true, None, if Z.min t (end_tick k') <? T + 900 then Some (T + 900) else None)).
Proof.
  intros Hk Hok Hes k' Hnow. pose proof (reachable_inv k Hk) as Hinv.
  assert (HT : 0 <= T < start_tick k + 54000).
  { unfold elimination_allowed in Hok. rewrite !andb_true_iff, negb_true_iff in Hok. destruct_and! Hok.
    destruct (live_now k Hinv) as [_ Hend]; [done|]. pose proof (inv_end k Hinv). pose proof (inv_start k Hinv).
    pose proof (inv_clock k Hinv). m5_lia. }
  pose proof (inv_start k Hinv) as Hs.
  assert (Hdead : lives (record_elimination T killer target saddle_dive k).1 target
                  = Some (false, Some (T + 300), None)).
  { destruct (elimination_accepted k T killer target saddle_dive Hinv Hok) as (aw & -> & _). simpl.
    unfold lives, elimination_result. rewrite upd_rows_lookup.
    change (players (_ <| damage := _ |>)) with (players (mark_reveal_eliminated (is_most_wanted k T target) k)).
    rewrite mark_reveal_players. unfold elimination_allowed in Hok. rewrite !andb_true_iff in Hok.
    destruct Hok as [_ Htarget]. destruct (players k !! target) as [row|]; [|done]. simpl.
    unfold elimination_row. rewrite decide_True by done. unfold row_life. simpl.
    rewrite tick_saturating_add_exact by m5_lia. done. }
  pose proof (record_elimination_inv T killer target saddle_dive k Hinv) as Hinv1.
  destruct (pending_run _ es target (T + 300) Hinv1 Hes Hdead Hnow) as [Hp _]. fold k' in Hp.
  split; [done|]. intros Ht. pose proof (bounty_run_inv _ es Hes Hinv1) as Hinv2. fold k' in Hinv2.
  pose proof (inv_start k' Hinv2). pose proof (inv_end k' Hinv2).
  assert (Hcur : current_tick k' < t) by (unfold now in Hnow; lia).
  destruct (advance_tick_lives t k' ltac:(m5_lia) Hcur) as (Hl & _ & _). rewrite Hl.
  unfold lives in Hp. destruct (players k' !! target) as [row|]; [|done]. injection Hp as Hp. cbn [fmap option_fmap option_map].
  f_equal. rewrite (row_advance_pending _ _ (T + 300)) by (unfold row_life; congruence).
  rewrite (tick_saturating_add_exact (T + 300)) by m5_lia. m5_consts.
  destruct (Z.ltb_spec (Z.min t (end_tick k')) (T + 300)); [lia|]. by replace (T + 300 + 600) with (T + 900) by lia.
Qed.

(** ** A concrete match *)

Definition rider (n : Z) : PlayerId := mkProtocolId (be_bytes 16 n).
Definition three_riders : list PlayerId := [rider 3; rider 1; rider 2].
Definition demo_start : BountyMatchKernel :=
  match match_new 4 9 1000 three_riders with
  | Ok k => k
  | Err _ => mkBountyMatchKernel 0 0 0 0 0 ∅ ∅ 0 None 0 None 0 false
  end.

(** Rider 2 hurts rider 3 and rider 1 finishes them; then the clock reaches the
    first reveal and the first objective. *)
Definition demo_fight : list BountyEvent := [EvTick 1010; EvDamage 1010 (rider 2) (rider 3) 40].
Definition demo_mid : BountyMatchKernel := bounty_run demo_start demo_fight.
Definition demo_late : BountyMatchKernel :=
  bounty_run demo_mid [EvElimination 1010 (rider 1) (rider 3) true; EvTick 4700; EvTick 6500].

Lemma demo_reachable es : Forall event_ok es -> reachable (bounty_run demo_start es).
Proof.
  intros Hes. exists 4, 9, 1000, three_riders, demo_start, es.
  split; [vm_compute; split; congruence|]. split; [by vm_compute|]. done.
Qed.

Lemma demo_mid_reachable : reachable demo_mid.
Proof. apply demo_reachable. repeat constructor; by vm_compute. Qed.

Lemma demo_late_reachable : reachable demo_late.
Proof.
  change demo_late with (bounty_run demo_start (demo_fight ++ [EvElimination 1010 (rider 1) (rider 3) true; EvTick 4700; EvTick 6500])).
  apply demo_reachable. repeat constructor; by vm_compute.
Qed.

Lemma elimination_effects_witness :
  exists awards,
    record_elimination 1010 (rider 1) (rider 3) true demo_mid
    = (elimination_result demo_mid 1010 (rider 1) (rider 3) true, Ok awards) /\
    payout <$> awards = [(rider 1, Elimination, 100); (rider 1, SaddleDiveBonus, 25); (rider 2, Assist, 50)].
Proof.
  pose proof (elimination_effects demo_mid 1010 (rider 1) (rider 3) true (reachable_inv _ demo_mid_reachable)) as H.
  replace (elimination_allowed demo_mid 1010 (rider 1) (rider 3)) with true in H by (by vm_compute).
  replace (elimination_payouts demo_mid 1010 (rider 1) (rider 3) true)
    with [(rider 1, Elimination, 100); (rider 1, SaddleDiveBonus, 25); (rider 2, Assist, 50)] in H by (by vm_compute).
  exact H.
Defined.

Lemma bounty_timeline_witness :
  now demo_late = 6500 /\ is_some (active_reveal demo_late) = false /\ is_some (active_objective demo_late) = true.
Proof.
  destruct (bounty_timeline demo_late demo_late_reachable) as (_ & Hr & _ & Ho & _).
  split; [by vm_compute|]. rewrite Hr, Ho. split; by vm_compute.
Defined.

Lemma snapshot_canonical_witness : is_canonical (snapshot demo_late) = true.
Proof. rewrite (snapshot_canonical demo_late demo_late_reachable). by vm_compute. Defined.

Lemma match_handoff_witness :
  match_restore_checkpoint (match_checkpoint demo_late) 5 = Ok (demo_late <| match_epoch := 5 |>) /\
  match_restore_checkpoint (match_checkpoint demo_late) 6 = Err InvalidCheckpoint.
Proof.
  split.
  - rewrite (match_handoff demo_late 5 demo_late_reachable). by vm_compute.
  - rewrite (match_handoff demo_late 6 demo_late_reachable). by vm_compute.
Defined.

Lemma winner_spec_witness :
  exists row, players demo_late !! rider 1 = Some row /\
    forall p other, players demo_late !! p = Some other -> p <> rider 1 ->
      total_score other < total_score row \/ (total_score other = total_score row /\ key_lt (rider 1) p).
Proof. apply (winner_spec demo_late (rider 1) demo_late_reachable). by vm_compute. Defined.

Lemma respawn_exact_witness :
  lives (bounty_apply demo_mid (EvElimination 1010 (rider 1) (rider 3) false)) (rider 3)
  = Some (false, Some 1310, None) /\
  lives (bounty_run demo_mid [EvElimination 1010 (rider 1) (rider 3) false; EvTick 1309; EvTick 1310]) (rider 3)
  = Some (true, None, Some 1910).
Proof.
  split.
  - apply (respawn_exact demo_mid 1010 (rider 1) (rider 3) false [] 1310 demo_mid_reachable);
      [by vm_compute|constructor|by vm_compute].
  - destruct (respawn_exact demo_mid 1010 (rider 1) (rider 3) false [EvTick 1309] 1310 demo_mid_reachable) as [_ H];
      [by vm_compute|repeat constructor|by vm_compute|].
    specialize (H ltac:(vm_compute; congruence)). etrans; [exact H|]. by vm_compute.
Defined.

(** ** Two behaviours the comments do not describe *)

(** The damage of an assist accumulates over the whole life of the target: 29 points
    dealt 150 seconds earlier still count when one more point is recent. *)
Lemma stale_damage_counts_for_assist :
  let k := bounty_run demo_start
             [EvTick 1010; EvDamage 1010 (rider 2) (rider 3) 29;
              EvTick 10010; EvDamage 10010 (rider 2) (rider 3) 1] in
  elimination_payouts k 10010 (rider 1) (rider 3) false = [(rider 1, Elimination, 100); (rider 2, Assist, 50)] /\
  elimination_allowed k 10010 (rider 1) (rider 3) = true.
Proof. split; by vm_compute. Qed.

(** After the end, a checkpoint whose rider still carries a respawn buff is refused
    once the raw clock has passed that buff, though the same state is canonical. *)
Lemma finished_checkpoint_refused :
  let k := bounty_run demo_start
             [EvTick 54600; EvElimination 54600 (rider 1) (rider 3) false; EvTick 54900; EvTick 56000] in
  finished k = true /\ is_canonical (snapshot k) = true /\
  match_restore_checkpoint (match_checkpoint k) 5 = Err InvalidCheckpoint.
Proof. split_and!; by vm_compute. Qed.
