(* ===== verification/LiveState.v ===== *)
(** * What live peers send each other ([spurfire-net/src/v2.rs], [spurfire-net/src/lib.rs])

    The records of the live wire: inputs, actor snapshots and their deltas, the public
    state of a match, and the checkpoint of a whole match, each with its check. *)

From S2P Require Import Prelude MachineInt Ordered Clock Bytes Identifiers WireVersion Stance Wire Spur Combat M3 HorseVitality Recall OnFoot.
From S2P Require Import ActorGameplay AuthorityBank Aim WeaponKernel ShotLedger CombatAuthority M3Combat BountyPlacement Bounty PeerSession.
From stdpp Require Import gmap.
Open Scope Z_scope.

(** ** Inputs *)

Definition M3_INPUT_JUMP_PRESSED : Z := Z.shiftl 1 0.
Definition M3_INPUT_INTERACT_PRESSED : Z := Z.shiftl 1 1.
Definition M3_INPUT_SPRINT_PRESSED : Z := Z.shiftl 1 2.
Definition M3_INPUT_CROUCH_PRESSED : Z := Z.shiftl 1 3.
Definition M3_INPUT_RELOAD_PRESSED : Z := Z.shiftl 1 4.
Definition M3_INPUT_ADS_PRESSED : Z := Z.shiftl 1 5.
Definition M3_INPUT_SPUR_PRESSED : Z := Z.shiftl 1 6.
(** [!(..)] on [u16]. *)
Definition M3_INPUT_RESERVED_MASK : Z :=
  Z.lxor u16_max
    (Z.lor (Z.lor (Z.lor (Z.lor (Z.lor (Z.lor M3_INPUT_JUMP_PRESSED M3_INPUT_INTERACT_PRESSED) M3_INPUT_SPRINT_PRESSED)
       M3_INPUT_CROUCH_PRESSED) M3_INPUT_RELOAD_PRESSED) M3_INPUT_ADS_PRESSED) M3_INPUT_SPUR_PRESSED).

Record M3ActorLoadout := mkM3ActorLoadout {
  loadout_horse : HorseVitalityClass;
  loadout_weapon : WeaponId;
}.

Record M3ActorInput := mkM3ActorInput {
  throttle_milli : Z;
  steer_milli : Z;
  move_x_milli : Z;
  move_z_milli : Z;
  buttons : Z;
}.

Definition input_is_canonical (self : M3ActorInput) : bool :=
  let bounded value := (-1000 <=? value) && (value <=? 1000) in
  let x := move_x_milli self in
  let z := move_z_milli self in
  bounded (throttle_milli self)
  && bounded (steer_milli self)
  && bounded (move_x_milli self)
  && bounded (move_z_milli self)
  && (x * x + z * z <=? 1000000)
  && (Z.land (buttons self) M3_INPUT_RESERVED_MASK =? 0).

(** ** Actor snapshots *)

Record M3HorseSnapshot := mkM3HorseSnapshot {
  snap_entity_id : EntityId;
  snap_class : HorseVitalityClass;
  snap_state : HorseVitalityState;
  snap_position_mm : Triple;
  snap_velocity_mmps : Triple;
  snap_yaw_millidegrees : Z;
  snap_health : Z;
  snap_bolt_away : QuantizedDirection;
}.
#[export] Instance M3HorseSnapshot_eq_dec : EqDecision M3HorseSnapshot.
Proof. solve_decision. Defined.

Definition horse_is_canonical (self : M3HorseSnapshot) : bool :=
  (snap_health self <=? max_health (snap_class self))
  && is_normalized (snap_bolt_away self)
  && (Z.abs (dir_y (snap_bolt_away self)) <=? DIRECTION_UNITS / 100)
  && match snap_state self with
     | Available => 0 <? snap_health self
     | Bolting | Despawned => snap_health self =? 0
     end.

Record M3ActorSnapshot := mkM3ActorSnapshot {
  snap_rider : PlayerId;
  snap_rider_position : Triple;
  snap_rider_velocity : Triple;
  snap_rider_yaw : Z;
  snap_stance : M3ActorStance;
  snap_rider_health : Z;
  snap_stamina_ticks : Z;
  snap_horse : M3HorseSnapshot;
  snap_recall_state : RecallState;
  snap_recall_ready : option SimulationTick;
  snap_spur_meter : Z;
  snap_charge_started : option SimulationTick;
  snap_charge_end : option SimulationTick;
}.
#[export] Instance M3ActorStance_eq_dec : EqDecision M3ActorStance.
Proof. solve_decision. Defined.
#[export] Instance M3ActorSnapshot_eq_dec : EqDecision M3ActorSnapshot.
Proof. solve_decision. Defined.

Definition snapshot_is_canonical (self : M3ActorSnapshot) : bool :=
  if (snap_rider_health self >? 100)
     || (snap_stamina_ticks self >? ON_FOOT_STAMINA_TICKS)
     || (snap_spur_meter self >? SPUR_METER_MAX)
     || negb (horse_is_canonical (snap_horse self))
     || negb (match snap_charge_started self, snap_charge_end self with
              | None, None => true
              | Some start, Some end_ => end_ =? tick_saturating_add start MAJESTIC_CHARGE_TICKS
              | _, _ => false
              end)
  then false
  else
    match snap_recall_state self with
    | HorsePresent =>
        match snap_state (snap_horse self) with Available | Bolting => true | Despawned => false end
        && is_none (snap_recall_ready self)
    | CoolingDown | Ready | Hoofbeats | DustReveal | GallopIn | MountWindow | WaitingMount =>
        bool_decide (snap_state (snap_horse self) = Despawned) && is_some (snap_recall_ready self)
    end.

(** ** Deltas *)

Record M3ActorSnapshotDelta := mkM3ActorSnapshotDelta {
  delta_rider : PlayerId;
  base_tick : Z;
  delta_rider_position : option Triple;
  delta_rider_velocity : option Triple;
  delta_rider_yaw : option Z;
  delta_stance : option M3ActorStance;
  delta_rider_health : option Z;
  delta_stamina_ticks : option Z;
  delta_entity_id : option EntityId;
  delta_class : option HorseVitalityClass;
  delta_state : option HorseVitalityState;
  delta_position : option Triple;
  delta_velocity : option Triple;
  delta_yaw : option Z;
  delta_health : option Z;
  delta_bolt_away : option QuantizedDirection;
  delta_recall_state : option RecallState;
  recall_ready_changed : bool;
  delta_recall_ready : option SimulationTick;
  delta_spur_meter : option Z;
  charge_started_changed : bool;
  delta_charge_started : option SimulationTick;
  charge_end_changed : bool;
  delta_charge_end : option SimulationTick;
}.

(** [changed(base == current).then_some(current)], and for optional fields
    [(base != current).then_some(current).flatten()]. *)
Definition changed_to {A} `{EqDecision A} (base current : A) : option A :=
  if decide (base = current) then None else Some current.
Definition flattened {A} `{EqDecision A} (base current : option A) : option A :=
  if decide (base = current) then None else current.

Definition delta_between (base_tick : Z) (base current : M3ActorSnapshot) : M3ActorSnapshotDelta :=
  let h := snap_horse base in
  let k := snap_horse current in
  {| delta_rider := snap_rider current;
     base_tick := base_tick;
     delta_rider_position := changed_to (snap_rider_position base) (snap_rider_position current);
     delta_rider_velocity := changed_to (snap_rider_velocity base) (snap_rider_velocity current);
     delta_rider_yaw := changed_to (snap_rider_yaw base) (snap_rider_yaw current);
     delta_stance := changed_to (snap_stance base) (snap_stance current);
     delta_rider_health := changed_to (snap_rider_health base) (snap_rider_health current);
     delta_stamina_ticks := changed_to (snap_stamina_ticks base) (snap_stamina_ticks current);
     delta_entity_id := changed_to (snap_entity_id h) (snap_entity_id k);
     delta_class := changed_to (snap_class h) (snap_class k);
     delta_state := changed_to (snap_state h) (snap_state k);
     delta_position := changed_to (snap_position_mm h) (snap_position_mm k);
     delta_velocity := changed_to (snap_velocity_mmps h) (snap_velocity_mmps k);
     delta_yaw := changed_to (snap_yaw_millidegrees h) (snap_yaw_millidegrees k);
     delta_health := changed_to (snap_health h) (snap_health k);
     delta_bolt_away := changed_to (snap_bolt_away h) (snap_bolt_away k);
     delta_recall_state := changed_to (snap_recall_state base) (snap_recall_state current);
     recall_ready_changed := bool_decide (snap_recall_ready base <> snap_recall_ready current);
     delta_recall_ready := flattened (snap_recall_ready base) (snap_recall_ready current);
     delta_spur_meter := changed_to (snap_spur_meter base) (snap_spur_meter current);
     charge_started_changed := bool_decide (snap_charge_started base <> snap_charge_started current);
     delta_charge_started := flattened (snap_charge_started base) (snap_charge_started current);
     charge_end_changed := bool_decide (snap_charge_end base <> snap_charge_end current);
     delta_charge_end := flattened (snap_charge_end base) (snap_charge_end current) |}.

Definition patched (self : M3ActorSnapshotDelta) (base : M3ActorSnapshot) : M3ActorSnapshot :=
  let h := snap_horse base in
  {| snap_rider := snap_rider base;
     snap_rider_position := default (snap_rider_position base) (delta_rider_position self);
     snap_rider_velocity := default (snap_rider_velocity base) (delta_rider_velocity self);
     snap_rider_yaw := default (snap_rider_yaw base) (delta_rider_yaw self);
     snap_stance := default (snap_stance base) (delta_stance self);
     snap_rider_health := default (snap_rider_health base) (delta_rider_health self);
     snap_stamina_ticks := default (snap_stamina_ticks base) (delta_stamina_ticks self);
     snap_horse :=
       {| snap_entity_id := default (snap_entity_id h) (delta_entity_id self);
          snap_class := default (snap_class h) (delta_class self);
          snap_state := default (snap_state h) (delta_state self);
          snap_position_mm := default (snap_position_mm h) (delta_position self);
          snap_velocity_mmps := default (snap_velocity_mmps h) (delta_velocity self);
          snap_yaw_millidegrees := default (snap_yaw_millidegrees h) (delta_yaw self);
          snap_health := default (snap_health h) (delta_health self);
          snap_bolt_away := default (snap_bolt_away h) (delta_bolt_away self) |};
     snap_recall_state := default (snap_recall_state base) (delta_recall_state self);
     snap_recall_ready := if recall_ready_changed self then delta_recall_ready self else snap_recall_ready base;
     snap_spur_meter := default (snap_spur_meter base) (delta_spur_meter self);
     snap_charge_started := if charge_started_changed self then delta_charge_started self else snap_charge_started base;
     snap_charge_end := if charge_end_changed self then delta_charge_end self else snap_charge_end base |}.

Definition delta_apply (self : M3ActorSnapshotDelta) (base : M3ActorSnapshot) : option M3ActorSnapshot :=
  if negb (bool_decide (delta_rider self = snap_rider base))
     || (negb (recall_ready_changed self) && is_some (delta_recall_ready self))
     || (negb (charge_started_changed self) && is_some (delta_charge_started self))
     || (negb (charge_end_changed self) && is_some (delta_charge_end self))
  then None
  else
    let snapshot := patched self base in
    if snapshot_is_canonical snapshot then Some snapshot else None.

Definition delta_is_canonical (self : M3ActorSnapshotDelta) : bool :=
  (recall_ready_changed self || is_none (delta_recall_ready self))
  && (charge_started_changed self || is_none (delta_charge_started self))
  && (charge_end_changed self || is_none (delta_charge_end self))
  && is_none_or (delta_spur_meter self) (fun meter => meter <=? 100)
  && is_none_or (delta_bolt_away self) is_normalized.

(** ** The state of a match *)

Record M5ScoreRowV2 := mkM5ScoreRowV2 {
  m5_player : PlayerId;
  m5_score : Z;
  m5_eliminations : Z;
  m5_assists : Z;
  m5_deaths : Z;
  m5_alive : bool;
  m5_respawn_at : option SimulationTick;
  m5_respawn_buff_end : option SimulationTick;
  m5_horse_buff_end : option SimulationTick;
  m5_score_breakdown : option (list Z);
}.

Record M5RevealV2 := mkM5RevealV2 {
  m5_reveal_player : PlayerId;
  m5_reveal_started : SimulationTick;
  m5_reveal_end : SimulationTick;
}.

Record M5ObjectiveV2 := mkM5ObjectiveV2 {
  m5_objective_id : Z;
  m5_kind : DynamicObjectiveKind;
  m5_objective_started : SimulationTick;
  m5_objective_end : SimulationTick;
  m5_completed : bool;
  m5_x_mm : Z;
  m5_z_mm : Z;
}.

Record M5MatchStateV2 := mkM5MatchStateV2 {
  m5_epoch : Z;
  m5_lobby_seed : Z;
  m5_current_tick : SimulationTick;
  m5_end_tick : SimulationTick;
  m5_players : list M5ScoreRowV2;
  m5_reveal : option M5RevealV2;
  m5_objective : option M5ObjectiveV2;
  m5_finished : bool;
  m5_winner : option PlayerId;
}.

Definition breakdown_points (s : BountyScoreBreakdown) : list Z :=
  [elimination s; assist s; horse_bolt s; saddle_dive_bonus s; mounted_long_hit s; objective s;
   most_wanted_elimination s; most_wanted_survival s].

Definition row_of_snapshot (is_finished : bool) (row : BountyPlayerState) : M5ScoreRowV2 :=
  {| m5_player := player_id row;
     m5_score := total_score row;
     m5_eliminations := eliminations row;
     m5_assists := assists row;
     m5_deaths := deaths row;
     m5_alive := alive row;
     m5_respawn_at := respawn_at_tick row;
     m5_respawn_buff_end := respawn_speed_buff_end_tick row;
     m5_horse_buff_end := horse_buff_end_tick row;
     m5_score_breakdown := if is_finished then Some (breakdown_points (score row)) else None |}.

Definition from_snapshot (snapshot : BountyMatchSnapshot) : M5MatchStateV2 :=
  {| m5_epoch := shown_epoch snapshot;
     m5_lobby_seed := shown_lobby_seed snapshot;
     m5_current_tick := shown_current_tick snapshot;
     m5_end_tick := shown_end_tick snapshot;
     m5_players := row_of_snapshot (shown_finished snapshot) <$> shown_players snapshot;
     m5_reveal := (fun r => mkM5RevealV2 (shown_player_id r) (shown_reveal_started r) (shown_reveal_end r)) <$> shown_reveal snapshot;
     m5_objective := (fun o => mkM5ObjectiveV2 (shown_objective_id o) (shown_kind o) (shown_objective_started o)
                        (shown_objective_end o) (shown_completed o) (x_mm (world_point o)) (z_mm (world_point o)))
                     <$> shown_objective snapshot;
     m5_finished := shown_finished snapshot;
     m5_winner := shown_winner snapshot |}.

(** [windows(2)] with [rows[0].player_id >= rows[1].player_id] somewhere. *)
Fixpoint m5_unsorted (rows : list M5ScoreRowV2) : bool :=
  match rows with
  | [] => false
  | a :: rest =>
      match rest with
      | [] => false
      | b :: _ => negb (key_ltb (m5_player a) (m5_player b)) || m5_unsorted rest
      end
  end.

Definition m5_row_rejected (is_finished : bool) (effective_tick : SimulationTick) (row : M5ScoreRowV2) : bool :=
  (m5_score row >? MAX_BOUNTY_SCORE)
  || negb (Bool.eqb (is_some (m5_score_breakdown row)) is_finished)
  || is_some_and (m5_score_breakdown row) (fun breakdown =>
       negb (m5_score row =? Z.min (fold_left (saturating_add 32) breakdown 0) MAX_BOUNTY_SCORE))
  || Bool.eqb (m5_alive row) (is_some (m5_respawn_at row))
  || is_some_and (m5_respawn_at row) (fun respawn => negb is_finished && (respawn <=? effective_tick))
  || is_some_and (m5_respawn_buff_end row) (fun end_ => end_ <=? effective_tick)
  || is_some_and (m5_horse_buff_end row) (fun end_ => end_ <=? effective_tick).

Definition m5_cmp (left right : M5ScoreRowV2) : comparison :=
  match Z.compare (m5_score left) (m5_score right) with
  | Eq => key_cmp (m5_player right) (m5_player left)
  | c => c
  end.
Definition m5_max (rows : list M5ScoreRowV2) : option M5ScoreRowV2 :=
  match rows with [] => None | row :: rows => Some (max_by m5_cmp row rows) end.

Definition m5_is_canonical (self : M5MatchStateV2) : bool :=
  if (length (m5_players self) =? 0)%nat
     || (Z.of_nat (length (m5_players self)) >? MAX_M3_AUTHORITY_ACTORS)
     || negb (Bool.eqb (m5_finished self) (m5_end_tick self <=? m5_current_tick self))
     || m5_unsorted (m5_players self)
  then false
  else
    let effective_tick := Z.min (m5_current_tick self) (m5_end_tick self) in
    if existsb (m5_row_rejected (m5_finished self) effective_tick) (m5_players self) then false
    else
      let contains_player player := existsb (fun row => bool_decide (m5_player row = player)) (m5_players self) in
      if is_some_and (m5_reveal self) (fun reveal =>
           m5_finished self
           || negb (contains_player (m5_reveal_player reveal))
           || negb (m5_reveal_end reveal =? tick_saturating_add (m5_reveal_started reveal) MOST_WANTED_REVEAL_TICKS)
           || (m5_reveal_end reveal <=? effective_tick))
         || is_some_and (m5_objective self) (fun o =>
           m5_finished self
           || (m5_objective_id o =? 0)
           || negb (m5_objective_end o =? tick_saturating_add (m5_objective_started o) OBJECTIVE_LIFETIME_TICKS)
           || (m5_objective_end o <=? effective_tick)
           || negb (bool_decide (mkBountyWorldPoint (m5_x_mm o) (m5_z_mm o)
                = bounty_objective_world_point (m5_lobby_seed self) (m5_objective_id o)
                    (roster_count (length (m5_players self))))))
      then false
      else
        match m5_finished self, m5_winner self, m5_max (m5_players self) with
        | false, None, Some _ => true
        | true, Some winner, Some expected => bool_decide (winner = m5_player expected)
        | _, _, _ => false
        end.

(** ** The checkpoint of a whole match *)

Record M3MatchCheckpointV2 := mkM3MatchCheckpointV2 {
  m3_wire_version : WireVersion;
  m3_combat : MatchCheckpoint;
  m3_gameplay : M3AuthorityCheckpointV2;
  m3_reloads : list M3ReloadCheckpointV2;
  m3_next_horse_damage_sequence : Z;
  m3_bounty : BountyMatchCheckpointV2;
}.

(** The closure of the [all] over the zipped rows. *)
Definition checkpoint_row_ok (tick : SimulationTick) (rider : RiderCheckpoint) (actor : M3AuthorityActorCheckpoint)
    (reload : M3ReloadCheckpointV2) (bounty : BountyPlayerState) : bool :=
  let weapon := match weapon_try_from_i64 (ck_weapon_id rider) with Ok w => Some w | Err _ => None end in
  bool_decide (ck_rider_player_id rider = rider_player_id actor)
  && bool_decide (player_id bounty = ck_rider_player_id rider)
  && bool_decide (reload_rider reload = ck_rider_player_id rider)
  && bool_decide (reload_current_tick reload = Some tick)
  && is_none_or (reload_row reload) (fun state =>
       bool_decide (weapon = Some (reload_weapon state))
       && (active_ticks state <? required_ticks state)
       && (required_ticks state =? reload_ticks (weapon_stats (reload_weapon state)) M3_TICK_RATE_HZ)
       && (ck_ammo_magazine rider <? magazine_capacity (weapon_stats (reload_weapon state)))
       && (ck_ammo_reserve rider >? 0))
  && match mode (checkpoint_actor (actor_checkpoint actor)) with
     | ModeMounted =>
         match ck_stance rider with
         | Mounted | MountedAirborne | SaddleDiveAirborne | LandingProne | LandingRecovery => true
         | _ => false
         end
     | ModeSpookStunned | ModeOnFoot | ModeReturningHorse => bool_decide (ck_stance rider = OnFootStanding)
     end.

(** [zip] and [all]: rows past the shorter sequence are not looked at. *)
Fixpoint checkpoint_rows_ok (tick : SimulationTick) (riders : list RiderCheckpoint) (actors : list M3AuthorityActorCheckpoint)
    (reloads : list M3ReloadCheckpointV2) (bounty : list BountyPlayerState) : bool :=
  match riders, actors, reloads, bounty with
  | rider :: riders, actor :: actors, reload :: reloads, row :: bounty =>
      checkpoint_row_ok tick rider actor reload row && checkpoint_rows_ok tick riders actors reloads bounty
  | _, _, _, _ => true
  end.

Definition m3_checkpoint_is_canonical (self : M3MatchCheckpointV2) : bool :=
  let kernel := match_state (m3_bounty self) in
  let actors := checkpoint_actors (m3_gameplay self) in
  let tick := checkpoint_tick (m3_combat self) in
  if negb (bool_decide (m3_wire_version self = M3_WIRE_VERSION))
     || negb (bool_decide (bank_wire_version (m3_gameplay self) = M3_WIRE_VERSION))
     || negb (source_epoch (m3_combat self) =? source_authority_epoch (m3_gameplay self))
     || negb (source_epoch (m3_combat self) =? match_source_epoch (m3_bounty self))
     || negb (match_epoch kernel =? source_epoch (m3_combat self))
     || negb (current_tick kernel =? tick)
     || negb (match_state_is_valid kernel)
     || (m3_next_horse_damage_sequence self =? 0)
     || negb (is_bounded_and_canonical (m3_combat self))
     || (length actors =? 0)%nat
     || negb (length actors =? length (riders (m3_combat self)))%nat
     || negb (length (m3_reloads self) =? length (riders (m3_combat self)))%nat
     || existsb (fun row => negb (bool_decide (actor_current_tick (checkpoint_actor (actor_checkpoint row)) = Some tick))) actors
  then false
  else checkpoint_rows_ok tick (riders (m3_combat self)) actors (m3_reloads self) (btree_values (players kernel)).
