(* ===== verification/LiveStateRun.v ===== *)
(** * What the live records guarantee

    Deltas rebuild the snapshot they were taken from; the state of a match that an
    authority publishes passes the check of its receivers. *)

From S2P Require Import Prelude MachineInt Ordered Clock Bytes Identifiers WireVersion Stance Wire Spur Combat M3 HorseVitality Recall OnFoot.
From S2P Require Import ActorGameplay AuthorityBank Aim WeaponKernel ShotLedger CombatAuthority M3Combat BountyPlacement Bounty BountyRun.
From S2P Require Import PeerSession LiveState.
From stdpp Require Import gmap.
Open Scope Z_scope.

(** ** Deltas *)

Lemma changed_to_default {A} `{EqDecision A} (base current : A) : default base (changed_to base current) = current.
Proof. unfold changed_to. by destruct (decide (base = current)). Qed.

Lemma flattened_changed {A} `{EqDecision A} (base current : option A) :
  (if bool_decide (base <> current) then flattened base current else base) = current.
Proof.
  unfold flattened. destruct (decide (base = current)) as [->|Hne].
  - by rewrite bool_decide_false by auto.
  - by rewrite bool_decide_true.
Qed.

Lemma flattened_flag {A} `{EqDecision A} (base current : option A) :
  bool_decide (base <> current) || is_none (flattened base current) = true.
Proof.
  unfold flattened. destruct (decide (base = current)); [by rewrite orb_true_r|by rewrite bool_decide_true].
Qed.

Lemma patched_between t base current :
  snap_rider base = snap_rider current -> patched (delta_between t base current) base = current.
Proof.
  intros Hr. unfold patched, delta_between. simpl.
  rewrite !changed_to_default, !flattened_changed, Hr. by destruct current as [? ? ? ? ? ? ? []].
Qed.

Lemma delta_apply_spec d base s :
  delta_apply d base = Some s <->
  delta_rider d = snap_rider base /\
  recall_ready_changed d || is_none (delta_recall_ready d) = true /\
  charge_started_changed d || is_none (delta_charge_started d) = true /\
  charge_end_changed d || is_none (delta_charge_end d) = true /\
  s = patched d base /\ snapshot_is_canonical s = true.
Proof.
  unfold delta_apply.
  assert (Hflag : forall (flag : bool) (o : option SimulationTick), negb flag && is_some o = negb (flag || is_none o))
    by (by intros [] []).
  rewrite !Hflag. destruct (bool_decide_reflect (delta_rider d = snap_rider base)); [|split; [done|by intros []]].
  destruct (recall_ready_changed d || _); [|split; [done|by intros (_ & ? & _)]].
  destruct (charge_started_changed d || _); [|split; [done|by intros (_ & _ & ? & _)]].
  destruct (charge_end_changed d || _); [|split; [done|by intros (_ & _ & _ & ? & _)]]. cbn [negb orb].
  destruct (snapshot_is_canonical (patched d base)) eqn:Hc; split.
  - by intros [= <-].
  - by intros (_ & _ & _ & _ & -> & _).
  - done.
  - intros (_ & _ & _ & _ & -> & Hs). by rewrite Hc in Hs.
Qed.

Lemma snapshot_canonical_parts s :
  snapshot_is_canonical s = true -> snap_spur_meter s <= 100 /\ is_normalized (snap_bolt_away (snap_horse s)) = true.
Proof.
  unfold snapshot_is_canonical. destruct (_ || _) eqn:Hg; [done|]. intros _. btrue.
  split; [unfold SPUR_METER_MAX in *; lia|]. unfold horse_is_canonical in *. by btrue.
Qed.

(** A field of [s] is the one a delta names, or the one of the base. *)
Definition moved {A} (change : option A) (base s : A) : Prop := s = default base change.
Definition moved_if {A} (changed : bool) (change base s : A) : Prop := s = if changed then change else base.
Definition moves_only (d : M3ActorSnapshotDelta) (base s : M3ActorSnapshot) : Prop :=
  snap_rider s = snap_rider base /\
  moved (delta_rider_position d) (snap_rider_position base) (snap_rider_position s) /\
  moved (delta_rider_velocity d) (snap_rider_velocity base) (snap_rider_velocity s) /\
  moved (delta_rider_yaw d) (snap_rider_yaw base) (snap_rider_yaw s) /\
  moved (delta_stance d) (snap_stance base) (snap_stance s) /\
  moved (delta_rider_health d) (snap_rider_health base) (snap_rider_health s) /\
  moved (delta_stamina_ticks d) (snap_stamina_ticks base) (snap_stamina_ticks s) /\
  moved (delta_health d) (snap_health (snap_horse base)) (snap_health (snap_horse s)) /\
  moved (delta_state d) (snap_state (snap_horse base)) (snap_state (snap_horse s)) /\
  moved (delta_position d) (snap_position_mm (snap_horse base)) (snap_position_mm (snap_horse s)) /\
  moved (delta_recall_state d) (snap_recall_state base) (snap_recall_state s) /\
  moved (delta_spur_meter d) (snap_spur_meter base) (snap_spur_meter s) /\
  moved_if (recall_ready_changed d) (delta_recall_ready d) (snap_recall_ready base) (snap_recall_ready s) /\
  moved_if (charge_started_changed d) (delta_charge_started d) (snap_charge_started base) (snap_charge_started s) /\
  moved_if (charge_end_changed d) (delta_charge_end d) (snap_charge_end base) (snap_charge_end s).

(** C25. A delta says exactly what changed. Between two snapshots of one rider, the
    newer one canonical, the delta passes the check of every receiver and, applied to
    the base, gives the newer snapshot back; and whatever delta is applied, the result
    is canonical and speaks of the same rider, so a delta can neither smuggle an
    inconsistent state past the check nor move a field it does not name. *)
Theorem delta_roundtrip t base current d s :
  (snap_rider base = snap_rider current -> snapshot_is_canonical current = true ->
     delta_is_canonical (delta_between t base current) = true /\
     delta_apply (delta_between t base current) base = Some current) /\
  (delta_apply d base = Some s ->
     snapshot_is_canonical s = true /\ moves_only d base s).
Proof.
  split.
  - intros Hr Hc. split.
    + unfold delta_is_canonical, delta_between. simpl. rewrite !flattened_flag. simpl.
      apply snapshot_canonical_parts in Hc as [Hm Hn]. unfold changed_to. apply andb_true_iff. split.
      * destruct (decide _); simpl; [done|]. by apply Z.leb_le.
      * by destruct (decide _).
    + apply delta_apply_spec. rewrite patched_between by done. simpl. rewrite !flattened_flag. by split_and!.
  - intros Ha. apply delta_apply_spec in Ha as (_ & _ & _ & _ & -> & Hc). split; [done|]. by repeat split.
Qed.

(** ** Published match states *)

Definition row_typed (row : BountyPlayerState) : Prop := in_uint 32 (elimination (score row)).

Lemma breakdown_total row : row_typed row -> fold_left (saturating_add 32) (breakdown_points (score row)) 0 = total_score row.
Proof.
  unfold row_typed, total_score. generalize (score row). intros s He. unfold breakdown_points, score_total. simpl.
  replace (saturating_add 32 0 (elimination s)) with (elimination s); [done|].
  unfold saturating_add, in_uint in *. lia.
Qed.

Lemma row_of_snapshot_rejected fin t tick id row :
  row_inv t id row -> row_typed row ->
  m5_row_rejected fin tick (row_of_snapshot fin row) = row_rejected fin tick row.
Proof.
  intros (_ & Hl & Hb & _) Ht. unfold m5_row_rejected, row_rejected.
  cbn [row_of_snapshot m5_score m5_score_breakdown m5_alive m5_respawn_at m5_respawn_buff_end m5_horse_buff_end].
  rewrite Z.gtb_ltb.
  destruct (Z.ltb_spec MAX_BOUNTY_SCORE (total_score row)) as [|Htot]; [done|].
  rewrite Hl, Z.eqb_refl. replace (LONG_HIT_BONUS_CAP <? mounted_long_hit_bonus row) with false by m5_lia.
  destruct fin; [|done]. cbn [is_some is_some_and negb Bool.eqb orb]. rewrite breakdown_total by done.
  replace (Z.min (total_score row) MAX_BOUNTY_SCORE) with (total_score row) by lia. by rewrite Z.eqb_refl.
Qed.

Lemma m5_unsorted_map fin rows : m5_unsorted (row_of_snapshot fin <$> rows) = unsorted_rows rows.
Proof.
  induction rows as [|a rows IH]; [done|]. destruct rows as [|b rows]; [done|].
  change (m5_unsorted (row_of_snapshot fin <$> a :: b :: rows))
    with (negb (key_ltb (player_id a) (player_id b)) || m5_unsorted (row_of_snapshot fin <$> b :: rows)).
  by rewrite IH.
Qed.

Lemma max_by_map {A B} (f : A -> B) (cmp : B -> B -> comparison) (cmp' : A -> A -> comparison) rows : forall a,
  (forall x y, cmp (f x) (f y) = cmp' x y) -> max_by cmp (f a) (f <$> rows) = f (max_by cmp' a rows).
Proof.
  intros a Hc. unfold max_by. revert a. induction rows as [|b rows IH]; intros a; [done|]. simpl. rewrite Hc.
  destruct (cmp' a b); apply IH.
Qed.

Lemma m5_cmp_row fin x y : m5_cmp (row_of_snapshot fin x) (row_of_snapshot fin y) = board_cmp x y.
Proof. unfold m5_cmp, board_cmp. reflexivity. Qed.

Lemma m5_max_map fin rows : m5_max (row_of_snapshot fin <$> rows) = row_of_snapshot fin <$> board_max rows.
Proof. destruct rows as [|a rows]; [done|]. simpl. f_equal. apply max_by_map, m5_cmp_row. Qed.

Lemma existsb_map {A B} (f : A -> B) (test : B -> bool) l : existsb test (f <$> l) = existsb (fun a => test (f a)) l.
Proof. induction l as [|a l IH]; [done|]. rewrite fmap_cons. cbn [existsb]. by rewrite IH. Qed.

Lemma existsb_in_ext {A} (f g : A -> bool) l : (forall x, x ∈ l -> f x = g x) -> existsb f l = existsb g l.
Proof. induction l as [|a l IH]; intros H; cbn [existsb]; [done|]. rewrite H, IH by set_solver. done. Qed.

Lemma m5_check_agrees s t :
  Forall (fun row => exists id, row_inv t id row) (shown_players s) -> Forall row_typed (shown_players s) ->
  m5_is_canonical (from_snapshot s) = Bounty.is_canonical s.
Proof.
  intros Hinv Htyped. unfold m5_is_canonical, Bounty.is_canonical. destruct s as [ep seed cur fin_t rows rev obj fin win].
  cbn [from_snapshot m5_players m5_current_tick m5_end_tick m5_finished m5_winner m5_lobby_seed m5_reveal m5_objective
    shown_players shown_current_tick shown_end_tick shown_finished shown_winner shown_lobby_seed shown_reveal shown_objective] in *.
  rewrite length_fmap, m5_unsorted_map, m5_max_map, Z.gtb_ltb.
  destruct (_ || unsorted_rows rows); [done|].
  assert (Hrows : existsb (m5_row_rejected fin (Z.min cur fin_t)) (row_of_snapshot fin <$> rows)
    = existsb (row_rejected fin (Z.min cur fin_t)) rows).
  { rewrite existsb_map. apply existsb_in_ext. intros row Hin. rewrite Forall_forall in Hinv, Htyped.
    destruct (Hinv row Hin) as [id Hid]. by eapply row_of_snapshot_rejected; [exact Hid|apply Htyped]. }
  rewrite Hrows. destruct (existsb _ rows); [done|].
  assert (Hcontains : forall p, existsb (fun row => bool_decide (m5_player row = p)) (row_of_snapshot fin <$> rows)
    = existsb (fun row => bool_decide (player_id row = p)) rows) by (intros p; apply existsb_map).
  destruct rev as [r|], obj as [[? ? ? ? ? [? ?]]|]; simpl; rewrite ?Hcontains;
    repeat match goal with |- context [if ?b then false else _] => destruct b; [done|] end; by destruct (board_max rows).
Qed.

(** What an authority publishes, its followers accept. At any time of a match,
    whatever events came before, the compact state made from the public snapshot passes
    the check of the wire exactly as long as no total exceeds a million points; the
    breakdown of the final rows adds up to their totals. *)
Theorem published_state_accepted k :
  reachable k -> map_Forall (fun _ => row_typed) (players k) ->
  m5_is_canonical (from_snapshot (snapshot k)) = totals_ok k /\
  (finished k = true -> Forall (fun row => exists b, m5_score_breakdown row = Some b /\ fold_left (saturating_add 32) b 0 = m5_score row)
    (m5_players (from_snapshot (snapshot k)))).
Proof.
  intros Hk Htyped. pose proof (reachable_inv k Hk) as Hinv. destruct (inv_roster k Hinv) as [_ Hrows].
  assert (Hty : Forall row_typed (shown_players (snapshot k))).
  { apply Forall_forall. intros row [id Hid]%elem_of_btree_values. by eapply Htyped. }
  split.
  - rewrite (m5_check_agrees _ (now k)); [by apply snapshot_canonical| |done].
    apply Forall_forall. intros row [id Hid]%elem_of_btree_values. exists id. by apply Hrows.
  - intros Hfin. cbn [from_snapshot m5_players]. cbn [snapshot shown_finished shown_players] in *. rewrite Hfin.
    apply Forall_fmap. eapply Forall_impl; [exact Hty|]. intros row Hrow.
    exists (breakdown_points (score row)). split; [done|]. by apply breakdown_total.
Qed.

(** ** Witnesses *)

Lemma demo_rows_typed : map_Forall (fun _ => row_typed) (players demo_mid).
Proof.
  assert (Hrows : forallb (fun row => uint_ok 32 (elimination (score row))) (btree_values (players demo_mid)) = true) by (by vm_compute).
  rewrite btree_values_forallb in Hrows. intros p row Hp. apply uint_ok_true. by apply (Hrows p).
Qed.

Lemma published_state_accepted_witness : m5_is_canonical (from_snapshot (snapshot demo_mid)) = true.
Proof.
  destruct (published_state_accepted demo_mid demo_mid_reachable demo_rows_typed) as [Hok _]. rewrite Hok. by vm_compute.
Defined.

Definition horse_at (x : Z) : M3HorseSnapshot :=
  mkM3HorseSnapshot 10 Mustang Available (mkTriple x 0 0) (mkTriple 0 0 0) 0 120 (mkQuantizedDirection 1000000 0 0).
Definition snapshot_of (who : PlayerId) (x meter : Z) : M3ActorSnapshot :=
  mkM3ActorSnapshot who (mkTriple x 0 0) (mkTriple 0 0 0) 0 ActorMounted 100 0 (horse_at x) HorsePresent None meter None None.

Lemma delta_roundtrip_witness :
  delta_apply (delta_between 60 (snapshot_of (rider 1) 0 20) (snapshot_of (rider 1) 150 35)) (snapshot_of (rider 1) 0 20) = Some (snapshot_of (rider 1) 150 35).
Proof.
  destruct (delta_roundtrip 60 (snapshot_of (rider 1) 0 20) (snapshot_of (rider 1) 150 35) (delta_between 60 (snapshot_of (rider 1) 0 20) (snapshot_of (rider 1) 150 35))
    (snapshot_of (rider 1) 150 35)) as [Hok _]. apply Hok; vm_compute; reflexivity.
Defined.
