(* ===== verification/LiveWire.v ===== *)
(** * The live wire ([spurfire-net/src/v2.rs])

    Payloads of wire 2.0, their check, the bytes a signature covers, datagrams, and the
    fragments of match states and checkpoints. JSON is [serde_json]: the interface
    [LiveJson]. *)

From S2P Require Import Prelude MachineInt Ordered Clock Bytes Identifiers WireVersion Stance Wire Session Spur Combat M3 HorseVitality Recall OnFoot.
From S2P Require Import ActorGameplay AuthorityBank Aim WeaponKernel ShotLedger CombatAuthority M3Combat BountyPlacement Bounty.
From S2P Require Import PeerSession LiveState.
From stdpp Require Import gmap.
Open Scope Z_scope.

Definition M3_CHECKPOINT_FRAGMENT_BYTES : Z := 384.
Definition MAX_M3_CHECKPOINT_FRAGMENTS : Z := 192.
Definition M5_MATCH_STATE_FRAGMENT_BYTES : Z := 384.
Definition MAX_M5_MATCH_STATE_FRAGMENTS : Z := 16.

(** ** Payloads and envelopes *)

Inductive M3PeerPayloadV2 :=
| M3Hello (hostname : list Z)
| M3Heartbeat
| M3Probe (nonce : Z) (reply : bool)
| M3Loadout (loadout : M3ActorLoadout)
| M3Input (input : M3ActorInput)
| M3Snapshot (snapshot : M3ActorSnapshot)
| M3SnapshotDelta (delta : M3ActorSnapshotDelta)
| M3ShotCommand (command : ShotCommand)
| M3ShotResult (r : ShotResult)
| M3MatchState (state : M5MatchStateV2)
| M3MatchStateFragment (state_hash : list Z) (fragment_index fragment_count : Z) (fragment : list Z)
| M3Authority (authority : PlayerId) (epoch : Z)
| M3MigrationFragment (authority : PlayerId) (epoch : Z) (state_hash : list Z) (fragment_index fragment_count : Z)
    (fragment : list Z)
| M3Leave.

Record M3EnvelopeV2 := mkM3EnvelopeV2 {
  m3_version : WireVersion;
  m3_lobby_id : LobbyId;
  m3_sender : PlayerId;
  m3_sequence : Z;
  m3_epoch : Z;
  m3_tick : Z;
  m3_payload : M3PeerPayloadV2;
  m3_session : option SessionBinding;
}.
#[export] Instance M3EnvelopeV2_settable : Settable M3EnvelopeV2 := fun e =>
  mkM3EnvelopeV2 (m3_version e) (m3_lobby_id e) (m3_sender e) (m3_sequence e) (m3_epoch e) (m3_tick e) (m3_payload e)
    (m3_session e).

(** The checks both kinds of fragment share, with their limits. *)
Definition fragment_is_valid (max_fragments max_bytes index count : Z) (fragment : list Z) : bool :=
  (count <=? max_fragments)
  && (count >? 0)
  && (index <? count)
  && negb (length fragment =? 0)%nat
  && (Z.of_nat (length fragment) <=? max_bytes).

Definition validate_payload (p : M3PeerPayloadV2) : result unit CodecError :=
  let valid :=
    match p with
    | M3Hello hostname => negb (length hostname =? 0)%nat && (Z.of_nat (length hostname) <=? 255)
    | M3Input input => input_is_canonical input
    | M3Snapshot snapshot => snapshot_is_canonical snapshot
    | M3SnapshotDelta delta => delta_is_canonical delta
    | M3MatchState state => m5_is_canonical state
    | M3MigrationFragment _ _ _ index count fragment =>
        fragment_is_valid MAX_M3_CHECKPOINT_FRAGMENTS M3_CHECKPOINT_FRAGMENT_BYTES index count fragment
    | M3MatchStateFragment _ index count fragment =>
        fragment_is_valid MAX_M5_MATCH_STATE_FRAGMENTS M5_MATCH_STATE_FRAGMENT_BYTES index count fragment
    | M3Heartbeat | M3Probe _ _ | M3Loadout _ | M3ShotCommand _ | M3ShotResult _ | M3Authority _ _ | M3Leave => true
    end in
  if valid then Ok tt else Err Malformed.

(** ** Bytes of a payload *)

Definition horse_class_code (value : HorseVitalityClass) : Z :=
  match value with Courser => 0 | Warhorse => 1 | Mustang => 2 end.
Definition horse_state_code (value : HorseVitalityState) : Z :=
  match value with Available => 0 | Bolting => 1 | Despawned => 2 end.
Definition recall_state_code (value : RecallState) : Z :=
  match value with
  | HorsePresent => 0 | CoolingDown => 1 | Ready => 2 | Hoofbeats => 3 | DustReveal => 4 | GallopIn => 5
  | MountWindow => 6 | WaitingMount => 7
  end.
Definition objective_kind_code (value : DynamicObjectiveKind) : Z :=
  match value with MovingBounty => 0 | SupplyHerd => 1 | AmmoWagon => 2 | SignalTower => 3 | HorseBuffStation => 4 end.

(** [option_tick] and the [option_number!] family. *)
Definition option_tick : option SimulationTick -> list Z := option_bytes (be_bytes 8).
Definition option_i32_array : option Triple -> list Z := option_bytes triple_bytes.
Definition option_direction : option QuantizedDirection -> list Z := option_bytes direction_bytes.
Definition option_i32 : option Z -> list Z := option_bytes (int_be_bytes 4).
Definition option_u8 : option Z -> list Z := option_bytes (be_bytes 1).
Definition option_u16 : option Z -> list Z := option_bytes (be_bytes 2).
Definition option_u32 : option Z -> list Z := option_bytes (be_bytes 4).
Definition option_u64 : option Z -> list Z := option_bytes (be_bytes 8).

Definition loadout_bytes (l : M3ActorLoadout) : list Z :=
  be_bytes 1 (horse_class_code (loadout_horse l)) ++ be_bytes 1 (weapon_as_u8 (loadout_weapon l)).

Definition input_bytes (i : M3ActorInput) : list Z :=
  int_be_bytes 2 (throttle_milli i) ++ int_be_bytes 2 (steer_milli i) ++ int_be_bytes 2 (move_x_milli i)
  ++ int_be_bytes 2 (move_z_milli i) ++ be_bytes 2 (buttons i).

Definition snapshot_bytes (s : M3ActorSnapshot) : list Z :=
  id_bytes (snap_rider s)
  ++ triple_bytes (snap_rider_position s)
  ++ triple_bytes (snap_rider_velocity s)
  ++ int_be_bytes 4 (snap_rider_yaw s)
  ++ be_bytes 1 (actor_stance_as_u8 (snap_stance s))
  ++ be_bytes 2 (snap_rider_health s)
  ++ be_bytes 4 (snap_stamina_ticks s)
  ++ be_bytes 8 (snap_entity_id (snap_horse s))
  ++ be_bytes 1 (horse_class_code (snap_class (snap_horse s)))
  ++ be_bytes 1 (horse_state_code (snap_state (snap_horse s)))
  ++ triple_bytes (snap_position_mm (snap_horse s))
  ++ triple_bytes (snap_velocity_mmps (snap_horse s))
  ++ int_be_bytes 4 (snap_yaw_millidegrees (snap_horse s))
  ++ be_bytes 2 (snap_health (snap_horse s))
  ++ direction_bytes (snap_bolt_away (snap_horse s))
  ++ be_bytes 1 (recall_state_code (snap_recall_state s))
  ++ option_tick (snap_recall_ready s)
  ++ be_bytes 1 (snap_spur_meter s)
  ++ option_tick (snap_charge_started s)
  ++ option_tick (snap_charge_end s).

Definition delta_bytes (d : M3ActorSnapshotDelta) : list Z :=
  id_bytes (delta_rider d)
  ++ be_bytes 8 (base_tick d)
  ++ option_i32_array (delta_rider_position d)
  ++ option_i32_array (delta_rider_velocity d)
  ++ option_i32 (delta_rider_yaw d)
  ++ option_u8 (actor_stance_as_u8 <$> delta_stance d)
  ++ option_u16 (delta_rider_health d)
  ++ option_u32 (delta_stamina_ticks d)
  ++ option_u64 (delta_entity_id d)
  ++ option_u8 (horse_class_code <$> delta_class d)
  ++ option_u8 (horse_state_code <$> delta_state d)
  ++ option_i32_array (delta_position d)
  ++ option_i32_array (delta_velocity d)
  ++ option_i32 (delta_yaw d)
  ++ option_u16 (delta_health d)
  ++ option_direction (delta_bolt_away d)
  ++ option_u8 (recall_state_code <$> delta_recall_state d)
  ++ bool_byte (recall_ready_changed d)
  ++ option_tick (delta_recall_ready d)
  ++ option_u8 (delta_spur_meter d)
  ++ bool_byte (charge_started_changed d)
  ++ option_tick (delta_charge_started d)
  ++ bool_byte (charge_end_changed d)
  ++ option_tick (delta_charge_end d).

(** [u16::try_from(len).unwrap_or(u16::MAX)] *)
Definition len_u16 {A} (l : list A) : Z := default u16_max (try_from_uint 16 (Z.of_nat (length l))).

Definition score_row_bytes (row : M5ScoreRowV2) : list Z :=
  id_bytes (m5_player row)
  ++ be_bytes 4 (m5_score row)
  ++ be_bytes 2 (m5_eliminations row)
  ++ be_bytes 2 (m5_assists row)
  ++ be_bytes 2 (m5_deaths row)
  ++ bool_byte (m5_alive row)
  ++ option_tick (m5_respawn_at row)
  ++ option_tick (m5_respawn_buff_end row)
  ++ option_tick (m5_horse_buff_end row)
  ++ option_bytes (fun breakdown => concat (map (be_bytes 4) breakdown)) (m5_score_breakdown row).

Definition reveal_bytes (r : M5RevealV2) : list Z :=
  id_bytes (m5_reveal_player r) ++ be_bytes 8 (m5_reveal_started r) ++ be_bytes 8 (m5_reveal_end r).

Definition objective_bytes (o : M5ObjectiveV2) : list Z :=
  be_bytes 8 (m5_objective_id o)
  ++ be_bytes 1 (objective_kind_code (m5_kind o))
  ++ be_bytes 8 (m5_objective_started o)
  ++ be_bytes 8 (m5_objective_end o)
  ++ bool_byte (m5_completed o)
  ++ int_be_bytes 4 (m5_x_mm o)
  ++ int_be_bytes 4 (m5_z_mm o).

Definition match_state_bytes (s : M5MatchStateV2) : list Z :=
  be_bytes 8 (m5_epoch s)
  ++ be_bytes 8 (m5_lobby_seed s)
  ++ be_bytes 8 (m5_current_tick s)
  ++ be_bytes 8 (m5_end_tick s)
  ++ be_bytes 2 (len_u16 (m5_players s))
  ++ concat (map score_row_bytes (m5_players s))
  ++ option_bytes reveal_bytes (m5_reveal s)
  ++ option_bytes objective_bytes (m5_objective s)
  ++ bool_byte (m5_finished s)
  ++ option_bytes id_bytes (m5_winner s).

(** A command and a result are written as wire 1.2 writes them, tag included. *)
Definition canonical_m3_payload_bytes (p : M3PeerPayloadV2) : list Z :=
  match p with
  | M3Hello hostname => 0 :: string_bytes hostname
  | M3Heartbeat => [1]
  | M3Probe nonce reply => 2 :: be_bytes 8 nonce ++ bool_byte reply
  | M3Loadout loadout => 3 :: loadout_bytes loadout
  | M3Input input => 4 :: input_bytes input
  | M3Snapshot snapshot => 5 :: snapshot_bytes snapshot
  | M3ShotCommand command => 6 :: 5 :: shot_command_bytes command
  | M3ShotResult r => 7 :: 6 :: shot_result_bytes r
  | M3Authority authority epoch => 8 :: id_bytes authority ++ be_bytes 8 epoch
  | M3MigrationFragment authority epoch state_hash index count fragment =>
      9 :: id_bytes authority ++ be_bytes 8 epoch ++ state_hash ++ be_bytes 2 index ++ be_bytes 2 count ++ fragment
  | M3SnapshotDelta delta => 12 :: delta_bytes delta
  | M3MatchStateFragment state_hash index count fragment =>
      13 :: state_hash ++ be_bytes 2 index ++ be_bytes 2 count ++ fragment
  | M3Leave => [10]
  | M3MatchState state => 11 :: match_state_bytes state
  end.

(** ** JSON, digests and datagrams *)

Class LiveJson := {
  json_m3_checkpoint : M3MatchCheckpointV2 -> list Z;
  json_m5_state : M5MatchStateV2 -> list Z;
  json_m3_envelope : M3EnvelopeV2 -> list Z;
  parse_m3_checkpoint : list Z -> option M3MatchCheckpointV2;
  parse_m5_state : list Z -> option M5MatchStateV2;
  parse_m3_version : list Z -> option WireVersion;
  parse_m3_envelope : list Z -> option M3EnvelopeV2;
}.

Section live.
Context `{Crypto} `{LiveJson}.

Definition m3_checkpoint_hash (self : M3MatchCheckpointV2) : list Z := sha2 (json_m3_checkpoint self).

Definition m3_envelope_digest (e : M3EnvelopeV2) (network session : Z) (hash : RosterHash) : list Z :=
  canonical_envelope_digest (m3_version e) (m3_lobby_id e) network session hash (m3_sender e) (m3_epoch e)
    (m3_sequence e) (m3_tick e) (canonical_m3_payload_bytes (m3_payload e)).

Definition signing_digest (e : M3EnvelopeV2) : option (list Z) :=
  (fun session => m3_envelope_digest e (binding_network_generation session) (binding_session_generation session)
                    (binding_roster_hash session)) <$> m3_session e.

Definition encode_m3 (e : M3EnvelopeV2) : result (list Z) CodecError :=
  if negb (bool_decide (m3_version e = M3_WIRE_VERSION)) then Err IncompatibleVersion
  else
    match validate_payload (m3_payload e) with
    | Err error => Err error
    | Ok _ =>
        let encoded := json_m3_envelope e in
        if Z.of_nat (length encoded) >? MAX_DATAGRAM_BYTES then Err TooLarge else Ok encoded
    end.

Definition decode_m3 (bytes : list Z) : result M3EnvelopeV2 CodecError :=
  if Z.of_nat (length bytes) >? MAX_DATAGRAM_BYTES then Err TooLarge
  else
    match parse_m3_version bytes with
    | None => Err Malformed
    | Some version =>
        if negb (bool_decide (version = M3_WIRE_VERSION)) then Err IncompatibleVersion
        else
          match parse_m3_envelope bytes with
          | None => Err Malformed
          | Some e => match validate_payload (m3_payload e) with Err error => Err error | Ok _ => Ok e end
          end
    end.

(** ** Fragments *)

(** [slice::chunks] *)
Fixpoint chunks (fuel : nat) (n : nat) (l : list Z) : list (list Z) :=
  match fuel, l with
  | S fuel, _ :: _ => take n l :: chunks fuel n (drop n l)
  | _, _ => []
  end.
Definition chunks_of (n : Z) (l : list Z) : list (list Z) := chunks (length l) (Z.to_nat n) l.

(** The count both kinds of fragmentation compute and bound. *)
Definition fragment_count_of (bytes : list Z) (size max : Z) : option Z :=
  let count := div_ceil (Z.of_nat (length bytes)) size in
  if (count =? 0) || (count >? max) then None else try_from_uint 16 count.

Definition fragment_m5_match_state (state : M5MatchStateV2) : result (list M3PeerPayloadV2) CodecError :=
  if negb (m5_is_canonical state) then Err Malformed
  else
    let bytes := json_m5_state state in
    match fragment_count_of bytes M5_MATCH_STATE_FRAGMENT_BYTES MAX_M5_MATCH_STATE_FRAGMENTS with
    | None => Err Malformed
    | Some count =>
        let state_hash := sha2 bytes in
        Ok (imap (fun index chunk => M3MatchStateFragment state_hash (Z.of_nat index) count chunk)
              (chunks_of M5_MATCH_STATE_FRAGMENT_BYTES bytes))
    end.

(** [Option::replace] and the comparison with what it returns. *)
Definition disagrees {A} `{EqDecision A} (o : option A) (value : A) : bool :=
  is_some_and o (fun previous => negb (bool_decide (previous = value))).

(** What a loop over fragments has gathered. *)
Record Gathered := mkGathered {
  g_hash : option (list Z);
  g_count : option Z;
  g_ordered : gmap Z (list Z);
}.
Definition gathered_none : Gathered := mkGathered None None ∅.

Definition gather_one (g : Gathered) (hash : list Z) (index count : Z) (fragment : list Z) : option Gathered :=
  if disagrees (g_hash g) hash || disagrees (g_count g) count || is_some (g_ordered g !! index) then None
  else Some (mkGathered (Some hash) (Some count) (<[index := fragment]> (g_ordered g))).

Fixpoint gather_match_state (g : Gathered) (fragments : list M3PeerPayloadV2) : result Gathered CodecError :=
  match fragments with
  | [] => Ok g
  | p :: rest =>
      match validate_payload p with
      | Err e => Err e
      | Ok _ =>
          match p with
          | M3MatchStateFragment hash index count fragment =>
              match gather_one g hash index count fragment with
              | None => Err Malformed
              | Some g => gather_match_state g rest
              end
          | _ => Err Malformed
          end
      end
  end.

(** The bytes of a complete set: as many as announced, numbered from zero. *)
Definition assembled_bytes (g : Gathered) (n : nat) : option (list Z) :=
  match g_count g with
  | None => None
  | Some count =>
      if negb (count =? Z.of_nat n) || negb (bool_decide (btree_keys (g_ordered g) = seqZ 0 count)) then None
      else Some (concat (btree_values (g_ordered g)))
  end.

Definition reassemble_m5_match_state (fragments : list M3PeerPayloadV2) : result M5MatchStateV2 CodecError :=
  if (length fragments =? 0)%nat || (Z.of_nat (length fragments) >? MAX_M5_MATCH_STATE_FRAGMENTS) then Err Malformed
  else
    match gather_match_state gathered_none fragments with
    | Err e => Err e
    | Ok g =>
        match assembled_bytes g (length fragments) with
        | None => Err Malformed
        | Some bytes =>
            if negb (bool_decide (g_hash g = Some (sha2 bytes))) then Err Malformed
            else
              match parse_m5_state bytes with
              | None => Err Malformed
              | Some state => if m5_is_canonical state then Ok state else Err Malformed
              end
        end
    end.

(** The claim a checkpoint of this epoch and roster can support. *)
Definition checkpoint_supports (authority : PlayerId) (epoch : Z) (checkpoint : M3MatchCheckpointV2) : bool :=
  bool_decide (checked_add 64 (source_epoch (m3_combat checkpoint)) 1 = Some epoch)
  && m3_checkpoint_is_canonical checkpoint
  && existsb (fun rider => bool_decide (ck_rider_player_id rider = authority)) (riders (m3_combat checkpoint)).

Definition fragment_m3_checkpoint (authority : PlayerId) (epoch : Z) (checkpoint : M3MatchCheckpointV2)
    : result (list M3PeerPayloadV2) CodecError :=
  if negb (checkpoint_supports authority epoch checkpoint) then Err Malformed
  else
    let bytes := json_m3_checkpoint checkpoint in
    match fragment_count_of bytes M3_CHECKPOINT_FRAGMENT_BYTES MAX_M3_CHECKPOINT_FRAGMENTS with
    | None => Err Malformed
    | Some count =>
        let state_hash := sha2 bytes in
        Ok (imap (fun index chunk => M3MigrationFragment authority epoch state_hash (Z.of_nat index) count chunk)
              (chunks_of M3_CHECKPOINT_FRAGMENT_BYTES bytes))
    end.

Fixpoint gather_checkpoint (who : option PlayerId) (ep : option Z) (g : Gathered) (fragments : list M3PeerPayloadV2)
    : result (option PlayerId * option Z * Gathered) CodecError :=
  match fragments with
  | [] => Ok (who, ep, g)
  | p :: rest =>
      match validate_payload p with
      | Err e => Err e
      | Ok _ =>
          match p with
          | M3MigrationFragment authority epoch hash index count fragment =>
              if disagrees who authority || disagrees ep epoch then Err Malformed
              else
                match gather_one g hash index count fragment with
                | None => Err Malformed
                | Some g => gather_checkpoint (Some authority) (Some epoch) g rest
                end
          | _ => Err Malformed
          end
      end
  end.

Definition reassemble_m3_checkpoint (fragments : list M3PeerPayloadV2)
    : result (PlayerId * Z * M3MatchCheckpointV2) CodecError :=
  if (length fragments =? 0)%nat || (Z.of_nat (length fragments) >? MAX_M3_CHECKPOINT_FRAGMENTS) then Err Malformed
  else
    match gather_checkpoint None None gathered_none fragments with
    | Err e => Err e
    | Ok (who, ep, g) =>
        match assembled_bytes g (length fragments) with
        | None => Err Malformed
        | Some bytes =>
            if negb (bool_decide (g_hash g = Some (sha2 bytes))) then Err Malformed
            else
              match parse_m3_checkpoint bytes with
              | None => Err Malformed
              | Some checkpoint =>
                  match who, ep with
                  | Some authority, Some epoch =>
                      if negb (bool_decide (g_hash g = Some (m3_checkpoint_hash checkpoint)))
                         || negb (checkpoint_supports authority epoch checkpoint)
                      then Err Malformed
                      else Ok (authority, epoch, checkpoint)
                  | _, _ => Err Malformed
                  end
              end
        end
    end.
End live.
