(* ===== verification/LiveSession.v ===== *)
(** * The live session ([M3SecureSession], [spurfire-net/src/v2.rs])

    Signing and admission on wire 2.0: snapshots and deltas, match states and
    checkpoints that arrive in fragments, and the migration order taken from the
    audited election. *)

From S2P Require Import Prelude MachineInt Ordered Clock Bytes Identifiers WireVersion Stance Wire Model Sha256 Session Election Spur Combat.
From S2P Require Import M3 HorseVitality Recall OnFoot ActorGameplay AuthorityBank Aim WeaponKernel ShotLedger CombatAuthority M3Combat.
From S2P Require Import BountyPlacement Bounty PeerSession LiveState LiveWire.
From stdpp Require Import gmap.
Open Scope Z_scope.

Definition M3_ACTOR_KEYFRAME_TICKS : Z := 30.

(** ** State *)

Record PendingMigration := mkPendingMigration {
  pm_authority : PlayerId;
  pm_epoch : Z;
  pm_hash : list Z;
  pm_count : Z;
  pm_started_ms : Z;
  pm_envelopes : gmap Z M3EnvelopeV2;
}.
#[export] Instance PendingMigration_settable : Settable PendingMigration := fun p =>
  mkPendingMigration (pm_authority p) (pm_epoch p) (pm_hash p) (pm_count p) (pm_started_ms p) (pm_envelopes p).

Record PendingMatchState := mkPendingMatchState {
  ps_sender : PlayerId;
  ps_epoch : Z;
  ps_tick : Z;
  ps_hash : list Z;
  ps_count : Z;
  ps_started_ms : Z;
  ps_replay_floor : Z;
  ps_envelopes : gmap Z M3EnvelopeV2;
}.
#[export] Instance PendingMatchState_settable : Settable PendingMatchState := fun p =>
  mkPendingMatchState (ps_sender p) (ps_epoch p) (ps_tick p) (ps_hash p) (ps_count p) (ps_started_ms p) (ps_replay_floor p)
    (ps_envelopes p).

Record M3SecureSession := mkM3SecureSession {
  live_manifest : RosterManifest;
  live_roster_hash : RosterHash;
  live_state : SessionState;
  pending_migration : option PendingMigration;
  pending_match_state : option PendingMatchState;
  installed_checkpoint : option M3MatchCheckpointV2;
  sent_actor_keyframes : gmap PlayerId (Z * M3ActorSnapshot);
  received_actor_keyframes : gmap PlayerId (Z * M3ActorSnapshot);
  accepted_snapshot : option (Z * M3ActorSnapshot);
  accepted_match : option (Z * M5MatchStateV2);
}.
#[export] Instance M3SecureSession_settable : Settable M3SecureSession := fun s =>
  mkM3SecureSession (live_manifest s) (live_roster_hash s) (live_state s) (pending_migration s) (pending_match_state s)
    (installed_checkpoint s) (sent_actor_keyframes s) (received_actor_keyframes s) (accepted_snapshot s) (accepted_match s).

(** What a change of authority forgets. *)
Definition forget_streams (self : M3SecureSession) : M3SecureSession :=
  self <| sent_actor_keyframes := ∅ |> <| received_actor_keyframes := ∅ |> <| accepted_snapshot := None |>
       <| pending_match_state := None |> <| accepted_match := None |>.

Definition take_installed_checkpoint (self : M3SecureSession) : M3SecureSession * option M3MatchCheckpointV2 :=
  (self <| installed_checkpoint := None |>, installed_checkpoint self).

Definition accepted_actor_snapshot (self : M3SecureSession) (sequence : Z) : option M3ActorSnapshot :=
  match accepted_snapshot self with
  | Some (accepted_sequence, snapshot) => if accepted_sequence =? sequence then Some snapshot else None
  | None => None
  end.
Definition accepted_match_state (self : M3SecureSession) (sequence : Z) : option M5MatchStateV2 :=
  match accepted_match self with
  | Some (accepted_sequence, state) => if accepted_sequence =? sequence then Some state else None
  | None => None
  end.

(** ** The migration order *)

Record AuthorityResponse := mkAuthorityResponse {
  response_formula_version : list Z;
  response_eligible : list AuthorityScore;
  response_winner : PlayerId;
  response_input_hash : list Z;
  response_input : AuthorityElectionInput;
  response_degraded : bool;
}.
#[export] Instance AuthorityScore_eq_dec : EqDecision AuthorityScore.
Proof. solve_decision. Defined.
#[export] Instance AuthorityCandidate_eq_dec : EqDecision AuthorityCandidate.
Proof. solve_decision. Defined.
#[export] Instance AuthorityElectionInput_eq_dec : EqDecision AuthorityElectionInput.
Proof. solve_decision. Defined.
#[export] Instance AuthorityResponse_eq_dec : EqDecision AuthorityResponse.
Proof. solve_decision. Defined.

Definition response_of (election : AuthorityElection) : AuthorityResponse :=
  mkAuthorityResponse (elected_formula_version election) (eligible election) (winner_player_id election)
    (input_hash election) (input election) (degraded election).

(** The closure [by_score]: the higher score first, then the lower player. *)
Definition by_score (left right : ScoredAuthorityCandidate) : comparison :=
  match Z.compare (score_milli (breakdown right)) (score_milli (breakdown left)) with
  | Eq => key_cmp (scored_player_id left) (scored_player_id right)
  | c => c
  end.
Definition by_score_le (left right : ScoredAuthorityCandidate) : Prop := by_score left right <> Gt.
#[export] Instance by_score_le_dec left right : Decision (by_score_le left right).
Proof. unfold by_score_le. solve_decision. Defined.

Definition migration_order (scored : list ScoredAuthorityCandidate) (manifest_players : list PlayerId) : list PlayerId :=
  let normally_eligible := merge_sort by_score_le (filter (fun s => ineligibility_reasons s = []) scored) in
  let degraded := merge_sort by_score_le (filter (fun s => ineligibility_reasons s <> []) scored) in
  let '(normally_eligible, degraded) :=
    if (length normally_eligible =? 0)%nat then (degraded, normally_eligible) else (normally_eligible, degraded) in
  let preference := scored_player_id <$> (normally_eligible ++ degraded) in
  preference ++ filter (fun player => player ∉ preference) manifest_players.

Definition configure_migration_election (self : M3SecureSession) (response : AuthorityResponse) : M3SecureSession * bool :=
  let size := Z.of_nat (length (entries (live_manifest self))) in
  let manifest_players : gset PlayerId := list_to_set (entry_player_id <$> entries (live_manifest self)) in
  let input_players : gset PlayerId := list_to_set (cand_player_id <$> candidates (response_input response)) in
  if negb (roster_size (response_input response) =? size)
     || negb (bool_decide (input_players = manifest_players))
     || negb (bool_decide (response_winner response = session_authority (live_state self)))
  then (self, false)
  else
    match elect_authority_for_roster (candidates (response_input response)) (election_at (response_input response))
            (expected_wire_version (response_input response)) size with
    | Err _ => (self, false)
    | Ok election =>
        if negb (bool_decide (response_of election = response)) then (self, false)
        else
          let preference := migration_order (scored_candidates election) (merge_sort key_le (elements manifest_players)) in
          let '(s, ok) := configure_migration_preference (live_state self) preference in
          (self <| live_state := s |>, ok)
    end.

Section session.
Context `{Crypto} `{LiveJson}.

Definition live_new (m : RosterManifest) (manifest_public_key : SessionPublicKey)
    (manifest_signature : SessionSignature) (s : SessionState) : result M3SecureSession SessionIdentityError :=
  match manifest_validate m with
  | Err e => Err e
  | Ok _ =>
      match verify_digest manifest_public_key (canonical_manifest_digest manifest_public_key m) manifest_signature with
      | Err e => Err e
      | Ok _ => Ok (mkM3SecureSession m (roster_hash m) s None None None ∅ ∅ None None)
      end
  end.

(** ** Sending *)

(** A snapshot becomes a delta within a keyframe interval of the rider's last one. *)
Definition choose_payload (self : M3SecureSession) (tick : Z) (p : M3PeerPayloadV2) : result M3PeerPayloadV2 SessionIdentityError :=
  match p with
  | M3Snapshot snapshot =>
      if negb (snapshot_is_canonical snapshot) then Err BadSignature
      else
        match sent_actor_keyframes self !! snap_rider snapshot with
        | Some (base_tick, base) =>
            if (tick >? base_tick) && (tick - base_tick <? M3_ACTOR_KEYFRAME_TICKS)
            then Ok (M3SnapshotDelta (delta_between base_tick base snapshot))
            else Ok (M3Snapshot snapshot)
        | None => Ok (M3Snapshot snapshot)
        end
  | M3SnapshotDelta _ => Err BadSignature
  | p => Ok p
  end.

Definition subject_is_valid (s : SessionState) (tick : Z) (p : M3PeerPayloadV2) : bool :=
  let local := local_player s in
  let is_authority := bool_decide (local = session_authority s) in
  match p with
  | M3Snapshot snapshot => is_authority && is_some (peers s !! snap_rider snapshot)
  | M3SnapshotDelta delta => is_authority && is_some (peers s !! delta_rider delta)
  | M3MatchState state => is_authority && (m5_epoch state =? session_epoch s) && (m5_current_tick state =? tick)
  | M3MatchStateFragment _ _ _ _ => is_authority
  | M3ShotResult r => is_authority && (result_tick r =? tick) && is_some (peers s !! result_shooter r)
  | M3ShotCommand command => bool_decide (cmd_shooter command = local) && (cmd_tick command =? tick)
  | M3Authority claimed epoch | M3MigrationFragment claimed epoch _ _ _ _ =>
      bool_decide (claimed = local) && (epoch =? session_epoch s)
  | M3Hello _ | M3Heartbeat | M3Probe _ _ | M3Loadout _ | M3Input _ | M3Leave => true
  end.

Definition m3_sign (self : M3SecureSession) (e : M3EnvelopeV2) (key : SigningKey) : result M3EnvelopeV2 SessionIdentityError :=
  if negb (bool_decide (m3_version e = M3_WIRE_VERSION)) then Err BadSignature
  else
    match find_entry (live_manifest self) (m3_sender e) with
    | None => Err BadSignature
    | Some entry =>
        if negb (bool_decide (key_bytes (session_public_key entry) = verifying_key key)) then Err BadSignature
        else
          let digest := m3_envelope_digest e (network_generation (live_manifest self))
                          (session_generation (live_manifest self)) (live_roster_hash self) in
          Ok (e <| m3_session := Some (mkSessionBinding (network_generation (live_manifest self))
                     (session_generation (live_manifest self)) (live_roster_hash self)
                     (mkSessionSignature (sign_bytes key digest))) |>)
    end.

Definition m3_envelope (self : M3SecureSession) (tick : Z) (p : M3PeerPayloadV2) (key : SigningKey)
    : M3SecureSession * result M3EnvelopeV2 SessionIdentityError :=
  match choose_payload self tick p with
  | Err e => (self, Err e)
  | Ok p =>
      match validate_payload p with
      | Err _ => (self, Err BadSignature)
      | Ok _ =>
          let s := live_state self in
          if negb (subject_is_valid s tick p) then (self, Err BadSignature)
          else
            let e := mkM3EnvelopeV2 M3_WIRE_VERSION (lobby_id s) (local_player s) (next_sequence s) (session_epoch s) tick p None in
            match m3_sign self e key with
            | Err error => (self, Err error)
            | Ok e =>
                let self :=
                  match m3_payload e with
                  | M3Snapshot snapshot =>
                      self <| sent_actor_keyframes := <[snap_rider snapshot := (tick, snapshot)]> (sent_actor_keyframes self) |>
                  | _ => self
                  end in
                (self <| live_state := s <| next_sequence := saturating_add 64 (next_sequence s) 1 |> |>, Ok e)
            end
      end
  end.

Definition m3_expire_and_migrate (self : M3SecureSession) (now_ms : Z) : M3SecureSession * option (PlayerId * Z) :=
  let '(s, migration) := expire_and_migrate (live_state self) now_ms in
  let self := self <| live_state := s |> in
  match migration with
  | Some _ => (forget_streams (self <| pending_migration := None |>), migration)
  | None => (self, migration)
  end.

(** ** Receiving *)

Definition m3_secure_refusal (self : M3SecureSession) (e : M3EnvelopeV2) (source : SocketAddr)
    (current_node_key : option NodeKey) : option AcceptOutcome :=
  if negb (bool_decide (m3_version e = M3_WIRE_VERSION)) then Some InvalidPayloadRole
  else
    match m3_session e with
    | None => Some UnsignedInSecureMode
    | Some binding =>
        match find_entry (live_manifest self) (m3_sender e) with
        | None => Some UnknownSender
        | Some entry =>
            if negb (bool_decide (tailnet_address entry = socket_ip source))
               || negb (application_port entry =? socket_port source)
            then Some EndpointMismatch
            else if match node_key entry, current_node_key with
                    | Some claimed, Some current => negb (bool_decide (claimed = current))
                    | _, _ => false
                    end
            then Some NodeKeyMismatch
            else if negb (bool_decide (m3_lobby_id e = manifest_lobby_id (live_manifest self))) then Some WrongLobby
            else if negb (binding_network_generation binding =? network_generation (live_manifest self))
                    || negb (binding_session_generation binding =? session_generation (live_manifest self))
            then Some WrongGeneration
            else if negb (bool_decide (binding_roster_hash binding = live_roster_hash self)) then Some RosterMismatch
            else
              let digest := m3_envelope_digest e (binding_network_generation binding)
                              (binding_session_generation binding) (binding_roster_hash binding) in
              match verify_digest (session_public_key entry) digest (binding_signature binding) with
              | Err _ => Some AcceptBadSignature
              | Ok _ =>
                  match validate_payload (m3_payload e) with
                  | Err _ => Some InvalidPayloadSubject
                  | Ok _ => None
                  end
              end
        end
    end.

(** [now_ms.saturating_sub(started_ms) >= HEARTBEAT_TIMEOUT_MS] *)
Definition timed_out (now_ms started_ms : Z) : bool := HEARTBEAT_TIMEOUT_MS <=? saturating_sub now_ms started_ms.

(** The mutation of the sender's row. *)
Definition hear (s : SessionState) (from : PlayerId) (sequence now_ms : Z) (is_connected : bool) : SessionState :=
  s <| peers := <[from := mkPeerState sequence now_ms is_connected]> (peers s) |>.

Definition last_heard (s : SessionState) (from : PlayerId) : Z :=
  match peers s !! from with Some peer => last_sequence peer | None => 0 end.

(** A fragment already held, by index or by sequence. *)
Definition fragment_held (held : gmap Z M3EnvelopeV2) (index sequence : Z) : bool :=
  is_some (held !! index) || existsb (fun candidate => m3_sequence candidate =? sequence) (btree_values held).

Definition pending_differs (p : PendingMatchState) (e : M3EnvelopeV2) (hash : list Z) (count : Z) : bool :=
  negb (bool_decide (ps_sender p = m3_sender e))
  || negb (ps_epoch p =? m3_epoch e)
  || negb (ps_tick p =? m3_tick e)
  || negb (bool_decide (ps_hash p = hash))
  || negb (ps_count p =? count).

(** The lowest and the highest sequence of a set, [BTreeSet::first] and [last]. *)
Definition held_sequences (held : gmap Z M3EnvelopeV2) : gset Z := list_to_set (m3_sequence <$> btree_values held).
Definition set_first (s : gset Z) : option Z := head (merge_sort Z.le (elements s)).
Definition set_last (s : gset Z) : option Z := last (merge_sort Z.le (elements s)).

(** The last fragment of a match state arrived. *)
Definition complete_match_state (self : M3SecureSession) (e : M3EnvelopeV2) (pending : PendingMatchState) (now_ms : Z)
    : M3SecureSession * AcceptOutcome :=
  let self := self <| pending_match_state := None |> in
  let held := btree_values (ps_envelopes pending) in
  match reassemble_m5_match_state (m3_payload <$> held) with
  | Err _ => (self, InvalidCheckpoint)
  | Ok state =>
      if negb (m5_epoch state =? m3_epoch e)
         || negb (m5_current_tick state =? m3_tick e)
         || existsb (fun row => is_none (peers (live_state self) !! m5_player row)) (m5_players state)
         || existsb (fun candidate => negb (bool_decide (m3_sender candidate = m3_sender e))
                       || negb (m3_epoch candidate =? m3_epoch e) || negb (m3_tick candidate =? m3_tick e)) held
      then (self, InvalidCheckpoint)
      else
        let sequences := held_sequences (ps_envelopes pending) in
        let current_last := last_heard (live_state self) (m3_sender e) in
        if negb (size sequences =? size (ps_envelopes pending))%nat
           || is_none_or (set_first sequences) (fun sequence => sequence <=? ps_replay_floor pending)
           || is_none_or (set_last sequences) (fun sequence => sequence <=? current_last)
        then (self, DuplicateOrReplay)
        else
          (self <| live_state := hear (live_state self) (m3_sender e) (default 0 (set_last sequences)) now_ms true |>
                <| accepted_match := Some (m3_sequence e, state) |>, Accepted)
  end.

Definition accept_match_state_fragment (self : M3SecureSession) (e : M3EnvelopeV2) (hash : list Z) (index count now_ms : Z)
    : M3SecureSession * AcceptOutcome :=
  if negb (m3_epoch e =? session_epoch (live_state self)) || negb (bool_decide (m3_sender e = session_authority (live_state self)))
  then (self, InvalidPayloadRole)
  else if is_some_and (accepted_match self) (fun '(_, state) => m3_tick e <=? m5_current_tick state)
  then (self, DuplicateOrReplay)
  else
    let self :=
      if is_some_and (pending_match_state self) (fun pending => timed_out now_ms (ps_started_ms pending))
      then self <| pending_match_state := None |> else self in
    let differs := is_some_and (pending_match_state self) (fun pending => pending_differs pending e hash count) in
    let pending_tick := match pending_match_state self with Some pending => ps_tick pending | None => 0 end in
    if differs && (m3_tick e <=? pending_tick) then (self, InvalidCheckpoint)
    else
      let self := if differs then self <| pending_match_state := None |> else self in
      let replay_floor := last_heard (live_state self) (m3_sender e) in
      let pending := default (mkPendingMatchState (m3_sender e) (m3_epoch e) (m3_tick e) hash count now_ms replay_floor ∅)
                       (pending_match_state self) in
      let self := self <| pending_match_state := Some pending |> in
      if (m3_sequence e <=? ps_replay_floor pending) || fragment_held (ps_envelopes pending) index (m3_sequence e)
      then (self, DuplicateOrReplay)
      else
        let pending := pending <| ps_envelopes := <[index := e]> (ps_envelopes pending) |> in
        let self := self <| pending_match_state := Some pending |> in
        if negb (Z.of_nat (size (ps_envelopes pending)) =? count) then (self, PendingFragment)
        else complete_match_state self e pending now_ms.

(** The last fragment of a migration arrived. *)
Definition complete_migration (self : M3SecureSession) (e : M3EnvelopeV2) (pending : PendingMigration) (now_ms : Z)
    (checkpoint_is_installable : M3MatchCheckpointV2 -> bool) : M3SecureSession * AcceptOutcome :=
  let self := self <| pending_migration := None |> in
  let held := btree_values (pm_envelopes pending) in
  let last_sequence := last_heard (live_state self) (m3_sender e) in
  match reassemble_m3_checkpoint (m3_payload <$> held) with
  | Err _ => (self, InvalidCheckpoint)
  | Ok (authority, epoch, checkpoint) =>
      if existsb (fun candidate => negb (m3_tick candidate =? checkpoint_tick (m3_combat checkpoint))) held
         || negb (authority_claim_is_coherent (live_state self) (m3_sender e) authority epoch now_ms)
      then (self, InvalidCheckpoint)
      else if negb (checkpoint_is_installable checkpoint) then (self, InvalidCheckpoint)
      else
        let sequences := held_sequences (pm_envelopes pending) in
        if negb (size sequences =? size (pm_envelopes pending))%nat
           || is_none_or (set_first sequences) (fun sequence => sequence <=? last_sequence)
        then (self, DuplicateOrReplay)
        else
          let combat := m3_combat checkpoint in
          let receipts := (fun '(shooter, tick) => (source_epoch combat, shooter, tick)) <$> resolved_shots combat in
          let s := hear (live_state self) (m3_sender e) (default 0 (set_last sequences)) now_ms true in
          let s := s <| applied_shot_results := list_to_set receipts ∪ applied_shot_results s |>
                     <| session_authority := authority |> <| session_epoch := epoch |> in
          (forget_streams (self <| live_state := s |> <| installed_checkpoint := Some checkpoint |>), Accepted)
  end.

Definition accept_migration_fragment (self : M3SecureSession) (e : M3EnvelopeV2) (authority : PlayerId) (epoch : Z)
    (hash : list Z) (index count now_ms : Z) (checkpoint_is_installable : M3MatchCheckpointV2 -> bool)
    : M3SecureSession * AcceptOutcome :=
  if negb (bool_decide (authority = m3_sender e))
     || negb (epoch =? m3_epoch e)
     || negb (authority_claim_is_coherent (live_state self) (m3_sender e) authority epoch now_ms)
  then (self, InvalidAuthorityClaim)
  else if m3_sequence e <=? last_heard (live_state self) (m3_sender e) then (self, DuplicateOrReplay)
  else
    let self :=
      if is_some_and (pending_migration self) (fun pending => timed_out now_ms (pm_started_ms pending))
      then self <| pending_migration := None |> else self in
    let pending := default (mkPendingMigration authority epoch hash count now_ms ∅) (pending_migration self) in
    let self := self <| pending_migration := Some pending |> in
    if negb (bool_decide (pm_authority pending = authority))
       || negb (pm_epoch pending =? epoch)
       || negb (bool_decide (pm_hash pending = hash))
       || negb (pm_count pending =? count)
    then (self, InvalidCheckpoint)
    else if fragment_held (pm_envelopes pending) index (m3_sequence e) then (self, DuplicateOrReplay)
    else
      let pending := pending <| pm_envelopes := <[index := e]> (pm_envelopes pending) |> in
      let self := self <| pending_migration := Some pending |> in
      if negb (Z.of_nat (size (pm_envelopes pending)) =? count) then (self, PeerSession.PendingMigration)
      else complete_migration self e pending now_ms checkpoint_is_installable.

(** Payloads only the authority may send. *)
Definition m3_speaks_for_authority (p : M3PeerPayloadV2) : bool :=
  match p with
  | M3Snapshot _ | M3SnapshotDelta _ | M3ShotResult _ | M3MatchState _ | M3MatchStateFragment _ _ _ _ => true
  | _ => false
  end.

Definition subject_is_invalid (s : SessionState) (e : M3EnvelopeV2) : bool :=
  match m3_payload e with
  | M3ShotCommand command => negb (bool_decide (cmd_shooter command = m3_sender e)) || negb (cmd_tick command =? m3_tick e)
  | M3ShotResult r => negb (result_tick r =? m3_tick e) || is_none (peers s !! result_shooter r)
  | M3Snapshot snapshot => is_none (peers s !! snap_rider snapshot)
  | M3SnapshotDelta delta => is_none (peers s !! delta_rider delta) || (m3_tick e <=? base_tick delta)
  | M3MatchState state =>
      negb (m5_epoch state =? m3_epoch e) || negb (m5_current_tick state =? m3_tick e)
      || existsb (fun row => is_none (peers s !! m5_player row)) (m5_players state)
  | M3Authority authority epoch => negb (bool_decide (authority = m3_sender e)) || negb (epoch =? m3_epoch e)
  | _ => false
  end.

(** The snapshot a packet conveys: itself, or its delta on the keyframe it names. *)
Definition conveyed_snapshot (self : M3SecureSession) (p : M3PeerPayloadV2) : option (option M3ActorSnapshot) :=
  match p with
  | M3Snapshot snapshot => Some (Some snapshot)
  | M3SnapshotDelta delta =>
      match received_actor_keyframes self !! delta_rider delta with
      | None => None
      | Some (tick, base) =>
          if negb (tick =? base_tick delta) then None
          else match delta_apply delta base with Some snapshot => Some (Some snapshot) | None => None end
      end
  | _ => Some None
  end.

Definition m3_claim_of (p : M3PeerPayloadV2) : option (PlayerId * Z) :=
  match p with M3Authority authority epoch => Some (authority, epoch) | _ => None end.

(** A result already applied. *)
Definition result_known (s : SessionState) (e : M3EnvelopeV2) : bool :=
  match m3_payload e with
  | M3ShotResult r => bool_decide ((m3_epoch e, result_shooter r, result_tick r) ∈ applied_shot_results s)
  | _ => false
  end.

(** Everything that happens before the first mutation, for payloads that come whole. *)
Definition whole_refusal (self : M3SecureSession) (e : M3EnvelopeV2) (now_ms : Z) : option AcceptOutcome :=
  let s := live_state self in
  let p := m3_payload e in
  if negb (m3_epoch e =? session_epoch s) && is_none (m3_claim_of p) then Some InvalidPayloadRole
  else if m3_speaks_for_authority p && negb (bool_decide (m3_sender e = session_authority s)) then Some InvalidPayloadRole
  else if subject_is_invalid s e then Some InvalidPayloadSubject
  else if is_none (conveyed_snapshot self p) then Some InvalidPayloadSubject
  else if result_known s e then Some DuplicateShotResult
  else if m3_sequence e <=? last_heard s (m3_sender e) then Some DuplicateOrReplay
  else if is_some_and (m3_claim_of p) (fun '(authority, epoch) =>
            negb (authority_claim_is_coherent s (m3_sender e) authority epoch now_ms))
  then Some InvalidAuthorityClaim
  else None.

(** The mutations of an accepted envelope, in order. *)
Definition commit_heard (self : M3SecureSession) (e : M3EnvelopeV2) (now_ms : Z) : M3SecureSession :=
  let s := hear (live_state self) (m3_sender e) (m3_sequence e) now_ms (match m3_payload e with M3Leave => false | _ => true end) in
  self <| live_state :=
    match m3_payload e with
    | M3ShotResult r =>
        s <| applied_shot_results := {[(m3_epoch e, result_shooter r, result_tick r)]} ∪ applied_shot_results s |>
    | _ => s
    end |>.

Definition commit_authority (self : M3SecureSession) (p : M3PeerPayloadV2) : M3SecureSession :=
  let s := live_state self in
  match m3_claim_of p with
  | Some (authority, epoch) =>
      if (epoch >? session_epoch s) || ((epoch =? session_epoch s) && key_ltb authority (session_authority s))
      then forget_streams (self <| live_state := s <| session_authority := authority |> <| session_epoch := epoch |> |>)
      else self
  | None => self
  end.

Definition commit_snapshot (self : M3SecureSession) (e : M3EnvelopeV2) (conveyed : option M3ActorSnapshot) : M3SecureSession :=
  match conveyed with
  | Some snapshot =>
      let self := match m3_payload e with
                  | M3Snapshot _ => self <| received_actor_keyframes :=
                      <[snap_rider snapshot := (m3_tick e, snapshot)]> (received_actor_keyframes self) |>
                  | _ => self
                  end in
      self <| accepted_snapshot := Some (m3_sequence e, snapshot) |>
  | None => self
  end.

Definition commit_match (self : M3SecureSession) (e : M3EnvelopeV2) : M3SecureSession :=
  match m3_payload e with
  | M3MatchState state => self <| pending_match_state := None |> <| accepted_match := Some (m3_sequence e, state) |>
  | _ => self
  end.

(** The rest of [accept_authenticated], for payloads that come whole. *)
Definition accept_whole (self : M3SecureSession) (e : M3EnvelopeV2) (now_ms : Z) : M3SecureSession * AcceptOutcome :=
  match whole_refusal self e now_ms with
  | Some o => (self, o)
  | None =>
      let conveyed := default None (conveyed_snapshot self (m3_payload e)) in
      (commit_match (commit_snapshot (commit_authority (commit_heard self e now_ms) (m3_payload e)) e conveyed) e, Accepted)
  end.

Definition accept_authenticated (self : M3SecureSession) (e : M3EnvelopeV2) (now_ms : Z)
    (checkpoint_is_installable : M3MatchCheckpointV2 -> bool) : M3SecureSession * AcceptOutcome :=
  let s := live_state self in
  if negb (bool_decide (m3_lobby_id e = lobby_id s)) then (self, WrongLobby)
  else if m3_epoch e <? session_epoch s then (self, StaleAuthorityEpoch)
  else if is_none (peers s !! m3_sender e) then (self, UnknownSender)
  else
    match m3_payload e with
    | M3MigrationFragment authority epoch hash index count _ =>
        accept_migration_fragment self e authority epoch hash index count now_ms checkpoint_is_installable
    | M3MatchStateFragment hash index count _ => accept_match_state_fragment self e hash index count now_ms
    | _ => accept_whole self e now_ms
    end.

Definition accept_with_source_validated (self : M3SecureSession) (e : M3EnvelopeV2) (source : SocketAddr)
    (current_node_key : option NodeKey) (now_ms : Z) (checkpoint_is_installable : M3MatchCheckpointV2 -> bool)
    : M3SecureSession * AcceptOutcome :=
  match m3_secure_refusal self e source current_node_key with
  | Some o => (self, o)
  | None => accept_authenticated self e now_ms checkpoint_is_installable
  end.

Definition m3_accept_with_source (self : M3SecureSession) (e : M3EnvelopeV2) (source : SocketAddr)
    (current_node_key : option NodeKey) (now_ms : Z) : M3SecureSession * AcceptOutcome :=
  accept_with_source_validated self e source current_node_key now_ms (fun _ => true).
End session.
