(* ===== verification/LiveDemo.v ===== *)
(** * A concrete live match

    Toy libraries, a roster of three, a checkpoint of two riders and a horse on the
    move: the inputs at which the theorems of the live wire are tried. *)

From S2P Require Import Prelude MachineInt Ordered Clock Bytes Identifiers WireVersion Stance Wire Model Sha256 Session Election Spur Combat.
From S2P Require Import M3 HorseVitality Recall OnFoot ActorGameplay AuthorityBank Aim WeaponKernel ShotLedger CombatAuthority M3Combat.
From S2P Require Import BountyPlacement Bounty PeerSession PeerRun PeerSecure LiveState LiveStateRun LiveWire LiveSession.
From stdpp Require Import gmap.
Open Scope Z_scope.

Module LiveDemo.
Export PeerDemo.

(** ** A match of players 1 and 2 at tick 60 under the authority of player 3 *)

Definition ticked (c : HorseVitalityClass) : ActorGameplayKernel := (actor_advance_tick (actor_new c) (idle_input 60 false false)).1.
Definition gameplay : M3AuthorityCheckpointV2 :=
  mkM3AuthorityCheckpointV2 M3_WIRE_VERSION 1
    [mkM3AuthorityActorCheckpoint (player 1) 10 (ActorGameplay.checkpoint (ticked Mustang));
     mkM3AuthorityActorCheckpoint (player 2) 20 (ActorGameplay.checkpoint (ticked Courser))].
Definition bounty_of (roster : list PlayerId) : BountyMatchCheckpointV2 :=
  mkBountyMatchCheckpointV2 1
    (match match_new 1 9 60 roster with
     | Ok k => k
     | Err _ => mkBountyMatchKernel 0 0 0 0 0 ∅ ∅ 0 None 0 None 0 false
     end).
Definition match_of (roster : list PlayerId) : M3MatchCheckpointV2 :=
  mkM3MatchCheckpointV2 M3_WIRE_VERSION (mkMatchCheckpoint 1 60 [rider 1; rider 2] [(player 1, 58)]) gameplay
    [mkM3ReloadCheckpointV2 (player 1) (Some 60) true None; mkM3ReloadCheckpointV2 (player 2) (Some 60) true None]
    1 (bounty_of roster).
Definition whole_match : M3MatchCheckpointV2 := match_of [player 1; player 2].

Example whole_match_canonical : m3_checkpoint_is_canonical whole_match = true.
Proof. vm_compute. reflexivity. Qed.

(** JSON of 400 bytes that stands for this match. *)
#[export] Instance demo_live_json : LiveJson := {
  json_m3_checkpoint := fun _ => repeat 65 400;
  json_m5_state := fun _ => repeat 66 400;
  json_m3_envelope := fun e => [123; m3_sequence e; 125];
  parse_m3_checkpoint := fun _ => Some whole_match;
  parse_m5_state := fun _ => None;
  parse_m3_version := fun _ => Some M3_WIRE_VERSION;
  parse_m3_envelope := fun _ => None;
}.

(** ** Sessions *)

Definition entry (n : Z) : RosterManifestEntry :=
  mkRosterManifestEntry (player n) (mkSessionPublicKey (repeat n 32)) (V4 [100; 64; 0; n]) 41641 None.
Definition roster : RosterManifest := mkRosterManifest lobby 4 1 9 [entry 1; entry 2; entry 3].
Definition address (n : Z) : SocketAddr := mkSocketAddr (V4 [100; 64; 0; n]) 41641.

(** A session of player [local] whose authority, player 3, was last heard at 0. *)
Definition session_of (local : Z) : M3SecureSession :=
  mkM3SecureSession roster (roster_hash roster)
    (add_peer (add_peer (session_new lobby (player local) (player 3) 0) (player 1) 1900) (player 2) 1900)
    None None None ∅ ∅ None None.

Definition fragment_of (index sequence : Z) (bytes : list Z) : M3EnvelopeV2 :=
  mkM3EnvelopeV2 M3_WIRE_VERSION lobby (player 1) sequence 2 60
    (M3MigrationFragment (player 1) 2 (repeat 65 400) index 2 bytes) None.
(** The two fragments, the last one first. *)
Definition arrivals : list (M3EnvelopeV2 * Z) :=
  [(fragment_of 1 5 (repeat 65 16), 2000); (fragment_of 0 9 (repeat 65 384), 2010)].

(** ** Snapshots *)

Definition snapshot_at (x : Z) : M3ActorSnapshot := snapshot_of (player 1) x 0.
(** What player 3 sends: a keyframe and, one tick later, a change. *)
Definition sends : list (Z * M3PeerPayloadV2) := [(60, M3Snapshot (snapshot_at 0)); (61, M3Snapshot (snapshot_at 100))].
End LiveDemo.

(** The check of a checkpoint walks riders, actors, reloads and bounty rows side by
    side and stops at the shortest: a match whose bounty state knows only one of the
    two riders, or one more than them, passes. *)
Lemma short_bounty_roster_accepted :
  m3_checkpoint_is_canonical (LiveDemo.match_of [PeerDemo.player 1]) = true /\
  m3_checkpoint_is_canonical (LiveDemo.match_of [PeerDemo.player 1; PeerDemo.player 2; PeerDemo.player 3]) = true.
Proof. split; vm_compute; reflexivity. Qed.
