(* ===== verification/LiveElection.v ===== *)
(** * Who takes over ([spurfire-net/src/v2.rs], [configure_migration_election])

    The order of succession a session derives from the audited election, and the
    successor it names when the authority falls silent. *)

From S2P Require Import Prelude MachineInt Ordered Clock Bytes Identifiers WireVersion Model Sha256 Session Election.
From S2P Require Import PeerSession PeerRun LiveSession.
From stdpp Require Import gmap.
Open Scope Z_scope.

(** ** First matches *)

Lemma find_first_spec {A} (f : A -> bool) l a :
  find_first f l = Some a <-> exists pre post, l = pre ++ a :: post /\ f a = true /\ Forall (fun b => f b = false) pre.
Proof.
  unfold find_first. induction l as [|b l IH]; [split; [done|by intros ([] & ? & ? & _)]|].
  rewrite filter_cons. destruct (f b) eqn:Hb; simpl.
  - split.
    + intros [= ->]. by exists [], l.
    + intros ([|c pre] & post & Heq & Ha & Hpre); [by injection Heq as -> _|].
      injection Heq as <- _. apply Forall_cons in Hpre as [Hc _]. congruence.
  - rewrite IH. split.
    + intros (pre & post & -> & Ha & Hpre). exists (b :: pre), post. split_and!; [done|done|by constructor].
    + intros ([|c pre] & post & Heq & Ha & Hpre); [injection Heq as -> _; congruence|].
      injection Heq as -> ->. apply Forall_cons in Hpre as [_ Hpre]. by exists pre, post.
Qed.

Lemma find_first_app_fmap {A B} (g : A -> B) (f : B -> bool) l rest b :
  b ∈ l -> f (g b) = true ->
  exists a pre post, l = pre ++ a :: post /\ b ∈ a :: post /\ find_first f ((g <$> l) ++ rest) = Some (g a).
Proof.
  intros Hb Hf. destruct (find_first (fun x => f (g x)) l) as [a|] eqn:Ha.
  - apply find_first_spec in Ha as (pre & post & -> & Ha & Hpre). exists a, pre, post.
    split; [done|]. split.
    + apply elem_of_app in Hb as [Hb|Hb]; [|done]. rewrite Forall_forall in Hpre. rewrite (Hpre b Hb) in Hf. done.
    + apply find_first_spec. exists (g <$> pre), ((g <$> post) ++ rest). split_and!; [|done|by apply Forall_fmap].
      by rewrite fmap_app, <- app_assoc.
  - exfalso. unfold find_first in Ha. assert (Hin : b ∈ filter (fun x => f (g x) = true) l) by by apply list_elem_of_filter.
    destruct (filter _ l); [by apply not_elem_of_nil in Hin|done].
Qed.

Lemma StronglySorted_first {A} (R : relation A) `{!Reflexive R} l a pre post b :
  StronglySorted R l -> l = pre ++ a :: post -> b ∈ a :: post -> R a b.
Proof.
  intros Hs -> [->|Hb]%elem_of_cons; [done|]. apply StronglySorted_app in Hs as (_ & _ & Hs).
  apply StronglySorted_inv in Hs as [_ Hs]. rewrite Forall_forall in Hs. by apply Hs.
Qed.

Lemma size_list_to_set_le (l : list PlayerId) : (size (list_to_set l : gset PlayerId) <= length l)%nat.
Proof.
  induction l as [|a l IH]; [done|]. cbn [list_to_set length].
  rewrite size_union_alt, size_singleton. pose proof (subseteq_size (list_to_set l ∖ {[a]}) (list_to_set l : gset PlayerId)). set_solver by lia.
Qed.

Lemma NoDup_of_size (l : list PlayerId) : size (list_to_set l : gset PlayerId) = length l -> NoDup l.
Proof.
  induction l as [|a l IH]; [constructor|]. cbn [list_to_set length]. intros Hsize.
  pose proof (size_list_to_set_le l) as Hle. destruct (decide (a ∈ l)) as [Ha|Ha].
  - replace ({[a]} ∪ list_to_set l) with (list_to_set l : gset PlayerId) in Hsize by set_solver. lia.
  - rewrite size_union, size_singleton in Hsize by set_solver. constructor; [done|]. apply IH. lia.
Qed.

(** ** The ranking *)

Lemma by_score_key l r :
  by_score l r = key_cmp (- score_milli (breakdown l), scored_player_id l) (- score_milli (breakdown r), scored_player_id r).
Proof. unfold by_score. simpl. unfold pair_cmp. simpl. by rewrite Z.compare_opp. Qed.

#[export] Instance by_score_le_preorder : PreOrder by_score_le.
Proof.
  split.
  - intros a. unfold by_score_le. rewrite by_score_key, key_cmp_refl. done.
  - intros a b c. unfold by_score_le. rewrite !by_score_key. apply (transitivity (R := key_le)).
Qed.
#[export] Instance by_score_le_total : Total by_score_le.
Proof. intros a b. unfold by_score_le. rewrite !by_score_key. apply (total key_le). Qed.

(** Candidates that passed every test before those that did not, then by score. *)
Definition outranks (a b : ScoredAuthorityCandidate) : Prop :=
  (ineligibility_reasons b = [] -> ineligibility_reasons a = []) /\
  ((ineligibility_reasons a = [] <-> ineligibility_reasons b = []) -> by_score_le a b).
#[export] Instance outranks_reflexive : Reflexive outranks.
Proof. intros a. by split. Qed.

(** The scored candidates in the order of succession. *)
Definition ranking (scored : list ScoredAuthorityCandidate) : list ScoredAuthorityCandidate :=
  merge_sort by_score_le (filter (fun s => ineligibility_reasons s = []) scored) ++
  merge_sort by_score_le (filter (fun s => ineligibility_reasons s <> []) scored).

Lemma ranking_perm scored : ranking scored ≡ₚ scored.
Proof.
  unfold ranking. rewrite !merge_sort_Permutation. induction scored as [|s l IH]; [done|].
  rewrite !filter_cons. destruct (ineligibility_reasons s) as [|r rs]; simpl; [by rewrite IH|].
  by rewrite <- Permutation_middle, IH.
Qed.

Lemma StronglySorted_in_impl {A} (R R' : relation A) l :
  (forall a b, a ∈ l -> b ∈ l -> R a b -> R' a b) -> StronglySorted R l -> StronglySorted R' l.
Proof.
  induction l as [|a l IH]; intros HR Hs; [constructor|]. apply StronglySorted_inv in Hs as [Hs Ha]. constructor.
  - apply IH; [|done]. intros x y Hx Hy. apply HR; by right.
  - rewrite Forall_forall in Ha |- *. intros b Hb. apply HR; [left|by right|by apply Ha].
Qed.

Lemma ranking_sorted scored : StronglySorted outranks (ranking scored).
Proof.
  unfold ranking. apply StronglySorted_app. split_and!.
  - intros a b Ha Hb. rewrite merge_sort_Permutation in Ha, Hb.
    apply list_elem_of_filter in Ha as [Ha _], Hb as [Hb _]. split; [done|]. intros Hab. by destruct Hb; apply Hab.
  - eapply StronglySorted_in_impl; [|apply (StronglySorted_merge_sort _)]. intros a b Ha Hb Hab. rewrite merge_sort_Permutation in Ha.
    apply list_elem_of_filter in Ha as [Ha _]. by split.
  - eapply StronglySorted_in_impl; [|apply (StronglySorted_merge_sort _)]. intros a b Ha Hb Hab. rewrite merge_sort_Permutation in Hb.
    apply list_elem_of_filter in Hb as [Hb _]. by split.
Qed.

Lemma migration_order_ranking scored players :
  migration_order scored players = (scored_player_id <$> ranking scored)
    ++ filter (fun player => player ∉ scored_player_id <$> ranking scored) players.
Proof.
  unfold migration_order, ranking.
  set (good := merge_sort by_score_le (filter (fun s => ineligibility_reasons s = []) scored)).
  set (bad := merge_sort by_score_le (filter (fun s => ineligibility_reasons s <> []) scored)).
  destruct good; simpl; [by rewrite app_nil_r|done].
Qed.

Lemma winner_cmp_score_of a b : winner_cmp (score_of a) (score_of b) = by_score a b.
Proof. reflexivity. Qed.

(** The candidates that took part: the eligible ones, or all when none is. *)
Lemma ranking_head scored a b l :
  ranking scored = a :: l -> b ∈ scored -> outranks a b /\ a ∈ scored.
Proof.
  intros Hr Hb. assert (Ha : a ∈ scored) by (rewrite <- ranking_perm, Hr; left).
  split; [|done]. eapply (StronglySorted_first outranks _ a [] l b (ranking_sorted scored) Hr).
  by rewrite <- Hr, ranking_perm.
Qed.

Lemma elected_leads cs now expected size e players :
  elect_authority_for_roster cs now expected size = Ok e ->
  head (migration_order (scored_candidates e) players) = Some (winner_player_id e).
Proof.
  intros Helect. apply elect_Ok_iff in Helect. destruct Helect as [_ _ _ _ _ _ _ _ Hne Hdeg Helig (first & rest & He & Hw)].
  rewrite migration_order_ranking. destruct (ranking (scored_candidates e)) as [|a l] eqn:Hr.
  { exfalso. apply Hne, Permutation_nil_r. by rewrite <- ranking_perm, Hr. }
  simpl. f_equal. rewrite Hw.
  destruct (min_by_spec (fun s => (- final_score s, score_player_id s)) winner_cmp first rest) as [Hin Hle]; [apply winner_cmp_key|].
  rewrite <- He in Hin, Hle. set (m := min_by winner_cmp first rest) in *. clearbody m.
  assert (Hm : exists r, m = score_of r /\ r ∈ scored_candidates e /\ score_of a ∈ eligible e /\ by_score_le a r).
  { rewrite Helig in Hin |- *. destruct (degraded e) eqn:Hd.
    - apply list_elem_of_fmap in Hin as (r & -> & Hin). exists r.
      destruct (ranking_head _ a r l Hr Hin) as [Hout Ha]. split_and!; try done; [by apply list_elem_of_fmap_2|].
      symmetry in Hdeg. rewrite Nat.eqb_eq in Hdeg. apply nil_length_inv in Hdeg.
      assert (Hnone : forall s, s ∈ scored_candidates e -> ineligibility_reasons s <> []).
      { intros s Hs Hnil. assert (Hx : score_of s ∈ eligible_scores (scored_candidates e)) by (apply elem_of_eligible_scores; eauto).
        rewrite Hdeg in Hx. by apply not_elem_of_nil in Hx. }
      apply Hout. split; intros Hx; [by destruct (Hnone a Ha)|by destruct (Hnone r Hin)].
    - apply elem_of_eligible_scores in Hin as (r & Hin & Hreasons & ->). exists r.
      destruct (ranking_head _ a r l Hr Hin) as [Hout Ha]. assert (Hgood : ineligibility_reasons a = []) by by apply Hout.
      split_and!; [done|done|apply elem_of_eligible_scores; eauto|]. by apply Hout. }
  destruct Hm as (r & -> & Hr' & Ha & Har). specialize (Hle _ Ha). cbn [score_of final_score score_player_id] in *.
  unfold by_score_le in Har. rewrite by_score_key in Har.
  assert (Heq : (- score_milli (breakdown a), scored_player_id a) = (- score_milli (breakdown r), scored_player_id r))
    by (by apply (anti_symm key_le)).
  by injection Heq.
Qed.

(** ** The successor *)

(** C21. The best survivor succeeds. When a session accepts the audited result of an
    election, the candidates of the result are exactly the players of its manifest, as
    many as the manifest has entries; the result is what the election of just these
    candidates computes, with the present authority as its winner; and nothing changes
    but the order of succession, which is headed by that authority and holds every peer
    exactly once. From then on, as long as that order is kept, whatever peers fall
    silent, the named successor outranks every candidate still connected: a candidate
    that passed the eligibility tests goes before one that failed, and among equals the
    higher score goes first. *)
Theorem successor_is_best_survivor (s s' : M3SecureSession) (response : AuthorityResponse) :
  configure_migration_election s response = (s', true) ->
  exists election,
    elect_authority_for_roster (candidates (response_input response)) (election_at (response_input response))
      (expected_wire_version (response_input response)) (Z.of_nat (length (entries (live_manifest s)))) = Ok election /\
    response_of election = response /\
    roster_size (response_input response) = Z.of_nat (length (entries (live_manifest s))) /\
    (forall p, p ∈ cand_player_id <$> candidates (response_input response) <-> p ∈ entry_player_id <$> entries (live_manifest s)) /\
    response_winner response = session_authority (live_state s) /\
    s' = s <| live_state := (live_state s) <| migration_preference := migration_preference (live_state s') |> |> /\
    head (migration_preference (live_state s')) = Some (session_authority (live_state s)) /\
    NoDup (migration_preference (live_state s')) /\
    (forall p, p ∈ migration_preference (live_state s') <-> is_Some (peers (live_state s) !! p)) /\
    (forall t now b, migration_preference t = migration_preference (live_state s') ->
      b ∈ scored_candidates election -> counts_connected t now (scored_player_id b) = true ->
      exists a, deterministic_successor t now = Some (scored_player_id a) /\ a ∈ scored_candidates election /\ outranks a b).
Proof.
  unfold configure_migration_election. cbv zeta. destruct (negb _ || _ || _) eqn:Hguard; [done|].
  destruct (elect_authority_for_roster _ _ _ _) as [election|] eqn:Helect; [|done].
  destruct (bool_decide_reflect (response_of election = response)) as [Hresp|]; [|done].
  cbn [negb]. unfold configure_migration_preference.
  set (players := merge_sort key_le _). set (order := migration_order _ _).
  destruct (negb (size _ =? _)%nat || _ || _) eqn:Hperm; [done|]. intros [= <-].
  repeat rewrite orb_false_iff in Hperm. rewrite !negb_false_iff, !Nat.eqb_eq, bool_decide_eq_true in Hperm.
  destruct Hperm as [[Hsize _] Hdom].
  repeat rewrite orb_false_iff in Hguard. rewrite !negb_false_iff, Z.eqb_eq, !bool_decide_eq_true in Hguard.
  destruct Hguard as [[Hroster Hplayers] Hwin].
  exists election. cbn [live_state set_field migration_preference]. split_and!; [done|done|done| |done|done| | | |].
  - intros p. by rewrite <- (elem_of_list_to_set (C := gset PlayerId) p), Hplayers, elem_of_list_to_set.
  - subst order. rewrite (elected_leads _ _ _ _ _ _ Helect), <- Hwin, <- Hresp. done.
  - by apply NoDup_of_size.
  - intros p. rewrite <- elem_of_dom, <- Hdom, elem_of_list_to_set. done.
  - intros t now b Hpref Hb Hconn. unfold deterministic_successor. rewrite Hpref. subst order. rewrite migration_order_ranking.
    destruct (find_first_app_fmap scored_player_id (counts_connected t now) (ranking (scored_candidates election))
      (filter (fun player => player ∉ scored_player_id <$> ranking (scored_candidates election)) players) b)
      as (a & pre & post & Hrank & Hin & Hfind); [by rewrite ranking_perm|done|].
    exists a. change (migration_preference _) with ((scored_player_id <$> ranking (scored_candidates election)) ++
      filter (fun player => player ∉ scored_player_id <$> ranking (scored_candidates election)) players).
    rewrite Hfind. split_and!; [done| |].
    + rewrite <- ranking_perm, Hrank. apply elem_of_app. right. left.
    + by eapply StronglySorted_first; [apply _|apply ranking_sorted|exact Hrank|].
Qed.

(** ** A concrete succession *)

Definition demo_electorate : M3SecureSession :=
  mkM3SecureSession (demo_manifest [demo_entry 1; demo_entry 2]) (mkRosterHash [])
    (session_new (demo_session_player 200) (demo_id 1) (demo_id 2) 0) None None None ∅ ∅ None None.
Definition demo_response : AuthorityResponse :=
  match demo_result with
  | Ok election => response_of election
  | Err _ => mkAuthorityResponse [] [] (demo_id 1) [] (mkInput [] 0 WIRE_VERSION 0 []) false
  end.

Lemma demo_response_accepted :
  configure_migration_election demo_electorate demo_response =
    ((configure_migration_election demo_electorate demo_response).1, true).
Proof. vm_compute. reflexivity. Qed.

Lemma successor_is_best_survivor_witness :
  head (migration_preference (live_state (configure_migration_election demo_electorate demo_response).1)) = Some (demo_id 2).
Proof.
  destruct (successor_is_best_survivor _ _ _ demo_response_accepted) as (election & _ & _ & _ & _ & _ & _ & Hhead & _). exact Hhead.
Defined.
