(* ===== verification/LiveSigned.v ===== *)
(** * What a signature says on the live wire

    The canonical bytes of wire 2.0 determine the payload; a signature binds the
    whole envelope. *)

From S2P Require Import Prelude MachineInt Ordered Clock Bytes Identifiers WireVersion Stance Wire Sha256 Session Spur Combat M3 HorseVitality Recall OnFoot.
From S2P Require Import ActorGameplay AuthorityBank Aim WeaponKernel ShotLedger CombatAuthority M3Combat BountyPlacement Bounty.
From S2P Require Import PeerSession PeerRun PeerSecure LiveState LiveWire.
From stdpp Require Import gmap.
Open Scope Z_scope.

(** ** Codes *)

#[export] Instance horse_class_delimited : Delimited (fun c => be_bytes 1 (horse_class_code c)) (fun _ => True).
Proof. apply numbered_delimited; [by intros []|by intros [] []]. Qed.
#[export] Instance horse_state_delimited : Delimited (fun c => be_bytes 1 (horse_state_code c)) (fun _ => True).
Proof. apply numbered_delimited; [by intros []|by intros [] []]. Qed.
#[export] Instance recall_state_delimited : Delimited (fun c => be_bytes 1 (recall_state_code c)) (fun _ => True).
Proof. apply numbered_delimited; [by intros []|by intros [] []]. Qed.
#[export] Instance actor_stance_delimited : Delimited (fun c => be_bytes 1 (actor_stance_as_u8 c)) (fun _ => True).
Proof. apply numbered_delimited; [by intros []|by intros [] []]. Qed.
#[export] Instance objective_kind_delimited : Delimited (fun c => be_bytes 1 (objective_kind_code c)) (fun _ => True).
Proof. apply numbered_delimited; [by intros []|by intros [] []]. Qed.

(** An optional code: [option_u8(value.map(code))]. *)
Lemma option_code_delimited {A} (code : A -> Z) :
  Delimited (fun a => be_bytes 1 (code a)) (fun _ => True) -> Delimited (fun o => option_u8 (code <$> o)) (fun _ : option A => True).
Proof.
  intros Hd [a|] [b|] s t _ _ Heq; try done.
  - change (1 :: (be_bytes 1 (code a) ++ s) = 1 :: (be_bytes 1 (code b) ++ t)) in Heq.
    apply (f_equal (@tl Z)) in Heq. apply (Hd a b) in Heq as [-> ->]; done.
  - by injection Heq as ->.
Qed.
#[export] Instance option_stance_delimited : Delimited (fun o => option_u8 (actor_stance_as_u8 <$> o)) (fun _ => True).
Proof. apply option_code_delimited, _. Qed.
#[export] Instance option_class_delimited : Delimited (fun o => option_u8 (horse_class_code <$> o)) (fun _ => True).
Proof. apply option_code_delimited, _. Qed.
#[export] Instance option_state_delimited : Delimited (fun o => option_u8 (horse_state_code <$> o)) (fun _ => True).
Proof. apply option_code_delimited, _. Qed.
#[export] Instance option_recall_delimited : Delimited (fun o => option_u8 (recall_state_code <$> o)) (fun _ => True).
Proof. apply option_code_delimited, _. Qed.

#[export] Instance option_tick_delimited : Delimited option_tick (from_option (in_uint 64) True).
Proof. apply option_bytes_delimited, (be_bytes_delimited 8). Qed.
#[export] Instance option_u8_delimited : Delimited option_u8 (from_option (in_uint 8) True).
Proof. apply option_bytes_delimited, (be_bytes_delimited 1). Qed.
#[export] Instance option_u16_delimited : Delimited option_u16 (from_option (in_uint 16) True).
Proof. apply option_bytes_delimited, (be_bytes_delimited 2). Qed.
#[export] Instance option_u32_delimited : Delimited option_u32 (from_option (in_uint 32) True).
Proof. apply option_bytes_delimited, (be_bytes_delimited 4). Qed.
#[export] Instance option_u64_delimited : Delimited option_u64 (from_option (in_uint 64) True).
Proof. apply option_bytes_delimited, (be_bytes_delimited 8). Qed.
#[export] Instance option_i32_delimited : Delimited option_i32 (from_option (in_sint 32) True).
Proof. apply option_bytes_delimited, (int_be_bytes_delimited 3). Qed.
#[export] Instance option_i32_array_delimited : Delimited option_i32_array (from_option triple_ok True).
Proof. apply option_bytes_delimited, _. Qed.
#[export] Instance option_direction_delimited : Delimited option_direction (from_option direction_ok True).
Proof. apply option_bytes_delimited, _. Qed.

(** ** Records *)

#[export] Instance loadout_delimited : Delimited loadout_bytes (fun _ => True).
Proof.
  intros [c w] [c' w'] s t _ _ Heq. unfold loadout_bytes in Heq. simpl in Heq.
  next_field (fun c => be_bytes 1 (horse_class_code c)) Heq E1. next_field (fun w => be_bytes 1 (weapon_as_u8 w)) Heq E2. by subst.
Qed.

Definition input_ok (i : M3ActorInput) : Prop :=
  in_sint 16 (throttle_milli i) /\ in_sint 16 (steer_milli i) /\ in_sint 16 (move_x_milli i) /\ in_sint 16 (move_z_milli i) /\
  in_uint 16 (buttons i).
#[export] Instance input_delimited : Delimited input_bytes input_ok.
Proof.
  intros [a b c d e] [a' b' c' d' e'] s t (H1 & H2 & H3 & H4 & H5) (H1' & H2' & H3' & H4' & H5') Heq.
  unfold input_bytes in Heq. simpl in *.
  do 4 (let E := fresh "E" in next_field (int_be_bytes 2) Heq E). next_field (be_bytes 2) Heq E5. by subst.
Qed.

Definition horse_ok (h : M3HorseSnapshot) : Prop :=
  in_uint 64 (snap_entity_id h) /\ triple_ok (snap_position_mm h) /\ triple_ok (snap_velocity_mmps h) /\
  in_sint 32 (snap_yaw_millidegrees h) /\ in_uint 16 (snap_health h) /\ direction_ok (snap_bolt_away h).
Definition snapshot_ok (s : M3ActorSnapshot) : Prop :=
  id_ok (snap_rider s) /\ triple_ok (snap_rider_position s) /\ triple_ok (snap_rider_velocity s) /\
  in_sint 32 (snap_rider_yaw s) /\ in_uint 16 (snap_rider_health s) /\ in_uint 32 (snap_stamina_ticks s) /\
  horse_ok (snap_horse s) /\ from_option (in_uint 64) True (snap_recall_ready s) /\ in_uint 8 (snap_spur_meter s) /\
  from_option (in_uint 64) True (snap_charge_started s) /\ from_option (in_uint 64) True (snap_charge_end s).
#[export] Instance snapshot_delimited : Delimited snapshot_bytes snapshot_ok.
Proof.
  intros [a b c d e f g [h1 h2 h3 h4 h5 h6 h7 h8] i j k l m] [a' b' c' d' e' f' g' [h1' h2' h3' h4' h5' h6' h7' h8'] i' j' k' l' m'] s t
    (Ha & Hb & Hc & Hd & Hf & Hg & (Hh1 & Hh2 & Hh3 & Hh4 & Hh5 & Hh6) & Hj & Hk & Hl & Hm)
    (Ha' & Hb' & Hc' & Hd' & Hf' & Hg' & (Hh1' & Hh2' & Hh3' & Hh4' & Hh5' & Hh6') & Hj' & Hk' & Hl' & Hm') Heq.
  unfold snapshot_bytes in Heq.
  cbn [snap_rider snap_rider_position snap_rider_velocity snap_rider_yaw snap_stance snap_rider_health snap_stamina_ticks
    snap_horse snap_recall_state snap_recall_ready snap_spur_meter snap_charge_started snap_charge_end
    snap_entity_id snap_class snap_state snap_position_mm snap_velocity_mmps snap_yaw_millidegrees snap_health snap_bolt_away] in *.
  next_field id_bytes Heq E1. next_field triple_bytes Heq E2. next_field triple_bytes Heq E3.
  next_field (int_be_bytes 4) Heq E4. next_field (fun c => be_bytes 1 (actor_stance_as_u8 c)) Heq E5.
  next_field (be_bytes 2) Heq E6. next_field (be_bytes 4) Heq E7. next_field (be_bytes 8) Heq E8.
  next_field (fun c => be_bytes 1 (horse_class_code c)) Heq E9. next_field (fun c => be_bytes 1 (horse_state_code c)) Heq E10.
  next_field triple_bytes Heq E11. next_field triple_bytes Heq E12. next_field (int_be_bytes 4) Heq E13.
  next_field (be_bytes 2) Heq E14. next_field direction_bytes Heq E15.
  next_field (fun c => be_bytes 1 (recall_state_code c)) Heq E16. next_field option_tick Heq E17.
  next_field (be_bytes 1) Heq E18. next_field option_tick Heq E19. next_field option_tick Heq E20. by subst.
Qed.

Definition delta_ok (d : M3ActorSnapshotDelta) : Prop :=
  id_ok (delta_rider d) /\ in_uint 64 (base_tick d) /\
  from_option triple_ok True (delta_rider_position d) /\ from_option triple_ok True (delta_rider_velocity d) /\
  from_option (in_sint 32) True (delta_rider_yaw d) /\ from_option (in_uint 16) True (delta_rider_health d) /\
  from_option (in_uint 32) True (delta_stamina_ticks d) /\ from_option (in_uint 64) True (delta_entity_id d) /\
  from_option triple_ok True (delta_position d) /\ from_option triple_ok True (delta_velocity d) /\
  from_option (in_sint 32) True (delta_yaw d) /\ from_option (in_uint 16) True (delta_health d) /\
  from_option direction_ok True (delta_bolt_away d) /\ from_option (in_uint 64) True (delta_recall_ready d) /\
  from_option (in_uint 8) True (delta_spur_meter d) /\ from_option (in_uint 64) True (delta_charge_started d) /\
  from_option (in_uint 64) True (delta_charge_end d).
#[export] Instance delta_delimited : Delimited delta_bytes delta_ok.
Proof.
  intros d d' s t (H1 & H2 & H3 & H4 & H5 & H6 & H7 & H8 & H9 & H10 & H11 & H12 & H13 & H14 & H15 & H16 & H17)
    (H1' & H2' & H3' & H4' & H5' & H6' & H7' & H8' & H9' & H10' & H11' & H12' & H13' & H14' & H15' & H16' & H17') Heq.
  unfold delta_bytes in Heq.
  next_field id_bytes Heq E1. next_field (be_bytes 8) Heq E2. next_field option_i32_array Heq E3.
  next_field option_i32_array Heq E4. next_field option_i32 Heq E5.
  next_field (fun o => option_u8 (actor_stance_as_u8 <$> o)) Heq E6. next_field option_u16 Heq E7.
  next_field option_u32 Heq E8. next_field option_u64 Heq E9.
  next_field (fun o => option_u8 (horse_class_code <$> o)) Heq E10. next_field (fun o => option_u8 (horse_state_code <$> o)) Heq E11.
  next_field option_i32_array Heq E12. next_field option_i32_array Heq E13. next_field option_i32 Heq E14.
  next_field option_u16 Heq E15. next_field option_direction Heq E16.
  next_field (fun o => option_u8 (recall_state_code <$> o)) Heq E17. next_field bool_byte Heq E18.
  next_field option_tick Heq E19. next_field option_u8 Heq E20. next_field bool_byte Heq E21. next_field option_tick Heq E22.
  next_field bool_byte Heq E23. next_field option_tick Heq E24.
  destruct d, d'. cbn in E1, E2, E3, E4, E5, E6, E7, E8, E9, E10, E11, E12, E13, E14, E15, E16, E17, E18, E19, E20, E21, E22, E23, E24.
  by subst.
Qed.

(** ** Match states *)

Definition breakdown_ok (b : list Z) : Prop := length b = 8%nat /\ Forall (in_uint 32) b.
#[export] Instance breakdown_delimited : Delimited (fun b => concat (map (be_bytes 4) b)) breakdown_ok.
Proof. intros a b s t [Ha Ha'] [Hb Hb'] Heq. apply (concat_delimited (be_bytes 4) (in_uint 32)) in Heq; [done|congruence|done|done]. Qed.

Definition score_row_ok (row : M5ScoreRowV2) : Prop :=
  id_ok (m5_player row) /\ in_uint 32 (m5_score row) /\ in_uint 16 (m5_eliminations row) /\ in_uint 16 (m5_assists row) /\
  in_uint 16 (m5_deaths row) /\ from_option (in_uint 64) True (m5_respawn_at row) /\
  from_option (in_uint 64) True (m5_respawn_buff_end row) /\ from_option (in_uint 64) True (m5_horse_buff_end row) /\
  from_option breakdown_ok True (m5_score_breakdown row).
#[export] Instance score_row_delimited : Delimited score_row_bytes score_row_ok.
Proof.
  intros r r' s t (H1 & H2 & H3 & H4 & H5 & H6 & H7 & H8 & H9) (H1' & H2' & H3' & H4' & H5' & H6' & H7' & H8' & H9') Heq.
  unfold score_row_bytes in Heq.
  next_field id_bytes Heq E1. next_field (be_bytes 4) Heq E2. next_field (be_bytes 2) Heq E3. next_field (be_bytes 2) Heq E4.
  next_field (be_bytes 2) Heq E5. next_field bool_byte Heq E6. next_field option_tick Heq E7. next_field option_tick Heq E8.
  next_field option_tick Heq E9. next_field (option_bytes (fun breakdown => concat (map (be_bytes 4) breakdown))) Heq E10.
  destruct r, r'. cbn in E1, E2, E3, E4, E5, E6, E7, E8, E9, E10. by subst.
Qed.

Definition reveal_ok (r : M5RevealV2) : Prop :=
  id_ok (m5_reveal_player r) /\ in_uint 64 (m5_reveal_started r) /\ in_uint 64 (m5_reveal_end r).
#[export] Instance reveal_delimited : Delimited reveal_bytes reveal_ok.
Proof.
  intros [a b c] [a' b' c'] s t (H1 & H2 & H3) (H1' & H2' & H3') Heq. unfold reveal_bytes in Heq. simpl in *.
  next_field id_bytes Heq E1. next_field (be_bytes 8) Heq E2. next_field (be_bytes 8) Heq E3. by subst.
Qed.

Definition objective_ok (o : M5ObjectiveV2) : Prop :=
  in_uint 64 (m5_objective_id o) /\ in_uint 64 (m5_objective_started o) /\ in_uint 64 (m5_objective_end o) /\
  in_sint 32 (m5_x_mm o) /\ in_sint 32 (m5_z_mm o).
#[export] Instance objective_delimited : Delimited objective_bytes objective_ok.
Proof.
  intros o o' s t (H1 & H2 & H3 & H4 & H5) (H1' & H2' & H3' & H4' & H5') Heq. unfold objective_bytes in Heq.
  next_field (be_bytes 8) Heq E1. next_field (fun c => be_bytes 1 (objective_kind_code c)) Heq E2.
  next_field (be_bytes 8) Heq E3. next_field (be_bytes 8) Heq E4. next_field bool_byte Heq E5.
  next_field (int_be_bytes 4) Heq E6. next_field (int_be_bytes 4) Heq E7.
  destruct o, o'. cbn in E1, E2, E3, E4, E5, E6, E7. by subst.
Qed.

Definition match_state_ok (s : M5MatchStateV2) : Prop :=
  in_uint 64 (m5_epoch s) /\ in_uint 64 (m5_lobby_seed s) /\ in_uint 64 (m5_current_tick s) /\ in_uint 64 (m5_end_tick s) /\
  Z.of_nat (length (m5_players s)) < 2 ^ 16 /\ Forall score_row_ok (m5_players s) /\
  from_option reveal_ok True (m5_reveal s) /\ from_option objective_ok True (m5_objective s) /\
  from_option id_ok True (m5_winner s).

Lemma len_u16_short {A} (l : list A) : Z.of_nat (length l) < 2 ^ 16 -> len_u16 l = Z.of_nat (length l).
Proof.
  intros Hl. assert (Hu : uint_ok 16 (Z.of_nat (length l)) = true) by (unfold uint_ok; bsplit; lia).
  unfold len_u16, try_from_uint. by rewrite Hu.
Qed.

#[export] Instance match_state_delimited : Delimited match_state_bytes match_state_ok.
Proof.
  intros a b s t (H1 & H2 & H3 & H4 & H5 & H6 & H7 & H8 & H9) (H1' & H2' & H3' & H4' & H5' & H6' & H7' & H8' & H9') Heq.
  unfold match_state_bytes in Heq. rewrite !len_u16_short in Heq by done.
  next_field (be_bytes 8) Heq E1. next_field (be_bytes 8) Heq E2. next_field (be_bytes 8) Heq E3. next_field (be_bytes 8) Heq E4.
  rewrite <- ?app_assoc in Heq. apply (delimited (enc := be_bytes 2)) in Heq as [E5 Heq]; [|split; [lia|done]..].
  rewrite <- ?app_assoc in Heq. apply (concat_delimited score_row_bytes score_row_ok) in Heq as [E6 Heq]; [|lia|done|done].
  next_field (option_bytes reveal_bytes) Heq E7. next_field (option_bytes objective_bytes) Heq E8. next_field bool_byte Heq E9.
  next_field (option_bytes id_bytes) Heq E10.
  destruct a, b. cbn in E1, E2, E3, E4, E6, E7, E8, E9, E10. by subst.
Qed.

(** ** Payloads and envelopes *)

Definition m3_payload_ok (p : M3PeerPayloadV2) : Prop :=
  match p with
  | M3Hello hostname => short hostname
  | M3Heartbeat | M3Leave | M3Loadout _ => True
  | M3Probe nonce _ => in_uint 64 nonce
  | M3Input input => input_ok input
  | M3Snapshot snapshot => snapshot_ok snapshot
  | M3SnapshotDelta delta => delta_ok delta
  | M3ShotCommand command => command_ok command
  | M3ShotResult r => shot_result_ok r
  | M3MatchState state => match_state_ok state
  | M3MatchStateFragment hash index count _ => bytes_n 32 hash /\ in_uint 16 index /\ in_uint 16 count
  | M3Authority authority epoch => id_ok authority /\ in_uint 64 epoch
  | M3MigrationFragment authority epoch hash index count _ =>
      id_ok authority /\ in_uint 64 epoch /\ bytes_n 32 hash /\ in_uint 16 index /\ in_uint 16 count
  end.

Lemma m3_payload_bytes_injective p p' :
  m3_payload_ok p -> m3_payload_ok p' -> canonical_m3_payload_bytes p = canonical_m3_payload_bytes p' -> p = p'.
Proof.
  intros Hp Hp' Heq.
  assert (Happ : canonical_m3_payload_bytes p ++ [] = canonical_m3_payload_bytes p' ++ []) by (by rewrite !app_nil_r).
  clear Heq. destruct p, p'; try discriminate Happ; cbn [canonical_m3_payload_bytes app] in Happ;
    apply (f_equal (@tl Z)) in Happ; cbn [tl] in Happ; cbn [m3_payload_ok] in Hp, Hp'; try done.
  - next_field string_bytes Happ E1. by subst.
  - next_field (be_bytes 8) Happ E1. next_field bool_byte Happ E2. by subst.
  - next_field loadout_bytes Happ E1. by subst.
  - next_field input_bytes Happ E1. by subst.
  - next_field snapshot_bytes Happ E1. by subst.
  - next_field delta_bytes Happ E1. by subst.
  - apply (f_equal (@tl Z)) in Happ. cbn [tl] in Happ. next_field shot_command_bytes Happ E1. by subst.
  - apply (f_equal (@tl Z)) in Happ. cbn [tl] in Happ. next_field shot_result_bytes Happ E1. by subst.
  - next_field match_state_bytes Happ E1. by subst.
  - destruct Hp as ([H1 _] & H2 & H3), Hp' as ([H1' _] & H2' & H3'). rewrite <- ?app_assoc in Happ.
    apply app_eq_length in Happ as [E1 Happ]; [|congruence]. next_field (be_bytes 2) Happ E2. next_field (be_bytes 2) Happ E3.
    rewrite !app_nil_r in Happ. by subst.
  - destruct Hp as (H1 & H2), Hp' as (H1' & H2'). next_field id_bytes Happ E1. next_field (be_bytes 8) Happ E2. by subst.
  - destruct Hp as (H1 & H2 & [H3 _] & H4 & H5), Hp' as (H1' & H2' & [H3' _] & H4' & H5').
    next_field id_bytes Happ E1. next_field (be_bytes 8) Happ E2. rewrite <- ?app_assoc in Happ.
    apply app_eq_length in Happ as [E3 Happ]; [|congruence]. next_field (be_bytes 2) Happ E4. next_field (be_bytes 2) Happ E5.
    rewrite !app_nil_r in Happ. by subst.
Qed.

Definition m3_envelope_ok (e : M3EnvelopeV2) : Prop :=
  version_ok (m3_version e) /\ id_ok (m3_lobby_id e) /\ id_ok (m3_sender e) /\ in_uint 64 (m3_sequence e) /\
  in_uint 64 (m3_epoch e) /\ in_uint 64 (m3_tick e) /\ m3_payload_ok (m3_payload e).

(** What a signature of wire 2.0 is made over, before hashing. *)
Definition m3_signed_bytes (e : M3EnvelopeV2) (network session : Z) (hash : RosterHash) : list Z :=
  envelope_bytes (m3_version e) (m3_lobby_id e) network session hash (m3_sender e) (m3_epoch e)
    (m3_sequence e) (m3_tick e) (canonical_m3_payload_bytes (m3_payload e)).
Lemma m3_digest_signs `{Crypto} e network session hash :
  m3_envelope_digest e network session hash = sha2 (m3_signed_bytes e network session hash).
Proof. done. Qed.

(** C23. A signature of the live wire binds the whole envelope. Equal signed bytes mean
    equal envelopes, their session binding apart, and equal generations and roster
    hash: no field of a snapshot, a delta, a score row or a fragment can be changed,
    moved to another field or read as another kind of payload under the same
    signature. *)
Theorem m3_signature_binds_envelope e e' n n' s s' h h' :
  m3_envelope_ok e -> m3_envelope_ok e' -> in_uint 64 n -> in_uint 64 n' -> in_uint 64 s -> in_uint 64 s' ->
  length (hash_bytes h) = length (hash_bytes h') ->
  short (canonical_m3_payload_bytes (m3_payload e)) -> short (canonical_m3_payload_bytes (m3_payload e')) ->
  m3_signed_bytes e n s h = m3_signed_bytes e' n' s' h' ->
  e <| m3_session := None |> = e' <| m3_session := None |> /\ n = n' /\ s = s' /\ h = h'.
Proof.
  intros (Hv & Hl & Hp & Hq & He & Ht & Hok) (Hv' & Hl' & Hp' & Hq' & He' & Ht' & Hok') Hn Hn' Hs Hs' Hh Hb Hb' H1.
  unfold m3_signed_bytes in H1. apply envelope_bytes_injective in H1; [|assumption..].
  destruct H1 as (E1 & E2 & -> & -> & -> & E3 & E4 & E5 & E6 & E7).
  apply m3_payload_bytes_injective in E7; [|assumption..]. destruct e, e'. cbn in E1, E2, E3, E4, E5, E6, E7. by subst.
Qed.

Lemma m3_signature_binds_envelope_witness :
  let claim := fun epoch => mkM3EnvelopeV2 M3_WIRE_VERSION (demo_session_player 200) (demo_session_player 1) 1 1 60
                 (M3Authority (demo_session_player 1) epoch) None in
  let hash := mkRosterHash (repeat 7 32) in
  m3_signed_bytes (claim 2) 4 1 hash <> m3_signed_bytes (claim 3) 4 1 hash.
Proof.
  intros claim hash Heq.
  assert (Hid : forall i, in_uint 8 i -> id_ok (demo_session_player i)) by (intros i Hi; apply (demo_entry_ok i Hi)).
  assert (Hok : forall n, in_uint 64 n -> m3_envelope_ok (claim n)).
  { intros n Hn. split_and!; try (by split); try (by apply Hid); done. }
  apply m3_signature_binds_envelope in Heq as [Heq _]; try done; apply Hok; done.
Defined.
