(* ===== verification/LiveFragments.v ===== *)
(** * Fragments on the live wire

    Match states and checkpoints are cut into signed fragments; whatever order they
    arrive in, a complete set gives back what was cut, and nothing else passes. *)

From S2P Require Import Prelude MachineInt Ordered Clock Bytes Identifiers WireVersion Stance Wire Sha256 Session Spur Combat M3 HorseVitality Recall OnFoot.
From S2P Require Import ActorGameplay AuthorityBank Aim WeaponKernel ShotLedger CombatAuthority M3Combat BountyPlacement Bounty.
From S2P Require Import PeerSession LiveState LiveWire.
From stdpp Require Import gmap.
Open Scope Z_scope.

(** ** Cutting *)

Lemma chunks_concat n fuel : forall l, (0 < n)%nat -> (length l <= fuel)%nat -> concat (chunks fuel n l) = l.
Proof.
  induction fuel as [|fuel IH]; intros [|a l] Hn Hf; simpl in *; try done; [lia|].
  rewrite IH; [apply take_drop|done|]. rewrite length_drop. simpl. lia.
Qed.

Lemma chunks_bounded n fuel : forall l, (0 < n)%nat ->
  Forall (fun c => c <> [] /\ (length c <= n)%nat) (chunks fuel n l).
Proof.
  induction fuel as [|fuel IH]; intros [|a l] Hn; try by constructor. simpl. constructor; [|by apply IH].
  destruct n as [|n]; [lia|]. simpl. split; [done|]. simpl. rewrite length_take. lia.
Qed.

Lemma chunks_length n fuel : forall l, (0 < n)%nat -> (length l <= fuel)%nat ->
  Z.of_nat (length (chunks fuel n l)) = div_ceil (Z.of_nat (length l)) (Z.of_nat n).
Proof.
  induction fuel as [|fuel IH]; intros [|a l] Hn Hf; simpl in Hf; try (simpl; unfold div_ceil; symmetry; apply Z.div_small; simpl; lia).
  cbn [chunks length]. rewrite Nat2Z.inj_succ, IH by (rewrite ?length_drop; simpl; lia).
  rewrite length_drop. unfold div_ceil. simpl (length (a :: l)).
  destruct (decide (n <= S (length l))%nat).
  - replace (Z.of_nat (S (length l)) + Z.of_nat n - 1) with ((Z.of_nat (S (length l) - n) + Z.of_nat n - 1) + 1 * Z.of_nat n) by lia.
    rewrite Z.div_add by lia. lia.
  - replace (S (length l) - n)%nat with 0%nat by lia. rewrite (Z.div_small (Z.of_nat 0 + Z.of_nat n - 1)) by lia.
    apply (Z.div_unique _ _ 1 (Z.of_nat (S (length l)) - 1)); lia.
Qed.

(** The numbered chunks. *)
Definition numbered (l : list (list Z)) : list (Z * list Z) := imap (fun i c => (Z.of_nat i, c)) l.

Lemma numbered_from_sorted l : forall k,
  let rows : list (Z * list Z) := imap (fun i c => (Z.of_nat (k + i), c)) l in
  StronglySorted entry_le rows /\ rows.*1 = seqZ (Z.of_nat k) (Z.of_nat (length l)) /\ rows.*2 = l.
Proof.
  induction l as [|c l IH]; intros k; cbv zeta; [split_and!; [constructor|done..]|]. cbv zeta in IH.
  cbn [imap length]. destruct (IH (S k)) as (H1 & H2 & H3).
  assert (Hshift : imap ((fun i c => (Z.of_nat (k + i), c)) ∘ S) l = imap (fun i c => (Z.of_nat (S k + i), c)) l)
    by (apply imap_ext; intros; simpl; f_equal; lia).
  rewrite Hshift. rewrite Nat.add_0_r. split_and!.
  - constructor; [done|]. apply Forall_forall. intros [j d] Hj. apply elem_of_lookup_imap in Hj as (i & e & [= -> ->] & _).
    unfold entry_le. simpl. apply key_le_lteq. left. apply Z_key_lt. lia.
  - cbn [fmap list_fmap]. rewrite H2. cbn [fst]. rewrite (seqZ_cons (Z.of_nat k)) by lia. f_equal.
    f_equal; lia.
  - cbn [fmap list_fmap]. rewrite H3. done.
Qed.

Lemma numbered_spec l :
  StronglySorted entry_le (numbered l) /\ (numbered l).*1 = seqZ 0 (Z.of_nat (length l)) /\ (numbered l).*2 = l.
Proof. apply (numbered_from_sorted l 0). Qed.

Lemma numbered_NoDup l : NoDup (numbered l).*1.
Proof. destruct (numbered_spec l) as (_ & -> & _). apply NoDup_seqZ. Qed.

(** Putting the chunks into a map and reading it in order. *)
Lemma numbered_map l rows :
  rows ≡ₚ numbered l -> btree_list (list_to_map rows : gmap Z (list Z)) = numbered l.
Proof.
  intros Hp. assert (Hnd : NoDup rows.*1) by (rewrite Hp; apply numbered_NoDup).
  rewrite (list_to_map_proper rows (numbered l) Hnd Hp). apply btree_list_unique.
  - symmetry. apply map_to_list_to_map, numbered_NoDup.
  - apply numbered_spec.
  - apply numbered_NoDup.
Qed.

(** ** Gathering *)

Section gather.
Variable hash : list Z.
Variable count : Z.
Definition fits (g : Gathered) (rows : list (Z * list Z)) : Prop :=
  (g_hash g = None \/ g_hash g = Some hash) /\ (g_count g = None \/ g_count g = Some count) /\
  NoDup rows.*1 /\ (forall i, i ∈ rows.*1 -> g_ordered g !! i = None).
Definition gathered (g : Gathered) (rows : list (Z * list Z)) : Gathered :=
  match rows with [] => g | _ => mkGathered (Some hash) (Some count) (list_to_map rows ∪ g_ordered g) end.

Lemma gather_one_fits g i f rows :
  fits g ((i, f) :: rows) ->
  exists g', gather_one g hash i count f = Some g' /\ fits g' rows /\ gathered g' rows = gathered g ((i, f) :: rows).
Proof.
  intros (Hh & Hc & Hnd & Hfresh). cbn [fmap list_fmap fst] in Hnd. apply NoDup_cons in Hnd as [Hi Hnd].
  assert (Hd : disagrees (g_hash g) hash = false).
  { unfold disagrees. destruct Hh as [-> | ->]; simpl; [done|]. by rewrite bool_decide_true. }
  assert (Hd' : disagrees (g_count g) count = false).
  { unfold disagrees. destruct Hc as [-> | ->]; simpl; [done|]. by rewrite bool_decide_true. }
  unfold gather_one. rewrite Hd, Hd', (Hfresh i) by (cbn [fmap list_fmap fst]; left). simpl. eexists. split; [done|]. split.
  - split_and!; [by right|by right|done|]. intros j Hj. simpl. rewrite lookup_insert_ne by set_solver.
    apply Hfresh. cbn [fmap list_fmap]. by right.
  - assert (Hno : (list_to_map rows : gmap Z (list Z)) !! i = None) by (by apply not_elem_of_list_to_map_1).
    destruct rows as [|r rows]; unfold gathered; cbn [g_ordered].
    + f_equal. simpl. by rewrite <- insert_union_l, (left_id_L ∅ (∪)).
    + f_equal. rewrite <- insert_union_r by done. rewrite insert_union_l. done.
Qed.

Lemma gather_match_rows rows : forall g,
  fits g rows -> Forall (fun r => validate_payload (M3MatchStateFragment hash r.1 count r.2) = Ok tt) rows ->
  gather_match_state g ((fun r => M3MatchStateFragment hash r.1 count r.2) <$> rows) = Ok (gathered g rows).
Proof.
  induction rows as [|[i f] rows IH]; intros g Hf Hv; [done|]. apply Forall_cons in Hv as [Hv1 Hv].
  destruct (gather_one_fits g i f rows Hf) as (g' & Hg & Hf' & <-).
  rewrite fmap_cons. cbn [gather_match_state]. rewrite Hv1. cbn [fst snd]. rewrite Hg. by apply IH.
Qed.

Lemma gather_checkpoint_rows who ep rows : forall g o q,
  fits g rows -> (o = None \/ o = Some who) -> (q = None \/ q = Some ep) ->
  Forall (fun r => validate_payload (M3MigrationFragment who ep hash r.1 count r.2) = Ok tt) rows ->
  gather_checkpoint o q g ((fun r => M3MigrationFragment who ep hash r.1 count r.2) <$> rows)
  = Ok (match rows with [] => o | _ => Some who end, match rows with [] => q | _ => Some ep end, gathered g rows).
Proof.
  induction rows as [|[i f] rows IH]; intros g o q Hf Ho Hq Hv; [done|]. apply Forall_cons in Hv as [Hv1 Hv].
  destruct (gather_one_fits g i f rows Hf) as (g' & Hg & Hf' & <-).
  rewrite fmap_cons. cbn [gather_checkpoint]. rewrite Hv1. cbn [fst snd].
  assert (Hd : disagrees o who = false) by (unfold disagrees; destruct Ho as [-> | ->]; simpl; [done|by rewrite bool_decide_true]).
  assert (Hd' : disagrees q ep = false) by (unfold disagrees; destruct Hq as [-> | ->]; simpl; [done|by rewrite bool_decide_true]).
  rewrite Hd, Hd'. simpl. rewrite Hg. rewrite (IH g' (Some who) (Some ep)); [|done|by right|by right|done].
  by destruct rows.
Qed.
End gather.

(** A complete set assembles to what was cut. *)
Lemma assembled_complete hash l rows :
  rows ≡ₚ numbered l -> l <> [] ->
  let g := gathered hash (Z.of_nat (length l)) gathered_none rows in
  assembled_bytes g (length rows) = Some (concat l) /\ g_hash g = Some hash.
Proof.
  intros Hp Hl. assert (Hlen : length rows = length l) by (rewrite (Permutation_length Hp); apply length_imap).
  destruct rows as [|r rows]; [by destruct l|]. cbv zeta. unfold gathered. split; [|done].
  unfold assembled_bytes. cbn [g_count g_ordered gathered_none]. rewrite (right_id_L ∅ (∪)), Hlen, Z.eqb_refl. cbn [negb orb].
  unfold btree_keys, btree_values. rewrite (numbered_map l) by done. destruct (numbered_spec l) as (_ & -> & ->).
  by rewrite bool_decide_true.
Qed.

(** ** Round trips *)

Lemma fragment_count_spec bytes size max count :
  0 < size -> fragment_count_of bytes size max = Some count ->
  count = Z.of_nat (length (chunks_of size bytes)) /\ 0 < count <= max /\ in_uint 16 count.
Proof.
  intros Hs Hc. unfold fragment_count_of in Hc. destruct (_ || _) eqn:Hg; [done|].
  apply orb_false_iff in Hg as [Hz%Z.eqb_neq Hm]. rewrite Z.gtb_ltb in Hm. apply Z.ltb_ge in Hm.
  unfold try_from_uint in Hc. destruct (uint_ok 16 _) eqn:Hu; [|done]. injection Hc as <-. apply uint_ok_true in Hu.
  unfold chunks_of. rewrite chunks_length by lia. rewrite Z2Nat.id by lia. split; [done|]. split; [|done].
  destruct Hu. lia.
Qed.

(** Every numbered chunk is a valid fragment. *)
Lemma numbered_valid size max bytes count :
  0 < size -> fragment_count_of bytes size max = Some count ->
  Forall (fun r => fragment_is_valid max size r.1 count r.2 = true) (numbered (chunks_of size bytes)).
Proof.
  intros Hs Hc. destruct (fragment_count_spec _ _ _ _ Hs Hc) as (-> & Hle & _).
  apply Forall_forall. intros [j c] Hj. apply elem_of_lookup_imap in Hj as (i & d & [= -> ->] & Hi).
  pose proof (chunks_bounded (Z.to_nat size) (length bytes) bytes ltac:(lia)) as Hb. fold (chunks_of size bytes) in Hb.
  rewrite Forall_lookup in Hb. destruct (Hb i d Hi) as [Hne Hlen].
  apply lookup_lt_Some in Hi. unfold fragment_is_valid. cbn [fst snd].
  assert (Hnz : (length d =? 0)%nat = false) by (apply Nat.eqb_neq; by destruct d).
  rewrite Hnz, !andb_true_iff, Z.gtb_ltb. simpl. split_and!; lia.
Qed.

Lemma numbered_fmap {A} (F : Z -> list Z -> A) l : imap (fun i c => F (Z.of_nat i) c) l = (fun r => F r.1 r.2) <$> numbered l.
Proof. unfold numbered. by rewrite fmap_imap. Qed.

Section json.
Context `{Crypto} `{LiveJson}.

Lemma match_state_reassembles state fragments arrived :
  fragment_m5_match_state state = Ok fragments -> parse_m5_state (json_m5_state state) = Some state ->
  arrived ≡ₚ fragments -> reassemble_m5_match_state arrived = Ok state.
Proof.
  unfold fragment_m5_match_state. intros Hf Hparse Hp. destruct (m5_is_canonical state) eqn:Hcan; [|done]. cbn [negb] in Hf.
  destruct (fragment_count_of _ _ _) as [count|] eqn:Hc; [|done]. injection Hf as <-.
  set (l := chunks_of M5_MATCH_STATE_FRAGMENT_BYTES (json_m5_state state)) in *.
  destruct (fragment_count_spec _ M5_MATCH_STATE_FRAGMENT_BYTES _ _ eq_refl Hc) as (Hcount & Hle & _). fold l in Hcount.
  pose proof (numbered_valid M5_MATCH_STATE_FRAGMENT_BYTES _ _ _ eq_refl Hc) as Hvalid. fold l in Hvalid.
  rewrite (numbered_fmap (fun i c => M3MatchStateFragment (sha2 (json_m5_state state)) i count c)) in Hp.
  apply Permutation_map_inv in Hp as (rows & -> & Hrows). symmetry in Hrows.
  assert (Hnd : NoDup rows.*1) by (rewrite Hrows; apply numbered_NoDup).
  assert (Hlen : length rows = length l) by (rewrite (Permutation_length Hrows); apply length_imap).
  assert (Hl : l <> []) by (intros Heq; rewrite Heq in Hcount; simpl in Hcount; lia).
  unfold reassemble_m5_match_state. rewrite length_map, Hlen.
  destruct (_ || _) eqn:Hg; [apply orb_true_iff in Hg as [Hg%Nat.eqb_eq|Hg]; [by destruct l|rewrite Z.gtb_ltb in Hg; lia]|].
  change (map ?f rows) with (f <$> rows).
  rewrite (gather_match_rows (sha2 (json_m5_state state)) count rows gathered_none).
  - subst count. destruct (assembled_complete (sha2 (json_m5_state state)) l rows Hrows Hl) as [Hb Hh].
    rewrite <- Hlen at 2. rewrite Hb, Hh.
    assert (Hconcat : concat l = json_m5_state state) by (apply chunks_concat; [change (0 < 384)%nat; lia|lia]).
    rewrite Hconcat, bool_decide_true by done. cbn [negb]. by rewrite Hparse, Hcan.
  - split_and!; [by left|by left|done|done].
  - apply Forall_forall. intros r Hr. rewrite Hrows in Hr. rewrite Forall_forall in Hvalid. unfold validate_payload.
    by rewrite (Hvalid r Hr).
Qed.

Lemma checkpoint_reassembles authority epoch checkpoint fragments arrived :
  fragment_m3_checkpoint authority epoch checkpoint = Ok fragments ->
  parse_m3_checkpoint (json_m3_checkpoint checkpoint) = Some checkpoint ->
  arrived ≡ₚ fragments -> reassemble_m3_checkpoint arrived = Ok (authority, epoch, checkpoint).
Proof.
  unfold fragment_m3_checkpoint. intros Hf Hparse Hp. destruct (checkpoint_supports _ _ _) eqn:Hcan; [|done]. cbn [negb] in Hf.
  destruct (fragment_count_of _ _ _) as [count|] eqn:Hc; [|done]. injection Hf as <-.
  set (bytes := json_m3_checkpoint checkpoint) in *. set (l := chunks_of M3_CHECKPOINT_FRAGMENT_BYTES bytes) in *.
  destruct (fragment_count_spec _ M3_CHECKPOINT_FRAGMENT_BYTES _ _ eq_refl Hc) as (Hcount & Hle & _). fold l in Hcount.
  pose proof (numbered_valid M3_CHECKPOINT_FRAGMENT_BYTES _ _ _ eq_refl Hc) as Hvalid. fold l in Hvalid.
  rewrite (numbered_fmap (fun i c => M3MigrationFragment authority epoch (sha2 bytes) i count c)) in Hp.
  apply Permutation_map_inv in Hp as (rows & -> & Hrows). symmetry in Hrows.
  assert (Hnd : NoDup rows.*1) by (rewrite Hrows; apply numbered_NoDup).
  assert (Hlen : length rows = length l) by (rewrite (Permutation_length Hrows); apply length_imap).
  assert (Hl : l <> []) by (intros Heq; rewrite Heq in Hcount; simpl in Hcount; lia).
  unfold reassemble_m3_checkpoint. rewrite length_map, Hlen.
  destruct (_ || _) eqn:Hg; [apply orb_true_iff in Hg as [Hg%Nat.eqb_eq|Hg]; [by destruct l|rewrite Z.gtb_ltb in Hg; lia]|].
  change (map ?f rows) with (f <$> rows).
  rewrite (gather_checkpoint_rows (sha2 bytes) count authority epoch rows gathered_none None None).
  - subst count. destruct (assembled_complete (sha2 bytes) l rows Hrows Hl) as [Hb Hh].
    rewrite <- Hlen at 2. rewrite Hb, Hh.
    assert (Hconcat : concat l = bytes) by (apply chunks_concat; [change (0 < 384)%nat; lia|lia]).
    rewrite Hconcat, bool_decide_true by done. cbn [negb]. rewrite Hparse.
    destruct rows as [|r rows]; [by destruct l|]. unfold m3_checkpoint_hash. fold bytes.
    rewrite bool_decide_true by done. by rewrite Hcan.
  - split_and!; [by left|by left|done|done].
  - by left.
  - by left.
  - apply Forall_forall. intros r Hr. rewrite Hrows in Hr. rewrite Forall_forall in Hvalid. unfold validate_payload.
    by rewrite (Hvalid r Hr).
Qed.
End json.
