(* ===== verification/LiveRun.v ===== *)
(** * What a live session guarantees

    Refused envelopes leave the truth alone, and the checkpoint of a migration arrives
    whole or not at all. *)

From S2P Require Import Prelude MachineInt Ordered Clock Bytes Identifiers WireVersion Stance Wire Model Sha256 Session Election Spur Combat.
From S2P Require Import M3 HorseVitality Recall OnFoot ActorGameplay AuthorityBank Aim WeaponKernel ShotLedger CombatAuthority M3Combat.
From S2P Require Import BountyPlacement Bounty BountyRun PeerSession PeerRun PeerSecure LiveState LiveStateRun LiveWire LiveSession LiveDemo LiveSigned LiveFragments.
From stdpp Require Import gmap.
Open Scope Z_scope.

Section live.
Context `{Crypto} `{LiveJson}.

(** ** Refusals *)

(** The session without its half-received messages. *)
Definition truth (s : M3SecureSession) : M3SecureSession := s <| pending_migration := None |> <| pending_match_state := None |>.

Definition keeps_truth (s : M3SecureSession) (r : M3SecureSession * AcceptOutcome) : Prop :=
  r.2 <> Accepted -> truth r.1 = truth s.

Lemma complete_match_state_keeps s e p now : keeps_truth s (complete_match_state s e p now).
Proof. unfold keeps_truth, complete_match_state. cbv zeta. repeat case_match; done. Qed.

Lemma accept_match_state_fragment_keeps s e hash i n now :
  keeps_truth s (accept_match_state_fragment s e hash i n now).
Proof.
  unfold accept_match_state_fragment. destruct (_ || _); [done|]. destruct (is_some_and (accepted_match s) _); [done|].
  set (s1 := if is_some_and (pending_match_state s) _ then _ else s).
  assert (H1 : truth s1 = truth s) by (unfold s1; by case_match).
  clearbody s1. set (d := is_some_and (pending_match_state s1) _). destruct (d && _); [by intros _|].
  set (s2 := if d then _ else s1). assert (H2 : truth s2 = truth s) by (unfold s2; by case_match).
  clearbody s2. set (p := default _ _). cbv zeta. destruct (_ || _); [by intros _|].
  destruct (negb _); [by intros _|]. intros Ho. rewrite <- H2.
  apply (complete_match_state_keeps (s2 <| pending_match_state := _ |>)) in Ho. exact Ho.
Qed.

Lemma complete_migration_keeps s e p now ok : keeps_truth s (complete_migration s e p now ok).
Proof. unfold keeps_truth, complete_migration. cbv zeta. repeat case_match; done. Qed.

Lemma accept_migration_fragment_keeps s e w ep hash i n now ok :
  keeps_truth s (accept_migration_fragment s e w ep hash i n now ok).
Proof.
  unfold accept_migration_fragment. destruct (_ || _); [done|]. destruct (_ <=? _); [done|].
  set (s1 := if is_some_and (pending_migration s) _ then _ else s).
  assert (H1 : truth s1 = truth s) by (unfold s1; by case_match). clearbody s1. set (p := default _ _). cbv zeta.
  destruct (_ || _); [by intros _|]. destruct (fragment_held _ _ _); [by intros _|].
  destruct (negb _); [by intros _|]. intros Ho. rewrite <- H1.
  apply (complete_migration_keeps (s1 <| pending_migration := _ |>)) in Ho. exact Ho.
Qed.

Lemma accept_whole_keeps s e now : (accept_whole s e now).2 <> Accepted -> (accept_whole s e now).1 = s.
Proof.
  unfold accept_whole. by destruct (whole_refusal s e now).
Qed.

Lemma accept_authenticated_keeps s e now ok : keeps_truth s (accept_authenticated s e now ok).
Proof.
  unfold accept_authenticated. destruct (negb _); [done|]. destruct (_ <? _); [done|]. destruct (is_none _); [done|].
  destruct (m3_payload e); try (intros Ho; by rewrite accept_whole_keeps).
  - apply accept_match_state_fragment_keeps.
  - apply accept_migration_fragment_keeps.
Qed.

(** Admission: version, signature, endpoint, roster and a canonical payload. *)
Definition m3_authentic (self : M3SecureSession) (e : M3EnvelopeV2) (source : SocketAddr) (current : option NodeKey) : Prop :=
  m3_version e = M3_WIRE_VERSION /\ validate_payload (m3_payload e) = Ok tt /\
  exists binding entry,
    m3_session e = Some binding /\ find_entry (live_manifest self) (m3_sender e) = Some entry /\
    tailnet_address entry = socket_ip source /\ application_port entry = socket_port source /\
    (forall claimed now_key, node_key entry = Some claimed -> current = Some now_key -> claimed = now_key) /\
    m3_lobby_id e = manifest_lobby_id (live_manifest self) /\
    binding_network_generation binding = network_generation (live_manifest self) /\
    binding_session_generation binding = session_generation (live_manifest self) /\
    binding_roster_hash binding = live_roster_hash self /\
    verify_strict (key_bytes (session_public_key entry))
      (sha2 (m3_signed_bytes e (network_generation (live_manifest self)) (session_generation (live_manifest self)) (live_roster_hash self)))
      (signature_bytes (binding_signature binding)) = true.

Lemma m3_secure_refusal_none self e source current :
  m3_secure_refusal self e source current = None -> m3_authentic self e source current.
Proof.
  unfold m3_secure_refusal. destruct (bool_decide_reflect (m3_version e = M3_WIRE_VERSION)) as [Hver|]; [|done]. simpl.
  destruct (m3_session e) as [b|] eqn:Hb; [|done]. destruct (find_entry _ _) as [entry|] eqn:Hf; [|done].
  destruct (bool_decide_reflect (tailnet_address entry = socket_ip source)) as [Ha|]; [|done]. simpl.
  destruct (Z.eqb_spec (application_port entry) (socket_port source)) as [Hp|]; [|done]. simpl.
  destruct (match node_key entry with Some _ => _ | None => _ end) eqn:Hn; [done|].
  destruct (bool_decide_reflect (m3_lobby_id e = manifest_lobby_id (live_manifest self))) as [Hl|]; [|done]. simpl.
  destruct (Z.eqb_spec (binding_network_generation b) (network_generation (live_manifest self))) as [Hg|]; [|done]. simpl.
  destruct (Z.eqb_spec (binding_session_generation b) (session_generation (live_manifest self))) as [Hs|]; [|done]. simpl.
  destruct (bool_decide_reflect (binding_roster_hash b = live_roster_hash self)) as [Hr|]; [|done]. simpl.
  unfold verify_digest. destruct (valid_key _) eqn:Hv; [|done]. simpl.
  destruct (verify_strict _ _ _) eqn:Hsig; [|done]. destruct (validate_payload (m3_payload e)) as [[]|] eqn:Hval; [|done].
  intros _. split; [done|]. split; [done|]. exists b, entry. rewrite Hg, Hs, Hr in Hsig. split_and!; try done.
  intros claimed k Hc Hk. rewrite Hc, Hk in Hn. apply negb_false_iff in Hn. by apply bool_decide_eq_true in Hn.
Qed.

(** C22. A refused envelope changes nothing a player could see. Whatever arrives, unless
    it is accepted the roster, the session state with its sequences, receipts and
    authority, the installed checkpoint, the keyframes and the accepted snapshot and
    match state stay as they were; only half-received messages may come and go. And
    what is accepted was signed with the roster's key over its own content, from the
    roster's endpoint, with a canonical payload. *)
Theorem refused_changes_nothing s e source current now ok :
  let '(s', o) := accept_with_source_validated s e source current now ok in
  (o <> Accepted -> truth s' = truth s) /\ (o = Accepted -> m3_authentic s e source current).
Proof.
  unfold accept_with_source_validated. destruct (m3_secure_refusal s e source current) as [o|] eqn:Hr.
  - split; [done|]. intros ->. exfalso. unfold m3_secure_refusal in Hr. repeat case_match; congruence.
  - pose proof (accept_authenticated_keeps s e now ok) as Hk. unfold keeps_truth in Hk.
    destruct (accept_authenticated s e now ok) as [s' o]. split; [done|]. intros _. by apply m3_secure_refusal_none.
Qed.

(** ** Migration in fragments *)

(** [set_first] and [set_last] of a set of sequences. *)
Lemma set_first_in s x : set_first s = Some x -> x ∈ s.
Proof.
  unfold set_first. destruct (merge_sort Z.le (elements s)) as [|y l] eqn:Hm; [done|]. intros [= <-].
  apply elem_of_elements. rewrite <- (merge_sort_Permutation Z.le (elements s)), Hm. left.
Qed.
Lemma set_first_some s x : x ∈ s -> is_Some (set_first s).
Proof.
  intros Hx%elem_of_elements. unfold set_first. rewrite <- (merge_sort_Permutation Z.le (elements s)) in Hx.
  destruct (merge_sort Z.le (elements s)); [by apply elem_of_nil in Hx|by eexists].
Qed.

(** The arrivals: each envelope with the time it is received. *)
Lemma last_sorted (l : list Z) x : StronglySorted Z.le l -> last l = Some x -> forall y, y ∈ l -> y <= x.
Proof.
  induction l as [|a l IH]; [done|]. intros [Hl Ha]%StronglySorted_inv Hx y Hy. destruct l as [|b l].
  - injection Hx as <-. apply list_elem_of_singleton in Hy. lia.
  - specialize (IH Hl Hx). apply elem_of_cons in Hy as [->|Hy]; [|by apply IH].
    rewrite Forall_forall in Ha. specialize (Ha b ltac:(left)). specialize (IH b ltac:(left)). lia.
Qed.
(** The highest of some sequences, as the set that holds them gives it. *)
Definition highest (l : list Z) : Z := default 0 (set_last (list_to_set l)).
Lemma highest_spec l : l <> [] -> highest l ∈ l /\ Forall (fun q => q <= highest l) l.
Proof.
  intros Hne. unfold highest, set_last. set (sorted := merge_sort Z.le _).
  assert (Hperm : sorted ≡ₚ elements (list_to_set (C := gset Z) l)) by apply merge_sort_Permutation.
  assert (Hin : forall q, q ∈ sorted <-> q ∈ l) by (intros q; by rewrite Hperm, elem_of_elements, elem_of_list_to_set).
  destruct (last sorted) as [x|] eqn:Hx.
  - cbn [default from_option]. split; [by apply Hin, last_Some_elem_of|]. apply Forall_forall. intros q Hq%Hin.
    eapply last_sorted; [|exact Hx|exact Hq]. apply StronglySorted_merge_sort; apply _.
  - apply last_None in Hx. destruct l as [|q l]; [done|]. pose proof (proj2 (Hin q) ltac:(left)) as Hq. rewrite Hx in Hq. by apply elem_of_nil in Hq.
Qed.
Lemma highest_perm l l' : l ≡ₚ l' -> highest l = highest l'.
Proof. intros Hp. unfold highest. by rewrite (list_to_set_perm_L l l' Hp). Qed.

Fixpoint deliver (s : M3SecureSession) (arrivals : list (M3EnvelopeV2 * Z)) (ok : M3MatchCheckpointV2 -> bool)
    : M3SecureSession * list AcceptOutcome :=
  match arrivals with
  | [] => (s, [])
  | (e, now) :: rest =>
      let '(s1, o) := accept_authenticated s e now ok in
      let '(s2, os) := deliver s1 rest ok in (s2, o :: os)
  end.

Section migration.
Variables (w : PlayerId) (ep t0 : Z) (hash : list Z) (count : Z).
Definition fragment_index (e : M3EnvelopeV2) : Z :=
  match m3_payload e with M3MigrationFragment _ _ _ index _ _ => index | _ => 0 end.

(** One fragment of this migration, receivable by [s] at [now]. *)
Definition arrives (s : SessionState) (a : M3EnvelopeV2 * Z) : Prop :=
  let '(e, now) := a in
  (exists index fragment, m3_payload e = M3MigrationFragment w ep hash index count fragment) /\
  m3_sender e = w /\ m3_epoch e = ep /\ m3_lobby_id e = lobby_id s /\ last_heard s w < m3_sequence e /\
  t0 <= now < t0 + HEARTBEAT_TIMEOUT_MS /\ authority_claim_is_coherent s w w ep now = true.

Definition collected (l : list M3EnvelopeV2) : PendingMigration :=
  mkPendingMigration w ep hash count t0 (list_to_map ((fun e => (fragment_index e, e)) <$> l)).

Definition distinct (l : list M3EnvelopeV2) : Prop := NoDup (fragment_index <$> l) /\ NoDup (m3_sequence <$> l).

Lemma collected_size l : NoDup (fragment_index <$> l) -> size (pm_envelopes (collected l)) = length l.
Proof.
  intros Hnd. unfold collected. simpl. rewrite <- length_map_to_list, map_to_list_to_map, length_fmap; [done|].
  by rewrite <- list_fmap_compose.
Qed.

Lemma collected_values l : NoDup (fragment_index <$> l) -> btree_values (pm_envelopes (collected l)) ≡ₚ l.
Proof.
  intros Hnd. unfold btree_values. rewrite btree_list_perm. unfold collected. simpl.
  rewrite map_to_list_to_map by (by rewrite <- list_fmap_compose). rewrite <- list_fmap_compose. by rewrite list_fmap_id.
Qed.

Lemma not_held l e :
  distinct (e :: l) -> fragment_held (pm_envelopes (collected l)) (fragment_index e) (m3_sequence e) = false.
Proof.
  intros [Hi Hs]. rewrite fmap_cons in Hi, Hs. apply NoDup_cons in Hi as [Hi Hnd], Hs as [Hs _].
  unfold fragment_held. apply orb_false_iff. split.
  - unfold collected. simpl. rewrite (not_elem_of_list_to_map_1 _ (fragment_index e)); [done|].
    by rewrite <- list_fmap_compose.
  - apply not_true_iff_false. intros (c & Hc & Heq%Z.eqb_eq)%existsb_exists.
    apply list_elem_of_In in Hc. rewrite collected_values in Hc by done.
    apply Hs. rewrite <- Heq. by apply list_elem_of_fmap_2.
Qed.

Lemma in_time now : t0 <= now < t0 + HEARTBEAT_TIMEOUT_MS -> timed_out now t0 = false.
Proof. unfold timed_out, saturating_sub. intros Hn. apply Z.leb_gt. lia. Qed.

(** One more fragment of an incomplete set. *)
Lemma fragment_pending s l a ok :
  arrives (live_state s) a -> is_Some (peers (live_state s) !! w) -> session_epoch (live_state s) <= ep ->
  pending_migration s = (if (length l =? 0)%nat then None else Some (collected l)) ->
  (length l = 0%nat -> a.2 = t0) -> distinct (a.1 :: l) ->
  let s1 := s <| pending_migration := Some (collected (a.1 :: l)) |> in
  accept_authenticated s a.1 a.2 ok =
    (if Z.of_nat (S (length l)) =? count then complete_migration s1 a.1 (collected (a.1 :: l)) a.2 ok
     else (s1, PeerSession.PendingMigration)).
Proof.
  destruct a as [e now]. intros ((index & fragment & Hpay) & Hw & Hep & Hlobby & Hseq & Htime & Hcoh) Hmem Hle Hpend Hfirst Hd.
  cbn [fst snd] in *. cbv zeta. unfold accept_authenticated.
  rewrite Hlobby, bool_decide_true by done. cbn [negb]. rewrite Hep, Hw, Hpay.
  destruct (Z.ltb_spec ep (session_epoch (live_state s))); [lia|].
  destruct Hmem as [peer Hmem]. rewrite Hmem. cbn [is_none is_some negb].
  unfold accept_migration_fragment. rewrite Hw, Hep, bool_decide_true, Z.eqb_refl, Hcoh by done. cbn [negb orb].
  destruct (Z.leb_spec (m3_sequence e) (last_heard (live_state s) w)); [lia|].
  assert (Htimeout : is_some_and (pending_migration s) (fun pending => timed_out now (pm_started_ms pending)) = false).
  { rewrite Hpend. destruct (length l =? 0)%nat; [done|]. simpl. by apply in_time. }
  rewrite Htimeout.
  assert (Hdef : default (mkPendingMigration w ep hash count now ∅) (pending_migration s) = collected l).
  { rewrite Hpend. destruct (Nat.eqb_spec (length l) 0) as [Hl|Hl]; [|done]. destruct l; [|done].
    rewrite Hfirst by done. done. }
  rewrite Hdef. cbn [pm_authority pm_epoch pm_hash pm_count collected].
  rewrite !bool_decide_true, !Z.eqb_refl by done. cbn [negb orb].
  assert (Hidx : index = fragment_index e) by (unfold fragment_index; by rewrite Hpay).
  fold (collected l). rewrite Hidx, not_held by done.
  assert (Hins : (collected l) <| pm_envelopes := <[fragment_index e := e]> (pm_envelopes (collected l)) |> = collected (e :: l)) by done.
  rewrite Hins. rewrite collected_size by (by destruct Hd). cbn [length].
  destruct (Z.of_nat (S (length l)) =? count); done.
Qed.

(** The last fragment completes the set and installs the checkpoint. *)
Definition installed (s : M3SecureSession) (from : PlayerId) (last now : Z) (ck : M3MatchCheckpointV2) : M3SecureSession :=
  let combat := m3_combat ck in
  let receipts := (fun '(shooter, tick) => (source_epoch combat, shooter, tick)) <$> resolved_shots combat in
  let heard := hear (live_state s) from last now true in
  let st := heard <| applied_shot_results := list_to_set receipts ∪ applied_shot_results heard |>
                  <| session_authority := w |> <| session_epoch := ep |> in
  forget_streams ((s <| pending_migration := None |>) <| live_state := st |> <| installed_checkpoint := Some ck |>).

Lemma sequences_of l : NoDup (fragment_index <$> l) -> held_sequences (pm_envelopes (collected l)) = list_to_set (m3_sequence <$> l).
Proof.
  intros Hnd. unfold held_sequences. apply set_eq. intros q. rewrite !elem_of_list_to_set.
  by rewrite (collected_values l Hnd).
Qed.

Lemma complete_installs s e l ck fragments now ok :
  fragment_m3_checkpoint w ep ck = Ok fragments -> parse_m3_checkpoint (json_m3_checkpoint ck) = Some ck ->
  ok ck = true -> m3_payload <$> l ≡ₚ fragments -> distinct l -> l <> [] ->
  m3_sender e = w -> authority_claim_is_coherent (live_state s) w w ep now = true ->
  Forall (fun c => last_heard (live_state s) w < m3_sequence c) l ->
  Forall (fun c => m3_tick c = checkpoint_tick (m3_combat ck)) l ->
  complete_migration s e (collected l) now ok = (installed s w (highest (m3_sequence <$> l)) now ck, Accepted).
Proof.
  intros Hfrag Hparse Hok Hperm [Hi Hs] Hne Hw Hcoh Hlast Htick. unfold complete_migration.
  pose proof (collected_values l Hi) as Hvals.
  rewrite (checkpoint_reassembles w ep ck fragments _ Hfrag Hparse) by (by rewrite Hvals).
  assert (Hticks : existsb (fun candidate => negb (m3_tick candidate =? checkpoint_tick (m3_combat ck)))
    (btree_values (pm_envelopes (collected l))) = false).
  { apply not_true_iff_false. intros (c & Hc & Heq)%existsb_exists. apply list_elem_of_In in Hc. rewrite Hvals in Hc.
    rewrite Forall_forall in Htick. rewrite (Htick c Hc), Z.eqb_refl in Heq. done. }
  rewrite Hticks, Hw. cbn [live_state set_field orb]. rewrite Hcoh, Hok. cbn [negb].
  assert (Hsize : size (held_sequences (pm_envelopes (collected l))) = size (pm_envelopes (collected l))).
  { rewrite sequences_of, collected_size by done. rewrite size_list_to_set by done. apply length_fmap. }
  rewrite Hsize, Nat.eqb_refl. cbn [negb orb].
  assert (Hfirst : is_none_or (set_first (held_sequences (pm_envelopes (collected l))))
    (fun sequence => sequence <=? last_heard (live_state s) w) = false).
  { rewrite sequences_of by done. destruct (set_first_some (list_to_set (m3_sequence <$> l)) (from_option m3_sequence 0 (head l))) as [x Hx].
    - destruct l as [|c l]; [done|]. apply elem_of_list_to_set. left.
    - rewrite Hx. apply set_first_in, elem_of_list_to_set, list_elem_of_fmap in Hx as (c & -> & Hc).
      rewrite Forall_forall in Hlast. specialize (Hlast c Hc). simpl. apply Z.leb_gt. lia. }
  rewrite Hfirst. unfold highest. by rewrite <- sequences_of.
Qed.

Definition step_state (s : M3SecureSession) (l : list M3EnvelopeV2) : M3SecureSession :=
  s <| pending_migration := if (length l =? 0)%nat then None else Some (collected l) |>.

Lemma deliver_rest s ck fragments ok rest : forall l,
  fragment_m3_checkpoint w ep ck = Ok fragments -> parse_m3_checkpoint (json_m3_checkpoint ck) = Some ck -> ok ck = true ->
  is_Some (peers (live_state s) !! w) -> session_epoch (live_state s) <= ep ->
  rest <> [] -> Z.of_nat (length l + length rest) = count -> m3_payload <$> (rest.*1 ++ l) ≡ₚ fragments ->
  distinct (rest.*1 ++ l) -> Forall (arrives (live_state s)) rest ->
  (length l = 0%nat -> from_option snd 0 (head rest) = t0) ->
  Forall (fun c => last_heard (live_state s) w < m3_sequence c) l ->
  Forall (fun c => m3_tick c = checkpoint_tick (m3_combat ck)) (rest.*1 ++ l) ->
  deliver (step_state s l) rest ok
    = (installed s w (highest (m3_sequence <$> rest.*1 ++ l)) (from_option snd 0 (last rest)) ck,
       repeat PeerSession.PendingMigration (length rest - 1) ++ [Accepted]) /\
  forall n, (n < length rest)%nat -> exists held, (deliver (step_state s l) (take n rest) ok).1 = s <| pending_migration := held |>.
Proof.
  induction rest as [|a rest IH]; intros l Hfrag Hparse Hok Hmem Hle Hne Hcount Hperm Hd Harr Htime Hlast Htick; [done|].
  apply Forall_cons in Harr as [Ha Harr]. simpl in Hcount.
  assert (Hshuffle : rest.*1 ++ a.1 :: l ≡ₚ (a :: rest).*1 ++ l) by (simpl; by rewrite Permutation_middle).
  assert (Hd' : distinct (rest.*1 ++ a.1 :: l)) by (destruct Hd as [Hd1 Hd2]; split; by rewrite Hshuffle).
  assert (Hal : distinct (a.1 :: l)).
  { destruct Hd' as [Hd1 Hd2]. rewrite fmap_app in Hd1, Hd2. split; eapply NoDup_app; [exact Hd1|exact Hd2]. }
  assert (Hlast' : Forall (fun c => last_heard (live_state s) w < m3_sequence c) (a.1 :: l)).
  { constructor; [|done]. destruct a as [e now]. by destruct Ha as (_ & _ & _ & _ & Hseq & _). }
  pose proof (fragment_pending (step_state s l) l a ok Ha Hmem Hle eq_refl Htime Hal) as Hstep. cbv zeta in Hstep.
  destruct a as [e now]. cbn [fst snd] in *. cbn [deliver]. rewrite Hstep.
  assert (Hzero : exists held, (deliver (step_state s l) (take 0 ((e, now) :: rest)) ok).1 = s <| pending_migration := held |>)
    by (by eexists).
  destruct rest as [|b rest].
  - simpl in Hcount. replace (Z.of_nat (S (length l)) =? count) with true by (symmetry; apply Z.eqb_eq; lia).
    destruct Ha as (_ & Hw & _ & _ & _ & _ & Hcoh).
    rewrite (complete_installs ((step_state s l) <| pending_migration := Some (collected (e :: l)) |>) e (e :: l) ck fragments now ok)
      by done. split; [done|]. intros [|n] Hn; [done|]. simpl in Hn. lia.
  - simpl in Hcount. replace (Z.of_nat (S (length l)) =? count) with false by (symmetry; apply Z.eqb_neq; lia).
    destruct (IH (e :: l)) as (Hdel & Hpre); try done; [simpl; lia|by rewrite Hshuffle|by rewrite Hshuffle|].
    change ((step_state s l) <| pending_migration := Some (collected (e :: l)) |>) with (step_state s (e :: l)) in *.
    rewrite Hdel. rewrite (highest_perm _ _ (fmap_Permutation m3_sequence _ _ Hshuffle)). split.
    + simpl. by rewrite Nat.sub_0_r.
    + intros [|n] Hn; [done|]. destruct (Hpre n ltac:(simpl in *; lia)) as [held Heq]. exists held.
      cbn [take deliver]. rewrite Hstep, <- Heq.
      replace (Z.of_nat (S (length l)) =? count) with false by (symmetry; apply Z.eqb_neq; lia). by destruct (deliver (step_state s (e :: l)) (take n (b :: rest)) ok).
Qed.
End migration.

(** What the sender and the clock must satisfy for one arrival. *)
Definition timely (s : M3SecureSession) (w : PlayerId) (ep tick t0 : Z) (a : M3EnvelopeV2 * Z) : Prop :=
  m3_sender a.1 = w /\ m3_epoch a.1 = ep /\ m3_lobby_id a.1 = lobby_id (live_state s) /\ m3_tick a.1 = tick /\
  last_heard (live_state s) w < m3_sequence a.1 /\ t0 <= a.2 < t0 + HEARTBEAT_TIMEOUT_MS /\
  authority_claim_is_coherent (live_state s) w w ep a.2 = true.

Lemma fragments_indexed w ep ck fragments :
  fragment_m3_checkpoint w ep ck = Ok fragments ->
  exists count, fragments = (fun r => M3MigrationFragment w ep (sha2 (json_m3_checkpoint ck)) r.1 count r.2)
                  <$> numbered (chunks_of M3_CHECKPOINT_FRAGMENT_BYTES (json_m3_checkpoint ck)) /\
    count = Z.of_nat (length fragments) /\ 0 < count.
Proof.
  unfold fragment_m3_checkpoint. intros Hf. destruct (negb _); [done|].
  destruct (fragment_count_of _ _ _) as [count|] eqn:Hc; [|done]. injection Hf as <-.
  destruct (fragment_count_spec _ M3_CHECKPOINT_FRAGMENT_BYTES _ _ eq_refl Hc) as (Hcount & Hle & _).
  exists count. rewrite length_imap. split; [|split; [done|lia]].
  apply (numbered_fmap (fun i c => M3MigrationFragment w ep (sha2 (json_m3_checkpoint ck)) i count c)).
Qed.

Lemma arrivals_distinct w ep hash count ck (fragments : list M3PeerPayloadV2) (arrivals : list (M3EnvelopeV2 * Z)) :
  fragments = (fun r => M3MigrationFragment w ep hash r.1 count r.2) <$> numbered (chunks_of M3_CHECKPOINT_FRAGMENT_BYTES ck) ->
  m3_payload <$> arrivals.*1 ≡ₚ fragments -> NoDup (fragment_index <$> arrivals.*1).
Proof.
  intros Hfs Hperm. set (pick p := match p with M3MigrationFragment _ _ _ index _ _ => index | _ => 0 end).
  change (NoDup ((pick ∘ m3_payload) <$> arrivals.*1)). rewrite list_fmap_compose, Hperm, Hfs, <- list_fmap_compose.
  apply numbered_NoDup.
Qed.
Lemma timely_arrives s w ep tick t0 hash count ck (fragments : list M3PeerPayloadV2) arrivals :
  fragments = (fun r => M3MigrationFragment w ep hash r.1 count r.2) <$> numbered (chunks_of M3_CHECKPOINT_FRAGMENT_BYTES ck) ->
  m3_payload <$> arrivals.*1 ≡ₚ fragments -> Forall (timely s w ep tick t0) arrivals ->
  Forall (arrives w ep t0 hash count (live_state s)) arrivals.
Proof.
  intros Hfs Hperm Htimely. rewrite Forall_forall in Htimely |- *. intros [e now] Ha.
  destruct (Htimely _ Ha) as (Hw & He & Hl & Ht & Hq & Hn & Hc). cbn [fst snd] in *. split_and!; try done; try lia.
  assert (Hin : m3_payload e ∈ m3_payload <$> arrivals.*1) by (apply list_elem_of_fmap_2, (list_elem_of_fmap_2 fst _ _ Ha)).
  rewrite Hperm, Hfs in Hin. apply list_elem_of_fmap in Hin as ([i c] & Hin & _). by exists i, c.
Qed.

(** C6. A migration arrives whole, in any order. Take a session that is collecting no
    migration, and the fragments of a checkpoint that the local check admits, sent by a
    member of the roster who is the coherent successor under an epoch no lower than the
    present one, under pairwise distinct sequences it has not used yet. In whatever
    order they arrive, within two seconds of the first: until the last one arrives
    nothing changes but the fragments held, and the last one leaves exactly the session
    with the checkpoint installed, the new authority and epoch, the receipts of the
    checkpoint added, the successor heard then with its highest sequence, the fragments
    released and the streams of the old authority forgotten. *)
Theorem migration_delivered s w ep ck fragments arrivals ok :
  fragment_m3_checkpoint w ep ck = Ok fragments -> parse_m3_checkpoint (json_m3_checkpoint ck) = Some ck -> ok ck = true ->
  pending_migration s = None -> is_Some (peers (live_state s) !! w) -> session_epoch (live_state s) <= ep ->
  m3_payload <$> arrivals.*1 ≡ₚ fragments -> NoDup (m3_sequence <$> arrivals.*1) ->
  Forall (timely s w ep (checkpoint_tick (m3_combat ck)) (from_option snd 0 (head arrivals))) arrivals ->
  (forall n, (n < length arrivals)%nat -> exists held,
     (deliver s (take n arrivals) ok).1 = s <| pending_migration := held |>) /\
  exists highest now, (highest ∈ m3_sequence <$> arrivals.*1) /\ Forall (fun q => q <= highest) (m3_sequence <$> arrivals.*1) /\
    snd <$> last arrivals = Some now /\
    deliver s arrivals ok =
      (let receipts := (fun '(shooter, tick) => (source_epoch (m3_combat ck), shooter, tick)) <$> resolved_shots (m3_combat ck) in
       let heard := hear (live_state s) w highest now true in
       mkM3SecureSession (live_manifest s) (live_roster_hash s)
         (heard <| applied_shot_results := list_to_set receipts ∪ applied_shot_results heard |>
                <| session_authority := w |> <| session_epoch := ep |>)
         None None (Some ck) ∅ ∅ None None,
       repeat PeerSession.PendingMigration (length arrivals - 1) ++ [Accepted]).
Proof.
  intros Hfrag Hparse Hok Hpend Hmem Hle Hperm Hseq Htimely.
  destruct (fragments_indexed w ep ck fragments Hfrag) as (count & Hfs & Hcount & Hpos).
  assert (Hlen : length arrivals = length fragments) by (by rewrite <- (Permutation_length Hperm), !length_fmap).
  assert (Hne : arrivals <> []) by (intros ->; simpl in Hlen; lia).
  set (t0 := from_option snd 0 (head arrivals)) in *. set (hash := sha2 (json_m3_checkpoint ck)) in *.
  assert (Hidx : NoDup (fragment_index <$> arrivals.*1)) by (by eapply arrivals_distinct).
  assert (Harr : Forall (arrives w ep t0 hash count (live_state s)) arrivals) by (by eapply timely_arrives).
  destruct (deliver_rest w ep t0 hash count s ck fragments ok arrivals []) as (Hdel & Hpre); try done.
  - simpl. lia.
  - by rewrite app_nil_r.
  - split; by rewrite app_nil_r.
  - rewrite app_nil_r. rewrite Forall_fmap. eapply Forall_impl; [exact Htimely|]. intros [e now] (_ & _ & _ & Ht & _). exact Ht.
  - assert (Hstep : step_state w ep t0 hash count s [] = s) by (unfold step_state; simpl; destruct s; simpl in *; by subst).
    rewrite Hstep, app_nil_r in *. split; [exact Hpre|].
    destruct (last arrivals) as [a|] eqn:Hlast; [|by apply last_None in Hlast].
    destruct (highest_spec (m3_sequence <$> arrivals.*1)) as [H1 H2]; [by destruct arrivals|].
    exists (highest (m3_sequence <$> arrivals.*1)), a.2. split; [exact H1|]. split; [exact H2|]. split; [done|].
    rewrite Hdel. by destruct s.
Qed.
End live.

(** ** Witnesses *)

Import LiveDemo.

Lemma refused_changes_nothing_witness :
  truth (accept_with_source_validated (session_of 2) (fragment_of 0 5 []) (address 1) None 2000 (fun _ => true)).1
    = truth (session_of 2).
Proof.
  pose proof (refused_changes_nothing (session_of 2) (fragment_of 0 5 []) (address 1) None 2000 (fun _ => true)) as Hw.
  assert (Ho : (accept_with_source_validated (session_of 2) (fragment_of 0 5 []) (address 1) None 2000 (fun _ => true)).2
    = UnsignedInSecureMode) by (vm_compute; reflexivity).
  destruct (accept_with_source_validated _ _ _ _ _ _) as [s' o]. simpl in Ho |- *. subst o. by apply Hw.
Defined.

Lemma demo_arrivals_timely :
  Forall (timely (session_of 2) (player 1) 2 60 2000) arrivals.
Proof. repeat (apply List.Forall_cons; [split_and!; vm_compute; done|]). apply List.Forall_nil. Qed.

Lemma migration_delivered_witness :
  let '(s', outcomes) := deliver (session_of 2) arrivals (fun _ => true) in
  outcomes = [PeerSession.PendingMigration; Accepted] /\ session_authority (live_state s') = player 1 /\
  session_epoch (live_state s') = 2.
Proof.
  destruct (migration_delivered (session_of 2) (player 1) 2 whole_match (reverse (m3_payload <$> arrivals.*1)) arrivals (fun _ => true))
    as (_ & highest & now & _ & _ & _ & Hdel).
  - vm_compute. reflexivity.
  - reflexivity.
  - reflexivity.
  - reflexivity.
  - vm_compute. by eexists.
  - vm_compute. done.
  - symmetry. apply reverse_Permutation.
  - by apply (bool_decide_unpack _).
  - exact demo_arrivals_timely.
  - rewrite Hdel. split; [reflexivity|]. split; reflexivity.
Defined.
