(* ===== verification/LiveStream.v ===== *)
(** * The snapshot stream ([spurfire-net/src/v2.rs])

    An authority sends snapshots as keyframes and deltas; whatever is lost, repeated or
    forged on the way, what a receiver rebuilds is what the authority sent. *)

From S2P Require Import Prelude MachineInt Ordered Clock Bytes Identifiers WireVersion Stance Wire Model Sha256 Session Election Spur Combat.
From S2P Require Import M3 HorseVitality Recall OnFoot ActorGameplay AuthorityBank Aim WeaponKernel ShotLedger CombatAuthority M3Combat.
From S2P Require Import BountyPlacement Bounty PeerSession PeerRun LiveState LiveStateRun LiveWire LiveSession LiveDemo LiveRun.
From stdpp Require Import gmap.
Open Scope Z_scope.

(** Between snapshots of one rider a delta rebuilds the newer one. *)
Lemma delta_apply_between t base current :
  snap_rider base = snap_rider current -> snapshot_is_canonical current = true ->
  delta_apply (delta_between t base current) base = Some current.
Proof.
  intros Hr Hc. apply delta_apply_spec. rewrite patched_between by done. simpl. rewrite !flattened_flag. by split_and!.
Qed.

Section stream.
Context `{Crypto} `{LiveJson}.

(** ** The sender *)

(** The envelopes an authority signs for its snapshots, each with the snapshot meant. *)
Fixpoint stream (self : M3SecureSession) (key : SigningKey) (sends : list (Z * M3PeerPayloadV2))
    : list (M3EnvelopeV2 * M3ActorSnapshot) :=
  match sends with
  | [] => []
  | (tick, p) :: rest =>
      let '(self', sent) := m3_envelope self tick p key in
      match p, sent with
      | M3Snapshot snapshot, Ok e => (e, snapshot) :: stream self' key rest
      | _, _ => stream self' key rest
      end
  end.

(** The snapshots of one rider carry ascending ticks. *)
Definition ascending (a b : Z * M3PeerPayloadV2) : Prop :=
  match a.2, b.2 with
  | M3Snapshot s, M3Snapshot s' => snap_rider s = snap_rider s' -> a.1 < b.1
  | _, _ => True
  end.

(** What the envelope of a snapshot carries: itself, or its change since a keyframe. *)
Definition carries (held : gmap PlayerId (Z * M3ActorSnapshot)) (e : M3EnvelopeV2) (snapshot : M3ActorSnapshot) : Prop :=
  m3_payload e = M3Snapshot snapshot \/
  exists tick base, held !! snap_rider snapshot = Some (tick, base) /\ tick < m3_tick e /\
    m3_payload e = M3SnapshotDelta (delta_between tick base snapshot).

Lemma m3_sign_spec self e key e' :
  m3_sign self e key = Ok e' -> exists b, e' = e <| m3_session := Some b |>.
Proof.
  unfold m3_sign. destruct (negb _); [done|]. destruct (find_entry _ _); [|done]. destruct (negb _); [done|].
  intros [= <-]. by eexists.
Qed.

Lemma m3_envelope_sent self tick p key self' r :
  m3_envelope self tick p key = (self', r) ->
  (forall e, r = Ok e -> m3_tick e = tick /\ choose_payload self tick p = Ok (m3_payload e)) /\
  sent_actor_keyframes self' =
    match r with
    | Ok e => match m3_payload e with
              | M3Snapshot snapshot => <[snap_rider snapshot := (tick, snapshot)]> (sent_actor_keyframes self)
              | _ => sent_actor_keyframes self
              end
    | Err _ => sent_actor_keyframes self
    end.
Proof.
  unfold m3_envelope. destruct (choose_payload self tick p) as [p'|] eqn:Hp; [|by intros [= <- <-]].
  destruct (validate_payload p'); [|by intros [= <- <-]]. destruct (negb _); [by intros [= <- <-]|].
  destruct (m3_sign _ _ _) as [e|] eqn:Hs; [|by intros [= <- <-]]. apply m3_sign_spec in Hs as [b ->].
  intros [= <- <-]. split; [by intros e [= <-]|]. simpl. by destruct p'.
Qed.

Lemma choose_payload_snapshot self tick snapshot p :
  choose_payload self tick (M3Snapshot snapshot) = Ok p ->
  snapshot_is_canonical snapshot = true /\
  (p = M3Snapshot snapshot \/
   exists t base, sent_actor_keyframes self !! snap_rider snapshot = Some (t, base) /\ t < tick /\
     p = M3SnapshotDelta (delta_between t base snapshot)).
Proof.
  unfold choose_payload. destruct (snapshot_is_canonical snapshot); [|done]. cbn [negb].
  destruct (sent_actor_keyframes self !! _) as [[t base]|]; [|intros [= <-]; auto].
  destruct (tick >? t) eqn:Ht; simpl; [|intros [= <-]; auto]. destruct (_ <? _); intros [= <-]; [|auto].
  split; [done|]. right. exists t, base. split_and!; [done|lia|done].
Qed.

Lemma choose_payload_other self tick p p' snapshot :
  choose_payload self tick p = Ok p' -> p' = M3Snapshot snapshot -> p = M3Snapshot snapshot.
Proof.
  destruct p; simpl; intros Hp Hs; try (injection Hp as <-; done); [|done].
  apply choose_payload_snapshot in Hp as [_ [->|(t & base & _ & _ & ->)]]; congruence.
Qed.

Definition rider_keyed (m : gmap PlayerId (Z * M3ActorSnapshot)) : Prop :=
  map_Forall (fun rider entry => snap_rider entry.2 = rider) m.

Lemma m3_envelope_keyed self tick p key self' r :
  m3_envelope self tick p key = (self', r) -> rider_keyed (sent_actor_keyframes self) -> rider_keyed (sent_actor_keyframes self').
Proof.
  intros Hsend Hk. destruct (m3_envelope_sent _ _ _ _ _ _ Hsend) as [_ ->]. destruct r as [e|]; [|done].
  destruct (m3_payload e); try done. by apply map_Forall_insert_2.
Qed.

(** A keyframe of the stream: the envelope of a whole snapshot. *)
Definition keyframe (log : list (M3EnvelopeV2 * M3ActorSnapshot)) (tick : Z) (base : M3ActorSnapshot) : Prop :=
  exists e, (e, base) ∈ log /\ m3_payload e = M3Snapshot base /\ m3_tick e = tick.

Lemma keyframe_cons entry log tick base : keyframe log tick base -> keyframe (entry :: log) tick base.
Proof. intros (e & He & Hp & Ht). exists e. split_and!; [by right|done|done]. Qed.

Definition entry_fits (held : gmap PlayerId (Z * M3ActorSnapshot)) (log : list (M3EnvelopeV2 * M3ActorSnapshot))
    (e : M3EnvelopeV2) (snapshot : M3ActorSnapshot) : Prop :=
  m3_payload e = M3Snapshot snapshot \/
  exists tick base, m3_payload e = M3SnapshotDelta (delta_between tick base snapshot) /\ tick < m3_tick e /\
    snap_rider base = snap_rider snapshot /\ (held !! snap_rider snapshot = Some (tick, base) \/ keyframe log tick base).

Lemma stream_entries key sends : forall self e snapshot,
  rider_keyed (sent_actor_keyframes self) -> (e, snapshot) ∈ stream self key sends ->
  snapshot_is_canonical snapshot = true /\ (m3_tick e, M3Snapshot snapshot) ∈ sends /\
  entry_fits (sent_actor_keyframes self) (stream self key sends) e snapshot.
Proof.
  induction sends as [|[tick p] sends IH]; intros self e snapshot Hk Hin; [by apply not_elem_of_nil in Hin|].
  cbn [stream] in *. destruct (m3_envelope self tick p key) as [self' r] eqn:Hsend.
  pose proof (m3_envelope_keyed _ _ _ _ _ _ Hsend Hk) as Hk'.
  destruct (m3_envelope_sent _ _ _ _ _ _ Hsend) as [Hr Hsent].
  assert (Htail : forall log, (e, snapshot) ∈ stream self' key sends ->
    (match r with Ok e0 => match p with M3Snapshot s => log = (e0, s) :: stream self' key sends | _ => log = stream self' key sends end
             | Err _ => log = stream self' key sends end) ->
    snapshot_is_canonical snapshot = true /\ (m3_tick e, M3Snapshot snapshot) ∈ (tick, p) :: sends /\
    entry_fits (sent_actor_keyframes self) log e snapshot).
  { intros log Hrest Hlog. destruct (IH self' e snapshot Hk' Hrest) as (Hc & Hs & Hfit).
    assert (Hin' : (m3_tick e, M3Snapshot snapshot) ∈ (tick, p) :: sends) by by right.
    split_and!; [exact Hc|exact Hin'|]. destruct Hfit as [Hp|(t & b & Hp & Ht & Hb & Hsrc)]; [by left|]. right. exists t, b.
    split_and!; [exact Hp|exact Ht|exact Hb|]. destruct r as [e0|]; [|subst log; rewrite <- Hsent; done].
    destruct (Hr e0 eq_refl) as [Ht0 Hchosen]. rewrite Hsent in Hsrc.
    assert (Hmono : forall t' b', keyframe (stream self' key sends) t' b' -> keyframe log t' b').
    { intros t' b' Hkf. destruct p; subst log; try done. by apply keyframe_cons. }
    destruct (m3_payload e0) as [| | | | |s0| | | | | | | |] eqn:Hp0;
      try (destruct Hsrc as [Hsrc|Hsrc]; [by left|right; by apply Hmono]).
    apply choose_payload_other with (snapshot := s0) in Hchosen; [|done]. subst p log.
    destruct Hsrc as [Hsrc|Hsrc]; [|right; by apply Hmono].
    destruct (decide (snap_rider s0 = snap_rider snapshot)) as [Heq|Hne].
    - rewrite Heq, lookup_insert_eq in Hsrc. injection Hsrc as <- <-. right. exists e0. split_and!; [left|done|done].
    - rewrite lookup_insert_ne in Hsrc by done. by left. }
  destruct p as [| | | | |s0| | | | | | | |]; try (apply Htail; [done|by destruct r]).
  destruct r as [e0|]; [|by apply Htail]. apply elem_of_cons in Hin as [Heq|Hin]; [|by apply Htail].
  injection Heq as -> ->. destruct (Hr e0 eq_refl) as [Ht0 Hchosen].
  apply choose_payload_snapshot in Hchosen as [Hc Hp]. split_and!; [done|rewrite Ht0; left|].
  destruct Hp as [Hp|(t & b & Hb & Ht & Hp)]; [by left|]. right. exists t, b. split_and!; [done|lia| |by left].
  by apply (Hk _ _ Hb).
Qed.

(** At most one keyframe per rider and tick. *)
Lemma keyframe_unique key sends self tick base base' :
  rider_keyed (sent_actor_keyframes self) -> StronglySorted ascending sends ->
  keyframe (stream self key sends) tick base -> keyframe (stream self key sends) tick base' ->
  snap_rider base = snap_rider base' -> base = base'.
Proof.
  intros Hk Hs (e & He & _ & Ht) (e' & He' & _ & Ht') Hr.
  destruct (stream_entries key sends self e base Hk He) as (_ & Hin & _).
  destruct (stream_entries key sends self e' base' Hk He') as (_ & Hin' & _).
  rewrite Ht in Hin. rewrite Ht' in Hin'. clear He He'. induction Hs as [|a sends Hs IH Ha]; [by apply not_elem_of_nil in Hin|].
  rewrite Forall_forall in Ha.
  apply elem_of_cons in Hin as [Heq|Hin], Hin' as [Heq'|Hin']; [congruence| | |by apply IH].
  - specialize (Ha _ Hin'). rewrite <- Heq in Ha. simpl in Ha. specialize (Ha Hr). apply Z.lt_irrefl in Ha. done.
  - specialize (Ha _ Hin). rewrite <- Heq' in Ha. simpl in Ha. symmetry in Hr. specialize (Ha Hr). apply Z.lt_irrefl in Ha. done.
Qed.

(** ** The receiver *)

Inductive live_op :=
| Receive (e : M3EnvelopeV2) (source : SocketAddr) (current_node_key : option NodeKey) (now_ms : Z)
| Expire (now_ms : Z).

Definition live_step (ok : M3MatchCheckpointV2 -> bool) (s : M3SecureSession) (op : live_op) : M3SecureSession :=
  match op with
  | Receive e source current now => (accept_with_source_validated s e source current now ok).1
  | Expire now => (m3_expire_and_migrate s now).1
  end.

Definition live_run (ok : M3MatchCheckpointV2 -> bool) (s : M3SecureSession) (ops : list live_op) : M3SecureSession :=
  fold_left (live_step ok) ops s.

Definition is_snapshot (p : M3PeerPayloadV2) : bool :=
  match p with M3Snapshot _ | M3SnapshotDelta _ => true | _ => false end.

(** Every snapshot that passes the secure gate of [s] belongs to the stream [log]. *)
Definition genuine (s : M3SecureSession) (log : list (M3EnvelopeV2 * M3ActorSnapshot)) (op : live_op) : Prop :=
  match op with
  | Receive e source current _ =>
      m3_secure_refusal s e source current = None -> is_snapshot (m3_payload e) = true -> e ∈ log.*1
  | Expire _ => True
  end.

Definition streams (s : M3SecureSession) := (received_actor_keyframes s, accepted_snapshot s).
Definition identity (s : M3SecureSession) := (live_manifest s, live_roster_hash s).

(** Every operation keeps the rebuilt snapshots or drops them all, whole snapshots apart. *)
Definition keeps_or_drops (s s' : M3SecureSession) : Prop :=
  identity s' = identity s /\ (streams s' = streams s \/ streams s' = (∅, None)).

Lemma complete_match_state_streams s e p now : keeps_or_drops s (complete_match_state s e p now).1.
Proof. unfold keeps_or_drops, complete_match_state. cbv zeta. repeat case_match; by auto. Qed.

Lemma accept_match_state_fragment_streams s e hash i n now :
  keeps_or_drops s (accept_match_state_fragment s e hash i n now).1.
Proof.
  unfold accept_match_state_fragment. destruct (_ || _); [by split; auto|]. destruct (is_some_and (accepted_match s) _); [by split; auto|].
  set (s1 := if is_some_and (pending_match_state s) _ then _ else s).
  assert (H1 : keeps_or_drops s s1) by (unfold s1; case_match; by split; auto).
  clearbody s1. set (d := is_some_and (pending_match_state s1) _). destruct (d && _); [exact H1|].
  set (s2 := if d then _ else s1). assert (H2 : keeps_or_drops s s2) by (unfold s2; by case_match).
  clearbody s2. set (p := default _ _). cbv zeta. destruct (_ || _); [exact H2|].
  destruct (negb _); [exact H2|]. match goal with |- keeps_or_drops s (complete_match_state ?a ?b ?c ?d).1 =>
    pose proof (complete_match_state_streams a b c d) as [Hi Hst] end.
  destruct H2 as [Hi2 Hst2]. split; [by rewrite Hi|]. destruct Hst as [Hst|Hst]; [rewrite Hst; exact Hst2|by right].
Qed.

Lemma complete_migration_streams s e p now ok : keeps_or_drops s (complete_migration s e p now ok).1.
Proof. unfold keeps_or_drops, complete_migration. cbv zeta. repeat case_match; by auto. Qed.

Lemma accept_migration_fragment_streams s e w ep hash i n now ok :
  keeps_or_drops s (accept_migration_fragment s e w ep hash i n now ok).1.
Proof.
  unfold accept_migration_fragment. destruct (_ || _); [by split; auto|]. destruct (_ <=? _); [by split; auto|].
  set (s1 := if is_some_and (pending_migration s) _ then _ else s).
  assert (H1 : keeps_or_drops s s1) by (unfold s1; case_match; by split; auto). clearbody s1. set (p := default _ _). cbv zeta.
  destruct (_ || _); [exact H1|]. destruct (fragment_held _ _ _); [exact H1|]. destruct (negb _); [exact H1|].
  match goal with |- keeps_or_drops s (complete_migration ?a ?b ?c ?d ?o).1 =>
    pose proof (complete_migration_streams a b c d o) as [Hi Hst] end.
  destruct H1 as [Hi2 Hst2]. split; [by rewrite Hi|]. destruct Hst as [Hst|Hst]; [rewrite Hst; exact Hst2|by right].
Qed.

Lemma commit_heard_kept s e now : streams (commit_heard s e now) = streams s /\ identity (commit_heard s e now) = identity s.
Proof. by unfold commit_heard. Qed.
Lemma commit_authority_streams s p : keeps_or_drops s (commit_authority s p).
Proof. unfold commit_authority. destruct (m3_claim_of p) as [[a ep]|]; [|by split; auto]. cbv zeta. case_match; by split; auto. Qed.
Lemma commit_match_kept s e : streams (commit_match s e) = streams s /\ identity (commit_match s e) = identity s.
Proof. unfold commit_match. by case_match. Qed.

(** What a whole payload does to the streams. *)
Lemma accept_whole_streams s e now :
  let r := accept_whole s e now in
  identity r.1 = identity s /\
  (is_snapshot (m3_payload e) = false -> streams r.1 = streams s \/ streams r.1 = (∅, None)) /\
  (is_snapshot (m3_payload e) = true -> r.2 <> Accepted -> streams r.1 = streams s) /\
  (is_snapshot (m3_payload e) = true -> r.2 = Accepted ->
     exists snapshot, conveyed_snapshot s (m3_payload e) = Some (Some snapshot) /\
       streams r.1 = (match m3_payload e with
                      | M3Snapshot _ => <[snap_rider snapshot := (m3_tick e, snapshot)]> (received_actor_keyframes s)
                      | _ => received_actor_keyframes s
                      end, Some (m3_sequence e, snapshot))).
Proof.
  cbv zeta. unfold accept_whole. destruct (whole_refusal s e now) as [o|] eqn:Href.
  - split_and!; [done|by left|done|]. intros _ Ho. simpl in Ho. subst o. exfalso.
    unfold whole_refusal in Href. cbv zeta in Href. repeat case_match; discriminate.
  - destruct (conveyed_snapshot s (m3_payload e)) as [conveyed|] eqn:Hc.
    2: { exfalso. unfold whole_refusal in Href. cbv zeta in Href. rewrite Hc in Href. repeat case_match; discriminate. }
    cbn [fst snd default id].
    set (s1 := commit_authority (commit_heard s e now) (m3_payload e)).
    assert (H1 : keeps_or_drops s s1).
    { destruct (commit_heard_kept s e now) as [Ha Hb].
      destruct (commit_authority_streams (commit_heard s e now) (m3_payload e)) as [Hi Hst]. subst s1. split; [by rewrite Hi, Hb|].
      by rewrite Ha in Hst. }
    destruct (commit_match_kept (commit_snapshot s1 e conveyed) e) as [Hm1 Hm2]. rewrite Hm1, Hm2.
    split_and!.
    + rewrite <- (proj1 H1). unfold commit_snapshot. destruct conveyed as [snapshot|]; [|done]. by destruct (m3_payload e).
    + intros Hs. assert (conveyed = None) as -> by (destruct (m3_payload e); simpl in *; congruence). exact (proj2 H1).
    + done.
    + intros Hs _. assert (s1 = commit_heard s e now) as -> by (subst s1; unfold commit_authority; by destruct (m3_payload e)).
      unfold commit_snapshot, streams. destruct (m3_payload e) as [| | | | |sn|d| | | | | | |] eqn:Hp; try done.
      * simpl in Hc. injection Hc as <-. by exists sn.
      * simpl in Hc. destruct (received_actor_keyframes s !! delta_rider d) as [[t b]|]; [|done].
        destruct (negb _); [done|]. destruct (delta_apply d b) as [sn|]; [|done]. injection Hc as <-. by exists sn.
Qed.

(** ** The stream arrives as it was sent *)

Section receiver.
Variables (log : list (M3EnvelopeV2 * M3ActorSnapshot)).

Definition stream_inv (s : M3SecureSession) : Prop :=
  map_Forall (fun rider entry => keyframe log entry.1 entry.2 /\ snap_rider entry.2 = rider) (received_actor_keyframes s) /\
  forall sequence snapshot, accepted_snapshot s = Some (sequence, snapshot) ->
    exists e, (e, snapshot) ∈ log /\ m3_sequence e = sequence.

Lemma stream_inv_of s s' :
  streams s' = streams s \/ streams s' = (∅, None) -> stream_inv s -> stream_inv s'.
Proof.
  intros [Hs|Hs] [Hk Ha]; unfold streams in Hs; injection Hs as Hr Hacc; split; rewrite ?Hr, ?Hacc; done.
Qed.

(** The senders' side of the invariant. *)
Hypothesis log_fits : forall e snapshot, (e, snapshot) ∈ log ->
  snapshot_is_canonical snapshot = true /\ entry_fits ∅ log e snapshot.
Hypothesis log_unique : forall tick base base',
  keyframe log tick base -> keyframe log tick base' -> snap_rider base = snap_rider base' -> base = base'.

Lemma conveyed_is_sent s e snapshot conveyed :
  stream_inv s -> (e, snapshot) ∈ log -> conveyed_snapshot s (m3_payload e) = Some (Some conveyed) -> conveyed = snapshot.
Proof.
  intros [Hk _] Hin Hc. destruct (log_fits e snapshot Hin) as [Hcan [Hp|(t & b & Hp & _ & Hb & Hsrc)]]; rewrite Hp in Hc.
  { by injection Hc. }
  destruct Hsrc as [Hsrc|Hkf]; [by rewrite lookup_empty in Hsrc|]. simpl in Hc.
  destruct (received_actor_keyframes s !! snap_rider snapshot) as [[t' b']|] eqn:Hr; [|done].
  destruct (Z.eqb_spec t' t) as [->|]; [|done]. cbn [negb] in Hc.
  destruct (Hk _ _ Hr) as [Hkf' Hr']. simpl in *. assert (b' = b) as -> by (eapply log_unique; [done..|congruence]).
  rewrite delta_apply_between in Hc by done. by injection Hc.
Qed.

Lemma accept_authenticated_inv s e now ok :
  (is_snapshot (m3_payload e) = true -> e ∈ log.*1) -> stream_inv s ->
  stream_inv (accept_authenticated s e now ok).1 /\ identity (accept_authenticated s e now ok).1 = identity s.
Proof.
  intros Hgen Hinv. unfold accept_authenticated.
  destruct (negb _); [done|]. destruct (_ <? _); [done|]. destruct (is_none _); [done|].
  assert (Hw : stream_inv (accept_whole s e now).1 /\ identity (accept_whole s e now).1 = identity s).
  { destruct (accept_whole_streams s e now) as (Hi & Hno & Href & Hacc). split; [|exact Hi].
    destruct (is_snapshot (m3_payload e)) eqn:Hs; [|by eapply stream_inv_of; [apply Hno|]].
    destruct (decide ((accept_whole s e now).2 = Accepted)) as [Ho|Ho]; [|by eapply stream_inv_of; [left; apply Href|]].
    destruct (Hacc eq_refl Ho) as (conveyed & Hc & Hst). specialize (Hgen eq_refl).
    apply list_elem_of_fmap in Hgen as ([e' snapshot] & Heq & Hin). simpl in Heq. subst e'.
    pose proof (conveyed_is_sent s e snapshot conveyed Hinv Hin Hc) as ->. unfold streams in Hst. injection Hst as Hr Ha. split.
    - rewrite Hr. destruct (m3_payload e) as [| | | | |sn| | | | | | | |] eqn:Hp; try apply Hinv.
      simpl in Hc. injection Hc as ->. apply map_Forall_insert_2; [|apply Hinv]. simpl. split; [|done]. by exists e.
    - rewrite Ha. intros q sn [= <- <-]. by exists e. }
  destruct (m3_payload e); try exact Hw.
  - destruct (accept_match_state_fragment_streams s e state_hash fragment_index fragment_count now) as [Hi Hst].
    split; [|exact Hi]. by eapply stream_inv_of.
  - destruct (accept_migration_fragment_streams s e authority epoch state_hash fragment_index fragment_count now ok) as [Hi Hst].
    split; [|exact Hi]. by eapply stream_inv_of.
Qed.

Lemma stream_step_inv ok s op :
  genuine s log op -> stream_inv s -> stream_inv (live_step ok s op) /\ identity (live_step ok s op) = identity s.
Proof.
  destruct op as [e source current now|now]; simpl; intros Hgen Hinv.
  - unfold accept_with_source_validated. destruct (m3_secure_refusal s e source current); [done|].
    apply accept_authenticated_inv; [by apply Hgen|done].
  - unfold m3_expire_and_migrate. destruct (expire_and_migrate (live_state s) now) as [t [m|]]; [|done].
    split; [|done]. eapply stream_inv_of; [by right|exact Hinv].
Qed.

Lemma genuine_identity s s' op : identity s' = identity s -> genuine s log op -> genuine s' log op.
Proof.
  unfold identity. intros [= Hm Hh]. destruct op; [|done]. unfold genuine, m3_secure_refusal. by rewrite Hm, Hh.
Qed.

Lemma live_run_inv ok ops : forall s,
  Forall (genuine s log) ops -> stream_inv s -> stream_inv (live_run ok s ops) /\ identity (live_run ok s ops) = identity s.
Proof.
  unfold live_run. induction ops as [|op ops IH]; intros s Hgen Hinv; [done|]. apply Forall_cons in Hgen as [Hop Hops]. simpl.
  destruct (stream_step_inv ok s op Hop Hinv) as [Hinv' Hi]. rewrite <- Hi. apply IH; [|done].
  eapply Forall_impl; [exact Hops|]. intros o. by apply genuine_identity.
Qed.
End receiver.

(** A receiver holds the base of the packet. *)
Definition base_held (s : M3SecureSession) (p : M3PeerPayloadV2) : Prop :=
  match p with
  | M3SnapshotDelta d => exists base, received_actor_keyframes s !! delta_rider d = Some (base_tick d, base)
  | _ => True
  end.

(** The rest of the gate: a fresh packet of the current authority about a peer. *)
Definition welcome (s : M3SecureSession) (e : M3EnvelopeV2) (rider : PlayerId) : Prop :=
  m3_lobby_id e = lobby_id (live_state s) /\ m3_epoch e = session_epoch (live_state s) /\
  m3_sender e = session_authority (live_state s) /\ is_Some (peers (live_state s) !! m3_sender e) /\
  is_Some (peers (live_state s) !! rider) /\ last_heard (live_state s) (m3_sender e) < m3_sequence e.

Lemma welcome_accepted log s e snapshot now ok :
  (forall e' snapshot', (e', snapshot') ∈ log -> snapshot_is_canonical snapshot' = true /\ entry_fits ∅ log e' snapshot') ->
  (forall tick base base', keyframe log tick base -> keyframe log tick base' -> snap_rider base = snap_rider base' -> base = base') ->
  stream_inv log s -> (e, snapshot) ∈ log -> welcome s e (snap_rider snapshot) -> base_held s (m3_payload e) ->
  (accept_authenticated s e now ok).2 = Accepted /\
  accepted_actor_snapshot (accept_authenticated s e now ok).1 (m3_sequence e) = Some snapshot.
Proof.
  intros Hfits Huniq Hinv Hin (Hl & He & Hw & Hm & Hrider & Hseq) Hbase.
  assert (Hc : is_snapshot (m3_payload e) = true /\ conveyed_snapshot s (m3_payload e) = Some (Some snapshot) /\
               subject_is_invalid (live_state s) e = false).
  { unfold subject_is_invalid. destruct (Hfits e snapshot Hin) as [Hcan [Hp|(t & b & Hp & Ht & Hb & Hsrc)]]; rewrite Hp in *.
    - split_and!; [done|done|]. by destruct Hrider as [peer ->].
    - destruct Hbase as [base Hbase]. simpl in Hbase |- *. rewrite Hbase, Z.eqb_refl. cbn [negb].
      destruct Hsrc as [Hsrc|Hkf]; [by rewrite lookup_empty in Hsrc|].
      destruct (proj1 Hinv _ _ Hbase) as [Hkf' Hr]. simpl in *.
      assert (base = b) as -> by (eapply Huniq; [done..|congruence]). rewrite delta_apply_between by done.
      split_and!; [done|done|]. destruct Hrider as [peer ->]. simpl. lia. }
  destruct Hc as (Hsnap & Hconv & Hsubj).
  assert (Hclaim : m3_claim_of (m3_payload e) = None) by (by destruct (m3_payload e)).
  assert (Href : whole_refusal s e now = None).
  { unfold whole_refusal. cbv zeta. rewrite He, Z.eqb_refl, Hw, Hsubj, Hconv, Hclaim, bool_decide_true by done.
    cbn [negb andb is_none is_some_and]. rewrite andb_false_r. unfold result_known.
    replace (match m3_payload e with M3ShotResult r => _ | _ => false end) with false by (by destruct (m3_payload e)).
    rewrite <- Hw. replace (m3_sequence e <=? _) with false by (symmetry; by apply Z.leb_gt). done. }
  assert (Hwhole : accept_authenticated s e now ok = accept_whole s e now).
  { unfold accept_authenticated. rewrite bool_decide_true, He, Z.ltb_irrefl by done. cbn [negb].
    destruct Hm as [peer ->]. cbn [is_none]. by destruct (m3_payload e). }
  rewrite Hwhole. destruct (accept_whole_streams s e now) as (_ & _ & _ & Hacc).
  assert (Ho : (accept_whole s e now).2 = Accepted) by (unfold accept_whole; by rewrite Href).
  split; [exact Ho|]. destruct (Hacc Hsnap Ho) as (conveyed & Hc & Hst). rewrite Hconv in Hc. injection Hc as <-.
  unfold streams in Hst. injection Hst as _ Ha. unfold accepted_actor_snapshot. rewrite Ha. simpl. by rewrite Z.eqb_refl.
Qed.
End stream.

(** C7. Receivers rebuild exactly what the authority saw. An authority signs its
    snapshots as keyframes and deltas, ticks ascending per rider. A receiver may lose,
    reorder or repeat them, meet forged datagrams, expire peers and change authority;
    as long as what passes its secure gate was signed by that authority, every snapshot
    it ever rebuilds is one the authority took, whole, under that packet's sequence;
    and any fresh packet whose keyframe it holds is accepted and rebuilds the snapshot
    it stands for. *)
Theorem snapshots_arrive_exactly `{Crypto} `{LiveJson} authority receiver key sends ops ok :
  sent_actor_keyframes authority = ∅ -> StronglySorted ascending sends ->
  received_actor_keyframes receiver = ∅ -> accepted_snapshot receiver = None ->
  Forall (genuine receiver (stream authority key sends)) ops ->
  let s := live_run ok receiver ops in
  (forall sequence snapshot, accepted_actor_snapshot s sequence = Some snapshot ->
     exists e, (e, snapshot) ∈ stream authority key sends /\ m3_sequence e = sequence) /\
  (forall e snapshot now, (e, snapshot) ∈ stream authority key sends -> welcome s e (snap_rider snapshot) ->
     base_held s (m3_payload e) ->
     (accept_authenticated s e now ok).2 = Accepted /\
     accepted_actor_snapshot (accept_authenticated s e now ok).1 (m3_sequence e) = Some snapshot).
Proof.
  intros Hsent Hasc Hrec Hacc Hgen. cbv zeta.
  assert (Hkeyed : rider_keyed (sent_actor_keyframes authority)) by (rewrite Hsent; apply map_Forall_empty).
  assert (Hfits : forall e snapshot, (e, snapshot) ∈ stream authority key sends ->
    snapshot_is_canonical snapshot = true /\ entry_fits ∅ (stream authority key sends) e snapshot).
  { intros e snapshot Hin. destruct (stream_entries key sends authority e snapshot Hkeyed Hin) as (Hc & _ & Hf).
    rewrite Hsent in Hf. by split. }
  pose proof (fun tick base base' => keyframe_unique key sends authority tick base base' Hkeyed Hasc) as Huniq.
  destruct (live_run_inv (stream authority key sends) Hfits Huniq ok ops receiver Hgen) as [Hinv _].
  { split; [rewrite Hrec; apply map_Forall_empty|]. rewrite Hacc. done. }
  split.
  - intros sequence snapshot Ha. unfold accepted_actor_snapshot in Ha.
    destruct (accepted_snapshot (live_run ok receiver ops)) as [[q sn]|] eqn:Hs; [|done].
    destruct (Z.eqb_spec q sequence) as [->|]; [|done]. injection Ha as <-. by apply (proj2 Hinv).
  - intros e snapshot now Hin Hwel Hbase. by eapply welcome_accepted.
Qed.

(** ** A concrete stream *)

Module StreamDemo.
Export LiveDemo.
Definition sent : list (M3EnvelopeV2 * M3ActorSnapshot) := stream (session_of 3) (3 : SigningKey) sends.
Definition packet (i : nat) : M3EnvelopeV2 := default (fragment_of 0 0 []) (sent.*1 !! i).
Definition heard : M3SecureSession :=
  live_run (fun _ => true) (session_of 1) [Receive (packet 0) (address 3) None 2000].
Lemma sent_packets : sent = [(packet 0, snapshot_at 0); (packet 1, snapshot_at 100)].
Proof. vm_compute. reflexivity. Qed.
Lemma packet_welcome : welcome heard (packet 1) (player 1).
Proof. repeat apply conj; vm_compute; try reflexivity; by eexists. Qed.
Lemma packet_base : base_held heard (m3_payload (packet 1)).
Proof. vm_compute. by eexists. Qed.
End StreamDemo.
Import StreamDemo.

Lemma snapshots_arrive_exactly_witness :
  accepted_actor_snapshot (accept_authenticated heard (packet 1) 2010 (fun _ => true)).1 2
    = Some (snapshot_at 100).
Proof.
  refine (proj2 (proj2 (snapshots_arrive_exactly (session_of 3) (session_of 1) (3 : SigningKey) sends
    [Receive (packet 0) (address 3) None 2000] (fun _ => true) eq_refl _ eq_refl eq_refl _)
    (packet 1) (snapshot_at 100) 2010 _ packet_welcome packet_base)).
  - repeat constructor.
  - constructor; [|constructor]. intros _ _. change (packet 0 ∈ sent.*1).
    rewrite sent_packets. left.
  - change ((packet 1, snapshot_at 100) ∈ sent). rewrite sent_packets. right. left.
Defined.
