(* ===== verification/Supervision.v ===== *)
(** * The supervisor of an external rehearsal ([spurfire-server/src/supervision.rs])

    A hash-chained ledger of intents and outcomes on two files, the guard a broker
    builds from it, the authenticated frames between them, and the cleanup that may
    release the lease. Serialisation is the interface [SupervisionJson], SHA-256 is
    [Crypto]; the file system answers each replacement of a file as [faults] says. *)

From S2P Require Import Prelude MachineInt Clock Bytes Identifiers Session Rehearsal.
From stdpp Require Import gmap.
Open Scope Z_scope.

Definition SCHEMA_VERSION : Z := 1.
Definition MAX_IPC_FRAME : Z := 16 * 1024.
(** [Duration::from_secs(5)], in milliseconds. *)
Definition MIN_ABSENCE_SEPARATION : Z := 5 * 1000.
Definition ZERO_32 : list Z := repeat 0 32.

(** ** The ledger *)

Record Fence := mkFence {
  run_id : list Z;
  fence_lobby_id : LobbyId;
  generation : Z;
  fence_epoch : Z;
  token_sha256 : list Z;
}.
#[export] Instance Fence_eq_dec : EqDecision Fence.
Proof. solve_decision. Defined.

Record SupervisedIdentity := mkSupervisedIdentity {
  provider_stable_id : list Z;
  fqdn : list Z;
  vault_version : Z;
}.
#[export] Instance SupervisedIdentity_eq_dec : EqDecision SupervisedIdentity.
Proof. solve_decision. Defined.

Inductive Operation := Create | ApplyPolicy | FinalProviderIo | Delete | ObserveAbsence | VaultErase | LeaseRelease.
Inductive OperationOutcome := Succeeded | Failed | Unknown.
#[export] Instance OperationOutcome_eq_dec : EqDecision OperationOutcome.
Proof. solve_decision. Defined.

Inductive Transition :=
| Reserved
| Intent (operation : Operation)
| Outcome (operation : Operation) (outcome : OperationOutcome)
| IdentityBound (identity : SupervisedIdentity)
| CleanupOnly
| AbsenceObserved (ordinal : Z) (observed_stable_id : list Z) (fully_paginated uncached : bool)
| VaultTombstoneReadback (version : Z)
| Released
| Quarantined (reason : list Z).

Record LedgerEntry := mkLedgerEntry {
  sequence : Z;
  previous_sha256 : list Z;
  transition : Transition;
  entry_sha256 : list Z;
}.

Record SupervisorLedger := mkSupervisorLedger {
  schema_version : Z;
  fence : Fence;
  receipt_id_digest : list Z;
  receipt_verifier : list Z;
  ledger_worker_sha256 : list Z;
  ledger_broker_sha256 : list Z;
  ledger_provenance_sha256 : list Z;
  ledger_artifact_set_sha256 : list Z;
  ledger_store_instance_id_sha256 : list Z;
  ledger_canonical_state_path_sha256 : list Z;
  public_origin_digest : list Z;
  internal_listener_digest : list Z;
  receipt_expires_at : UnixMillis;
  protected_alpha : bool;
  policy_profile_digest : list Z;
  ledger_absolute_deadline : UnixMillis;
  ledger_final_io_deadline : UnixMillis;
  cleanup_only : bool;
  quarantined : bool;
  identity : option SupervisedIdentity;
  transitions : list LedgerEntry;
}.
#[export] Instance SupervisorLedger_settable : Settable SupervisorLedger := fun l =>
  mkSupervisorLedger (schema_version l) (fence l) (receipt_id_digest l) (receipt_verifier l) (ledger_worker_sha256 l)
    (ledger_broker_sha256 l) (ledger_provenance_sha256 l) (ledger_artifact_set_sha256 l) (ledger_store_instance_id_sha256 l)
    (ledger_canonical_state_path_sha256 l) (public_origin_digest l) (internal_listener_digest l) (receipt_expires_at l)
    (protected_alpha l) (policy_profile_digest l) (ledger_absolute_deadline l) (ledger_final_io_deadline l) (cleanup_only l)
    (quarantined l) (identity l) (transitions l).

Record LedgerHead := mkLedgerHead { head_sequence : Z; head_entry_sha256 : list Z }.
#[export] Instance LedgerHead_eq_dec : EqDecision LedgerHead.
Proof. solve_decision. Defined.

Inductive SupervisionError :=
| Unsupported | InvalidLedger | Persistence | StaleFence | Deadline | MalformedIpc | PeerAuthentication | ProviderError
| IncompleteProof.

(** ** Frames *)

Record BrokerRequest := mkBrokerRequest {
  request_sequence : Z;
  request_challenge_sha256 : list Z;
  request_ledger_head_sha256 : list Z;
  request_fence : Fence;
  request_operation : Operation;
  request_identity : option SupervisedIdentity;
}.
Record AuthenticatedFrame := mkAuthenticatedFrame { frame_payload : BrokerRequest; authenticator : list Z }.

(** [serde_json] on the values that are stored, hashed or sent. *)
Class SupervisionJson := {
  json_entry : Z -> list Z -> Transition -> list Z;
  json_ledger : SupervisorLedger -> list Z;
  parse_ledger : list Z -> option SupervisorLedger;
  json_head : LedgerHead -> list Z;
  parse_head : list Z -> option LedgerHead;
  json_request : BrokerRequest -> list Z;
  json_frame : AuthenticatedFrame -> list Z;
  parse_frame : list Z -> option AuthenticatedFrame;
}.
(** Values survive their serialisation. *)
Class SupervisionJsonSound `{SupervisionJson} : Prop := {
  parse_json_ledger : forall l, parse_ledger (json_ledger l) = Some l;
  parse_json_head : forall h, parse_head (json_head h) = Some h;
  parse_json_frame : forall f, parse_frame (json_frame f) = Some f;
  json_entry_inj : forall s p t s' p' t', json_entry s p t = json_entry s' p' t' -> s = s' /\ p = p' /\ t = t';
}.

Section supervision.
Context `{Crypto} `{SupervisionJson}.

Definition hash (domain : String.string) (bytes : list Z) : list Z := sha2 (bytes_of_string domain ++ [0] ++ bytes).
Definition entry_hash (sequence : Z) (previous : list Z) (t : Transition) : list Z :=
  hash "spurfire-supervisor-entry-v1" (json_entry sequence previous t).

Definition is_alphanumeric (b : Z) : bool :=
  is_ascii_digit b || ((65 <=? b) && (b <=? 90)) || ((97 <=? b) && (b <=? 122)).
Definition validate_identity (i : SupervisedIdentity) : result unit SupervisionError :=
  if (length (provider_stable_id i) =? 0)%nat
     || (128 <? length (provider_stable_id i))%nat
     || negb (forallb (fun b => is_alphanumeric b || (b =? 45) || (b =? 95)) (provider_stable_id i))
     || (length (fqdn i) =? 0)%nat
     || (253 <? length (fqdn i))%nat
     || negb (forallb (fun b => is_alphanumeric b || (b =? 45) || (b =? 46)) (fqdn i))
     || (vault_version i =? 0)
  then Err InvalidLedger else Ok tt.

Definition is_reserved (t : Transition) : bool := match t with Reserved => true | _ => false end.
Definition is_quarantined (t : Transition) : bool := match t with Quarantined _ => true | _ => false end.
Definition is_released (t : Transition) : bool := match t with Released => true | _ => false end.

Definition head_sha256 (self : SupervisorLedger) : list Z :=
  match last (transitions self) with Some entry => entry_sha256 entry | None => ZERO_32 end.

(** What a transition does to the three derived fields. *)
Definition bind_identity (current : option SupervisedIdentity) (t : Transition) : result (option SupervisedIdentity) SupervisionError :=
  match t with
  | IdentityBound i =>
      match validate_identity i with
      | Err e => Err e
      | Ok _ => if is_some_and current (fun held => negb (bool_decide (held = i))) then Err InvalidLedger else Ok (Some i)
      end
  | _ => Ok current
  end.
Definition cleanup_after (current : bool) (t : Transition) : bool :=
  match t with CleanupOnly | Quarantined _ => true | _ => current end.
Definition quarantine_after (current : bool) (t : Transition) : bool :=
  match t with Quarantined _ => true | _ => current end.

Definition push (self : SupervisorLedger) (t : Transition) : result SupervisorLedger SupervisionError :=
  if quarantined self && negb (is_quarantined t) then Err IncompleteProof
  else
    let next := saturating_add 64 (Z.of_nat (length (transitions self))) 1 in
    let previous := head_sha256 self in
    match bind_identity (identity self) t with
    | Err e => Err e
    | Ok bound =>
        Ok (self <| identity := bound |>
                 <| cleanup_only := cleanup_after (cleanup_only self) t |>
                 <| quarantined := quarantine_after (quarantined self) t |>
                 <| transitions := transitions self ++ [mkLedgerEntry next previous t (entry_hash next previous t)] |>)
    end.

Definition ledger_new (f : Fence) (receipt_id receipt worker policy : list Z) (absolute final : UnixMillis)
    : result SupervisorLedger SupervisionError :=
  if (length (run_id f) <? 16)%nat || (generation f =? 0) || (fence_epoch f =? 0) || (absolute <=? final)
  then Err InvalidLedger
  else
    push {| schema_version := SCHEMA_VERSION; fence := f; receipt_id_digest := receipt_id; receipt_verifier := receipt;
            ledger_worker_sha256 := worker; ledger_broker_sha256 := ZERO_32; ledger_provenance_sha256 := ZERO_32;
            ledger_artifact_set_sha256 := ZERO_32; ledger_store_instance_id_sha256 := ZERO_32;
            ledger_canonical_state_path_sha256 := ZERO_32; public_origin_digest := ZERO_32; internal_listener_digest := ZERO_32;
            receipt_expires_at := 0; protected_alpha := false; policy_profile_digest := policy;
            ledger_absolute_deadline := absolute; ledger_final_io_deadline := final; cleanup_only := false;
            quarantined := false; identity := None; transitions := [] |} Reserved.

(** ** The check of a ledger *)

Record Derived := mkDerived {
  previous : list Z;
  derived_identity : option SupervisedIdentity;
  derived_cleanup_only : bool;
  derived_quarantined : bool;
}.

(** One round of the loop: [index] counts from zero. *)
Definition check_entry (index : Z) (d : Derived) (entry : LedgerEntry) : result Derived SupervisionError :=
  let t := transition entry in
  if negb (sequence entry =? index + 1)
     || negb (bool_decide (previous_sha256 entry = previous d))
     || negb (bool_decide (entry_sha256 entry = entry_hash (index + 1) (previous d) t))
     || ((index =? 0) && negb (is_reserved t))
     || (negb (index =? 0) && is_reserved t)
     || (derived_quarantined d && negb (is_quarantined t))
  then Err InvalidLedger
  else
    match bind_identity (derived_identity d) t with
    | Err e => Err e
    | Ok bound => Ok (mkDerived (entry_sha256 entry) bound (cleanup_after (derived_cleanup_only d) t)
                        (quarantine_after (derived_quarantined d) t))
    end.
Fixpoint check_entries (index : Z) (d : Derived) (l : list LedgerEntry) : result Derived SupervisionError :=
  match l with
  | [] => Ok d
  | entry :: l =>
      match check_entry index d entry with
      | Err e => Err e
      | Ok d => check_entries (index + 1) d l
      end
  end.

Definition protected_fields_missing (self : SupervisorLedger) : bool :=
  bool_decide (ledger_broker_sha256 self = ZERO_32)
  || bool_decide (ledger_provenance_sha256 self = ZERO_32)
  || bool_decide (ledger_artifact_set_sha256 self = ZERO_32)
  || bool_decide (ledger_store_instance_id_sha256 self = ZERO_32)
  || bool_decide (ledger_canonical_state_path_sha256 self = ZERO_32)
  || bool_decide (public_origin_digest self = ZERO_32)
  || bool_decide (internal_listener_digest self = ZERO_32)
  || (receipt_expires_at self <? ledger_absolute_deadline self).

Definition validate (self : SupervisorLedger) : result unit SupervisionError :=
  if negb (schema_version self =? SCHEMA_VERSION) || (length (transitions self) =? 0)%nat then Err InvalidLedger
  else if protected_alpha self && protected_fields_missing self then Err InvalidLedger
  else
    match check_entries 0 (mkDerived ZERO_32 None false false) (transitions self) with
    | Err e => Err e
    | Ok d =>
        if negb (bool_decide (identity self = derived_identity d))
           || negb (Bool.eqb (cleanup_only self) (derived_cleanup_only d))
           || negb (Bool.eqb (quarantined self) (derived_quarantined d))
        then Err InvalidLedger else Ok tt
    end.

Definition new_protected_alpha (f : Fence) (q : ProtectedAlphaQualification) : result SupervisorLedger SupervisionError :=
  if negb (bool_decide (fence_lobby_id f = q_lobby_id q)) || negb (generation f =? q_network_generation q)
     || negb (fence_epoch f =? q_initial_epoch q)
  then Err StaleFence
  else
    match ledger_new f (q_receipt_id_digest q) (q_receipt_verifier q) (q_worker_sha256 q) (q_policy_profile_digest q)
            (q_absolute_deadline q) (q_final_io_deadline q) with
    | Err e => Err e
    | Ok ledger =>
        let ledger := ledger <| ledger_broker_sha256 := q_broker_sha256 q |>
                             <| ledger_provenance_sha256 := q_provenance_sha256 q |>
                             <| ledger_artifact_set_sha256 := q_artifact_set_sha256 q |>
                             <| ledger_store_instance_id_sha256 := q_store_instance_id_sha256 q |>
                             <| ledger_canonical_state_path_sha256 := q_canonical_state_path_sha256 q |>
                             <| public_origin_digest := q_public_origin_digest q |>
                             <| internal_listener_digest := q_internal_listener_digest q |>
                             <| receipt_expires_at := q_expires_at q |>
                             <| protected_alpha := true |> in
        match validate ledger with
        | Err e => Err e
        | Ok _ => Ok ledger
        end
    end.

Definition check_fence (self : SupervisorLedger) (f : Fence) : result unit SupervisionError :=
  if bool_decide (fence self = f) then Ok tt else Err StaleFence.

Definition claim_recovery (self : SupervisorLedger) (f : Fence) : result SupervisorLedger SupervisionError :=
  match check_fence self f with
  | Err e => Err e
  | Ok _ => if existsb (fun entry => is_released (transition entry)) (transitions self) then Err IncompleteProof
            else push self CleanupOnly
  end.

Definition is_cleanup (operation : Operation) : bool :=
  match operation with Delete | ObserveAbsence | VaultErase | LeaseRelease => true | _ => false end.
Definition is_provider_io (operation : Operation) : bool :=
  match operation with Create | ApplyPolicy | FinalProviderIo => true | _ => false end.

Definition permits (self : SupervisorLedger) (operation : Operation) (now : UnixMillis) : result unit SupervisionError :=
  if quarantined self then Err IncompleteProof
  else if (negb (is_cleanup operation) && (ledger_absolute_deadline self <=? now))
          || (is_provider_io operation && (ledger_final_io_deadline self <=? now))
  then Err Deadline
  else if cleanup_only self && negb (is_cleanup operation) then Err IncompleteProof
  else Ok tt.

(** ** Storage *)

(** What the file system does with one replacement of a file: it succeeds, it fails
    and leaves the old content, or the new content is in place although the
    directory could not be synced and an error is reported. *)
Inductive Io := IoReplaced | IoFailed | IoUnsynced.

(** The two files ([None]: no such file) and what will happen to the next
    replacements; once the list is exhausted they succeed. *)
Record LedgerStore := mkLedgerStore {
  ledger_file : option (list Z);
  head_file : option (list Z);
  faults : list Io;
}.
#[export] Instance LedgerStore_settable : Settable LedgerStore := fun s =>
  mkLedgerStore (ledger_file s) (head_file s) (faults s).

(** [LedgerStore::create] leaves two empty files. *)
Definition store_create (io : list Io) : LedgerStore := mkLedgerStore (Some []) (Some []) io.

Definition read_json_limited {A} (parse : list Z -> option A) (file : option (list Z)) : result A SupervisionError :=
  match file with
  | None => Err Persistence
  | Some bytes => match parse (take (Z.to_nat (1024 * 1024)) bytes) with Some a => Ok a | None => Err InvalidLedger end
  end.

Definition next_io (s : LedgerStore) : Io := default IoReplaced (head (faults s)).
Definition atomic_replace_json (write : LedgerStore -> LedgerStore) (s : LedgerStore) : LedgerStore * result unit SupervisionError :=
  let s' := s <| faults := tail (faults s) |> in
  match next_io s with
  | IoReplaced => (write s', Ok tt)
  | IoFailed => (s', Err Persistence)
  | IoUnsynced => (write s', Err Persistence)
  end.

Definition head_of (entry : LedgerEntry) : LedgerHead := mkLedgerHead (sequence entry) (entry_sha256 entry).

(** The high-water mark already stored, if there is one, must be this entry, the one
    before it, or the entry must quarantine. *)
Definition head_allows (entry : LedgerEntry) (file : option (list Z)) : bool :=
  match file with
  | None | Some [] => true
  | Some bytes =>
      match parse_head bytes with
      | None => false
      | Some current =>
          bool_decide (head_of entry = current)
          || ((sequence entry =? saturating_add 64 (head_sequence current) 1)
              && bool_decide (previous_sha256 entry = head_entry_sha256 current))
          || is_quarantined (transition entry)
      end
  end.

Definition persist (s : LedgerStore) (l : SupervisorLedger) : LedgerStore * result unit SupervisionError :=
  match validate l with
  | Err e => (s, Err e)
  | Ok _ =>
      match last (transitions l) with
      | None => (s, Err InvalidLedger)
      | Some entry =>
          if negb (head_allows entry (head_file s)) then (s, Err InvalidLedger)
          else
            match atomic_replace_json (fun s => s <| ledger_file := Some (json_ledger l) |>) s with
            | (s, Err e) => (s, Err e)
            | (s, Ok _) => atomic_replace_json (fun s => s <| head_file := Some (json_head (head_of entry)) |>) s
            end
      end
  end.

Definition ROLLBACK_REASON : list Z := bytes_of_string "ledger_rollback_or_incomplete_commit".
Definition load (s : LedgerStore) : LedgerStore * result SupervisorLedger SupervisionError :=
  match read_json_limited parse_ledger (ledger_file s) with
  | Err e => (s, Err e)
  | Ok l =>
      match validate l with
      | Err e => (s, Err e)
      | Ok _ =>
          match read_json_limited parse_head (head_file s) with
          | Err e => (s, Err e)
          | Ok h =>
              match last (transitions l) with
              | None => (s, Err InvalidLedger)
              | Some actual =>
                  if negb (bool_decide (h = head_of actual)) then
                    match push l (Quarantined ROLLBACK_REASON) with
                    | Err e => (s, Err e)
                    | Ok l =>
                        match persist s l with
                        | (s, Err e) => (s, Err e)
                        | (s, Ok _) => (s, Ok l)
                        end
                    end
                  else (s, Ok l)
              end
          end
      end
  end.

(** ** Authenticated frames *)

Definition broker_authenticator (secret payload : list Z) : list Z :=
  let inner := hash "spurfire-broker-auth-inner-v1" (secret ++ payload) in
  hash "spurfire-broker-auth-outer-v1" (secret ++ inner).

Definition encode_authenticated_frame (request : BrokerRequest) (secret : list Z) : result (list Z) SupervisionError :=
  let body := json_frame (mkAuthenticatedFrame request (broker_authenticator secret (json_request request))) in
  if Z.of_nat (length body) >? MAX_IPC_FRAME then Err MalformedIpc
  else
    match try_from_uint 32 (Z.of_nat (length body)) with
    | None => Err MalformedIpc
    | Some len => Ok (be_bytes 4 len ++ body)
    end.

Definition decode_authenticated_frame (frame secret : list Z) : result BrokerRequest SupervisionError :=
  if (length frame <? 4)%nat then Err MalformedIpc
  else
    let len := be_value (take 4 frame) in
    if (len >? MAX_IPC_FRAME) || negb (Z.of_nat (length frame) =? len + 4) then Err MalformedIpc
    else
      match parse_frame (drop 4 frame) with
      | None => Err MalformedIpc
      | Some authenticated =>
          if bool_decide (authenticator authenticated = broker_authenticator secret (json_request (frame_payload authenticated)))
          then Ok (frame_payload authenticated) else Err PeerAuthentication
      end.

(** [DescriptorSecret::read_from]: exactly 32 bytes and then the end. *)
Definition read_secret (descriptor : list Z) : result (list Z) SupervisionError :=
  if (length descriptor =? 32)%nat then Ok descriptor else Err PeerAuthentication.

Record PeerCredentials := mkPeerCredentials { peer_uid : Z; peer_pid : Z }.
#[export] Instance PeerCredentials_eq_dec : EqDecision PeerCredentials.
Proof. solve_decision. Defined.
Definition authenticate_peer (actual expected : PeerCredentials) : result unit SupervisionError :=
  if negb (bool_decide (actual = expected)) || (peer_pid actual =? 0) then Err PeerAuthentication else Ok tt.

(** ** The broker's guard *)

Record BrokerFenceGuard := mkBrokerFenceGuard {
  guard_fence : Fence;
  guard_policy_profile_digest : list Z;
  challenge_sha256 : list Z;
  ledger_head_sha256 : list Z;
  guard_identity : option SupervisedIdentity;
  guard_absolute_deadline : UnixMillis;
  guard_final_io_deadline : UnixMillis;
  guard_cleanup_only : bool;
  guard_quarantined : bool;
  guard_last_sequence : Z;
}.
#[export] Instance BrokerFenceGuard_settable : Settable BrokerFenceGuard := fun g =>
  mkBrokerFenceGuard (guard_fence g) (guard_policy_profile_digest g) (challenge_sha256 g) (ledger_head_sha256 g)
    (guard_identity g) (guard_absolute_deadline g) (guard_final_io_deadline g) (guard_cleanup_only g) (guard_quarantined g)
    (guard_last_sequence g).

Definition from_ledger (l : SupervisorLedger) (challenge : list Z) : BrokerFenceGuard :=
  mkBrokerFenceGuard (fence l) (policy_profile_digest l) challenge (head_sha256 l) (identity l)
    (ledger_absolute_deadline l) (ledger_final_io_deadline l) (cleanup_only l) (quarantined l) 0.

Definition authorize (self : BrokerFenceGuard) (request : BrokerRequest) (expected_policy_profile_digest : list Z)
    (now : UnixMillis) : BrokerFenceGuard * result unit SupervisionError :=
  let operation := request_operation request in
  if guard_quarantined self then (self, Err IncompleteProof)
  else if negb (bool_decide (request_fence request = guard_fence self)) then (self, Err StaleFence)
  else if negb (request_sequence request =? saturating_add 64 (guard_last_sequence self) 1)
          || negb (bool_decide (request_challenge_sha256 request = challenge_sha256 self))
          || negb (bool_decide (request_ledger_head_sha256 request = ledger_head_sha256 self))
          || bool_decide (challenge_sha256 self = ZERO_32)
  then (self, Err PeerAuthentication)
  else if negb (bool_decide (request_identity request = guard_identity self)) || is_none (guard_identity self)
  then (self, Err IncompleteProof)
  else if negb (bool_decide (expected_policy_profile_digest = guard_policy_profile_digest self)) then (self, Err IncompleteProof)
  else if (negb (is_cleanup operation) && (guard_absolute_deadline self <=? now))
          || (is_provider_io operation && (guard_final_io_deadline self <=? now))
          || (guard_cleanup_only self && negb (is_cleanup operation))
  then (self, Err (if (guard_final_io_deadline self <=? now) && negb (is_cleanup operation) then Deadline else IncompleteProof))
  else (self <| guard_last_sequence := request_sequence request |>, Ok tt).

(** ** Cleanup *)

Record AbsenceObservation := mkAbsenceObservation {
  observed_provider_stable_id : list Z;
  present : bool;
  observed_fully_paginated : bool;
  observed_uncached : bool;
}.

(** The broker's side and the clock, over the state [W] of the world outside. *)
Class Surroundings (W : Type) := {
  delete_exact : Fence -> SupervisedIdentity -> W -> W * OperationOutcome;
  observe_exact : Fence -> SupervisedIdentity -> W -> W * result AbsenceObservation SupervisionError;
  erase_vault_cas : Fence -> SupervisedIdentity -> W -> W * result Z SupervisionError;
  release_lease : Fence -> W -> W * result unit SupervisionError;
  Mark : Type;
  mark : W -> Mark;
  wait_until : Mark -> Z -> W -> W;
  elapsed : W -> Mark -> Z;
}.

Section cleanup.
Context {W : Type} `{Surroundings W}.

Record Supervisor := mkSupervisor {
  store : LedgerStore;
  ledger : SupervisorLedger;
  world : W;
}.
Local Abbreviation run A := (M Supervisor SupervisionError A).

Definition on_world {A} (act : W -> W * A) : run A := fun s =>
  let '(w, a) := act (world s) in (mkSupervisor (store s) (ledger s) w, Ok a).
Definition or_error {A} (r : result A SupervisionError) : run A := fun s => (s, r).

Definition durable_transition (t : Transition) : run unit := fun s =>
  match push (ledger s) t with
  | Err e => (s, Err e)
  | Ok l =>
      match persist (store s) l with
      | (d, Err _) => (mkSupervisor d (ledger s) (world s), Err Persistence)
      | (d, Ok _) => (mkSupervisor d l (world s), Ok tt)
      end
  end.

Local Open Scope step_scope.

Definition quarantine (reason : String.string) : run unit :=
  do* durable_transition (Quarantined (bytes_of_string reason)) in sfail IncompleteProof.

Definition absence_proven (i : SupervisedIdentity) (o : AbsenceObservation) : bool :=
  negb (present o) && observed_fully_paginated o && observed_uncached o
  && bool_decide (observed_provider_stable_id o = provider_stable_id i).

(** One round of the loop over the two ordinals, after the wait. *)
Definition observe (f : Fence) (i : SupervisedIdentity) (ordinal : Z) : run unit :=
  do* durable_transition (Intent ObserveAbsence) in
  let* observation := on_world (observe_exact f i) in
  match observation with
  | Err _ => do* durable_transition (Outcome ObserveAbsence Unknown) in quarantine "absence_observation_unknown"
  | Ok o =>
      do* durable_transition (Outcome ObserveAbsence Succeeded) in
      if negb (absence_proven i o) then quarantine "absence_not_proven"
      else durable_transition (AbsenceObserved ordinal (observed_provider_stable_id o) true true)
  end.

Definition wait_apart : run unit :=
  let* first_observation_completed := on_world (fun w => (w, mark w)) in
  do* on_world (fun w => (wait_until first_observation_completed MIN_ABSENCE_SEPARATION w, tt)) in
  let* s := sget in
  if elapsed (world s) first_observation_completed <? MIN_ABSENCE_SEPARATION
  then quarantine "absence_interval_too_short" else sret tt.

Definition erase_vault (f : Fence) (i : SupervisedIdentity) : run unit :=
  do* durable_transition (Intent VaultErase) in
  let* erased := on_world (erase_vault_cas f i) in
  match erased with
  | Err _ => do* durable_transition (Outcome VaultErase Unknown) in quarantine "vault_erasure_unknown"
  | Ok erased_version =>
      do* durable_transition (Outcome VaultErase Succeeded) in
      if negb (erased_version =? vault_version i) then quarantine "vault_version_mismatch"
      else durable_transition (VaultTombstoneReadback erased_version)
  end.

Definition release (f : Fence) : run unit :=
  do* durable_transition (Intent LeaseRelease) in
  let* released := on_world (release_lease f) in
  match released with
  | Err _ => do* durable_transition (Outcome LeaseRelease Unknown) in quarantine "lease_release_unknown"
  | Ok _ =>
      do* durable_transition (Outcome LeaseRelease Succeeded) in durable_transition Released
  end.

Definition delete_provider (f : Fence) : run unit :=
  do* durable_transition CleanupOnly in
  do* durable_transition (Intent Delete) in
  let* s := sget in
  match identity (ledger s) with
  | None => sfail IncompleteProof
  | Some i =>
      let* outcome := on_world (delete_exact f i) in
      do* durable_transition (Outcome Delete outcome) in
      if decide (outcome = Failed) then quarantine "delete_failed" else sret tt
  end.

Definition run_cleanup_with_clock (now : UnixMillis) : run unit :=
  let* s := sget in
  let f := fence (ledger s) in
  do* or_error (permits (ledger s) Delete now) in
  do* delete_provider f in
  let* s := sget in
  match identity (ledger s) with
  | None => sfail IncompleteProof
  | Some i =>
      do* observe f i 1 in
      do* wait_apart in
      do* observe f i 2 in
      do* erase_vault f i in
      release f
  end.
End cleanup.
End supervision.
Arguments Supervisor : clear implicits.
