(* ===== verification/SupervisionDemo.v ===== *)
(** * A concrete serialisation of the supervisor's values

    Every value as a list of numbers that can be read back: with it the interface
    [SupervisionJson] and its laws have an instance, at which the theorems of the
    supervisor are tried. *)

From stdpp Require Import gmap.
From S2P Require Import Prelude MachineInt Clock Bytes Identifiers Session Rehearsal Supervision.
Open Scope Z_scope.

Module SupervisionDemo.
Export RehearsalDemo.

(** ** Writing *)

Definition put_list (l : list Z) : list Z := Z.of_nat (length l) :: l.
Definition put_bool (b : bool) : list Z := [if b then 1 else 0].
Definition operation_code (o : Operation) : Z :=
  match o with Create => 0 | ApplyPolicy => 1 | FinalProviderIo => 2 | Delete => 3 | ObserveAbsence => 4 | VaultErase => 5 | LeaseRelease => 6 end.
Definition outcome_code (o : OperationOutcome) : Z := match o with Succeeded => 0 | Failed => 1 | Unknown => 2 end.
Definition put_identity (i : SupervisedIdentity) : list Z := put_list (provider_stable_id i) ++ put_list (fqdn i) ++ [vault_version i].
Definition put_option (i : option SupervisedIdentity) : list Z := match i with Some i => 1 :: put_identity i | None => [0] end.
Definition put_fence (f : Fence) : list Z :=
  put_list (run_id f) ++ put_list (id_bytes (fence_lobby_id f)) ++ generation f :: fence_epoch f :: put_list (token_sha256 f).
Definition put_transition (t : Transition) : list Z :=
  match t with
  | Reserved => [0]
  | Intent o => [1; operation_code o]
  | Outcome o r => [2; operation_code o; outcome_code r]
  | IdentityBound i => 3 :: put_identity i
  | CleanupOnly => [4]
  | AbsenceObserved n id a b => 5 :: n :: put_list id ++ put_bool a ++ put_bool b
  | VaultTombstoneReadback v => [6; v]
  | Released => [7]
  | Quarantined r => 8 :: put_list r
  end.
Definition put_entry (s : Z) (p : list Z) (t : Transition) : list Z := s :: put_list p ++ put_transition t.
Fixpoint put_entries (l : list LedgerEntry) : list Z :=
  match l with
  | [] => [0]
  | e :: l => 1 :: put_entry (sequence e) (previous_sha256 e) (transition e) ++ put_list (entry_sha256 e) ++ put_entries l
  end.
Definition put_ledger (l : SupervisorLedger) : list Z :=
  schema_version l :: put_fence (fence l) ++ put_list (receipt_id_digest l) ++ put_list (receipt_verifier l)
  ++ put_list (ledger_worker_sha256 l) ++ put_list (ledger_broker_sha256 l) ++ put_list (ledger_provenance_sha256 l)
  ++ put_list (ledger_artifact_set_sha256 l) ++ put_list (ledger_store_instance_id_sha256 l)
  ++ put_list (ledger_canonical_state_path_sha256 l) ++ put_list (public_origin_digest l) ++ put_list (internal_listener_digest l)
  ++ [receipt_expires_at l] ++ put_bool (protected_alpha l) ++ put_list (policy_profile_digest l)
  ++ [ledger_absolute_deadline l] ++ [ledger_final_io_deadline l] ++ put_bool (cleanup_only l) ++ put_bool (quarantined l)
  ++ put_option (identity l) ++ put_entries (transitions l).
Definition put_request (r : BrokerRequest) : list Z :=
  request_sequence r :: put_list (request_challenge_sha256 r) ++ put_list (request_ledger_head_sha256 r) ++ put_fence (request_fence r)
  ++ [operation_code (request_operation r)] ++ put_option (request_identity r).

(** ** Reading *)

Definition Reader A : Type := list Z -> option (A * list Z).
Definition rret {A} (a : A) : Reader A := fun s => Some (a, s).
Definition rbind {A B} (r : Reader A) (k : A -> Reader B) : Reader B := fun s =>
  match r s with Some (a, s) => k a s | None => None end.
Notation "'get' x ':=' m 'in' k" := (rbind m (fun x => k)) (at level 10, x name, m at level 100, k at level 200).

Definition get_z : Reader Z := fun s => match s with z :: s => Some (z, s) | [] => None end.
Definition get_list : Reader (list Z) := fun s =>
  match s with n :: s => Some (take (Z.to_nat n) s, drop (Z.to_nat n) s) | [] => None end.
Definition get_bool : Reader bool := get z := get_z in rret (z =? 1).
Definition get_operation : Reader Operation := get z := get_z in
  rret (nth (Z.to_nat z) [Create; ApplyPolicy; FinalProviderIo; Delete; ObserveAbsence; VaultErase; LeaseRelease] Create).
Definition get_outcome : Reader OperationOutcome := get z := get_z in rret (nth (Z.to_nat z) [Succeeded; Failed; Unknown] Unknown).
Definition get_identity : Reader SupervisedIdentity :=
  get p := get_list in get f := get_list in get v := get_z in rret (mkSupervisedIdentity p f v).
Definition get_option : Reader (option SupervisedIdentity) :=
  get z := get_z in if z =? 0 then rret None else get i := get_identity in rret (Some i).
Definition get_fence : Reader Fence :=
  get r := get_list in get l := get_list in get g := get_z in get e := get_z in get t := get_list in
  rret (mkFence r (mkProtocolId l) g e t).
Definition get_transition : Reader Transition :=
  get tag := get_z in
  if tag =? 0 then rret Reserved
  else if tag =? 1 then get o := get_operation in rret (Intent o)
  else if tag =? 2 then get o := get_operation in get r := get_outcome in rret (Outcome o r)
  else if tag =? 3 then get i := get_identity in rret (IdentityBound i)
  else if tag =? 4 then rret CleanupOnly
  else if tag =? 5 then get n := get_z in get id := get_list in get a := get_bool in get b := get_bool in rret (AbsenceObserved n id a b)
  else if tag =? 6 then get v := get_z in rret (VaultTombstoneReadback v)
  else if tag =? 7 then rret Released
  else get r := get_list in rret (Quarantined r).
Fixpoint get_entries (fuel : nat) : Reader (list LedgerEntry) :=
  match fuel with
  | O => fun _ => None
  | S fuel =>
      get more := get_z in
      if more =? 0 then rret []
      else
        get s := get_z in get p := get_list in get t := get_transition in get h := get_list in
        get l := get_entries fuel in rret (mkLedgerEntry s p t h :: l)
  end.
Definition get_ledger : Reader SupervisorLedger :=
  get version := get_z in get f := get_fence in get d1 := get_list in get d2 := get_list in get d3 := get_list in
  get d4 := get_list in get d5 := get_list in get d6 := get_list in get d7 := get_list in get d8 := get_list in
  get d9 := get_list in get d10 := get_list in get x := get_z in get p := get_bool in get d11 := get_list in
  get a := get_z in get io := get_z in get c := get_bool in get q := get_bool in get i := get_option in
  fun s => (get l := get_entries (length s) in
            rret (mkSupervisorLedger version f d1 d2 d3 d4 d5 d6 d7 d8 d9 d10 x p d11 a io c q i l)) s.
Definition get_request : Reader BrokerRequest :=
  get s := get_z in get c := get_list in get h := get_list in get f := get_fence in get o := get_operation in
  get i := get_option in rret (mkBrokerRequest s c h f o i).
Definition put_head (h : LedgerHead) : list Z := head_sequence h :: put_list (head_entry_sha256 h).
Definition get_head : Reader LedgerHead := get q := get_z in get h := get_list in rret (mkLedgerHead q h).
Definition put_frame (f : AuthenticatedFrame) : list Z := put_request (frame_payload f) ++ put_list (authenticator f).
Definition get_frame : Reader AuthenticatedFrame := get r := get_request in get a := get_list in rret (mkAuthenticatedFrame r a).
Definition get_hashed : Reader (list Z * Transition) := get p := get_list in get t := get_transition in rret (p, t).
Definition whole {A} (r : Reader A) (s : list Z) : option A := fst <$> r s.

(** ** What is written is read back *)

Definition reads {A} (r : Reader A) (put : A -> list Z) : Prop := forall a s, r (put a ++ s) = Some (a, s).

Lemma rbind_reads {A B} (r : Reader A) (put : A -> list Z) (k : A -> Reader B) a s :
  reads r put -> rbind r k (put a ++ s) = k a s.
Proof. intros Hr. unfold rbind. by rewrite Hr. Qed.
Lemma rbind_z {B} (k : Z -> Reader B) z s : rbind get_z k (z :: s) = k z s.
Proof. done. Qed.

Lemma get_list_reads : reads get_list put_list.
Proof. intros l s. simpl. rewrite Nat2Z.id. by rewrite take_app_length, drop_app_length. Qed.
Lemma get_bool_reads : reads get_bool put_bool.
Proof. by intros [] s. Qed.
Lemma get_operation_reads : reads get_operation (fun o => [operation_code o]).
Proof. by intros [] s. Qed.
Lemma rbind_operation {B} (k : Operation -> Reader B) o s : rbind get_operation k (operation_code o :: s) = k o s.
Proof. by destruct o. Qed.
Lemma get_outcome_reads : reads get_outcome (fun o => [outcome_code o]).
Proof. by intros [] s. Qed.

Ltac step_reads := rewrite <- ?app_assoc; cbn [app];
  first [ rewrite rbind_z | erewrite (rbind_reads _ put_list) by exact get_list_reads
        | erewrite (rbind_reads _ put_bool) by exact get_bool_reads ].

Lemma get_identity_reads : reads get_identity put_identity.
Proof. intros [p f v] s. unfold get_identity, put_identity. simpl fqdn. simpl provider_stable_id. simpl vault_version. by repeat step_reads. Qed.
Lemma get_option_reads : reads get_option put_option.
Proof.
  intros [i|] s; [|done]. unfold get_option, put_option. step_reads. simpl (1 =? 0). cbv iota.
  by rewrite (rbind_reads _ put_identity) by exact get_identity_reads.
Qed.
Lemma get_fence_reads : reads get_fence put_fence.
Proof.
  intros [r [l] g e t] s. unfold get_fence, put_fence. cbn [run_id fence_lobby_id generation fence_epoch token_sha256 id_bytes].
  by repeat step_reads.
Qed.
Lemma get_transition_reads : reads get_transition put_transition.
Proof.
  intros [|o|o r|i| |n id a b|v| |r] s; unfold get_transition, put_transition; try (by destruct o; try destruct r); try done.
  - cbn [app]. rewrite rbind_z. cbn [Z.eqb Pos.eqb]. by rewrite (rbind_reads _ put_identity) by exact get_identity_reads.
  - cbn [app]. rewrite rbind_z. cbn [Z.eqb Pos.eqb]. by repeat step_reads.
  - cbn [app]. rewrite rbind_z. cbn [Z.eqb Pos.eqb]. by repeat step_reads.
Qed.
Lemma get_entries_reads l fuel s : (length l < fuel)%nat -> get_entries fuel (put_entries l ++ s) = Some (l, s).
Proof.
  revert fuel s. induction l as [|[q p t h] l IH]; intros [|fuel] s Hf; simpl in Hf; try lia; [done|].
  cbn [get_entries put_entries sequence previous_sha256 transition entry_sha256]. unfold put_entry. step_reads.
  cbn [Z.eqb Pos.eqb]. do 2 step_reads. rewrite <- ?app_assoc.
  rewrite (rbind_reads _ put_transition) by exact get_transition_reads. step_reads. unfold rbind. rewrite IH by lia. done.
Qed.
Lemma put_entries_long l : (length l < length (put_entries l))%nat.
Proof. induction l as [|e l IH]; simpl; [lia|]. unfold put_list. repeat (rewrite length_app; simpl). lia. Qed.
Lemma get_ledger_reads l : get_ledger (put_ledger l) = Some (l, []).
Proof.
  destruct l as [v f d1 d2 d3 d4 d5 d6 d7 d8 d9 d10 x p d11 a io c q i ts]. unfold get_ledger, put_ledger. cbn [schema_version fence receipt_id_digest receipt_verifier ledger_worker_sha256
    ledger_broker_sha256 ledger_provenance_sha256 ledger_artifact_set_sha256 ledger_store_instance_id_sha256
    ledger_canonical_state_path_sha256 public_origin_digest internal_listener_digest receipt_expires_at protected_alpha
    policy_profile_digest ledger_absolute_deadline ledger_final_io_deadline cleanup_only quarantined identity transitions].
  step_reads. rewrite (rbind_reads _ put_fence) by exact get_fence_reads. repeat step_reads.
  rewrite (rbind_reads _ put_option) by exact get_option_reads. unfold rbind.
  pose proof (get_entries_reads ts (length (put_entries ts)) [] (put_entries_long _)) as He.
  rewrite app_nil_r in He. by rewrite He.
Qed.
Lemma get_request_reads : reads get_request put_request.
Proof.
  intros [q c h f o i] s. unfold get_request, put_request. cbn [request_sequence request_challenge_sha256 request_ledger_head_sha256
    request_fence request_operation request_identity]. do 3 step_reads. rewrite <- ?app_assoc.
  rewrite (rbind_reads _ put_fence) by exact get_fence_reads.
  rewrite rbind_operation.
  by rewrite (rbind_reads _ put_option) by exact get_option_reads.
Qed.

Lemma get_head_reads : reads get_head put_head.
Proof. intros [q h] s. unfold get_head, put_head. cbn [head_sequence head_entry_sha256]. by repeat step_reads. Qed.
Lemma get_frame_reads : reads get_frame put_frame.
Proof.
  intros [r a] s. unfold get_frame, put_frame. cbn [frame_payload authenticator]. rewrite <- app_assoc.
  rewrite (rbind_reads _ put_request) by exact get_request_reads. by repeat step_reads.
Qed.
Lemma get_hashed_reads : reads get_hashed (fun '(p, t) => put_list p ++ put_transition t).
Proof.
  intros [p t] s. unfold get_hashed. step_reads. by rewrite (rbind_reads _ put_transition) by exact get_transition_reads.
Qed.
Lemma whole_reads {A} (r : Reader A) put a : reads r put -> whole r (put a) = Some a.
Proof. intros Hr. unfold whole. rewrite <- (app_nil_r (put a)). by rewrite Hr. Qed.

(** ** The instance *)

#[export] Instance demo_supervision_json : SupervisionJson := {
  json_entry := put_entry;
  json_ledger := put_ledger;
  parse_ledger := whole get_ledger;
  json_head := put_head;
  parse_head := whole get_head;
  json_request := put_request;
  json_frame := put_frame;
  parse_frame := whole get_frame;
}.
#[export] Instance demo_supervision_sound : SupervisionJsonSound.
Proof.
  split.
  - intros l. unfold parse_ledger, json_ledger, demo_supervision_json, whole. by rewrite get_ledger_reads.
  - intros h. by apply (whole_reads get_head put_head h get_head_reads).
  - intros f. by apply (whole_reads get_frame put_frame f get_frame_reads).
  - intros s p t s' p' t' Heq. unfold json_entry, demo_supervision_json, put_entry in Heq. injection Heq as -> Hl Hrest.
    pose proof (whole_reads _ _ (p, t) get_hashed_reads) as Hr. pose proof (whole_reads _ _ (p', t') get_hashed_reads) as Hr'.
    assert (Heq : put_list p ++ put_transition t = put_list p' ++ put_transition t') by (unfold put_list; cbn [app]; congruence).
    cbv beta iota in Hr, Hr'. rewrite Heq, Hr' in Hr. by injection Hr as -> ->.
Qed.
End SupervisionDemo.
