(* ===== verification/SupervisionLedger.v ===== *)
(** * What the supervisor's ledger guarantees

    A valid ledger is one that was built by its own operation, its head binds its
    history, it survives every failure of the file system, and a broker's guard grants
    what the ledger permits, once. *)

From stdpp Require Import gmap.
From S2P Require Import Prelude MachineInt Clock Bytes Identifiers Session Rehearsal Supervision SupervisionDemo.
Open Scope Z_scope.

Section ledger.
Context `{Crypto} `{SupervisionJson}.

(** ** Building and checking *)

Definition derived_of (l : SupervisorLedger) : Derived :=
  mkDerived (head_sha256 l) (identity l) (cleanup_only l) (quarantined l).

Definition small (l : SupervisorLedger) : Prop := Z.of_nat (length (transitions l)) < u64_max.

(** The ledger with an empty history. *)
Definition blank (l : SupervisorLedger) : SupervisorLedger :=
  l <| transitions := [] |> <| identity := None |> <| cleanup_only := false |> <| quarantined := false |>.

Definition replay (l : SupervisorLedger) (ts : list Transition) : result SupervisorLedger SupervisionError :=
  fold_left (fun r t => match r with Ok l => push l t | Err e => Err e end) ts (Ok l).

(** The fixed part of a ledger: what no transition changes. *)
Definition same_terms (l l' : SupervisorLedger) : Prop := blank l' = blank l.

Lemma push_spec l t l' :
  push l t = Ok l' <->
  (quarantined l = true -> is_quarantined t = true) /\
  exists bound, bind_identity (identity l) t = Ok bound /\
    let n := saturating_add 64 (Z.of_nat (length (transitions l))) 1 in
    l' = l <| identity := bound |> <| cleanup_only := cleanup_after (cleanup_only l) t |>
           <| quarantined := quarantine_after (quarantined l) t |>
           <| transitions := transitions l ++ [mkLedgerEntry n (head_sha256 l) t (entry_hash n (head_sha256 l) t)] |>.
Proof.
  unfold push. cbv zeta. destruct (quarantined l) eqn:Hq, (is_quarantined t) eqn:Ht; cbn [andb negb].
  2: { split; [done|]. intros [Himp _]. by specialize (Himp eq_refl). }
  all: destruct (bind_identity (identity l) t) as [bound|e];
    [split; [intros [= <-]; split; [done|by exists bound]|intros [_ (b & [= <-] & ->)]; done]
    |split; [done|by intros [_ (? & ? & _)]]].
Qed.

Lemma push_terms l t l' : push l t = Ok l' -> same_terms l l'.
Proof. intros (_ & bound & _ & ->)%push_spec. by destruct l. Qed.

Lemma push_history l t l' : push l t = Ok l' -> transition <$> transitions l' = (transition <$> transitions l) ++ [t].
Proof. intros (_ & bound & _ & ->)%push_spec. simpl. by rewrite fmap_app. Qed.

Lemma push_length l t l' : push l t = Ok l' -> length (transitions l') = S (length (transitions l)).
Proof. intros (_ & bound & _ & ->)%push_spec. simpl. rewrite length_app. simpl. lia. Qed.

Lemma check_entries_app index d l l' :
  check_entries index d (l ++ l') =
    match check_entries index d l with
    | Ok d' => check_entries (index + Z.of_nat (length l)) d' l'
    | Err e => Err e
    end.
Proof.
  revert index d. induction l as [|entry l IH]; intros index d; simpl; [by rewrite Z.add_0_r|].
  destruct (check_entry index d entry); [|done]. rewrite IH. destruct (check_entries _ _ l); [|done]. f_equal. lia.
Qed.

(** The check of the new entry, after a push onto a checked history. *)
Lemma check_pushed l t l' d :
  small l -> derived_of l = d -> is_reserved t = (length (transitions l) =? 0)%nat ->
  push l t = Ok l' ->
  exists entry, transitions l' = transitions l ++ [entry] /\
    check_entry (Z.of_nat (length (transitions l))) d entry = Ok (derived_of l').
Proof.
  intros Hsmall <- Hres (Hq & bound & Hb & ->)%push_spec. cbv zeta.
  set (n := saturating_add 64 _ 1). assert (Hn : n = Z.of_nat (length (transitions l)) + 1).
  { subst n. unfold small, u64_max, saturating_add in *. lia. }
  exists (mkLedgerEntry n (head_sha256 l) t (entry_hash n (head_sha256 l) t)). split; [done|].
  unfold check_entry, derived_of. cbn [sequence previous_sha256 entry_sha256 transition previous derived_quarantined
    derived_identity derived_cleanup_only]. rewrite <- Hn, Z.eqb_refl, !bool_decide_true by done. cbn [negb orb].
  assert (Hz : (Z.of_nat (length (transitions l)) =? 0) = (length (transitions l) =? 0)%nat)
    by (destruct (Nat.eqb_spec (length (transitions l)) 0); [by apply Z.eqb_eq; lia|by apply Z.eqb_neq; lia]).
  rewrite Hz, Hres. destruct (length (transitions l) =? 0)%nat; cbn [andb negb orb].
  all: destruct (quarantined l) eqn:Hql; [rewrite (Hq eq_refl)|]; cbn [andb negb]; rewrite Hb; f_equal;
    unfold head_sha256; simpl; by rewrite last_snoc.
Qed.

Definition check (l : SupervisorLedger) : result Derived SupervisionError :=
  check_entries 0 (mkDerived ZERO_32 None false false) (transitions l).

Lemma push_checks l t l' :
  small l -> check l = Ok (derived_of l) -> is_reserved t = (length (transitions l) =? 0)%nat ->
  push l t = Ok l' -> check l' = Ok (derived_of l').
Proof.
  intros Hsmall Hcheck Hres Hpush. destruct (check_pushed l t l' (derived_of l) Hsmall eq_refl Hres Hpush) as (entry & Ht & He).
  unfold check in *. rewrite Ht, check_entries_app, Hcheck. cbn [check_entries]. by rewrite Z.add_0_l, He.
Qed.

(** The parts of [validate]. *)
Definition header_ok (l : SupervisorLedger) : bool :=
  (schema_version l =? SCHEMA_VERSION) && negb (protected_alpha l && protected_fields_missing l).

Lemma check_head index d l d' :
  check_entries index d l = Ok d' -> previous d' = match last l with Some entry => entry_sha256 entry | None => previous d end.
Proof.
  revert index d. induction l as [|entry l IH]; intros index d; simpl; [by intros [= <-]|].
  destruct (check_entry index d entry) as [d1|] eqn:He; [|done]. intros Hd. rewrite (IH _ _ Hd).
  assert (Hp : previous d1 = entry_sha256 entry).
  { unfold check_entry in He. cbv zeta in He. destruct (negb _ || _ || _ || _ || _ || _); [discriminate|].
    destruct (bind_identity (derived_identity d) (transition entry)); [|discriminate]. apply Ok_inj in He. by rewrite <- He. }
  rewrite Hp. destruct l as [|e l]; [done|]. change (last (entry :: e :: l)) with (last (e :: l)). destruct (last (e :: l)) eqn:Hlast; [done|]. by apply last_None in Hlast.
Qed.

Lemma validate_Ok l :
  validate l = Ok tt <-> header_ok l = true /\ transitions l <> [] /\ check l = Ok (derived_of l).
Proof.
  unfold validate, header_ok. destruct (Z.eqb_spec (schema_version l) SCHEMA_VERSION) as [Hs|]; cbn [negb orb andb].
  2: { split; [done|by intros [? _]]. }
  destruct (Nat.eqb_spec (length (transitions l)) 0) as [Hn|Hn].
  { split; [done|]. intros (_ & Hne & _). by apply nil_length_inv in Hn. }
  destruct (protected_alpha l && protected_fields_missing l); cbn [negb]; [split; [done|by intros [? _]]|].
  assert (Hne : transitions l <> []) by (intros Hl; by rewrite Hl in Hn). unfold check.
  destruct (check_entries _ _ _) as [d|] eqn:Hd; [|split; [done|by intros (_ & _ & ?)]].
  pose proof (check_head _ _ _ _ Hd) as Hp. split.
  - destruct (_ || _ || _) eqn:Hg; [done|]. intros _. split_and!; [done|done|]. f_equal.
    apply orb_false_iff in Hg as [[Hi Hc]%orb_false_iff Hq]. apply negb_false_iff in Hi, Hc, Hq.
    apply bool_decide_eq_true in Hi. apply Bool.eqb_prop in Hc, Hq. destruct d as [p i c q].
    unfold derived_of, head_sha256. simpl in *. by rewrite Hp, Hi, Hc, Hq.
  - intros (_ & _ & [= ->]). simpl. rewrite bool_decide_true by done. rewrite !Bool.eqb_reflx. done.
Qed.

Lemma check_entry_Ok index d entry d' :
  0 <= index ->
  check_entry index d entry = Ok d' <->
  entry = mkLedgerEntry (index + 1) (previous d) (transition entry) (entry_hash (index + 1) (previous d) (transition entry)) /\
  is_reserved (transition entry) = (index =? 0) /\
  (derived_quarantined d = true -> is_quarantined (transition entry) = true) /\
  exists bound, bind_identity (derived_identity d) (transition entry) = Ok bound /\
    d' = mkDerived (entry_sha256 entry) bound (cleanup_after (derived_cleanup_only d) (transition entry))
           (quarantine_after (derived_quarantined d) (transition entry)).
Proof.
  intros Hindex. unfold check_entry. cbv zeta. destruct entry as [s p t h]. cbn [sequence previous_sha256 transition entry_sha256]. split.
  - destruct (negb _ || _ || _ || _ || _ || _) eqn:Hg; [done|].
    destruct (bind_identity _ t) as [bound|] eqn:Hb; [|done]. intros <-%Ok_inj.
    rewrite !orb_false_iff, !negb_false_iff, Z.eqb_eq, !bool_decide_eq_true in Hg.
    destruct Hg as (((((-> & ->) & ->) & Hr1) & Hr2) & Hq). split_and!; [done| | |by exists bound].
    + destruct (index =? 0), (is_reserved t); done.
    + intros Hd. rewrite Hd in Hq. by destruct (is_quarantined t).
  - intros ([= -> -> ->] & Hr & Hq & bound & Hb & ->). rewrite Z.eqb_refl, !bool_decide_true by done. rewrite Hr, Hb.
    cbn [negb orb]. rewrite andb_negb_r, andb_negb_l. destruct (derived_quarantined d); [by rewrite Hq|done].
Qed.

(** The ledger as it stood after the entries [p]. *)
Definition at_point (l : SupervisorLedger) (p : list LedgerEntry) (d : Derived) : SupervisorLedger :=
  l <| transitions := p |> <| identity := derived_identity d |> <| cleanup_only := derived_cleanup_only d |>
    <| quarantined := derived_quarantined d |>.

Definition initial : Derived := mkDerived ZERO_32 None false false.

Lemma replay_snoc l ts t : replay l (ts ++ [t]) = match replay l ts with Ok l' => push l' t | Err e => Err e end.
Proof. unfold replay. by rewrite fold_left_app. Qed.

(** A history that checks is rebuilt by pushing its transitions again. *)
Lemma check_replays l p d :
  Z.of_nat (length p) <= u64_max -> check_entries 0 initial p = Ok d ->
  replay (blank l) (transition <$> p) = Ok (at_point l p d).
Proof.
  revert d. induction p as [|entry p IH] using rev_ind; intros d Hlen Hd.
  { by injection Hd as <-. }
  rewrite length_app in Hlen. simpl in Hlen. rewrite check_entries_app in Hd. destruct (check_entries 0 initial p) as [d0|] eqn:Hd0; [|done].
  specialize (IH d0 ltac:(lia) eq_refl). rewrite fmap_app. cbn [fmap list_fmap]. rewrite replay_snoc, IH.
  cbn [check_entries] in Hd. rewrite Z.add_0_l in Hd. destruct (check_entry _ d0 entry) as [d1|] eqn:He; [|done]. apply Ok_inj in Hd as ->.
  apply check_entry_Ok in He as (Heq & _ & Hq & bound & Hb & ->); [|lia]. apply push_spec. split; [done|].
  exists bound. split; [done|]. cbv zeta.
  assert (Hhead : head_sha256 (at_point l p d0) = previous d0) by (apply check_head in Hd0; by rewrite Hd0).
  rewrite Hhead. assert (Hn : saturating_add 64 (Z.of_nat (length p)) 1 = Z.of_nat (length p) + 1).
  { unfold saturating_add, u64_max in *. lia. }
  assert (Ht : transitions (at_point l p d0) = p) by done. rewrite Ht, Hn, <- Heq. by destruct l.
Qed.

Lemma replay_length us a b : replay a us = Ok b -> length (transitions b) = (length (transitions a) + length us)%nat.
Proof.
  revert a b. induction us as [|u us IH] using rev_ind; intros a b Hr; [injection Hr as <-; simpl; lia|].
  rewrite replay_snoc in Hr. destruct (replay a us) as [c|] eqn:Hc; [|done].
  rewrite (push_length _ _ _ Hr), (IH a c Hc), length_app. simpl. lia.
Qed.

(** Pushing keeps a history checked, from the first entry on. *)
Lemma replay_checks ts l l' :
  Z.of_nat (length (transitions l) + length ts) <= u64_max -> check l = Ok (derived_of l) ->
  (forall i t, ts !! i = Some t -> is_reserved t = (length (transitions l) + i =? 0)%nat) ->
  replay l ts = Ok l' -> check l' = Ok (derived_of l').
Proof.
  revert l'. induction ts as [|t ts IH] using rev_ind; intros l' Hlen Hcheck Hres Hreplay; [by injection Hreplay as <-|].
  rewrite length_app in Hlen. simpl in Hlen. rewrite replay_snoc in Hreplay. destruct (replay l ts) as [l1|] eqn:Hr1; [|done].
  pose proof (replay_length _ _ _ Hr1) as Hl1. eapply push_checks; [| | |exact Hreplay].
  - unfold small. lia.
  - apply IH; [lia|done| |done]. intros i u Hu. apply Hres. by apply lookup_app_l_Some.
  - rewrite (Hres (length ts) t), Hl1; [done|]. by rewrite list_lookup_middle.
Qed.

Lemma same_terms_header l l' : same_terms l l' -> header_ok l' = header_ok l.
Proof.
  intros Hs. assert (Hb : forall a, header_ok a = header_ok (blank a)) by (by intros []). rewrite (Hb l'), (Hb l). by rewrite Hs.
Qed.

Lemma push_valid l t l' :
  small l -> validate l = Ok tt -> is_reserved t = false -> push l t = Ok l' -> validate l' = Ok tt.
Proof.
  intros Hsmall (Hh & Hne & Hc)%validate_Ok Hr Hpush. apply validate_Ok. split_and!.
  - by rewrite (same_terms_header l l' (push_terms _ _ _ Hpush)).
  - apply push_length in Hpush. by destruct (transitions l').
  - eapply push_checks; [done|done| |done]. rewrite Hr. by destruct (transitions l).
Qed.

Lemma later_not_reserved es : forall n d d',
  0 < n -> check_entries n d es = Ok d' -> Forall (fun t => is_reserved t = false) (transition <$> es).
Proof.
  induction es as [|e es IH]; intros n d d' Hn Hc; [constructor|].
  cbn [check_entries] in Hc. destruct (check_entry n d e) as [d1|] eqn:He; [|done].
  apply check_entry_Ok in He as (_ & Hr & _); [|lia]. rewrite fmap_cons. constructor; [rewrite Hr; apply Z.eqb_neq; lia|].
  apply (IH (n + 1) d1 d' ltac:(lia) Hc).
Qed.

(** A ledger that passes the check was built by its own operations, and every
    ledger so built passes. For a ledger below the sequence limit with a sound
    header, the check accepts exactly when its history is a reservation followed by
    other transitions, and pushing those one after the other onto the empty ledger
    yields this very ledger, with its hashes, its identity and its cleanup and
    quarantine flags. *)
Theorem valid_is_replayed l :
  small l ->
  validate l = Ok tt <->
  header_ok l = true /\
  exists ts, Forall (fun t => is_reserved t = false) ts /\ replay (blank l) (Reserved :: ts) = Ok l.
Proof.
  intros Hsmall. unfold small in Hsmall. rewrite validate_Ok. split.
  - intros (Hh & Hne & Hc). split; [done|]. unfold check in Hc.
    pose proof (check_replays l (transitions l) (derived_of l) ltac:(lia) Hc) as Hrep.
    assert (Hat : at_point l (transitions l) (derived_of l) = l) by (by destruct l). rewrite Hat in Hrep.
    destruct (transitions l) as [|e0 es]; [done|]. exists (transition <$> es). cbn [check_entries] in Hc.
    destruct (check_entry 0 _ e0) as [d0|] eqn:He0; [|done].
    apply check_entry_Ok in He0 as (_ & Hr & _); [|lia]. split.
    + by apply (later_not_reserved es (0 + 1) d0 (derived_of l) ltac:(lia)).
    + assert (Hres : transition e0 = Reserved) by (by destruct (transition e0)). rewrite fmap_cons, Hres in Hrep. done.
  - intros (Hh & ts & Hts & Hrep). pose proof (replay_length _ _ _ Hrep) as Hlen. simpl in Hlen.
    apply replay_checks in Hrep; [|simpl; lia|done|].
    + split_and!; [done| |done]. by intros Hnil; rewrite Hnil in Hlen.
    + intros [|i] t Hi; simpl in Hi; [by injection Hi as <-|]. rewrite Forall_lookup in Hts. by rewrite (Hts i t Hi).
Qed.

(** ** The head *)

(** No two of the given entries share a hash without sharing what was hashed. *)
Definition no_collision (l l' : list LedgerEntry) : Prop :=
  forall e e', e ∈ l -> e' ∈ l' -> entry_sha256 e = entry_sha256 e' ->
  json_entry (sequence e) (previous_sha256 e) (transition e) = json_entry (sequence e') (previous_sha256 e') (transition e').

Lemma same_head_same_entries `{!SupervisionJsonSound} p p' d d' :
  check_entries 0 initial p = Ok d -> check_entries 0 initial p' = Ok d' -> no_collision p p' ->
  p <> [] -> p' <> [] -> previous d = previous d' -> p = p'.
Proof.
  revert p' d d'. induction p as [|e p IH] using rev_ind; intros p' d d' Hd Hd' Hno Hp Hp' Heq; [done|].
  destruct p' as [|e' p' _] using rev_ind; [done|]. rewrite check_entries_app in Hd, Hd'.
  destruct (check_entries 0 initial p) as [d0|] eqn:Hd0; [|done]. destruct (check_entries 0 initial p') as [d0'|] eqn:Hd0'; [|done].
  cbn [check_entries] in Hd, Hd'. rewrite Z.add_0_l in Hd, Hd'.
  destruct (check_entry _ d0 e) as [d1|] eqn:He; [|done]. apply Ok_inj in Hd as ->.
  destruct (check_entry _ d0' e') as [d1'|] eqn:He'; [|done]. apply Ok_inj in Hd' as ->.
  apply check_entry_Ok in He as (Hent & _ & _ & bound & _ & ->); [|lia].
  apply check_entry_Ok in He' as (Hent' & _ & _ & bound' & _ & ->); [|lia]. cbn [previous] in Heq.
  pose proof (Hno e e' ltac:(apply elem_of_app; right; by left) ltac:(apply elem_of_app; right; by left) Heq) as Hjson.
  apply json_entry_inj in Hjson as (Hseq & Hprev & Ht). rewrite Hent, Hent' in Hseq, Hprev. cbn [sequence previous_sha256] in Hseq, Hprev.
  assert (He : e = e') by (rewrite Hent, Hent', Ht, Hprev; f_equal; [|f_equal]; lia). rewrite He. f_equal.
  destruct p as [|a p]; [destruct p' as [|a' p']; [done|simpl in Hseq; lia]|]. destruct p' as [|a' p']; [simpl in Hseq; lia|].
  eapply IH; [done|done| |done|done|done]. intros x x' Hx Hx'. apply Hno; apply elem_of_app; by left.
Qed.

(** The last hash of a ledger stands for its whole history. Of two ledgers that
    pass the check, if no two different entries among theirs hash alike and their
    last hashes agree, then the transitions are the same, in the same order, and so
    are the bound identity and the cleanup and quarantine flags. *)
Theorem head_binds_history `{!SupervisionJsonSound} l l' :
  validate l = Ok tt -> validate l' = Ok tt -> no_collision (transitions l) (transitions l') ->
  head_sha256 l = head_sha256 l' ->
  transitions l = transitions l' /\ identity l = identity l' /\ cleanup_only l = cleanup_only l' /\ quarantined l = quarantined l'.
Proof.
  intros (_ & Hne & Hc)%validate_Ok (_ & Hne' & Hc')%validate_Ok Hno Hhead. unfold check in Hc, Hc'.
  assert (Ht : transitions l = transitions l') by (eapply same_head_same_entries; [exact Hc|exact Hc'|done|done|done|done]).
  split; [done|]. rewrite Ht, Hc' in Hc. by injection Hc as Hi Hcl Hq.
Qed.

(** ** Storage *)

Definition fits (bytes : list Z) : Prop := (length bytes <= Z.to_nat (1024 * 1024))%nat.
(** Both files speak of the ledger [l], and can be read whole. *)
Definition readable (l : SupervisorLedger) (h : LedgerHead) : Prop := fits (json_ledger l) /\ fits (json_head h).
Definition on_disk (s : LedgerStore) (l : SupervisorLedger) (h : LedgerHead) : Prop :=
  ledger_file s = Some (json_ledger l) /\ head_file s = Some (json_head h).
Definition last_head (l : SupervisorLedger) : option LedgerHead := head_of <$> last (transitions l).
Definition stored (s : LedgerStore) (l : SupervisorLedger) : Prop :=
  exists h, last_head l = Some h /\ readable l h /\ on_disk s l h.

Lemma read_whole {A} (read : list Z -> option A) bytes a :
  fits bytes -> read bytes = Some a -> read_json_limited read (Some bytes) = Ok a.
Proof. intros Hf Hr. unfold read_json_limited. by rewrite take_ge, Hr by exact Hf. Qed.

Lemma push_last_head l t l' :
  small l -> push l t = Ok l' ->
  exists h, last_head l' = Some h /\ head_sequence h = Z.of_nat (length (transitions l)) + 1 /\
    last (transitions l') = Some (mkLedgerEntry (head_sequence h) (head_sha256 l) t (head_entry_sha256 h)).
Proof.
  intros Hs (_ & bound & _ & ->)%push_spec. cbv zeta. set (n := saturating_add 64 _ 1).
  assert (Hn : n = Z.of_nat (length (transitions l)) + 1) by (subst n; unfold small, u64_max, saturating_add in *; lia).
  exists (mkLedgerHead n (entry_hash n (head_sha256 l) t)). unfold last_head. simpl. rewrite last_snoc. by rewrite Hn.
Qed.

(** The last entry of a checked ledger carries its position. *)
Lemma last_sequence l h :
  validate l = Ok tt -> last_head l = Some h ->
  head_sequence h = Z.of_nat (length (transitions l)) /\ head_entry_sha256 h = head_sha256 l.
Proof.
  intros (_ & _ & Hc)%validate_Ok Hh. unfold check in Hc. unfold last_head, head_sha256 in *.
  destruct (transitions l) as [|e p _] using rev_ind; [done|]. rewrite last_snoc in Hh |- *. injection Hh as <-.
  rewrite check_entries_app in Hc. destruct (check_entries 0 _ p) as [d0|]; [|done]. cbn [check_entries] in Hc.
  rewrite Z.add_0_l in Hc. destruct (check_entry _ d0 e) as [d1|] eqn:He; [|done].
  apply check_entry_Ok in He as (Hent & _); [|lia]. rewrite length_app. split; [|done]. rewrite Hent. simpl. lia.
Qed.

(** A push onto the stored ledger may replace its head, and so may a quarantine. *)
Lemma head_allows_next `{!SupervisionJsonSound} l t l' h h' entry :
  small l -> validate l = Ok tt -> last_head l = Some h -> push l t = Ok l' -> last_head l' = Some h' ->
  last (transitions l') = Some entry -> head_allows entry (Some (json_head h)) = true.
Proof.
  intros Hs Hv Hh Hpush Hh' Hlast. destruct (push_last_head l t l' Hs Hpush) as (h1 & Hh1 & Hseq & Hlast1).
  rewrite Hlast in Hlast1. injection Hlast1 as ->. destruct (last_sequence l h Hv Hh) as [Hs1 Hs2].
  unfold head_allows. destruct (json_head h) eqn:Hj; [done|]. rewrite <- Hj, parse_json_head. cbn [sequence previous_sha256 transition].
  rewrite Hseq, Hs1, Hs2, (bool_decide_true (head_sha256 l = head_sha256 l)) by done.
  assert (Hsat : saturating_add 64 (Z.of_nat (length (transitions l))) 1 = Z.of_nat (length (transitions l)) + 1).
  { unfold small, u64_max, saturating_add in *. lia. }
  rewrite Hsat, Z.eqb_refl. cbn [andb]. by rewrite orb_true_r.
Qed.

Lemma load_stored `{!SupervisionJsonSound} s l h h' :
  validate l = Ok tt -> last_head l = Some h -> readable l h' -> on_disk s l h' ->
  load s = if bool_decide (h' = h) then (s, Ok l)
           else match push l (Quarantined ROLLBACK_REASON) with
                | Err e => (s, Err e)
                | Ok l' => match persist s l' with (s', Err e) => (s', Err e) | (s', Ok _) => (s', Ok l') end
                end.
Proof.
  intros Hv Hh [Hf1 Hf2] [Hd1 Hd2]. unfold load. rewrite Hd1, Hd2.
  rewrite (read_whole _ _ _ Hf1 (parse_json_ledger l)), Hv, (read_whole _ _ _ Hf2 (parse_json_head h')).
  unfold last_head in Hh. destruct (last (transitions l)) as [e|]; [|done]. simpl in Hh. injection Hh as <-.
  by destruct (bool_decide (h' = head_of e)).
Qed.

(** What one [persist] leaves behind: nothing, the ledger without its head, or both. *)
Lemma persist_cases s l h :
  validate l = Ok tt -> last_head l = Some h ->
  (forall entry, last (transitions l) = Some entry -> head_allows entry (head_file s) = true) ->
  let '(s', r) := persist s l in
  (r = Err Persistence /\ ledger_file s' = ledger_file s /\ head_file s' = head_file s) \/
  (r = Err Persistence /\ ledger_file s' = Some (json_ledger l) /\ head_file s' = head_file s) \/
  (ledger_file s' = Some (json_ledger l) /\ head_file s' = Some (json_head h) /\ (r = Ok tt \/ r = Err Persistence)).
Proof.
  intros Hv Hh Hallows. unfold persist. rewrite Hv. unfold last_head in Hh. destruct (last (transitions l)) as [e|]; [|done].
  simpl in Hh. injection Hh as <-. rewrite (Hallows e eq_refl). cbn [negb].
  unfold atomic_replace_json, next_io. destruct s as [lf hf io]. destruct io as [|[] [|[] io]]; simpl; naive_solver.
Qed.

Lemma persist_without_faults s l h :
  validate l = Ok tt -> last_head l = Some h -> faults s = [] ->
  (forall entry, last (transitions l) = Some entry -> head_allows entry (head_file s) = true) ->
  exists s', persist s l = (s', Ok tt) /\ on_disk s' l h.
Proof.
  intros Hv Hh Hio Hallows. unfold persist. rewrite Hv. unfold last_head in Hh. destruct (last (transitions l)) as [e|]; [|done].
  simpl in Hh. injection Hh as <-. rewrite (Hallows e eq_refl). cbn [negb].
  unfold atomic_replace_json, next_io. rewrite Hio. simpl. eexists. by split.
Qed.

Definition rollback_of (l lq : SupervisorLedger) : Prop := push l (Quarantined ROLLBACK_REASON) = Ok lq.

Lemma rollback_permits_nothing l lq operation now : rollback_of l lq -> permits lq operation now = Err IncompleteProof.
Proof. intros (_ & bound & _ & ->)%push_spec. done. Qed.

(** Reading a ledger whose head file is not its own. *)
Lemma load_quarantines `{!SupervisionJsonSound} s l h h' :
  small l -> validate l = Ok tt -> last_head l = Some h -> readable l h' -> on_disk s l h' -> h' <> h -> faults s = [] ->
  exists s' lq, load s = (s', Ok lq) /\ rollback_of l lq /\ validate lq = Ok tt /\
    exists hq, last_head lq = Some hq /\ on_disk s' lq hq.
Proof.
  intros Hs Hv Hh Hr Hd Hne Hio. rewrite (load_stored s l h h' Hv Hh Hr Hd), bool_decide_false by done.
  destruct (push l (Quarantined ROLLBACK_REASON)) as [lq|e] eqn:Hq; [|by unfold push in Hq; destruct (quarantined l)].
  pose proof (push_valid l (Quarantined ROLLBACK_REASON) lq Hs Hv eq_refl Hq) as Hvq. destruct (push_last_head l _ lq Hs Hq) as (hq & Hhq & _ & Hlast).
  destruct (persist_without_faults s lq hq Hvq Hhq Hio) as (s' & Hp & Hd').
  { intros entry He. rewrite He in Hlast. injection Hlast as ->. destruct Hd as [_ Hd2]. rewrite Hd2. unfold head_allows.
    destruct (json_head h') eqn:Hj; [done|]. rewrite <- Hj, parse_json_head. simpl. by rewrite orb_true_r. }
  rewrite Hp. exists s', lq. split_and!; [done..|]. by exists hq.
Qed.

(** C20. The ledger survives a crash at any point of its update. Let a checked ledger
    be on disk, with its head, and let the next transition be recorded while the file
    system fails, or reports failure after the fact, as it likes. Once it works
    again, loading succeeds: with the new ledger if recording it was reported as
    done, and otherwise with the old ledger, the new one, or, when only the first of
    the two files had been replaced, the new one quarantined, which permits nothing
    and has itself been stored; what is loaded always passes the check. *)
Theorem ledger_survives_crashes `{!SupervisionJsonSound} s l t l' s' r :
  Z.of_nat (length (transitions l)) + 1 < u64_max ->
  validate l = Ok tt -> stored s l -> is_reserved t = false -> push l t = Ok l' ->
  (forall h h', last_head l = Some h -> last_head l' = Some h' -> readable l' h /\ readable l' h') ->
  persist s l' = (s', r) ->
  exists s2 l2, load (s' <| faults := [] |>) = (s2, Ok l2) /\ validate l2 = Ok tt /\
    (exists h2, last_head l2 = Some h2 /\ on_disk s2 l2 h2) /\
    ((r = Ok tt /\ l2 = l') \/
     (r = Err Persistence /\ (l2 = l \/ l2 = l' \/
        (rollback_of l' l2 /\ forall operation now, permits l2 operation now = Err IncompleteProof)))).
Proof.
  intros Hlen Hv (h & Hh & Hfit & Hdisk) Hres Hpush Hfits Hpersist. assert (Hs : small l) by (unfold small; lia).
  pose proof (push_valid l t l' Hs Hv Hres Hpush) as Hv'. pose proof (push_length l t l' Hpush) as Hlen'.
  destruct (push_last_head l t l' Hs Hpush) as (h' & Hh' & Hseq & Hlast). destruct (Hfits h h' Hh Hh') as [Hf1 Hf2].
  destruct (last_sequence l h Hv Hh) as [Hs1 _]. assert (Hne : h <> h') by (intros ->; lia).
  pose proof (persist_cases s l' h' Hv' Hh') as Hcases. rewrite Hpersist in Hcases. destruct Hdisk as [Hd1 Hd2].
  destruct Hcases as [(-> & Hl & Hhd)|[(-> & Hl & Hhd)|(Hl & Hhd & Hr)]].
  { intros entry He. rewrite Hd2. by eapply head_allows_next. }
  - exists (s' <| faults := [] |>), l. assert (Hd : on_disk (s' <| faults := [] |>) l h) by (split; simpl; congruence).
    rewrite (load_stored _ l h h Hv Hh Hfit Hd), bool_decide_true by done. split_and!; [done..| |by right; split; [|left]]. by exists h.
  - assert (Hd : on_disk (s' <| faults := [] |>) l' h) by (split; simpl; congruence).
    destruct (load_quarantines _ l' h' h ltac:(unfold small; lia) Hv' Hh' Hf1 Hd Hne eq_refl) as (s2 & lq & Hload & Hq & Hvq & Hdq).
    exists s2, lq. split_and!; [done..|]. right. split; [done|]. right. right. split; [done|]. intros. by eapply rollback_permits_nothing.
  - exists (s' <| faults := [] |>), l'. assert (Hd : on_disk (s' <| faults := [] |>) l' h') by (split; simpl; congruence).
    rewrite (load_stored _ l' h' h' Hv' Hh' Hf2 Hd), bool_decide_true by done.
    split_and!; [done|done|by exists h'|]. destruct Hr as [->| ->]; [by left|right; split; [done|by right; left]].
Qed.

(** ** The guard *)

(** The guard of the ledger [l] after [n] grants. *)
Definition guard_at (l : SupervisorLedger) (challenge : list Z) (n : Z) : BrokerFenceGuard :=
  (from_ledger l challenge) <| guard_last_sequence := n |>.

(** What a request must say to be granted as the one after [n] others. *)
Definition entitled (l : SupervisorLedger) (challenge : list Z) (n : Z) (r : BrokerRequest) (policy : list Z) (now : UnixMillis) : Prop :=
  request_sequence r = n + 1 /\ request_fence r = fence l /\ request_challenge_sha256 r = challenge /\ challenge <> ZERO_32 /\
  request_ledger_head_sha256 r = head_sha256 l /\ is_some (identity l) = true /\ request_identity r = identity l /\
  policy = policy_profile_digest l /\ permits l (request_operation r) now = Ok tt.

Lemma permits_Ok l operation now :
  permits l operation now = Ok tt <->
  quarantined l = false /\
  (negb (is_cleanup operation) && (ledger_absolute_deadline l <=? now))
  || (is_provider_io operation && (ledger_final_io_deadline l <=? now))
  || (cleanup_only l && negb (is_cleanup operation)) = false.
Proof.
  unfold permits. destruct (quarantined l); [split; [done|by intros [? _]]|].
  destruct (_ || _); [split; [done|by intros [_ ?]]|]. destruct (cleanup_only l && _); cbn [orb]; [split; [done|by intros [_ ?]]|done].
Qed.

Lemma authorize_cases l c n r policy now :
  0 <= n < u64_max ->
  (entitled l c n r policy now /\ authorize (guard_at l c n) r policy now = (guard_at l c (n + 1), Ok tt)) \/
  (~ entitled l c n r policy now /\ exists e, authorize (guard_at l c n) r policy now = (guard_at l c n, Err e)).
Proof.
  intros Hn. unfold entitled. rewrite permits_Ok. unfold authorize. cbv zeta. unfold guard_at at 1 2 3 4 5 6 7 8 9 10 11 12. simpl.
  assert (Hsat : saturating_add 64 n 1 = n + 1) by (unfold saturating_add, u64_max in *; lia). rewrite Hsat.
  destruct (quarantined l) eqn:Hq; [right; split; [naive_solver|by eexists]|].
  destruct (bool_decide_reflect (request_fence r = fence l)); cbn [negb]; [|right; split; [naive_solver|by eexists]].
  destruct (negb (request_sequence r =? n + 1) || _ || _ || _) eqn:Ha.
  { right. split; [|by eexists]. intros (Hs & _ & Hc & Hz & Hh & _).
    rewrite Hs, Hc, Hh, Z.eqb_refl, !(bool_decide_true (_ = _)), bool_decide_false in Ha by done. done. }
  rewrite !orb_false_iff, !negb_false_iff, Z.eqb_eq, !bool_decide_eq_true, bool_decide_eq_false in Ha. destruct Ha as (((Hs & Hc) & Hh) & Hz).
  destruct (negb (bool_decide (request_identity r = identity l)) || _) eqn:Hi.
  { right. split; [|by eexists]. intros (_ & _ & _ & _ & _ & Hsome & Hid & _). unfold is_none in Hi.
    by rewrite Hid, bool_decide_true, Hsome in Hi. }
  unfold is_none in Hi. rewrite orb_false_iff, !negb_false_iff, bool_decide_eq_true in Hi. destruct Hi as [Hi1 Hi2].
  destruct (bool_decide_reflect (policy = policy_profile_digest l)); cbn [negb]; [|right; split; [naive_solver|by eexists]].
  destruct ((negb (is_cleanup _) && _) || _ || _) eqn:Hd; [right; split; [naive_solver|by eexists]|].
  left. split; [by split_and!|]. unfold guard_at, from_ledger. simpl. by rewrite Hs, Hq.
Qed.

(** A broker's run: each request with the policy and the time it is judged at. *)
Fixpoint granted (g : BrokerFenceGuard) (rs : list (BrokerRequest * list Z * UnixMillis)) : list (BrokerRequest * list Z * UnixMillis) :=
  match rs with
  | [] => []
  | (r, policy, now) :: rs =>
      match authorize g r policy now with
      | (g, Ok _) => (r, policy, now) :: granted g rs
      | (g, Err _) => granted g rs
      end
  end.

(** The broker's guard grants what the ledger permits, each request once. Of any
    sequence of requests put to the guard made from a ledger, those granted are
    numbered one, two, three, and so on without gap or repetition; each carries the
    ledger's fence, its last hash, the challenge (not zero), the bound identity and
    its policy, and the ledger itself permits the operation at that time. And a
    request which satisfies all this and has the next number is granted. *)
Theorem guard_refines_ledger l c rs :
  Z.of_nat (length rs) < u64_max ->
  (forall i r policy now, granted (from_ledger l c) rs !! i = Some (r, policy, now) ->
     entitled l c (Z.of_nat i) r policy now) /\
  (forall r policy now, Z.of_nat (length (granted (from_ledger l c) rs)) < u64_max ->
     entitled l c (Z.of_nat (length (granted (from_ledger l c) rs))) r policy now ->
     granted (from_ledger l c) (rs ++ [(r, policy, now)]) = granted (from_ledger l c) rs ++ [(r, policy, now)]).
Proof.
  intros Hlen. assert (Hstart : from_ledger l c = guard_at l c 0) by done. rewrite Hstart.
  assert (Hgen : forall n, 0 <= n -> n + Z.of_nat (length rs) < u64_max ->
    (forall i r policy now, granted (guard_at l c n) rs !! i = Some (r, policy, now) -> entitled l c (n + Z.of_nat i) r policy now) /\
    (forall r policy now, n + Z.of_nat (length (granted (guard_at l c n) rs)) < u64_max ->
       entitled l c (n + Z.of_nat (length (granted (guard_at l c n) rs))) r policy now ->
       granted (guard_at l c n) (rs ++ [(r, policy, now)]) = granted (guard_at l c n) rs ++ [(r, policy, now)])).
  2: { exact (Hgen 0 ltac:(lia) ltac:(lia)). }
  clear Hstart Hlen. induction rs as [|[[r policy] now] rs IH]; intros n Hn0 Hn.
  - split; [done|]. intros r policy now Hlt He. simpl in Hlt, He. rewrite Z.add_0_r in Hlt, He. cbn [granted app].
    destruct (authorize_cases l c n r policy now ltac:(lia)) as [[_ ->]|[Hno _]]; done.
  - simpl length in Hn. cbn [granted app]. destruct (authorize_cases l c n r policy now ltac:(lia)) as [[He ->]|[_ [e ->]]].
    + destruct (IH (n + 1) ltac:(lia) ltac:(lia)) as [IH1 IH2]. split.
      * intros [|i] r' p' t' Hi; simpl in Hi; [by injection Hi as <- <- <-; rewrite Z.add_0_r|].
        apply IH1 in Hi. by replace (n + Z.of_nat (S i)) with (n + 1 + Z.of_nat i) by lia.
      * intros r' p' t' Hlt He'. cbn [app]. f_equal. apply IH2; simpl length in Hlt, He'; [lia|].
        by replace (n + 1 + Z.of_nat (length (granted (guard_at l c (n + 1)) rs))) with
          (n + Z.of_nat (S (length (granted (guard_at l c (n + 1)) rs)))) by lia.
    + apply IH; lia.
Qed.

(** ** Frames *)

Lemma encode_spec request secret bytes :
  encode_authenticated_frame request secret = Ok bytes ->
  let body := json_frame (mkAuthenticatedFrame request (broker_authenticator secret (json_request request))) in
  Z.of_nat (length body) <= MAX_IPC_FRAME /\ bytes = be_bytes 4 (Z.of_nat (length body)) ++ body.
Proof.
  unfold encode_authenticated_frame. cbv zeta. destruct (_ >? _) eqn:Hg; [done|].
  assert (Hle : Z.of_nat (length (json_frame (mkAuthenticatedFrame request (broker_authenticator secret (json_request request))))) <= MAX_IPC_FRAME) by lia.
  rewrite try_from_uint_ok; [by intros [= <-]|]. unfold in_uint, MAX_IPC_FRAME in *. lia.
Qed.

(** Frames between the supervisor and its broker. A request that could be encoded
    is decoded with the same secret to itself; cut short or with bytes after it, it
    is malformed; and with any secret for which its payload has another
    authenticator it is refused as not authentic. *)
Theorem frame_roundtrip `{!SupervisionJsonSound} request secret bytes :
  encode_authenticated_frame request secret = Ok bytes ->
  decode_authenticated_frame bytes secret = Ok request /\
  (forall n, (n < length bytes)%nat -> decode_authenticated_frame (take n bytes) secret = Err MalformedIpc) /\
  (forall more, more <> [] -> decode_authenticated_frame (bytes ++ more) secret = Err MalformedIpc) /\
  (forall other, broker_authenticator other (json_request request) <> broker_authenticator secret (json_request request) ->
     decode_authenticated_frame bytes other = Err PeerAuthentication).
Proof.
  intros Henc. apply encode_spec in Henc as [Hle ->]. set (frame := mkAuthenticatedFrame _ _) in *. set (body := json_frame frame) in *.
  assert (Hlen : length (be_bytes 4 (Z.of_nat (length body))) = 4%nat) by apply length_be_bytes.
  assert (Hval : be_value (be_bytes 4 (Z.of_nat (length body))) = Z.of_nat (length body)).
  { rewrite be_value_be_bytes. apply Z.mod_small. unfold MAX_IPC_FRAME in Hle. simpl. lia. }
  assert (Hbody : forall l other, (4 <= length (be_bytes 4 (Z.of_nat (length body)) ++ l))%nat ->
    decode_authenticated_frame (be_bytes 4 (Z.of_nat (length body)) ++ l) other =
    if negb (Z.of_nat (length l) =? Z.of_nat (length body)) then Err MalformedIpc
    else match parse_frame l with
         | None => Err MalformedIpc
         | Some a => if bool_decide (authenticator a = broker_authenticator other (json_request (frame_payload a)))
                     then Ok (frame_payload a) else Err PeerAuthentication
         end).
  { intros l other Hl. unfold decode_authenticated_frame. rewrite (proj2 (Nat.ltb_ge _ _) Hl). cbv zeta.
    rewrite take_app_le, take_ge, drop_app_le, drop_ge by lia. cbn [app]. rewrite Hval.
    assert (Hgt : (Z.of_nat (length body) >? MAX_IPC_FRAME) = false) by lia. rewrite Hgt. cbn [orb]. rewrite length_app, Hlen.
    assert (Heq : (Z.of_nat (4 + length l) =? Z.of_nat (length body) + 4) = (Z.of_nat (length l) =? Z.of_nat (length body))) by (apply Bool.eq_iff_eq_true; rewrite !Z.eqb_eq; lia).
    by rewrite Heq. }
  split_and!.
  - rewrite Hbody by (rewrite length_app; lia). rewrite Z.eqb_refl. cbn [negb]. subst body. rewrite parse_json_frame.
    by rewrite bool_decide_true.
  - intros n Hn. rewrite length_app in Hn. destruct (decide (n < 4)%nat) as [Hn4|Hn4].
    + unfold decode_authenticated_frame. rewrite length_take, length_app.
      by rewrite (proj2 (Nat.ltb_lt _ _)) by lia.
    + rewrite take_app_ge, Hbody by (rewrite ?length_app; lia).
      assert (Hneq : (Z.of_nat (length (take (n - length (be_bytes 4 (Z.of_nat (length body)))) body)) =? Z.of_nat (length body)) = false)
        by (apply Z.eqb_neq; rewrite length_take; lia). by rewrite Hneq.
  - intros more Hmore. rewrite <- app_assoc, Hbody by (rewrite length_app; lia).
    assert (Hneq : (Z.of_nat (length (body ++ more)) =? Z.of_nat (length body)) = false).
    { apply Z.eqb_neq. rewrite length_app. destruct more; [done|]. simpl. lia. }
    by rewrite Hneq.
  - intros other Hother. rewrite Hbody by (rewrite length_app; lia). rewrite Z.eqb_refl. cbn [negb]. subst body. rewrite parse_json_frame.
    rewrite bool_decide_false; [done|]. intros Heq. simpl in Heq. by apply Hother.
Qed.

(** The protected ledger is never opened. The check of a protected ledger asks that
    the receipt be valid until the absolute deadline; an accepted receipt expires
    within five minutes of its issue, and the absolute deadline comes an hour after
    it. Whatever fence the launcher offers, the constructor refuses. *)
Lemma protected_ledger_never_opens `{ReceiptText} bytes keys context recovery q f :
  verify_protected_alpha_inner bytes keys context recovery = Ok q ->
  new_protected_alpha f q = Err (if negb (bool_decide (fence_lobby_id f = q_lobby_id q)) || negb (generation f =? q_network_generation q)
                                    || negb (fence_epoch f =? q_initial_epoch q) then StaleFence else InvalidLedger).
Proof.
  intros Hq%alpha_expires_first. unfold new_protected_alpha. destruct (negb _ || _ || _); [done|].
  unfold ledger_new. destruct ((length (run_id f) <? 16)%nat || _ || _ || _) eqn:Hg; [done|].
  apply orb_false_iff in Hg as [_ Hg]. unfold push. simpl. unfold validate. simpl.
  unfold protected_fields_missing. simpl. assert (Hlt : (q_expires_at q <? q_absolute_deadline q) = true) by lia.
  rewrite Hlt. by rewrite !orb_true_r.
Qed.
End ledger.

(** ** A concrete ledger *)

Module LedgerDemo.
Export SupervisionDemo.

Definition demo_fence : Fence := mkFence (repeat 9 16) lobby 1 1 (digest 3).
Definition demo_identity : SupervisedIdentity := mkSupervisedIdentity [110; 49] [104; 46; 116; 115] 4.
Definition force (r : result SupervisorLedger SupervisionError) : SupervisorLedger :=
  match r with
  | Ok l => l
  | Err _ => mkSupervisorLedger 0 demo_fence [] [] [] [] [] [] [] [] [] [] 0 false [] 0 0 false false None []
  end.
Definition fresh : SupervisorLedger := force (ledger_new demo_fence (digest 1) (digest 2) (digest 3) (digest 5) 3600000 2700000).
Definition bound : SupervisorLedger := force (push fresh (IdentityBound demo_identity)).
Definition store_of (l : SupervisorLedger) (io : list Io) : LedgerStore :=
  mkLedgerStore (Some (json_ledger l)) (json_head <$> last_head l) io.
Definition demo_request (sequence : Z) (o : Operation) : BrokerRequest :=
  mkBrokerRequest sequence (digest 7) (head_sha256 bound) demo_fence o (Some demo_identity).

Lemma no_collision_checked (l l' : list LedgerEntry) :
  forallb (fun e => forallb (fun e' =>
    negb (bool_decide (entry_sha256 e = entry_sha256 e'))
    || bool_decide (json_entry (sequence e) (previous_sha256 e) (transition e)
                    = json_entry (sequence e') (previous_sha256 e') (transition e'))) l') l = true ->
  no_collision l l'.
Proof.
  intros Hall e e' He He' Hh. rewrite forallb_forall in Hall. specialize (Hall e). rewrite <- list_elem_of_In in Hall.
  specialize (Hall He). rewrite forallb_forall in Hall. specialize (Hall e'). rewrite <- list_elem_of_In in Hall. specialize (Hall He').
  rewrite bool_decide_true in Hall by done. by apply bool_decide_eq_true in Hall.
Qed.
End LedgerDemo.
Import LedgerDemo.

Lemma valid_is_replayed_witness :
  validate bound = Ok tt /\ exists ts, Forall (fun t => is_reserved t = false) ts /\ replay (blank bound) (Reserved :: ts) = Ok bound.
Proof.
  assert (Hv : validate bound = Ok tt) by (vm_compute; reflexivity). split; [exact Hv|].
  refine (proj2 (proj1 (valid_is_replayed bound _) Hv)). vm_compute. reflexivity.
Defined.

Lemma head_binds_history_witness :
  transitions bound = transitions (bound <| ledger_absolute_deadline := 9 |>).
Proof.
  refine (proj1 (head_binds_history bound (bound <| ledger_absolute_deadline := 9 |>) _ _ _ _)).
  - vm_compute. reflexivity.
  - vm_compute. reflexivity.
  - apply no_collision_checked. vm_compute. reflexivity.
  - vm_compute. reflexivity.
Defined.

(** The second replacement fails: the next start quarantines. *)
Lemma ledger_survives_crashes_witness :
  exists s2 l2, load ((persist (store_of bound [IoReplaced; IoFailed]) (force (push bound CleanupOnly))).1 <| faults := [] |>) = (s2, Ok l2) /\
    quarantined l2 = true /\ validate l2 = Ok tt.
Proof.
  destruct (ledger_survives_crashes (store_of bound [IoReplaced; IoFailed]) bound CleanupOnly (force (push bound CleanupOnly))
    (persist (store_of bound [IoReplaced; IoFailed]) (force (push bound CleanupOnly))).1 (Err Persistence))
    as (s2 & l2 & Hload & Hv & _).
  - vm_compute. reflexivity.
  - vm_compute. reflexivity.
  - eexists. split; [vm_compute; reflexivity|]. split; [split; unfold fits; apply Nat.leb_le; vm_compute; reflexivity|split; reflexivity].
  - reflexivity.
  - vm_compute. reflexivity.
  - intros h h' Hh Hh'. vm_compute in Hh, Hh'. injection Hh as <-. injection Hh' as <-.
    split; split; unfold fits; apply Nat.leb_le; vm_compute; reflexivity.
  - vm_compute. reflexivity.
  - exists s2, l2. split; [exact Hload|]. split; [|exact Hv]. vm_compute in Hload. injection Hload as _ <-. reflexivity.
Defined.

Lemma guard_refines_ledger_witness :
  let rs := [(demo_request 1 FinalProviderIo, digest 5, 1000); (demo_request 1 FinalProviderIo, digest 5, 1000); (demo_request 2 Delete, digest 5, 5000000)] in
  length (granted (from_ledger bound (digest 7)) rs) = 2%nat /\
  forall i r policy now, granted (from_ledger bound (digest 7)) rs !! i = Some (r, policy, now) -> permits bound (request_operation r) now = Ok tt.
Proof.
  cbv zeta. split; [vm_compute; reflexivity|]. intros i r policy now Hi.
  refine (_ (proj1 (guard_refines_ledger bound (digest 7) _ _) i r policy now Hi)); [|vm_compute; reflexivity].
  unfold entitled. intros He. apply He.
Defined.

Lemma frame_roundtrip_witness :
  exists bytes, encode_authenticated_frame (demo_request 1 Delete) (digest 6) = Ok bytes /\
    decode_authenticated_frame bytes (digest 6) = Ok (demo_request 1 Delete) /\
    decode_authenticated_frame bytes (digest 8) = Err PeerAuthentication.
Proof.
  destruct (encode_authenticated_frame (demo_request 1 Delete) (digest 6)) as [bytes|e] eqn:He; [|vm_compute in He; discriminate].
  exists bytes. destruct (frame_roundtrip (demo_request 1 Delete) (digest 6) bytes He) as (Hd & _ & _ & Hother).
  split; [reflexivity|]. split; [exact Hd|]. apply Hother. vm_compute. discriminate.
Defined.

Example demo_protected_ledger_refused :
  new_protected_alpha (mkFence (repeat 9 16) lobby 1 1 (digest 3)) demo_qualification = Err InvalidLedger.
Proof. vm_compute. reflexivity. Qed.
