(* ===== verification/SupervisionRun.v ===== *)
(** * What the cleanup of a rehearsal guarantees

    The provider, the vault and the lease are called for exactly the intents that
    were recorded before; the lease is released on a complete proof of absence only;
    and every other ending keeps it, quarantined unless the disk failed. *)

From stdpp Require Import gmap.
From S2P Require Import Prelude MachineInt Clock Bytes Identifiers Session Rehearsal Supervision SupervisionDemo SupervisionLedger.
Open Scope Z_scope.

(** What the world remembers of the calls it received. *)
Class SurroundingsLog (W : Type) `{Surroundings W} := {
  called : W -> list Operation;
  called_delete : forall f i w, called (delete_exact f i w).1 = called w ++ [Delete];
  called_observe : forall f i w, called (observe_exact f i w).1 = called w ++ [ObserveAbsence];
  called_erase : forall f i w, called (erase_vault_cas f i w).1 = called w ++ [VaultErase];
  called_release : forall f w, called (release_lease f w).1 = called w ++ [LeaseRelease];
  called_wait : forall m d w, called (wait_until m d w) = called w;
}.

Section run.
Context `{Crypto} `{SupervisionJson} {W : Type} `{SurroundingsLog W}.
Local Abbreviation run A := (M (Supervisor W) SupervisionError A).

(** ** Recording *)

Definition is_intent (t : Transition) : option Operation := match t with Intent o => Some o | _ => None end.
Definition intents (ts : list Transition) : list Operation := omap is_intent ts.
(** A transition on the way: it neither binds an identity nor releases. *)
Definition plain (t : Transition) : bool := match t with IdentityBound _ | Released => false | _ => true end.

(** What [run_cleanup_with_clock] does once it is permitted. *)
Definition cleanup_steps (f : Fence) : run unit :=
  sbind (delete_provider f) (fun _ => sbind sget (fun s =>
    match identity (ledger s) with
    | None => sfail IncompleteProof
    | Some i => sbind (observe f i 1) (fun _ => sbind wait_apart (fun _ => sbind (observe f i 2) (fun _ =>
                  sbind (erase_vault f i) (fun _ => release f))))
    end)).
Lemma run_as now s :
  run_cleanup_with_clock now s = sbind (or_error (permits (ledger s) Delete now)) (fun _ => cleanup_steps (fence (ledger s))) s.
Proof. done. Qed.

(** The ledger in memory is the one on disk. *)
Definition durable (s : Supervisor W) : Prop :=
  validate (ledger s) = Ok tt /\ exists h, last_head (ledger s) = Some h /\ on_disk (store s) (ledger s) h.

Lemma persist_Ok s l s' :
  persist s l = (s', Ok tt) -> validate l = Ok tt /\ exists h, last_head l = Some h /\ on_disk s' l h.
Proof.
  unfold persist. destruct (validate l) as [[]|]; [|done]. destruct (last (transitions l)) as [e|] eqn:Hl; [|done].
  destruct (negb _); [done|]. unfold atomic_replace_json, next_io. intros Hp. split; [done|]. exists (head_of e).
  unfold last_head. rewrite Hl. split; [done|]. destruct s as [lf hf io]. unfold on_disk.
  destruct io as [|[] [|[] io]]; simpl in Hp; try discriminate Hp; injection Hp as <-; done.
Qed.

Lemma push_error l t e : (if t is IdentityBound _ then False else True) -> push l t = Err e -> e = IncompleteProof /\ quarantined l = true.
Proof. unfold push. destruct (quarantined l), t; simpl; try done; by intros _ [= <-]. Qed.

Lemma push_identity l t l' : (if t is IdentityBound _ then False else True) -> push l t = Ok l' -> identity l' = identity l /\ fence l' = fence l.
Proof. intros Ht (_ & bound & Hb & ->)%push_spec. simpl. destruct t; simpl in Hb; try done; by injection Hb as <-. Qed.

Lemma record_spec t s s' r :
  (if t is IdentityBound _ then False else True) -> durable_transition t s = (s', r) ->
  world s' = world s /\
  ((r = Ok tt /\ push (ledger s) t = Ok (ledger s') /\ durable s') \/
   (r = Err Persistence /\ ledger s' = ledger s) \/
   (r = Err IncompleteProof /\ s' = s /\ quarantined (ledger s) = true)).
Proof.
  intros Ht. unfold durable_transition. destruct (push (ledger s) t) as [l|e] eqn:Hp.
  - destruct (persist (store s) l) as [d [[]|e]] eqn:Hd; intros [= <- <-]; (split; [done|]); [left|right; left]; split_and!; try done.
    by apply (persist_Ok _ _ _ Hd).
  - intros [= <- <-]. apply push_error in Hp as [-> Hq]; [|done]. split; [done|]. right. by right.
Qed.

(** ** Every ending *)

(** What became of a run that began at [s]: [ts] were recorded and exactly their
    intents were carried out. *)
Definition kept (s s' : Supervisor W) (ts : list Transition) : Prop :=
  replay (ledger s) ts = Ok (ledger s') /\ called (world s') = called (world s) ++ intents ts.
Definition ended {A} (final : bool) (ts : list Transition) (s' : Supervisor W) (r : result A SupervisionError) : Prop :=
  match r with
  | Ok _ => if final then exists ts', ts = ts' ++ [Released] /\ forallb plain ts' = true else forallb plain ts = true
  | Err e => forallb plain ts = true /\ (e = Persistence \/ (e = IncompleteProof /\ quarantined (ledger s') = true))
  end.
Definition yields {A} (final : bool) (i : SupervisedIdentity) (m : run A) : Prop := forall s s' r,
  identity (ledger s) = Some i -> m s = (s', r) ->
  exists ts, kept s s' ts /\ ended final ts s' r /\ identity (ledger s') = Some i.

Lemma kept_trans s s1 s2 ts1 ts2 : kept s s1 ts1 -> kept s1 s2 ts2 -> kept s s2 (ts1 ++ ts2).
Proof.
  intros [Hr1 Hc1] [Hr2 Hc2]. split.
  - unfold replay in *. by rewrite fold_left_app, Hr1.
  - unfold intents in *. by rewrite omap_app, app_assoc, <- Hc1.
Qed.

Lemma kept_refl s s' : ledger s' = ledger s -> called (world s') = called (world s) -> kept s s' [].
Proof. intros Hl Hc. split; [by rewrite Hl|by rewrite Hc, app_nil_r]. Qed.

Lemma ended_after {A} final ts1 ts2 s' (r : result A SupervisionError) :
  forallb plain ts1 = true -> ended final ts2 s' r -> ended final (ts1 ++ ts2) s' r.
Proof.
  intros Hpl. unfold ended. destruct r as [a|e].
  - destruct final; [|by rewrite forallb_app, Hpl]. intros (ts' & -> & Hp). exists (ts1 ++ ts'). by rewrite app_assoc, forallb_app, Hpl.
  - rewrite forallb_app, Hpl. done.
Qed.

Lemma yields_bind {A B} final i (m : run A) (k : A -> run B) :
  yields false i m -> (forall a, yields final i (k a)) -> yields final i (sbind m k).
Proof.
  intros Hm Hk s s' r Hi Hrun. unfold sbind in Hrun. destruct (m s) as [s1 [a|e]] eqn:Hms.
  - destruct (Hm s s1 (Ok a) Hi Hms) as (ts1 & Hk1 & He1 & Hi1). destruct (Hk a s1 s' r Hi1 Hrun) as (ts2 & Hk2 & He2 & Hi2).
    exists (ts1 ++ ts2). split; [by eapply kept_trans|]. split; [by apply ended_after|done].
  - injection Hrun as <- <-. destruct (Hm s s1 (Err e) Hi Hms) as (ts & Hk1 & He1 & Hi1). by exists ts.
Qed.

Lemma yields_ret {A} i (a : A) : yields false i (sret a).
Proof. intros s s' r Hi [= <- <-]. exists []. split; [by apply kept_refl|done]. Qed.
Lemma yields_get {B} final i (k : Supervisor W -> run B) : (forall s, yields final i (k s)) -> yields final i (sbind sget k).
Proof. intros Hk s s' r Hi Hrun. by apply (Hk s s s' r Hi). Qed.

(** Calls that are no operation: the clock. *)
Lemma yields_quiet {A} i (act : W -> W * A) : (forall w, called (act w).1 = called w) -> yields false i (on_world act).
Proof.
  intros Hact s s' r Hi. unfold on_world. specialize (Hact (world s)). destruct (act (world s)) as [w a]. intros [= <- <-].
  exists []. split; [by apply kept_refl|done].
Qed.

Lemma recorded i t s s' r :
  (if t is IdentityBound _ then False else True) -> identity (ledger s) = Some i -> durable_transition t s = (s', r) ->
  (r = Ok tt /\ replay (ledger s) [t] = Ok (ledger s') /\ world s' = world s /\ identity (ledger s') = Some i) \/
  (exists e, r = Err e /\ kept s s' [] /\ ended false [] s' r /\ identity (ledger s') = Some i).
Proof.
  intros Ht Hi Hrun. apply record_spec in Hrun as [Hw [(-> & Hp & _)|[(-> & Hl)|(-> & -> & Hq)]]]; [| | |done].
  - left. split; [done|]. split; [done|]. split; [done|]. by rewrite (proj1 (push_identity _ _ _ Ht Hp)).
  - right. eexists. split; [done|]. split; [apply kept_refl; [done|by rewrite Hw]|]. split; [by split; [|left]|by rewrite Hl].
  - right. eexists. split; [done|]. split; [by apply kept_refl|]. split; [by split; [|right]|done].
Qed.

Lemma yields_record i t : plain t = true -> is_intent t = None -> yields false i (durable_transition t).
Proof.
  intros Hp Hn s s' r Hi Hrun. apply (recorded i) in Hrun as [(-> & Hrep & Hw & Hi')|(e & -> & Hk & He & Hi')]; [| |by destruct t|done].
  - exists [t]. split; [split; [done|rewrite Hw; unfold intents; simpl; by rewrite Hn, app_nil_r]|]. split; [simpl; by rewrite Hp|done].
  - by exists [].
Qed.

(** A computation that calls the world for the operation [o] first of all. *)
Definition calls {A} (final : bool) (i : SupervisedIdentity) (o : Operation) (m : run A) : Prop := forall s s' r,
  identity (ledger s) = Some i -> m s = (s', r) ->
  exists ts, (replay (ledger s) ts = Ok (ledger s') /\ called (world s') = called (world s) ++ [o] ++ intents ts) /\
    ended final ts s' r /\ identity (ledger s') = Some i.

Lemma calls_world {A B} final i o (act : W -> W * A) (k : A -> run B) :
  (forall w, called (act w).1 = called w ++ [o]) -> (forall a, yields final i (k a)) -> calls final i o (sbind (on_world act) k).
Proof.
  intros Hact Hk s s' r Hi Hrun. unfold sbind, on_world in Hrun. specialize (Hact (world s)).
  destruct (act (world s)) as [w a] eqn:Ha. simpl in Hact.
  destruct (Hk a (mkSupervisor (store s) (ledger s) w) s' r Hi Hrun) as (ts & [Hrep Hc] & He & Hi2).
  exists ts. split; [|done]. split; [exact Hrep|]. simpl in Hc. by rewrite Hc, Hact, app_assoc.
Qed.

Lemma calls_identity {B} final i o (k : SupervisedIdentity -> run B) :
  calls final i o (k i) ->
  calls final i o (sbind sget (fun s => match identity (ledger s) with None => sfail IncompleteProof | Some j => k j end)).
Proof. intros Hk s s' r Hi. unfold sbind, sget. rewrite Hi. by apply Hk. Qed.

Lemma yields_identity {B} final i (k : SupervisedIdentity -> run B) :
  yields final i (k i) ->
  yields final i (sbind sget (fun s => match identity (ledger s) with None => sfail IncompleteProof | Some j => k j end)).
Proof. intros Hk s s' r Hi. unfold sbind, sget. rewrite Hi. by apply Hk. Qed.

(** An operation: its intent is recorded, then the world is called. *)
Lemma yields_announced {B} final i o (m : run B) :
  calls final i o m -> yields final i (sbind (durable_transition (Intent o)) (fun _ => m)).
Proof.
  intros Hm s s' r Hi. unfold sbind. destruct (durable_transition (Intent o) s) as [s1 r1] eqn:Hrec.
  apply (recorded i) in Hrec as [(-> & Hrep & Hw & Hi1)|(e & -> & Hkept & He & Hi1)]; [| |done|done].
  - intros Hrun. destruct (Hm s1 s' r Hi1 Hrun) as (ts & [Hrep2 Hc] & He & Hi2). exists ([Intent o] ++ ts).
    split; [|by split; [apply ended_after|]]. split; [|by rewrite Hc, Hw].
    unfold replay in *. by rewrite fold_left_app, Hrep.
  - intros [= <- <-]. exists []. split; [done|]. split; [|done]. destruct He as [_ He]. by split.
Qed.

Lemma yields_quarantine final i reason : yields final i (quarantine (W:=W) reason).
Proof.
  intros s s' r Hi. unfold quarantine, sbind. destruct (durable_transition _ s) as [s1 r1] eqn:Hrec.
  pose proof Hrec as Hrec'. apply (recorded i) in Hrec as [(-> & Hrep & Hw & Hi1)|(e & -> & Hkept & He & Hi1)]; [| |done|done].
  - intros [= <- <-]. eexists [_]. split; [split; [done|simpl; by rewrite Hw, app_nil_r]|]. split; [|done]. split; [done|]. right. split; [done|].
    cbn [replay fold_left] in Hrep. by apply push_spec in Hrep as (_ & bound & _ & ->).
  - intros [= <- <-]. exists []. split; [done|]. split; [|done]. destruct He as [_ He]. by split.
Qed.

Ltac yield_record := apply yields_bind; [apply yields_record; reflexivity|intros _].

Lemma yields_observe f i ordinal : yields false i (observe f i ordinal).
Proof.
  unfold observe. apply yields_announced, calls_world; [apply called_observe|]. intros [o|e].
  - yield_record. destruct (negb (absence_proven i o)); [apply yields_quarantine|by apply yields_record].
  - yield_record. apply yields_quarantine.
Qed.

Lemma yields_wait_apart i : yields false i wait_apart.
Proof.
  unfold wait_apart. apply yields_bind; [by apply yields_quiet|]. intros m.
  apply yields_bind; [apply yields_quiet; intros w; apply called_wait|intros _]. apply yields_get. intros s.
  destruct (elapsed (world s) m <? MIN_ABSENCE_SEPARATION); [apply yields_quarantine|apply yields_ret].
Qed.

Lemma yields_erase f i : yields false i (erase_vault f i).
Proof.
  unfold erase_vault. apply yields_announced, calls_world; [apply called_erase|]. intros [v|e].
  - yield_record. destruct (negb (v =? vault_version i)); [apply yields_quarantine|by apply yields_record].
  - yield_record. apply yields_quarantine.
Qed.

Lemma yields_delete f i : yields false i (delete_provider f).
Proof.
  unfold delete_provider. yield_record. apply yields_announced.
  apply (calls_identity false i Delete (fun i => sbind (on_world (delete_exact f i)) _)), calls_world; [apply called_delete|]. intros o.
  yield_record. destruct (decide (o = Failed)); [apply yields_quarantine|apply yields_ret].
Qed.

Lemma yields_released i : yields true i (durable_transition Released).
Proof.
  intros s s' r Hi Hrun. apply (recorded i) in Hrun as [(-> & Hrep & Hw & Hi')|(e & -> & Hk & He & Hi')]; [| |done|done].
  - exists [Released]. split; [split; [done|by rewrite Hw, app_nil_r]|]. split; [by exists []|done].
  - by exists [].
Qed.

Lemma yields_release f i : yields true i (release f).
Proof.
  unfold release. apply yields_announced, calls_world; [apply called_release|]. intros [[]|e].
  - yield_record. apply yields_released.
  - yield_record. apply yields_quarantine.
Qed.

Lemma yields_permits i s o now : is_cleanup o = true ->
  forall s' r, identity (ledger s) = Some i -> or_error (W:=W) (permits (ledger s) o now) s = (s', r) ->
  exists ts, kept s s' ts /\ ended false ts s' r /\ identity (ledger s') = Some i.
Proof.
  intros Ho s' r Hi [= <- <-]. exists []. split; [by apply kept_refl|]. split; [|done]. unfold permits. rewrite Ho.
  assert (Hp : is_provider_io o = false) by (by destruct o). rewrite Hp, andb_false_r. simpl.
  destruct (quarantined (ledger s)) eqn:Hq; [by split; [|right]|done].
Qed.

(** Write ahead, and fail closed. However the provider, the vault, the lease and
    the file system answer, a cleanup of a ledger with a bound identity carries out
    exactly the operations whose intents it recorded, in that order. It ends in one
    of three ways: it succeeded and [Released] is the last thing recorded; the disk
    failed; or its proof is incomplete and the ledger is quarantined. In the last
    two cases nothing of it says [Released], and the identity is still bound. *)
Theorem cleanup_fails_closed now i s s' r :
  identity (ledger s) = Some i -> run_cleanup_with_clock now s = (s', r) ->
  exists ts, replay (ledger s) ts = Ok (ledger s') /\
    called (world s') = called (world s) ++ intents ts /\ identity (ledger s') = Some i /\
    match r with
    | Ok _ => exists ts', ts = ts' ++ [Released] /\ forallb plain ts' = true
    | Err e => forallb plain ts = true /\ (e = Persistence \/ (e = IncompleteProof /\ quarantined (ledger s') = true))
    end.
Proof.
  intros Hi Hrun. rewrite run_as in Hrun. set (f := fence (ledger s)) in *. apply sbind_inv in Hrun as [(s1 & [] & Hp & Hrun)|(e & Hp & ->)].
  2: { destruct (yields_permits i s Delete now eq_refl s' _ Hi Hp) as (ts & [? ?] & ? & ?). by exists ts. }
  injection Hp as <- _. assert (Hy : yields true i (cleanup_steps f)).
  { apply yields_bind; [apply yields_delete|intros _]. apply (yields_identity true i (fun i => sbind (observe f i 1) _)).
    apply yields_bind; [apply yields_observe|intros _]. apply yields_bind; [apply yields_wait_apart|intros _].
    apply yields_bind; [apply yields_observe|intros _]. apply yields_bind; [apply yields_erase|intros _]. apply yields_release. }
  destruct (Hy s s' r Hi Hrun) as (ts & [Hrep Hc] & He & Hi'). exists ts. by split_and!.
Qed.

(** ** The proof that releases *)

Definition observed (i : SupervisedIdentity) (ordinal : Z) : list Transition :=
  [Intent ObserveAbsence; Outcome ObserveAbsence Succeeded; AbsenceObserved ordinal (provider_stable_id i) true true].
Definition proof_history (i : SupervisedIdentity) (outcome : OperationOutcome) : list Transition :=
  [CleanupOnly; Intent Delete; Outcome Delete outcome] ++ observed i 1 ++ observed i 2
  ++ [Intent VaultErase; Outcome VaultErase Succeeded; VaultTombstoneReadback (vault_version i);
      Intent LeaseRelease; Outcome LeaseRelease Succeeded; Released].

(** What the world must answer, from [w] to [w']. *)
Definition proves (f : Fence) (i : SupervisedIdentity) (outcome : OperationOutcome) (w w' : W) : Prop :=
  exists w1 w2 o1 w4 o2 w5,
    delete_exact f i w = (w1, outcome) /\ outcome <> Failed /\
    observe_exact f i w1 = (w2, Ok o1) /\ absence_proven i o1 = true /\
    MIN_ABSENCE_SEPARATION <= elapsed (wait_until (mark w2) MIN_ABSENCE_SEPARATION w2) (mark w2) /\
    observe_exact f i (wait_until (mark w2) MIN_ABSENCE_SEPARATION w2) = (w4, Ok o2) /\ absence_proven i o2 = true /\
    erase_vault_cas f i w4 = (w5, Ok (vault_version i)) /\ release_lease f w5 = (w', Ok tt).

Definition advanced (s s' : Supervisor W) (ts : list Transition) : Prop := replay (ledger s) ts = Ok (ledger s') /\ durable s'.

Lemma advanced_trans s s1 s2 ts1 ts2 : advanced s s1 ts1 -> advanced s1 s2 ts2 -> advanced s s2 (ts1 ++ ts2).
Proof. intros [Hr1 _] [Hr2 Hd]. split; [|done]. unfold replay in *. by rewrite fold_left_app, Hr1. Qed.

Lemma sbind_Ok {A B} (m : run A) (k : A -> run B) s s' b :
  sbind m k s = (s', Ok b) -> exists s1 a, m s = (s1, Ok a) /\ k a s1 = (s', Ok b).
Proof. by intros [?|(e & _ & ?)]%sbind_inv. Qed.

Lemma record_Ok t s s' u : plain t = true \/ t = Released -> durable_transition t s = (s', Ok u) -> advanced s s' [t] /\ world s' = world s.
Proof.
  intros Ht Hr. destruct u. apply record_spec in Hr as [Hw [(_ & Hp & Hd)|[[? _]|[? _]]]]; [|done|done|].
  - by split.
  - destruct t, Ht; done.
Qed.

(** A record inside a longer run. *)
Lemma record_then {B} t (k : unit -> run B) s s' b :
  plain t = true -> sbind (durable_transition t) k s = (s', Ok b) ->
  exists s1, advanced s s1 [t] /\ world s1 = world s /\ k tt s1 = (s', Ok b).
Proof.
  intros Ht Hr. apply sbind_Ok in Hr as (s1 & [] & Hr & Hk). exists s1. apply record_Ok in Hr as [? ?]; [done|by left].
Qed.

Lemma world_then {A B} (act : W -> W * A) (k : A -> run B) s s' b :
  sbind (on_world act) k s = (s', Ok b) ->
  exists w a, act (world s) = (w, a) /\ k a (mkSupervisor (store s) (ledger s) w) = (s', Ok b).
Proof. unfold sbind, on_world. destruct (act (world s)) as [w a]. intros Hk. by exists w, a. Qed.

Lemma quarantine_not_Ok reason s s' u : quarantine (W:=W) reason s = (s', Ok u) -> False.
Proof. intros Hr. unfold quarantine in Hr. by apply sbind_Ok in Hr as (? & ? & _ & ?). Qed.

Lemma advanced_world (s s' : Supervisor W) w ts : advanced (mkSupervisor (store s) (ledger s) w) s' ts -> advanced s s' ts.
Proof. done. Qed.

Lemma observe_Ok f i ordinal s s' u :
  observe f i ordinal s = (s', Ok u) ->
  exists o, observe_exact f i (world s) = (world s', Ok o) /\ absence_proven i o = true /\ advanced s s' (observed i ordinal).
Proof.
  intros Hr. unfold observe in Hr. apply record_then in Hr as (s1 & Ha1 & Hw1 & Hr); [|done].
  apply world_then in Hr as (w & [o|e] & Hact & Hr); rewrite Hw1 in Hact.
  - apply record_then in Hr as (s2 & Ha2 & Hw2 & Hr); [|done]. destruct (absence_proven i o) eqn:Hp; cbn [negb] in Hr.
    + apply record_Ok in Hr as [Ha3 Hw3]; [|by left]. exists o. rewrite Hw3, Hw2. split; [done|]. split; [done|].
      assert (Hid : observed_provider_stable_id o = provider_stable_id i).
      { unfold absence_proven in Hp. btrue. by eapply bool_decide_eq_true. }
      rewrite Hid in Ha3. exact (advanced_trans _ _ _ _ _ Ha1 (advanced_trans _ _ _ _ _ (advanced_world _ _ _ _ Ha2) Ha3)).
    + by apply quarantine_not_Ok in Hr.
  - apply record_then in Hr as (s2 & _ & _ & Hr); [|done]. by apply quarantine_not_Ok in Hr.
Qed.

Lemma wait_Ok s s' u :
  wait_apart s = (s', Ok u) ->
  s' = mkSupervisor (store s) (ledger s) (wait_until (mark (world s)) MIN_ABSENCE_SEPARATION (world s)) /\
  MIN_ABSENCE_SEPARATION <= elapsed (world s') (mark (world s)).
Proof.
  intros Hr. unfold wait_apart in Hr. apply world_then in Hr as (w & m & [= <- <-] & Hr).
  apply world_then in Hr as (w & [] & [= <-] & Hr). unfold sbind, sget in Hr. simpl in Hr.
  destruct (Z.ltb_spec (elapsed (wait_until (mark (world s)) MIN_ABSENCE_SEPARATION (world s)) (mark (world s))) MIN_ABSENCE_SEPARATION) as [Hlt|Hge].
  - by apply quarantine_not_Ok in Hr.
  - injection Hr as <-. done.
Qed.

Lemma erase_Ok f i s s' u :
  erase_vault f i s = (s', Ok u) ->
  erase_vault_cas f i (world s) = (world s', Ok (vault_version i)) /\
  advanced s s' [Intent VaultErase; Outcome VaultErase Succeeded; VaultTombstoneReadback (vault_version i)].
Proof.
  intros Hr. unfold erase_vault in Hr. apply record_then in Hr as (s1 & Ha1 & Hw1 & Hr); [|done].
  apply world_then in Hr as (w & [v|e] & Hact & Hr); rewrite Hw1 in Hact.
  - apply record_then in Hr as (s2 & Ha2 & Hw2 & Hr); [|done].
    destruct (Z.eqb_spec v (vault_version i)) as [->|]; cbn [negb] in Hr; [|by apply quarantine_not_Ok in Hr].
    apply record_Ok in Hr as [Ha3 Hw3]; [|by left]. rewrite Hw3, Hw2. split; [done|].
    exact (advanced_trans _ _ _ _ _ Ha1 (advanced_trans _ _ _ _ _ (advanced_world _ _ _ _ Ha2) Ha3)).
  - apply record_then in Hr as (s2 & _ & _ & Hr); [|done]. by apply quarantine_not_Ok in Hr.
Qed.

Lemma release_Ok f s s' u :
  release f s = (s', Ok u) ->
  release_lease f (world s) = (world s', Ok tt) /\
  advanced s s' [Intent LeaseRelease; Outcome LeaseRelease Succeeded; Released].
Proof.
  intros Hr. unfold release in Hr. apply record_then in Hr as (s1 & Ha1 & Hw1 & Hr); [|done].
  apply world_then in Hr as (w & [[]|e] & Hact & Hr); rewrite Hw1 in Hact.
  - apply record_then in Hr as (s2 & Ha2 & Hw2 & Hr); [|done]. apply record_Ok in Hr as [Ha3 Hw3]; [|by right].
    rewrite Hw3, Hw2. split; [done|]. exact (advanced_trans _ _ _ _ _ Ha1 (advanced_trans _ _ _ _ _ (advanced_world _ _ _ _ Ha2) Ha3)).
  - apply record_then in Hr as (s2 & _ & _ & Hr); [|done]. by apply quarantine_not_Ok in Hr.
Qed.

Lemma replay_identity ts l l' :
  forallb plain ts = true -> replay l ts = Ok l' -> identity l' = identity l /\ fence l' = fence l.
Proof.
  revert l'. induction ts as [|t ts IH] using rev_ind; intros l' Hp Hr; [by injection Hr as <-|].
  rewrite forallb_app in Hp. apply andb_true_iff in Hp as [Hp1 Hp2]. rewrite replay_snoc in Hr. destruct (replay l ts) as [l1|] eqn:Hl1; [|done].
  destruct (IH l1 Hp1 eq_refl) as [<- <-]. apply push_identity in Hr; [done|]. by destruct t.
Qed.

Lemma delete_Ok f s s' u :
  delete_provider f s = (s', Ok u) ->
  exists i outcome, identity (ledger s) = Some i /\ identity (ledger s') = Some i /\
    delete_exact f i (world s) = (world s', outcome) /\ outcome <> Failed /\
    advanced s s' [CleanupOnly; Intent Delete; Outcome Delete outcome].
Proof.
  intros Hr. unfold delete_provider in Hr. apply record_then in Hr as (s1 & Ha1 & Hw1 & Hr); [|done].
  apply record_then in Hr as (s2 & Ha2 & Hw2 & Hr); [|done]. unfold sbind at 1, sget at 1 in Hr.
  destruct (identity (ledger s2)) as [i|] eqn:Hi; [|done]. apply world_then in Hr as (w & o & Hact & Hr). rewrite Hw2, Hw1 in Hact.
  apply record_then in Hr as (s3 & Ha3 & Hw3 & Hr); [|done]. destruct (decide (o = Failed)); [by apply quarantine_not_Ok in Hr|].
  injection Hr as <-. exists i, o. pose proof (advanced_trans _ _ _ _ _ Ha1 Ha2) as Ha12.
  pose proof (replay_identity [CleanupOnly; Intent Delete] _ _ eq_refl (proj1 Ha12)) as [Hid _].
  pose proof (replay_identity [Outcome Delete o] _ _ eq_refl (proj1 Ha3)) as [Hid3 _]. simpl in Hid3.
  rewrite Hw3. split_and!; [congruence|congruence|done|done|]. exact (advanced_trans _ _ _ _ _ Ha12 (advanced_world _ _ _ _ Ha3)).
Qed.

(** ** When it succeeds *)

(** A disk that works, and a ledger on it with room for [n] more entries. *)
Definition ready (n : nat) (s : Supervisor W) : Prop :=
  faults (store s) = [] /\ durable s /\ quarantined (ledger s) = false /\
  Z.of_nat (length (transitions (ledger s)) + n) <= u64_max.

Definition routine (t : Transition) : bool :=
  match t with Reserved | IdentityBound _ | Quarantined _ => false | _ => true end.

Lemma ready_record `{!SupervisionJsonSound} n t s :
  ready (S n) s -> routine t = true ->
  exists s', durable_transition t s = (s', Ok tt) /\ ready n s' /\ world s' = world s /\
    identity (ledger s') = identity (ledger s) /\ fence (ledger s') = fence (ledger s).
Proof.
  intros (Hio & (Hv & h & Hh & Hd1 & Hd2) & Hq & Hlen) Ht. assert (Hs : small (ledger s)) by (unfold small; lia).
  destruct (push (ledger s) t) as [l|e] eqn:Hp; [|apply push_error in Hp; [destruct Hp; congruence|by destruct t]].
  pose proof (push_valid (ledger s) t l Hs Hv ltac:(by destruct t) Hp) as Hvl. destruct (push_last_head _ _ _ Hs Hp) as (h' & Hh' & _ & Hlast).
  destruct (persist_without_faults (store s) l h' Hvl Hh' Hio) as (d & Hd & Hdisk).
  { intros entry He. rewrite Hd2. by eapply head_allows_next. }
  exists (mkSupervisor d l (world s)). unfold durable_transition. rewrite Hp, Hd. split; [done|]. split; [|split; [done|]].
  - unfold ready. simpl. split_and!.
    + unfold persist in Hd. rewrite Hvl, Hlast in Hd. destruct (negb _); [done|]. unfold atomic_replace_json, next_io in Hd.
      rewrite Hio in Hd. simpl in Hd. injection Hd as <-. done.
    + split; [done|]. by exists h'.
    + apply push_spec in Hp as (_ & bound & _ & ->). simpl. by destruct t.
    + rewrite (push_length _ _ _ Hp). lia.
  - apply push_identity in Hp; [done|by destruct t].
Qed.

Lemma ready_then `{!SupervisionJsonSound} n t s :
  ready (S n) s -> routine t = true ->
  exists s1, ready n s1 /\ world s1 = world s /\ identity (ledger s1) = identity (ledger s) /\
    forall B (k : unit -> run B), sbind (durable_transition t) k s = k tt s1.
Proof.
  intros Hr Ht. destruct (ready_record n t s Hr Ht) as (s1 & Hd & Hr1 & Hw & Hi & _). exists s1.
  split_and!; [done|done|done|]. intros B k. unfold sbind. by rewrite Hd.
Qed.

Lemma ready_world n s w : ready n s -> ready n (mkSupervisor (store s) (ledger s) w).
Proof. done. Qed.

Lemma world_bind {A B} (act : W -> W * A) (k : A -> run B) s w a :
  act (world s) = (w, a) -> sbind (on_world act) k s = k a (mkSupervisor (store s) (ledger s) w).
Proof. intros Hact. unfold sbind, on_world. by rewrite Hact. Qed.

(** The common shape of an operation that the world answers well. *)
Lemma ready_call `{!SupervisionJsonSound} {A} n o (act : W -> W * A) s w a :
  ready (S n) s -> act (world s) = (w, a) ->
  exists s1, ready n s1 /\ world s1 = w /\ identity (ledger s1) = identity (ledger s) /\
    forall B (k : A -> run B), sbind (durable_transition (Intent o)) (fun _ => sbind (on_world act) k) s = k a s1.
Proof.
  intros Hr Hact. destruct (ready_then n (Intent o) s Hr eq_refl) as (s1 & Hr1 & Hw1 & Hi1 & Hd).
  exists (mkSupervisor (store s1) (ledger s1) w). split; [done|]. split; [done|]. split; [done|].
  intros B k. rewrite Hd. apply world_bind. by rewrite Hw1.
Qed.

Lemma ready_observe `{!SupervisionJsonSound} n f i ordinal s w o :
  ready (3 + n) s -> observe_exact f i (world s) = (w, Ok o) -> absence_proven i o = true ->
  exists s', observe f i ordinal s = (s', Ok tt) /\ ready n s' /\ world s' = w /\ identity (ledger s') = identity (ledger s).
Proof.
  intros Hr Hact Hp. unfold observe. destruct (ready_call (2 + n) ObserveAbsence (observe_exact f i) s w _ Hr Hact) as (s1 & Hr1 & Hw1 & Hi1 & ->).
  cbv beta iota. destruct (ready_then (1 + n) (Outcome ObserveAbsence Succeeded) s1 Hr1 eq_refl) as (s2 & Hr2 & Hw2 & Hi2 & ->).
  rewrite Hp. cbn [negb]. destruct (ready_record n (AbsenceObserved ordinal (observed_provider_stable_id o) true true) s2 Hr2 eq_refl) as (s3 & Hd & Hr3 & Hw3 & Hi3 & _).
  exists s3. split_and!; [done|done|congruence|congruence].
Qed.

Lemma ready_erase `{!SupervisionJsonSound} n f i s w :
  ready (3 + n) s -> erase_vault_cas f i (world s) = (w, Ok (vault_version i)) ->
  exists s', erase_vault f i s = (s', Ok tt) /\ ready n s' /\ world s' = w.
Proof.
  intros Hr Hact. unfold erase_vault. destruct (ready_call (2 + n) VaultErase (erase_vault_cas f i) s w _ Hr Hact) as (s1 & Hr1 & Hw1 & Hi1 & ->).
  cbv beta iota. destruct (ready_then (1 + n) (Outcome VaultErase Succeeded) s1 Hr1 eq_refl) as (s2 & Hr2 & Hw2 & Hi2 & ->).
  rewrite Z.eqb_refl. cbn [negb]. destruct (ready_record n (VaultTombstoneReadback (vault_version i)) s2 Hr2 eq_refl) as (s3 & Hd & Hr3 & Hw3 & _).
  exists s3. split_and!; [done|done|congruence].
Qed.

Lemma ready_release `{!SupervisionJsonSound} n f s w :
  ready (3 + n) s -> release_lease f (world s) = (w, Ok tt) -> exists s', release f s = (s', Ok tt) /\ world s' = w.
Proof.
  intros Hr Hact. unfold release. destruct (ready_call (2 + n) LeaseRelease (release_lease f) s w _ Hr Hact) as (s1 & Hr1 & Hw1 & Hi1 & ->).
  cbv beta iota. destruct (ready_then (1 + n) (Outcome LeaseRelease Succeeded) s1 Hr1 eq_refl) as (s2 & Hr2 & Hw2 & Hi2 & ->).
  destruct (ready_record n Released s2 Hr2 eq_refl) as (s3 & Hd & Hr3 & Hw3 & _). exists s3. split; [done|congruence].
Qed.

Lemma ready_delete `{!SupervisionJsonSound} n f i s w outcome :
  ready (3 + n) s -> identity (ledger s) = Some i -> delete_exact f i (world s) = (w, outcome) -> outcome <> Failed ->
  exists s', delete_provider f s = (s', Ok tt) /\ ready n s' /\ world s' = w /\ identity (ledger s') = Some i.
Proof.
  intros Hr Hi Hact Hf. unfold delete_provider. destruct (ready_then (2 + n) CleanupOnly s Hr eq_refl) as (s1 & Hr1 & Hw1 & Hi1 & ->).
  destruct (ready_then (1 + n) (Intent Delete) s1 Hr1 eq_refl) as (s2 & Hr2 & Hw2 & Hi2 & ->).
  unfold sbind at 1, sget at 1. rewrite Hi2, Hi1, Hi. erewrite world_bind by (rewrite Hw2, Hw1; exact Hact).
  destruct (ready_then n (Outcome Delete outcome) (mkSupervisor (store s2) (ledger s2) w) Hr2 eq_refl) as (s3 & Hr3 & Hw3 & Hi3 & ->).
  rewrite decide_False by done. exists s3. split_and!; [done|done|done|]. rewrite Hi3. simpl. congruence.
Qed.

(** C11. The lease is released on a complete proof, and only then. If a cleanup
    succeeds, the provider answered the deletion without a failure, then twice, at
    least five seconds apart on the monotonic clock, that exactly this device is
    absent from a fully paginated, uncached listing; the vault confirmed the very
    version that was bound; the lease was released last; and the ledger on disk
    gained exactly the fifteen transitions that say so. Conversely, when the world
    answers in this way and the disk works, the cleanup of a ledger that is stored
    and not quarantined succeeds. *)
Theorem cleanup_releases_iff_proven `{!SupervisionJsonSound} now s :
  (forall s', run_cleanup_with_clock now s = (s', Ok tt) ->
     exists i outcome, identity (ledger s) = Some i /\ proves (fence (ledger s)) i outcome (world s) (world s') /\
       replay (ledger s) (proof_history i outcome) = Ok (ledger s') /\ durable s') /\
  (forall i outcome w', ready 15 s -> identity (ledger s) = Some i -> proves (fence (ledger s)) i outcome (world s) w' ->
     exists s', run_cleanup_with_clock now s = (s', Ok tt) /\ world s' = w').
Proof.
  rewrite run_as. set (f := fence (ledger s)). split.
  - intros s' Hr. apply sbind_Ok in Hr as (s1 & [] & Hp & Hr). injection Hp as <- _. unfold cleanup_steps in Hr. apply sbind_Ok in Hr as (s1 & [] & Hd & Hr).
    apply delete_Ok in Hd as (i & outcome & Hi & Hi1 & Hdel & Hnf & Ha1). unfold sbind at 1, sget at 1 in Hr. rewrite Hi1 in Hr.
    apply sbind_Ok in Hr as (s2 & u2 & Ho1 & Hr). apply observe_Ok in Ho1 as (o1 & Hobs1 & Hp1 & Ha2).
    apply sbind_Ok in Hr as (s3 & u3 & Hw & Hr). apply wait_Ok in Hw as [-> Hel]. cbn [world] in Hel.
    apply sbind_Ok in Hr as (s4 & u4 & Ho2 & Hr). apply observe_Ok in Ho2 as (o2 & Hobs2 & Hp2 & Ha4). cbn [world] in Hobs2.
    apply sbind_Ok in Hr as (s5 & u5 & He & Hr). apply erase_Ok in He as [Her Ha5]. apply release_Ok in Hr as [Hrel Ha6].
    exists i, outcome. split; [done|]. split; [by exists (world s1), (world s2), o1, (world s4), o2, (world s5)|].
    exact (advanced_trans _ _ _ _ _ Ha1 (advanced_trans _ _ _ _ _ Ha2 (advanced_trans _ _ _ _ _ (advanced_world _ _ _ _ Ha4)
      (advanced_trans _ _ _ _ _ Ha5 Ha6)))).
  - intros i outcome w' Hr Hi (w1 & w2 & o1 & w4 & o2 & w5 & Hdel & Hnf & Hobs1 & Hp1 & Hel & Hobs2 & Hp2 & Her & Hrel).
    assert (Hpermits : permits (ledger s) Delete now = Ok tt) by (destruct Hr as (_ & _ & Hq & _); apply permits_Ok; rewrite Hq, andb_false_r; done).
    unfold sbind at 1, or_error. rewrite Hpermits. unfold cleanup_steps.
    destruct (ready_delete 12 f i s w1 outcome Hr Hi Hdel Hnf) as (s1 & Hd & Hr1 & Hw1 & Hi1).
    unfold sbind at 1. rewrite Hd. unfold sbind at 1, sget at 1. rewrite Hi1. rewrite <- Hw1 in Hobs1.
    destruct (ready_observe 9 f i 1 s1 w2 o1 Hr1 Hobs1 Hp1) as (s2 & Hd2 & Hr2 & Hw2 & Hi2). unfold sbind at 1. rewrite Hd2.
    assert (Hwait : wait_apart s2 = (mkSupervisor (store s2) (ledger s2) (wait_until (mark w2) MIN_ABSENCE_SEPARATION w2), Ok tt)).
    { unfold wait_apart. rewrite (world_bind _ _ s2 w2 (mark w2)) by (by rewrite Hw2). rewrite (world_bind _ _ _ _ tt) by reflexivity.
      unfold sbind, sget. cbn [world]. by rewrite (proj2 (Z.ltb_ge _ _) Hel). }
    unfold sbind at 1. rewrite Hwait. cbv beta iota.
    destruct (ready_observe 6 f i 2 _ w4 o2 (ready_world _ _ (wait_until (mark w2) MIN_ABSENCE_SEPARATION w2) Hr2) Hobs2 Hp2) as (s4 & Hd4 & Hr4 & Hw4 & _).
    unfold sbind at 1. rewrite Hd4. rewrite <- Hw4 in Her. destruct (ready_erase 3 f i s4 w5 Hr4 Her) as (s5 & Hd5 & Hr5 & Hw5).
    unfold sbind at 1. rewrite Hd5. rewrite <- Hw5 in Hrel. exact (ready_release 0 f s5 w' Hr5 Hrel).
Qed.
End run.

(** ** A concrete cleanup *)

Module RunDemo.
Export LedgerDemo.

(** The calls made, the clock, and whether the device is still listed. *)
Record World := mkWorld { calls_made : list Operation; clock : Z; listed : bool }.
Definition log (o : Operation) (w : World) : World := mkWorld (calls_made w ++ [o]) (clock w + 1) (listed w).
#[export] Instance demo_surroundings : Surroundings World := {
  delete_exact := fun _ _ w => (log Delete w, Unknown);
  observe_exact := fun _ i w => (log ObserveAbsence w, Ok (mkAbsenceObservation (provider_stable_id i) (listed w) true true));
  erase_vault_cas := fun _ i w => (log VaultErase w, Ok (vault_version i));
  release_lease := fun _ w => (log LeaseRelease w, Ok tt);
  Mark := Z;
  mark := clock;
  wait_until := fun m d w => mkWorld (calls_made w) (Z.max (clock w) (m + d)) (listed w);
  elapsed := fun w m => clock w - m;
}.
#[export] Instance demo_log : SurroundingsLog World.
Proof. by exists calls_made. Defined.

Definition start (still_listed : bool) : Supervisor World := mkSupervisor (store_of bound []) bound (mkWorld [] 0 still_listed).
End RunDemo.
Import RunDemo.

(** A device that is still listed is quarantined after the first look. *)
Lemma cleanup_fails_closed_witness :
  (run_cleanup_with_clock 1000 (start true)).2 = Err IncompleteProof /\
  exists ts, called (world (run_cleanup_with_clock 1000 (start true)).1) = intents ts /\ forallb plain ts = true.
Proof.
  assert (Hr : (run_cleanup_with_clock 1000 (start true)).2 = Err IncompleteProof) by (vm_compute; reflexivity).
  split; [exact Hr|].
  destruct (cleanup_fails_closed 1000 demo_identity (start true) (run_cleanup_with_clock 1000 (start true)).1
    (run_cleanup_with_clock 1000 (start true)).2) as (ts & _ & Hc & _ & He).
  - vm_compute. reflexivity.
  - apply surjective_pairing.
  - exists ts. split; [exact Hc|]. rewrite Hr in He. apply He.
Defined.

Lemma cleanup_releases_iff_proven_witness :
  let r := run_cleanup_with_clock 1000 (start false) in
  r.2 = Ok tt /\ calls_made (world r.1) = [Delete; ObserveAbsence; ObserveAbsence; VaultErase; LeaseRelease] /\
  exists i outcome, proves demo_fence i outcome (mkWorld [] 0 false) (world r.1).
Proof.
  cbv zeta. assert (Hr : (run_cleanup_with_clock 1000 (start false)).2 = Ok tt) by (vm_compute; reflexivity).
  split; [exact Hr|]. split; [vm_compute; reflexivity|].
  destruct (proj1 (cleanup_releases_iff_proven 1000 (start false)) (run_cleanup_with_clock 1000 (start false)).1) as (i & o & _ & Hp & _).
  - rewrite <- Hr. apply surjective_pairing.
  - exists i, o. exact Hp.
Defined.
