(* ===== verification/ServerCrypto.v ===== *)
(** * The server's small primitives ([spurfire-server/src/crypto.rs])

    The text of opaque tokens (base64url without padding), the comparison of verifiers
    and the server's copy of SHA-256. Bytes are integers. *)

From S2P Require Import Prelude MachineInt Bytes Sha256.
Open Scope Z_scope.

Definition BASE64URL : list Z :=
  bytes_of_string "ABCDEFGHIJKLMNOPQRSTUVWXYZabcdefghijklmnopqrstuvwxyz0123456789-_".
Definition char_of (index : Z) : Z := nth (Z.to_nat index) BASE64URL 0.

(** The text of one chunk of one to three bytes. *)
Definition encode_chunk (chunk : list Z) : list Z :=
  match chunk with
  | [] => []
  | first :: _ =>
      [char_of (Z.shiftr first 2);
       char_of (Z.lor (wrap 8 (Z.shiftl (Z.land first 0x03) 4)) (Z.shiftr (default 0 (chunk !! 1%nat)) 4))]
      ++ match chunk !! 1%nat with
         | None => []
         | Some second => [char_of (Z.lor (wrap 8 (Z.shiftl (Z.land second 0x0f) 2)) (Z.shiftr (default 0 (chunk !! 2%nat)) 6))]
         end
      ++ match chunk !! 2%nat with
         | None => []
         | Some third => [char_of (Z.land third 0x3f)]
         end
  end.
(** [input.chunks(3)] *)
Fixpoint chunks3 (input : list Z) : list (list Z) :=
  match input with
  | [] => []
  | [a] => [[a]]
  | [a; b] => [[a; b]]
  | a :: b :: c :: input => [a; b; c] :: chunks3 input
  end.
Definition base64url_encode (input : list Z) : list Z := concat (map encode_chunk (chunks3 input)).

Definition digit_of (byte : Z) : option Z :=
  if (65 <=? byte) && (byte <=? 90) then Some (byte - 65)
  else if (97 <=? byte) && (byte <=? 122) then Some (byte - 97 + 26)
  else if (48 <=? byte) && (byte <=? 57) then Some (byte - 48 + 52)
  else if byte =? 45 then Some 62
  else if byte =? 95 then Some 63
  else None.

(** The loop of [base64url_decode]: the accumulator, its bits and the output. *)
Fixpoint decode_loop (input : list Z) (accumulator bits : Z) (output : list Z) : option (Z * list Z) :=
  match input with
  | [] => Some (accumulator, output)
  | byte :: input =>
      match digit_of byte with
      | None => None
      | Some value =>
          let accumulator := Z.lor (wrap 32 (Z.shiftl accumulator 6)) value in
          let bits := bits + 6 in
          if 8 <=? bits then
            let bits := bits - 8 in
            decode_loop input (Z.land accumulator (saturating_sub (wrap 32 (Z.shiftl 1 bits)) 1)) bits
              (output ++ [wrap 8 (Z.shiftr accumulator bits)])
          else decode_loop input accumulator bits output
      end
  end.
Definition base64url_decode (input : list Z) : option (list Z) :=
  if (length input =? 0)%nat || (Z.of_nat (length input) mod 4 =? 1) || negb (forallb (fun b => b <? 128) input) then None
  else
    match decode_loop input 0 0 [] with
    | None => None
    | Some (accumulator, output) => if negb (accumulator =? 0) then None else Some output
    end.

(** [constant_time_eq]: the differences of all byte pairs, or-ed together. *)
Definition constant_time_eq (left right : list Z) : bool :=
  fold_left (fun difference '(l, r) => Z.lor difference (Z.lxor l r)) (combine left right) 0 =? 0.

(** The same text as the digest of [election.rs], copied into the server. *)
Definition sha256 (input : list Z) : list Z := Sha256.sha256 input.

(** ** Tokens *)

Lemma char_digit_all : forallb (fun i => bool_decide (digit_of (char_of i) = Some i)) (map Z.of_nat (seq 0 64)) = true.
Proof. vm_compute. reflexivity. Qed.
Lemma digit_of_char i : 0 <= i < 64 -> digit_of (char_of i) = Some i.
Proof.
  intros Hi. pose proof char_digit_all as Hall. rewrite forallb_forall in Hall. specialize (Hall i).
  apply bool_decide_eq_true in Hall; [done|]. apply in_map_iff. exists (Z.to_nat i). split; [lia|]. apply in_seq. lia.
Qed.
Lemma digit_char_all :
  forallb (fun b => match digit_of b with Some i => (0 <=? i) && (i <? 64) && (char_of i =? b) | None => true end)
    (map Z.of_nat (seq 0 128)) = true.
Proof. vm_compute. reflexivity. Qed.
Lemma char_of_digit b i : 0 <= b < 128 -> digit_of b = Some i -> 0 <= i < 64 /\ char_of i = b.
Proof.
  intros Hb Hd. pose proof digit_char_all as Hall. rewrite forallb_forall in Hall. specialize (Hall b).
  rewrite Hd in Hall. assert (Hin : In b (map Z.of_nat (seq 0 128))).
  { apply in_map_iff. exists (Z.to_nat b). split; [lia|]. apply in_seq. lia. }
  specialize (Hall Hin). rewrite !andb_true_iff in Hall. lia.
Qed.

(** The bit operations as arithmetic. *)
Lemma lor_add a v k : 0 <= k -> 0 <= v < 2 ^ k -> 0 <= a -> Z.lor (a * 2 ^ k) v = a * 2 ^ k + v.
Proof.
  intros Hk Hv Ha. destruct (decide (v = 0)) as [->|Hnz]; [by rewrite Z.lor_0_r, Z.add_0_r|].
  rewrite <- Z.shiftl_mul_pow2 by done. apply Z.bits_inj'. intros n Hn.
  rewrite Z.add_nocarry_lxor, Z.lor_spec, Z.lxor_spec.
  - destruct (Z.ltb_spec n k).
    + rewrite Z.shiftl_spec_low by done. by destruct (Z.testbit v n).
    + rewrite (Z.bits_above_log2 v n); [by rewrite orb_false_r, xorb_false_r|lia|].
      apply Z.log2_lt_pow2; [lia|]. pose proof (Z.pow_le_mono_r 2 k n). lia.
  - apply Z.bits_inj'. intros m Hm. rewrite Z.land_spec, Z.bits_0. destruct (Z.ltb_spec m k).
    + by rewrite Z.shiftl_spec_low.
    + rewrite (Z.bits_above_log2 v m); [apply andb_false_r|lia|].
      apply Z.log2_lt_pow2; [lia|]. pose proof (Z.pow_le_mono_r 2 k m). lia.
Qed.

(** One digit of the loop. *)
Lemma decode_step byte input acc bits output v :
  digit_of byte = Some v -> 0 <= v < 64 -> 0 <= acc < 2 ^ bits -> 0 <= bits <= 6 ->
  decode_loop (byte :: input) acc bits output =
    if 2 <=? bits then decode_loop input ((acc * 64 + v) mod 2 ^ (bits - 2)) (bits - 2) (output ++ [(acc * 64 + v) / 2 ^ (bits - 2)])
    else decode_loop input (acc * 64 + v) (bits + 6) output.
Proof.
  intros Hd Hv Hacc Hbits. cbn [decode_loop]. rewrite Hd. cbv zeta.
  assert (Hpow : 2 ^ bits <= 64) by (change 64 with (2 ^ 6); apply Z.pow_le_mono_r; lia).
  assert (Hor : Z.lor (wrap 32 (Z.shiftl acc 6)) v = acc * 64 + v).
  { rewrite Z.shiftl_mul_pow2 by lia. unfold wrap. rewrite Z.mod_small by (simpl; lia). by rewrite (lor_add acc v 6) by (simpl; lia). }
  rewrite Hor. destruct (Z.leb_spec 2 bits) as [H2|H2].
  - rewrite (proj2 (Z.leb_le 8 (bits + 6))) by lia. replace (bits + 6 - 8) with (bits - 2) by lia.
    assert (Hp2 : 1 <= 2 ^ (bits - 2) <= 16).
    { split; [pose proof (Z.pow_pos_nonneg 2 (bits - 2)); lia|change 16 with (2 ^ 4); apply Z.pow_le_mono_r; lia]. }
    assert (Hsplit : 2 ^ bits = 4 * 2 ^ (bits - 2)) by (replace bits with (2 + (bits - 2)) at 1 by lia; by rewrite Z.pow_add_r by lia).
    f_equal.
    + rewrite Z.shiftl_1_l. unfold wrap, saturating_sub. rewrite Z.mod_small by (simpl; lia). rewrite Z.max_l by lia.
      replace (2 ^ (bits - 2) - 1) with (Z.ones (bits - 2)) by (rewrite Z.ones_equiv; lia). by rewrite Z.land_ones by lia.
    + f_equal. f_equal. rewrite Z.shiftr_div_pow2 by lia. unfold wrap. apply Z.mod_small. split; [apply Z.div_pos; lia|].
      apply Z.div_lt_upper_bound; [lia|]. change (2 ^ 8) with 256. nia.
  - rewrite (proj2 (Z.leb_gt 8 (bits + 6))) by lia. done.
Qed.

Definition byte1 (v1 v2 : Z) : Z := v1 * 4 + v2 / 16.
Definition byte2 (v2 v3 : Z) : Z := v2 mod 16 * 16 + v3 / 4.
Definition byte3 (v3 v4 : Z) : Z := v3 mod 4 * 64 + v4.
Definition digit (b v : Z) : Prop := digit_of b = Some v /\ 0 <= v < 64.

Lemma decode2 b1 b2 input output v1 v2 :
  digit b1 v1 -> digit b2 v2 -> decode_loop (b1 :: b2 :: input) 0 0 output = decode_loop input (v2 mod 16) 4 (output ++ [byte1 v1 v2]).
Proof.
  intros [D1 V1] [D2 V2]. rewrite (decode_step b1 _ 0 0 _ v1) by (try done; simpl; lia). cbn [Z.leb Z.compare Pos.compare Pos.compare_cont].
  rewrite (decode_step b2 _ _ _ _ v2) by (try done; simpl; lia). change (2 <=? 0 + 6) with true. cbv iota.
  change (0 + 6 - 2) with 4. change (2 ^ 4) with 16. unfold byte1.
  replace ((((0 * 64 + v1) * 64 + v2) mod 16)) with (v2 mod 16) by div_lia.
  replace (((0 * 64 + v1) * 64 + v2) / 16) with (v1 * 4 + v2 / 16) by div_lia. done.
Qed.
Lemma decode3 b input acc output v :
  digit b v -> 0 <= acc < 16 ->
  decode_loop (b :: input) acc 4 output = decode_loop input (v mod 4) 2 (output ++ [acc * 16 + v / 4]).
Proof.
  intros [D V] Ha. rewrite (decode_step b _ acc 4 _ v) by (try done; simpl; lia). change (2 <=? 4) with true. cbv iota.
  change (4 - 2) with 2. change (2 ^ 2) with 4.
  replace ((acc * 64 + v) mod 4) with (v mod 4) by div_lia. by replace ((acc * 64 + v) / 4) with (acc * 16 + v / 4) by div_lia.
Qed.
Lemma decode4 b input acc output v :
  digit b v -> 0 <= acc < 4 -> decode_loop (b :: input) acc 2 output = decode_loop input 0 0 (output ++ [acc * 64 + v]).
Proof.
  intros [D V] Ha. rewrite (decode_step b _ acc 2 _ v) by (try done; simpl; lia). change (2 <=? 2) with true. cbv iota.
  change (2 - 2) with 0. change (2 ^ 0) with 1. by rewrite Z.mod_1_r, Z.div_1_r.
Qed.

(** The digits of a chunk. *)
Definition is_byte (b : Z) : Prop := 0 <= b < 256.
Lemma encode_values a b c :
  is_byte a -> is_byte b -> is_byte c ->
  Z.shiftr a 2 = a / 4 /\
  Z.lor (wrap 8 (Z.shiftl (Z.land a 0x03) 4)) (Z.shiftr b 4) = a mod 4 * 16 + b / 16 /\
  Z.lor (wrap 8 (Z.shiftl (Z.land b 0x0f) 2)) (Z.shiftr c 6) = b mod 16 * 4 + c / 64 /\
  Z.land c 0x3f = c mod 64.
Proof.
  unfold is_byte. intros Ha Hb Hc. change 0x03 with (Z.ones 2). change 0x0f with (Z.ones 4). change 0x3f with (Z.ones 6).
  rewrite !Z.land_ones, !Z.shiftr_div_pow2, !Z.shiftl_mul_pow2 by lia. unfold wrap.
  change (2 ^ 2) with 4. change (2 ^ 4) with 16. change (2 ^ 6) with 64. change (2 ^ 8) with 256.
  split; [done|]. split; [|split; [|done]].
  - rewrite (Z.mod_small (a mod 4 * 16)) by div_lia. apply (lor_add (a mod 4) (b / 16) 4); [lia|change (2 ^ 4) with 16; div_lia|div_lia].
  - rewrite (Z.mod_small (b mod 16 * 4)) by div_lia. apply (lor_add (b mod 16) (c / 64) 2); [lia|change (2 ^ 2) with 4; div_lia|div_lia].
Qed.
Lemma digit_char v : 0 <= v < 64 -> digit (char_of v) v.
Proof. intros Hv. split; [by apply digit_of_char|done]. Qed.

(** Induction on the chunks of three. *)
Lemma three_ind (P : list Z -> Prop) :
  P [] -> (forall a, P [a]) -> (forall a b, P [a; b]) -> (forall a b c l, P l -> P (a :: b :: c :: l)) -> forall l, P l.
Proof.
  intros H0 H1 H2 H3. fix IH 1. intros [|a [|b [|c l]]]; [exact H0|apply H1|apply H2|apply H3, IH].
Qed.

(** The text chunk by chunk. *)
Definition text2 (a b : Z) : list Z := [char_of (a / 4); char_of (a mod 4 * 16 + b / 16)].
Lemma encode_one a : is_byte a -> base64url_encode [a] = text2 a 0.
Proof.
  intros Ha. destruct (encode_values a 0 0 Ha ltac:(by split) ltac:(by split)) as (E1 & E2 & _ & _).
  change (base64url_encode [a]) with [char_of (Z.shiftr a 2);
    char_of (Z.lor (wrap 8 (Z.shiftl (Z.land a 0x03) 4)) (Z.shiftr 0 4))]. by rewrite E1, E2.
Qed.
Lemma encode_two a b : is_byte a -> is_byte b -> base64url_encode [a; b] = text2 a b ++ [char_of (b mod 16 * 4 + 0 / 64)].
Proof.
  intros Ha Hb. destruct (encode_values a b 0 Ha Hb ltac:(by split)) as (E1 & E2 & E3 & _).
  change (base64url_encode [a; b]) with [char_of (Z.shiftr a 2);
    char_of (Z.lor (wrap 8 (Z.shiftl (Z.land a 0x03) 4)) (Z.shiftr b 4));
    char_of (Z.lor (wrap 8 (Z.shiftl (Z.land b 0x0f) 2)) (Z.shiftr 0 6))]. by rewrite E1, E2, E3.
Qed.
Lemma encode_three a b c bytes :
  is_byte a -> is_byte b -> is_byte c ->
  base64url_encode (a :: b :: c :: bytes) =
    text2 a b ++ char_of (b mod 16 * 4 + c / 64) :: char_of (c mod 64) :: base64url_encode bytes.
Proof.
  intros Ha Hb Hc. destruct (encode_values a b c Ha Hb Hc) as (E1 & E2 & E3 & E4).
  change (base64url_encode (a :: b :: c :: bytes)) with ([char_of (Z.shiftr a 2);
    char_of (Z.lor (wrap 8 (Z.shiftl (Z.land a 0x03) 4)) (Z.shiftr b 4));
    char_of (Z.lor (wrap 8 (Z.shiftl (Z.land b 0x0f) 2)) (Z.shiftr c 6)); char_of (Z.land c 0x3f)] ++ base64url_encode bytes).
  by rewrite E1, E2, E3, E4.
Qed.

Lemma decode_text2 a b rest output :
  is_byte a -> is_byte b ->
  decode_loop (text2 a b ++ rest) 0 0 output = decode_loop rest (b / 16) 4 (output ++ [a]).
Proof.
  unfold is_byte. intros Ha Hb. unfold text2. cbn [app].
  rewrite (decode2 _ _ _ _ (a / 4) (a mod 4 * 16 + b / 16)) by (apply digit_char; div_lia). unfold byte1.
  replace (a / 4 * 4 + (a mod 4 * 16 + b / 16) / 16) with a by div_lia.
  by replace ((a mod 4 * 16 + b / 16) mod 16) with (b / 16) by div_lia.
Qed.

Lemma decode_encode_loop bytes output :
  Forall is_byte bytes -> decode_loop (base64url_encode bytes) 0 0 output = Some (0, output ++ bytes).
Proof.
  revert output. induction bytes as [|a|a b|a b c bytes IH] using three_ind; intros output Hall; rewrite ?Forall_cons in Hall.
  - simpl. by rewrite app_nil_r.
  - destruct Hall as [Ha _]. rewrite encode_one by done. rewrite <- (app_nil_r (text2 a 0)). by rewrite decode_text2 by (try done; by split).
  - destruct Hall as (Ha & Hb & _). rewrite encode_two, decode_text2 by done. unfold is_byte in *.
    rewrite (decode3 _ _ _ _ (b mod 16 * 4 + 0 / 64)) by first [apply digit_char; div_lia|div_lia]. cbn [decode_loop].
    rewrite <- app_assoc. f_equal. f_equal; [div_lia|]. cbn [app]. do 3 f_equal. div_lia.
  - destruct Hall as (Ha & Hb & Hc & Hall). rewrite encode_three, decode_text2 by done. unfold is_byte in Ha, Hb, Hc.
    rewrite (decode3 _ _ _ _ (b mod 16 * 4 + c / 64)) by first [apply digit_char; div_lia|div_lia].
    rewrite (decode4 _ _ _ _ (c mod 64)) by first [apply digit_char; div_lia|div_lia].
    rewrite IH by done. f_equal. f_equal. rewrite <- !app_assoc. cbn [app]. do 2 f_equal. f_equal; [div_lia|]. f_equal. div_lia.
Qed.

Lemma length_encode bytes : Z.of_nat (length (base64url_encode bytes)) = (4 * Z.of_nat (length bytes) + 2) / 3.
Proof.
  unfold base64url_encode. induction bytes as [|a|a b|a b c bytes IH] using three_ind; [done..|].
  cbn [chunks3 map concat]. rewrite length_app. change (length (encode_chunk [a; b; c])) with 4%nat. cbn [length] in *. div_lia.
Qed.

Lemma encode_ascii bytes : Forall is_byte bytes -> forallb (fun b => b <? 128) (base64url_encode bytes) = true.
Proof.
  intros Hall. assert (Hchar : forall i, char_of i <? 128 = true).
  { intros i. unfold char_of. destruct (decide (Z.to_nat i < 64)%nat) as [Hi|Hi].
    - assert (Hf : forallb (fun c => c <? 128) BASE64URL = true) by (vm_compute; reflexivity). rewrite forallb_forall in Hf. apply Hf.
      apply nth_In. exact Hi.
    - by rewrite nth_overflow by (change (length BASE64URL) with 64%nat; lia). }
  induction bytes as [|a|a b|a b c bytes IH] using three_ind; rewrite ?Forall_cons in Hall; [done| | |].
  - rewrite encode_one by apply Hall. simpl. by rewrite !Hchar.
  - rewrite encode_two by apply Hall. simpl. by rewrite !Hchar.
  - rewrite encode_three by apply Hall. simpl. by rewrite !Hchar, IH by apply Hall.
Qed.

Lemma char_of_digit' b i : digit_of b = Some i -> 0 <= i < 64 /\ char_of i = b.
Proof.
  intros Hd. apply char_of_digit; [|done]. unfold digit_of in Hd.
  repeat match type of Hd with context [if ?c then _ else _] => destruct c eqn:? end; try done; lia.
Qed.

(** Induction on groups of four characters. *)
Lemma four_ind (P : list Z -> Prop) :
  P [] -> (forall a, P [a]) -> (forall a b, P [a; b]) -> (forall a b c, P [a; b; c]) ->
  (forall a b c d l, P l -> P (a :: b :: c :: d :: l)) -> forall l, P l.
Proof.
  intros H0 H1 H2 H3 H4. fix IH 1. intros [|a [|b [|c [|d l]]]]; [exact H0|apply H1|apply H2|apply H3|apply H4, IH].
Qed.

Lemma decode_loop_Some byte input acc bits output r :
  decode_loop (byte :: input) acc bits output = Some r -> exists v, digit byte v /\ char_of v = byte.
Proof.
  cbn [decode_loop]. destruct (digit_of byte) as [v|] eqn:Hd; [|done]. intros _. exists v.
  destruct (char_of_digit' _ _ Hd). by split.
Qed.

Lemma decode2_output b1 b2 input output r :
  decode_loop (b1 :: b2 :: input) 0 0 output = Some r ->
  exists v1 v2, digit b1 v1 /\ digit b2 v2 /\ char_of v1 = b1 /\ char_of v2 = b2 /\
    decode_loop input (v2 mod 16) 4 (output ++ [byte1 v1 v2]) = Some r.
Proof.
  intros Hr. pose proof Hr as Hr1. apply decode_loop_Some in Hr1 as (v1 & Hd1 & Hc1).
  pose proof Hr as Hr2. destruct Hd1 as [Hd1 Hv1]. rewrite (decode_step b1 _ 0 0 _ v1) in Hr2 by (try done; simpl; lia).
  change (2 <=? 0) with false in Hr2. cbv iota in Hr2. apply decode_loop_Some in Hr2 as (v2 & Hd2 & Hc2).
  exists v1, v2. split_and!; try done. by rewrite <- (decode2 b1 b2 input output v1 v2).
Qed.

Lemma text_of_two v1 v2 : 0 <= v1 < 64 -> 0 <= v2 < 64 ->
  is_byte (byte1 v1 v2) /\ byte1 v1 v2 / 4 = v1 /\ byte1 v1 v2 mod 4 * 16 = v2 / 16 * 16.
Proof. unfold is_byte, byte1. intros. split; [div_lia|]. split; div_lia. Qed.

Lemma encode_decode_loop text output acc result :
  (Z.of_nat (length text) mod 4 <> 1) -> decode_loop text 0 0 output = Some (acc, result) -> acc = 0 ->
  exists bytes, result = output ++ bytes /\ Forall is_byte bytes /\ base64url_encode bytes = text.
Proof.
  revert output. induction text as [|a|a b|a b c|a b c d text IH] using four_ind; intros output Hlen Hr ->.
  - injection Hr as <-. exists []. by rewrite app_nil_r.
  - by contradict Hlen.
  - apply decode2_output in Hr as (v1 & v2 & [_ V1] & [_ V2] & <- & <- & Hr). injection Hr as Hz <-.
    destruct (text_of_two v1 v2 V1 V2) as (Hb & E1 & E2). exists [byte1 v1 v2]. split_and!; [done|by rewrite Forall_cons|].
    rewrite encode_one by done. unfold text2. rewrite E1. do 2 f_equal. f_equal. rewrite E2. div_lia.
  - apply decode2_output in Hr as (v1 & v2 & [_ V1] & [_ V2] & <- & <- & Hr). pose proof Hr as Hd3.
    apply decode_loop_Some in Hd3 as (v3 & Hd3 & <-). pose proof Hd3 as [_ V3]. rewrite (decode3 _ _ _ _ v3) in Hr by (try done; div_lia).
    injection Hr as Hz <-. destruct (text_of_two v1 v2 V1 V2) as (Hb & E1 & E2).
    assert (Hb2 : is_byte (v2 mod 16 * 16 + v3 / 4)) by (unfold is_byte; div_lia).
    exists [byte1 v1 v2; v2 mod 16 * 16 + v3 / 4]. split_and!; [by rewrite <- app_assoc|by rewrite !Forall_cons|].
    rewrite encode_two by done. unfold text2. rewrite E1, E2. cbn [app].
    replace (v2 / 16 * 16 + (v2 mod 16 * 16 + v3 / 4) / 16) with v2 by div_lia.
    by replace ((v2 mod 16 * 16 + v3 / 4) mod 16 * 4 + 0 / 64) with v3 by div_lia.
  - apply decode2_output in Hr as (v1 & v2 & [_ V1] & [_ V2] & <- & <- & Hr). pose proof Hr as Hd3.
    apply decode_loop_Some in Hd3 as (v3 & Hd3 & <-). pose proof Hd3 as [_ V3]. rewrite (decode3 _ _ _ _ v3) in Hr by (try done; div_lia).
    pose proof Hr as Hd4. apply decode_loop_Some in Hd4 as (v4 & Hd4 & <-). pose proof Hd4 as [_ V4].
    rewrite (decode4 _ _ _ _ v4) in Hr by (try done; div_lia). cbn [length] in Hlen.
    destruct (IH _ ltac:(div_lia) Hr eq_refl) as (bytes & -> & Hall & <-).
    destruct (text_of_two v1 v2 V1 V2) as (Hb & E1 & E2).
    assert (Hb2 : is_byte (v2 mod 16 * 16 + v3 / 4)) by (unfold is_byte; div_lia).
    assert (Hb3 : is_byte (v3 mod 4 * 64 + v4)) by (unfold is_byte; div_lia).
    exists (byte1 v1 v2 :: (v2 mod 16 * 16 + v3 / 4) :: (v3 mod 4 * 64 + v4) :: bytes).
    split_and!; [by rewrite <- !app_assoc|by rewrite !Forall_cons|]. rewrite encode_three by done. unfold text2. rewrite E1, E2. cbn [app].
    replace (v2 / 16 * 16 + (v2 mod 16 * 16 + v3 / 4) / 16) with v2 by div_lia.
    replace ((v2 mod 16 * 16 + v3 / 4) mod 16 * 4 + (v3 mod 4 * 64 + v4) / 64) with v3 by div_lia.
    by replace ((v3 mod 4 * 64 + v4) mod 64) with v4 by div_lia.
Qed.

(** Tokens have one text. Any nonempty bytes are read back from their text, and
    whatever text is read is the text of the bytes it yields: no two texts are
    accepted for the same token, neither by padding bits nor by length. *)
Theorem token_text_bijective :
  (forall bytes, Forall is_byte bytes -> bytes <> [] -> base64url_decode (base64url_encode bytes) = Some bytes) /\
  (forall text bytes, base64url_decode text = Some bytes -> Forall is_byte bytes /\ bytes <> [] /\ base64url_encode bytes = text).
Proof.
  split.
  - intros bytes Hall Hne. unfold base64url_decode. rewrite encode_ascii, decode_encode_loop by done.
    pose proof (length_encode bytes) as Hlen. destruct bytes as [|b bytes]; [done|]. cbn [length] in Hlen.
    destruct (Nat.eqb_spec (length (base64url_encode (b :: bytes))) 0) as [Hz|_]; [div_lia|].
    destruct (Z.eqb_spec (Z.of_nat (length (base64url_encode (b :: bytes))) mod 4) 1) as [Hm|_]; [div_lia|]. done.
  - intros text bytes. unfold base64url_decode. destruct (_ || _ || _) eqn:Hg; [done|].
    apply orb_false_iff in Hg as [[Hz Hm]%orb_false_iff _]. destruct (decode_loop text 0 0 []) as [[acc out]|] eqn:Hr; [|done].
    destruct (Z.eqb_spec acc 0) as [Ha|]; cbn [negb]; [|done]. intros [= <-].
    destruct (encode_decode_loop text [] acc out ltac:(by apply Z.eqb_neq) Hr Ha) as (bs & -> & Hall & <-). cbn [app].
    split_and!; [done| |done]. intros ->. by apply Nat.eqb_neq in Hz.
Qed.

(** The comparison of two verifiers is equality. *)
Lemma fold_lor_zero l d :
  Forall (fun '(a, b) => 0 <= a /\ 0 <= b) l -> 0 <= d ->
  fold_left (fun difference '(a, b) => Z.lor difference (Z.lxor a b)) l d = 0 <-> d = 0 /\ Forall (fun '(a, b) => a = b) l.
Proof.
  revert d. induction l as [|[a b] l IH]; intros d Hall Hd; simpl; [naive_solver|]. apply Forall_cons in Hall as [[Ha Hb] Hall].
  rewrite IH by first [done|apply Z.lor_nonneg; split; [done|by apply Z.lxor_nonneg]]. rewrite Z.lor_eq_0_iff, Forall_cons, Z.lxor_eq_0_iff. naive_solver.
Qed.
Lemma constant_time_eq_spec left right :
  Forall (fun b => 0 <= b) left -> Forall (fun b => 0 <= b) right -> length left = length right ->
  constant_time_eq left right = true <-> left = right.
Proof.
  intros Hl Hr Hlen. unfold constant_time_eq. rewrite Z.eqb_eq.
  assert (Hpairs : Forall (fun '(a, b) => 0 <= a /\ 0 <= b) (combine left right) /\
    (Forall (fun '(a, b) => a = b) (combine left right) <-> left = right)).
  { revert right Hr Hlen. induction Hl as [|a left Ha Hl IH]; intros [|b right] Hr Hlen; try discriminate Hlen.
    - simpl. rewrite !Forall_nil. done.
    - apply Forall_cons in Hr as [Hb Hr]. injection Hlen as Hlen. destruct (IH right Hr Hlen) as [IH1 IH2]. simpl.
      rewrite !Forall_cons, IH2. split; [done|]. split; [by intros [-> ->]|by intros [= -> ->]]. }
  destruct Hpairs as [Hpos Heq]. rewrite fold_lor_zero by done. rewrite Heq. naive_solver.
Qed.

Lemma token_text_bijective_witness :
  base64url_encode [104; 105; 255; 0] = bytes_of_string "aGn_AA" /\
  base64url_decode (base64url_encode [104; 105; 255; 0]) = Some [104; 105; 255; 0] /\
  base64url_decode (bytes_of_string "aGn_AB") = None.
Proof.
  split; [vm_compute; reflexivity|]. split; [|vm_compute; reflexivity].
  apply (proj1 token_text_bijective); [|discriminate]. rewrite !Forall_cons, Forall_nil. repeat split; vm_compute; discriminate.
Defined.
