(* ===== verification/NetworkInspection.v ===== *)
(** * The inspection view of a lobby's network ([network_inspection.rs])

    Facts with their source, assurance and freshness, complete DNS names, and the view
    of one lobby with the check that its parts agree. The path of a field in an error
    is a string, as in the source; an [expect] that failed would be [Panicked]. *)

From Stdlib Require Import Strings.String.
From S2P Require Import Prelude MachineInt Bytes Clock Identifiers LobbyLifecycle Model.
Open Scope Z_scope.

Definition LOBBY_NETWORK_SCHEMA_VERSION : Z := 1.
Definition MAX_APPLICATION_RTT_MS : Z := 10000.
Definition MAX_APPLICATION_LOSS_PPM : Z := 1000000.
Definition DIRECT_RATIO_MILLI_SCALE : Z := 1000.
Definition MAX_TAILNET_DNS_NAME_LEN : nat := 253.

(** ** Enumerations, each with the value of a newer schema *)

Inductive BackingMode := BackingDryRun | BackingSharedTailnet | BackingTailnetPerLobby | BackingUnknown.
Definition backing_mode_from (value : ProvisioningMode) : BackingMode :=
  match value with
  | DryRun => BackingDryRun
  | SharedTailnet => BackingSharedTailnet
  | TailnetPerLobby => BackingTailnetPerLobby
  end.
Inductive NetworkIsolation := IsolationSimulated | IsolationShared | IsolationDedicated | IsolationUnknown.
Inductive NetworkLifecycle :=
| Simulated | NetReserved | Creating | Active | CreateRejected | CreateUnknown | CleanupRequested | NetCleanupPending
| VerifyingAbsence | DedicatedAbsent | SharedResourcesClean | ManualRemediation | LifecycleUnknown.
Inductive NetworkTruthLabel := SimulatedNoTailnet | RealDedicatedTailnet | RealSharedCompatibility | LabelUnknown.
Inductive InspectedLobbyLifecycle :=
| InspectedProvisioning | InspectedForming | InspectedReady | InspectedStarting | InspectedInMatch | InspectedClosing
| InspectedFailed | InspectedExpired | InspectedDestroyed | InspectedUnknown.
Definition inspected_from (value : LobbyState) : InspectedLobbyLifecycle :=
  match value with
  | Provisioning => InspectedProvisioning
  | Forming => InspectedForming
  | Ready => InspectedReady
  | Starting => InspectedStarting
  | InMatch => InspectedInMatch
  | Closing => InspectedClosing
  | Failed => InspectedFailed
  | Expired => InspectedExpired
  | Destroyed => InspectedDestroyed
  end.
Inductive FactSource := ControlStore | ProviderApi | ParticipantReport | SourceDerived | SourceNone | SourceUnknown.
Inductive FactAssurance := Authoritative | Observed | Reported | AssuranceDerived | AssuranceUnknown.
Inductive Freshness := Current | Fresh | Stale | FreshnessNotApplicable | FreshnessUnknown.
Inductive UnknownReason :=
| NeverObserved | Unsupported | PermissionDenied | Timeout | SourceError | Conflict | ReconciliationPending
| StaleBeyondRetention | ReasonNotApplicable | ReasonUnknown.
Inductive ParticipantCleanupReason :=
| NotRequested | CleanupSimulatedNoTailnet | CleanupIsRequested | CleanupIsPending | VerifyingExactAbsence
| DedicatedTailnetAbsent | CleanupSharedResourcesClean | ManualRemediationRequired | CleanupReasonUnknown.

#[export] Instance BackingMode_eq_dec : EqDecision BackingMode. Proof. solve_decision. Defined.
#[export] Instance NetworkIsolation_eq_dec : EqDecision NetworkIsolation. Proof. solve_decision. Defined.
#[export] Instance NetworkLifecycle_eq_dec : EqDecision NetworkLifecycle. Proof. solve_decision. Defined.
#[export] Instance NetworkTruthLabel_eq_dec : EqDecision NetworkTruthLabel. Proof. solve_decision. Defined.
#[export] Instance InspectedLobbyLifecycle_eq_dec : EqDecision InspectedLobbyLifecycle. Proof. solve_decision. Defined.
#[export] Instance FactSource_eq_dec : EqDecision FactSource. Proof. solve_decision. Defined.
#[export] Instance FactAssurance_eq_dec : EqDecision FactAssurance. Proof. solve_decision. Defined.
#[export] Instance Freshness_eq_dec : EqDecision Freshness. Proof. solve_decision. Defined.
#[export] Instance UnknownReason_eq_dec : EqDecision UnknownReason. Proof. solve_decision. Defined.
#[export] Instance ParticipantCleanupReason_eq_dec : EqDecision ParticipantCleanupReason. Proof. solve_decision. Defined.

(** [a == b] and [a != b]. *)
Declare Scope equality_scope.
Notation "a =?? b" := (bool_decide (a = b)) (at level 70) : equality_scope.
Notation "a <>?? b" := (negb (bool_decide (a = b))) (at level 70) : equality_scope.
Open Scope equality_scope.

(** Statements in sequence: the first error is returned. *)
Fixpoint checks {E} (l : list (result unit E)) : result unit E :=
  match l with
  | [] => Ok tt
  | Ok _ :: l => checks l
  | Err e :: _ => Err e
  end.
Definition refuse_if {E} (b : bool) (e : E) : result unit E := if b then Err e else Ok tt.

(** ** Facts *)

Record Fact (T : Type) := mkFact {
  fact_value : option T;
  source : FactSource;
  assurance : FactAssurance;
  as_of : option UnixMillis;
  received_at : option UnixMillis;
  freshness : Freshness;
  unknown_reason : option UnknownReason;
}.
Arguments mkFact {T}.
Arguments fact_value {T}.
Arguments source {T}.
Arguments assurance {T}.
Arguments as_of {T}.
Arguments received_at {T}.
Arguments freshness {T}.
Arguments unknown_reason {T}.
#[export] Instance Fact_eq_dec {T} `{EqDecision T} : EqDecision (Fact T).
Proof. solve_decision. Defined.

Definition fact_known {T} (value : T) (s : FactSource) (a : FactAssurance) (represented : option UnixMillis) (received : UnixMillis)
    (f : Freshness) : Fact T :=
  mkFact (Some value) s a represented (Some received) f None.
Definition fact_unknown {T} (s : FactSource) (reason : UnknownReason) (received : option UnixMillis) : Fact T :=
  mkFact None s AssuranceUnknown None received FreshnessUnknown (Some reason).
Definition fact_not_applicable {T} : Fact T :=
  mkFact None SourceNone AssuranceUnknown None None FreshnessNotApplicable (Some ReasonNotApplicable).

Definition source_supports_assurance (s : FactSource) (a : FactAssurance) : bool :=
  match s, a with
  | ControlStore, Authoritative => true
  | ProviderApi, (Authoritative | Observed) => true
  | ParticipantReport, Reported => true
  | SourceDerived, (Authoritative | AssuranceDerived) => true
  | _, _ => false
  end.

Inductive FactValidationError :=
| KnownValueHasUnknownAssurance
| KnownValueHasUnknownReason
| KnownValueHasNoUsableSource
| KnownValueMissingReceivedAt
| KnownValueHasInvalidFreshness (invalid : Freshness)
| UnknownValueHasKnownAssurance
| UnknownValueMissingReason
| UnknownValueHasKnownFreshness (invalid : Freshness)
| InvalidSourceAssurance (fact_source : FactSource) (unsupported : FactAssurance)
| InvalidNotApplicableShape.

Definition known_fact_validate {T} (self : Fact T) : result unit FactValidationError :=
  checks [
    refuse_if (assurance self =?? AssuranceUnknown) KnownValueHasUnknownAssurance;
    refuse_if (is_some (unknown_reason self)) KnownValueHasUnknownReason;
    refuse_if ((source self =?? SourceNone) || (source self =?? SourceUnknown)) KnownValueHasNoUsableSource;
    refuse_if (is_none (received_at self)) KnownValueMissingReceivedAt;
    refuse_if (match freshness self with FreshnessUnknown | FreshnessNotApplicable => true | _ => false end)
      (KnownValueHasInvalidFreshness (freshness self));
    refuse_if (negb (source_supports_assurance (source self) (assurance self)))
      (InvalidSourceAssurance (source self) (assurance self))].
Definition unknown_fact_validate {T} (self : Fact T) : result unit FactValidationError :=
  checks [
    refuse_if (assurance self <>?? AssuranceUnknown) UnknownValueHasKnownAssurance;
    refuse_if (is_none (unknown_reason self)) UnknownValueMissingReason;
    refuse_if (match freshness self with Current | Fresh | Stale => true | _ => false end)
      (UnknownValueHasKnownFreshness (freshness self))].
Definition uses_not_applicable {T} (self : Fact T) : bool :=
  (freshness self =?? FreshnessNotApplicable) || (unknown_reason self =?? Some ReasonNotApplicable).
Definition not_applicable_shape {T} (self : Fact T) : bool :=
  is_none (fact_value self) && (source self =?? SourceNone) && (assurance self =?? AssuranceUnknown)
  && is_none (as_of self) && is_none (received_at self) && (freshness self =?? FreshnessNotApplicable)
  && (unknown_reason self =?? Some ReasonNotApplicable).
Definition fact_validate {T} (self : Fact T) : result unit FactValidationError :=
  checks [
    match fact_value self with Some _ => known_fact_validate self | None => unknown_fact_validate self end;
    refuse_if (uses_not_applicable self && negb (not_applicable_shape self)) InvalidNotApplicableShape].

(** ** Complete DNS names *)

Record TailnetDnsName := mkTailnetDnsName { dns_name : list Z }.
#[export] Instance TailnetDnsName_eq_dec : EqDecision TailnetDnsName. Proof. solve_decision. Defined.
Inductive TailnetDnsNameValidationError :=
| DnsEmpty | DnsNonAscii | DnsNameTooLong | DnsNotFullyQualified | DnsEmptyLabel | DnsLabelTooLong | DnsLabelBoundaryHyphen
| DnsInvalidCharacter.
#[export] Instance TailnetDnsNameValidationError_eq_dec : EqDecision TailnetDnsNameValidationError. Proof. solve_decision. Defined.

Definition byte_dot : Z := 46.
Definition is_ascii_alphanumeric (b : Z) : bool :=
  is_ascii_digit b || ((65 <=? b) && (b <=? 90)) || ((97 <=? b) && (b <=? 122)).
Definition strip_dot (value : list Z) : list Z :=
  if last value =?? Some byte_dot then take (length value - 1) value else value.
(** [str::split('.')]: at least one piece. *)
Fixpoint split_dots (value : list Z) : list (list Z) :=
  match value with
  | [] => [[]]
  | b :: value =>
      if b =? byte_dot then [] :: split_dots value
      else match split_dots value with
           | piece :: pieces => (b :: piece) :: pieces
           | [] => [[b]]
           end
  end.
Definition label_check (label : list Z) : result unit TailnetDnsNameValidationError :=
  checks [
    refuse_if (length label =? 0)%nat DnsEmptyLabel;
    refuse_if (63 <? length label)%nat DnsLabelTooLong;
    refuse_if ((head label =?? Some byte_dash) || (last label =?? Some byte_dash)) DnsLabelBoundaryHyphen;
    refuse_if (negb (forallb (fun b => is_ascii_alphanumeric b || (b =? byte_dash)) label)) DnsInvalidCharacter].
Definition dns_parse (value : list Z) : result TailnetDnsName TailnetDnsNameValidationError :=
  let without_root_dot := strip_dot value in
  let labels := split_dots without_root_dot in
  match checks ([
    refuse_if (length value =? 0)%nat DnsEmpty;
    refuse_if (negb (forallb (fun b => b <? 128) value)) DnsNonAscii;
    refuse_if (length without_root_dot =? 0)%nat DnsEmpty;
    refuse_if (MAX_TAILNET_DNS_NAME_LEN <? length without_root_dot)%nat DnsNameTooLong;
    refuse_if (length labels <? 2)%nat DnsNotFullyQualified] ++ map label_check labels) with
  | Err e => Err e
  | Ok _ => Ok (mkTailnetDnsName (map to_ascii_lowercase without_root_dot))
  end.

(** ** The view *)

Record NetworkBacking := mkNetworkBacking {
  backing_mode : BackingMode;
  simulates_mode : option BackingMode;
  isolation : NetworkIsolation;
  network_generation : Z;
  network_lifecycle : NetworkLifecycle;
  tailnet_dns_name : Fact TailnetDnsName;
  control_service_member : Fact bool;
}.
Definition backing_simulated (generation : Z) (observed_at : UnixMillis) : NetworkBacking :=
  mkNetworkBacking BackingDryRun (Some BackingTailnetPerLobby) IsolationSimulated generation Simulated fact_not_applicable
    (fact_known false ControlStore Authoritative (Some observed_at) observed_at Current).

Record NetworkCounts := mkNetworkCounts {
  roster_count : Fact Z;
  provider_enrolled_device_count : Fact Z;
  provider_online_device_count : Fact Z;
  fresh_reporter_count : Fact Z;
  fresh_directional_observation_count : Fact Z;
}.
Record RouteAggregate := mkRouteAggregate {
  expected_direction_count : Fact Z;
  reported_direction_count : Fact Z;
  aggregate_direct_count : Fact Z;
  aggregate_peer_relay_count : Fact Z;
  derp_relay_count : Fact Z;
  aggregate_unavailable_count : Fact Z;
  unknown_count : Fact Z;
  reachable_known_count : Fact Z;
  direct_ratio_milli : Fact Z;
}.
Record ApplicationQuality := mkApplicationQuality {
  sample_count : Fact Z;
  application_rtt_ms_median : Fact Z;
  application_rtt_ms_p95 : Fact Z;
  application_rtt_ms_worst : Fact Z;
  application_loss_ppm_median : Fact Z;
}.
Record ControlElectionReference := mkControlElectionReference {
  election_formula_version : list Z;
  election_winner_player_id : PlayerId;
  election_score_milli : Z;
  election_input_hash : list Z;
  evaluated_at : UnixMillis;
  input_assurance : FactAssurance;
  election_degraded : bool;
}.
Record AcceptedHeartbeatReference := mkAcceptedHeartbeatReference {
  heartbeat_player_id : PlayerId;
  heartbeat_epoch : Z;
  heartbeat_input_hash : list Z;
  heartbeat_received_at : UnixMillis;
}.
Record PeerReportedMatchAuthority := mkPeerReportedMatchAuthority {
  reported_player_id : PlayerId;
  reported_epoch : Z;
  reported_input_hash : list Z;
  reporters : Z;
  agreement_count : Z;
  conflict_count : Z;
}.
Record NetworkAuthority := mkNetworkAuthority {
  control_election : Fact ControlElectionReference;
  last_accepted_heartbeat : Fact AcceptedHeartbeatReference;
  peer_reported_match_authority : Fact PeerReportedMatchAuthority;
}.
Record NetworkCleanup := mkNetworkCleanup {
  cleanup_lifecycle : NetworkLifecycle;
  requested_at : Fact UnixMillis;
  delete_acknowledged_at : Fact UnixMillis;
  absence_confirmed_at : Fact UnixMillis;
  participant_safe_reason : ParticipantCleanupReason;
}.
Record LobbyNetworkView := mkLobbyNetworkView {
  view_schema_version : Z;
  view_lobby_id : LobbyId;
  served_at : UnixMillis;
  truth_label : NetworkTruthLabel;
  backing : NetworkBacking;
  lobby_lifecycle : Fact InspectedLobbyLifecycle;
  counts : NetworkCounts;
  routes : RouteAggregate;
  application_quality : ApplicationQuality;
  view_authority : NetworkAuthority;
  view_cleanup : NetworkCleanup;
}.

(** ** The check *)

Inductive NetworkViewValidationError :=
| UnsupportedSchemaVersion (value : Z)
| UnknownEnum (field : string)
| InvalidFact (field : string) (error : FactValidationError)
| FactReceivedAfterServedAt (field : string)
| InvalidFactProvenance (field : string)
| RequiredKnownFact (field : string)
| FactMustBeNotApplicable (field : string)
| InvalidFactFreshness (field : string) (expected actual : Freshness)
| ZeroNetworkGeneration
| ControlServiceMembershipMustBeFalse
| BackingModeMismatch
| CountExceeds (field : string) (value maximum : Z)
| ArithmeticOverflow (field : string)
| ExpectedDirectionCountMismatch (roster expected : Z) (actual : option Z)
| IncompleteRouteAggregate
| ReportedDirectionCountMismatch (expected actual : Z)
| ReachableCountMismatch (expected actual : Z)
| DirectRatioMismatch (expected : Z) (actual : option Z)
| QualityWithoutSamples
| IncompleteApplicationQuality
| MetricOutOfRange (field : string) (maximum value : Z)
| InvalidRttOrdering (median p95 worst : Z)
| InvalidFormulaVersion
| InvalidAuthorityInputAssurance (invalid : FactAssurance)
| AuthorityTimestampMismatch (field : string)
| AuthorityReportCountMismatch (fresh agreement conflict : Z)
| CleanupLifecycleMismatch (of_backing of_cleanup : NetworkLifecycle)
| CleanupTimestampOrder
| CleanupReasonMismatch (lifecycle : NetworkLifecycle) (reason : ParticipantCleanupReason).

Abbreviation verdict := (result unit (fault NetworkViewValidationError)) (only parsing).
Definition panicked : verdict := Err Panicked.
Definition reject_if (b : bool) (e : NetworkViewValidationError) : verdict := refuse_if b (Raised e).
Definition loop {A} (l : list A) (f : A -> list verdict) : verdict := checks (map (fun a => checks (f a)) l).

Definition validate_fact {T} (field : string) (f : Fact T) (served : UnixMillis) : verdict :=
  checks [
    map_err (fun e => Raised (InvalidFact field e)) (fact_validate f);
    reject_if (is_some_and (received_at f) (fun received => received >? served)) (FactReceivedAfterServedAt field)].
Definition provenance_is {T} (f : Fact T) (s : FactSource) (a : FactAssurance) : bool :=
  negb (is_some (fact_value f) && ((source f <>?? s) || (assurance f <>?? a))).
Definition require_known_provenance {T} (field : string) (f : Fact T) (s : FactSource) (a : FactAssurance) : verdict :=
  reject_if (negb (provenance_is f s a)) (InvalidFactProvenance field).
Definition require_not_applicable {T} `{EqDecision T} (field : string) (f : Fact T) : verdict :=
  reject_if (f <>?? fact_not_applicable) (FactMustBeNotApplicable field).
Definition require_dns_name_for_active_backing (b : NetworkBacking) : verdict :=
  reject_if (match network_lifecycle b with Active | CleanupRequested | NetCleanupPending | VerifyingAbsence => true | _ => false end
             && is_none (fact_value (tailnet_dns_name b)))
    (RequiredKnownFact "backing.tailnet_dns_name").
Definition validate_formula_version (value : list Z) : verdict :=
  reject_if ((length value =? 0)%nat || (64 <? length value)%nat
             || negb (forallb (fun b => is_ascii_alphanumeric b || (b =? 95) || (b =? 45) || (b =? 46)) value))
    InvalidFormulaVersion.

Definition backing_matches (v : LobbyNetworkView) (label : NetworkTruthLabel) (simulates : option BackingMode)
    (i : NetworkIsolation) (lifecycle_ok : bool) : verdict :=
  reject_if ((truth_label v <>?? label) || (simulates_mode (backing v) <>?? simulates) || (isolation (backing v) <>?? i) || negb lifecycle_ok)
    BackingModeMismatch.

Definition validate_backing (v : LobbyNetworkView) : verdict :=
  let b := backing v in
  checks [
    reject_if (network_generation b =? 0) ZeroNetworkGeneration;
    loop [("backing.backing_mode", backing_mode b =?? BackingUnknown);
          ("backing.isolation", isolation b =?? IsolationUnknown);
          ("backing.network_lifecycle", network_lifecycle b =?? LifecycleUnknown)]%string
      (fun '(field, unknown) => [reject_if unknown (UnknownEnum field)]);
    reject_if (simulates_mode b =?? Some BackingUnknown) (UnknownEnum "backing.simulates_mode");
    validate_fact "backing.tailnet_dns_name" (tailnet_dns_name b) (served_at v);
    validate_fact "backing.control_service_member" (control_service_member b) (served_at v);
    require_known_provenance "backing.control_service_member" (control_service_member b) ControlStore Authoritative;
    reject_if (fact_value (control_service_member b) <>?? Some false) ControlServiceMembershipMustBeFalse;
    reject_if (freshness (control_service_member b) <>?? Current)
      (InvalidFactFreshness "backing.control_service_member" Current (freshness (control_service_member b)));
    reject_if (is_some (fact_value (tailnet_dns_name b))
               && negb (match source (tailnet_dns_name b), assurance (tailnet_dns_name b) with
                        | ProviderApi, Authoritative | ControlStore, Authoritative => true
                        | _, _ => false
                        end))
      (InvalidFactProvenance "backing.tailnet_dns_name");
    match backing_mode b with
    | BackingDryRun =>
        checks [
          backing_matches v SimulatedNoTailnet (Some BackingTailnetPerLobby) IsolationSimulated (network_lifecycle b =?? Simulated);
          require_not_applicable "backing.tailnet_dns_name" (tailnet_dns_name b)]
    | BackingSharedTailnet =>
        checks [
          backing_matches v RealSharedCompatibility None IsolationShared
            (match network_lifecycle b with Simulated | DedicatedAbsent => false | _ => true end);
          require_dns_name_for_active_backing b]
    | BackingTailnetPerLobby =>
        checks [
          backing_matches v RealDedicatedTailnet None IsolationDedicated
            (match network_lifecycle b with Simulated | SharedResourcesClean => false | _ => true end);
          require_dns_name_for_active_backing b;
          match network_lifecycle b with
          | CreateRejected | DedicatedAbsent => require_not_applicable "backing.tailnet_dns_name" (tailnet_dns_name b)
          | _ => Ok tt
          end]
    | BackingUnknown => panicked
    end].

(** [u32] products and sums that may overflow. *)
Definition checked_mul (w a b : Z) : option Z := if a * b <? 2 ^ w then Some (a * b) else None.
Definition directions (n : Z) : option Z := checked_mul 32 n (saturating_sub n 1).
Definition checked_sum (l : list Z) : option Z :=
  fold_left (fun acc n => match acc with Some a => checked_add 32 a n | None => None end) l (Some 0).

Definition bounded (field : string) (value : option Z) (maximum : Z) : verdict :=
  reject_if (is_some_and value (fun n => n >? maximum)) (CountExceeds field (default 0 value) maximum).

Definition count_fields (c : NetworkCounts) : list (string * Fact Z) :=
  [("counts.roster_count", roster_count c);
   ("counts.provider_enrolled_device_count", provider_enrolled_device_count c);
   ("counts.provider_online_device_count", provider_online_device_count c);
   ("counts.fresh_reporter_count", fresh_reporter_count c);
   ("counts.fresh_directional_observation_count", fresh_directional_observation_count c)]%string.

Definition validate_counts (v : LobbyNetworkView) : verdict :=
  let c := counts v in
  checks [
    loop (count_fields c) (fun '(field, f) => [validate_fact field f (served_at v)]);
    require_known_provenance "counts.roster_count" (roster_count c) ControlStore Authoritative;
    match fact_value (roster_count c) with
    | None => Err (Raised (RequiredKnownFact "counts.roster_count"))
    | Some roster =>
        checks [
          reject_if (roster >? MAX_PLAYERS) (CountExceeds "counts.roster_count" roster MAX_PLAYERS);
          loop [("counts.provider_enrolled_device_count", provider_enrolled_device_count c);
                ("counts.provider_online_device_count", provider_online_device_count c)]%string
            (fun '(field, f) => [require_known_provenance field f ProviderApi Observed]);
          loop [("counts.fresh_reporter_count", fresh_reporter_count c);
                ("counts.fresh_directional_observation_count", fresh_directional_observation_count c)]%string
            (fun '(field, f) => [require_known_provenance field f SourceDerived AssuranceDerived]);
          bounded "counts.fresh_reporter_count" (fact_value (fresh_reporter_count c)) roster;
          match directions roster with
          | None => Err (Raised (ArithmeticOverflow "counts.fresh_directional_observation_count"))
          | Some maximum =>
              bounded "counts.fresh_directional_observation_count" (fact_value (fresh_directional_observation_count c)) maximum
          end;
          match fact_value (provider_enrolled_device_count c) with
          | Some enrolled => bounded "counts.provider_online_device_count" (fact_value (provider_online_device_count c)) enrolled
          | None => Ok tt
          end;
          if backing_mode (backing v) =?? BackingDryRun
          then checks [require_not_applicable "counts.provider_enrolled_device_count" (provider_enrolled_device_count c);
                       require_not_applicable "counts.provider_online_device_count" (provider_online_device_count c)]
          else Ok tt]
    end].

Definition route_fields (r : RouteAggregate) : list (string * Fact Z) :=
  [("routes.expected_direction_count", expected_direction_count r);
   ("routes.reported_direction_count", reported_direction_count r);
   ("routes.direct_count", aggregate_direct_count r);
   ("routes.peer_relay_count", aggregate_peer_relay_count r);
   ("routes.derp_relay_count", derp_relay_count r);
   ("routes.unavailable_count", aggregate_unavailable_count r);
   ("routes.unknown_count", unknown_count r);
   ("routes.reachable_known_count", reachable_known_count r);
   ("routes.direct_ratio_milli", direct_ratio_milli r)]%string.
Definition class_values (r : RouteAggregate) : list (option Z) :=
  [fact_value (reported_direction_count r); fact_value (aggregate_direct_count r); fact_value (aggregate_peer_relay_count r);
   fact_value (derp_relay_count r); fact_value (aggregate_unavailable_count r); fact_value (unknown_count r);
   fact_value (reachable_known_count r)].

(** [numerator / reachable] on [u64], converted to [u32]. *)
Definition ratio_of (direct reachable : Z) : option Z := try_from_uint 32 (DIRECT_RATIO_MILLI_SCALE * direct / reachable).

Definition validate_ratio (r : RouteAggregate) (direct reachable : Z) : verdict :=
  if reachable =? 0 then require_not_applicable "routes.direct_ratio_milli" (direct_ratio_milli r)
  else match ratio_of direct reachable with
       | None => panicked
       | Some expected =>
           reject_if (fact_value (direct_ratio_milli r) <>?? Some expected) (DirectRatioMismatch expected (fact_value (direct_ratio_milli r)))
       end.

(** The sums over the seven class values, all known. *)
Definition validate_route_sums (r : RouteAggregate) (reported direct peer_relay derp_relay unavailable unknown reachable : Z) : verdict :=
  match checked_sum [direct; peer_relay; derp_relay; unavailable; unknown] with
  | None => Err (Raised (ArithmeticOverflow "routes.reported_direction_count"))
  | Some class_sum =>
      checks [
        reject_if (negb (reported =? class_sum)) (ReportedDirectionCountMismatch class_sum reported);
        match checked_sum [direct; peer_relay; derp_relay] with
        | None => Err (Raised (ArithmeticOverflow "routes.reachable_known_count"))
        | Some reachable_sum => reject_if (negb (reachable =? reachable_sum)) (ReachableCountMismatch reachable_sum reachable)
        end;
        match fact_value (expected_direction_count r) with
        | None => panicked
        | Some expected => reject_if (reported >? expected) (CountExceeds "routes.reported_direction_count" reported expected)
        end;
        validate_ratio r direct reachable]
  end.

Definition validate_routes (v : LobbyNetworkView) : verdict :=
  let r := routes v in
  let known_count := length (filter (fun value => is_some value = true) (class_values r)) in
  checks [
    loop (route_fields r) (fun '(field, f) =>
      [validate_fact field f (served_at v); require_known_provenance field f SourceDerived AssuranceDerived]);
    reject_if (is_none (fact_value (expected_direction_count r))) (RequiredKnownFact "routes.expected_direction_count");
    reject_if (negb (known_count =? 0)%nat && negb (known_count =? length (class_values r))%nat) IncompleteRouteAggregate;
    if (known_count =? 0)%nat
    then reject_if (is_some (fact_value (direct_ratio_milli r))) IncompleteRouteAggregate
    else
      match class_values r with
      | [Some reported; Some direct; Some peer_relay; Some derp_relay; Some unavailable; Some unknown; Some reachable] =>
          validate_route_sums r reported direct peer_relay derp_relay unavailable unknown reachable
      | _ => panicked
      end].

Definition quality_fields (q : ApplicationQuality) : list (string * Fact Z) :=
  [("application_quality.sample_count", sample_count q);
   ("application_quality.application_rtt_ms_median", application_rtt_ms_median q);
   ("application_quality.application_rtt_ms_p95", application_rtt_ms_p95 q);
   ("application_quality.application_rtt_ms_worst", application_rtt_ms_worst q);
   ("application_quality.application_loss_ppm_median", application_loss_ppm_median q)]%string.
Definition metrics (q : ApplicationQuality) : list (option Z) :=
  [fact_value (application_rtt_ms_median q); fact_value (application_rtt_ms_p95 q); fact_value (application_rtt_ms_worst q);
   fact_value (application_loss_ppm_median q)].
Definition metric_bounded (field : string) (value : option Z) (maximum : Z) : verdict :=
  reject_if (is_some_and value (fun n => n >? maximum)) (MetricOutOfRange field maximum (default 0 value)).

Definition validate_application_quality (v : LobbyNetworkView) : verdict :=
  let q := application_quality v in
  checks [
    loop (quality_fields q) (fun '(field, f) =>
      [validate_fact field f (served_at v); require_known_provenance field f SourceDerived AssuranceDerived]);
    match fact_value (sample_count q) with
    | Some 0 | None => reject_if (existsb is_some (metrics q)) QualityWithoutSamples
    | Some _ => reject_if (existsb is_none (metrics q)) IncompleteApplicationQuality
    end;
    loop [("application_quality.application_rtt_ms_median", fact_value (application_rtt_ms_median q));
          ("application_quality.application_rtt_ms_p95", fact_value (application_rtt_ms_p95 q));
          ("application_quality.application_rtt_ms_worst", fact_value (application_rtt_ms_worst q))]%string
      (fun '(field, value) => [metric_bounded field value MAX_APPLICATION_RTT_MS]);
    metric_bounded "application_quality.application_loss_ppm_median" (fact_value (application_loss_ppm_median q)) MAX_APPLICATION_LOSS_PPM;
    match fact_value (application_rtt_ms_median q), fact_value (application_rtt_ms_p95 q), fact_value (application_rtt_ms_worst q) with
    | Some median, Some p95, Some worst => reject_if ((median >? p95) || (p95 >? worst)) (InvalidRttOrdering median p95 worst)
    | _, _, _ => Ok tt
    end].

Definition validate_election (a : NetworkAuthority) : verdict :=
  match fact_value (control_election a) with
  | None => Ok tt
  | Some election =>
      checks [
        require_known_provenance "authority.control_election" (control_election a) SourceDerived Authoritative;
        validate_formula_version (election_formula_version election);
        reject_if (election_score_milli election >? DIRECT_RATIO_MILLI_SCALE)
          (MetricOutOfRange "authority.control_election.score_milli" DIRECT_RATIO_MILLI_SCALE (election_score_milli election));
        reject_if (match input_assurance election with Authoritative | AssuranceUnknown => true | _ => false end)
          (InvalidAuthorityInputAssurance (input_assurance election));
        reject_if (as_of (control_election a) <>?? Some (evaluated_at election))
          (AuthorityTimestampMismatch "authority.control_election.evaluated_at")]
  end.
Definition validate_heartbeat (a : NetworkAuthority) : verdict :=
  match fact_value (last_accepted_heartbeat a) with
  | None => Ok tt
  | Some heartbeat =>
      checks [
        require_known_provenance "authority.last_accepted_heartbeat" (last_accepted_heartbeat a) ControlStore Authoritative;
        reject_if (received_at (last_accepted_heartbeat a) <>?? Some (heartbeat_received_at heartbeat))
          (AuthorityTimestampMismatch "authority.last_accepted_heartbeat.received_at")]
  end.
Definition validate_peer_report (a : NetworkAuthority) : verdict :=
  match fact_value (peer_reported_match_authority a) with
  | None => Ok tt
  | Some report =>
      checks [
        require_known_provenance "authority.peer_reported_match_authority" (peer_reported_match_authority a) ParticipantReport Reported;
        match checked_add 32 (agreement_count report) (conflict_count report) with
        | None => Err (Raised (ArithmeticOverflow "authority.peer_reported_match_authority"))
        | Some classified =>
            reject_if (classified >? reporters report)
              (AuthorityReportCountMismatch (reporters report) (agreement_count report) (conflict_count report))
        end]
  end.
Definition validate_authority (v : LobbyNetworkView) : verdict :=
  let a := view_authority v in
  checks [
    validate_fact "authority.control_election" (control_election a) (served_at v);
    validate_fact "authority.last_accepted_heartbeat" (last_accepted_heartbeat a) (served_at v);
    validate_fact "authority.peer_reported_match_authority" (peer_reported_match_authority a) (served_at v);
    validate_election a;
    validate_heartbeat a;
    validate_peer_report a].

Definition in_order (earlier later : option UnixMillis) : bool :=
  match earlier, later with Some e, Some l => negb (l <? e) | _, _ => true end.
Definition cleanup_fields (c : NetworkCleanup) : list (string * Fact UnixMillis) :=
  [("cleanup.requested_at", requested_at c);
   ("cleanup.delete_acknowledged_at", delete_acknowledged_at c);
   ("cleanup.absence_confirmed_at", absence_confirmed_at c)]%string.
Definition reason_valid (c : NetworkCleanup) : bool :=
  let reason := participant_safe_reason c in
  let requested := is_some (fact_value (requested_at c)) in
  match cleanup_lifecycle c with
  | Simulated => reason =?? CleanupSimulatedNoTailnet
  | NetReserved | Creating | Active | CreateRejected => reason =?? NotRequested
  | CreateUnknown | ManualRemediation => reason =?? ManualRemediationRequired
  | CleanupRequested => (reason =?? CleanupIsRequested) && requested
  | NetCleanupPending => (reason =?? CleanupIsPending) && requested
  | VerifyingAbsence =>
      (reason =?? VerifyingExactAbsence) && requested
      && is_some (fact_value (delete_acknowledged_at c)) && is_none (fact_value (absence_confirmed_at c))
  | DedicatedAbsent => (reason =?? DedicatedTailnetAbsent) && is_some (fact_value (absence_confirmed_at c))
  | SharedResourcesClean => reason =?? CleanupSharedResourcesClean
  | LifecycleUnknown => false
  end.
Definition validate_cleanup (v : LobbyNetworkView) : verdict :=
  let c := view_cleanup v in
  let requested := fact_value (requested_at c) in
  let acknowledged := fact_value (delete_acknowledged_at c) in
  let absent := fact_value (absence_confirmed_at c) in
  checks [
    reject_if (cleanup_lifecycle c <>?? network_lifecycle (backing v))
      (CleanupLifecycleMismatch (network_lifecycle (backing v)) (cleanup_lifecycle c));
    reject_if (participant_safe_reason c =?? CleanupReasonUnknown) (UnknownEnum "cleanup.participant_safe_reason");
    loop (cleanup_fields c) (fun '(field, f) =>
      [validate_fact field f (served_at v); require_known_provenance field f ControlStore Authoritative]);
    reject_if (negb (in_order requested acknowledged)) CleanupTimestampOrder;
    reject_if (negb (in_order acknowledged absent)) CleanupTimestampOrder;
    reject_if (negb (in_order requested absent)) CleanupTimestampOrder;
    reject_if (negb (reason_valid c)) (CleanupReasonMismatch (cleanup_lifecycle c) (participant_safe_reason c));
    if cleanup_lifecycle c =?? Simulated
    then loop (cleanup_fields c) (fun '(field, f) => [require_not_applicable field f])
    else Ok tt].

Definition view_validate (v : LobbyNetworkView) : verdict :=
  checks [
    reject_if (negb (view_schema_version v =? LOBBY_NETWORK_SCHEMA_VERSION)) (UnsupportedSchemaVersion (view_schema_version v));
    reject_if (truth_label v =?? LabelUnknown) (UnknownEnum "truth_label");
    validate_backing v;
    validate_fact "lobby_lifecycle" (lobby_lifecycle v) (served_at v);
    require_known_provenance "lobby_lifecycle" (lobby_lifecycle v) ControlStore Authoritative;
    match fact_value (lobby_lifecycle v) with
    | None => Err (Raised (RequiredKnownFact "lobby_lifecycle"))
    | Some lifecycle => reject_if (lifecycle =?? InspectedUnknown) (UnknownEnum "lobby_lifecycle.value")
    end;
    validate_counts v;
    match fact_value (roster_count (counts v)) with
    | None => panicked
    | Some roster =>
        match directions roster with
        | None => Err (Raised (ArithmeticOverflow "routes.expected_direction_count"))
        | Some expected =>
            reject_if (fact_value (expected_direction_count (routes v)) <>?? Some expected)
              (ExpectedDirectionCountMismatch roster expected (fact_value (expected_direction_count (routes v))))
        end
    end;
    validate_routes v;
    validate_application_quality v;
    validate_authority v;
    validate_cleanup v;
    match fact_value (sample_count (application_quality v)), fact_value (reported_direction_count (routes v)) with
    | Some samples, Some reported => reject_if (samples >? reported) (CountExceeds "application_quality.sample_count" samples reported)
    | _, _ => Ok tt
    end;
    match fact_value (peer_reported_match_authority (view_authority v)), fact_value (roster_count (counts v)) with
    | Some report, Some roster =>
        reject_if (reporters report >? roster)
          (CountExceeds "authority.peer_reported_match_authority.fresh_reporter_count" (reporters report) roster)
    | _, _ => Ok tt
    end].
