(* ===== verification/NetworkInspectionRun.v ===== *)
(** * What the checks of the inspection view establish

    A DNS name is canonical once parsed; the check of a view cannot panic; a view that
    passes tells simulation, shared and dedicated networks apart, claims nothing for a
    network that does not exist, and its numbers add up. *)

From Stdlib Require Import Strings.String.
From S2P Require Import Prelude MachineInt Bytes Clock Identifiers LobbyLifecycle Model NetworkInspection.
Open Scope Z_scope.

(** ** Sequences of checks *)

Lemma refuse_if_Ok {E} b (e : E) : refuse_if b e = Ok tt <-> b = false.
Proof. unfold refuse_if. by destruct b. Qed.
Lemma reject_if_Ok b e : reject_if b e = Ok tt <-> b = false.
Proof. apply refuse_if_Ok. Qed.

Lemma checks_cons {E} (r : result unit E) l : checks (r :: l) = Ok tt <-> r = Ok tt /\ checks l = Ok tt.
Proof. destruct r as [[]|]; simpl; naive_solver. Qed.
Lemma checks_nil {E} : @checks E [] = Ok tt <-> True.
Proof. done. Qed.
Lemma checks_Ok {E} (l : list (result unit E)) : checks l = Ok tt <-> Forall (fun r => r = Ok tt) l.
Proof. induction l as [|r l IH]; [split; [constructor|done]|]. rewrite checks_cons, Forall_cons. naive_solver. Qed.
Lemma loop_nil {A} (f : A -> list verdict) : loop [] f = Ok tt <-> True.
Proof. done. Qed.
Lemma loop_cons {A} a (l : list A) f : loop (a :: l) f = Ok tt <-> checks (f a) = Ok tt /\ loop l f = Ok tt.
Proof. unfold loop. simpl map. apply checks_cons. Qed.

(** No error of the list is a panic. *)
Definition calm (r : verdict) : Prop := r <> Err Panicked.
Lemma checks_calm_cons r l : calm r -> (r = Ok tt -> calm (checks l)) -> calm (checks (r :: l)).
Proof. unfold calm. destruct r as [[]|e]; simpl; [intros _ Hl; by apply Hl|done]. Qed.
Lemma checks_calm_nil : calm (checks []).
Proof. done. Qed.
Lemma loop_calm {A} (l : list A) f : Forall (fun a => calm (checks (f a))) l -> calm (loop l f).
Proof. unfold loop. induction 1 as [|a l Ha Hl IH]; [done|]. simpl map. by apply checks_calm_cons. Qed.
Lemma reject_calm b e : calm (reject_if b e).
Proof. unfold calm, reject_if, refuse_if. by destruct b. Qed.
Lemma raised_calm e : calm (Err (Raised e)).
Proof. done. Qed.
Lemma ok_calm : calm (Ok tt).
Proof. done. Qed.
Lemma validate_fact_calm {T} field (f : Fact T) served : calm (validate_fact field f served).
Proof.
  unfold validate_fact. apply checks_calm_cons; [unfold map_err; by destruct (fact_validate f)|intros _].
  apply checks_calm_cons; [apply reject_calm|done].
Qed.

Create HintDb calm.
#[export] Hint Resolve reject_calm raised_calm ok_calm validate_fact_calm checks_calm_nil : calm.
#[export] Hint Unfold require_known_provenance require_not_applicable require_dns_name_for_active_backing
  validate_formula_version backing_matches bounded metric_bounded : calm.

(** Go through a list of checks; what is left are the branches. *)
Ltac calm_step :=
  lazymatch goal with
  | |- calm (checks (_ :: _)) => apply checks_calm_cons; [|intros _]
  | |- calm (checks []) => exact checks_calm_nil
  | |- calm (loop _ _) => apply loop_calm; unfold count_fields, route_fields, quality_fields, cleanup_fields; repeat (apply Forall_cons; split); try (apply Forall_nil; exact I); cbv beta iota
  | |- calm (if ?b then _ else _) => destruct b
  | |- calm (match ?o with _ => _ end) => destruct o
  | |- calm (require_known_provenance _ _ _ _) => apply reject_calm
  | |- calm (require_not_applicable _ _) => apply reject_calm
  | |- calm (require_dns_name_for_active_backing _) => apply reject_calm
  | |- calm (validate_formula_version _) => apply reject_calm
  | |- calm (backing_matches _ _ _ _ _) => apply reject_calm
  | |- calm (bounded _ _ _) => apply reject_calm
  | |- calm (metric_bounded _ _ _) => apply reject_calm
  | |- calm (reject_if _ _) => apply reject_calm
  | |- calm (validate_fact _ _ _) => apply validate_fact_calm
  | |- calm (Ok _) => done
  | |- calm (Err (Raised _)) => done
  end.

Definition u32_fact (f : Fact Z) : Prop := forall n, fact_value f = Some n -> in_uint 32 n.
(** The counts of a decoded view are [u32]. *)
Definition routes_typed (r : RouteAggregate) : Prop := Forall (fun p => u32_fact p.2) (route_fields r).

Lemma checked_sum_Some l s :
  Forall (fun n => 0 <= n) l -> checked_sum l = Some s -> s = foldr Z.add 0 l /\ 0 <= s < 2 ^ 32.
Proof.
  unfold checked_sum. assert (Hgen : forall a, 0 <= a < 2 ^ 32 -> Forall (fun n => 0 <= n) l ->
    fold_left (fun acc n => match acc with Some a => checked_add 32 a n | None => None end) l (Some a) = Some s ->
    s = a + foldr Z.add 0 l /\ 0 <= s < 2 ^ 32).
  { induction l as [|n l IH]; intros a Ha Hl Hs; simpl in *; [injection Hs as <-; lia|].
    apply Forall_cons in Hl as [Hn Hl]. destruct (checked_add 32 a n) as [b|] eqn:Hb.
    - apply checked_add_Some in Hb as [-> Hb]. destruct (IH (a + n) ltac:(lia) Hl Hs) as [-> ?]. lia.
    - exfalso. clear -Hs. induction l as [|m l IH]; simpl in Hs; [done|by apply IH]. }
  intros Hl Hs. by apply (Hgen 0 ltac:(lia) Hl) in Hs as [-> ?].
Qed.

Lemma validate_ratio_calm r direct reachable :
  0 <= direct -> direct <= reachable -> calm (validate_ratio r direct reachable).
Proof.
  intros Hd Hle. unfold validate_ratio. destruct (Z.eqb_spec reachable 0); [apply reject_calm|].
  unfold ratio_of. rewrite try_from_uint_ok; [apply reject_calm|]. unfold in_uint, DIRECT_RATIO_MILLI_SCALE. split.
  - apply Z.div_pos; lia.
  - apply Z.div_lt_upper_bound; nia.
Qed.

Lemma known_all (l : list (option Z)) :
  length (filter (fun value => is_some value = true) l) = length l -> Forall (fun o => exists n, o = Some n) l.
Proof.
  induction l as [|[n|] l IH]; [constructor| |]; intros Hl.
  - rewrite filter_cons_True in Hl by done. constructor; [by exists n|]. apply IH. simpl in Hl. lia.
  - rewrite filter_cons_False in Hl by done. pose proof (length_filter (fun value : option Z => is_some value = true) l). simpl in Hl. lia.
Qed.

Lemma class_values_known r :
  length (filter (fun value => is_some value = true) (class_values r)) = length (class_values r) ->
  exists a b c d e f g, class_values r = [Some a; Some b; Some c; Some d; Some e; Some f; Some g] /\
    fact_value (reported_direction_count r) = Some a /\ fact_value (aggregate_direct_count r) = Some b /\
    fact_value (aggregate_peer_relay_count r) = Some c /\ fact_value (derp_relay_count r) = Some d /\
    fact_value (aggregate_unavailable_count r) = Some e /\ fact_value (unknown_count r) = Some f /\
    fact_value (reachable_known_count r) = Some g.
Proof.
  intros Hall%known_all. unfold class_values in *. repeat (apply Forall_cons in Hall as [(? & Heq) Hall]; rewrite Heq; clear Heq).
  repeat eexists.
Qed.

Lemma validate_routes_calm v : routes_typed (routes v) -> calm (validate_routes v).
Proof.
  intros Htyped. unfold validate_routes. cbv zeta. apply checks_calm_cons; [repeat calm_step|intros _].
  apply checks_calm_cons; [apply reject_calm|intros Hexp%reject_if_Ok]. apply checks_calm_cons; [apply reject_calm|intros Hk%reject_if_Ok].
  apply checks_calm_cons; [|intros _; done].
  destruct (length _ =? 0)%nat; [apply reject_calm|]. cbn [negb andb] in Hk. apply negb_false_iff, Nat.eqb_eq in Hk.
  destruct (class_values_known _ Hk) as (reported & direct & relay & derp & unav & unk & reach & -> & H1 & H2 & H3 & H4 & H5 & H6 & H7).
  unfold routes_typed, route_fields in Htyped. rewrite !Forall_cons in Htyped.
  destruct Htyped as (_ & _ & Td & Tp & Te & Tu & Tk & Tr & _). cbn [snd] in *.
  apply Td in H2. apply Tp in H3. apply Te in H4. apply Tu in H5. apply Tk in H6. apply Tr in H7. unfold in_uint in *.
  unfold validate_route_sums. destruct (checked_sum [direct; relay; derp; unav; unk]) as [sum|] eqn:Hsum; [|done].
  apply checks_calm_cons; [apply reject_calm|intros _].
  destruct (checked_sum [direct; relay; derp]) as [rsum|] eqn:Hr.
  - apply checks_calm_cons; [apply reject_calm|intros Hreach%reject_if_Ok].
    apply checked_sum_Some in Hr as [-> _]; [|repeat constructor; lia]. simpl in Hreach.
    destruct (fact_value (expected_direction_count _)); [|done]. apply checks_calm_cons; [apply reject_calm|intros _].
    apply checks_calm_cons; [|done]. apply validate_ratio_calm; lia.
  - by apply checks_calm_cons.
Qed.

Lemma validate_backing_calm v : calm (validate_backing v).
Proof.
  unfold validate_backing. cbv zeta. apply checks_calm_cons; [calm_step|intros _].
  apply checks_calm_cons; [repeat calm_step|intros Hloop]. do 7 (apply checks_calm_cons; [calm_step|intros _]).
  apply checks_calm_cons; [|done]. rewrite loop_cons in Hloop. destruct Hloop as [Hm _]. rewrite checks_cons, reject_if_Ok in Hm.
  destruct Hm as [Hm%bool_decide_eq_false _]. destruct (backing_mode (backing v)); [repeat calm_step..|done].
Qed.

Lemma validate_counts_Ok v :
  validate_counts v = Ok tt -> exists roster, fact_value (roster_count (counts v)) = Some roster /\ roster <= MAX_PLAYERS.
Proof.
  unfold validate_counts. cbv zeta. rewrite !checks_cons. intros (_ & _ & Hr & _).
  destruct (fact_value (roster_count (counts v))) as [roster|]; [|done]. rewrite !checks_cons, reject_if_Ok in Hr.
  exists roster. split; [done|]. lia.
Qed.

(** The check of a view never panics. Whatever view was decoded, with its counts
    in [u32], none of the [expect]s and the [unreachable!] of the check fires. *)
Theorem view_check_never_panics v : routes_typed (routes v) -> view_validate v <> Err Panicked.
Proof.
  intros Htyped. change (calm (view_validate v)). unfold view_validate.
  do 2 (apply checks_calm_cons; [calm_step|intros _]). apply checks_calm_cons; [apply validate_backing_calm|intros _].
  do 3 (apply checks_calm_cons; [repeat calm_step|intros _]).
  apply checks_calm_cons; [unfold validate_counts; repeat calm_step|intros (roster & Hr & _)%validate_counts_Ok]. rewrite Hr.
  apply checks_calm_cons; [repeat calm_step|intros _]. apply checks_calm_cons; [by apply validate_routes_calm|intros _].
  apply checks_calm_cons; [unfold validate_application_quality; repeat calm_step|intros _].
  apply checks_calm_cons; [unfold validate_authority, validate_election, validate_heartbeat, validate_peer_report; repeat calm_step|intros _].
  apply checks_calm_cons; [unfold validate_cleanup; repeat calm_step|intros _]. repeat calm_step.
Qed.

(** ** What a view that passes says *)

(** Turn an accepted list of checks into one hypothesis per check. *)
Ltac unpack Hv :=
  rewrite ?checks_cons, ?checks_nil, ?loop_cons, ?loop_nil in Hv; cbv beta iota in Hv; rewrite ?checks_cons, ?checks_nil in Hv.

Lemma not_applicable_Ok {T} `{EqDecision T} field (f : Fact T) :
  require_not_applicable field f = Ok tt <-> f = fact_not_applicable.
Proof. unfold require_not_applicable. rewrite reject_if_Ok, negb_false_iff. apply bool_decide_eq_true. Qed.

Lemma backing_matches_Ok v label simulates i b :
  backing_matches v label simulates i b = Ok tt <->
  truth_label v = label /\ simulates_mode (backing v) = simulates /\ isolation (backing v) = i /\ b = true.
Proof.
  unfold backing_matches. rewrite reject_if_Ok, !orb_false_iff, !negb_false_iff, !bool_decide_eq_true. naive_solver.
Qed.

(** What each mode may be labelled and where its life may stand. *)
Definition mode_truth (v : LobbyNetworkView) : Prop :=
  let b := backing v in
  match backing_mode b with
  | BackingDryRun =>
      truth_label v = SimulatedNoTailnet /\ isolation b = IsolationSimulated /\ network_lifecycle b = Simulated /\
      tailnet_dns_name b = fact_not_applicable /\ provider_enrolled_device_count (counts v) = fact_not_applicable /\
      provider_online_device_count (counts v) = fact_not_applicable /\ requested_at (view_cleanup v) = fact_not_applicable /\
      delete_acknowledged_at (view_cleanup v) = fact_not_applicable /\ absence_confirmed_at (view_cleanup v) = fact_not_applicable
  | BackingSharedTailnet =>
      truth_label v = RealSharedCompatibility /\ isolation b = IsolationShared /\
      network_lifecycle b <> Simulated /\ network_lifecycle b <> DedicatedAbsent
  | BackingTailnetPerLobby =>
      truth_label v = RealDedicatedTailnet /\ isolation b = IsolationDedicated /\
      network_lifecycle b <> Simulated /\ network_lifecycle b <> SharedResourcesClean
  | BackingUnknown => False
  end.

Definition has_backing (l : NetworkLifecycle) : bool :=
  match l with Active | CleanupRequested | NetCleanupPending | VerifyingAbsence => true | _ => false end.

Lemma dns_for_active b :
  require_dns_name_for_active_backing b = Ok tt <->
  (has_backing (network_lifecycle b) = true -> is_some (fact_value (tailnet_dns_name b)) = true).
Proof.
  unfold require_dns_name_for_active_backing, is_none. rewrite reject_if_Ok. change (match network_lifecycle b with
    | Active | CleanupRequested | NetCleanupPending | VerifyingAbsence => true | _ => false end) with (has_backing (network_lifecycle b)).
  destruct (has_backing _), (is_some _); simpl; naive_solver.
Qed.

Lemma cleanup_validated v :
  validate_cleanup v = Ok tt ->
  cleanup_lifecycle (view_cleanup v) = network_lifecycle (backing v) /\ reason_valid (view_cleanup v) = true /\
  in_order (fact_value (requested_at (view_cleanup v))) (fact_value (absence_confirmed_at (view_cleanup v))) = true /\
  in_order (fact_value (delete_acknowledged_at (view_cleanup v))) (fact_value (absence_confirmed_at (view_cleanup v))) = true /\
  (cleanup_lifecycle (view_cleanup v) = Simulated ->
   requested_at (view_cleanup v) = fact_not_applicable /\ delete_acknowledged_at (view_cleanup v) = fact_not_applicable /\
   absence_confirmed_at (view_cleanup v) = fact_not_applicable).
Proof.
  unfold validate_cleanup. cbv zeta. unfold cleanup_fields. rewrite !checks_cons, !reject_if_Ok, !negb_false_iff.
  intros (Hlife%bool_decide_eq_true & _ & _ & _ & Hord2 & Hord3 & Hreason & Hna & _). split_and!; try done.
  intros Hsim. rewrite bool_decide_true in Hna by done. unpack Hna. rewrite !not_applicable_Ok in Hna. naive_solver.
Qed.

(** The inspection view does not lie about what exists. If a view passes its
    check, then its label, its isolation and its lifecycle are those of its mode; a
    dry run shows no DNS name, no device counts and no cleanup times, because nothing
    exists; the control service is never a member; a name that is shown comes
    authoritatively from the provider or the control store, and is shown whenever the
    network is up or being cleaned; and absence is claimed of dedicated networks only,
    with its time, not before the request or the acknowledged deletion, and without a
    name. *)
Theorem valid_view_truthful v :
  view_validate v = Ok tt ->
  let b := backing v in
  let c := view_cleanup v in
  fact_value (control_service_member b) = Some false /\ mode_truth v /\
  (forall name, fact_value (tailnet_dns_name b) = Some name ->
     (source (tailnet_dns_name b) = ProviderApi \/ source (tailnet_dns_name b) = ControlStore) /\
     assurance (tailnet_dns_name b) = Authoritative) /\
  (has_backing (network_lifecycle b) = true -> is_some (fact_value (tailnet_dns_name b)) = true) /\
  (network_lifecycle b = DedicatedAbsent ->
     backing_mode b = BackingTailnetPerLobby /\ tailnet_dns_name b = fact_not_applicable /\
     exists t, fact_value (absence_confirmed_at c) = Some t /\
       (forall r, fact_value (requested_at c) = Some r -> r <= t) /\ (forall a, fact_value (delete_acknowledged_at c) = Some a -> a <= t)).
Proof.
  unfold view_validate. rewrite !checks_cons. intros (_ & _ & Hb & _ & _ & _ & Hc & _ & _ & _ & _ & Hcl & _). cbv zeta.
  apply cleanup_validated in Hcl as (Hlife & Hreason & Hord1 & Hord2 & Hsim).
  unfold validate_backing in Hb. cbv zeta in Hb. rewrite !checks_cons in Hb.
  destruct Hb as (_ & _ & _ & _ & _ & _ & Hmember & _ & Hname & Hmode & _).
  rewrite reject_if_Ok, negb_false_iff, bool_decide_eq_true in Hmember. rewrite reject_if_Ok in Hname.
  assert (Hcounts : backing_mode (backing v) = BackingDryRun ->
    provider_enrolled_device_count (counts v) = fact_not_applicable /\ provider_online_device_count (counts v) = fact_not_applicable).
  { intros Hdry. unfold validate_counts in Hc. cbv zeta in Hc. rewrite !checks_cons in Hc. destruct Hc as (_ & _ & Hr & _).
    destruct (fact_value (roster_count (counts v))); [|done]. rewrite !checks_cons in Hr. destruct Hr as (_ & _ & _ & _ & _ & _ & Hna & _).
    rewrite bool_decide_true in Hna by done. unpack Hna. rewrite !not_applicable_Ok in Hna. naive_solver. }
  assert (Hprov : forall name, fact_value (tailnet_dns_name (backing v)) = Some name ->
    (source (tailnet_dns_name (backing v)) = ProviderApi \/ source (tailnet_dns_name (backing v)) = ControlStore) /\
     assurance (tailnet_dns_name (backing v)) = Authoritative).
  { intros name Hn. rewrite Hn in Hname. simpl in Hname. destruct (source _), (assurance _); naive_solver. }
  assert (Habs : network_lifecycle (backing v) = DedicatedAbsent -> exists t, fact_value (absence_confirmed_at (view_cleanup v)) = Some t /\
       (forall r, fact_value (requested_at (view_cleanup v)) = Some r -> r <= t) /\
       (forall a, fact_value (delete_acknowledged_at (view_cleanup v)) = Some a -> a <= t)).
  { intros Hda. unfold reason_valid in Hreason. rewrite Hlife, Hda in Hreason. apply andb_true_iff in Hreason as [_ Ha].
    destruct (fact_value (absence_confirmed_at (view_cleanup v))) as [t|]; [|done]. exists t. split; [done|].
    unfold in_order in *. split; intros x Hx; rewrite Hx in *; lia. }
  unfold mode_truth. cbv zeta.
  destruct (backing_mode (backing v)) eqn:Hm; [| | |done]; unpack Hmode; rewrite backing_matches_Ok in Hmode;
    destruct Hmode as [(Hlabel & Hsims & Hiso & Hl) Hmode].
  - apply bool_decide_eq_true in Hl. rewrite not_applicable_Ok in Hmode. destruct Hmode as [Hdns _].
    destruct (Hcounts eq_refl) as [He Ho]. destruct (Hsim ltac:(congruence)) as (Hr & Ha & Hab). rewrite Hl. split_and!; done.
  - destruct Hmode as [Hdns _]. rewrite dns_for_active in Hdns. destruct (network_lifecycle (backing v)) eqn:Hn; try done; split_and!; done.
  - destruct Hmode as (Hdns & Hna & _). rewrite dns_for_active in Hdns.
    destruct (network_lifecycle (backing v)) eqn:Hn; try done; split_and!; try done. intros _. rewrite not_applicable_Ok in Hna. split_and!; [done..|by apply Habs].
Qed.

(** ** The numbers *)

Lemma bounded_Ok field value maximum : bounded field value maximum = Ok tt <-> (forall n, value = Some n -> n <= maximum).
Proof.
  unfold bounded. rewrite reject_if_Ok, is_some_and_false. split; intros Hv n Hn; [apply Hv in Hn|specialize (Hv n Hn)]; lia.
Qed.

Lemma directions_of n : 0 <= n <= MAX_PLAYERS -> directions n = Some (n * (n - 1)).
Proof.
  unfold directions, checked_mul, saturating_sub, MAX_PLAYERS. intros Hn.
  assert (Hmul : n * Z.max (n - 1) 0 = n * (n - 1)) by nia.
  rewrite Hmul. destruct (Z.ltb_spec (n * (n - 1)) (2 ^ 32)); [done|nia].
Qed.

(** The sums of a coherent aggregate over [maximum] directions. *)
Definition routes_add_up (r : RouteAggregate) (maximum : Z) : Prop :=
  match class_values r with
  | [Some reported; Some direct; Some peer_relay; Some derp_relay; Some unavailable; Some unknown; Some reachable] =>
      reported = direct + peer_relay + derp_relay + unavailable + unknown /\ reported <= maximum /\
      reachable = direct + peer_relay + derp_relay /\
      (reachable = 0 -> direct_ratio_milli r = fact_not_applicable) /\
      (0 < reachable -> exists ratio, fact_value (direct_ratio_milli r) = Some ratio /\
         ratio * reachable <= 1000 * direct < (ratio + 1) * reachable /\ 0 <= ratio <= 1000)
  | [None; None; None; None; None; None; None] => fact_value (direct_ratio_milli r) = None
  | _ => False
  end.

Lemma ratio_adds_up r direct reachable :
  0 <= direct <= reachable -> validate_ratio r direct reachable = Ok tt ->
  (reachable = 0 -> direct_ratio_milli r = fact_not_applicable) /\
  (0 < reachable -> exists ratio, fact_value (direct_ratio_milli r) = Some ratio /\
     ratio * reachable <= 1000 * direct < (ratio + 1) * reachable /\ 0 <= ratio <= 1000).
Proof.
  intros Hd. unfold validate_ratio. destruct (Z.eqb_spec reachable 0) as [Hz|Hz].
  - rewrite not_applicable_Ok. intros Hna. split; [done|lia].
  - assert (Hpos : 0 < reachable) by lia. pose proof (Z.mul_div_le (1000 * direct) reachable Hpos) as Hle.
    pose proof (Z.mul_succ_div_gt (1000 * direct) reachable Hpos) as Hgt.
    assert (Hub : 1000 * direct / reachable <= 1000) by (apply Z.div_le_upper_bound; nia).
    assert (Hlb : 0 <= 1000 * direct / reachable) by (apply Z.div_pos; lia).
    unfold ratio_of, DIRECT_RATIO_MILLI_SCALE. rewrite try_from_uint_ok by (unfold in_uint; lia).
    rewrite reject_if_Ok, negb_false_iff, bool_decide_eq_true. intros ->. split; [lia|]. intros _. eexists. split; [done|]. split; nia.
Qed.

Lemma routes_validated v maximum :
  routes_typed (routes v) -> fact_value (expected_direction_count (routes v)) = Some maximum -> validate_routes v = Ok tt ->
  routes_add_up (routes v) maximum.
Proof.
  intros Htyped Hexp. unfold validate_routes. cbv zeta. rewrite !checks_cons. intros (_ & _ & Hk & Hr & _). unfold routes_add_up.
  destruct (length _ =? 0)%nat eqn:Hz.
  - rewrite reject_if_Ok in Hr. apply Nat.eqb_eq, nil_length_inv in Hz.
    assert (Hnone : Forall (fun o => o = None) (class_values (routes v))).
    { apply Forall_forall. intros [n|] Ho; [|done]. exfalso. assert (Hin : Some n ∈ filter (fun value => is_some value = true) (class_values (routes v)))
        by (apply list_elem_of_filter; done). rewrite Hz in Hin. by apply elem_of_nil in Hin. }
    unfold class_values in *. rewrite !Forall_cons in Hnone. destruct Hnone as (-> & -> & -> & -> & -> & -> & -> & _).
    by destruct (fact_value (direct_ratio_milli (routes v))).
  - rewrite reject_if_Ok in Hk. cbn [negb andb] in Hk. apply negb_false_iff, Nat.eqb_eq in Hk.
    destruct (class_values_known _ Hk) as (reported & direct & relay & derp & unav & unk & reach & Hc & E1 & E2 & E3 & E4 & E5 & E6 & E7).
    rewrite Hc in Hr |- *. unfold routes_typed, route_fields in Htyped. rewrite !Forall_cons in Htyped.
    destruct Htyped as (_ & _ & Td & Tp & Te & Tu & Tk & _). cbn [snd] in *.
    apply Td in E2. apply Tp in E3. apply Te in E4. apply Tu in E5. apply Tk in E6. unfold in_uint in *.
    unfold validate_route_sums in Hr. destruct (checked_sum [direct; relay; derp; unav; unk]) as [sum|] eqn:Hsum; [|done].
    rewrite !checks_cons, Hexp, !reject_if_Ok in Hr. destruct Hr as (Hrep & Hreach & Hmax & Hratio & _).
    destruct (checked_sum [direct; relay; derp]) as [rsum|] eqn:Hrs; [|done]. rewrite reject_if_Ok in Hreach.
    apply checked_sum_Some in Hsum as [-> _]; [|repeat constructor; lia]. apply checked_sum_Some in Hrs as [-> _]; [|repeat constructor; lia].
    simpl in *. apply ratio_adds_up in Hratio; [|lia]. split_and!; [lia|lia|lia|apply Hratio|apply Hratio].
Qed.

(** The numbers of a view that passes belong together. With [n] players, at most
    sixteen, there are [n * (n - 1)] directions; no more reporters and no more
    observations are counted; the route classes are all known or all unknown, known
    they sum to the reported directions, of which there are no more than directions,
    and the direct share is the floor of thousandths among the reachable, absent
    exactly when none is; and there are no more application samples than reports. *)
Theorem valid_view_adds_up v :
  routes_typed (routes v) -> u32_fact (roster_count (counts v)) -> view_validate v = Ok tt ->
  exists n, fact_value (roster_count (counts v)) = Some n /\ 0 <= n <= 16 /\
    fact_value (expected_direction_count (routes v)) = Some (n * (n - 1)) /\
    (forall k, fact_value (fresh_reporter_count (counts v)) = Some k -> k <= n) /\
    (forall k, fact_value (fresh_directional_observation_count (counts v)) = Some k -> k <= n * (n - 1)) /\
    routes_add_up (routes v) (n * (n - 1)) /\
    (forall samples reported, fact_value (sample_count (application_quality v)) = Some samples ->
       fact_value (reported_direction_count (routes v)) = Some reported -> samples <= reported).
Proof.
  intros Htyped Hroster. unfold view_validate. rewrite !checks_cons. intros (_ & _ & _ & _ & _ & _ & Hc & He & Hr & _ & _ & _ & Hs & _).
  pose proof (validate_counts_Ok v Hc) as (n & Hn & Hmax). pose proof (Hroster n Hn) as Htn. unfold in_uint in Htn.
  rewrite Hn, directions_of, reject_if_Ok, negb_false_iff, bool_decide_eq_true in He by (unfold MAX_PLAYERS in *; lia).
  unfold validate_counts in Hc. cbv zeta in Hc. rewrite !checks_cons, Hn, !checks_cons, directions_of in Hc by (unfold MAX_PLAYERS in *; lia).
  destruct Hc as (_ & _ & (_ & _ & _ & Hfr & Hfd & _) & _). rewrite bounded_Ok in Hfr, Hfd. exists n. unfold MAX_PLAYERS in Hmax.
  split_and!; [done|lia|lia|done|done|done|by apply routes_validated|].
  intros samples reported Hsam Hrep. rewrite Hsam, Hrep, reject_if_Ok in Hs. lia.
Qed.

(** ** DNS names *)

Definition no_dot (l : list Z) : Prop := byte_dot ∉ l.
Definition joined (labels : list (list Z)) : list Z :=
  match labels with [] => [] | l :: ls => l ++ concat (map (cons byte_dot) ls) end.

Lemma split_dots_cons value : exists piece pieces, split_dots value = piece :: pieces.
Proof.
  induction value as [|b value (piece & pieces & IH)]; simpl; [by do 2 eexists|]. destruct (b =? byte_dot); [by do 2 eexists|].
  rewrite IH. by do 2 eexists.
Qed.
Lemma joined_split value : joined (split_dots value) = value.
Proof.
  induction value as [|b value IH]; [done|]. simpl. destruct (split_dots_cons value) as (piece & pieces & Hs). rewrite Hs in IH |- *.
  destruct (Z.eqb_spec b byte_dot) as [->|]; simpl in *; by rewrite IH.
Qed.

Lemma lowercase_dot_iff b : to_ascii_lowercase b = byte_dot <-> b = byte_dot.
Proof. unfold to_ascii_lowercase, byte_dot. case_match; lia. Qed.
Lemma split_dots_lowercase value :
  split_dots (map to_ascii_lowercase value) = map (map to_ascii_lowercase) (split_dots value).
Proof.
  induction value as [|b value IH]; [done|]. simpl. rewrite IH. destruct (split_dots_cons value) as (piece & pieces & ->).
  destruct (Z.eqb_spec b byte_dot) as [->|Hb]; [done|]. destruct (Z.eqb_spec (to_ascii_lowercase b) byte_dot) as [Hl|]; [|done].
  by rewrite lowercase_dot_iff in Hl.
Qed.

Lemma lowercase_idem b : to_ascii_lowercase (to_ascii_lowercase b) = to_ascii_lowercase b.
Proof. unfold to_ascii_lowercase. repeat case_match; lia. Qed.
Lemma lowercase_dash_iff b : to_ascii_lowercase b = byte_dash <-> b = byte_dash.
Proof. unfold to_ascii_lowercase. case_match; lia. Qed.
Lemma lowercase_alphanumeric b : is_ascii_alphanumeric (to_ascii_lowercase b) = is_ascii_alphanumeric b.
Proof. unfold to_ascii_lowercase, is_ascii_alphanumeric, is_ascii_digit. case_match; lia. Qed.

(** A label that passes: letters, digits and inner hyphens. *)
Definition label_ok (l : list Z) : Prop :=
  (1 <= length l <= 63)%nat /\ head l <> Some byte_dash /\ last l <> Some byte_dash /\
  Forall (fun b => is_ascii_alphanumeric b = true \/ b = byte_dash) l.
Lemma label_check_Ok l : label_check l = Ok tt <-> label_ok l.
Proof.
  unfold label_check, label_ok. rewrite !checks_cons, !refuse_if_Ok, orb_false_iff, !bool_decide_eq_false, negb_false_iff, forallb_forall.
  rewrite Forall_forall, Nat.eqb_neq, Nat.ltb_ge. split.
  - intros (? & ? & [? ?] & Hall & _). split_and!; [lia|lia|done|done|]. intros b Hb%list_elem_of_In. apply Hall in Hb. by rewrite orb_true_iff, Z.eqb_eq in Hb.
  - intros ([? ?] & ? & ? & Hall). split_and!; [lia|lia|done|done| |done]. intros b Hb%list_elem_of_In. apply Hall in Hb. by rewrite orb_true_iff, Z.eqb_eq.
Qed.
Lemma label_ok_lowercase l : label_ok (map to_ascii_lowercase l) <-> label_ok l.
Proof.
  unfold label_ok. rewrite length_map. change (map to_ascii_lowercase l) with (to_ascii_lowercase <$> l).
  rewrite fmap_last, Forall_fmap.
  assert (Hhead : head (to_ascii_lowercase <$> l) = Some byte_dash <-> head l = Some byte_dash).
  { destruct l as [|b l]; [done|]. simpl. split; intros [= Hb]; f_equal; by apply lowercase_dash_iff. }
  assert (Hlast : to_ascii_lowercase <$> last l = Some byte_dash <-> last l = Some byte_dash).
  { destruct (last l) as [b|]; [|done]. simpl. split; intros [= Hb]; f_equal; by apply lowercase_dash_iff. }
  rewrite Hhead, Hlast. assert (Hall : Forall ((fun b => is_ascii_alphanumeric b = true \/ b = byte_dash) ∘ to_ascii_lowercase) l <->
    Forall (fun b => is_ascii_alphanumeric b = true \/ b = byte_dash) l).
  { apply Forall_iff. intros b. simpl. by rewrite lowercase_alphanumeric, lowercase_dash_iff. }
  by rewrite Hall.
Qed.
Lemma labels_ok_lowercase value :
  Forall label_ok (split_dots (map to_ascii_lowercase value)) <-> Forall label_ok (split_dots value).
Proof. rewrite split_dots_lowercase, Forall_map. apply Forall_iff, label_ok_lowercase. Qed.

(** A name whose last label is not empty does not end in a dot. *)
Lemma last_label value : value <> [] -> last value = Some byte_dot -> last (split_dots value) = Some [].
Proof.
  induction value as [|b value IH]; [done|]. intros _. destruct value as [|c value].
  - intros [= ->]. done.
  - intros Hlast. change (last (b :: c :: value)) with (last (c :: value)) in Hlast. specialize (IH ltac:(done) Hlast).
    change (split_dots (b :: c :: value)) with (if b =? byte_dot then [] :: split_dots (c :: value)
      else match split_dots (c :: value) with piece :: pieces => (b :: piece) :: pieces | [] => [[b]] end).
    destruct (split_dots_cons (c :: value)) as (piece & pieces & Hs). rewrite Hs in IH |- *.
    destruct (b =? byte_dot); [by rewrite last_cons, IH|]. destruct pieces as [|p pieces]; [|exact IH].
    exfalso. simpl in IH. injection IH as ->. clear -Hs. simpl in Hs. destruct (c =? byte_dot) eqn:Hc; [|destruct (split_dots value); done].
    injection Hs as Hs. destruct (split_dots_cons value) as (? & ? & H). congruence.
Qed.
Lemma labels_end value : Forall label_ok (split_dots value) -> last value <> Some byte_dot.
Proof.
  intros Hall Hlast. destruct value as [|b value]; [done|]. apply last_label in Hlast; [|done]. apply last_Some_elem_of in Hlast.
  rewrite Forall_forall in Hall. destruct (Hall _ Hlast) as ((? & ?) & _). simpl in *. lia.
Qed.
Lemma strip_dot_end value : last value <> Some byte_dot -> strip_dot value = value.
Proof. intros Hl. unfold strip_dot. by rewrite bool_decide_false. Qed.
Lemma strip_dot_root value : strip_dot (value ++ [byte_dot]) = value.
Proof. unfold strip_dot. rewrite last_snoc, bool_decide_true, length_app by done. simpl. rewrite take_app_le by lia. by rewrite take_ge by lia. Qed.
Lemma strip_dot_lowercase value : strip_dot (map to_ascii_lowercase value) = map to_ascii_lowercase (strip_dot value).
Proof.
  unfold strip_dot. change (map to_ascii_lowercase value) with (to_ascii_lowercase <$> value). rewrite fmap_last, length_fmap.
  assert (Hiff : to_ascii_lowercase <$> last value = Some byte_dot <-> last value = Some byte_dot).
  { destruct (last value) as [b|]; [|done]. simpl. split; intros [= Hb]; f_equal; by apply lowercase_dot_iff. }
  rewrite (bool_decide_ext _ _ Hiff). destruct (bool_decide _); [|done]. symmetry. apply fmap_take.
Qed.

Definition dns_ok (value : list Z) : Prop :=
  Forall (fun b => b < 128) value /\ (length (strip_dot value) <= 253)%nat /\ (2 <= length (split_dots (strip_dot value)))%nat /\
  Forall label_ok (split_dots (strip_dot value)).

Lemma dns_parse_Ok value d :
  dns_parse value = Ok d <-> dns_ok value /\ d = mkTailnetDnsName (map to_ascii_lowercase (strip_dot value)).
Proof.
  unfold dns_parse, dns_ok. cbv zeta. set (w := strip_dot value).
  assert (Hchecks : checks ([refuse_if (length value =? 0)%nat DnsEmpty; refuse_if (negb (forallb (fun b => b <? 128) value)) DnsNonAscii;
      refuse_if (length w =? 0)%nat DnsEmpty; refuse_if (MAX_TAILNET_DNS_NAME_LEN <? length w)%nat DnsNameTooLong;
      refuse_if (length (split_dots w) <? 2)%nat DnsNotFullyQualified] ++ map label_check (split_dots w)) = Ok tt <->
    Forall (fun b => b < 128) value /\ (length w <= 253)%nat /\ (2 <= length (split_dots w))%nat /\ Forall label_ok (split_dots w)).
  { simpl app. rewrite !checks_cons, !refuse_if_Ok, checks_Ok, Forall_map, negb_false_iff, !Nat.eqb_neq, !Nat.ltb_ge.
    rewrite (Forall_iff _ _ label_ok) by apply label_check_Ok. rewrite forallb_forall, !Forall_forall.
    assert (Hb : (forall x, In x value -> (x <? 128) = true) <-> (forall x, x ∈ value -> x < 128)).
    { split; intros Hx x Hin; [apply list_elem_of_In in Hin; specialize (Hx x Hin); lia|apply list_elem_of_In in Hin; specialize (Hx x Hin); lia]. }
    rewrite Hb. unfold MAX_TAILNET_DNS_NAME_LEN. split; [by intros (_ & ? & _ & ? & ? & ?)|]. intros (Ha & Hlen & Hl & Hall). split_and!; try done.
    - intros Hz. apply nil_length_inv in Hz. subst value. simpl in *. subst w. simpl in Hl. lia.
    - intros Hz. apply nil_length_inv in Hz. rewrite Hz in Hl. simpl in Hl. lia. }
  destruct (checks _) as [[]|e]; [|split; [done|intros [Hok _]; by apply Hchecks in Hok]].
  split; [intros [= <-]; split; [by apply Hchecks|done]|by intros [_ ->]].
Qed.

Lemma dns_ok_lowercase value : dns_ok (map to_ascii_lowercase value) <-> dns_ok value.
Proof.
  unfold dns_ok. rewrite strip_dot_lowercase, length_map, labels_ok_lowercase, split_dots_lowercase, length_map, Forall_map.
  rewrite (Forall_iff _ _ (fun b => b < 128)); [done|]. intros b. simpl. unfold to_ascii_lowercase. case_match; lia.
Qed.

(** A DNS name has one canonical form. What parses is a list of at least two
    labels of one to 63 letters, digits and inner hyphens, together at most 253
    bytes, all in lower case; the canonical form parses to itself, also with the
    root's dot at its end, and so does every other spelling of upper and lower case. *)
Theorem dns_name_canonical value d :
  dns_parse value = Ok d ->
  (2 <= length (split_dots (dns_name d)))%nat /\ Forall label_ok (split_dots (dns_name d)) /\
  joined (split_dots (dns_name d)) = dns_name d /\ (length (dns_name d) <= 253)%nat /\
  map to_ascii_lowercase (dns_name d) = dns_name d /\
  dns_parse (dns_name d ++ [byte_dot]) = Ok d /\
  (forall other, map to_ascii_lowercase other = dns_name d -> dns_parse other = Ok d).
Proof.
  intros [(Ha & Hlen & Hl & Hall) ->]%dns_parse_Ok. cbn [dns_name]. set (w := strip_dot value) in *.
  assert (Hidem : map to_ascii_lowercase (map to_ascii_lowercase w) = map to_ascii_lowercase w).
  { rewrite map_map. apply map_ext, lowercase_idem. }
  assert (Hend : last (map to_ascii_lowercase w) <> Some byte_dot) by (apply labels_end; by apply labels_ok_lowercase).
  assert (Hascii : Forall (fun b => b < 128) w).
  { subst w. unfold strip_dot. destruct (bool_decide _); [by apply Forall_take|done]. }
  assert (Hok : dns_ok (map to_ascii_lowercase w)).
  { unfold dns_ok. rewrite strip_dot_end by done. rewrite labels_ok_lowercase, split_dots_lowercase, !length_map, Forall_map. split_and!; try done.
    eapply Forall_impl; [exact Hascii|]. intros b Hb. simpl in *. unfold to_ascii_lowercase. case_match; lia. }
  split_and!.
  - by rewrite split_dots_lowercase, length_map.
  - by apply labels_ok_lowercase.
  - apply joined_split.
  - by rewrite length_map.
  - exact Hidem.
  - apply dns_parse_Ok. rewrite strip_dot_root, Hidem. split; [|done]. unfold dns_ok in *. rewrite strip_dot_root, strip_dot_end in * by done.
    split_and!; [|apply Hok..]. apply Forall_app. split; [apply Hok|by repeat constructor].
  - intros other Ho. apply dns_parse_Ok. rewrite <- dns_ok_lowercase, Ho, <- strip_dot_lowercase, Ho, strip_dot_end by done. done.
Qed.

(** ** A concrete view *)

Module ViewDemo.
Definition lobby : LobbyId := mkProtocolId (repeat 64 16).
Definition control {T} (value : T) : Fact T := fact_known value ControlStore Authoritative (Some 50) 60 Current.
Definition derived {T} (value : T) : Fact T := fact_known value SourceDerived AssuranceDerived (Some 50) 60 Fresh.
Definition provided {T} (value : T) : Fact T := fact_known value ProviderApi Observed (Some 50) 60 Fresh.
Definition not_known {T} : Fact T := fact_unknown ControlStore NeverObserved None.
(** [lobby-1.example.ts.net] *)
Definition name : list Z := bytes_of_string "Lobby-1.Example.ts.net.".
Definition dns : TailnetDnsName := mkTailnetDnsName (bytes_of_string "lobby-1.example.ts.net").
(** Two players; one of the two directions is direct, the other is relayed. *)
Definition view : LobbyNetworkView :=
  {| view_schema_version := 1; view_lobby_id := lobby; served_at := 100; truth_label := RealDedicatedTailnet;
     backing := mkNetworkBacking BackingTailnetPerLobby None IsolationDedicated 3 Active
       (fact_known dns ProviderApi Authoritative (Some 50) 60 Current) (control false);
     lobby_lifecycle := control InspectedInMatch;
     counts := mkNetworkCounts (control 2) (provided 2) not_known (derived 2) (derived 2);
     routes := mkRouteAggregate (derived 2) (derived 2) (derived 1) (derived 1) (derived 0) (derived 0) (derived 0) (derived 2) (derived 500);
     application_quality := mkApplicationQuality (derived 0) not_known not_known not_known not_known;
     view_authority := mkNetworkAuthority not_known not_known not_known;
     view_cleanup := mkNetworkCleanup Active not_known not_known not_known NotRequested |}.
Lemma view_typed : routes_typed (routes view).
Proof.
  unfold routes_typed, route_fields. repeat (apply Forall_cons; split; [intros n [= <-]; by split|]). by apply Forall_nil.
Qed.
Lemma view_passes : view_validate view = Ok tt.
Proof. vm_compute. reflexivity. Qed.
End ViewDemo.
Import ViewDemo.

Lemma view_check_never_panics_witness : view_validate view <> Err Panicked.
Proof. apply view_check_never_panics. exact view_typed. Defined.

Lemma valid_view_truthful_witness : fact_value (control_service_member (backing view)) = Some false /\ mode_truth view.
Proof. destruct (valid_view_truthful view view_passes) as (Hm & Ht & _). split; [exact Hm|exact Ht]. Defined.

Lemma valid_view_adds_up_witness : exists n, fact_value (roster_count (counts view)) = Some n /\ routes_add_up (routes view) (n * (n - 1)).
Proof.
  destruct (valid_view_adds_up view view_typed (fun n Hn => ltac:(vm_compute in Hn; injection Hn as <-; split; [discriminate|reflexivity])) view_passes)
    as (n & Hn & _ & _ & _ & _ & Hadd & _). exists n. split; [exact Hn|exact Hadd].
Defined.

Lemma dns_name_canonical_witness : dns_parse name = Ok dns /\ dns_parse (bytes_of_string "LOBBY-1.example.TS.net") = Ok dns.
Proof.
  assert (Hp : dns_parse name = Ok dns) by (vm_compute; reflexivity). split; [exact Hp|].
  destruct (dns_name_canonical name dns Hp) as (_ & _ & _ & _ & _ & _ & Hother). apply Hother. vm_compute. reflexivity.
Defined.
