(* ===== verification/Store.v ===== *)
(** * The server's store of lobbies ([spurfire-server/src/store.rs])

    Records of lobbies with their capabilities and replays, the singleton lease of a
    real network, one-use grants and receipts, creation with its idempotency keys,
    replacement, retention and the deadlines of lobbies, and what a loaded state is
    normalised to. A [BTreeMap] is a [gmap], with [btree_list] where its order shows;
    a string is its bytes. *)

From S2P Require Import Prelude MachineInt Ordered Clock Bytes Identifiers LobbyLifecycle Model Session Rehearsal Election.
From S2P Require Import NetworkInspection ServerCrypto.
From stdpp Require Import gmap.
Open Scope Z_scope.

Definition IDEMPOTENCY_RETENTION_MS : Z := 24 * 60 * 60 * 1000.
Definition TERMINAL_DEBUG_RETENTION_MS : Z := 15 * 60 * 1000.
Definition START_TIMEOUT_MS : Z := 120 * 1000.
Definition MAX_STORED_LOBBIES : nat := 10000.
Definition MAX_CREATE_REPLAYS : nat := 20000.
Definition IDEMPOTENCY_DIGEST_DOMAIN : list Z := bytes_of_string "spurfire-real-lobby-lease-v1" ++ [0].

(** ** Records *)

Inductive LobbyCapabilityScope :=
| LobbyRead | LobbyReport | LobbyInvite | LobbyManage | LobbyDestroy | LobbyJoin | LobbyPlay | LobbyLeaveSelf
| LobbyCreateReal.
#[export] Instance LobbyCapabilityScope_eq_dec : EqDecision LobbyCapabilityScope.
Proof. solve_decision. Defined.

Record StoredCredential := mkStoredCredential {
  credential_id : list Z;
  credential_expires_at : UnixMillis;
  credential_revoked : bool;
  credential_cleanup_pending : bool;
  credential_dry_run : bool;
}.
#[export] Instance StoredCredential_settable : Settable StoredCredential := fun x =>
  mkStoredCredential (credential_id x) (credential_expires_at x) (credential_revoked x) (credential_cleanup_pending x)
    (credential_dry_run x).

Record JoinCredentialReceipt := mkJoinCredentialReceipt {
  receipt_credential_id : list Z;
  receipt_expires_at : UnixMillis;
  one_use : bool;
}.
Definition credential_receipt (self : StoredCredential) : JoinCredentialReceipt :=
  mkJoinCredentialReceipt (credential_id self) (credential_expires_at self) true.
Record StoredJoinReplay := mkStoredJoinReplay {
  join_fingerprint : list Z;
  join_player_id : PlayerId;
  join_receipt : JoinCredentialReceipt;
  join_created_at : UnixMillis;
}.
Record StoredMutationReplay := mkStoredMutationReplay {
  mutation_fingerprint : list Z;
  mutation_actor : PlayerId;
  mutation_created_at : UnixMillis;
}.
Record StoredIssuanceReservation := mkStoredIssuanceReservation {
  reservation_fingerprint : list Z;
  reservation_key : list Z;
  reservation_created_at : UnixMillis;
  reservation_expires_at : UnixMillis;
}.
Record StoredJoinAttempt := mkStoredJoinAttempt {
  attempt_player_id : PlayerId;
  attempted_at : UnixMillis;
}.
Record StoredNetworkIdentity := mkStoredNetworkIdentity {
  provider_tailnet_id : option (list Z);
  identity_dns_name : TailnetDnsName;
  identity_network_generation : Z;
  captured_at : UnixMillis;
}.
Record StoredCapabilityVerifier := mkStoredCapabilityVerifier {
  cap_verifier : list Z;
  scopes : list LobbyCapabilityScope;
  cap_lobby_id : LobbyId;
  cap_player_id : option PlayerId;
  cap_network_generation : Z;
  cap_expires_at : UnixMillis;
  revoked : bool;
  cap_consumed_at : option UnixMillis;
}.
#[export] Instance StoredCapabilityVerifier_settable : Settable StoredCapabilityVerifier := fun x =>
  mkStoredCapabilityVerifier (cap_verifier x) (scopes x) (cap_lobby_id x) (cap_player_id x) (cap_network_generation x)
    (cap_expires_at x) (revoked x) (cap_consumed_at x).
Record StoredAcceptedHeartbeat := mkStoredAcceptedHeartbeat {
  accepted_player_id : PlayerId;
  accepted_epoch : Z;
  accepted_input_hash : list Z;
  accepted_received_at : UnixMillis;
}.
Record StoredLobby := mkStoredLobby {
  lobby : Lobby;
  creator_player_id : PlayerId;
  tailnet : list Z;
  tag : list Z;
  dry_run : bool;
  sl_generation : Z;
  roster_revision : Z;
  session_generation : Z;
  sl_lifecycle : NetworkLifecycle;
  network_identity : option StoredNetworkIdentity;
  child_policy_digest : option (list Z);
  child_policy_status : option (list Z);
  cleanup_requested_at : option UnixMillis;
  sl_delete_acknowledged_at : option UnixMillis;
  child_secret_erased_at : option UnixMillis;
  first_absence_observed_at : option UnixMillis;
  sl_absence_confirmed_at : option UnixMillis;
  absence_observation_generation : option Z;
  absence_observation_provider_id : option (list Z);
  absence_monotonic_verified : bool;
  capabilities : list StoredCapabilityVerifier;
  idle_ttl_ms : Z;
  measurements : gmap PlayerId ConnectivitySample;
  authenticated_reporters : gset PlayerId;
  credentials : gmap PlayerId StoredCredential;
  join_replays : gmap (list Z) StoredJoinReplay;
  start_replays : gmap (list Z) StoredMutationReplay;
  results_replays : gmap (list Z) StoredMutationReplay;
  pending_issuances : gmap PlayerId StoredIssuanceReservation;
  join_attempts : list StoredJoinAttempt;
  sl_cleanup_pending : bool;
  last_election : option AuthorityElection;
  match_start_election : option AuthorityElection;
  authority_epoch : Z;
  started_at : option UnixMillis;
  last_authority_heartbeat_at : option UnixMillis;
  sl_last_accepted_heartbeat : option StoredAcceptedHeartbeat;
  terminal_at : option UnixMillis;
}.
#[export] Instance StoredLobby_settable : Settable StoredLobby := fun x =>
  mkStoredLobby (lobby x) (creator_player_id x) (tailnet x) (tag x) (dry_run x) (sl_generation x) (roster_revision x)
    (session_generation x) (sl_lifecycle x) (network_identity x) (child_policy_digest x) (child_policy_status x)
    (cleanup_requested_at x) (sl_delete_acknowledged_at x) (child_secret_erased_at x) (first_absence_observed_at x)
    (sl_absence_confirmed_at x) (absence_observation_generation x) (absence_observation_provider_id x)
    (absence_monotonic_verified x) (capabilities x) (idle_ttl_ms x) (measurements x) (authenticated_reporters x)
    (credentials x) (join_replays x) (start_replays x) (results_replays x) (pending_issuances x) (join_attempts x)
    (sl_cleanup_pending x) (last_election x) (match_start_election x) (authority_epoch x) (started_at x)
    (last_authority_heartbeat_at x) (sl_last_accepted_heartbeat x) (terminal_at x).
Record CreateReplay := mkCreateReplay {
  replay_fingerprint : list Z;
  replay_lobby_id : LobbyId;
  replay_actor : PlayerId;
  replay_created_at : UnixMillis;
}.
Record RealLobbyLease := mkRealLobbyLease {
  holder_lobby_id : LobbyId;
  lease_generation : Z;
  idempotency_digest_of : list Z;
  acquired_at : UnixMillis;
  lease_lifecycle : NetworkLifecycle;
}.
#[export] Instance RealLobbyLease_settable : Settable RealLobbyLease := fun x =>
  mkRealLobbyLease (holder_lobby_id x) (lease_generation x) (idempotency_digest_of x) (acquired_at x)
    (lease_lifecycle x).
Record StoredCreateGrant := mkStoredCreateGrant {
  grant_verifier : list Z;
  grant_expires_at : UnixMillis;
  grant_consumed_at : option UnixMillis;
}.
#[export] Instance StoredCreateGrant_settable : Settable StoredCreateGrant := fun x =>
  mkStoredCreateGrant (grant_verifier x) (grant_expires_at x) (grant_consumed_at x).
Record StoredLocalRehearsalReceipt := mkStoredLocalRehearsalReceipt {
  local_verifier : list Z;
  local_receipt_id_digest : list Z;
  receipt_lobby_id : LobbyId;
  receipt_network_generation : Z;
  local_receipt_expires_at : UnixMillis;
  local_receipt_deadline : UnixMillis;
  receipt_participant_cap : Z;
  local_policy_profile_digest : list Z;
  local_consumed_at : option UnixMillis;
}.
#[export] Instance StoredLocalRehearsalReceipt_settable : Settable StoredLocalRehearsalReceipt := fun x =>
  mkStoredLocalRehearsalReceipt (local_verifier x) (local_receipt_id_digest x) (receipt_lobby_id x)
    (receipt_network_generation x) (local_receipt_expires_at x) (local_receipt_deadline x) (receipt_participant_cap x)
    (local_policy_profile_digest x) (local_consumed_at x).
(** The stored protected receipt: what its qualification says, and when it was used. *)
Record StoredProtectedAlphaReceipt := mkStoredProtectedAlphaReceipt {
  alpha : ProtectedAlphaQualification;
  alpha_consumed_at : option UnixMillis;
}.
#[export] Instance StoredProtectedAlphaReceipt_settable : Settable StoredProtectedAlphaReceipt := fun x =>
  mkStoredProtectedAlphaReceipt (alpha x) (alpha_consumed_at x).
Record StoreBinding := mkStoreBinding {
  instance_id_sha256 : list Z;
  binding_path_sha256 : list Z;
}.
Record ProtectedAlphaRecovery := mkProtectedAlphaRecovery {
  recovery_lobby_id : LobbyId;
  recovery_network_generation : Z;
  recovery_run_id_digest : list Z;
  recovery_initial_epoch : Z;
  recovery_absolute_deadline : UnixMillis;
}.
Record StoreData := mkStoreData {
  store_instance_id : list Z;
  canonical_state_path_sha256 : list Z;
  lobbies : gmap LobbyId StoredLobby;
  create_replays : gmap (list Z) CreateReplay;
  real_lobby_lease : option RealLobbyLease;
  real_creation_quarantined : bool;
  real_create_grants : list StoredCreateGrant;
  local_rehearsal_receipt : option StoredLocalRehearsalReceipt;
  protected_alpha_receipt : option StoredProtectedAlphaReceipt;
}.
#[export] Instance StoreData_settable : Settable StoreData := fun x =>
  mkStoreData (store_instance_id x) (canonical_state_path_sha256 x) (lobbies x) (create_replays x)
    (real_lobby_lease x) (real_creation_quarantined x) (real_create_grants x) (local_rehearsal_receipt x)
    (protected_alpha_receipt x).

Inductive CreateStoreOutcome := Created (record : StoredLobby) | Replay (record : StoredLobby) | CreateConflict.
Inductive StoreError :=
| DuplicateLobby | LobbyNotFound | InconsistentIdempotency | Capacity | RealMutationsDisabled | RealLobbyCapacityReached
| InvalidCreateGrant | InvalidRehearsalReceipt | RehearsalDisabled | StoreIo | StoreDecode.

(** ** Capabilities *)

(** The derived order of scopes is the order of their declaration. *)
Definition scope_index (s : LobbyCapabilityScope) : Z :=
  match s with
  | LobbyRead => 0 | LobbyReport => 1 | LobbyInvite => 2 | LobbyManage => 3 | LobbyDestroy => 4 | LobbyJoin => 5
  | LobbyPlay => 6 | LobbyLeaveSelf => 7 | LobbyCreateReal => 8
  end.
Fixpoint dedup_scopes (l : list LobbyCapabilityScope) : list LobbyCapabilityScope :=
  match l with
  | [] => []
  | a :: rest =>
      match rest with
      | [] => [a]
      | b :: _ => if decide (a = b) then dedup_scopes rest else a :: dedup_scopes rest
      end
  end.
Definition capability_new (verifier : list Z) (scopes : list LobbyCapabilityScope) (lobby_id : LobbyId) (player : option PlayerId)
    (generation : Z) (expires : UnixMillis) : StoredCapabilityVerifier :=
  mkStoredCapabilityVerifier verifier (dedup_scopes (sort_by_key scope_index scopes)) lobby_id player generation expires false None.

Definition authorizes (self : StoredCapabilityVerifier) (candidate : list Z) (lobby_id : LobbyId) (generation : Z)
    (required : LobbyCapabilityScope) (expected_player : option PlayerId) (now : UnixMillis) : bool :=
  negb (revoked self)
  && is_none (cap_consumed_at self)
  && bool_decide (required ∈ scopes self)
  && bool_decide (cap_lobby_id self = lobby_id)
  && (cap_network_generation self =? generation)
  && is_none_or expected_player (fun player => bool_decide (cap_player_id self = Some player))
  && (now <? cap_expires_at self)
  && constant_time_eq (cap_verifier self) candidate.
Definition consume (self : StoredCapabilityVerifier) (candidate : list Z) (lobby_id : LobbyId) (generation : Z)
    (required : LobbyCapabilityScope) (now : UnixMillis) : StoredCapabilityVerifier * bool :=
  if negb (authorizes self candidate lobby_id generation required None now) then (self, false)
  else (self <| cap_consumed_at := Some now |>, true).

(** ** One lobby *)

Definition stored_new (l : Lobby) (creator : PlayerId) (tailnet tag : list Z) (dry : bool) (idle_ttl : Z) : StoredLobby :=
  {| lobby := l; creator_player_id := creator; tailnet := tailnet; tag := tag; dry_run := dry; sl_generation := 1; roster_revision := 1;
     session_generation := 0; sl_lifecycle := if dry then Simulated else NetReserved; network_identity := None;
     child_policy_digest := None; child_policy_status := None; cleanup_requested_at := None; sl_delete_acknowledged_at := None;
     child_secret_erased_at := None; first_absence_observed_at := None; sl_absence_confirmed_at := None;
     absence_observation_generation := None; absence_observation_provider_id := None; absence_monotonic_verified := false;
     capabilities := []; idle_ttl_ms := idle_ttl; measurements := ∅; authenticated_reporters := ∅; credentials := ∅;
     join_replays := ∅; start_replays := ∅; results_replays := ∅; pending_issuances := ∅; join_attempts := [];
     sl_cleanup_pending := false; last_election := None; match_start_election := None; authority_epoch := 0; started_at := None;
     last_authority_heartbeat_at := None; sl_last_accepted_heartbeat := None; terminal_at := None |}.
(** [with_creator_capability] and [add_capability]. *)
Definition add_capability (capability : StoredCapabilityVerifier) (self : StoredLobby) : StoredLobby :=
  self <| capabilities := capabilities self ++ [capability] |>.

Definition authorize (self : StoredLobby) (verifier : list Z) (required : LobbyCapabilityScope) (expected_player : option PlayerId)
    (now : UnixMillis) : option (option PlayerId) :=
  cap_player_id <$> find (fun capability =>
    authorizes capability verifier (lobby_id (lobby self)) (sl_generation self) required expected_player now) (capabilities self).
Definition is_invitation (capability : StoredCapabilityVerifier) (now : UnixMillis) : bool :=
  bool_decide (LobbyJoin ∈ scopes capability) && negb (revoked capability) && (now <? cap_expires_at capability).
Definition active_invitation_count (self : StoredLobby) (now : UnixMillis) : nat :=
  length (filter (fun capability => is_invitation capability now && is_none (cap_consumed_at capability) = true) (capabilities self)).
Definition matches_invitation (self : StoredLobby) (verifier : list Z) (now : UnixMillis) : bool :=
  existsb (fun capability => is_invitation capability now && constant_time_eq (cap_verifier capability) verifier) (capabilities self).
(** [iter_mut().any]: up to and including the first that consumes. *)
Fixpoint consume_any (l : list StoredCapabilityVerifier) (f : StoredCapabilityVerifier -> StoredCapabilityVerifier * bool)
    : list StoredCapabilityVerifier * bool :=
  match l with
  | [] => ([], false)
  | capability :: l =>
      match f capability with
      | (capability, true) => (capability :: l, true)
      | (capability, false) => let '(l, consumed) := consume_any l f in (capability :: l, consumed)
      end
  end.
Definition consume_invitation (self : StoredLobby) (verifier : list Z) (now : UnixMillis) : StoredLobby * bool :=
  let '(l, consumed) := consume_any (capabilities self) (fun capability =>
    consume capability verifier (lobby_id (lobby self)) (sl_generation self) LobbyJoin now) in
  (self <| capabilities := l |>, consumed).
Definition revoke_player_capabilities (self : StoredLobby) (player : PlayerId) : StoredLobby :=
  self <| capabilities := map (fun capability =>
    if decide (cap_player_id capability = Some player) then capability <| revoked := true |> else capability) (capabilities self) |>.
Definition revoke_creator_capability (self : StoredLobby) : StoredLobby :=
  self <| capabilities := map (fun capability =>
    if decide (LobbyDestroy ∈ scopes capability) then capability <| revoked := true |> else capability) (capabilities self) |>.
Definition with_cleanup_pending (l : Lobby) (pending : bool) : Lobby :=
  mkLobby (lobby_id l) (display_name l) (state l) (state_reason l) (roster l) (max_players l) (map_seed l) (authority l) (ttl l)
    (lobby_wire_version l) (provisioning_mode l) (created_at l) pending.
Definition snapshot (self : StoredLobby) : Lobby := with_cleanup_pending (lobby self) (sl_cleanup_pending self).

(** ** Release of a real network *)

Definition lease_release_lifecycle (l : NetworkLifecycle) : bool :=
  match l with CreateRejected | DedicatedAbsent | SharedResourcesClean => true | _ => false end.

Definition valid_provider_id (id : list Z) : bool :=
  negb (length id =? 0)%nat && (length id <=? 128)%nat && forallb (fun b => is_ascii_alphanumeric b || (b =? 45) || (b =? 95)) id.
Definition identity_provider_id (self : StoredLobby) : option (list Z) := network_identity self ≫= provider_tailnet_id.
Definition has_release_proof (self : StoredLobby) : bool :=
  match sl_lifecycle self with
  | CreateRejected => is_none (network_identity self)
  | DedicatedAbsent =>
      is_some_and (network_identity self) (fun identity =>
        (identity_network_generation identity =? sl_generation self)
        && bool_decide (dns_name (identity_dns_name identity) = tailnet self)
        && is_some_and (provider_tailnet_id identity) valid_provider_id)
      && is_some (cleanup_requested_at self) && is_some (sl_delete_acknowledged_at self) && is_some (child_secret_erased_at self)
      && absence_monotonic_verified self
      && bool_decide (absence_observation_generation self = Some (sl_generation self))
      && bool_decide (absence_observation_provider_id self = identity_provider_id self)
      && is_some (first_absence_observed_at self) && is_some (sl_absence_confirmed_at self) && negb (sl_cleanup_pending self)
  | SharedResourcesClean =>
      (match provisioning_mode (lobby self) with SharedTailnet => true | _ => false end)
      && is_some_and (network_identity self) (fun identity =>
           (identity_network_generation identity =? sl_generation self)
           && is_none (provider_tailnet_id identity)
           && bool_decide (dns_name (identity_dns_name identity) = tailnet self))
      && is_some (cleanup_requested_at self) && negb (sl_cleanup_pending self)
  | _ => false
  end.

(** ** Deadlines *)

Definition age_at_least (now earlier : UnixMillis) (duration : Z) : bool :=
  is_some_and (millis_checked_duration_since now earlier) (fun age => duration <=? age).

Definition absolute_ttl_expired : list Z := bytes_of_string "absolute_ttl_expired".
Definition start_timeout : list Z := bytes_of_string "start_timeout".
(** Where a lobby's deadlines take it. *)
Definition time_target (record : StoredLobby) (now : UnixMillis) : option (LobbyState * option (list Z)) :=
  let absolute_due := absolute_expires_at (ttl (lobby record)) <=? now in
  let idle_due := idle_expires_at (ttl (lobby record)) <=? now in
  let start_due := is_some_and (started_at record ≫= millis_checked_duration_since now) (fun age => START_TIMEOUT_MS <=? age) in
  match state (lobby record) with
  | Provisioning => if absolute_due then Some (Failed, Some absolute_ttl_expired) else None
  | Forming | Ready => if absolute_due || idle_due then Some (Expired, None) else None
  | Starting =>
      if absolute_due then Some (Failed, Some absolute_ttl_expired)
      else if start_due then Some (Failed, Some start_timeout)
      else None
  | InMatch => if absolute_due then Some (Failed, Some absolute_ttl_expired) else None
  | _ => None
  end.
Definition with_state (l : Lobby) (next : LobbyState) (reason : option (list Z)) : Lobby :=
  mkLobby (lobby_id l) (display_name l) next reason (roster l) (max_players l) (map_seed l) None (ttl l)
    (lobby_wire_version l) (provisioning_mode l) (created_at l) (cleanup_pending l).
Definition apply_time_transitions (record : StoredLobby) (now : UnixMillis) : StoredLobby * bool :=
  match time_target record now with
  | None => (record, false)
  | Some (next, reason) =>
      match validate_transition (state (lobby record)) next with
      | Err _ => (record, false)
      | Ok _ =>
          (record <| lobby := with_state (lobby record) next reason |>
                  <| last_election := None |>
                  <| terminal_at := Some now |>
                  <| sl_cleanup_pending := true |>, true)
      end
  end.

(** ** Retention *)

Definition unexpired {V} (now : UnixMillis) (created : V -> UnixMillis) (m : gmap (list Z) V) : gmap (list Z) V :=
  filter (fun '(_, replay) => age_at_least now (created replay) IDEMPOTENCY_RETENTION_MS = false) m.
Fixpoint drop_old_attempts (now : UnixMillis) (l : list StoredJoinAttempt) : list StoredJoinAttempt :=
  match l with
  | [] => []
  | attempt :: rest => if age_at_least now (attempted_at attempt) 60000 then drop_old_attempts now rest else l
  end.
Definition purge_record (now : UnixMillis) (record : StoredLobby) : StoredLobby :=
  record <| join_replays := unexpired now join_created_at (join_replays record) |>
         <| start_replays := unexpired now mutation_created_at (start_replays record) |>
         <| results_replays := unexpired now mutation_created_at (results_replays record) |>
         <| pending_issuances := filter (fun '(_, reservation) => now < reservation_expires_at reservation) (pending_issuances record) |>
         <| join_attempts := drop_old_attempts now (join_attempts record) |>.
Definition grant_retained (now : UnixMillis) (grant : StoredCreateGrant) : bool :=
  (grant_expires_at grant >? now)
  || is_some_and (grant_consumed_at grant) (fun used => negb (age_at_least now used IDEMPOTENCY_RETENTION_MS)).
Definition retention_of (s : LobbyState) : option Z :=
  match s with
  | Failed | Expired => Some TERMINAL_DEBUG_RETENTION_MS
  | Destroyed => Some IDEMPOTENCY_RETENTION_MS
  | _ => None
  end.
Definition is_removed (lease : option RealLobbyLease) (now : UnixMillis) (id : LobbyId) (record : StoredLobby) : bool :=
  negb (is_some_and lease (fun lease => bool_decide (holder_lobby_id lease = id)))
  && is_some_and (terminal_at record) (fun at_ =>
       is_some_and (retention_of (state (lobby record))) (fun retention => age_at_least now at_ retention)).
Definition replay_retained (now : UnixMillis) (kept : gmap LobbyId StoredLobby) (replay : CreateReplay) : bool :=
  negb (age_at_least now (replay_created_at replay) IDEMPOTENCY_RETENTION_MS) && is_some (kept !! replay_lobby_id replay).
Definition purge_retained (data : StoreData) (now : UnixMillis) : StoreData :=
  let purged := purge_record now <$> lobbies data in
  let kept := filter (fun '(id, record) => is_removed (real_lobby_lease data) now id record = false) purged in
  data <| real_create_grants := filter (fun grant => grant_retained now grant = true) (real_create_grants data) |>
       <| lobbies := kept |>
       <| create_replays := filter (fun '(_, replay) => replay_retained now kept replay = true) (create_replays data) |>.

(** ** Receipts and grants *)

Definition store_binding (data : StoreData) : StoreBinding :=
  mkStoreBinding (sha256 (bytes_of_string "spurfire-store-instance-v1" ++ [0] ++ store_instance_id data)) (canonical_state_path_sha256 data).

Definition alpha_recovery (data : StoreData) : option ProtectedAlphaRecovery :=
  match protected_alpha_receipt data, real_lobby_lease data with
  | Some receipt, Some lease =>
      match alpha_consumed_at receipt with
      | None => None
      | Some _ =>
          let q := alpha receipt in
          if negb (bool_decide (q_lobby_id q = holder_lobby_id lease)) || negb (q_network_generation q =? lease_generation lease) then None
          else Some (mkProtectedAlphaRecovery (q_lobby_id q) (q_network_generation q) (q_supervisor_run_id_digest q)
                       (q_initial_epoch q) (q_absolute_deadline q))
      end
  | _, _ => None
  end.

Definition any_real (data : StoreData) : bool := existsb (fun record => negb (dry_run record)) (btree_values (lobbies data)).
Definition install_alpha_in_data (data : StoreData) (q : ProtectedAlphaQualification) : StoreData * result unit StoreError :=
  let binding := store_binding data in
  if is_some (protected_alpha_receipt data) || is_some (local_rehearsal_receipt data) || is_some (real_lobby_lease data)
     || real_creation_quarantined data || any_real data
     || negb (bool_decide (instance_id_sha256 binding = q_store_instance_id_sha256 q))
     || negb (bool_decide (binding_path_sha256 binding = q_canonical_state_path_sha256 q))
  then (data, Err InvalidRehearsalReceipt)
  else (data <| protected_alpha_receipt := Some (mkStoredProtectedAlphaReceipt q None) |>, Ok tt).

Definition stored_local_receipt (q : LocalRehearsalQualification) : StoredLocalRehearsalReceipt :=
  mkStoredLocalRehearsalReceipt (lq_receipt_verifier q) (lq_receipt_id_digest q) (lq_lobby_id q) (lq_network_generation q)
    (lq_expires_at q) (lq_absolute_deadline q) (lq_participant_cap q) (lq_policy_profile_digest q) None.
Definition install_rehearsal_in_data (data : StoreData) (q : LocalRehearsalQualification) : StoreData * result unit StoreError :=
  if is_some (local_rehearsal_receipt data) || is_some (real_lobby_lease data) || real_creation_quarantined data || any_real data
  then (data, Err InvalidRehearsalReceipt)
  else (data <| local_rehearsal_receipt := Some (stored_local_receipt q) |>, Ok tt).

Definition issue_real_create_grant (data : StoreData) (verifier : list Z) (expires : UnixMillis) : StoreData * result unit StoreError :=
  if (128 <=? length (real_create_grants data))%nat then (data, Err Capacity)
  else (data <| real_create_grants := real_create_grants data ++ [mkStoredCreateGrant verifier expires None] |>, Ok tt).
Definition quarantine_real_creation (data : StoreData) : StoreData * result unit StoreError :=
  (data <| real_creation_quarantined := true |>, Ok tt).

(** ** Creation *)

Definition idempotency_digest (fingerprint : list Z) : list Z := sha256 (IDEMPOTENCY_DIGEST_DOMAIN ++ fingerprint).

Definition is_per_lobby (l : Lobby) : bool := match provisioning_mode l with TailnetPerLobby => true | _ => false end.
Definition alpha_receipt_refused (data : StoreData) (receipt : StoredProtectedAlphaReceipt) (now : UnixMillis) (record : StoredLobby)
    (candidate : list Z) : bool :=
  let q := alpha receipt in
  is_some (alpha_consumed_at receipt)
  || (q_expires_at q <=? now)
  || (q_final_io_deadline q <=? now)
  || (q_absolute_deadline q <=? now)
  || negb (bool_decide (q_lobby_id q = lobby_id (lobby record)))
  || negb (q_network_generation q =? sl_generation record)
  || negb (bool_decide (q_store_instance_id_sha256 q = instance_id_sha256 (store_binding data)))
  || negb (bool_decide (q_canonical_state_path_sha256 q = canonical_state_path_sha256 data))
  || negb (is_per_lobby (lobby record))
  || (max_players (lobby record) >? q_participant_cap q)
  || negb (constant_time_eq (q_launch_code_sha256 q) candidate).
Definition local_receipt_refused (receipt : StoredLocalRehearsalReceipt) (now : UnixMillis) (record : StoredLobby) (candidate : list Z) : bool :=
  is_some (local_consumed_at receipt)
  || (local_receipt_expires_at receipt <=? now)
  || negb (bool_decide (receipt_lobby_id receipt = lobby_id (lobby record)))
  || negb (receipt_network_generation receipt =? sl_generation record)
  || negb (is_per_lobby (lobby record))
  || (max_players (lobby record) >? receipt_participant_cap receipt)
  || negb (constant_time_eq (local_verifier receipt) candidate).
Definition grant_matches (now : UnixMillis) (candidate : list Z) (grant : StoredCreateGrant) : bool :=
  is_none (grant_consumed_at grant) && (now <? grant_expires_at grant) && constant_time_eq (grant_verifier grant) candidate.
(** The first matching grant is used up. *)
Fixpoint use_grant (now : UnixMillis) (candidate : list Z) (l : list StoredCreateGrant) : option (list StoredCreateGrant) :=
  match l with
  | [] => None
  | grant :: l =>
      if grant_matches now candidate grant then Some (grant <| grant_consumed_at := Some now |> :: l)
      else match use_grant now candidate l with Some l => Some (grant :: l) | None => None end
  end.

(** The authority a real creation uses up. *)
Definition use_authority (data : StoreData) (now : UnixMillis) (record : StoredLobby) (candidate : list Z) : result StoreData StoreError :=
  match protected_alpha_receipt data with
  | Some receipt =>
      if alpha_receipt_refused data receipt now record candidate then Err InvalidRehearsalReceipt
      else Ok (data <| protected_alpha_receipt := Some (receipt <| alpha_consumed_at := Some now |>) |>)
  | None =>
      match local_rehearsal_receipt data with
      | Some receipt =>
          if local_receipt_refused receipt now record candidate then Err InvalidRehearsalReceipt
          else Ok (data <| local_rehearsal_receipt := Some (receipt <| local_consumed_at := Some now |>) |>)
      | None =>
          match use_grant now candidate (real_create_grants data) with
          | None => Err InvalidCreateGrant
          | Some grants => Ok (data <| real_create_grants := grants |>)
          end
      end
  end.
Definition lease_of (record : StoredLobby) (fingerprint : list Z) (now : UnixMillis) : RealLobbyLease :=
  mkRealLobbyLease (lobby_id (lobby record)) (sl_generation record) (idempotency_digest fingerprint) now (sl_lifecycle record).
Definition reserve_real (data : StoreData) (fingerprint : list Z) (now : UnixMillis) (record : StoredLobby) (grant : option (list Z))
    (allow_new_real : bool) : result StoreData StoreError :=
  if dry_run record then Ok data
  else if negb allow_new_real then Err RealMutationsDisabled
  else if real_creation_quarantined data || is_some (real_lobby_lease data) then Err RealLobbyCapacityReached
  else
    match grant with
    | None => Err InvalidCreateGrant
    | Some candidate =>
        match use_authority data now record candidate with
        | Err e => Err e
        | Ok data => Ok (data <| real_lobby_lease := Some (lease_of record fingerprint now) |>)
        end
    end.

Definition create_in_data (data : StoreData) (key fingerprint : list Z) (actor : PlayerId) (now : UnixMillis) (record : StoredLobby)
    (grant : option (list Z)) (allow_new_real : bool) : StoreData * result CreateStoreOutcome StoreError :=
  let data := purge_retained data now in
  match create_replays data !! key with
  | Some replay =>
      if negb (bool_decide (replay_fingerprint replay = fingerprint)) || negb (bool_decide (replay_actor replay = actor))
      then (data, Ok CreateConflict)
      else match lobbies data !! replay_lobby_id replay with
           | Some found => (data, Ok (Replay found))
           | None => (data, Err InconsistentIdempotency)
           end
  | None =>
      if (MAX_STORED_LOBBIES <=? size (lobbies data))%nat || (MAX_CREATE_REPLAYS <=? size (create_replays data))%nat
      then (data, Err Capacity)
      else if is_some (lobbies data !! lobby_id (lobby record)) then (data, Err DuplicateLobby)
      else
        match reserve_real data fingerprint now record grant allow_new_real with
        | Err e => (data, Err e)
        | Ok data =>
            (data <| create_replays := <[key := mkCreateReplay fingerprint (lobby_id (lobby record)) actor now]> (create_replays data) |>
                  <| lobbies := <[lobby_id (lobby record) := record]> (lobbies data) |>, Ok (Created record))
        end
  end.

(** ** Replacement *)

Definition quarantined_data (data : StoreData) : StoreData := data <| real_creation_quarantined := true |>.
(** What the new record does to the lease. *)
Definition replace_lease (data : StoreData) (record : StoredLobby) : StoreData :=
  let release_requested := lease_release_lifecycle (sl_lifecycle record) in
  let release := release_requested && has_release_proof record in
  match real_lobby_lease data with
  | Some lease =>
      if bool_decide (holder_lobby_id lease = lobby_id (lobby record)) then
        if negb (lease_generation lease =? sl_generation record) then quarantined_data data
        else
          let data := data <| real_lobby_lease := Some (lease <| lease_lifecycle := sl_lifecycle record |>) |> in
          if release then data <| real_lobby_lease := None |>
          else if release_requested then quarantined_data data
          else data
      else if negb (dry_run record) && negb release then quarantined_data data else data
  | None => if negb (dry_run record) && negb release then quarantined_data data else data
  end.
Definition replace_in_data (data : StoreData) (record : StoredLobby) : StoreData * result unit StoreError :=
  match lobbies data !! lobby_id (lobby record) with
  | None => (data, Err LobbyNotFound)
  | Some _ => (replace_lease (data <| lobbies := <[lobby_id (lobby record) := record]> (lobbies data) |>) record, Ok tt)
  end.

(** ** Lookup and maintenance *)

Definition authorized_network_view (data : StoreData) (id : LobbyId) (verifier : list Z) (now : UnixMillis) : option StoredLobby :=
  match lobbies data !! id with
  | None => None
  | Some stored => match authorize stored verifier LobbyRead None now with Some _ => Some stored | None => None end
  end.

Definition needs_cleanup (transitioned : bool) (record : StoredLobby) : bool :=
  transitioned
  || (match state (lobby record) with Closing => true | _ => false end)
  || (sl_cleanup_pending record && match state (lobby record) with Failed | Expired | Destroyed => true | _ => false end).
Definition cleanup_in_data (data : StoreData) (now : UnixMillis) : StoreData * list LobbyId :=
  let data := purge_retained data now in
  (data <| lobbies := (fun record => (apply_time_transitions record now).1) <$> lobbies data |>,
   (filter (fun '(_, record) => let '(record, transitioned) := apply_time_transitions record now in needs_cleanup transitioned record = true)
      (btree_list (lobbies data))).*1).

(** ** Loading *)

Definition is_active_real (record : StoredLobby) : bool :=
  negb (dry_run record || (lease_release_lifecycle (sl_lifecycle record) && has_release_proof record)).
Definition migrate_generation (record : StoredLobby) : StoredLobby :=
  if sl_generation record =? 0 then record <| sl_generation := 1 |> else record.
Definition migrate_lifecycle (record : StoredLobby) : StoredLobby :=
  if sl_lifecycle record =?? Simulated
  then record <| sl_lifecycle := ManualRemediation |> <| sl_cleanup_pending := true |> else record.
Definition migrate_record (record : StoredLobby) : StoredLobby :=
  if is_active_real record then migrate_lifecycle (migrate_generation record) else record.
Definition is_migrated (record : StoredLobby) : bool :=
  is_active_real record && ((sl_generation record =? 0) || (sl_lifecycle record =?? Simulated)).
Definition recovered_lease (id : LobbyId) (record : StoredLobby) (lifecycle : NetworkLifecycle) : RealLobbyLease :=
  mkRealLobbyLease id (sl_generation record) (repeat 0 32) (created_at (lobby record)) lifecycle.
Definition normalize_loaded_store (data : StoreData) : StoreData * bool :=
  let changed := existsb is_migrated (btree_values (lobbies data)) in
  let active_real := filter (fun '(_, record) => is_active_real record = true) (btree_list (lobbies data)) in
  let holders := map (fun '(id, record) => (id, migrate_record record)) active_real in
  let data := data <| lobbies := migrate_record <$> lobbies data |> in
  match real_lobby_lease data, holders with
  | None, [] => (data, changed)
  | None, [(holder, stored)] => (data <| real_lobby_lease := Some (recovered_lease holder stored (sl_lifecycle stored)) |>, true)
  | None, (holder, stored) :: _ =>
      (quarantined_data (data <| real_lobby_lease := Some (recovered_lease holder stored ManualRemediation) |>), true)
  | Some lease, _ =>
      if (match holders with [(holder, _)] => bool_decide (holder = holder_lobby_id lease) | _ => false end)
         && is_some_and (lobbies data !! holder_lobby_id lease) (fun stored => sl_generation stored =? lease_generation lease)
      then (data, changed) else (quarantined_data data, true)
  end.

(** [JsonFileStore::open]: what was read, the digest of the path, fresh randomness,
    and whether the file system can write. *)
Inductive StateFile := FileAbsent | FileUnreadable | FileMalformed | FileData (data : StoreData).
Definition store_default (instance : list Z) : StoreData := mkStoreData instance (repeat 0 32) ∅ ∅ None false [] None None.
Definition store_open (file : StateFile) (path_digest random : list Z) (writable : bool) : result StoreData StoreError :=
  match (match file with
         | FileData data => Ok data
         | FileMalformed => Err StoreDecode
         | FileUnreadable => Err StoreIo
         | FileAbsent => Ok (store_default random)
         end) with
  | Err e => Err e
  | Ok data =>
      let unbound := canonical_state_path_sha256 data =?? repeat 0 32 in
      if negb unbound && (canonical_state_path_sha256 data <>?? path_digest) then Err StoreDecode
      else
        let data := if unbound then data <| canonical_state_path_sha256 := path_digest |> else data in
        let data := if store_instance_id data =?? repeat 0 32 then data <| store_instance_id := random |> else data in
        let data := (normalize_loaded_store data).1 in
        if writable then Ok data else Err StoreIo
  end.

(** ** The two stores *)

(** A transaction of the file store: the change is made on a copy, written, and only
    then takes effect. The memory store changes its data in place. *)
Definition committed {A} (data : StoreData) (written : bool) (change : StoreData * result A StoreError) : StoreData * result A StoreError :=
  match change with
  | (_, Err e) => (data, Err e)
  | (next, Ok a) => if written then (next, Ok a) else (data, Err StoreIo)
  end.

Inductive StoreOp :=
| OpInstallAlpha (q : ProtectedAlphaQualification)
| OpInstallRehearsal (q : LocalRehearsalQualification)
| OpIssueGrant (verifier : list Z) (expires : UnixMillis)
| OpQuarantine
| OpCreate (key fingerprint : list Z) (actor : PlayerId) (now : UnixMillis) (record : StoredLobby) (grant : option (list Z)) (allow : bool)
| OpReplace (record : StoredLobby)
| OpCleanup (now : UnixMillis).
Inductive StoreAnswer := Done | CreateAnswer (outcome : CreateStoreOutcome) | CleanupAnswer (ids : list LobbyId).
Definition answered {A} (f : A -> StoreAnswer) (change : StoreData * result A StoreError) : StoreData * result StoreAnswer StoreError :=
  match change with (data, Ok a) => (data, Ok (f a)) | (data, Err e) => (data, Err e) end.

Definition memory_step (data : StoreData) (op : StoreOp) : StoreData * result StoreAnswer StoreError :=
  match op with
  | OpInstallAlpha q => answered (fun _ => Done) (install_alpha_in_data data q)
  | OpInstallRehearsal q => answered (fun _ => Done) (install_rehearsal_in_data data q)
  | OpIssueGrant verifier expires => answered (fun _ => Done) (issue_real_create_grant data verifier expires)
  | OpQuarantine => answered (fun _ => Done) (quarantine_real_creation data)
  | OpCreate key fingerprint actor now record grant allow =>
      answered CreateAnswer (create_in_data data key fingerprint actor now record grant allow)
  | OpReplace record => answered (fun _ => Done) (replace_in_data data record)
  | OpCleanup now => let '(data, ids) := cleanup_in_data data now in (data, Ok (CleanupAnswer ids))
  end.
(** The stored text, by which two states are compared. *)
Class StoreJson := { json_store : StoreData -> list Z }.
(** The file store writes nothing when quarantine is already recorded, and nothing
    when the cleanup leaves the text of the state as it was. *)
Definition file_step `{StoreJson} (data : StoreData) (op : StoreOp) (written : bool) : StoreData * result StoreAnswer StoreError :=
  match op with
  | OpQuarantine => if real_creation_quarantined data then (data, Ok Done) else committed data written (memory_step data op)
  | OpCleanup now =>
      let '(next, ids) := cleanup_in_data data now in
      if json_store next =?? json_store data then (data, Ok (CleanupAnswer ids))
      else committed data written (next, Ok (CleanupAnswer ids))
  | _ => committed data written (memory_step data op)
  end.
