(* ===== verification/StoreRun.v ===== *)
(** * What the server's store guarantees

    There is at most one real network; its lease ends with a proof only; a creation is
    carried out once per key; a receipt admits one lobby. *)

From S2P Require Import Prelude MachineInt Ordered Clock Bytes Identifiers WireVersion LobbyLifecycle Model Session Rehearsal Election.
From S2P Require Import NetworkInspection ServerCrypto Store.
From stdpp Require Import gmap.
Open Scope Z_scope.

(** ** The invariant *)

(** A record whose real network may still exist. *)
Definition holds_network (r : StoredLobby) : bool := negb (dry_run r) && negb (lease_release_lifecycle (sl_lifecycle r)).

Record store_inv (data : StoreData) : Prop := {
  inv_keys : forall id r, lobbies data !! id = Some r -> lobby_id (lobby r) = id;
  inv_lease : forall lease, real_lobby_lease data = Some lease -> is_Some (lobbies data !! holder_lobby_id lease) \/ real_creation_quarantined data = true;
  inv_real : real_creation_quarantined data = false -> forall id r, lobbies data !! id = Some r -> holds_network r = true ->
    exists lease, real_lobby_lease data = Some lease /\ holder_lobby_id lease = id /\ lease_generation lease = sl_generation r;
}.

Lemma purge_lookup data now id r' :
  lobbies (purge_retained data now) !! id = Some r' <->
  exists r, lobbies data !! id = Some r /\ r' = purge_record now r /\ is_removed (real_lobby_lease data) now id r' = false.
Proof.
  unfold purge_retained. cbn [lobbies set_field]. cbn. rewrite map_lookup_filter_Some, lookup_fmap_Some. naive_solver.
Qed.

Lemma purge_frame data now :
  real_lobby_lease (purge_retained data now) = real_lobby_lease data /\
  real_creation_quarantined (purge_retained data now) = real_creation_quarantined data /\
  protected_alpha_receipt (purge_retained data now) = protected_alpha_receipt data /\
  local_rehearsal_receipt (purge_retained data now) = local_rehearsal_receipt data.
Proof. done. Qed.

(** A change of records that leaves their networks alone. *)
Definition same_network (r r' : StoredLobby) : Prop :=
  lobby_id (lobby r') = lobby_id (lobby r) /\ dry_run r' = dry_run r /\ sl_lifecycle r' = sl_lifecycle r /\ sl_generation r' = sl_generation r.
Lemma same_network_holds r r' : same_network r r' -> holds_network r' = holds_network r.
Proof. unfold same_network, holds_network. by intros (_ & -> & -> & _). Qed.

Lemma purge_inv data now : store_inv data -> store_inv (purge_retained data now).
Proof.
  intros [Hk Hl Hr]. split.
  - intros id r' (r & Hr1 & -> & _)%purge_lookup. simpl. by apply Hk.
  - intros lease Hlease. destruct (Hl lease Hlease) as [[r Hr1]|Hq]; [left|by right].
    exists (purge_record now r). apply purge_lookup. exists r. split; [done|]. split; [done|].
    unfold is_removed. simpl in Hlease. rewrite Hlease. simpl. by rewrite bool_decide_true.
  - intros Hq id r' (r & Hr1 & -> & _)%purge_lookup Hn. by apply (Hr Hq id r Hr1).
Qed.

Lemma time_same_network r now : same_network r (apply_time_transitions r now).1.
Proof.
  unfold apply_time_transitions. destruct (time_target r now) as [[next reason]|]; [|done]. by destruct (validate_transition _ _).
Qed.

(** Replacing every record by one with the same network. *)
Lemma fmap_inv data (f : StoredLobby -> StoredLobby) :
  (forall r, same_network r (f r)) -> store_inv data -> store_inv (data <| lobbies := f <$> lobbies data |>).
Proof.
  intros Hf [Hk Hl Hr]. split; simpl.
  - intros id r' (r & <- & Hr1)%lookup_fmap_Some. destruct (Hf r) as (-> & _). by apply Hk.
  - intros lease Hlease. destruct (Hl lease Hlease) as [[r Hr1]|Hq]; [left|by right]. rewrite lookup_fmap, Hr1. by eexists.
  - intros Hq id r' (r & <- & Hr1)%lookup_fmap_Some Hn. rewrite (same_network_holds _ _ (Hf r)) in Hn. destruct (Hf r) as (_ & _ & _ & ->).
    by apply (Hr Hq id r Hr1).
Qed.

Lemma use_authority_frame data now record candidate data' :
  use_authority data now record candidate = Ok data' ->
  lobbies data' = lobbies data /\ real_creation_quarantined data' = real_creation_quarantined data /\
  real_lobby_lease data' = real_lobby_lease data /\ create_replays data' = create_replays data.
Proof.
  unfold use_authority. destruct (protected_alpha_receipt data) as [receipt|].
  { destruct (alpha_receipt_refused _ _ _ _ _); [done|]. by intros [= <-]. }
  destruct (local_rehearsal_receipt data) as [receipt|].
  { destruct (local_receipt_refused _ _ _ _); [done|]. by intros [= <-]. }
  destruct (use_grant _ _ _); [|done]. by intros [= <-].
Qed.

Lemma reserve_real_spec data fingerprint now record grant allow data' :
  reserve_real data fingerprint now record grant allow = Ok data' ->
  lobbies data' = lobbies data /\ create_replays data' = create_replays data /\
  real_creation_quarantined data' = real_creation_quarantined data /\
  (dry_run record = true /\ data' = data \/
   dry_run record = false /\ allow = true /\ real_creation_quarantined data = false /\ real_lobby_lease data = None /\
   real_lobby_lease data' = Some (lease_of record fingerprint now) /\
   exists candidate data1, grant = Some candidate /\ use_authority data now record candidate = Ok data1 /\
     data' = data1 <| real_lobby_lease := Some (lease_of record fingerprint now) |>).
Proof.
  unfold reserve_real. destruct (dry_run record); [intros [= <-]; split_and!; try done; by left|].
  destruct allow; cbn [negb]; [|done]. destruct (real_creation_quarantined data) eqn:Hq; [done|]. cbn [orb].
  destruct (real_lobby_lease data) eqn:Hl; [done|]. cbn [is_some]. destruct grant as [candidate|]; [|done].
  destruct (use_authority data now record candidate) as [data1|] eqn:Ha; [|done]. intros [= <-].
  pose proof (use_authority_frame _ _ _ _ _ Ha) as (Hlob & Hqq & Hll & Hcr). simpl.
  split; [done|]. split; [done|]. split; [congruence|]. right. split_and!; try done. by exists candidate, data1.
Qed.

Definition created (data : StoreData) (key : list Z) (replay : CreateReplay) (record : StoredLobby) : StoreData :=
  data <| create_replays := <[key := replay]> (create_replays data) |> <| lobbies := <[lobby_id (lobby record) := record]> (lobbies data) |>.

Lemma create_cases data key fingerprint actor now record grant allow :
  let purged := purge_retained data now in
  let '(data', r) := create_in_data data key fingerprint actor now record grant allow in
  (data' = purged /\ forall outcome, r <> Ok (Created outcome)) \/
  (exists data1, create_replays purged !! key = None /\ lobbies purged !! lobby_id (lobby record) = None /\
     reserve_real purged fingerprint now record grant allow = Ok data1 /\
     r = Ok (Created record) /\ data' = created data1 key (mkCreateReplay fingerprint (lobby_id (lobby record)) actor now) record).
Proof.
  cbv zeta. unfold create_in_data. destruct (create_replays (purge_retained data now) !! key) as [replay|] eqn:Hk.
  - destruct (negb _ || negb _); [by left|]. destruct (lobbies _ !! _); by left.
  - destruct ((MAX_STORED_LOBBIES <=? _)%nat || _); [by left|]. destruct (is_some (lobbies (purge_retained data now) !! _)) eqn:Hs; [by left|].
    destruct (reserve_real _ _ _ _ _ _) as [data1|e] eqn:Hr; [|by left]. right. exists data1. split_and!; try done.
    by destruct (lobbies (purge_retained data now) !! lobby_id (lobby record)).
Qed.

(** What an operation does to the store as far as networks are concerned: one record is
    written, and the lease and the quarantine are given. *)
Lemma write_inv data id record data' :
  store_inv data ->
  lobbies data' = <[id := record]> (lobbies data) -> lobby_id (lobby record) = id ->
  (real_creation_quarantined data = true -> real_creation_quarantined data' = true) ->
  (forall lease, real_lobby_lease data' = Some lease -> holder_lobby_id lease = id \/
     exists old, real_lobby_lease data = Some old /\ holder_lobby_id lease = holder_lobby_id old) ->
  (real_creation_quarantined data' = false ->
     (holds_network record = true -> exists lease, real_lobby_lease data' = Some lease /\ holder_lobby_id lease = id /\ lease_generation lease = sl_generation record) /\
     (forall lease, real_lobby_lease data = Some lease -> holder_lobby_id lease <> id ->
        real_lobby_lease data' = Some lease)) ->
  store_inv data'.
Proof.
  intros [Hk Hl Hr] Hlob Hid Hq Hlease Hnew. split.
  - intros i r. rewrite Hlob. intros [[<- <-]|[_ Hi]]%lookup_insert_Some; [done|by apply Hk].
  - intros lease Hs. rewrite Hlob. destruct (Hlease lease Hs) as [->|(old & Hold & ->)]; [left; rewrite lookup_insert_eq; by eexists|].
    destruct (Hl old Hold) as [Hsome|Hquar]; [left; apply lookup_insert_is_Some'; by right|right; by apply Hq].
  - intros Hnq i r. destruct (Hnew Hnq) as [Hrec Hother].
    assert (Hnq0 : real_creation_quarantined data = false).
    { destruct (real_creation_quarantined data) eqn:E; [|done]. rewrite Hq in Hnq by done. done. }
    rewrite Hlob. intros [[<- <-]|[Hne Hi]]%lookup_insert_Some Hn; [by apply Hrec|].
    destruct (Hr Hnq0 i r Hi Hn) as (lease & Hs & <- & Hg). exists lease. split_and!; try done. apply Hother; done.
Qed.

Lemma create_inv data key fingerprint actor now record grant allow :
  store_inv data -> store_inv (create_in_data data key fingerprint actor now record grant allow).1.
Proof.
  intros Hinv. pose proof (create_cases data key fingerprint actor now record grant allow) as Hcases.
  pose proof (purge_inv data now Hinv) as Hp. destruct (create_in_data _ _ _ _ _ _ _ _) as [data' r]. cbv zeta in Hcases.
  destruct Hcases as [[-> _]|(data1 & _ & Hfree & Hres & _ & ->)]; [done|].
  apply reserve_real_spec in Hres as (Hlob & _ & Hq & Hcase). apply (write_inv _ (lobby_id (lobby record)) record _ Hp); simpl.
  - by rewrite Hlob.
  - done.
  - by rewrite Hq.
  - destruct Hcase as [[_ ->]|(_ & _ & _ & _ & -> & _)]; [|intros lease [= <-]; by left]. intros lease Hs. right. by exists lease.
  - intros _. unfold holds_network. destruct Hcase as [[-> ->]|(Hreal & _ & _ & Hnone & -> & _)]; [by split|].
    simpl in Hnone. rewrite Hnone. split; [|done]. intros _. by exists (lease_of record fingerprint now).
Qed.

(** What replacing a record does to the lease. *)
Lemma replace_lease_spec data record :
  lobbies (replace_lease data record) = lobbies data /\
  create_replays (replace_lease data record) = create_replays data /\
  protected_alpha_receipt (replace_lease data record) = protected_alpha_receipt data /\
  (real_creation_quarantined data = true -> real_creation_quarantined (replace_lease data record) = true) /\
  match real_lobby_lease data with
  | None => real_lobby_lease (replace_lease data record) = None
  | Some lease =>
      real_lobby_lease (replace_lease data record) = Some lease \/
      holder_lobby_id lease = lobby_id (lobby record) /\ lease_generation lease = sl_generation record /\
      (real_lobby_lease (replace_lease data record) = Some (lease <| lease_lifecycle := sl_lifecycle record |>) \/
       real_lobby_lease (replace_lease data record) = None /\ lease_release_lifecycle (sl_lifecycle record) = true /\ has_release_proof record = true)
  end /\
  (real_creation_quarantined (replace_lease data record) = false -> holds_network record = true ->
     exists lease, real_lobby_lease (replace_lease data record) = Some lease /\ holder_lobby_id lease = lobby_id (lobby record) /\
       lease_generation lease = sl_generation record).
Proof.
  unfold replace_lease, holds_network.
  destruct (real_lobby_lease data) as [lease|] eqn:Hl;
    [destruct (bool_decide_reflect (holder_lobby_id lease = lobby_id (lobby record))) as [Hh|Hh];
       [destruct (Z.eqb_spec (lease_generation lease) (sl_generation record)) as [Hg|Hg]|]|];
    destruct (dry_run record), (lease_release_lifecycle (sl_lifecycle record)), (has_release_proof record); simpl; rewrite ?Hl;
    repeat split; try done; try (by left); try (right; repeat split; auto; fail); intros _ _; by eexists.
Qed.

Lemma replace_inv data record : store_inv data -> store_inv (replace_in_data data record).1.
Proof.
  intros Hinv. unfold replace_in_data. destruct (lobbies data !! lobby_id (lobby record)) as [old|] eqn:Hold; [|done]. cbn [fst].
  set (written := data <| lobbies := <[lobby_id (lobby record) := record]> (lobbies data) |>).
  pose proof (replace_lease_spec written record) as (Hlob & _ & _ & Hq & Hl & Hheld). change (real_lobby_lease written) with (real_lobby_lease data) in Hl.
  apply (write_inv data (lobby_id (lobby record)) record _ Hinv); try done.
  - intros lease Hs. rewrite Hs in Hl. destruct (real_lobby_lease data) as [old_lease|]; [|done].
    destruct Hl as [[= ->]|(Hh & _ & [[= ->]|[? _]])]; [right; exists old_lease; by split|by left|done].
  - intros Hnq. split; [by apply Hheld|]. intros lease Hs Hne. rewrite Hs in Hl. destruct Hl as [Hsame|[Hh _]]; [exact Hsame|congruence].
Qed.

Lemma cleanup_inv data now : store_inv data -> store_inv (cleanup_in_data data now).1.
Proof.
  intros Hinv. unfold cleanup_in_data. cbv zeta. simpl fst. apply (fmap_inv (purge_retained data now) (fun record => (apply_time_transitions record now).1)); [|by apply purge_inv].
  intros r. apply time_same_network.
Qed.

(** ** Every operation keeps the invariant *)

(** Nothing the invariant speaks of has changed, but for a quarantine that may be new. *)
Lemma same_inv data data' :
  lobbies data' = lobbies data -> real_lobby_lease data' = real_lobby_lease data ->
  (real_creation_quarantined data = true -> real_creation_quarantined data' = true) ->
  store_inv data -> store_inv data'.
Proof.
  intros Hlob Hlease Hq [Hk Hl Hr]. split; rewrite ?Hlob, ?Hlease; [done|intros lease Hs; destruct (Hl lease Hs); auto|].
  intros Hnq. apply Hr. destruct (real_creation_quarantined data); [|done]. by rewrite Hq in Hnq.
Qed.

Lemma step_inv data op : store_inv data -> store_inv (memory_step data op).1.
Proof.
  assert (Hans : forall A (f : A -> StoreAnswer) change, (answered f change).1 = change.1) by (by intros A f [? []]).
  intros Hinv. destruct op as [q|q|verifier expires| |key fingerprint actor now record grant allow|record|now]; cbn [memory_step]; rewrite ?Hans.
  - unfold install_alpha_in_data. destruct (_ || _); [done|]. by apply (same_inv data).
  - unfold install_rehearsal_in_data. destruct (_ || _); [done|]. by apply (same_inv data).
  - unfold issue_real_create_grant. destruct (128 <=? _)%nat; [done|]. by apply (same_inv data).
  - by apply (same_inv data).
  - by apply create_inv.
  - by apply replace_inv.
  - exact (cleanup_inv data now Hinv).
Qed.

Definition creates (op_answer : result StoreAnswer StoreError) (record : StoredLobby) : Prop := op_answer = Ok (CreateAnswer (Created record)).

(** The file store either keeps its data or does what the memory store does. *)
Lemma file_step_cases `{StoreJson} data op written :
  let step := file_step data op written in
  (step.1 = data /\ forall record, ~ creates step.2 record) \/ (written = true /\ step = memory_step data op).
Proof.
  assert (Hcommit : forall change, let s := committed data written change in
    (s.1 = data /\ forall record, ~ creates s.2 record) \/ (written = true /\ s = change)).
  { intros [next [a|e]]; simpl; [destruct written; [by right|]|]; by left. }
  cbv zeta. destruct op; try apply Hcommit; unfold file_step.
  - destruct (real_creation_quarantined data); [by left|]. apply Hcommit.
  - cbn [memory_step]. destruct (cleanup_in_data data now) as [next ids]. destruct (_ =?? _); [by left|]. apply Hcommit.
Qed.

Definition keyed (data : StoreData) : Prop := forall id r, lobbies data !! id = Some r -> lobby_id (lobby r) = id.

Lemma migrate_keeps r : lobby_id (lobby (migrate_record r)) = lobby_id (lobby r) /\ dry_run (migrate_record r) = dry_run r /\
  (is_active_real r = false -> migrate_record r = r).
Proof.
  unfold migrate_record. destruct (is_active_real r); [|done]. split_and!; [| |done];
    unfold migrate_lifecycle, migrate_generation; by destruct (sl_generation r =? 0); simpl; destruct (_ =?? _).
Qed.
Lemma inactive_holds r : is_active_real r = false -> holds_network r = false.
Proof. unfold is_active_real, holds_network. by destruct (dry_run r), (lease_release_lifecycle _). Qed.

Lemma normalize_inv data : keyed data -> store_inv (normalize_loaded_store data).1.
Proof.
  intros Hkey. unfold normalize_loaded_store. cbv zeta.
  set (holders := map _ _). set (base := data <| lobbies := migrate_record <$> lobbies data |>).
  assert (Hkeys : keyed base).
  { intros id r. subst base. simpl. intros (r0 & <- & Hr0)%lookup_fmap_Some. rewrite (proj1 (migrate_keeps r0)). by apply Hkey. }
  assert (Hin : forall id r, lobbies base !! id = Some r -> holds_network r = true -> (id, r) ∈ holders).
  { intros id r. subst base holders. simpl. intros (r0 & <- & Hr0)%lookup_fmap_Some Hh. apply list_elem_of_fmap. exists (id, r0).
    destruct (is_active_real r0) eqn:Ha; [|by rewrite (proj2 (proj2 (migrate_keeps r0)) Ha), (inactive_holds r0 Ha) in Hh].
    split; [done|]. apply list_elem_of_filter. split; [done|]. by apply elem_of_btree_list. }
  assert (Hfrom : forall id r, (id, r) ∈ holders -> lobbies base !! id = Some r).
  { intros id r. subst base holders. simpl. intros ([id0 r0] & [= -> ->] & [_ Hr]%list_elem_of_filter)%list_elem_of_fmap.
    rewrite lookup_fmap. apply elem_of_btree_list in Hr. by rewrite Hr. }
  change (real_lobby_lease base) with (real_lobby_lease data).
  destruct (real_lobby_lease data) as [lease|] eqn:Hl.
  - destruct (match holders with [(holder, _)] => _ | _ => false end && _) eqn:Hok; simpl fst.
    2:{ split; [done|by right|done]. }
    apply andb_true_iff in Hok as [Hone Hgen]. destruct holders as [|[holder r0] [|]]; try done. apply bool_decide_eq_true in Hone as ->.
    destruct (lobbies base !! holder_lobby_id lease) as [stored|] eqn:Hs; [|done]. simpl in Hgen. split; [done| |].
    + intros l. change (real_lobby_lease base) with (real_lobby_lease data). rewrite Hl. intros [= <-]. left. rewrite Hs. by eexists.
    + intros _ id r Hid Hh. exists lease. split; [done|]. pose proof (Hin id r Hid Hh) as [= -> ->]%list_elem_of_singleton.
      split; [done|]. rewrite Hs in Hid. injection Hid as ->. lia.
  - destruct holders as [|[holder stored] [|other rest]]; simpl fst.
    + split; [done|intros lease Hs; change (real_lobby_lease data = Some lease) in Hs; congruence|]. intros _ id r Hid Hh. by pose proof (Hin id r Hid Hh) as ?%elem_of_nil.
    + assert (Hs : lobbies base !! holder = Some stored) by (apply Hfrom; apply list_elem_of_singleton; done). split; simpl.
      * exact Hkeys.
      * intros lease [= <-]. left. simpl. change (is_Some (lobbies base !! holder)). rewrite Hs. by eexists.
      * intros _ id r Hid Hh. pose proof (Hin id r Hid Hh) as [= -> ->]%list_elem_of_singleton. by eexists.
    + split; simpl; [exact Hkeys|by right|done].
Qed.

Lemma open_inv file path_digest random writable data :
  match file with FileData stored => keyed stored | _ => True end ->
  store_open file path_digest random writable = Ok data -> store_inv data.
Proof.
  assert (Hnone : keyed (store_default random)) by (intros id r; simpl; by rewrite lookup_empty).
  intros Hkey Hopen.
  assert (Hread : exists base, keyed base /\ file = FileData base \/ base = store_default random /\ file = FileAbsent)
    by (destruct file as [| | |stored]; try discriminate Hopen; [exists (store_default random); by right|exists stored; by left]).
  assert (Hnorm : exists base, keyed base /\ data = (normalize_loaded_store base).1);
    [|destruct Hnorm as (base & Hbase & ->); by apply normalize_inv].
  destruct Hread as (base & [[Hbase ->]|[-> ->]]); unfold store_open in Hopen; cbv zeta in Hopen;
    (match type of Hopen with (if ?refused then _ else _) = _ => destruct refused; [discriminate Hopen|] end);
    (destruct writable; [|discriminate Hopen]); injection Hopen as <-; eexists; (split; [|reflexivity]);
    repeat match goal with |- context [if ?unset then _ else _] => destruct unset end; assumption.
Qed.

(** ** What an operation does to the lease *)

(** The evidence that a real network is gone. *)
Definition network_gone (r : StoredLobby) : Prop :=
  match sl_lifecycle r with
  | CreateRejected => network_identity r = None
  | DedicatedAbsent =>
      exists identity id,
        network_identity r = Some identity /\ provider_tailnet_id identity = Some id /\
        identity_network_generation identity = sl_generation r /\ dns_name (identity_dns_name identity) = tailnet r /\
        is_Some (sl_delete_acknowledged_at r) /\ is_Some (child_secret_erased_at r) /\ absence_monotonic_verified r = true /\
        absence_observation_generation r = Some (sl_generation r) /\ absence_observation_provider_id r = Some id /\
        is_Some (first_absence_observed_at r) /\ is_Some (sl_absence_confirmed_at r) /\ sl_cleanup_pending r = false
  | SharedResourcesClean =>
      exists identity,
        network_identity r = Some identity /\ provisioning_mode (lobby r) = SharedTailnet /\ provider_tailnet_id identity = None /\
        identity_network_generation identity = sl_generation r /\ dns_name (identity_dns_name identity) = tailnet r /\
        is_Some (cleanup_requested_at r) /\ sl_cleanup_pending r = false
  | _ => False
  end.
Lemma release_proof_gone r : has_release_proof r = true -> network_gone r.
Proof.
  unfold has_release_proof, network_gone, identity_provider_id. destruct (sl_lifecycle r); try done; [by rewrite is_none_true| |].
  - rewrite !andb_true_iff, !is_some_true, negb_true_iff, is_some_and_true, !bool_decide_eq_true.
    intros (((((((((Hid & _) & Hack) & Herased) & Hmono) & Hgen) & Hprov) & Hfirst) & Habs) & Hpend).
    destruct Hid as (identity & Hi & [[Hg Hdns]%andb_true_iff Hp]%andb_true_iff). apply is_some_and_true in Hp as (id & Hid & _).
    exists identity, id. rewrite Hi in Hprov. simpl in Hprov. rewrite Hid in Hprov. apply bool_decide_eq_true in Hdns. split_and!; try done. lia.
  - rewrite !andb_true_iff, !is_some_true, negb_true_iff, is_some_and_true. intros (((Hmode & Hid) & Hreq) & Hpend).
    destruct Hid as (identity & Hi & [[Hg Hp]%andb_true_iff Hdns]%andb_true_iff). exists identity.
    apply bool_decide_eq_true in Hdns. apply is_none_true in Hp. split_and!; try done; [|lia]. by destruct (provisioning_mode (lobby r)).
Qed.

(** The lease over one operation: it keeps its holder and generation, unless the
    operation writes the holder's record with the evidence. *)
Definition frees (lease : RealLobbyLease) (op : StoreOp) : Prop :=
  exists record, op = OpReplace record /\ lobby_id (lobby record) = holder_lobby_id lease /\ sl_generation record = lease_generation lease /\
    network_gone record.
Lemma step_lease data op lease :
  real_lobby_lease data = Some lease ->
  let next := (memory_step data op).1 in
  (exists lifecycle, real_lobby_lease next = Some (lease <| lease_lifecycle := lifecycle |>)) \/ (real_lobby_lease next = None /\ frees lease op).
Proof.
  intros Hl. cbv zeta.
  assert (Hsame : forall data', real_lobby_lease data' = real_lobby_lease data ->
    (exists lifecycle, real_lobby_lease data' = Some (lease <| lease_lifecycle := lifecycle |>)) \/ (real_lobby_lease data' = None /\ frees lease op)).
  { intros data' Hsame. left. exists (lease_lifecycle lease). rewrite Hsame, Hl. by destruct lease. }
  assert (Hans : forall A (f : A -> StoreAnswer) change, (answered f change).1 = change.1) by (by intros A f [? []]).
  destruct op as [q|q|verifier expires| |key fingerprint actor now record grant allow|record|now]; cbn [memory_step]; rewrite ?Hans.
  - apply Hsame. unfold install_alpha_in_data. by destruct (_ || _).
  - apply Hsame. unfold install_rehearsal_in_data. by destruct (_ || _).
  - apply Hsame. unfold issue_real_create_grant. by destruct (128 <=? _)%nat.
  - by apply Hsame.
  - apply Hsame. pose proof (create_cases data key fingerprint actor now record grant allow) as Hcases. cbv zeta in Hcases.
    destruct (create_in_data _ _ _ _ _ _ _ _) as [data' r]. destruct Hcases as [[-> _]|(data1 & _ & _ & Hres & _ & ->)]; [done|].
    apply reserve_real_spec in Hres as (_ & _ & _ & [[_ ->]|(_ & _ & _ & Hnone & _)]); [done|]. simpl in Hnone. congruence.
  - unfold replace_in_data. destruct (lobbies data !! lobby_id (lobby record)) as [old|]; [|by apply Hsame]. cbn [fst].
    set (written := data <| lobbies := <[lobby_id (lobby record) := record]> (lobbies data) |>).
    pose proof (replace_lease_spec written record) as (_ & _ & _ & _ & Hlease & _).
    change (real_lobby_lease written) with (real_lobby_lease data) in Hlease. rewrite Hl in Hlease.
    destruct Hlease as [Hlease|(Hh & Hg & [Hlease|(Hlease & _ & Hproof)])].
    + apply Hsame. by rewrite Hlease.
    + left. by eexists.
    + right. split; [done|]. exists record. split_and!; try done. by apply release_proof_gone.
  - by apply Hsame.
Qed.
Lemma step_quarantine data op : real_creation_quarantined data = true -> real_creation_quarantined (memory_step data op).1 = true.
Proof.
  intros Hq. assert (Hans : forall A (f : A -> StoreAnswer) change, (answered f change).1 = change.1) by (by intros A f [? []]).
  destruct op as [q|q|verifier expires| |key fingerprint actor now record grant allow|record|now]; cbn [memory_step]; rewrite ?Hans; try done.
  - unfold install_alpha_in_data. by destruct (_ || _).
  - unfold install_rehearsal_in_data. by destruct (_ || _).
  - unfold issue_real_create_grant. by destruct (128 <=? _)%nat.
  - pose proof (create_cases data key fingerprint actor now record grant allow) as Hcases. cbv zeta in Hcases.
    destruct (create_in_data _ _ _ _ _ _ _ _) as [data' r]. destruct Hcases as [[-> _]|(data1 & _ & _ & Hres & _ & ->)]; [done|].
    apply reserve_real_spec in Hres as (_ & _ & Hqq & _). simpl. by rewrite Hqq.
  - unfold replace_in_data. destruct (lobbies data !! lobby_id (lobby record)) as [old|]; [|done]. cbn [fst]. by apply replace_lease_spec.
Qed.

(** ** Runs *)

Section Runs.
Context {json : StoreJson}.

(** A run of the file store: each operation, and whether its write succeeds. *)
Definition store_run (data : StoreData) (ops : list (StoreOp * bool)) : StoreData :=
  foldl (fun data '(op, written) => (file_step data op written).1) data ops.

Lemma run_inv data ops : store_inv data -> store_inv (store_run data ops).
Proof.
  revert data. induction ops as [|[op written] ops IH]; intros data Hinv; [done|]. apply IH.
  destruct (file_step_cases data op written) as [[-> _]|[_ ->]]; [done|]. by apply step_inv.
Qed.

(** A real network that is created. *)
Definition creates_real (data : StoreData) (op : StoreOp) (written : bool) (record : StoredLobby) : Prop :=
  creates (file_step data op written).2 record /\ dry_run record = false.

Lemma creates_cases data op written record :
  creates (file_step data op written).2 record ->
  exists key fingerprint actor now grant allow data1,
    op = OpCreate key fingerprint actor now record grant allow /\
    reserve_real (purge_retained data now) fingerprint now record grant allow = Ok data1 /\
    (file_step data op written).1 = created data1 key (mkCreateReplay fingerprint (lobby_id (lobby record)) actor now) record /\
    create_replays (purge_retained data now) !! key = None.
Proof.
  intros Hc. destruct (file_step_cases data op written) as [[_ Hno]|[_ Heq]]; [by destruct (Hno record)|]. rewrite Heq in *.
  assert (Hdone : forall A (change : StoreData * result A StoreError), ~ creates (answered (fun _ => Done) change).2 record) by (by intros A [? []]).
  destruct op as [q|q|verifier expires| |key fingerprint actor now created_record grant allow|replaced|now]; cbn [memory_step] in Hc;
    try (by destruct (Hdone _ _ Hc)); [|done].
  pose proof (create_cases data key fingerprint actor now created_record grant allow) as Hcases. cbv zeta in Hcases. cbn [memory_step].
  destruct (create_in_data _ _ _ _ _ _ _ _) as [data' r]. destruct Hcases as [[_ Hno]|(data1 & Hkey & _ & Hres & -> & ->)].
  - destruct r as [outcome|]; [|done]. injection Hc as ->. by destruct (Hno record).
  - injection Hc as ->. by exists key, fingerprint, actor, now, grant, allow, data1.
Qed.

(** C5. Whatever state file the server is opened with, and whatever is asked of the store
    afterwards, writes failing or not: while the store is not quarantined, two lobbies
    never both have a real network that may still exist; the one that has is the
    holder of the lease, with the lease's generation. A real network is created only
    when no lobby has one, and then its lobby holds the lease. *)
Theorem one_real_network file path_digest random writable data ops :
  match file with FileData stored => keyed stored | _ => True end ->
  store_open file path_digest random writable = Ok data ->
  let current := store_run data ops in
  (real_creation_quarantined current = false ->
     forall id r, lobbies current !! id = Some r -> holds_network r = true ->
       (exists lease, real_lobby_lease current = Some lease /\ holder_lobby_id lease = id /\ lease_generation lease = sl_generation r) /\
       forall id' r', lobbies current !! id' = Some r' -> holds_network r' = true -> id' = id /\ r' = r) /\
  (forall op written record, creates_real current op written record ->
     let next := (file_step current op written).1 in
     (forall id r, lobbies current !! id = Some r -> holds_network r = false) /\
     exists lease, real_lobby_lease next = Some lease /\ holder_lobby_id lease = lobby_id (lobby record) /\
       lease_generation lease = sl_generation record).
Proof.
  intros Hkey Hopen. cbv zeta. pose proof (run_inv data ops (open_inv _ _ _ _ _ Hkey Hopen)) as Hinv. split.
  - intros Hq id r Hid Hh. destruct (inv_real _ Hinv Hq id r Hid Hh) as (lease & Hl & Hhold & Hgen). split; [by exists lease|].
    intros id' r' Hid' Hh'. destruct (inv_real _ Hinv Hq id' r' Hid' Hh') as (lease' & Hl' & Hhold' & _).
    assert (id' = id) as -> by congruence. split; [done|]. congruence.
  - intros op written record [Hc Hreal]. destruct (creates_cases _ _ _ _ Hc) as (key & fp & actor & now & grant & allow & data1 & _ & Hres & -> & _).
    apply reserve_real_spec in Hres as (_ & _ & _ & [[Hdry _]|(_ & _ & Hq & Hnone & Hlease & _)]); [congruence|]. simpl in Hq, Hnone. split.
    + intros id r Hid. destruct (holds_network r) eqn:Hh; [|done]. destruct (inv_real _ Hinv Hq id r Hid Hh) as (lease & Hl & _). congruence.
    + simpl. rewrite Hlease. by eexists.
Qed.

(** Over any run the lease of a real network keeps its holder and generation until an
    operation has written the holder's own record, of the lease's generation, with the
    evidence that the network is gone: rejected before it existed, seen absent by two
    observations after its deletion was acknowledged and its secret erased, or, for a
    shared network, cleaned. A quarantine is never lifted. *)
Theorem lease_only_freed_by_proof data ops lease :
  real_lobby_lease data = Some lease ->
  let current := store_run data ops in
  (real_creation_quarantined data = true -> real_creation_quarantined current = true) /\
  ((exists lifecycle, real_lobby_lease current = Some (lease <| lease_lifecycle := lifecycle |>)) \/
   exists before op after, ops = before ++ (op, true) :: after /\
     frees lease op /\ real_lobby_lease (store_run data (before ++ [(op, true)])) = None).
Proof.
  intros Hl. cbv zeta. split.
  - clear Hl. revert data. induction ops as [|[op written] ops IH]; intros data Hq; [done|]. apply IH.
    destruct (file_step_cases data op written) as [[-> _]|[_ ->]]; [done|]. by apply step_quarantine.
  - revert data lease Hl. induction ops as [|[op written] ops IH]; intros data lease Hl; [left; exists (lease_lifecycle lease); by destruct lease|].
    destruct (file_step_cases data op written) as [[Hsame _]|[-> Hstep]].
    + destruct (IH data lease Hl) as [Hkept|(before & op' & after & -> & Hfree & Hnone)]; simpl; rewrite Hsame; [by left|right].
      exists ((op, written) :: before), op', after. split_and!; [done|done|]. simpl. by rewrite Hsame.
    + destruct (step_lease data op lease Hl) as [[lifecycle Hnext]|[Hnone Hfree]]; rewrite <-Hstep in *.
      * destruct (IH _ _ Hnext) as [[lc Hkept]|(before & op' & after & -> & Hfree & Hnone)]; simpl; [left; by exists lc|right].
        exists ((op, true) :: before), op', after. by split_and!.
      * right. exists [], op, ops. by split_and!.
Qed.

(** ** Idempotent creation *)

(** Nothing the store retains at [now] drops the replay: it is younger than a day, and its
    lobby is not due for removal. *)
Definition retains (data : StoreData) (replay : CreateReplay) (now : UnixMillis) : bool :=
  negb (age_at_least now (replay_created_at replay) IDEMPOTENCY_RETENTION_MS)
  && is_some_and (lobbies data !! replay_lobby_id replay) (fun r =>
       negb (is_removed (real_lobby_lease data) now (replay_lobby_id replay) r)).
Definition op_retains (data : StoreData) (replay : CreateReplay) (op : StoreOp) : bool :=
  match op with
  | OpCreate _ _ _ now _ _ _ | OpCleanup now => retains data replay now
  | _ => true
  end.
Fixpoint run_retains (data : StoreData) (replay : CreateReplay) (ops : list (StoreOp * bool)) : bool :=
  match ops with
  | [] => true
  | (op, written) :: ops => op_retains data replay op && run_retains (file_step data op written).1 replay ops
  end.

Lemma fmap_lookup_some (f : StoredLobby -> StoredLobby) (m : gmap LobbyId StoredLobby) id r : m !! id = Some r -> (f <$> m) !! id = Some (f r).
Proof. intros Hr. by rewrite lookup_fmap, Hr. Qed.
Definition replay_held (data : StoreData) (key : list Z) (replay : CreateReplay) : Prop :=
  create_replays data !! key = Some replay /\ is_Some (lobbies data !! replay_lobby_id replay).
Lemma purge_holds data key replay now :
  replay_held data key replay -> retains data replay now = true ->
  create_replays (purge_retained data now) !! key = Some replay /\
  exists r, lobbies data !! replay_lobby_id replay = Some r /\
    lobbies (purge_retained data now) !! replay_lobby_id replay = Some (purge_record now r).
Proof.
  unfold retains. intros [Hkey _] [Hage (r & Hr & Hkept)%is_some_and_true]%andb_true_iff.
  assert (Hlook : lobbies (purge_retained data now) !! replay_lobby_id replay = Some (purge_record now r)).
  { apply purge_lookup. exists r. apply negb_true_iff in Hkept. by split_and!. }
  split; [|by exists r]. unfold purge_retained. cbn. apply map_lookup_filter_Some. split; [done|].
  unfold replay_retained. rewrite Hage. apply is_some_true. unfold purge_retained in Hlook. cbn in Hlook. rewrite Hlook. by eexists.
Qed.
Lemma step_holds data key replay op :
  replay_held data key replay -> op_retains data replay op = true -> replay_held (memory_step data op).1 key replay.
Proof.
  intros Hheld Hret.
  assert (Hsame : forall data', create_replays data' = create_replays data -> lobbies data' = lobbies data -> replay_held data' key replay)
    by (unfold replay_held; intros data' -> ->; done).
  assert (Hans : forall A (f : A -> StoreAnswer) change, (answered f change).1 = change.1) by (by intros A f [? []]).
  destruct op as [q|q|verifier expires| |key' fingerprint actor now record grant allow|record|now]; cbn [memory_step]; rewrite ?Hans.
  - apply Hsame; unfold install_alpha_in_data; by destruct (_ || _).
  - apply Hsame; unfold install_rehearsal_in_data; by destruct (_ || _).
  - apply Hsame; unfold issue_real_create_grant; by destruct (128 <=? _)%nat.
  - by apply Hsame.
  - destruct (purge_holds _ _ _ _ Hheld Hret) as (Hkey & r & _ & Hr).
    pose proof (create_cases data key' fingerprint actor now record grant allow) as Hcases. cbv zeta in Hcases.
    destruct (create_in_data _ _ _ _ _ _ _ _) as [data' answer].
    destruct Hcases as [[-> _]|(data1 & Hfree & _ & Hres & _ & ->)]; [split; [exact Hkey|exists (purge_record now r); exact Hr]|].
    apply reserve_real_spec in Hres as (Hlob & Hcr & _). split; simpl.
    + rewrite lookup_insert_ne, Hcr; [done|]. intros ->. congruence.
    + apply lookup_insert_is_Some'. right. rewrite Hlob, Hr. by eexists.
  - unfold replace_in_data. destruct (lobbies data !! lobby_id (lobby record)) as [old|]; [|done]. cbn [fst].
    set (written := data <| lobbies := <[lobby_id (lobby record) := record]> (lobbies data) |>).
    pose proof (replace_lease_spec written record) as (Hlob & Hcr & _). split; [rewrite Hcr; apply Hheld|]. rewrite Hlob.
    apply lookup_insert_is_Some'. right. apply Hheld.
  - destruct (purge_holds _ _ _ _ Hheld Hret) as (Hkey & r & _ & Hr). split; [exact Hkey|].
    unfold cleanup_in_data. cbv zeta. cbn [fst].
    exists (apply_time_transitions (purge_record now r) now).1. exact (fmap_lookup_some (fun record => (apply_time_transitions record now).1) _ _ _ Hr).
Qed.

(** Once a creation has been answered with a lobby, the same key creates nothing more
    for as long as the store retains it: after any run in which no clock reading finds the
    key a day old or its lobby due for removal, the same request gives the lobby as it now
    is, another request under the key is a conflict, and neither changes anything but what
    retention drops. *)
Theorem create_idempotent data key fingerprint actor now record grant allow data1 ops later fingerprint' actor' record' grant' allow' :
  create_in_data data key fingerprint actor now record grant allow = (data1, Ok (Created record)) ->
  let replay := mkCreateReplay fingerprint (lobby_id (lobby record)) actor now in
  run_retains data1 replay ops = true ->
  let current := store_run data1 ops in
  retains current replay later = true ->
  exists r, lobbies current !! lobby_id (lobby record) = Some r /\
    create_in_data current key fingerprint' actor' later record' grant' allow' =
      (purge_retained current later,
       Ok (if bool_decide (fingerprint' = fingerprint) && bool_decide (actor' = actor) then Replay (purge_record later r) else CreateConflict)).
Proof.
  intros Hcreate replay Hrun current Hret.
  assert (Hheld : replay_held data1 key replay).
  { pose proof (create_cases data key fingerprint actor now record grant allow) as Hcases. cbv zeta in Hcases. rewrite Hcreate in Hcases.
    destruct Hcases as [[_ Hno]|(data0 & _ & _ & _ & _ & ->)]; [by destruct (Hno record)|]. split; simpl; by rewrite lookup_insert_eq; try eexists. }
  assert (Hcur : replay_held current key replay).
  { subst current. clear Hcreate Hret. revert data1 Hheld Hrun. induction ops as [|[op written] ops IH]; intros data1 Hheld; [done|].
    intros [Hop Hrun]%andb_true_iff. apply IH; [|done].
    destruct (file_step_cases data1 op written) as [[-> _]|[_ ->]]; [done|]. by apply step_holds. }
  destruct (purge_holds _ _ _ _ Hcur Hret) as (Hkey & r & Hr & Hpurged). exists r. split; [done|].
  unfold create_in_data. cbv zeta. rewrite Hkey. subst replay. cbn [replay_fingerprint replay_actor replay_lobby_id] in *. rewrite Hpurged.
  destruct (decide (fingerprint' = fingerprint)) as [->|Hf];
    [rewrite !bool_decide_true by done|rewrite !(bool_decide_false _ Hf), (bool_decide_false (fingerprint = fingerprint')) by congruence; done].
  destruct (decide (actor' = actor)) as [->|Ha]; [by rewrite !bool_decide_true by done|].
  by rewrite (bool_decide_false _ Ha), (bool_decide_false (actor = actor')) by congruence.
Qed.

(** ** Protected receipts *)

(** The operation, when it has created a real network. *)
Definition real_creation (op : StoreOp) (answer : result StoreAnswer StoreError) : list StoreOp :=
  match answer with Ok (CreateAnswer (Created record)) => if dry_run record then [] else [op] | _ => [] end.
Fixpoint real_creations (data : StoreData) (ops : list (StoreOp * bool)) : list StoreOp :=
  match ops with
  | [] => []
  | (op, written) :: ops =>
      let '(next, answer) := file_step data op written in real_creation op answer ++ real_creations next ops
  end.

(** What a creation under the receipt must be. *)
Definition qualified (q : ProtectedAlphaQualification) (op : StoreOp) : Prop :=
  exists key fingerprint actor now record candidate,
    op = OpCreate key fingerprint actor now record (Some candidate) true /\
    lobby_id (lobby record) = q_lobby_id q /\ sl_generation record = q_network_generation q /\
    now < q_expires_at q /\ now < q_final_io_deadline q /\ now < q_absolute_deadline q /\
    provisioning_mode (lobby record) = TailnetPerLobby /\ max_players (lobby record) <= q_participant_cap q /\
    constant_time_eq (q_launch_code_sha256 q) candidate = true.

Lemma admitted_qualified data receipt key fingerprint actor now record candidate :
  alpha_receipt_refused data receipt now record candidate = false ->
  alpha_consumed_at receipt = None /\ qualified (alpha receipt) (OpCreate key fingerprint actor now record (Some candidate) true).
Proof.
  unfold alpha_receipt_refused. cbv zeta. rewrite !orb_false_iff, !negb_false_iff, !bool_decide_eq_true.
  intros ((((((((((Hused & Hexp) & Hfinal) & Habs) & Hid) & Hgen) & _) & _) & Hmode) & Hcap) & Hcode).
  split; [by destruct (alpha_consumed_at receipt)|]. exists key, fingerprint, actor, now, record, candidate.
  split_and!; try done; try lia. unfold is_per_lobby in Hmode. by destruct (provisioning_mode _).
Qed.

Lemma step_receipt data op receipt :
  protected_alpha_receipt data = Some receipt ->
  let '(next, answer) := memory_step data op in
  (real_creation op answer = [] /\ protected_alpha_receipt next = Some receipt) \/
  (real_creation op answer = [op] /\ alpha_consumed_at receipt = None /\ qualified (alpha receipt) op /\
   exists now, protected_alpha_receipt next = Some (receipt <| alpha_consumed_at := Some now |>)).
Proof.
  intros Hr. assert (Hsame : forall A (change : StoreData * result A StoreError), protected_alpha_receipt change.1 = Some receipt ->
    let '(next, answer) := answered (fun _ => Done) change in
    (real_creation op answer = [] /\ protected_alpha_receipt next = Some receipt) \/
    (real_creation op answer = [op] /\ alpha_consumed_at receipt = None /\ qualified (alpha receipt) op /\
     exists now, protected_alpha_receipt next = Some (receipt <| alpha_consumed_at := Some now |>)))
    by (intros A [next [a|e]] Hkeep; by left).
  destruct op as [q|q|verifier expires| |key fingerprint actor now record grant allow|record|now]; cbn [memory_step].
  - apply Hsame. unfold install_alpha_in_data. rewrite Hr. exact Hr.
  - apply Hsame. unfold install_rehearsal_in_data. by destruct (_ || _).
  - apply Hsame. unfold issue_real_create_grant. by destruct (128 <=? _)%nat.
  - by apply Hsame.
  - pose proof (create_cases data key fingerprint actor now record grant allow) as Hcases. cbv zeta in Hcases.
    destruct (create_in_data _ _ _ _ _ _ _ _) as [data' answer]. destruct Hcases as [[-> Hno]|(data1 & _ & _ & Hres & -> & ->)].
    + destruct answer as [[found|found|]|e]; [by destruct (Hno found)|..]; cbn [answered]; left; (split; [done|exact Hr]).
    + apply reserve_real_spec in Hres as (_ & _ & _ & [[Hdry ->]|(Hreal & -> & _ & _ & _ & candidate & data2 & -> & Hauth & ->)]).
      * left. simpl. by rewrite Hdry.
      * right. simpl. rewrite Hreal. unfold use_authority in Hauth. simpl in Hauth. rewrite Hr in Hauth.
        destruct (alpha_receipt_refused _ receipt now record candidate) eqn:Hadm; [done|]. injection Hauth as <-.
        destruct (admitted_qualified _ _ key fingerprint actor _ _ _ Hadm) as [Hused Hqual]. split_and!; try done. by exists now.
  - apply Hsame. unfold replace_in_data. destruct (lobbies data !! lobby_id (lobby record)) as [old|]; [|done]. cbn [fst].
    set (written := data <| lobbies := <[lobby_id (lobby record) := record]> (lobbies data) |>).
    pose proof (replace_lease_spec written record) as (_ & _ & Hrec & _). by rewrite Hrec.
  - by left.
Qed.

(** Once a protected receipt is installed, any run of the store creates at most one real
    network, and none if the receipt was used; the one it creates is of the lobby and
    generation the receipt names, before each of its deadlines, within its cap of
    participants, and was asked for with its launch code. The receipt is never replaced,
    and it is used up exactly when the network has been created. *)
Theorem alpha_admits_once data ops receipt :
  protected_alpha_receipt data = Some receipt ->
  (length (real_creations data ops) <= 1)%nat /\
  Forall (qualified (alpha receipt)) (real_creations data ops) /\
  exists used, protected_alpha_receipt (store_run data ops) = Some (mkStoredProtectedAlphaReceipt (alpha receipt) used) /\
    (is_Some (alpha_consumed_at receipt) -> used = alpha_consumed_at receipt /\ real_creations data ops = []) /\
    (alpha_consumed_at receipt = None -> is_Some used <-> real_creations data ops <> []).
Proof.
  revert data receipt. induction ops as [|[op written] ops IH]; intros data receipt Hr.
  - split; [simpl; lia|]. split; [by apply Forall_nil|]. exists (alpha_consumed_at receipt). split; [simpl; rewrite Hr; by destruct receipt|].
    split; [done|]. intros ->. split; [by intros [? ?]|done].
  - assert (Hstep : let '(next, answer) := file_step data op written in
      (real_creation op answer = [] /\ protected_alpha_receipt next = Some receipt) \/
      (real_creation op answer = [op] /\ alpha_consumed_at receipt = None /\ qualified (alpha receipt) op /\
       exists now, protected_alpha_receipt next = Some (receipt <| alpha_consumed_at := Some now |>))).
    { pose proof (file_step_cases data op written) as Hcases. cbv zeta in Hcases. destruct (file_step data op written) as [next answer].
      destruct Hcases as [[Hsame Hno]|[_ Hmem]]; [|pose proof (step_receipt data op receipt Hr) as Hs; by rewrite <-Hmem in Hs]. simpl in Hsame. subst next.
      left. split; [|done].
      destruct answer as [[|outcome|]|]; try done. destruct outcome as [record| |]; try done. by destruct (Hno record). }
    simpl. destruct (file_step data op written) as [next answer]. simpl.
    destruct Hstep as [[-> Hnext]|(-> & Hunused & Hqual & now & Hnext)].
    + exact (IH next receipt Hnext).
    + destruct (IH next _ Hnext) as (_ & _ & used & Hused & Hspent & _).
      destruct (Hspent ltac:(by eexists)) as [-> ->]. split; [simpl; lia|]. split; [by apply Forall_cons|].
      exists (Some now). split; [exact Hused|]. rewrite Hunused. split; [by intros [? ?]|]. intros _. split; [done|by eexists].
Qed.

End Runs.

(** ** Witnesses *)

Module StoreDemo.
Import RehearsalDemo.
(** A text that shows which networks may exist and when lobbies ended. *)
#[export] Instance demo_json : StoreJson := {
  json_store := fun data => flat_map (fun r => [if holds_network r then 1 else 0; default 0 (terminal_at r)]) (btree_values (lobbies data));
}.
Definition player : PlayerId := demo_session_player 1.
Definition lobby_one : LobbyId := RehearsalDemo.lobby.
Definition lobby_two : LobbyId := demo_session_player 201.
Definition demo_lobby (id : LobbyId) (mode : ProvisioningMode) (s : LobbyState) : Lobby :=
  mkLobby id [] s None [] 2 None None (mkLobbyTtl 600000 1200000) WIRE_VERSION mode 1000 false.
Definition real_record (id : LobbyId) : StoredLobby :=
  stored_new (demo_lobby id TailnetPerLobby Provisioning) player [116] [103] false 600000.
Definition dry_record (id : LobbyId) : StoredLobby :=
  stored_new (demo_lobby id TailnetPerLobby Forming) player [116] [103] true 600000.
Definition code : list Z := repeat 9 32.
Definition ask (key : list Z) (now : UnixMillis) (record : StoredLobby) : StoreOp := OpCreate key [7] player now record (Some code) true.
Definition opened : StoreData :=
  match store_open FileAbsent (repeat 7 32) (repeat 6 32) true with Ok data => data | Err _ => store_default [] end.
(** A grant, a real lobby, a second one that is refused, and a failing write. *)
Definition demo_ops : list (StoreOp * bool) :=
  [(OpIssueGrant code 50000, true); (ask [1] 2000 (real_record lobby_one), false); (ask [1] 2100 (real_record lobby_one), true);
   (ask [2] 2200 (real_record lobby_two), true); (ask [3] 2300 (dry_record lobby_two), true)].
Definition gone_record : StoredLobby := (real_record lobby_one) <| sl_lifecycle := CreateRejected |>.
(** The protected receipt of the rehearsal demonstration, bound to this store. *)
Definition demo_alpha : ProtectedAlphaQualification :=
  alpha_qualification demo_claims
    (demo_context <| ctx_store_instance_id_sha256 := instance_id_sha256 (store_binding opened) |>) (repeat 7 32).
Definition admitted : StoreData := (memory_step opened (OpInstallAlpha demo_alpha)).1.
Definition alpha_ops : list (StoreOp * bool) :=
  [(ask [1] 2000 (real_record lobby_one), true); (OpReplace gone_record, true); (ask [2] 2100 (real_record lobby_two), true)].
End StoreDemo.
Import StoreDemo.

Lemma one_real_network_witness :
  real_creation_quarantined (store_run opened demo_ops) = false /\
  is_some (lobbies (store_run opened demo_ops) !! lobby_two) = true /\
  exists r, lobbies (store_run opened demo_ops) !! lobby_one = Some r /\ holds_network r = true /\
    forall id' r', lobbies (store_run opened demo_ops) !! id' = Some r' -> holds_network r' = true -> id' = lobby_one /\ r' = r.
Proof.
  split; [vm_compute; reflexivity|]. split; [vm_compute; reflexivity|]. exists (real_record lobby_one).
  assert (Hr : lobbies (store_run opened demo_ops) !! lobby_one = Some (real_record lobby_one)) by (vm_compute; reflexivity).
  split; [exact Hr|]. split; [reflexivity|].
  refine (proj2 (proj1 (one_real_network FileAbsent (repeat 7 32) (repeat 6 32) true opened demo_ops I _) _ lobby_one _ Hr _));
    vm_compute; reflexivity.
Defined.

Lemma lease_only_freed_by_proof_witness :
  let data := store_run opened demo_ops in
  is_some (real_lobby_lease data) = true /\ is_none (real_lobby_lease (store_run data [(OpReplace gone_record, true)])) = true /\
  forall lease, real_lobby_lease data = Some lease -> exists before op after,
    [(OpReplace gone_record, true)] = before ++ (op, true) :: after /\ frees lease op.
Proof.
  cbv zeta. split; [vm_compute; reflexivity|]. assert (Hnone : is_none (real_lobby_lease (store_run (store_run opened demo_ops) [(OpReplace gone_record, true)])) = true)
    by (vm_compute; reflexivity).
  split; [exact Hnone|]. intros lease Hl.
  destruct (lease_only_freed_by_proof _ [(OpReplace gone_record, true)] lease Hl) as [_ [[lifecycle Hkept]|(before & op & after & Heq & Hfree & _)]].
  - apply is_none_true in Hnone. congruence.
  - exists before, op, after. by split.
Defined.

Lemma create_idempotent_witness :
  let data := store_run opened [(OpIssueGrant code 50000, true)] in
  let data1 := (create_in_data data [1] [7] player 2000 (real_record lobby_one) (Some code) true).1 in
  exists r, create_in_data (store_run data1 [(OpCleanup 3000, true); (ask [2] 3100 (dry_record lobby_two), true)]) [1] [7] player 4000
      (real_record lobby_two) None false = (purge_retained (store_run data1 [(OpCleanup 3000, true); (ask [2] 3100 (dry_record lobby_two), true)]) 4000,
        Ok (Replay r)).
Proof.
  cbv zeta.
  destruct (create_idempotent (store_run opened [(OpIssueGrant code 50000, true)]) [1] [7] player 2000 (real_record lobby_one) (Some code) true
    (create_in_data (store_run opened [(OpIssueGrant code 50000, true)]) [1] [7] player 2000 (real_record lobby_one) (Some code) true).1
    [(OpCleanup 3000, true); (ask [2] 3100 (dry_record lobby_two), true)] 4000 [7] player (real_record lobby_two) None false)
    as (r & _ & Heq); [vm_compute; reflexivity..|].
  exists (purge_record 4000 r). rewrite Heq. rewrite !bool_decide_true by done. reflexivity.
Defined.

Lemma alpha_admits_once_witness :
  is_some (protected_alpha_receipt admitted) = true /\ is_none (real_lobby_lease (store_run admitted alpha_ops)) = true /\
  length (real_creations admitted alpha_ops) = 1%nat /\ Forall (qualified demo_alpha) (real_creations admitted alpha_ops).
Proof.
  split; [vm_compute; reflexivity|]. split; [vm_compute; reflexivity|]. split; [vm_compute; reflexivity|].
  refine (proj1 (proj2 (alpha_admits_once admitted alpha_ops (mkStoredProtectedAlphaReceipt demo_alpha None) _))). vm_compute. reflexivity.
Defined.

(** ** Keys outlived by their lobbies *)

(** The key of a creation is forgotten together with its lobby, fifteen minutes after the
    lobby has failed or expired: a retry within the day for which keys are meant to be
    kept creates another lobby. *)
Lemma key_forgotten_with_lobby data key replay r now :
  create_replays data !! key = Some replay -> lobbies data !! replay_lobby_id replay = Some r ->
  is_removed (real_lobby_lease data) now (replay_lobby_id replay) r = true ->
  create_replays (purge_retained data now) !! key = None.
Proof.
  intros Hkey Hr Hremoved. apply eq_None_not_Some. intros [replay' Hsome]. unfold purge_retained in Hsome. cbn in Hsome.
  apply map_lookup_filter_Some in Hsome as [Hsome Hret]. assert (replay' = replay) as -> by congruence.
  unfold replay_retained in Hret. apply andb_true_iff in Hret as [_ [r' Hr']%is_some_true].
  apply map_lookup_filter_Some in Hr' as [Hr' Hkept]. rewrite lookup_fmap, Hr in Hr'. injection Hr' as <-.
  unfold is_removed in Hremoved, Hkept. cbn in Hkept. congruence.
Qed.
(** A lobby expires after ten idle minutes; sixteen minutes later its key creates a second. *)
Example key_creates_twice :
  let data := store_run opened [(ask [1] 2000 (dry_record lobby_one), true); (OpCleanup 600000, true)] in
  (create_in_data data [1] [7] player (600000 + 16 * 60 * 1000) (dry_record lobby_two) None false).2 = Ok (Created (dry_record lobby_two)) /\
  (600000 + 16 * 60 * 1000) - 2000 < IDEMPOTENCY_RETENTION_MS.
Proof. split; vm_compute; reflexivity. Qed.
