(* ===== verification/NetworkView.v ===== *)
(** * The network view the server builds of a stored lobby ([spurfire-server/src/service.rs])

    What is known of a lobby's network — its record in the store and the last cached
    answer of the provider — as the inspection view of [network_inspection.rs], with the
    check of that view as the last step. *)

From Stdlib Require Import Strings.String.
From stdpp Require Import gmap.
From S2P Require Import Prelude MachineInt Ordered Clock Bytes Identifiers WireVersion LobbyLifecycle Model Session Rehearsal Election.
From S2P Require Import NetworkInspection Store.
Open Scope Z_scope.

Definition INSPECTOR_REPORT_FRESHNESS_MS : Z := 15000.
Definition PROVIDER_DEVICE_FRESHNESS_MS : Z := 30000.

(** ** Provider identities *)

Record ProviderNetworkIdentity := mkProviderNetworkIdentity {
  identity_tailnet_id : option (list Z);
  identity_fqdn : TailnetDnsName;
}.
Definition validate_for_mode (self : ProviderNetworkIdentity) (mode : ProvisioningMode) : bool :=
  match mode with TailnetPerLobby => is_some_and (identity_tailnet_id self) valid_provider_id | _ => true end.
Definition provider_identity (stored : StoredLobby) : option ProviderNetworkIdentity :=
  match network_identity stored with
  | None => None
  | Some identity =>
      if (sl_generation stored =? 0) || negb (identity_network_generation identity =? sl_generation stored)
         || negb (bool_decide (dns_name (identity_dns_name identity) = tailnet stored))
      then None
      else
        let identity := mkProviderNetworkIdentity (provider_tailnet_id identity) (identity_dns_name identity) in
        if validate_for_mode identity (provisioning_mode (lobby stored)) then Some identity else None
  end.

(** ** Cached observations of the provider *)

Inductive CachedObservationFailure := ObservationPermissionDenied | ObservationTimeout | ObservationSourceError | ObservationConflict.
Definition unknown_reason_of (self : CachedObservationFailure) : UnknownReason :=
  match self with
  | ObservationPermissionDenied => PermissionDenied
  | ObservationTimeout => Timeout
  | ObservationSourceError => SourceError
  | ObservationConflict => Conflict
  end.
Record CachedProviderObservation := mkCachedProviderObservation {
  observation_generation : Z;
  enrolled_device_count : option Z;
  successful_at : option UnixMillis;
  last_failure : option (CachedObservationFailure * UnixMillis);
}.
Definition observation_success (generation enrolled : Z) (at_ : UnixMillis) : CachedProviderObservation :=
  mkCachedProviderObservation generation (Some enrolled) (Some at_) None.
Definition observation_failed (generation : Z) (previous : option CachedProviderObservation) (failure : CachedObservationFailure)
    (at_ : UnixMillis) : CachedProviderObservation :=
  mkCachedProviderObservation generation (previous ≫= enrolled_device_count) (previous ≫= successful_at) (Some (failure, at_)).

(** ** Facts *)

Definition control_fact {T} (value : T) (represented served : UnixMillis) : Fact T :=
  fact_known value ControlStore Authoritative (Some represented) served Current.
Definition derived_fact {T} (value : T) (served : UnixMillis) : Fact T :=
  fact_known value SourceDerived AssuranceDerived (Some served) served Fresh.
Definition unknown_control {T} (reason : UnknownReason) (received : option UnixMillis) : Fact T :=
  fact_unknown ControlStore reason received.
(** The source's test for an age below a bound. *)
Definition younger_than (now earlier : UnixMillis) (bound : Z) : bool :=
  is_some_and (millis_checked_duration_since now earlier) (fun age => age <? bound).

Definition provider_enrollment_fact (observation : option CachedProviderObservation) (now : UnixMillis) : Fact Z :=
  match observation with
  | None => fact_unknown ProviderApi NeverObserved None
  | Some observation =>
      match enrolled_device_count observation, successful_at observation with
      | Some value, Some successful =>
          let failed_after_success := is_some_and (last_failure observation) (fun '(_, failed_at) => successful <=? failed_at) in
          let is_fresh := negb failed_after_success && younger_than now successful PROVIDER_DEVICE_FRESHNESS_MS in
          fact_known value ProviderApi Observed (Some successful) successful (if is_fresh then Fresh else Stale)
      | _, _ =>
          let '(failure, failed_at) := default (ObservationSourceError, now) (last_failure observation) in
          fact_unknown ProviderApi (unknown_reason_of failure) (Some failed_at)
      end
  end.
Definition provider_online_fact (observation : option CachedProviderObservation) : Fact Z :=
  fact_unknown ProviderApi Unsupported
    (observation ≫= fun observation => match last_failure observation with Some (_, at_) => Some at_ | None => successful_at observation end).
Definition cleanup_time_fact (value : option UnixMillis) (now : UnixMillis) : Fact UnixMillis :=
  match value with None => unknown_control NeverObserved None | Some value => control_fact value value now end.

(** ** The parts of the view *)

Definition view_is_dry (stored : StoredLobby) : bool :=
  dry_run stored || match provisioning_mode (lobby stored) with DryRun => true | _ => false end.
Definition is_live (lifecycle : NetworkLifecycle) : bool :=
  match lifecycle with Active | CleanupRequested | NetCleanupPending | VerifyingAbsence => true | _ => false end.
Definition effective_lifecycle (stored : StoredLobby) : NetworkLifecycle :=
  if negb (view_is_dry stored) && is_live (sl_lifecycle stored) && is_none (provider_identity stored) then ManualRemediation
  else if view_is_dry stored then Simulated
  else sl_lifecycle stored.

Definition view_dns_name (stored : StoredLobby) : Fact TailnetDnsName :=
  match effective_lifecycle stored with
  | CreateRejected | DedicatedAbsent | SharedResourcesClean => fact_not_applicable
  | _ =>
      match provider_identity stored, network_identity stored with
      | Some identity, Some stored_identity =>
          fact_known (identity_fqdn identity) ControlStore Authoritative (Some (captured_at stored_identity)) (captured_at stored_identity) Current
      | _, _ => unknown_control ReconciliationPending None
      end
  end.
Definition with_lifecycle (b : NetworkBacking) (lifecycle : NetworkLifecycle) : NetworkBacking :=
  mkNetworkBacking (backing_mode b) (simulates_mode b) (isolation b) (network_generation b) lifecycle (tailnet_dns_name b)
    (control_service_member b).
Definition view_backing (stored : StoredLobby) (now : UnixMillis) : result (NetworkTruthLabel * NetworkBacking) unit :=
  if view_is_dry stored
  then Ok (SimulatedNoTailnet, with_lifecycle (backing_simulated (Z.max (sl_generation stored) 1) now) (effective_lifecycle stored))
  else
    let real label mode isolation :=
      Ok (label, mkNetworkBacking mode None isolation (sl_generation stored) (effective_lifecycle stored) (view_dns_name stored)
                   (control_fact false now now)) in
    match provisioning_mode (lobby stored) with
    | TailnetPerLobby => real RealDedicatedTailnet BackingTailnetPerLobby IsolationDedicated
    | SharedTailnet => real RealSharedCompatibility BackingSharedTailnet IsolationShared
    | DryRun => Err tt
    end.

(** The measurements of the current roster that their players authenticated, none older
    than the inspector's window. *)
Definition fresh_measurements (stored : StoredLobby) (now : UnixMillis) : list ConnectivitySample :=
  (filter (fun '(player, sample) =>
     existsb (fun p => bool_decide (player_id p = player)) (roster (lobby stored))
     && bool_decide (player ∈ authenticated_reporters stored)
     && younger_than now (measured_at sample) INSPECTOR_REPORT_FRESHNESS_MS = true)
     (btree_list (measurements stored))).*2.
(** Direct, peer-relay, DERP and observed totals, each in [u32]. *)
Definition add_sample (totals : option (Z * Z * Z * Z)) (sample : ConnectivitySample) : option (Z * Z * Z * Z) :=
  match totals with
  | None => None
  | Some (direct, relay, derp, observed) =>
      let summary := route_summary sample in
      match checked_add 32 direct (direct_count summary), checked_add 32 relay (peer_relay_count summary),
            checked_add 32 derp (derp_count summary), checked_add 32 observed (observed_peer_count sample) with
      | Some direct, Some relay, Some derp, Some observed => Some (direct, relay, derp, observed)
      | _, _, _, _ => None
      end
  end.
Definition measured_totals (l : list ConnectivitySample) : option (Z * Z * Z * Z) := fold_left add_sample l (Some (0, 0, 0, 0)).

Definition view_counts (stored : StoredLobby) (observation : option CachedProviderObservation) (now : UnixMillis)
    (roster fresh directions : Z) : NetworkCounts :=
  mkNetworkCounts (control_fact roster now now)
    (if view_is_dry stored then fact_not_applicable else provider_enrollment_fact observation now)
    (if view_is_dry stored then fact_not_applicable else provider_online_fact observation)
    (derived_fact fresh now) (derived_fact directions now).
Definition view_ratio (direct reachable : Z) (now : UnixMillis) : result (Fact Z) unit :=
  if reachable =? 0 then Ok fact_not_applicable
  else match ratio_of direct reachable with None => Err tt | Some ratio => Ok (derived_fact ratio now) end.
Definition view_routes (expected direct relay derp unknown reachable : Z) (ratio : Fact Z) (reported : Z) (now : UnixMillis)
    : RouteAggregate :=
  mkRouteAggregate (derived_fact expected now) (derived_fact reported now) (derived_fact direct now) (derived_fact relay now)
    (derived_fact derp now) (derived_fact 0 now) (derived_fact unknown now) (derived_fact reachable now) ratio.
Definition view_quality (now : UnixMillis) : ApplicationQuality :=
  let unsupported := fact_unknown ParticipantReport Unsupported None in
  mkApplicationQuality (derived_fact 0 now) unsupported unsupported unsupported unsupported.

Definition reference_score (election : AuthorityElection) : Z :=
  match find (fun score => bool_decide (score_player_id score = winner_player_id election)) (eligible election) with
  | Some score => final_score score
  | None => 0
  end.
Definition freshness_of (now earlier : UnixMillis) : Freshness :=
  if younger_than now earlier MEASUREMENT_FRESHNESS_MS then Fresh else Stale.
Definition view_election (stored : StoredLobby) (now : UnixMillis) : Fact ControlElectionReference :=
  match last_election stored with
  | None => fact_unknown SourceDerived NeverObserved None
  | Some election =>
      let evaluated := election_at (input election) in
      fact_known (mkControlElectionReference (elected_formula_version election) (winner_player_id election) (reference_score election)
                    (input_hash election) evaluated Reported (degraded election))
        SourceDerived Authoritative (Some evaluated) evaluated (freshness_of now evaluated)
  end.
Definition view_heartbeat (stored : StoredLobby) (now : UnixMillis) : Fact AcceptedHeartbeatReference :=
  match sl_last_accepted_heartbeat stored with
  | None => unknown_control NeverObserved None
  | Some heartbeat =>
      fact_known (mkAcceptedHeartbeatReference (accepted_player_id heartbeat) (accepted_epoch heartbeat) (accepted_input_hash heartbeat)
                    (accepted_received_at heartbeat))
        ControlStore Authoritative (Some (accepted_received_at heartbeat)) (accepted_received_at heartbeat)
        (freshness_of now (accepted_received_at heartbeat))
  end.

Definition cleanup_reason (lifecycle : NetworkLifecycle) : option ParticipantCleanupReason :=
  match lifecycle with
  | Simulated | LifecycleUnknown => None
  | NetReserved | Creating | Active | CreateRejected => Some NotRequested
  | CreateUnknown | ManualRemediation => Some ManualRemediationRequired
  | CleanupRequested => Some CleanupIsRequested
  | NetCleanupPending => Some CleanupIsPending
  | VerifyingAbsence => Some VerifyingExactAbsence
  | DedicatedAbsent => Some DedicatedTailnetAbsent
  | SharedResourcesClean => Some CleanupSharedResourcesClean
  end.
Definition view_cleanup_of (stored : StoredLobby) (now : UnixMillis) : result NetworkCleanup unit :=
  if view_is_dry stored
  then Ok (mkNetworkCleanup Simulated fact_not_applicable fact_not_applicable fact_not_applicable CleanupSimulatedNoTailnet)
  else
    match cleanup_reason (effective_lifecycle stored) with
    | None => Err tt
    | Some reason =>
        Ok (mkNetworkCleanup (effective_lifecycle stored) (cleanup_time_fact (cleanup_requested_at stored) now)
              (cleanup_time_fact (sl_delete_acknowledged_at stored) now) (cleanup_time_fact (sl_absence_confirmed_at stored) now) reason)
    end.

(** ** The view *)

Definition assemble_view (stored : StoredLobby) (now : UnixMillis) (label : NetworkTruthLabel) (b : NetworkBacking) (c : NetworkCounts)
    (r : RouteAggregate) (cleanup : NetworkCleanup) : LobbyNetworkView := {|
  view_schema_version := LOBBY_NETWORK_SCHEMA_VERSION;
  view_lobby_id := lobby_id (lobby stored);
  served_at := now;
  truth_label := label;
  backing := b;
  lobby_lifecycle := control_fact (inspected_from (state (lobby stored))) now now;
  counts := c;
  routes := r;
  application_quality := view_quality now;
  view_authority := mkNetworkAuthority (view_election stored now) (view_heartbeat stored now)
                      (fact_unknown ParticipantReport NeverObserved None);
  view_cleanup := cleanup |}.

Definition build_network_view (stored : StoredLobby) (observation : option CachedProviderObservation) (now : UnixMillis)
    : result LobbyNetworkView unit :=
  match view_backing stored now with
  | Err _ => Err tt
  | Ok (label, backing) =>
      let roster := Z.of_nat (length (roster (lobby stored))) in
      match directions roster, measured_totals (fresh_measurements stored now) with
      | Some expected, Some (direct, relay, derp, observed) =>
          if observed >? expected then Err tt
          else
            let unknown := expected - observed in
            match checked_add 32 observed unknown, checked_sum [direct; relay; derp] with
            | Some reported, Some reachable =>
                match view_ratio direct reachable now, view_cleanup_of stored now with
                | Ok ratio, Ok cleanup =>
                    let view := assemble_view stored now label backing
                      (view_counts stored observation now roster (Z.of_nat (length (fresh_measurements stored now))) observed)
                      (view_routes expected direct relay derp unknown reachable ratio reported now) cleanup in
                    match view_validate view with Ok _ => Ok view | Err _ => Err tt end
                | _, _ => Err tt
                end
            | _, _ => Err tt
            end
      | _, _ => Err tt
      end
  end.
