(* ===== verification/NetworkViewRun.v ===== *)
(** * Which views the server serves

    A view is served exactly for the records the inspection view can describe, and what
    it says of the roster and the routes is what the store holds. *)

From Stdlib Require Import Strings.String.
From stdpp Require Import gmap.
From S2P Require Import Prelude MachineInt Ordered Clock Bytes Identifiers WireVersion LobbyLifecycle Model Session Rehearsal Election.
From S2P Require Import NetworkInspection NetworkInspectionRun Store NetworkView.
Open Scope Z_scope.

(** ** Records the server keeps *)

(** What the server maintains of a record, whatever becomes of its network: a bounded
    roster, measurements accepted for that roster, and no time in the future. *)
Record inspectable (stored : StoredLobby) (observation : option CachedProviderObservation) (now : UnixMillis) : Prop := {
  insp_roster : Z.of_nat (length (roster (lobby stored))) <= MAX_PLAYERS;
  insp_generation : sl_generation stored <> 0;
  insp_samples : forall player sample, measurements stored !! player = Some sample ->
    sample_ok sample /\ validate_for_roster sample (Z.of_nat (length (roster (lobby stored)))) = Ok tt;
  insp_captured : forall identity, network_identity stored = Some identity -> captured_at identity <= now;
  insp_election : forall election, last_election stored = Some election ->
    election_at (input election) <= now /\ elected_formula_version election = AUTHORITY_FORMULA_VERSION /\
    Forall (fun score => final_score score <= 1000) (eligible election);
  insp_heartbeat : forall heartbeat, sl_last_accepted_heartbeat stored = Some heartbeat -> accepted_received_at heartbeat <= now;
  insp_cleanup : in_order (cleanup_requested_at stored) (sl_delete_acknowledged_at stored) = true /\
    in_order (sl_delete_acknowledged_at stored) (sl_absence_confirmed_at stored) = true /\
    in_order (cleanup_requested_at stored) (sl_absence_confirmed_at stored) = true;
  insp_observation : forall o, observation = Some o ->
    (forall at_, successful_at o = Some at_ -> at_ <= now) /\ (forall failure at_, last_failure o = Some (failure, at_) -> at_ <= now);
}.

(** The states of the cleanup the view has words for. *)
Definition servable (stored : StoredLobby) : bool :=
  view_is_dry stored
  || match effective_lifecycle stored with
     | Simulated | LifecycleUnknown => false
     | CleanupRequested | NetCleanupPending => is_some (cleanup_requested_at stored)
     | VerifyingAbsence =>
         is_some (cleanup_requested_at stored) && is_some (sl_delete_acknowledged_at stored) && is_none (sl_absence_confirmed_at stored)
     | DedicatedAbsent =>
         is_some (sl_absence_confirmed_at stored) && match provisioning_mode (lobby stored) with TailnetPerLobby => true | _ => false end
     | SharedResourcesClean => match provisioning_mode (lobby stored) with SharedTailnet => true | _ => false end
     | _ => true
     end.

(** ** Counting the measurements *)

(** The sum of a count over measurements. *)
Definition total (count : ConnectivitySample -> Z) (l : list ConnectivitySample) : Z := foldr (fun s acc => count s + acc) 0 l.

Section Measured.
Context (m : Z).

Definition measured_within (sample : ConnectivitySample) : Prop :=
  0 <= direct_count (route_summary sample) /\ 0 <= peer_relay_count (route_summary sample) /\ 0 <= derp_count (route_summary sample) /\
  direct_count (route_summary sample) + peer_relay_count (route_summary sample) + derp_count (route_summary sample) = observed_peer_count sample /\
  observed_peer_count sample <= m.

Lemma measured_totals_from l a b c d :
  Forall measured_within l -> 0 <= m -> 0 <= a -> 0 <= b -> 0 <= c -> a + b + c = d -> d + m * Z.of_nat (length l) < 2 ^ 32 ->
  exists d', fold_left add_sample l (Some (a, b, c, d)) =
      Some (a + total (fun s => direct_count (route_summary s)) l, b + total (fun s => peer_relay_count (route_summary s)) l,
            c + total (fun s => derp_count (route_summary s)) l, d') /\
    0 <= total (fun s => direct_count (route_summary s)) l /\ 0 <= total (fun s => peer_relay_count (route_summary s)) l /\
    0 <= total (fun s => derp_count (route_summary s)) l /\
    a + total (fun s => direct_count (route_summary s)) l + (b + total (fun s => peer_relay_count (route_summary s)) l)
      + (c + total (fun s => derp_count (route_summary s)) l) = d' /\
    d' <= d + m * Z.of_nat (length l).
Proof.
  intros Hl Hm. revert a b c d. induction Hl as [|s l Hs Hl IH]; intros a b c d Ha Hb Hc Hsum Hbound; cbn [fold_left].
  - exists d. unfold total. simpl. rewrite !Z.add_0_r. split_and!; try done; lia.
  - destruct Hs as (H1 & H2 & H3 & H4 & H5). unfold add_sample at 2. cbn [length] in *. rewrite Nat2Z.inj_succ in *.
    assert (Hadd : forall x y, 0 <= x -> 0 <= y -> x + y <= d + m * Z.succ (Z.of_nat (length l)) -> checked_add 32 x y = Some (x + y)).
    { intros x y Hx Hy Hxy. apply checked_add_Some. lia. }
    rewrite !Hadd by nia. destruct (IH (a + direct_count (route_summary s)) (b + peer_relay_count (route_summary s)) (c + derp_count (route_summary s))
      (d + observed_peer_count s)) as (d' & -> & ?); [nia..|]. exists d'. unfold total in *. cbn [foldr]. rewrite !Z.add_assoc.
    split; [done|]. repeat split; lia.
Qed.
End Measured.

Lemma fresh_measurements_facts stored observation now :
  inspectable stored observation now ->
  (length (fresh_measurements stored now) <= length (roster (lobby stored)))%nat /\
  Forall (measured_within (Z.of_nat (length (roster (lobby stored))) - 1)) (fresh_measurements stored now).
Proof.
  intros Hok. unfold fresh_measurements. set (kept := filter _ _). split.
  - rewrite length_fmap. rewrite <-(length_fmap fst kept), <-(length_fmap player_id (roster (lobby stored))).
    apply submseteq_length, NoDup_submseteq.
    + apply (sublist_NoDup _ (btree_keys (measurements stored))); [apply btree_keys_NoDup|]. apply (fmap_sublist fst), sublist_filter.
    + intros player ([p sample] & -> & [Hkeep _]%list_elem_of_filter)%list_elem_of_fmap. simpl in *.
      apply andb_true_iff in Hkeep as [[Hin _]%andb_true_iff _]. apply existsb_exists in Hin as (q & Hq & Heq%bool_decide_eq_true).
      apply list_elem_of_fmap. exists q. split; [done|]. by apply list_elem_of_In.
  - apply Forall_forall. intros sample ([player s] & -> & [_ Hin]%list_elem_of_filter)%list_elem_of_fmap. simpl.
    apply elem_of_btree_list, (insp_samples _ _ _ Hok) in Hin as [Hs Hvalid].
    destruct (validate_for_roster_Ok s _ Hs Hvalid) as (_ & _ & Hsum & Hle & _). destruct Hs as ((H1 & H2 & H3) & _).
    unfold in_uint in *. split_and!; try lia.
Qed.

(** ** Facts that pass *)

Lemma validate_known {T} field (value : T) s a represented received f served :
  source_supports_assurance s a = true -> match f with Current | Fresh | Stale => true | _ => false end = true -> received <= served ->
  validate_fact field (fact_known value s a represented received f) served = Ok tt.
Proof.
  intros Hs Hf Hr. unfold validate_fact. simpl. assert (received >? served = false) as -> by lia.
  destruct s, a, f; simpl in *; try done.
Qed.
Lemma validate_unknown {T} field s reason received served :
  reason <> ReasonNotApplicable -> (forall at_, received = Some at_ -> at_ <= served) ->
  validate_fact field (@fact_unknown T s reason received) served = Ok tt.
Proof.
  intros Hreason Hr. unfold validate_fact. simpl. assert (is_some_and received (fun r => r >? served) = false) as ->.
  { apply is_some_and_false. intros at_ Hat. specialize (Hr at_ Hat). lia. }
  destruct s, reason; done.
Qed.
Lemma validate_not_applicable {T} field served : validate_fact field (@fact_not_applicable T) served = Ok tt.
Proof. done. Qed.
Lemma validate_control {T} field (value : T) represented served : validate_fact field (control_fact value represented served) served = Ok tt.
Proof. apply validate_known; [done|done|lia]. Qed.
Lemma validate_derived {T} field (value : T) served : validate_fact field (derived_fact value served) served = Ok tt.
Proof. apply validate_known; [done|done|lia]. Qed.
Lemma fresh_or_stale now earlier : match freshness_of now earlier with Current | Fresh | Stale => true | _ => false end = true.
Proof. unfold freshness_of. by destruct (younger_than _ _ _). Qed.
Create HintDb facts.
#[export] Hint Resolve validate_control validate_derived validate_not_applicable : facts.
#[export] Hint Extern 1 (Ok _ = Ok _) => reflexivity : facts.

(** Go through checks that pass. *)
Ltac pass := repeat match goal with
  | |- checks [] = Ok tt => reflexivity
  | |- checks (_ :: _) = Ok tt => apply checks_cons; split
  | |- loop [] _ = Ok tt => reflexivity
  | |- loop (_ :: _) _ = Ok tt => apply loop_cons; split
  | |- (let '(_, _) := (_, _) in _) = Ok tt => cbv beta iota
  | |- reject_if _ _ = Ok tt => apply reject_if_Ok
  | |- validate_fact _ _ _ = Ok tt => solve [auto with facts]
  end.

Lemma counts_valid stored observation now v fresh directed b :
  inspectable stored observation now -> served_at v = now -> backing v = b ->
  (backing_mode b =?? BackingDryRun) = view_is_dry stored ->
  let n := Z.of_nat (length (roster (lobby stored))) in
  counts v = view_counts stored observation now n fresh directed -> 0 <= n -> fresh <= n -> directed <= n * (n - 1) ->
  validate_counts v = Ok tt.
Proof.
  intros Hok Hserved Hb Hdry n Hc Hn Hfresh Hdir. unfold validate_counts. cbv zeta. rewrite Hc, Hserved, Hb, Hdry.
  assert (Hdirections : directions n = Some (n * (n - 1)) \/ n = 0).
  { pose proof (insp_roster _ _ _ Hok) as Hmax. fold n in Hmax. unfold MAX_PLAYERS in Hmax.
    destruct (Z.eq_dec n 0) as [?|Hne]; [by right|left]. unfold directions, checked_mul, saturating_sub. rewrite Z.max_l by lia.
    assert (n * (n - 1) <? 2 ^ 32 = true) as -> by nia. done. }
  assert (Hdirections' : exists maximum, directions n = Some maximum /\ directed <= maximum).
  { destruct Hdirections as [Hd|Hz]; [by exists (n * (n - 1))|]. rewrite Hz in *. exists 0. split; [done|lia]. }
  destruct Hdirections' as (maximum & Hmax & Hle).
  assert (Henrolled : validate_fact "counts.provider_enrolled_device_count"
    (if view_is_dry stored then fact_not_applicable else provider_enrollment_fact observation now) now = Ok tt /\
    require_known_provenance "counts.provider_enrolled_device_count"
      (if view_is_dry stored then fact_not_applicable else provider_enrollment_fact observation now) ProviderApi Observed = Ok tt).
  { destruct (view_is_dry stored); [by split|]. unfold provider_enrollment_fact. destruct observation as [o|]; [|by split].
    destruct (insp_observation _ _ _ Hok o eq_refl) as [Hsucc Hfail].
    destruct (enrolled_device_count o) as [e|], (successful_at o) as [at_|];
      [split; [apply validate_known; [done|by destruct (_ && _)|by apply Hsucc]|done]|..];
      (destruct (last_failure o) as [[failure failed]|]; simpl; (split; [|done]); apply validate_unknown;
       [by destruct failure|intros x [= <-]; by eapply Hfail|done|intros x [= <-]; lia]). }
  assert (Honline : validate_fact "counts.provider_online_device_count"
    (if view_is_dry stored then fact_not_applicable else provider_online_fact observation) now = Ok tt).
  { destruct (view_is_dry stored); [done|]. apply validate_unknown; [done|]. intros at_ Hat. destruct observation as [o|]; [|done]. simpl in Hat.
    destruct (insp_observation _ _ _ Hok o eq_refl) as [Hsucc Hfail]. destruct (last_failure o) as [[failure failed]|] eqn:Hlast; [|by apply Hsucc].
    injection Hat as <-. by eapply Hfail. }
  unfold view_counts, count_fields. cbn [roster_count provider_enrolled_device_count provider_online_device_count fresh_reporter_count
    fresh_directional_observation_count].
  change (fact_value (control_fact n now now)) with (Some n). change (fact_value (derived_fact fresh now)) with (Some fresh).
  change (fact_value (derived_fact directed now)) with (Some directed). cbv beta iota. fold n. rewrite Hmax.
  pose proof (insp_roster _ _ _ Hok) as Hroster. fold n in Hroster. unfold bounded.
  pass; try done; try (apply Henrolled); try (exact Honline).
  - lia.
  - by destruct (view_is_dry stored).
  - simpl. lia.
  - simpl. lia.
  - destruct (fact_value _) as [enrolled|]; [|done]. by destruct (view_is_dry stored).
  - by destruct (view_is_dry stored).
Qed.

Lemma routes_valid v now expected direct relay derp observed ratio :
  served_at v = now -> 0 <= direct -> 0 <= relay -> 0 <= derp -> direct + relay + derp = observed -> 0 <= expected < 2 ^ 32 -> observed <= expected ->
  view_ratio direct (direct + relay + derp) now = Ok ratio ->
  routes v = view_routes expected direct relay derp (expected - observed) (direct + relay + derp) ratio expected now ->
  validate_routes v = Ok tt.
Proof.
  intros Hserved Hd Hr Hp Hsum Hexp Hobs Hratio Hroutes. unfold validate_routes. cbv zeta. rewrite Hroutes, Hserved.
  set (r := view_routes _ _ _ _ _ _ _ _ _).
  assert (Hknown : length (filter (fun value : option Z => is_some value = true) (class_values r)) = 7%nat) by reflexivity. rewrite Hknown.
  change (class_values r) with [Some expected; Some direct; Some relay; Some derp; Some 0; Some (expected - observed); Some (direct + relay + derp)].
  assert (Hratio_fact : validate_fact "routes.direct_ratio_milli" ratio now = Ok tt /\
    require_known_provenance "routes.direct_ratio_milli" ratio SourceDerived AssuranceDerived = Ok tt).
  { unfold view_ratio in Hratio. destruct (direct + relay + derp =? 0); [injection Hratio as <-; by split|].
    destruct (ratio_of _ _); [|done]. injection Hratio as <-. by split; [apply validate_derived|]. }
  apply checks_cons; split; [|apply checks_cons; split; [done|apply checks_cons; split; [done|apply checks_cons; split; [|done]]]].
  { unfold route_fields. subst r. unfold view_routes.
    cbn [expected_direction_count reported_direction_count aggregate_direct_count aggregate_peer_relay_count derp_relay_count
      aggregate_unavailable_count unknown_count reachable_known_count direct_ratio_milli].
    pass; try done; apply Hratio_fact. }
  cbn [Nat.eqb]. unfold validate_route_sums.
  assert (Hs5 : checked_sum [direct; relay; derp; 0; expected - observed] = Some expected).
  { unfold checked_sum. cbn [fold_left]. rewrite !(proj2 (checked_add_Some 32 _ _ _)) by (split; [reflexivity|lia]). f_equal. lia. }
  assert (Hs3 : checked_sum [direct; relay; derp] = Some (direct + relay + derp)).
  { unfold checked_sum. cbn [fold_left]. rewrite !(proj2 (checked_add_Some 32 _ _ _)) by (split; [reflexivity|lia]). f_equal. }
  rewrite Hs5, Hs3. change (fact_value (expected_direction_count r)) with (Some expected). cbv beta iota.
  pass; try lia. unfold validate_ratio, view_ratio in *. change (direct_ratio_milli r) with ratio.
  destruct (direct + relay + derp =? 0); [injection Hratio as <-; done|]. destruct (ratio_of direct (direct + relay + derp)) as [expected_ratio|]; [|done].
  injection Hratio as <-. apply reject_if_Ok. by rewrite bool_decide_true.
Qed.

Lemma quality_valid v now : served_at v = now -> application_quality v = view_quality now -> validate_application_quality v = Ok tt.
Proof.
  intros Hserved Hq. unfold validate_application_quality. cbv zeta. rewrite Hq, Hserved. unfold quality_fields, view_quality.
  cbn [sample_count application_rtt_ms_median application_rtt_ms_p95 application_rtt_ms_worst application_loss_ppm_median].
  pass; try done; by apply validate_unknown.
Qed.

Lemma authority_valid stored observation now v :
  inspectable stored observation now -> served_at v = now ->
  view_authority v = mkNetworkAuthority (view_election stored now) (view_heartbeat stored now) (fact_unknown ParticipantReport NeverObserved None) ->
  validate_authority v = Ok tt.
Proof.
  intros Hok Hserved Ha. unfold validate_authority. cbv zeta. rewrite Ha, Hserved. unfold view_election, view_heartbeat.
  cbn [control_election last_accepted_heartbeat peer_reported_match_authority].
  pass.
  - destruct (last_election stored) as [e|] eqn:He; [|by apply validate_unknown]. destruct (insp_election _ _ _ Hok e He) as (Ht & _ & _).
    apply validate_known; [done|apply fresh_or_stale|done].
  - destruct (sl_last_accepted_heartbeat stored) as [h|] eqn:Hh; [|by apply validate_unknown].
    apply validate_known; [done|apply fresh_or_stale|by apply (insp_heartbeat _ _ _ Hok)].
  - unfold validate_election. cbn [control_election]. destruct (last_election stored) as [e|] eqn:He; [|done].
    destruct (insp_election _ _ _ Hok e He) as (_ & Hv & Hscores).
    cbn [fact_value fact_known election_formula_version election_score_milli input_assurance evaluated_at as_of]. rewrite Hv.
    pass; try done; [|by rewrite bool_decide_true]. unfold reference_score. destruct (find _ _) as [score|] eqn:Hf; [|done].
    apply find_some in Hf as [Hin _]. apply list_elem_of_In in Hin. rewrite Forall_forall in Hscores. specialize (Hscores score Hin).
    unfold DIRECT_RATIO_MILLI_SCALE. lia.
  - unfold validate_heartbeat. cbn [last_accepted_heartbeat]. destruct (sl_last_accepted_heartbeat stored) as [h|]; [|done].
    cbn [fact_value fact_known received_at heartbeat_received_at]. pass; [done|by rewrite bool_decide_true].
  - done.
Qed.

Lemma cleanup_time_valid field value now : validate_fact field (cleanup_time_fact value now) now = Ok tt.
Proof. unfold cleanup_time_fact. destruct value; [apply validate_control|by apply validate_unknown]. Qed.
Lemma cleanup_time_provenance field value now : require_known_provenance field (cleanup_time_fact value now) ControlStore Authoritative = Ok tt.
Proof. by destruct value. Qed.
Lemma cleanup_time_value value now : fact_value (cleanup_time_fact value now) = value.
Proof. by destruct value. Qed.
#[export] Hint Resolve cleanup_time_valid : facts.

(** What the cleanup section needs beyond its times being in order. *)
Definition cleanup_servable (stored : StoredLobby) : bool :=
  view_is_dry stored
  || match effective_lifecycle stored with
     | Simulated | LifecycleUnknown => false
     | CleanupRequested | NetCleanupPending => is_some (cleanup_requested_at stored)
     | VerifyingAbsence =>
         is_some (cleanup_requested_at stored) && is_some (sl_delete_acknowledged_at stored) && is_none (sl_absence_confirmed_at stored)
     | DedicatedAbsent => is_some (sl_absence_confirmed_at stored)
     | _ => true
     end.
Lemma dry_effective stored : view_is_dry stored = true -> effective_lifecycle stored = Simulated.
Proof. unfold effective_lifecycle. by intros ->. Qed.

Lemma cleanup_valid stored observation now v c :
  inspectable stored observation now -> served_at v = now -> view_cleanup_of stored now = Ok c -> view_cleanup v = c ->
  network_lifecycle (backing v) = effective_lifecycle stored ->
  validate_cleanup v = Ok tt <-> cleanup_servable stored = true.
Proof.
  intros Hok Hserved Hc Hv Hlife. unfold validate_cleanup, cleanup_servable. cbv zeta. rewrite Hv, Hserved, Hlife.
  unfold view_cleanup_of in Hc. destruct (view_is_dry stored) eqn:Hdry.
  { injection Hc as <-. rewrite (dry_effective stored Hdry). split; [done|]. intros _. unfold cleanup_fields.
    cbn [requested_at delete_acknowledged_at absence_confirmed_at]. pass; done. }
  simpl orb. destruct (cleanup_reason (effective_lifecycle stored)) as [reason|] eqn:Hreason; [|done]. injection Hc as <-.
  destruct (insp_cleanup _ _ _ Hok) as (Ho1 & Ho2 & Ho3).
  cbn [cleanup_lifecycle requested_at delete_acknowledged_at absence_confirmed_at participant_safe_reason].
  rewrite !cleanup_time_value, Ho1, Ho2, Ho3.
  assert (Hloop : loop (cleanup_fields (mkNetworkCleanup (effective_lifecycle stored) (cleanup_time_fact (cleanup_requested_at stored) now)
    (cleanup_time_fact (sl_delete_acknowledged_at stored) now) (cleanup_time_fact (sl_absence_confirmed_at stored) now) reason))
    (fun '(field, f) => [validate_fact field f now; require_known_provenance field f ControlStore Authoritative]) = Ok tt).
  { unfold cleanup_fields. cbn [requested_at delete_acknowledged_at absence_confirmed_at]. pass; apply cleanup_time_provenance. }
  rewrite !checks_cons, !reject_if_Ok, Hloop.
  unfold reason_valid. cbn [cleanup_lifecycle requested_at delete_acknowledged_at absence_confirmed_at participant_safe_reason].
  rewrite !cleanup_time_value, negb_false_iff.
  destruct (effective_lifecycle stored); simpl in Hreason; try done; injection Hreason as <-;
    destruct (cleanup_requested_at stored), (sl_delete_acknowledged_at stored), (sl_absence_confirmed_at stored); simpl; clear;
    (split; [intros Hall; decompose [and] Hall; solve [reflexivity | discriminate]|intros Hs; solve [discriminate Hs | repeat split]]).
Qed.

Lemma backing_valid stored observation now label b v :
  inspectable stored observation now -> view_backing stored now = Ok (label, b) ->
  truth_label v = label -> backing v = b -> served_at v = now -> cleanup_servable stored = true ->
  validate_backing v = Ok tt <-> servable stored = true.
Proof.
  intros Hok Hb Hlabel Hbacking Hserved Hclean. unfold validate_backing. cbv zeta. unfold backing_matches. rewrite Hlabel, Hbacking, Hserved.
  unfold view_backing in Hb. unfold servable. unfold cleanup_servable in Hclean.
  destruct (view_is_dry stored) eqn:Hdry.
  { injection Hb as <- <-. rewrite (dry_effective stored Hdry). split; [done|]. intros _.
    unfold with_lifecycle, backing_simulated. cbn [backing_mode simulates_mode isolation network_generation network_lifecycle tailnet_dns_name
      control_service_member]. pass; try done; [lia|]. apply validate_known; [done|done|lia]. }
  pose proof (insp_generation _ _ _ Hok) as Hgen. simpl orb in *.
  assert (Hdns : validate_fact "backing.tailnet_dns_name" (view_dns_name stored) now = Ok tt /\
    is_some (fact_value (view_dns_name stored)) && negb (match source (view_dns_name stored), assurance (view_dns_name stored) with
                        | ProviderApi, Authoritative | ControlStore, Authoritative => true
                        | _, _ => false
                        end) = false /\
    (is_live (effective_lifecycle stored) = true -> is_none (fact_value (view_dns_name stored)) = false) /\
    match effective_lifecycle stored with CreateRejected | DedicatedAbsent | SharedResourcesClean => view_dns_name stored = fact_not_applicable | _ => True end).
  { unfold view_dns_name. destruct (provider_identity stored) as [identity|] eqn:Hid.
    - unfold provider_identity in Hid. destruct (network_identity stored) as [si|] eqn:Hsi; [|done].
      pose proof (insp_captured _ _ _ Hok si Hsi) as Hcap.
      assert (Hknown : validate_fact "backing.tailnet_dns_name" (fact_known (identity_fqdn identity) ControlStore Authoritative (Some (captured_at si)) (captured_at si) Current) now = Ok tt)
        by (apply validate_known; done).
      destruct (effective_lifecycle stored); split_and!; done.
    - assert (Hunknown : validate_fact "backing.tailnet_dns_name" (@unknown_control TailnetDnsName ReconciliationPending None) now = Ok tt) by done.
      assert (Hlive : is_live (effective_lifecycle stored) = false).
      { unfold effective_lifecycle. rewrite Hdry, Hid. simpl. destruct (is_live (sl_lifecycle stored)) eqn:E; simpl; [done|by rewrite E]. }
      destruct (effective_lifecycle stored); split_and!; done. }
  destruct Hdns as (Hd1 & Hd2 & Hd3 & Hd4).
  assert (Hmember : validate_fact "backing.control_service_member" (control_fact false now now) now = Ok tt) by apply validate_control.
  destruct (provisioning_mode (lobby stored)) eqn:Hmode; [|done|]; injection Hb as <- <-;
    cbn [backing_mode simulates_mode isolation network_generation network_lifecycle tailnet_dns_name control_service_member];
    unfold require_dns_name_for_active_backing; cbn [network_lifecycle tailnet_dns_name];
    rewrite !checks_cons, Hd1, Hmember, !reject_if_Ok, Hd2; assert (Hg : sl_generation stored =? 0 = false) by lia; rewrite Hg;
    destruct (effective_lifecycle stored); simpl in Hclean; try done; simpl in Hd3; try (specialize (Hd3 eq_refl)); try rewrite Hd4; simpl; 
    rewrite ?Hd3, ?Hclean; simpl; clear;
    (split; [intros Hall; decompose [and] Hall; solve [reflexivity | discriminate]|intros Hs; solve [discriminate Hs | repeat split]]).
Qed.

(** ** The view *)

Lemma view_served stored observation now :
  inspectable stored observation now ->
  (servable stored = true <-> exists view, build_network_view stored observation now = Ok view) /\
  (forall view, build_network_view stored observation now = Ok view ->
     let fresh := fresh_measurements stored now in
     view_validate view = Ok tt /\ served_at view = now /\ view_lobby_id view = lobby_id (lobby stored) /\
     network_lifecycle (backing view) = effective_lifecycle stored /\
     fact_value (roster_count (counts view)) = Some (Z.of_nat (length (roster (lobby stored)))) /\
     fact_value (fresh_reporter_count (counts view)) = Some (Z.of_nat (length fresh)) /\
     fact_value (aggregate_direct_count (routes view)) = Some (total (fun s => direct_count (route_summary s)) fresh) /\
     fact_value (aggregate_peer_relay_count (routes view)) = Some (total (fun s => peer_relay_count (route_summary s)) fresh) /\
     fact_value (derp_relay_count (routes view)) = Some (total (fun s => derp_count (route_summary s)) fresh)).
Proof.
  intros Hok. destruct (fresh_measurements_facts _ _ _ Hok) as [Hlen Hwithin]. pose proof (insp_roster _ _ _ Hok) as Hroster.
  unfold MAX_PLAYERS in Hroster. set (n := Z.of_nat (length (roster (lobby stored)))) in *.
  set (fresh := fresh_measurements stored now) in *.
  assert (Hdirs : exists expected, directions n = Some expected /\ 0 <= expected < 2 ^ 32 /\ (n - 1) * Z.of_nat (length fresh) <= expected /\ expected <= n * (n - 1)).
  { unfold directions, checked_mul, saturating_sub. destruct (Z.eq_dec n 0) as [Hz|Hz].
    - rewrite Hz. exists 0. split; [done|]. nia.
    - rewrite Z.max_l by lia. exists (n * (n - 1)). assert (n * (n - 1) <? 2 ^ 32 = true) as -> by nia. split; [done|]. nia. }
  destruct Hdirs as (expected & Hexp & Hrange & Hle & Hle').
  assert (Htot : exists observed, measured_totals fresh = Some (total (fun s => direct_count (route_summary s)) fresh,
      total (fun s => peer_relay_count (route_summary s)) fresh, total (fun s => derp_count (route_summary s)) fresh, observed) /\
    0 <= total (fun s => direct_count (route_summary s)) fresh /\ 0 <= total (fun s => peer_relay_count (route_summary s)) fresh /\
    0 <= total (fun s => derp_count (route_summary s)) fresh /\
    total (fun s => direct_count (route_summary s)) fresh + total (fun s => peer_relay_count (route_summary s)) fresh
      + total (fun s => derp_count (route_summary s)) fresh = observed /\ observed <= (n - 1) * Z.of_nat (length fresh)).
  { destruct fresh as [|s l] eqn:Hf; [exists 0; unfold total; simpl; split; [done|lia]|]. rewrite <-Hf in *.
    destruct (measured_totals_from (n - 1) fresh 0 0 0 0 Hwithin) as (observed & Htot & H1 & H2 & H3 & H4 & H5); [rewrite Hf in Hlen; simpl in Hlen; lia..|].
    exists observed. split; [exact Htot|]. repeat split; lia. }
  destruct Htot as (observed & Htot & Hd & Hr & Hp & Hsum & Hobs).
  set (direct := total _ fresh) in Htot, Hd, Hsum |- *. set (relay := total _ fresh) in Htot, Hr, Hsum |- *. set (derp := total _ fresh) in Htot, Hp, Hsum |- *.
  assert (Hreported : checked_add 32 observed (expected - observed) = Some expected) by (apply checked_add_Some; lia).
  assert (Hreach : checked_sum [direct; relay; derp] = Some (direct + relay + derp)).
  { unfold checked_sum. cbn [fold_left]. rewrite !(proj2 (checked_add_Some 32 _ _ _)) by (split; [reflexivity|lia]). f_equal. }
  assert (Hratio : exists ratio, view_ratio direct (direct + relay + derp) now = Ok ratio).
  { unfold view_ratio. destruct (Z.eqb_spec (direct + relay + derp) 0); [by eexists|]. unfold ratio_of. rewrite try_from_uint_ok; [by eexists|].
    unfold in_uint, DIRECT_RATIO_MILLI_SCALE. split; [apply Z.div_pos; lia|apply Z.div_lt_upper_bound; nia]. }
  destruct Hratio as [ratio Hratio].
  unfold build_network_view. fold n fresh. rewrite Hexp, Htot.
  assert (observed >? expected = false) as -> by lia. rewrite Hreported, Hreach, Hratio.
  destruct (view_backing stored now) as [[label b]|[]] eqn:Hb.
  2:{ split; [|done]. split; [|by intros [? ?]]. unfold view_backing in Hb. unfold servable. destruct (view_is_dry stored) eqn:Hdry; [done|].
      unfold view_is_dry in Hdry. destruct (provisioning_mode (lobby stored)); [done| |done]. by rewrite orb_true_r in Hdry. }
  destruct (view_cleanup_of stored now) as [cleanup|[]] eqn:Hc.
  2:{ split; [|done]. split; [|by intros [? ?]]. unfold view_cleanup_of in Hc. unfold servable. destruct (view_is_dry stored) eqn:Hdry; [done|].
      by destruct (effective_lifecycle stored). }
  set (view := assemble_view _ _ _ _ _ _ _).
  assert (Hlife : network_lifecycle b = effective_lifecycle stored).
  { unfold view_backing in Hb. destruct (view_is_dry stored); [by injection Hb as <- <-|]. by destruct (provisioning_mode (lobby stored)); try done; injection Hb as <- <-. }
  assert (Hmode : (backing_mode b =?? BackingDryRun) = view_is_dry stored).
  { unfold view_backing in Hb. destruct (view_is_dry stored); [by injection Hb as <- <-|]. by destruct (provisioning_mode (lobby stored)); try done; injection Hb as <- <-. }
  assert (Hvalid : view_validate view = Ok tt <-> servable stored = true).
  { pose proof (cleanup_valid stored observation now view cleanup Hok eq_refl Hc eq_refl Hlife) as Hcv.
    assert (Himpl : servable stored = true -> cleanup_servable stored = true).
    { unfold servable, cleanup_servable. destruct (view_is_dry stored); [done|]. simpl. destruct (effective_lifecycle stored); try done. by intros [? _]%andb_true_iff. }
    pose proof (counts_valid stored observation now view (Z.of_nat (length fresh)) observed b Hok eq_refl eq_refl Hmode eq_refl ltac:(lia) ltac:(lia) ltac:(nia)) as Hcounts.
    pose proof (routes_valid view now expected direct relay derp observed ratio eq_refl Hd Hr Hp Hsum Hrange ltac:(lia) Hratio eq_refl) as Hroutes.
    pose proof (quality_valid view now eq_refl eq_refl) as Hquality. pose proof (authority_valid stored observation now view Hok eq_refl eq_refl) as Hauth.
    pose proof (backing_valid stored observation now label b view Hok Hb eq_refl eq_refl eq_refl) as Hbv.
    unfold view_validate. rewrite !checks_cons, Hcounts, Hroutes, Hquality, Hauth, Hcv.
    split.
    - intros (_ & _ & Hback & _ & _ & _ & _ & _ & _ & _ & _ & Hclean & _). by apply Hbv.
    - intros Hs. pose proof (Himpl Hs) as Hclean. rewrite (proj2 (Hbv Hclean) Hs).
      split; [done|]. split; [unfold view_backing in Hb; destruct (view_is_dry stored); [injection Hb as <- <-; done|];
        destruct (provisioning_mode (lobby stored)); try done; injection Hb as <- <-; done|].
      split; [done|]. split; [apply validate_control|]. split; [done|]. split; [subst view; unfold assemble_view; cbn [lobby_lifecycle control_fact fact_known fact_value];
        apply reject_if_Ok; by destruct (state (lobby stored))|]. split; [done|].
      change (fact_value (roster_count (counts view))) with (Some n). cbv beta iota. rewrite Hexp.
      split; [apply reject_if_Ok; change (fact_value (expected_direction_count (routes view))) with (Some expected); by rewrite bool_decide_true|].
      split_and!; try done. change (fact_value (reported_direction_count (routes view))) with (Some expected).
      change (fact_value (sample_count (application_quality view))) with (Some 0). cbv beta iota. apply reject_if_Ok. lia. }
  destruct (view_validate view) as [[]|e] eqn:Hv.
  - split; [split; [by eexists|intros _; by apply Hvalid]|]. intros view' [= <-]. cbv zeta. split; [done|]. split; [done|]. split; [done|]. split; [exact Hlife|]. by split_and!.
  - split; [|done]. split; [intros Hs; apply Hvalid in Hs; discriminate|by intros [? ?]].
Qed.


(** While the proof of a deletion is stored but the child's secret is not erased yet, the
    record is still verifying, and its view is refused. *)
Lemma proof_before_erasure_unserved stored observation now :
  inspectable stored observation now -> view_is_dry stored = false -> sl_lifecycle stored = VerifyingAbsence ->
  is_some (provider_identity stored) = true -> is_some (sl_absence_confirmed_at stored) = true ->
  build_network_view stored observation now = Err tt.
Proof.
  intros Hok Hdry Hlife Hid Habs. destruct (build_network_view stored observation now) as [view|[]] eqn:Hv; [|done]. exfalso.
  assert (Hs : servable stored = true) by (apply (view_served _ _ _ Hok); by eexists).
  unfold servable, effective_lifecycle in Hs. rewrite Hdry, Hlife in Hs. unfold is_none in Hs. rewrite Hid, Habs in Hs. simpl in Hs.
  by rewrite !andb_false_r in Hs.
Qed.

(** C26. Which views are served. For every record as the server maintains it ([inspectable]),
    with nothing dated after the present, whatever answer of
    the provider is cached, a view is served exactly when the view has words for the state
    of the cleanup ([servable]). A view that is served passes its own check, shows the
    lifecycle of the network, and its counts are those of the store: the players, the
    players with a fresh measurement, and the sums of the direct, relayed and DERP routes
    they measured. *)
Theorem view_served_iff stored observation now :
  inspectable stored observation now ->
  (servable stored = true <-> exists view, build_network_view stored observation now = Ok view) /\
  (forall view, build_network_view stored observation now = Ok view ->
     let fresh := fresh_measurements stored now in
     view_validate view = Ok tt /\ served_at view = now /\ view_lobby_id view = lobby_id (lobby stored) /\
     network_lifecycle (backing view) = effective_lifecycle stored /\
     fact_value (roster_count (counts view)) = Some (Z.of_nat (length (roster (lobby stored)))) /\
     fact_value (fresh_reporter_count (counts view)) = Some (Z.of_nat (length fresh)) /\
     fact_value (aggregate_direct_count (routes view)) = Some (total (fun s => direct_count (route_summary s)) fresh) /\
     fact_value (aggregate_peer_relay_count (routes view)) = Some (total (fun s => peer_relay_count (route_summary s)) fresh) /\
     fact_value (derp_relay_count (routes view)) = Some (total (fun s => derp_count (route_summary s)) fresh)).
Proof. exact (view_served stored observation now). Qed.

(** ** A concrete record *)

Module NetworkViewDemo.
Definition rider (n : Z) : PlayerId := demo_session_player n.
Definition summary : RouteSummary := mkRouteSummary 1 0 0.
Definition sample : ConnectivitySample := mkConnectivitySample summary 20 30 2 0 10 500 1 9000.
Definition seat (n : Z) : Player := mkPlayer (rider n) [] Connected WIRE_VERSION AUTHORITY_FORMULA_VERSION None summary 1000 false.
Definition name : TailnetDnsName := mkTailnetDnsName (bytes_of_string "lobby-1.example.ts.net").
Definition identity : StoredNetworkIdentity := mkStoredNetworkIdentity (Some [97]) name 1 2000.
Definition stored : StoredLobby :=
  (stored_new (mkLobby (rider 200) [] Forming None [seat 1; seat 2] 2 None None (mkLobbyTtl 600000 1200000) WIRE_VERSION TailnetPerLobby 1000 false)
     (rider 1) (dns_name name) [116] false 600000)
    <| sl_lifecycle := Active |> <| network_identity := Some identity |>
    <| measurements := {[rider 1 := sample; rider 2 := sample]} |> <| authenticated_reporters := {[rider 1]} |>.
Definition observation : option CachedProviderObservation := Some (observation_success 1 2 8000).
(** The same network while its deletion is verified, with the second observation stored. *)
Definition verifying : StoredLobby :=
  stored <| sl_lifecycle := VerifyingAbsence |> <| cleanup_requested_at := Some 3000 |> <| sl_delete_acknowledged_at := Some 4000 |>
    <| sl_absence_confirmed_at := Some 9000 |>.
Lemma stored_inspectable s :
  roster (lobby s) = [seat 1; seat 2] -> sl_generation s = 1 -> measurements s = {[rider 1 := sample; rider 2 := sample]} ->
  network_identity s = Some identity -> last_election s = None -> sl_last_accepted_heartbeat s = None ->
  in_order (cleanup_requested_at s) (sl_delete_acknowledged_at s) = true ->
  in_order (sl_delete_acknowledged_at s) (sl_absence_confirmed_at s) = true ->
  in_order (cleanup_requested_at s) (sl_absence_confirmed_at s) = true ->
  inspectable s observation 10000.
Proof.
  intros Hr Hg Hm Hi He Hh H1 H2 H3. split.
  - rewrite Hr. vm_compute. discriminate.
  - rewrite Hg. discriminate.
  - intros player s0. rewrite Hm, Hr. intros Hin.
    assert (s0 = sample) as ->.
    { apply lookup_insert_Some in Hin as [[_ <-]|[_ Hin]]; [done|]. by apply lookup_singleton_Some in Hin as [_ <-]. }
    split; [unfold sample_ok, route_summary_ok, in_uint; simpl; repeat split; lia|reflexivity].
  - rewrite Hi. intros ? [= <-]. simpl. lia.
  - by rewrite He.
  - by rewrite Hh.
  - done.
  - intros o [= <-]. split; [intros at_ [= <-]; lia|done].
Qed.
End NetworkViewDemo.
Import NetworkViewDemo.

Lemma view_served_iff_witness :
  servable stored = true /\
  exists view, build_network_view stored observation 10000 = Ok view /\ view_validate view = Ok tt /\
    fact_value (aggregate_direct_count (routes view)) = Some 1.
Proof.
  assert (Hok : inspectable stored observation 10000) by (apply stored_inspectable; reflexivity).
  destruct (view_served_iff stored observation 10000 Hok) as [[Hserved _] Hfacts]. split; [vm_compute; reflexivity|].
  destruct (Hserved ltac:(vm_compute; reflexivity)) as [view Hview]. exists view. split; [exact Hview|].
  destruct (Hfacts view Hview) as (Hvalid & _ & _ & _ & _ & _ & Hdirect & _). split; [exact Hvalid|].
  rewrite Hdirect. vm_compute. reflexivity.
Defined.

Example verifying_unserved : build_network_view verifying observation 10000 = Err tt.
Proof. vm_compute. reflexivity. Qed.
