(* ===== verification/LobbyService.v ===== *)
(** * The lobby service: what each request does to a lobby ([spurfire-server/src/service.rs])

    The decisions of the handlers on the record of a lobby that the store returned:
    roster, measurements and elections, start, heartbeats of the authority, results and
    what a cleanup leaves. The calls of the provider and the store are in
    [ServiceCleanup]. An error is its status, its code, whether the
    answer is marked simulated, and the state reason; the human-readable message is left
    out. Display names are Unicode scalars, other text is bytes. *)

From Stdlib Require Import Strings.String.
From stdpp Require Import gmap.
From S2P Require Import Prelude MachineInt Ordered Clock Bytes Identifiers WireVersion LobbyLifecycle Model Session Rehearsal Election.
From S2P Require Import NetworkInspection ServerCrypto Store NetworkView.
Open Scope Z_scope.

Definition JOIN_RATE_WINDOW_MS : Z := 60000.
Definition MAX_JOIN_ATTEMPTS_PER_LOBBY : nat := 32.
Definition MAX_JOIN_ATTEMPTS_PER_PLAYER : nat := 4.
Definition AUTHORITY_SILENCE_MS : Z := 2000.
Definition MAX_FINAL_SCORE_ABS : Z := 1000000.
Definition MAX_MATCH_DURATION_S : Z := 60 * 60.
Definition INVITATION_TTL_MS : Z := 10 * 60 * 1000.
Definition MAX_ACTIVE_INVITATIONS : nat := 32.
Definition JOIN_CREDENTIAL_TTL_MS : Z := 5 * 60 * 1000.
Definition PROTOTYPE_MIN_PLAYERS : nat := 2.
Definition M3_WIRE_VERSION : WireVersion := mkWireVersion 2 0.
Definition MAX_DISPLAY_NAME_CHARS : nat := 64.

#[export] Instance HorseSelection_eq_dec : EqDecision HorseSelection.
Proof. solve_decision. Defined.
#[export] Instance Lobby_settable : Settable Lobby := fun x =>
  mkLobby (lobby_id x) (display_name x) (state x) (state_reason x) (roster x) (max_players x) (map_seed x) (authority x) (ttl x)
    (lobby_wire_version x) (provisioning_mode x) (created_at x) (cleanup_pending x).
#[export] Instance LobbyTtl_settable : Settable LobbyTtl := fun x => mkLobbyTtl (idle_expires_at x) (absolute_expires_at x).
#[export] Instance Player_settable : Settable Player := fun x =>
  mkPlayer (player_id x) (player_display_name x) (join_state x) (player_wire_version x) (player_formula_version x) (horse_selection x)
    (player_route_summary x) (player_joined_at x) (player_cleanup_pending x).

(** ** Errors *)

Record ApiError := mkApiError {
  error_status : Z;
  error_code : string;
  error_dry_run : bool;
  error_state_reason : option (list Z);
}.
Definition api_error (status : Z) (code : string) (dry : bool) : ApiError := mkApiError status code dry None.
Definition lobby_not_found : ApiError := api_error 404 "lobby_not_found" false.
Definition internal_error (dry : bool) : ApiError := api_error 500 "internal_error" dry.
Definition actor_mismatch (dry : bool) : ApiError := api_error 403 "actor_mismatch" dry.
Definition idempotency_conflict (dry : bool) : ApiError := api_error 409 "idempotency_conflict" dry.
Definition lobby_closed_or_transition (s : LobbyState) (dry : bool) : ApiError :=
  api_error 409 (match s with Closing | Failed | Expired | Destroyed => "lobby_closed" | _ => "lobby_not_joinable" end) dry.
Definition invalid_results (dry : bool) : ApiError := api_error 422 "invalid_results" dry.
Definition authority_error (error : AuthorityElectionError) (dry : bool) : ApiError := api_error 409 "authority_unavailable" dry.
Definition store_api_error (error : StoreError) (dry : bool) : ApiError :=
  match error with
  | Capacity => api_error 503 "service_capacity_reached" dry
  | RealMutationsDisabled => api_error 503 "real_mutations_disabled" dry
  | InvalidCreateGrant | InvalidRehearsalReceipt => lobby_not_found
  | RealLobbyCapacityReached => api_error 409 "real_lobby_capacity_reached" dry
  | _ => internal_error dry
  end.

(** [ApiValidationError], with its status and code. *)
Inductive ApiValidationError :=
| EmptyDisplayName | DisplayNameTooLong | InvalidCreateMaxPlayers (value : Z)
| WireVersionIncompatible (mismatch : WireVersionMismatch)
| InvalidConnectivitySample (error : ConnectivityValidationError)
| RosterWireVersionIncompatible (player : PlayerId) (version : WireVersion)
| SecureSessionWireVersionRequired (player : PlayerId) (version : WireVersion)
| MixedAuthorityFormula (player : PlayerId) (formula : list Z).
Definition validation_error (error : ApiValidationError) (dry : bool) : ApiError :=
  match error with
  | WireVersionIncompatible _ | RosterWireVersionIncompatible _ _ => api_error 409 "wire_version_incompatible" dry
  | InvalidConnectivitySample _ => api_error 422 "invalid_measurements" dry
  | MixedAuthorityFormula _ _ => api_error 409 "authority_formula_incompatible" dry
  | SecureSessionWireVersionRequired _ _ => api_error 409 "session_identity_required" dry
  | EmptyDisplayName | DisplayNameTooLong | InvalidCreateMaxPlayers _ => api_error 422 "invalid_request" dry
  end.

(** ** Requests *)

(** [str::trim] leaves nothing exactly when every character is white space. *)
Definition validate_display_name (name : list Z) : result unit ApiValidationError :=
  if forallb is_whitespace name then Err EmptyDisplayName
  else if (MAX_DISPLAY_NAME_CHARS <? length name)%nat then Err DisplayNameTooLong
  else Ok tt.
Record JoinLobbyRequest := mkJoinLobbyRequest {
  join_player : PlayerId;
  join_display_name : list Z;
  client_wire_version : WireVersion;
  join_formula_version : list Z;
  join_horse : option HorseSelection;
}.
Definition join_validate (self : JoinLobbyRequest) (service_version : WireVersion) : result unit ApiValidationError :=
  match validate_display_name (join_display_name self) with
  | Err e => Err e
  | Ok _ => map_err WireVersionIncompatible (check_compatible_with service_version (client_wire_version self))
  end.
Record ConnectivityReport := mkConnectivityReport {
  report_route_summary : RouteSummary;
  report_rtt_ms_median : Z;
  report_rtt_ms_worst : Z;
  report_jitter_ms : Z;
  report_loss_pct_milli : Z;
  report_upload_mbps_sustained : Z;
  report_device_perf_score : Z;
  report_observed_peer_count : Z;
}.
Definition into_sample (self : ConnectivityReport) (at_ : UnixMillis) : ConnectivitySample :=
  mkConnectivitySample (report_route_summary self) (report_rtt_ms_median self) (report_rtt_ms_worst self) (report_jitter_ms self)
    (report_loss_pct_milli self) (report_upload_mbps_sustained self) (report_device_perf_score self) (report_observed_peer_count self) at_.
Definition into_validated_sample (self : ConnectivityReport) (at_ : UnixMillis) (roster_size : Z) : result ConnectivitySample ApiValidationError :=
  match validate_for_roster (into_sample self at_) roster_size with
  | Err e => Err (InvalidConnectivitySample e)
  | Ok _ => Ok (into_sample self at_)
  end.
Record StartLobbyRequest := mkStartLobbyRequest {
  start_creator : PlayerId;
  start_map_seed : option Z;
}.
Record AuthorityHeartbeatRequest := mkAuthorityHeartbeatRequest {
  beat_player : PlayerId;
  beat_input_hash : list Z;
  beat_epoch : Z;
  survivors : list PlayerId;
}.
Record FinalScore := mkFinalScore {
  scored_player : PlayerId;
  bounty_score : Z;
  final_eliminations : Z;
  final_assists : Z;
  final_deaths : Z;
}.
Record SubmitResultsRequest := mkSubmitResultsRequest {
  submitted_by : PlayerId;
  co_signers : list PlayerId;
  final_scores : list FinalScore;
  match_duration_s : Z;
  results_input_hash : list Z;
}.

(** [validate_start_roster_against] and its secure variant. *)
Fixpoint validate_start_roster_against (players : list Player) (version : WireVersion) (formula : list Z) : result unit ApiValidationError :=
  match players with
  | [] => Ok tt
  | p :: players =>
      if negb (is_compatible_with version (player_wire_version p))
      then Err (RosterWireVersionIncompatible (player_id p) (player_wire_version p))
      else if negb (bool_decide (player_formula_version p = formula))
      then Err (MixedAuthorityFormula (player_id p) (player_formula_version p))
      else validate_start_roster_against players version formula
  end.
Definition is_unsigned_wire (version : WireVersion) : bool := (major version =? 0) || ((major version =? 1) && (minor version <? 2)).
Fixpoint validate_signed_wire (players : list Player) : result unit ApiValidationError :=
  match players with
  | [] => Ok tt
  | p :: players =>
      if is_unsigned_wire (player_wire_version p)
      then Err (SecureSessionWireVersionRequired (player_id p) (player_wire_version p))
      else validate_signed_wire players
  end.
Definition validate_secure_start_roster_against (players : list Player) (version : WireVersion) (formula : list Z)
    : result unit ApiValidationError :=
  match validate_start_roster_against players version formula with
  | Err e => Err e
  | Ok _ => validate_signed_wire players
  end.

(** ** Shared steps *)

(** What a handler does at its end: the record it writes, if any, and its answer. *)
Record Reply (A : Type) := mkReply {
  written : option StoredLobby;
  answer : result A ApiError;
}.
Arguments mkReply {A}.
Arguments written {A}.
Arguments answer {A}.
Definition refuse {A} (e : ApiError) : Reply A := mkReply None (Err e).
Definition reply {A} (r : StoredLobby) (a : A) : Reply A := mkReply (Some r) (Ok a).
(** [?] on a step that may fail before anything is written. *)
Definition proceed {A B} (r : result A ApiError) (k : A -> Reply B) : Reply B :=
  match r with Err e => refuse e | Ok a => k a end.

Definition on_lobby (f : Lobby -> Lobby) (stored : StoredLobby) : StoredLobby := stored <| lobby := f (lobby stored) |>.
Definition in_roster (stored : StoredLobby) (player : PlayerId) : bool :=
  existsb (fun p => bool_decide (player_id p = player)) (roster (lobby stored)).
(** [iter_mut().find]: the first match only. *)
Fixpoint alter_first (player : PlayerId) (f : Player -> Player) (l : list Player) : list Player :=
  match l with
  | [] => []
  | p :: l => if decide (player_id p = player) then f p :: l else p :: alter_first player f l
  end.
Definition alter_rider (player : PlayerId) (f : Player -> Player) : StoredLobby -> StoredLobby :=
  on_lobby (fun l => l <| roster := alter_first player f (roster l) |>).
Definition clear_authority (stored : StoredLobby) : StoredLobby :=
  (on_lobby (fun l => l <| authority := None |>) stored) <| last_election := None |>.
Definition clear_measurements (stored : StoredLobby) : StoredLobby :=
  stored <| measurements := ∅ |> <| authenticated_reporters := ∅ |>.

Definition transition (next : LobbyState) (dry : bool) (stored : StoredLobby) : result StoredLobby ApiError :=
  match validate_transition (state (lobby stored)) next with
  | Err _ => Err (api_error 409 "invalid_state_transition" dry)
  | Ok _ => Ok (on_lobby (fun l => l <| state := next |>) stored)
  end.
(** A ready lobby goes back to forming; others stay. *)
Definition unready (dry : bool) (stored : StoredLobby) : result StoredLobby ApiError :=
  match state (lobby stored) with Ready => transition Forming dry stored | _ => Ok stored end.

Definition all_measurements_fresh (stored : StoredLobby) (now : UnixMillis) : bool :=
  (PROTOTYPE_MIN_PLAYERS <=? length (roster (lobby stored)))%nat
  && forallb (fun p => is_some_and (measurements stored !! player_id p) (fun sample =>
       younger_than now (measured_at sample) MEASUREMENT_FRESHNESS_MS)) (roster (lobby stored)).
Definition refresh_freshness_state (stored : StoredLobby) (now : UnixMillis) : StoredLobby * bool :=
  match state (lobby stored) with
  | Ready =>
      if negb (all_measurements_fresh stored now) && is_ok (validate_transition Ready Forming)
      then (clear_authority (on_lobby (fun l => l <| state := Forming |>) stored), true)
      else (stored, false)
  | _ => (stored, false)
  end.
Definition refresh_idle_expiry (now : UnixMillis) (stored : StoredLobby) : StoredLobby :=
  on_lobby (fun l => l <| ttl := (ttl l) <| idle_expires_at :=
    Z.min (millis_saturating_add now (idle_ttl_ms stored)) (absolute_expires_at (ttl l)) |> |>) stored.
Definition bump_revision (stored : StoredLobby) : StoredLobby :=
  stored <| roster_revision := saturating_add 64 (roster_revision stored) 1 |>.
Definition roster_changed (dry : bool) (stored : StoredLobby) : result StoredLobby ApiError :=
  match unready dry (bump_revision stored) with
  | Err e => Err e
  | Ok stored => Ok (clear_authority (clear_measurements stored))
  end.
Definition is_joinable (s : LobbyState) : bool := match s with Forming | Ready => true | _ => false end.
Definition ensure_joinable (s : LobbyState) (dry : bool) : result unit ApiError :=
  if is_joinable s then Ok tt else Err (lobby_closed_or_transition s dry).
Definition ensure_creator (stored : StoredLobby) (actor : PlayerId) (dry : bool) : result unit ApiError :=
  if decide (creator_player_id stored = actor) then Ok tt else Err (api_error 403 "not_creator" dry).

(** ** Elections *)

Definition authority_candidates (stored : StoredLobby) : list AuthorityCandidate :=
  omap (fun p =>
    (fun sample => mkCandidate (player_id p) (player_wire_version p) (player_joined_at p) sample) <$> measurements stored !! player_id p)
    (roster (lobby stored)).
Definition election_changed (stored : StoredLobby) (election : AuthorityElection) : bool :=
  is_none_or (last_election stored) (fun previous =>
    negb (bool_decide (winner_player_id previous = winner_player_id election))
    || negb (bool_decide (input_hash previous = input_hash election))).
Definition apply_election (election : AuthorityElection) (now : UnixMillis) (dry : bool) (stored : StoredLobby) : result StoredLobby ApiError :=
  let epoch := if election_changed stored election then Z.max (saturating_add 64 (authority_epoch stored) 1) 1 else authority_epoch stored in
  let summary := mkAuthoritySummary (winner_player_id election) (elected_formula_version election) (reference_score election) in
  let stored := (on_lobby (fun l => l <| authority := Some summary |>) stored)
    <| authority_epoch := epoch |> <| last_election := Some election |> in
  match state (lobby stored) with
  | Forming => if all_measurements_fresh stored now then transition Ready dry stored else Ok stored
  | _ => Ok stored
  end.
Definition recompute_authority (now : UnixMillis) (dry : bool) (stored : StoredLobby) : result StoredLobby ApiError :=
  if negb (all_measurements_fresh stored now) then Ok (clear_authority stored)
  else match elect_authority (authority_candidates stored) now with
       | Err e => Err (authority_error e dry)
       | Ok election => apply_election election now dry stored
       end.

(** ** Invitations *)

Definition create_invitation (stored : StoredLobby) (legacy : option PlayerId) (authorized : bool) (verifier : list Z) (now : UnixMillis)
    : Reply unit :=
  let dry := dry_run stored in
  if negb (dry || authorized) then refuse (api_error 503 "real_admission_closed" false)
  else
    proceed (ensure_joinable (state (lobby stored)) dry) (fun _ =>
    proceed (match legacy with Some actor => ensure_creator stored actor dry | None => Ok tt end) (fun _ =>
    if (MAX_ACTIVE_INVITATIONS <=? active_invitation_count stored now)%nat then refuse (api_error 429 "invitation_limit_reached" dry)
    else
      let expires := Z.min (millis_saturating_add now INVITATION_TTL_MS) (absolute_expires_at (ttl (lobby stored))) in
      reply (add_capability (capability_new verifier [LobbyJoin] (lobby_id (lobby stored)) None (sl_generation stored) expires) stored) tt)).

(** ** Joining *)

Definition enforce_join_rate_limit (player : PlayerId) (now : UnixMillis) (dry : bool) (stored : StoredLobby) : result StoredLobby ApiError :=
  let attempts := drop_old_attempts now (join_attempts stored) in
  let player_attempts := length (filter (fun attempt => attempt_player_id attempt = player) attempts) in
  if (MAX_JOIN_ATTEMPTS_PER_LOBBY <=? length attempts)%nat || (MAX_JOIN_ATTEMPTS_PER_PLAYER <=? player_attempts)%nat
  then Err (api_error 429 "join_rate_limited" dry)
  else Ok (stored <| join_attempts := attempts ++ [mkStoredJoinAttempt player now] |>).

Definition live_credential (now : UnixMillis) (credential : StoredCredential) : bool :=
  negb (credential_revoked credential) && (credential_expires_at credential >? now).
(** The answers of a join: the first issue, or a receipt. *)
Inductive JoinAnswer := JoinIssued (credential_id : list Z) (snapshot : Lobby) | JoinReceipt (receipt : JoinCredentialReceipt) (snapshot : Lobby).
(** Either the answer, or the record with the attempt counted, ready for the reservation. *)
Definition same_attributes (p : Player) (request : JoinLobbyRequest) : bool :=
  bool_decide (player_display_name p = join_display_name request) && bool_decide (player_wire_version p = client_wire_version request)
  && bool_decide (player_formula_version p = join_formula_version request) && bool_decide (horse_selection p = join_horse request).
Definition with_join_replay (key fingerprint : list Z) (player : PlayerId) (receipt : JoinCredentialReceipt) (now : UnixMillis)
    (stored : StoredLobby) : StoredLobby :=
  stored <| join_replays := <[key := mkStoredJoinReplay fingerprint player receipt now]> (join_replays stored) |>.
Definition join_admission (stored : StoredLobby) (request : JoinLobbyRequest) (actor : PlayerId) (invitation : option (list Z))
    (key fingerprint : list Z) (authorized : bool) (dry : bool) (now : UnixMillis) : Reply JoinAnswer + StoredLobby :=
  let player := join_player request in
  match join_replays stored !! key with
  | Some replay =>
      inl (if is_some_and invitation (fun verifier => negb (matches_invitation stored verifier now)) then refuse lobby_not_found
           else if negb (bool_decide (join_fingerprint replay = fingerprint)) || negb (bool_decide (join_player_id replay = actor))
           then refuse (idempotency_conflict dry)
           else mkReply None (Ok (JoinReceipt (join_receipt replay) (snapshot stored))))
  | None =>
      if negb (dry_run stored || authorized) then inl (refuse (api_error 503 "real_admission_closed" false))
      else
        match join_validate request M3_WIRE_VERSION with
        | Err e => inl (refuse (validation_error e dry))
        | Ok _ =>
            if forallb is_whitespace (join_formula_version request) then inl (refuse (api_error 422 "invalid_authority_formula" dry))
            else if negb (is_joinable (state (lobby stored))) then inl (refuse (lobby_closed_or_transition (state (lobby stored)) dry))
            else
              let checked :=
                match find (fun p => bool_decide (player_id p = player)) (roster (lobby stored)) with
                | Some existing =>
                    if negb (same_attributes existing request) then Some (refuse (api_error 409 "duplicate_player" dry))
                    else match credentials stored !! player with
                         | Some credential =>
                             if live_credential now credential
                             then let stored := with_join_replay key fingerprint player (credential_receipt credential) now stored in
                                  Some (reply stored (JoinReceipt (credential_receipt credential) (snapshot stored)))
                             else None
                         | None => None
                         end
                | None =>
                    if max_players (lobby stored) <=? Z.of_nat (length (roster (lobby stored))) then Some (refuse (api_error 409 "roster_full" dry))
                    else if is_some_and (credentials stored !! player) (live_credential now)
                    then Some (refuse (api_error 503 "credential_cleanup_pending" dry))
                    else None
                end in
              match checked with
              | Some r => inl r
              | None =>
                  if is_some_and (pending_issuances stored !! player) (fun reservation => reservation_expires_at reservation >? now)
                  then inl (refuse (api_error 503 "credential_issuance_pending" dry))
                  else match enforce_join_rate_limit player now dry stored with
                       | Err e => inl (refuse e)
                       | Ok stored => inr stored
                       end
              end
        end
  end.

(** The invitation used up and the issuance reserved. *)
Definition reserve_issuance (request : JoinLobbyRequest) (invitation : option (list Z)) (key fingerprint : list Z) (now : UnixMillis)
    (stored : StoredLobby) : option StoredLobby :=
  match (match invitation with
         | None => Some stored
         | Some verifier => match consume_invitation stored verifier now with (stored, true) => Some stored | (_, false) => None end
         end) with
  | None => None
  | Some stored =>
      Some (stored <| pending_issuances := <[join_player request := mkStoredIssuanceReservation fingerprint key now
                        (millis_saturating_add now JOIN_CREDENTIAL_TTL_MS)]> (pending_issuances stored) |>)
  end.

Definition insert_sorted (p : Player) (l : list Player) : list Player := sort_by_key player_id (l ++ [p]).
Definition seat_of (request : JoinLobbyRequest) (now : UnixMillis) : Player :=
  mkPlayer (join_player request) (join_display_name request) CredentialIssued (client_wire_version request) (join_formula_version request)
    (join_horse request) (mkRouteSummary 0 0 0) now false.
Definition retake_seat (player : PlayerId) (dry : bool) (stored : StoredLobby) : result StoredLobby ApiError :=
  let stored := alter_rider player (fun p => p <| join_state := CredentialIssued |>) stored in
  unready dry (clear_authority (stored <| measurements := delete player (measurements stored) |>)).
Definition take_seat (request : JoinLobbyRequest) (dry : bool) (now : UnixMillis) (stored : StoredLobby) : result StoredLobby ApiError :=
  let player := join_player request in
  if negb (in_roster stored player) then
    match roster_changed dry stored with
    | Err e => Err e
    | Ok stored => Ok (on_lobby (fun l => l <| roster := insert_sorted (seat_of request now) (roster l) |>) stored)
    end
  else retake_seat player dry stored.

(** ** The provider's answers ([provider.rs]) *)

Inductive ChildPolicyStatus := PolicyMismatch | PolicyDenied | PolicyUnavailable.
Inductive ProviderError :=
| MutationsDisabled | IdentityMismatch | ChildSecretUnavailable
| ChildPolicyGate (identity : ProviderNetworkIdentity) (expected_digest : list Z) (status : ChildPolicyStatus) (delete_acknowledged : bool)
| InsufficientScopes (operation : string) | Upstream (operation : string) (status : Z) | ProviderUnavailable (operation : string).
Definition policy_status_text (s : ChildPolicyStatus) : list Z :=
  bytes_of_string (match s with PolicyMismatch => "mismatch" | PolicyDenied => "denied" | PolicyUnavailable => "unavailable" end).
Definition provider_state_reason (error : ProviderError) : list Z :=
  bytes_of_string
    (match error with
     | MutationsDisabled => "real_mutations_disabled"
     | IdentityMismatch => "provider_identity_mismatch_manual_remediation"
     | ChildSecretUnavailable => "child_secret_unavailable_manual_remediation"
     | ChildPolicyGate _ _ PolicyMismatch _ => "child_policy_readback_mismatch"
     | ChildPolicyGate _ _ PolicyDenied _ => "child_policy_blocked_403"
     | ChildPolicyGate _ _ PolicyUnavailable _ => "child_policy_unavailable"
     | InsufficientScopes operation =>
         if (operation =? "organization_tailnet_create")%string then "provisioning_blocked_organization_tailnets"
         else if (operation =? "auth_keys")%string then "provisioning_blocked_auth_keys_403"
         else if (operation =? "devices")%string then "cleanup_blocked_devices_403"
         else if (operation =? "acl")%string then "provisioning_blocked_acl_403"
         else "provisioning_blocked_scopes_403"
     | Upstream _ _ => "provider_upstream_error"
     | ProviderUnavailable operation =>
         if (operation =? "startup")%string || (operation =? "settings")%string then "token_fetch_failed" else "provider_unavailable"
     end).
Definition provider_api_error (error : ProviderError) (dry : bool) : ApiError :=
  let '(status, code) :=
    match error with
    | MutationsDisabled => (503, "real_mutations_disabled"%string)
    | IdentityMismatch | ChildSecretUnavailable => (503, "manual_remediation_required"%string)
    | ChildPolicyGate _ _ _ _ => (503, "child_policy_gate_failed"%string)
    | InsufficientScopes _ => (503, "provider_scopes_insufficient"%string)
    | Upstream _ _ => (502, "provider_error"%string)
    | ProviderUnavailable _ => (503, "provider_unavailable"%string)
    end in
  mkApiError status code dry (Some (provider_state_reason error)).
Definition needs_remediation (error : ProviderError) : bool :=
  match error with ChildSecretUnavailable | IdentityMismatch => true | _ => false end.

(** ** The end of a join *)

Definition PARTICIPANT_SCOPES : list LobbyCapabilityScope := [LobbyRead; LobbyReport; LobbyPlay; LobbyLeaveSelf].
Record MintedCredential := mkMintedCredential {
  minted_id : list Z;
  minted_dry_run : bool;
}.
(** A failed mint: the lobby fails, and the record says why and what is left to clean. *)
Definition note_policy_gate (error : ProviderError) (now : UnixMillis) (stored : StoredLobby) : StoredLobby :=
  match error with
  | ChildPolicyGate _ expected status acknowledged =>
      let stored := stored <| child_policy_digest := Some expected |> <| child_policy_status := Some (policy_status_text status) |>
        <| cleanup_requested_at := Some now |> in
      if acknowledged then stored <| sl_delete_acknowledged_at := Some now |> <| sl_lifecycle := VerifyingAbsence |> else stored
  | _ => stored
  end.
Definition note_pending_cleanup (error : ProviderError) (dry : bool) (stored : StoredLobby) : StoredLobby :=
  let stored := if needs_remediation error then stored <| sl_lifecycle := ManualRemediation |> else stored in
  let pending := negb dry || negb (bool_decide (credentials stored = ∅)) || needs_remediation error in
  let stored := stored <| sl_cleanup_pending := pending |> in
  if pending && negb (match sl_lifecycle stored with ManualRemediation | VerifyingAbsence => true | _ => false end)
  then stored <| sl_lifecycle := NetCleanupPending |> else stored.
Definition fail_mint (player : PlayerId) (error : ProviderError) (dry : bool) (now : UnixMillis) (stored : StoredLobby)
    : result StoredLobby ApiError :=
  let stored := match error with
                | ProviderUnavailable _ => stored
                | _ => stored <| pending_issuances := delete player (pending_issuances stored) |>
                end in
  match (if is_joinable (state (lobby stored)) then transition Failed dry stored else Ok stored) with
  | Err e => Err e
  | Ok stored =>
      let stored := on_lobby (fun l => l <| state_reason := Some (provider_state_reason error) |>) stored in
      let stored := (clear_authority (note_policy_gate error now stored)) <| terminal_at := Some now |> in
      Ok (note_pending_cleanup error dry stored)
  end.
(** A minted credential: the seat, the participant's capability, the receipt. *)
Definition issue_credential (request : JoinLobbyRequest) (minted : MintedCredential) (verifier key fingerprint : list Z) (expires : UnixMillis)
    (dry : bool) (now : UnixMillis) (stored : StoredLobby) : result StoredLobby ApiError :=
  let player := join_player request in
  match take_seat request dry now (stored <| pending_issuances := delete player (pending_issuances stored) |>) with
  | Err e => Err e
  | Ok stored =>
      let stored := refresh_idle_expiry now stored in
      let capability := capability_new verifier PARTICIPANT_SCOPES (lobby_id (lobby stored)) (Some player) (sl_generation stored)
        (absolute_expires_at (ttl (lobby stored))) in
      let stored := add_capability capability stored in
      let stored := stored <| credentials :=
        <[player := mkStoredCredential (minted_id minted) expires false false (minted_dry_run minted)]> (credentials stored) |> in
      Ok (with_join_replay key fingerprint player (mkJoinCredentialReceipt (minted_id minted) expires true) now stored)
  end.

(** The whole join: the records it writes in order, and its answer. [minted] is the
    provider's answer, [permit] whether a provider slot was free, [failed] the store's
    answer to each write. *)
Record JoinInputs := mkJoinInputs {
  join_actor : PlayerId;
  join_invitation : option (list Z);
  join_key : list Z;
  join_request_fingerprint : list Z;
  join_authorized : bool;
  join_permit : bool;
  join_minted : result MintedCredential ProviderError;
  participant_verifier : list Z;
  reservation_failed : option StoreError;
  issue_failed : option StoreError;
}.
Definition commit {A} (r : Reply A) (failed : option StoreError) (dry : bool) : list StoredLobby * result A ApiError :=
  match written r with
  | None => ([], answer r)
  | Some stored => match failed with Some e => ([], Err (store_api_error e dry)) | None => ([stored], answer r) end
  end.
Definition finish_join (request : JoinLobbyRequest) (i : JoinInputs) (dry : bool) (now : UnixMillis) (stored : StoredLobby) : Reply JoinAnswer :=
  let player := join_player request in
  match join_minted i with
  | Err error =>
      match fail_mint player error dry now stored with
      | Err e => refuse e
      | Ok stored => mkReply (Some stored) (Err (provider_api_error error dry))
      end
  | Ok minted =>
      proceed (issue_credential request minted (participant_verifier i) (join_key i) (join_request_fingerprint i)
                 (millis_saturating_add now JOIN_CREDENTIAL_TTL_MS) dry now stored)
        (fun stored => reply stored (JoinIssued (minted_id minted) (snapshot stored)))
  end.
Definition join_lobby (stored : StoredLobby) (request : JoinLobbyRequest) (i : JoinInputs) (dry : bool) (now : UnixMillis)
    : list StoredLobby * result JoinAnswer ApiError :=
  match join_admission stored request (join_actor i) (join_invitation i) (join_key i) (join_request_fingerprint i) (join_authorized i) dry now with
  | inl r => commit r (issue_failed i) dry
  | inr stored =>
      if negb (join_permit i) then ([], Err (api_error 429 "provider_busy" dry))
      else
        match reserve_issuance request (join_invitation i) (join_key i) (join_request_fingerprint i) now stored with
        | None => ([], Err lobby_not_found)
        | Some stored =>
            match reservation_failed i with
            | Some e => ([], Err (store_api_error e dry))
            | None =>
                let '(writes, result) := commit (finish_join request i dry now stored) (issue_failed i) dry in
                (stored :: writes, result)
            end
        end
  end.

(** ** What a cleanup leaves *)

Record CleanupOutcome := mkCleanupOutcome {
  outcome_pending : bool;
  outcome_delete_acknowledged : bool;
  outcome_secret_erased : bool;
  revoked_credential_ids : list (list Z);
}.
(** [get_or_insert] *)
Definition or_insert {A} (o : option A) (a : A) : option A := match o with Some _ => o | None => Some a end.
Definition revoke_credential (now : UnixMillis) (revoked_ids : list (list Z)) (credential : StoredCredential) : StoredCredential :=
  if (credential_expires_at credential <=? now) || bool_decide (credential_id credential ∈ revoked_ids)
  then credential <| credential_revoked := true |> <| credential_cleanup_pending := false |> else credential.
Definition note_outcome (outcome : CleanupOutcome) (full : bool) (now : UnixMillis) (stored : StoredLobby) : StoredLobby :=
  let stored := stored <| credentials := revoke_credential now (revoked_credential_ids outcome) <$> credentials stored |> in
  let stored := if full && outcome_delete_acknowledged outcome
                then stored <| sl_delete_acknowledged_at := or_insert (sl_delete_acknowledged_at stored) now |> else stored in
  if full && outcome_secret_erased outcome
  then stored <| child_secret_erased_at := or_insert (child_secret_erased_at stored) now |> else stored.
Definition with_reason (reason : option (list Z)) : StoredLobby -> StoredLobby := on_lobby (fun l => l <| state_reason := reason |>).
(** [any] stops at the first credential still alive, which is the one it marks. *)
Definition mark_first_live (now : UnixMillis) (stored : StoredLobby) : StoredLobby * bool :=
  match find (fun '(_, credential) => live_credential now credential) (btree_list (credentials stored)) with
  | Some (player, credential) =>
      (stored <| credentials := <[player := credential <| credential_cleanup_pending := true |>]> (credentials stored) |>, true)
  | None => (stored, false)
  end.
Definition cleanup_lifecycle (result : result CleanupOutcome ProviderError) (clean : bool) (mode : ProvisioningMode)
    : option (NetworkLifecycle * bool) :=
  match mode with
  | TailnetPerLobby =>
      Some (match result with
            | Ok outcome => if outcome_delete_acknowledged outcome then VerifyingAbsence else NetCleanupPending
            | Err error => if needs_remediation error then ManualRemediation else NetCleanupPending
            end, true)
  | SharedTailnet => Some (if clean then (SharedResourcesClean, false) else (NetCleanupPending, true))
  | DryRun => None
  end.
Definition is_closing (s : LobbyState) : bool := match s with Closing | Failed | Expired | Destroyed => true | _ => false end.
Definition mark_riders (stored : StoredLobby) : StoredLobby :=
  let pending := sl_cleanup_pending stored in
  let mark p :=
    let p := p <| player_cleanup_pending := pending |> in
    if pending then p <| join_state := CleanupPending |>
    else if is_closing (state (lobby stored)) then p <| join_state := Left |> else p in
  on_lobby (fun l => l <| roster := map mark (roster l) |>) stored.
(** A real record in dry-run mode is [unreachable!]: [None]. *)
Definition apply_cleanup_result (now : UnixMillis) (result : result CleanupOutcome ProviderError) (full : bool) (stored : StoredLobby)
    : option StoredLobby :=
  let stored := match result with
                | Err error => if needs_remediation error then with_reason (Some (provider_state_reason error)) stored else stored
                | Ok outcome => note_outcome outcome full now stored
                end in
  let '(stored, credential_pending) := mark_first_live now stored in
  let provider_pending := match result with Ok outcome => outcome_pending outcome | Err _ => true end in
  let stored :=
    if full && negb (dry_run stored) then
      match cleanup_lifecycle result (negb provider_pending && negb credential_pending) (provisioning_mode (lobby stored)) with
      | None => None
      | Some (lifecycle, pending) => Some (stored <| sl_lifecycle := lifecycle |> <| sl_cleanup_pending := pending |>)
      end
    else Some (stored <| sl_cleanup_pending := provider_pending || credential_pending |>) in
  mark_riders <$> stored.
Definition finalize_lobby_cleanup (now : UnixMillis) (finalize : bool) (stored : StoredLobby) : StoredLobby :=
  if finalize && negb (match state (lobby stored) with Destroyed => true | _ => false end) then
    let stored := if is_ok (validate_transition (state (lobby stored)) Destroyed)
                  then on_lobby (fun l => l <| state := Destroyed |>) stored else stored in
    let stored := if negb (sl_cleanup_pending stored) then with_reason None stored else stored in
    (on_lobby (fun l => l <| authority := None |>) stored) <| terminal_at := Some now |>
  else stored.

(** ** Leaving *)

Definition accepts_leaves (s : LobbyState) : bool := match s with Forming | Ready | InMatch => true | _ => false end.
(** The rider's traces are removed. *)
Definition forget_rider (player : PlayerId) (stored : StoredLobby) : StoredLobby :=
  let stored := clear_measurements (bump_revision
    (on_lobby (fun l => l <| roster := filter (fun p => player_id p <> player) (roster l) |>) stored)) in
  let stored := stored <| pending_issuances := delete player (pending_issuances stored) |> in
  let stored := revoke_player_capabilities stored player in
  clear_authority (stored <| join_replays := filter (fun '(_, replay) => join_player_id replay <> player) (join_replays stored) |>).
Definition leave_lobby (stored : StoredLobby) (player : PlayerId) (cleanup : result CleanupOutcome ProviderError) (dry : bool) (now : UnixMillis)
    : Reply bool :=
  if negb (accepts_leaves (state (lobby stored))) then refuse (lobby_closed_or_transition (state (lobby stored)) dry)
  else if negb (in_roster stored player) then mkReply None (Ok false)
  else
    match apply_cleanup_result now cleanup false stored with
    | None => refuse (internal_error dry)
    | Some stored =>
        proceed (unready dry (forget_rider player stored)) (fun stored =>
          let stored := refresh_idle_expiry now stored in
          let credential_pending := is_some_and (credentials stored !! player) (live_credential now) in
          let cleanup_pending := credential_pending || negb dry in
          reply (stored <| sl_cleanup_pending := sl_cleanup_pending stored || cleanup_pending |>) cleanup_pending)
    end.

(** ** Measurements *)

Definition record_report (player : PlayerId) (sample : ConnectivitySample) (authenticated : bool) (dry : bool) (now : UnixMillis)
    (stored : StoredLobby) : result StoredLobby ApiError :=
  match unready dry stored with
  | Err e => Err e
  | Ok stored =>
      let stored := alter_rider player (fun p => p <| player_route_summary := route_summary sample |> <| join_state := Connected |>) stored in
      let stored := stored <| measurements := <[player := sample]> (measurements stored) |> in
      let stored := if authenticated then stored <| authenticated_reporters := {[player]} ∪ authenticated_reporters stored |> else stored in
      let stored := refresh_idle_expiry now stored in
      match state (lobby stored) with InMatch => Ok stored | _ => recompute_authority now dry stored end
  end.
Definition submit_measurements (stored : StoredLobby) (player : PlayerId) (report : ConnectivityReport) (legacy : bool) (dry : bool)
    (now : UnixMillis) : Reply (LobbyState * option AuthoritySummary) :=
  if negb (accepts_measurements (state (lobby stored))) then refuse (lobby_closed_or_transition (state (lobby stored)) dry)
  else if negb (in_roster stored player) then refuse (api_error 404 "player_not_found" dry)
  else if negb legacy && is_some_and (measurements stored !! player) (fun sample => younger_than now (measured_at sample) 2000)
  then refuse (api_error 429 "report_rate_limited" false)
  else
    match into_validated_sample report now (Z.of_nat (length (roster (lobby stored)))) with
    | Err e => refuse (validation_error e dry)
    | Ok sample =>
        proceed (record_report player sample (negb legacy) dry now stored) (fun stored =>
          reply stored (state (lobby stored), authority (lobby stored)))
    end.

(** [authority_handler]: an election on demand. *)
Definition elect_lobby_authority (stored : StoredLobby) (dry : bool) (now : UnixMillis) : Reply AuthorityElection :=
  if negb (accepts_measurements (state (lobby stored))) then refuse (lobby_closed_or_transition (state (lobby stored)) dry)
  else
    let recomputed :=
      if negb (match state (lobby stored) with InMatch => true | _ => false end) && is_none (last_election stored)
      then recompute_authority now dry stored else Ok stored in
    proceed recomputed (fun stored =>
      match last_election stored with
      | None => refuse (api_error 409 "authority_unavailable" dry)
      | Some election => reply stored election
      end).

(** ** Starting *)

Record StartLobbyResponse := mkStartLobbyResponse {
  started_state : LobbyState;
  started_seed : Z;
  started_authority : AuthoritySummary;
  started_input_hash : list Z;
  started_generation : Z;
}.
Definition start_response (stored : StoredLobby) (dry : bool) : result StartLobbyResponse ApiError :=
  match map_seed (lobby stored), authority (lobby stored), last_election stored with
  | Some seed, Some summary, Some election =>
      Ok (mkStartLobbyResponse (state (lobby stored)) seed summary (input_hash election) (session_generation stored))
  | _, _, _ => Err (internal_error dry)
  end.
Definition is_playing (s : LobbyState) : bool := match s with Starting | InMatch => true | _ => false end.
Definition with_start_replay (key fingerprint : list Z) (actor : PlayerId) (now : UnixMillis) (stored : StoredLobby) : StoredLobby :=
  stored <| start_replays := <[key := mkStoredMutationReplay fingerprint actor now]> (start_replays stored) |>.
Definition replay_matches (replay : StoredMutationReplay) (actor : PlayerId) (fingerprint : list Z) : bool :=
  bool_decide (mutation_actor replay = actor) && bool_decide (mutation_fingerprint replay = fingerprint).
(** What a start needs: [secure] is whether every rider registered a fresh session key. *)
Definition start_roster_checked (stored : StoredLobby) (secure : result bool ApiError) (dry : bool) : result unit ApiError :=
  let roster := roster (lobby stored) in
  if (length roster <? PROTOTYPE_MIN_PLAYERS)%nat then Err (api_error 409 "not_enough_players" dry)
  else
    match validate_start_roster_against roster M3_WIRE_VERSION AUTHORITY_FORMULA_VERSION with
    | Err e => Err (validation_error e dry)
    | Ok _ =>
        if dry then Ok tt
        else
          match validate_secure_start_roster_against roster M3_WIRE_VERSION AUTHORITY_FORMULA_VERSION, secure with
          | Err e, _ => Err (validation_error e dry)
          | Ok _, Err e => Err e
          | Ok _, Ok true => Ok tt
          | Ok _, Ok false => Err (api_error 409 "session_identity_required" false)
          end
    end.
Definition begin_match (request : StartLobbyRequest) (fallback_seed : Z) (dry : bool) (now : UnixMillis) (stored : StoredLobby)
    : result StoredLobby ApiError :=
  let stored := stored <| match_start_election := last_election stored |> in
  let stored := on_lobby (fun l => l <| map_seed := Some (default fallback_seed (start_map_seed request)) |>) stored in
  let stored := stored <| session_generation := Z.max (saturating_add 64 (session_generation stored) 1) 1 |> in
  match transition Starting dry stored with
  | Err e => Err e
  | Ok stored => Ok (stored <| started_at := Some now |> <| last_authority_heartbeat_at := None |>)
  end.
Definition start_lobby (stored : StoredLobby) (request : StartLobbyRequest) (actor : PlayerId) (key fingerprint : list Z)
    (secure : result bool ApiError) (fallback_seed : Z) (dry : bool) (now : UnixMillis) : Reply StartLobbyResponse :=
  proceed (ensure_creator stored actor dry) (fun _ =>
    match start_replays stored !! key with
    | Some replay =>
        if negb (replay_matches replay actor fingerprint) then refuse (idempotency_conflict dry)
        else if is_playing (state (lobby stored)) then mkReply None (start_response stored dry)
        else refuse (lobby_closed_or_transition (state (lobby stored)) dry)
    | None =>
        if is_playing (state (lobby stored)) then
          if is_some_and (start_map_seed request) (fun seed => negb (bool_decide (map_seed (lobby stored) = Some seed)))
          then refuse (idempotency_conflict dry)
          else let stored := with_start_replay key fingerprint actor now stored in
               mkReply (Some stored) (start_response stored dry)
        else if negb (match state (lobby stored) with Ready => true | _ => false end)
        then refuse (lobby_closed_or_transition (state (lobby stored)) dry)
        else
          proceed (start_roster_checked stored secure dry) (fun _ =>
            if negb (all_measurements_fresh stored now) then
              proceed (transition Forming dry stored) (fun stored =>
                mkReply (Some (clear_authority stored)) (Err (api_error 409 "authority_unavailable" dry)))
            else if is_none (last_election stored) || is_none (authority (lobby stored))
            then refuse (api_error 409 "authority_unavailable" dry)
            else
              proceed (begin_match request fallback_seed dry now stored) (fun stored =>
                let stored := with_start_replay key fingerprint actor now stored in
                mkReply (Some stored) (start_response stored dry)))
    end).

(** ** Heartbeats *)

Definition canonical_survivors (l : list PlayerId) : list PlayerId := merge_sort key_le (elements (list_to_set l : gset PlayerId)).
Definition requested_epoch (stored : StoredLobby) (request : AuthorityHeartbeatRequest) : Z :=
  if beat_epoch request =? 0 then authority_epoch stored else beat_epoch request.
Definition is_silent (stored : StoredLobby) (now : UnixMillis) : bool :=
  is_some_and (match last_authority_heartbeat_at stored with Some heartbeat => Some heartbeat | None => started_at stored end)
    (fun heartbeat => age_at_least now heartbeat AUTHORITY_SILENCE_MS).
(** The claim of a successor, before its election is replayed. *)
Definition claim_admitted (stored : StoredLobby) (current : AuthorityElection) (request : AuthorityHeartbeatRequest) (actor : PlayerId)
    (now : UnixMillis) : bool :=
  (match state (lobby stored) with InMatch => true | _ => false end)
  && is_silent stored now
  && bool_decide (checked_add 64 (authority_epoch stored) 1 = Some (requested_epoch stored request))
  && bool_decide (input_hash current = beat_input_hash request)
  && bool_decide (survivors request = canonical_survivors (survivors request))
  && negb (bool_decide (survivors request = []))
  && forallb (in_roster stored) (survivors request)
  && bool_decide (actor ∈ survivors request)
  && negb (bool_decide (winner_player_id current ∈ survivors request)).
Definition elect_successor (stored : StoredLobby) (request : AuthorityHeartbeatRequest) (actor : PlayerId) (dry : bool) (now : UnixMillis)
    : result StoredLobby ApiError :=
  match match_start_election stored with
  | None => Err (api_error 409 "authority_unavailable" dry)
  | Some locked =>
      let epoch := requested_epoch stored request in
      let candidates := filter (fun c => cand_player_id c ∈ survivors request) (candidates (input locked)) in
      if negb (length candidates =? length (canonical_survivors (survivors request)))%nat then Err (api_error 403 "not_authority" dry)
      else
        match elect_authority_for_roster candidates (election_at (input locked)) (expected_wire_version (input locked))
                (roster_size (input locked)) with
        | Err e => Err (authority_error e dry)
        | Ok successor =>
            if negb (bool_decide (winner_player_id successor = actor)) then Err (api_error 403 "not_authority" dry)
            else
              match apply_election successor now dry stored with
              | Err e => Err e
              | Ok stored =>
                  if negb (authority_epoch stored =? epoch) then Err (api_error 409 "authority_epoch_mismatch" dry)
                  else Ok stored
              end
        end
  end.
Definition heartbeat_claim (stored : StoredLobby) (request : AuthorityHeartbeatRequest) (actor : PlayerId) (dry : bool) (now : UnixMillis)
    : result StoredLobby ApiError :=
  match last_election stored with
  | None => Err (api_error 409 "authority_unavailable" dry)
  | Some current =>
      if bool_decide (winner_player_id current = actor) && bool_decide (input_hash current = beat_input_hash request) then
        if negb (requested_epoch stored request =? authority_epoch stored) then Err (api_error 409 "authority_epoch_mismatch" dry)
        else Ok stored
      else if negb (claim_admitted stored current request actor now) then Err (api_error 403 "not_authority" dry)
      else elect_successor stored request actor dry now
  end.
Record AuthorityHeartbeatResponse := mkAuthorityHeartbeatResponse {
  beaten_state : LobbyState;
  beaten_authority : AuthoritySummary;
  beaten_input_hash : list Z;
}.
Definition accept_beat (actor : PlayerId) (now : UnixMillis) (dry : bool) (stored : StoredLobby) : Reply AuthorityHeartbeatResponse :=
  proceed (match state (lobby stored) with Starting => transition InMatch dry stored | _ => Ok stored end) (fun stored =>
    let stored := stored <| last_authority_heartbeat_at := Some now |> in
    match last_election stored with
    | None => refuse (internal_error dry)
    | Some election =>
        let stored := stored <| sl_last_accepted_heartbeat :=
          Some (mkStoredAcceptedHeartbeat actor (authority_epoch stored) (input_hash election) now) |> in
        match authority (lobby stored) with
        | None => refuse (internal_error dry)
        | Some summary => reply stored (mkAuthorityHeartbeatResponse (state (lobby stored)) summary (input_hash election))
        end
    end).
Definition authority_heartbeat (stored : StoredLobby) (request : AuthorityHeartbeatRequest) (actor : PlayerId) (dry : bool) (now : UnixMillis)
    : Reply AuthorityHeartbeatResponse :=
  if negb (is_playing (state (lobby stored))) then refuse (lobby_closed_or_transition (state (lobby stored)) dry)
  else proceed (heartbeat_claim stored request actor dry now) (accept_beat actor now dry).

(** ** Results *)

(** The loop over the rows, with the players seen. *)
Fixpoint score_rows_ok (stored : StoredLobby) (seen : gset PlayerId) (rows : list FinalScore) : bool :=
  match rows with
  | [] => true
  | row :: rows =>
      in_roster stored (scored_player row) && negb (bool_decide (scored_player row ∈ seen))
      && ((- MAX_FINAL_SCORE_ABS <=? bounty_score row) && (bounty_score row <=? MAX_FINAL_SCORE_ABS))
      && (final_eliminations row <=? 100000) && (final_assists row <=? 100000) && (final_deaths row <=? 100000)
      && score_rows_ok stored ({[scored_player row]} ∪ seen) rows
  end.
Fixpoint co_signers_ok (stored : StoredLobby) (submitter : PlayerId) (seen : gset PlayerId) (l : list PlayerId) : bool :=
  match l with
  | [] => true
  | player :: l =>
      in_roster stored player && negb (bool_decide (player = submitter)) && negb (bool_decide (player ∈ seen))
      && co_signers_ok stored submitter ({[player]} ∪ seen) l
  end.
Definition validate_results (stored : StoredLobby) (request : SubmitResultsRequest) (dry : bool) : result unit ApiError :=
  if (match_duration_s request =? 0) || (match_duration_s request >? MAX_MATCH_DURATION_S) then Err (invalid_results dry)
  else if negb (length (final_scores request) =? length (roster (lobby stored)))%nat then Err (invalid_results dry)
  else if negb (score_rows_ok stored ∅ (final_scores request)) then Err (invalid_results dry)
  else if negb (co_signers_ok stored (submitted_by request) ∅ (co_signers request)) then Err (invalid_results dry)
  else Ok tt.
(** Up to the first write; the cleanup follows. *)
Definition submit_results (stored : StoredLobby) (request : SubmitResultsRequest) (actor : PlayerId) (key fingerprint : list Z) (dry : bool)
    (now : UnixMillis) : Reply LobbyState :=
  match results_replays stored !! key with
  | Some replay => if negb (replay_matches replay actor fingerprint) then refuse (idempotency_conflict dry) else mkReply None (Ok Closing)
  | None =>
      if negb (match state (lobby stored) with InMatch => true | _ => false end)
      then refuse (lobby_closed_or_transition (state (lobby stored)) dry)
      else
        match last_election stored with
        | None => refuse (internal_error dry)
        | Some election =>
            if negb (bool_decide (winner_player_id election = submitted_by request)) then refuse (api_error 403 "not_authority" dry)
            else if negb (bool_decide (input_hash election = results_input_hash request))
            then refuse (api_error 409 "authority_input_mismatch" dry)
            else
              proceed (validate_results stored request dry) (fun _ =>
                proceed (transition Closing dry stored) (fun stored =>
                  reply (stored <| results_replays := <[key := mkStoredMutationReplay fingerprint actor now]> (results_replays stored) |>)
                    Closing))
        end
  end.

(** ** Maintenance *)

(** [load_maintained_lobby] up to its first write: the provider's access error, if it was
    asked and gave one, the deadlines, and the freshness of a ready lobby. *)
Definition needs_provider (stored : StoredLobby) : bool :=
  sl_cleanup_pending stored || negb (match state (lobby stored) with Failed | Expired | Destroyed => true | _ => false end).
Definition fail_access (error : ProviderError) (now : UnixMillis) (stored : StoredLobby) : StoredLobby :=
  let stored := if negb (match state (lobby stored) with Failed | Expired | Destroyed => true | _ => false end)
                   && is_ok (validate_transition (state (lobby stored)) Failed)
                then on_lobby (fun l => l <| state := Failed |>) stored else stored in
  (clear_authority (with_reason (Some (provider_state_reason error)) stored))
    <| sl_lifecycle := ManualRemediation |> <| sl_cleanup_pending := true |> <| terminal_at := or_insert (terminal_at stored) now |>.
(** The record, whether a cleanup must follow, and whether it must be written. *)
Definition maintain (access : option ProviderError) (now : UnixMillis) (stored : StoredLobby) : StoredLobby * bool * bool :=
  let '(stored, failed) := match (if needs_provider stored then access else None) with
                           | Some error => (fail_access error now stored, true)
                           | None => (stored, false)
                           end in
  let '(stored, timed) := apply_time_transitions stored now in
  let '(stored, stale) := refresh_freshness_state stored now in
  (stored, failed || timed, failed || timed || stale).
