(* ===== verification/LobbyServiceRun.v ===== *)
(** * What the lobby service guarantees

    The invariant of a lobby under every request, what a start, a heartbeat, a join and a
    result need, that an epoch has one authority, and where the service departs from what
    it means to do. *)

From Stdlib Require Import Strings.String.
From stdpp Require Import gmap.
From S2P Require Import Prelude MachineInt Ordered Clock Bytes Identifiers WireVersion LobbyLifecycle Model Session Rehearsal Election.
From S2P Require Import NetworkInspection ServerCrypto Store NetworkView LobbyService.
Open Scope Z_scope.

(** ** Runs *)

Inductive ServiceRequest :=
| ReqInvite (legacy : option PlayerId) (authorized : bool) (verifier : list Z)
| ReqJoin (request : JoinLobbyRequest) (inputs : JoinInputs)
| ReqLeave (player : PlayerId) (cleanup : result CleanupOutcome ProviderError)
| ReqReport (player : PlayerId) (report : ConnectivityReport) (legacy : bool)
| ReqElect
| ReqStart (request : StartLobbyRequest) (actor : PlayerId) (key fingerprint : list Z) (secure : result bool ApiError) (seed : Z)
| ReqBeat (request : AuthorityHeartbeatRequest) (actor : PlayerId)
| ReqResults (request : SubmitResultsRequest) (actor : PlayerId) (key fingerprint : list Z)
| ReqMaintain (access : option ProviderError).
(** The records a request writes. *)
Definition writes_of (stored : StoredLobby) (r : ServiceRequest) (dry : bool) (now : UnixMillis) : list StoredLobby :=
  match r with
  | ReqInvite legacy authorized verifier => option_list (written (create_invitation stored legacy authorized verifier now))
  | ReqJoin request inputs => (join_lobby stored request inputs dry now).1
  | ReqLeave player cleanup => option_list (written (leave_lobby stored player cleanup dry now))
  | ReqReport player report legacy => option_list (written (submit_measurements stored player report legacy dry now))
  | ReqElect => option_list (written (elect_lobby_authority stored dry now))
  | ReqStart request actor key fingerprint secure seed =>
      option_list (written (start_lobby stored request actor key fingerprint secure seed dry now))
  | ReqBeat request actor => option_list (written (authority_heartbeat stored request actor dry now))
  | ReqResults request actor key fingerprint => option_list (written (submit_results stored request actor key fingerprint dry now))
  | ReqMaintain access => [(maintain access now stored).1.1]
  end.
Inductive service_step (stored : StoredLobby) : StoredLobby -> Prop :=
| step_writes r dry now stored' : stored' ∈ writes_of stored r dry now -> service_step stored stored'.

(** ** The invariant *)

Definition player_ids (stored : StoredLobby) : list PlayerId := player_id <$> roster (lobby stored).
Definition summary_of (election : AuthorityElection) : AuthoritySummary :=
  mkAuthoritySummary (winner_player_id election) (elected_formula_version election) (reference_score election).
Record roster_ok (stored : StoredLobby) : Prop := {
  ok_sorted : StronglySorted key_le (player_ids stored);
  ok_distinct : NoDup (player_ids stored);
  ok_size : Z.of_nat (length (roster (lobby stored))) <= max_players (lobby stored);
  ok_wire : Forall (fun p => major (player_wire_version p) = 2) (roster (lobby stored));
}.
Record samples_ok (stored : StoredLobby) : Prop := {
  ok_measured : forall player sample, measurements stored !! player = Some sample ->
    player ∈ player_ids stored /\ validate_for_roster sample (Z.of_nat (length (roster (lobby stored)))) = Ok tt;
  ok_reporters : forall player, player ∈ authenticated_reporters stored -> player ∈ player_ids stored;
}.
(** Elections of a match: the one it started with, and those among survivors of it. *)
Inductive match_election (locked : AuthorityElection) : AuthorityElection -> Prop :=
| locked_elected : match_election locked locked
| survivor_elected (ids : list PlayerId) e :
    elect_authority_for_roster (filter (fun c => cand_player_id c ∈ ids) (candidates (input locked))) (election_at (input locked))
      (expected_wire_version (input locked)) (roster_size (input locked)) = Ok e ->
    match_election locked e.
Definition election_ok (stored : StoredLobby) : Prop :=
  match state (lobby stored) with
  | Provisioning | Forming => last_election stored = None /\ authority (lobby stored) = None
  | Ready => exists e t, elect_authority (authority_candidates stored) t = Ok e /\
      last_election stored = Some e /\ authority (lobby stored) = Some (summary_of e)
  | Starting | InMatch => authority (lobby stored) = summary_of <$> last_election stored /\
      exists locked, match_start_election stored = Some locked /\
        forall e, last_election stored = Some e -> match_election locked e
  | _ => True
  end.
Record lobby_ok (stored : StoredLobby) : Prop := {
  ok_roster : roster_ok stored;
  ok_samples : samples_ok stored;
  ok_election : election_ok stored;
}.

(** What the invariant speaks of. *)
Definition core (stored : StoredLobby) :=
  (roster (lobby stored), max_players (lobby stored), state (lobby stored), authority (lobby stored), measurements stored,
   authenticated_reporters stored, last_election stored, match_start_election stored, authority_epoch stored,
   sl_last_accepted_heartbeat stored).
Lemma lobby_ok_core s s' : core s' = core s -> lobby_ok s -> lobby_ok s'.
Proof.
  intros [= Hr Hm Hs Ha Hme Hrep Hl Hms Hep Hbe] [[] [] He].
  constructor; [constructor|constructor|]; unfold player_ids, election_ok, authority_candidates in *; rewrite ?Hr, ?Hm, ?Hs, ?Ha, ?Hme, ?Hrep, ?Hl, ?Hms; done.
Qed.
Lemma state_core s s' : core s' = core s -> state (lobby s') = state (lobby s).
Proof. by intros [= Hr Hm Hs Ha Hme Hrep Hl Hms Hep Hbe]. Qed.

(** A lobby with no election, in a state that asks for none. *)
Lemma unelected_ok s :
  roster_ok s -> samples_ok s -> last_election s = None -> authority (lobby s) = None ->
  match state (lobby s) with Ready | Starting | InMatch => False | _ => True end -> lobby_ok s.
Proof. intros Hr Hs He Ha Hst. constructor; [done..|]. unfold election_ok. by destruct (state (lobby s)). Qed.
Lemma closed_ok s : roster_ok s -> samples_ok s -> is_closing (state (lobby s)) = true -> lobby_ok s.
Proof. intros Hr Hs Hc. constructor; [done..|]. unfold election_ok. by destruct (state (lobby s)). Qed.

(** *** Steps on the record *)

Lemma transition_Ok next dry s s' : transition next dry s = Ok s' ->
  s' = on_lobby (fun l => l <| state := next |>) s /\ can_transition_to (state (lobby s)) next = true.
Proof.
  unfold transition, validate_transition. destruct (can_transition_to _ _); [|done]. intros H. apply Ok_inj in H. done.
Qed.
Lemma unready_Ok dry s s' : unready dry s = Ok s' ->
  (s' = s /\ state (lobby s) <> Ready) \/ (s' = on_lobby (fun l => l <| state := Forming |>) s /\ state (lobby s) = Ready).
Proof.
  unfold unready. destruct (state (lobby s)) eqn:Hs; try (intros H; apply Ok_inj in H; by left).
  intros H%transition_Ok. right. by destruct H.
Qed.
Definition unreadied (st : LobbyState) : LobbyState := match st with Ready => Forming | _ => st end.
(** What leaving readiness keeps, and where it goes. *)
Lemma unready_facts dry s s' : unready dry s = Ok s' ->
  player_ids s' = player_ids s /\ (roster_ok s -> roster_ok s') /\ (samples_ok s -> samples_ok s') /\
  last_election s' = last_election s /\ authority (lobby s') = authority (lobby s) /\
  match_start_election s' = match_start_election s /\ roster (lobby s') = roster (lobby s) /\
  max_players (lobby s') = max_players (lobby s) /\ state (lobby s') = unreadied (state (lobby s)).
Proof.
  intros [[-> Hs]|[-> Hs]]%unready_Ok.
  - repeat split_and!; try done. by destruct (state (lobby s)).
  - rewrite Hs. repeat split_and!; try done; intros []; constructor; done.
Qed.
Lemma step_path s s' : can_transition_to s s' = true -> rtc lobby_step s s'.
Proof. intros H. apply rtc_once. by apply lobby_step_iff. Qed.
Lemma unready_path st : rtc lobby_step st (unreadied st).
Proof. destruct st; try apply rtc_refl. by apply step_path. Qed.

Lemma apply_election_facts e now dry s s' : apply_election e now dry s = Ok s' ->
  roster (lobby s') = roster (lobby s) /\ max_players (lobby s') = max_players (lobby s) /\ measurements s' = measurements s /\
  authenticated_reporters s' = authenticated_reporters s /\ match_start_election s' = match_start_election s /\
  last_election s' = Some e /\ authority (lobby s') = Some (summary_of e) /\
  authority_epoch s' = (if election_changed s e then Z.max (saturating_add 64 (authority_epoch s) 1) 1 else authority_epoch s) /\
  state (lobby s') = (match state (lobby s) with Forming => if all_measurements_fresh s now then Ready else Forming | st => st end).
Proof.
  unfold apply_election.
  match goal with |- context [match state (lobby ?x) with _ => _ end = _] => set (s1 := x) end.
  assert (Hst : state (lobby s1) = state (lobby s)) by done.
  assert (Hfr : all_measurements_fresh s1 now = all_measurements_fresh s now) by done.
  intros H.
  assert (Hs' : s' = s1 /\ state (lobby s) <> Forming \/ s' = s1 /\ all_measurements_fresh s now = false \/
                s' = on_lobby (fun l => l <| state := Ready |>) s1 /\ state (lobby s) = Forming /\ all_measurements_fresh s now = true).
  { rewrite Hst, Hfr in H. destruct (state (lobby s)); try (apply Ok_inj in H; by left).
    destruct (all_measurements_fresh s now); [|apply Ok_inj in H; auto]. apply transition_Ok in H as [-> _]. auto. }
  destruct Hs' as [[-> Hn]|[[-> Hf]|(-> & -> & Hf)]]; rewrite ?Hf.
  - repeat split_and!; try done. rewrite Hst. by destruct (state (lobby s)).
  - repeat split_and!; try done. rewrite Hst. by destruct (state (lobby s)).
  - repeat split_and!; done.
Qed.
Lemma recompute_cases now dry s s' : recompute_authority now dry s = Ok s' ->
  (all_measurements_fresh s now = false /\ s' = clear_authority s) \/
  exists e, all_measurements_fresh s now = true /\ elect_authority (authority_candidates s) now = Ok e /\ apply_election e now dry s = Ok s'.
Proof.
  unfold recompute_authority. destruct (all_measurements_fresh s now); cbn [negb].
  - destruct (elect_authority _ now) as [e|]; [|done]. intros H. right. eauto.
  - intros H. apply Ok_inj in H. by left.
Qed.
Lemma candidates_same s s' : roster (lobby s') = roster (lobby s) -> measurements s' = measurements s ->
  authority_candidates s' = authority_candidates s.
Proof. unfold authority_candidates. by intros -> ->. Qed.
Lemma roster_ok_same s s' : roster (lobby s') = roster (lobby s) -> max_players (lobby s') = max_players (lobby s) -> roster_ok s -> roster_ok s'.
Proof. intros Hr Hm []. constructor; unfold player_ids in *; rewrite ?Hr, ?Hm; done. Qed.
Lemma samples_ok_same s s' : roster (lobby s') = roster (lobby s) -> measurements s' = measurements s ->
  authenticated_reporters s' = authenticated_reporters s -> samples_ok s -> samples_ok s'.
Proof. intros Hr Hm Ha []. constructor; unfold player_ids in *; rewrite ?Hr, ?Hm, ?Ha; done. Qed.

(** A forming lobby, however its authority is stale, recomputes into a sound one. *)
Lemma recompute_ok now dry s s' : recompute_authority now dry s = Ok s' -> state (lobby s) = Forming ->
  roster_ok s -> samples_ok s -> lobby_ok s' /\ rtc lobby_step Forming (state (lobby s')).
Proof.
  intros H Hst Hr Hs. apply recompute_cases in H as [[_ ->]|(e & Hf & He & H)].
  - split; [apply unelected_ok; [by apply (roster_ok_same s)|by apply (samples_ok_same s)|done|done|by cbn; rewrite Hst]|by cbn; rewrite Hst].
  - apply apply_election_facts in H as (Hro & Hm & Hme & Hre & Hms & Hl & Ha & _ & Hst'). rewrite Hst, Hf in Hst'.
    split; [|rewrite Hst'; by apply step_path].
    constructor; [by apply (roster_ok_same s)|by apply (samples_ok_same s)|]. unfold election_ok. rewrite Hst'.
    exists e, now. by rewrite (candidates_same s).
Qed.

(** *** Reports *)

Definition keeps_seat (f : Player -> Player) : Prop := forall p, player_id (f p) = player_id p /\ player_wire_version (f p) = player_wire_version p.
Lemma alter_first_seats player f l : keeps_seat f ->
  player_id <$> alter_first player f l = player_id <$> l /\ length (alter_first player f l) = length l /\
  (Forall (fun p => major (player_wire_version p) = 2) l -> Forall (fun p => major (player_wire_version p) = 2) (alter_first player f l)).
Proof.
  intros Hf. induction l as [|p l (IH1 & IH2 & IH3)]; [done|]. cbn [alter_first]. destruct (Hf p) as [Hid Hw]. case_decide; cbn.
  - rewrite Hid. repeat split_and!; [done..|]. intros [Hp Hl]%Forall_cons. constructor; [by rewrite Hw|done].
  - rewrite IH1, IH2. repeat split_and!; [done..|]. intros [Hp Hl]%Forall_cons. constructor; auto.
Qed.
Lemma alter_rider_ok player f s : keeps_seat f -> (roster_ok s -> roster_ok (alter_rider player f s)) /\
  (samples_ok s -> samples_ok (alter_rider player f s)) /\ player_ids (alter_rider player f s) = player_ids s /\
  length (roster (lobby (alter_rider player f s))) = length (roster (lobby s)).
Proof.
  intros Hf. destruct (alter_first_seats player f (roster (lobby s)) Hf) as (H1 & H2 & H3).
  assert (Hids : player_ids (alter_rider player f s) = player_ids s) by done.
  repeat split_and!; [|..|done|done].
  - intros []. constructor; rewrite ?Hids; [done|done|cbn; by rewrite H2|cbn; auto].
  - intros []. constructor; rewrite ?Hids; [|done]. cbn. by rewrite H2.
Qed.
Lemma in_roster_true s player : in_roster s player = true <-> player ∈ player_ids s.
Proof.
  unfold in_roster, player_ids. rewrite existsb_exists, list_elem_of_fmap. split.
  - intros (p & Hp%list_elem_of_In & Heq%bool_decide_eq_true). eauto.
  - intros (p & -> & Hp%list_elem_of_In). exists p. split; [done|]. by apply bool_decide_eq_true.
Qed.
Lemma samples_ok_insert player sample s : samples_ok s -> player ∈ player_ids s ->
  validate_for_roster sample (Z.of_nat (length (roster (lobby s)))) = Ok tt -> samples_ok (s <| measurements := <[player := sample]> (measurements s) |>).
Proof.
  intros [] Hin Hv. constructor; [|done]. cbn. intros q m [[-> ->]|[Hne Hq]]%lookup_insert_Some; [done|]. by apply ok_measured0.
Qed.
Lemma record_report_ok player sample authenticated dry now s s' : record_report player sample authenticated dry now s = Ok s' ->
  lobby_ok s -> accepts_measurements (state (lobby s)) = true -> player ∈ player_ids s ->
  validate_for_roster sample (Z.of_nat (length (roster (lobby s)))) = Ok tt ->
  lobby_ok s' /\ rtc lobby_step (state (lobby s)) (state (lobby s')).
Proof.
  intros H [Hr Hs He] Hacc Hin Hv. unfold record_report in H. destruct (unready dry s) as [s1|] eqn:Hu; [|done].
  apply unready_facts in Hu as (Hids & Hr1 & Hs1 & Hl & Ha & Hms & Hro & _ & Hst). specialize (Hr1 Hr). specialize (Hs1 Hs).
  assert (Hpath : rtc lobby_step (state (lobby s)) (state (lobby s1))) by (rewrite Hst; apply unready_path).
  set (f := fun p : Player => _) in H. set (s2 := alter_rider player f s1) in H.
  assert (Hf : keeps_seat f) by done.
  destruct (alter_rider_ok player f s1 Hf) as (Hr2 & Hs2 & Hids2 & Hlen2). specialize (Hr2 Hr1). specialize (Hs2 Hs1). fold s2 in Hr2, Hs2, Hids2, Hlen2.
  assert (Hs3 : samples_ok (s2 <| measurements := <[player := sample]> (measurements s2) |>)).
  { apply samples_ok_insert; [done|by rewrite Hids2, Hids|]. rewrite Hlen2, Hro. done. }
  set (s3 := s2 <| measurements := _ |>) in H, Hs3.
  match type of H with context [refresh_idle_expiry now ?x] => set (s4 := x) in H end.
  assert (Hs4 : samples_ok s4).
  { subst s4. destruct authenticated; [|done]. destruct Hs3 as [Hs3a Hs3b]. constructor; [done|]. cbn.
    intros q [->%elem_of_singleton|Hq]%elem_of_union; [|by apply Hs3b]. change (player ∈ player_ids s2). by rewrite Hids2, Hids. }
  assert (Hr4 : roster_ok s4) by (apply (roster_ok_same s2); [by destruct authenticated..|done]).
  assert (Hst4 : state (lobby (refresh_idle_expiry now s4)) = state (lobby s1)) by (unfold refresh_idle_expiry; by destruct authenticated).
  rewrite Hst4, Hst in H.
  assert (Hcase : state (lobby s1) = Forming /\ recompute_authority now dry (refresh_idle_expiry now s4) = Ok s' \/
                  state (lobby s) = InMatch /\ s' = refresh_idle_expiry now s4).
  { rewrite Hst. destruct (state (lobby s)); try done; [by left..|]. right. by apply Ok_inj in H. }
  clear H. destruct Hcase as [[Hfo H]|[Him ->]].
  - rewrite <- Hst4 in Hfo. apply recompute_ok in H as [Hok Hp]; [|done|by apply (roster_ok_same s4)|by apply (samples_ok_same s4)].
    split; [done|]. etrans; [exact Hpath|]. by rewrite <- Hst4, Hfo.
  - split.
    + constructor; [by apply (roster_ok_same s4)|by apply (samples_ok_same s4)|].
      assert (Hl4 : last_election (refresh_idle_expiry now s4) = last_election s) by (rewrite <- Hl; by destruct authenticated).
      assert (Ha4 : authority (lobby (refresh_idle_expiry now s4)) = authority (lobby s)) by (rewrite <- Ha; by destruct authenticated).
      assert (Hm4 : match_start_election (refresh_idle_expiry now s4) = match_start_election s) by (rewrite <- Hms; by destruct authenticated).
      unfold election_ok in *. rewrite Hst4, Hst, Him in *. by rewrite Hl4, Ha4, Hm4.
    + by rewrite Hst4.
Qed.

Definition sound_write (s s' : StoredLobby) : Prop := lobby_ok s' /\ rtc lobby_step (state (lobby s)) (state (lobby s')).
Lemma sound_core s s' : core s' = core s -> lobby_ok s -> sound_write s s'.
Proof. intros Hc Hok. split; [by apply (lobby_ok_core s)|]. by rewrite (state_core s s'). Qed.

(** [proceed] and [refuse] write what their steps write. *)
Lemma proceed_written {A B} (r : result A ApiError) (k : A -> Reply B) s' :
  written (proceed r k) = Some s' -> exists a, r = Ok a /\ written (k a) = Some s'.
Proof. destruct r; [eauto|done]. Qed.
Ltac refused := let H := fresh in intros H; discriminate H.

Lemma submit_measurements_ok s player report legacy dry now s' :
  written (submit_measurements s player report legacy dry now) = Some s' -> lobby_ok s -> sound_write s s'.
Proof.
  intros H Hok. revert H. unfold submit_measurements.
  destruct (accepts_measurements _) eqn:Hacc; cbn [negb]; [|refused].
  destruct (in_roster s player) eqn:Hin; cbn [negb]; [|refused].
  destruct (negb legacy && _); [refused|].
  destruct (into_validated_sample _ _ _) as [sample|] eqn:Hv; [|refused].
  intros (s1 & Hrep & [= ->])%proceed_written. unfold into_validated_sample in Hv.
  destruct (validate_for_roster _ _) as [[]|] eqn:Hv'; [|done]. injection Hv as <-.
  by eapply record_report_ok; [| |done|apply in_roster_true|].
Qed.

(** *** Joins *)

Lemma join_admitted s request actor invitation key fp authorized dry now s' :
  join_admission s request actor invitation key fp authorized dry now = inr s' ->
  core s' = core s /\ is_joinable (state (lobby s)) = true /\ join_validate request M3_WIRE_VERSION = Ok tt /\
  join_replays s !! key = None /\
  (in_roster s (join_player request) = true \/ Z.of_nat (length (roster (lobby s))) < max_players (lobby s)).
Proof.
  unfold join_admission. destruct (join_replays s !! key); [done|].
  destruct (negb (dry_run s || authorized)); [done|]. destruct (join_validate request M3_WIRE_VERSION) as [[]|]; [|done].
  destruct (forallb is_whitespace _); [done|]. destruct (is_joinable _); cbn [negb]; [|done].
  assert (Hlimit : forall b : bool, (if b then inl (refuse (api_error 503 "credential_issuance_pending" dry))
     else match enforce_join_rate_limit (join_player request) now dry s with Err e => inl (refuse e) | Ok stored => inr stored end) =
     @inr (Reply JoinAnswer) StoredLobby s' -> core s' = core s).
  { intros b Hb. destruct b; [done|]. unfold enforce_join_rate_limit in Hb.
    match type of Hb with context [if ?b then _ else _] => destruct b end; [done|]. by injection Hb as <-. }
  destruct (find _ (roster (lobby s))) as [existing|] eqn:Hfind.
  - destruct (same_attributes existing request); cbn [negb]; [|done]. intros Hb.
    assert (Hin : in_roster s (join_player request) = true).
    { unfold in_roster. apply existsb_exists. exists existing. by apply find_some in Hfind. }
    destruct (credentials s !! join_player request) as [c|]; [destruct (live_credential now c); [done|]|];
      apply Hlimit in Hb; auto 6.
  - destruct (Z.leb_spec (max_players (lobby s)) (Z.of_nat (length (roster (lobby s))))); [done|].
    destruct (is_some_and _ _); [done|]. intros Hb%Hlimit. auto 6.
Qed.
Lemma join_refused_core s request actor invitation key fp authorized dry now r s' :
  join_admission s request actor invitation key fp authorized dry now = inl r -> written r = Some s' -> core s' = core s.
Proof.
  unfold join_admission. destruct (join_replays s !! key).
  { destruct (is_some_and _ _); [by intros [= <-]|]. destruct (_ || _); by intros [= <-]. }
  destruct (negb _); [by intros [= <-]|]. destruct (join_validate request M3_WIRE_VERSION) as [[]|]; [|by intros [= <-]].
  destruct (forallb is_whitespace _); [by intros [= <-]|]. destruct (is_joinable _); cbn [negb]; [|by intros [= <-]].
  destruct (find _ (roster (lobby s))) as [existing|].
  - destruct (same_attributes existing request); cbn [negb]; [|by intros [= <-]].
    destruct (credentials s !! join_player request) as [c|]; [destruct (live_credential now c); [intros [= <-]; by intros [= <-]|]|];
      (destruct (is_some_and _ _); [by intros [= <-]|]); (destruct (enforce_join_rate_limit _ _ _ _); [done|by intros [= <-]]).
  - destruct (_ <=? _); [by intros [= <-]|]. destruct (is_some_and _ _); [by intros [= <-]|].
    destruct (is_some_and _ _); [by intros [= <-]|]. destruct (enforce_join_rate_limit _ _ _ _); [done|by intros [= <-]].
Qed.
Lemma reserve_core request invitation key fp now s s' : reserve_issuance request invitation key fp now s = Some s' -> core s' = core s.
Proof.
  unfold reserve_issuance. destruct invitation as [verifier|]; [|by intros [= <-]].
  unfold consume_invitation. destruct (consume_any _ _) as [l []]; [by intros [= <-]|done].
Qed.

Lemma ids_insert_sorted p l : player_id <$> sort_by_key player_id (l ++ [p]) ≡ₚ player_id p :: (player_id <$> l).
Proof. rewrite sort_by_key_perm, fmap_app, Permutation_app_comm. done. Qed.
Lemma seat_roster_ok request now s : roster_ok s -> in_roster s (join_player request) = false ->
  Z.of_nat (length (roster (lobby s))) < max_players (lobby s) -> major (client_wire_version request) = 2 ->
  roster_ok (on_lobby (fun l => l <| roster := insert_sorted (seat_of request now) (roster l) |>) s).
Proof.
  intros [] Hin Hlt Hw. constructor; unfold player_ids; cbn; unfold insert_sorted.
  - apply sort_by_key_sorted.
  - rewrite ids_insert_sorted. apply NoDup_cons. split; [|done].
    intros Hp. change (join_player request ∈ player_ids s) in Hp. apply in_roster_true in Hp. congruence.
  - rewrite sort_by_key_perm, length_app. cbn. lia.
  - rewrite sort_by_key_perm. apply Forall_app. auto.
Qed.
(** A lobby whose authority was cleared, once it is not ready. *)
Lemma unready_cleared_ok dry s s' : unready dry s = Ok s' -> is_joinable (state (lobby s)) = true -> roster_ok s -> samples_ok s ->
  last_election s = None -> authority (lobby s) = None ->
  lobby_ok s' /\ state (lobby s') = Forming /\ rtc lobby_step (state (lobby s)) (state (lobby s')).
Proof.
  intros H Hj Hr Hs Hl0 Ha0. apply unready_facts in H as (_ & Hr2 & Hs2 & Hl & Ha & _ & _ & _ & Hst).
  assert (Hst' : state (lobby s') = Forming) by (rewrite Hst; by destruct (state (lobby s))).
  split; [|split; [done|rewrite Hst; apply unready_path]].
  apply unelected_ok; [auto|auto|congruence|congruence|by rewrite Hst'].
Qed.
Lemma samples_ok_delete player s : samples_ok s -> samples_ok (s <| measurements := delete player (measurements s) |>).
Proof.
  intros []. constructor; [|done]. cbn. intros q m Hq. apply lookup_delete_Some in Hq as [_ Hq]. by apply ok_measured0.
Qed.
Lemma cleared_roster_ok s : roster_ok s -> roster_ok (clear_authority s).
Proof. by apply roster_ok_same. Qed.
Lemma cleared_samples_ok s : samples_ok s -> samples_ok (clear_authority s).
Proof. by apply samples_ok_same. Qed.
Lemma retake_seat_ok player dry s s' : lobby_ok s -> is_joinable (state (lobby s)) = true ->
  retake_seat player dry s = Ok s' ->
  sound_write s s' /\ state (lobby s') = Forming.
Proof.
  unfold retake_seat. intros [Hr Hs _] Hj. set (f := fun p : Player => _). assert (Hf : keeps_seat f) by done.
  destruct (alter_rider_ok player f s Hf) as (Hr1 & Hs1 & _ & _). specialize (Hr1 Hr). specialize (Hs1 Hs).
  assert (Hst : state (lobby (alter_rider player f s)) = state (lobby s)) by done.
  generalize dependent (alter_rider player f s). intros s1 Hr1 Hs1 Hst H.
  apply unready_cleared_ok in H as (Hok & Hfo & Hp); [|cbn; by rewrite Hst|..|done|done].
  - split; [|done]. split; [done|]. cbn in Hp. by rewrite <- Hst.
  - apply cleared_roster_ok. by apply (roster_ok_same s1).
  - by apply cleared_samples_ok, samples_ok_delete.
Qed.
Lemma changed_roster dry s s' : roster_changed dry s = Ok s' -> is_joinable (state (lobby s)) = true ->
  roster (lobby s') = roster (lobby s) /\ max_players (lobby s') = max_players (lobby s) /\ state (lobby s') = Forming /\
  measurements s' = ∅ /\ authenticated_reporters s' = ∅ /\ last_election s' = None /\ authority (lobby s') = None.
Proof.
  unfold roster_changed. intros H Hj. destruct (unready dry (bump_revision s)) as [s1|] eqn:Hu; [|done].
  apply unready_facts in Hu as (_ & _ & _ & _ & _ & _ & Hro & Hmax & Hst). apply Ok_inj in H as <-. cbn in *.
  repeat split_and!; [done|done| |done..]. rewrite Hst. by destruct (state (lobby s)).
Qed.
Lemma new_seat_ok request dry now s s1 : roster_changed dry s = Ok s1 -> roster_ok s -> is_joinable (state (lobby s)) = true ->
  in_roster s (join_player request) = false -> Z.of_nat (length (roster (lobby s))) < max_players (lobby s) ->
  major (client_wire_version request) = 2 ->
  lobby_ok (on_lobby (fun l => l <| roster := insert_sorted (seat_of request now) (roster l) |>) s1) /\ state (lobby s1) = Forming.
Proof.
  intros Hc Hr Hj Hin Hroom Hw. apply changed_roster in Hc as (Hro & Hmax & Hst & Hm & Hre & Hl & Ha); [|done].
  split; [|done]. set (s2 := on_lobby _ s1).
  assert (Hs2 : measurements s2 = ∅ /\ authenticated_reporters s2 = ∅ /\ last_election s2 = None /\ authority (lobby s2) = None /\
                state (lobby s2) = Forming) by done.
  assert (Hr2 : roster_ok s2).
  { apply seat_roster_ok; [by apply (roster_ok_same s)|unfold in_roster; by rewrite Hro|by rewrite Hro, Hmax|done]. }
  clearbody s2. destruct Hs2 as (Hm2 & Hre2 & Hl2 & Ha2 & Hst2).
  apply unelected_ok; [done| |done|done|by rewrite Hst2]. constructor; [by rewrite Hm2|by rewrite Hre2].
Qed.
Lemma joinable_to_forming st : is_joinable st = true -> rtc lobby_step st Forming.
Proof. destruct st; try done. intros _. by apply step_path. Qed.
Lemma take_seat_ok request dry now s s' : take_seat request dry now s = Ok s' -> lobby_ok s -> is_joinable (state (lobby s)) = true ->
  (in_roster s (join_player request) = true \/ Z.of_nat (length (roster (lobby s))) < max_players (lobby s)) ->
  major (client_wire_version request) = 2 -> sound_write s s' /\ state (lobby s') = Forming.
Proof.
  unfold take_seat. destruct (negb (in_roster s (join_player request))) eqn:Hin; intros H Hok Hj Hroom Hw.
  - apply negb_true_iff in Hin. destruct Hroom as [|Hroom]; [congruence|].
    destruct (roster_changed dry s) as [s1|] eqn:Hc; [|done]. apply Ok_inj in H as <-.
    destruct (new_seat_ok request dry now s s1) as [Hok1 Hst1]; [done|apply Hok|done..|]. split; [|exact Hst1]. split; [exact Hok1|].
    change (rtc lobby_step (state (lobby s)) (state (lobby s1))). rewrite Hst1. by apply joinable_to_forming.
  - by apply (retake_seat_ok (join_player request) dry).
Qed.
Lemma issue_credential_ok request minted verifier key fp expires dry now s s' :
  issue_credential request minted verifier key fp expires dry now s = Ok s' -> lobby_ok s -> is_joinable (state (lobby s)) = true ->
  (in_roster s (join_player request) = true \/ Z.of_nat (length (roster (lobby s))) < max_players (lobby s)) ->
  major (client_wire_version request) = 2 -> sound_write s s'.
Proof.
  unfold issue_credential. intros H Hok Hj Hroom Hw.
  set (s0 := s <| pending_issuances := _ |>) in H.
  destruct (take_seat request dry now s0) as [s1|] eqn:Hseat; [|done]. apply Ok_inj in H.
  assert (Hs0 : core s0 = core s) by done.
  apply take_seat_ok in Hseat as [[Hok1 Hp] Hst]; [|by apply (lobby_ok_core s)|done|done|done].
  assert (Hc : core s' = core s1) by (by rewrite <- H).
  split; [by apply (lobby_ok_core s1)|]. rewrite (state_core s1 s' Hc). exact Hp.
Qed.
Lemma fail_mint_ok player error dry now s s' : fail_mint player error dry now s = Ok s' -> lobby_ok s -> is_joinable (state (lobby s)) = true ->
  sound_write s s'.
Proof.
  unfold fail_mint. intros H Hok Hj.
  match type of H with context [is_joinable (state (lobby ?x))] => set (s0 := x) in H end.
  assert (Hs0 : core s0 = core s) by (by destruct error).
  assert (Hst0 : state (lobby s0) = state (lobby s)) by (by apply state_core).
  rewrite Hst0, Hj in H. destruct (transition Failed dry s0) as [s1|] eqn:Ht; [|done]. apply transition_Ok in Ht as [Hs1 Hcan].
  apply Ok_inj in H.
  assert (Hs' : roster (lobby s') = roster (lobby s0) /\ max_players (lobby s') = max_players (lobby s0) /\
    measurements s' = measurements s0 /\ authenticated_reporters s' = authenticated_reporters s0 /\ state (lobby s') = Failed).
  { rewrite <- H, Hs1. unfold note_pending_cleanup, note_policy_gate. destruct error as [| | |? ? ? []| | |]; cbn; split_ifs; done. }
  destruct Hs' as (Hr & Hm & Hme & Hre & Hst).
  apply (lobby_ok_core s s0) in Hok; [|done].
  split; [apply closed_ok; [apply (roster_ok_same s0); [done..|apply Hok]|apply (samples_ok_same s0); [done..|apply Hok]|by rewrite Hst]|].
  rewrite Hst, <- Hst0. by apply step_path.
Qed.
Lemma validated_major request : join_validate request M3_WIRE_VERSION = Ok tt -> major (client_wire_version request) = 2.
Proof.
  unfold join_validate. destruct (validate_display_name _); [|done]. unfold check_compatible_with, is_compatible_with, compatibility_with.
  cbn [major M3_WIRE_VERSION]. destruct (2 =? major (client_wire_version request)) eqn:Heq; [|done]. intros _. lia.
Qed.
Lemma commit_written {A} (r : Reply A) failed dry s' : s' ∈ (commit r failed dry).1 -> written r = Some s'.
Proof.
  unfold commit. destruct (written r) as [s|]; [|by intros ?%not_elem_of_nil]. destruct failed; cbn; [by intros ?%not_elem_of_nil|].
  by intros ->%list_elem_of_singleton.
Qed.
Lemma join_lobby_ok s request i dry now s' : s' ∈ (join_lobby s request i dry now).1 -> lobby_ok s -> sound_write s s'.
Proof.
  unfold join_lobby. intros H Hok.
  destruct (join_admission _ _ _ _ _ _ _ _ _) as [r|s1] eqn:Hadm.
  { apply commit_written in H. apply sound_core; [|done]. by eapply join_refused_core. }
  apply join_admitted in Hadm as (Hc1 & Hj & Hv%validated_major & _ & Hroom).
  destruct (negb (join_permit i)); [by apply not_elem_of_nil in H|].
  destruct (reserve_issuance _ _ _ _ _ _) as [s2|] eqn:Hres; [|by apply not_elem_of_nil in H]. apply reserve_core in Hres.
  destruct (reservation_failed i); [by apply not_elem_of_nil in H|].
  assert (Hc : core s2 = core s) by congruence.
  destruct (commit _ (issue_failed i) dry) as [ws a] eqn:Hcommit. cbn in H.
  apply list_elem_of_In in H as [<-|H%list_elem_of_In]; [by apply sound_core|].
  replace ws with (commit (finish_join request i dry now s2) (issue_failed i) dry).1 in H by (by rewrite Hcommit).
  apply commit_written in H. apply (lobby_ok_core s s2) in Hok; [|done].
  assert (Hst : state (lobby s2) = state (lobby s)) by (by apply state_core). unfold sound_write. rewrite <- Hst. fold (sound_write s2 s').
  assert (Hj2 : is_joinable (state (lobby s2)) = true) by (by rewrite Hst).
  assert (Hroom2 : in_roster s2 (join_player request) = true \/ Z.of_nat (length (roster (lobby s2))) < max_players (lobby s2)).
  { injection Hc as Hr Hm _ _ _ _ _ _ _ _. unfold in_roster. by rewrite Hr, Hm. }
  unfold finish_join in H. destruct (join_minted i) as [minted|error].
  - apply proceed_written in H as (s3 & H & [= ->]). by eapply issue_credential_ok.
  - destruct (fail_mint _ _ _ _ _) as [s3|] eqn:Hf; [|done]. injection H as ->. by eapply fail_mint_ok.
Qed.

(** *** Leaving *)

Lemma mark_first_core now s : core (mark_first_live now s).1 = core s.
Proof. unfold mark_first_live. by destruct (find _ _) as [[p c]|]. Qed.
(** A cleanup's result touches the seats only in their pending marks. *)
Record same_seats (s s' : StoredLobby) : Prop := {
  seats_ids : player_ids s' = player_ids s;
  seats_length : length (roster (lobby s')) = length (roster (lobby s));
  seats_wire : player_wire_version <$> roster (lobby s') = player_wire_version <$> roster (lobby s);
  seats_joined : player_joined_at <$> roster (lobby s') = player_joined_at <$> roster (lobby s);
  seats_max : max_players (lobby s') = max_players (lobby s);
  seats_state : state (lobby s') = state (lobby s);
  seats_authority : authority (lobby s') = authority (lobby s);
  seats_measured : measurements s' = measurements s;
  seats_reporters : authenticated_reporters s' = authenticated_reporters s;
  seats_election : last_election s' = last_election s;
  seats_start : match_start_election s' = match_start_election s;
}.
Lemma core_seats s s' : core s' = core s -> same_seats s s'.
Proof. intros [= Hr Hm Hs Ha Hme Hrep Hl Hms Hep Hbe]. constructor; unfold player_ids; congruence. Qed.
Lemma mark_riders_seats s : same_seats s (mark_riders s).
Proof.
  constructor; try done; unfold player_ids; cbn; rewrite ?length_map, <- ?list_fmap_compose; try done;
    apply list_fmap_ext; intros _ p _; unfold compose; repeat case_match; done.
Qed.
Lemma same_seats_trans s1 s2 s3 : same_seats s1 s2 -> same_seats s2 s3 -> same_seats s1 s3.
Proof. intros [] []. constructor; congruence. Qed.
Lemma cleanup_seats now r full s s' : apply_cleanup_result now r full s = Some s' -> same_seats s s'.
Proof.
  unfold apply_cleanup_result. intros H.
  match type of H with context [mark_first_live now ?x] => set (s1 := x) in H end.
  assert (Hc1 : core s1 = core s).
  { subst s1. destruct r as [o|e]; [unfold note_outcome; by destruct (full && outcome_delete_acknowledged o), (full && outcome_secret_erased o)|by destruct (needs_remediation e)]. }
  pose proof (mark_first_core now s1) as Hc2. destruct (mark_first_live now s1) as [s2 pending]. cbn in Hc2.
  match type of H with mark_riders <$> ?x = _ => destruct x as [s3|] eqn:H3 end; [|done]. cbn in H. injection H as <-.
  assert (Hc3 : core s3 = core s2).
  { destruct (full && negb (dry_run s2)); [destruct (cleanup_lifecycle _ _ _) as [[l p]|]; [|done]|]; by injection H3 as <-. }
  apply (same_seats_trans s s3); [apply core_seats; congruence|apply mark_riders_seats].
Qed.
Lemma seats_wires_two s s' : same_seats s s' -> Forall (fun p => major (player_wire_version p) = 2) (roster (lobby s)) ->
  Forall (fun p => major (player_wire_version p) = 2) (roster (lobby s')).
Proof.
  intros Hs. pose proof (seats_wire _ _ Hs) as Hw.
  assert (Hiff : forall l, Forall (fun p => major (player_wire_version p) = 2) l <-> Forall (fun v => major v = 2) (player_wire_version <$> l))
    by (intros l; symmetry; apply Forall_fmap).
  rewrite !Hiff. by rewrite Hw.
Qed.
Lemma seats_roster_ok s s' : same_seats s s' -> roster_ok s -> roster_ok s'.
Proof.
  intros Hs []. constructor; [by rewrite (seats_ids _ _ Hs)|by rewrite (seats_ids _ _ Hs)|by rewrite (seats_length _ _ Hs), (seats_max _ _ Hs)|].
  by eapply seats_wires_two.
Qed.
Lemma seats_samples_ok s s' : same_seats s s' -> samples_ok s -> samples_ok s'.
Proof. intros [] []. constructor; rewrite ?seats_ids0, ?seats_measured0, ?seats_reporters0, ?seats_length0; done. Qed.

Lemma Forall_filtered {A} (P Q : A -> Prop) `{!forall p, Decision (P p)} l : Forall Q l -> Forall Q (filter P l).
Proof. rewrite !Forall_forall. intros Hl x [_ Hx]%list_elem_of_filter. auto. Qed.
Lemma sorted_filter (P : Player -> Prop) `{!forall p, Decision (P p)} l :
  StronglySorted key_le (player_id <$> l) -> StronglySorted key_le (player_id <$> filter P l).
Proof.
  induction l as [|p l IH]; [done|]. rewrite fmap_cons. intros [Hs Hall]%StronglySorted_inv. rewrite filter_cons. case_decide; [|auto].
  rewrite fmap_cons. constructor; [auto|]. apply (Forall_fmap player_id) in Hall. apply (Forall_fmap player_id). exact (Forall_filtered P _ l Hall).
Qed.
Lemma forget_rider_roster player s : roster_ok s -> roster_ok (forget_rider player s).
Proof.
  intros []. assert (Hids : player_ids (forget_rider player s) = player_id <$> filter (fun p => player_id p <> player) (roster (lobby s))) by done.
  constructor; rewrite ?Hids.
  - by apply sorted_filter.
  - eapply sublist_NoDup; [exact ok_distinct0|]. apply fmap_sublist, sublist_filter.
  - etrans; [|exact ok_size0]. apply inj_le, length_filter.
  - by apply Forall_filtered.
Qed.
Lemma leave_ok s player cleanup dry now s' : written (leave_lobby s player cleanup dry now) = Some s' -> lobby_ok s -> sound_write s s'.
Proof.
  intros H [Hr _ He]. revert H. unfold leave_lobby. destruct (negb (accepts_leaves (state (lobby s)))) eqn:Hacc; [refused|].
  apply negb_false_iff in Hacc. destruct (negb (in_roster s player)); [refused|].
  destruct (apply_cleanup_result now cleanup false s) as [s1|] eqn:Hc; [|refused]. apply cleanup_seats in Hc.
  intros (s2 & Hu & [= <-])%proceed_written.
  apply unready_facts in Hu as (_ & Hr2 & Hs2 & Hl2 & Ha2 & Hms2 & _ & _ & Hst2). cbn in Hl2, Ha2, Hms2.
  assert (Hst1 : state (lobby (forget_rider player s1)) = state (lobby s)) by (cbn; by apply seats_state).
  rewrite Hst1 in Hst2. rewrite (seats_start _ _ Hc) in Hms2.
  assert (Hr3 : roster_ok s2) by (apply Hr2, forget_rider_roster; by apply (seats_roster_ok s)).
  assert (Hs3 : samples_ok s2) by (apply Hs2; by constructor).
  split; [|cbn; rewrite Hst2; apply (unready_path (state (lobby s)))].
  apply (lobby_ok_core s2); [done|]. constructor; [done|done|]. unfold election_ok in *. rewrite Hst2.
  destruct (state (lobby s)); try done. cbn. destruct He as (_ & locked & Hlo & _).
  rewrite Ha2, Hl2. split; [done|]. exists locked. rewrite Hms2. by split.
Qed.

(** *** Elections on demand, starts, heartbeats and results *)

Lemma elect_handler_ok s dry now s' : written (elect_lobby_authority s dry now) = Some s' -> lobby_ok s -> sound_write s s'.
Proof.
  intros H Hok. revert H. unfold elect_lobby_authority. destruct (negb (accepts_measurements (state (lobby s)))) eqn:Hacc; [refused|].
  apply negb_false_iff in Hacc. intros (s1 & Hs1 & H)%proceed_written.
  assert (s1 = s') as -> by (destruct (last_election s1); [by injection H|done]). clear H.
  match type of Hs1 with (if ?b then _ else _) = _ => destruct b eqn:Hb end; [|apply Ok_inj in Hs1 as <-; by apply sound_core].
  btrue. destruct Hok as [Hr Hs He].
  assert (Hst : state (lobby s) = Forming).
  { unfold election_ok in He. destruct (state (lobby s)); try done. destruct He as (e & t & _ & Hl & _). by rewrite Hl in H0. }
  unfold sound_write. rewrite Hst. by eapply recompute_ok.
Qed.
Lemma start_ok s request actor key fp secure seed dry now s' :
  written (start_lobby s request actor key fp secure seed dry now) = Some s' -> lobby_ok s -> sound_write s s'.
Proof.
  intros H Hok. revert H. unfold start_lobby. intros (_ & _ & H)%proceed_written. revert H. destruct (start_replays s !! key).
  { destruct (negb _); [refused|]. destruct (is_playing _); refused. }
  destruct (is_playing (state (lobby s))).
  { destruct (is_some_and _ _); [refused|]. intros [= <-]. by apply sound_core. }
  destruct (state (lobby s)) eqn:Hst; try refused. cbn [negb]. intros (_ & _ & H)%proceed_written. revert H.
  destruct Hok as [Hr Hs He].
  destruct (negb (all_measurements_fresh s now)).
  { intros (s1 & [Hs1 _]%transition_Ok & H)%proceed_written. injection H as <-. subst s1.
    split; [apply unelected_ok; [by apply (roster_ok_same s)|by apply (samples_ok_same s)|done|done|done]|].
    rewrite Hst. by apply step_path. }
  destruct (is_none (last_election s) || is_none (authority (lobby s))); [refused|].
  intros (s1 & H1 & H)%proceed_written. injection H as <-. unfold begin_match in H1.
  destruct (transition Starting dry _) as [s2|] eqn:Ht in H1; [|done]. apply transition_Ok in Ht as [-> _]. apply Ok_inj in H1 as <-.
  split; [|cbn; rewrite Hst; by apply step_path]. constructor; [by apply (roster_ok_same s)|by apply (samples_ok_same s)|].
  unfold election_ok in He. rewrite Hst in He. destruct He as (e & t & _ & Hl & Ha). unfold election_ok. cbn. rewrite Hl, Ha.
  split; [done|]. exists e. split; [done|]. intros e' [= <-]. constructor.
Qed.

(** The two accepted claims: the authority's own, and a successor's. *)
Lemma claim_cases s request actor dry now s' : heartbeat_claim s request actor dry now = Ok s' ->
  exists current, last_election s = Some current /\
  ((s' = s /\ winner_player_id current = actor /\ input_hash current = beat_input_hash request /\ requested_epoch s request = authority_epoch s) \/
   (claim_admitted s current request actor now = true /\ exists locked e,
      match_start_election s = Some locked /\ match_election locked e /\ winner_player_id e = actor /\
      apply_election e now dry s = Ok s' /\ authority_epoch s' = requested_epoch s request /\
      elect_authority_for_roster (filter (fun c => cand_player_id c ∈ survivors request) (candidates (input locked)))
        (election_at (input locked)) (expected_wire_version (input locked)) (roster_size (input locked)) = Ok e /\
      length (filter (fun c => cand_player_id c ∈ survivors request) (candidates (input locked))) =
        length (canonical_survivors (survivors request)))).
Proof.
  unfold heartbeat_claim. destruct (last_election s) as [current|]; [|done]. intros H. exists current. split; [done|].
  destruct (bool_decide _ && bool_decide _) eqn:Hb.
  - btrue. apply bool_decide_eq_true in H0. apply bool_decide_eq_true in H1. left.
    destruct (Z.eqb_spec (requested_epoch s request) (authority_epoch s)); [|done]. apply Ok_inj in H. auto.
  - right. destruct (claim_admitted s current request actor now); [|done]. split; [done|]. cbn [negb] in H. unfold elect_successor in H.
    destruct (match_start_election s) as [locked|]; [|done].
    destruct (negb (length _ =? _)%nat) eqn:Hlen; [done|]. apply negb_false_iff, Nat.eqb_eq in Hlen.
    destruct (elect_authority_for_roster _ _ _ _) as [e|] eqn:He; [|done].
    destruct (bool_decide_reflect (winner_player_id e = actor)) as [Hw|]; [|done]. cbn [negb] in H.
    destruct (apply_election e now dry s) as [s1|] eqn:Ha; [|done].
    destruct (Z.eqb_spec (authority_epoch s1) (requested_epoch s request)) as [Hep|]; [|done]. apply Ok_inj in H as <-.
    exists locked, e. repeat split_and!; try done. by econstructor.
Qed.
Lemma claim_in_match s current request actor now : claim_admitted s current request actor now = true -> state (lobby s) = InMatch.
Proof. unfold claim_admitted. intros H. btrue. by destruct (state (lobby s)). Qed.
Lemma claim_ok s request actor dry now s' : heartbeat_claim s request actor dry now = Ok s' -> lobby_ok s ->
  lobby_ok s' /\ state (lobby s') = state (lobby s).
Proof.
  intros (current & Hl & [(-> & _)|(Hc & locked & e & Hlo & Hm & _ & Ha & _)])%claim_cases Hok; [done|].
  apply claim_in_match in Hc. apply apply_election_facts in Ha as (Hr & Hmax & Hme & Hre & Hms & Hle & Hau & _ & Hst).
  rewrite Hc in Hst. split; [|congruence]. destruct Hok as [Hro Hs He].
  constructor; [by apply (roster_ok_same s)|by apply (samples_ok_same s)|]. unfold election_ok. rewrite Hst, Hau, Hle, Hms. split; [done|].
  exists locked. split; [done|]. by intros ? [= <-].
Qed.
(** What an accepted heartbeat writes. *)
Lemma accept_beat_written actor now dry s s' : written (accept_beat actor now dry s) = Some s' -> is_playing (state (lobby s)) = true ->
  exists e, last_election s = Some e /\ roster (lobby s') = roster (lobby s) /\ max_players (lobby s') = max_players (lobby s) /\
    measurements s' = measurements s /\ authenticated_reporters s' = authenticated_reporters s /\ authority (lobby s') = authority (lobby s) /\
    last_election s' = last_election s /\ match_start_election s' = match_start_election s /\ authority_epoch s' = authority_epoch s /\
    state (lobby s') = InMatch /\
    sl_last_accepted_heartbeat s' = Some (mkStoredAcceptedHeartbeat actor (authority_epoch s) (input_hash e) now).
Proof.
  unfold accept_beat. intros (s1 & Hs1 & H)%proceed_written Hp.
  assert (Hst : state (lobby s1) = InMatch /\ s1 = on_lobby (fun l => l <| state := InMatch |>) s \/ state (lobby s1) = InMatch /\ s1 = s).
  { destruct (state (lobby s)) eqn:Hst; try done; [apply transition_Ok in Hs1 as [-> _]; by left|]. apply Ok_inj in Hs1 as <-. by right. }
  cbn [last_election authority lobby] in H.
  destruct Hst as [[Hst ->]|[Hst ->]]; cbn in H; (destruct (last_election s) as [e|]; [|done]); cbn in H;
    (destruct (authority (lobby s)) eqn:Ha; [|done]); injection H as <-; exists e; repeat split_and!; done.
Qed.
Lemma beat_ok s request actor dry now s' : written (authority_heartbeat s request actor dry now) = Some s' -> lobby_ok s -> sound_write s s'.
Proof.
  intros H Hok. revert H. unfold authority_heartbeat. destruct (negb (is_playing (state (lobby s)))) eqn:Hp; [refused|]. apply negb_false_iff in Hp.
  intros (s1 & Hcl & H)%proceed_written. apply claim_ok in Hcl as [[Hr Hs He] Hst]; [|done]. rewrite <- Hst in Hp.
  apply accept_beat_written in H as (e & Hl & Hro & Hmax & Hme & Hre & Ha & Hle & Hms & _ & Hst' & _); [|done].
  split.
  - constructor; [by apply (roster_ok_same s1)|by apply (samples_ok_same s1)|]. unfold election_ok in *. rewrite Hst', Ha, Hle, Hms.
    destruct (state (lobby s1)); done.
  - rewrite Hst', <- Hst. destruct (state (lobby s1)); try done. by apply step_path.
Qed.
Lemma results_ok s request actor key fp dry now s' : written (submit_results s request actor key fp dry now) = Some s' -> lobby_ok s ->
  sound_write s s'.
Proof.
  intros H Hok. revert H. unfold submit_results. destruct (results_replays s !! key); [destruct (negb _); refused|].
  destruct (state (lobby s)) eqn:Hst; try refused. cbn [negb]. destruct (last_election s); [|refused].
  destruct (negb (bool_decide _)); [refused|]. destruct (negb (bool_decide _)); [refused|].
  intros (_ & _ & (s1 & [-> Hcan]%transition_Ok & H)%proceed_written)%proceed_written. injection H as <-.
  destruct Hok as [Hr Hs _].
  split; [apply closed_ok; [by apply (roster_ok_same s)|by apply (samples_ok_same s)|done]|]. by apply step_path.
Qed.

(** *** Maintenance *)

Lemma fail_access_ok error now s : roster_ok s -> samples_ok s ->
  lobby_ok (fail_access error now s) /\ is_closing (state (lobby (fail_access error now s))) = true /\
  rtc lobby_step (state (lobby s)) (state (lobby (fail_access error now s))).
Proof.
  intros Hr Hs.
  assert (Hf : roster (lobby (fail_access error now s)) = roster (lobby s) /\ max_players (lobby (fail_access error now s)) = max_players (lobby s) /\
    measurements (fail_access error now s) = measurements s /\ authenticated_reporters (fail_access error now s) = authenticated_reporters s /\
    state (lobby (fail_access error now s)) = (if is_closing (state (lobby s)) then state (lobby s) else Failed)).
  { unfold fail_access. by destruct (state (lobby s)) eqn:Hst; cbn; rewrite ?Hst. }
  destruct Hf as (Hro & Hmax & Hme & Hre & Hst).
  assert (Hc : is_closing (state (lobby (fail_access error now s))) = true) by (rewrite Hst; by destruct (state (lobby s))).
  split; [apply closed_ok; [by apply (roster_ok_same s)|by apply (samples_ok_same s)|done]|split; [done|]].
  rewrite Hst. destruct (state (lobby s)); try apply rtc_refl; by apply step_path.
Qed.
Lemma time_transitions_ok now s : lobby_ok s -> sound_write s (apply_time_transitions s now).1.
Proof.
  intros Hok. unfold apply_time_transitions. destruct (time_target s now) as [[next reason]|] eqn:Ht; [|by apply sound_core].
  destruct (validate_transition _ _) eqn:Hv; [|by apply sound_core]. destruct Hok as [Hr Hs _]. cbn.
  assert (Hn : is_closing next = true).
  { revert Ht. unfold time_target. destruct (state (lobby s)); try done; split_ifs; by intros [= <- _]. }
  split; [apply closed_ok; [by apply (roster_ok_same s)|by apply (samples_ok_same s)|done]|].
  apply step_path. unfold validate_transition in Hv. by destruct (can_transition_to _ _).
Qed.
Lemma freshness_ok now s : lobby_ok s -> sound_write s (refresh_freshness_state s now).1.
Proof.
  intros Hok. unfold refresh_freshness_state. destruct (state (lobby s)) eqn:Hst; try by apply sound_core.
  destruct (_ && _); [|by apply sound_core]. destruct Hok as [Hr Hs _].
  split; [apply unelected_ok; [by apply (roster_ok_same s)|by apply (samples_ok_same s)|done|done|done]|]. rewrite Hst. by apply step_path.
Qed.
Lemma sound_trans s1 s2 s3 : sound_write s1 s2 -> sound_write s2 s3 -> sound_write s1 s3.
Proof. intros [_ H1] [Hok H2]. split; [done|]. by etrans. Qed.
Lemma maintain_ok access now s : lobby_ok s -> sound_write s (maintain access now s).1.1.
Proof.
  intros Hok. unfold maintain.
  match goal with |- context [match (if needs_provider s then access else None) with _ => _ end] =>
    destruct (match (if needs_provider s then access else None) with
              | Some error => (fail_access error now s, true) | None => (s, false) end) as [s1 failed] eqn:H1 end.
  assert (Hs1 : sound_write s s1).
  { destruct (if needs_provider s then access else None); injection H1 as <- _; [|by apply sound_core].
    destruct (fail_access_ok p now s) as (? & _ & ?); [apply Hok..|]. by split. }
  pose proof (time_transitions_ok now s1 (proj1 Hs1)) as H2. destruct (apply_time_transitions s1 now) as [s2 timed]. cbn in H2.
  pose proof (freshness_ok now s2 (proj1 H2)) as H3. destruct (refresh_freshness_state s2 now) as [s3 stale]. cbn in *.
  eapply sound_trans; [exact Hs1|]. by eapply sound_trans.
Qed.
Lemma invite_ok s legacy authorized verifier now s' : written (create_invitation s legacy authorized verifier now) = Some s' -> core s' = core s.
Proof.
  unfold create_invitation. destruct (negb _); [refused|]. intros (_ & _ & (_ & _ & H)%proceed_written)%proceed_written.
  destruct (_ <=? _)%nat; [done|]. by injection H as <-.
Qed.

Lemma service_step_ok s s' : lobby_ok s -> service_step s s' -> sound_write s s'.
Proof.
  intros Hok [r dry now s1 Hw].
  assert (Hopt : forall o : option StoredLobby, s1 ∈ option_list o -> o = Some s1).
  { intros [x|]; cbn; [by intros ->%list_elem_of_singleton|by intros ?%not_elem_of_nil]. }
  destruct r; cbn in Hw; try apply Hopt in Hw.
  - apply sound_core; [|done]. by eapply invite_ok.
  - by eapply join_lobby_ok.
  - by eapply leave_ok.
  - by eapply submit_measurements_ok.
  - by eapply elect_handler_ok.
  - by eapply start_ok.
  - by eapply beat_ok.
  - by eapply results_ok.
  - apply list_elem_of_singleton in Hw as ->. by apply maintain_ok.
Qed.
Lemma service_run_ok s s' : rtc service_step s s' -> lobby_ok s -> sound_write s s'.
Proof.
  induction 1 as [s|s1 s2 s3 H _ IH]; intros Hok; [by apply sound_core|].
  pose proof (service_step_ok _ _ Hok H) as H12. eapply sound_trans; [done|]. apply IH, H12.
Qed.

(** ** A lobby of two riders *)

Module ServiceDemo.

Definition demo_rider (n : Z) : PlayerId := mkProtocolId [0; 0; 0; 0; 0; 0; 64; 0; 128; 0; 0; 0; 0; 0; 0; n].
Definition demo_new : StoredLobby :=
  stored_new (mkLobby (mkProtocolId [1; 0; 0; 0; 0; 0; 64; 0; 128; 0; 0; 0; 0; 0; 0; 1]) [82] Forming None [] 4 None None
                (mkLobbyTtl 600000 3600000) M3_WIRE_VERSION DryRun 0 false)
    (demo_rider 1) [] [] true 600000.
Definition demo_join (n : Z) : JoinLobbyRequest := mkJoinLobbyRequest (demo_rider n) [65] M3_WIRE_VERSION AUTHORITY_FORMULA_VERSION None.
Definition demo_inputs (n : Z) : JoinInputs :=
  mkJoinInputs (demo_rider n) None [n] [n; n] true true (Ok (mkMintedCredential [107; n] true)) [n] None None.
Definition demo_report : ConnectivityReport := mkConnectivityReport (mkRouteSummary 1 0 0) 40 80 5 0 10 900 1.
Definition served (s : StoredLobby) (r : ServiceRequest) (now : UnixMillis) : StoredLobby := default s (last (writes_of s r true now)).
Definition demo_joined : StoredLobby := served (served demo_new (ReqJoin (demo_join 1) (demo_inputs 1)) 1000) (ReqJoin (demo_join 2) (demo_inputs 2)) 2000.
Definition demo_reported : StoredLobby := served demo_joined (ReqReport (demo_rider 1) demo_report false) 40000.
Definition demo_ready : StoredLobby := served demo_reported (ReqReport (demo_rider 2) demo_report false) 40100.
Definition demo_start : ServiceRequest := ReqStart (mkStartLobbyRequest (demo_rider 1) (Some 7)) (demo_rider 1) [9] [9] (Ok false) 0.
Definition demo_started : StoredLobby := served demo_ready demo_start 41000.
Definition demo_hash : list Z := match last_election demo_started with Some e => input_hash e | None => [] end.
Definition demo_beat : AuthorityHeartbeatRequest := mkAuthorityHeartbeatRequest (demo_rider 1) demo_hash 0 [].
Definition demo_match : StoredLobby := served demo_started (ReqBeat demo_beat (demo_rider 1)) 41500.
Lemma served_step s r now : writes_of s r true now <> [] -> service_step s (served s r now).
Proof.
  intros Hne. unfold served. destruct (last (writes_of s r true now)) as [s'|] eqn:Hl; [|by apply last_None in Hl].
  apply (step_writes s r true now). by apply last_Some_elem_of in Hl.
Qed.
Lemma demo_new_ok : lobby_ok demo_new.
Proof.
  apply unelected_ok; [|constructor|done|done|done].
  - constructor; [constructor|constructor|cbn; lia|constructor].
  - intros p m Hm. change ((∅ : gmap PlayerId ConnectivitySample) !! p = Some m) in Hm. by rewrite lookup_empty in Hm.
  - intros p Hp. by apply not_elem_of_empty in Hp.
Qed.
Definition demo_states : list LobbyState := [state (lobby demo_joined); state (lobby demo_reported); state (lobby demo_ready); state (lobby demo_started); state (lobby demo_match)].
Example demo_states_are : demo_states = [Forming; Forming; Ready; Starting; InMatch].
Proof. vm_compute. reflexivity. Qed.
Lemma service_demo_run : rtc service_step demo_new demo_match.
Proof. repeat (eapply rtc_r; [|apply served_step; vm_compute; discriminate]). apply rtc_refl. Qed.
End ServiceDemo.
Import ServiceDemo.

