(* ===== verification/LobbyServiceAuthority.v ===== *)
(** * Who holds the authority of a match

    An epoch has one authority, succession needs silence and the locked election, and
    what a match needs to start and to end. *)

From Stdlib Require Import Strings.String.
From stdpp Require Import gmap.
From S2P Require Import Prelude MachineInt Ordered Clock Bytes Identifiers WireVersion LobbyLifecycle Model Session Rehearsal Election.
From S2P Require Import NetworkInspection ServerCrypto Store NetworkView LobbyService LobbyServiceRun.
Import ServiceDemo.
Open Scope Z_scope.

(** ** Epochs *)

(** The accepted heartbeat is of the installed election. *)
Definition beat_matches (e : AuthorityElection) (beat : StoredAcceptedHeartbeat) : Prop :=
  accepted_player_id beat = winner_player_id e /\ accepted_input_hash beat = input_hash e.
Definition same_authority (e e' : AuthorityElection) : Prop :=
  winner_player_id e = winner_player_id e' /\ input_hash e = input_hash e'.
(** What a write does to the installed election, its epoch and the accepted heartbeat. *)
Definition epoch_ok (s : StoredLobby) : Prop := 0 <= authority_epoch s < 2 ^ 64.
Record epoch_step (s s' : StoredLobby) : Prop := {
  es_range : epoch_ok s';
  es_epoch : authority_epoch s <= authority_epoch s';
  es_election : forall e', last_election s' = Some e' -> authority_epoch s' < 2 ^ 64 - 1 ->
    authority_epoch s < authority_epoch s' \/
    authority_epoch s' = authority_epoch s /\ exists e, last_election s = Some e /\ same_authority e e';
  es_beat : sl_last_accepted_heartbeat s' = sl_last_accepted_heartbeat s \/
    exists e beat, last_election s' = Some e /\ sl_last_accepted_heartbeat s' = Some beat /\
      accepted_epoch beat = authority_epoch s' /\ beat_matches e beat;
}.
Definition same_crown (s s' : StoredLobby) : Prop :=
  last_election s' = last_election s /\ authority_epoch s' = authority_epoch s /\ sl_last_accepted_heartbeat s' = sl_last_accepted_heartbeat s.
Definition uncrowned (s s' : StoredLobby) : Prop :=
  last_election s' = None /\ authority_epoch s' = authority_epoch s /\ sl_last_accepted_heartbeat s' = sl_last_accepted_heartbeat s.
Lemma crown_step s s' : epoch_ok s -> same_crown s s' -> epoch_step s s'.
Proof.
  intros Hok (Hl & He & Hb). constructor; [unfold epoch_ok; by rewrite He|lia| |auto].
  intros e' He' _. right. split; [done|]. exists e'. rewrite <- Hl. by split.
Qed.
Lemma uncrowned_step s s' : epoch_ok s -> uncrowned s s' -> epoch_step s s'.
Proof. intros Hok (Hl & He & Hb). constructor; [unfold epoch_ok; by rewrite He|lia|by rewrite Hl|auto]. Qed.
Lemma core_crown s s' : core s' = core s -> same_crown s s'.
Proof. by intros [= _ _ _ _ _ _ ? _ ? ?]. Qed.
Lemma crown_trans s1 s2 s3 : same_crown s1 s2 -> same_crown s2 s3 -> same_crown s1 s3.
Proof. intros (H1 & H2 & H3) (H4 & H5 & H6). repeat split; congruence. Qed.
Lemma crown_ok s s' : same_crown s s' -> epoch_ok s -> epoch_ok s'.
Proof. unfold epoch_ok. by intros (_ & -> & _). Qed.
(** A step may be preceded by one that keeps the crown. *)
Lemma crown_epoch_step s1 s2 s3 : same_crown s1 s2 -> epoch_step s2 s3 -> epoch_step s1 s3.
Proof. intros (Hl & He & Hb) []. constructor; rewrite <- ?Hl, <- ?He, <- ?Hb; done. Qed.
Lemma crown_uncrowned s1 s2 s3 : same_crown s1 s2 -> uncrowned s2 s3 -> uncrowned s1 s3.
Proof. intros (H1 & H2 & H3) (H4 & H5 & H6). repeat split; congruence. Qed.

Lemma unready_crown dry s s' : unready dry s = Ok s' -> same_crown s s'.
Proof. by intros [[-> _]|[-> _]]%unready_Ok. Qed.
Lemma next_epoch epoch : 0 <= epoch < 2 ^ 64 ->
  epoch <= Z.max (saturating_add 64 epoch 1) 1 < 2 ^ 64 /\
  (Z.max (saturating_add 64 epoch 1) 1 < 2 ^ 64 - 1 -> epoch < Z.max (saturating_add 64 epoch 1) 1).
Proof. unfold saturating_add. lia. Qed.
Lemma apply_election_beat e now dry s s' : apply_election e now dry s = Ok s' ->
  sl_last_accepted_heartbeat s' = sl_last_accepted_heartbeat s.
Proof.
  unfold apply_election. cbn. destruct (state (lobby s)); try (intros H; apply Ok_inj in H as <-; done).
  match goal with |- context [if ?b then _ else _] => destruct b end; [intros [-> _]%transition_Ok|intros H; apply Ok_inj in H as <-]; done.
Qed.
Lemma apply_election_step e now dry s s' : apply_election e now dry s = Ok s' -> epoch_ok s -> epoch_step s s'.
Proof.
  intros H Hok. pose proof (apply_election_beat _ _ _ _ _ H) as Hb. pose proof (next_epoch _ Hok) as [Hnext Hlt].
  apply apply_election_facts in H as (_ & _ & _ & _ & _ & Hl & _ & Hep & _).
  destruct (election_changed s e) eqn:Hch.
  - constructor; [unfold epoch_ok; lia|lia| |by left]. rewrite Hep. auto.
  - constructor; [unfold epoch_ok; by rewrite Hep|lia| |by left]. rewrite Hep, Hl. intros e' [= <-] _. right. split; [done|].
    unfold election_changed in Hch. destruct (last_election s) as [e0|]; [|done]. exists e0. split; [done|]. cbn in Hch. btrue.
    apply bool_decide_eq_true in H, H0. by split.
Qed.
Lemma recompute_step now dry s s' : recompute_authority now dry s = Ok s' -> epoch_ok s -> epoch_step s s'.
Proof.
  intros [[_ ->]|(e & _ & _ & H)]%recompute_cases He; [|by eapply apply_election_step]. by apply uncrowned_step.
Qed.
Lemma take_seat_uncrowned request dry now s s' : take_seat request dry now s = Ok s' -> uncrowned s s'.
Proof.
  unfold take_seat, retake_seat, roster_changed. destruct (negb _).
  - destruct (unready dry (bump_revision s)) as [s1|] eqn:Hu; [|done]. intros H. apply Ok_inj in H as <-.
    apply unready_crown in Hu. apply (crown_uncrowned _ s1); [|done]. by apply (crown_trans _ (bump_revision s)).
  - intros H%unready_crown. destruct H as (Hl & He & Hb). by split.
Qed.
Lemma fail_mint_uncrowned player error dry now s s' : fail_mint player error dry now s = Ok s' -> uncrowned s s'.
Proof.
  unfold fail_mint. match goal with |- context [is_joinable (state (lobby ?x))] => set (s0 := x) end. intros H.
  assert (Hs0 : same_crown s s0) by (by destruct error).
  destruct (if is_joinable (state (lobby s0)) then transition Failed dry s0 else Ok s0) as [s1|] eqn:Ht; [|done]. apply Ok_inj in H as <-.
  assert (Hs1 : same_crown s0 s1).
  { destruct (is_joinable _); [by apply transition_Ok in Ht as [-> _]|by apply Ok_inj in Ht as <-]. }
  apply (crown_uncrowned _ s1); [by eapply crown_trans|].
  unfold note_pending_cleanup, note_policy_gate. destruct error as [| | |? ? ? []| | |]; cbn; split_ifs; done.
Qed.
Lemma join_step s request i dry now s' : s' ∈ (join_lobby s request i dry now).1 -> epoch_ok s -> epoch_step s s'.
Proof.
  unfold join_lobby. intros H Hok.
  destruct (join_admission _ _ _ _ _ _ _ _ _) as [r|s1] eqn:Hadm.
  { apply commit_written in H. apply crown_step; [done|]. apply core_crown. by eapply join_refused_core. }
  apply join_admitted in Hadm as (Hc1 & _).
  destruct (negb (join_permit i)); [by apply not_elem_of_nil in H|].
  destruct (reserve_issuance _ _ _ _ _ _) as [s2|] eqn:Hres; [|by apply not_elem_of_nil in H]. apply reserve_core in Hres.
  destruct (reservation_failed i); [by apply not_elem_of_nil in H|].
  assert (Hc : same_crown s s2) by (apply core_crown; congruence).
  destruct (commit _ (issue_failed i) dry) as [ws a] eqn:Hcommit. cbn in H.
  apply list_elem_of_In in H as [<-|H%list_elem_of_In]; [by apply crown_step|].
  replace ws with (commit (finish_join request i dry now s2) (issue_failed i) dry).1 in H by (by rewrite Hcommit).
  apply commit_written in H. apply uncrowned_step; [done|]. apply (crown_uncrowned _ s2); [done|].
  unfold finish_join in H. destruct (join_minted i) as [minted|error].
  - apply proceed_written in H as (s3 & H & [= ->]). unfold issue_credential in H.
    destruct (take_seat _ _ _ _) as [s4|] eqn:Hseat; [|done]. apply Ok_inj in H as <-. by apply take_seat_uncrowned in Hseat.
  - destruct (fail_mint _ _ _ _ _) as [s3|] eqn:Hf; [|done]. injection H as ->. by eapply fail_mint_uncrowned.
Qed.
Lemma cleanup_crown now r full s s' : apply_cleanup_result now r full s = Some s' -> same_crown s s'.
Proof.
  unfold apply_cleanup_result. intros H.
  match type of H with context [mark_first_live now ?x] => set (s1 := x) in H end.
  assert (Hc1 : same_crown s s1).
  { subst s1. destruct r as [o|e]; [unfold note_outcome; by destruct (full && outcome_delete_acknowledged o), (full && outcome_secret_erased o)|by destruct (needs_remediation e)]. }
  pose proof (mark_first_core now s1) as Hc2%core_crown. destruct (mark_first_live now s1) as [s2 pending]. cbn in Hc2.
  match type of H with mark_riders <$> ?x = _ => destruct x as [s3|] eqn:H3 end; [|done]. cbn in H. injection H as <-.
  assert (Hc3 : same_crown s2 s3).
  { destruct (full && negb (dry_run s2)); [destruct (cleanup_lifecycle _ _ _) as [[l p]|]; [|done]|]; by injection H3 as <-. }
  apply (crown_trans _ s1); [done|]. apply (crown_trans _ s2); [done|]. exact Hc3.
Qed.
Lemma leave_step s player cleanup dry now s' : written (leave_lobby s player cleanup dry now) = Some s' -> uncrowned s s'.
Proof.
  unfold leave_lobby. destruct (negb _); [refused|]. destruct (negb _); [refused|].
  destruct (apply_cleanup_result now cleanup false s) as [s1|] eqn:Hc; [|refused]. apply cleanup_crown in Hc.
  intros (s2 & Hu & [= <-])%proceed_written. apply unready_crown in Hu.
  assert (Hf : uncrowned s s2); [|done].
  destruct Hu as (Hl & He & Hb), Hc as (_ & He1 & Hb1). repeat split; [by rewrite Hl|by rewrite He|by rewrite Hb].
Qed.
Lemma report_step s player report legacy dry now s' : written (submit_measurements s player report legacy dry now) = Some s' ->
  epoch_ok s -> epoch_step s s'.
Proof.
  intros H Hok. revert H. unfold submit_measurements. destruct (negb _); [refused|]. destruct (negb _); [refused|].
  destruct (_ && _); [refused|]. destruct (into_validated_sample _ _ _) as [sample|]; [|refused].
  intros (s1 & H & [= ->])%proceed_written. unfold record_report in H. destruct (unready dry s) as [s2|] eqn:Hu; [|done].
  apply unready_crown in Hu. match type of H with context [refresh_idle_expiry now ?x] => set (s3 := refresh_idle_expiry now x) in H end.
  assert (Hc : same_crown s s3) by (apply (crown_trans _ s2); [done|]; by destruct (negb legacy)).
  apply (crown_epoch_step _ s3); [done|]. pose proof (crown_ok _ _ Hc Hok) as Hok3.
  destruct (state (lobby s3)); try (by eapply recompute_step). apply Ok_inj in H as <-. by apply crown_step.
Qed.
Lemma elect_step s dry now s' : written (elect_lobby_authority s dry now) = Some s' -> epoch_ok s -> epoch_step s s'.
Proof.
  intros H Hok. revert H. unfold elect_lobby_authority. destruct (negb _); [refused|]. intros (s1 & Hs1 & H)%proceed_written.
  assert (s1 = s') as -> by (destruct (last_election s1); [by injection H|done]).
  match type of Hs1 with (if ?b then _ else _) = _ => destruct b end; [by eapply recompute_step|apply Ok_inj in Hs1 as <-].
  by apply crown_step.
Qed.
Lemma start_step s request actor key fp secure seed dry now s' :
  written (start_lobby s request actor key fp secure seed dry now) = Some s' -> epoch_ok s -> epoch_step s s'.
Proof.
  intros H Hok. revert H. unfold start_lobby. intros (_ & _ & H)%proceed_written. revert H. destruct (start_replays s !! key).
  { destruct (negb _); [refused|]. destruct (is_playing _); refused. }
  destruct (is_playing (state (lobby s))); [destruct (is_some_and _ _); [refused|]; intros [= <-]; by apply crown_step|].
  destruct (negb _); [refused|]. intros (_ & _ & H)%proceed_written. revert H. destruct (negb (all_measurements_fresh s now)).
  { intros (s1 & [-> _]%transition_Ok & H)%proceed_written. injection H as <-. by apply uncrowned_step. }
  destruct (_ || _); [refused|]. intros (s1 & H1 & H)%proceed_written. injection H as <-. unfold begin_match in H1.
  destruct (transition Starting dry _) as [s2|] eqn:Ht in H1; [|done]. apply transition_Ok in Ht as [-> _]. apply Ok_inj in H1 as <-.
  by apply crown_step.
Qed.
Lemma beat_step s request actor dry now s' : written (authority_heartbeat s request actor dry now) = Some s' -> lobby_ok s -> epoch_ok s -> epoch_step s s'.
Proof.
  intros H Hl Hok. revert H. unfold authority_heartbeat. destruct (negb (is_playing (state (lobby s)))) eqn:Hp; [refused|]. apply negb_false_iff in Hp.
  intros (s1 & Hcl & H)%proceed_written. pose proof (claim_ok _ _ _ _ _ _ Hcl Hl) as [_ Hst]. rewrite <- Hst in Hp.
  assert (Hs1 : epoch_step s s1 /\ exists e, last_election s1 = Some e /\ winner_player_id e = actor).
  { apply claim_cases in Hcl as (current & Hcur & [(-> & Hw & _)|(_ & locked & e & _ & _ & Hw & Ha & _)]).
    - split; [by apply crown_step|eauto].
    - split; [by eapply apply_election_step|]. apply apply_election_facts in Ha as (_ & _ & _ & _ & _ & Hle & _). eauto. }
  destruct Hs1 as [Hs1 (e & Hle & Hw)].
  apply accept_beat_written in H as (e' & Hl1 & _ & _ & _ & _ & _ & Hle' & _ & Hep & _ & Hb); [|done].
  rewrite Hle in Hl1. injection Hl1 as <-.
  constructor; [unfold epoch_ok; rewrite Hep; apply Hs1|rewrite Hep; apply Hs1|rewrite Hle', Hep; apply Hs1|].
  right. eexists e, _. rewrite Hle'. split; [done|]. split; [exact Hb|]. cbn. split; [done|]. split; [done|done].
Qed.
Lemma results_step s request actor key fp dry now s' : written (submit_results s request actor key fp dry now) = Some s' -> same_crown s s'.
Proof.
  unfold submit_results. destruct (results_replays s !! key); [destruct (negb _); refused|].
  destruct (negb _); [refused|]. destruct (last_election s); [|refused].
  destruct (negb (bool_decide _)); [refused|]. destruct (negb (bool_decide _)); [refused|].
  intros (_ & _ & (s1 & [-> Hcan]%transition_Ok & H)%proceed_written)%proceed_written. by injection H as <-.
Qed.
Lemma maintain_step access now s : same_crown s (maintain access now s).1.1 \/ uncrowned s (maintain access now s).1.1.
Proof.
  unfold maintain.
  match goal with |- context [match (if needs_provider s then access else None) with _ => _ end] =>
    destruct (match (if needs_provider s then access else None) with
              | Some error => (fail_access error now s, true) | None => (s, false) end) as [s1 failed] eqn:H1 end.
  assert (Hs1 : same_crown s s1 \/ uncrowned s s1).
  { destruct (if needs_provider s then access else None) as [p|]; injection H1 as <- _; [right|by left].
    unfold fail_access. by destruct (negb _ && _). }
  assert (Htail : forall s2 s3, (same_crown s s2 \/ uncrowned s s2) -> same_crown s2 s3 \/ uncrowned s2 s3 -> same_crown s s3 \/ uncrowned s s3).
  { intros s2 s3 [H2|H2] [H3|H3]; [left; by eapply crown_trans|right; by eapply crown_uncrowned|right|right];
      destruct H2 as (? & ? & ?), H3 as (? & ? & ?); repeat split; congruence. }
  assert (H2 : same_crown s1 (apply_time_transitions s1 now).1 \/ uncrowned s1 (apply_time_transitions s1 now).1).
  { unfold apply_time_transitions. destruct (time_target s1 now) as [[next reason]|]; [|by left].
    destruct (validate_transition _ _); [by right|by left]. }
  destruct (apply_time_transitions s1 now) as [s2 timed]. cbn in H2.
  assert (H3 : same_crown s2 (refresh_freshness_state s2 now).1 \/ uncrowned s2 (refresh_freshness_state s2 now).1).
  { unfold refresh_freshness_state. destruct (state (lobby s2)); try by left. destruct (_ && _); [by right|by left]. }
  destruct (refresh_freshness_state s2 now) as [s3 stale]. cbn in *. eauto.
Qed.
Lemma step_epochs s s' : lobby_ok s -> epoch_ok s -> service_step s s' -> epoch_step s s'.
Proof.
  intros Hl Hok [r dry now s1 Hw].
  assert (Hopt : forall o : option StoredLobby, s1 ∈ option_list o -> o = Some s1).
  { intros [x|]; cbn; [by intros ->%list_elem_of_singleton|by intros ?%not_elem_of_nil]. }
  destruct r; cbn in Hw; try apply Hopt in Hw.
  - apply crown_step; [done|]. apply core_crown. by eapply invite_ok.
  - by eapply join_step.
  - apply uncrowned_step; [done|]. by eapply leave_step.
  - by eapply report_step.
  - by eapply elect_step.
  - by eapply start_step.
  - by eapply beat_step.
  - apply crown_step; [done|]. by eapply results_step.
  - apply list_elem_of_singleton in Hw as ->. destruct (maintain_step access now s); [by apply crown_step|by apply uncrowned_step].
Qed.

(** The record agrees with a heartbeat accepted before. *)
Record agrees (beat : StoredAcceptedHeartbeat) (s : StoredLobby) : Prop := {
  ag_epoch : accepted_epoch beat <= authority_epoch s;
  ag_election : forall e, last_election s = Some e -> authority_epoch s = accepted_epoch beat -> beat_matches e beat;
  ag_beat : forall b, sl_last_accepted_heartbeat s = Some b -> accepted_epoch b = accepted_epoch beat ->
    accepted_player_id b = accepted_player_id beat /\ accepted_input_hash b = accepted_input_hash beat;
}.
Lemma agrees_step beat s s' : agrees beat s -> epoch_step s s' -> authority_epoch s' < 2 ^ 64 - 1 -> agrees beat s'.
Proof.
  intros [He Hel Hb] [_ Hmono Helec Hbeat] Hlt.
  assert (Hel' : forall e, last_election s' = Some e -> authority_epoch s' = accepted_epoch beat -> beat_matches e beat).
  { intros e Hl Heq. destruct (Helec _ Hl Hlt) as [|(Hsame & e0 & Hl0 & Hw & Hh)]; [lia|].
    destruct (Hel e0 Hl0) as [H1 H2]; [lia|]. split; congruence. }
  constructor; [lia|done|]. intros b Hbs Heq. destruct Hbeat as [Hs|(e & b' & Hl & Hs & Hep & H1 & H2)]; rewrite Hbs in Hs; [by apply Hb|].
  injection Hs as <-. destruct (Hel' e Hl) as [H3 H4]; [lia|]. split; congruence.
Qed.
Lemma epochs_kept s s' : lobby_ok s -> epoch_ok s -> rtc service_step s s' -> lobby_ok s' /\ epoch_ok s' /\ authority_epoch s <= authority_epoch s'.
Proof.
  intros Hl Hok H. induction H as [s|s1 s2 s3 H _ IH]; [split; [done|split; [done|lia]]|].
  pose proof (step_epochs _ _ Hl Hok H) as [Hok2 Hmono _ _]. pose proof (service_step_ok _ _ Hl H) as [Hl2 _].
  destruct (IH Hl2 Hok2) as (? & ? & ?). split; [done|]. split; [done|lia].
Qed.
Lemma agrees_run beat s s' : lobby_ok s -> epoch_ok s -> agrees beat s -> rtc service_step s s' -> authority_epoch s' < 2 ^ 64 - 1 -> agrees beat s'.
Proof.
  intros Hl Hok Hag H. induction H as [s|s1 s2 s3 H Hrun IH]; [done|]. intros Hlt.
  pose proof (step_epochs _ _ Hl Hok H) as Hstep. pose proof (service_step_ok _ _ Hl H) as [Hl2 _].
  pose proof (epochs_kept _ _ Hl2 (es_range _ _ Hstep) Hrun) as (_ & _ & Hle).
  apply IH; [done|apply Hstep|by eapply agrees_step; [..|lia]|done].
Qed.
Definition beat_agrees (s : StoredLobby) : Prop := forall beat, sl_last_accepted_heartbeat s = Some beat -> agrees beat s.
Lemma beat_agrees_step s s' : beat_agrees s -> epoch_step s s' -> authority_epoch s' < 2 ^ 64 - 1 -> beat_agrees s'.
Proof.
  intros Hag Hstep Hlt beat Hbeat. pose proof (es_beat _ _ Hstep) as [Hs|(e & b & Hl & Hs & Hep & Hm)].
  - rewrite Hbeat in Hs. eapply agrees_step; [by apply Hag|done|done].
  - rewrite Hbeat in Hs. injection Hs as <-. constructor; [lia| |].
    + intros e' Hl' _. rewrite Hl in Hl'. by injection Hl' as <-.
    + intros b' Hb'. rewrite Hbeat in Hb'. by injection Hb' as <-.
Qed.
Lemma beat_agrees_run s s' : lobby_ok s -> epoch_ok s -> beat_agrees s -> rtc service_step s s' -> authority_epoch s' < 2 ^ 64 - 1 -> beat_agrees s'.
Proof.
  intros Hl Hok Hag H. induction H as [s|s1 s2 s3 H Hrun IH]; [done|]. intros Hlt.
  pose proof (step_epochs _ _ Hl Hok H) as Hstep. pose proof (service_step_ok _ _ Hl H) as [Hl2 _].
  pose proof (epochs_kept _ _ Hl2 (es_range _ _ Hstep) Hrun) as (_ & _ & Hle).
  apply IH; [done|apply Hstep|by eapply beat_agrees_step; [..|lia]|done].
Qed.
(** A lobby as it is created. *)
Definition unplayed (s : StoredLobby) : Prop := lobby_ok s /\ authority_epoch s = 0 /\ sl_last_accepted_heartbeat s = None.

(** The demonstration's match, and its authority's next heartbeat. *)
Definition demo_later : StoredLobby :=
  served (served demo_match (ReqReport (demo_rider 2) demo_report false) 43000) (ReqBeat demo_beat (demo_rider 1)) 43400.
Lemma demo_later_run : rtc service_step demo_match demo_later.
Proof. do 2 (eapply rtc_r; [|apply served_step; vm_compute; discriminate]). apply rtc_refl. Qed.
Lemma demo_unplayed : unplayed demo_new.
Proof. split; [apply demo_new_ok|]. by split. Qed.

(** C12. One authority per epoch. From a lobby as it is created, through any requests served
    one after another: if a heartbeat was accepted by the time of [s1] and another by the
    time of [s2], and both are of the same epoch, they are of the same player and the same
    election, whatever riders joined, left, were measured or claimed to succeed in between
    (as long as the epochs have not run out of 64 bits). *)
Theorem one_authority_per_epoch (s0 s1 s2 : StoredLobby) (beat1 beat2 : StoredAcceptedHeartbeat)
    (H0 : unplayed s0) (H1 : rtc service_step s0 s1) (H2 : rtc service_step s1 s2) (Hlt : authority_epoch s2 < 2 ^ 64 - 1)
    (Hb1 : sl_last_accepted_heartbeat s1 = Some beat1) (Hb2 : sl_last_accepted_heartbeat s2 = Some beat2)
    (Heq : accepted_epoch beat1 = accepted_epoch beat2) :
  accepted_player_id beat1 = accepted_player_id beat2 /\ accepted_input_hash beat1 = accepted_input_hash beat2.
Proof.
  destruct H0 as (Hl0 & He0 & Hn). assert (Hok0 : epoch_ok s0) by (unfold epoch_ok; lia).
  destruct (epochs_kept _ _ Hl0 Hok0 H1) as (Hl1 & Hok1 & _). destruct (epochs_kept _ _ Hl1 Hok1 H2) as (_ & _ & Hle).
  assert (Hag1 : beat_agrees s1) by (apply (beat_agrees_run s0); [done|done| |done|lia]; intros b Hb; congruence).
  pose proof (agrees_run _ _ _ Hl1 Hok1 (Hag1 _ Hb1) H2 Hlt) as Hag2.
  destruct (ag_beat _ _ Hag2 _ Hb2) as [? ?]; [done|]. by split.
Qed.

Lemma demo_beats : (fun b => (accepted_epoch b, accepted_received_at b)) <$> sl_last_accepted_heartbeat demo_match = Some (1, 41500) /\
  (fun b => (accepted_epoch b, accepted_received_at b)) <$> sl_last_accepted_heartbeat demo_later = Some (1, 43400).
Proof. split; vm_compute; reflexivity. Qed.
Lemma demo_later_epoch : authority_epoch demo_later < 2 ^ 64 - 1.
Proof. vm_compute. reflexivity. Qed.
Lemma one_authority_per_epoch_witness :
  exists beat1 beat2, sl_last_accepted_heartbeat demo_match = Some beat1 /\ sl_last_accepted_heartbeat demo_later = Some beat2 /\
    accepted_received_at beat1 = 41500 /\ accepted_received_at beat2 = 43400 /\
    accepted_player_id beat1 = accepted_player_id beat2 /\ accepted_input_hash beat1 = accepted_input_hash beat2.
Proof.
  destruct demo_beats as [H1 H2].
  destruct (sl_last_accepted_heartbeat demo_match) as [beat1|] eqn:Hb1; [|discriminate H1].
  destruct (sl_last_accepted_heartbeat demo_later) as [beat2|] eqn:Hb2; [|discriminate H2].
  injection H1 as He1 Ha1. injection H2 as He2 Ha2.
  exists beat1, beat2. split; [reflexivity|]. split; [reflexivity|]. split; [exact Ha1|]. split; [exact Ha2|].
  apply (one_authority_per_epoch demo_new demo_match demo_later beat1 beat2 demo_unplayed service_demo_run demo_later_run demo_later_epoch Hb1 Hb2).
  congruence.
Defined.
