(* ===== verification/LobbyServiceMatch.v ===== *)
(** * A match of the lobby service, from its start to its results

    What a start, a heartbeat and a result need, what a match is worth once a rider has
    left it, and the elections the service holds. *)

From Stdlib Require Import Strings.String.
From stdpp Require Import gmap.
From S2P Require Import Prelude MachineInt Ordered Clock Bytes Identifiers WireVersion LobbyLifecycle Model Session Rehearsal Election.
From S2P Require Import NetworkInspection ServerCrypto Store NetworkView LobbyService LobbyServiceRun LobbyServiceAuthority.
Import ServiceDemo.
Open Scope Z_scope.

(** ** Starting *)

Lemma roster_checked_iff s secure dry : lobby_ok s ->
  start_roster_checked s secure dry = Ok tt <->
  (2 <= length (roster (lobby s)))%nat /\ Forall (fun p => player_formula_version p = AUTHORITY_FORMULA_VERSION) (roster (lobby s)) /\
  (dry = true \/ secure = Ok true).
Proof.
  intros [[_ _ _ Hw] _ _]. unfold start_roster_checked, PROTOTYPE_MIN_PLAYERS.
  assert (Hagainst : forall l, Forall (fun p => major (player_wire_version p) = 2) l ->
    validate_start_roster_against l M3_WIRE_VERSION AUTHORITY_FORMULA_VERSION = Ok tt <->
    Forall (fun p => player_formula_version p = AUTHORITY_FORMULA_VERSION) l).
  { induction l as [|p l IH]; [done|]. intros [Hp Hl]%Forall_cons. cbn [validate_start_roster_against].
    unfold is_compatible_with, compatibility_with. rewrite Hp. cbn [major M3_WIRE_VERSION Z.eqb Pos.eqb negb].
    rewrite Forall_cons. destruct (bool_decide_reflect (player_formula_version p = AUTHORITY_FORMULA_VERSION)) as [Hf|Hf]; cbn [negb].
    - rewrite IH by done. naive_solver.
    - naive_solver. }
  assert (Hsigned : forall l, Forall (fun p => major (player_wire_version p) = 2) l -> validate_signed_wire l = Ok tt).
  { induction l as [|p l IH]; [done|]. intros [Hp Hl]%Forall_cons. cbn [validate_signed_wire]. unfold is_unsigned_wire. rewrite Hp. auto. }
  specialize (Hagainst _ Hw). specialize (Hsigned _ Hw). unfold validate_secure_start_roster_against.
  destruct (Nat.ltb_spec (length (roster (lobby s))) 2); [split; [done|lia]|].
  destruct (validate_start_roster_against _ _ _) as [[]|].
  - rewrite Hsigned. destruct Hagainst as [Hall _]. specialize (Hall eq_refl).
    destruct dry; [naive_solver|]. destruct secure as [[]|]; naive_solver.
  - destruct Hagainst as [_ Hall]. split; [done|]. intros (_ & Hf & _). by specialize (Hall Hf).
Qed.

(** C19. A match starts for a measured, agreeing roster. A start with a fresh key takes a
    ready lobby to [Starting] exactly when its creator asks, at least two riders are
    seated, all of them follow the service's formula, every measurement is younger than
    sixty seconds, and, unless the start is dry, the session's endpoints were reported secure. The
    match is then locked to the election of exactly the present roster and measurements,
    under the next session generation. *)
Theorem match_starts_iff (s : StoredLobby) (request : StartLobbyRequest) (actor : PlayerId) (key fingerprint : list Z)
    (secure : result bool ApiError) (seed : Z) (dry : bool) (now : UnixMillis)
    (Hok : lobby_ok s) (Hready : state (lobby s) = Ready) (Hkey : start_replays s !! key = None) :
  let r := start_lobby s request actor key fingerprint secure seed dry now in
  ((exists s', written r = Some s' /\ state (lobby s') = Starting) <->
    actor = creator_player_id s /\ (2 <= length (roster (lobby s)))%nat /\
    Forall (fun p => player_formula_version p = AUTHORITY_FORMULA_VERSION) (roster (lobby s)) /\
    (dry = true \/ secure = Ok true) /\ all_measurements_fresh s now = true) /\
  (forall s', written r = Some s' -> state (lobby s') = Starting ->
    exists e t, elect_authority (authority_candidates s) t = Ok e /\ match_start_election s' = Some e /\ last_election s' = Some e /\
      session_generation s' = Z.max (saturating_add 64 (session_generation s) 1) 1 /\ is_ok (answer r) = true).
Proof.
  cbn zeta. unfold start_lobby, ensure_creator. pose proof (roster_checked_iff s secure dry Hok) as Hcheck.
  pose proof (ok_election _ Hok) as He. unfold election_ok in He. rewrite Hready in He. destruct He as (e & t & He & Hl & Ha).
  destruct (decide (creator_player_id s = actor)) as [<-|Hne]; [|cbn; split; [naive_solver|done]].
  cbn [proceed]. rewrite Hkey, Hready. cbn [is_playing negb].
  destruct (start_roster_checked s secure dry) as [[]|] eqn:Hc; [|split; [split; [by intros (? & ? & _)|naive_solver]|done]].
  cbn [proceed]. destruct (all_measurements_fresh s now) eqn:Hf; cbn [negb].
  2: { unfold transition. rewrite Hready. cbn. split; [|intros s' [= <-] Hst; done].
       split; [intros (s' & [= <-] & Hst); done|naive_solver]. }
  rewrite Hl, Ha. cbn [is_none is_some negb orb]. unfold begin_match, transition. cbn [state lobby on_lobby set_field]. rewrite Hready. cbn.
  split; [split; [intros _; naive_solver|intros _; eexists; done]|]. intros s' [= <-] _. exists e, t. cbn. rewrite Hl, Ha. done.
Qed.

Lemma demo_ready_run : rtc service_step demo_new demo_ready.
Proof. repeat (eapply rtc_r; [|apply served_step; vm_compute; discriminate]). apply rtc_refl. Qed.
Lemma demo_ready_ok : lobby_ok demo_ready.
Proof. apply (service_run_ok demo_new); [apply demo_ready_run|apply demo_new_ok]. Qed.
Lemma match_starts_iff_witness :
  exists s', written (start_lobby demo_ready (mkStartLobbyRequest (demo_rider 1) (Some 7)) (demo_rider 1) [9] [9] (Ok false) 0 true 41000) = Some s' /\
    state (lobby s') = Starting.
Proof.
  apply (proj1 (match_starts_iff demo_ready (mkStartLobbyRequest (demo_rider 1) (Some 7)) (demo_rider 1) [9] [9] (Ok false) 0 true 41000
    demo_ready_ok ltac:(vm_compute; reflexivity) ltac:(vm_compute; reflexivity))).
  split; [vm_compute; reflexivity|]. split; [vm_compute; lia|]. split; [|split; [by left|vm_compute; reflexivity]].
  vm_compute. repeat constructor.
Defined.

(** ** Heartbeats *)

(** The authority's own heartbeat: under its epoch, or under none. *)
Definition own_beat (s : StoredLobby) (current : AuthorityElection) (request : AuthorityHeartbeatRequest) (actor : PlayerId) : Prop :=
  winner_player_id current = actor /\ (beat_epoch request = 0 \/ beat_epoch request = authority_epoch s).
(** A successor's: the match is on and its authority silent for two seconds, the next epoch
    is claimed for a sorted set of riders without the authority, and the election the match
    started with, held among them alone, is the claimant's. *)
Record succession (s : StoredLobby) (current : AuthorityElection) (request : AuthorityHeartbeatRequest) (actor : PlayerId) (now : UnixMillis)
    (e : AuthorityElection) : Prop := {
  succ_match : state (lobby s) = InMatch;
  succ_silent : exists last,
    match last_authority_heartbeat_at s with Some heartbeat => Some heartbeat | None => started_at s end = Some last /\ last + 2000 <= now;
  succ_epoch : beat_epoch request = authority_epoch s + 1 /\ authority_epoch s + 1 < 2 ^ 64;
  succ_sorted : survivors request = canonical_survivors (survivors request);
  succ_riders : forall p, p ∈ survivors request -> p ∈ player_ids s;
  succ_actor : actor ∈ survivors request;
  succ_silenced : winner_player_id current ∉ survivors request;
  succ_elected : exists locked, match_start_election s = Some locked /\
    length (filter (fun c => cand_player_id c ∈ survivors request) (candidates (input locked))) = length (survivors request) /\
    elect_authority_for_roster (filter (fun c => cand_player_id c ∈ survivors request) (candidates (input locked)))
      (election_at (input locked)) (expected_wire_version (input locked)) (roster_size (input locked)) = Ok e /\
    winner_player_id e = actor;
}.

Lemma silent_iff s now : is_silent s now = true <->
  exists last, match last_authority_heartbeat_at s with Some heartbeat => Some heartbeat | None => started_at s end = Some last /\ last + 2000 <= now.
Proof.
  unfold is_silent. rewrite is_some_and_true. apply exist_proper. intros last. apply and_iff_compat_l.
  unfold age_at_least, AUTHORITY_SILENCE_MS. rewrite is_some_and_true. unfold millis_checked_duration_since, checked_sub.
  destruct (Z.leb_spec last now); split; [intros (age & [= <-] & H0); lia|intros; eexists; split; [done|lia]|by intros (? & ? & _)|lia].
Qed.
Lemma claim_admitted_iff s current request actor now : epoch_ok s -> 
  claim_admitted s current request actor now = true <->
  state (lobby s) = InMatch /\ is_silent s now = true /\ (beat_epoch request = authority_epoch s + 1 /\ authority_epoch s + 1 < 2 ^ 64) /\
  input_hash current = beat_input_hash request /\ survivors request = canonical_survivors (survivors request) /\
  (forall p, p ∈ survivors request -> p ∈ player_ids s) /\ actor ∈ survivors request /\ winner_player_id current ∉ survivors request.
Proof.
  intros Hep. unfold claim_admitted. rewrite !andb_true_iff, !negb_true_iff, !bool_decide_eq_true, !bool_decide_eq_false, forallb_forall.
  assert (Hnext : checked_add 64 (authority_epoch s) 1 = Some (requested_epoch s request) <->
                  beat_epoch request = authority_epoch s + 1 /\ authority_epoch s + 1 < 2 ^ 64).
  { unfold checked_add, requested_epoch. unfold epoch_ok in Hep. destruct (Z.eqb_spec (beat_epoch request) 0).
    - split; [case_match eqn:Hlt; [|done]; intros H; injection H; lia|lia].
    - split; [intros H; case_match eqn:Hlt; [|done]; injection H as H; lia|intros [-> H]; case_match eqn:Hlt; [done|lia]]. }
  rewrite Hnext.
  assert (Hin : (forall x, In x (survivors request) -> in_roster s x = true) <-> (forall p, p ∈ survivors request -> p ∈ player_ids s)).
  { split; intros H p Hp; [apply in_roster_true, H; by apply list_elem_of_In|apply in_roster_true, H; by apply list_elem_of_In]. }
  rewrite Hin.
  assert (Hst : (match state (lobby s) with InMatch => true | _ => false end) = true <-> state (lobby s) = InMatch) by (by destruct (state (lobby s))).
  assert (Hne : actor ∈ survivors request -> survivors request <> []) by (intros Ha Hnil; rewrite Hnil in Ha; by apply not_elem_of_nil in Ha).
  rewrite Hst. tauto.
Qed.
Lemma canonical_length l : NoDup l -> length (canonical_survivors l) = length l.
Proof.
  intros Hnd. unfold canonical_survivors. rewrite merge_sort_Permutation. symmetry. apply Permutation_length.
  apply NoDup_Permutation; [done|apply NoDup_elements|]. intros x. rewrite elem_of_elements. by rewrite elem_of_list_to_set.
Qed.
Lemma canonical_NoDup l : NoDup (canonical_survivors l).
Proof. unfold canonical_survivors. rewrite merge_sort_Permutation. apply NoDup_elements. Qed.
Lemma successor_accepted s current request actor dry now e : lobby_ok s -> epoch_ok s -> last_election s = Some current ->
  succession s current request actor now e -> exists s', elect_successor s request actor dry now = Ok s'.
Proof.
  intros Hok Hep Hcur [Hst _ [Hbe Hlt] Hsorted _ Hactor Hout (locked & Hlo & Hlen & He & Hw)]. unfold elect_successor. rewrite Hlo.
  assert (Hcan : length (canonical_survivors (survivors request)) = length (survivors request)) by (by rewrite <- Hsorted).
  rewrite Hcan, Hlen, Nat.eqb_refl. cbn [negb]. rewrite He. rewrite bool_decide_eq_true_2 by done. cbn [negb].
  assert (Ha : exists s', apply_election e now dry s = Ok s').
  { unfold apply_election. cbn. rewrite Hst. eauto. }
  destruct Ha as [s' Ha]. rewrite Ha. apply apply_election_facts in Ha as (_ & _ & _ & _ & _ & _ & _ & Hepoch & _).
  assert (Hch : election_changed s e = true).
  { unfold election_changed. rewrite Hcur. cbn. rewrite bool_decide_eq_false_2; [done|]. intros Heq. apply Hout. by rewrite Heq, Hw. }
  rewrite Hch in Hepoch. unfold epoch_ok in Hep.
  assert (Hs' : authority_epoch s' = authority_epoch s + 1) by (rewrite Hepoch; unfold saturating_add; lia).
  unfold requested_epoch. rewrite Hbe, Hs'. destruct (Z.eqb_spec (authority_epoch s + 1) 0); [lia|]. rewrite Z.eqb_refl. cbn [negb]. eauto.
Qed.
Lemma claim_iff s request actor dry now : lobby_ok s -> epoch_ok s ->
  (exists s', heartbeat_claim s request actor dry now = Ok s') <->
  exists current, last_election s = Some current /\ input_hash current = beat_input_hash request /\
    (own_beat s current request actor \/ exists e, succession s current request actor now e).
Proof.
  intros Hok Hep.
  assert (Hreq : requested_epoch s request = authority_epoch s <-> beat_epoch request = 0 \/ beat_epoch request = authority_epoch s).
  { unfold requested_epoch. destruct (Z.eqb_spec (beat_epoch request) 0); naive_solver lia. }
  split.
  - intros [s' (current & Hl & [(-> & Hw & Hh & Hr)|(Hc & locked & e & Hlo & _ & Hw & _ & _ & He & Hlen)])%claim_cases]; exists current; (split; [done|]).
    + split; [done|]. left. split; [done|]. by apply Hreq.
    + apply claim_admitted_iff in Hc as (Hst & Hsil & Hbe & Hh & Hso & Hri & Hac & Hout); [|done].
      split; [done|]. right. exists e. constructor; try done; [by apply silent_iff|]. exists locked. split; [done|]. split; [|by split].
      by rewrite Hlen, <- Hso.
  - intros (current & Hl & Hh & Hcase). unfold heartbeat_claim. rewrite Hl. destruct Hcase as [[Hw Hbe]|[e Hs]].
    + rewrite !bool_decide_eq_true_2 by done. cbn [andb]. apply Hreq in Hbe. rewrite Hbe, Z.eqb_refl. cbn [negb]. eauto.
    + destruct (successor_accepted s current request actor dry now e) as [s' Hs']; [done..|].
      assert (Hne : winner_player_id current <> actor) by (intros <-; by destruct Hs).
      rewrite (bool_decide_eq_false_2 (winner_player_id current = actor)) by done. cbn [andb].
      assert (Hc : claim_admitted s current request actor now = true).
      { apply claim_admitted_iff; [done|]. destruct Hs. apply silent_iff in succ_silent0. tauto. }
      rewrite Hc. cbn [negb]. eauto.
Qed.
Lemma accept_beat_total actor now dry s e : lobby_ok s -> is_playing (state (lobby s)) = true -> last_election s = Some e ->
  exists s' a, accept_beat actor now dry s = reply s' a.
Proof.
  intros [_ _ He] Hp Hl. unfold election_ok in He.
  assert (Ha : authority (lobby s) = Some (summary_of e)).
  { rewrite Hl in He. destruct (state (lobby s)); try done; by destruct He as [Ha _]. }
  assert (Ht : exists s1, (match state (lobby s) with Starting => transition InMatch dry s | _ => Ok s end) = Ok s1 /\
    last_election s1 = Some e /\ authority (lobby s1) = Some (summary_of e)).
  { destruct (state (lobby s)) eqn:Hst; try done; [|by exists s]. eexists. unfold transition. rewrite Hst. by split. }
  destruct Ht as (s1 & Ht & Hl1 & Ha1). unfold accept_beat. rewrite Ht. cbn. rewrite Hl1. cbn. rewrite Ha1. eauto.
Qed.

(** C8. Whose heartbeat counts. In a lobby that is starting or in a match, a heartbeat is
    accepted exactly when it names the installed election and either comes from the
    authority itself, under its epoch, or is a successor's whole claim: two seconds of
    silence, the next epoch, and the election of the match's start held among the declared
    survivors alone. The match is then on, under the claimant's election, with the epoch
    unchanged or one further. *)
Theorem heartbeat_accepted_iff (s : StoredLobby) (request : AuthorityHeartbeatRequest) (actor : PlayerId) (dry : bool) (now : UnixMillis)
    (Hok : lobby_ok s) (Hep : epoch_ok s) (Hp : is_playing (state (lobby s)) = true) :
  let r := authority_heartbeat s request actor dry now in
  (is_ok (answer r) = true <->
    exists current, last_election s = Some current /\ input_hash current = beat_input_hash request /\
      (own_beat s current request actor \/ exists e, succession s current request actor now e)) /\
  (is_ok (answer r) = true -> exists s' e, written r = Some s' /\ state (lobby s') = InMatch /\ last_election s' = Some e /\
      winner_player_id e = actor /\
      (last_election s = Some e /\ authority_epoch s' = authority_epoch s \/ authority_epoch s' = authority_epoch s + 1)).
Proof.
  cbn zeta. unfold authority_heartbeat. rewrite Hp. cbn [negb]. rewrite <- (claim_iff s request actor dry now Hok Hep).
  destruct (heartbeat_claim s request actor dry now) as [s1|] eqn:Hcl; cbn [proceed].
  2: { split; [split; [done|by intros [? ?]]|done]. }
  pose proof (claim_ok _ _ _ _ _ _ Hcl Hok) as [Hok1 Hst1].
  assert (Hp1 : is_playing (state (lobby s1)) = true) by (by rewrite Hst1).
  assert (He : exists e, last_election s1 = Some e /\ winner_player_id e = actor /\
    (last_election s = Some e /\ authority_epoch s1 = authority_epoch s \/ authority_epoch s1 = authority_epoch s + 1)).
  { apply claim_cases in Hcl as (current & Hl & [(-> & Hw & _ & _)|(Hc & locked & e & _ & _ & Hw & Ha & Heq & _)]).
    - exists current. auto.
    - exists e. apply apply_election_facts in Ha as (_ & _ & _ & _ & _ & Hle & _). split; [done|]. split; [done|]. right.
      apply claim_admitted_iff in Hc as (_ & _ & [Hbe _] & _); [|done]. rewrite Heq. unfold requested_epoch. unfold epoch_ok in Hep.
      rewrite Hbe. by destruct (Z.eqb_spec (authority_epoch s + 1) 0); [lia|]. }
  destruct He as (e & Hle & Hw & Hch). destruct (accept_beat_total actor now dry s1 e Hok1 Hp1 Hle) as (s2 & a & Hacc).
  rewrite Hacc. split; [split; [eauto|done]|]. intros _. exists s2, e.
  assert (Hwr : written (accept_beat actor now dry s1) = Some s2) by (by rewrite Hacc).
  apply accept_beat_written in Hwr as (e' & _ & _ & _ & _ & _ & _ & Hl2 & _ & Hep2 & Hst2 & _); [|done].
  rewrite Hl2, Hep2. by repeat split.
Qed.

(** The second rider succeeds a silent authority. *)
Definition demo_claim : AuthorityHeartbeatRequest :=
  mkAuthorityHeartbeatRequest (demo_rider 2) demo_hash (authority_epoch demo_match + 1) [demo_rider 2].
Lemma service_demo_match_ok : lobby_ok demo_match.
Proof. apply (service_run_ok demo_new); [apply service_demo_run|apply demo_new_ok]. Qed.
Lemma demo_match_epoch : epoch_ok demo_match.
Proof. vm_compute. split; congruence. Qed.
Lemma demo_match_playing : is_playing (state (lobby demo_match)) = true.
Proof. vm_compute. reflexivity. Qed.
Lemma demo_claim_accepted : is_ok (answer (authority_heartbeat demo_match demo_claim (demo_rider 2) true 43500)) = true.
Proof. vm_compute. reflexivity. Qed.
Lemma heartbeat_accepted_iff_witness :
  exists s' e, written (authority_heartbeat demo_match demo_claim (demo_rider 2) true 43500) = Some s' /\ state (lobby s') = InMatch /\
    last_election s' = Some e /\ winner_player_id e = demo_rider 2 /\
    (last_election demo_match = Some e /\ authority_epoch s' = authority_epoch demo_match \/ authority_epoch s' = authority_epoch demo_match + 1).
Proof.
  exact (proj2 (heartbeat_accepted_iff demo_match demo_claim (demo_rider 2) true 43500 service_demo_match_ok demo_match_epoch demo_match_playing)
    demo_claim_accepted).
Defined.

(** ** Results *)

Definition plausible (row : FinalScore) : Prop :=
  - MAX_FINAL_SCORE_ABS <= bounty_score row <= MAX_FINAL_SCORE_ABS /\
  final_eliminations row <= 100000 /\ final_assists row <= 100000 /\ final_deaths row <= 100000.
Lemma score_rows_iff s seen rows : score_rows_ok s seen rows = true <->
  (forall row, row ∈ rows -> scored_player row ∈ player_ids s /\ scored_player row ∉ seen /\ plausible row) /\ NoDup (scored_player <$> rows).
Proof.
  revert seen. induction rows as [|row rows IH]; intros seen.
  { cbn. split; [intros _; split; [by intros ? ?%not_elem_of_nil|constructor]|done]. }
  cbn [score_rows_ok]. rewrite !andb_true_iff, IH, in_roster_true, negb_true_iff, bool_decide_eq_false, !Z.leb_le, fmap_cons, NoDup_cons.
  unfold plausible. setoid_rewrite elem_of_cons. setoid_rewrite list_elem_of_fmap. split.
  - intros ((((((Hin & Hsee) & Hs) & He) & Ha) & Hd) & Hall & Hnd). split; [|split; [|done]].
    + intros r [->|Hr]; [done|]. destruct (Hall r Hr) as (? & Hns & ?). set_solver.
    + intros (r & Heq & Hr). destruct (Hall r Hr) as (_ & Hns & _). set_solver.
  - intros (Hall & Hnin & Hnd). destruct (Hall row (or_introl eq_refl)) as (Hin & Hsee & Hs & He & Ha & Hd).
    repeat split; try done; try lia; try (by apply Hall; right); try (destruct (Hall row0 (or_intror H)) as (? & ? & ? & ? & ? & ?); lia).
    destruct (Hall row0 (or_intror H)) as (_ & Hns & _). intros [Heq%elem_of_singleton|?]%elem_of_union; [|done].
    apply Hnin. by exists row0.
Qed.
Lemma co_signers_iff s submitter seen l : co_signers_ok s submitter seen l = true <->
  (forall p, p ∈ l -> p ∈ player_ids s /\ p <> submitter /\ p ∉ seen) /\ NoDup l.
Proof.
  revert seen. induction l as [|p l IH]; intros seen.
  { cbn. split; [intros _; split; [by intros ? ?%not_elem_of_nil|constructor]|done]. }
  cbn [co_signers_ok]. rewrite !andb_true_iff, IH, in_roster_true, !negb_true_iff, !bool_decide_eq_false, NoDup_cons.
  split.
  - intros (((Hin & Hne) & Hsee) & Hall & Hnd). split; [|split; [|done]].
    + intros q [->|Hq]%elem_of_cons; [done|]. destruct (Hall q Hq) as (? & ? & Hns%not_elem_of_union). by destruct Hns.
    + intros Hp. destruct (Hall p Hp) as (_ & _ & Hns%not_elem_of_union). destruct Hns as [Hns _]. by apply Hns, elem_of_singleton.
  - intros (Hall & Hnin & Hnd). destruct (Hall p) as (Hin & Hne & Hsee); [left|]. split; [done|]. split; [|done].
    intros q Hq. destruct (Hall q) as (? & ? & Hns); [by right|]. split; [done|]. split; [done|].
    apply not_elem_of_union. split; [|done]. intros ->%elem_of_singleton. done.
Qed.
Lemma validate_results_iff s request dry : roster_ok s ->
  validate_results s request dry = Ok tt <->
  (match_duration_s request <> 0 /\ match_duration_s request <= MAX_MATCH_DURATION_S) /\ (scored_player <$> final_scores request) ≡ₚ player_ids s /\
  Forall plausible (final_scores request) /\
  NoDup (co_signers request) /\ (forall p, p ∈ co_signers request -> p ∈ player_ids s /\ p <> submitted_by request).
Proof.
  intros [_ Hnd _ _]. unfold validate_results.
  destruct ((match_duration_s request =? 0) || (match_duration_s request >? MAX_MATCH_DURATION_S)) eqn:Hd; [split; [done|lia]|].
  assert (Hlen : length (player_ids s) = length (roster (lobby s))) by apply length_fmap.
  destruct (Nat.eqb_spec (length (final_scores request)) (length (roster (lobby s)))) as [Heq|Hne]; cbn [negb].
  2: { split; [done|]. intros (_ & Hp%Permutation_length & _). rewrite length_fmap in Hp. congruence. }
  pose proof (score_rows_iff s ∅ (final_scores request)) as Hrows.
  assert (Hrows' : score_rows_ok s ∅ (final_scores request) = true <->
    (scored_player <$> final_scores request) ≡ₚ player_ids s /\ Forall plausible (final_scores request)).
  { rewrite Hrows, Forall_forall. split.
    - intros [Hall Hn]. split; [|intros row Hrow; by apply Hall].
      apply submseteq_length_Permutation; [|rewrite length_fmap; lia]. apply NoDup_submseteq; [done|].
      intros p (row & -> & Hrow)%list_elem_of_fmap. by apply Hall.
    - intros [Hp Hall]. split; [|by rewrite Hp]. intros row Hrow. split; [|split; [apply not_elem_of_empty|by apply Hall]].
      rewrite <- Hp. apply list_elem_of_fmap. eauto. }
  destruct (score_rows_ok _ _ _); cbn [negb]; [|split; [done|intros (_ & Hp & Hpl & _); by destruct Hrows' as [_ Hr]; discriminate Hr]].
  destruct Hrows' as [Hr _]. specialize (Hr eq_refl) as [Hperm Hpl].
  pose proof (co_signers_iff s (submitted_by request) ∅ (co_signers request)) as Hco.
  destruct (co_signers_ok _ _ _ _); cbn [negb].
  - destruct Hco as [Hco _]. specialize (Hco eq_refl) as [Hco Hn]. split; [intros _|done].
    split; [lia|]. split; [done|]. split; [done|]. split; [done|]. intros p Hp. by destruct (Hco p Hp) as (? & ? & _).
  - split; [done|]. intros (_ & _ & _ & Hn & Hall). destruct Hco as [_ Hco]. discriminate Hco. split; [|done].
    intros p Hp. destruct (Hall p Hp). split; [done|]. split; [done|]. apply not_elem_of_empty.
Qed.

(** Which results end a match. Under a fresh key, results are accepted exactly in a
    match, from its installed authority, naming its election, after at most an hour, with
    exactly one plausible row for every rider of the roster and no other, and co-signed
    only by distinct riders other than the authority. The lobby is then closing and the key
    answers again for the same actor and request, and only for them. *)
Theorem results_accepted_iff (s : StoredLobby) (request : SubmitResultsRequest) (actor : PlayerId) (key fingerprint : list Z)
    (dry : bool) (now : UnixMillis) (Hok : lobby_ok s) (Hkey : results_replays s !! key = None) :
  let r := submit_results s request actor key fingerprint dry now in
  (is_ok (answer r) = true <->
    state (lobby s) = InMatch /\
    (exists e, last_election s = Some e /\ winner_player_id e = submitted_by request /\ input_hash e = results_input_hash request) /\
    (match_duration_s request <> 0 /\ match_duration_s request <= MAX_MATCH_DURATION_S) /\
    (scored_player <$> final_scores request) ≡ₚ player_ids s /\ Forall plausible (final_scores request) /\
    NoDup (co_signers request) /\ (forall p, p ∈ co_signers request -> p ∈ player_ids s /\ p <> submitted_by request)) /\
  (forall s', written r = Some s' -> state (lobby s') = Closing /\
    forall actor' fingerprint' later, is_ok (answer (submit_results s' request actor' key fingerprint' dry later)) =
      bool_decide (actor' = actor) && bool_decide (fingerprint' = fingerprint)).
Proof.
  cbn zeta. unfold submit_results at 1 2. rewrite Hkey. pose proof (validate_results_iff s request dry (ok_roster _ Hok)) as Hv.
  destruct (state (lobby s)) eqn:Hst; try (split; [split; [done|by intros [? _]]|done]). cbn [negb].
  destruct (last_election s) as [e|]; [|split; [split; [done|by intros (_ & (? & ? & _) & _)]|done]].
  destruct (bool_decide_reflect (winner_player_id e = submitted_by request)) as [Hw|Hw]; cbn [negb];
    [|split; [split; [done|naive_solver]|done]].
  destruct (bool_decide_reflect (input_hash e = results_input_hash request)) as [Hh|Hh]; cbn [negb];
    [|split; [split; [done|naive_solver]|done]].
  destruct (validate_results s request dry) as [[]|]; cbn [proceed].
  - unfold transition. rewrite Hst. cbn [proceed validate_transition can_transition_to]. cbn. split.
    + split; [|done]. intros _. split; [done|]. split; [by exists e|]. by apply Hv.
    + intros s' [= <-]. split; [done|]. intros actor' fp' later. unfold submit_results. cbn. rewrite lookup_insert_eq. unfold replay_matches. cbn.
      rewrite (bool_decide_ext (actor = actor') (actor' = actor)), (bool_decide_ext (fingerprint = fp') (fp' = fingerprint)) by done.
      by destruct (bool_decide _ && bool_decide _).
  - split; [|done]. split; [done|]. intros (_ & _ & Hall). by apply Hv in Hall.
Qed.

Definition demo_scores : list FinalScore := [mkFinalScore (demo_rider 2) 300 1 0 2; mkFinalScore (demo_rider 1) 500 2 1 1].
Definition demo_results : SubmitResultsRequest := mkSubmitResultsRequest (demo_rider 1) [demo_rider 2] demo_scores 600 demo_hash.
Lemma demo_match_state : state (lobby demo_match) = InMatch.
Proof. vm_compute. reflexivity. Qed.
Lemma demo_match_elected : (fun e => (winner_player_id e, input_hash e)) <$> last_election demo_match = Some (demo_rider 1, demo_hash).
Proof. vm_compute. reflexivity. Qed.
Lemma demo_match_riders : player_ids demo_match = [demo_rider 1; demo_rider 2].
Proof. vm_compute. reflexivity. Qed.
Lemma demo_match_unreported : results_replays demo_match !! [3] = None.
Proof. vm_compute. reflexivity. Qed.
Lemma results_accepted_iff_witness :
  is_ok (answer (submit_results demo_match demo_results (demo_rider 1) [3] [4] true 45000)) = true.
Proof.
  apply (proj1 (results_accepted_iff demo_match demo_results (demo_rider 1) [3] [4] true 45000 service_demo_match_ok demo_match_unreported)).
  split; [exact demo_match_state|]. split.
  { pose proof demo_match_elected as He. destruct (last_election demo_match) as [e|]; [|discriminate He]. exists e. split; [reflexivity|].
    pose proof (inj Some (winner_player_id e, input_hash e) (demo_rider 1, demo_hash) He) as Hp.
    split; [exact (f_equal fst Hp)|exact (f_equal snd Hp)]. }
  split; [split; [discriminate|vm_compute; discriminate]|]. rewrite demo_match_riders. split; [apply perm_swap|]. split.
  { repeat constructor; vm_compute; discriminate. }
  split; [apply NoDup_singleton|]. intros p Hp. apply list_elem_of_singleton in Hp as ->. split; [right; left|discriminate].
Defined.

(** ** Findings *)

(** The election of a joined roster is held for wire 1.2, which no joined rider speaks:
    every candidate is ineligible, and the election is always the degraded one. *)
Lemma candidate_mismatch c now expected size : major (cand_wire_version c) <> major expected ->
  ineligibility_reasons (scored_row now expected size c) <> [].
Proof.
  intros Hne. cbn. unfold ineligibility.
  assert (Hc : is_compatible_with (cand_wire_version c) expected = false).
  { unfold is_compatible_with, compatibility_with. by destruct (Z.eqb_spec (major (cand_wire_version c)) (major expected)). }
  rewrite Hc. cbn [negb]. intros Hnil. apply app_eq_nil in Hnil as [_ Hnil]. apply app_eq_nil in Hnil as [_ Hnil].
  apply app_eq_nil in Hnil as [_ Hnil]. done.
Qed.
Lemma service_elections_degraded s now e : lobby_ok s -> elect_authority (authority_candidates s) now = Ok e -> degraded e = true.
Proof.
  intros [[_ _ _ Hw] _ _]. unfold elect_authority, elect_authority_for_wire. destruct (_ <? 2)%nat; [done|]. intros He.
  apply elect_Ok_iff in He. pose proof (run_sorted _ _ _ _ _ He) as Hs. apply sorted_candidates_Ok in Hs as (_ & Hp & _).
  rewrite (run_degraded _ _ _ _ _ He). apply Nat.eqb_eq.
  destruct (eligible_scores (scored_candidates e)) as [|x l] eqn:Hel; [done|]. exfalso.
  assert (Hx : x ∈ eligible_scores (scored_candidates e)) by (rewrite Hel; left).
  apply elem_of_eligible_scores in Hx as (r & Hr & Hnil & _).
  rewrite (run_scored _ _ _ _ _ He) in Hr. apply elem_of_scored in Hr as (c & Hc & _ & ->).
  revert Hnil. apply candidate_mismatch. rewrite Hp in Hc. unfold authority_candidates in Hc.
  apply list_elem_of_omap in Hc as (p & Hpl & Hsome). rewrite Forall_forall in Hw. specialize (Hw p Hpl).
  destruct (measurements s !! player_id p); [|done]. cbn in Hsome. injection Hsome as <-. cbn. rewrite Hw. done.
Qed.

(** Once a rider has left a match, no heartbeat and no results are accepted any more: the
    match can only be closed or time out. *)
Definition departed (s : StoredLobby) : Prop := is_closing (state (lobby s)) = true \/ state (lobby s) = InMatch /\ last_election s = None.
Lemma unelected_match_writes s r dry now s' : s' ∈ writes_of s r dry now -> state (lobby s) = InMatch -> last_election s = None ->
  last_election s' = None.
Proof.
  intros Hw Hst Hl.
  assert (Hopt : forall o : option StoredLobby, s' ∈ option_list o -> o = Some s').
  { intros [x|]; cbn; [by intros ->%list_elem_of_singleton|by intros ?%not_elem_of_nil]. }
  assert (Hcrown : same_crown s s' -> last_election s' = None) by (intros (-> & _); done).
  destruct r; cbn in Hw; try apply Hopt in Hw.
  - apply Hcrown, core_crown. by eapply invite_ok.
  - unfold join_lobby in Hw. destruct (join_admission _ _ _ _ _ _ _ _ _) as [r|s1] eqn:Hadm.
    + apply commit_written in Hw. apply Hcrown, core_crown. by eapply join_refused_core.
    + apply join_admitted in Hadm as (_ & Hj & _). by rewrite Hst in Hj.
  - by apply leave_step in Hw as [? _].
  - revert Hw. unfold submit_measurements. destruct (negb _); [refused|]. destruct (negb _); [refused|]. destruct (_ && _); [refused|].
    destruct (into_validated_sample _ _ _) as [sample|]; [|refused]. intros (s1 & H & [= ->])%proceed_written. unfold record_report in H.
    destruct (unready dry s) as [s2|] eqn:Hu; [|done]. apply unready_Ok in Hu as [[-> _]|[_ Hr]]; [|congruence].
    match type of H with context [refresh_idle_expiry now ?x] => set (s3 := refresh_idle_expiry now x) in H end.
    assert (Hs3 : state (lobby s3) = InMatch /\ last_election s3 = None) by (subst s3; by destruct (negb legacy)).
    destruct Hs3 as [Hst3 Hl3]. rewrite Hst3 in H. by apply Ok_inj in H as <-.
  - revert Hw. unfold elect_lobby_authority. rewrite Hst. cbn. rewrite Hl. done.
  - revert Hw. unfold start_lobby. intros (_ & _ & H)%proceed_written. revert H. rewrite Hst. cbn [is_playing]. destruct (start_replays s !! key).
    { destruct (negb _); refused. }
    destruct (is_some_and _ _); [refused|]. by intros [= <-].
  - revert Hw. unfold authority_heartbeat. rewrite Hst. cbn [is_playing negb]. unfold heartbeat_claim. by rewrite Hl.
  - apply Hcrown. by eapply results_step.
  - apply list_elem_of_singleton in Hw as ->. destruct (maintain_step access now s) as [H|[H _]]; [by apply Hcrown|done].
Qed.
Lemma closing_path st st' : rtc lobby_step st st' -> is_closing st = true -> is_closing st' = true.
Proof. induction 1 as [|x y z Hxy _ IH]; [done|]. intros Hx. apply IH. apply lobby_step_iff in Hxy. by destruct x, y. Qed.
Lemma match_path st st' : rtc lobby_step st st' -> st = InMatch -> st' = InMatch \/ is_closing st' = true.
Proof.
  intros H ->. inversion H as [|x y z Hxy Hyz]; subst; [by left|]. right. eapply closing_path; [done|].
  apply lobby_step_iff in Hxy. by destruct y.
Qed.
Lemma departed_step s s' : lobby_ok s -> departed s -> service_step s s' -> departed s'.
Proof.
  intros Hok Hd Hstep. pose proof (service_step_ok _ _ Hok Hstep) as [_ Hpath].
  destruct Hd as [Hcl|[Hst Hl]]; [left; by eapply closing_path|].
  destruct (match_path _ _ Hpath Hst) as [Hst'|]; [|by left]. right. split; [done|]. destruct Hstep as [r dry now s1 Hw].
  by eapply unelected_match_writes.
Qed.
Lemma departed_run s s' : lobby_ok s -> departed s -> rtc service_step s s' -> departed s'.
Proof.
  intros Hok Hd H. induction H as [|s1 s2 s3 H _ IH]; [done|]. apply IH; [by apply (service_step_ok s1)|by eapply departed_step].
Qed.
Lemma departed_refuses s : departed s -> (forall request actor dry now, is_ok (answer (authority_heartbeat s request actor dry now)) = false) /\
  (forall request actor key fp dry now, results_replays s !! key = None -> is_ok (answer (submit_results s request actor key fp dry now)) = false).
Proof.
  intros Hd. split.
  - intros. unfold authority_heartbeat. destruct Hd as [Hc|[-> Hl]]; [by destruct (state (lobby s))|]. cbn [is_playing negb].
    unfold heartbeat_claim. by rewrite Hl.
  - intros * Hk. unfold submit_results. rewrite Hk. destruct Hd as [Hc|[-> Hl]]; [by destruct (state (lobby s))|]. cbn [negb]. by rewrite Hl.
Qed.
Lemma match_dies_with_a_leaver s player cleanup dry now s' s'' : lobby_ok s -> state (lobby s) = InMatch ->
  written (leave_lobby s player cleanup dry now) = Some s' -> rtc service_step s' s'' ->
  (forall request actor dry now, is_ok (answer (authority_heartbeat s'' request actor dry now)) = false) /\
  (forall request actor key fp dry now, results_replays s'' !! key = None ->
     is_ok (answer (submit_results s'' request actor key fp dry now)) = false).
Proof.
  intros Hok Hst Hw Hrun. pose proof (leave_ok _ _ _ _ _ _ Hw Hok) as [Hok' Hpath]. apply departed_refuses.
  apply (departed_run s'); [done| |done]. destruct (match_path _ _ Hpath Hst); [|by left]. right. split; [done|].
  by apply leave_step in Hw as [? _].
Qed.
