(* ===== verification/ServiceCleanup.v ===== *)
(** * Cleaning up a lobby's network ([spurfire-server/src/service.rs])

    The cleanup of a lobby with its calls of the provider and the store: the intent saved
    before any destructive call, the two observations of absence with the process's
    monotonic clock between them, the erasure of the child's secret, and the requests and
    timers that start it. What the provider, the store and the clocks answer is an input;
    the calls made and the records saved are logged in order. *)

From Stdlib Require Import Strings.String.
From stdpp Require Import gmap.
From S2P Require Import Prelude MachineInt Ordered Clock Bytes Identifiers LobbyLifecycle Model Session Rehearsal Election.
From S2P Require Import NetworkInspection Store NetworkView LobbyService.
Open Scope Z_scope.

Definition CLEANUP_ABSENCE_MIN_SEPARATION_MS : Z := 5000.

(** ** Answers and calls *)

Record CleanupAnswers := mkCleanupAnswers {
  intent_saved : bool;
  anchor_reset_saved : bool;
  presence_reset_saved : bool;
  observation_saved : bool;
  proof_saved : bool;
  asked_at : Z;
  answered_at : Z;
  answered_wall : UnixMillis;
  erased_wall : UnixMillis;
  presence : option (result bool ProviderError);
  erasure : option (result unit ProviderError);
  provider_answer : result CleanupOutcome ProviderError;
}.
Inductive CleanupEvent :=
| Saved (record : StoredLobby)
| CalledCleanup (credentials : list StoredCredential)
| SawPresence (provider_id : list Z) (present : bool) (at_ : Z)
| ErasedSecret (provider_id : list Z).
(** [absence_observation_starts] of one lobby: the generation and the instant. *)
Definition AbsenceAnchor : Type := option (Z * Z).
Definition CleanupRun : Type := StoredLobby * AbsenceAnchor * list CleanupEvent.

(** A write: logged when the store took it. *)
Definition saving (saved : bool) (stored : StoredLobby) : list CleanupEvent := if saved then [Saved stored] else [].
Definition remediate (reason : option string) (stored : StoredLobby) : StoredLobby :=
  let stored := stored <| sl_lifecycle := ManualRemediation |> in
  match reason with Some reason => with_reason (Some (bytes_of_string reason)) stored | None => stored end.
Definition pending (stored : StoredLobby) : StoredLobby := stored <| sl_cleanup_pending := true |>.
Definition clear_absence_proof (stored : StoredLobby) : StoredLobby :=
  stored <| first_absence_observed_at := None |> <| sl_absence_confirmed_at := None |> <| absence_observation_generation := None |>
    <| absence_observation_provider_id := None |> <| absence_monotonic_verified := false |>.
Definition observe_absence (at_ : UnixMillis) (provider_id : list Z) (stored : StoredLobby) : StoredLobby :=
  pending (stored <| first_absence_observed_at := Some at_ |> <| absence_observation_generation := Some (sl_generation stored) |>
    <| absence_observation_provider_id := Some provider_id |> <| absence_monotonic_verified := false |>).
Definition confirm_absence (at_ : UnixMillis) (provider_id : list Z) (stored : StoredLobby) : StoredLobby :=
  pending (stored <| sl_absence_confirmed_at := Some at_ |> <| absence_observation_generation := Some (sl_generation stored) |>
    <| absence_observation_provider_id := Some provider_id |> <| absence_monotonic_verified := true |>).
Definition complete_absence (at_ : UnixMillis) (stored : StoredLobby) : StoredLobby :=
  with_reason None (stored <| child_secret_erased_at := Some at_ |> <| sl_lifecycle := DedicatedAbsent |> <| sl_cleanup_pending := false |>).

(** ** Observing absence *)

(** The second observation: the proof is saved, then the secret erased. *)
Definition confirm_and_erase (a : CleanupAnswers) (provider_id : list Z) (anchor : AbsenceAnchor) (stored : StoredLobby) : CleanupRun :=
  let stored := confirm_absence (answered_wall a) provider_id stored in
  let log := saving (proof_saved a) stored in
  if negb (proof_saved a)
  then (remediate (Some "absence_proof_persistence_failed"%string) (stored <| absence_monotonic_verified := false |>), anchor, log)
  else
    match erasure a with
    | Some (Ok _) => (complete_absence (erased_wall a) stored, None, log ++ [ErasedSecret provider_id])
    | Some (Err error) => (with_reason (Some (provider_state_reason error)) (pending stored), anchor, log)
    | None => (with_reason (Some (bytes_of_string "child_secret_erasure_pending")) (pending stored), anchor, log)
    end.
(** The provider's answer about the network's presence. *)
Definition absence_answered (a : CleanupAnswers) (provider_id : list Z) (anchor : AbsenceAnchor) (stored : StoredLobby) : CleanupRun :=
  match presence a with
  | Some (Ok true) =>
      let stored := pending (clear_absence_proof stored) in
      let log := SawPresence provider_id true (answered_at a) :: saving (presence_reset_saved a) stored in
      (if presence_reset_saved a then stored else remediate (Some "absence_reset_persistence_failed"%string) stored, None, log)
  | Some (Ok false) =>
      if is_none (first_absence_observed_at stored) then
        let stored := observe_absence (answered_wall a) provider_id stored in
        let log := SawPresence provider_id false (answered_at a) :: saving (observation_saved a) stored in
        if observation_saved a then (stored, Some (sl_generation stored, answered_at a), log)
        else (remediate (Some "absence_observation_persistence_failed"%string) (clear_absence_proof stored), None, log)
      else
        let '(stored, anchor, log) := confirm_and_erase a provider_id anchor stored in
        (stored, anchor, SawPresence provider_id false (answered_at a) :: log)
  | Some (Err IdentityMismatch) =>
      (remediate (Some "provider_identity_mismatch_manual_remediation"%string) (pending stored), anchor, [])
  | Some (Err _) | None => (pending stored, anchor, [])
  end.
Definition reconcile_dedicated_absence (a : CleanupAnswers) (anchor : AbsenceAnchor) (stored : StoredLobby) : CleanupRun :=
  match provider_identity stored with
  | None => (remediate (Some "provider_identity_missing_manual_remediation"%string) (pending stored), anchor, [])
  | Some identity =>
      match identity_tailnet_id identity with
      | None => (remediate None (pending stored), anchor, [])
      | Some provider_id =>
          if is_none (first_absence_observed_at stored) then absence_answered a provider_id anchor stored
          else
            match (match anchor with
                   | Some (generation, started) => if generation =? sl_generation stored then Some started else None
                   | None => None
                   end) with
            | Some started =>
                if asked_at a - started <? CLEANUP_ABSENCE_MIN_SEPARATION_MS then (pending stored, anchor, [])
                else absence_answered a provider_id anchor stored
            | None =>
                let stored := clear_absence_proof stored in
                if negb (anchor_reset_saved a)
                then (remediate (Some "absence_reset_persistence_failed"%string) stored, anchor, [])
                else
                  let '(result, anchor, log) := absence_answered a provider_id anchor stored in
                  (result, anchor, Saved stored :: log)
            end
      end
  end.

(** ** The cleanup *)

(** The first cleanup forgets the measurements and routes. *)
Definition forget_measurements (stored : StoredLobby) : StoredLobby :=
  if is_none (cleanup_requested_at stored) then
    clear_measurements (on_lobby (fun l => l <| roster := map (fun p => p <| player_route_summary := mkRouteSummary 0 0 0 |>) (roster l) |>) stored)
  else stored.
Definition unrevoked (stored : StoredLobby) : list StoredCredential :=
  filter (fun credential => credential_revoked credential = false) (btree_values (credentials stored)).
Definition request_cleanup (now : UnixMillis) (stored : StoredLobby) : StoredLobby :=
  pending (stored <| cleanup_requested_at := or_insert (cleanup_requested_at stored) now |> <| sl_lifecycle := CleanupRequested |>).
(** The provider's cleanup and its result; the [unreachable!] leaves the record. *)
Definition call_cleanup (a : CleanupAnswers) (now : UnixMillis) (finalize : bool) (stored : StoredLobby) : StoredLobby * list CleanupEvent :=
  let cleaned := default stored (apply_cleanup_result now (provider_answer a) true stored) in
  (finalize_lobby_cleanup now finalize cleaned, [CalledCleanup (unrevoked stored)]).
Definition cleanup_resources (a : CleanupAnswers) (anchor : AbsenceAnchor) (now : UnixMillis) (finalize : bool) (stored : StoredLobby) : CleanupRun :=
  let stored := forget_measurements stored in
  let dedicated := is_per_lobby (lobby stored) in
  match sl_lifecycle stored with
  | DedicatedAbsent | SharedResourcesClean => (finalize_lobby_cleanup now finalize stored, anchor, [])
  | lifecycle =>
      if dedicated && match lifecycle with VerifyingAbsence => true | _ => false end then
        let '(stored, anchor, log) := reconcile_dedicated_absence a anchor stored in
        (finalize_lobby_cleanup now finalize stored, anchor, log)
      else if negb (dry_run stored) && dedicated && match lifecycle with CreateUnknown | ManualRemediation => true | _ => false end
      then (finalize_lobby_cleanup now finalize (pending (stored <| sl_lifecycle := ManualRemediation |>)), anchor, [])
      else if negb (dry_run stored) then
        let stored := request_cleanup now stored in
        if negb (intent_saved a)
        then (finalize_lobby_cleanup now finalize (remediate (Some "cleanup_intent_persistence_failed"%string) stored), anchor, [])
        else let '(result, log) := call_cleanup a now finalize stored in (result, anchor, Saved stored :: log)
      else let '(result, log) := call_cleanup a now finalize stored in (result, anchor, log)
  end.

(** ** What starts a cleanup *)

(** Each is the record to clean, and whether the cleanup finalises it; [None] when nothing
    is to be done. *)
Definition cleanup_expired (now : UnixMillis) (stored : StoredLobby) : option (StoredLobby * bool) :=
  let '(stored, transitioned) := apply_time_transitions stored now in
  if needs_cleanup transitioned stored then Some (stored, match state (lobby stored) with Closing => true | _ => false end) else None.
Definition begin_protected_cleanup (generation : Z) (stored : StoredLobby) : option (StoredLobby * bool) :=
  if negb (dry_run stored) && (sl_generation stored =? generation) then
    Some ((pending (on_lobby (fun l => l <| state := Closing |>) stored)) <| sl_lifecycle := CleanupRequested |>, true)
  else None.
(** [delete_lobby] after its authorization; its first write, when it closes the lobby. *)
Definition delete_lobby (stored : StoredLobby) (dry : bool) : result (option (StoredLobby * bool * list CleanupEvent)) ApiError :=
  match state (lobby stored) with
  | Destroyed => Ok (if sl_cleanup_pending stored then Some (stored, true, []) else None)
  | Closing | Failed | Expired => Ok (Some (stored, true, []))
  | _ => match transition Closing dry stored with Err e => Err e | Ok stored => Ok (Some (stored, true, [Saved stored])) end
  end.
(** A cleanup with the caller's last write. *)
Definition run_cleanup (a : CleanupAnswers) (anchor : AbsenceAnchor) (now : UnixMillis) (finalize final_saved : bool) (stored : StoredLobby)
    : CleanupRun :=
  let '(stored, anchor, log) := cleanup_resources a anchor now finalize stored in
  (stored, anchor, log ++ saving final_saved stored).
(** The record the store holds after a log. *)
Definition last_saved (stored : StoredLobby) (log : list CleanupEvent) : StoredLobby :=
  fold_left (fun s event => match event with Saved s' => s' | _ => s end) log stored.
