(* ===== verification/ServiceCleanupRun.v ===== *)
(** * What a cleanup guarantees

    A dedicated network is recorded absent only after two absences five seconds apart on
    the process's own clock, whatever fails in between, and nothing is destroyed before the
    intent is saved. *)

From Stdlib Require Import Strings.String.
From stdpp Require Import gmap.
From S2P Require Import Prelude MachineInt Ordered Clock Bytes Identifiers WireVersion LobbyLifecycle Model Session Rehearsal Election.
From S2P Require Import NetworkInspection ServerCrypto Store NetworkView LobbyService LobbyServiceRun ServiceCleanup.
Open Scope Z_scope.

(** ** Runs of one lobby *)

(** How a record comes to be cleaned, and whether the cleanup finalises it. *)
Inductive cleanup_entry (d : StoredLobby) : StoredLobby -> bool -> Prop :=
| entry_maintained access now s written : maintain access now d = (s, true, written) -> cleanup_entry d s false
| entry_expired now s finalize : cleanup_expired now d = Some (s, finalize) -> cleanup_entry d s finalize
| entry_protected generation s finalize : begin_protected_cleanup generation d = Some (s, finalize) -> cleanup_entry d s finalize
| entry_deleted dry s finalize log : delete_lobby d dry = Ok (Some (s, finalize, log)) -> cleanup_entry d s finalize
| entry_results request actor key fp dry now s : written (submit_results d request actor key fp dry now) = Some s -> cleanup_entry d s true.
(** The saved record, the process's anchor and monotonic clock, and the log. *)
Record Service := mkService {
  durable : StoredLobby;
  absence_anchor : AbsenceAnchor;
  monotonic : Z;
  calls : list CleanupEvent;
}.
Inductive cleanup_step (w : Service) : Service -> Prop :=
| step_cleanup stored finalize a now first_saved final_saved result anchor log :
    cleanup_entry (durable w) stored finalize ->
    monotonic w <= asked_at a <= answered_at a ->
    run_cleanup a (absence_anchor w) now finalize final_saved stored = (result, anchor, log) ->
    cleanup_step w (mkService (last_saved (durable w) (saving first_saved stored ++ log)) anchor (answered_at a)
                      (calls w ++ saving first_saved stored ++ log))
| step_request r dry now s : s ∈ writes_of (durable w) r dry now ->
    cleanup_step w (mkService s (absence_anchor w) (monotonic w) (calls w ++ [Saved s]))
| step_restart : cleanup_step w (mkService (durable w) None (monotonic w) (calls w))
| step_wait later : monotonic w <= later -> cleanup_step w (mkService (durable w) (absence_anchor w) later (calls w)).

(** ** The lifecycle under requests *)

Definition not_absent (s : StoredLobby) : Prop := sl_lifecycle s <> DedicatedAbsent.
(** A request keeps the identity of the network, and cannot make it absent. *)
Record same_network (s s' : StoredLobby) : Prop := {
  net_generation : sl_generation s' = sl_generation s;
  net_identity : network_identity s' = network_identity s;
  net_tailnet : tailnet s' = tailnet s;
  net_mode : provisioning_mode (lobby s') = provisioning_mode (lobby s);
  net_dry : dry_run s' = dry_run s;
  net_absent : sl_lifecycle s' = DedicatedAbsent -> sl_lifecycle s = DedicatedAbsent;
}.
Definition network_of (s : StoredLobby) := (sl_generation s, network_identity s, tailnet s, provisioning_mode (lobby s), dry_run s, sl_lifecycle s).
Lemma network_same s s' : network_of s' = network_of s -> same_network s s'.
Proof. intros [= ? ? ? ? ? Hl]. constructor; congruence. Qed.
Lemma same_network_refl s : same_network s s.
Proof. by apply network_same. Qed.
Lemma same_network_trans s1 s2 s3 : same_network s1 s2 -> same_network s2 s3 -> same_network s1 s3.
Proof. intros [] []. constructor; [congruence..|auto]. Qed.

Lemma unready_network dry s s' : unready dry s = Ok s' -> network_of s' = network_of s.
Proof. by intros [[-> _]|[-> _]]%unready_Ok. Qed.
Lemma apply_election_network e now dry s s' : apply_election e now dry s = Ok s' -> network_of s' = network_of s.
Proof.
  unfold apply_election. cbn. destruct (state (lobby s)); try (intros H; apply Ok_inj in H as <-; done).
  match goal with |- context [if ?b then _ else _] => destruct b end; [intros [-> _]%transition_Ok|intros H; apply Ok_inj in H as <-]; done.
Qed.
Lemma recompute_network now dry s s' : recompute_authority now dry s = Ok s' -> network_of s' = network_of s.
Proof. intros [[_ ->]|(e & _ & _ & H)]%recompute_cases; [done|by eapply apply_election_network]. Qed.
Lemma take_seat_network request dry now s s' : take_seat request dry now s = Ok s' -> network_of s' = network_of s.
Proof.
  unfold take_seat, retake_seat, roster_changed. destruct (negb _).
  - destruct (unready dry (bump_revision s)) as [s1|] eqn:Hu; [|done]. intros H. apply Ok_inj in H as <-. apply unready_network in Hu. done.
  - intros H%unready_network. done.
Qed.
Lemma fail_mint_network player error dry now s s' : fail_mint player error dry now s = Ok s' -> same_network s s'.
Proof.
  unfold fail_mint. match goal with |- context [is_joinable (state (lobby ?x))] => set (s0 := x) end. intros H.
  assert (Hs0 : network_of s0 = network_of s) by (by destruct error).
  destruct (if is_joinable (state (lobby s0)) then transition Failed dry s0 else Ok s0) as [s1|] eqn:Ht; [|done]. apply Ok_inj in H as <-.
  assert (Hs1 : network_of s1 = network_of s0).
  { destruct (is_joinable _); [by apply transition_Ok in Ht as [-> _]|by apply Ok_inj in Ht as <-]. }
  apply (same_network_trans _ s1); [apply network_same; congruence|].
  unfold note_pending_cleanup, note_policy_gate. destruct error as [| | |? ? ? []| | |]; cbn; split_ifs; by constructor.
Qed.
Lemma mark_first_network now s : network_of (mark_first_live now s).1 = network_of s.
Proof. unfold mark_first_live. by destruct (find _ _) as [[p c]|]. Qed.
Lemma cleanup_network now r full s s' : apply_cleanup_result now r full s = Some s' -> same_network s s'.
Proof.
  unfold apply_cleanup_result. intros H.
  match type of H with context [mark_first_live now ?x] => set (s1 := x) in H end.
  assert (Hc1 : network_of s1 = network_of s).
  { subst s1. destruct r as [o|e]; [unfold note_outcome; by destruct (full && outcome_delete_acknowledged o), (full && outcome_secret_erased o)|by destruct (needs_remediation e)]. }
  pose proof (mark_first_network now s1) as Hc2. destruct (mark_first_live now s1) as [s2 pending]. cbn in Hc2.
  match type of H with mark_riders <$> ?x = _ => destruct x as [s3|] eqn:H3 end; [|done]. cbn in H. injection H as <-.
  apply (same_network_trans _ s2); [apply network_same; congruence|].
  apply (same_network_trans _ s3); [|by apply network_same].
  destruct (full && negb (dry_run s2)); [|injection H3 as <-; by apply network_same].
  destruct (cleanup_lifecycle _ _ _) as [[l p]|] eqn:Hl; [|done]. injection H3 as <-. constructor; try done. cbn. intros ->.
  unfold cleanup_lifecycle in Hl. destruct (provisioning_mode _); [|done|]; injection Hl; repeat case_match; done.
Qed.
Lemma join_network s request i dry now s' : s' ∈ (join_lobby s request i dry now).1 -> same_network s s'.
Proof.
  unfold join_lobby. intros H.
  destruct (join_admission _ _ _ _ _ _ _ _ _) as [r|s1] eqn:Hadm.
  { apply commit_written in H. apply network_same. revert Hadm H. unfold join_admission. destruct (join_replays s !! _).
    { destruct (is_some_and _ _); [by intros [= <-]|]. destruct (_ || _); by intros [= <-]. }
    destruct (negb _); [by intros [= <-]|]. destruct (join_validate request M3_WIRE_VERSION) as [[]|]; [|by intros [= <-]].
    destruct (forallb _ _); [by intros [= <-]|]. destruct (negb _); [by intros [= <-]|].
    destruct (find _ _) as [p|].
    - destruct (negb _); [by intros [= <-]|]. destruct (credentials s !! _) as [c|]; [destruct (live_credential now c); [intros [= <-]; by intros [= <-]|]|];
        (destruct (is_some_and _ _); [by intros [= <-]|]); (destruct (enforce_join_rate_limit _ _ _ _); [done|by intros [= <-]]).
    - destruct (_ <=? _); [by intros [= <-]|]. destruct (is_some_and _ _); [by intros [= <-]|].
      destruct (is_some_and _ _); [by intros [= <-]|]. destruct (enforce_join_rate_limit _ _ _ _); [done|by intros [= <-]]. }
  assert (Hs1 : network_of s1 = network_of s).
  { revert Hadm. unfold join_admission. destruct (join_replays s !! _); [done|]. destruct (negb (dry_run s || _)); [done|].
    destruct (join_validate request M3_WIRE_VERSION) as [[]|]; [|done].
    destruct (forallb is_whitespace _); [done|]. destruct (negb (is_joinable _)); [done|].
    match goal with |- context [match ?x with Some r => inl r | None => _ end] => destruct x end; [done|].
    destruct (is_some_and _ _); [done|]. unfold enforce_join_rate_limit.
    match goal with |- context [if ?b then Err _ else _] => destruct b end; [done|]. by intros [= <-]. }
  destruct (negb (join_permit i)); [by apply not_elem_of_nil in H|].
  destruct (reserve_issuance _ _ _ _ _ _) as [s2|] eqn:Hres; [|by apply not_elem_of_nil in H].
  assert (Hs2 : network_of s2 = network_of s1).
  { revert Hres. unfold reserve_issuance. destruct (join_invitation i) as [v|]; [|by intros [= <-]]. unfold consume_invitation.
    destruct (consume_any _ _) as [caps []]; [by intros [= <-]|done]. }
  destruct (reservation_failed i); [by apply not_elem_of_nil in H|].
  destruct (commit _ (issue_failed i) dry) as [ws a] eqn:Hcommit. cbn in H.
  apply list_elem_of_In in H as [<-|H%list_elem_of_In]; [apply network_same; congruence|].
  replace ws with (commit (finish_join request i dry now s2) (issue_failed i) dry).1 in H by (by rewrite Hcommit).
  apply commit_written in H. apply (same_network_trans _ s2); [apply network_same; congruence|].
  unfold finish_join in H. destruct (join_minted i) as [minted|error].
  - apply proceed_written in H as (s3 & H & [= ->]). unfold issue_credential in H.
    destruct (take_seat _ _ _ _) as [s4|] eqn:Hseat; [|done]. apply Ok_inj in H as <-. apply take_seat_network in Hseat.
    apply network_same. exact Hseat.
  - destruct (fail_mint _ _ _ _ _) as [s3|] eqn:Hf; [|done]. injection H as ->. by eapply fail_mint_network.
Qed.
Lemma maintain_network access now s : same_network s (maintain access now s).1.1.
Proof.
  unfold maintain.
  match goal with |- context [match (if needs_provider s then access else None) with _ => _ end] =>
    destruct (match (if needs_provider s then access else None) with
              | Some error => (fail_access error now s, true) | None => (s, false) end) as [s1 failed] eqn:H1 end.
  assert (Hs1 : same_network s s1).
  { destruct (if needs_provider s then access else None) as [p|]; injection H1 as <- _; [|apply same_network_refl].
    unfold fail_access. destruct (negb _ && _); by constructor. }
  assert (H2 : network_of (apply_time_transitions s1 now).1 = network_of s1).
  { unfold apply_time_transitions. destruct (time_target s1 now) as [[next reason]|]; [|done]. by destruct (validate_transition _ _). }
  destruct (apply_time_transitions s1 now) as [s2 timed]. cbn in H2.
  assert (H3 : network_of (refresh_freshness_state s2 now).1 = network_of s2).
  { unfold refresh_freshness_state. destruct (state (lobby s2)); try done. by destruct (_ && _). }
  destruct (refresh_freshness_state s2 now) as [s3 stale]. cbn in *. apply (same_network_trans _ s1); [done|]. apply network_same. congruence.
Qed.
Lemma results_network s request actor key fp dry now s' : written (submit_results s request actor key fp dry now) = Some s' -> same_network s s'.
Proof.
  unfold submit_results. destruct (results_replays s !! key); [destruct (negb _); refused|].
  destruct (negb _); [refused|]. destruct (last_election s); [|refused].
  destruct (negb (bool_decide _)); [refused|]. destruct (negb (bool_decide _)); [refused|].
  intros (_ & _ & (s1 & [-> Hcan]%transition_Ok & H)%proceed_written)%proceed_written. injection H as <-. by apply network_same.
Qed.
Lemma request_network s r dry now s' : s' ∈ writes_of s r dry now -> same_network s s'.
Proof.
  intros Hw.
  assert (Hopt : forall o : option StoredLobby, s' ∈ option_list o -> o = Some s').
  { intros [x|]; cbn; [by intros ->%list_elem_of_singleton|by intros ?%not_elem_of_nil]. }
  destruct r; cbn in Hw; try apply Hopt in Hw.
  - apply network_same. revert Hw. unfold create_invitation. destruct (negb _); [refused|].
    intros (_ & _ & (_ & _ & H)%proceed_written)%proceed_written. destruct (_ <=? _)%nat; [done|]. by injection H as <-.
  - by eapply join_network.
  - revert Hw. unfold leave_lobby. destruct (negb _); [refused|]. destruct (negb _); [refused|].
    destruct (apply_cleanup_result now cleanup false s) as [s1|] eqn:Hc; [|refused]. apply cleanup_network in Hc.
    intros (s2 & Hu & [= <-])%proceed_written. apply unready_network in Hu. apply (same_network_trans _ s1); [done|]. apply network_same. exact Hu.
  - revert Hw. unfold submit_measurements. destruct (negb _); [refused|]. destruct (negb _); [refused|].
    destruct (_ && _); [refused|]. destruct (into_validated_sample _ _ _) as [sample|]; [|refused].
    intros (s1 & H & [= ->])%proceed_written. unfold record_report in H. destruct (unready dry s) as [s2|] eqn:Hu; [|done].
    apply unready_network in Hu. match type of H with context [refresh_idle_expiry now ?x] => set (s3 := refresh_idle_expiry now x) in H end.
    apply network_same. transitivity (network_of s3); [|rewrite <- Hu; by destruct (negb legacy)].
    destruct (state (lobby s3)); try (by eapply recompute_network). by apply Ok_inj in H as <-.
  - revert Hw. unfold elect_lobby_authority. destruct (negb _); [refused|]. intros (s1 & Hs1 & H)%proceed_written.
    assert (s1 = s') as -> by (destruct (last_election s1); [by injection H|done]). apply network_same.
    match type of Hs1 with (if ?b then _ else _) = _ => destruct b end; [by eapply recompute_network|by apply Ok_inj in Hs1 as <-].
  - revert Hw. unfold start_lobby. intros (_ & _ & H)%proceed_written. revert H. destruct (start_replays s !! key).
    { destruct (negb _); [refused|]. destruct (is_playing _); refused. }
    intros H. apply network_same. revert H.
    destruct (is_playing (state (lobby s))); [destruct (is_some_and _ _); [refused|]; by intros [= <-]|].
    destruct (negb _); [refused|]. intros (_ & _ & H)%proceed_written. revert H. destruct (negb (all_measurements_fresh s now)).
    { intros (s1 & [-> _]%transition_Ok & H)%proceed_written. by injection H as <-. }
    destruct (_ || _); [refused|]. intros (s1 & H1 & H)%proceed_written. injection H as <-. unfold begin_match in H1.
    destruct (transition Starting dry _) as [s2|] eqn:Ht in H1; [|done]. apply transition_Ok in Ht as [-> _]. by apply Ok_inj in H1 as <-.
  - revert Hw. unfold authority_heartbeat. destruct (negb _); [refused|]. intros (s1 & Hcl & H)%proceed_written. apply network_same.
    assert (Hs1 : network_of s1 = network_of s).
    { apply claim_cases in Hcl as (? & _ & [(-> & _)|(_ & ? & e & _ & _ & _ & Ha & _)]); [done|]. by eapply apply_election_network. }
    rewrite <- Hs1. clear Hs1 Hcl. unfold accept_beat in H. apply proceed_written in H as (s2 & Hs2 & H).
    assert (Hn : network_of s2 = network_of s1).
    { destruct (state (lobby s1)); try (by apply Ok_inj in Hs2 as <-). by apply transition_Ok in Hs2 as [-> _]. }
    rewrite <- Hn. cbn in H. destruct (last_election s2); [|done]. cbn in H. destruct (authority (lobby s2)); [|done]. by injection H as <-.
  - by eapply results_network.
  - apply list_elem_of_singleton in Hw as ->. apply maintain_network.
Qed.
Lemma entry_network d s finalize : cleanup_entry d s finalize -> same_network d s.
Proof.
  intros [access now s' w H|now s' f H|generation s' f H|dry s' f log H|request actor key fp dry now s' H].
  - pose proof (maintain_network access now d) as Hm. by rewrite H in Hm.
  - unfold cleanup_expired in H.
    assert (Ht : network_of (apply_time_transitions d now).1 = network_of d).
    { unfold apply_time_transitions. destruct (time_target d now) as [[next reason]|]; [|done]. by destruct (validate_transition _ _). }
    destruct (apply_time_transitions d now) as [s1 t]. cbn in Ht. destruct (needs_cleanup t s1); [|done]. injection H as <- _. by apply network_same.
  - unfold begin_protected_cleanup in H. destruct (_ && _); [|done]. injection H as <- _. by constructor.
  - unfold delete_lobby in H. destruct (state (lobby d)); try (injection H as <- _ _; apply same_network_refl);
      try (destruct (transition Closing dry d) as [s1|] eqn:Ht; [|done]; apply transition_Ok in Ht as [-> _]; injection H as <- _ _; by apply network_same).
    destruct (sl_cleanup_pending d); [|done]. injection H as <- _ _. apply same_network_refl.
  - by eapply results_network.
Qed.

(** ** The log *)

Definition no_presence (log : list CleanupEvent) : Prop := forall p t, SawPresence p true t ∉ log.
(** Absence of [p] was seen at [t], and no presence since. *)
Definition seen_absent (p : list Z) (t : Z) (log : list CleanupEvent) : Prop :=
  exists l1 l2, log = l1 ++ SawPresence p false t :: l2 /\ no_presence l2.
(** Absence was seen twice, five seconds apart, with no presence between, before the secret
    was erased. *)
Definition absent_twice (p : list Z) (log : list CleanupEvent) : Prop :=
  exists l1 t1 l2 t2 l3 l4, log = l1 ++ SawPresence p false t1 :: l2 ++ SawPresence p false t2 :: l3 ++ ErasedSecret p :: l4 /\
    t1 + CLEANUP_ABSENCE_MIN_SEPARATION_MS <= t2 /\ no_presence l2 /\ no_presence l3.
Lemma no_presence_app l1 l2 : no_presence l1 -> no_presence l2 -> no_presence (l1 ++ l2).
Proof. intros H1 H2 p t [?|?]%elem_of_app; [by eapply H1|by eapply H2]. Qed.
Lemma no_presence_saving saved s : no_presence (saving saved s).
Proof. intros p t. destruct saved; cbn; [by intros [=]%list_elem_of_singleton|by intros ?%not_elem_of_nil]. Qed.
Lemma seen_absent_app p t log log' : seen_absent p t log -> no_presence log' -> seen_absent p t (log ++ log').
Proof. intros (l1 & l2 & -> & Hn) Hn'. exists l1, (l2 ++ log'). rewrite <- app_assoc. split; [done|by apply no_presence_app]. Qed.
Lemma seen_absent_prepend p t log log' : seen_absent p t log -> seen_absent p t (log' ++ log).
Proof. intros (l1 & l2 & -> & Hn). exists (log' ++ l1), l2. by rewrite <- app_assoc. Qed.
Lemma absent_twice_app p log log' : absent_twice p log -> absent_twice p (log ++ log').
Proof.
  intros (l1 & t1 & l2 & t2 & l3 & l4 & -> & H). exists l1, t1, l2, t2, l3, (l4 ++ log'). split; [|done].
  rewrite <- app_assoc. cbn. f_equal. f_equal. rewrite <- app_assoc. cbn. f_equal. f_equal. by rewrite <- app_assoc.
Qed.

(** ** One cleanup *)

Definition identity_of (s : StoredLobby) := (sl_generation s, network_identity s, tailnet s, provisioning_mode (lobby s), dry_run s).
Definition tailnet_id_of (s : StoredLobby) : option (list Z) := provider_identity s ≫= identity_tailnet_id.
Lemma same_tailnet_id s s' : identity_of s' = identity_of s -> tailnet_id_of s' = tailnet_id_of s.
Proof. intros [= Hg Hi Ht Hm _]. unfold tailnet_id_of, provider_identity. by rewrite Hg, Hi, Ht, Hm. Qed.
Lemma same_network_identity s s' : same_network s s' -> identity_of s' = identity_of s.
Proof. intros []. unfold identity_of. congruence. Qed.
Definition is_absent (s : StoredLobby) : Prop := sl_lifecycle s = DedicatedAbsent.
(** What a cleanup of [stored] does to the identity, the anchor and the lifecycle. *)
Record cleanup_facts (a : CleanupAnswers) (anchor : AbsenceAnchor) (stored : StoredLobby) (run : CleanupRun) : Prop := {
  cf_identity : identity_of run.1.1 = identity_of stored;
  cf_saved : forall s, Saved s ∈ run.2 -> identity_of s = identity_of stored /\ (is_absent s -> is_absent stored);
  cf_anchor : forall g t, run.1.2 = Some (g, t) ->
    anchor = Some (g, t) /\ no_presence run.2 \/
    t = answered_at a /\ exists p, tailnet_id_of stored = Some p /\ seen_absent p t run.2;
  cf_absent : is_absent run.1.1 -> is_absent stored \/
    exists p g t s, tailnet_id_of stored = Some p /\ anchor = Some (g, t) /\ t + CLEANUP_ABSENCE_MIN_SEPARATION_MS <= asked_at a /\
      run.2 = [SawPresence p false (answered_at a); Saved s; ErasedSecret p];
}.
(** What a log may hold of a cleanup that proves nothing. *)
Definition quiet_event (stored : StoredLobby) (event : CleanupEvent) : Prop :=
  match event with
  | Saved s => identity_of s = identity_of stored /\ (is_absent s -> is_absent stored)
  | SawPresence _ present _ => present = false
  | _ => True
  end.
Lemma quiet_no_presence stored log : Forall (quiet_event stored) log -> no_presence log.
Proof. intros Hq p t Hin. rewrite Forall_forall in Hq. by apply Hq in Hin. Qed.
Lemma quiet_saved stored log s : Forall (quiet_event stored) log -> Saved s ∈ log ->
  identity_of s = identity_of stored /\ (is_absent s -> is_absent stored).
Proof. intros Hq Hin. rewrite Forall_forall in Hq. by apply Hq in Hin. Qed.
Lemma quiet_facts a anchor anchor' stored result log : identity_of result = identity_of stored -> (is_absent result -> is_absent stored) ->
  Forall (quiet_event stored) log -> anchor' = anchor \/ anchor' = None -> cleanup_facts a anchor stored (result, anchor', log).
Proof.
  intros Hi Ha Hq Han. constructor; cbn; [done|by intros s; apply quiet_saved| |auto].
  intros g t Hsome. left. destruct Han as [->| ->]; [|done]. split; [done|]. by eapply quiet_no_presence.
Qed.
Lemma quiet_saving stored saved s : identity_of s = identity_of stored -> (is_absent s -> is_absent stored) -> Forall (quiet_event stored) (saving saved s).
Proof. intros Hi Ha. destruct saved; cbn; [|done]. constructor; [by split|done]. Qed.
Lemma remediate_identity reason s : identity_of (remediate reason s) = identity_of s.
Proof. by destruct reason. Qed.
Lemma remediate_absent reason s : ~ is_absent (remediate reason s).
Proof. by destruct reason. Qed.
Lemma confirm_facts a p anchor s : tailnet_id_of s = Some p -> ~ is_absent s ->
  (exists g t, anchor = Some (g, t) /\ t + CLEANUP_ABSENCE_MIN_SEPARATION_MS <= asked_at a) ->
  let '(result, anchor', log) := confirm_and_erase a p anchor s in
  cleanup_facts a anchor s (result, anchor', SawPresence p false (answered_at a) :: log).
Proof.
  intros Hp Hna (g & t & Han & Hge). unfold confirm_and_erase. destruct (proof_saved a); cbn [negb saving].
  - set (s1 := confirm_absence _ p s). assert (Hs1 : identity_of s1 = identity_of s /\ (is_absent s1 -> is_absent s)) by done.
    assert (Hq : Forall (quiet_event s) [SawPresence p false (answered_at a); Saved s1]) by (repeat constructor; done).
    destruct (erasure a) as [[u|error]|]; [|by apply quiet_facts; [done|done|done|left]..].
    constructor; cbn; [done| |done|].
    + intros s' Hin. apply (quiet_saved s [SawPresence p false (answered_at a); Saved s1; ErasedSecret p]); [|done]. repeat constructor; done.
    + intros _. right. exists p, g, t, s1. done.
  - apply quiet_facts; [by rewrite remediate_identity|intros H; by apply remediate_absent in H| |by left]. repeat constructor.
Qed.
Lemma answered_facts a p anchor s : tailnet_id_of s = Some p -> ~ is_absent s ->
  (forall first, first_absence_observed_at s = Some first -> exists g t, anchor = Some (g, t) /\ t + CLEANUP_ABSENCE_MIN_SEPARATION_MS <= asked_at a) ->
  cleanup_facts a anchor s (absence_answered a p anchor s).
Proof.
  intros Hp Hna Hfirst. unfold absence_answered. destruct (presence a) as [[[]|error]|].
  - constructor; cbn.
    + by destruct (presence_reset_saved a).
    + intros s' [[=]|Hs]%elem_of_cons. by apply (quiet_saved s) in Hs; [|apply quiet_saving].
    + done.
    + intros H. destruct Hna. by destruct (presence_reset_saved a).
  - destruct (first_absence_observed_at s) as [first|] eqn:Hfo; cbn [is_none is_some negb].
    + pose proof (confirm_facts a p anchor s Hp Hna (Hfirst first eq_refl)) as Hc.
      by destruct (confirm_and_erase a p anchor s) as [[r an] log].
    + destruct (observation_saved a); cbn [saving].
      * constructor; cbn; [done| | |by intros ?].
        -- intros s' [[=]|[[= ->]|[]%not_elem_of_nil]%elem_of_cons]%elem_of_cons. done.
        -- intros g t [= <- <-]. right. split; [done|]. exists p. split; [done|]. eexists [], _. split; [done|].
           intros ? ? [[=]|[]%not_elem_of_nil]%elem_of_cons.
      * apply quiet_facts; [by rewrite remediate_identity|intros H; by apply remediate_absent in H|by repeat constructor|by right].
  - destruct error; (apply quiet_facts; [done|done|done|by left]).
  - apply quiet_facts; [done|done|done|by left].
Qed.
Lemma first_not_absent a p anchor s : first_absence_observed_at s = None -> ~ is_absent s -> ~ is_absent (absence_answered a p anchor s).1.1.
Proof.
  intros Hf Hna. unfold absence_answered. rewrite Hf. cbn [is_none is_some negb].
  destruct (presence a) as [[[]|[]]|]; try done; [destruct (presence_reset_saved a)|destruct (observation_saved a)]; done.
Qed.
Lemma reconcile_facts a anchor s : ~ is_absent s -> cleanup_facts a anchor s (reconcile_dedicated_absence a anchor s).
Proof.
  intros Hna. unfold reconcile_dedicated_absence.
  destruct (provider_identity s) as [identity|] eqn:Hpi; [|apply quiet_facts; [done|done|done|by left]].
  destruct (identity_tailnet_id identity) as [p|] eqn:Hid; [|apply quiet_facts; [done|done|done|by left]].
  assert (Hp : tailnet_id_of s = Some p) by (unfold tailnet_id_of; by rewrite Hpi).
  destruct (is_none (first_absence_observed_at s)) eqn:Hf.
  { apply answered_facts; [done|done|]. intros first Hfo. by rewrite Hfo in Hf. }
  destruct (match anchor with Some (generation, started) => _ | None => None end) as [started|] eqn:Han.
  - destruct (Z.ltb_spec (asked_at a - started) CLEANUP_ABSENCE_MIN_SEPARATION_MS); [apply quiet_facts; [done|done|done|by left]|].
    apply answered_facts; [done|done|]. intros first _. destruct anchor as [[g t]|]; [|done].
    destruct (g =? sl_generation s); [|done]. injection Han as ->. exists g, started. split; [done|lia].
  - set (s1 := clear_absence_proof s). destruct (anchor_reset_saved a); cbn [negb].
    2: { apply quiet_facts; [by rewrite remediate_identity|intros H; by apply remediate_absent in H|done|by left]. }
    assert (Hs1 : cleanup_facts a anchor s1 (absence_answered a p anchor s1)) by (apply answered_facts; [done|done|done]).
    pose proof (first_not_absent a p anchor s1 eq_refl Hna) as Hnf.
    destruct (absence_answered a p anchor s1) as [[r an] log]. destruct Hs1 as [Hi Hs Ha _].
    constructor; cbn in *; [done| | |].
    + intros s' [[= ->]|Hin]%elem_of_cons; [done|by apply Hs].
    + intros g t Hsome. destruct (Ha g t Hsome) as [[Hanc Hn]|(Ht & q & Hq & Hseen)].
      * left. split; [done|]. intros q t' [[=]|Hin]%elem_of_cons. by eapply Hn.
      * right. split; [done|]. exists q. split; [done|]. by apply (seen_absent_prepend _ _ _ [Saved s1]).
    + intros H. by destruct Hnf.
Qed.
Lemma finalize_network now fin s : network_of (finalize_lobby_cleanup now fin s) = network_of s.
Proof.
  unfold finalize_lobby_cleanup. destruct (fin && _); [|done].
  destruct (is_ok _); cbn; destruct (negb (sl_cleanup_pending s)); done.
Qed.
Lemma forget_network s : network_of (forget_measurements s) = network_of s.
Proof. unfold forget_measurements. by destruct (is_none _). Qed.
Lemma network_identity_of s s' : network_of s' = network_of s -> identity_of s' = identity_of s /\ (is_absent s' <-> is_absent s).
Proof. intros [= Hg Hi Ht Hm Hd Hl]. unfold identity_of, is_absent. by rewrite Hg, Hi, Ht, Hm, Hd, Hl. Qed.
Lemma facts_transfer a anchor s s1 r r' an log : network_of s1 = network_of s -> network_of r' = network_of r ->
  cleanup_facts a anchor s1 (r, an, log) -> cleanup_facts a anchor s (r', an, log).
Proof.
  intros [Hi1 Ha1]%network_identity_of [Hi2 Ha2]%network_identity_of [Hi Hs Hc Hb]. cbn in *.
  pose proof (same_tailnet_id _ _ Hi1) as Hp. constructor; cbn.
  - congruence.
  - intros s' Hin. destruct (Hs s' Hin) as [H1 H2]. split; [congruence|tauto].
  - intros g t Hsome. rewrite <- Hp. by apply Hc.
  - intros H. rewrite <- Hp. destruct Hb as [H1|H1]; [by apply Ha2|left; by apply Ha1|by right].
Qed.
(** Calling the provider's cleanup proves nothing about absence. *)
Lemma called_facts a now fin anchor s log : Forall (quiet_event s) log -> ~ is_absent s ->
  let '(result, log') := call_cleanup a now fin s in cleanup_facts a anchor s (result, anchor, log ++ log').
Proof.
  intros Hq Hna. unfold call_cleanup.
  assert (Hc : same_network s (default s (apply_cleanup_result now (provider_answer a) true s))).
  { destruct (apply_cleanup_result _ _ _ _) as [s'|] eqn:H; [by eapply cleanup_network|apply same_network_refl]. }
  set (c := default _ _) in *. pose proof (finalize_network now fin c) as [Hi Hab]%network_identity_of.
  apply quiet_facts.
  - rewrite Hi. by apply same_network_identity.
  - intros H%Hab. destruct Hna. by apply (net_absent _ _ Hc).
  - apply Forall_app. split; [done|]. repeat constructor.
  - by left.
Qed.
Lemma cleanup_resources_facts a anchor now fin s : cleanup_facts a anchor s (cleanup_resources a anchor now fin s).
Proof.
  unfold cleanup_resources. pose proof (forget_network s) as Hf. set (s1 := forget_measurements s) in *.
  assert (Hkeep : is_absent s1 -> cleanup_facts a anchor s (finalize_lobby_cleanup now fin s1, anchor, [])).
  { intros Ha. apply (facts_transfer a anchor s s1 s1); [done|apply finalize_network|]. by apply quiet_facts; [| | |left]. }
  assert (Hlive : sl_lifecycle s1 <> SharedResourcesClean -> ~ is_absent s1 -> cleanup_facts a anchor s
    (if is_per_lobby (lobby s1) && match sl_lifecycle s1 with VerifyingAbsence => true | _ => false end
     then let '(stored, anchor, log) := reconcile_dedicated_absence a anchor s1 in (finalize_lobby_cleanup now fin stored, anchor, log)
     else if negb (dry_run s1) && is_per_lobby (lobby s1) && match sl_lifecycle s1 with CreateUnknown | ManualRemediation => true | _ => false end
     then (finalize_lobby_cleanup now fin (pending (s1 <| sl_lifecycle := ManualRemediation |>)), anchor, [])
     else if negb (dry_run s1) then
       if negb (intent_saved a)
       then (finalize_lobby_cleanup now fin (remediate (Some "cleanup_intent_persistence_failed"%string) (request_cleanup now s1)), anchor, [])
       else let '(result, log) := call_cleanup a now fin (request_cleanup now s1) in (result, anchor, Saved (request_cleanup now s1) :: log)
     else let '(result, log) := call_cleanup a now fin s1 in (result, anchor, log))).
  { intros _ Hna. destruct (is_per_lobby (lobby s1) && _).
    { pose proof (reconcile_facts a anchor s1 Hna) as Hr. destruct (reconcile_dedicated_absence a anchor s1) as [[r an] log].
      by apply (facts_transfer a anchor s s1 r); [|apply finalize_network|]. }
    destruct (negb (dry_run s1) && is_per_lobby (lobby s1) && _).
    { apply (facts_transfer a anchor s s1 (pending (s1 <| sl_lifecycle := ManualRemediation |>))); [done|apply finalize_network|].
      apply quiet_facts; [done|done|done|by left]. }
    destruct (negb (dry_run s1)).
    - set (s2 := request_cleanup now s1). assert (Hs2 : identity_of s2 = identity_of s1 /\ ~ is_absent s2) by done. destruct Hs2 as [Hi2 Hna2].
      destruct (negb (intent_saved a)).
      + apply (facts_transfer a anchor s s1 (remediate (Some "cleanup_intent_persistence_failed"%string) s2)); [done|apply finalize_network|].
        apply quiet_facts; [done|by intros|done|by left].
      + pose proof (called_facts a now fin anchor s2 [Saved s2]) as Hc. destruct (call_cleanup a now fin s2) as [r log]. cbn in Hc.
        assert (Hq : Forall (quiet_event s2) [Saved s2]) by (by repeat constructor). specialize (Hc Hq Hna2).
        destruct Hc as [Hi Hs Hc Hb]. cbn in *. pose proof (same_tailnet_id _ _ Hi2) as Hp.
        apply (facts_transfer a anchor s s1 r); [done|done|]. constructor; cbn; [congruence| |by rewrite <- Hp|].
        * intros s' Hin. destruct (Hs s' Hin) as [H1 H2]. split; [congruence|]. intros H. by destruct Hna2; apply H2.
        * intros H. destruct (Hb H) as [?|(p & g & t & s' & _ & _ & _ & Heq)]; [by destruct Hna2|]. by destruct log.
    - pose proof (called_facts a now fin anchor s1 [] (Forall_nil_2 _) Hna) as Hc. destruct (call_cleanup a now fin s1) as [r log].
      by apply (facts_transfer a anchor s s1 r). }
  destruct (sl_lifecycle s1) eqn:Hl; unfold is_absent in Hlive, Hkeep; rewrite Hl in Hlive, Hkeep; try (by apply Hlive); [by apply Hkeep|].
  apply (facts_transfer a anchor s s1 s1); [done|apply finalize_network|]. apply quiet_facts; [done|done|done|by left].
Qed.

(** ** Runs *)

Record absence_inv (w : Service) : Prop := {
  inv_anchor : forall g t, absence_anchor w = Some (g, t) -> t <= monotonic w /\
    exists p, tailnet_id_of (durable w) = Some p /\ seen_absent p t (calls w);
  inv_absent : is_absent (durable w) -> exists p, tailnet_id_of (durable w) = Some p /\ absent_twice p (calls w);
}.
Lemma last_saved_cases d log : last_saved d log = d \/ Saved (last_saved d log) ∈ log.
Proof.
  unfold last_saved. induction log as [|e log IH] using rev_ind; [by left|]. rewrite fold_left_app. cbn.
  destruct e; try (destruct IH as [->|IH]; [by left|right; apply elem_of_app; by left]).
  right. apply elem_of_app. right. left.
Qed.
Lemma saving_saved saved s s' : Saved s' ∈ saving saved s -> s' = s.
Proof. destruct saved; cbn; [by intros [=]%list_elem_of_singleton|by intros ?%not_elem_of_nil]. Qed.
Lemma cleanup_keeps_inv w stored fin a now first_saved final_saved result anchor log :
  absence_inv w -> cleanup_entry (durable w) stored fin -> monotonic w <= asked_at a <= answered_at a ->
  run_cleanup a (absence_anchor w) now fin final_saved stored = (result, anchor, log) ->
  absence_inv (mkService (last_saved (durable w) (saving first_saved stored ++ log)) anchor (answered_at a)
                 (calls w ++ saving first_saved stored ++ log)).
Proof.
  intros [Hanchor Habsent] Hentry%entry_network Htime Hrun. unfold run_cleanup in Hrun.
  pose proof (cleanup_resources_facts a (absence_anchor w) now fin stored) as Hf.
  destruct (cleanup_resources _ _ _ _ _) as [[r an] log0]. injection Hrun as <- <- <-. destruct Hf as [Hi Hs Hc Hb]. cbn in *.
  pose proof (same_network_identity _ _ Hentry) as Hid. pose proof (same_tailnet_id _ _ Hid) as Htid.
  set (d' := last_saved _ _).
  assert (Hd' : identity_of d' = identity_of (durable w) /\ (is_absent d' -> is_absent (durable w) \/ Saved d' ∈ saving final_saved r /\ is_absent r)).
  { destruct (last_saved_cases (durable w) (saving first_saved stored ++ log0 ++ saving final_saved r)) as [Heq|Hin]; fold d' in Heq || fold d' in Hin.
    - rewrite Heq. auto.
    - apply elem_of_app in Hin as [->%saving_saved|[[H1 H2]%Hs|Hin]%elem_of_app].
      + split; [done|]. intros H. left. by apply (net_absent _ _ Hentry).
      + split; [congruence|]. intros H. left. apply (net_absent _ _ Hentry). by apply H2.
      + pose proof (saving_saved _ _ _ Hin) as Heq. rewrite Heq. split; [congruence|]. intros H. right. rewrite <- Heq at 1. by split. }
  destruct Hd' as [Hid' Habs']. pose proof (same_tailnet_id _ _ Hid') as Htid'.
  constructor; cbn.
  - intros g t Hsome. destruct (Hc g t Hsome) as [[Han Hn]|(-> & p & Hp & Hseen)].
    + destruct (Hanchor g t Han) as [Hle (p & Hp & Hseen)]. split; [lia|]. exists p. split; [congruence|].
      apply seen_absent_app; [done|]. apply no_presence_app; [apply no_presence_saving|]. apply no_presence_app; [done|apply no_presence_saving].
    + split; [lia|]. exists p. split; [congruence|]. rewrite app_assoc. apply seen_absent_prepend. apply seen_absent_app; [done|apply no_presence_saving].
  - intros H. destruct (Habs' H) as [Hd|[_ Hr]].
    { destruct (Habsent Hd) as (p & Hp & Ht). exists p. split; [congruence|]. by apply absent_twice_app. }
    destruct (Hb Hr) as [Hst|(p & g & t & s & Hp & Han & Hge & ->)].
    { destruct (Habsent (net_absent _ _ Hentry Hst)) as (p & Hp & Ht). exists p. split; [congruence|]. by apply absent_twice_app. }
    destruct (Hanchor g t Han) as [_ (q & Hq & (l1 & l2 & -> & Hn))]. assert (q = p) as -> by congruence.
    exists p. split; [congruence|]. exists l1, t, (l2 ++ saving first_saved stored), (answered_at a), [Saved s], (saving final_saved r).
    split; [|split; [lia|split; [apply no_presence_app; [done|apply no_presence_saving]|by intros ? ? [=]%list_elem_of_singleton]]].
    rewrite <- app_assoc. cbn. by rewrite <- app_assoc.
Qed.
Lemma step_keeps_inv w w' : absence_inv w -> cleanup_step w w' -> absence_inv w'.
Proof.
  intros Hinv [stored fin a now fs ls result anchor log He Ht Hr|r dry now s Hw| |later Hle].
  - by eapply cleanup_keeps_inv.
  - apply request_network in Hw. destruct Hinv as [Hanchor Habsent]. pose proof (same_tailnet_id _ _ (same_network_identity _ _ Hw)) as Htid.
    assert (Hn : no_presence [Saved s]) by (by intros ? ? [=]%list_elem_of_singleton).
    constructor; cbn.
    + intros g t Hsome. destruct (Hanchor g t Hsome) as [Hle (p & Hp & Hseen)]. split; [done|]. exists p. split; [congruence|]. by apply seen_absent_app.
    + intros H. destruct (Habsent (net_absent _ _ Hw H)) as (p & Hp & Hab). exists p. split; [congruence|]. by apply absent_twice_app.
  - destruct Hinv. by constructor.
  - destruct Hinv as [Hanchor Habsent]. constructor; cbn; [|done]. intros g t Hsome. destruct (Hanchor g t Hsome) as [? ?]. split; [lia|done].
Qed.

(** ** The demonstration *)

Module CleanupDemo.
Definition name : list Z := bytes_of_string "a.ts.net".
Definition verifying : StoredLobby :=
  (stored_new (mkLobby (mkProtocolId [1; 0; 0; 0; 0; 0; 64; 0; 128; 0; 0; 0; 0; 0; 0; 1]) [82] Closing None [] 2 None None
                 (mkLobbyTtl 600000 3600000) M3_WIRE_VERSION TailnetPerLobby 0 false)
     (ServiceDemo.demo_rider 1) name [] false 600000)
    <| network_identity := Some (mkStoredNetworkIdentity (Some [84; 49]) (mkTailnetDnsName name) 1 1000) |>
    <| sl_lifecycle := VerifyingAbsence |> <| cleanup_requested_at := Some 2000 |> <| sl_delete_acknowledged_at := Some 2500 |>
    <| sl_cleanup_pending := true |>.
(** Everything is saved and the network is seen absent at [at_]. *)
Definition absent_at (at_ : Z) : CleanupAnswers :=
  mkCleanupAnswers true true true true true at_ at_ (10000 + at_) (10000 + at_) (Some (Ok false)) (Some (Ok tt)) (Err (Upstream "x" 500)).
Definition cleaned (w : Service) (a : CleanupAnswers) : Service :=
  match cleanup_expired (answered_wall a) (durable w) with
  | None => w
  | Some (stored, fin) =>
      let '(_, anchor, log) := run_cleanup a (absence_anchor w) (answered_wall a) fin true stored in
      mkService (last_saved (durable w) log) anchor (answered_at a) (calls w ++ log)
  end.
Definition start : Service := mkService verifying None 0 [].
(** One observation, one too early, and one five seconds later. *)
Definition finished : Service := cleaned (cleaned (cleaned start (absent_at 100)) (absent_at 3000)) (absent_at 5100).
Lemma cleaned_step w a : monotonic w <= asked_at a <= answered_at a -> is_some (cleanup_expired (answered_wall a) (durable w)) = true ->
  cleanup_step w (cleaned w a).
Proof.
  intros Ht Hs. unfold cleaned. destruct (cleanup_expired (answered_wall a) (durable w)) as [[stored fin]|] eqn:He; [|done].
  destruct (run_cleanup _ _ _ _ _ _) as [[r anchor] log] eqn:Hr.
  exact (step_cleanup w stored fin a (answered_wall a) false true r anchor log (entry_expired _ _ _ _ He) Ht Hr).
Qed.
Lemma finished_run : rtc cleanup_step start finished.
Proof.
  do 3 (eapply rtc_r; [|apply cleaned_step; vm_compute; [split; congruence|reflexivity]]). apply rtc_refl.
Qed.
Example finished_is : (sl_lifecycle (durable finished), state (lobby (durable finished)), length (calls finished)) = (DedicatedAbsent, Destroyed, 8%nat).
Proof. vm_compute. reflexivity. Qed.
End CleanupDemo.
Import CleanupDemo.


Lemma finished_absent : sl_lifecycle (durable finished) = DedicatedAbsent.
Proof. vm_compute. reflexivity. Qed.

Definition no_call (e : CleanupEvent) : Prop := match e with CalledCleanup _ => False | _ => True end.
Lemma saving_no_call saved s : Forall no_call (saving saved s).
Proof. destruct saved; by repeat constructor. Qed.
Lemma answered_no_call a p anchor s : Forall no_call (absence_answered a p anchor s).2.
Proof.
  unfold absence_answered. destruct (presence a) as [[[]|[]]|]; try (by constructor).
  - constructor; [done|apply saving_no_call].
  - destruct (is_none _); [destruct (observation_saved a); cbn; by repeat constructor|].
    unfold confirm_and_erase. destruct (proof_saved a); cbn; [destruct (erasure a) as [[]|]|]; cbn; by repeat constructor.
Qed.
Lemma reconcile_no_call a anchor s : Forall no_call (reconcile_dedicated_absence a anchor s).2.
Proof.
  unfold reconcile_dedicated_absence. destruct (provider_identity s) as [identity|]; [|by constructor].
  destruct (identity_tailnet_id identity) as [p|]; [|by constructor]. destruct (is_none _); [apply answered_no_call|].
  destruct (match anchor with Some _ => _ | None => None end); [destruct (_ <? _); [by constructor|apply answered_no_call]|].
  destruct (anchor_reset_saved a); cbn [negb]; [|by constructor].
  pose proof (answered_no_call a p anchor (clear_absence_proof s)) as H. destruct (absence_answered _ _ _ _) as [[r an] log]. by constructor.
Qed.
Lemma finalized_log now fin (r : CleanupRun) :
  (let '(stored, anchor, log) := r in (finalize_lobby_cleanup now fin stored, anchor, log)).2 = r.2.
Proof. by destruct r as [[? ?] ?]. Qed.

(** Nothing is destroyed before the intent is saved. When the cleanup of a real lobby
    calls the provider to delete, everything that happened before in that cleanup is one
    write of the same network's record, with the cleanup requested, which the store took;
    what is revoked are exactly the record's credentials not yet revoked; and no cleanup
    calls the provider for a network being verified absent, known absent, or in doubt. *)
Theorem destruction_after_intent (a : CleanupAnswers) (anchor : AbsenceAnchor) (now : UnixMillis) (finalize : bool) (stored : StoredLobby)
    (doomed : list StoredCredential) (Hreal : dry_run stored = false)
    (Hcall : CalledCleanup doomed ∈ (cleanup_resources a anchor now finalize stored).2) :
  intent_saved a = true /\
  (exists s, (cleanup_resources a anchor now finalize stored).2 = [Saved s; CalledCleanup doomed] /\
     is_Some (cleanup_requested_at s) /\ sl_lifecycle s = CleanupRequested /\ identity_of s = identity_of stored /\ doomed = unrevoked s) /\
  sl_lifecycle stored <> DedicatedAbsent /\ sl_lifecycle stored <> SharedResourcesClean /\
  (is_per_lobby (lobby stored) = true ->
    sl_lifecycle stored <> VerifyingAbsence /\ sl_lifecycle stored <> ManualRemediation /\ sl_lifecycle stored <> CreateUnknown).
Proof.
  pose proof (forget_network stored) as Hn. revert Hcall. unfold cleanup_resources. set (s1 := forget_measurements stored) in *.
  injection Hn as Hg Hi Ht Hm Hd Hl. assert (Hper : is_per_lobby (lobby s1) = is_per_lobby (lobby stored)) by (unfold is_per_lobby; by rewrite Hm).
  rewrite Hd, Hreal, Hper, Hl. cbn [negb andb].
  assert (Hcalled : CalledCleanup doomed ∈ (if negb (intent_saved a)
       then (finalize_lobby_cleanup now finalize (remediate (Some "cleanup_intent_persistence_failed"%string) (request_cleanup now s1)), anchor, [])
       else let '(result, log) := call_cleanup a now finalize (request_cleanup now s1) in
            (result, anchor, Saved (request_cleanup now s1) :: log)).2 ->
    intent_saved a = true /\ doomed = unrevoked (request_cleanup now s1)).
  { destruct (intent_saved a); cbn; [|by intros ?%not_elem_of_nil].
    intros [[=]|[[= ->]|[]%not_elem_of_nil]%elem_of_cons]%elem_of_cons. done. }
  assert (Hlog : intent_saved a = true -> (if negb (intent_saved a)
       then (finalize_lobby_cleanup now finalize (remediate (Some "cleanup_intent_persistence_failed"%string) (request_cleanup now s1)), anchor, [])
       else let '(result, log) := call_cleanup a now finalize (request_cleanup now s1) in
            (result, anchor, Saved (request_cleanup now s1) :: log)).2 =
       [Saved (request_cleanup now s1); CalledCleanup (unrevoked (request_cleanup now s1))]) by (by intros ->).
  assert (Hs : is_Some (cleanup_requested_at (request_cleanup now s1)) /\ sl_lifecycle (request_cleanup now s1) = CleanupRequested /\
    identity_of (request_cleanup now s1) = identity_of stored).
  { split; [cbn; by destruct (cleanup_requested_at s1)|]. split; [done|]. unfold identity_of. cbn. by rewrite Hg, Hi, Ht, Hm, Hd. }
  match type of Hlog with _ -> ?x.2 = _ => set (run := x) in * end.
  assert (Hgo : CalledCleanup doomed ∈ run.2 -> intent_saved a = true /\
    (exists s, run.2 = [Saved s; CalledCleanup doomed] /\ is_Some (cleanup_requested_at s) /\ sl_lifecycle s = CleanupRequested /\
       identity_of s = identity_of stored /\ doomed = unrevoked s)).
  { intros Hin. destruct (Hcalled Hin) as [Hok Heq]. split; [done|]. exists (request_cleanup now s1). rewrite Heq. rewrite (Hlog Hok). tauto. }
  pose proof (reconcile_no_call a anchor s1) as Hno. rewrite Forall_forall in Hno.
  destruct (is_per_lobby (lobby stored)), (sl_lifecycle stored); cbn [andb]; rewrite ?finalized_log;
    try (by intros ?%not_elem_of_nil); try (by intros ?%Hno); intros [Hok Hex]%Hgo; (split; [done|]; split; [done|]); by repeat split.
Qed.
Lemma destruction_after_intent_witness :
  exists s, (cleanup_resources (absent_at 100) None 3000 true (verifying <| sl_lifecycle := Active |>)).2 = [Saved s; CalledCleanup []] /\
    sl_lifecycle s = CleanupRequested.
Proof.
  destruct (destruction_after_intent (absent_at 100) None 3000 true (verifying <| sl_lifecycle := Active |>) []) as (_ & (s & H & _ & Hl & _) & _);
    [reflexivity|right; left|]. exists s. split; [exact H|exact Hl].
Defined.

(** ** Finding *)

(** The protected cleanup, started once more on a lobby whose network is gone and whose
    lease was released, takes the record back to a requested cleanup; the store then holds a
    real network without a lease, and quarantines every further creation. *)
Lemma protected_cleanup_quarantines data stored a anchor now : lobbies data !! lobby_id (lobby stored) = Some stored ->
  dry_run stored = false -> real_lobby_lease data = None -> sl_lifecycle stored = DedicatedAbsent -> intent_saved a = true ->
  exists s fin r rest, begin_protected_cleanup (sl_generation stored) stored = Some (s, fin) /\
    (cleanup_resources a anchor now fin s).2 = Saved r :: rest /\ real_creation_quarantined (replace_in_data data r).1 = true.
Proof.
  intros Hfound Hreal Hlease _ Hsaved. unfold begin_protected_cleanup. rewrite Hreal, Z.eqb_refl. cbn [negb andb].
  set (s := (pending _) <| sl_lifecycle := CleanupRequested |>).
  assert (Hs : lobby_id (lobby s) = lobby_id (lobby stored) /\ dry_run s = false /\ sl_lifecycle s = CleanupRequested) by done.
  destruct Hs as (Hid & Hds & Hls). exists s, true.
  pose proof (forget_network s) as Hn. injection Hn as _ _ _ _ Hd Hl.
  assert (Hid1 : lobby_id (lobby (forget_measurements s)) = lobby_id (lobby s)) by (unfold forget_measurements; by destruct (is_none _)).
  assert (Hl1 : sl_lifecycle (forget_measurements s) = CleanupRequested) by (etrans; [exact Hl|exact Hls]).
  assert (Hd1 : dry_run (forget_measurements s) = false) by (etrans; [exact Hd|exact Hds]).
  unfold cleanup_resources. set (s1 := forget_measurements s) in *. rewrite Hl1, Hd1, Hsaved, !andb_false_r. cbn [negb andb].
  exists (request_cleanup now s1). eexists. split; [done|]. split; [done|].
  unfold replace_in_data.
  assert (Hid2 : lobby_id (lobby (request_cleanup now s1)) = lobby_id (lobby stored)) by (etrans; [exact Hid1|exact Hid]).
  assert (Hd2 : dry_run (request_cleanup now s1) = false) by exact Hd1.
  rewrite Hid2, Hfound. unfold replace_lease. cbn [real_lobby_lease set_field fst]. rewrite Hlease, Hd2. done.
Qed.
