(* ===== verification/SessionEndpoints.v ===== *)
(** * Session endpoints of a lobby ([spurfire-server/src/service.rs])

    Where a seated rider registers the tailnet address, the port and the session key of
    its process, and the projection the service signs of them: the handlers
    [register_session_endpoint] and [session_projection]. The registrations of one lobby
    live in memory only. The public half of the lobby's manifest key and its signatures
    are the interface [Crypto]. *)

From Stdlib Require Import Strings.String.
From stdpp Require Import gmap.
From S2P Require Import Prelude MachineInt Ordered Clock Bytes Identifiers LobbyLifecycle Model Session IpText Store LobbyService.
Open Scope Z_scope.

Definition SESSION_ENDPOINT_RETENTION_MS : Z := 60000.

(** ** Data *)

Record SessionEndpointRecord := mkSessionEndpointRecord {
  endpoint_player : PlayerId;
  endpoint_generation : Z;
  endpoint_revision : Z;
  endpoint_sequence : Z;
  endpoint_address : list Z;
  endpoint_port : Z;
  endpoint_key : option SessionPublicKey;
  endpoint_node : option NodeKey;
  endpoint_received_at : UnixMillis;
}.
Record RegisterSessionEndpointRequest := mkRegisterSessionEndpointRequest {
  register_generation : Z;
  register_revision : Z;
  register_sequence : Z;
  register_address : list Z;
  register_port : Z;
  register_key : option SessionPublicKey;
  register_proof : option SessionSignature;
  register_node : option NodeKey;
}.
Record LobbySessionPeer := mkLobbySessionPeer {
  peer_player : PlayerId;
  peer_address : list Z;
  peer_port : Z;
  peer_key : option SessionPublicKey;
  peer_node : option NodeKey;
  peer_received_at : UnixMillis;
}.
Record LobbySessionProjection := mkLobbySessionProjection {
  projection_generation : Z;
  projection_revision : Z;
  projection_session : Z;
  projection_secure : bool;
  projection_hash : option RosterHash;
  projection_signature : option SessionSignature;
  projection_public_key : SessionPublicKey;
  projection_peers : list LobbySessionPeer;
}.

(** The registrations of one lobby, by player. *)
Abbreviation Endpoints := (gmap PlayerId SessionEndpointRecord).

Definition tailnet_address_is_valid (value : list Z) : bool :=
  match parse_ip value with
  | Some (V4 (a :: b :: _)) => (a =? 100) && ((64 <=? b) && (b <=? 127))
  | Some (V6 (a :: _)) => Z.land a 254 =? 252
  | _ => false
  end.

(** A registration that has not expired. *)
Definition unexpired_at (now : UnixMillis) (record : SessionEndpointRecord) : bool :=
  is_some_and (millis_checked_duration_since now (endpoint_received_at record)) (fun age => age <=? SESSION_ENDPOINT_RETENTION_MS).

(** ** The signed projection *)

Definition projected (stored : StoredLobby) (now : UnixMillis) (record : SessionEndpointRecord) : bool :=
  (endpoint_generation record =? sl_generation stored)
  && (endpoint_revision record =? roster_revision stored)
  && in_roster stored (endpoint_player record)
  && unexpired_at now record.
Definition peer_of (record : SessionEndpointRecord) : LobbySessionPeer :=
  mkLobbySessionPeer (endpoint_player record) (endpoint_address record) (endpoint_port record) (endpoint_key record)
    (endpoint_node record) (endpoint_received_at record).
Definition session_peers (stored : StoredLobby) (endpoints : Endpoints) (now : UnixMillis) : list LobbySessionPeer :=
  map peer_of (List.filter (projected stored now) (btree_values endpoints)).
(** The closure over the peers; its two [expect]s are the [None]. *)
Definition manifest_entry (peer : LobbySessionPeer) : option RosterManifestEntry :=
  match peer_key peer, parse_ip (peer_address peer) with
  | Some key, Some ip => Some (mkRosterManifestEntry (peer_player peer) key ip (peer_port peer) (peer_node peer))
  | _, _ => None
  end.
Definition is_secure (stored : StoredLobby) (peers : list LobbySessionPeer) : bool :=
  negb (bool_decide (roster (lobby stored) = []))
  && (length peers =? length (roster (lobby stored)))%nat
  && forallb (fun peer => is_some (peer_key peer)) peers.

Section Keys.
Context `{Crypto}.

Definition manifest_public_key (signing : SigningKey) : SessionPublicKey := mkSessionPublicKey (verifying_key signing).

(** What the service signs; [Panicked] for the [expect]s. *)
Definition signed_manifest (signing : SigningKey) (stored : StoredLobby) (peers : list LobbySessionPeer)
    : result (RosterHash * SessionSignature) (fault ApiError) :=
  match mapM manifest_entry peers with
  | None => Err Panicked
  | Some entries =>
      let manifest := mkRosterManifest (lobby_id (lobby stored)) (sl_generation stored) (Store.session_generation stored)
                        (Store.roster_revision stored) entries in
      match manifest_validate manifest with
      | Err _ => Err (Raised (internal_error false))
      | Ok _ =>
          Ok (roster_hash manifest,
              mkSessionSignature (sign_bytes signing (canonical_manifest_digest (manifest_public_key signing) manifest)))
      end
  end.
Definition session_projection (signing : SigningKey) (stored : StoredLobby) (endpoints : Endpoints) (now : UnixMillis)
    : result LobbySessionProjection (fault ApiError) :=
  let peers := session_peers stored endpoints now in
  let project secure hash signature :=
    mkLobbySessionProjection (sl_generation stored) (roster_revision stored) (session_generation stored) secure hash signature
      (manifest_public_key signing) peers in
  if is_secure stored peers then
    match signed_manifest signing stored peers with
    | Err e => Err e
    | Ok (hash, signature) => Ok (project true (Some hash) (Some signature))
    end
  else Ok (project false None None).

(** ** Registration *)

Definition register_admitted (stored : StoredLobby) (player : PlayerId) (request : RegisterSessionEndpointRequest) : bool :=
  (register_generation request =? sl_generation stored)
  && (register_revision request =? roster_revision stored)
  && in_roster stored player
  && match state (lobby stored) with Forming | Ready | Starting | InMatch => true | _ => false end
  && tailnet_address_is_valid (register_address request)
  && negb (register_port request =? 0).
(** The session key, whose possession is proved by a signature over the registration. *)
Definition proven_key (stored : StoredLobby) (player : PlayerId) (request : RegisterSessionEndpointRequest)
    : result (option SessionPublicKey) ApiError :=
  match register_key request, register_proof request with
  | Some key, Some proof =>
      match parse_ip (register_address request) with
      | None => Err lobby_not_found
      | Some ip =>
          let digest := canonical_keyreg_digest (lobby_id (lobby stored)) player (register_generation request)
                          (register_revision request) ip (register_port request) key in
          match verify_digest key digest proof with
          | Err _ => Err (api_error 422 "session_key_proof_invalid" false)
          | Ok _ => Ok (Some key)
          end
      end
  | None, None => if dry_run stored then Ok None else Err (api_error 422 "session_identity_required" false)
  | _, _ => Err (api_error 422 "session_identity_required" false)
  end.
Definition claims_node (player : PlayerId) (request : RegisterSessionEndpointRequest) (existing : SessionEndpointRecord) : bool :=
  negb (bool_decide (endpoint_player existing = player))
  && (bool_decide (endpoint_address existing = register_address request)
      || is_some_and (register_node request) (fun node => bool_decide (endpoint_node existing = Some node))).
Definition endpoint_of (player : PlayerId) (request : RegisterSessionEndpointRequest) (key : option SessionPublicKey)
    (now : UnixMillis) : SessionEndpointRecord :=
  mkSessionEndpointRecord player (register_generation request) (register_revision request) (register_sequence request)
    (register_address request) (register_port request) key (register_node request) now.
Definition retain_endpoints (now : UnixMillis) (endpoints : Endpoints) : Endpoints :=
  filter (fun '(_, record) => unexpired_at now record = true) endpoints.
(** The registration proper: what it leaves in memory, and its refusal. *)
Definition record_endpoint (endpoints : Endpoints) (player : PlayerId) (request : RegisterSessionEndpointRequest)
    (key : option SessionPublicKey) (now : UnixMillis) : Endpoints * result unit ApiError :=
  let kept := retain_endpoints now endpoints in
  if is_some_and (kept !! player) (fun existing => register_sequence request <=? endpoint_sequence existing)
  then (kept, Err (api_error 409 "endpoint_sequence_replayed" false))
  else if existsb (claims_node player request) (btree_values kept)
  then (kept, Err (api_error 409 "node_already_claimed" false))
  else (<[player := endpoint_of player request key now]> kept, Ok tt).
Definition register_session_endpoint (signing : SigningKey) (stored : StoredLobby) (endpoints : Endpoints) (player : PlayerId)
    (request : RegisterSessionEndpointRequest) (now : UnixMillis)
    : Endpoints * result (Lobby * LobbySessionProjection) (fault ApiError) :=
  if negb (register_admitted stored player request) then (endpoints, Err (Raised lobby_not_found))
  else
    match proven_key stored player request with
    | Err e => (endpoints, Err (Raised e))
    | Ok key =>
        match record_endpoint endpoints player request key now with
        | (endpoints, Err e) => (endpoints, Err (Raised e))
        | (endpoints, Ok _) =>
            match session_projection signing stored endpoints now with
            | Err e => (endpoints, Err e)
            | Ok projection => (endpoints, Ok (snapshot stored, projection))
            end
        end
    end.
End Keys.
