(* ===== verification/SessionEndpointsRun.v ===== *)
(** * What a session projection is worth

    Over any registrations the addresses and node keys of one lobby stay apart and every
    session key is proved; the signed projection then stands for the whole roster. An
    address in two spellings is the gap. *)

From Stdlib Require Import Strings.String.
From stdpp Require Import gmap.
From S2P Require Import Prelude MachineInt Ordered Clock Bytes Identifiers WireVersion LobbyLifecycle Model Session IpText Rehearsal Election Store LobbyService.
From S2P Require Import LobbyServiceRun PeerRun LobbyServiceMatch SessionEndpoints.
Open Scope Z_scope.

(** ** Registrations over time *)

Section Endpoints.
Context `{Crypto}.
Context (id : LobbyId).

(** The registrations of one lobby: a request of whatever rider against whatever record
    of that lobby, or all forgotten (a leave, a start, a deletion). *)
Inductive session_step (endpoints : Endpoints) : Endpoints -> Prop :=
| step_register signing stored player request now :
    lobby_id (lobby stored) = id ->
    session_step endpoints (register_session_endpoint signing stored endpoints player request now).1
| step_forget : session_step endpoints ∅.

(** Possession of [key] was proved for this registration. *)
Definition proved (player : PlayerId) (generation revision : Z) (ip : IpAddr) (port : Z) (key : SessionPublicKey) : Prop :=
  exists proof, verify_digest key (canonical_keyreg_digest id player generation revision ip port key) proof = Ok tt.

Record endpoint_ok (player : PlayerId) (r : SessionEndpointRecord) : Prop := {
  eok_player : endpoint_player r = player;
  eok_address : exists ip, parse_ip (endpoint_address r) = Some ip;
  eok_port : endpoint_port r <> 0;
  eok_key : forall key ip, endpoint_key r = Some key -> parse_ip (endpoint_address r) = Some ip ->
    proved player (endpoint_generation r) (endpoint_revision r) ip (endpoint_port r) key;
}.
Definition apart (r s : SessionEndpointRecord) : Prop :=
  endpoint_address r <> endpoint_address s /\ forall node, endpoint_node r = Some node -> endpoint_node s <> Some node.
Record endpoints_ok (endpoints : Endpoints) : Prop := {
  eps_each : map_Forall endpoint_ok endpoints;
  eps_apart : forall p q r s, p <> q -> endpoints !! p = Some r -> endpoints !! q = Some s -> apart r s;
}.

Lemma apart_sym r s : apart r s -> apart s r.
Proof. intros [Ha Hn]. split; [done|]. intros node Hs Hr. by apply (Hn node). Qed.
Lemma endpoints_ok_subseteq endpoints kept : kept ⊆ endpoints -> endpoints_ok endpoints -> endpoints_ok kept.
Proof.
  intros Hsub [Heach Hap]. split.
  - intros p r Hp. apply Heach. by eapply lookup_weaken.
  - intros p q r s Hne Hp Hq. eapply Hap; [done|by eapply lookup_weaken..].
Qed.
Lemma retain_subseteq now endpoints : retain_endpoints now endpoints ⊆ endpoints.
Proof. apply map_filter_subseteq. Qed.

Lemma address_valid_parses value : tailnet_address_is_valid value = true -> exists ip, parse_ip value = Some ip.
Proof. unfold tailnet_address_is_valid. destruct (parse_ip value) as [ip|]; [by exists ip|done]. Qed.
Lemma proven_key_Ok stored player request key ip :
  proven_key stored player request = Ok (Some key) -> parse_ip (register_address request) = Some ip -> lobby_id (lobby stored) = id ->
  proved player (register_generation request) (register_revision request) ip (register_port request) key.
Proof.
  unfold proven_key. destruct (register_key request) as [k|], (register_proof request) as [proof|]; try done; [|by destruct (dry_run stored)].
  intros Hv Hip Hid. rewrite Hip in Hv. destruct (verify_digest _ _ _) as [[]|] eqn:Hok; [|done]. injection Hv as <-.
  exists proof. by rewrite Hid in Hok.
Qed.
Lemma not_claimed player request kept q s :
  existsb (claims_node player request) (btree_values kept) = false -> kept !! q = Some s -> endpoint_player s <> player ->
  endpoint_address s <> register_address request /\ forall node, register_node request = Some node -> endpoint_node s <> Some node.
Proof.
  intros Hnone Hs Hq. assert (Hc : claims_node player request s = false).
  { apply not_true_iff_false. intros Ht. apply not_true_iff_false in Hnone. apply Hnone. apply existsb_exists. exists s. split; [|done].
    apply list_elem_of_In, elem_of_btree_values. by exists q. }
  unfold claims_node in Hc. rewrite bool_decide_false in Hc by done. cbn in Hc. apply orb_false_iff in Hc as [Ha Hn].
  apply bool_decide_eq_false in Ha. split; [done|]. intros node Hnode. rewrite Hnode in Hn. by apply bool_decide_eq_false in Hn.
Qed.

Lemma record_endpoint_ok endpoints player request key now :
  endpoints_ok endpoints ->
  (forall ip, parse_ip (register_address request) = Some ip -> forall k, key = Some k ->
     proved player (register_generation request) (register_revision request) ip (register_port request) k) ->
  (exists ip, parse_ip (register_address request) = Some ip) -> register_port request <> 0 ->
  endpoints_ok (record_endpoint endpoints player request key now).1.
Proof.
  intros Hok Hkey Hip Hport. unfold record_endpoint. cbv zeta.
  assert (Hkept := endpoints_ok_subseteq _ _ (retain_subseteq now endpoints) Hok).
  set (kept := retain_endpoints now endpoints) in *. clearbody kept.
  destruct (is_some_and _ _); [exact Hkept|]. destruct (existsb _ _) eqn:Hc; [exact Hkept|]. cbn [fst].
  destruct Hkept as [Heach Hap].
  assert (Hnew : forall q s, q <> player -> kept !! q = Some s -> apart (endpoint_of player request key now) s).
  { intros q s Hne Hs. assert (Hq : endpoint_player s <> player) by (rewrite (eok_player _ _ (Heach _ _ Hs)); done).
    destruct (not_claimed _ _ _ _ _ Hc Hs Hq) as [Ha Hn]. split; [by apply not_eq_sym|exact Hn]. }
  split.
  - apply map_Forall_insert_2; [|done]. split; [done|done|done|]. intros k ip Hk Hp. by apply Hkey.
  - intros p q r s Hne Hp Hq. destruct (decide (p = player)) as [->|Hpp]; [|destruct (decide (q = player)) as [->|Hqq]].
    + rewrite lookup_insert_eq in Hp. injection Hp as <-. rewrite lookup_insert_ne in Hq by done. by apply (Hnew q).
    + rewrite lookup_insert_eq in Hq. injection Hq as <-. rewrite lookup_insert_ne in Hp by done. apply apart_sym. by apply (Hnew p).
    + rewrite lookup_insert_ne in Hp by done. rewrite lookup_insert_ne in Hq by done. by apply (Hap p q).
Qed.

Lemma register_ok signing stored endpoints player request now :
  lobby_id (lobby stored) = id -> endpoints_ok endpoints ->
  endpoints_ok (register_session_endpoint signing stored endpoints player request now).1.
Proof.
  intros Hid Hok. unfold register_session_endpoint. destruct (register_admitted _ _ _) eqn:Ha; cbn [negb]; [|done].
  unfold register_admitted in Ha. btrue. destruct (proven_key _ _ _) as [key|e] eqn:Hk; [|done].
  assert (Hrec : endpoints_ok (record_endpoint endpoints player request key now).1).
  { apply record_endpoint_ok; [done| |by apply address_valid_parses|lia].
    intros ip Hip k ->. by eapply proven_key_Ok. }
  destruct (record_endpoint _ _ _ _ _) as [kept [[]|e]]; [|exact Hrec]. by destruct (session_projection _ _ _ _).
Qed.
Lemma session_run_ok endpoints endpoints' : rtc session_step endpoints endpoints' -> endpoints_ok endpoints -> endpoints_ok endpoints'.
Proof.
  intros Hrun. induction Hrun as [|e1 e2 e3 Hstep _ IH]; [done|]. intros Hok. apply IH.
  destruct Hstep; [by apply register_ok|]. split; [apply map_Forall_empty|]. intros p q r s _ Hp. by rewrite lookup_empty in Hp.
Qed.
Lemma empty_ok : endpoints_ok ∅.
Proof. split; [apply map_Forall_empty|]. intros p q r s _ Hp. by rewrite lookup_empty in Hp. Qed.

(** ** The peers of a projection *)

(** A registration the projection of [stored] counts. *)
Definition current (stored : StoredLobby) (endpoints : Endpoints) (now : UnixMillis) (player : PlayerId) (r : SessionEndpointRecord) : Prop :=
  endpoints !! player = Some r /\ projected stored now r = true.
(** Every rider registered a session key for the present roster and generation. *)
Definition complete (stored : StoredLobby) (endpoints : Endpoints) (now : UnixMillis) : Prop :=
  roster (lobby stored) <> [] /\
  forall player, player ∈ player_ids stored -> exists r, current stored endpoints now player r /\ is_Some (endpoint_key r).
(** Two riders registered one address, each in a spelling of its own. *)
Definition respelled (stored : StoredLobby) (endpoints : Endpoints) (now : UnixMillis) : Prop :=
  exists p q r s ip, p <> q /\ current stored endpoints now p r /\ current stored endpoints now q s /\
    parse_ip (endpoint_address r) = Some ip /\ parse_ip (endpoint_address s) = Some ip.

Context (stored : StoredLobby) (endpoints : Endpoints) (now : UnixMillis).
Hypothesis Hok : endpoints_ok endpoints.

Lemma in_session_peers peer : peer ∈ session_peers stored endpoints now <->
  exists player r, current stored endpoints now player r /\ peer = peer_of r.
Proof.
  unfold session_peers. rewrite list_elem_of_In, in_map_iff. setoid_rewrite filter_In.
  setoid_rewrite <- list_elem_of_In. setoid_rewrite elem_of_btree_values. unfold current. naive_solver.
Qed.
Lemma current_player player r : current stored endpoints now player r -> endpoint_player r = player.
Proof. intros [Hr _]. by apply (eps_each _ Hok _ _ Hr). Qed.
Lemma current_seated player r : current stored endpoints now player r -> player ∈ player_ids stored.
Proof.
  intros Hr. rewrite <- (current_player _ _ Hr). destruct Hr as [_ Hp]. unfold projected in Hp. btrue.
  by apply in_roster_true.
Qed.
Lemma peers_NoDup : NoDup (peer_player <$> session_peers stored endpoints now).
Proof.
  unfold session_peers. assert (Hl : forall p r, (p, r) ∈ btree_list endpoints -> endpoint_player r = p).
  { intros p r Hp. apply elem_of_btree_list in Hp. by apply (eps_each _ Hok _ _ Hp). }
  pose proof (btree_keys_NoDup endpoints) as Hnd. unfold btree_keys, btree_values in *.
  induction (btree_list endpoints) as [|[p r] l IH]; [constructor|]. cbn in Hnd |- *. apply NoDup_cons in Hnd as [Hp Hnd].
  assert (IH' := IH (fun p r Hin => Hl p r ltac:(by right)) Hnd). destruct (projected stored now r); [|done].
  cbn. apply NoDup_cons. split; [|done]. intros Hin. apply Hp. cbn in Hin. rewrite (Hl p r ltac:(left)) in Hin.
  apply list_elem_of_fmap in Hin as (peer & -> & Hpeer). apply list_elem_of_In, in_map_iff in Hpeer as (r' & <- & Hr').
  apply filter_In in Hr' as [Hr' _]. apply list_elem_of_In, list_elem_of_fmap in Hr' as ([p' r''] & -> & Hin). cbn.
  rewrite (Hl p' r'') by (by right). apply list_elem_of_fmap. by exists (p', r'').
Qed.
Lemma peers_seated : peer_player <$> session_peers stored endpoints now ⊆ player_ids stored.
Proof.
  intros p Hp. apply list_elem_of_fmap in Hp as (peer & -> & (player & r & Hr & ->)%in_session_peers). cbn.
  rewrite (current_player _ _ Hr). by eapply current_seated.
Qed.

Lemma is_secure_iff : NoDup (player_ids stored) ->
  is_secure stored (session_peers stored endpoints now) = true <-> complete stored endpoints now.
Proof.
  intros Hnd. unfold is_secure, complete. rewrite !andb_true_iff, negb_true_iff, bool_decide_eq_false, Nat.eqb_eq, forallb_forall.
  assert (Hlen : length (session_peers stored endpoints now) = length (roster (lobby stored)) <->
                 player_ids stored ⊆ peer_player <$> session_peers stored endpoints now).
  { split.
    - intros Hlen. assert (Hp : peer_player <$> session_peers stored endpoints now ≡ₚ player_ids stored).
      { apply submseteq_length_Permutation; [apply NoDup_submseteq; [apply peers_NoDup|apply peers_seated]|].
        unfold player_ids. rewrite !length_fmap. lia. }
      intros p. by rewrite Hp.
    - intros Hsub. apply Nat.le_antisymm.
      + rewrite <- (length_fmap peer_player (session_peers _ _ _)), <- (length_fmap player_id (roster _)).
        apply submseteq_length, NoDup_submseteq; [apply peers_NoDup|apply peers_seated].
      + rewrite <- (length_fmap peer_player (session_peers _ _ _)), <- (length_fmap player_id (roster _)).
        by apply submseteq_length, NoDup_submseteq. }
  rewrite Hlen. split.
  - intros [[Hne Hsub] Hkeys]. split; [done|]. intros player Hp. apply Hsub, list_elem_of_fmap in Hp as (peer & -> & Hpeer).
    specialize (Hkeys peer (proj1 (list_elem_of_In _ _) Hpeer)). apply in_session_peers in Hpeer as (player & r & Hr & ->).
    cbn in *. rewrite (current_player _ _ Hr). exists r. split; [done|]. by apply is_some_true.
  - intros [Hne Hall]. split_and!; [done| |].
    + intros player Hp. destruct (Hall _ Hp) as (r & Hr & _). apply list_elem_of_fmap. exists (peer_of r).
      split; [cbn; by rewrite (current_player _ _ Hr)|]. apply in_session_peers. by exists player, r.
    + intros peer Hpeer. apply list_elem_of_In, in_session_peers in Hpeer as (player & r & Hr & ->). cbn. apply is_some_true.
      destruct (Hall _ (current_seated _ _ Hr)) as (r' & Hr' & Hk). destruct Hr as [Hr _], Hr' as [Hr' _]. rewrite Hr in Hr'. by injection Hr' as <-.
Qed.
End Endpoints.

(** ** The signed manifest *)

Lemma NoDup_omap_apart {A B} `{EqDecision B} (key : A -> B) {C} (f : A -> option C) (l : list A) :
  NoDup (key <$> l) -> (forall a b, a ∈ l -> b ∈ l -> key a <> key b -> forall c, f a = Some c -> f b <> Some c) -> NoDup (omap f l).
Proof.
  induction l as [|a l IH]; [constructor|]. rewrite fmap_cons. intros [Ha Hnd]%NoDup_cons Hap. cbn.
  assert (IH' : NoDup (omap f l)) by (apply IH; [done|]; intros x y Hx Hy; apply Hap; by right).
  destruct (f a) as [c|] eqn:Hc; [|done]. apply NoDup_cons. split; [|done]. intros (b & Hb & Hbc)%list_elem_of_omap.
  apply (Hap a b) with c; [left|by right| |done|done]. intros Hk. apply Ha. rewrite Hk. by apply list_elem_of_fmap_2.
Qed.
Lemma NoDup_or_twice {A B C} `{EqDecision C} (key : A -> B) (f : A -> C) (l : list A) :
  NoDup (key <$> l) -> NoDup (f <$> l) \/ exists a b, a ∈ l /\ b ∈ l /\ key a <> key b /\ f a = f b.
Proof.
  induction l as [|a l IH]; [left; constructor|]. rewrite !fmap_cons. intros [Ha Hnd]%NoDup_cons.
  destruct (IH Hnd) as [IH'|(x & y & Hx & Hy & Hne)]; [|right; exists x, y; split_and!; [by right|by right|apply Hne..]].
  destruct (decide (f a ∈ f <$> l)) as [Hin|Hin]; [|left; by apply NoDup_cons]. right.
  apply list_elem_of_fmap in Hin as (b & Hb & Hbl). exists a, b. split_and!; [left|by right| |done].
  intros Hk. apply Ha. rewrite Hk. by apply list_elem_of_fmap_2.
Qed.

Section Signed.
Context `{CryptoSound}.
Context (id : LobbyId) (stored : StoredLobby) (endpoints : Endpoints) (now : UnixMillis) (signing : SigningKey).
Hypothesis Hok : endpoints_ok id endpoints.
Hypothesis Hid : lobby_id (lobby stored) = id.
Hypothesis Hdistinct : NoDup (player_ids stored).

(** What the entry of a player in the manifest was made from. *)
Definition entry_from (e : RosterManifestEntry) : Prop := exists r,
  current stored endpoints now (entry_player_id e) r /\ endpoint_key r = Some (session_public_key e) /\
  parse_ip (endpoint_address r) = Some (tailnet_address e) /\ application_port e = endpoint_port r /\ node_key e = endpoint_node r.

Lemma manifest_entries : complete stored endpoints now ->
  exists l, mapM manifest_entry (session_peers stored endpoints now) = Some l /\ Forall entry_from l /\
    entry_player_id <$> l = peer_player <$> session_peers stored endpoints now.
Proof.
  intros [_ Hall]. destruct (mapM manifest_entry (session_peers stored endpoints now)) as [l|] eqn:Hl.
  - exists l. split; [done|]. apply mapM_Some in Hl.
    assert (Hin : forall peer, peer ∈ session_peers stored endpoints now -> exists player r, current stored endpoints now player r /\ peer = peer_of r).
    { intros peer. apply in_session_peers. }
    induction Hl as [|peer e peers l He _ IH]; [by split; [constructor|]|].
    destruct (IH ltac:(intros p Hp; apply Hin; by right)) as [IH1 IH2]. rewrite !fmap_cons, IH2.
    destruct (Hin peer ltac:(left)) as (player & r & Hr & ->). unfold manifest_entry in He. cbn in He.
    destruct (endpoint_key r) as [key|] eqn:Hkey; [|done]. destruct (parse_ip _) as [ip|] eqn:Hip; [|done]. injection He as <-.
    split; [|done]. constructor; [|done]. exists r. cbn. rewrite (current_player id _ _ _ Hok _ _ Hr). done.
  - exfalso. apply eq_None_not_Some in Hl. apply Hl, mapM_is_Some, Forall_forall.
    intros peer (player & r & Hr & ->)%in_session_peers. unfold manifest_entry. cbn.
    destruct (Hall _ (current_seated id _ _ _ Hok _ _ Hr)) as (r' & Hr' & Hk). destruct Hr as [Hr _], Hr' as [Hr' _].
    rewrite Hr in Hr'. injection Hr' as <-. destruct Hk as [key ->].
    destruct (eok_address _ _ _ (eps_each _ _ Hok _ _ Hr)) as [ip ->]. by eexists.
Qed.

Lemma entries_validate l : Forall entry_from l -> NoDup (entry_player_id <$> l) ->
  validate_entries ∅ ∅ ∅ l = Ok tt \/ respelled stored endpoints now.
Proof.
  intros Hfrom Hnd. rewrite Forall_forall in Hfrom.
  destruct (NoDup_or_twice entry_player_id tailnet_address l Hnd) as [Hip|(a & b & Ha & Hb & Hne & Heq)].
  - left. apply validate_entries_iff. split_and!; [|done|done| |set_solver].
    + apply Forall_forall. intros e He. destruct (Hfrom e He) as (r & [Hr _] & _ & _ & -> & _). by apply (eps_each _ _ Hok _ _ Hr).
    + apply (NoDup_omap_apart entry_player_id); [done|]. intros a b Ha Hb Hne node.
      destruct (Hfrom a Ha) as (r & [Hr _] & _ & _ & _ & ->), (Hfrom b Hb) as (s & [Hs _] & _ & _ & _ & ->).
      by apply (eps_apart _ _ Hok _ _ _ _ Hne Hr Hs).
  - right. destruct (Hfrom a Ha) as (r & Hr & _ & Hra & _), (Hfrom b Hb) as (s & Hs & _ & Hsb & _).
    exists (entry_player_id a), (entry_player_id b), r, s, (tailnet_address a). rewrite Heq in *. done.
Qed.

(** The projection is signed for exactly this roster: a valid manifest of the lobby, its
    generations and revision, with one entry for each rider, whose key was proved. *)
Definition signed_for (p : LobbySessionProjection) : Prop := exists m signature,
  projection_hash p = Some (roster_hash m) /\ projection_signature p = Some signature /\
  verify_digest (projection_public_key p) (canonical_manifest_digest (projection_public_key p) m) signature = Ok tt /\
  manifest_validate m = Ok tt /\ manifest_lobby_id m = id /\
  network_generation m = sl_generation stored /\ Session.session_generation m = session_generation stored /\
  Session.roster_revision m = roster_revision stored /\
  entry_player_id <$> entries m ≡ₚ player_ids stored /\
  Forall (fun e => proved id (entry_player_id e) (sl_generation stored) (roster_revision stored) (tailnet_address e)
                     (application_port e) (session_public_key e)) (entries m).

Lemma projection_spec :
  match session_projection signing stored endpoints now with
  | Ok p => (projection_secure p = true <-> complete stored endpoints now) /\ (projection_secure p = true -> signed_for p)
  | Err e => e = Raised (internal_error false) /\ complete stored endpoints now /\ respelled stored endpoints now
  end.
Proof.
  unfold session_projection. pose proof (is_secure_iff id _ _ now Hok Hdistinct) as Hiff.
  destruct (is_secure stored (session_peers stored endpoints now)); [|split; [split; [done|by intros ?%Hiff]|done]].
  destruct Hiff as [Hc _]. specialize (Hc eq_refl). unfold signed_manifest.
  destruct (manifest_entries Hc) as (l & -> & Hfrom & Hplayers).
  assert (Hnd : NoDup (entry_player_id <$> l)) by (rewrite Hplayers; by apply (peers_NoDup id)).
  assert (Hperm : entry_player_id <$> l ≡ₚ player_ids stored).
  { apply NoDup_Permutation; [done|done|]. intros p. rewrite Hplayers. split; [apply (peers_seated id _ _ _ Hok)|].
    intros Hp. destruct (proj2 Hc p Hp) as (r & Hr & _). apply list_elem_of_fmap. exists (peer_of r).
    split; [cbn; by rewrite (current_player id _ _ _ Hok _ _ Hr)|]. apply in_session_peers. by exists p, r. }
  set (m := mkRosterManifest _ _ _ _ l). destruct (manifest_validate m) as [[]|e] eqn:Hv.
  - cbn. split; [done|]. intros _. eexists m, _. split_and!; try done.
    + unfold verify_digest. cbn. by rewrite verifying_key_valid, signature_verifies.
    + rewrite Forall_forall in Hfrom |- *. intros e He. destruct (Hfrom e He) as (r & [Hr Hp] & Hk & Hip & -> & _).
      unfold projected in Hp. btrue. pose proof (eok_key _ _ _ (eps_each _ _ Hok _ _ Hr) _ _ Hk Hip) as Hproved.
      by replace (sl_generation stored) with (endpoint_generation r) by lia; replace (roster_revision stored) with (endpoint_revision r) by lia.
  - split; [done|]. split; [done|]. destruct (entries_validate l Hfrom Hnd) as [Hval|]; [|done]. exfalso.
    destruct l as [|x l]; [|change (validate_entries ∅ ∅ ∅ (x :: l) = Err e) in Hv; congruence]. destruct Hc as [Hne _]. apply Hne.
    apply Permutation_nil_l in Hperm. unfold player_ids in Hperm. symmetry in Hperm. by apply fmap_nil_inv in Hperm.
Qed.
End Signed.

(** C14. A session is signed for exactly its riders. Whatever was registered and forgotten
    before: the projection of a lobby never panics; it is secure exactly when every rider
    of the present roster has a registration with a session key for the present network
    and roster that is at most sixty seconds old. A secure projection carries the hash of
    a valid manifest with one entry for each rider and nobody else, in which the
    possession of each session key was proved for just this lobby, roster, address and
    port, and a signature that verifies under the lobby's manifest key. Only when two
    riders registered one address in two spellings is it refused. *)
Theorem session_signed_for_roster `{CryptoSound} (id : LobbyId) (endpoints : Endpoints) (signing : SigningKey) (stored : StoredLobby)
    (now : UnixMillis) (Hrun : rtc (session_step id) ∅ endpoints) (Hid : lobby_id (lobby stored) = id) (Hok : lobby_ok stored) :
  match session_projection signing stored endpoints now with
  | Ok p => (projection_secure p = true <-> complete stored endpoints now) /\ (projection_secure p = true -> signed_for id stored p)
  | Err e => e = Raised (internal_error false) /\ complete stored endpoints now /\ respelled stored endpoints now
  end.
Proof.
  apply projection_spec; [|done|exact (ok_distinct _ (ok_roster _ Hok))]. eapply session_run_ok; [exact Hrun|apply empty_ok].
Qed.

(** ** A session of two riders *)

Module SessionDemo.
Import ServiceDemo PeerDemo.

Definition lobby : LobbyId := lobby_id (Store.lobby demo_ready).
Definition demo_register (n : Z) (address : string) : RegisterSessionEndpointRequest :=
  let key := mkSessionPublicKey (repeat n 32) in
  let address := bytes_of_string address in
  let digest := canonical_keyreg_digest lobby (demo_rider n) (sl_generation demo_ready) (roster_revision demo_ready)
                  (default (V4 []) (parse_ip address)) 7000 key in
  mkRegisterSessionEndpointRequest (sl_generation demo_ready) (roster_revision demo_ready) 1 address 7000 (Some key)
    (Some (mkSessionSignature (sign_bytes (Crypto := demo_crypto) n digest))) None.
Definition registered (endpoints : Endpoints) (n : Z) (address : string) : Endpoints :=
  (register_session_endpoint (9 : SigningKey) demo_ready endpoints (demo_rider n) (demo_register n address) 40500).1.
Definition demo_endpoints : Endpoints := registered (registered ∅ 1 "fd7a:115c:a1e0::1") 2 "100.64.0.2".
Definition demo_respelled : Endpoints := registered (registered ∅ 1 "fd7a:115c:a1e0::1") 2 "FD7A:115C:A1E0:0::1".

Lemma registered_step endpoints n address : session_step lobby endpoints (registered endpoints n address).
Proof. by apply step_register. Qed.
Lemma demo_endpoints_run : rtc (session_step lobby) ∅ demo_endpoints.
Proof. do 2 (eapply rtc_r; [|apply registered_step]). apply rtc_refl. Qed.
Lemma ready_lobby_ok : lobby_ok demo_ready.
Proof.
  apply (service_run_ok demo_new); [|apply demo_new_ok]. unfold demo_ready, demo_reported, demo_joined.
  repeat (eapply rtc_r; [|apply served_step; vm_compute; discriminate]). apply rtc_refl.
Qed.
Definition is_signed (r : result LobbySessionProjection (fault ApiError)) : bool :=
  match r with Ok p => projection_secure p | Err _ => false end.
Lemma demo_signed : is_signed (session_projection (9 : SigningKey) demo_ready demo_endpoints 41000) = true.
Proof. vm_compute. reflexivity. Qed.

(** The addresses are compared as text when they are registered and as addresses when the
    manifest is made: a rider who registers another's address in a second spelling is
    admitted, and from then on the lobby's projection, and with it every poll and the
    start, is answered with an internal error. *)
Lemma respelled_address_stalls_session :
  size demo_respelled = 2%nat /\
  session_projection (9 : SigningKey) demo_ready demo_respelled 41000 = Err (Raised (internal_error false)).
Proof. vm_compute. split; reflexivity. Qed.
End SessionDemo.
Import SessionDemo PeerDemo.

Lemma session_signed_for_roster_witness :
  exists p, session_projection (9 : SigningKey) ServiceDemo.demo_ready demo_endpoints 41000 = Ok p /\
    complete ServiceDemo.demo_ready demo_endpoints 41000 /\ signed_for SessionDemo.lobby ServiceDemo.demo_ready p.
Proof.
  pose proof (session_signed_for_roster SessionDemo.lobby demo_endpoints (9 : SigningKey) ServiceDemo.demo_ready 41000
                demo_endpoints_run eq_refl ready_lobby_ok) as Hw.
  pose proof demo_signed as Hs. unfold is_signed in Hs.
  destruct (session_projection _ _ _ _) as [p|e]; [|discriminate Hs]. exists p. split; [reflexivity|].
  destruct Hw as [Hc Hm]. split; [apply Hc; exact Hs|apply Hm; exact Hs].
Defined.
