(* ===== verification/LobbyCreate.v ===== *)
(** * The creation of a lobby ([spurfire-server/src/service.rs], [create_lobby_impl])

    From a parsed request to the stored record: what the request may ask for, the record
    and its creator's capability, the two writes before the provider is called, and what
    its answer makes of the record. The store is the file store of [Store]; whether each
    of its writes succeeds, and what the provider answers, are arguments. A creation keeps
    the log of its store operations and provider calls. Left out are the parsing of
    headers and bodies, the request budgets and the plaintext of capabilities; the clock
    is read once for the admission and once for the record. *)

From Stdlib Require Import Strings.String.
From stdpp Require Import gmap.
From S2P Require Import Prelude MachineInt Ordered Clock Bytes Identifiers WireVersion LobbyLifecycle Model Session Rehearsal Election.
From S2P Require Import NetworkInspection ServerCrypto Store NetworkView LobbyService.
Open Scope Z_scope.
Open Scope step_scope.

Definition IDLE_TTL_MS : Z := 10 * 60 * 1000.
Definition ABSOLUTE_TTL_MS : Z := 60 * 60 * 1000.
Definition CREATOR_CAPABILITY_CLEANUP_GRACE_MS : Z := 15 * 60 * 1000.

(** ** The request, the deployment and the provider *)

Record CreateLobbyRequest := mkCreateLobbyRequest {
  create_display_name : list Z;
  create_max_players : Z;
  create_provisioning_mode : ProvisioningMode;
}.
(** Display names are checked as in a join; [None] is a valid request. *)
Definition create_invalid (self : CreateLobbyRequest) (dry : bool) : option ApiError :=
  match validate_display_name (create_display_name self) with
  | Err e => Some (validation_error e dry)
  | Ok _ =>
      if (create_max_players self =? 0) || (create_max_players self >? MAX_PLAYERS)
      then Some (api_error 422 "invalid_request" dry) else None
  end.

(** The switches of the deployment that a creation reads. *)
Record Config := mkConfig {
  bind_is_loopback : bool;
  dry_run_ttl_ms : Z;
  config_max_players : Z;
  config_provisioning_mode : ProvisioningMode;
  force_dry_run : bool;
  real_mutations_enabled : bool;
  real_admission_enabled : bool;
  allow_legacy_client_assertions : bool;
  trust_forwarded_for : bool;
  test_only_allow_legacy_real_mutations : bool;
}.
Record ProviderCapabilities := mkProviderCapabilities {
  oauth_token_ok : bool;
  can_manage_organization_tailnets : bool;
  can_mint_auth_keys : bool;
  can_list_devices : bool;
  can_manage_acl : bool;
}.
Definition shared_tailnet_available (self : ProviderCapabilities) : bool :=
  oauth_token_ok self && can_mint_auth_keys self && can_list_devices self && can_manage_acl self.
Definition tailnet_per_lobby_available (self : ProviderCapabilities) : bool :=
  oauth_token_ok self && can_manage_organization_tailnets self.
Definition mode_available (self : ProviderCapabilities) (mode : ProvisioningMode) : bool :=
  match mode with
  | SharedTailnet => shared_tailnet_available self
  | TailnetPerLobby => tailnet_per_lobby_available self
  | DryRun => true
  end.
Definition blocked_state_reason (self : ProviderCapabilities) (mode : ProvisioningMode) : list Z :=
  bytes_of_string
    (if negb (oauth_token_ok self) then "token_fetch_failed"
     else match mode with
          | TailnetPerLobby => "provisioning_blocked_organization_tailnets"
          | _ => if negb (can_mint_auth_keys self) then "provisioning_blocked_auth_keys_403"
                 else if negb (can_list_devices self) then "provisioning_blocked_devices_403"
                 else "provisioning_blocked_acl_403"
          end).

(** What the process holds besides its configuration. *)
Record AppState := mkAppState {
  config : Config;
  startup_reconciled : bool;
  local_rehearsal : option LocalRehearsalQualification;
  protected_alpha : option ProtectedAlphaQualification;
  cached_capabilities : ProviderCapabilities;
}.
Definition alpha_open (now : UnixMillis) (q : ProtectedAlphaQualification) : bool :=
  (now <? q_expires_at q) && (now <? q_final_io_deadline q) && (now <? q_absolute_deadline q).
Definition real_creation_authorized (app : AppState) (now : UnixMillis) : bool :=
  let c := config app in
  real_mutations_enabled c
  && real_admission_enabled c
  && negb (allow_legacy_client_assertions c)
  && negb (trust_forwarded_for c)
  && (bind_is_loopback c || is_some (protected_alpha app))
  && match config_provisioning_mode c with TailnetPerLobby => true | _ => false end
  && startup_reconciled app
  && (is_some_and (local_rehearsal app) (fun q => now <? lq_expires_at q) || is_some_and (protected_alpha app) (alpha_open now))
  && tailnet_per_lobby_available (cached_capabilities app).

Record PreparedNetwork := mkPreparedNetwork {
  prepared_tailnet : list Z;
  prepared_identity : option ProviderNetworkIdentity;
  prepared_policy_digest : option (list Z);
  prepared_dry_run : bool;
}.
Record PrepareLobbyRequest := mkPrepareLobbyRequest {
  prepare_lobby_id : LobbyId;
  prepare_generation : Z;
  prepare_mode : ProvisioningMode;
  prepare_dry_run : bool;
}.

(** ** What comes with a request, and what the world answers *)

Record CreateInputs := mkCreateInputs {
  create_actor : PlayerId;
  create_key : list Z;
  create_fingerprint : ProvisioningMode -> list Z;
  header_dry_run : bool;
  local_operator : bool;
  header_capability : option (list Z);
  generated_grant : list Z;
  generated_lobby_id : LobbyId;
  generated_creator : list Z;
  admission_now : UnixMillis;
  create_now : UnixMillis;
  prepared : result PreparedNetwork ProviderError;
  grant_written : bool;
  create_written : bool;
  creating_written : bool;
  answer_written : bool;
}.

Inductive CreateEvent := StoreCall (op : StoreOp) (written : bool) | ProviderCall (request : PrepareLobbyRequest).
Record Creation := mkCreation { cr_data : StoreData; cr_log : list CreateEvent }.
Abbreviation creation := (M Creation ApiError).

Record CreateLobbyResponse := mkCreateLobbyResponse {
  created_lobby_id : LobbyId;
  created_state : LobbyState;
  created_wire_version : WireVersion;
  created_at_ms : UnixMillis;
  created_expires_at : UnixMillis;
  first_response : bool;
}.
Definition create_response (stored : StoredLobby) (first : bool) : CreateLobbyResponse :=
  mkCreateLobbyResponse (lobby_id (lobby stored)) Provisioning (lobby_wire_version (lobby stored)) (created_at (lobby stored))
    (absolute_expires_at (ttl (lobby stored))) first.

(** ** What is asked for *)

Definition effective_request_dry_run (app : AppState) (request : CreateLobbyRequest) (header : bool) : bool :=
  force_dry_run (config app) || header || match create_provisioning_mode request with DryRun => true | _ => false end.
Definition legacy_real_test_mode (app : AppState) : bool :=
  allow_legacy_client_assertions (config app) && test_only_allow_legacy_real_mutations (config app).
(** The checks up to the choice of the mode. *)
Definition effective_mode (app : AppState) (request : CreateLobbyRequest) (i : CreateInputs) (dry : bool) : result ProvisioningMode ApiError :=
  match create_invalid request dry with
  | Some e => Err e
  | None =>
      if create_max_players request >? config_max_players (config app)
      then Err (api_error 422 "max_players_exceeds_service_limit" dry)
      else if negb dry && allow_legacy_client_assertions (config app) && negb (legacy_real_test_mode app)
      then Err (api_error 503 "legacy_real_mutations_forbidden" false)
      else if dry then Ok DryRun
      else if legacy_real_test_mode app then Ok (create_provisioning_mode request)
      else if negb (real_creation_authorized app (admission_now i)) || (is_some (local_rehearsal app) && negb (local_operator i))
      then Err (api_error 503 "real_admission_closed" false)
      else match create_provisioning_mode request with
           | TailnetPerLobby => Ok TailnetPerLobby
           | _ => Err (api_error 422 "provisioning_mode_server_selected" false)
           end
  end.

Definition create_lobby_id (app : AppState) (i : CreateInputs) : LobbyId :=
  match protected_alpha app with
  | Some alpha => q_lobby_id alpha
  | None =>
      match local_operator i, local_rehearsal app with
      | true, Some local => lq_lobby_id local
      | _, _ => generated_lobby_id i
      end
  end.
Definition CREATOR_SCOPES : list LobbyCapabilityScope := [LobbyRead; LobbyInvite; LobbyManage; LobbyDestroy].
Definition lobby_tag (id : LobbyId) : list Z := bytes_of_string "tag:spurfire-lobby-" ++ to_canonical_string id.
(** The record a creation asks the store for. *)
Definition new_record (app : AppState) (request : CreateLobbyRequest) (i : CreateInputs) (dry : bool) (mode : ProvisioningMode) : StoredLobby :=
  let now := create_now i in
  let id := create_lobby_id app i in
  let absolute := if dry then dry_run_ttl_ms (config app) else ABSOLUTE_TTL_MS in
  let idle := Z.min IDLE_TTL_MS absolute in
  let lobby := mkLobby id (create_display_name request) Provisioning None [] (create_max_players request) None None
    (mkLobbyTtl (millis_saturating_add now idle) (millis_saturating_add now absolute)) M3_WIRE_VERSION mode now false in
  let creator := capability_new (generated_creator i) CREATOR_SCOPES id None 1
    (millis_saturating_add now (saturating_add 64 absolute CREATOR_CAPABILITY_CLEANUP_GRACE_MS)) in
  let stored := add_capability creator
    (stored_new lobby (create_actor i) (bytes_of_string "provisioning.invalid") (lobby_tag id) dry idle) in
  match (if local_operator i then protected_alpha app else None) with
  | Some alpha =>
      on_lobby (fun l => l <| ttl := mkLobbyTtl (Z.min (idle_expires_at (ttl l)) (q_absolute_deadline alpha)) (q_absolute_deadline alpha) |>)
        (stored <| sl_generation := q_network_generation alpha |>)
  | None => stored
  end.

(** ** What the provider's answer makes of the record *)

Definition captured (identity : ProviderNetworkIdentity) (now : UnixMillis) (stored : StoredLobby) : StoredLobby :=
  stored <| network_identity := Some (mkStoredNetworkIdentity (identity_tailnet_id identity) (identity_fqdn identity)
                                        (sl_generation stored) now) |>.
(** The network a real preparation hands over: its identity and, when dedicated, the
    evidence of its policy. The early returns leave the stored record as it is. *)
Definition adopt_network (mode : ProvisioningMode) (p : PreparedNetwork) (now : UnixMillis) (dry : bool) (stored : StoredLobby)
    : result StoredLobby ApiError :=
  match prepared_identity p with
  | None => Err (internal_error dry)
  | Some identity =>
      if negb (validate_for_mode identity mode) then Err (provider_api_error IdentityMismatch dry)
      else
        let stored := captured identity now stored in
        match mode, prepared_policy_digest p with
        | TailnetPerLobby, None => Err (internal_error dry)
        | TailnetPerLobby, Some digest =>
            Ok (stored <| child_policy_digest := Some digest |> <| child_policy_status := Some (bytes_of_string "verified") |>
                       <| sl_lifecycle := Active |>)
        | _, _ => Ok (stored <| sl_lifecycle := Active |>)
        end
  end.
Definition open_or_block (app : AppState) (mode : ProvisioningMode) (p : PreparedNetwork) (now : UnixMillis) (dry : bool) (stored : StoredLobby)
    : result StoredLobby ApiError :=
  if prepared_dry_run p || mode_available (cached_capabilities app) mode then transition Forming dry stored
  else
    match transition Failed dry stored with
    | Err e => Err e
    | Ok stored =>
        Ok (with_reason (Some (blocked_state_reason (cached_capabilities app) mode))
             (stored <| sl_lifecycle := ManualRemediation |> <| sl_cleanup_pending := true |>)
             <| terminal_at := Some now |>)
    end.
Definition accept_prepared (app : AppState) (mode : ProvisioningMode) (p : PreparedNetwork) (now : UnixMillis) (dry : bool) (stored : StoredLobby)
    : result StoredLobby ApiError :=
  let stored := stored <| tailnet := prepared_tailnet p |> <| dry_run := prepared_dry_run p |> in
  match (if prepared_dry_run p then Ok (stored <| sl_lifecycle := Simulated |>) else adopt_network mode p now dry stored) with
  | Err e => Err e
  | Ok stored => open_or_block app mode p now dry stored
  end.

Definition is_dedicated (mode : ProvisioningMode) : bool := match mode with TailnetPerLobby => true | _ => false end.
(** A child created but not confined: its identity is kept for its cleanup. *)
Definition note_gate (identity : ProviderNetworkIdentity) (digest : list Z) (status : ChildPolicyStatus) (acknowledged : bool)
    (now : UnixMillis) (stored : StoredLobby) : StoredLobby :=
  let stored := captured identity now (stored <| tailnet := dns_name (identity_fqdn identity) |>) in
  let stored := stored <| child_policy_digest := Some digest |> <| child_policy_status := Some (policy_status_text status) |>
    <| cleanup_requested_at := Some now |> in
  let stored := if acknowledged then stored <| sl_delete_acknowledged_at := Some now |> <| sl_lifecycle := VerifyingAbsence |>
                else stored <| sl_lifecycle := NetCleanupPending |> in
  with_reason (Some (provider_state_reason (ChildPolicyGate identity digest status acknowledged)))
    (stored <| sl_cleanup_pending := true |>) <| terminal_at := Some now |>.
Definition failed_lifecycle (mode : ProvisioningMode) (error : ProviderError) : NetworkLifecycle :=
  match error with
  | ProviderUnavailable _ => if is_dedicated mode then CreateUnknown else ManualRemediation
  | InsufficientScopes operation =>
      if is_dedicated mode && (operation =? "organization_tailnet_create")%string then CreateRejected else ManualRemediation
  | _ => ManualRemediation
  end.
Definition failed_reason (mode : ProvisioningMode) (error : ProviderError) : list Z :=
  match error with
  | ProviderUnavailable _ =>
      if is_dedicated mode then bytes_of_string "tailnet_create_outcome_unknown_manual_remediation" else provider_state_reason error
  | _ => provider_state_reason error
  end.
Definition refuse_prepared (mode : ProvisioningMode) (error : ProviderError) (now : UnixMillis) (dry : bool) (stored : StoredLobby)
    : result StoredLobby ApiError :=
  match transition Failed dry stored with
  | Err e => Err e
  | Ok stored =>
      Ok (match error with
          | ChildPolicyGate identity digest status acknowledged => note_gate identity digest status acknowledged now stored
          | _ =>
              let lifecycle := failed_lifecycle mode error in
              with_reason (Some (failed_reason mode error)) (stored <| sl_lifecycle := lifecycle |>)
                <| sl_cleanup_pending := negb (bool_decide (lifecycle = CreateRejected)) |> <| terminal_at := Some now |>
          end)
  end.

(** ** The whole creation *)

Section Creation.
Context `{StoreJson}.

Definition store_call (op : StoreOp) (written dry : bool) : creation StoreAnswer := fun c =>
  let '(data, r) := file_step (cr_data c) op written in
  (mkCreation data (cr_log c ++ [StoreCall op written]), map_err (fun e => store_api_error e dry) r).
Definition provider_call (request : PrepareLobbyRequest) (i : CreateInputs) : creation (result PreparedNetwork ProviderError) := fun c =>
  (mkCreation (cr_data c) (cr_log c ++ [ProviderCall request]), Ok (prepared i)).
Definition lift {A} (r : result A ApiError) : creation A := fun c => (c, r).

(** The authority a real creation is asked for with. *)
Definition create_grant (app : AppState) (i : CreateInputs) (dry : bool) : creation (option (list Z)) :=
  if dry then sret None
  else if legacy_real_test_mode app then
    do* store_call (OpIssueGrant (generated_grant i) (millis_saturating_add (create_now i) 60000)) (grant_written i) false in
    sret (Some (generated_grant i))
  else if local_operator i then
    match protected_alpha app, local_rehearsal app with
    | Some alpha, _ => sret (Some (q_launch_code_sha256 alpha))
    | None, Some local => sret (Some (lq_receipt_verifier local))
    | None, None => sfail lobby_not_found
    end
  else match header_capability i with Some verifier => sret (Some verifier) | None => sfail lobby_not_found end.

(** The call, and what its answer makes of the record. *)
Definition ask_provider (app : AppState) (i : CreateInputs) (mode : ProvisioningMode) (dry : bool) (creating : StoredLobby)
    : creation CreateLobbyResponse :=
  let* answer := provider_call (mkPrepareLobbyRequest (create_lobby_id app i) (sl_generation creating) mode dry) i in
  let* stored := lift (match answer with
    | Ok p => accept_prepared app mode p (create_now i) dry creating
    | Err error => refuse_prepared mode error (create_now i) dry creating
    end) in
  do* store_call (OpReplace stored) (answer_written i) dry in
  sret (create_response stored true).
(** What follows when the store has created the record. *)
Definition prepare_created (app : AppState) (i : CreateInputs) (mode : ProvisioningMode) (dry : bool) (created : StoredLobby)
    : creation CreateLobbyResponse :=
  let creating := if dry then created else created <| sl_lifecycle := Creating |> in
  do* (if dry then sret Done else store_call (OpReplace creating) (creating_written i) dry) in
  ask_provider app i mode dry creating.

Definition create_lobby_impl (app : AppState) (request : CreateLobbyRequest) (i : CreateInputs) : creation CreateLobbyResponse :=
  let dry := effective_request_dry_run app request (header_dry_run i) in
  let* mode := lift (effective_mode app request i dry) in
  let* grant := create_grant app i dry in
  let* outcome := store_call (OpCreate (create_key i) (create_fingerprint i mode) (create_actor i) (create_now i)
                                (new_record app request i dry mode) grant (real_mutations_enabled (config app))) (create_written i) dry in
  match outcome with
  | CreateAnswer (Created created) => prepare_created app i mode dry created
  | CreateAnswer (Replay stored) => sret (create_response stored false)
  | _ => sfail (idempotency_conflict dry)
  end.
End Creation.
