(* ===== verification/LobbyCreateRun.v ===== *)
(** * What a creation guarantees

    The provider is called once, after the store has reserved the lobby and the one lease,
    and a lobby opens only on the network the provider handed over. Two gaps concern the
    protected alpha. *)

From Stdlib Require Import Strings.String.
From stdpp Require Import gmap.
From S2P Require Import Prelude MachineInt Ordered Clock Bytes Identifiers WireVersion LobbyLifecycle Model Session Rehearsal Election.
From S2P Require Import NetworkInspection ServerCrypto Store StoreRun NetworkView LobbyService LobbyCreate.
Open Scope Z_scope.

Section Creation.
Context `{StoreJson}.

(** ** The log is a run of the store *)

Definition store_op_of (e : CreateEvent) : option (StoreOp * bool) :=
  match e with StoreCall op written => Some (op, written) | ProviderCall _ => None end.
Definition store_ops (log : list CreateEvent) : list (StoreOp * bool) := omap store_op_of log.
Definition is_provider_call (e : CreateEvent) : bool := match e with ProviderCall _ => true | StoreCall _ _ => false end.
Definition without_provider (log : list CreateEvent) : Prop := forallb (fun e => negb (is_provider_call e)) log = true.

Lemma store_run_app data ops ops' : store_run data (ops ++ ops') = store_run (store_run data ops) ops'.
Proof. unfold store_run. by rewrite foldl_app. Qed.
Lemma store_ops_app log log' : store_ops (log ++ log') = store_ops log ++ store_ops log'.
Proof. apply omap_app. Qed.

(** A computation that only appends to the log, and changes the store as it says. *)
Definition logs {A} (m : creation A) : Prop := forall c c' r, m c = (c', r) ->
  exists log, cr_log c' = cr_log c ++ log /\ cr_data c' = store_run (cr_data c) (store_ops log).
Lemma logs_bind {A B} (m : creation A) (f : A -> creation B) : logs m -> (forall a, logs (f a)) -> logs (sbind m f).
Proof.
  intros Hm Hf c c' r [(c1 & a & H1 & H2)|(e & H1 & _)]%sbind_inv; [|by eapply Hm].
  destruct (Hm _ _ _ H1) as (l1 & E1 & D1), (Hf _ _ _ _ H2) as (l2 & E2 & D2). exists (l1 ++ l2).
  by rewrite E2, E1, D2, D1, <- app_assoc, store_ops_app, store_run_app.
Qed.
Lemma logs_pure {A} (m : creation A) : (forall c, (m c).1 = c) -> logs m.
Proof. intros Hm c c' r Hc. exists []. specialize (Hm c). rewrite Hc in Hm. cbn in Hm. subst. by rewrite app_nil_r. Qed.
Lemma logs_store op written dry : logs (store_call op written dry).
Proof.
  intros c c' r. unfold store_call. destruct (file_step (cr_data c) op written) as [data a] eqn:Hstep. intros [= <- _].
  exists [StoreCall op written]. split; [done|]. cbn. by rewrite Hstep.
Qed.
Lemma logs_provider request i : logs (provider_call request i).
Proof. intros c c' r [= <- _]. by exists [ProviderCall request]. Qed.
Lemma logs_grant app i dry : logs (create_grant app i dry).
Proof.
  unfold create_grant. destruct dry; [by apply logs_pure|].
  destruct (legacy_real_test_mode app); [apply logs_bind; [apply logs_store|]; intros []; by apply logs_pure|].
  destruct (local_operator i); [destruct (protected_alpha app), (local_rehearsal app)|destruct (header_capability i)]; by apply logs_pure.
Qed.
Lemma logs_ask app i mode dry stored : logs (ask_provider app i mode dry stored).
Proof.
  apply logs_bind; [apply logs_provider|intros answer]. apply logs_bind; [by apply logs_pure|intros final].
  apply logs_bind; [apply logs_store|intros _]. by apply logs_pure.
Qed.
Lemma logs_prepare app i mode dry stored : logs (prepare_created app i mode dry stored).
Proof. apply logs_bind; [destruct dry; [by apply logs_pure|apply logs_store]|intros _]. apply logs_ask. Qed.
Lemma logs_create app request i : logs (create_lobby_impl app request i).
Proof.
  unfold create_lobby_impl. apply logs_bind; [by apply logs_pure|intros mode]. apply logs_bind; [apply logs_grant|intros grant].
  apply logs_bind; [apply logs_store|intros [|[stored|stored|]|ids]]; try (by apply logs_pure). apply logs_prepare.
Qed.

(** ** The reservation *)

(** What the store holds when the provider is called. *)
Definition reserved_for (app : AppState) (i : CreateInputs) (data : StoreData) (prepare : PrepareLobbyRequest) : Prop :=
  exists stored, lobbies data !! prepare_lobby_id prepare = Some stored /\
    state (lobby stored) = Provisioning /\ sl_generation stored = prepare_generation prepare /\
    dry_run stored = prepare_dry_run prepare /\ provisioning_mode (lobby stored) = prepare_mode prepare /\
    (prepare_dry_run prepare = false ->
      sl_lifecycle stored = Creating /\ real_mutations_enabled (config app) = true /\
      (exists lease, real_lobby_lease data = Some lease /\ holder_lobby_id lease = prepare_lobby_id prepare /\
         lease_generation lease = prepare_generation prepare) /\
      (legacy_real_test_mode app = true \/
       real_creation_authorized app (admission_now i) = true /\ prepare_mode prepare = TailnetPerLobby)).

Lemma new_record_facts app request i dry mode :
  let r := new_record app request i dry mode in
  lobby_id (lobby r) = create_lobby_id app i /\ state (lobby r) = Provisioning /\ provisioning_mode (lobby r) = mode /\ dry_run r = dry.
Proof. cbv zeta. unfold new_record. by destruct (if local_operator i then protected_alpha app else None). Qed.

Lemma effective_mode_Ok app request i dry mode : effective_mode app request i dry = Ok mode ->
  if dry then mode = DryRun
  else legacy_real_test_mode app = true \/ real_creation_authorized app (admission_now i) = true /\ mode = TailnetPerLobby.
Proof.
  unfold effective_mode. destruct (create_invalid request dry); [done|]. destruct (_ >? _); [done|]. destruct dry; [by intros [= <-]|].
  destruct (_ && _ && _); [done|]. destruct (legacy_real_test_mode app); [by left|].
  destruct (negb _ || _) eqn:Hg; [done|]. apply orb_false_iff in Hg as [Hg%negb_false_iff _].
  destruct (create_provisioning_mode request); try done. intros [= <-]. by right.
Qed.

Lemma created_reserves data key fingerprint actor now record grant allow written data' stored :
  file_step data (OpCreate key fingerprint actor now record grant allow) written = (data', Ok (CreateAnswer (Created stored))) ->
  stored = record /\ lobbies data' !! lobby_id (lobby record) = Some record /\
  (dry_run record = false -> allow = true /\ exists lease, real_lobby_lease data' = Some lease /\
     holder_lobby_id lease = lobby_id (lobby record) /\ lease_generation lease = sl_generation record).
Proof.
  cbn [file_step memory_step]. pose proof (create_cases data key fingerprint actor now record grant allow) as Hc. cbv zeta in Hc.
  destruct (create_in_data data key fingerprint actor now record grant allow) as [next r]. unfold answered, committed.
  destruct Hc as [[_ Hno]|(data1 & _ & _ & Hres & -> & ->)].
  - destruct r as [outcome|e]; [|done]. destruct written; [|done]. intros [= _ ->]. by destruct (Hno stored).
  - destruct written; [|done]. intros [= <- <-]. split; [done|]. split; [cbn; by rewrite lookup_insert_eq|]. intros Hreal.
    apply reserve_real_spec in Hres as (_ & _ & _ & [[Hd _]|(_ & -> & _ & _ & Hl & _)]); [congruence|]. split; [done|].
    eexists. split; [exact Hl|]. done.
Qed.
Lemma replaced_keeps data record written data' : holds_network record = true -> (exists lease, real_lobby_lease data = Some lease /\
     holder_lobby_id lease = lobby_id (lobby record) /\ lease_generation lease = sl_generation record) ->
  file_step data (OpReplace record) written = (data', Ok Done) ->
  lobbies data' !! lobby_id (lobby record) = Some record /\
  exists lease, real_lobby_lease data' = Some lease /\ holder_lobby_id lease = lobby_id (lobby record) /\ lease_generation lease = sl_generation record.
Proof.
  intros Hn (lease & Hl & Hh & Hg). cbn [file_step memory_step]. unfold replace_in_data.
  destruct (lobbies data !! lobby_id (lobby record)); [|done].
  set (data1 := data <| lobbies := <[lobby_id (lobby record) := record]> (lobbies data) |>).
  destruct (replace_lease_spec data1 record) as (Hlobs & _ & _ & _ & Hlease & _).
  change (real_lobby_lease data1) with (real_lobby_lease data) in Hlease. rewrite Hl in Hlease.
  unfold committed, answered. destruct written; [|done]. intros [= <-]. rewrite Hlobs. split; [apply lookup_insert_eq|].
  unfold holds_network in Hn. apply andb_true_iff in Hn as [_ Hn%negb_true_iff].
  destruct Hlease as [->|(_ & _ & [->|(_ & Hrel & _)])]; [by exists lease|by exists (lease <| lease_lifecycle := sl_lifecycle record |>)|congruence].
Qed.

Lemma without_app l l' : without_provider (l ++ l') <-> without_provider l /\ without_provider l'.
Proof. unfold without_provider. rewrite forallb_app. apply andb_true_iff. Qed.
Lemma split_unique pre p post before q after :
  without_provider pre -> without_provider post -> pre ++ ProviderCall p :: post = before ++ ProviderCall q :: after ->
  before = pre /\ q = p /\ after = post.
Proof.
  revert before. induction pre as [|e pre IH]; intros [|e' before] Hpre Hpost Heq; cbn in Heq; simplify_eq; try done.
  - apply without_app in Hpost as [_ Hq]. done.
  - destruct (IH before) as (-> & -> & ->); [|done..]. unfold without_provider in *. cbn in Hpre. by apply andb_true_iff in Hpre as [_ Hpre].
Qed.

(** How a creation reaches the provider: the store is asked, and then nothing but one
    answer is written. *)
Definition reaches (app : AppState) (i : CreateInputs) (data : StoreData) (log : list CreateEvent) : Prop :=
  exists pre prepare post, log = pre ++ ProviderCall prepare :: post /\ without_provider pre /\ without_provider post /\
    reserved_for app i (store_run data (store_ops pre)) prepare.

Lemma ask_log app i mode dry creating c c' r : ask_provider app i mode dry creating c = (c', r) ->
  exists post, without_provider post /\
    cr_log c' = cr_log c ++ ProviderCall (mkPrepareLobbyRequest (create_lobby_id app i) (sl_generation creating) mode dry) :: post.
Proof.
  unfold ask_provider. intros [(c1 & answer & [= <- <-] & Hrun)|(e & [=] & _)]%sbind_inv.
  apply sbind_inv in Hrun as [(c2 & stored & [= <- _] & Hrun)|(e & [= <- _] & _)]; [|by exists []].
  unfold sbind, store_call in Hrun. cbn [cr_log cr_data] in Hrun. exists [StoreCall (OpReplace stored) (answer_written i)]. split; [done|].
  destruct (file_step _ _ _) as [data [a|e]]; injection Hrun as <- _; cbn; by rewrite <- app_assoc.
Qed.
Lemma ask_reaches app i data mode dry creating c c' r : ask_provider app i mode dry creating c = (c', r) -> without_provider (cr_log c) ->
  reserved_for app i (store_run data (store_ops (cr_log c))) (mkPrepareLobbyRequest (create_lobby_id app i) (sl_generation creating) mode dry) ->
  reaches app i data (cr_log c').
Proof. intros (post & Hpost & ->)%ask_log Hpre Hres. by eexists _, _, post. Qed.

Section Prepare.
Variables (app : AppState) (request : CreateLobbyRequest) (i : CreateInputs) (mode : ProvisioningMode) (dry : bool) (data : StoreData).
Hypothesis Hmode : effective_mode app request i dry = Ok mode.
Let record := new_record app request i dry mode.
Let op grant := OpCreate (create_key i) (create_fingerprint i mode) (create_actor i) (create_now i) record grant (real_mutations_enabled (config app)).

Lemma prepare_reaches grant c data1 c' r :
  cr_data c = store_run data (store_ops (cr_log c)) -> without_provider (cr_log c) ->
  file_step (cr_data c) (op grant) (create_written i) = (data1, Ok (CreateAnswer (Created record))) ->
  prepare_created app i mode dry record (mkCreation data1 (cr_log c ++ [StoreCall (op grant) (create_written i)])) = (c', r) ->
  without_provider (cr_log c') \/ reaches app i data (cr_log c').
Proof.
  intros Hdata Hno Hcreate Hrun. set (log1 := cr_log c ++ [StoreCall (op grant) (create_written i)]) in Hrun.
  assert (Hno1 : without_provider log1) by (by apply without_app).
  assert (Hdata1 : store_run data (store_ops log1) = data1).
  { unfold log1. rewrite store_ops_app, store_run_app, <- Hdata. cbn -[file_step]. by rewrite Hcreate. }
  destruct (new_record_facts app request i dry mode) as (Hid & Hst & Hpm & Hdry). fold record in Hid, Hst, Hpm, Hdry.
  apply created_reserves in Hcreate as (_ & Hlob & Hlease). rewrite Hdry, Hid in Hlease. rewrite Hid in Hlob.
  apply effective_mode_Ok in Hmode. unfold prepare_created in Hrun. destruct dry.
  - right. eapply ask_reaches; [exact Hrun|done|]. cbn [cr_log]. rewrite Hdata1. by exists record.
  - destruct (Hlease eq_refl) as (Hallow & Hheld). unfold sbind, store_call in Hrun. cbn [cr_log cr_data] in Hrun.
    destruct (file_step data1 _ _) as [data2 answer] eqn:Hstep.
    assert (Hno2 : without_provider (log1 ++ [StoreCall (OpReplace (record <| sl_lifecycle := Creating |>)) (creating_written i)]))
      by (by apply without_app).
    destruct answer as [a|e]; [|left; by injection Hrun as <- _]. right. eapply ask_reaches; [exact Hrun|done|]. cbn [cr_log].
    rewrite store_ops_app, store_run_app, Hdata1.
    change (store_run data1 _) with (file_step data1 (OpReplace (record <| sl_lifecycle := Creating |>)) (creating_written i)).1. rewrite Hstep. cbn [fst].
    assert (a = Done) as ->.
    { cbn in Hstep. destruct (replace_in_data _ _) as [d [[]|]]; cbn in Hstep; [|done]. by destruct (creating_written i); [injection Hstep|]. }
    apply replaced_keeps in Hstep as (Hlob2 & Hlease2); [|unfold holds_network; cbn; by rewrite Hdry|by cbn; rewrite Hid].
    cbn in Hlob2, Hlease2. rewrite Hid in Hlob2, Hlease2. exists (record <| sl_lifecycle := Creating |>). by split_and!.
Qed.
End Prepare.

Lemma grant_asks_no_provider app i dry c c' r : create_grant app i dry c = (c', r) -> without_provider (cr_log c) -> without_provider (cr_log c').
Proof.
  intros Hrun Hno. unfold create_grant, sbind, store_call in Hrun. destruct dry; [by injection Hrun as <- _|].
  destruct (legacy_real_test_mode app).
  - destruct (file_step _ _ _) as [data [a|e]]; injection Hrun as <- _; by apply without_app.
  - destruct (local_operator i); [destruct (protected_alpha app), (local_rehearsal app)|destruct (header_capability i)]; by injection Hrun as <- _.
Qed.
Lemma create_reaches app request i data c r :
  create_lobby_impl app request i (mkCreation data []) = (c, r) -> without_provider (cr_log c) \/ reaches app i data (cr_log c).
Proof.
  unfold create_lobby_impl. set (dry := effective_request_dry_run app request (header_dry_run i)).
  intros [(c1 & mode & [= <- Hmode] & Hrun)|(e & [= <- _] & _)]%sbind_inv; [|by left].
  apply sbind_inv in Hrun as [(c2 & grant & Hgrant & Hrun)|(e & Hgrant & _)]; [|left; by apply grant_asks_no_provider in Hgrant].
  destruct (logs_grant _ _ _ _ _ _ Hgrant) as (log & Hlog & Hdata). cbn in Hlog, Hdata. rewrite <- Hlog in Hdata.
  apply grant_asks_no_provider in Hgrant; [|done]. unfold sbind, store_call in Hrun.
  destruct (file_step (cr_data c2) _ _) as [data1 answer] eqn:Hcreate.
  assert (Hno1 : forall op, without_provider (cr_log c2 ++ [StoreCall op (create_written i)])) by (intros op; by apply without_app).
  destruct answer as [[|[stored|stored|]|ids]|e]; cbn -[prepare_created] in Hrun; try (left; injection Hrun as <- _; apply Hno1).
  pose proof (created_reserves _ _ _ _ _ _ _ _ _ _ _ Hcreate) as [-> _].
  by eapply prepare_reaches.
Qed.

(** ** The record a first response describes *)

Definition opened (app : AppState) (i : CreateInputs) (stored : StoredLobby) : Prop :=
  state (lobby stored) = Forming /\ exists p, prepared i = Ok p /\ tailnet stored = prepared_tailnet p /\ dry_run stored = prepared_dry_run p /\
    if prepared_dry_run p then sl_lifecycle stored = Simulated
    else sl_lifecycle stored = Active /\ mode_available (cached_capabilities app) (provisioning_mode (lobby stored)) = true /\
      (exists identity, prepared_identity p = Some identity /\ validate_for_mode identity (provisioning_mode (lobby stored)) = true /\
         network_identity stored = Some (mkStoredNetworkIdentity (identity_tailnet_id identity) (identity_fqdn identity)
                                           (sl_generation stored) (create_now i))) /\
      (provisioning_mode (lobby stored) = TailnetPerLobby ->
         is_Some (prepared_policy_digest p) /\ child_policy_digest stored = prepared_policy_digest p /\
         child_policy_status stored = Some (bytes_of_string "verified")).
Definition closed (i : CreateInputs) (stored : StoredLobby) : Prop :=
  state (lobby stored) = Failed /\ terminal_at stored = Some (create_now i) /\ is_Some (state_reason (lobby stored)) /\
  (sl_cleanup_pending stored = true \/
   sl_lifecycle stored = CreateRejected /\ prepared i = Err (InsufficientScopes "organization_tailnet_create")).

Lemma moved_to next dry stored stored' : transition next dry stored = Ok stored' -> stored' = on_lobby (fun l => l <| state := next |>) stored.
Proof. unfold transition. destruct (validate_transition _ _); [by intros [= <-]|done]. Qed.
Lemma adopt_facts mode p now dry stored stored' : adopt_network mode p now dry stored = Ok stored' ->
  lobby stored' = lobby stored /\ tailnet stored' = tailnet stored /\ dry_run stored' = dry_run stored /\ sl_lifecycle stored' = Active /\
  (exists identity, prepared_identity p = Some identity /\ validate_for_mode identity mode = true /\
     network_identity stored' = Some (mkStoredNetworkIdentity (identity_tailnet_id identity) (identity_fqdn identity) (sl_generation stored') now)) /\
  (mode = TailnetPerLobby -> is_Some (prepared_policy_digest p) /\ child_policy_digest stored' = prepared_policy_digest p /\
     child_policy_status stored' = Some (bytes_of_string "verified")).
Proof.
  unfold adopt_network. destruct (prepared_identity p) as [identity|]; [|done].
  destruct (validate_for_mode identity mode) eqn:Hv; [|done]. cbn [negb].
  destruct mode, (prepared_policy_digest p) as [digest|]; try done; intros [= <-]; split_and!; eauto; done.
Qed.
Lemma accept_opens app i p dry creating stored :
  prepared i = Ok p -> accept_prepared app (provisioning_mode (lobby creating)) p (create_now i) dry creating = Ok stored ->
  opened app i stored \/ closed i stored.
Proof.
  intros Hp. unfold accept_prepared. set (mode := provisioning_mode (lobby creating)).
  destruct (if prepared_dry_run p then _ else _) as [adopted|] eqn:Hadopt; [|done].
  assert (Hsame : lobby adopted = lobby creating /\ tailnet adopted = prepared_tailnet p /\ dry_run adopted = prepared_dry_run p).
  { destruct (prepared_dry_run p); [by injection Hadopt as <-|]. apply adopt_facts in Hadopt as (-> & -> & -> & _). done. }
  destruct Hsame as (Hlobby & Htail & Hdry). unfold open_or_block. destruct (prepared_dry_run p || _) eqn:Havail.
  - intros ->%moved_to. left. split; [done|]. exists p. cbn. split_and!; try done.
    destruct (prepared_dry_run p); [by injection Hadopt as <-|]. rewrite Hlobby. fold mode.
    apply adopt_facts in Hadopt as (_ & _ & _ & Hl & Hid & Hpol). by split_and!.
  - destruct (transition Failed dry adopted) as [failed|] eqn:Ht; [|done]. apply moved_to in Ht as ->. intros [= <-]. right.
    split_and!; try done; by left.
Qed.
Lemma failed_rejected mode error : failed_lifecycle mode error = CreateRejected ->
  error = InsufficientScopes "organization_tailnet_create".
Proof.
  destruct error; cbn; try done; [destruct (is_dedicated mode) eqn:?; try done..].
  destruct (_ =? _)%string eqn:He; [|done]. by apply String.eqb_eq in He as ->.
Qed.
Lemma refuse_closes i mode error dry creating stored :
  prepared i = Err error -> refuse_prepared mode error (create_now i) dry creating = Ok stored -> closed i stored.
Proof.
  intros Hp. unfold refuse_prepared. destruct (transition Failed dry creating) as [failed|] eqn:Ht; [|done].
  apply moved_to in Ht as ->. intros [= <-]. pose proof (failed_rejected mode error) as Hrej.
  destruct error as [| | |identity digest status []| | |]; (split; [done|split; [done|split; [by eexists|]]]); first [by left|cbn; case_bool_decide as Hr; [right|by left]; split; [done|by rewrite Hp, Hrej]].
Qed.

Lemma write_stored c record written dry c' a : store_call (OpReplace record) written dry c = (c', Ok a) ->
  lobbies (cr_data c') !! lobby_id (lobby record) = Some record.
Proof.
  unfold store_call. cbn [file_step memory_step]. unfold replace_in_data.
  destruct (lobbies (cr_data c) !! lobby_id (lobby record)); [|done].
  set (data1 := (cr_data c) <| lobbies := <[lobby_id (lobby record) := record]> (lobbies (cr_data c)) |>).
  destruct (replace_lease_spec data1 record) as (Hlobs & _). unfold committed, answered. destruct written; [|done].
  intros [= <- _]. cbn [cr_data]. rewrite Hlobs. apply lookup_insert_eq.
Qed.
Lemma ask_stores app i mode dry creating c c' r :
  ask_provider app i mode dry creating c = (c', Ok r) -> provisioning_mode (lobby creating) = mode ->
  exists stored, lobbies (cr_data c') !! created_lobby_id r = Some stored /\ (opened app i stored \/ closed i stored).
Proof.
  unfold ask_provider. intros [(c1 & answer & [= <- <-] & Hrun)|(e & [=] & _)]%sbind_inv Hmode. subst mode.
  apply sbind_inv in Hrun as [(c2 & stored & [= <- Hs] & Hrun)|(e & _ & [=])].
  apply sbind_inv in Hrun as [(c3 & [|?|?] & Hw & Hrun)|(e & _ & [=])]; injection Hrun as <- <-; apply write_stored in Hw;
    exists stored; (split; [exact Hw|]); (destruct (prepared i) as [p|error] eqn:Hp; [by eapply accept_opens|right; by eapply refuse_closes]).
Qed.

(** ** The properties *)

(** C13. The store first, the provider second: a creation is a run of the store, and it calls
    the provider at most once; when it does, the store already holds the lobby, provisioning,
    under the identifier, the generation and the mode of the call, and a real lobby holds
    the one lease, is marked as being created, and was authorised. *)
Theorem network_reserved_first app request i data c r :
  create_lobby_impl app request i (mkCreation data []) = (c, r) ->
  cr_data c = store_run data (store_ops (cr_log c)) /\
  forall before prepare after, cr_log c = before ++ ProviderCall prepare :: after ->
    without_provider before /\ without_provider after /\ reserved_for app i (store_run data (store_ops before)) prepare.
Proof.
  intros Hrun. split.
  - by destruct (logs_create app request i _ _ _ Hrun) as (log & -> & ->).
  - intros before prepare after Hlog. destruct (create_reaches _ _ _ _ _ _ Hrun) as [Hno|(pre & p & post & Heq & Hpre & Hpost & Hres)].
    + rewrite Hlog in Hno. apply without_app in Hno as [_ Hno]. discriminate Hno.
    + rewrite Heq in Hlog. by apply split_unique in Hlog as (-> & -> & ->).
Qed.

(** What a first response describes is stored: a lobby that forms on the network the
    provider handed over, a real one with the captured identity of its generation and the
    verified policy of a dedicated one, in a mode the provider can serve; or a failed lobby with
    its reason and its end, whose cleanup is pending unless the provider refused outright. *)
Theorem opened_lobby_backed app request i data c response :
  create_lobby_impl app request i (mkCreation data []) = (c, Ok response) -> first_response response = true ->
  exists stored, lobbies (cr_data c) !! created_lobby_id response = Some stored /\ (opened app i stored \/ closed i stored).
Proof.
  unfold create_lobby_impl. set (dry := effective_request_dry_run app request (header_dry_run i)).
  intros [(c1 & mode & [= <- Hmode] & Hrun)|(e & _ & [=])]%sbind_inv Hfirst.
  apply sbind_inv in Hrun as [(c2 & grant & _ & Hrun)|(e & _ & [=])].
  unfold sbind at 1, store_call in Hrun. destruct (file_step (cr_data c2) _ _) as [data1 answer] eqn:Hcreate.
  destruct answer as [[|[stored|stored|]|ids]|e]; cbn -[prepare_created] in Hrun; try done; [|by injection Hrun as _ <-].
  apply created_reserves in Hcreate as [-> _]. destruct (new_record_facts app request i dry mode) as (_ & _ & Hpm & _).
  unfold prepare_created in Hrun. apply sbind_inv in Hrun as [(c3 & a & _ & Hrun)|(e & _ & [=])].
  eapply ask_stores; [exact Hrun|]. by destruct dry.
Qed.

(** The creator's capability is always one of generation 1, and the record takes the
    generation of the alpha: from any other generation on, it authorises nothing. *)
Lemma later_generation_locks_creator_out app request i dry mode alpha verifier scope player now :
  protected_alpha app = Some alpha -> local_operator i = true -> q_network_generation alpha <> 1 ->
  authorize (new_record app request i dry mode) verifier scope player now = None.
Proof.
  intros Ha Ho Hg. assert (Hgen : sl_generation (new_record app request i dry mode) = q_network_generation alpha)
    by (unfold new_record; by rewrite Ho, Ha).
  assert (Hcaps : exists cap, capabilities (new_record app request i dry mode) = [cap] /\ cap_network_generation cap = 1)
    by (unfold new_record; rewrite Ho, Ha; by eexists).
  destruct Hcaps as (cap & Hcaps & Hcap). unfold authorize. rewrite Hcaps. unfold authorizes at 1. cbn [find].
  rewrite Hgen, Hcap, (proj2 (Z.eqb_neq 1 _)) by done. by rewrite ?andb_false_r.
Qed.
End Creation.

(** ** A protected alpha, played through *)

Module CreateDemo.
Import StoreDemo.
#[export] Existing Instance demo_json.

Definition demo_config : Config := mkConfig false 600000 4 TailnetPerLobby false true true false false false.
Definition demo_app : AppState := mkAppState demo_config true None (Some demo_alpha) (mkProviderCapabilities true true true true true).
Definition demo_identity : ProviderNetworkIdentity := mkProviderNetworkIdentity (Some (bytes_of_string "T1")) (mkTailnetDnsName (bytes_of_string "t.example")).
Definition demo_network : PreparedNetwork := mkPreparedNetwork (bytes_of_string "t.example") (Some demo_identity) (Some [5]) false.
Definition simulated : PreparedNetwork := mkPreparedNetwork (bytes_of_string "dry") None None true.
Definition demo_request : CreateLobbyRequest := mkCreateLobbyRequest [82] 2 TailnetPerLobby.
Definition demo_create (dry operator : bool) (answer : result PreparedNetwork ProviderError) : CreateInputs :=
  mkCreateInputs player [if dry then 1 else 2] (fun _ => [7]) dry operator None code lobby_two (repeat 4 32) 2000 2000 answer true true true true.
Definition create (data : StoreData) (i : CreateInputs) : Creation * result CreateLobbyResponse ApiError :=
  create_lobby_impl demo_app demo_request i (mkCreation data []).
Definition launched : Creation * result CreateLobbyResponse ApiError := create admitted (demo_create false true (Ok demo_network)).
Definition is_first (r : result CreateLobbyResponse ApiError) : bool := match r with Ok response => first_response response | Err _ => false end.

(** Whoever reaches the public listener and knows no code may create a dry run: in
    protected mode it takes the identifier of the alpha, and the launch itself is then
    refused as a duplicate, before the provider is called. *)
Lemma dry_create_takes_alpha_lobby :
  let '(taken, first) := create admitted (demo_create true false (Ok simulated)) in
  let '(refused, second) := create (cr_data taken) (demo_create false true (Ok demo_network)) in
  is_first launched.2 = true /\ is_first first = true /\
  lobbies (cr_data taken) !! q_lobby_id demo_alpha <> None /\ forallb (fun e => negb (is_provider_call e)) (cr_log refused) = true /\
  second = Err (store_api_error DuplicateLobby false).
Proof. vm_compute. repeat split; congruence. Qed.
End CreateDemo.
Import CreateDemo.

Lemma network_reserved_first_witness :
  exists before prepare after, cr_log launched.1 = before ++ ProviderCall prepare :: after /\ prepare_dry_run prepare = false /\
    reserved_for demo_app (demo_create false true (Ok demo_network)) (store_run StoreDemo.admitted (store_ops before)) prepare.
Proof.
  destruct (network_reserved_first demo_app demo_request (demo_create false true (Ok demo_network)) StoreDemo.admitted launched.1 launched.2)
    as [_ Hcall]; [vm_compute; reflexivity|].
  exists (take 2 (cr_log launched.1)), (mkPrepareLobbyRequest (q_lobby_id StoreDemo.demo_alpha) 1 TailnetPerLobby false), (drop 3 (cr_log launched.1)).
  assert (Hlog : cr_log launched.1 = take 2 (cr_log launched.1) ++
    ProviderCall (mkPrepareLobbyRequest (q_lobby_id StoreDemo.demo_alpha) 1 TailnetPerLobby false) :: drop 3 (cr_log launched.1))
    by (vm_compute; reflexivity).
  split; [exact Hlog|]. split; [reflexivity|]. exact (proj2 (proj2 (Hcall _ _ _ Hlog))).
Defined.

Lemma opened_lobby_backed_witness :
  exists response stored, launched.2 = Ok response /\ lobbies (cr_data launched.1) !! created_lobby_id response = Some stored /\
    (opened demo_app (demo_create false true (Ok demo_network)) stored \/ closed (demo_create false true (Ok demo_network)) stored).
Proof.
  assert (Hfirst : is_first launched.2 = true) by (vm_compute; reflexivity).
  destruct launched.2 as [response|e] eqn:Hr; [|discriminate Hfirst]. exists response.
  destruct (opened_lobby_backed demo_app demo_request (demo_create false true (Ok demo_network)) StoreDemo.admitted launched.1 response)
    as (stored & Hs & Ho); [|exact Hfirst|exists stored; split; [reflexivity|split; [exact Hs|exact Ho]]].
  rewrite <- Hr. apply surjective_pairing.
Defined.
